(* ===== verification/_CoqProject ===== *)
-Q . S2P
Prelude.v
ArithUint256.v
Params.v
Chain.v
Pow.v
Script.v
Interpreter.v
Serialize.v
Transaction.v
SigHash.v
TxVerify.v
Block.v
Coins.v
CoinsDB.v
CoinsUpdate.v
Crypto.v
Sha2.v
Sha1Ripemd.v
Hash.v
Merkle.v
IncrementalTree.v
CheckQueue.v
StakeModifier.v
ChainState.v
ChainActivate.v
ChainInvalidate.v
ChainReceive.v
ChainFrame.v
Standard.v
Bloom.v
MerkleBlock.v
NetAddress.v
AddrMan.v
StrEncodings.v
Base58.v
Bech32.v
Compressor.v
BlockCheck.v
BlockSound.v
BlockFiles.v
AddressIndex.v
Kernel.v
ConnectBlock.v
NodeCoins.v
ConnectSound.v
NoteTree.v
BlockAccept.v
AcceptSound.v
