(* ===== verification/Prelude.v ===== *)
(** * A verification of the core of QRAX

    QRAX Core is a full node of a proof-of-stake chain in C++, derived from
    Bitcoin Core, Dash and PIVX.  This library models the parts of the node that
    decide which blocks and transactions are valid, what the coins are, which
    chain is active, and how this is written to disk and to the wire, and proves
    them correct.  The sources are under [src/src/]; file names below are
    relative to it.

    ** The program and how its parts interact

    A block that arrives from the network goes through [ProcessNewBlock]
    ([validation.cpp]).  [CheckBlock] looks at the block alone: the merkle root
    ([consensus/merkle.cpp]), the format of the transactions
    ([consensus/tx_verify.cpp]), the numbers of signature operations
    ([script/script.cpp]), the signature of the staker.  [AcceptBlock] adds its
    header to the block index ([chain.h]), checks the difficulty ([pow.cpp]) and
    the proof of stake ([kernel.cpp], [stakeinput.cpp]) and writes it to a block
    file.  [ActivateBestChain] then moves the active chain to the block with the
    most work among the candidates: it disconnects blocks with the undo data and
    connects others with [ConnectBlock].  Connecting a block runs the scripts of
    its inputs ([script/interpreter.cpp]), on the threads of the check queue
    ([checkqueue.h]), and updates a stack of caches of the unspent outputs
    ([coins.cpp]) over a database ([txdb.cpp]), the tree of note commitments
    ([sapling/incrementalmerkletree.cpp]) and the indexes of addresses.

    ** Files

    Foundations
    - [Prelude] (this file): machine integers as [Z] with the wrap-around
      functions [u32], [u64], [i32], [i64] written where the C++ may leave the
      range of a type; the tactic [mlia]; the hint databases [qrax] and
      [qrax_rw]; lemmas on bits, sums and lists.
    - [ArithUint256]: [arith_uint256.cpp], [uint256.cpp].  Numbers are lists of
      32-bit limbs and the operations are the loops over them; the class
      [BaseUintSpec] is what the rest relies on.
    - [Serialize]: [serialize.h].  A [codec] is a writer and a reader; the class
      [RoundTrip] is its promise.
    - [Crypto], [Sha2], [Sha1Ripemd], [Hash]: [crypto/common.h], [sha256.cpp],
      [sha512.cpp], [sha1.cpp], [ripemd160.cpp], the HMACs, [hash.cpp].  The
      buffering hashers against the standards.

    Data and scripts
    - [Params]: [consensus/params.h], [upgrades.cpp], the values of the main
      network of [chainparams.cpp].
    - [Script], [Interpreter], [SigHash], [Standard]: [script/script.cpp],
      [script/interpreter.cpp], [script/standard.cpp].  The local state of
      [EvalScript] is the record [eval_state], every group of cases of its
      switch is a definition.
    - [Transaction], [TxVerify], [Block]: [primitives/], [consensus/tx_verify.cpp],
      [tiertwo/specialtx_validation.cpp], [sapling/sapling_validation.cpp].
    - [Merkle], [MerkleBlock], [IncrementalTree], [Bloom]: the merkle tree of a
      block, partial merkle trees, the incremental tree of notes with its
      witnesses, and the bloom filters.
    - [StrEncodings], [Base58], [Bech32]: [utilstrencodings.cpp],
      [utilmoneystr.cpp], [base58.cpp], [bech32.cpp].  Numbers, amounts,
      addresses and keys as text.

    Coins
    - [Coins], [CoinsDB], [CoinsUpdate], [Compressor]: [coins.cpp], [txdb.cpp],
      [compressor.cpp], [undo.h].  The virtual class [CCoinsView] is a type
      class; [ViewContract] is its promise over the abstract set of unspent
      outputs [UtxoSet]; caches and the database implement it.

    Chain
    - [Chain], [Pow], [StakeModifier], [Kernel]: [chain.cpp], [pow.cpp],
      [legacy/stakemodifier.cpp], [kernel.cpp], [stakeinput.cpp].  The heap of
      block index entries is a map from pointers.
    - [ChainState] with [ChainActivate], [ChainInvalidate], [ChainReceive],
      [ChainFrame]: the choice of the active chain in [validation.cpp] against
      the interface [ChainCoins] with the laws [ChainCoinsLaws]; [NodeCoins]
      implements it with [ConnectBlock] and [DisconnectBlock].
    - [BlockCheck] with [BlockSound], [BlockFiles], [AddressIndex],
      [CheckQueue], [ConnectBlock] with [ConnectSound], [NoteTree],
      [BlockAccept] with [AcceptSound]: the rest of [validation.cpp].

    Network
    - [NetAddress], [AddrMan]: [netaddress.cpp] and [addrman.cpp], addresses of
      nodes, subnets and the tables of known addresses.

    ** What the theorems show

    - Acceptance: when a block arrives whose checks are defined and no failed
      block matches a checkpoint, [ProcessNewBlock] keeps the invariant of the
      node, and after an accepted block the tip is the best block that can be
      connected, unless a chain that was validated before is found invalid
      ([AcceptSound], [ChainActivate]); invalidating a block and receiving
      missing blocks keep the same invariant.
    - Connecting: the transactions without assets of a connected block spend
      mature unspent coins with scripts that accept; a block mints no more than
      allowed, the outputs of transactions with assets apart
      ([ConnectSound], [NoteTree]); disconnecting it restores the coins
      ([CoinsUpdate]); the check queue returns the conjunction of its checks in
      every interleaving ([CheckQueue]).
    - Coins: a stack of caches over the database behaves as the plain set of
      unspent outputs, also across a crash between two batches ([CoinsDB]).
    - Scripts: evaluation ends and respects its limits, and the templates accept
      what they should ([Interpreter], [Standard]).
    - Formats: transactions, blocks, coins, addresses and files are read back.
    - Reference equivalence: limb arithmetic, hash functions (against
      descriptions of the standards with functions and constants of their own),
      merkle trees, skip lists, difficulty.
    - Data structures: bloom filters have no false negatives, filtered blocks
      prove their transactions, and the address manager keeps its tables
      consistent.

    Some theorems state behaviour that is surely not intended, such as
    [reward_unchecked_without_address_index]; their comments say so.

    ** Errors, fuel and hypotheses

    An error that the C++ reports is a value of the model (a rejection with its
    reason and penalty, [false], an error code).  The outer [None] of an
    operation is an exception that is not caught, a failed assertion or
    undefined behaviour; a theorem says that it does not happen, or that it
    does.  Loops that are not structural have fuel that is computed from their
    input (the length of a script, the height of a block, the number of
    candidates); lemmas show that the result does not depend on it
    ([eval_loop_fuel], [decode_fuel]) or that the loop ends before it is used
    up ([activate_outer], [leave_full_files]).

    Code that is not in the repository is a parameter: the verification of
    signatures and points of the curve (libsecp256k1), BLAKE2b, the proofs and
    hashes of librustzcash, the multi-mining manager.  Collision freedom of a
    hash is a hypothesis of the theorems that need it, as a condition on the
    strings that are hashed there.  [ChainCoinsLaws] states what the choice of
    the chain expects of connecting blocks: the coins follow the tip, and
    corrupted data stop the node; [node_coins_laws] proves it of [ConnectTip] and
    [DisconnectTip].  A block that was connected may be rejected when it is
    connected again, since the payees of masternodes are only checked after the
    initial download; therefore the invariant of the chain state names the best
    tip so far, and the theorems say what holds when its chain is found invalid.
    [Wait_returns_conjunction] bounds the schedules without
    spurious wake-ups; safety holds with them.

    ** Not modelled

    - The graphical interface, the RPC and REST servers, ZMQ, the start-up and
      the configuration: input and output around the core.
    - The wallet, the signing of transactions and the building of shielded
      transactions: they use the core and do not decide validity.
    - The message handling of [net.cpp] and [net_processing.cpp]: sockets,
      threads and timers.
    - The memory pool, the fee estimation and the block assembler: policy.
    - The masternode, budget and spork managers: [ConnectBlock] asks them
      through records of their answers.
    - LevelDB, secp256k1, univalue and the SPH hash functions of the
      proof-of-work era: third-party code; the hash of a block header is a
      parameter where it is Quark.
    - Of [validation.cpp]: loading and verifying the database at start-up,
      pruning, the timing of flushes, and the notification of listeners. *)

From stdpp Require Export prelude gmap.
From stdpp Require Import numbers list.
From Stdlib Require Export ZArith Lia ZifyBool.

#[export] Set Default Goal Selector "!".
Local Open Scope Z_scope.

(** ** Machine integers

    A value of a C++ integer type of width [w] is a [Z]; every operation that
    may leave the range of its type is followed by the wrap-around function of
    that type. *)

Definition u8 (z : Z) : Z := z mod 2 ^ 8.
Definition u32 (z : Z) : Z := z mod 2 ^ 32.
Definition u64 (z : Z) : Z := z mod 2 ^ 64.

(** Two's complement truncation to [w] bits, read back as a signed number. *)
Definition swrap (w z : Z) : Z := (z + 2 ^ (w - 1)) mod 2 ^ w - 2 ^ (w - 1).
Definition i32 (z : Z) : Z := swrap 32 z.
Definition i64 (z : Z) : Z := swrap 64 z.

Definition is_u8 (z : Z) : Prop := 0 <= z < 2 ^ 8.
Definition is_u32 (z : Z) : Prop := 0 <= z < 2 ^ 32.
Definition is_u64 (z : Z) : Prop := 0 <= z < 2 ^ 64.
Definition is_i32 (z : Z) : Prop := - 2 ^ 31 <= z < 2 ^ 31.
Definition is_i64 (z : Z) : Prop := - 2 ^ 63 <= z < 2 ^ 63.

#[export] Instance is_u8_dec z : Decision (is_u8 z).
Proof. unfold is_u8. apply _. Defined.
#[export] Instance is_u32_dec z : Decision (is_u32 z).
Proof. unfold is_u32. apply _. Defined.
#[export] Instance is_u64_dec z : Decision (is_u64 z).
Proof. unfold is_u64. apply _. Defined.
#[export] Instance is_i32_dec z : Decision (is_i32 z).
Proof. unfold is_i32. apply _. Defined.
#[export] Instance is_i64_dec z : Decision (is_i64 z).
Proof. unfold is_i64. apply _. Defined.

Create HintDb qrax.
Create Rewrite HintDb qrax_rw.

Ltac unfold_widths :=
  unfold is_u8, is_u32, is_u64, is_i32, is_i64, u8, u32, u64, i32, i64, swrap in *.

(** Replaces the powers of two with a literal exponent by their values. *)
Ltac eval_pow2 :=
  repeat match goal with
  | |- context [2 ^ Zpos ?n] =>
      let v := eval vm_compute in (2 ^ Zpos n) in change (2 ^ Zpos n) with v in *
  | H : context [2 ^ Zpos ?n] |- _ =>
      let v := eval vm_compute in (2 ^ Zpos n) in change (2 ^ Zpos n) with v in *
  end.

(** Linear arithmetic over the machine types: unfolds the ranges and the
    wrap-around functions, evaluates the powers of two, and solves the rest
    with the equations of Euclidean division. *)
Ltac mlia :=
  unfold_widths; eval_pow2; try lia; Z.to_euclidean_division_equations; lia.

Lemma u8_range z : is_u8 (u8 z).
Proof. apply Z.mod_pos_bound. done. Qed.
Lemma u32_range z : is_u32 (u32 z).
Proof. apply Z.mod_pos_bound. done. Qed.
Lemma u64_range z : is_u64 (u64 z).
Proof. apply Z.mod_pos_bound. done. Qed.

Lemma u8_id z : is_u8 z → u8 z = z.
Proof. apply Z.mod_small. Qed.
Lemma u32_id z : is_u32 z → u32 z = z.
Proof. apply Z.mod_small. Qed.
Lemma u64_id z : is_u64 z → u64 z = z.
Proof. apply Z.mod_small. Qed.

Lemma swrap_range w z : 0 < w → - 2 ^ (w - 1) <= swrap w z < 2 ^ (w - 1).
Proof.
  intros Hw. unfold swrap.
  assert (2 ^ w = 2 * 2 ^ (w - 1)) as E.
  { rewrite <- Z.pow_succ_r by lia. f_equal. lia. }
  pose proof (Z.mod_pos_bound (z + 2 ^ (w - 1)) (2 ^ w)). lia.
Qed.

Lemma swrap_id w z : 0 < w → - 2 ^ (w - 1) <= z < 2 ^ (w - 1) → swrap w z = z.
Proof.
  intros Hw Hz. unfold swrap.
  assert (2 ^ w = 2 * 2 ^ (w - 1)) as E.
  { rewrite <- Z.pow_succ_r by lia. f_equal. lia. }
  rewrite Z.mod_small; lia.
Qed.

Lemma i32_id z : is_i32 z → i32 z = z.
Proof. intros. apply swrap_id; [done|]. mlia. Qed.
Lemma i64_id z : is_i64 z → i64 z = z.
Proof. intros. apply swrap_id; [done|]. mlia. Qed.
Lemma i32_range z : is_i32 (i32 z).
Proof. apply (swrap_range 32). done. Qed.
Lemma i64_range z : is_i64 (i64 z).
Proof. apply (swrap_range 64). done. Qed.

#[export] Hint Resolve u8_range u32_range u64_range i32_range i64_range : qrax.
#[export] Hint Rewrite u8_id u32_id u64_id i32_id i64_id using mlia : qrax_rw.

(** ** Bit-level lemmas *)

Lemma testbit_above (z w i : Z) : 0 <= z < 2 ^ w → w <= i → Z.testbit z i = false.
Proof.
  intros Hz Hi. destruct (decide (w < 0)).
  { rewrite Z.pow_neg_r in Hz by lia. lia. }
  rewrite <- (Z.mod_small z (2 ^ w)) by lia.
  apply Z.mod_pow2_bits_high. lia.
Qed.

(** A number whose bits from [w] on are all zero is below [2 ^ w]. *)
Lemma bits_bound (z w : Z) :
  0 <= w → 0 <= z → (∀ i, w <= i → Z.testbit z i = false) → z < 2 ^ w.
Proof.
  intros Hw Hz Hb.
  destruct (decide (z = 0)) as [->|Hnz]; [apply Z.pow_pos_nonneg; lia|].
  apply Z.log2_lt_pow2; [lia|].
  destruct (decide (Z.log2 z < w)); [done|].
  pose proof (Z.bit_log2 z ltac:(lia)) as Ht. rewrite Hb in Ht by lia. done.
Qed.

Lemma lor_bound (x y w : Z) :
  0 <= w → 0 <= x < 2 ^ w → 0 <= y < 2 ^ w → 0 <= Z.lor x y < 2 ^ w.
Proof.
  intros Hw Hx Hy. split; [apply Z.lor_nonneg; lia|].
  apply bits_bound; [done|apply Z.lor_nonneg; lia|].
  intros i Hi. rewrite Z.lor_spec, !(testbit_above _ w) by lia. done.
Qed.

Lemma land_le_l (x y : Z) : 0 <= x → 0 <= Z.land x y <= x.
Proof.
  intros Hx. split; [apply Z.land_nonneg; lia|].
  pose proof (Z.sub_nocarry_ldiff x (Z.land x y)) as E.
  assert (Z.ldiff (Z.land x y) x = 0) as Hd.
  { apply Z.bits_inj'. intros n Hn. rewrite Z.ldiff_spec, Z.land_spec, Z.bits_0.
    by destruct (Z.testbit x n), (Z.testbit y n). }
  specialize (E Hd).
  assert (0 <= Z.ldiff x (Z.land x y)) by (apply Z.ldiff_nonneg; lia).
  lia.
Qed.

(** Adding two numbers without common bits is their bitwise or. *)
Lemma lor_add_shift (x y w : Z) :
  0 <= w → 0 <= x < 2 ^ w → Z.lor x (Z.shiftl y w) = x + y * 2 ^ w.
Proof.
  intros Hw Hx. rewrite <- Z.shiftl_mul_pow2 by done.
  symmetry.
  rewrite <- Z.lxor_lor; [apply Z.add_nocarry_lxor|].
  all: apply Z.bits_inj'; intros n Hn; rewrite Z.land_spec, Z.bits_0;
    destruct (decide (n < w));
    [rewrite Z.shiftl_spec_low by lia; apply andb_false_r
    |rewrite (testbit_above x w) by lia; done].
Qed.

(** ** Lists *)

Lemma filter_all {A} (P : A → Prop) `{∀ x, Decision (P x)} (l : list A) :
  Forall P l → filter P l = l.
Proof. induction 1 as [|x l Hx _ IH]; [done|]. by rewrite filter_cons_True, IH. Qed.

(** The sum of a function over a list. *)
Fixpoint sum_of {A} (f : A → Z) (l : list A) : Z := match l with [] => 0 | a :: l => f a + sum_of f l end.

Lemma sum_of_nonneg {A} (f : A → Z) l : (∀ a, 0 <= f a) → 0 <= sum_of f l.
Proof. intros Hf. induction l as [|a l IH]; cbn; [done|]. specialize (Hf a). lia. Qed.
Lemma sum_of_le {A} (f g : A → Z) l : (∀ a, a ∈ l → f a <= g a) → sum_of f l <= sum_of g l.
Proof.
  induction l as [|a l IH]; cbn; intros Hf; [done|]. pose proof (Hf a ltac:(by left)).
  assert (sum_of f l <= sum_of g l); [|lia]. apply IH. intros b Hb. apply Hf. by right.
Qed.
Lemma sum_of_elem {A} (f : A → Z) a l : (∀ a, 0 <= f a) → a ∈ l → f a <= sum_of f l.
Proof.
  intros Hf. induction l as [|b l IH]; intros Ha; [by apply elem_of_nil in Ha|]. cbn. pose proof (sum_of_nonneg f l Hf). pose proof (Hf b).
  apply elem_of_cons in Ha as [->|Ha]; [lia|]. specialize (IH Ha). lia.
Qed.
Lemma sum_of_scale {A} (f : A → Z) c l : sum_of (λ a, c * f a) l = c * sum_of f l.
Proof. induction l as [|a l IH]; cbn; lia. Qed.

(** A 32-bit accumulator does not wrap while the sum fits. *)
Lemma foldl_u32 {A} (f : A → Z) l n : (∀ a, a ∈ l → 0 <= f a) → 0 <= n → n + sum_of f l < 2 ^ 32 →
  foldl (λ n a, u32 (n + f a)) n l = n + sum_of f l.
Proof.
  revert n. induction l as [|a l IH]; cbn; intros n Hf Hn Hs; [lia|].
  pose proof (Hf a ltac:(by left)). assert (0 <= sum_of f l).
  { clear -Hf. induction l as [|b l IH]; cbn; [done|]. pose proof (Hf b ltac:(right; by left)). assert (0 <= sum_of f l); [|lia].
    apply IH. intros c [->|Hc]%elem_of_cons; apply Hf; [by left|right; by right]. }
  rewrite u32_id by mlia. rewrite IH; [lia| |lia|lia]. intros b Hb. apply Hf. by right.
Qed.
