(* ===== verification/ArithUint256.v ===== *)
(** * Fixed-width big integers: src/src/arith_uint256.{h,cpp}, uint256.{h,cpp}

    [base_uint<BITS>] is an array [pn] of [WIDTH = BITS/32] limbs of type
    [uint32_t], least significant first.  Here a value is the list of its
    limbs; [WIDTH] is the length of the list, and [wf WIDTH] says that it has
    that length and that every limb fits in 32 bits.  [val] is the number the
    limbs denote.  The operations are the C++ loops; the lemmas of the second
    part show that each of them computes the intended operation on numbers
    modulo [2 ^ BITS], the contract ([BaseUintSpec]) which the rest of the
    development relies on. *)

From S2P Require Import Prelude.
Local Open Scope Z_scope.

(** ** Data and operations *)

Abbreviation base_uint := (list Z).

Fixpoint val (pn : base_uint) : Z :=
  match pn with
  | [] => 0
  | x :: r => x + 2 ^ 32 * val r
  end.

Definition wf (WIDTH : nat) (pn : base_uint) : Prop :=
  length pn = WIDTH ∧ Forall is_u32 pn.

#[export] Instance wf_dec W pn : Decision (wf W pn).
Proof. unfold wf. apply _. Defined.

(** [pn[i]] (every index the code uses is in range). *)
Definition limb (pn : base_uint) (i : nat) : Z := nth i pn 0.

(** [base_uint()], also [SetNull()]. *)
Definition uint_zero (WIDTH : nat) : base_uint := replicate WIDTH 0.

(** [base_uint(uint64_t b)] and [operator=(uint64_t b)]. *)
Definition uint_of_u64 (WIDTH : nat) (b : Z) : base_uint :=
  [u32 b; u32 (Z.shiftr b 32)] ++ replicate (WIDTH - 2) 0.

Definition uint_IsNull (pn : base_uint) : bool := forallb (Z.eqb 0) pn.

Definition uint_not (pn : base_uint) : base_uint := (λ x, u32 (Z.lnot x)) <$> pn.

(** [operator++]: [while (++pn[i] == 0 && i < WIDTH-1) i++]. *)
Fixpoint uint_incr (pn : base_uint) : base_uint :=
  match pn with
  | [] => []
  | x :: r => let x' := u32 (x + 1) in x' :: (if x' =? 0 then uint_incr r else r)
  end.

(** [operator--]: [while (--pn[i] == (uint32_t)-1 && i < WIDTH-1) i++]. *)
Fixpoint uint_decr (pn : base_uint) : base_uint :=
  match pn with
  | [] => []
  | x :: r => let x' := u32 (x - 1) in x' :: (if x' =? u32 (-1) then uint_decr r else r)
  end.

Definition uint_neg (pn : base_uint) : base_uint := uint_incr (uint_not pn).

Definition uint_and (a b : base_uint) : base_uint := zip_with Z.land a b.
Definition uint_or (a b : base_uint) : base_uint := zip_with Z.lor a b.
Definition uint_xor (a b : base_uint) : base_uint := zip_with Z.lxor a b.

(** [operator+=]: the loop with its 64-bit accumulator. *)
Fixpoint uint_add_loop (carry : Z) (a b : base_uint) : base_uint :=
  match a, b with
  | x :: a', y :: b' =>
      let n := u64 (carry + x + y) in
      Z.land n 0xffffffff :: uint_add_loop (Z.shiftr n 32) a' b'
  | _, _ => []
  end.
Definition uint_add (a b : base_uint) : base_uint := uint_add_loop 0 a b.
Definition uint_sub (a b : base_uint) : base_uint := uint_add a (uint_neg b).

(** [operator*=(uint32_t)]. *)
Fixpoint uint_mul32_loop (carry : Z) (a : base_uint) (b32 : Z) : base_uint :=
  match a with
  | [] => []
  | x :: a' =>
      let n := u64 (carry + b32 * x) in
      Z.land n 0xffffffff :: uint_mul32_loop (Z.shiftr n 32) a' b32
  end.
Definition uint_mul32 (a : base_uint) (b32 : Z) : base_uint := uint_mul32_loop 0 a b32.

(** [operator*=(const base_uint&)].  The inner loop runs over the limbs
    [pn[j..WIDTH-1]] with [b.pn[0..WIDTH-1-j]]; row [j] leaves [pn[0..j-1]]
    alone. *)
Fixpoint uint_mul_row (carry : Z) (pn : base_uint) (aj : Z) (b : base_uint) : base_uint :=
  match pn, b with
  | x :: pn', y :: b' =>
      let n := u64 (carry + x + aj * y) in
      Z.land n 0xffffffff :: uint_mul_row (Z.shiftr n 32) pn' aj b'
  | _, _ => []
  end.
Fixpoint uint_mul_loop (pn a b : base_uint) : base_uint :=
  match a with
  | [] => pn
  | aj :: a' =>
      match uint_mul_row 0 pn aj b with
      | [] => []
      | x :: pn' => x :: uint_mul_loop pn' a' b
      end
  end.
Definition uint_mul (a b : base_uint) : base_uint :=
  uint_mul_loop (uint_zero (length a)) a b.

(** [operator<<=] and [operator>>=]; [or_at i x] is [pn[i] |= x]. *)
Definition or_at (i : nat) (x : Z) (pn : base_uint) : base_uint :=
  alter (λ y, Z.lor y x) i pn.

Definition uint_shl_step (a : base_uint) (k : nat) (s : Z) (pn : base_uint) (i : nat) : base_uint :=
  let W := length a in
  let pn := if bool_decide (i + k + 1 < W)%nat && negb (s =? 0)
            then or_at (i + k + 1) (Z.shiftr (limb a i) (32 - s)) pn else pn in
  if bool_decide (i + k < W)%nat then or_at (i + k) (u32 (Z.shiftl (limb a i) s)) pn else pn.
Definition uint_shl (a : base_uint) (shift : Z) : base_uint :=
  foldl (uint_shl_step a (Z.to_nat (shift / 32)) (shift mod 32))
    (uint_zero (length a)) (seq 0 (length a)).

Definition uint_shr_step (a : base_uint) (k : nat) (s : Z) (pn : base_uint) (i : nat) : base_uint :=
  let pn := if bool_decide (k + 1 <= i)%nat && negb (s =? 0)
            then or_at (i - k - 1) (u32 (Z.shiftl (limb a i) (32 - s))) pn else pn in
  if bool_decide (k <= i)%nat then or_at (i - k) (Z.shiftr (limb a i) s) pn else pn.
Definition uint_shr (a : base_uint) (shift : Z) : base_uint :=
  foldl (uint_shr_step a (Z.to_nat (shift / 32)) (shift mod 32))
    (uint_zero (length a)) (seq 0 (length a)).

(** [CompareTo], scanning from the most significant limb. *)
Fixpoint uint_compare_from (i : nat) (a b : base_uint) : Z :=
  match i with
  | O => 0
  | S j => if limb a j <? limb b j then -1
           else if limb b j <? limb a j then 1
           else uint_compare_from j a b
  end.
Definition uint_CompareTo (a b : base_uint) : Z := uint_compare_from (length a) a b.
Definition uint_ltb (a b : base_uint) : bool := uint_CompareTo a b <? 0.
Definition uint_leb (a b : base_uint) : bool := uint_CompareTo a b <=? 0.
Definition uint_gtb (a b : base_uint) : bool := 0 <? uint_CompareTo a b.
Definition uint_geb (a b : base_uint) : bool := 0 <=? uint_CompareTo a b.

(** [EqualTo(uint64_t)]. *)
Definition uint_EqualTo (a : base_uint) (b : Z) : bool :=
  if negb (forallb (Z.eqb 0) (drop 2 a)) then false
  else if negb (limb a 1 =? Z.shiftr b 32) then false
  else if negb (limb a 0 =? Z.land b 0xffffffff) then false
  else true.

(** [bits()]: the inner loop runs [bits] from 31 down to 1. *)
Fixpoint limb_bits_from (bits : nat) (x : Z) : Z :=
  match bits with
  | O => 1
  | S b => if negb (Z.land x (Z.shiftl 1 (Z.of_nat bits)) =? 0) then Z.of_nat bits + 1
           else limb_bits_from b x
  end.
Fixpoint uint_bits_from (pos : nat) (pn : base_uint) : Z :=
  match pos with
  | O => 0
  | S p => if negb (limb pn p =? 0) then 32 * Z.of_nat p + limb_bits_from 31 (limb pn p)
           else uint_bits_from p pn
  end.
Definition uint_bits (pn : base_uint) : Z := uint_bits_from (length pn) pn.

(** [operator/=]: the shift-and-subtract loop [while (shift >= 0)], run for
    [S shift] rounds; [None] is the [uint_error] thrown on division by zero. *)
Fixpoint uint_div_loop (rounds : nat) (quot num div : base_uint) : base_uint * base_uint :=
  match rounds with
  | O => (quot, num)
  | S shift =>
      let ge := uint_geb num div in
      let num' := if ge then uint_sub num div else num in
      let quot' := if ge
                   then or_at (shift / 32) (u32 (Z.shiftl 1 (Z.land (Z.of_nat shift) 31))) quot
                   else quot in
      uint_div_loop shift quot' num' (uint_shr div 1)
  end.
Definition uint_div (a b : base_uint) : option base_uint :=
  let num_bits := uint_bits a in
  let div_bits := uint_bits b in
  if div_bits =? 0 then None
  else if num_bits <? div_bits then Some (uint_zero (length a))
  else
    let shift := num_bits - div_bits in
    Some (uint_div_loop (S (Z.to_nat shift)) (uint_zero (length a)) a (uint_shl b shift)).1.

Definition uint_GetLow64 (pn : base_uint) : Z :=
  Z.lor (limb pn 0) (Z.shiftl (limb pn 1) 32).

(** *** The 256-bit class and its compact form *)

Definition W256 : nat := 8.
Abbreviation wf256 := (wf W256).

Record compact_result := {
  compact_value : base_uint;
  compact_fNegative : bool;
  compact_fOverflow : bool;
}.

Definition SetCompact (nCompact : Z) : compact_result :=
  let nSize := Z.shiftr nCompact 24 in
  let nWord0 := Z.land nCompact 0x007fffff in
  let nWord := if nSize <=? 3 then Z.shiftr nWord0 (8 * (3 - nSize)) else nWord0 in
  {| compact_value :=
       if nSize <=? 3 then uint_of_u64 W256 nWord
       else uint_shl (uint_of_u64 W256 nWord) (8 * (nSize - 3));
     compact_fNegative := negb (nWord =? 0) && negb (Z.land nCompact 0x00800000 =? 0);
     compact_fOverflow := negb (nWord =? 0) &&
       ((34 <? nSize) || ((0xff <? nWord) && (33 <? nSize))
        || ((0xffff <? nWord) && (32 <? nSize))) |}.

(** [GetCompact]; [None] is a failing [assert]. *)
Definition GetCompact (pn : base_uint) (fNegative : bool) : option Z :=
  let nSize := (uint_bits pn + 7) / 8 in
  let nCompact :=
    if nSize <=? 3 then u32 (u64 (Z.shiftl (uint_GetLow64 pn) (8 * (3 - nSize))))
    else u32 (uint_GetLow64 (uint_shr pn (8 * (nSize - 3)))) in
  let sign := negb (Z.land nCompact 0x00800000 =? 0) in
  let nCompact := if sign then Z.shiftr nCompact 8 else nCompact in
  let nSize := if sign then nSize + 1 else nSize in
  if negb (Z.land nCompact (u32 (Z.lnot 0x007fffff)) =? 0) then None
  else if negb (nSize <? 256) then None
  else
    let nCompact := Z.lor nCompact (u32 (Z.shiftl nSize 24)) in
    Some (Z.lor nCompact
            (if fNegative && negb (Z.land nCompact 0x007fffff =? 0) then 0x00800000 else 0)).

(** ** The numbers the limbs denote *)

Definition bits_of (W : nat) : Z := 32 * Z.of_nat W.
Definition modulus (W : nat) : Z := 2 ^ bits_of W.

Lemma modulus_pos W : 0 < modulus W.
Proof. apply Z.pow_pos_nonneg; unfold bits_of; lia. Qed.

Lemma modulus_S W : modulus (S W) = 2 ^ 32 * modulus W.
Proof. unfold modulus, bits_of. rewrite <- Z.pow_add_r by lia. f_equal. lia. Qed.

Lemma val_bounds pn : Forall is_u32 pn → 0 <= val pn < modulus (length pn).
Proof.
  induction 1 as [|x r Hx _ IH]; [done|]. cbn [val length].
  rewrite modulus_S. mlia.
Qed.

Lemma wf_bounds W pn : wf W pn → 0 <= val pn < modulus W.
Proof. intros [<- H]. by apply val_bounds. Qed.

Lemma val_app a b : val (a ++ b) = val a + modulus (length a) * val b.
Proof.
  induction a as [|x a IH]; cbn [val app length]; [by rewrite Z.mul_1_l|].
  rewrite IH, modulus_S. lia.
Qed.

Lemma val_replicate_0 n : val (replicate n 0) = 0.
Proof. induction n as [|n IH]; cbn [replicate val]; lia. Qed.

Lemma val_inj a b : length a = length b → Forall is_u32 a → Forall is_u32 b →
  val a = val b → a = b.
Proof.
  intros Hl Ha. revert b Hl. induction Ha as [|x a Hx Ha IH]; intros [|y b] Hl Hb; try done.
  apply Forall_cons in Hb as [Hy Hb]. cbn [val]. intros E.
  assert (x = y) as -> by mlia. f_equal. apply IH; [by injection Hl|done|lia].
Qed.

Lemma wf_inj W a b : wf W a → wf W b → val a = val b → a = b.
Proof. intros [Ha Ha'] [Hb Hb']. apply val_inj; congruence. Qed.

Lemma wf_lookup a i : Forall is_u32 a → is_u32 (limb a i).
Proof.
  intros Ha. unfold limb. rewrite nth_lookup. destruct (a !! i) as [x|] eqn:E; [|done].
  by apply (Forall_lookup_1 _ _ _ _ Ha E).
Qed.

Lemma val_testbit a i :
  Forall is_u32 a → 0 <= i →
  Z.testbit (val a) i = Z.testbit (limb a (Z.to_nat (i / 32))) (i mod 32).
Proof.
  intros Ha. revert i. induction Ha as [|x a Hx Ha IH]; intros i Hi.
  { unfold limb. rewrite nth_lookup, lookup_nil. cbn. by rewrite !Z.bits_0. }
  cbn [val]. rewrite (Z.mul_comm (2 ^ 32)), <- lor_add_shift by (done || apply Hx).
  rewrite Z.lor_spec, Z.shiftl_spec by done.
  destruct (decide (i < 32)) as [Hlt|Hge].
  - rewrite (Z.testbit_neg_r (val a)) by lia. rewrite Z.div_small, Z.mod_small by lia.
    by rewrite orb_false_r.
  - rewrite (testbit_above x 32) by (done || lia). rewrite orb_false_l, IH by lia.
    replace i with ((i - 32) + 1 * 32) at 3 4 by lia.
    rewrite Z.div_add, Z.mod_add by lia.
    rewrite Z2Nat.inj_add by (lia || (apply Z.div_pos; lia)).
    by rewrite Nat.add_1_r.
Qed.

(** ** Addition, complement, subtraction *)

Lemma land_mask32 n : Z.land n 0xffffffff = n mod 2 ^ 32.
Proof. by rewrite <- Z.land_ones. Qed.

Lemma split32 n : n mod 2 ^ 32 + 2 ^ 32 * Z.shiftr n 32 = n.
Proof. rewrite Z.shiftr_div_pow2 by done. pose proof (Z.div_mod n (2 ^ 32)). lia. Qed.

(** One limb of a carry loop: the low limb and the reduced rest recombine. *)
Lemma limb_mod r q W :
  0 <= r < 2 ^ 32 →
  r + 2 ^ 32 * (q mod modulus W) = (r + 2 ^ 32 * q) mod modulus (S W).
Proof.
  intros Hr. rewrite modulus_S. pose proof (modulus_pos W) as HM.
  pose proof (Z.mod_pos_bound q (modulus W) HM).
  apply (Z.mod_unique _ _ (q / modulus W)); [lia|].
  pose proof (Z.div_mod q (modulus W)). lia.
Qed.

(** The step all carry loops share: emit the low limb of [n], carry the rest. *)
Lemma carry_step W n rest q :
  wf W rest → val rest = (q + Z.shiftr n 32) mod modulus W →
  wf (S W) (Z.land n 0xffffffff :: rest) ∧
  val (Z.land n 0xffffffff :: rest) = (n + 2 ^ 32 * q) mod modulus (S W).
Proof.
  intros [Hl Hf] Hv. rewrite land_mask32. split.
  - split; cbn [length]; [by rewrite Hl|]. constructor; [apply u32_range|done].
  - cbn [val]. rewrite Hv, limb_mod by (apply Z.mod_pos_bound; done).
    f_equal. pose proof (split32 n). lia.
Qed.

Lemma uint_add_loop_spec carry a b :
  length a = length b → Forall is_u32 a → Forall is_u32 b → 0 <= carry <= 1 →
  wf (length a) (uint_add_loop carry a b) ∧
  val (uint_add_loop carry a b) = (val a + val b + carry) mod modulus (length a).
Proof.
  intros Hl Ha. revert b carry Hl.
  induction Ha as [|x a Hx Ha IH]; intros [|y b] carry Hl Hb Hc; try done.
  { split; [done|]. symmetry. apply Z.mod_1_r. }
  apply Forall_cons in Hb as [Hy Hb]. injection Hl as Hl. cbn [uint_add_loop length].
  rewrite u64_id by mlia.
  destruct (IH b (Z.shiftr (carry + x + y) 32)) as [Hwf Hv]; [done..| |].
  { rewrite Z.shiftr_div_pow2 by done. mlia. }
  destruct (carry_step _ (carry + x + y) _ (val a + val b) Hwf Hv) as [Hwf' ->].
  split; [done|]. cbn [val]. f_equal. lia.
Qed.

Lemma uint_add_spec W a b :
  wf W a → wf W b → wf W (uint_add a b) ∧ val (uint_add a b) = (val a + val b) mod modulus W.
Proof.
  intros [<- Ha] [Hb Hb']. unfold uint_add.
  destruct (uint_add_loop_spec 0 a b) as [? ->]; [done..|]. by rewrite Z.add_0_r.
Qed.

Lemma lnot_u32 x : is_u32 x → u32 (Z.lnot x) = 2 ^ 32 - 1 - x.
Proof.
  intros Hx. unfold u32, Z.lnot.
  replace (Z.pred (- x)) with ((2 ^ 32 - 1 - x) + (-1) * 2 ^ 32) by lia.
  rewrite Z.mod_add, Z.mod_small by mlia. done.
Qed.

Lemma uint_not_spec W a :
  wf W a → wf W (uint_not a) ∧ val (uint_not a) = modulus W - 1 - val a.
Proof.
  intros [<- Ha]. induction Ha as [|x a Hx Ha [[Hl Hf] Hv]]; [done|].
  unfold uint_not in *. cbn [fmap list_fmap val length]. rewrite Hv, lnot_u32, modulus_S by done.
  split; [|lia]. split; cbn [length]; [by rewrite Hl|]. constructor; [mlia|done].
Qed.

Lemma uint_incr_spec W a :
  wf W a → wf W (uint_incr a) ∧ val (uint_incr a) = (val a + 1) mod modulus W.
Proof.
  intros [<- Ha]. induction Ha as [|x a Hx Ha [[Hl Hf] Hv]].
  { split; [done|]. symmetry. apply Z.mod_1_r. }
  cbn [uint_incr length val]. destruct (Z.eqb_spec (u32 (x + 1)) 0) as [E|E].
  - rewrite E, Hv. assert (x = 2 ^ 32 - 1) as -> by mlia. split.
    + split; cbn [length]; [by rewrite Hl|]. by constructor.
    + rewrite limb_mod by done. f_equal. lia.
  - assert (x <> 2 ^ 32 - 1) by (intros ->; done). rewrite u32_id by mlia. split.
    + split; [done|]. constructor; [mlia|done].
    + pose proof (val_bounds a Ha). rewrite Z.mod_small; [lia|]. rewrite modulus_S. mlia.
Qed.

Lemma uint_decr_spec W a :
  wf W a → wf W (uint_decr a) ∧ val (uint_decr a) = (val a - 1) mod modulus W.
Proof.
  intros [<- Ha]. induction Ha as [|x a Hx Ha [[Hl Hf] Hv]].
  { split; [done|]. symmetry. apply Z.mod_1_r. }
  cbn [uint_decr length val]. destruct (Z.eqb_spec (u32 (x - 1)) (u32 (-1))) as [E|E].
  - rewrite E, Hv. assert (x = 0) as -> by mlia. split.
    + split; cbn [length]; [by rewrite Hl|]. by constructor.
    + rewrite limb_mod by done. f_equal. change (u32 (-1)) with (2 ^ 32 - 1). lia.
  - assert (x <> 0) by (intros ->; done). rewrite u32_id by mlia. split.
    + split; [done|]. constructor; [mlia|done].
    + pose proof (val_bounds a Ha). rewrite Z.mod_small; [lia|]. rewrite modulus_S. mlia.
Qed.

Lemma uint_neg_spec W a :
  wf W a → wf W (uint_neg a) ∧ val (uint_neg a) = (- val a) mod modulus W.
Proof.
  intros Ha. unfold uint_neg. destruct (uint_not_spec W a Ha) as [Hn Hv].
  destruct (uint_incr_spec W _ Hn) as [? ->]. split; [done|]. rewrite Hv.
  replace (modulus W - 1 - val a + 1) with (- val a + 1 * modulus W) by lia.
  apply Z.mod_add. pose proof (modulus_pos W). lia.
Qed.

Lemma uint_sub_spec W a b :
  wf W a → wf W b → wf W (uint_sub a b) ∧ val (uint_sub a b) = (val a - val b) mod modulus W.
Proof.
  intros Ha Hb. unfold uint_sub. destruct (uint_neg_spec W b Hb) as [Hn Hv].
  destruct (uint_add_spec W a _ Ha Hn) as [? ->]. split; [done|].
  rewrite Hv, Z.add_mod_idemp_r by (pose proof (modulus_pos W); lia). done.
Qed.

(** ** Multiplication *)

Lemma uint_mul32_loop_spec carry a b32 :
  Forall is_u32 a → is_u32 b32 → is_u32 carry →
  wf (length a) (uint_mul32_loop carry a b32) ∧
  val (uint_mul32_loop carry a b32) = (val a * b32 + carry) mod modulus (length a).
Proof.
  intros Ha Hb. revert carry. induction Ha as [|x a Hx Ha IH]; intros carry Hc.
  { split; [done|]. symmetry. apply Z.mod_1_r. }
  cbn [uint_mul32_loop length].
  assert (0 <= b32 * x <= (2 ^ 32 - 1) * (2 ^ 32 - 1)) as Hbx by (unfold_widths; nia).
  rewrite u64_id by mlia.
  destruct (IH (Z.shiftr (carry + b32 * x) 32)) as [Hwf Hv].
  { rewrite Z.shiftr_div_pow2 by done. mlia. }
  destruct (carry_step _ (carry + b32 * x) _ (val a * b32) Hwf Hv) as [Hwf' ->].
  split; [done|]. cbn [val]. f_equal. lia.
Qed.

Lemma uint_mul32_spec W a b32 :
  wf W a → is_u32 b32 →
  wf W (uint_mul32 a b32) ∧ val (uint_mul32 a b32) = (val a * b32) mod modulus W.
Proof.
  intros [<- Ha] Hb. unfold uint_mul32.
  destruct (uint_mul32_loop_spec 0 a b32) as [? ->]; [done..|]. by rewrite Z.add_0_r.
Qed.

Lemma uint_mul_row_spec carry pn aj b :
  Forall is_u32 pn → Forall is_u32 b → is_u32 aj → is_u32 carry → (length pn <= length b)%nat →
  wf (length pn) (uint_mul_row carry pn aj b) ∧
  val (uint_mul_row carry pn aj b) = (val pn + aj * val b + carry) mod modulus (length pn).
Proof.
  intros Hp. revert carry b. induction Hp as [|x pn Hx Hp IH]; intros carry b Hb Ha Hc Hl.
  { split; [by destruct b|]. symmetry. apply Z.mod_1_r. }
  destruct b as [|y b]; cbn [length] in Hl; [lia|]. apply Forall_cons in Hb as [Hy Hb].
  cbn [uint_mul_row length].
  assert (0 <= aj * y <= (2 ^ 32 - 1) * (2 ^ 32 - 1)) as Hay by (unfold_widths; nia).
  rewrite u64_id by mlia.
  destruct (IH (Z.shiftr (carry + x + aj * y) 32) b) as [Hwf Hv]; [done..| |lia|].
  { rewrite Z.shiftr_div_pow2 by done. mlia. }
  destruct (carry_step _ (carry + x + aj * y) _ (val pn + aj * val b) Hwf Hv) as [Hwf' ->].
  split; [done|]. cbn [val]. f_equal. lia.
Qed.

Lemma uint_mul_loop_spec pn a b :
  Forall is_u32 pn → Forall is_u32 a → Forall is_u32 b →
  length pn = length a → (length a <= length b)%nat →
  wf (length a) (uint_mul_loop pn a b) ∧
  val (uint_mul_loop pn a b) = (val pn + val a * val b) mod modulus (length a).
Proof.
  intros Hp Ha. revert pn Hp. induction Ha as [|x a Hx Ha IH]; intros pn Hp Hb Hl Hlb.
  { destruct pn; [|done]. split; [done|]. symmetry. apply Z.mod_1_r. }
  cbn [uint_mul_loop length val].
  destruct (uint_mul_row_spec 0 pn x b) as [[Hrl Hrf] Hrv]; [done..|by rewrite Hl|].
  rewrite Hl in Hrl, Hrv. destruct (uint_mul_row 0 pn x b) as [|y r]; [done|].
  cbn [length val] in *. injection Hrl as Hrl. apply Forall_cons in Hrf as [Hy Hr].
  destruct (IH r Hr Hb Hrl ltac:(lia)) as [[Hl' Hf'] Hv']. split.
  - split; cbn [length]; [by rewrite Hl'|]. by constructor.
  - rewrite Hv', limb_mod by apply Hy.
    replace (y + 2 ^ 32 * (val r + val a * val b))
      with ((y + 2 ^ 32 * val r) + 2 ^ 32 * val a * val b) by lia.
    rewrite Hrv, Z.add_mod_idemp_l by (pose proof (modulus_pos (S (length a))); lia).
    f_equal. lia.
Qed.

Lemma uint_zero_spec W : wf W (uint_zero W) ∧ val (uint_zero W) = 0.
Proof.
  split; [|apply val_replicate_0]. split; [apply length_replicate|].
  by apply Forall_replicate.
Qed.

Lemma uint_mul_spec W a b :
  wf W a → wf W b → wf W (uint_mul a b) ∧ val (uint_mul a b) = (val a * val b) mod modulus W.
Proof.
  intros [<- Ha] [Hb Hb']. unfold uint_mul. destruct (uint_zero_spec (length a)) as [[Hl Hf] Hv].
  destruct (uint_mul_loop_spec (uint_zero (length a)) a b) as [? ->]; [done..|lia|].
  by rewrite Hv.
Qed.

(** ** Shifts *)

Lemma limb_or_at i j x pn :
  (i < length pn)%nat →
  limb (or_at i x pn) j = if decide (i = j) then Z.lor (limb pn j) x else limb pn j.
Proof.
  intros Hi. unfold limb, or_at. rewrite !nth_lookup.
  destruct (decide (i = j)) as [->|Hne].
  - rewrite list_lookup_alter_eq. by destruct (lookup_lt_is_Some_2 pn j Hi) as [y ->].
  - by rewrite list_lookup_alter_ne.
Qed.

Lemma length_or_at i x pn : length (or_at i x pn) = length pn.
Proof. apply length_alter. Qed.

Lemma limb_zero W j : limb (uint_zero W) j = 0.
Proof.
  unfold limb. rewrite nth_lookup. destruct (uint_zero W !! j) eqn:E; [|done].
  by apply lookup_replicate in E as [-> _].
Qed.

Lemma limb_above a j : (length a <= j)%nat → limb a j = 0.
Proof. apply nth_overflow. Qed.

(** The limbs the left-shift loop has built after the first [n] rounds. *)
Definition shl_limb (a : base_uint) (k : nat) (s : Z) (n j : nat) : Z :=
  Z.lor (if decide (k + 1 <= j < n + k + 1)%nat then Z.shiftr (limb a (j - k - 1)) (32 - s) else 0)
        (if decide (k <= j < n + k)%nat then u32 (Z.shiftl (limb a (j - k)) s) else 0).

Lemma shiftr_32_0 x : is_u32 x → Z.shiftr x 32 = 0.
Proof. intros Hx. rewrite Z.shiftr_div_pow2 by done. apply Z.div_small. apply Hx. Qed.

Lemma uint_shl_loop_spec a k s n :
  Forall is_u32 a → 0 <= s < 32 → (n <= length a)%nat →
  let pn := foldl (uint_shl_step a k s) (uint_zero (length a)) (seq 0 n) in
  length pn = length a ∧ ∀ j, (j < length a)%nat → limb pn j = shl_limb a k s n j.
Proof.
  intros Ha Hs. induction n as [|n IH]; intros Hn; cbv zeta.
  { split; [apply length_replicate|]. intros j Hj. cbn [seq foldl]. rewrite limb_zero.
    unfold shl_limb. by rewrite !decide_False by lia. }
  rewrite seq_S, foldl_app. cbn [foldl]. rewrite Nat.add_0_l.
  destruct (IH ltac:(lia)) as [Hl Hj]. clear IH.
  set (pn := foldl _ _ (seq 0 n)) in *. unfold uint_shl_step.
  set (pn1 := if _ && _ then _ else pn).
  assert (length pn1 = length a) as Hl1.
  { subst pn1. destruct (_ && _); [by rewrite length_or_at|done]. }
  assert (∀ j, (j < length a)%nat → limb pn1 j =
            Z.lor (limb pn j) (if decide (j = n + k + 1)%nat then Z.shiftr (limb a n) (32 - s) else 0)) as H1.
  { intros j Hjl. subst pn1. case_bool_decide as Hlt; cbn [andb].
    - destruct (Z.eqb_spec s 0) as [->|Hs0]; cbn [negb].
      + rewrite Z.sub_0_r, (shiftr_32_0 (limb a n)) by (by apply wf_lookup).
        destruct (decide _); by rewrite Z.lor_0_r.
      + rewrite limb_or_at by lia. repeat case_decide; try lia; by rewrite ?Z.lor_0_r.
    - rewrite decide_False by lia. by rewrite Z.lor_0_r. }
  split; [case_bool_decide; by rewrite ?length_or_at|].
  intros j Hjl.
  transitivity (Z.lor (limb pn1 j) (if decide (j = n + k)%nat then u32 (Z.shiftl (limb a n) s) else 0)).
  { case_bool_decide as Hlt.
    - rewrite limb_or_at by lia. repeat case_decide; try lia; by rewrite ?Z.lor_0_r.
    - rewrite decide_False by lia. by rewrite Z.lor_0_r. }
  rewrite H1, Hj by done. unfold shl_limb.
  repeat case_decide; try lia; subst; rewrite ?Z.lor_0_r, ?Z.lor_0_l;
    rewrite ?(Nat.add_sub n k : (n + k - k)%nat = n); try done.
  by replace (n + k + 1 - k - 1)%nat with n by lia.
Qed.

Lemma testbit_shl_limb a k s j i :
  Forall is_u32 a → 0 <= s < 32 → 0 <= i < 32 → (j < length a)%nat →
  Z.testbit (shl_limb a k s (length a) j) i =
  let m := 32 * (Z.of_nat j - Z.of_nat k) + i - s in
  (0 <=? m) && Z.testbit (val a) m.
Proof.
  intros Ha Hs Hi Hj. cbv zeta. unfold shl_limb. rewrite Z.lor_spec.
  set (m := 32 * (Z.of_nat j - Z.of_nat k) + i - s).
  destruct (Z.leb_spec 0 m) as [Hm|Hm]; cbn [andb].
  - rewrite val_testbit by done.
    destruct (decide (s <= i)) as [Hsi|Hsi].
    + assert (m = (i - s) + (Z.of_nat j - Z.of_nat k) * 32) as -> by lia.
      rewrite Z.div_add, Z.mod_add, Z.div_small, Z.mod_small, Z.add_0_l by lia.
      rewrite (decide_True (P := (k <= j < _)%nat)) by lia.
      replace (Z.to_nat (Z.of_nat j - Z.of_nat k)) with (j - k)%nat by lia.
      unfold u32. rewrite Z.mod_pow2_bits_low, Z.shiftl_spec by lia.
      case_decide; [|by rewrite Z.bits_0].
      rewrite Z.shiftr_spec by lia.
      rewrite (testbit_above _ 32) by ((by apply wf_lookup) || lia). done.
    + assert (m = (i - s + 32) + (Z.of_nat j - Z.of_nat k - 1) * 32) as -> by lia.
      rewrite Z.div_add, Z.mod_add, Z.div_small, Z.mod_small, Z.add_0_l by lia.
      rewrite (decide_True (P := (k + 1 <= j < _)%nat)) by lia.
      replace (Z.to_nat (Z.of_nat j - Z.of_nat k - 1)) with (j - k - 1)%nat by lia.
      rewrite Z.shiftr_spec by lia. replace (i + (32 - s)) with (i - s + 32) by lia.
      case_decide; [|by rewrite Z.bits_0, orb_false_r].
      unfold u32. rewrite Z.mod_pow2_bits_low, Z.shiftl_spec_low by lia. by rewrite orb_false_r.
  - rewrite (decide_False (P := (k + 1 <= j < _)%nat)) by lia. rewrite Z.bits_0, orb_false_l.
    case_decide; [|by rewrite Z.bits_0].
    unfold u32. rewrite Z.mod_pow2_bits_low, Z.shiftl_spec_low by lia. done.
Qed.

Lemma limbs_u32_intro a :
  (∀ j, (j < length a)%nat → is_u32 (limb a j)) → Forall is_u32 a.
Proof.
  intros H. apply Forall_lookup_2. intros i x Hx.
  specialize (H i (lookup_lt_Some _ _ _ Hx)). unfold limb in H. by rewrite nth_lookup, Hx in H.
Qed.

Lemma shl_limb_u32 a k s n j : Forall is_u32 a → 0 <= s < 32 → is_u32 (shl_limb a k s n j).
Proof.
  intros Ha Hs. apply lor_bound; [done| |].
  - case_decide; [|done]. pose proof (wf_lookup a (j - k - 1) Ha).
    rewrite Z.shiftr_div_pow2 by lia. split; [apply Z.div_pos; [mlia|apply Z.pow_pos_nonneg; lia]|].
    apply Z.div_lt_upper_bound; [apply Z.pow_pos_nonneg; lia|].
    assert (1 <= 2 ^ (32 - s)) by (apply (Z.pow_le_mono_r 2 0); lia). mlia || nia.
  - case_decide; [apply u32_range|done].
Qed.

(** [operator<<=] multiplies by [2 ^ shift] modulo [2 ^ BITS]. *)
Lemma uint_shl_spec W a shift :
  wf W a → 0 <= shift →
  wf W (uint_shl a shift) ∧ val (uint_shl a shift) = (val a * 2 ^ shift) mod modulus W.
Proof.
  intros [<- Ha] Hs. unfold uint_shl.
  pose proof (Z.mod_pos_bound shift 32 ltac:(lia)) as Hsm.
  destruct (uint_shl_loop_spec a (Z.to_nat (shift / 32)) (shift mod 32) (length a)) as [Hl Hj];
    [done..|].
  set (r := foldl _ _ _) in *.
  assert (Forall is_u32 r) as Hr.
  { apply limbs_u32_intro. rewrite Hl. intros j Hlt. rewrite Hj by done. by apply shl_limb_u32. }
  split; [done|]. apply Z.bits_inj'. intros i Hi.
  unfold modulus. rewrite Z.testbit_mod_pow2 by (unfold bits_of; lia).
  rewrite <- Z.shiftl_mul_pow2, Z.shiftl_spec, val_testbit by done.
  pose proof (Z.div_mod i 32 ltac:(lia)) as Hdm. pose proof (Z.mod_pos_bound i 32 ltac:(lia)).
  assert (0 <= i / 32) by (apply Z.div_pos; lia).
  destruct (Z.ltb_spec i (bits_of (length a))) as [Hlt|Hge]; cbn [andb]; unfold bits_of in *.
  - rewrite Hj by lia. rewrite testbit_shl_limb by (done || lia). cbv zeta.
    rewrite !Z2Nat.id by (lia || apply Z.div_pos; lia).
    replace (32 * (i / 32 - shift / 32) + i mod 32 - shift mod 32) with (i - shift)
      by (pose proof (Z.div_mod shift 32); lia).
    destruct (Z.leb_spec 0 (i - shift)); [done|]. by rewrite Z.testbit_neg_r by lia.
  - rewrite limb_above by lia. by rewrite Z.bits_0.
Qed.

(** The limbs the right-shift loop has built after the first [n] rounds. *)
Definition shr_limb (a : base_uint) (k : nat) (s : Z) (n j : nat) : Z :=
  Z.lor (if decide (j + k < n)%nat then Z.shiftr (limb a (j + k)) s else 0)
        (if decide (j + k + 1 < n)%nat then u32 (Z.shiftl (limb a (j + k + 1)) (32 - s)) else 0).

Lemma u32_shiftl_32 x : u32 (Z.shiftl x 32) = 0.
Proof. unfold u32. rewrite Z.shiftl_mul_pow2 by done. by apply Z.mod_mul. Qed.

Lemma uint_shr_loop_spec a k s n :
  0 <= s < 32 → (n <= length a)%nat →
  let pn := foldl (uint_shr_step a k s) (uint_zero (length a)) (seq 0 n) in
  length pn = length a ∧ ∀ j, (j < length a)%nat → limb pn j = shr_limb a k s n j.
Proof.
  intros Hs. induction n as [|n IH]; intros Hn; cbv zeta.
  { split; [apply length_replicate|]. intros j Hj. cbn [seq foldl]. rewrite limb_zero.
    unfold shr_limb. by rewrite !decide_False by lia. }
  rewrite seq_S, foldl_app. cbn [foldl]. rewrite Nat.add_0_l.
  destruct (IH ltac:(lia)) as [Hl Hj]. clear IH.
  set (pn := foldl _ _ (seq 0 n)) in *. unfold uint_shr_step.
  set (pn1 := if _ && _ then _ else pn).
  assert (length pn1 = length a) as Hl1.
  { subst pn1. destruct (_ && _); [by rewrite length_or_at|done]. }
  assert (∀ j, (j < length a)%nat → limb pn1 j =
            Z.lor (limb pn j)
              (if decide (j + k + 1 = n)%nat then u32 (Z.shiftl (limb a n) (32 - s)) else 0)) as H1.
  { intros j Hjl. subst pn1. case_bool_decide as Hlt; cbn [andb].
    - destruct (Z.eqb_spec s 0) as [->|Hs0]; cbn [negb].
      + rewrite Z.sub_0_r, u32_shiftl_32. destruct (decide _); by rewrite Z.lor_0_r.
      + rewrite limb_or_at by lia. repeat case_decide; try lia; by rewrite ?Z.lor_0_r.
    - rewrite decide_False by lia. by rewrite Z.lor_0_r. }
  split; [case_bool_decide; by rewrite ?length_or_at|].
  intros j Hjl.
  transitivity (Z.lor (limb pn1 j) (if decide (j + k = n)%nat then Z.shiftr (limb a n) s else 0)).
  { case_bool_decide as Hlt.
    - rewrite limb_or_at by lia. repeat case_decide; try lia; by rewrite ?Z.lor_0_r.
    - rewrite decide_False by lia. by rewrite Z.lor_0_r. }
  rewrite H1, Hj by done. unfold shr_limb.
  repeat case_decide; try lia; subst; by rewrite ?Z.lor_0_r, ?Z.lor_0_l.
Qed.

Lemma shr_limb_u32 a k s n j : Forall is_u32 a → 0 <= s < 32 → is_u32 (shr_limb a k s n j).
Proof.
  intros Ha Hs. apply lor_bound; [done| |].
  - case_decide; [|done]. pose proof (wf_lookup a (j + k) Ha).
    rewrite Z.shiftr_div_pow2 by lia.
    assert (1 <= 2 ^ s) by (apply (Z.pow_le_mono_r 2 0); lia).
    split; [apply Z.div_pos; mlia|]. apply Z.div_lt_upper_bound; [lia|]. unfold_widths. nia.
  - case_decide; [apply u32_range|done].
Qed.

Lemma testbit_shr_limb a k s j i :
  Forall is_u32 a → 0 <= s < 32 → 0 <= i < 32 →
  Z.testbit (shr_limb a k s (length a) j) i =
  Z.testbit (val a) (32 * (Z.of_nat j + Z.of_nat k) + i + s).
Proof.
  intros Ha Hs Hi. unfold shr_limb. rewrite Z.lor_spec, val_testbit by (done || lia).
  destruct (decide (i + s < 32)) as [Hlo|Hhi].
  - replace (32 * (Z.of_nat j + Z.of_nat k) + i + s)
      with (i + s + (Z.of_nat j + Z.of_nat k) * 32) by lia.
    rewrite Z.div_add, Z.mod_add, Z.div_small, Z.mod_small, Z.add_0_l by lia.
    replace (Z.to_nat (Z.of_nat j + Z.of_nat k)) with (j + k)%nat by lia.
    trans (Z.testbit (if decide (j + k < length a)%nat then Z.shiftr (limb a (j + k)) s else 0) i).
    + rewrite orb_comm. case_decide as Hd; [|by rewrite Z.bits_0].
      unfold u32. rewrite Z.mod_pow2_bits_low, Z.shiftl_spec_low by lia. done.
    + case_decide; [by rewrite Z.shiftr_spec by lia|]. by rewrite limb_above, !Z.bits_0 by lia.
  - replace (32 * (Z.of_nat j + Z.of_nat k) + i + s)
      with (i + s - 32 + (Z.of_nat j + Z.of_nat k + 1) * 32) by lia.
    rewrite Z.div_add, Z.mod_add, Z.div_small, Z.mod_small, Z.add_0_l by lia.
    replace (Z.to_nat (Z.of_nat j + Z.of_nat k + 1)) with (j + k + 1)%nat by lia.
    trans (Z.testbit (if decide (j + k + 1 < length a)%nat
                      then u32 (Z.shiftl (limb a (j + k + 1)) (32 - s)) else 0) i).
    + case_decide as Hd; [|by rewrite Z.bits_0].
      rewrite Z.shiftr_spec by lia. rewrite (testbit_above _ 32); [done|by apply wf_lookup|lia].
    + case_decide; [|by rewrite limb_above, !Z.bits_0 by lia].
      unfold u32. rewrite Z.mod_pow2_bits_low, Z.shiftl_spec by lia. f_equal. lia.
Qed.

(** [operator>>=] divides by [2 ^ shift]. *)
Lemma uint_shr_spec W a shift :
  wf W a → 0 <= shift →
  wf W (uint_shr a shift) ∧ val (uint_shr a shift) = val a / 2 ^ shift.
Proof.
  intros [<- Ha] Hs. unfold uint_shr.
  pose proof (Z.mod_pos_bound shift 32 ltac:(lia)) as Hsm.
  destruct (uint_shr_loop_spec a (Z.to_nat (shift / 32)) (shift mod 32) (length a)) as [Hl Hj];
    [done..|].
  set (r := foldl _ _ _) in *.
  assert (Forall is_u32 r) as Hr.
  { apply limbs_u32_intro. rewrite Hl. intros j Hlt. rewrite Hj by done. by apply shr_limb_u32. }
  split; [done|]. apply Z.bits_inj'. intros i Hi.
  rewrite <- Z.shiftr_div_pow2, Z.shiftr_spec, val_testbit by done.
  pose proof (Z.div_mod i 32 ltac:(lia)) as Hdm. pose proof (Z.mod_pos_bound i 32 ltac:(lia)).
  assert (0 <= i / 32) by (apply Z.div_pos; lia).
  destruct (decide (i < bits_of (length a))) as [Hlt|Hge]; unfold bits_of in *.
  - rewrite Hj by lia. rewrite testbit_shr_limb by (done || lia).
    rewrite !Z2Nat.id by (lia || apply Z.div_pos; lia). f_equal.
    pose proof (Z.div_mod shift 32). lia.
  - rewrite limb_above by lia. rewrite Z.bits_0. symmetry.
    apply (testbit_above _ (bits_of (length a))); [by apply val_bounds|unfold bits_of; lia].
Qed.

(** ** Comparison, bit length, division *)

Lemma val_take_S n a :
  (n < length a)%nat → val (take (S n) a) = val (take n a) + modulus n * limb a n.
Proof.
  intros Hn. destruct (lookup_lt_is_Some_2 a n Hn) as [x Hx].
  rewrite (take_S_r a n x Hx), val_app, length_take, Nat.min_l by lia.
  unfold limb. rewrite nth_lookup, Hx. cbn [val default]. cbn. lia.
Qed.

Lemma val_take_bounds n a : Forall is_u32 a → (n <= length a)%nat → 0 <= val (take n a) < modulus n.
Proof.
  intros Ha Hn. replace n with (length (take n a)) at 3 by (rewrite length_take; lia).
  apply val_bounds. by apply Forall_take.
Qed.

Lemma uint_compare_from_spec n a b :
  Forall is_u32 a → Forall is_u32 b → (n <= length a)%nat → (n <= length b)%nat →
  uint_compare_from n a b =
    match val (take n a) ?= val (take n b) with Lt => -1 | Eq => 0 | Gt => 1 end.
Proof.
  intros Ha Hb. induction n as [|n IH]; intros Hla Hlb; [done|].
  cbn [uint_compare_from]. rewrite !val_take_S by lia.
  pose proof (val_take_bounds n a Ha ltac:(lia)). pose proof (val_take_bounds n b Hb ltac:(lia)).
  pose proof (wf_lookup a n Ha). pose proof (wf_lookup b n Hb).
  destruct (Z.ltb_spec (limb a n) (limb b n)).
  { rewrite (proj2 (Z.compare_lt_iff _ _)); [done|]. nia. }
  destruct (Z.ltb_spec (limb b n) (limb a n)).
  { rewrite (proj2 (Z.compare_gt_iff _ _)); [done|]. nia. }
  rewrite IH by lia. replace (limb b n) with (limb a n) by lia.
  by rewrite !(Z.add_comm (val _)), Z.add_compare_mono_l.
Qed.

Lemma uint_CompareTo_spec W a b :
  wf W a → wf W b →
  uint_CompareTo a b = match val a ?= val b with Lt => -1 | Eq => 0 | Gt => 1 end.
Proof.
  intros [Hla Ha] [Hlb Hb]. unfold uint_CompareTo.
  rewrite uint_compare_from_spec by (done || lia). by rewrite !take_ge by lia.
Qed.

Lemma uint_order_spec W a b :
  wf W a → wf W b →
  uint_ltb a b = (val a <? val b) ∧ uint_leb a b = (val a <=? val b) ∧
  uint_gtb a b = (val b <? val a) ∧ uint_geb a b = (val b <=? val a).
Proof.
  intros Ha Hb. unfold uint_ltb, uint_leb, uint_gtb, uint_geb.
  rewrite (uint_CompareTo_spec W) by done.
  destruct (Z.compare_spec (val a) (val b)); repeat split; lia.
Qed.

(** The scan of one limb finds its highest set bit. *)
Lemma limb_bits_from_spec n x :
  0 < x < 2 ^ (Z.of_nat n + 1) → limb_bits_from n x = Z.log2 x + 1.
Proof.
  induction n as [|n IH]; intros Hx.
  { replace x with 1 by (simpl in Hx; lia). done. }
  cbn [limb_bits_from].
  assert (Z.land x (Z.shiftl 1 (Z.of_nat (S n))) = 0 ↔ Z.testbit x (Z.of_nat (S n)) = false) as Hb.
  { rewrite Z.shiftl_1_l. split; intros H.
    - apply (f_equal (λ z, Z.testbit z (Z.of_nat (S n)))) in H.
      rewrite Z.land_spec, Z.pow2_bits_true, Z.bits_0, andb_true_r in H by lia. done.
    - apply Z.bits_inj'. intros m Hm. rewrite Z.land_spec, Z.bits_0.
      destruct (decide (m = Z.of_nat (S n))) as [->|]; [by rewrite H|].
      rewrite Z.pow2_bits_false by done. apply andb_false_r. }
  destruct (Z.eqb_spec (Z.land x (Z.shiftl 1 (Z.of_nat (S n)))) 0) as [E|E]; cbn [negb].
  - apply IH. split; [lia|]. replace (Z.of_nat n + 1) with (Z.of_nat (S n)) by lia.
    apply Hb in E. apply bits_bound; [lia..|]. intros i Hi.
    destruct (decide (i = Z.of_nat (S n))) as [->|]; [done|].
    apply (testbit_above x (Z.of_nat (S n) + 1)); lia.
  - rewrite Hb in E. apply not_false_is_true in E.
    assert (2 ^ Z.of_nat (S n) <= x).
    { apply Z.nlt_ge. intros Hlt. rewrite (testbit_above x (Z.of_nat (S n))) in E by lia. done. }
    rewrite (Z.log2_unique x (Z.of_nat (S n))); [done|lia|].
    rewrite Z.pow_succ_r by lia. rewrite Z.pow_add_r in Hx by lia. lia.
Qed.

Lemma uint_bits_from_spec n a :
  Forall is_u32 a → (n <= length a)%nat →
  uint_bits_from n a = if val (take n a) =? 0 then 0 else Z.log2 (val (take n a)) + 1.
Proof.
  intros Ha. induction n as [|n IH]; intros Hn; [done|]. cbn [uint_bits_from].
  pose proof (val_take_bounds n a Ha ltac:(lia)) as Hb. pose proof (wf_lookup a n Ha) as Hx.
  pose proof (modulus_pos n) as HM. rewrite val_take_S by lia.
  destruct (Z.eqb_spec (limb a n) 0) as [E|E]; cbn [negb].
  { rewrite E, Z.mul_0_r, Z.add_0_r. apply IH. lia. }
  rewrite (proj2 (Z.eqb_neq _ _)) by (unfold_widths; nia).
  rewrite limb_bits_from_spec by mlia.
  assert (Z.log2 (val (take n a) + modulus n * limb a n) = bits_of n + Z.log2 (limb a n)) as ->;
    [|unfold bits_of; lia].
  pose proof (Z.log2_spec (limb a n) ltac:(mlia)) as Hlog. pose proof (Z.log2_nonneg (limb a n)).
  assert (0 <= bits_of n) by (unfold bits_of; lia).
  apply Z.log2_unique; [lia|]. unfold modulus in *.
  rewrite <- Z.add_succ_r, !Z.pow_add_r by lia. nia.
Qed.

(** [bits()] is the position of the highest set bit plus one, 0 for 0. *)
Lemma uint_bits_spec W a :
  wf W a → uint_bits a = if val a =? 0 then 0 else Z.log2 (val a) + 1.
Proof.
  intros [Hl Ha]. unfold uint_bits. rewrite uint_bits_from_spec by done. by rewrite take_ge.
Qed.

Lemma val_or_at pn i x :
  Forall is_u32 pn → (i < length pn)%nat → is_u32 x →
  Forall is_u32 (or_at i x pn) ∧ val (or_at i x pn) = Z.lor (val pn) (Z.shiftl x (32 * Z.of_nat i)).
Proof.
  intros Hp Hi Hx. assert (Forall is_u32 (or_at i x pn)) as Hr.
  { apply limbs_u32_intro. rewrite length_or_at. intros j Hj. rewrite limb_or_at by done.
    case_decide; [|by apply wf_lookup]. apply lor_bound; [done|by apply wf_lookup|done]. }
  split; [done|]. apply Z.bits_inj'. intros m Hm.
  rewrite Z.lor_spec, Z.shiftl_spec, !val_testbit, limb_or_at by done.
  pose proof (Z.div_mod m 32 ltac:(lia)) as Hdm. pose proof (Z.mod_pos_bound m 32 ltac:(lia)).
  assert (0 <= m / 32) by (apply Z.div_pos; lia).
  case_decide as E.
  - rewrite Z.lor_spec. do 2 f_equal. lia.
  - replace (Z.testbit x (m - 32 * Z.of_nat i)) with false; [by rewrite orb_false_r|].
    destruct (decide (m < 32 * Z.of_nat i)); [by rewrite Z.testbit_neg_r by lia|].
    symmetry. apply (testbit_above x 32); [done|]. lia.
Qed.

(** Setting bit [shift] of the quotient, when the bits up to [shift] are clear. *)
Lemma set_quotient_bit W pn shift q :
  wf W pn → (shift < 32 * W)%nat → val pn = q * 2 ^ (Z.of_nat shift + 1) →
  let pn' := or_at (shift / 32) (u32 (Z.shiftl 1 (Z.land (Z.of_nat shift) 31))) pn in
  wf W pn' ∧ val pn' = (2 * q + 1) * 2 ^ Z.of_nat shift.
Proof.
  intros [Hl Hf] Hs Hv. cbv zeta.
  assert (Z.land (Z.of_nat shift) 31 = Z.of_nat shift mod 32) as -> by (by rewrite <- (Z.land_ones _ 5)).
  pose proof (Z.mod_pos_bound (Z.of_nat shift) 32 ltac:(lia)) as Hm.
  pose proof (Z.div_mod (Z.of_nat shift) 32 ltac:(lia)) as Hdm.
  assert (Z.of_nat (shift / 32) = Z.of_nat shift / 32) as Hdiv by (by rewrite Nat2Z.inj_div).
  rewrite Z.shiftl_1_l, u32_id.
  2:{ split; [apply Z.pow_nonneg; lia|]. apply Z.pow_lt_mono_r; lia. }
  assert (shift / 32 < length pn)%nat.
  { rewrite Hl. apply Nat.Div0.div_lt_upper_bound. lia. }
  destruct (val_or_at pn (shift / 32) (2 ^ (Z.of_nat shift mod 32))) as [Hf' Hv']; [done..| |].
  { split; [apply Z.pow_nonneg; lia|]. apply Z.pow_lt_mono_r; lia. }
  split; [split; [by rewrite length_or_at|done]|].
  rewrite Hv', Hdiv, Z.shiftl_mul_pow2, <- Z.pow_add_r by lia.
  replace (Z.of_nat shift mod 32 + 32 * (Z.of_nat shift / 32)) with (Z.of_nat shift) by lia.
  rewrite Z.lor_comm, Hv, <- (Z.shiftl_mul_pow2 q) by lia. rewrite lor_add_shift.
  - rewrite Z.pow_add_r by lia. lia.
  - lia.
  - split; [apply Z.pow_nonneg; lia|]. apply Z.pow_lt_mono_r; lia.
Qed.

(** Loop invariant of the long division: before the round for [shift], the
    divisor register holds [b * 2 ^ shift] and [num < 2 * div]; afterwards the
    quotient register holds [a / b] and [num] holds the remainder. *)
Lemma uint_div_loop_spec W rounds quot num div b q :
  wf W quot → wf W num → wf W div → 0 < b →
  (rounds <= 32 * W)%nat →
  val quot = q * 2 ^ Z.of_nat rounds →
  (rounds = 0%nat ∨ val div = b * 2 ^ (Z.of_nat rounds - 1)) →
  val num < b * 2 ^ Z.of_nat rounds →
  let '(quot', num') := uint_div_loop rounds quot num div in
  wf W quot' ∧ wf W num' ∧
  val quot' = q * 2 ^ Z.of_nat rounds + val num / b ∧ val num' = val num mod b.
Proof.
  revert quot num div q. induction rounds as [|n IH]; intros quot num div q Hq Hn Hd Hb Hr Vq Vd Vn.
  { cbn [uint_div_loop]. pose proof (wf_bounds W num Hn).
    rewrite Z.div_small, Z.mod_small by (simpl in Vn; lia).
    repeat split; try apply Hq; try apply Hn. lia. }
  destruct Vd as [|Vd]; [lia|]. cbn [uint_div_loop].
  replace (Z.of_nat (S n) - 1) with (Z.of_nat n) in Vd by lia.
  replace (Z.of_nat (S n)) with (Z.of_nat n + 1) in * by lia.
  assert (0 < 2 ^ Z.of_nat n) as Hpow by (apply Z.pow_pos_nonneg; lia).
  rewrite Z.pow_add_r in Vn by lia. change (2 ^ 1) with 2 in Vn.
  destruct (uint_shr_spec W div 1 Hd ltac:(lia)) as [Hd' Vd'].
  assert (n = 0%nat ∨ val (uint_shr div 1) = b * 2 ^ (Z.of_nat n - 1)) as Vdiv.
  { destruct n as [|m]; [by left|]. right. rewrite Vd', Vd.
    replace (Z.of_nat (S m)) with ((Z.of_nat (S m) - 1) + 1) at 1 by lia.
    rewrite Z.pow_add_r by lia. rewrite Z.mul_assoc. apply Z.div_mul. done. }
  rewrite (proj2 (proj2 (proj2 (uint_order_spec W num div Hn Hd)))).
  pose proof (wf_bounds W num Hn) as Bn. pose proof (wf_bounds W div Hd) as Bd.
  destruct (Z.leb_spec (val div) (val num)) as [Hge|Hlt].
  - destruct (uint_sub_spec W num div Hn Hd) as [Hs Vs]. rewrite Z.mod_small in Vs by lia.
    destruct (set_quotient_bit W quot n q Hq ltac:(lia) Vq) as [Hq' Vq'].
    specialize (IH _ _ _ (2 * q + 1) Hq' Hs Hd' Hb ltac:(lia) Vq' Vdiv ltac:(rewrite Vs; lia)).
    destruct (uint_div_loop n _ _ _) as [quot' num']. destruct IH as (?&?&->&->).
    split; [done|]. split; [done|]. split.
    + rewrite Vs, Vd. replace (val num - b * 2 ^ Z.of_nat n) with (val num + (- 2 ^ Z.of_nat n) * b) by lia.
      rewrite Z.div_add, Z.pow_add_r by lia. lia.
    + rewrite Vs, Vd. replace (val num - b * 2 ^ Z.of_nat n) with (val num + (- 2 ^ Z.of_nat n) * b) by lia.
      apply Z.mod_add. lia.
  - assert (val quot = 2 * q * 2 ^ Z.of_nat n) as Vq2.
    { rewrite Vq, Z.pow_add_r by lia. lia. }
    specialize (IH _ _ _ (2 * q) Hq Hn Hd' Hb ltac:(lia) Vq2 Vdiv ltac:(lia)).
    destruct (uint_div_loop n _ _ _) as [quot' num']. destruct IH as (?&?&->&->).
    split; [done|]. split; [done|]. split; [|done]. rewrite Z.pow_add_r by lia. lia.
Qed.

(** [operator/=]: the quotient, or the exception on a zero divisor. *)
Lemma uint_div_spec W a b :
  wf W a → wf W b →
  if val b =? 0 then uint_div a b = None
  else ∃ q, uint_div a b = Some q ∧ wf W q ∧ val q = val a / val b.
Proof.
  intros Ha Hb. unfold uint_div. rewrite !(uint_bits_spec W) by done.
  pose proof (wf_bounds W a Ha) as Ba. pose proof (wf_bounds W b Hb) as Bb.
  destruct (Z.eqb_spec (val b) 0) as [E|E]; [done|].
  pose proof (Z.log2_spec (val b) ltac:(lia)) as Lb. pose proof (Z.log2_nonneg (val b)) as Nb.
  rewrite (proj2 (Z.eqb_neq _ 0)) by lia.
  destruct (uint_zero_spec W) as [Hz Vz]. destruct Ha as [Hla Ha']. rewrite Hla.
  destruct (Z.ltb_spec (if val a =? 0 then 0 else Z.log2 (val a) + 1) (Z.log2 (val b) + 1)) as [Hlt|Hge].
  { exists (uint_zero W). split; [done|]. split; [done|]. rewrite Vz. symmetry. apply Z.div_small.
    destruct (Z.eqb_spec (val a) 0); [lia|]. split; [lia|].
    apply Z.log2_lt_cancel. lia. }
  destruct (Z.eqb_spec (val a) 0); [lia|].
  pose proof (Z.log2_spec (val a) ltac:(lia)) as La.
  set (sh := Z.log2 (val a) + 1 - (Z.log2 (val b) + 1)) in *.
  assert (0 <= sh) as Hsh by lia.
  assert (Z.log2 (val a) < bits_of W) as Hbits.
  { apply Z.log2_lt_pow2; [lia|]. apply Ba. }
  assert (val b * 2 ^ sh < modulus W) as Hfit.
  { apply Z.lt_le_trans with (2 ^ (Z.succ (Z.log2 (val b)) + sh)).
    - rewrite Z.pow_add_r by lia. apply Z.mul_lt_mono_pos_r; [apply Z.pow_pos_nonneg; lia|lia].
    - unfold modulus. apply Z.pow_le_mono_r; lia. }
  destruct (uint_shl_spec W b sh Hb Hsh) as [Hd Vd]. rewrite Z.mod_small in Vd by lia.
  pose proof (uint_div_loop_spec W (S (Z.to_nat sh)) (uint_zero W) a (uint_shl b sh) (val b) 0) as H.
  destruct (uint_div_loop _ _ _ _) as [q r].
  destruct H as (Hq & _ & Vq & _); try done; try (unfold bits_of in *; lia).
  - right. rewrite Vd. do 2 f_equal. lia.
  - apply Z.lt_le_trans with (2 ^ Z.succ (Z.log2 (val a))); [lia|].
    apply Z.le_trans with (2 ^ Z.log2 (val b) * 2 ^ Z.of_nat (S (Z.to_nat sh))).
    + rewrite <- Z.pow_add_r by lia. apply Z.pow_le_mono_r; lia.
    + apply Z.mul_le_mono_nonneg_r; [apply Z.pow_nonneg; lia|lia].
  - exists q. split; [done|]. split; [done|]. rewrite Vq. lia.
Qed.

(** ** Bitwise operators, conversions and the contract of the class *)

Lemma zip_bitwise_spec (f : Z → Z → Z) (g : bool → bool → bool) W a b :
  (∀ x y i, 0 <= i → Z.testbit (f x y) i = g (Z.testbit x i) (Z.testbit y i)) →
  g false false = false → (∀ x y, 0 <= x → 0 <= y → 0 <= f x y) →
  wf W a → wf W b → wf W (zip_with f a b) ∧ val (zip_with f a b) = f (val a) (val b).
Proof.
  intros Hf Hg Hp [Hla Ha] [Hlb Hb].
  assert (∀ j, limb (zip_with f a b) j = if decide (j < W)%nat then f (limb a j) (limb b j) else 0) as Hz.
  { intros j. unfold limb. rewrite !nth_lookup, lookup_zip_with. case_decide.
    - destruct (lookup_lt_is_Some_2 a j) as [x ->]; [lia|].
      by destruct (lookup_lt_is_Some_2 b j) as [y ->]; [lia|].
    - by rewrite (lookup_ge_None_2 a j) by lia. }
  assert (Forall is_u32 (zip_with f a b)) as Hr.
  { apply limbs_u32_intro. intros j Hj. rewrite Hz. case_decide; [|done].
    pose proof (wf_lookup a j Ha). pose proof (wf_lookup b j Hb).
    assert (0 <= f (limb a j) (limb b j)) by (apply Hp; mlia).
    split; [done|]. apply bits_bound; [done..|]. intros i Hi.
    rewrite Hf, !(testbit_above _ 32) by (lia || mlia). done. }
  split; [split; [rewrite length_zip_with; lia|done]|].
  apply Z.bits_inj'. intros i Hi. rewrite Hf, !val_testbit, Hz by done.
  case_decide; [by apply Hf, Z.mod_pos_bound|].
  by rewrite !limb_above, !Z.bits_0, Hg by lia.
Qed.

Lemma uint_and_spec W a b :
  wf W a → wf W b → wf W (uint_and a b) ∧ val (uint_and a b) = Z.land (val a) (val b).
Proof.
  apply (zip_bitwise_spec Z.land andb); intros; try done; [by rewrite Z.land_spec|].
  apply Z.land_nonneg. lia.
Qed.
Lemma uint_or_spec W a b :
  wf W a → wf W b → wf W (uint_or a b) ∧ val (uint_or a b) = Z.lor (val a) (val b).
Proof.
  apply (zip_bitwise_spec Z.lor orb); intros; try done; [by rewrite Z.lor_spec|].
  apply Z.lor_nonneg. lia.
Qed.
Lemma uint_xor_spec W a b :
  wf W a → wf W b → wf W (uint_xor a b) ∧ val (uint_xor a b) = Z.lxor (val a) (val b).
Proof.
  apply (zip_bitwise_spec Z.lxor xorb); intros; try done; [by rewrite Z.lxor_spec|].
  apply Z.lxor_nonneg. lia.
Qed.

Lemma uint_of_u64_spec W b :
  (2 <= W)%nat → is_u64 b → wf W (uint_of_u64 W b) ∧ val (uint_of_u64 W b) = b.
Proof.
  intros HW Hb. unfold uint_of_u64. rewrite val_app, val_replicate_0.
  assert (is_u32 (Z.shiftr b 32)) by (rewrite Z.shiftr_div_pow2 by done; mlia).
  cbn [val]. rewrite (u32_id (Z.shiftr b 32)) by done. split.
  - split; [rewrite length_app, length_replicate; cbn [length]; lia|].
    apply Forall_app. split; [|by apply Forall_replicate].
    repeat constructor; apply u32_range || apply H.
  - pose proof (split32 b). unfold u32. lia.
Qed.

Lemma uint_IsNull_spec W a : wf W a → uint_IsNull a = (val a =? 0).
Proof.
  intros [<- Ha]. unfold uint_IsNull. induction Ha as [|x a Hx Ha IH]; [done|].
  cbn [forallb val]. rewrite IH. pose proof (val_bounds a Ha).
  destruct (Z.eqb_spec 0 x); destruct (Z.eqb_spec (val a) 0); cbn [andb]; mlia.
Qed.

Lemma uint_GetLow64_spec W a : (2 <= W)%nat → wf W a → uint_GetLow64 a = val a mod 2 ^ 64.
Proof.
  intros HW [Hl Ha]. destruct a as [|x [|y a]]; cbn [length] in Hl; [lia..|].
  apply Forall_cons in Ha as [Hx [Hy Ha]%Forall_cons].
  unfold uint_GetLow64, limb. cbn [nth val]. rewrite lor_add_shift by (done || apply Hx).
  replace (x + 2 ^ 32 * (y + 2 ^ 32 * val a)) with (x + y * 2 ^ 32 + val a * 2 ^ 64) by lia.
  rewrite Z.mod_add by done. rewrite Z.mod_small; mlia.
Qed.

(** What the class promises to its clients: arithmetic modulo [2 ^ BITS] on the
    numbers denoted, order, bit length, exact conversions. *)
Class BaseUintSpec (W : nat) : Prop := {
  bu_add a b : wf W a → wf W b →
    wf W (uint_add a b) ∧ val (uint_add a b) = (val a + val b) mod modulus W;
  bu_sub a b : wf W a → wf W b →
    wf W (uint_sub a b) ∧ val (uint_sub a b) = (val a - val b) mod modulus W;
  bu_neg a : wf W a → wf W (uint_neg a) ∧ val (uint_neg a) = (- val a) mod modulus W;
  bu_not a : wf W a → wf W (uint_not a) ∧ val (uint_not a) = modulus W - 1 - val a;
  bu_incr a : wf W a → wf W (uint_incr a) ∧ val (uint_incr a) = (val a + 1) mod modulus W;
  bu_decr a : wf W a → wf W (uint_decr a) ∧ val (uint_decr a) = (val a - 1) mod modulus W;
  bu_mul32 a x : wf W a → is_u32 x →
    wf W (uint_mul32 a x) ∧ val (uint_mul32 a x) = (val a * x) mod modulus W;
  bu_mul a b : wf W a → wf W b →
    wf W (uint_mul a b) ∧ val (uint_mul a b) = (val a * val b) mod modulus W;
  bu_shl a n : wf W a → 0 <= n →
    wf W (uint_shl a n) ∧ val (uint_shl a n) = (val a * 2 ^ n) mod modulus W;
  bu_shr a n : wf W a → 0 <= n →
    wf W (uint_shr a n) ∧ val (uint_shr a n) = val a / 2 ^ n;
  bu_div a b : wf W a → wf W b →
    if val b =? 0 then uint_div a b = None
    else ∃ q, uint_div a b = Some q ∧ wf W q ∧ val q = val a / val b;
  bu_bits a : wf W a → uint_bits a = if val a =? 0 then 0 else Z.log2 (val a) + 1;
  bu_order a b : wf W a → wf W b →
    uint_ltb a b = (val a <? val b) ∧ uint_leb a b = (val a <=? val b) ∧
    uint_gtb a b = (val b <? val a) ∧ uint_geb a b = (val b <=? val a);
  bu_and a b : wf W a → wf W b →
    wf W (uint_and a b) ∧ val (uint_and a b) = Z.land (val a) (val b);
  bu_or a b : wf W a → wf W b →
    wf W (uint_or a b) ∧ val (uint_or a b) = Z.lor (val a) (val b);
  bu_xor a b : wf W a → wf W b →
    wf W (uint_xor a b) ∧ val (uint_xor a b) = Z.lxor (val a) (val b);
  bu_u64 b : is_u64 b → wf W (uint_of_u64 W b) ∧ val (uint_of_u64 W b) = b;
  bu_low64 a : wf W a → uint_GetLow64 a = val a mod 2 ^ 64;
  bu_null a : wf W a → uint_IsNull a = (val a =? 0);
}.

(** The limb loops implement the contract at every width of at least 64 bits
    (the code instantiates 160, 256 and 512). *)
Lemma base_uint_spec W : (2 <= W)%nat → BaseUintSpec W.
Proof.
  intros HW. split; intros;
    first [by apply uint_add_spec | by apply uint_sub_spec | by apply uint_neg_spec
      | by apply uint_not_spec | by apply uint_incr_spec | by apply uint_decr_spec
      | by apply uint_mul32_spec | by apply uint_mul_spec | by apply uint_shl_spec
      | by apply uint_shr_spec | by apply uint_div_spec | by eapply uint_bits_spec
      | by eapply uint_order_spec | by apply uint_and_spec | by apply uint_or_spec
      | by apply uint_xor_spec | by apply uint_of_u64_spec | by eapply uint_GetLow64_spec
      | by eapply uint_IsNull_spec].
Qed.

#[export] Instance uint256_spec : BaseUintSpec W256.
Proof. apply base_uint_spec. unfold W256. lia. Qed.

(** ** The compact form *)

Lemma modulus_256 : modulus W256 = 2 ^ 256.
Proof. done. Qed.

Lemma SetCompact_value n :
  is_u32 n →
  let size := n / 2 ^ 24 in let word := n mod 2 ^ 23 in
  wf256 (SetCompact n).(compact_value) ∧
  val (SetCompact n).(compact_value) =
    if size <=? 3 then word / 256 ^ (3 - size) else (word * 256 ^ (size - 3)) mod 2 ^ 256.
Proof.
  intros Hn. cbv zeta. unfold SetCompact. cbn [compact_value].
  rewrite Z.shiftr_div_pow2 by done. change 0x7fffff with (Z.ones 23).
  rewrite Z.land_ones by done.
  set (size := n / 2 ^ 24). set (word := n mod 2 ^ 23).
  assert (0 <= size) by (subst size; mlia). assert (0 <= word < 2 ^ 23) by (by apply Z.mod_pos_bound).
  change 256 with (2 ^ 8).
  destruct (Z.leb_spec size 3) as [Hs|Hs].
  - rewrite Z.shiftr_div_pow2, Z.pow_mul_r by lia. apply bu_u64.
    assert (0 < (2 ^ 8) ^ (3 - size)) by (apply Z.pow_pos_nonneg; lia).
    split; [apply Z.div_pos; lia|]. apply Z.div_lt_upper_bound; mlia || nia.
  - destruct (bu_u64 word) as [Hw Hv]; [mlia|].
    destruct (bu_shl _ (8 * (size - 3)) Hw) as [? ->]; [lia|]. split; [done|].
    by rewrite Hv, Z.pow_mul_r, modulus_256 by lia.
Qed.

(** The overflow flag is raised exactly when the denoted number does not fit. *)
Lemma SetCompact_overflow_iff n :
  is_u32 n →
  (SetCompact n).(compact_fOverflow) = true ↔
  3 < n / 2 ^ 24 ∧ 2 ^ 256 <= n mod 2 ^ 23 * 256 ^ (n / 2 ^ 24 - 3).
Proof.
  intros Hn. unfold SetCompact. cbn [compact_fOverflow].
  rewrite Z.shiftr_div_pow2 by done. change 0x7fffff with (Z.ones 23).
  rewrite Z.land_ones by done.
  assert (0 <= n / 2 ^ 24) by mlia.
  set (size := n / 2 ^ 24) in *. set (word := n mod 2 ^ 23).
  assert (0 <= word < 2 ^ 23) as Hw by (by apply Z.mod_pos_bound).
  destruct (Z.leb_spec size 3) as [Hs|Hs].
  { replace (34 <? size) with false by lia. replace (33 <? size) with false by lia.
    replace (32 <? size) with false by lia. rewrite !andb_false_r. split; [done|]. lia. }
  assert (size < 33 ∨ size = 33 ∨ size = 34 ∨ 34 < size) as [H1|[->|[->|H1]]] by lia.
  - replace (34 <? size) with false by lia. replace (33 <? size) with false by lia.
    replace (32 <? size) with false by lia. rewrite !andb_false_r. split; [done|]. intros [_ Hc].
    assert (256 ^ (size - 3) <= 256 ^ 29) by (apply Z.pow_le_mono_r; lia). 
    assert (2 ^ 23 * 256 ^ 29 < 2 ^ 256) by done. nia.
  - change (256 ^ (33 - 3)) with (2 ^ 240). change (2 ^ 256) with (2 ^ 16 * 2 ^ 240).
    cbn. lia.
  - change (256 ^ (34 - 3)) with (2 ^ 248). change (2 ^ 256) with (2 ^ 8 * 2 ^ 248).
    cbn. lia.
  - replace (34 <? size) with true by lia. rewrite orb_true_l, andb_true_r.
    assert (256 ^ 32 <= 256 ^ (size - 3)) by (apply Z.pow_le_mono_r; lia).
    change (256 ^ 32) with (2 ^ 256) in *.
    assert (0 < 2 ^ 256) by done.
    split; [|nia]. intros Hz. split; [done|]. nia.
Qed.

(** Size byte and mantissa of the compact form of a non-zero [v]. *)
Definition compact_size (v : Z) : Z := (Z.log2 v + 1) / 8 + 1.
Definition compact_mantissa (v s : Z) : Z :=
  if s <=? 3 then v * 256 ^ (3 - s) else v / 256 ^ (s - 3).

Lemma compact_mantissa_bounds v :
  0 < v → 1 <= compact_size v ∧ 2 ^ 15 <= compact_mantissa v (compact_size v) < 2 ^ 23.
Proof.
  intros Hv. unfold compact_mantissa, compact_size.
  pose proof (Z.log2_spec v Hv) as Hl. pose proof (Z.log2_nonneg v).
  pose proof (Z.div_mod (Z.log2 v + 1) 8 ltac:(lia)) as Hdm.
  pose proof (Z.mod_pos_bound (Z.log2 v + 1) 8 ltac:(lia)).
  set (d := (Z.log2 v + 1) / 8) in *. assert (0 <= d) by (subst d; apply Z.div_pos; lia).
  split; [lia|].
  assert (2 ^ (8 * d - 1 + 1) <= 2 * v) as Hlo.
  { apply Z.le_trans with (2 ^ (Z.log2 v + 1)).
    - apply Z.pow_le_mono_r; lia.
    - rewrite Z.pow_add_r by lia. lia. }
  assert (v < 2 ^ (8 * d + 7)) as Hhi.
  { apply Z.lt_le_trans with (2 ^ Z.succ (Z.log2 v)); [lia|]. apply Z.pow_le_mono_r; lia. }
  replace (8 * d - 1 + 1) with (8 * d) in Hlo by lia.
  change 256 with (2 ^ 8). destruct (Z.leb_spec (d + 1) 3).
  - rewrite <- Z.pow_mul_r by lia.
    assert (2 ^ (8 * d) * 2 ^ (8 * (3 - (d + 1))) = 2 ^ 16) as E1
      by (rewrite <- Z.pow_add_r by lia; f_equal; lia).
    assert (2 ^ (8 * d + 7) * 2 ^ (8 * (3 - (d + 1))) = 2 ^ 23) as E2
      by (rewrite <- Z.pow_add_r by lia; f_equal; lia).
    assert (0 < 2 ^ (8 * (3 - (d + 1)))) by (apply Z.pow_pos_nonneg; lia).
    change (2 ^ 16) with (2 * 2 ^ 15) in E1. nia.
  - rewrite <- Z.pow_mul_r by lia.
    assert (0 < 2 ^ (8 * (d + 1 - 3))) by (apply Z.pow_pos_nonneg; lia).
    assert (2 ^ (8 * d) = 2 * 2 ^ 15 * 2 ^ (8 * (d + 1 - 3))) as E1
      by (change (2 * 2 ^ 15) with (2 ^ 16); rewrite <- Z.pow_add_r by lia; f_equal; lia).
    assert (2 ^ (8 * d + 7) = 2 ^ (8 * (d + 1 - 3)) * 2 ^ 23) as E2
      by (rewrite <- Z.pow_add_r by lia; f_equal; lia).
    split.
    + apply Z.div_le_lower_bound; lia.
    + apply Z.div_lt_upper_bound; lia.
Qed.

Lemma lor_size m s : 0 <= m < 2 ^ 24 → 0 <= s < 256 → Z.lor m (u32 (Z.shiftl s 24)) = m + s * 2 ^ 24.
Proof.
  intros Hm Hs. rewrite u32_id; [by apply lor_add_shift|]. rewrite Z.shiftl_mul_pow2 by done. mlia.
Qed.

Lemma land_bit m k : 0 <= k → Z.land m (2 ^ k) = if Z.testbit m k then 2 ^ k else 0.
Proof.
  intros Hk. apply Z.bits_inj'. intros i Hi. rewrite Z.land_spec.
  destruct (decide (i = k)) as [->|Hne].
  - rewrite Z.pow2_bits_true by done. destruct (Z.testbit m k) eqn:E; [by rewrite Z.pow2_bits_true|].
    by rewrite Z.bits_0.
  - rewrite Z.pow2_bits_false, andb_false_r by done.
    destruct (Z.testbit m k); [by rewrite Z.pow2_bits_false|by rewrite Z.bits_0].
Qed.

Lemma testbit_top m k : 0 <= k → 0 <= m < 2 ^ (k + 1) → Z.testbit m k = (2 ^ k <=? m).
Proof.
  intros Hk Hm. destruct (Z.leb_spec (2 ^ k) m).
  - apply Z.testbit_true; [done|]. rewrite Z.pow_add_r in Hm by lia.
    replace (m / 2 ^ k) with 1; [done|]. apply (Z.div_unique _ _ _ (m - 2 ^ k)); lia.
  - apply (testbit_above m k); lia.
Qed.

Lemma land_high_zero m : 0 <= m < 2 ^ 23 → Z.land m (u32 (Z.lnot 0x7fffff)) = 0.
Proof.
  intros Hm. change (u32 (Z.lnot 0x7fffff)) with (Z.shiftl 511 23).
  apply Z.bits_inj'. intros i Hi. rewrite Z.land_spec, Z.bits_0.
  destruct (decide (i < 23)).
  - by rewrite Z.shiftl_spec_low, andb_false_r by lia.
  - by rewrite (testbit_above m 23) by lia.
Qed.

(** The mantissa before the sign-bit adjustment, with [n] bytes. *)
Lemma compact_pre_sign v n :
  0 < v → n = (Z.log2 v + 1 + 7) / 8 →
  let m := if n <=? 3 then v * 256 ^ (3 - n) else v / 256 ^ (n - 3) in
  0 <= m < 2 ^ 24 ∧
  (if 2 ^ 23 <=? m then m / 2 ^ 8 else m) = compact_mantissa v (compact_size v) ∧
  (if 2 ^ 23 <=? m then n + 1 else n) = compact_size v.
Proof.
  intros Hv Hn. cbv zeta.
  pose proof (compact_mantissa_bounds v Hv) as [Hs Hb].
  unfold compact_size in *. pose proof (Z.log2_spec v Hv) as Hl. pose proof (Z.log2_nonneg v).
  set (L := Z.log2 v + 1) in *.
  assert ((L mod 8 = 0 ∧ n = L / 8) ∨ (L mod 8 <> 0 ∧ n = L / 8 + 1)) as [[Hm ->]|[Hm ->]].
  { subst n. mlia. }
  - set (d := L / 8) in *. pose proof (Z.div_mod L 8 ltac:(lia)) as Hdm.
    assert (1 <= d) by (subst d; mlia). fold d in Hdm.
    assert (v < 256 ^ d) as Hvd.
    { change 256 with (2 ^ 8). rewrite <- Z.pow_mul_r by lia.
      replace (8 * d) with (Z.succ (Z.log2 v)) by lia. lia. }
    set (m := if d <=? 3 then _ else _).
    assert (compact_mantissa v (d + 1) = m / 2 ^ 8) as E.
    { subst m. unfold compact_mantissa. change (2 ^ 8) with 256.
      destruct (Z.leb_spec (d + 1) 3), (Z.leb_spec d 3); try lia.
      - replace (3 - d) with ((3 - (d + 1)) + 1) by lia. rewrite Z.pow_add_r by lia.
        rewrite Z.mul_assoc. symmetry. by apply Z.div_mul.
      - replace d with 3 by lia. simpl (3 - 3). change (256 ^ 0) with 1. by rewrite Z.mul_1_r.
      - replace (d + 1 - 3) with ((d - 3) + 1) by lia. rewrite Z.pow_add_r by lia.
        rewrite Z.div_div; [done|apply Z.pow_nonzero; lia|done]. }
    rewrite E in Hb.
    assert (2 ^ 23 <= m) as Hge.
    { apply Z.nlt_ge. intros Hlt. pose proof (Z.div_lt_upper_bound m (2 ^ 8) (2 ^ 15)). lia. }
    assert (m < 2 ^ 24).
    { subst m. change (2 ^ 24) with (256 ^ 3). destruct (Z.leb_spec d 3).
      - replace (256 ^ 3) with (256 ^ d * 256 ^ (3 - d)) by (rewrite <- Z.pow_add_r by lia; f_equal; lia).
        apply Z.mul_lt_mono_pos_r; [apply Z.pow_pos_nonneg; lia|done].
      - apply Z.div_lt_upper_bound; [apply Z.pow_pos_nonneg; lia|].
        rewrite <- Z.pow_add_r by lia. by replace (d - 3 + 3) with d by lia. }
    rewrite (proj2 (Z.leb_le _ _) Hge). repeat split; [lia|lia|by rewrite E].
  - change (if L / 8 + 1 <=? 3 then v * 256 ^ (3 - (L / 8 + 1)) else v / 256 ^ (L / 8 + 1 - 3))
      with (compact_mantissa v (L / 8 + 1)).
    rewrite (proj2 (Z.leb_gt _ _)) by lia. repeat split; lia.
Qed.

(** [GetCompact] never fails its assertions and returns size and mantissa. *)
Lemma GetCompact_eq a :
  wf256 a →
  GetCompact a false = Some (if val a =? 0 then 0
    else compact_mantissa (val a) (compact_size (val a)) + compact_size (val a) * 2 ^ 24).
Proof.
  intros Ha. unfold GetCompact. rewrite bu_bits by done.
  pose proof (wf_bounds _ _ Ha) as Hb. rewrite modulus_256 in Hb.
  destruct (Z.eqb_spec (val a) 0) as [E|E].
  { cbn -[uint_GetLow64]. rewrite bu_low64, E by done. done. }
  set (v := val a) in *. assert (0 < v) as Hv by lia.
  destruct (compact_pre_sign v _ Hv eq_refl) as (Hm & Em & Es).
  pose proof (compact_mantissa_bounds v Hv) as [Hs Hmb].
  set (n := (Z.log2 v + 1 + 7) / 8) in *. set (m := if n <=? 3 then v * _ else _) in *.
  assert (n <= 32) as Hn32.
  { assert (Z.log2 v < 256) by (apply Z.log2_lt_pow2; lia). subst n. mlia. }
  assert (0 <= n) by (pose proof (Z.log2_nonneg v); subst n; mlia).
  assert ((if n <=? 3 then u32 (u64 (Z.shiftl (uint_GetLow64 a) (8 * (3 - n))))
           else u32 (uint_GetLow64 (uint_shr a (8 * (n - 3))))) = m) as ->.
  { subst m. change 256 with (2 ^ 8) in *. destruct (Z.leb_spec n 3).
    - rewrite <- Z.pow_mul_r in * by lia. rewrite bu_low64 by done. fold v.
      assert (1 <= 2 ^ (8 * (3 - n))) by (apply (Z.pow_le_mono_r 2 0); lia).
      rewrite (Z.mod_small v) by (mlia || nia). rewrite Z.shiftl_mul_pow2 by lia.
      by rewrite u64_id, u32_id by mlia.
    - rewrite <- Z.pow_mul_r in * by lia.
      destruct (bu_shr a (8 * (n - 3)) Ha) as [Hw Hvs]; [lia|].
      rewrite bu_low64, Hvs by done. fold v. rewrite Z.mod_small by mlia. by rewrite u32_id by mlia. }
  change 0x800000 with (2 ^ 23). rewrite land_bit, (testbit_top m 23) by (done || lia).
  rewrite Z.shiftr_div_pow2 by done.
  destruct (Z.leb_spec (2 ^ 23) m) as [Hbig|Hsmall].
  - change (2 ^ 23 =? 0) with false. cbn [negb]. rewrite Em, Es, land_high_zero by lia. cbn [Z.eqb negb].
    replace (compact_size v <? 256) with true by lia. cbn [negb andb].
    by rewrite lor_size, Z.lor_0_r by lia.
  - change (0 =? 0) with true. cbn [negb]. rewrite Em, Es, land_high_zero by lia. cbn [Z.eqb negb].
    replace (compact_size v <? 256) with true by lia. cbn [negb andb].
    by rewrite lor_size, Z.lor_0_r by lia.
Qed.

(** What survives the compact form: the number cut to its leading bytes. *)
Definition compact_truncate (v : Z) : Z :=
  if v =? 0 then 0
  else if compact_size v <=? 3 then v
  else v / 256 ^ (compact_size v - 3) * 256 ^ (compact_size v - 3).

Lemma compact_truncate_bounds v :
  0 <= v → 0 <= compact_truncate v <= v ∧ 2 ^ 15 * (v - compact_truncate v) <= compact_truncate v.
Proof.
  intros Hv. unfold compact_truncate. destruct (Z.eqb_spec v 0); [lia|].
  destruct (Z.leb_spec (compact_size v) 3) as [|Hs]; [lia|].
  destruct (compact_mantissa_bounds v ltac:(lia)) as [_ Hm]. unfold compact_mantissa in Hm.
  rewrite (proj2 (Z.leb_gt _ _)) in Hm by lia.
  set (p := 256 ^ (compact_size v - 3)) in *. assert (0 < p) by (apply Z.pow_pos_nonneg; lia).
  pose proof (Z.div_mod v p ltac:(lia)). pose proof (Z.mod_pos_bound v p ltac:(lia)).
  set (q := v / p) in *. nia.
Qed.

Lemma SetCompact_fields m s :
  0 <= m < 2 ^ 23 → 0 <= s < 256 →
  let n := m + s * 2 ^ 24 in
  is_u32 n ∧ n / 2 ^ 24 = s ∧ n mod 2 ^ 23 = m ∧ (SetCompact n).(compact_fNegative) = false.
Proof.
  intros Hm Hs. cbv zeta.
  assert ((m + s * 2 ^ 24) mod 2 ^ 24 = m) as Emod
    by (rewrite Z.mod_add by done; apply Z.mod_small; mlia).
  split; [mlia|]. split.
  { rewrite Z.div_add by done. rewrite Z.div_small; [lia|mlia]. }
  split.
  { replace (m + s * 2 ^ 24) with (m + (2 * s) * 2 ^ 23) by lia.
    rewrite Z.mod_add by done. by apply Z.mod_small. }
  unfold SetCompact. cbn [compact_fNegative].
  change 0x800000 with (2 ^ 23). rewrite land_bit by done.
  replace (Z.testbit (m + s * 2 ^ 24) 23) with false; [by rewrite andb_false_r|].
  rewrite <- (Z.mod_pow2_bits_low _ 24) by done. rewrite Emod. symmetry.
  by apply (testbit_above m 23).
Qed.

Lemma compact_roundtrip_truncates a :
  wf256 a →
  ∃ c, GetCompact a false = Some c ∧ is_u32 c ∧
    wf256 (SetCompact c).(compact_value) ∧
    val (SetCompact c).(compact_value) = compact_truncate (val a) ∧
    (SetCompact c).(compact_fNegative) = false ∧ (SetCompact c).(compact_fOverflow) = false.
Proof.
  intros Ha. pose proof (wf_bounds _ _ Ha) as Hb. rewrite modulus_256 in Hb.
  pose proof (compact_truncate_bounds (val a) ltac:(lia)) as Ht. unfold compact_truncate in *.
  rewrite GetCompact_eq by done. eexists. split; [done|].
  destruct (Z.eqb_spec (val a) 0) as [E|E].
  { split; [done|]. split; [apply (SetCompact_value 0); done|]. done. }
  set (v := val a) in *. destruct (compact_mantissa_bounds v ltac:(lia)) as [Hs Hm].
  assert (compact_size v < 256) as Hs'.
  { unfold compact_size. assert (Z.log2 v < 256) by (apply Z.log2_lt_pow2; lia). mlia. }
  destruct (SetCompact_fields (compact_mantissa v (compact_size v)) (compact_size v))
    as (Hu & Hsize & Hword & Hneg); [lia..|].
  set (n := _ + _ * 2 ^ 24) in *. destruct (SetCompact_value n Hu) as [Hw Hv].
  rewrite Hsize, Hword in Hv. unfold compact_mantissa in Hv, Hword.
  split; [done|]. split; [done|].
  assert ((compact_size v <=? 3) = false →
    v / 256 ^ (compact_size v - 3) * 256 ^ (compact_size v - 3) < 2 ^ 256) as Hfit.
  { intros Hle. rewrite Hle in Ht. lia. }
  split; [|split; [done|]].
  - rewrite Hv. destruct (compact_size v <=? 3) eqn:Hle.
    + apply Z.div_mul. apply Z.pow_nonzero; lia.
    + rewrite Z.mod_small; [done|]. split; [|by apply Hfit].
      apply Z.mul_nonneg_nonneg; [apply Z.div_pos; [lia|apply Z.pow_pos_nonneg; lia]|].
      apply Z.pow_nonneg. lia.
  - apply not_true_is_false. rewrite SetCompact_overflow_iff by done. rewrite Hsize, Hword.
    intros [H1 H2]. destruct (Z.leb_spec (compact_size v) 3); [lia|]. specialize (Hfit eq_refl). lia.
Qed.

(** C26: the limb loops of [base_uint] implement arithmetic modulo [2 ^ BITS]:
    every operator returns a well-formed value denoting the sum, difference,
    product, quotient, shift, bitwise combination, order or bit length of the
    numbers denoted by its arguments, and division throws exactly on zero. *)
Theorem base_uint_implements_contract (W : nat) : (2 <= W)%nat → BaseUintSpec W.
Proof. apply base_uint_spec. Qed.

Lemma base_uint_implements_contract_witness : BaseUintSpec 8.
Proof. apply (base_uint_implements_contract 8). lia. Defined.

(** [GetCompact] passes its assertions on every 256-bit value, and decoding
    its result with [SetCompact] gives the value cut to its leading bytes:
    neither negative nor overflowing, at most the original, and within one
    part in [2 ^ 15] of it. *)
Theorem GetCompact_then_SetCompact (a : base_uint) :
  wf256 a →
  ∃ c, GetCompact a false = Some c ∧ is_u32 c ∧
    let r := SetCompact c in
    wf256 r.(compact_value) ∧ r.(compact_fNegative) = false ∧ r.(compact_fOverflow) = false ∧
    val r.(compact_value) = compact_truncate (val a) ∧
    val r.(compact_value) <= val a ∧
    2 ^ 15 * (val a - val r.(compact_value)) <= val r.(compact_value).
Proof.
  intros Ha. destruct (compact_roundtrip_truncates a Ha) as (c&Hc&Hu&Hw&Hv&Hn&Ho).
  exists c. cbv zeta. rewrite Hv.
  destruct (compact_truncate_bounds (val a) (proj1 (wf_bounds _ _ Ha))) as [[_ Hle] Hprec].
  exact (conj Hc (conj Hu (conj Hw (conj Hn (conj Ho (conj eq_refl (conj Hle Hprec))))))).
Qed.

Lemma GetCompact_then_SetCompact_witness :
  ∃ c, GetCompact (uint_of_u64 W256 0x123456789) false = Some c ∧
       val (SetCompact c).(compact_value) <= 0x123456789.
Proof.
  assert (wf256 (uint_of_u64 W256 0x123456789)) as Hwf by (apply (bool_decide_unpack _); vm_compute; exact I).
  destruct (GetCompact_then_SetCompact _ Hwf) as (c&Hc&_&_&_&_&_&Hle&_).
  exists c. split; [exact Hc|exact Hle].
Defined.

(** a normalised compact number (sign bit clear, a mantissa of three
    significant bytes in the sense of the format, no overflow) is recovered
    exactly by [SetCompact] followed by [GetCompact]. *)
Theorem SetCompact_then_GetCompact (n : Z) :
  is_u32 n → 3 <= n / 2 ^ 24 → 2 ^ 15 <= n mod 2 ^ 24 < 2 ^ 23 →
  (SetCompact n).(compact_fOverflow) = false →
  GetCompact (SetCompact n).(compact_value) false = Some n.
Proof.
  intros Hn Hs Hm Ho.
  destruct (SetCompact_value n Hn) as [Hw Hv]. cbv zeta in Hv.
  assert (¬ (SetCompact n).(compact_fOverflow) = true) as Hno by (rewrite Ho; done).
  rewrite SetCompact_overflow_iff in Hno by done.
  assert (n mod 2 ^ 23 = n mod 2 ^ 24) as Ew by (clear -Hm Hn; mlia).
  rewrite Ew in *. pose proof (Z.div_mod n (2 ^ 24) ltac:(lia)) as Hdm.
  set (size := n / 2 ^ 24) in *. set (word := n mod 2 ^ 24) in *.
  assert (val (SetCompact n).(compact_value) = word * 256 ^ (size - 3)) as Hval.
  { rewrite Hv. destruct (Z.leb_spec size 3).
    - replace size with 3 by lia. simpl (3 - 3). change (256 ^ 0) with 1. by rewrite Z.div_1_r, Z.mul_1_r.
    - rewrite Z.mod_small; [done|]. assert (0 < 256 ^ (size - 3)) by (apply Z.pow_pos_nonneg; lia). nia. }
  rewrite GetCompact_eq by done. rewrite Hval.
  assert (0 < 256 ^ (size - 3)) by (apply Z.pow_pos_nonneg; lia).
  rewrite (proj2 (Z.eqb_neq _ 0)) by nia.
  assert (compact_size (word * 256 ^ (size - 3)) = size) as Es.
  { unfold compact_size. change 256 with (2 ^ 8). rewrite <- Z.pow_mul_r by lia.
    rewrite Z.log2_mul_pow2 by lia.
    assert (15 <= Z.log2 word) by (apply Z.log2_le_pow2; lia).
    assert (Z.log2 word < 23) by (apply Z.log2_lt_pow2; lia). mlia. }
  rewrite Es. f_equal. unfold compact_mantissa. destruct (Z.leb_spec size 3).
  - replace size with 3 in * by lia. simpl (3 - 3) in *. change (256 ^ 0) with 1. lia.
  - rewrite Z.div_mul by lia. lia.
Qed.

Lemma SetCompact_then_GetCompact_witness :
  GetCompact (SetCompact 0x1b0404cb).(compact_value) false = Some 0x1b0404cb.
Proof.
  apply (SetCompact_then_GetCompact 0x1b0404cb); [| |..|reflexivity];
    vm_compute; repeat split; discriminate.
Defined.
