(* ===== verification/Params.v ===== *)
(** * Consensus parameters and network upgrades

    src/src/consensus/params.h, params.cpp, upgrades.h, upgrades.cpp, and the
    main-network values of src/src/chainparams.cpp.  An [UpgradeIndex] is an
    index into [vUpgrades]; a failing [assert] is [None]. *)

From S2P Require Import Prelude ArithUint256.
Local Open Scope Z_scope.

(** ** Data *)

Definition BASE_NETWORK : nat := 0.
Definition ACTIVATE_POS : nat := 1.
Definition ACTIVATE_NEW_COLDSTAKE : nat := 2.
Definition ACTIVATE_NEW_FEE_RULES : nat := 3.
Definition ACTIVATE_ASSET_VALIDATION : nat := 4.
Definition ACTIVATE_HUSH : nat := 5.
Definition UPGRADE_TESTDUMMY : nat := 6.
Definition MAX_NETWORK_UPGRADES : nat := 7.

Definition ALWAYS_ACTIVE : Z := 0.
Definition NO_ACTIVATION_HEIGHT : Z := -1.

Record NetworkUpgrade := {
  nProtocolVersion : Z;
  nActivationHeight : Z;
  hashActivationBlock : option base_uint;
}.

Inductive UpgradeState := UPGRADE_DISABLED | UPGRADE_PENDING | UPGRADE_ACTIVE.

#[export] Instance UpgradeState_eq_dec : EqDecision UpgradeState.
Proof. solve_decision. Defined.

Record Params := {
  fPowAllowMinDifficultyBlocks : bool;
  powLimit : base_uint;
  posLimitV1 : base_uint;
  posLimitV2 : base_uint;
  nBudgetCycleBlocks : Z;
  nRewardHalvingBlocks : Z;
  nBudgetFeeConfirmations : Z;
  nCoinbaseMaturity : Z;
  nFutureTimeDriftPoW : Z;
  nFutureTimeDriftPoS : Z;
  nMasternodeCountDrift : Z;
  nMaxMoneyOut : Z;
  nPoolMaxTransactions : Z;
  nProposalEstablishmentTime : Z;
  nStakeMinAge : Z;
  nStakeMinDepth : Z;
  nTargetTimespan : Z;
  nTargetTimespanV2 : Z;
  nTargetSpacing : Z;
  nTimeSlotLength : Z;
  nMaxProposalPayments : Z;
  vUpgrades : list NetworkUpgrade;
}.

Definition no_upgrade : NetworkUpgrade :=
  {| nProtocolVersion := 0; nActivationHeight := 0; hashActivationBlock := None |}.

(** [vUpgrades[idx]]; the array has [MAX_NETWORK_UPGRADES] entries. *)
Definition upgrade_at (p : Params) (idx : nat) : NetworkUpgrade := nth idx p.(vUpgrades) no_upgrade.

(** ** Upgrade state *)

Definition NetworkUpgradeState (nHeight : Z) (p : Params) (idx : nat) : option UpgradeState :=
  if nHeight <? 0 then None
  else if negb (bool_decide (BASE_NETWORK <= idx < MAX_NETWORK_UPGRADES)%nat) then None
  else
    let h := (upgrade_at p idx).(nActivationHeight) in
    Some (if h =? NO_ACTIVATION_HEIGHT then UPGRADE_DISABLED
          else if h <=? nHeight then UPGRADE_ACTIVE
          else UPGRADE_PENDING).

(** The free function of upgrades.cpp. *)
Definition NetworkUpgradeActive_free (nHeight : Z) (p : Params) (idx : nat) : option bool :=
  s ← NetworkUpgradeState nHeight p idx; Some (bool_decide (s = UPGRADE_ACTIVE)).

(** [Params::NetworkUpgradeActive]: out-of-range arguments answer [false]. *)
Definition NetworkUpgradeActive (p : Params) (nHeight : Z) (idx : nat) : bool :=
  if bool_decide (MAX_NETWORK_UPGRADES <= idx)%nat then false
  else if nHeight <? 0 then false
  else bool_decide (NetworkUpgradeState nHeight p idx = Some UPGRADE_ACTIVE).

Fixpoint CurrentEpoch_loop (nHeight : Z) (p : Params) (idx : nat) : option nat :=
  match idx with
  | O => Some BASE_NETWORK
  | S i => a ← NetworkUpgradeActive_free nHeight p idx;
           if a : bool then Some idx else CurrentEpoch_loop nHeight p i
  end.
Definition CurrentEpoch (nHeight : Z) (p : Params) : option nat :=
  CurrentEpoch_loop nHeight p (MAX_NETWORK_UPGRADES - 1).

Definition IsActivationHeight (nHeight : Z) (p : Params) (idx : nat) : option bool :=
  if negb (bool_decide (BASE_NETWORK <= idx < MAX_NETWORK_UPGRADES)%nat) then None
  else if bool_decide (idx = BASE_NETWORK) then Some false
  else Some ((0 <=? nHeight) && (nHeight =? (upgrade_at p idx).(nActivationHeight))).

Definition IsActivationHeightForAnyUpgrade (nHeight : Z) (p : Params) : bool :=
  if nHeight <? 0 then false
  else existsb (λ idx, nHeight =? (upgrade_at p idx).(nActivationHeight))
         (seq (BASE_NETWORK + 1) (MAX_NETWORK_UPGRADES - (BASE_NETWORK + 1))).

Definition NextEpoch (nHeight : Z) (p : Params) : option nat :=
  if nHeight <? 0 then None
  else find (λ idx, bool_decide (NetworkUpgradeState nHeight p idx = Some UPGRADE_PENDING))
         (seq (BASE_NETWORK + 1) (MAX_NETWORK_UPGRADES - (BASE_NETWORK + 1))).

Definition NextActivationHeight (nHeight : Z) (p : Params) : option Z :=
  idx ← NextEpoch nHeight p; Some (upgrade_at p idx).(nActivationHeight).

(** ** Inline members of [Consensus::Params] *)

Definition TargetTimespan (p : Params) (fV2 : bool) : Z :=
  if fV2 then p.(nTargetTimespanV2) else p.(nTargetTimespan).
Definition ProofOfStakeLimit (p : Params) (fV2 : bool) : base_uint :=
  if fV2 then p.(posLimitV2) else p.(posLimitV1).
Definition MoneyRange (p : Params) (nValue : Z) : bool :=
  (0 <=? nValue) && (nValue <=? p.(nMaxMoneyOut)).
Definition IsTimeProtocolV2 (p : Params) (nHeight : Z) : bool :=
  NetworkUpgradeActive p nHeight ACTIVATE_POS.

Definition FutureBlockTimeDrift (p : Params) (nHeight : Z) : Z :=
  if IsTimeProtocolV2 p nHeight then p.(nTimeSlotLength) - 1
  else if NetworkUpgradeActive p nHeight ACTIVATE_POS then p.(nFutureTimeDriftPoS)
  else p.(nFutureTimeDriftPoW).

Definition IsValidBlockTimeStamp (p : Params) (nTime nHeight : Z) : bool :=
  if negb (IsTimeProtocolV2 p nHeight) then true
  else Z.rem nTime p.(nTimeSlotLength) =? 0.

Definition HasStakeMinAgeOrDepth (p : Params)
    (contextHeight contextTime utxoFromBlockHeight utxoFromBlockTime : Z) : bool :=
  p.(nStakeMinDepth) <=? contextHeight - utxoFromBlockHeight.

(** ** The main network *)

Definition COIN : Z := 100000000.

Definition upgrade_height (h : Z) : NetworkUpgrade :=
  {| nProtocolVersion := 0; nActivationHeight := h; hashActivationBlock := None |}.

(** [CMainParams]: the values the constructor assigns ([nMasternodeCountDrift]
    is left unset there). *)
Definition main_params : Params := {|
  fPowAllowMinDifficultyBlocks := false;
  powLimit := uint_shr (uint_not (uint_zero W256)) 20;
  posLimitV1 := uint_shr (uint_not (uint_zero W256)) 24;
  posLimitV2 := uint_shr (uint_not (uint_zero W256)) 20;
  nBudgetCycleBlocks := 44000;
  nRewardHalvingBlocks := 264000;
  nBudgetFeeConfirmations := 6;
  nCoinbaseMaturity := 20;
  nFutureTimeDriftPoW := 7200;
  nFutureTimeDriftPoS := 180;
  nMasternodeCountDrift := 0;
  nMaxMoneyOut := 10000000 * COIN;
  nPoolMaxTransactions := 3;
  nProposalEstablishmentTime := 60 * 60 * 24;
  nStakeMinAge := 60 * 60;
  nStakeMinDepth := 100;
  nTargetTimespan := 40 * 60;
  nTargetTimespanV2 := 30 * 60;
  nTargetSpacing := 1 * 60;
  nTimeSlotLength := 15;
  nMaxProposalPayments := 6;
  vUpgrades := upgrade_height <$>
    [ALWAYS_ACTIVE; 44000; 512000; 512000;
     NO_ACTIVATION_HEIGHT; NO_ACTIVATION_HEIGHT; NO_ACTIVATION_HEIGHT];
|}.

(** ** Lemmas *)

Lemma upgrade_state_total h p idx :
  0 <= h → (idx < MAX_NETWORK_UPGRADES)%nat → is_Some (NetworkUpgradeState h p idx).
Proof.
  intros Hh Hi. unfold NetworkUpgradeState. rewrite (proj2 (Z.ltb_ge _ _)) by done.
  rewrite bool_decide_true by (unfold BASE_NETWORK; lia). by eexists.
Qed.

Lemma upgrade_active_iff p h idx :
  NetworkUpgradeActive p h idx = true ↔
  (idx < MAX_NETWORK_UPGRADES)%nat ∧ 0 <= h ∧
  (upgrade_at p idx).(nActivationHeight) <> NO_ACTIVATION_HEIGHT ∧
  (upgrade_at p idx).(nActivationHeight) <= h.
Proof.
  unfold NetworkUpgradeActive, NetworkUpgradeState.
  case_bool_decide; [split; [done|lia]|].
  destruct (Z.ltb_spec h 0); [split; [done|lia]|].
  rewrite (bool_decide_true (BASE_NETWORK <= idx < _)%nat) by (unfold BASE_NETWORK; lia). cbn [negb].
  rewrite bool_decide_eq_true.
  destruct (Z.eqb_spec (upgrade_at p idx).(nActivationHeight) NO_ACTIVATION_HEIGHT);
    [split; [done|]; intuition lia|].
  destruct (Z.leb_spec (upgrade_at p idx).(nActivationHeight) h).
  - split; [|done]. intros _. repeat split; [lia|done|done|done].
  - split; [done|]. lia.
Qed.

Lemma upgrade_active_free_eq p h idx :
  0 <= h → (idx < MAX_NETWORK_UPGRADES)%nat →
  NetworkUpgradeActive_free h p idx = Some (NetworkUpgradeActive p h idx).
Proof.
  intros Hh Hi. unfold NetworkUpgradeActive_free, NetworkUpgradeActive.
  destruct (upgrade_state_total h p idx) as [s Hs]; [done..|]. rewrite Hs.
  rewrite bool_decide_false by lia. rewrite (proj2 (Z.ltb_ge _ _)) by done. cbn.
  f_equal. apply bool_decide_ext. naive_solver.
Qed.

Lemma CurrentEpoch_loop_spec p h n :
  0 <= h → (n < MAX_NETWORK_UPGRADES)%nat →
  ∃ e, CurrentEpoch_loop h p n = Some e ∧ (e <= n)%nat ∧
    (e = BASE_NETWORK ∨ NetworkUpgradeActive p h e = true) ∧
    ∀ j, (e < j <= n)%nat → NetworkUpgradeActive p h j = false.
Proof.
  intros Hh. induction n as [|n IH]; intros Hn; cbn [CurrentEpoch_loop].
  { exists BASE_NETWORK. repeat split; [done|by left|lia]. }
  rewrite upgrade_active_free_eq by done. cbn.
  destruct (NetworkUpgradeActive p h (S n)) eqn:E.
  - exists (S n). repeat split; [done|by right|lia].
  - destruct (IH ltac:(lia)) as (e&He&Hle&Ha&Hmax). exists e. repeat split; [done|lia|done|].
    intros j Hj. destruct (decide (j = S n)) as [->|]; [done|]. apply Hmax. lia.
Qed.

(** ** Properties *)

(** [CurrentEpoch] is total on non-negative heights, returns the highest
    active upgrade (or the base network), and never goes back as the chain
    grows. *)
Theorem CurrentEpoch_highest_active_and_monotone (p : Params) (h h' : Z) :
  0 <= h <= h' →
  ∃ e e', CurrentEpoch h p = Some e ∧ CurrentEpoch h' p = Some e' ∧ (e <= e')%nat ∧
    (e = BASE_NETWORK ∨ NetworkUpgradeActive p h e = true) ∧
    (∀ j, (e < j < MAX_NETWORK_UPGRADES)%nat → NetworkUpgradeActive p h j = false).
Proof.
  intros Hh.
  destruct (CurrentEpoch_loop_spec p h (MAX_NETWORK_UPGRADES - 1)) as (e&He&Hle&Ha&Hmax);
    [lia|unfold MAX_NETWORK_UPGRADES; lia|].
  destruct (CurrentEpoch_loop_spec p h' (MAX_NETWORK_UPGRADES - 1)) as (e'&He'&Hle'&Ha'&Hmax');
    [lia|unfold MAX_NETWORK_UPGRADES; lia|].
  exists e, e'. repeat split; [done|done| |done|intros j Hj; apply Hmax; lia].
  destruct Ha as [->|Ha]; [unfold BASE_NETWORK; lia|].
  apply Nat.nlt_ge. intros Hlt.
  assert (NetworkUpgradeActive p h' e = true) as Hact.
  { apply upgrade_active_iff in Ha. apply upgrade_active_iff. intuition lia. }
  rewrite Hmax' in Hact by lia. done.
Qed.

Lemma CurrentEpoch_highest_active_and_monotone_witness :
  ∃ e e', CurrentEpoch 43999 main_params = Some e ∧ CurrentEpoch 512000 main_params = Some e' ∧
    (e <= e')%nat.
Proof.
  destruct (CurrentEpoch_highest_active_and_monotone main_params 43999 512000) as (e&e'&H1&H2&H3&_);
    [lia|exists e, e'; exact (conj H1 (conj H2 H3))].
Defined.

(** when [NextActivationHeight] answers, the height lies strictly in the
    future and belongs to the first pending upgrade; when it answers nothing,
    no upgrade is pending. *)
Theorem NextActivationHeight_first_pending (p : Params) (h : Z) :
  0 <= h →
  match NextActivationHeight h p with
  | Some next => h < next ∧ ∃ idx, (0 < idx < MAX_NETWORK_UPGRADES)%nat ∧
      next = (upgrade_at p idx).(nActivationHeight) ∧
      ∀ j, (0 < j < idx)%nat → NetworkUpgradeState h p j <> Some UPGRADE_PENDING
  | None => ∀ j, (0 < j < MAX_NETWORK_UPGRADES)%nat → NetworkUpgradeState h p j <> Some UPGRADE_PENDING
  end.
Proof.
  intros Hh. unfold NextActivationHeight, NextEpoch. rewrite (proj2 (Z.ltb_ge _ _)) by done.
  assert (∀ j, NetworkUpgradeState h p j = Some UPGRADE_PENDING → h < (upgrade_at p j).(nActivationHeight))
    as Hpend.
  { intros j. unfold NetworkUpgradeState. repeat case_match; intros; simplify_eq. lia. }
  set (f := λ idx, bool_decide _).
  assert (∀ n k, (k + n = MAX_NETWORK_UPGRADES)%nat →
    match find f (seq k n) with
    | Some i => (k <= i < MAX_NETWORK_UPGRADES)%nat ∧ f i = true ∧ ∀ j, (k <= j < i)%nat → f j = false
    | None => ∀ j, (k <= j < MAX_NETWORK_UPGRADES)%nat → f j = false
    end) as Hfind.
  { intros n. induction n as [|n IH]; intros k Hk; cbn [seq find].
    - intros j Hj. lia.
    - destruct (f k) eqn:Ef; [repeat split; [lia..|done|lia]|].
      specialize (IH (S k) ltac:(lia)). destruct (find f (seq (S k) n)) as [i|].
      + destruct IH as (?&?&Hj). repeat split; [lia..|done|].
        intros j Hj'. destruct (decide (j = k)) as [->|]; [done|]. apply Hj. lia.
      + intros j Hj. destruct (decide (j = k)) as [->|]; [done|]. apply IH. lia. }
  specialize (Hfind 6%nat 1%nat eq_refl). change (seq (BASE_NETWORK + 1) _) with (seq 1 6).
  destruct (find f (seq 1 6)) as [i|]; cbn.
  - destruct Hfind as (Hi & Hf & Hj). apply bool_decide_eq_true in Hf. split; [by apply Hpend|].
    exists i. split; [lia|]. split; [done|]. intros j Hlt. apply (bool_decide_eq_false _). apply Hj. lia.
  - intros j Hlt. apply (bool_decide_eq_false _). apply Hfind. lia.
Qed.

Lemma NextActivationHeight_first_pending_witness : ∃ next, NextActivationHeight 44000 main_params = Some next ∧ 44000 < next.
Proof.
  pose proof (NextActivationHeight_first_pending main_params 44000 ltac:(lia)) as H.
  destruct (NextActivationHeight 44000 main_params) as [n|] eqn:E; [exists n; exact (conj eq_refl (proj1 H))|].
  vm_compute in E. discriminate E.
Defined.

(** since the time protocol V2 is tied to [ACTIVATE_POS], the block time
    drift is one slot less a second from that height on and the proof-of-work
    drift before it: the value [nFutureTimeDriftPoS] is never used. *)
Theorem FutureBlockTimeDrift_two_values (p : Params) (h : Z) :
  FutureBlockTimeDrift p h =
    if NetworkUpgradeActive p h ACTIVATE_POS then p.(nTimeSlotLength) - 1 else p.(nFutureTimeDriftPoW).
Proof.
  unfold FutureBlockTimeDrift, IsTimeProtocolV2. by destruct (NetworkUpgradeActive p h ACTIVATE_POS).
Qed.
