(* ===== verification/Chain.v ===== *)
(** * The block index: src/src/chain.{h,cpp}

    Block index entries are heap objects linked by [pprev] and [pskip]; here
    the heap is a finite map from pointers to entries ([BlockTree]), [NULL] is
    [None], and dereferencing a null or dangling pointer, or reading a vector
    out of range, is the outer [None] of a result.  [wf_tree] is the invariant
    that [BuildSkip] and the insertion of new entries maintain; [up] is the
    reference walk along [pprev]. *)

From stdpp Require Import sorting.
From S2P Require Import Prelude ArithUint256 Params.
Local Open Scope Z_scope.

(** ** Data *)

Abbreviation ptr := positive.

Definition BLOCK_VALID_UNKNOWN : Z := 0.
Definition BLOCK_VALID_HEADER : Z := 1.
Definition BLOCK_VALID_TREE : Z := 2.
Definition BLOCK_VALID_TRANSACTIONS : Z := 3.
Definition BLOCK_VALID_CHAIN : Z := 4.
Definition BLOCK_VALID_SCRIPTS : Z := 5.
Definition BLOCK_VALID_MASK : Z :=
  Z.lor (Z.lor (Z.lor (Z.lor BLOCK_VALID_HEADER BLOCK_VALID_TREE) BLOCK_VALID_TRANSACTIONS)
           BLOCK_VALID_CHAIN) BLOCK_VALID_SCRIPTS.
Definition BLOCK_HAVE_DATA : Z := 8.
Definition BLOCK_HAVE_UNDO : Z := 16.
Definition BLOCK_FAILED_VALID : Z := 32.
Definition BLOCK_FAILED_CHILD : Z := 64.
Definition BLOCK_FAILED_MASK : Z := Z.lor BLOCK_FAILED_VALID BLOCK_FAILED_CHILD.

Definition BLOCK_PROOF_OF_STAKE : Z := 1.
Definition BLOCK_STAKE_ENTROPY : Z := 2.
Definition BLOCK_STAKE_MODIFIER : Z := 4.

Record CBlockIndex := mkCBlockIndex {
  phashBlock : base_uint;
  pprev : option ptr;
  pskip : option ptr;
  nHeight : Z;
  nFile : Z;
  nDataPos : Z;
  nUndoPos : Z;
  nChainWork : base_uint;
  nTx : Z;
  nChainTx : Z;
  nStatus : Z;
  vStakeModifier : list Z;
  nFlags : Z;
  nSaplingValue : Z;
  nChainSaplingValue : option Z;
  nVersion : Z;
  hashMerkleRoot : base_uint;
  hashFinalSaplingRoot : base_uint;
  assetRootHash : base_uint;
  nTime : Z;
  nBits : Z;
  nNonce : Z;
  nSequenceId : Z;
}.

Abbreviation BlockTree := (gmap ptr CBlockIndex).

(** Assignments to the fields the operations below change. *)
Definition set_links (b : CBlockIndex) (prev skip : option ptr) (h : Z) : CBlockIndex :=
  let '(mkCBlockIndex a1 _ _ _ a5 a6 a7 a8 a9 a10 a11 a12 a13 a14 a15 a16 a17 a18 a19 a20 a21 a22 a23) := b in
  mkCBlockIndex a1 prev skip h a5 a6 a7 a8 a9 a10 a11 a12 a13 a14 a15 a16 a17 a18 a19 a20 a21 a22 a23.
Definition set_pskip (b : CBlockIndex) (skip : option ptr) : CBlockIndex :=
  set_links b b.(pprev) skip b.(nHeight).
Definition set_nChainWork (b : CBlockIndex) (w : base_uint) : CBlockIndex :=
  let '(mkCBlockIndex a1 a2 a3 a4 a5 a6 a7 _ a9 a10 a11 a12 a13 a14 a15 a16 a17 a18 a19 a20 a21 a22 a23) := b in
  mkCBlockIndex a1 a2 a3 a4 a5 a6 a7 w a9 a10 a11 a12 a13 a14 a15 a16 a17 a18 a19 a20 a21 a22 a23.
Definition set_nStatus (b : CBlockIndex) (s : Z) : CBlockIndex :=
  let '(mkCBlockIndex a1 a2 a3 a4 a5 a6 a7 a8 a9 a10 _ a12 a13 a14 a15 a16 a17 a18 a19 a20 a21 a22 a23) := b in
  mkCBlockIndex a1 a2 a3 a4 a5 a6 a7 a8 a9 a10 s a12 a13 a14 a15 a16 a17 a18 a19 a20 a21 a22 a23.
Definition set_stake (b : CBlockIndex) (m : list Z) (flags : Z) : CBlockIndex :=
  let '(mkCBlockIndex a1 a2 a3 a4 a5 a6 a7 a8 a9 a10 a11 _ _ a14 a15 a16 a17 a18 a19 a20 a21 a22 a23) := b in
  mkCBlockIndex a1 a2 a3 a4 a5 a6 a7 a8 a9 a10 a11 m flags a14 a15 a16 a17 a18 a19 a20 a21 a22 a23.
Definition set_nChainSaplingValue (b : CBlockIndex) (v : option Z) : CBlockIndex :=
  let '(mkCBlockIndex a1 a2 a3 a4 a5 a6 a7 a8 a9 a10 a11 a12 a13 a14 _ a16 a17 a18 a19 a20 a21 a22 a23) := b in
  mkCBlockIndex a1 a2 a3 a4 a5 a6 a7 a8 a9 a10 a11 a12 a13 a14 v a16 a17 a18 a19 a20 a21 a22 a23.

(** ** Members of [CBlockIndex] *)

Definition GetBlockTime (b : CBlockIndex) : Z := b.(nTime).
Definition IsProofOfStake (b : CBlockIndex) : bool := negb (Z.land b.(nFlags) BLOCK_PROOF_OF_STAKE =? 0).
Definition IsProofOfWork (b : CBlockIndex) : bool := negb (IsProofOfStake b).
Definition SetProofOfStake (b : CBlockIndex) : CBlockIndex :=
  set_stake b b.(vStakeModifier) (Z.lor b.(nFlags) BLOCK_PROOF_OF_STAKE).
Definition GeneratedStakeModifier (b : CBlockIndex) : bool :=
  negb (Z.land b.(nFlags) BLOCK_STAKE_MODIFIER =? 0).

Definition GetStakeEntropyBit (b : CBlockIndex) : Z := Z.land (uint_GetLow64 b.(phashBlock)) 1.
Definition SetStakeEntropyBit (b : CBlockIndex) (nEntropyBit : Z) : bool * CBlockIndex :=
  if 1 <? nEntropyBit then (false, b)
  else (true, set_stake b b.(vStakeModifier)
                (Z.lor b.(nFlags) (if negb (nEntropyBit =? 0) then BLOCK_STAKE_ENTROPY else 0))).

(** [IsValid] and [RaiseValidity]; [None] is the failing [assert]. *)
Definition IsValid (b : CBlockIndex) (nUpTo : Z) : option bool :=
  if negb (Z.land nUpTo (u32 (Z.lnot BLOCK_VALID_MASK)) =? 0) then None
  else if negb (Z.land b.(nStatus) BLOCK_FAILED_MASK =? 0) then Some false
  else Some (nUpTo <=? Z.land b.(nStatus) BLOCK_VALID_MASK).

Definition RaiseValidity (b : CBlockIndex) (nUpTo : Z) : option (bool * CBlockIndex) :=
  if negb (Z.land nUpTo (u32 (Z.lnot BLOCK_VALID_MASK)) =? 0) then None
  else if negb (Z.land b.(nStatus) BLOCK_FAILED_MASK =? 0) then Some (false, b)
  else if Z.land b.(nStatus) BLOCK_VALID_MASK <? nUpTo
  then Some (true, set_nStatus b (Z.lor (Z.land b.(nStatus) (u32 (Z.lnot BLOCK_VALID_MASK))) nUpTo))
  else Some (false, b).

(** [SetChainSaplingValue] (the parent's value plus this block's). *)
Definition SetChainSaplingValue (t : BlockTree) (b : CBlockIndex) : option CBlockIndex :=
  match b.(pprev) with
  | None => Some (set_nChainSaplingValue b (Some b.(nSaplingValue)))
  | Some q => prev ← t !! q;
      Some (set_nChainSaplingValue b
              (match prev.(nChainSaplingValue) with
               | Some v => Some (i64 (v + b.(nSaplingValue)))
               | None => None
               end))
  end.

(** ** The skip list *)

Definition InvertLowestOne (n : Z) : Z := Z.land n (n - 1).

Definition GetSkipHeight (height : Z) : Z :=
  if height <? 2 then 0
  else if negb (Z.land height 1 =? 0) then InvertLowestOne (InvertLowestOne (height - 1)) + 1
  else InvertLowestOne height.

(** The loop of [GetAncestor]; [heightWalk] decreases on every round, so
    [heightWalk - height] rounds suffice. *)
Fixpoint GetAncestor_loop (fuel : nat) (t : BlockTree) (pindexWalk : option ptr)
    (heightWalk height : Z) : option (option ptr) :=
  if heightWalk <=? height then Some pindexWalk
  else match fuel with
  | O => None
  | S fuel =>
      let heightSkip := GetSkipHeight heightWalk in
      let heightSkipPrev := GetSkipHeight (heightWalk - 1) in
      p ← pindexWalk;
      b ← t !! p;
      if (heightSkip =? height) ||
         ((height <? heightSkip) &&
          negb ((heightSkipPrev <? heightSkip - 2) && (height <=? heightSkipPrev)))
      then GetAncestor_loop fuel t b.(pskip) heightSkip height
      else GetAncestor_loop fuel t b.(pprev) (heightWalk - 1) height
  end.

Definition GetAncestor (t : BlockTree) (p : ptr) (height : Z) : option (option ptr) :=
  b ← t !! p;
  if (b.(nHeight) <? height) || (height <? 0) then Some None
  else GetAncestor_loop (Z.to_nat (b.(nHeight) - height)) t (Some p) b.(nHeight) height.

(** [BuildSkip]. *)
Definition BuildSkip (t : BlockTree) (b : CBlockIndex) : option CBlockIndex :=
  match b.(pprev) with
  | None => Some b
  | Some q => s ← GetAncestor t q (GetSkipHeight b.(nHeight)); Some (set_pskip b s)
  end.

(** ** Median time *)

Definition nMedianTimeSpan : nat := 11.

Fixpoint past_times (n : nat) (t : BlockTree) (pindex : option ptr) : option (list Z) :=
  match n, pindex with
  | O, _ | _, None => Some []
  | S n, Some p => b ← t !! p; r ← past_times n t b.(pprev); Some (GetBlockTime b :: r)
  end.

(** [std::sort] then the middle element. *)
Definition GetMedianTimePast (t : BlockTree) (p : ptr) : option Z :=
  times ← past_times nMedianTimeSpan t (Some p);
  let sorted := merge_sort Z.le times in
  sorted !! (length sorted / 2)%nat.

Definition MinPastBlockTime (prm : Params) (t : BlockTree) (p : ptr) : option Z :=
  b ← t !! p;
  if negb (IsTimeProtocolV2 prm (b.(nHeight) + 1)) then GetMedianTimePast t p
  else if b.(nHeight) + 1 =? (upgrade_at prm ACTIVATE_POS).(nActivationHeight)
  then Some (GetBlockTime b - FutureBlockTimeDrift prm b.(nHeight)
             + FutureBlockTimeDrift prm (b.(nHeight) + 1))
  else Some (GetBlockTime b).

Definition MaxFutureBlockTime (prm : Params) (adjustedTime : Z) (b : CBlockIndex) : Z :=
  adjustedTime + FutureBlockTimeDrift prm (b.(nHeight) + 1).

(** ** The active chain [CChain] *)

Abbreviation CChain := (list (option ptr)).

Definition Chain_Height (c : CChain) : Z := Z.of_nat (length c) - 1.
Definition Chain_Genesis (c : CChain) : option ptr :=
  match c with p :: _ => p | [] => None end.
Definition Chain_at (c : CChain) (nHeight : Z) : option ptr :=
  if (nHeight <? 0) || (Z.of_nat (length c) <=? nHeight) then None
  else nth (Z.to_nat nHeight) c None.
Definition Chain_Tip (c : CChain) : option ptr :=
  if bool_decide (length c < 1)%nat then None else nth (length c - 1) c None.

Definition Chain_Contains (t : BlockTree) (c : CChain) (p : ptr) : option bool :=
  b ← t !! p; Some (bool_decide (Chain_at c b.(nHeight) = Some p)).

Definition Chain_Next (t : BlockTree) (c : CChain) (p : ptr) : option (option ptr) :=
  b ← t !! p;
  k ← Chain_Contains t c p;
  Some (if k : bool then Chain_at c (b.(nHeight) + 1) else None).

(** [SetTip]: the loop writes [vChain[pindex->nHeight]] down to the first
    entry that is already right; [pindex] runs down [pprev], so [nHeight + 1]
    rounds suffice. *)
Fixpoint SetTip_loop (fuel : nat) (t : BlockTree) (c : CChain) (pindex : option ptr) : option CChain :=
  match pindex with
  | None => Some c
  | Some p =>
      b ← t !! p;
      e ← c !! Z.to_nat b.(nHeight);
      if bool_decide (e = Some p) then Some c
      else match fuel with
           | O => None
           | S fuel => SetTip_loop fuel t (<[Z.to_nat b.(nHeight) := Some p]> c) b.(pprev)
           end
  end.

Definition SetTip (t : BlockTree) (c : CChain) (pindex : option ptr) : option CChain :=
  match pindex with
  | None => Some []
  | Some p =>
      b ← t !! p;
      SetTip_loop (Z.to_nat (b.(nHeight) + 1)) t
        (resize (Z.to_nat (b.(nHeight) + 1)) None c) (Some p)
  end.

(** [FindFork]. *)
Fixpoint FindFork_loop (fuel : nat) (t : BlockTree) (c : CChain) (pindex : option ptr) : option (option ptr) :=
  match pindex with
  | None => Some None
  | Some p =>
      k ← Chain_Contains t c p;
      if k : bool then Some (Some p)
      else match fuel with
           | O => None
           | S fuel => b ← t !! p; FindFork_loop fuel t c b.(pprev)
           end
  end.

Definition FindFork (t : BlockTree) (c : CChain) (pindex : option ptr) : option (option ptr) :=
  match pindex with
  | None => Some None
  | Some p =>
      b ← t !! p;
      p' ← (if Chain_Height c <? b.(nHeight) then GetAncestor t p (Chain_Height c) else Some (Some p));
      FindFork_loop (Z.to_nat (b.(nHeight) + 1)) t c p'
  end.

(** [LastCommonAncestor]; the final [assert(pa == pb)] is kept. *)
Fixpoint LastCommonAncestor_loop (fuel : nat) (t : BlockTree) (pa pb : option ptr) : option (option ptr * option ptr) :=
  if bool_decide (pa = pb) then Some (pa, pb)
  else match pa, pb with
  | Some a, Some b =>
      match fuel with
      | O => None
      | S fuel => ba ← t !! a; bb ← t !! b; LastCommonAncestor_loop fuel t ba.(pprev) bb.(pprev)
      end
  | _, _ => Some (pa, pb)
  end.

Definition LastCommonAncestor (t : BlockTree) (pa pb : ptr) : option (option ptr) :=
  ba ← t !! pa;
  bb ← t !! pb;
  a ← (if bb.(nHeight) <? ba.(nHeight) then GetAncestor t pa bb.(nHeight) else Some (Some pa));
  b ← (if ba.(nHeight) <? bb.(nHeight) then GetAncestor t pb ba.(nHeight) else Some (Some pb));
  '(a', b') ← LastCommonAncestor_loop (Z.to_nat (Z.min ba.(nHeight) bb.(nHeight) + 1)) t a b;
  if bool_decide (a' = b') then Some a' else None.

(** [GetLocator], the list of block hashes [vHave]; at most [nHeight + 1]
    rounds, since every step back is at least one block. *)
Fixpoint GetLocator_loop (fuel : nat) (t : BlockTree) (c : CChain) (pindex : option ptr)
    (nStep : Z) (vHave : list base_uint) : option (list base_uint) :=
  match pindex with
  | None => Some vHave
  | Some p =>
      b ← t !! p;
      let vHave := vHave ++ [b.(phashBlock)] in
      if b.(nHeight) =? 0 then Some vHave
      else
        let h := Z.max (b.(nHeight) - nStep) 0 in
        k ← Chain_Contains t c p;
        q ← (if k : bool then Some (Chain_at c h) else GetAncestor t p h);
        let nStep := if bool_decide (10 < length vHave)%nat then i32 (nStep * 2) else nStep in
        match fuel with
        | O => None
        | S fuel => GetLocator_loop fuel t c q nStep vHave
        end
  end.

Definition GetLocator (t : BlockTree) (c : CChain) (pindex : option ptr) : option (list base_uint) :=
  let start := match pindex with Some p => Some p | None => Chain_Tip c end in
  match start with
  | None => Some []
  | Some p => b ← t !! p; GetLocator_loop (Z.to_nat (b.(nHeight) + 1)) t c (Some p) 1 []
  end.

(** ** The tree invariant and the reference walk *)

(** [up t p n]: follow [pprev] [n] times. *)
Fixpoint up (t : BlockTree) (p : ptr) (n : nat) : option ptr :=
  match n with
  | O => Some p
  | S n => b ← t !! p; q ← b.(pprev); up t q n
  end.

Definition is_ancestor (t : BlockTree) (p q : ptr) : Prop := ∃ n, up t p n = Some q.

(** Every entry sits one above its parent and its skip pointer is the ancestor
    at [GetSkipHeight]; entries without a parent are at height 0. *)
Definition entry_ok (t : BlockTree) (b : CBlockIndex) : Prop :=
  match b.(pprev) with
  | None => b.(nHeight) = 0
  | Some q => ∃ bq, t !! q = Some bq ∧ 0 <= bq.(nHeight) ∧ b.(nHeight) = bq.(nHeight) + 1 ∧
      b.(pskip) = up t q (Z.to_nat (bq.(nHeight) - GetSkipHeight b.(nHeight)))
  end.

Definition wf_tree (t : BlockTree) : Prop := ∀ p b, t !! p = Some b → entry_ok t b.

Lemma wf_height t p b : wf_tree t → t !! p = Some b → 0 <= b.(nHeight).
Proof.
  intros Hwf Hp. specialize (Hwf p b Hp). unfold entry_ok in Hwf. destruct (pprev b).
  - destruct Hwf as (bq&_&?&->&_). lia.
  - lia.
Qed.

Lemma up_add t p n m : up t p (n + m) = q ← up t p n; up t q m.
Proof.
  revert p. induction n as [|n IH]; intros p; [done|]. cbn [up Nat.add].
  destruct (t !! p) as [b|]; [|done]. cbn. destruct (pprev b) as [q|]; [|done]. cbn. apply IH.
Qed.

Lemma up_1 t p b : t !! p = Some b → up t p 1 = b.(pprev).
Proof. intros Hp. cbn. rewrite Hp. cbn. by destruct (pprev b). Qed.

(** In a well-formed tree the walk of [n <= nHeight] steps succeeds. *)
Lemma up_total t p b n :
  wf_tree t → t !! p = Some b → Z.of_nat n <= b.(nHeight) →
  ∃ q bq, up t p n = Some q ∧ t !! q = Some bq ∧ bq.(nHeight) = b.(nHeight) - Z.of_nat n.
Proof.
  intros Hwf. revert p b. induction n as [|n IH]; intros p b Hp Hn.
  { exists p, b. repeat split; [done|lia]. }
  cbn [up]. rewrite Hp. cbn. pose proof (Hwf p b Hp) as Hok. unfold entry_ok in Hok.
  destruct (pprev b) as [q|]; [|lia]. destruct Hok as (bq&Hq&_&Hh&_). cbn.
  destruct (IH q bq Hq ltac:(lia)) as (r&br&Hr&Hbr&Hhr).
  exists r, br. repeat split; [done..|lia].
Qed.

Lemma up_height t p b n q bq :
  wf_tree t → t !! p = Some b → up t p n = Some q → t !! q = Some bq →
  bq.(nHeight) = b.(nHeight) - Z.of_nat n.
Proof.
  intros Hwf. revert p b. induction n as [|n IH]; intros p b Hp Hup Hq.
  { cbn in Hup. simplify_eq. lia. }
  cbn [up] in Hup. rewrite Hp in Hup. cbn in Hup. pose proof (Hwf p b Hp) as Hok.
  unfold entry_ok in Hok. destruct (pprev b) as [q'|]; [|done]. cbn in Hup.
  destruct Hok as (bq'&Hq'&_&Hh&_). rewrite (IH q' bq' Hq' Hup Hq). lia.
Qed.

Lemma up_lookup t p b n q :
  wf_tree t → t !! p = Some b → up t p n = Some q → ∃ bq, t !! q = Some bq.
Proof.
  intros Hwf. revert p b. induction n as [|n IH]; intros p b Hp Hup.
  { cbn in Hup. simplify_eq. by exists b. }
  cbn [up] in Hup. rewrite Hp in Hup. cbn in Hup. pose proof (Hwf p b Hp) as Hok.
  unfold entry_ok in Hok. destruct (pprev b) as [q'|]; [|done]. cbn in Hup.
  destruct Hok as (bq'&Hq'&_&Hh&_). eauto.
Qed.

(** Walking further than the height of the block reaches [NULL]. *)
Lemma up_le_height t p b n q :
  wf_tree t → t !! p = Some b → up t p n = Some q → Z.of_nat n <= b.(nHeight).
Proof.
  intros Hwf Hp Hup. destruct (up_lookup t p b n q) as [bq Hq]; [done..|].
  pose proof (up_height t p b n q bq Hwf Hp Hup Hq). pose proof (wf_height t q bq Hwf Hq). lia.
Qed.

(** ** Skip heights *)

Lemma InvertLowestOne_bounds n : 0 <= n → 0 <= InvertLowestOne n <= Z.max 0 (n - 1).
Proof.
  intros Hn. unfold InvertLowestOne. destruct (decide (n = 0)) as [->|]; [done|].
  rewrite Z.land_comm. pose proof (land_le_l (n - 1) n ltac:(lia)). lia.
Qed.

Lemma GetSkipHeight_bounds h : 0 < h → 0 <= GetSkipHeight h < h.
Proof.
  intros Hh. unfold GetSkipHeight. destruct (Z.ltb_spec h 2); [lia|].
  destruct (negb _).
  - pose proof (InvertLowestOne_bounds (h - 1) ltac:(lia)).
    pose proof (InvertLowestOne_bounds (InvertLowestOne (h - 1)) ltac:(lia)). lia.
  - pose proof (InvertLowestOne_bounds h ltac:(lia)). lia.
Qed.

(** The loop follows skip pointers and parents, and ends at the reference
    ancestor. *)
Lemma GetAncestor_loop_spec t fuel p b height :
  wf_tree t → t !! p = Some b → 0 <= height <= b.(nHeight) →
  b.(nHeight) - height <= Z.of_nat fuel →
  GetAncestor_loop fuel t (Some p) b.(nHeight) height =
    Some (up t p (Z.to_nat (b.(nHeight) - height))).
Proof.
  intros Hwf. revert p b. induction fuel as [|fuel IH]; intros p b Hp Hh Hf; cbn [GetAncestor_loop].
  { rewrite (proj2 (Z.leb_le _ _)) by lia. by replace (Z.to_nat _) with 0%nat by lia. }
  destruct (Z.leb_spec (nHeight b) height) as [Hle|Hgt].
  { by replace (Z.to_nat _) with 0%nat by lia. }
  cbn. rewrite Hp. cbn.
  pose proof (Hwf p b Hp) as Hok. unfold entry_ok in Hok. pose proof (up_1 t p b Hp) as Hup1.
  destruct (pprev b) as [q|] eqn:Epprev; [|lia]. destruct Hok as (bq&Hq&Hbq&Hhq&Hskip).
  pose proof (GetSkipHeight_bounds (nHeight b) ltac:(lia)) as Hs.
  assert (∀ k, up t q k = up t p (S k)) as Hqp.
  { intros k. change (S k) with (1 + k)%nat. rewrite up_add, Hup1. done. }
  destruct (_ || _) eqn:Ecase.
  - assert (height <= GetSkipHeight (nHeight b)) as Hge by lia. clear Ecase.
    destruct (up_total t q bq (Z.to_nat (nHeight bq - GetSkipHeight (nHeight b))))
      as (s&bs&Hs1&Hs2&Hs3); [done..|lia|].
    rewrite Hskip, Hs1.
    replace (GetSkipHeight (nHeight b)) with (nHeight bs) in * by lia.
    rewrite IH by (done || lia). f_equal.
    rewrite Hqp in Hs1.
    replace (Z.to_nat (nHeight b - height))
      with (S (Z.to_nat (nHeight bq - nHeight bs)) + Z.to_nat (nHeight bs - height))%nat by lia.
    by rewrite up_add, Hs1.
  - replace (nHeight b - 1) with (nHeight bq) by lia.
    rewrite IH by (done || lia). f_equal. rewrite Hqp. f_equal. lia.
Qed.

Lemma GetAncestor_spec t p b height :
  wf_tree t → t !! p = Some b →
  GetAncestor t p height =
    Some (if (b.(nHeight) <? height) || (height <? 0) then None
          else up t p (Z.to_nat (b.(nHeight) - height))).
Proof.
  intros Hwf Hp. unfold GetAncestor. rewrite Hp. cbn.
  destruct (_ || _) eqn:E; [done|]. apply GetAncestor_loop_spec; [done..|lia|lia].
Qed.

(** ** Growing the tree *)

Lemma up_insert_fresh t p x q b n :
  wf_tree t → t !! p = None → t !! q = Some b → up (<[p:=x]> t) q n = up t q n.
Proof.
  intros Hwf Hp. revert q b. induction n as [|n IH]; intros q b Hq; [done|]. cbn [up].
  rewrite lookup_insert_ne by congruence. rewrite Hq. cbn.
  pose proof (Hwf q b Hq) as Hok. unfold entry_ok in Hok.
  destruct (pprev b) as [r|]; [|done]. destruct Hok as (br&Hr&_). cbn. by apply (IH r br).
Qed.

(** A fresh entry with correct links keeps the tree well formed. *)
Lemma wf_tree_insert t p x :
  wf_tree t → t !! p = None → entry_ok t x → wf_tree (<[p:=x]> t).
Proof.
  intros Hwf Hp Hx q b Hq.
  assert (∀ b, entry_ok t b → entry_ok (<[p:=x]> t) b) as Hmono.
  { intros b'. unfold entry_ok. destruct (pprev b') as [r|]; [|done].
    intros (br&Hr&Hb&Hh&Hs). exists br. rewrite lookup_insert_ne by congruence.
    rewrite (up_insert_fresh t p x r br) by done. done. }
  rewrite lookup_insert in Hq. case_decide; simplify_eq; [by apply Hmono|]. by apply Hmono, (Hwf q).
Qed.

Lemma set_links_fields b prev skip h :
  (set_links b prev skip h).(pprev) = prev ∧ (set_links b prev skip h).(pskip) = skip ∧
  (set_links b prev skip h).(nHeight) = h.
Proof. by destruct b. Qed.

(** [BuildSkip] on an entry whose parent and height have been set. *)
Lemma BuildSkip_spec t b q bq :
  wf_tree t → t !! q = Some bq → b.(pprev) = Some q → b.(nHeight) = bq.(nHeight) + 1 →
  ∃ b', BuildSkip t b = Some b' ∧ b'.(pprev) = Some q ∧ b'.(nHeight) = b.(nHeight) ∧ entry_ok t b'.
Proof.
  intros Hwf Hq Hprev Hh. unfold BuildSkip. rewrite Hprev.
  pose proof (wf_height t q bq Hwf Hq) as Hbq.
  pose proof (GetSkipHeight_bounds (nHeight b) ltac:(lia)).
  rewrite (GetAncestor_spec t q bq) by done.
  replace (_ || _) with false by lia. cbn. eexists. split; [done|].
  unfold set_pskip. destruct (set_links_fields b (pprev b)
    (up t q (Z.to_nat (nHeight bq - GetSkipHeight (nHeight b)))) (nHeight b)) as (E1&E2&E3).
  rewrite E1, E3. split; [done|]. split; [done|].
  unfold entry_ok. rewrite E1, E2, E3, Hprev. exists bq. done.
Qed.

(** ** The active chain *)

(** [c] lists the ancestors of [tip], genesis first. *)
Definition chain_to (t : BlockTree) (c : CChain) (tip : ptr) : Prop :=
  ∃ b, t !! tip = Some b ∧ Z.of_nat (length c) = b.(nHeight) + 1 ∧
    ∀ i, (i < length c)%nat → c !! i = Some (up t tip (length c - 1 - i)).

Definition chain_ok (t : BlockTree) (c : CChain) : Prop := c = [] ∨ ∃ tip, chain_to t c tip.

Lemma chain_to_nth t c tip i :
  chain_to t c tip → (i < length c)%nat → nth i c None = up t tip (length c - 1 - i).
Proof. intros (b&_&_&Hi) Hlt. by rewrite nth_lookup, (Hi i Hlt). Qed.

(** The loop of [SetTip]: entries above [p] are already ancestors of [tip];
    the entries below come from an old chain, so finding [p] in place means
    that everything below is right as well. *)
Lemma SetTip_loop_spec t old c tip btip fuel n p b :
  wf_tree t → chain_ok t old → t !! tip = Some btip → up t tip n = Some p → t !! p = Some b →
  Z.of_nat (length c) = btip.(nHeight) + 1 →
  (∀ i, (length c - n <= i < length c)%nat → c !! i = Some (up t tip (length c - 1 - i))) →
  (∀ i, (i < length c - n)%nat → c !! i = Some (nth i old None)) →
  b.(nHeight) < Z.of_nat fuel →
  ∃ c', SetTip_loop fuel t c (Some p) = Some c' ∧ chain_to t c' tip.
Proof.
  intros Hwf Hold Htip. revert c n p b.
  induction fuel as [|fuel IH]; intros c n p b Hup Hp Hlen Hhi Hlo Hf.
  { pose proof (wf_height t p b Hwf Hp). lia. }
  cbn [SetTip_loop]. rewrite Hp. cbn.
  pose proof (up_height t tip btip n p b Hwf Htip Hup Hp) as Hh. pose proof (wf_height t p b Hwf Hp) as Hb0.
  assert (Z.to_nat (nHeight b) = length c - 1 - n)%nat as Eidx by lia.
  rewrite Eidx, Hlo by lia. cbn. case_bool_decide as Ee.
  - exists c. split; [done|]. exists btip. split; [done|]. split; [done|].
    intros i Hi. destruct (decide (length c - n <= i)%nat) as [?|Hlow]; [apply Hhi; lia|].
    rewrite Hlo by lia. f_equal.
    destruct Hold as [->|[otip Hto]]; [by destruct (length c - 1 - n)%nat|].
    assert (length c - 1 - n < length old)%nat as Hlt.
    { apply Nat.nle_gt. intros Hge. by rewrite nth_overflow in Ee. }
    rewrite (chain_to_nth t old otip) in * by (done || lia).
    replace (length old - 1 - i)%nat
      with ((length old - 1 - (length c - 1 - n)) + (length c - 1 - n - i))%nat by lia.
    replace (length c - 1 - i)%nat with (n + (length c - 1 - n - i))%nat by lia.
    by rewrite !up_add, Ee, Hup.
  - set (c' := <[(length c - 1 - n)%nat := Some p]> c).
    assert (length c' = length c) as Hl' by apply length_insert.
    assert (∀ i, (length c - S n <= i < length c)%nat → c' !! i = Some (up t tip (length c - 1 - i))) as Hhi'.
    { intros i Hi. subst c'. destruct (decide (i = length c - 1 - n)%nat) as [->|].
      - rewrite list_lookup_insert_eq by lia. f_equal.
        by replace (length c - 1 - (length c - 1 - n))%nat with n by lia.
      - rewrite list_lookup_insert_ne by lia. apply Hhi. lia. }
    assert (∀ i, (i < length c - S n)%nat → c' !! i = Some (nth i old None)) as Hlo'.
    { intros i Hi. subst c'. rewrite list_lookup_insert_ne by lia. apply Hlo. lia. }
    destruct (pprev b) as [q|] eqn:Eprev.
    + pose proof (Hwf p b Hp) as Hok. unfold entry_ok in Hok. rewrite Eprev in Hok.
      destruct Hok as (bq&Hq&_&Hhq&_).
      apply (IH c' (S n) q bq); rewrite ?Hl'; try done; [|lia].
      replace (S n) with (n + 1)%nat by lia. rewrite up_add, Hup. cbn [mbind option_bind].
      by rewrite (up_1 t p b Hp), Eprev.
    + exists c'. split; [by destruct fuel|]. exists btip. split; [done|]. rewrite Hl'. split; [done|].
      pose proof (Hwf p b Hp) as Hok. unfold entry_ok in Hok. rewrite Eprev in Hok.
      intros i Hi. apply Hhi'. lia.
Qed.

(** [SetTip] rebuilds the chain of ancestors of the new tip from any earlier
    chain, whatever the two have in common. *)
Lemma SetTip_spec t c p b :
  wf_tree t → chain_ok t c → t !! p = Some b →
  ∃ c', SetTip t c (Some p) = Some c' ∧ chain_to t c' p.
Proof.
  intros Hwf Hc Hp. unfold SetTip. rewrite Hp. cbn [mbind option_bind].
  pose proof (wf_height t p b Hwf Hp).
  apply (SetTip_loop_spec t c _ p b _ 0 p b); rewrite ?length_resize; try done; try lia.
  intros i Hi. rewrite nth_lookup.
  destruct (decide (i < length c)%nat).
  - rewrite lookup_resize by lia. by destruct (lookup_lt_is_Some_2 c i) as [? ->].
  - rewrite lookup_resize_new by lia. by rewrite lookup_ge_None_2 by lia.
Qed.

Lemma Chain_at_spec t c tip h :
  chain_to t c tip → 0 <= h →
  Chain_at c h = if h <? Z.of_nat (length c) then up t tip (length c - 1 - Z.to_nat h) else None.
Proof.
  intros Hto Hh. unfold Chain_at. replace (h <? 0) with false by lia. cbn [orb].
  destruct (Z.leb_spec (Z.of_nat (length c)) h); destruct (Z.ltb_spec h (Z.of_nat (length c))); try lia; [done|].
  apply chain_to_nth; [done|lia].
Qed.

Lemma Chain_Tip_spec t c tip : wf_tree t → chain_to t c tip → Chain_Tip c = Some tip.
Proof.
  intros Hwf Hto. unfold Chain_Tip. pose proof Hto as (b&Hb&Hl&_).
  pose proof (wf_height t tip b Hwf Hb). rewrite bool_decide_false by lia.
  rewrite (chain_to_nth t c tip) by (done || lia).
  by replace (length c - 1 - (length c - 1))%nat with 0%nat by lia.
Qed.

(** A block is in the chain exactly when it is an ancestor of the tip. *)
Lemma Chain_Contains_spec t c tip p b :
  wf_tree t → chain_to t c tip → t !! p = Some b →
  ∃ k, Chain_Contains t c p = Some k ∧ (k = true ↔ is_ancestor t tip p).
Proof.
  intros Hwf Hto Hp. unfold Chain_Contains. rewrite Hp. cbn. eexists. split; [done|].
  rewrite bool_decide_eq_true. pose proof (wf_height t p b Hwf Hp).
  rewrite (Chain_at_spec t c tip) by done.
  destruct Hto as (bt&Hbt&Hl&Hi). split.
  - destruct (_ <? _); [|done]. intros E. by eexists.
  - intros [n Hn]. pose proof (up_height t tip bt n p b Hwf Hbt Hn Hp).
    replace (nHeight b <? Z.of_nat (length c)) with true by lia. rewrite <- Hn. f_equal. lia.
Qed.

(** ** Forks *)

Definition height_of (t : BlockTree) (p : ptr) : Z :=
  match t !! p with Some b => b.(nHeight) | None => 0 end.

Lemma is_ancestor_trans t p q r : is_ancestor t p q → is_ancestor t q r → is_ancestor t p r.
Proof. intros [n Hn] [m Hm]. exists (n + m)%nat. by rewrite up_add, Hn. Qed.

(** Ancestors of one block at the same height are the same block. *)
Lemma ancestor_unique t p b q r bq br :
  wf_tree t → t !! p = Some b → is_ancestor t p q → is_ancestor t p r →
  t !! q = Some bq → t !! r = Some br → bq.(nHeight) = br.(nHeight) → q = r.
Proof.
  intros Hwf Hp [n Hn] [m Hm] Hq Hr Hh.
  pose proof (up_height t p b n q bq Hwf Hp Hn Hq). pose proof (up_height t p b m r br Hwf Hp Hm Hr).
  replace m with n in Hm by lia. congruence.
Qed.

(** An ancestor that is not the block itself is an ancestor of its parent. *)
Lemma is_ancestor_step t p b q :
  t !! p = Some b → is_ancestor t p q → q = p ∨ ∃ r, b.(pprev) = Some r ∧ is_ancestor t r q.
Proof.
  intros Hp [[|n] Hn]; cbn [up] in Hn; [left; congruence|right].
  rewrite Hp in Hn. cbn in Hn. destruct (pprev b) as [r|]; [|done]. exists r. split; [done|]. by exists n.
Qed.

(** The block found is a common ancestor and no common ancestor is higher. *)
Definition highest_common (t : BlockTree) (p tip : ptr) (r : option ptr) : Prop :=
  match r with
  | Some q => is_ancestor t p q ∧ is_ancestor t tip q ∧
      ∀ q', is_ancestor t p q' → is_ancestor t tip q' → height_of t q' <= height_of t q
  | None => ∀ q', is_ancestor t p q' → ¬ is_ancestor t tip q'
  end.

Lemma FindFork_loop_spec t c tip fuel p b :
  wf_tree t → chain_to t c tip → t !! p = Some b → b.(nHeight) < Z.of_nat fuel →
  ∃ r, FindFork_loop fuel t c (Some p) = Some r ∧ highest_common t p tip r.
Proof.
  intros Hwf Hto. revert p b. induction fuel as [|fuel IH]; intros p b Hp Hf.
  { pose proof (wf_height t p b Hwf Hp). lia. }
  cbn [FindFork_loop]. destruct (Chain_Contains_spec t c tip p b Hwf Hto Hp) as (k&Hk&Hiff).
  rewrite Hk. cbn [mbind option_bind]. destruct k.
  - exists (Some p). split; [done|]. split; [by exists 0%nat|]. split; [by apply Hiff|].
    intros q' [n Hn] _. destruct (up_lookup t p b n q' Hwf Hp Hn) as [bq Hq].
    unfold height_of. rewrite Hp, Hq. rewrite (up_height t p b n q' bq) by done. lia.
  - assert (¬ is_ancestor t tip p) as Hno by (intros H; apply Hiff in H; done).
    rewrite Hp. cbn [mbind option_bind]. pose proof (Hwf p b Hp) as Hok. unfold entry_ok in Hok.
    destruct (pprev b) as [q|] eqn:Eprev.
    + destruct Hok as (bq&Hq&_&Hh&_). destruct (IH q bq Hq ltac:(lia)) as (r&Hr&Hspec).
      exists r. split; [done|].
      assert (is_ancestor t p q) as Hpq by (exists 1%nat; by rewrite (up_1 t p b)).
      assert (∀ x, is_ancestor t p x → is_ancestor t tip x → is_ancestor t q x) as Hdown.
      { intros x Hx Hx'. destruct (is_ancestor_step t p b x Hp Hx) as [->|(r'&Er&Hr')]; [done|].
        congruence. }
      destruct r as [r|]; cbn [highest_common] in *.
      * destruct Hspec as (H1&H2&H3). split; [by eapply is_ancestor_trans|]. split; [done|]. eauto.
      * intros q' Hq' Hq''. eapply Hspec; eauto.
    + exists None. split; [by destruct fuel|]. intros q' Hq' Hq''.
      destruct (is_ancestor_step t p b q' Hp Hq') as [->|(r&Er&_)]; [done|congruence].
Qed.

Lemma FindFork_spec t c tip p b :
  wf_tree t → chain_to t c tip → t !! p = Some b →
  ∃ r, FindFork t c (Some p) = Some r ∧ highest_common t p tip r.
Proof.
  intros Hwf Hto Hp. unfold FindFork. rewrite Hp. cbn [mbind option_bind].
  pose proof (wf_height t p b Hwf Hp) as Hb. pose proof Hto as (bt&Hbt&Hl&_).
  pose proof (wf_height t tip bt Hwf Hbt) as Hbt0.
  unfold Chain_Height. destruct (Z.ltb_spec (Z.of_nat (length c) - 1) (nHeight b)) as [Hlt|Hge];
    [|by apply (FindFork_loop_spec t c tip _ p b); [..|lia]].
  rewrite (GetAncestor_spec t p b) by done. replace (_ || _) with false by lia. cbn [mbind option_bind].
  destruct (up_total t p b (Z.to_nat (nHeight b - (Z.of_nat (length c) - 1)))) as (a&ba&Ha&Hba&Hha);
    [done..|lia|].
  rewrite Ha. destruct (FindFork_loop_spec t c tip (Z.to_nat (nHeight b + 1)) a ba) as (r&Hr&Hspec);
    [done..|lia|].
  exists r. split; [done|].
  assert (∀ x, is_ancestor t p x → is_ancestor t tip x → is_ancestor t a x) as Hdown.
  { intros x [n Hn] [m Hm]. destruct (up_lookup t p b n x Hwf Hp Hn) as [bx Hx].
    pose proof (up_height t p b n x bx Hwf Hp Hn Hx). pose proof (up_height t tip bt m x bx Hwf Hbt Hm Hx).
    exists (n - Z.to_nat (nHeight b - (Z.of_nat (length c) - 1)))%nat. rewrite <- Hn.
    replace n with (Z.to_nat (nHeight b - (Z.of_nat (length c) - 1))
      + (n - Z.to_nat (nHeight b - (Z.of_nat (length c) - 1))))%nat at 2 by lia.
    by rewrite up_add, Ha. }
  assert (is_ancestor t p a) as Hpa by (by eexists).
  destruct r as [r|]; cbn [highest_common] in *.
  - destruct Hspec as (H1&H2&H3). split; [by eapply is_ancestor_trans|]. split; [done|]. eauto.
  - intros q' Hq' Hq''. eapply Hspec; eauto.
Qed.

Lemma LastCommonAncestor_loop_spec t fuel pa pb ba bb :
  wf_tree t → t !! pa = Some ba → t !! pb = Some bb → ba.(nHeight) = bb.(nHeight) →
  ba.(nHeight) < Z.of_nat fuel →
  ∃ r, LastCommonAncestor_loop fuel t (Some pa) (Some pb) = Some (r, r) ∧ highest_common t pa pb r.
Proof.
  intros Hwf. revert pa pb ba bb. induction fuel as [|fuel IH]; intros pa pb ba bb Ha Hb Hh Hf.
  { pose proof (wf_height t pa ba Hwf Ha). lia. }
  cbn [LastCommonAncestor_loop]. case_bool_decide as E.
  { assert (pb = pa) as -> by congruence. exists (Some pa). split; [done|].
    split; [by exists 0%nat|]. split; [by exists 0%nat|].
    intros q [n Hn] _. destruct (up_lookup t pa ba n q Hwf Ha Hn) as [bq Hq]. unfold height_of.
    rewrite Ha, Hq, (up_height t pa ba n q bq) by done. lia. }
  rewrite Ha, Hb. cbn [mbind option_bind].
  pose proof (Hwf pa ba Ha) as Oa. pose proof (Hwf pb bb Hb) as Ob. unfold entry_ok in Oa, Ob.
  assert (∀ x, is_ancestor t pa x → is_ancestor t pb x →
    (∃ r, ba.(pprev) = Some r ∧ is_ancestor t r x) ∧ ∃ r, bb.(pprev) = Some r ∧ is_ancestor t r x) as Hdown.
  { intros x Hx Hx'. destruct (is_ancestor_step t pa ba x Ha Hx) as [->|?].
    - destruct Hx' as [n Hn]. pose proof (up_height t pb bb n pa ba Hwf Hb Hn Ha).
      replace n with 0%nat in Hn by lia. cbn in Hn. congruence.
    - destruct (is_ancestor_step t pb bb x Hb Hx') as [->|?]; [|done].
      destruct Hx as [n Hn]. pose proof (up_height t pa ba n pb bb Hwf Ha Hn Hb).
      replace n with 0%nat in Hn by lia. cbn in Hn. congruence. }
  destruct (pprev ba) as [qa|] eqn:Ea, (pprev bb) as [qb|] eqn:Eb.
  - destruct Oa as (bqa&Hqa&_&Hha&_), Ob as (bqb&Hqb&_&Hhb&_).
    destruct (IH qa qb bqa bqb Hqa Hqb ltac:(lia) ltac:(lia)) as (r&Hr&Hspec).
    exists r. split; [done|].
    assert (is_ancestor t pa qa) as Hpa by (exists 1%nat; by rewrite (up_1 t pa ba)).
    assert (is_ancestor t pb qb) as Hpb by (exists 1%nat; by rewrite (up_1 t pb bb)).
    assert (∀ x, is_ancestor t pa x → is_ancestor t pb x → is_ancestor t qa x ∧ is_ancestor t qb x) as Hd.
    { intros x Hx Hx'. destruct (Hdown x Hx Hx') as [(?&?&?) (?&?&?)]. simplify_eq. done. }
    destruct r as [r|]; cbn [highest_common] in *.
    + destruct Hspec as (H1&H2&H3). split; [by eapply is_ancestor_trans|].
      split; [by eapply is_ancestor_trans|]. intros q' Hq Hq'. destruct (Hd q' Hq Hq'). eauto.
    + intros q' Hq Hq'. destruct (Hd q' Hq Hq') as [??]. eapply Hspec; eauto.
  - destruct Oa as (bqa&Hqa&Hp&Hha&_). lia.
  - destruct Ob as (bqa&Hqa&Hp&Hha&_). lia.
  - exists None. split; [by destruct fuel|]. intros q' Hq Hq'.
    by destruct (Hdown q' Hq Hq') as [(?&?&?) _].
Qed.

Lemma LastCommonAncestor_spec t pa pb ba bb :
  wf_tree t → t !! pa = Some ba → t !! pb = Some bb →
  ∃ r, LastCommonAncestor t pa pb = Some r ∧ highest_common t pa pb r.
Proof.
  intros Hwf Ha Hb. unfold LastCommonAncestor. rewrite Ha, Hb. cbn [mbind option_bind].
  pose proof (wf_height t pa ba Hwf Ha) as Hza. pose proof (wf_height t pb bb Hwf Hb) as Hzb.
  set (h := Z.min (nHeight ba) (nHeight bb)).
  destruct (up_total t pa ba (Z.to_nat (nHeight ba - h))) as (qa&bqa&Hqa&Hla&Hha); [done..|lia|].
  destruct (up_total t pb bb (Z.to_nat (nHeight bb - h))) as (qb&bqb&Hqb&Hlb&Hhb); [done..|lia|].
  assert ((if nHeight bb <? nHeight ba then GetAncestor t pa (nHeight bb) else Some (Some pa)) = Some (Some qa)) as ->.
  { destruct (Z.ltb_spec (nHeight bb) (nHeight ba)).
    - rewrite (GetAncestor_spec t pa ba) by done. replace (_ || _) with false by lia. f_equal.
      by replace (nHeight bb) with h by lia.
    - replace (Z.to_nat (nHeight ba - h)) with 0%nat in Hqa by lia. cbn in Hqa. congruence. }
  assert ((if nHeight ba <? nHeight bb then GetAncestor t pb (nHeight ba) else Some (Some pb)) = Some (Some qb)) as ->.
  { destruct (Z.ltb_spec (nHeight ba) (nHeight bb)).
    - rewrite (GetAncestor_spec t pb bb) by done. replace (_ || _) with false by lia. f_equal.
      by replace (nHeight ba) with h by lia.
    - replace (Z.to_nat (nHeight bb - h)) with 0%nat in Hqb by lia. cbn in Hqb. congruence. }
  cbn [mbind option_bind].
  destruct (LastCommonAncestor_loop_spec t (Z.to_nat (h + 1)) qa qb bqa bqb) as (r&Hr&Hspec);
    [done..|lia|lia|].
  rewrite Hr. cbn. rewrite bool_decide_true by done. exists r. split; [done|].
  assert (∀ x, is_ancestor t pa x → is_ancestor t pb x → is_ancestor t qa x ∧ is_ancestor t qb x) as Hd.
  { intros x [n Hn] [m Hm]. destruct (up_lookup t pa ba n x Hwf Ha Hn) as [bx Hx].
    pose proof (up_height t pa ba n x bx Hwf Ha Hn Hx). pose proof (up_height t pb bb m x bx Hwf Hb Hm Hx).
    pose proof (wf_height t x bx Hwf Hx). split.
    - exists (n - Z.to_nat (nHeight ba - h))%nat. rewrite <- Hn.
      replace n with (Z.to_nat (nHeight ba - h) + (n - Z.to_nat (nHeight ba - h)))%nat at 2 by lia.
      by rewrite up_add, Hqa.
    - exists (m - Z.to_nat (nHeight bb - h))%nat. rewrite <- Hm.
      replace m with (Z.to_nat (nHeight bb - h) + (m - Z.to_nat (nHeight bb - h)))%nat at 2 by lia.
      by rewrite up_add, Hqb. }
  assert (is_ancestor t pa qa) as Hanca by (by eexists).
  assert (is_ancestor t pb qb) as Hancb by (by eexists).
  destruct r as [r|]; cbn [highest_common] in *.
  - destruct Hspec as (S1&S2&S3). split; [by eapply is_ancestor_trans|].
    split; [by eapply is_ancestor_trans|]. intros q' Hq Hq'. destruct (Hd q' Hq Hq'). eauto.
  - intros q' Hq Hq'. destruct (Hd q' Hq Hq') as [??]. eapply Hspec; eauto.
Qed.

(** ** Locators *)

(** A list of hashes of ancestors of [p], from [p] down to a block at height 0,
    with strictly decreasing heights. *)
Inductive locator_from (t : BlockTree) : ptr → list base_uint → Prop :=
| locator_genesis p b : t !! p = Some b → b.(nHeight) = 0 → locator_from t p [b.(phashBlock)]
| locator_step p b q bq l : t !! p = Some b → is_ancestor t p q → t !! q = Some bq →
    bq.(nHeight) < b.(nHeight) → locator_from t q l → locator_from t p (b.(phashBlock) :: l).

Lemma GetLocator_loop_spec t c fuel p b nStep vHave :
  wf_tree t → chain_ok t c → t !! p = Some b → b.(nHeight) < Z.of_nat fuel →
  0 < nStep → nStep + b.(nHeight) < 2 ^ 30 →
  ∃ l, GetLocator_loop fuel t c (Some p) nStep vHave = Some (vHave ++ l) ∧ locator_from t p l.
Proof.
  intros Hwf Hc. revert p b nStep vHave.
  induction fuel as [|fuel IH]; intros p b nStep vHave Hp Hf Hst Hbound.
  { pose proof (wf_height t p b Hwf Hp). lia. }
  cbn [GetLocator_loop]. rewrite Hp. cbn [mbind option_bind]. pose proof (wf_height t p b Hwf Hp).
  destruct (Z.eqb_spec (nHeight b) 0) as [E|E].
  { eexists. split; [done|]. by apply locator_genesis. }
  set (h := Z.max (nHeight b - nStep) 0).
  destruct (up_total t p b (Z.to_nat (nHeight b - h))) as (q&bq&Hq&Hbq&Hhq); [done..|lia|].
  assert (∃ k, Chain_Contains t c p = Some k ∧
    (if k : bool then Some (Chain_at c h) else GetAncestor t p h) = Some (Some q)) as (k&Hk&Hnext).
  { assert (GetAncestor t p h = Some (Some q)) as Hga.
    { rewrite (GetAncestor_spec t p b) by done. replace (_ || _) with false by lia. by rewrite Hq. }
    unfold Chain_Contains. rewrite Hp. cbn. eexists. split; [done|]. case_bool_decide as Hin; [|done].
    destruct Hc as [->|[tip Hto]].
    { unfold Chain_at in Hin. rewrite nth_overflow in Hin by (cbn; lia). by destruct (_ || _). }
    f_equal. rewrite (Chain_at_spec t c tip) in Hin by done.
    destruct (Z.ltb_spec (nHeight b) (Z.of_nat (length c))) as [Hlt|]; [|done].
    rewrite (Chain_at_spec t c tip) by (done || lia). replace (h <? _) with true by lia.
    replace (length c - 1 - Z.to_nat h)%nat
      with ((length c - 1 - Z.to_nat (nHeight b)) + Z.to_nat (nHeight b - h))%nat by lia.
    by rewrite up_add, Hin. }
  rewrite Hk. cbn [mbind option_bind]. rewrite Hnext. cbn [mbind option_bind].
  set (step' := if bool_decide _ then _ else _).
  assert (0 < step' ∧ step' + nHeight bq < 2 ^ 30 ∨ nHeight bq = 0) as Hcase.
  { subst step'. case_bool_decide; [|lia]. rewrite i32_id by mlia. lia. }
  destruct (decide (nHeight bq = 0)) as [Hz|Hnz].
  - destruct fuel as [|fuel]; [lia|]. cbn [GetLocator_loop]. rewrite Hbq. cbn [mbind option_bind].
    rewrite (proj2 (Z.eqb_eq _ _) Hz). rewrite <- app_assoc. eexists. split; [done|].
    eapply locator_step; [done|by eexists|done|lia|]. by apply locator_genesis.
  - destruct (IH q bq step' (vHave ++ [phashBlock b])) as (l&Hl&Hloc); [done|lia|lia|lia|].
    rewrite Hl, <- app_assoc. eexists. split; [done|].
    eapply locator_step; [done|by eexists|done|lia|done].
Qed.

(** ** Median time past *)

Lemma past_times_spec t n p b :
  wf_tree t → t !! p = Some b →
  ∃ l, past_times n t (Some p) = Some l ∧
    length l = Nat.min n (Z.to_nat (b.(nHeight) + 1)) ∧
    ∀ i, (i < length l)%nat → l !! i = (q ← up t p i; bq ← t !! q; Some bq.(nTime)).
Proof.
  intros Hwf. revert p b. induction n as [|n IH]; intros p b Hp; cbn [past_times].
  { exists []. split; [done|]. split; [done|]. cbn. lia. }
  rewrite Hp. cbn [mbind option_bind]. pose proof (wf_height t p b Hwf Hp).
  pose proof (Hwf p b Hp) as Hok. unfold entry_ok in Hok.
  destruct (pprev b) as [q|] eqn:Eprev.
  - destruct Hok as (bq&Hq&Hb0&Hh&_). destruct (IH q bq Hq) as (l&Hl&Hlen&Hi). rewrite Hl.
    cbn [mbind option_bind].
    exists (nTime b :: l). split; [done|]. split; [cbn [length]; lia|].
    intros [|i] Hlt; cbn [length] in Hlt; [cbn; by rewrite Hp|].
    cbn. rewrite Hp. cbn. rewrite Eprev. cbn. apply Hi. lia.
  - exists [nTime b]. split; [by destruct n|]. split; [cbn [length]; lia|].
    intros [|i] Hlt; cbn [length] in Hlt; [|lia]. cbn. by rewrite Hp.
Qed.

(** ** Properties of the block index *)

#[export] Instance entry_ok_dec t b : Decision (entry_ok t b).
Proof.
  unfold entry_ok. destruct (pprev b) as [q|]; [|apply _].
  destruct (t !! q) as [bq|].
  - destruct (decide (0 <= nHeight bq ∧ nHeight b = nHeight bq + 1 ∧
      pskip b = up t q (Z.to_nat (nHeight bq - GetSkipHeight (nHeight b))))) as [H|H].
    + left. by exists bq.
    + right. intros (bq'&?&?). simplify_eq. done.
  - right. by intros (?&?&_).
Defined.
#[export] Instance wf_tree_dec t : Decision (wf_tree t).
Proof.
  refine (cast_if (decide (map_Forall (λ _ b, entry_ok t b) t))); unfold wf_tree; eauto.
Defined.

(** A small tree for the witnesses: a main branch of [n] blocks and, when
    asked, a branch of two blocks forking off at height 3. *)
Definition sample_entry (p : positive) (prev : option ptr) (h time : Z) : CBlockIndex :=
  mkCBlockIndex (uint_of_u64 W256 (Zpos p)) prev None h 0 0 0 (uint_zero W256) 0 0 0 [] 0 0 None 1
    (uint_zero W256) (uint_zero W256) (uint_zero W256) time 0 0 0.
Definition sample_add (t : BlockTree) (p : positive) (prev : option ptr) (h : Z) : BlockTree :=
  match BuildSkip t (sample_entry p prev h (100 * h)) with Some b => <[p := b]> t | None => t end.
Fixpoint sample_main (n : nat) : BlockTree :=
  match n with
  | O => sample_add ∅ 1 None 0
  | S m => sample_add (sample_main m) (Pos.of_succ_nat n) (Some (Pos.of_succ_nat m)) (Z.of_nat n)
  end.
Definition sample_tree : BlockTree :=
  sample_add (sample_add (sample_main 20) 31 (Some 4%positive) 4) 32 (Some 31%positive) 5.

Lemma sample_tree_wf : wf_tree sample_tree.
Proof. apply (bool_decide_unpack _). vm_compute. exact I. Qed.

(** C27: on a well-formed tree [GetAncestor] terminates within [nHeight - height]
    rounds, never follows a null pointer, and returns exactly the block reached
    by following [pprev], for every requested height. *)
Theorem GetAncestor_is_parent_walk (t : BlockTree) (p : ptr) (b : CBlockIndex) (height : Z) :
  wf_tree t → t !! p = Some b →
  GetAncestor t p height =
    Some (if (b.(nHeight) <? height) || (height <? 0) then None
          else up t p (Z.to_nat (b.(nHeight) - height))) ∧
  (0 <= height <= b.(nHeight) →
   ∃ q bq, GetAncestor t p height = Some (Some q) ∧ t !! q = Some bq ∧ bq.(nHeight) = height).
Proof.
  intros Hwf Hp. split; [by apply GetAncestor_spec|]. intros Hh.
  destruct (up_total t p b (Z.to_nat (nHeight b - height))) as (q&bq&Hq&Hbq&Hhq); [done..|lia|].
  exists q, bq. rewrite (GetAncestor_spec t p b) by done. replace (_ || _) with false by lia.
  rewrite Hq. repeat split; [done|lia].
Qed.

Lemma GetAncestor_is_parent_walk_witness :
  ∃ b, sample_tree !! 21%positive = Some b ∧ GetAncestor sample_tree 21 7 = Some (up sample_tree 21 13).
Proof.
  destruct (sample_tree !! 21%positive) as [b|] eqn:E; [|vm_compute in E; discriminate E].
  exists b. split; [reflexivity|].
  rewrite (proj1 (GetAncestor_is_parent_walk sample_tree 21 b 7 sample_tree_wf E)).
  assert (nHeight b = 20) as -> by (vm_compute in E; injection E as <-; reflexivity). reflexivity.
Defined.

(** linking a new entry below an existing one and calling [BuildSkip] keeps
    the tree well formed: the entry gets a skip pointer and the old entries
    keep theirs. *)
Theorem BuildSkip_preserves_tree (t : BlockTree) (p q : ptr) (b bq : CBlockIndex) :
  wf_tree t → t !! p = None → t !! q = Some bq →
  ∃ b', BuildSkip t (set_links b (Some q) None (bq.(nHeight) + 1)) = Some b' ∧
    wf_tree (<[p := b']> t) ∧ b'.(pprev) = Some q ∧ b'.(nHeight) = bq.(nHeight) + 1 ∧
    (∃ s bs, b'.(pskip) = Some s ∧ t !! s = Some bs ∧
       bs.(nHeight) = GetSkipHeight b'.(nHeight) ∧ bs.(nHeight) < b'.(nHeight)).
Proof.
  intros Hwf Hp Hq. destruct (set_links_fields b (Some q) None (nHeight bq + 1)) as (E1&_&E3).
  destruct (BuildSkip_spec t (set_links b (Some q) None (nHeight bq + 1)) q bq) as (b'&Hb'&Hprev&Hh&Hok);
    [done..|].
  exists b'. split; [done|]. split; [by apply wf_tree_insert|]. split; [done|]. split; [congruence|].
  unfold entry_ok in Hok. rewrite Hprev in Hok. destruct Hok as (bq'&Hq'&Hpos&Hhb&Hskip). simplify_eq.
  pose proof (GetSkipHeight_bounds (nHeight b') ltac:(lia)).
  destruct (up_total t q bq (Z.to_nat (nHeight bq - GetSkipHeight (nHeight b')))) as (s&bs&Hs&Hbs&Hhs);
    [done..|lia|].
  exists s, bs. rewrite Hskip, Hs. repeat split; [done|lia|lia].
Qed.

Lemma BuildSkip_preserves_tree_witness :
  ∃ b', BuildSkip sample_tree (set_links (sample_entry 40 None 0 0) (Some 21%positive) None 21) = Some b' ∧
    wf_tree (<[40%positive := b']> sample_tree).
Proof.
  destruct (sample_tree !! 21%positive) as [b|] eqn:E; [|vm_compute in E; discriminate E].
  assert (nHeight b = 20) as Eh by (vm_compute in E; injection E as <-; reflexivity).
  destruct (BuildSkip_preserves_tree sample_tree 40 21 (sample_entry 40 None 0 0) b sample_tree_wf eq_refl E)
    as (b'&H1&H2&_).
  rewrite Eh in H1. exists b'. exact (conj H1 H2).
Defined.

(** from any chain of the tree, [SetTip] terminates and leaves in [vChain]
    exactly the ancestors of the new tip by height; membership in the new chain
    is being an ancestor of the tip, and stopping at the first matching entry
    loses nothing. *)
Theorem SetTip_lists_ancestors (t : BlockTree) (c : CChain) (p : ptr) (b : CBlockIndex) :
  wf_tree t → chain_ok t c → t !! p = Some b →
  ∃ c', SetTip t c (Some p) = Some c' ∧ chain_to t c' p ∧ chain_ok t c' ∧
    Chain_Tip c' = Some p ∧ Chain_Height c' = b.(nHeight) ∧
    ∀ q bq, t !! q = Some bq → Chain_Contains t c' q = Some true ↔ is_ancestor t p q.
Proof.
  intros Hwf Hc Hp. destruct (SetTip_spec t c p b Hwf Hc Hp) as (c'&Hc'&Hto).
  exists c'. split; [done|]. split; [done|]. split; [right; by exists p|].
  split; [by apply (Chain_Tip_spec t)|].
  split. { destruct Hto as (bp&Hbp&Hl&_). simplify_eq. unfold Chain_Height. lia. }
  intros q bq Hq. destruct (Chain_Contains_spec t c' p q bq Hwf Hto Hq) as (k&->&Hiff).
  rewrite <- Hiff. split; congruence.
Qed.

Lemma SetTip_lists_ancestors_witness :
  ∃ c1 c2, SetTip sample_tree [] (Some 21%positive) = Some c1 ∧
    SetTip sample_tree c1 (Some 32%positive) = Some c2 ∧ Chain_Tip c2 = Some 32%positive.
Proof.
  destruct (sample_tree !! 21%positive) as [b|] eqn:E; [|vm_compute in E; discriminate E].
  destruct (sample_tree !! 32%positive) as [b'|] eqn:E'; [|vm_compute in E'; discriminate E'].
  destruct (SetTip_lists_ancestors sample_tree [] 21 b sample_tree_wf (or_introl eq_refl) E)
    as (c1&H1&_&Hok&_).
  destruct (SetTip_lists_ancestors sample_tree c1 32 b' sample_tree_wf Hok E') as (c2&H2&_&_&H3&_).
  exists c1, c2. exact (conj H1 (conj H2 H3)).
Defined.

(** [FindFork] and [LastCommonAncestor] terminate and return the highest
    common ancestor of the block and the chain's tip, respectively of the two
    blocks (and [NULL] only when there is none); the assertion at the end of
    [LastCommonAncestor] holds. *)
Theorem forks_are_highest_common_ancestors (t : BlockTree) (c : CChain) (tip p : ptr) (b : CBlockIndex) :
  wf_tree t → chain_to t c tip → t !! p = Some b →
  (∃ r, FindFork t c (Some p) = Some r ∧ highest_common t p tip r) ∧
  (∃ r, LastCommonAncestor t p tip = Some r ∧ highest_common t p tip r).
Proof.
  intros Hwf Hto Hp. split; [by eapply FindFork_spec|].
  pose proof Hto as (bt&Hbt&_). by eapply LastCommonAncestor_spec.
Qed.

Lemma forks_are_highest_common_ancestors_witness :
  ∃ c r, SetTip sample_tree [] (Some 21%positive) = Some c ∧
    FindFork sample_tree c (Some 32%positive) = Some r ∧ highest_common sample_tree 32 21 r.
Proof.
  destruct (sample_tree !! 21%positive) as [b|] eqn:E; [|vm_compute in E; discriminate E].
  destruct (sample_tree !! 32%positive) as [b'|] eqn:E'; [|vm_compute in E'; discriminate E'].
  destruct (SetTip_spec sample_tree [] 21 b sample_tree_wf (or_introl eq_refl) E) as (c&Hc&Hto).
  destruct (forks_are_highest_common_ancestors sample_tree c 21 32 b' sample_tree_wf Hto E')
    as [(r&Hr&Hh) _].
  exists c, r. exact (conj Hc (conj Hr Hh)).
Defined.

(** below height [2 ^ 30 - 1] a locator is produced without overflow of the
    step: it starts at the requested block (or the tip), descends strictly
    through its ancestors and ends at the genesis block, whether the block is
    in the active chain or on a side branch. *)
Theorem GetLocator_descends_to_genesis (t : BlockTree) (c : CChain) (p : ptr) (b : CBlockIndex) :
  wf_tree t → chain_ok t c → t !! p = Some b → b.(nHeight) < 2 ^ 30 - 1 →
  ∃ l, GetLocator t c (Some p) = Some l ∧ locator_from t p l.
Proof.
  intros Hwf Hc Hp Hh. unfold GetLocator. rewrite Hp. cbn [mbind option_bind].
  pose proof (wf_height t p b Hwf Hp).
  destruct (GetLocator_loop_spec t c (Z.to_nat (nHeight b + 1)) p b 1 []) as (l&Hl&Hloc);
    [done..|lia|lia|lia|]. by exists l.
Qed.

Lemma GetLocator_descends_to_genesis_witness :
  ∃ l, GetLocator sample_tree [] (Some 32%positive) = Some l ∧ locator_from sample_tree 32 l.
Proof.
  destruct (sample_tree !! 32%positive) as [b|] eqn:E; [|vm_compute in E; discriminate E].
  apply (GetLocator_descends_to_genesis sample_tree [] 32 b sample_tree_wf (or_introl eq_refl) E).
  vm_compute in E. injection E as <-. reflexivity.
Defined.

(** [GetMedianTimePast] always answers, with the time of one of the last
    (at most 11) blocks, and among these times at least half are no later and
    at least half are no earlier. *)
Theorem GetMedianTimePast_is_median (t : BlockTree) (p : ptr) (b : CBlockIndex) :
  wf_tree t → t !! p = Some b →
  ∃ l m, past_times nMedianTimeSpan t (Some p) = Some l ∧ GetMedianTimePast t p = Some m ∧
    length l = Nat.min nMedianTimeSpan (Z.to_nat (b.(nHeight) + 1)) ∧ m ∈ l ∧
    (length l < 2 * length (filter (λ x, x <= m)%Z l) + 1)%nat ∧
    (length l < 2 * length (filter (λ x, m <= x)%Z l) + 1)%nat.
Proof.
  intros Hwf Hp. destruct (past_times_spec t nMedianTimeSpan p b Hwf Hp) as (l&Hl&Hlen&_).
  unfold GetMedianTimePast. rewrite Hl. cbn [mbind option_bind].
  pose proof (merge_sort_Permutation Z.le l) as Hperm. pose proof (Sorted_merge_sort Z.le l) as Hsort.
  set (s := merge_sort Z.le l) in *. pose proof (Permutation_length Hperm) as Hsl.
  pose proof (wf_height t p b Hwf Hp). unfold nMedianTimeSpan in *.
  assert (length s / 2 < length s)%nat as Hlt by (apply Nat.div_lt; lia).
  destruct (lookup_lt_is_Some_2 s _ Hlt) as [m Hm]. exists l, m. rewrite Hm.
  assert (StronglySorted Z.le s) as Hss by (apply Sorted_StronglySorted; [apply _|done]).
  assert (∀ x, x ∈ take (S (length s / 2)) s → x <= m) as Hlow.
  { intros x Hx. rewrite (take_S_r s _ m Hm) in Hx. apply elem_of_app in Hx as [Hx|Hx].
    - rewrite <- (take_drop_middle s _ m Hm) in Hss. apply StronglySorted_app in Hss as (Hall&_&_).
      apply Hall; [done|]. left.
    - apply list_elem_of_singleton in Hx. lia. }
  assert (∀ x, x ∈ drop (length s / 2) s → m <= x) as Hhigh.
  { intros x Hx. rewrite (drop_S s m _ Hm) in Hx. rewrite <- (take_drop_middle s _ m Hm) in Hss.
    apply StronglySorted_app in Hss as (_&_&Hss). apply StronglySorted_inv in Hss as [_ Hall].
    apply elem_of_cons in Hx as [->|Hx]; [lia|]. rewrite Forall_forall in Hall. by apply Hall. }
  split; [done|]. split; [done|]. split; [done|].
  split; [rewrite <- Hperm; by eapply list_elem_of_lookup_2|].
  rewrite <- Hperm.
  assert (length (filter (λ x, x <= m)%Z s) >= S (length s / 2))%nat.
  { rewrite <- (take_drop (S (length s / 2)) s) at 1. rewrite filter_app, length_app.
    rewrite (filter_all _ (take _ _)) by (by apply Forall_forall). rewrite length_take. lia. }
  assert (length (filter (λ x, m <= x)%Z s) >= length s - length s / 2)%nat.
  { rewrite <- (take_drop (length s / 2) s) at 1. rewrite filter_app, length_app.
    rewrite (filter_all _ (drop _ _)) by (by apply Forall_forall). rewrite length_drop. lia. }
  pose proof (Nat.div_mod (length s) 2 ltac:(lia)). pose proof (Nat.mod_upper_bound (length s) 2 ltac:(lia)).
  lia.
Qed.

Lemma GetMedianTimePast_is_median_witness :
  ∃ m, GetMedianTimePast sample_tree 21 = Some m.
Proof.
  destruct (sample_tree !! 21%positive) as [b|] eqn:E; [|vm_compute in E; discriminate E].
  destruct (GetMedianTimePast_is_median sample_tree 21 b sample_tree_wf E) as (l&m&_&Hm&_).
  exists m. exact Hm.
Defined.
