(* ===== verification/Pow.v ===== *)
(** * Difficulty: src/src/pow.cpp

    The retargeting rule (DarkGravity v3 for proof of work, the exponential
    moving average for proof of stake), the proof-of-work check and the work of
    a block.  [None] is a dereference of a null pointer, a failing assertion or
    an exception of the big-integer division. *)

From S2P Require Import Prelude ArithUint256 Params Chain.
Local Open Scope Z_scope.

(** ** Operations *)

(** State of the DarkGravity loop. *)
Record dgw_state := {
  dgw_BlockReading : option ptr;
  dgw_CountBlocks : Z;
  dgw_Average : base_uint;
  dgw_nActualTimespan : Z;
  dgw_LastBlockTime : Z;
}.

(** One round of the loop on [BlockReading = p].  [PastDifficultyAverage] and
    [PastDifficultyAveragePrev] agree at the start of every round and are one
    field here. *)
Definition dgw_step (b : CBlockIndex) (s : dgw_state) : option dgw_state :=
  let PastBlocksMin := 24 in
  let CountBlocks := s.(dgw_CountBlocks) + 1 in
  avg ← (if CountBlocks <=? PastBlocksMin then
           if CountBlocks =? 1 then Some (SetCompact b.(nBits)).(compact_value)
           else uint_div (uint_add (uint_mul32 s.(dgw_Average) (u32 CountBlocks))
                            (SetCompact b.(nBits)).(compact_value))
                  (uint_of_u64 W256 (u64 (CountBlocks + 1)))
         else Some s.(dgw_Average));
  let span := if 0 <? s.(dgw_LastBlockTime)
              then s.(dgw_nActualTimespan) + (s.(dgw_LastBlockTime) - GetBlockTime b)
              else s.(dgw_nActualTimespan) in
  Some {| dgw_BlockReading := b.(pprev); dgw_CountBlocks := CountBlocks; dgw_Average := avg;
          dgw_nActualTimespan := span; dgw_LastBlockTime := GetBlockTime b |}.

(** [for (i = 1; BlockReading && BlockReading->nHeight > 0; i++)], left when
    [i > PastBlocksMax = 24]: at most 24 rounds.  The round at a block without
    parent is the last one as well. *)
Fixpoint dgw_loop (rounds : nat) (t : BlockTree) (s : dgw_state) : option dgw_state :=
  match rounds with
  | O => Some s
  | S rounds =>
      match s.(dgw_BlockReading) with
      | None => Some s
      | Some p =>
          b ← t !! p;
          if negb (0 <? b.(nHeight)) then Some s
          else s' ← dgw_step b s; dgw_loop rounds t s'
      end
  end.

(** The proof-of-stake branch. *)
Definition pos_retarget (prm : Params) (fRegTest : bool) (t : BlockTree) (b : CBlockIndex) : option base_uint :=
  let fTimeV2 := negb fRegTest && IsTimeProtocolV2 prm (b.(nHeight) + 1) in
  let bnTargetLimit := ProofOfStakeLimit prm fTimeV2 in
  let nTargetTimespan := TargetTimespan prm fTimeV2 in
  nActualSpacing ←
    (if negb (b.(nHeight) =? 0) then
       q ← b.(pprev); bq ← t !! q; Some (GetBlockTime b - GetBlockTime bq)
     else Some 0);
  let nActualSpacing := if nActualSpacing <? 0 then 1 else nActualSpacing in
  let nActualSpacing := if fTimeV2 && (prm.(nTargetSpacing) * 10 <? nActualSpacing)
                        then prm.(nTargetSpacing) * 10 else nActualSpacing in
  let bnNew := (SetCompact b.(nBits)).(compact_value) in
  let bnNew := if fTimeV2 && negb (IsTimeProtocolV2 prm b.(nHeight)) then uint_shl bnNew 4 else bnNew in
  let nInterval := Z.quot nTargetTimespan prm.(nTargetSpacing) in
  let bnNew := uint_mul32 bnNew
    (u32 ((nInterval - 1) * prm.(nTargetSpacing) + nActualSpacing + nActualSpacing)) in
  bnNew ← uint_div bnNew (uint_of_u64 W256 (u64 ((nInterval + 1) * prm.(nTargetSpacing))));
  Some (if uint_leb bnNew (uint_of_u64 W256 0) || uint_gtb bnNew bnTargetLimit
        then bnTargetLimit else bnNew).

(** The proof-of-work branch. *)
Definition pow_retarget (prm : Params) (t : BlockTree) (p : ptr) : option base_uint :=
  s ← dgw_loop 24 t {| dgw_BlockReading := Some p; dgw_CountBlocks := 0;
                       dgw_Average := uint_zero W256; dgw_nActualTimespan := 0; dgw_LastBlockTime := 0 |};
  let target := s.(dgw_CountBlocks) * prm.(nTargetSpacing) in
  let span := s.(dgw_nActualTimespan) in
  let span := if span <? Z.quot target 3 then Z.quot target 3 else span in
  let span := if target * 3 <? span then target * 3 else span in
  bnNew ← uint_div (uint_mul32 s.(dgw_Average) (u32 span)) (uint_of_u64 W256 (u64 target));
  Some (if uint_gtb bnNew prm.(powLimit) then prm.(powLimit) else bnNew).

Definition GetNextWorkRequired (prm : Params) (fRegTest : bool) (t : BlockTree) (pindexLast : option ptr) : option Z :=
  if fRegTest then p ← pindexLast; b ← t !! p; Some b.(nBits)
  else
    match pindexLast with
    | None => GetCompact prm.(powLimit) false
    | Some p =>
        b ← t !! p;
        if (b.(nHeight) =? 0) || (b.(nHeight) <? 24) then GetCompact prm.(powLimit) false
        else
          bnNew ← (if NetworkUpgradeActive prm (b.(nHeight) + 1) ACTIVATE_POS
                   then pos_retarget prm fRegTest t b
                   else pow_retarget prm t p);
          GetCompact bnNew false
    end.

Definition CheckProofOfWork (prm : Params) (fRegTest : bool) (hash : base_uint) (nBits : Z) : bool :=
  if fRegTest then true
  else
    let r := SetCompact nBits in
    if r.(compact_fNegative) || uint_IsNull r.(compact_value) || r.(compact_fOverflow)
       || uint_gtb r.(compact_value) prm.(powLimit)
    then false
    else if uint_gtb hash r.(compact_value) then false
    else true.

Definition GetBlockProof (block : CBlockIndex) : option base_uint :=
  let r := SetCompact block.(nBits) in
  if r.(compact_fNegative) || r.(compact_fOverflow) || uint_IsNull r.(compact_value)
  then Some (uint_zero W256)
  else
    q ← uint_div (uint_not r.(compact_value)) (uint_add r.(compact_value) (uint_of_u64 W256 1));
    Some (uint_add q (uint_of_u64 W256 1)).

(** ** Lemmas *)

(** What the rule needs of the parameters. *)
Definition params_ok (prm : Params) : Prop :=
  wf256 prm.(powLimit) ∧ wf256 prm.(posLimitV1) ∧ wf256 prm.(posLimitV2) ∧
  0 < prm.(nTargetSpacing) < 2 ^ 16 ∧
  0 <= prm.(nTargetTimespan) < 2 ^ 24 ∧ 0 <= prm.(nTargetTimespanV2) < 2 ^ 24.

#[export] Instance params_ok_dec prm : Decision (params_ok prm).
Proof. unfold params_ok. apply _. Defined.

(** Block times and compact targets are of type [unsigned int]. *)
Definition typed_tree (t : BlockTree) : Prop :=
  ∀ p b, t !! p = Some b → is_u32 b.(nTime) ∧ is_u32 b.(nBits).

Lemma main_params_ok : params_ok main_params.
Proof. apply (bool_decide_unpack _). vm_compute. exact I. Qed.

Lemma div_by_u64 a d :
  wf256 a → 0 < d < 2 ^ 64 →
  ∃ q, uint_div a (uint_of_u64 W256 (u64 d)) = Some q ∧ wf256 q ∧ val q = val a / d.
Proof.
  intros Ha Hd. rewrite u64_id by mlia. destruct (bu_u64 d) as [Hw Hv]; [mlia|].
  pose proof (bu_div a _ Ha Hw) as H. rewrite Hv in H.
  by destruct (Z.eqb_spec d 0); [lia|].
Qed.

Lemma dgw_step_spec b s :
  is_u32 b.(nBits) → wf256 s.(dgw_Average) → 0 <= s.(dgw_CountBlocks) < 2 ^ 20 →
  ∃ s', dgw_step b s = Some s' ∧ wf256 s'.(dgw_Average) ∧
    s'.(dgw_CountBlocks) = s.(dgw_CountBlocks) + 1 ∧ s'.(dgw_BlockReading) = b.(pprev).
Proof.
  intros Hb Ha Hc. unfold dgw_step. destruct (SetCompact_value _ Hb) as [Hw _].
  destruct (_ <=? 24); [destruct (_ =? 1)|]; cbn [mbind option_bind]; [eexists; by split| |eexists; by split].
  destruct (bu_mul32 s.(dgw_Average) (u32 (s.(dgw_CountBlocks) + 1)) Ha (u32_range _)) as [Hm _].
  destruct (bu_add _ _ Hm Hw) as [Hadd _].
  destruct (div_by_u64 _ (s.(dgw_CountBlocks) + 1 + 1) Hadd) as (q&Hq&Hwq&_); [mlia|].
  rewrite Hq. cbn [mbind option_bind]. eexists. by split.
Qed.

Lemma dgw_loop_spec t rounds s :
  wf_tree t → typed_tree t → wf256 s.(dgw_Average) → 0 <= s.(dgw_CountBlocks) →
  s.(dgw_CountBlocks) + Z.of_nat rounds < 2 ^ 20 →
  (∀ p, s.(dgw_BlockReading) = Some p → is_Some (t !! p)) →
  ∃ s', dgw_loop rounds t s = Some s' ∧ wf256 s'.(dgw_Average) ∧
    s.(dgw_CountBlocks) <= s'.(dgw_CountBlocks) <= s.(dgw_CountBlocks) + Z.of_nat rounds ∧
    (∀ p b, s.(dgw_BlockReading) = Some p → t !! p = Some b → 0 < b.(nHeight) → (0 < rounds)%nat →
       s.(dgw_CountBlocks) < s'.(dgw_CountBlocks)).
Proof.
  intros Hwf Hty. revert s. induction rounds as [|n IH]; intros s Ha Hc Hb Hr; cbn [dgw_loop].
  { exists s. split_and!; try done; try lia. }
  destruct (dgw_BlockReading s) as [p|] eqn:Ep;
    [|exists s; split_and!; try done; lia].
  destruct (Hr p eq_refl) as [b Hp]. rewrite Hp. cbn [mbind option_bind].
  destruct (Z.ltb_spec 0 (nHeight b)) as [Hh|Hh]; cbn [negb];
    [|exists s; split_and!; try done; try lia; intros; simplify_eq; lia].
  destruct (dgw_step_spec b s) as (s1&Hs1&Ha1&Hc1&Hr1); [by apply (Hty p b)|done|lia|].
  rewrite Hs1. cbn [mbind option_bind].
  destruct (IH s1) as (s'&Hs'&Ha'&Hc'&_); [done|lia|lia| |].
  - rewrite Hr1. intros q Eq. pose proof (Hwf p b Hp) as Hok. unfold entry_ok in Hok.
    rewrite Eq in Hok. destruct Hok as (bq&Hq&_). by eexists.
  - exists s'. split_and!; try done; lia.
Qed.

(** The clamp at the end of both branches. *)
Lemma clamp_gt a limit :
  wf256 a → wf256 limit →
  let r := if uint_gtb a limit then limit else a in wf256 r ∧ val r = Z.min (val a) (val limit).
Proof.
  intros Ha Hl. cbv zeta. destruct (bu_order a limit Ha Hl) as (_&_&->&_).
  destruct (Z.ltb_spec (val limit) (val a)); split; try done; lia.
Qed.

Lemma pow_retarget_spec prm t p b :
  params_ok prm → wf_tree t → typed_tree t → t !! p = Some b → 0 < b.(nHeight) →
  ∃ r, pow_retarget prm t p = Some r ∧ wf256 r ∧ val r <= val prm.(powLimit).
Proof.
  intros (Hpow&_&_&Hsp&_) Hwf Hty Hp Hh. unfold pow_retarget.
  set (s0 := {| dgw_BlockReading := Some p |}).
  destruct (uint_zero_spec W256) as [Hz _].
  destruct (dgw_loop_spec t 24 s0) as (s&Hs&Ha&Hc&Hpos); [done..| | |]; try (cbn; lia).
  { intros q Hq. cbn in Hq. simplify_eq. by eexists. }
  specialize (Hpos p b eq_refl Hp Hh ltac:(lia)). rewrite Hs. cbn [mbind option_bind].
  cbn [dgw_CountBlocks s0] in *.
  set (target := dgw_CountBlocks s * nTargetSpacing prm). cbv zeta.
  match goal with |- context [uint_mul32 _ (u32 ?span)] =>
    destruct (bu_mul32 s.(dgw_Average) (u32 span) Ha (u32_range _)) as [Hm _] end.
  destruct (div_by_u64 _ target Hm) as (q&Hq&Hwq&_); [subst target; nia|].
  rewrite Hq. cbn [mbind option_bind]. eexists. split; [done|].
  destruct (clamp_gt q (powLimit prm) Hwq Hpow) as [Hw ->]. split; [done|lia].
Qed.

(** The target the proof-of-stake branch computes from the previous one. *)
Definition pos_target (prm : Params) (first : bool) (prev spacing : Z) : Z :=
  let n := prm.(nTargetTimespanV2) / prm.(nTargetSpacing) in
  let scaled := (((if first then (prev * 2 ^ 4) mod 2 ^ 256 else prev)
                  * ((n - 1) * prm.(nTargetSpacing) + 2 * spacing)) mod 2 ^ 256)
                / ((n + 1) * prm.(nTargetSpacing)) in
  if scaled <=? 0 then val prm.(posLimitV2) else Z.min scaled (val prm.(posLimitV2)).

(** The spacing it uses: negative spacings count as one second, long ones are
    cut at ten target spacings. *)
Definition pos_spacing (prm : Params) (dt : Z) : Z :=
  let s := if dt <? 0 then 1 else dt in Z.min s (prm.(nTargetSpacing) * 10).

Lemma pos_retarget_spec prm t b q bq :
  params_ok prm → prm.(nTargetSpacing) <= prm.(nTargetTimespanV2) →
  NetworkUpgradeActive prm (b.(nHeight) + 1) ACTIVATE_POS = true →
  b.(nHeight) <> 0 → is_u32 b.(nBits) → b.(pprev) = Some q → t !! q = Some bq →
  ∃ r, pos_retarget prm false t b = Some r ∧ wf256 r ∧
    val r = pos_target prm (negb (IsTimeProtocolV2 prm b.(nHeight)))
              (val (SetCompact b.(nBits)).(compact_value))
              (pos_spacing prm (b.(nTime) - bq.(nTime))).
Proof.
  intros (_&_&Hlim&Hsp&_&Hts) Hle Hact Hh Hb Hprev Hq. unfold pos_retarget.
  rewrite Hprev. cbn [mbind option_bind]. rewrite Hq. cbn [mbind option_bind].
  rewrite (proj2 (Z.eqb_neq _ _)) by done.
  assert (IsTimeProtocolV2 prm (nHeight b + 1) = true) as -> by exact Hact.
  cbn [negb andb mbind option_bind]. unfold TargetTimespan, ProofOfStakeLimit.
  rewrite (Z.quot_div_nonneg (nTargetTimespanV2 prm)) by lia.
  unfold GetBlockTime. set (dt := nTime b - nTime bq).
  set (sp := if _ <? (if dt <? 0 then 1 else dt) then _ else _).
  assert (sp = pos_spacing prm dt) as Esp by (unfold sp, pos_spacing; repeat case_match; lia).
  assert (0 <= sp <= nTargetSpacing prm * 10) as Hspb by (rewrite Esp; unfold pos_spacing; case_match; lia).
  rewrite Esp in *. clear sp Esp. set (sp := pos_spacing prm dt) in *.
  destruct (SetCompact_value _ Hb) as [Hw _]. set (v := (SetCompact (nBits b)).(compact_value)) in *.
  set (n := nTargetTimespanV2 prm / nTargetSpacing prm).
  assert (1 <= n < 2 ^ 24) as Hn.
  { subst n. split; [apply Z.div_le_lower_bound; lia|]. apply Z.div_lt_upper_bound; nia. }
  assert (0 <= (n - 1) * nTargetSpacing prm <= nTargetTimespanV2 prm) as Hns.
  { split; [nia|]. pose proof (Z.mul_div_le (nTargetTimespanV2 prm) (nTargetSpacing prm) ltac:(lia)).
    fold n in H. nia. }
  set (first := negb (IsTimeProtocolV2 prm (nHeight b))).
  assert (wf256 (if first then uint_shl v 4 else v) ∧
    val (if first then uint_shl v 4 else v) = if first then (val v * 2 ^ 4) mod 2 ^ 256 else val v) as [Hw1 Hv1].
  { destruct first; [rewrite <- modulus_256; apply (bu_shl v 4); [done|lia]|done]. }
  destruct (bu_mul32 _ (u32 ((n - 1) * nTargetSpacing prm + sp + sp)) Hw1 (u32_range _)) as [Hw2 Hv2].
  destruct (div_by_u64 _ ((n + 1) * nTargetSpacing prm) Hw2) as (r&Hr&Hwr&Hvr); [nia|].
  rewrite Hr. cbn [mbind option_bind]. eexists. split; [done|].
  rewrite Hv2, Hv1, u32_id in Hvr by mlia.
  destruct (bu_u64 0) as [Hw0 Hv0]; [done|].
  destruct (bu_order r _ Hwr Hw0) as (_&->&_). destruct (bu_order r _ Hwr Hlim) as (_&_&->&_).
  rewrite Hv0. unfold pos_target. fold n. rewrite modulus_256 in Hvr.
  replace ((n - 1) * nTargetSpacing prm + 2 * sp) with ((n - 1) * nTargetSpacing prm + sp + sp) by lia.
  rewrite <- Hvr. destruct (Z.leb_spec (val r) 0); cbn [orb]; [done|].
  destruct (Z.ltb_spec (val (posLimitV2 prm)) (val r)); split; try done; lia.
Qed.

(** ** Properties *)

(** The branch that is taken above the block [p], and its limit. *)
Inductive work_rule := FirstBlocks | StakeRule | WorkRule.
Definition rule_of (prm : Params) (t : BlockTree) (pindexLast : option ptr) : work_rule :=
  match pindexLast ≫= (t !!.) with
  | None => FirstBlocks
  | Some b => if b.(nHeight) <? 24 then FirstBlocks
              else if NetworkUpgradeActive prm (b.(nHeight) + 1) ACTIVATE_POS then StakeRule else WorkRule
  end.
Definition limit_of (prm : Params) (r : work_rule) : base_uint :=
  match r with StakeRule => prm.(posLimitV2) | _ => prm.(powLimit) end.

(** Every branch of the rule yields a target within its limit, and that of the
    proof of stake a positive one. *)
Lemma next_target_total prm t p b :
  params_ok prm → prm.(nTargetSpacing) <= prm.(nTargetTimespanV2) →
  wf_tree t → typed_tree t → t !! p = Some b → 24 <= b.(nHeight) →
  ∃ r, (if NetworkUpgradeActive prm (b.(nHeight) + 1) ACTIVATE_POS
        then pos_retarget prm false t b else pow_retarget prm t p) = Some r ∧ wf256 r ∧
    val r <= val (limit_of prm (rule_of prm t (Some p))) ∧
    (rule_of prm t (Some p) ≠ WorkRule → 0 < val (limit_of prm (rule_of prm t (Some p))) → 0 < val r).
Proof.
  intros Hok Hle Hwf Hty Hp Hh. unfold rule_of. cbn [mbind option_bind]. rewrite Hp. rewrite (proj2 (Z.ltb_ge _ _)) by done.
  destruct (NetworkUpgradeActive _ _ _) eqn:Hact; cbn [limit_of].
  - pose proof (Hwf p b Hp) as He. unfold entry_ok in He.
    destruct (pprev b) as [q|] eqn:Eprev; [|lia]. destruct He as (bq&Hq&_).
    destruct (pos_retarget_spec prm t b q bq) as (r&Hr&Hw&Hv);
      try done; [lia|by apply (Hty p b)|].
    exists r. split; [done|]. split; [done|]. rewrite Hv. unfold pos_target. case_match; split; lia.
  - destruct (pow_retarget_spec prm t p b) as (r & ? & ? & ?); [done..|lia|]. by exists r.
Qed.

(** The compact form of a target keeps its bounds. *)
Lemma compact_keeps_limits a l : wf256 a → val a <= l →
  ∃ c, GetCompact a false = Some c ∧ is_u32 c ∧ (SetCompact c).(compact_fNegative) = false ∧ (SetCompact c).(compact_fOverflow) = false ∧
    val (SetCompact c).(compact_value) <= l ∧ (0 < val a → 0 < val (SetCompact c).(compact_value)).
Proof.
  intros Ha Hv. destruct (compact_roundtrip_truncates a Ha) as (c&Hc&Hu&_&Ht&Hn&Ho). exists c. rewrite Ht.
  pose proof (compact_truncate_bounds (val a) (proj1 (wf_bounds _ _ Ha))). split_and!; try done; lia.
Qed.

(** C28: for every well-formed block tree and every tip, [GetNextWorkRequired]
    returns (no null dereference, division by zero or failing assertion), and
    the compact number returned decodes to a target that is neither negative
    nor overflowing and does not exceed the limit of the branch taken: that of
    the proof of stake from its activation on, else that of the proof of work.
    Among the first 24 blocks and in the proof of stake the target is positive;
    the average of the proof of work may be zero. *)
Theorem GetNextWorkRequired_within_limits (prm : Params) (t : BlockTree) (pindexLast : option ptr) :
  params_ok prm → prm.(nTargetSpacing) <= prm.(nTargetTimespanV2) →
  wf_tree t → typed_tree t → (∀ p, pindexLast = Some p → is_Some (t !! p)) →
  let rule := rule_of prm t pindexLast in
  ∃ c, GetNextWorkRequired prm false t pindexLast = Some c ∧ is_u32 c ∧
    let r := SetCompact c in
    r.(compact_fNegative) = false ∧ r.(compact_fOverflow) = false ∧
    val r.(compact_value) <= val (limit_of prm rule) ∧
    (rule ≠ WorkRule → 0 < val (limit_of prm rule) → 0 < val r.(compact_value)).
Proof.
  intros Hok Hle Hwf Hty Hl. cbv zeta. unfold GetNextWorkRequired. assert (wf256 (powLimit prm)) as Hpow by apply Hok.
  destruct (compact_keeps_limits (powLimit prm) (val (powLimit prm)) Hpow ltac:(lia)) as (c0 & Hc0 & Hu0 & Hn0 & Ho0 & Hv0 & Hp0).
  destruct pindexLast as [p|]; [|exists c0; by split_and!].
  destruct (Hl p eq_refl) as [b Hp]. rewrite Hp. cbn [mbind option_bind].
  destruct (_ || _) eqn:E.
  { assert (rule_of prm t (Some p) = FirstBlocks) as ->; [|exists c0; by split_and!].
    unfold rule_of. cbn [mbind option_bind]. rewrite Hp. by rewrite (proj2 (Z.ltb_lt _ _)) by lia. }
  destruct (next_target_total prm t p b) as (r&Hr&Hw&Hv&Hpos); [done..|lia|].
  rewrite Hr. cbn [mbind option_bind]. destruct (compact_keeps_limits r _ Hw Hv) as (c & ? & ? & ? & ? & ? & Hc). exists c. split_and!; try done. auto.
Qed.

(** The sample tree of [Chain] with a compact target in every block. *)
Definition with_bits (bits : Z) (b : CBlockIndex) : CBlockIndex :=
  let '(mkCBlockIndex a1 a2 a3 a4 a5 a6 a7 a8 a9 a10 a11 a12 a13 a14 a15 a16 a17 a18 a19 a20 _ a22 a23) := b in
  mkCBlockIndex a1 a2 a3 a4 a5 a6 a7 a8 a9 a10 a11 a12 a13 a14 a15 a16 a17 a18 a19 a20 bits a22 a23.
Definition pow_sample : BlockTree := with_bits 0x1e0ffff0 <$> sample_main 30.

#[export] Instance typed_tree_dec t : Decision (typed_tree t).
Proof.
  refine (cast_if (decide (map_Forall (λ _ b, is_u32 b.(nTime) ∧ is_u32 b.(nBits)) t)));
    unfold typed_tree; eauto.
Defined.

Lemma pow_sample_ok : wf_tree pow_sample ∧ typed_tree pow_sample.
Proof. split; apply (bool_decide_unpack _); vm_compute; exact I. Qed.

Lemma GetNextWorkRequired_within_limits_witness :
  ∃ c, GetNextWorkRequired main_params false pow_sample (Some 31%positive) = Some c ∧
    val (SetCompact c).(compact_value) <= val main_params.(powLimit).
Proof.
  destruct (GetNextWorkRequired_within_limits main_params pow_sample (Some 31%positive))
    as (c&Hc&_&_&_&Hv&_); [exact main_params_ok|cbn; lia|apply pow_sample_ok|apply pow_sample_ok| |].
  - intros p Hp. injection Hp as <-. vm_compute. eexists. reflexivity.
  - exists c. exact (conj Hc Hv).
Defined.

(** in the proof-of-stake era the next target is the previous one scaled by
    [((n-1)*spacing + 2*actual) / ((n+1)*spacing)], where the actual spacing is
    cut to ten target spacings and a negative one counts as one second, clamped
    to the limit and cut to compact precision; on the first such block the
    target is first multiplied by 16.  With targets of at most 236 bits the
    multiplication does not overflow. *)
Theorem GetNextWorkRequired_pos_formula (t : BlockTree) (p q : ptr) (b bq : CBlockIndex) :
  let prm := main_params in
  t !! p = Some b → b.(pprev) = Some q → t !! q = Some bq → is_u32 b.(nBits) →
  44000 <= b.(nHeight) + 1 → val (SetCompact b.(nBits)).(compact_value) < 2 ^ 236 →
  let prev := val (SetCompact b.(nBits)).(compact_value) * (if b.(nHeight) + 1 =? 44000 then 16 else 1) in
  let scaled := prev * (29 * 60 + 2 * pos_spacing prm (b.(nTime) - bq.(nTime))) / (31 * 60) in
  ∃ c, GetNextWorkRequired prm false t (Some p) = Some c ∧
    val (SetCompact c).(compact_value) =
      compact_truncate (if scaled <=? 0 then val prm.(posLimitV2) else Z.min scaled (val prm.(posLimitV2))).
Proof.
  intros prm Hp Hprev Hq Hb Hh Hsmall prev scaled.
  assert (NetworkUpgradeActive prm (nHeight b + 1) ACTIVATE_POS = true) as Hact.
  { apply upgrade_active_iff. unfold MAX_NETWORK_UPGRADES, ACTIVATE_POS. cbn. unfold NO_ACTIVATION_HEIGHT. lia. }
  destruct (pos_retarget_spec prm t b q bq main_params_ok) as (r&Hr&Hw&Hv);
    try done; [lia|].
  unfold GetNextWorkRequired. rewrite Hp. cbn [mbind option_bind].
  replace (_ || _) with false by lia. rewrite Hact, Hr. cbn [mbind option_bind].
  destruct (compact_roundtrip_truncates r Hw) as (c&Hc&_&_&Ht&_). exists c. split; [done|].
  rewrite Ht. f_equal. rewrite Hv. unfold pos_target.
  assert (negb (IsTimeProtocolV2 prm (nHeight b)) = (nHeight b + 1 =? 44000)) as ->.
  { destruct (IsTimeProtocolV2 prm (nHeight b)) eqn:E; unfold IsTimeProtocolV2 in E.
    - apply upgrade_active_iff in E as (_&_&_&E). cbn in E. cbn [negb]. lia.
    - cbn [negb]. symmetry. apply Z.eqb_eq. destruct (decide (nHeight b + 1 = 44000)); [done|].
      exfalso. apply not_true_iff_false in E. apply E. apply upgrade_active_iff.
      unfold MAX_NETWORK_UPGRADES, ACTIVATE_POS. cbn. unfold NO_ACTIVATION_HEIGHT. lia. }
  change (nTargetTimespanV2 prm / nTargetSpacing prm) with 30. change (nTargetSpacing prm) with 60.
  change ((30 - 1) * 60) with (29 * 60). change ((30 + 1) * 60) with (31 * 60).
  destruct (SetCompact_value _ Hb) as [Hwv _]. pose proof (wf_bounds _ _ Hwv) as Hvb.
  set (v := val (SetCompact (nBits b)).(compact_value)) in *.
  assert (0 <= pos_spacing prm (nTime b - nTime bq) <= 600) as Hspb.
  { unfold pos_spacing. change (nTargetSpacing prm * 10) with 600. case_match; lia. }
  assert ((if nHeight b + 1 =? 44000 then (v * 2 ^ 4) mod 2 ^ 256 else v) = prev) as ->.
  { subst prev. case_match; [|lia]. rewrite Z.mod_small; [lia|]. mlia. }
  rewrite (Z.mod_small (prev * _)); [done|].
  assert (0 <= prev < 2 ^ 240) by (subst prev; case_match; mlia). clear -H Hspb.
  set (s := pos_spacing _ _) in *. eval_pow2. nia.
Qed.

Lemma GetNextWorkRequired_pos_formula_witness :
  ∃ c, GetNextWorkRequired main_params false
         {[1%positive := sample_entry 1 None 43999 1000;
           2%positive := with_bits 0x1b0404cb (sample_entry 2 (Some 1%positive) 44000 1060)]}
         (Some 2%positive) = Some c.
Proof.
  destruct (GetNextWorkRequired_pos_formula
    {[1%positive := sample_entry 1 None 43999 1000;
      2%positive := with_bits 0x1b0404cb (sample_entry 2 (Some 1%positive) 44000 1060)]}
    2 1 (with_bits 0x1b0404cb (sample_entry 2 (Some 1%positive) 44000 1060))
    (sample_entry 1 None 43999 1000)) as (c&Hc&_); try reflexivity.
  - vm_compute. split; [discriminate|reflexivity].
  - vm_compute. discriminate.
  - exists c. exact Hc.
Defined.

(** outside regtest [CheckProofOfWork] accepts exactly the hashes that do
    not exceed a positive, non-overflowing target within the limit. *)
Theorem CheckProofOfWork_iff (prm : Params) (hash : base_uint) (bits : Z) :
  wf256 prm.(powLimit) → wf256 hash → is_u32 bits →
  let r := SetCompact bits in
  CheckProofOfWork prm false hash bits = true ↔
  r.(compact_fNegative) = false ∧ r.(compact_fOverflow) = false ∧
  0 < val r.(compact_value) <= val prm.(powLimit) ∧ val hash <= val r.(compact_value).
Proof.
  intros Hl Hh Hb. cbv zeta. unfold CheckProofOfWork. destruct (SetCompact_value bits Hb) as [Hw _].
  set (r := SetCompact bits) in *. rewrite bu_null by done.
  destruct (bu_order _ _ Hw Hl) as (_&_&->&_). destruct (bu_order _ _ Hh Hw) as (_&_&->&_).
  pose proof (wf_bounds _ _ Hw). destruct (compact_fNegative r), (compact_fOverflow r); cbn [orb];
    rewrite ?orb_true_r; try (split; [done|by intros (?&?&_)]).
  destruct (Z.eqb_spec (val (compact_value r)) 0); cbn [orb]; [split; [done|lia]|].
  repeat case_match; split; try done; try lia.
Qed.

Lemma CheckProofOfWork_iff_witness :
  CheckProofOfWork main_params false (uint_of_u64 W256 5) 0x1b0404cb = true.
Proof.
  apply (CheckProofOfWork_iff main_params (uint_of_u64 W256 5) 0x1b0404cb);
    [apply (bool_decide_unpack _); vm_compute; exact I|apply (bool_decide_unpack _); vm_compute; exact I|..];
    vm_compute; repeat split; try discriminate; reflexivity.
Defined.

(** A decoded target never is the largest 256-bit number. *)
Lemma SetCompact_not_max n :
  is_u32 n → val (SetCompact n).(compact_value) + 1 < 2 ^ 256.
Proof.
  intros Hn. destruct (SetCompact_value n Hn) as [Hw Hv]. cbv zeta in Hv.
  pose proof (wf_bounds _ _ Hw) as Hb. rewrite modulus_256 in Hb.
  pose proof (Z.mod_pos_bound n (2 ^ 23) ltac:(lia)) as Hm.
  destruct (Z.leb_spec (n / 2 ^ 24) 3).
  - assert (n mod 2 ^ 23 / 256 ^ (3 - n / 2 ^ 24) < 2 ^ 23).
    { apply Z.le_lt_trans with (n mod 2 ^ 23); [|lia].
      apply Z.div_le_upper_bound; [apply Z.pow_pos_nonneg; lia|].
      assert (1 <= 256 ^ (3 - n / 2 ^ 24)) by (apply (Z.pow_le_mono_r 256 0); lia). nia. }
    rewrite Hv. assert (2 ^ 23 + 1 < 2 ^ 256) by done. lia.
  - assert (val (SetCompact n).(compact_value) mod 256 = 0) as Hz.
    { rewrite Hv, Z.mod_mod_divide by (exists (2 ^ 248); done).
      replace (n / 2 ^ 24 - 3) with ((n / 2 ^ 24 - 4) + 1) by lia.
      rewrite Z.pow_add_r by lia. change (256 ^ 1) with 256. rewrite Z.mul_assoc. by apply Z.mod_mul. }
    assert ((2 ^ 256 - 1) mod 256 = 255) by done.
    destruct (decide (val (SetCompact n).(compact_value) = 2 ^ 256 - 1)) as [E|]; [|lia].
    rewrite E in Hz. lia.
Qed.

Lemma GetBlockProof_spec b :
  is_u32 b.(nBits) →
  let r := SetCompact b.(nBits) in
  ∃ w, GetBlockProof b = Some w ∧ wf256 w ∧
    val w = if r.(compact_fNegative) || r.(compact_fOverflow) || (val r.(compact_value) =? 0) then 0
            else 2 ^ 256 / (val r.(compact_value) + 1).
Proof.
  intros Hb. cbv zeta. unfold GetBlockProof. destruct (SetCompact_value _ Hb) as [Hw _].
  pose proof (SetCompact_not_max _ Hb) as Hmax.
  set (r := SetCompact (nBits b)) in *. rewrite (bu_null _ Hw).
  destruct (_ || _) eqn:E.
  { eexists. split; [done|]. apply uint_zero_spec. }
  apply orb_false_elim in E as [_ Hnz%Z.eqb_neq].
  pose proof (wf_bounds _ _ Hw) as Hvb. rewrite modulus_256 in Hvb. set (v := val (compact_value r)) in *.
  destruct (bu_u64 1) as [Hw1 Hv1]; [done|].
  destruct (bu_not _ Hw) as [Hwn Hvn]. destruct (bu_add _ _ Hw Hw1) as [Hwa Hva].
  rewrite Hv1, modulus_256, Z.mod_small in Hva by lia. rewrite modulus_256 in Hvn. fold v in Hvn, Hva.
  pose proof (bu_div _ _ Hwn Hwa) as Hd. rewrite Hva, Hvn in Hd.
  destruct (Z.eqb_spec (v + 1) 0); [lia|]. destruct Hd as (q&Hq&Hwq&Hvq).
  rewrite Hq. cbn [mbind option_bind]. eexists. split; [done|].
  destruct (bu_add _ _ Hwq Hw1) as [Hwr Hvr]. split; [done|]. rewrite Hvr, Hv1, modulus_256, Hvq.
  assert ((2 ^ 256 - 1 - v) / (v + 1) + 1 = 2 ^ 256 / (v + 1)) as ->.
  { rewrite <- Z.div_add by lia. f_equal. lia. }
  apply Z.mod_small. split; [apply Z.div_pos; lia|]. apply Z.div_lt; lia.
Qed.

(** the work of a block is [2 ^ 256 / (target + 1)] although [2 ^ 256] is
    not representable: zero exactly for negative, overflowing or zero targets,
    positive otherwise, and the division never throws. *)
Theorem GetBlockProof_exact (b : CBlockIndex) :
  is_u32 b.(nBits) →
  let r := SetCompact b.(nBits) in
  ∃ w, GetBlockProof b = Some w ∧ wf256 w ∧
    val w = (if r.(compact_fNegative) || r.(compact_fOverflow) || (val r.(compact_value) =? 0) then 0
             else 2 ^ 256 / (val r.(compact_value) + 1)) ∧
    (val w = 0 ↔ r.(compact_fNegative) = true ∨ r.(compact_fOverflow) = true ∨ val r.(compact_value) = 0).
Proof.
  intros Hb. cbv zeta. destruct (GetBlockProof_spec b Hb) as (w&Hw&Hwf&Hv). exists w.
  split; [done|]. split; [done|]. split; [done|]. rewrite Hv.
  pose proof (SetCompact_not_max _ Hb). destruct (SetCompact_value _ Hb) as [Hwv _].
  pose proof (wf_bounds _ _ Hwv). clear Hv Hw Hwf. set (v := val _) in *.
  destruct (compact_fNegative _), (compact_fOverflow _); cbn [orb]; try (by split; auto).
  destruct (Z.eqb_spec v 0); [split; auto|].
  split; [|by intros [?|[?|?]]].
  assert (1 <= 2 ^ 256 / (v + 1)) by (apply Z.div_le_lower_bound; lia). lia.
Qed.

Lemma GetBlockProof_exact_witness :
  ∃ w, GetBlockProof (with_bits 0x1b0404cb (sample_entry 1 None 0 0)) = Some w ∧ wf256 w.
Proof.
  destruct (GetBlockProof_exact (with_bits 0x1b0404cb (sample_entry 1 None 0 0))) as (w&H1&H2&_).
  - vm_compute. split; [discriminate|reflexivity].
  - exists w. exact (conj H1 H2).
Defined.
