(* ===== verification/Script.v ===== *)
(** * Script: the byte code of transaction scripts ([script/script.h], [script/script.cpp])

    Opcodes, script numbers ([CScriptNum]), the push encodings, the instruction
    decoder [GetOp2] and the functions that walk over a script.  A script and a
    stack element are lists of bytes; an iterator into a script is the rest of
    the script from that point on. *)

From S2P Require Import Prelude.
Local Open Scope Z_scope.

Abbreviation valtype := (list Z).
Abbreviation CScript := (list Z).

Definition bytes (l : list Z) : Prop := Forall is_u8 l.
#[export] Instance bytes_dec l : Decision (bytes l).
Proof. unfold bytes. apply _. Defined.

(** The C++ [size()] as a number. *)
Abbreviation size l := (Z.of_nat (length l)).

Definition MAX_SCRIPT_ELEMENT_SIZE : Z := 520.
Definition MAX_SCRIPT_SIZE : Z := 10000.
Definition LOCKTIME_THRESHOLD : Z := 500000000.

(** ** [opcodetype] *)

Definition OP_0 : Z := 0x00.
Definition OP_FALSE : Z := OP_0.
Definition OP_PUSHDATA1 : Z := 0x4c.
Definition OP_PUSHDATA2 : Z := 0x4d.
Definition OP_PUSHDATA4 : Z := 0x4e.
Definition OP_1NEGATE : Z := 0x4f.
Definition OP_RESERVED : Z := 0x50.
Definition OP_1 : Z := 0x51.
Definition OP_TRUE : Z := OP_1.
Definition OP_2 : Z := 0x52.
Definition OP_3 : Z := 0x53.
Definition OP_4 : Z := 0x54.
Definition OP_5 : Z := 0x55.
Definition OP_6 : Z := 0x56.
Definition OP_7 : Z := 0x57.
Definition OP_8 : Z := 0x58.
Definition OP_9 : Z := 0x59.
Definition OP_10 : Z := 0x5a.
Definition OP_11 : Z := 0x5b.
Definition OP_12 : Z := 0x5c.
Definition OP_13 : Z := 0x5d.
Definition OP_14 : Z := 0x5e.
Definition OP_15 : Z := 0x5f.
Definition OP_16 : Z := 0x60.
Definition OP_NOP : Z := 0x61.
Definition OP_VER : Z := 0x62.
Definition OP_IF : Z := 0x63.
Definition OP_NOTIF : Z := 0x64.
Definition OP_VERIF : Z := 0x65.
Definition OP_VERNOTIF : Z := 0x66.
Definition OP_ELSE : Z := 0x67.
Definition OP_ENDIF : Z := 0x68.
Definition OP_VERIFY : Z := 0x69.
Definition OP_RETURN : Z := 0x6a.
Definition OP_TOALTSTACK : Z := 0x6b.
Definition OP_FROMALTSTACK : Z := 0x6c.
Definition OP_2DROP : Z := 0x6d.
Definition OP_2DUP : Z := 0x6e.
Definition OP_3DUP : Z := 0x6f.
Definition OP_2OVER : Z := 0x70.
Definition OP_2ROT : Z := 0x71.
Definition OP_2SWAP : Z := 0x72.
Definition OP_IFDUP : Z := 0x73.
Definition OP_DEPTH : Z := 0x74.
Definition OP_DROP : Z := 0x75.
Definition OP_DUP : Z := 0x76.
Definition OP_NIP : Z := 0x77.
Definition OP_OVER : Z := 0x78.
Definition OP_PICK : Z := 0x79.
Definition OP_ROLL : Z := 0x7a.
Definition OP_ROT : Z := 0x7b.
Definition OP_SWAP : Z := 0x7c.
Definition OP_TUCK : Z := 0x7d.
Definition OP_CAT : Z := 0x7e.
Definition OP_SUBSTR : Z := 0x7f.
Definition OP_LEFT : Z := 0x80.
Definition OP_RIGHT : Z := 0x81.
Definition OP_SIZE : Z := 0x82.
Definition OP_INVERT : Z := 0x83.
Definition OP_AND : Z := 0x84.
Definition OP_OR : Z := 0x85.
Definition OP_XOR : Z := 0x86.
Definition OP_EQUAL : Z := 0x87.
Definition OP_EQUALVERIFY : Z := 0x88.
Definition OP_RESERVED1 : Z := 0x89.
Definition OP_RESERVED2 : Z := 0x8a.
Definition OP_1ADD : Z := 0x8b.
Definition OP_1SUB : Z := 0x8c.
Definition OP_2MUL : Z := 0x8d.
Definition OP_2DIV : Z := 0x8e.
Definition OP_NEGATE : Z := 0x8f.
Definition OP_ABS : Z := 0x90.
Definition OP_NOT : Z := 0x91.
Definition OP_0NOTEQUAL : Z := 0x92.
Definition OP_ADD : Z := 0x93.
Definition OP_SUB : Z := 0x94.
Definition OP_MUL : Z := 0x95.
Definition OP_DIV : Z := 0x96.
Definition OP_MOD : Z := 0x97.
Definition OP_LSHIFT : Z := 0x98.
Definition OP_RSHIFT : Z := 0x99.
Definition OP_BOOLAND : Z := 0x9a.
Definition OP_BOOLOR : Z := 0x9b.
Definition OP_NUMEQUAL : Z := 0x9c.
Definition OP_NUMEQUALVERIFY : Z := 0x9d.
Definition OP_NUMNOTEQUAL : Z := 0x9e.
Definition OP_LESSTHAN : Z := 0x9f.
Definition OP_GREATERTHAN : Z := 0xa0.
Definition OP_LESSTHANOREQUAL : Z := 0xa1.
Definition OP_GREATERTHANOREQUAL : Z := 0xa2.
Definition OP_MIN : Z := 0xa3.
Definition OP_MAX : Z := 0xa4.
Definition OP_WITHIN : Z := 0xa5.
Definition OP_RIPEMD160 : Z := 0xa6.
Definition OP_SHA1 : Z := 0xa7.
Definition OP_SHA256 : Z := 0xa8.
Definition OP_HASH160 : Z := 0xa9.
Definition OP_HASH256 : Z := 0xaa.
Definition OP_CODESEPARATOR : Z := 0xab.
Definition OP_CHECKSIG : Z := 0xac.
Definition OP_CHECKSIGVERIFY : Z := 0xad.
Definition OP_CHECKMULTISIG : Z := 0xae.
Definition OP_CHECKMULTISIGVERIFY : Z := 0xaf.
Definition OP_NOP1 : Z := 0xb0.
Definition OP_NOP2 : Z := 0xb1.
Definition OP_CHECKLOCKTIMEVERIFY : Z := OP_NOP2.
Definition OP_NOP3 : Z := 0xb2.
Definition OP_NOP4 : Z := 0xb3.
Definition OP_NOP5 : Z := 0xb4.
Definition OP_NOP6 : Z := 0xb5.
Definition OP_NOP7 : Z := 0xb6.
Definition OP_NOP8 : Z := 0xb7.
Definition OP_NOP9 : Z := 0xb8.
Definition OP_NOP10 : Z := 0xb9.
Definition OP_ASSETSMINT : Z := 0xd4.
Definition OP_ASSETSSPEND : Z := 0xd5.
Definition OP_DPOSASSETSMINT : Z := 0xd6.
Definition OP_CHECKCOLDSTAKEVERIFY : Z := 0xd1.
Definition OP_INVALIDOPCODE : Z := 0xff.

(** ** [CScriptNum]

    A value of the class is its [m_value]; the constructor from bytes answers
    [None] where the C++ throws [scriptnum_error]. *)

Definition nDefaultMaxNumSize : Z := 4.

(** The last byte, [vch.back()], of a non-empty vector. *)
Definition back (vch : valtype) : Z := List.last vch 0.

(** The loop [result |= int64_t(vch[i]) << 8*i]. *)
Fixpoint set_vch_loop (i : Z) (vch : valtype) (result : Z) : Z :=
  match vch with
  | [] => result
  | b :: vch => set_vch_loop (i + 1) vch (Z.lor result (i64 (Z.shiftl b (8 * i))))
  end.

Definition set_vch (vch : valtype) : Z :=
  match vch with
  | [] => 0
  | _ =>
      let result := set_vch_loop 0 vch 0 in
      if negb (Z.land (back vch) 0x80 =? 0) then
        - i64 (Z.land (u64 result) (u64 (Z.lnot (u64 (Z.shiftl 0x80 (8 * (size vch - 1)))))))
      else result
  end.

Definition minimally_encoded (vch : valtype) : bool :=
  negb ((0 <? size vch) && (Z.land (back vch) 0x7f =? 0) &&
        ((size vch <=? 1) || (Z.land (nth (length vch - 2) vch 0) 0x80 =? 0))).

Definition CScriptNum_of_vch (vch : valtype) (fRequireMinimal : bool) (nMaxNumSize : Z) : option Z :=
  if nMaxNumSize <? size vch then None
  else if fRequireMinimal && negb (minimally_encoded vch) then None
  else Some (set_vch vch).

(** The loop that pushes the bytes of [absvalue]; a [uint64_t] has eight. *)
Fixpoint abs_bytes (fuel : nat) (absvalue : Z) : valtype :=
  match fuel with
  | O => []
  | S fuel =>
      if absvalue =? 0 then [] else Z.land absvalue 0xff :: abs_bytes fuel (Z.shiftr absvalue 8)
  end.

Definition set_back (vch : valtype) (b : Z) : valtype := removelast vch ++ [b].

Definition serialize (value : Z) : valtype :=
  if value =? 0 then []
  else
    let neg := value <? 0 in
    let absvalue := if neg then u64 (u64 (Z.lnot (u64 value)) + 1) else u64 value in
    let result := abs_bytes 8 absvalue in
    if negb (Z.land (back result) 0x80 =? 0) then result ++ [if neg then 0x80 else 0]
    else if neg then set_back result (Z.lor (back result) 0x80)
    else result.

Definition getint (m_value : Z) : Z :=
  if 2 ^ 31 - 1 <? m_value then 2 ^ 31 - 1
  else if m_value <? - 2 ^ 31 then - 2 ^ 31
  else m_value.

(** [operator-], [operator+=] and [operator-=], with their assertions. *)
Definition num_neg (m_value : Z) : option Z :=
  if m_value =? - 2 ^ 63 then None else Some (- m_value).
Definition num_add_assign (m_value rhs : Z) : option Z :=
  if (rhs =? 0) || (0 <? rhs) && (m_value <=? 2 ^ 63 - 1 - rhs) || (rhs <? 0) && (- 2 ^ 63 - rhs <=? m_value)
  then Some (m_value + rhs) else None.
Definition num_sub_assign (m_value rhs : Z) : option Z :=
  if (rhs =? 0) || (0 <? rhs) && (- 2 ^ 63 + rhs <=? m_value) || (rhs <? 0) && (m_value <=? 2 ^ 63 - 1 + rhs)
  then Some (m_value - rhs) else None.

(** ** Building scripts: the operators [<<] *)

(** The bytes of a number of [n] bytes, least significant first
    ([WriteLE16], [WriteLE32] and their readers). *)
Fixpoint WriteLE (n : nat) (x : Z) : list Z :=
  match n with O => [] | S n => x mod 256 :: WriteLE n (x / 256) end.
Fixpoint ReadLE (l : list Z) : Z :=
  match l with [] => 0 | b :: l => b + 256 * ReadLE l end.

(** What [*this << b] appends for a vector of bytes. *)
Definition push_data (b : valtype) : CScript :=
  (if size b <? OP_PUSHDATA1 then [u8 (size b)]
   else if size b <=? 0xff then [OP_PUSHDATA1; u8 (size b)]
   else if size b <=? 0xffff then OP_PUSHDATA2 :: WriteLE 2 (size b)
   else OP_PUSHDATA4 :: WriteLE 4 (size b)) ++ b.

Definition push_int64 (n : Z) : CScript :=
  if (n =? -1) || (1 <=? n) && (n <=? 16) then [u8 (n + (OP_1 - 1))]
  else if n =? 0 then [OP_0]
  else push_data (serialize n).

(** ** Reading scripts *)

(** The operand of a push opcode: its length and the script behind the length. *)
Definition push_size (opcode : Z) (pc : CScript) : option (Z * CScript) :=
  if opcode <? OP_PUSHDATA1 then Some (opcode, pc)
  else if opcode =? OP_PUSHDATA1 then
    if size pc <? 1 then None else Some (ReadLE (take 1 pc), drop 1 pc)
  else if opcode =? OP_PUSHDATA2 then
    if size pc <? 2 then None else Some (ReadLE (take 2 pc), drop 2 pc)
  else
    if size pc <? 4 then None else Some (ReadLE (take 4 pc), drop 4 pc).

(** [None] is the result [false]; no caller uses [pc] after it. *)
Definition GetOp2 (pc : CScript) : option (Z * valtype * CScript) :=
  match pc with
  | [] => None
  | opcode :: pc =>
      if opcode <=? OP_PUSHDATA4 then
        '(nSize, pc) ← push_size opcode pc;
        if size pc <? nSize then None
        else Some (opcode, take (Z.to_nat nSize) pc, drop (Z.to_nat nSize) pc)
      else Some (opcode, [], pc)
  end.

Definition DecodeOP_N (opcode : Z) : option Z :=
  if opcode =? OP_0 then Some 0
  else if (OP_1 <=? opcode) && (opcode <=? OP_16) then Some (opcode - (OP_1 - 1))
  else None.

Definition EncodeOP_N (n : Z) : option Z :=
  if (0 <=? n) && (n <=? 16) then Some (if n =? 0 then OP_0 else OP_1 + n - 1) else None.

(** The inner loop of [FindAndDelete]: skip the copies of [b] at [pc].  [b] is
    not empty, so the length of [pc] bounds the rounds. *)
Fixpoint skip_matches (fuel : nat) (b pc : CScript) (nFound : Z) : CScript * Z :=
  match fuel with
  | O => (pc, nFound)
  | S fuel =>
      if (size b <=? size pc) && bool_decide (take (length b) pc = b)
      then skip_matches fuel b (drop (length b) pc) (nFound + 1)
      else (pc, nFound)
  end.

(** The outer loop; returns [result], [pc2] and [nFound].  Every round but the
    last reads an instruction, so the length of the script bounds the rounds. *)
Fixpoint FindAndDelete_loop (fuel : nat) (b pc2 pc result : CScript) (nFound : Z) : CScript * CScript * Z :=
  let result := result ++ take (length pc2 - length pc) pc2 in
  let '(pc, nFound) := skip_matches (length pc) b pc nFound in
  match fuel with
  | O => (result, pc, nFound)
  | S fuel =>
      match GetOp2 pc with
      | None => (result, pc, nFound)
      | Some (_, _, pc') => FindAndDelete_loop fuel b pc pc' result nFound
      end
  end.

(** The script after the call, and the number of copies found. *)
Definition FindAndDelete (script b : CScript) : CScript * Z :=
  match b with
  | [] => (script, 0)
  | _ =>
      let '(result, pc2, nFound) := FindAndDelete_loop (length script) b script script [] 0 in
      if 0 <? nFound then (result ++ pc2, nFound) else (script, nFound)
  end.

Fixpoint Find_loop (fuel : nat) (op : Z) (pc : CScript) (nFound : Z) : Z :=
  match fuel with
  | O => nFound
  | S fuel =>
      match GetOp2 pc with
      | None => nFound
      | Some (opcode, _, pc) => Find_loop fuel op pc (if opcode =? op then nFound + 1 else nFound)
      end
  end.
Definition Find (script : CScript) (op : Z) : Z := Find_loop (length script) op script 0.

Fixpoint GetSigOpCount_loop (fuel : nat) (fAccurate : bool) (pc : CScript) (lastOpcode n : Z) : Z :=
  match fuel with
  | O => n
  | S fuel =>
      match GetOp2 pc with
      | None => n
      | Some (opcode, _, pc) =>
          let n :=
            if (opcode =? OP_CHECKSIG) || (opcode =? OP_CHECKSIGVERIFY) then u32 (n + 1)
            else if (opcode =? OP_CHECKMULTISIG) || (opcode =? OP_CHECKMULTISIGVERIFY) then
              if fAccurate && (OP_1 <=? lastOpcode) && (lastOpcode <=? OP_16)
              then u32 (n + (lastOpcode - (OP_1 - 1))) else u32 (n + 20)
            else n in
          GetSigOpCount_loop fuel fAccurate pc opcode n
      end
  end.
Definition GetSigOpCount (script : CScript) (fAccurate : bool) : Z :=
  GetSigOpCount_loop (length script) fAccurate script OP_INVALIDOPCODE 0.

(** ** Script templates *)

Definition at_ (s : CScript) (i : nat) (b : Z) : bool := nth i s 0 =? b.

Definition IsPayToPublicKeyHash (s : CScript) : bool :=
  (size s =? 25) && at_ s 0 OP_DUP && at_ s 1 OP_HASH160 && at_ s 2 0x14 &&
  at_ s 23 OP_EQUALVERIFY && at_ s 24 OP_CHECKSIG.

Definition IsPayToScriptHash (s : CScript) : bool :=
  (size s =? 23) && at_ s 0 OP_HASH160 && at_ s 1 0x14 && at_ s 22 OP_EQUAL.

Definition IsPayToColdStaking (g_newP2CSRules : bool) (s : CScript) : bool :=
  (size s =? 51) &&
  (negb g_newP2CSRules || at_ s 0 OP_DUP) &&
  (negb g_newP2CSRules || at_ s 1 OP_HASH160) &&
  at_ s 2 OP_ROT &&
  (negb g_newP2CSRules || at_ s 3 OP_IF) &&
  at_ s 4 OP_CHECKCOLDSTAKEVERIFY &&
  at_ s 5 0x14 &&
  (negb g_newP2CSRules || at_ s 26 OP_ELSE) &&
  at_ s 27 0x14 &&
  (negb g_newP2CSRules || at_ s 48 OP_ENDIF) &&
  at_ s 49 OP_EQUALVERIFY &&
  at_ s 50 OP_CHECKSIG.

Definition IsPayToPublicKey (s : CScript) : bool :=
  if size s =? 35 then (at_ s 1 0x02 || at_ s 1 0x03) && at_ s 34 OP_CHECKSIG
  else if size s =? 67 then at_ s 1 0x04 && at_ s 66 OP_CHECKSIG
  else false.

Definition StartsWithOpcode (s : CScript) (opcode : Z) : bool :=
  match s with [] => false | b :: _ => b =? opcode end.

Definition IsPayAssetScriptHash (s : CScript) : bool :=
  (size s =? 26) && at_ s 0 OP_DUP && at_ s 1 OP_HASH160 && at_ s 2 OP_ASSETSMINT &&
  at_ s 24 OP_EQUALVERIFY && at_ s 25 OP_CHECKSIG.

Definition IsPayAssetDposScript (s : CScript) : bool :=
  (size s =? 51) && at_ s 2 OP_ROT && at_ s 4 OP_DPOSASSETSMINT && at_ s 5 0x14 &&
  at_ s 27 0x14 && at_ s 49 OP_EQUALVERIFY && at_ s 50 OP_CHECKSIG.

Definition IsMultiMiningSpend (s : CScript) : bool := StartsWithOpcode s OP_ASSETSSPEND.

Definition IsUnspendable (s : CScript) : bool :=
  (0 <? size s) && (nth 0 s 0 =? OP_RETURN) || (MAX_SCRIPT_SIZE <? size s).

Fixpoint IsPushOnly_loop (fuel : nat) (pc : CScript) : bool :=
  match pc, fuel with
  | [], _ => true
  | _, O => false
  | _, S fuel =>
      match GetOp2 pc with
      | None => false
      | Some (opcode, _, pc) => if OP_16 <? opcode then false else IsPushOnly_loop fuel pc
      end
  end.
Definition IsPushOnly (s : CScript) : bool := IsPushOnly_loop (length s) s.

(** [GetSigOpCount(scriptSig)]: the last element a push-only [scriptSig]
    pushes; [None] where the function returns zero at once. *)
Fixpoint last_push_loop (fuel : nat) (pc : CScript) (data : valtype) : option valtype :=
  match pc, fuel with
  | [], _ => Some data
  | _, O => None
  | _, S fuel =>
      match GetOp2 pc with
      | None => None
      | Some (opcode, data, pc) => if OP_16 <? opcode then None else last_push_loop fuel pc data
      end
  end.
Definition GetSigOpCount_p2sh (script scriptSig : CScript) : Z :=
  if negb (IsPayToScriptHash script) then GetSigOpCount script true
  else match last_push_loop (length scriptSig) scriptSig [] with
       | None => 0
       | Some data => GetSigOpCount data true
       end.

(** ** Little-endian numbers *)

Lemma byte_cases (P : Z → bool) c :
  forallb P (seqZ 0 256) = true → is_u8 c → P c = true.
Proof.
  intros H Hc. rewrite forallb_forall in H. apply H.
  apply list_elem_of_In, elem_of_seqZ. mlia.
Qed.

Lemma ReadLE_app l k : ReadLE (l ++ k) = ReadLE l + 256 ^ size l * ReadLE k.
Proof.
  induction l as [|b l IH]; cbn [ReadLE app length]; [lia|].
  rewrite IH, Nat2Z.inj_succ, Z.pow_succ_r by lia. ring.
Qed.

Lemma ReadLE_bound l : bytes l → 0 <= ReadLE l < 256 ^ size l.
Proof.
  induction 1 as [|b l Hb _ IH]; cbn [ReadLE length]; [done|].
  rewrite Nat2Z.inj_succ, Z.pow_succ_r by lia. mlia.
Qed.

Lemma ReadLE_WriteLE n x : 0 <= x < 256 ^ Z.of_nat n → ReadLE (WriteLE n x) = x.
Proof.
  revert x; induction n as [|n IH]; intros x Hx; cbn [ReadLE WriteLE]; [cbn in Hx; lia|].
  rewrite Nat2Z.inj_succ, Z.pow_succ_r in Hx by lia.
  rewrite IH; [|split; [apply Z.div_pos|apply Z.div_lt_upper_bound]; lia].
  pose proof (Z.div_mod x 256). lia.
Qed.

Lemma WriteLE_length n x : length (WriteLE n x) = n.
Proof. revert x; induction n as [|n IH]; intros x; cbn; [done|]. by rewrite IH. Qed.

Lemma WriteLE_bytes n x : bytes (WriteLE n x).
Proof.
  revert x; induction n as [|n IH]; intros x; constructor; [|apply IH].
  apply (Z.mod_pos_bound x 256). lia.
Qed.

Lemma bytes_app l k : bytes (l ++ k) ↔ bytes l ∧ bytes k.
Proof. apply Forall_app. Qed.

(** ** Script numbers *)

Lemma back_snoc l c : back (l ++ [c]) = c.
Proof. unfold back. apply List.last_last. Qed.

Lemma set_back_snoc l c d : set_back (l ++ [c]) d = l ++ [d].
Proof. unfold set_back. by rewrite List.removelast_last. Qed.

Lemma snoc_cases {A} (l : list A) : l = [] ∨ ∃ k c, l = k ++ [c].
Proof. destruct l using rev_ind; eauto. Qed.

Lemma set_vch_loop_spec vch i r :
  bytes vch → 0 <= i → i + size vch <= 7 → 0 <= r < 2 ^ (8 * i) →
  set_vch_loop i vch r = r + 2 ^ (8 * i) * ReadLE vch.
Proof.
  intros Hb. revert i r; induction Hb as [|b vch Hb _ IH]; intros i r Hi Hl Hr;
    cbn [set_vch_loop ReadLE length] in *; [lia|].
  rewrite Nat2Z.inj_succ in Hl.
  assert (2 ^ (8 * (i + 1)) = 256 * 2 ^ (8 * i)) as E.
  { replace (8 * (i + 1)) with (8 + 8 * i) by lia. rewrite Z.pow_add_r by lia. done. }
  assert (2 ^ (8 * i) <= 2 ^ 48) by (apply Z.pow_le_mono_r; lia).
  rewrite i64_id.
  - rewrite lor_add_shift by lia. rewrite IH; [rewrite E; ring|lia|lia|].
    rewrite E. unfold is_u8 in Hb. nia.
  - rewrite Z.shiftl_mul_pow2 by lia. unfold is_u8 in Hb. unfold is_i64.
    split; [nia|]. apply Z.le_lt_trans with (255 * 2 ^ 48); [nia|done].
Qed.

(** The number a vector of at most seven bytes stands for: little-endian
    magnitude, with the sign in the top bit of the last byte. *)
Definition sign_magnitude (vch : valtype) : Z :=
  match vch with
  | [] => 0
  | _ => if back vch <? 128 then ReadLE vch else - ReadLE (set_back vch (back vch - 128))
  end.

Lemma clear_sign_bit lo c k :
  0 <= k <= 48 → 0 <= lo < 2 ^ k → 128 <= c < 256 →
  i64 (Z.land (u64 (lo + 2 ^ k * c)) (u64 (Z.lnot (u64 (Z.shiftl 0x80 k))))) = lo + 2 ^ k * (c - 128).
Proof.
  intros Hk Hlo Hc.
  assert (2 ^ k <= 2 ^ 48) by (apply Z.pow_le_mono_r; lia).
  rewrite (Z.shiftl_mul_pow2 _ k) by lia.
  assert (2 ^ (k + 7) = 128 * 2 ^ k) as E by (rewrite Z.pow_add_r by lia; lia).
  rewrite (u64_id (lo + _)), (u64_id (0x80 * 2 ^ k)) by (unfold is_u64; split; nia).
  rewrite <- E.
  set (r := lo + 2 ^ k * c).
  assert (0 <= r < 2 ^ 56) as Hr by (unfold r; change (2 ^ 56) with (2 ^ 48 * 256); nia).
  assert (Z.land r (u64 (Z.lnot (2 ^ (k + 7)))) = Z.ldiff r (2 ^ (k + 7))) as ->.
  { apply Z.bits_inj'. intros n Hn. rewrite Z.land_spec, Z.ldiff_spec.
    destruct (decide (n < 64)).
    - unfold u64. rewrite Z.mod_pow2_bits_low, Z.lnot_spec by lia. done.
    - rewrite (testbit_above r 56) by lia. done. }
  rewrite <- Z.sub_nocarry_ldiff.
  - rewrite i64_id; [rewrite E; unfold r; lia|]. rewrite E.
    assert (128 * 2 ^ k <= r) by (unfold r; nia). mlia.
  - apply Z.bits_inj'. intros n Hn. rewrite Z.ldiff_spec, Z.bits_0.
    destruct (decide (n = k + 7)) as [->|]; [|rewrite Z.pow2_bits_false by lia; done].
    assert (Z.testbit r (k + 7) = true) as ->; [|by rewrite andb_false_r].
    apply Z.testbit_true; [lia|]. rewrite E.
    replace (r / (128 * 2 ^ k)) with 1; [done|].
    apply Z.div_unique with (r - 128 * 2 ^ k); [left|lia]. unfold r. nia.
Qed.

Lemma land_128 c : is_u8 c → (Z.land c 0x80 =? 0) = (c <? 128).
Proof.
  intros Hc. apply eqb_prop.
  by apply (byte_cases (λ c, Bool.eqb (Z.land c 0x80 =? 0) (c <? 128))).
Qed.

Lemma land_127 c : is_u8 c → (Z.land c 0x7f =? 0) = (c =? 0) || (c =? 128).
Proof.
  intros Hc. apply eqb_prop.
  by apply (byte_cases (λ c, Bool.eqb (Z.land c 0x7f =? 0) ((c =? 0) || (c =? 128)))).
Qed.

Lemma pow256 n : 0 <= n → 2 ^ (8 * n) = 256 ^ n.
Proof. intros. rewrite Z.pow_mul_r by lia. done. Qed.

Lemma set_vch_spec vch : bytes vch → size vch <= 7 → set_vch vch = sign_magnitude vch.
Proof.
  intros Hb Hl. destruct (snoc_cases vch) as [->|(l & c & ->)]; [done|].
  apply bytes_app in Hb as Hb'. destruct Hb' as [Hbl Hc]. inversion_clear Hc as [|? ? Hc' _].
  rewrite length_app in Hl. cbn [length] in Hl.
  assert (set_vch_loop 0 (l ++ [c]) 0 = ReadLE (l ++ [c])) as Eloop.
  { rewrite set_vch_loop_spec; rewrite ?length_app; cbn [length]; [|done..]. cbn. lia. }
  unfold set_vch, sign_magnitude. destruct (l ++ [c]) eqn:E; [by destruct l|]. rewrite <- E in *. clear E.
  rewrite Eloop, back_snoc, set_back_snoc, land_128 by done.
  destruct (Z.ltb_spec c 128); cbn [negb]; [done|].
  rewrite length_app, !ReadLE_app. cbn [ReadLE length].
  rewrite <- pow256 by lia.
  replace (8 * (Z.of_nat (length l + 1) - 1)) with (8 * size l) by lia.
  rewrite !Z.mul_0_r, !Z.add_0_r, clear_sign_bit; [lia|lia| |mlia].
  rewrite pow256 by lia. by apply ReadLE_bound.
Qed.

Lemma abs_bytes_spec fuel a :
  0 <= a < 256 ^ Z.of_nat fuel →
  bytes (abs_bytes fuel a) ∧ ReadLE (abs_bytes fuel a) = a ∧ (a ≠ 0 → back (abs_bytes fuel a) ≠ 0).
Proof.
  revert a; induction fuel as [|fuel IH]; intros a Ha; cbn [abs_bytes]; [cbn in Ha; assert (a = 0) as -> by lia; by split_and!; [constructor|..]|].
  rewrite Nat2Z.inj_succ, Z.pow_succ_r in Ha by lia.
  destruct (Z.eqb_spec a 0) as [->|Hnz]; [by split_and!; [constructor|..]|].
  assert (Z.land a 0xff = a mod 256) as -> by apply (Z.land_ones a 8 ltac:(done)).
  rewrite Z.shiftr_div_pow2 by done. change (2 ^ 8) with 256.
  destruct (IH (a / 256)) as (Hb & He & Hk).
  { split; [apply Z.div_pos|apply Z.div_lt_upper_bound]; lia. }
  pose proof (Z.mod_pos_bound a 256 eq_refl). pose proof (Z.div_mod a 256).
  split_and!.
  - constructor; [|done]. mlia.
  - cbn [ReadLE]. lia.
  - intros _. unfold back in *. destruct (abs_bytes fuel (a / 256)) as [|x l] eqn:El.
    + cbn in He |- *. lia.
    + change (List.last (a mod 256 :: x :: l) 0) with (List.last (x :: l) 0). apply Hk.
      intros E0. rewrite E0 in El. by destruct fuel.
Qed.

Lemma abs_bytes_ReadLE fuel l :
  bytes l → (length l <= fuel)%nat → (l ≠ [] → back l ≠ 0) → abs_bytes fuel (ReadLE l) = l.
Proof.
  intros Hb. revert fuel; induction Hb as [|b l Hb Hbl IH]; intros fuel Hf Hk.
  { by destruct fuel. }
  destruct fuel as [|fuel]; cbn [length] in Hf; [lia|]. cbn [abs_bytes ReadLE].
  pose proof (ReadLE_bound l Hbl).
  assert (b + 256 * ReadLE l ≠ 0) as Hnz.
  { destruct l as [|x l]; [cbn in *; specialize (Hk ltac:(done)); lia|].
    pose proof (IH (length (x :: l)) (le_n _)) as E. intros E0.
    assert (ReadLE (x :: l) = 0) as E1 by mlia.
    rewrite E1 in E. cbn in E. specialize (Hk ltac:(done)). by specialize (E ltac:(done)). }
  destruct (Z.eqb_spec (b + 256 * ReadLE l) 0); [done|].
  assert (Z.land (b + 256 * ReadLE l) 0xff = b) as ->.
  { rewrite (Z.land_ones _ 8 ltac:(done)). mlia. }
  rewrite Z.shiftr_div_pow2 by done.
  assert ((b + 256 * ReadLE l) / 2 ^ 8 = ReadLE l) as -> by mlia.
  f_equal. apply IH; [lia|]. intros Hl. destruct l; [done|]. by apply Hk.
Qed.

Lemma minimal_snoc l c :
  is_u8 c → bytes l →
  minimally_encoded (l ++ [c]) = true ↔ (c ≠ 0 ∧ c ≠ 128) ∨ ∃ k d, l = k ++ [d] ∧ 128 <= d.
Proof.
  intros Hc Hl. unfold minimally_encoded. rewrite back_snoc, land_127, length_app by done. cbn [length].
  destruct (snoc_cases l) as [->|(k & d & ->)].
  - change (Z.of_nat (length [] + 1)) with 1.
    split; [intros H; left; lia|]. intros [?|(k&d&E&_)]; [lia|by destruct k].
  - apply bytes_app in Hl as [_ Hd]. inversion_clear Hd as [|? ? Hd' _].
    rewrite length_app. cbn [length].
    replace (length k + 1 + 1 - 2)%nat with (length k) by lia.
    rewrite <- app_assoc, app_nth2 by lia. replace (length k - length k)%nat with 0%nat by lia.
    cbn [nth app]. rewrite land_128 by done. split.
    + intros H. destruct (decide (128 <= d)); [right; by exists k, d|left; lia].
    + intros [H|(k'&d'&E&H)]; [lia|]. apply app_inj_tail in E as [<- <-]. lia.
Qed.

(** The encoding of a non-zero magnitude [l] (last byte not zero) with a sign. *)
Definition with_sign (neg : bool) (l : valtype) : valtype :=
  if back l <? 128 then (if neg then set_back l (back l + 128) else l)
  else l ++ [if neg then 0x80 else 0].

Lemma serialize_spec (neg : bool) l :
  bytes l → back l ≠ 0 → (length l <= 7)%nat →
  serialize (if neg then - ReadLE l else ReadLE l) = with_sign neg l.
Proof.
  intros Hb Hk Hlen. pose proof (ReadLE_bound l Hb) as Hr.
  assert (256 ^ size l <= 256 ^ 7) by (apply Z.pow_le_mono_r; lia).
  assert (ReadLE l ≠ 0) as Hnz.
  { intros E. pose proof (abs_bytes_ReadLE 7 l Hb Hlen (λ _, Hk)) as E2. rewrite E in E2.
    cbn in E2. by subst l. }
  unfold serialize.
  destruct (Z.eqb_spec (if neg then - ReadLE l else ReadLE l) 0); [by destruct neg; lia|].
  assert (((if neg then - ReadLE l else ReadLE l) <? 0) = neg) as -> by (destruct neg; lia).
  assert ((if neg then u64 (u64 (Z.lnot (u64 (if neg then - ReadLE l else ReadLE l))) + 1)
          else u64 (if neg then - ReadLE l else ReadLE l)) = ReadLE l) as ->.
  { destruct neg; [|apply u64_id; mlia]. unfold Z.lnot. mlia. }
  rewrite (abs_bytes_ReadLE 8) by (done || lia).
  unfold with_sign.
  destruct (snoc_cases l) as [->|(k & c & ->)]; [done|].
  apply bytes_app in Hb as [_ Hc]. inversion_clear Hc as [|? ? Hc' _].
  rewrite !back_snoc, land_128 by done.
  destruct (Z.ltb_spec c 128); cbn [negb]; [|done].
  destruct neg; [|done]. f_equal. apply (lor_add_shift c 1 7); [done|mlia].
Qed.

Lemma with_sign_spec neg l :
  bytes l → back l ≠ 0 → l ≠ [] →
  bytes (with_sign neg l) ∧ minimally_encoded (with_sign neg l) = true ∧
  sign_magnitude (with_sign neg l) = if neg then - ReadLE l else ReadLE l.
Proof.
  intros Hb Hk Hnil. destruct (snoc_cases l) as [->|(k & c & ->)]; [done|].
  apply bytes_app in Hb as Hb'. destruct Hb' as [Hbk Hc]. inversion_clear Hc as [|? ? Hc' _].
  unfold with_sign, sign_magnitude. rewrite !back_snoc, !set_back_snoc in *.
  assert (∀ l d, match l ++ [d] with [] => 0 | _ :: _ => if back (l ++ [d]) <? 128 then ReadLE (l ++ [d])
      else - ReadLE (set_back (l ++ [d]) (back (l ++ [d]) - 128)) end
      = if d <? 128 then ReadLE (l ++ [d]) else - ReadLE (l ++ [d - 128])) as Esm.
  { intros l d. destruct (l ++ [d]) eqn:E; [by destruct l|]. rewrite <- E, back_snoc, set_back_snoc. done. }
  destruct (Z.ltb_spec c 128).
  - destruct neg.
    + rewrite Esm, minimal_snoc by (done || mlia). split_and!.
      * apply bytes_app. split; [done|]. constructor; [mlia|done].
      * left. mlia.
      * rewrite (proj2 (Z.ltb_ge _ _)) by mlia. by replace (c + 128 - 128) with c by lia.
    + rewrite Esm, minimal_snoc by done. split_and!; [done|left; lia|].
      by rewrite (proj2 (Z.ltb_lt _ _)) by lia.
  - rewrite Esm, minimal_snoc by (done || by destruct neg).
    split_and!.
    + apply bytes_app. split; [done|]. constructor; [by destruct neg|done].
    + right. eauto.
    + destruct neg; cbn; rewrite (ReadLE_app (k ++ [c])); cbn; lia.
Qed.

Lemma sign_magnitude_snoc l c :
  sign_magnitude (l ++ [c]) = if c <? 128 then ReadLE (l ++ [c]) else - ReadLE (l ++ [c - 128]).
Proof.
  unfold sign_magnitude. destruct (l ++ [c]) eqn:E; [by destruct l|].
  by rewrite <- E, back_snoc, set_back_snoc.
Qed.

Lemma pow_half n : 1 <= n → 2 ^ (8 * n - 1) = 128 * 256 ^ (n - 1).
Proof.
  intros. replace (8 * n - 1) with (7 + 8 * (n - 1)) by lia.
  by rewrite Z.pow_add_r, pow256 by lia.
Qed.

Lemma sign_magnitude_range vch n :
  bytes vch → 1 <= n → size vch <= n → Z.abs (sign_magnitude vch) < 2 ^ (8 * n - 1).
Proof.
  intros Hb Hn Hl. rewrite pow_half by done.
  destruct (snoc_cases vch) as [->|(l & c & ->)]; [change (Z.abs _) with 0; lia|].
  apply bytes_app in Hb as [Hbl Hc]. inversion_clear Hc as [|? ? Hc' _].
  rewrite length_app in Hl. cbn [length] in Hl.
  assert (256 ^ size l <= 256 ^ (n - 1)) by (apply Z.pow_le_mono_r; lia).
  pose proof (ReadLE_bound l Hbl). rewrite sign_magnitude_snoc, !ReadLE_app. cbn [ReadLE].
  unfold is_u8 in Hc'. destruct (Z.ltb_spec c 128); nia.
Qed.

Lemma serialize_sign_magnitude vch :
  bytes vch → size vch <= 7 → minimally_encoded vch = true → serialize (sign_magnitude vch) = vch.
Proof.
  intros Hb Hl Hmin. destruct (snoc_cases vch) as [->|(l & c & ->)]; [done|].
  apply bytes_app in Hb as Hb'. destruct Hb' as [Hbl Hc]. inversion_clear Hc as [|? ? Hc' _].
  rewrite length_app in Hl. cbn [length] in Hl.
  apply minimal_snoc in Hmin; [|done..]. rewrite sign_magnitude_snoc.
  destruct (decide (c = 0 ∨ c = 128)) as [Hz|].
  - destruct Hmin as [[? ?]|(k & d & -> & Hd)]; [by destruct Hz|].
    assert (serialize (if c =? 128 then - ReadLE (k ++ [d]) else ReadLE (k ++ [d])) = (k ++ [d]) ++ [c]) as E.
    { rewrite (serialize_spec (c =? 128)); [|done|rewrite back_snoc; lia|lia].
      unfold with_sign. rewrite back_snoc, (proj2 (Z.ltb_ge _ _)) by done.
      by destruct Hz as [-> | ->]. }
    rewrite <- E at 2. f_equal. destruct Hz as [-> | ->]; cbn; rewrite (ReadLE_app (k ++ [d])); cbn; lia.
  - destruct (Z.ltb_spec c 128) as [Hs|Hs].
    + rewrite (serialize_spec false); [|done|rewrite back_snoc; lia|rewrite length_app; cbn; lia].
      unfold with_sign. rewrite back_snoc. by rewrite (proj2 (Z.ltb_lt _ _)).
    + rewrite (serialize_spec true).
      * unfold with_sign. rewrite back_snoc, set_back_snoc, (proj2 (Z.ltb_lt _ _)) by mlia.
        by replace (c - 128 + 128) with c by lia.
      * apply bytes_app. split; [done|]. constructor; [mlia|done].
      * rewrite back_snoc. lia.
      * rewrite length_app. cbn. lia.
Qed.

Lemma serialize_value v n :
  1 <= n <= 7 → Z.abs v < 2 ^ (8 * n - 1) →
  bytes (serialize v) ∧ size (serialize v) <= n ∧
  minimally_encoded (serialize v) = true ∧ sign_magnitude (serialize v) = v.
Proof.
  intros Hn Hv. destruct (decide (v = 0)) as [->|Hnz].
  { split_and!; [constructor|cbn; lia|done|done]. }
  rewrite pow_half in Hv by lia.
  assert (256 ^ (n - 1) <= 256 ^ 6) by (apply Z.pow_le_mono_r; lia).
  destruct (abs_bytes_spec 7 (Z.abs v)) as (Hb & Hr & Hk); [lia|].
  specialize (Hk ltac:(lia)). set (l := abs_bytes 7 (Z.abs v)) in *.
  assert (length l <= 7)%nat as Hlen.
  { unfold l. clear. generalize 7%nat (Z.abs v). intros k; induction k as [|k IH]; intros a; cbn; [done|].
    destruct (a =? 0); cbn; [lia|]. specialize (IH (a ≫ 8)). lia. }
  assert (v = if v <? 0 then - ReadLE l else ReadLE l) as Ev by (destruct (Z.ltb_spec v 0); lia).
  rewrite Ev, (serialize_spec (v <? 0)) by done. 
  assert (l ≠ []) as Hl by (intros E; rewrite E in Hr; cbn in Hr; lia).
  destruct (with_sign_spec (v <? 0) l Hb Hk Hl) as (? & ? & ?).
  split_and!; [done| |done|by rewrite <- Ev in *].
  destruct (snoc_cases l) as [E|(k & c & E)]; [done|]. rewrite E in *.
  apply bytes_app in Hb as [Hbk Hc]. inversion_clear Hc as [|? ? Hc' _].
  rewrite ReadLE_app in Hr. cbn [ReadLE] in Hr. rewrite back_snoc in Hk.
  pose proof (ReadLE_bound k Hbk).
  assert (256 ^ size k < 128 * 256 ^ (n - 1)) by (unfold is_u8 in *; nia).
  assert (size k <= n - 1) as Hkn.
  { destruct (Z.le_gt_cases (size k) (n - 1)); [done|].
    assert (256 ^ (1 + (n - 1)) <= 256 ^ size k) as Hp by (apply Z.pow_le_mono_r; lia).
    rewrite Z.pow_add_r in Hp by lia. lia. }
  unfold with_sign. rewrite back_snoc, set_back_snoc.
  destruct (Z.ltb_spec c 128); [destruct (v <? 0); rewrite length_app; cbn; lia|].
  rewrite !length_app. cbn.
  destruct (decide (size k = n - 1)) as [Ek|]; [|lia]. rewrite Ek in *. nia.
Qed.

(** script numbers of at most [n] bytes and the integers of absolute value
    below [2 ^ (8 n - 1)] are in bijection: [serialize] produces the one
    encoding the minimality check of the constructor accepts, and every vector
    accepted decodes to a number in range that [serialize] takes back to it;
    without the minimality check the range still holds. *)
Theorem CScriptNum_encoding_bijective (n : Z) :
  1 <= n <= 7 →
  (∀ v, Z.abs v < 2 ^ (8 * n - 1) →
    bytes (serialize v) ∧ CScriptNum_of_vch (serialize v) true n = Some v) ∧
  (∀ vch v, bytes vch → CScriptNum_of_vch vch true n = Some v → serialize v = vch) ∧
  (∀ vch v b, bytes vch → CScriptNum_of_vch vch b n = Some v → Z.abs v < 2 ^ (8 * n - 1)).
Proof.
  intros Hn. unfold CScriptNum_of_vch. split_and!.
  - intros v Hv. destruct (serialize_value v n) as (Hb & Hl & Hm & Hs); [done..|].
    split; [done|]. rewrite (proj2 (Z.ltb_ge _ _)) by done.
    by rewrite Hm, set_vch_spec, Hs by (done || lia).
  - intros vch v Hb. destruct (Z.ltb_spec n (size vch)); [done|].
    destruct (minimally_encoded vch) eqn:E; [|done]. intros [= <-].
    rewrite set_vch_spec by (done || lia). apply serialize_sign_magnitude; (done || lia).
  - intros vch v b Hb. destruct (Z.ltb_spec n (size vch)); [done|].
    destruct (b && _); [done|]. intros [= <-].
    rewrite set_vch_spec by (done || lia). apply sign_magnitude_range; (done || lia).
Qed.

Lemma CScriptNum_encoding_bijective_witness :
  (1 <= 4 <= 7) ∧ serialize (-255) = [0xff; 0x80] ∧
  CScriptNum_of_vch (serialize (-255)) true 4 = Some (-255).
Proof.
  split; [lia|]. split; [done|].
  apply (CScriptNum_encoding_bijective 4 ltac:(lia)). done.
Defined.

(** ** The instruction decoder *)

Lemma push_size_app opcode pc nSize r :
  push_size opcode pc = Some (nSize, r) → ∃ pre, pc = pre ++ r ∧ (length pre <= 4)%nat.
Proof.
  unfold push_size. intros H.
  repeat case_match; simplify_eq;
    [exists []; split; [done|cbn; lia]|eexists (take 1 pc)|eexists (take 2 pc)|eexists (take 4 pc)];
    (split; [by rewrite take_drop|rewrite length_take; lia]).
Qed.

(** An instruction is its opcode, at most four bytes of length, and its operand. *)
Lemma GetOp2_app pc op v r :
  GetOp2 pc = Some (op, v, r) → ∃ pre, pc = op :: pre ++ v ++ r ∧ (length pre <= 4)%nat.
Proof.
  unfold GetOp2. destruct pc as [|o pc]; [done|].
  destruct (o <=? OP_PUSHDATA4).
  - destruct (push_size o pc) as [[n pc']|] eqn:E; cbn [mbind option_bind]; [|done].
    apply push_size_app in E as (pre & -> & Hp).
    destruct (size pc' <? n); [done|]. intros [= -> <- <-].
    exists pre. by rewrite take_drop.
  - intros [= -> <- <-]. exists []. split; [done|cbn; lia].
Qed.

Lemma GetOp2_shorter pc op v r : GetOp2 pc = Some (op, v, r) → (length r + length v < length pc)%nat.
Proof. intros (pre & -> & _)%GetOp2_app. cbn. rewrite !length_app. lia. Qed.

(** The instructions of a script and the bytes left where decoding stops. *)
Fixpoint decode (fuel : nat) (pc : CScript) : list (Z * valtype) * CScript :=
  match fuel with
  | O => ([], pc)
  | S fuel =>
      match GetOp2 pc with
      | None => ([], pc)
      | Some (op, v, r) => let '(l, rest) := decode fuel r in ((op, v) :: l, rest)
      end
  end.
Definition instructions (s : CScript) : list (Z * valtype) * CScript := decode (length s) s.

Lemma decode_fuel f g pc : (length pc <= f)%nat → (length pc <= g)%nat → decode f pc = decode g pc.
Proof.
  revert g pc; induction f as [|f IH]; intros g pc Hf Hg.
  - destruct pc; [by destruct g|cbn in Hf; lia].
  - destruct g as [|g]; [destruct pc; [done|cbn in Hg; lia]|]. cbn.
    destruct (GetOp2 pc) as [[[op v] r]|] eqn:E; [|done].
    apply GetOp2_shorter in E. by rewrite (IH g) by lia.
Qed.

Lemma instructions_cons pc op v r :
  GetOp2 pc = Some (op, v, r) →
  instructions pc = ((op, v) :: (instructions r).1, (instructions r).2).
Proof.
  intros E. unfold instructions. pose proof (GetOp2_shorter _ _ _ _ E).
  destruct (length pc) as [|m]; [lia|]. cbn. rewrite E, (decode_fuel m (length r)) by lia.
  by destruct (decode (length r) r).
Qed.

Lemma instructions_stop pc : GetOp2 pc = None → instructions pc = ([], pc).
Proof. intros E. unfold instructions. destruct (length pc); cbn; [done|]. by rewrite E. Qed.

(** Induction over a script, one instruction at a time. *)
Lemma script_ind (P : CScript → Prop) :
  (∀ pc, GetOp2 pc = None → P pc) →
  (∀ pc op v r, GetOp2 pc = Some (op, v, r) → P r → P pc) →
  ∀ pc, P pc.
Proof.
  intros Hstop Hstep pc. remember (length pc) as n eqn:Hn.
  revert pc Hn; induction (lt_wf n) as [n _ IH]; intros pc ->.
  destruct (GetOp2 pc) as [[[op v] r]|] eqn:E; [|by apply Hstop].
  apply (Hstep _ _ _ _ E). pose proof (GetOp2_shorter _ _ _ _ E). apply (IH (length r)); [lia|done].
Qed.

Lemma IsPushOnly_fuel f pc :
  (length pc <= f)%nat →
  IsPushOnly_loop f pc = bool_decide ((instructions pc).2 = []) && forallb (λ i, i.1 <=? OP_16) (instructions pc).1.
Proof.
  revert f; induction pc as [pc E|pc op v r E IH] using script_ind; intros f Hf.
  - rewrite instructions_stop by done. destruct pc as [|b pc]; [by destruct f|].
    destruct f as [|f]; [done|]. cbn [IsPushOnly_loop]. rewrite E. done.
  - rewrite (instructions_cons _ _ _ _ E). cbn [fst snd forallb].
    pose proof (GetOp2_shorter _ _ _ _ E) as Hs.
    destruct pc as [|b pc]; [done|]. destruct f as [|f]; [cbn in Hf; lia|].
    cbn [IsPushOnly_loop]. rewrite E. destruct (Z.ltb_spec OP_16 op).
    + rewrite (proj2 (Z.leb_gt _ _)) by done. by rewrite andb_false_r.
    + rewrite (proj2 (Z.leb_le _ _)) by done. apply IH. cbn in *. lia.
Qed.

Lemma last_cons_default {A} (x d : A) l : List.last (x :: l) d = List.last l x.
Proof. revert x d; induction l as [|y l IH]; intros x d; [done|]. exact (eq_trans (IH y d) (eq_sym (IH y x))). Qed.

Lemma last_push_fuel f pc data :
  (length pc <= f)%nat → IsPushOnly pc = true →
  last_push_loop f pc data = Some (List.last (snd <$> (instructions pc).1) data).
Proof.
  revert f data; induction pc as [pc E|pc op v r E IH] using script_ind; intros f data Hf Hp;
    unfold IsPushOnly in Hp; rewrite IsPushOnly_fuel in Hp by lia.
  - rewrite instructions_stop in * by done. destruct pc as [|b pc]; [by destruct f|done].
  - rewrite (instructions_cons _ _ _ _ E) in *. cbn [fst snd forallb] in *.
    pose proof (GetOp2_shorter _ _ _ _ E) as Hs.
    destruct pc as [|b pc]; [done|]. destruct f as [|f]; [cbn in Hf; lia|].
    cbn [last_push_loop]. rewrite E.
    rewrite (proj2 (Z.ltb_ge _ _)) by lia.
    rewrite IH; [|cbn in *; lia|unfold IsPushOnly; rewrite IsPushOnly_fuel by lia; lia].
    by rewrite fmap_cons, last_cons_default.
Qed.

(** The opcode [<<] uses for a vector. *)
Definition push_opcode (b : valtype) : Z :=
  if size b <? OP_PUSHDATA1 then size b
  else if size b <=? 0xff then OP_PUSHDATA1
  else if size b <=? 0xffff then OP_PUSHDATA2 else OP_PUSHDATA4.

Lemma push_GetOp2 b rest :
  size b < 2 ^ 32 → GetOp2 (push_data b ++ rest) = Some (push_opcode b, b, rest).
Proof.
  intros Hb. unfold push_data, push_opcode.
  assert (∀ n x k, 0 <= x < 256 ^ Z.of_nat n →
    ReadLE (take n (WriteLE n x ++ k)) = x ∧ drop n (WriteLE n x ++ k) = k ∧ (size (WriteLE n x ++ k) <? Z.of_nat n) = false) as Hle.
  { intros n x k Hx. rewrite take_app_length', drop_app_length' by (by rewrite WriteLE_length).
    rewrite ReadLE_WriteLE, length_app, WriteLE_length by done. split_and!; [done..|lia]. }
  assert (∀ op, op <= OP_PUSHDATA4 →
    push_size op (drop 1 (push_data b ++ rest)) = Some (size b, b ++ rest) →
    head (push_data b ++ rest) = Some op →
    GetOp2 (push_data b ++ rest) = Some (op, b, rest)) as Hgen.
  { intros op Ho Hs Hh. unfold GetOp2. destruct (push_data b ++ rest) as [|o l]; [done|].
    cbn in Hh. injection Hh as ->. rewrite (proj2 (Z.leb_le _ _)) by done.
    change (drop 1 (op :: l)) with l in Hs. rewrite Hs. cbn [mbind option_bind].
    rewrite length_app, (proj2 (Z.ltb_ge _ _)), Nat2Z.id by lia.
    by rewrite take_app_length, drop_app_length. }
  unfold push_data in Hgen.
  destruct (Z.ltb_spec (size b) OP_PUSHDATA1).
  { apply Hgen; unfold OP_PUSHDATA1, OP_PUSHDATA4 in *; [lia| |by rewrite u8_id by mlia].
    unfold push_size. rewrite (proj2 (Z.ltb_lt _ _)) by (unfold OP_PUSHDATA1; lia). done. }
  destruct (Z.leb_spec (size b) 0xff).
  { apply Hgen; [done| |done]. cbn. rewrite u8_id by mlia.
    rewrite (proj2 (Z.ltb_ge _ _)) by lia. by rewrite take_0, drop_0, Z.add_0_r. }
  destruct (Z.leb_spec (size b) 0xffff).
  - apply Hgen; [done| |done]. rewrite <- app_assoc. cbn [app drop]. rewrite drop_0. unfold push_size.
    destruct (Hle 2%nat (size b) (b ++ rest)) as (E1 & E2 & E3); [lia|].
    change (Z.of_nat 2) with 2 in E3. by rewrite E1, E2, E3.
  - apply Hgen; [done| |done]. rewrite <- app_assoc. cbn [app drop]. rewrite drop_0. unfold push_size.
    destruct (Hle 4%nat (size b) (b ++ rest)) as (E1 & E2 & E3); [lia|].
    change (Z.of_nat 4) with 4 in E3. by rewrite E1, E2, E3.
Qed.

Lemma instructions_pushes items :
  Forall (λ b, size b < 2 ^ 32) items →
  instructions (concat (push_data <$> items)) = ((λ b, (push_opcode b, b)) <$> items, []).
Proof.
  induction 1 as [|b items Hb _ IH]; [done|]. cbn [fmap list_fmap concat].
  by rewrite (instructions_cons _ _ _ _ (push_GetOp2 b _ Hb)), IH.
Qed.

Lemma push_opcode_le b : push_opcode b <= OP_16.
Proof. unfold push_opcode. repeat case_match; unfold OP_PUSHDATA1, OP_PUSHDATA2, OP_PUSHDATA4, OP_16 in *; lia. Qed.

(** a script built with [<<] from vectors decodes, instruction by
    instruction, to exactly these vectors; [IsPushOnly] accepts it; and for a
    pay-to-script-hash output the signature operations are counted in the last
    vector pushed, the redeem script. *)
Theorem pushes_decode_back (items : list valtype) :
  Forall (λ b, size b < 2 ^ 32) items →
  let s := concat (push_data <$> items) in
  instructions s = ((λ b, (push_opcode b, b)) <$> items, []) ∧
  IsPushOnly s = true ∧
  (∀ script, IsPayToScriptHash script = true →
    GetSigOpCount_p2sh script s = GetSigOpCount (List.last items []) true).
Proof.
  intros Hs s. pose proof (instructions_pushes items Hs) as Ei.
  assert (IsPushOnly s = true) as Hp.
  { unfold IsPushOnly, s. rewrite IsPushOnly_fuel, Ei by lia. cbn [fst snd].
    rewrite bool_decide_true by done. apply forallb_forall.
    intros i (b & -> & _)%list_elem_of_In%list_elem_of_fmap. cbn. pose proof (push_opcode_le b). lia. }
  split_and!; [done..|]. intros script Hscript. unfold GetSigOpCount_p2sh. rewrite Hscript.
  rewrite last_push_fuel by done. unfold s. rewrite Ei. cbn [fst negb].
  by rewrite <- list_fmap_compose, list_fmap_id.
Qed.

Lemma pushes_decode_back_witness :
  let redeem := [OP_2; OP_CHECKMULTISIG] in
  let p2sh := [OP_HASH160; 0x14] ++ replicate 20 7 ++ [OP_EQUAL] in
  GetSigOpCount_p2sh p2sh (push_data (replicate 80 1) ++ push_data redeem) = 2.
Proof.
  assert (Forall (λ b, size b < 2 ^ 32) [replicate 80 1; [OP_2; OP_CHECKMULTISIG]]) as H by (repeat constructor).
  destruct (pushes_decode_back [replicate 80 1; [OP_2; OP_CHECKMULTISIG]] H) as (_ & _ & Hc).
  exact (Hc ([OP_HASH160; 0x14] ++ replicate 20 7 ++ [OP_EQUAL]) eq_refl).
Defined.

(** ** [FindAndDelete] *)

(** What the function should do: at an instruction boundary a copy of [b] is
    dropped, otherwise the instruction there is kept; where no instruction can
    be read the rest is kept.  [n] counts the copies. *)
Inductive deletes (b : CScript) : CScript → CScript → Z → Prop :=
  | deletes_stop pc : ¬ b `prefix_of` pc → GetOp2 pc = None → deletes b pc pc 0
  | deletes_match pc r n : deletes b pc r n → deletes b (b ++ pc) r (n + 1)
  | deletes_keep pc op v ins rest r n :
      ¬ b `prefix_of` pc → GetOp2 pc = Some (op, v, rest) → pc = ins ++ rest →
      deletes b rest r n → deletes b pc (ins ++ r) n.

Lemma skip_matches_spec fuel b pc n :
  b ≠ [] → (length pc <= fuel)%nat →
  ∃ k pc', skip_matches fuel b pc n = (pc', n + Z.of_nat k) ∧ ¬ b `prefix_of` pc' ∧
    (length pc' <= length pc)%nat ∧
    ∀ r m, deletes b pc' r m → deletes b pc r (m + Z.of_nat k).
Proof.
  intros Hb. assert (0 < length b)%nat by (destruct b; [done|cbn; lia]).
  revert pc n; induction fuel as [|fuel IH]; intros pc n Hf; cbn [skip_matches].
  - exists 0%nat, pc. destruct pc; [|cbn in Hf; lia]. split_and!; [f_equal; lia| |done|].
    + by intros ->%prefix_nil_inv.
    + intros r m Hd. by replace (m + Z.of_nat 0) with m by lia.
  - destruct ((size b <=? size pc) && bool_decide (take (length b) pc = b)) eqn:E.
    + apply andb_prop in E as [Hl Ht%bool_decide_eq_true].
      destruct (IH (drop (length b) pc) (n + 1)) as (k & pc' & E & Hnp & Hle & Hd).
      { rewrite length_drop. lia. }
      exists (S k), pc'. split_and!; [rewrite E; f_equal; lia|done|rewrite length_drop in Hle; lia|].
      intros r m Hr. rewrite <- (take_drop (length b) pc), Ht.
      replace (m + Z.of_nat (S k)) with (m + Z.of_nat k + 1) by lia. constructor. by apply Hd.
    + exists 0%nat, pc. split_and!; [f_equal; lia| |done|].
      * intros [k ->]. rewrite take_app_length, length_app, bool_decide_true in E by done. lia.
      * intros r m Hd. by replace (m + Z.of_nat 0) with m by lia.
Qed.

Lemma FindAndDelete_loop_spec fuel b pc2 pc ins acc n :
  b ≠ [] → (length pc <= fuel)%nat → pc2 = ins ++ pc →
  ∃ r k rest, FindAndDelete_loop fuel b pc2 pc acc n = (acc ++ ins ++ r, rest, n + k) ∧
    0 <= k ∧ deletes b pc (r ++ rest) k.
Proof.
  intros Hb. revert pc2 pc ins acc n; induction fuel as [|fuel IH]; intros pc2 pc ins acc n Hf ->;
    cbn [FindAndDelete_loop];
    (rewrite take_app_length' by (rewrite length_app; lia));
    (destruct (skip_matches_spec (length pc) b pc n) as (k & pc' & -> & Hnp & Hle & Hd); [done..|]).
  - exists [], (Z.of_nat k), pc'. rewrite app_nil_r. split_and!; [done|lia|].
    replace (Z.of_nat k) with (0 + Z.of_nat k) by lia. apply Hd.
    apply deletes_stop; [done|]. by destruct pc'; [|cbn in Hle; lia].
  - destruct (GetOp2 pc') as [[[op v] rest]|] eqn:E.
    + destruct (GetOp2_app _ _ _ _ E) as (pre & Epc & _).
      pose proof (GetOp2_shorter _ _ _ _ E) as Hs.
      destruct (IH pc' rest (op :: pre ++ v) (acc ++ ins) (n + Z.of_nat k)) as (r & m & rest' & E' & Hm & Hd').
      { lia. }
      { by rewrite Epc; cbn; rewrite <- app_assoc. }
      exists ((op :: pre ++ v) ++ r), (m + Z.of_nat k), rest'. split_and!; [|lia|].
      * rewrite E', <- !app_assoc. f_equal. lia.
      * apply Hd. rewrite <- app_assoc. eapply deletes_keep; [done|exact E| |done].
        rewrite Epc. cbn. by rewrite <- app_assoc.
    + exists [], (Z.of_nat k), pc'. rewrite app_nil_r. split_and!; [done|lia|].
      replace (Z.of_nat k) with (0 + Z.of_nat k) by lia. apply Hd. by apply deletes_stop.
Qed.

Lemma deletes_zero b pc r n : deletes b pc r n → 0 <= n ∧ (n = 0 → r = pc).
Proof.
  induction 1 as [|? ? ? _ [? _]|? ? ? ? ? ? ? _ _ -> _ [? IH]]; [done|lia|].
  split; [done|]. intros E. by rewrite IH.
Qed.

Lemma deletes_length b pc r n : deletes b pc r n → size r + n * size b = size pc.
Proof. induction 1 as [| |? ? ? ? ? ? ? _ _ -> _ IH]; rewrite ?length_app; lia. Qed.

Lemma deletes_sublist b pc r n : deletes b pc r n → r `sublist_of` pc.
Proof.
  induction 1 as [| |? ? ? ? ? ? ? _ _ -> _ IH]; [done|by apply sublist_inserts_l|by apply sublist_app].
Qed.

Lemma FindAndDelete_spec script b :
  b ≠ [] → deletes b script (FindAndDelete script b).1 (FindAndDelete script b).2.
Proof.
  intros Hb. unfold FindAndDelete. destruct b as [|x b']; [done|]. set (b := x :: b') in *.
  destruct (FindAndDelete_loop_spec (length script) b script script [] [] 0)
    as (r & k & rest & -> & Hk & Hd); [done..|]. rewrite Z.add_0_l.
  destruct (Z.ltb_spec 0 k); [done|]. assert (k = 0) as -> by lia. cbn [fst snd].
  destruct (deletes_zero _ _ _ _ Hd) as [_ E]. by rewrite <- E at 2.
Qed.

(** [FindAndDelete] with a non-empty pattern ends within one round per byte
    and deletes exactly the copies of the pattern that start at an instruction
    boundary; what is left is a subsequence, shorter by the pattern's length
    per copy counted, and untouched when none is found. *)
Theorem FindAndDelete_deletes_at_boundaries (script b : CScript) :
  b ≠ [] →
  let '(r, n) := FindAndDelete script b in
  deletes b script r n ∧ r `sublist_of` script ∧ size r + n * size b = size script ∧
  (n = 0 → r = script).
Proof.
  intros Hb. pose proof (FindAndDelete_spec script b Hb) as Hd.
  destruct (FindAndDelete script b) as [r n]. cbn [fst snd] in Hd.
  split_and!; [done|by eapply deletes_sublist|by apply deletes_length|apply (proj2 (deletes_zero _ _ _ _ Hd))].
Qed.

Lemma FindAndDelete_deletes_at_boundaries_witness :
  FindAndDelete [OP_DUP; OP_CODESEPARATOR; 1; OP_CODESEPARATOR; OP_CODESEPARATOR] [OP_CODESEPARATOR]
    = ([OP_DUP; 1; OP_CODESEPARATOR], 2) ∧
  deletes [OP_CODESEPARATOR] [OP_DUP; OP_CODESEPARATOR; 1; OP_CODESEPARATOR; OP_CODESEPARATOR]
    [OP_DUP; 1; OP_CODESEPARATOR] 2.
Proof.
  split; [vm_compute; reflexivity|].
  pose proof (FindAndDelete_deletes_at_boundaries
    [OP_DUP; OP_CODESEPARATOR; 1; OP_CODESEPARATOR; OP_CODESEPARATOR] [OP_CODESEPARATOR] ltac:(done)) as H.
  exact (proj1 H).
Defined.

(** ** Signature operations *)

(** The reference count over the decoded instructions, without wrap-around. *)
Fixpoint sigops (fAccurate : bool) (lastOpcode : Z) (l : list (Z * valtype)) : Z :=
  match l with
  | [] => 0
  | (op, _) :: l =>
      (if (op =? OP_CHECKSIG) || (op =? OP_CHECKSIGVERIFY) then 1
       else if (op =? OP_CHECKMULTISIG) || (op =? OP_CHECKMULTISIGVERIFY) then
         if fAccurate && (OP_1 <=? lastOpcode) && (lastOpcode <=? OP_16) then lastOpcode - (OP_1 - 1) else 20
       else 0) + sigops fAccurate op l
  end.

Lemma sigops_bounds l last :
  0 <= sigops true last l <= sigops false last l ∧ sigops false last l <= 20 * size l.
Proof.
  revert last; induction l as [|[op v] l IH]; intros last; cbn [sigops length]; [lia|].
  specialize (IH op). unfold OP_1, OP_16.
  repeat case_match; lia.
Qed.

Lemma instructions_length s : (length (instructions s).1 <= length s)%nat.
Proof.
  induction s as [s E|s op v r E IH] using script_ind.
  - rewrite instructions_stop by done. cbn. lia.
  - rewrite (instructions_cons _ _ _ _ E). apply GetOp2_shorter in E. cbn. lia.
Qed.

Lemma GetSigOpCount_fuel f acc pc last n :
  (length pc <= f)%nat → 0 <= n → n + sigops acc last (instructions pc).1 < 2 ^ 32 →
  GetSigOpCount_loop f acc pc last n = n + sigops acc last (instructions pc).1.
Proof.
  revert f last n; induction pc as [pc E|pc op v r E IH] using script_ind; intros f last n Hf Hn Hw.
  - rewrite instructions_stop by done. destruct f; cbn; [lia|]. rewrite E. lia.
  - rewrite (instructions_cons _ _ _ _ E) in *. cbn [fst sigops] in *.
    pose proof (GetOp2_shorter _ _ _ _ E).
    assert (0 <= sigops acc op (instructions r).1)
      by (destruct (sigops_bounds (instructions r).1 op), acc; lia).
    destruct f as [|f]; [lia|]. cbn [GetSigOpCount_loop]. rewrite E.
    unfold OP_1, OP_16 in *.
    repeat case_match; rewrite IH; rewrite ?u32_id by (unfold is_u32; lia); lia.
Qed.

(** below [2 ^ 27] bytes the 32-bit counter of [GetSigOpCount] does not wrap:
    it counts one per CHECKSIG and twenty (or, when accurate, the preceding
    small integer) per CHECKMULTISIG of the decoded script, so the accurate
    count never exceeds the other and neither exceeds twenty per byte. *)
Theorem GetSigOpCount_counts (s : CScript) :
  size s < 2 ^ 27 →
  (∀ acc, GetSigOpCount s acc = sigops acc OP_INVALIDOPCODE (instructions s).1) ∧
  0 <= GetSigOpCount s true <= GetSigOpCount s false ∧ GetSigOpCount s false <= 20 * size s.
Proof.
  intros Hs. pose proof (instructions_length s).
  destruct (sigops_bounds (instructions s).1 OP_INVALIDOPCODE) as [? ?].
  assert (∀ acc, GetSigOpCount s acc = sigops acc OP_INVALIDOPCODE (instructions s).1) as E.
  { intros acc. apply GetSigOpCount_fuel; [lia..|]. destruct acc; lia. }
  split; [done|]. rewrite !E. lia.
Qed.

Lemma GetSigOpCount_counts_witness :
  let s := [OP_2; 1; 7; 1; 8; OP_2; OP_CHECKMULTISIG; OP_CHECKSIG] in
  GetSigOpCount s true = 3 ∧ GetSigOpCount s false = 21 ∧
  GetSigOpCount s true <= GetSigOpCount s false.
Proof.
  split; [done|]. split; [done|].
  apply (GetSigOpCount_counts [OP_2; 1; 7; 1; 8; OP_2; OP_CHECKMULTISIG; OP_CHECKSIG]). done.
Defined.
