(* ===== verification/Interpreter.v ===== *)
(** * Interpreter: evaluation of scripts ([script/interpreter.h], [script/interpreter.cpp])

    [EvalScript] is a loop over the instructions of a script; its local
    variables are the record [eval_state], each group of [case] labels of its
    [switch] is a definition, and the ways a case can end ([break], a return
    with an error, an exception) are the constructors of [res].  Stacks are
    lists with their top first.  The hash functions and [CheckLowS] are the
    operations of the class [ScriptCrypto]; the signature checker is the record
    [BaseSignatureChecker], as it is a class with virtual methods in the source. *)

From S2P Require Import Prelude Script.
Local Open Scope Z_scope.

(** ** Errors and flags *)

Inductive ScriptError :=
  | SCRIPT_ERR_OK
  | SCRIPT_ERR_UNKNOWN_ERROR
  | SCRIPT_ERR_EVAL_FALSE
  | SCRIPT_ERR_OP_RETURN
  | SCRIPT_ERR_SCRIPT_SIZE
  | SCRIPT_ERR_PUSH_SIZE
  | SCRIPT_ERR_OP_COUNT
  | SCRIPT_ERR_STACK_SIZE
  | SCRIPT_ERR_SIG_COUNT
  | SCRIPT_ERR_PUBKEY_COUNT
  | SCRIPT_ERR_VERIFY
  | SCRIPT_ERR_EQUALVERIFY
  | SCRIPT_ERR_CHECKCOLDSTAKEVERIFY
  | SCRIPT_ERR_CHECKMULTISIGVERIFY
  | SCRIPT_ERR_CHECKSIGVERIFY
  | SCRIPT_ERR_NUMEQUALVERIFY
  | SCRIPT_ERR_BAD_OPCODE
  | SCRIPT_ERR_DISABLED_OPCODE
  | SCRIPT_ERR_INVALID_STACK_OPERATION
  | SCRIPT_ERR_INVALID_ALTSTACK_OPERATION
  | SCRIPT_ERR_UNBALANCED_CONDITIONAL
  | SCRIPT_ERR_NEGATIVE_LOCKTIME
  | SCRIPT_ERR_UNSATISFIED_LOCKTIME
  | SCRIPT_ERR_SIG_HASHTYPE
  | SCRIPT_ERR_SIG_DER
  | SCRIPT_ERR_MINIMALDATA
  | SCRIPT_ERR_SIG_PUSHONLY
  | SCRIPT_ERR_SIG_HIGH_S
  | SCRIPT_ERR_SIG_NULLDUMMY
  | SCRIPT_ERR_PUBKEYTYPE
  | SCRIPT_ERR_DISCOURAGE_UPGRADABLE_NOPS.

#[export] Instance ScriptError_eq_dec : EqDecision ScriptError.
Proof. solve_decision. Defined.

Definition SIGHASH_ALL : Z := 1.
Definition SIGHASH_NONE : Z := 2.
Definition SIGHASH_SINGLE : Z := 3.
Definition SIGHASH_ANYONECANPAY : Z := 0x80.

Definition SCRIPT_VERIFY_NONE : Z := 0.
Definition SCRIPT_VERIFY_P2SH : Z := Z.shiftl 1 0.
Definition SCRIPT_VERIFY_STRICTENC : Z := Z.shiftl 1 1.
Definition SCRIPT_VERIFY_DERSIG : Z := Z.shiftl 1 2.
Definition SCRIPT_VERIFY_LOW_S : Z := Z.shiftl 1 3.
Definition SCRIPT_VERIFY_NULLDUMMY : Z := Z.shiftl 1 4.
Definition SCRIPT_VERIFY_SIGPUSHONLY : Z := Z.shiftl 1 5.
Definition SCRIPT_VERIFY_MINIMALDATA : Z := Z.shiftl 1 6.
Definition SCRIPT_VERIFY_DISCOURAGE_UPGRADABLE_NOPS : Z := Z.shiftl 1 7.
Definition SCRIPT_VERIFY_CLEANSTACK : Z := Z.shiftl 1 8.
Definition SCRIPT_VERIFY_CHECKLOCKTIMEVERIFY : Z := Z.shiftl 1 9.

(** [flags & f] as a condition. *)
Definition has (flags f : Z) : bool := negb (Z.land flags f =? 0).

Inductive SigVersion := SIGVERSION_BASE | SIGVERSION_SAPLING.

#[export] Instance SigVersion_eq_dec : EqDecision SigVersion.
Proof. solve_decision. Defined.

(** How a piece of [EvalScript] ends: normally, by [return set_error(serror, e)],
    or by an exception. *)
Inductive res (A : Type) :=
  | Ok (a : A)
  | Err (e : ScriptError)
  | Exn.
Arguments Ok {A} a.
Arguments Err {A} e.
Arguments Exn {A}.

#[export] Instance res_bind : MBind res := λ A B f m,
  match m with Ok a => f a | Err e => Err e | Exn => Exn end.
#[export] Instance res_ret : MRet res := @Ok.

(** An operation that throws. *)
Definition or_throw {A} (o : option A) : res A :=
  match o with Some a => Ok a | None => Exn end.

(** [if (!c) return set_error(serror, e);] *)
Definition require (c : bool) (e : ScriptError) : res unit := if c then Ok tt else Err e.

(** ** Parameters *)

Class ScriptCrypto := {
  RIPEMD160 : valtype → valtype;
  SHA1 : valtype → valtype;
  SHA256 : valtype → valtype;
  CheckLowS : valtype → bool;
}.

(** The output sizes of the hash functions. *)
Class ScriptCryptoLaws `{ScriptCrypto} : Prop := {
  RIPEMD160_size v : length (RIPEMD160 v) = 20%nat;
  SHA1_size v : length (SHA1 v) = 20%nat;
  SHA256_size v : length (SHA256 v) = 32%nat;
}.

(** [CHash160] and [CHash256]. *)
Definition Hash160 `{ScriptCrypto} (v : valtype) : valtype := RIPEMD160 (SHA256 v).
Definition Hash256 `{ScriptCrypto} (v : valtype) : valtype := SHA256 (SHA256 v).

(** The virtual methods; [None] is an exception thrown by [CheckSig];
    [CheckColdStake] takes the value of [*serror] and returns the new one. *)
Record BaseSignatureChecker := {
  CheckSig : valtype → valtype → CScript → SigVersion → option bool;
  CheckLockTime : Z → bool;
  CheckColdStake : CScript → list valtype → Z → ScriptError → bool * ScriptError;
}.

(** ** Values, keys and signatures *)

Fixpoint CastToBool (vch : valtype) : bool :=
  match vch with
  | [] => false
  | b :: vch =>
      if b =? 0 then CastToBool vch
      else negb (bool_decide (vch = []) && (b =? 0x80))
  end.

Definition PUBLIC_KEY_SIZE : Z := 65.
Definition COMPRESSED_PUBLIC_KEY_SIZE : Z := 33.

Definition IsCompressedOrUncompressedPubKey (vchPubKey : valtype) : bool :=
  if size vchPubKey <? COMPRESSED_PUBLIC_KEY_SIZE then false
  else if nth 0 vchPubKey 0 =? 0x04 then size vchPubKey =? PUBLIC_KEY_SIZE
  else if (nth 0 vchPubKey 0 =? 0x02) || (nth 0 vchPubKey 0 =? 0x03)
    then size vchPubKey =? COMPRESSED_PUBLIC_KEY_SIZE
  else false.

Definition IsValidSignatureEncoding (sig : valtype) : bool :=
  let b (i : Z) := nth (Z.to_nat i) sig 0 in
  let high (i : Z) := negb (Z.land (b i) 0x80 =? 0) in
  if size sig <? 9 then false
  else if 73 <? size sig then false
  else if negb (b 0 =? 0x30) then false
  else if negb (b 1 =? size sig - 3) then false
  else
    let lenR := b 3 in
    if size sig <=? 5 + lenR then false
    else
      let lenS := b (5 + lenR) in
      if negb (lenR + lenS + 7 =? size sig) then false
      else if negb (b 2 =? 0x02) then false
      else if lenR =? 0 then false
      else if high 4 then false
      else if (1 <? lenR) && (b 4 =? 0x00) && negb (high 5) then false
      else if negb (b (lenR + 4) =? 0x02) then false
      else if lenS =? 0 then false
      else if high (lenR + 6) then false
      else if (1 <? lenS) && (b (lenR + 6) =? 0x00) && negb (high (lenR + 7)) then false
      else true.

Definition IsDefinedHashtypeSignature (vchSig : valtype) : bool :=
  match vchSig with
  | [] => false
  | _ =>
      let nHashType := Z.land (back vchSig) (Z.lnot SIGHASH_ANYONECANPAY) in
      negb ((nHashType <? SIGHASH_ALL) || (SIGHASH_SINGLE <? nHashType))
  end.

Definition CheckPubKeyEncoding (vchPubKey : valtype) (flags : Z) : res unit :=
  if has flags SCRIPT_VERIFY_STRICTENC && negb (IsCompressedOrUncompressedPubKey vchPubKey)
  then Err SCRIPT_ERR_PUBKEYTYPE else Ok tt.

Definition CheckMinimalPush (data : valtype) (opcode : Z) : bool :=
  let d := nth 0 data 0 in
  if size data =? 0 then opcode =? OP_0
  else if (size data =? 1) && (1 <=? d) && (d <=? 16) then opcode =? OP_1 + (d - 1)
  else if (size data =? 1) && (d =? 0x81) then opcode =? OP_1NEGATE
  else if size data <=? 75 then opcode =? size data
  else if size data <=? 255 then opcode =? OP_PUSHDATA1
  else if size data <=? 65535 then opcode =? OP_PUSHDATA2
  else true.

Definition vchFalse : valtype := [].
Definition vchTrue : valtype := [1].
Definition vch_bool (b : bool) : valtype := if b then vchTrue else vchFalse.
Definition b2z (b : bool) : Z := if b then 1 else 0.

(** ** The state of [EvalScript] *)

Record eval_state := mkState {
  stack : list valtype;        (** top first *)
  altstack : list valtype;     (** top first *)
  vfExec : list bool;          (** innermost conditional first *)
  nOpCount : Z;
  pbegincodehash : CScript;    (** the script from the last code separator on *)
  pc : CScript;                (** the script still to be executed *)
}.

Definition set_stack (s : eval_state) (st : list valtype) : eval_state :=
  mkState st s.(altstack) s.(vfExec) s.(nOpCount) s.(pbegincodehash) s.(pc).
Definition set_vfExec (s : eval_state) (v : list bool) : eval_state :=
  mkState s.(stack) s.(altstack) v s.(nOpCount) s.(pbegincodehash) s.(pc).
Definition set_nOpCount (s : eval_state) (n : Z) : eval_state :=
  mkState s.(stack) s.(altstack) s.(vfExec) n s.(pbegincodehash) s.(pc).

Abbreviation INVALID_STACK := (Err SCRIPT_ERR_INVALID_STACK_OPERATION).

(** [stacktop(-i)], which throws out of range. *)
Definition stacktop (st : list valtype) (i : Z) : res valtype :=
  or_throw (st !! Z.to_nat (i - 1)).

(** ** The cases of the [switch] *)

Section eval.
Context `{ScriptCrypto}.

Definition IsLowDERSignature (vchSig : valtype) : res unit :=
  if negb (IsValidSignatureEncoding vchSig) then Err SCRIPT_ERR_SIG_DER
  else if negb (CheckLowS (removelast vchSig)) then Err SCRIPT_ERR_SIG_HIGH_S
  else Ok tt.

Definition CheckSignatureEncoding (vchSig : valtype) (flags : Z) : res unit :=
  match vchSig with
  | [] => Ok tt
  | _ =>
      if has flags (Z.lor SCRIPT_VERIFY_DERSIG (Z.lor SCRIPT_VERIFY_LOW_S SCRIPT_VERIFY_STRICTENC))
         && negb (IsValidSignatureEncoding vchSig) then Err SCRIPT_ERR_SIG_DER
      else
        match (if has flags SCRIPT_VERIFY_LOW_S then IsLowDERSignature vchSig else Ok tt) with
        | Ok _ =>
            if has flags SCRIPT_VERIFY_STRICTENC && negb (IsDefinedHashtypeSignature vchSig)
            then Err SCRIPT_ERR_SIG_HASHTYPE else Ok tt
        | e => e
        end
  end.

Variable checker : BaseSignatureChecker.
Variable flags : Z.
Variable sigversion : SigVersion.

Definition fRequireMinimal : bool := has flags SCRIPT_VERIFY_MINIMALDATA.

(** [CScriptNum(vch, fRequireMinimal)] *)
Definition script_num (vch : valtype) : res Z :=
  or_throw (CScriptNum_of_vch vch fRequireMinimal nDefaultMaxNumSize).

Definition op_checklocktimeverify (s : eval_state) : res eval_state :=
  if negb (has flags SCRIPT_VERIFY_CHECKLOCKTIMEVERIFY) then
    if has flags SCRIPT_VERIFY_DISCOURAGE_UPGRADABLE_NOPS
    then Err SCRIPT_ERR_DISCOURAGE_UPGRADABLE_NOPS else Ok s
  else
    match s.(stack) with
    | [] => INVALID_STACK
    | top :: _ =>
        nLockTime ← or_throw (CScriptNum_of_vch top fRequireMinimal 5);
        if nLockTime <? 0 then Err SCRIPT_ERR_NEGATIVE_LOCKTIME
        else if negb (checker.(CheckLockTime) nLockTime) then Err SCRIPT_ERR_UNSATISFIED_LOCKTIME
        else Ok s
    end.

Definition op_if (opcode : Z) (fExec : bool) (s : eval_state) : res eval_state :=
  if fExec then
    match s.(stack) with
    | [] => Err SCRIPT_ERR_UNBALANCED_CONDITIONAL
    | vch :: st =>
        let fValue := CastToBool vch in
        let fValue := if opcode =? OP_NOTIF then negb fValue else fValue in
        Ok (set_vfExec (set_stack s st) (fValue :: s.(vfExec)))
    end
  else Ok (set_vfExec s (false :: s.(vfExec))).

Definition op_else (s : eval_state) : res eval_state :=
  match s.(vfExec) with
  | [] => Err SCRIPT_ERR_UNBALANCED_CONDITIONAL
  | b :: v => Ok (set_vfExec s (negb b :: v))
  end.

Definition op_endif (s : eval_state) : res eval_state :=
  match s.(vfExec) with
  | [] => Err SCRIPT_ERR_UNBALANCED_CONDITIONAL
  | _ :: v => Ok (set_vfExec s v)
  end.

Definition op_verify (s : eval_state) : res eval_state :=
  match s.(stack) with
  | [] => INVALID_STACK
  | top :: st => if CastToBool top then Ok (set_stack s st) else Err SCRIPT_ERR_VERIFY
  end.

(** The two opcodes that use the alternative stack. *)
Definition op_altstack (opcode : Z) (s : eval_state) : res eval_state :=
  if opcode =? OP_TOALTSTACK then
    match s.(stack) with
    | [] => INVALID_STACK
    | top :: st => Ok (mkState st (top :: s.(altstack)) s.(vfExec) s.(nOpCount) s.(pbegincodehash) s.(pc))
    end
  else
    match s.(altstack) with
    | [] => Err SCRIPT_ERR_INVALID_ALTSTACK_OPERATION
    | top :: alt => Ok (mkState (top :: s.(stack)) alt s.(vfExec) s.(nOpCount) s.(pbegincodehash) s.(pc))
    end.

Definition op_rotate (opcode : Z) (st : list valtype) : res (list valtype) :=
  if opcode =? OP_ROT then
    match st with x3 :: x2 :: x1 :: r => Ok (x1 :: x3 :: x2 :: r) | _ => INVALID_STACK end
  else if opcode =? OP_SWAP then
    match st with x2 :: x1 :: r => Ok (x1 :: x2 :: r) | _ => INVALID_STACK end
  else (* OP_TUCK *)
    match st with x2 :: x1 :: r => Ok (x2 :: x1 :: x2 :: r) | _ => INVALID_STACK end.

(** The opcodes that only rearrange the stack: the new stack. *)
Definition op_shuffle (opcode : Z) (st : list valtype) : res (list valtype) :=
  if opcode =? OP_2DROP then
    match st with _ :: _ :: r => Ok r | _ => INVALID_STACK end
  else if opcode =? OP_2DUP then
    match st with x2 :: x1 :: r => Ok (x2 :: x1 :: st) | _ => INVALID_STACK end
  else if opcode =? OP_3DUP then
    match st with x3 :: x2 :: x1 :: r => Ok (x3 :: x2 :: x1 :: st) | _ => INVALID_STACK end
  else if opcode =? OP_2OVER then
    match st with _ :: _ :: x2 :: x1 :: r => Ok (x2 :: x1 :: st) | _ => INVALID_STACK end
  else if opcode =? OP_2ROT then
    match st with
    | x6 :: x5 :: x4 :: x3 :: x2 :: x1 :: r => Ok (x2 :: x1 :: x6 :: x5 :: x4 :: x3 :: r)
    | _ => INVALID_STACK
    end
  else if opcode =? OP_2SWAP then
    match st with x4 :: x3 :: x2 :: x1 :: r => Ok (x2 :: x1 :: x4 :: x3 :: r) | _ => INVALID_STACK end
  else if opcode =? OP_IFDUP then
    match st with x :: r => Ok (if CastToBool x then x :: st else st) | _ => INVALID_STACK end
  else if opcode =? OP_DROP then
    match st with _ :: r => Ok r | _ => INVALID_STACK end
  else if opcode =? OP_DUP then
    match st with x :: r => Ok (x :: st) | _ => INVALID_STACK end
  else if opcode =? OP_NIP then
    match st with x2 :: _ :: r => Ok (x2 :: r) | _ => INVALID_STACK end
  else if opcode =? OP_OVER then
    match st with _ :: x1 :: r => Ok (x1 :: st) | _ => INVALID_STACK end
  else op_rotate opcode st.

Definition is_shuffle (opcode : Z) : bool :=
  existsb (Z.eqb opcode)
    [OP_2DROP; OP_2DUP; OP_3DUP; OP_2OVER; OP_2ROT; OP_2SWAP; OP_IFDUP; OP_DROP; OP_DUP;
     OP_NIP; OP_OVER; OP_ROT; OP_SWAP; OP_TUCK].

Definition op_pick_roll (opcode : Z) (st : list valtype) : res (list valtype) :=
  match st with
  | top :: ((_ :: _) as st) =>
      bn ← script_num top;
      let n := getint bn in
      if (n <? 0) || (Z.of_nat (length st) <=? n) then INVALID_STACK
      else
        vch ← stacktop st (n + 1);
        let st := if opcode =? OP_ROLL then delete (Z.to_nat n) st else st in
        Ok (vch :: st)
  | _ => INVALID_STACK
  end.

Definition op_size (st : list valtype) : res (list valtype) :=
  match st with
  | [] => INVALID_STACK
  | top :: _ => Ok (serialize (size top) :: st)
  end.

Definition op_equal (opcode : Z) (st : list valtype) : res (list valtype) :=
  match st with
  | vch2 :: vch1 :: st =>
      let fEqual := bool_decide (vch1 = vch2) in
      if opcode =? OP_EQUALVERIFY then
        if fEqual then Ok st else Err SCRIPT_ERR_EQUALVERIFY
      else Ok (vch_bool fEqual :: st)
  | _ => INVALID_STACK
  end.

(** The inner [switch] of the unary opcodes; the last branch is its
    [default: assert]. *)
Definition unary_num (opcode bn : Z) : res Z :=
  if opcode =? OP_1ADD then or_throw (num_add_assign bn 1)
  else if opcode =? OP_1SUB then or_throw (num_sub_assign bn 1)
  else if opcode =? OP_NEGATE then or_throw (num_neg bn)
  else if opcode =? OP_ABS then (if bn <? 0 then or_throw (num_neg bn) else Ok bn)
  else if opcode =? OP_NOT then Ok (b2z (bn =? 0))
  else if opcode =? OP_0NOTEQUAL then Ok (b2z (negb (bn =? 0)))
  else Exn.

Definition is_unary (opcode : Z) : bool :=
  existsb (Z.eqb opcode) [OP_1ADD; OP_1SUB; OP_NEGATE; OP_ABS; OP_NOT; OP_0NOTEQUAL].

Definition op_unary (opcode : Z) (st : list valtype) : res (list valtype) :=
  match st with
  | [] => INVALID_STACK
  | top :: st =>
      bn ← script_num top;
      bn ← unary_num opcode bn;
      Ok (serialize bn :: st)
  end.

Definition binary_num (opcode bn1 bn2 : Z) : res Z :=
  if opcode =? OP_ADD then Ok (bn1 + bn2)
  else if opcode =? OP_SUB then Ok (bn1 - bn2)
  else if opcode =? OP_BOOLAND then Ok (b2z (negb (bn1 =? 0) && negb (bn2 =? 0)))
  else if opcode =? OP_BOOLOR then Ok (b2z (negb (bn1 =? 0) || negb (bn2 =? 0)))
  else if opcode =? OP_NUMEQUAL then Ok (b2z (bn1 =? bn2))
  else if opcode =? OP_NUMEQUALVERIFY then Ok (b2z (bn1 =? bn2))
  else if opcode =? OP_NUMNOTEQUAL then Ok (b2z (negb (bn1 =? bn2)))
  else if opcode =? OP_LESSTHAN then Ok (b2z (bn1 <? bn2))
  else if opcode =? OP_GREATERTHAN then Ok (b2z (bn2 <? bn1))
  else if opcode =? OP_LESSTHANOREQUAL then Ok (b2z (bn1 <=? bn2))
  else if opcode =? OP_GREATERTHANOREQUAL then Ok (b2z (bn2 <=? bn1))
  else if opcode =? OP_MIN then Ok (if bn1 <? bn2 then bn1 else bn2)
  else if opcode =? OP_MAX then Ok (if bn2 <? bn1 then bn1 else bn2)
  else Exn.

Definition is_binary (opcode : Z) : bool :=
  existsb (Z.eqb opcode)
    [OP_ADD; OP_SUB; OP_BOOLAND; OP_BOOLOR; OP_NUMEQUAL; OP_NUMEQUALVERIFY; OP_NUMNOTEQUAL;
     OP_LESSTHAN; OP_GREATERTHAN; OP_LESSTHANOREQUAL; OP_GREATERTHANOREQUAL; OP_MIN; OP_MAX].

Definition op_binary (opcode : Z) (st : list valtype) : res (list valtype) :=
  match st with
  | vch2 :: vch1 :: st =>
      bn1 ← script_num vch1;
      bn2 ← script_num vch2;
      bn ← binary_num opcode bn1 bn2;
      if opcode =? OP_NUMEQUALVERIFY then
        if CastToBool (serialize bn) then Ok st else Err SCRIPT_ERR_NUMEQUALVERIFY
      else Ok (serialize bn :: st)
  | _ => INVALID_STACK
  end.

Definition op_within (st : list valtype) : res (list valtype) :=
  match st with
  | vch3 :: vch2 :: vch1 :: st =>
      bn1 ← script_num vch1;
      bn2 ← script_num vch2;
      bn3 ← script_num vch3;
      Ok (vch_bool ((bn2 <=? bn1) && (bn1 <? bn3)) :: st)
  | _ => INVALID_STACK
  end.

Definition is_hash (opcode : Z) : bool :=
  existsb (Z.eqb opcode) [OP_RIPEMD160; OP_SHA1; OP_SHA256; OP_HASH160; OP_HASH256].

Definition op_hash (opcode : Z) (st : list valtype) : res (list valtype) :=
  match st with
  | [] => INVALID_STACK
  | vch :: st =>
      let vchHash :=
        if opcode =? OP_RIPEMD160 then RIPEMD160 vch
        else if opcode =? OP_SHA1 then SHA1 vch
        else if opcode =? OP_SHA256 then SHA256 vch
        else if opcode =? OP_HASH160 then Hash160 vch
        else Hash256 vch in
      Ok (vchHash :: st)
  end.

Definition op_checksig (opcode : Z) (codehash : CScript) (st : list valtype) : res (list valtype) :=
  match st with
  | vchPubKey :: vchSig :: st =>
      let scriptCode := (FindAndDelete codehash (push_data vchSig)).1 in
      _ ← CheckSignatureEncoding vchSig flags;
      _ ← CheckPubKeyEncoding vchPubKey flags;
      fSuccess ← or_throw (checker.(CheckSig) vchSig vchPubKey scriptCode sigversion);
      if opcode =? OP_CHECKSIGVERIFY then
        if fSuccess : bool then Ok st else Err SCRIPT_ERR_CHECKSIGVERIFY
      else Ok (vch_bool fSuccess :: st)
  | _ => INVALID_STACK
  end.

(** The loop of CHECKMULTISIG; every round uses up one key, so [nKeysCount]
    bounds the rounds. *)
Fixpoint multisig_loop (fuel : nat) (st : list valtype) (scriptCode : CScript)
    (fSuccess : bool) (isig ikey nSigsCount nKeysCount : Z) : res bool :=
  if fSuccess && (0 <? nSigsCount) then
    match fuel with
    | O => Exn
    | S fuel =>
        vchSig ← stacktop st isig;
        vchPubKey ← stacktop st ikey;
        _ ← CheckSignatureEncoding vchSig flags;
        _ ← CheckPubKeyEncoding vchPubKey flags;
        fOk ← or_throw (checker.(CheckSig) vchSig vchPubKey scriptCode sigversion);
        let isig := if fOk : bool then isig + 1 else isig in
        let nSigsCount := if fOk then nSigsCount - 1 else nSigsCount in
        let nKeysCount := nKeysCount - 1 in
        multisig_loop fuel st scriptCode (negb (nKeysCount <? nSigsCount)) isig (ikey + 1) nSigsCount nKeysCount
    end
  else Ok fSuccess.

(** Dropping the signatures from the script code. *)
Fixpoint drop_sigs (scriptCode : CScript) (sigs : list valtype) : CScript :=
  match sigs with
  | [] => scriptCode
  | vchSig :: sigs => drop_sigs (FindAndDelete scriptCode (push_data vchSig)).1 sigs
  end.

Definition op_checkmultisig (opcode : Z) (s : eval_state) : res eval_state :=
  let st := s.(stack) in
  if Z.of_nat (length st) <? 1 then INVALID_STACK
  else
    top ← stacktop st 1;
    bnKeys ← script_num top;
    let nKeysCount := getint bnKeys in
    if (nKeysCount <? 0) || (20 <? nKeysCount) then Err SCRIPT_ERR_PUBKEY_COUNT
    else
      let nOp := s.(nOpCount) + nKeysCount in
      if 201 <? nOp then Err SCRIPT_ERR_OP_COUNT
      else
        let ikey := 2 in
        let i := 2 + nKeysCount in
        if Z.of_nat (length st) <? i then INVALID_STACK
        else
          vchSigs ← stacktop st i;
          bnSigs ← script_num vchSigs;
          let nSigsCount := getint bnSigs in
          if (nSigsCount <? 0) || (nKeysCount <? nSigsCount) then Err SCRIPT_ERR_SIG_COUNT
          else
            let isig := i + 1 in
            let i := isig + nSigsCount in
            if Z.of_nat (length st) <? i then INVALID_STACK
            else
              let scriptCode := drop_sigs s.(pbegincodehash)
                (take (Z.to_nat nSigsCount) (drop (Z.to_nat (isig - 1)) st)) in
              fSuccess ← multisig_loop (Z.to_nat nKeysCount) st scriptCode true isig ikey nSigsCount nKeysCount;
              let st := drop (Z.to_nat (i - 1)) st in
              match st with
              | [] => INVALID_STACK
              | dummy :: st =>
                  if has flags SCRIPT_VERIFY_NULLDUMMY && negb (bool_decide (dummy = []))
                  then Err SCRIPT_ERR_SIG_NULLDUMMY
                  else
                    let s := set_nOpCount s nOp in
                    if opcode =? OP_CHECKMULTISIGVERIFY then
                      if fSuccess : bool then Ok (set_stack s st) else Err SCRIPT_ERR_CHECKMULTISIGVERIFY
                    else Ok (set_stack s (vch_bool fSuccess :: st))
              end.

(** ** The [switch] *)

Definition is_small_int (opcode : Z) : bool :=
  (opcode =? OP_1NEGATE) || (OP_1 <=? opcode) && (opcode <=? OP_16).

Definition is_upgradable_nop (opcode : Z) : bool :=
  existsb (Z.eqb opcode)
    [OP_NOP1; OP_NOP3; OP_NOP4; OP_NOP5; OP_NOP6; OP_NOP7; OP_NOP8; OP_NOP9; OP_NOP10].

(** An operation on the main stack alone. *)
Definition on_stack (f : list valtype → res (list valtype)) (s : eval_state) : res eval_state :=
  st ← f s.(stack); Ok (set_stack s st).

(** All the cases but OP_CHECKCOLDSTAKEVERIFY, which ends the function. *)
Definition exec_op (opcode : Z) (fExec : bool) (s : eval_state) : res eval_state :=
  if is_small_int opcode then Ok (set_stack s (serialize (opcode - (OP_1 - 1)) :: s.(stack)))
  else if opcode =? OP_NOP then Ok s
  else if opcode =? OP_CHECKLOCKTIMEVERIFY then op_checklocktimeverify s
  else if is_upgradable_nop opcode then
    (if has flags SCRIPT_VERIFY_DISCOURAGE_UPGRADABLE_NOPS
     then Err SCRIPT_ERR_DISCOURAGE_UPGRADABLE_NOPS else Ok s)
  else if (opcode =? OP_IF) || (opcode =? OP_NOTIF) then op_if opcode fExec s
  else if opcode =? OP_ELSE then op_else s
  else if opcode =? OP_ENDIF then op_endif s
  else if opcode =? OP_VERIFY then op_verify s
  else if opcode =? OP_RETURN then Err SCRIPT_ERR_OP_RETURN
  else if (opcode =? OP_TOALTSTACK) || (opcode =? OP_FROMALTSTACK) then op_altstack opcode s
  else if is_shuffle opcode then on_stack (op_shuffle opcode) s
  else if opcode =? OP_DEPTH then
    Ok (set_stack s (serialize (Z.of_nat (length s.(stack))) :: s.(stack)))
  else if (opcode =? OP_PICK) || (opcode =? OP_ROLL) then on_stack (op_pick_roll opcode) s
  else if opcode =? OP_SIZE then on_stack op_size s
  else if (opcode =? OP_EQUAL) || (opcode =? OP_EQUALVERIFY) then on_stack (op_equal opcode) s
  else if is_unary opcode then on_stack (op_unary opcode) s
  else if is_binary opcode then on_stack (op_binary opcode) s
  else if opcode =? OP_WITHIN then on_stack op_within s
  else if is_hash opcode then on_stack (op_hash opcode) s
  else if opcode =? OP_CODESEPARATOR then
    Ok (mkState s.(stack) s.(altstack) s.(vfExec) s.(nOpCount) s.(pc) s.(pc))
  else if (opcode =? OP_CHECKSIG) || (opcode =? OP_CHECKSIGVERIFY) then
    on_stack (op_checksig opcode s.(pbegincodehash)) s
  else if (opcode =? OP_CHECKMULTISIG) || (opcode =? OP_CHECKMULTISIGVERIFY) then op_checkmultisig opcode s
  else if (opcode =? OP_ASSETSMINT) || (opcode =? OP_ASSETSSPEND) then Ok s
  else Err SCRIPT_ERR_BAD_OPCODE.

Definition is_disabled (opcode : Z) : bool :=
  existsb (Z.eqb opcode)
    [OP_CAT; OP_SUBSTR; OP_LEFT; OP_RIGHT; OP_INVERT; OP_AND; OP_OR; OP_XOR; OP_2MUL; OP_2DIV;
     OP_MUL; OP_DIV; OP_MOD; OP_LSHIFT; OP_RSHIFT].

(** How a round of the main loop ends. *)
Inductive round :=
  | Next (s : eval_state)
  | Return (b : bool) (serror : ScriptError) (st : list valtype).

(** One round of the main loop.  [serror] is [UNKNOWN_ERROR] throughout it. *)
Definition eval_round (script : CScript) (s : eval_state) : res round :=
  let fExec := forallb id s.(vfExec) in
  match GetOp2 s.(pc) with
  | None => Err SCRIPT_ERR_BAD_OPCODE
  | Some (opcode, vchPushValue, rest) =>
      if MAX_SCRIPT_ELEMENT_SIZE <? size vchPushValue then Err SCRIPT_ERR_PUSH_SIZE
      else
        let nOp := if OP_16 <? opcode then s.(nOpCount) + 1 else s.(nOpCount) in
        if (OP_16 <? opcode) && (201 <? nOp) then Err SCRIPT_ERR_OP_COUNT
        else if is_disabled opcode then Err SCRIPT_ERR_DISABLED_OPCODE
        else
          let s := mkState s.(stack) s.(altstack) s.(vfExec) nOp s.(pbegincodehash) rest in
          if fExec && (0 <=? opcode) && (opcode <=? OP_PUSHDATA4) && fRequireMinimal
             && negb (CheckMinimalPush vchPushValue opcode) then Err SCRIPT_ERR_MINIMALDATA
          else if fExec && (opcode =? OP_CHECKCOLDSTAKEVERIFY) then
            let '(b, e) := checker.(CheckColdStake) script s.(stack) flags SCRIPT_ERR_UNKNOWN_ERROR in
            Ok (Return b e s.(stack))
          else
            s ← (if fExec && (0 <=? opcode) && (opcode <=? OP_PUSHDATA4) then
                   Ok (set_stack s (vchPushValue :: s.(stack)))
                 else if fExec || (OP_IF <=? opcode) && (opcode <=? OP_ENDIF) then exec_op opcode fExec s
                 else Ok s);
            if 1000 <? Z.of_nat (length s.(stack) + length s.(altstack)) then Err SCRIPT_ERR_STACK_SIZE
            else Ok (Next s)
  end.

(** The result of [EvalScript]: [true] with the stack and the value of
    [*serror], or [false] with the value of [*serror]. *)
Inductive eval_result :=
  | EvalTrue (st : list valtype) (serror : ScriptError)
  | EvalFalse (serror : ScriptError).

(** [None] is the end of the fuel. *)
Fixpoint eval_loop (fuel : nat) (script : CScript) (s : eval_state) : option eval_result :=
  match s.(pc) with
  | [] =>
      Some (if bool_decide (s.(vfExec) = []) then EvalTrue s.(stack) SCRIPT_ERR_OK
            else EvalFalse SCRIPT_ERR_UNBALANCED_CONDITIONAL)
  | _ =>
      match fuel with
      | O => None
      | S fuel =>
          match eval_round script s with
          | Ok (Next s) => eval_loop fuel script s
          | Ok (Return true e st) => Some (EvalTrue st e)
          | Ok (Return false e _) => Some (EvalFalse e)
          | Err e => Some (EvalFalse e)
          | Exn => Some (EvalFalse SCRIPT_ERR_UNKNOWN_ERROR)
          end
      end
  end.

Definition EvalScript (st : list valtype) (script : CScript) : option eval_result :=
  if MAX_SCRIPT_SIZE <? size script then Some (EvalFalse SCRIPT_ERR_SCRIPT_SIZE)
  else eval_loop (length script) script (mkState st [] [] 0 script script).

(** The result of [VerifyScript] and the value of [*serror]. *)
Definition VerifyScript (scriptSig scriptPubKey : CScript) : option (bool * ScriptError) :=
  if has flags SCRIPT_VERIFY_SIGPUSHONLY && negb (IsPushOnly scriptSig) then
    Some (false, SCRIPT_ERR_SIG_PUSHONLY)
  else
    r ← EvalScript [] scriptSig;
    match r with
    | EvalFalse e => Some (false, e)
    | EvalTrue st _ =>
        let stackCopy := st in
        r ← EvalScript st scriptPubKey;
        match r with
        | EvalFalse e => Some (false, e)
        | EvalTrue st _ =>
            match st with
            | [] => Some (false, SCRIPT_ERR_EVAL_FALSE)
            | top :: _ =>
                if negb (CastToBool top) then Some (false, SCRIPT_ERR_EVAL_FALSE)
                else if has flags SCRIPT_VERIFY_P2SH && IsPayToScriptHash scriptPubKey then
                  if negb (IsPushOnly scriptSig) then Some (false, SCRIPT_ERR_SIG_PUSHONLY)
                  else
                    match stackCopy with
                    | [] => None (* assert(!stackCopy.empty()) *)
                    | pubKeySerialized :: stackCopy =>
                        r ← EvalScript stackCopy pubKeySerialized;
                        match r with
                        | EvalFalse e => Some (false, e)
                        | EvalTrue [] _ => Some (false, SCRIPT_ERR_EVAL_FALSE)
                        | EvalTrue (top :: _) _ =>
                            if negb (CastToBool top) then Some (false, SCRIPT_ERR_EVAL_FALSE)
                            else Some (true, SCRIPT_ERR_OK)
                        end
                    end
                else Some (true, SCRIPT_ERR_OK)
            end
        end
    end.

End eval.

(** ** Effects of the cases on the state *)

Lemma bind_Ok {A B} (m : res A) (f : A → res B) b :
  m ≫= f = Ok b ↔ ∃ a, m = Ok a ∧ f a = Ok b.
Proof.
  split; [|by intros (a & -> & ?)]. destruct m as [a| |]; [|done..]. intros. by exists a.
Qed.

(** Decomposes a successful run of a case. *)
Ltac inv_res :=
  repeat match goal with
  | H : Ok _ = Ok _ |- _ => injection H as H
  | H : Err _ = Ok _ |- _ => discriminate H
  | H : Exn = Ok _ |- _ => discriminate H
  | H : mbind _ _ = Ok _ |- _ => apply bind_Ok in H as (? & ? & H)
  | H : (if ?b then _ else _) = Ok _ |- _ => destruct b eqn:?
  | H : match ?l with [] => _ | _ :: _ => _ end = Ok _ |- _ => destruct l eqn:?
  | H : or_throw ?o = Ok _ |- _ => destruct o eqn:?; cbn [or_throw] in H
  end.

Definition small (v : valtype) : Prop := size v <= MAX_SCRIPT_ELEMENT_SIZE.

Lemma serialize_small v : small (serialize v).
Proof.
  assert (∀ n a, (length (abs_bytes n a) <= n)%nat) as Hl.
  { intros n; induction n as [|n IH]; intros a; cbn; [done|].
    destruct (a =? 0); cbn; [lia|]. specialize (IH (a ≫ 8)). lia. }
  unfold small, MAX_SCRIPT_ELEMENT_SIZE, serialize, set_back. destruct (v =? 0); [done|].
  set (a := if v <? 0 then _ else _). specialize (Hl 8%nat a).
  assert (length (removelast (abs_bytes 8 a)) <= 8)%nat.
  { destruct (snoc_cases (abs_bytes 8 a)) as [E|(k & c & E)]; rewrite E in *; [cbn; lia|].
    rewrite List.removelast_last. rewrite length_app in Hl. lia. }
  repeat case_match; rewrite ?length_app; cbn [length]; lia.
Qed.

Lemma vch_bool_small b : small (vch_bool b).
Proof. by destruct b. Qed.

#[export] Hint Resolve serialize_small vch_bool_small : qrax.

(** ** Progress through the script *)

Section progress.
Context `{ScriptCrypto}.
Variable checker : BaseSignatureChecker.
Variable flags : Z.
Variable sigversion : SigVersion.

Lemma exec_op_pc op b s s' :
  exec_op checker flags sigversion op b s = Ok s' →
  s'.(pc) = s.(pc) ∧ (s'.(pbegincodehash) = s.(pbegincodehash) ∨ s'.(pbegincodehash) = s.(pc)).
Proof.
  unfold exec_op, on_stack. intros E.
  repeat match type of E with (if ?c then _ else _) = Ok _ => destruct c eqn:? end;
    unfold op_checklocktimeverify, op_if, op_else, op_endif, op_verify, op_altstack, op_checkmultisig in E;
    inv_res; subst; cbn; auto.
Qed.

(** A round that does not end the evaluation moves to the next instruction,
    which is not disabled and pushes a small element. *)
Lemma eval_round_pc script s s' :
  eval_round checker flags sigversion script s = Ok (Next s') →
  Z.of_nat (length s'.(stack) + length s'.(altstack)) <= 1000 ∧
  ∃ op v, GetOp2 s.(pc) = Some (op, v, s'.(pc)) ∧ small v ∧ is_disabled op = false ∧
    (s'.(pbegincodehash) = s.(pbegincodehash) ∨ s'.(pbegincodehash) = s'.(pc)).
Proof.
  unfold eval_round. destruct (GetOp2 s.(pc)) as [[[op v] rest]|]; [|done]. intros E.
  destruct (MAX_SCRIPT_ELEMENT_SIZE <? size v) eqn:?; [done|].
  destruct ((OP_16 <? op) && _) eqn:?; [done|]. destruct (is_disabled op) eqn:?; [done|].
  destruct (_ && negb (CheckMinimalPush v op)); [done|].
  destruct (forallb id (vfExec s) && (op =? OP_CHECKCOLDSTAKEVERIFY)).
  { by destruct (CheckColdStake _ _ _ _). }
  apply bind_Ok in E as (s2 & E & Es). destruct (1000 <? _) eqn:?; [done|]. injection Es as <-.
  split; [lia|]. exists op, v.
  assert (s2.(pc) = rest ∧ (s2.(pbegincodehash) = s.(pbegincodehash) ∨ s2.(pbegincodehash) = rest))
    as (-> & Hcode); [|split_and!; [done|unfold small; lia|done..]].
  destruct (forallb id (vfExec s) && (0 <=? op) && (op <=? OP_PUSHDATA4)); [injection E as <-; cbn; by auto|].
  destruct (_ || _); [|by injection E as <-; auto]. by apply exec_op_pc in E.
Qed.

(** ** Termination *)

Lemma eval_loop_fuel script f g s :
  (length s.(pc) <= f)%nat → (length s.(pc) <= g)%nat →
  eval_loop checker flags sigversion f script s = eval_loop checker flags sigversion g script s.
Proof.
  revert g s; induction f as [|f IH]; intros g s Hf Hg.
  - destruct s.(pc) eqn:Epc; [|cbn in Hf; lia]. by destruct g; cbn; rewrite Epc.
  - destruct g as [|g]; [by destruct s.(pc) eqn:Epc; [cbn; rewrite Epc|cbn in Hg; lia]|].
    cbn [eval_loop]. destruct s.(pc) eqn:Epc; [done|]. rewrite <- Epc in *.
    destruct (eval_round _ _ _ script s) as [[s'|[]]| |] eqn:E; [|done..].
    destruct (eval_round_pc _ _ _ E) as (_ & op & v & Ho & _).
    apply GetOp2_shorter in Ho. apply IH; (done || lia).
Qed.

(** Evaluation from a state on, with enough fuel. *)
Definition run (script : CScript) (s : eval_state) : option eval_result :=
  eval_loop checker flags sigversion (length s.(pc)) script s.

Lemma run_done script s :
  s.(pc) = [] →
  run script s = Some (if bool_decide (s.(vfExec) = []) then EvalTrue s.(stack) SCRIPT_ERR_OK
                       else EvalFalse SCRIPT_ERR_UNBALANCED_CONDITIONAL).
Proof. intros E. unfold run. rewrite E. cbn. by rewrite E. Qed.

Lemma run_step script s :
  s.(pc) ≠ [] →
  run script s =
    match eval_round checker flags sigversion script s with
    | Ok (Next s') => run script s'
    | Ok (Return true e st) => Some (EvalTrue st e)
    | Ok (Return false e _) | Err e => Some (EvalFalse e)
    | Exn => Some (EvalFalse SCRIPT_ERR_UNKNOWN_ERROR)
    end.
Proof.
  intros Hpc. unfold run at 1. destruct s.(pc) as [|b l] eqn:Epc; [done|]. cbn [length eval_loop].
  rewrite Epc. destruct (eval_round _ _ _ script s) as [[s'|[]]| |] eqn:E; [|done..].
  destruct (eval_round_pc _ _ _ E) as (_ & op & v & Ho & _).
  apply GetOp2_shorter in Ho. rewrite Epc in Ho. cbn in Ho. apply eval_loop_fuel; (done || lia).
Qed.

Lemma run_total script s : ∃ r, run script s = Some r.
Proof.
  remember (length s.(pc)) as n eqn:Hn. revert s Hn.
  induction (lt_wf n) as [n _ IH]; intros s ->.
  destruct (decide (s.(pc) = [])) as [E|E].
  { rewrite run_done by done. by case_bool_decide; eauto. }
  rewrite run_step by done.
  destruct (eval_round _ _ _ script s) as [[s'|[]]| |] eqn:Er; eauto.
  destruct (eval_round_pc _ _ _ Er) as (_ & op & v & Ho & _).
  apply GetOp2_shorter in Ho. apply (IH (length s'.(pc))); (done || lia).
Qed.

Lemma EvalScript_run st script :
  EvalScript checker flags sigversion st script =
    if MAX_SCRIPT_SIZE <? size script then Some (EvalFalse SCRIPT_ERR_SCRIPT_SIZE)
    else run script (mkState st [] [] 0 script script).
Proof. done. Qed.

Lemma EvalScript_total st script : ∃ r, EvalScript checker flags sigversion st script = Some r.
Proof. rewrite EvalScript_run. destruct (_ <? _); [by eauto|]. apply run_total. Qed.

End progress.

Section effects.
Context `{ScriptCryptoLaws}.
Variable checker : BaseSignatureChecker.
Variable flags : Z.
Variable sigversion : SigVersion.

Lemma Hash_small v : small (RIPEMD160 v) ∧ small (SHA1 v) ∧ small (SHA256 v).
Proof.
  unfold small, MAX_SCRIPT_ELEMENT_SIZE. rewrite RIPEMD160_size, SHA1_size, SHA256_size. lia.
Qed.

(** Case analysis for a list all of whose elements are small. *)
Ltac small_lists :=
  repeat match goal with
  | H : Forall small (_ :: _) |- _ => apply Forall_cons in H as [? H]
  | |- Forall small (_ :: _) => apply Forall_cons; split
  | |- Forall small [] => constructor
  end; eauto with qrax.

Lemma op_shuffle_small op st st' :
  op_shuffle op st = Ok st' → Forall small st → Forall small st'.
Proof.
  unfold op_shuffle, op_rotate. intros E Hs. inv_res; subst; small_lists.
  match goal with |- context [CastToBool ?v] => destruct (CastToBool v) end; small_lists.
Qed.

Lemma op_pick_roll_small op st st' :
  op_pick_roll flags op st = Ok st' → Forall small st → Forall small st'.
Proof.
  unfold op_pick_roll. intros E Hs. inv_res; subst. unfold stacktop in *. inv_res; subst.
  small_lists; try (eapply Forall_lookup_1; [|done]; by constructor).
  destruct (op =? OP_ROLL); [apply Forall_delete|]; by constructor.
Qed.

Lemma stack_ops_small st st' :
  Forall small st →
  (op_size st = Ok st' ∨ op_within flags st = Ok st' ∨
   ∃ op, op_equal op st = Ok st' ∨ op_unary flags op st = Ok st' ∨ op_binary flags op st = Ok st' ∨
     op_hash op st = Ok st' ∨ ∃ code, op_checksig checker flags sigversion op code st = Ok st') →
  Forall small st'.
Proof.
  unfold op_size, op_within, op_equal, op_unary, op_binary, op_hash, op_checksig.
  intros Hs [E|[E|(op & [E|[E|[E|[E|[code E]]]]])]]; inv_res; subst; small_lists.
  unfold Hash160, Hash256. repeat case_match; apply Hash_small.
Qed.

(** What every case keeps: the operation limit and the size of the elements. *)
Definition state_ok (s : eval_state) : Prop :=
  0 <= s.(nOpCount) <= 201 ∧ Forall small s.(stack) ∧ Forall small s.(altstack).

Lemma on_stack_ok (f : list valtype → res (list valtype)) s s' :
  on_stack f s = Ok s' →
  (∀ st st', f st = Ok st' → Forall small st → Forall small st') →
  state_ok s → state_ok s'.
Proof.
  unfold on_stack. intros E Hf (? & ? & ?). inv_res; subst.
  split_and!; cbn; [lia..| |done]. eauto.
Qed.

Lemma op_checkmultisig_ok op s s' :
  op_checkmultisig checker flags sigversion op s = Ok s' → state_ok s → state_ok s'.
Proof.
  unfold op_checkmultisig. intros E (? & Hs & ?). inv_res; subst; cbn.
  all: match goal with Hd : drop _ _ = _ :: ?l |- _ =>
      assert (Forall small l) by (eapply Forall_cons; erewrite <- Hd; by apply Forall_drop) end.
  all: split_and!; cbn; [lia..| |done]; small_lists.
Qed.

Lemma exec_op_ok op b s s' :
  exec_op checker flags sigversion op b s = Ok s' → state_ok s → state_ok s'.
Proof.
  unfold exec_op. intros E Hok. pose proof Hok as (Hn & Hs & Ha).
  repeat match type of E with (if ?c then _ else _) = Ok _ => destruct c eqn:? end;
    try discriminate E;
    try match type of E with
    | op_checkmultisig _ _ _ _ _ = _ => by apply op_checkmultisig_ok in E
    | on_stack ?f _ = _ =>
        apply (on_stack_ok _ _ _ E); [|done];
        match f with
        | op_shuffle _ => apply op_shuffle_small
        | op_pick_roll _ _ => apply op_pick_roll_small
        | _ => intros st st' Est Hst; apply (stack_ops_small st); [done|]; by eauto 10
        end
    end.
  all: unfold op_checklocktimeverify, op_if, op_else, op_endif, op_verify, op_altstack in E; inv_res; subst;
    try exact Hok;
    try match goal with
    | E1 : stack _ = _ |- _ => rewrite E1 in Hs
    | E1 : altstack _ = _ |- _ => rewrite E1 in Ha
    end;
    (split; [exact Hn|]); split; cbn [stack altstack set_stack set_vfExec]; small_lists.
Qed.


Lemma eval_round_ok script s s' :
  eval_round checker flags sigversion script s = Ok (Next s') → state_ok s → state_ok s'.
Proof.
  unfold eval_round. destruct (GetOp2 s.(pc)) as [[[op v] rest]|]; [|done].
  intros E (Hn & Hs & Ha).
  destruct (MAX_SCRIPT_ELEMENT_SIZE <? size v) eqn:?; [done|].
  destruct ((OP_16 <? op) && _) eqn:?; [done|]. destruct (is_disabled op) eqn:?; [done|].
  match type of E with context [mkState ?a ?b ?c ?d ?e ?f] => set (s1 := mkState a b c d e f) in * end.
  assert (state_ok s1) as Hok by (split_and!; cbn; [destruct (OP_16 <? op); lia..|done|done]).
  destruct (_ && negb (CheckMinimalPush v op)); [done|].
  destruct (forallb id (vfExec s) && (op =? OP_CHECKCOLDSTAKEVERIFY)).
  { by destruct (CheckColdStake _ _ _ _). }
  apply bind_Ok in E as (s2 & E & Es). destruct (1000 <? _) eqn:?; [done|]. injection Es as <-.
  destruct (forallb id (vfExec s) && (0 <=? op) && (op <=? OP_PUSHDATA4)).
  - injection E as <-. destruct Hok as (? & ? & ?).
    split; [done|]. split; [|done]. constructor; [|done]. unfold small. lia.
  - destruct (_ || _); [|by injection E as <-]. by apply exec_op_ok in E.
Qed.

Lemma start_ok st script : Forall small st → state_ok (mkState st [] [] 0 script script).
Proof. intros. split_and!; cbn; [lia..|done|constructor]. Qed.
End effects.

(** ** Running known instructions *)

Section stepping.
Context `{ScriptCrypto}.
Variable checker : BaseSignatureChecker.
Variable flags : Z.
Variable sigversion : SigVersion.
Variable script : CScript.

Abbreviation runs := (run checker flags sigversion script).

(** The end of a round that did not return. *)
Definition after_case (r : res eval_state) : option eval_result :=
  match r with
  | Ok s =>
      if 1000 <? Z.of_nat (length s.(stack) + length s.(altstack)) then Some (EvalFalse SCRIPT_ERR_STACK_SIZE)
      else runs s
  | Err e => Some (EvalFalse e)
  | Exn => Some (EvalFalse SCRIPT_ERR_UNKNOWN_ERROR)
  end.

Lemma run_op op st alt vf n code rest :
  OP_16 < op → n + 1 <= 201 → is_disabled op = false → forallb id vf = true →
  op ≠ OP_CHECKCOLDSTAKEVERIFY →
  runs (mkState st alt vf n code (op :: rest)) =
    after_case (exec_op checker flags sigversion op true (mkState st alt vf (n + 1) code rest)).
Proof.
  intros Hop Hn Hd Hf Hc. rewrite run_step by done. unfold eval_round. cbn [pc vfExec nOpCount stack altstack pbegincodehash].
  rewrite Hf. assert (GetOp2 (op :: rest) = Some (op, [], rest)) as ->.
  { unfold GetOp2. rewrite (proj2 (Z.leb_gt _ _)); [done|]. unfold OP_16, OP_PUSHDATA4 in *. lia. }
  change (MAX_SCRIPT_ELEMENT_SIZE <? size []) with false. cbn iota.
  rewrite (proj2 (Z.ltb_lt _ _)) by done. rewrite (proj2 (Z.ltb_ge _ _)) by lia.
  rewrite Hd, (proj2 (Z.eqb_neq _ _)), (proj2 (Z.leb_gt op OP_PUSHDATA4)), !andb_false_r
    by (done || unfold OP_16, OP_PUSHDATA4 in *; lia).
  cbn [andb orb]. destruct (exec_op _ _ _ _ _ _) as [s'| |]; cbn [mbind res_bind after_case]; [|done..].
  by destruct (1000 <? _).
Qed.

Lemma run_push v st alt vf n code rest :
  small v → 1 < size v → forallb id vf = true →
  runs (mkState st alt vf n code (push_data v ++ rest)) =
    after_case (Ok (mkState (v :: st) alt vf n code rest)).
Proof.
  intros Hv Hv2 Hf. unfold small, MAX_SCRIPT_ELEMENT_SIZE in Hv.
  rewrite run_step by (unfold push_data; cbn; repeat case_match; done).
  unfold eval_round. cbn [pc vfExec nOpCount stack altstack pbegincodehash].
  rewrite Hf, push_GetOp2 by lia. unfold MAX_SCRIPT_ELEMENT_SIZE.
  rewrite (proj2 (Z.ltb_ge _ _)) by lia.
  assert (0 <= push_opcode v <= OP_PUSHDATA4 ∧ CheckMinimalPush v (push_opcode v) = true) as [Ho Hm].
  { unfold CheckMinimalPush, push_opcode, OP_PUSHDATA1, OP_PUSHDATA2, OP_PUSHDATA4.
    repeat case_match; split; lia. }
  assert (is_disabled (push_opcode v) = false) as ->.
  { unfold is_disabled. apply not_true_iff_false. intros (x & Hx & E%Z.eqb_eq)%existsb_exists.
    rewrite E in Ho. cbn in Hx. clear -Ho Hx. by repeat (destruct Hx as [<-|Hx]; [vm_compute in Ho; tauto|]). }
  rewrite Hm, (proj2 (Z.ltb_ge _ _)), (proj2 (Z.leb_le 0 _)), (proj2 (Z.leb_le _ OP_PUSHDATA4)), andb_false_r
    by (unfold OP_16, OP_PUSHDATA4 in *; lia).
  rewrite (proj2 (Z.eqb_neq _ _)) by (unfold OP_CHECKCOLDSTAKEVERIFY, OP_PUSHDATA4 in *; lia).
  cbn [andb mbind res_bind after_case]. by destruct (1000 <? _).
Qed.

End stepping.

(** ** Results *)

Lemma p2sh_head s : IsPayToScriptHash s = true → ∃ r, s = OP_HASH160 :: r ∧ size s = 23.
Proof.
  unfold IsPayToScriptHash, at_. intros E. destruct s as [|b s]; [done|]. cbn [nth] in E.
  exists s. split; [f_equal|]; lia.
Qed.

Section results.
Context `{ScriptCrypto}.
Variable checker : BaseSignatureChecker.
Variable flags : Z.
Variable sigversion : SigVersion.

Lemma p2sh_empty_stack s :
  IsPayToScriptHash s = true →
  EvalScript checker flags sigversion [] s = Some (EvalFalse SCRIPT_ERR_INVALID_STACK_OPERATION).
Proof.
  intros (r & -> & Hs)%p2sh_head. rewrite EvalScript_run. unfold MAX_SCRIPT_SIZE.
  rewrite (proj2 (Z.ltb_ge _ _)) by lia. by rewrite run_op.
Qed.

(** The states [EvalScript] goes through from the stack [st]. *)
Inductive reachable (st : list valtype) (script : CScript) : eval_state → Prop :=
  | reachable_start : reachable st script (mkState st [] [] 0 script script)
  | reachable_round s s' :
      reachable st script s → s.(pc) ≠ [] →
      eval_round checker flags sigversion script s = Ok (Next s') → reachable st script s'.

Lemma suffix_GetOp2 script s op v r : s `suffix_of` script → GetOp2 s = Some (op, v, r) → r `suffix_of` script.
Proof.
  intros Hs (pre & -> & _)%GetOp2_app. transitivity (op :: pre ++ v ++ r); [|done].
  exists (op :: pre ++ v). by rewrite <- app_comm_cons, <- app_assoc.
Qed.

Lemma run_reachable st script s st' e :
  reachable st script s → run checker flags sigversion script s = Some (EvalTrue st' e) →
  ∃ s', reachable st script s' ∧ s'.(stack) = st' ∧
    ((e = SCRIPT_ERR_OK ∧ s'.(pc) = [] ∧ s'.(vfExec) = []) ∨
     (∃ v r, GetOp2 s'.(pc) = Some (OP_CHECKCOLDSTAKEVERIFY, v, r))).
Proof.
  remember (length s.(pc)) as n eqn:Hn. revert s Hn.
  induction (lt_wf n) as [n _ IH]; intros s -> Hr.
  destruct (decide (s.(pc) = [])) as [E|E].
  { rewrite run_done by done. case_bool_decide; [|done]. intros [= <- <-]. eauto 10. }
  rewrite run_step by done.
  destruct (eval_round _ _ _ script s) as [[s'|[] e' st'']| |] eqn:Er; [..|done|done].
  - destruct (eval_round_pc _ _ _ _ _ _ Er) as (_ & op & v & Ho & _).
    apply GetOp2_shorter in Ho. apply (IH (length s'.(pc))); [lia|done|]. by eapply reachable_round.
  - intros [= -> ->]. exists s. split; [done|]. revert Er. unfold eval_round.
    destruct (GetOp2 s.(pc)) as [[[op v] rest]|]; [|done]. cbn zeta.
    destruct (_ <? size v); [done|]. destruct ((OP_16 <? op) && _); [done|].
    destruct (is_disabled op); [done|]. destruct (_ && negb (CheckMinimalPush v op)); [done|].
    destruct (_ && (op =? OP_CHECKCOLDSTAKEVERIFY)) eqn:Eop.
    + cbn. destruct (CheckColdStake _ _ _ _ _) as [b1 e1]. intros [= -> -> <-]. split; [done|]. right.
      exists v, rest. assert (op = OP_CHECKCOLDSTAKEVERIFY) as -> by lia. done.
    + intros (s2 & _ & E2)%bind_Ok. by destruct (1000 <? _).
  - done.
Qed.

End results.

(** Functions of the right output sizes, for the examples. *)
Definition pad (n : nat) (v : valtype) : valtype := resize n 1 v.
Definition sample_crypto : ScriptCrypto :=
  {| RIPEMD160 := pad 20; SHA1 := pad 20; SHA256 := pad 32; CheckLowS := λ _, true |}.
#[export] Instance sample_crypto_laws : @ScriptCryptoLaws sample_crypto.
Proof. split; intros; apply length_resize. Qed.

(** A checker that accepts a signature exactly when it is the public key reversed. *)
Definition sample_checker : BaseSignatureChecker :=
  {| CheckSig := λ sig pk _ _, Some (bool_decide (sig = reverse pk));
     CheckLockTime := λ t, t <=? 100;
     CheckColdStake := λ _ _ _ e, (true, e) |}.

(** C17: [EvalScript] and [VerifyScript] always return: a script of any length
    is evaluated in at most one round per byte, from any stack, and the
    assertion of the pay-to-script-hash branch cannot fail. *)
Theorem EvalScript_and_VerifyScript_return `{ScriptCrypto} checker flags sigversion :
  (∀ st script, ∃ r, EvalScript checker flags sigversion st script = Some r) ∧
  (∀ scriptSig scriptPubKey, ∃ b e, VerifyScript checker flags sigversion scriptSig scriptPubKey = Some (b, e)).
Proof.
  split; [intros; apply EvalScript_total|]. intros scriptSig scriptPubKey. unfold VerifyScript.
  destruct (_ && _); [by eauto|].
  destruct (EvalScript_total checker flags sigversion [] scriptSig) as [r1 ->]. cbn [mbind option_bind].
  destruct r1 as [st1 e1|e1]; [|by eauto].
  destruct (EvalScript_total checker flags sigversion st1 scriptPubKey) as [r2 E2]. rewrite E2. cbn [mbind option_bind].
  destruct r2 as [[|top st2] e2|e2]; [by eauto| |by eauto].
  destruct (CastToBool top); cbn [negb]; [|by eauto].
  destruct (has flags SCRIPT_VERIFY_P2SH && _) eqn:Ep; [|by eauto].
  destruct (IsPushOnly scriptSig); cbn [negb]; [|by eauto].
  destruct st1 as [|redeem st1].
  { apply andb_prop in Ep as [_ Ep]. by rewrite p2sh_empty_stack in E2. }
  destruct (EvalScript_total checker flags sigversion st1 redeem) as [r3 ->]. cbn [mbind option_bind].
  destruct r3 as [[|top3 st3] e3|e3]; [by eauto| |by eauto]. destruct (CastToBool top3); by eauto.
Qed.

(** C16: the resource limits of script evaluation.  In every state that
    [EvalScript] goes through at most 201 operations have been counted, the two
    stacks hold at most 1000 elements of at most 520 bytes each, and both the
    instruction pointer and the start of the signed code point into the script;
    a successful evaluation returns the stack of such a state, at the end of
    the script with all conditionals closed or at a cold-staking check. *)
Theorem EvalScript_respects_limits `{ScriptCryptoLaws} checker flags sigversion st script :
  Forall small st → (length st <= 1000)%nat →
  (∀ s, reachable checker flags sigversion st script s →
    0 <= s.(nOpCount) <= 201 ∧ (length s.(stack) + length s.(altstack) <= 1000)%nat ∧
    Forall small s.(stack) ∧ Forall small s.(altstack) ∧
    s.(pc) `suffix_of` script ∧ s.(pbegincodehash) `suffix_of` script) ∧
  (∀ st' e, EvalScript checker flags sigversion st script = Some (EvalTrue st' e) →
    ∃ s, reachable checker flags sigversion st script s ∧ s.(stack) = st' ∧
      ((e = SCRIPT_ERR_OK ∧ s.(pc) = [] ∧ s.(vfExec) = []) ∨
       (∃ v r, GetOp2 s.(pc) = Some (OP_CHECKCOLDSTAKEVERIFY, v, r)))).
Proof.
  intros Hst Hlen. split.
  - intros s Hr. enough (state_ok s ∧ (length s.(stack) + length s.(altstack) <= 1000)%nat ∧
      s.(pc) `suffix_of` script ∧ s.(pbegincodehash) `suffix_of` script) as ((? & ? & ?) & ? & ? & ?) by done.
    induction Hr as [|s s' _ (Hok & _ & Hpc & Hcode) _ E].
    + split_and!; cbn; [by apply start_ok|lia|done|done].
    + pose proof (eval_round_ok _ _ _ _ _ _ E Hok) as Hok'.
      apply eval_round_pc in E as (Hsz & op & v & Ho & _ & _ & Hc).
      pose proof (suffix_GetOp2 _ _ _ _ _ Hpc Ho). split_and!; [done|lia|done|]. by destruct Hc as [-> | ->].
  - intros st' e E. rewrite EvalScript_run in E. destruct (_ <? _); [done|].
    eapply run_reachable; [|exact E]. constructor.
Qed.

Lemma EvalScript_respects_limits_witness :
  let eval := @EvalScript sample_crypto sample_checker 0 SIGVERSION_BASE [] [OP_1; OP_DUP] in
  eval = Some (EvalTrue [[1]; [1]] SCRIPT_ERR_OK) ∧
  ∃ s, @reachable sample_crypto sample_checker 0 SIGVERSION_BASE [] [OP_1; OP_DUP] s ∧ s.(stack) = [[1]; [1]].
Proof.
  split; [vm_compute; reflexivity|].
  destruct (@EvalScript_respects_limits sample_crypto sample_crypto_laws sample_checker 0 SIGVERSION_BASE
    [] [OP_1; OP_DUP]) as [_ H]; [constructor|cbn; lia|].
  destruct (H [[1]; [1]] SCRIPT_ERR_OK) as (s & Hs & Es & _); [vm_compute; reflexivity|].
  by exists s.
Defined.

(** what [IsUnspendable] promises: a script that begins with OP_RETURN or is
    longer than 10,000 bytes fails from every stack, under all flags and for
    every signature checker; and a successful evaluation that ran to the end of
    its script executed no disabled opcode, not even in a branch not taken. *)
Theorem unspendable_and_disabled_scripts_fail `{ScriptCrypto} checker flags sigversion st script :
  (IsUnspendable script = true → ∃ e, EvalScript checker flags sigversion st script = Some (EvalFalse e)) ∧
  (Forall (λ i, i.1 ≠ OP_CHECKCOLDSTAKEVERIFY) (instructions script).1 →
   ∀ st' e, EvalScript checker flags sigversion st script = Some (EvalTrue st' e) →
     (instructions script).2 = [] ∧
     Forall (λ i, is_disabled i.1 = false ∧ small i.2) (instructions script).1).
Proof.
  split.
  - unfold IsUnspendable. intros Hu. rewrite EvalScript_run.
    destruct (MAX_SCRIPT_SIZE <? size script) eqn:Hs; [by eauto|].
    destruct script as [|b script]; [done|]. cbn [nth] in Hu.
    assert (b = OP_RETURN) as -> by lia. rewrite run_op by done. by eexists.
  - intros Hcold st' e E. rewrite EvalScript_run in E. destruct (_ <? _); [done|].
    set (s := mkState st [] [] 0 script script) in *.
    change script with s.(pc) in Hcold |- *. generalize s Hcold E. clear s Hcold E. intros s.
    remember (length s.(pc)) as n eqn:Hn. revert s Hn.
    induction (lt_wf n) as [n _ IH]; intros s -> Hcold.
    destruct (decide (s.(pc) = [])) as [E|E]; [by rewrite E|].
    rewrite run_step by done.
    destruct (eval_round _ _ _ script s) as [[s'|b e' st'']| |] eqn:Er; [| |done..].
    + apply eval_round_pc in Er as (_ & op & v & Ho & Hv & Hd & _).
      pose proof (GetOp2_shorter _ _ _ _ Ho). rewrite (instructions_cons _ _ _ _ Ho) in *.
      apply Forall_cons in Hcold as [_ Hcold]. cbn [fst snd] in *.
      intros Hr. destruct (IH (length s'.(pc)) ltac:(lia) s' eq_refl Hcold Hr) as [-> ?].
      split; [done|]. by constructor.
    + exfalso. revert Er. unfold eval_round.
      destruct (GetOp2 s.(pc)) as [[[op v] rest]|] eqn:Ho; [|done].
      rewrite (instructions_cons _ _ _ _ Ho) in Hcold. apply Forall_cons in Hcold as [Hcold _]. cbn [fst] in Hcold.
      rewrite (proj2 (Z.eqb_neq _ _)) by done. rewrite andb_false_r.
      destruct (_ <? size v); [done|]. destruct ((OP_16 <? op) && _); [done|].
      destruct (is_disabled op); [done|]. destruct (_ && negb (CheckMinimalPush v op)); [done|].
      intros (s2 & _ & E2)%bind_Ok. by destruct (1000 <? _).
Qed.

Lemma unspendable_and_disabled_scripts_fail_witness :
  IsUnspendable [OP_RETURN; 2; 7; 7] = true ∧
  ∃ e, @EvalScript sample_crypto sample_checker 0 SIGVERSION_BASE [[1]] [OP_RETURN; 2; 7; 7] = Some (EvalFalse e).
Proof.
  split; [reflexivity|].
  by apply (@unspendable_and_disabled_scripts_fail sample_crypto sample_checker 0 SIGVERSION_BASE [[1]] [OP_RETURN; 2; 7; 7]).
Defined.

(** ** Standard spends *)

Definition p2pkh (h : valtype) : CScript := [OP_DUP; OP_HASH160] ++ push_data h ++ [OP_EQUALVERIFY; OP_CHECKSIG].

Definition p2cs (staker owner : valtype) : CScript :=
  [OP_DUP; OP_HASH160; OP_ROT; OP_IF; OP_CHECKCOLDSTAKEVERIFY] ++ push_data staker ++
  [OP_ELSE] ++ push_data owner ++ [OP_ENDIF; OP_EQUALVERIFY; OP_CHECKSIG].

Lemma push_data_20 h : length h = 20%nat → push_data h = 0x14 :: h.
Proof. intros E. unfold push_data. by rewrite E. Qed.

Lemma p2pkh_template h : length h = 20%nat → IsPayToPublicKeyHash (p2pkh h) = true.
Proof.
  intros Hh. unfold p2pkh. rewrite push_data_20 by done.
  do 20 (destruct h as [|? h]; [done|]). by destruct h.
Qed.

Lemma p2cs_template staker owner b :
  length staker = 20%nat → length owner = 20%nat → IsPayToColdStaking b (p2cs staker owner) = true.
Proof.
  intros Hs Ho. unfold p2cs. rewrite !push_data_20 by done.
  do 20 (destruct staker as [|? staker]; [done|]). destruct staker; [|done].
  do 20 (destruct owner as [|? owner]; [done|]). destruct owner; [|done]. by destruct b.
Qed.

Lemma p2cs_size staker owner :
  length staker = 20%nat → length owner = 20%nat → size (p2cs staker owner) = 51.
Proof. intros Hs Ho. unfold p2cs. rewrite !push_data_20 by done. rewrite !length_app. cbn [length]. lia. Qed.

Section spends.
Context `{ScriptCrypto}.
Variable checker : BaseSignatureChecker.
Variable flags : Z.
Variable sigversion : SigVersion.

Lemma after_case_small script s :
  (length s.(stack) + length s.(altstack) <= 1000)%nat →
  after_case checker flags sigversion script (Ok s) = run checker flags sigversion script s.
Proof. intros Hs. unfold after_case. by rewrite (proj2 (Z.ltb_ge _ _)) by lia. Qed.

Lemma push_data_size v : small v → size (push_data v) <= size v + 3.
Proof.
  unfold small, MAX_SCRIPT_ELEMENT_SIZE, push_data. intros Hv.
  repeat case_match; rewrite length_app; cbn [length]; rewrite ?WriteLE_length; lia.
Qed.

(** Evaluation of a script that pushes a list of elements. *)
Lemma run_pushes script items st n code :
  Forall (λ v, small v ∧ 1 < size v) items → (length items + length st <= 1000)%nat →
  run checker flags sigversion script (mkState st [] [] n code (concat (push_data <$> items)))
    = Some (EvalTrue (reverse items ++ st) SCRIPT_ERR_OK).
Proof.
  intros Hi. revert st; induction Hi as [|v items [Hv Hv2] _ IH]; intros st Hl; [by rewrite run_done|].
  cbn [fmap list_fmap concat length] in *. rewrite run_push by done.
  rewrite after_case_small by (cbn; lia). rewrite IH by (cbn; lia).
  by rewrite reverse_cons, <- app_assoc.
Qed.

Lemma pushes_push_only items :
  Forall (λ v, small v) items → IsPushOnly (concat (push_data <$> items)) = true.
Proof.
  intros Hi. unfold IsPushOnly. rewrite IsPushOnly_fuel, instructions_pushes.
  - cbn [fst snd]. apply forallb_forall. intros i (b & -> & _)%list_elem_of_In%list_elem_of_fmap.
    cbn. pose proof (push_opcode_le b). lia.
  - eapply Forall_impl; [exact Hi|]. unfold small, MAX_SCRIPT_ELEMENT_SIZE. intros. lia.
  - done.
Qed.

Lemma EvalScript_pushes items :
  Forall (λ v, small v ∧ 1 < size v) items → (length items <= 10)%nat →
  EvalScript checker flags sigversion [] (concat (push_data <$> items))
    = Some (EvalTrue (reverse items) SCRIPT_ERR_OK).
Proof.
  intros Hi Hl. rewrite EvalScript_run.
  assert (size (concat (push_data <$> items)) <= 523 * size items).
  { clear Hl. induction Hi as [|v items [Hv _] _ IH]; [done|].
    cbn [fmap list_fmap concat length] in *. rewrite length_app. pose proof (push_data_size v Hv).
    unfold small, MAX_SCRIPT_ELEMENT_SIZE in Hv. lia. }
  unfold MAX_SCRIPT_SIZE. rewrite (proj2 (Z.ltb_ge _ _)) by lia.
  rewrite run_pushes; [|done|cbn; lia]. by rewrite app_nil_r.
Qed.

End spends.

Section p2pkh.
Context `{ScriptCrypto}.
Variable checker : BaseSignatureChecker.
Variable flags : Z.
Variable sigversion : SigVersion.

(** One opcode that succeeds, in the main branch of a script. *)
Lemma run_op_ok script op st n code rest s :
  OP_16 < op → n + 1 <= 201 → is_disabled op = false → op ≠ OP_CHECKCOLDSTAKEVERIFY →
  exec_op checker flags sigversion op true (mkState st [] [] (n + 1) code rest) = Ok s →
  (length s.(stack) + length s.(altstack) <= 1000)%nat →
  run checker flags sigversion script (mkState st [] [] n code (op :: rest)) =
  run checker flags sigversion script s.
Proof. intros ? ? ? ? E ?. rewrite run_op by done. by rewrite E, after_case_small. Qed.

Lemma eval_p2pkh sig pk h :
  length h = 20%nat →
  EvalScript checker flags sigversion [pk; sig] (p2pkh h) =
    if bool_decide (Hash160 pk = h) then
      after_case checker flags sigversion (p2pkh h)
        (on_stack (op_checksig checker flags sigversion OP_CHECKSIG (p2pkh h))
           (mkState [pk; sig] [] [] 4 (p2pkh h) []))
    else Some (EvalFalse SCRIPT_ERR_EQUALVERIFY).
Proof.
  intros Hh. rewrite EvalScript_run.
  assert (size (p2pkh h) = 25) as Hs.
  { unfold p2pkh. rewrite push_data_20, !length_app by done. cbn. lia. }
  rewrite Hs. change (MAX_SCRIPT_SIZE <? 25) with false. cbn iota.
  unfold p2pkh at 3. cbn [app].
  rewrite (run_op_ok _ OP_DUP _ _ _ _ (mkState [pk; pk; sig] [] [] 1 (p2pkh h)
    (OP_HASH160 :: push_data h ++ [OP_EQUALVERIFY; OP_CHECKSIG]))) by (done || cbn; lia).
  rewrite (run_op_ok _ OP_HASH160 _ _ _ _ (mkState [Hash160 pk; pk; sig] [] [] 2 (p2pkh h)
    (push_data h ++ [OP_EQUALVERIFY; OP_CHECKSIG]))) by (done || cbn; lia).
  rewrite run_push by (done || unfold small, MAX_SCRIPT_ELEMENT_SIZE; lia).
  rewrite after_case_small, run_op by (done || cbn; lia).
  change (exec_op _ _ _ OP_EQUALVERIFY _ _) with
    (on_stack (op_equal OP_EQUALVERIFY) (mkState [h; Hash160 pk; pk; sig] [] [] 3 (p2pkh h) [OP_CHECKSIG])).
  unfold on_stack, op_equal. cbn [stack].
  change (OP_EQUALVERIFY =? OP_EQUALVERIFY) with true. cbn iota.
  destruct (bool_decide (Hash160 pk = h)); [|done]. cbn [mbind res_bind set_stack].
  rewrite after_case_small by (cbn; lia). unfold set_stack; cbn [altstack vfExec nOpCount pbegincodehash pc].
  by rewrite run_op by done.
Qed.

End p2pkh.

(** C18: pay to public key hash.  A spend that pushes a signature and a key is
    accepted exactly when the key has the hash in the output, both encodings
    pass the checks the flags ask for, and the checker accepts the signature
    over the output script (with copies of the signature removed). *)
Theorem p2pkh_spend_iff `{ScriptCrypto} checker flags sigversion sig pk h :
  small sig → 1 < size sig → small pk → 1 < size pk → length h = 20%nat →
  IsPayToPublicKeyHash (p2pkh h) = true ∧
  (VerifyScript checker flags sigversion (push_data sig ++ push_data pk) (p2pkh h) = Some (true, SCRIPT_ERR_OK) ↔
   Hash160 pk = h ∧ CheckSignatureEncoding sig flags = Ok tt ∧ CheckPubKeyEncoding pk flags = Ok tt ∧
   checker.(CheckSig) sig pk (FindAndDelete (p2pkh h) (push_data sig)).1 sigversion = Some true).
Proof.
  intros Hs Hs2 Hp Hp2 Hh. split; [by apply p2pkh_template|].
  assert (push_data sig ++ push_data pk = concat (push_data <$> [sig; pk])) as E by (cbn; by rewrite app_nil_r).
  unfold VerifyScript. rewrite E, pushes_push_only, andb_false_r by (repeat constructor; done).
  rewrite EvalScript_pushes; [|repeat constructor; done|cbn; lia]. cbn [mbind option_bind].
  change (reverse [sig; pk]) with [pk; sig]. rewrite eval_p2pkh by done.
  assert (IsPayToScriptHash (p2pkh h) = false) as ->.
  { unfold IsPayToScriptHash, p2pkh. rewrite push_data_20, !length_app by done. cbn [length]. by rewrite Hh. }
  rewrite andb_false_r. case_bool_decide as Hk; [|split; [done|by intros [? _]]].
  unfold on_stack, op_checksig. cbn [stack].
  destruct (CheckSignatureEncoding sig flags) as [[]| |]; cbn [mbind res_bind]; [|split; [done|by intros (_ & ? & _)]..].
  destruct (CheckPubKeyEncoding pk flags) as [[]| |]; cbn [mbind res_bind]; [|split; [done|by intros (_ & _ & ? & _)]..].
  destruct (CheckSig _ _ _ _ _) as [[]|]; cbn [or_throw mbind res_bind];
    change (OP_CHECKSIG =? OP_CHECKSIGVERIFY) with false; cbn iota; cbn [mbind res_bind];
    try (rewrite after_case_small by (cbn; lia); rewrite run_done by done; cbn); [done|..].
  all: split; [done|by intros (_ & _ & _ & ?)].
Qed.

Lemma p2pkh_spend_iff_witness :
  let pk := replicate 33 3 in let h := replicate 20 3 in
  @VerifyScript sample_crypto sample_checker 0 SIGVERSION_BASE (push_data pk ++ push_data pk) (p2pkh h)
    = Some (true, SCRIPT_ERR_OK).
Proof.
  assert (small (replicate 33 3) ∧ 1 < size (replicate 33 3)) as [Hs Hs2] by (vm_compute; by split).
  apply (proj2 (proj2 (@p2pkh_spend_iff sample_crypto sample_checker 0 SIGVERSION_BASE
    (replicate 33 3) (replicate 33 3) (replicate 20 3) Hs Hs2 Hs Hs2 eq_refl))).
  vm_compute. by split_and!.
Defined.

Section p2cs.
Context `{ScriptCrypto}.
Variable checker : BaseSignatureChecker.
Variable flags : Z.
Variable sigversion : SigVersion.

Lemma run_OP_1 script st n code rest :
  run checker flags sigversion script (mkState st [] [] n code (OP_1 :: rest)) =
  after_case checker flags sigversion script (Ok (mkState ([1] :: st) [] [] n code rest)).
Proof.
  rewrite run_step by done. unfold eval_round, after_case. cbn [pc vfExec nOpCount stack altstack pbegincodehash].
  change (GetOp2 (OP_1 :: rest)) with (Some (OP_1, [] : valtype, rest)). cbn -[run length].
  by destruct (1000 <? _).
Qed.

(** The staker's branch ends at the cold-staking check. *)
Lemma eval_p2cs_staker sig pk staker owner :
  length staker = 20%nat → length owner = 20%nat →
  EvalScript checker flags sigversion [pk; [1]; sig] (p2cs staker owner) =
    let '(b, e) := checker.(CheckColdStake) (p2cs staker owner) [Hash160 pk; pk; sig] flags SCRIPT_ERR_UNKNOWN_ERROR in
    Some (if b then EvalTrue [Hash160 pk; pk; sig] e else EvalFalse e).
Proof.
  intros Hs Ho. rewrite EvalScript_run.
  rewrite p2cs_size by done. change (MAX_SCRIPT_SIZE <? 51) with false. cbn iota.
  set (rest := push_data staker ++ [OP_ELSE] ++ push_data owner ++ [OP_ENDIF; OP_EQUALVERIFY; OP_CHECKSIG]).
  set (code := p2cs staker owner).
  change (mkState _ [] [] 0 code code) with
    (mkState [pk; [1]; sig] [] [] 0 code (OP_DUP :: OP_HASH160 :: OP_ROT :: OP_IF :: OP_CHECKCOLDSTAKEVERIFY :: rest)).
  rewrite (run_op_ok _ _ _ _ OP_DUP _ _ _ _ (mkState [pk; pk; [1]; sig] [] [] 1 code
    (OP_HASH160 :: OP_ROT :: OP_IF :: OP_CHECKCOLDSTAKEVERIFY :: rest))) by (done || cbn; lia).
  rewrite (run_op_ok _ _ _ _ OP_HASH160 _ _ _ _ (mkState [Hash160 pk; pk; [1]; sig] [] [] 2 code
    (OP_ROT :: OP_IF :: OP_CHECKCOLDSTAKEVERIFY :: rest))) by (done || cbn; lia).
  rewrite (run_op_ok _ _ _ _ OP_ROT _ _ _ _ (mkState [[1]; Hash160 pk; pk; sig] [] [] 3 code
    (OP_IF :: OP_CHECKCOLDSTAKEVERIFY :: rest))) by (done || cbn; lia).
  rewrite (run_op_ok _ _ _ _ OP_IF _ _ _ _ (mkState [Hash160 pk; pk; sig] [] [true] 4 code
    (OP_CHECKCOLDSTAKEVERIFY :: rest))) by (done || cbn; lia).
  rewrite run_step by done. unfold eval_round. cbn [pc vfExec nOpCount stack altstack pbegincodehash].
  change (GetOp2 (OP_CHECKCOLDSTAKEVERIFY :: rest)) with (Some (OP_CHECKCOLDSTAKEVERIFY, [] : valtype, rest)).
  cbn -[code rest p2cs]. by destruct (CheckColdStake _ _ _ _ _) as [[] e].
Qed.

End p2cs.

Lemma coldstake_branch_verdict `{ScriptCrypto} checker flags sigversion sig pk staker owner :
  small sig → 1 < size sig → small pk → 1 < size pk →
  length staker = 20%nat → length owner = 20%nat →
  IsPayToColdStaking true (p2cs staker owner) = true ∧
  VerifyScript checker flags sigversion (push_data sig ++ [OP_1] ++ push_data pk) (p2cs staker owner) =
    Some (let '(b, e) := checker.(CheckColdStake) (p2cs staker owner) [Hash160 pk; pk; sig] flags
                           SCRIPT_ERR_UNKNOWN_ERROR in
          if b : bool then
            if CastToBool (Hash160 pk) then (true, SCRIPT_ERR_OK) else (false, SCRIPT_ERR_EVAL_FALSE)
          else (false, e)).
Proof.
  intros Hs Hs2 Hp Hp2 Hst How. split; [by apply p2cs_template|].
  assert (IsPushOnly (push_data sig ++ [OP_1] ++ push_data pk) = true) as Hpush.
  { unfold IsPushOnly, small, MAX_SCRIPT_ELEMENT_SIZE in *. rewrite IsPushOnly_fuel by done.
    rewrite (instructions_cons _ _ _ _ (push_GetOp2 sig _ ltac:(lia))).
    rewrite (instructions_cons ([OP_1] ++ push_data pk) OP_1 [] (push_data pk) eq_refl).
    rewrite <- (app_nil_r (push_data pk)), (instructions_cons _ _ _ _ (push_GetOp2 pk [] ltac:(lia))).
    cbn. pose proof (push_opcode_le sig). pose proof (push_opcode_le pk). unfold OP_16 in *. lia. }
  unfold VerifyScript. rewrite Hpush, andb_false_r.
  assert (EvalScript checker flags sigversion [] (push_data sig ++ [OP_1] ++ push_data pk)
    = Some (EvalTrue [pk; [1]; sig] SCRIPT_ERR_OK)) as ->.
  { rewrite EvalScript_run. unfold MAX_SCRIPT_SIZE. rewrite (proj2 (Z.ltb_ge _ _)).
    - rewrite run_push, after_case_small by (done || cbn; lia). cbn [app].
      rewrite run_OP_1, after_case_small by (cbn; lia).
      rewrite <- (app_nil_r (push_data pk)). rewrite run_push, after_case_small by (done || cbn; lia).
      by rewrite run_done.
    - pose proof (push_data_size sig Hs). pose proof (push_data_size pk Hp).
      unfold small, MAX_SCRIPT_ELEMENT_SIZE in *. rewrite !length_app. cbn. lia. }
  cbn [mbind option_bind]. rewrite eval_p2cs_staker by done.
  assert (IsPayToScriptHash (p2cs staker owner) = false) as ->.
  { unfold IsPayToScriptHash. by rewrite p2cs_size. }
  rewrite andb_false_r. destruct (CheckColdStake _ _ _ _ _) as [[] e]; cbn [mbind option_bind]; [|done].
  by destruct (CastToBool (Hash160 pk)).
Qed.

(** spending a cold-staking output through the staker's branch.  The
    instruction OP_CHECKCOLDSTAKEVERIFY returns from [EvalScript] with the
    answer of [CheckColdStake], so the EQUALVERIFY and CHECKSIG that follow it
    in the output are not executed: whether the spend is accepted depends on
    that answer alone (and on the key's hash not being a false value), not on
    the signature, and not on the key hash the output names. *)
Theorem coldstake_branch_skips_signature `{ScriptCrypto} checker flags sigversion sig pk staker owner :
  small sig → 1 < size sig → small pk → 1 < size pk →
  length staker = 20%nat → length owner = 20%nat →
  IsPayToColdStaking true (p2cs staker owner) = true ∧
  VerifyScript checker flags sigversion (push_data sig ++ [OP_1] ++ push_data pk) (p2cs staker owner) =
    Some (let '(b, e) := checker.(CheckColdStake) (p2cs staker owner) [Hash160 pk; pk; sig] flags
                           SCRIPT_ERR_UNKNOWN_ERROR in
          if b : bool then
            if CastToBool (Hash160 pk) then (true, SCRIPT_ERR_OK) else (false, SCRIPT_ERR_EVAL_FALSE)
          else (false, e)).
Proof. apply coldstake_branch_verdict. Qed.

(** The checker below rejects every signature. *)
Lemma coldstake_branch_skips_signature_witness :
  let no_signatures := {| CheckSig := λ _ _ _ _, Some false; CheckLockTime := λ _, false;
                          CheckColdStake := λ _ _ _ e, (true, e) |} in
  @VerifyScript sample_crypto no_signatures SCRIPT_VERIFY_P2SH SIGVERSION_BASE
    (push_data [9; 9] ++ [OP_1] ++ push_data (replicate 33 2)) (p2cs (replicate 20 5) (replicate 20 6))
  = Some (true, SCRIPT_ERR_OK).
Proof.
  intros no_signatures.
  assert (small [9; 9] ∧ 1 < size [9; 9] ∧ small (replicate 33 2) ∧ 1 < size (replicate 33 2))
    as (H1 & H2 & H3 & H4) by (vm_compute; by split_and!).
  exact (proj2 (@coldstake_branch_skips_signature sample_crypto no_signatures SCRIPT_VERIFY_P2SH SIGVERSION_BASE
    [9; 9] (replicate 33 2) (replicate 20 5) (replicate 20 6) H1 H2 H3 H4 eq_refl eq_refl)).
Defined.

(** ** Multisignature *)

(** The signatures can be assigned, in order, to distinct keys that accept them. *)
Inductive sig_matching (accepts : valtype → valtype → bool) : list valtype → list valtype → Prop :=
  | sig_matching_nil ks : sig_matching accepts [] ks
  | sig_matching_use s ss k ks :
      accepts s k = true → sig_matching accepts ss ks → sig_matching accepts (s :: ss) (k :: ks)
  | sig_matching_skip ss k ks : sig_matching accepts ss ks → sig_matching accepts ss (k :: ks).

Lemma sig_matching_length a ss ks : sig_matching a ss ks → (length ss <= length ks)%nat.
Proof. induction 1; cbn; lia. Qed.

Lemma sig_matching_tail a s ss ks : sig_matching a (s :: ss) ks → sig_matching a ss ks.
Proof.
  remember (s :: ss) as l eqn:El. intros Hm. revert El.
  induction Hm; intros; simplify_eq; eauto using sig_matching.
Qed.

Lemma sig_matching_cons a s ss k ks :
  sig_matching a (s :: ss) (k :: ks) ↔
  if a s k then sig_matching a ss ks else sig_matching a (s :: ss) ks.
Proof.
  destruct (a s k) eqn:E; split; intros Hm.
  - inversion Hm; subst; [done|]. by eapply sig_matching_tail.
  - by apply sig_matching_use.
  - inversion Hm; subst; [congruence|done].
  - by apply sig_matching_skip.
Qed.

Lemma script_num_small flags n : 0 <= n <= 20 → script_num flags (serialize n) = Ok n.
Proof.
  intros Hn. destruct (serialize_value n 4) as (Hb & Hl & Hm & Hs); [lia|lia|].
  unfold script_num, CScriptNum_of_vch, nDefaultMaxNumSize.
  rewrite (proj2 (Z.ltb_ge _ _)), Hm, andb_false_r by done. by rewrite set_vch_spec, Hs by (done || lia).
Qed.

Section multisig.
Context `{ScriptCrypto}.
Variable checker : BaseSignatureChecker.
Variable flags : Z.
Variable sigversion : SigVersion.
Variable accepts : valtype → valtype → bool.

(** The encodings of these signatures and keys pass, and the checker answers. *)
Definition checkable (code : CScript) (sigs keys : list valtype) : Prop :=
  (∀ s, s ∈ sigs → CheckSignatureEncoding s flags = Ok tt) ∧
  (∀ k, k ∈ keys → CheckPubKeyEncoding k flags = Ok tt) ∧
  (∀ s k, s ∈ sigs → k ∈ keys → checker.(CheckSig) s k code sigversion = Some (accepts s k)).

Lemma stacktop_prefix st i x l :
  1 <= i → x :: l `prefix_of` drop (Z.to_nat (i - 1)) st →
  stacktop st i = Ok x ∧ l `prefix_of` drop (Z.to_nat (i + 1 - 1)) st.
Proof.
  intros Hi [r E]. unfold stacktop.
  assert (st !! Z.to_nat (i - 1) = Some x) as ->.
  { rewrite <- (Nat.add_0_r (Z.to_nat (i - 1))), <- lookup_drop, E. done. }
  split; [done|]. exists r.
  replace (Z.to_nat (i + 1 - 1)) with (Z.to_nat (i - 1) + 1)%nat by lia.
  by rewrite <- drop_drop, E.
Qed.

Lemma multisig_loop_spec fuel st code sigs keys isig ikey :
  checkable code sigs keys → (length sigs <= length keys <= fuel)%nat → 1 <= isig → 1 <= ikey →
  sigs `prefix_of` drop (Z.to_nat (isig - 1)) st → keys `prefix_of` drop (Z.to_nat (ikey - 1)) st →
  ∃ b, multisig_loop checker flags sigversion fuel st code true isig ikey
         (Z.of_nat (length sigs)) (Z.of_nat (length keys)) = Ok b ∧
       (b = true ↔ sig_matching accepts sigs keys).
Proof.
  revert sigs keys isig ikey; induction fuel as [|fuel IH];
    intros sigs keys isig ikey Hc Hl Hi Hk Hps Hpk; cbn [multisig_loop].
  { destruct sigs; [|cbn in Hl; lia]. cbn. exists true. split; [done|]. split; [constructor|done]. }
  destruct sigs as [|s ss]. { exists true. split; [done|]. split; [constructor|done]. }
  destruct keys as [|k ks]; [cbn in Hl; lia|].
  rewrite (proj2 (Z.ltb_lt _ _)) by (cbn; lia). cbn [andb].
  pose proof Hc as (Hcs & Hck & Hcc).
  destruct (stacktop_prefix _ _ _ _ Hi Hps) as [-> Hps'].
  destruct (stacktop_prefix _ _ _ _ Hk Hpk) as [-> Hpk']. cbn [mbind res_bind].
  rewrite Hcs, Hck by constructor. cbn [mbind res_bind]. rewrite Hcc by constructor. cbn [or_throw mbind res_bind].
  replace (Z.of_nat (length (k :: ks)) - 1) with (Z.of_nat (length ks)) by (cbn; lia).
  setoid_rewrite sig_matching_cons. destruct (accepts s k).
  - replace (Z.of_nat (length (s :: ss)) - 1) with (Z.of_nat (length ss)) by (cbn; lia).
    rewrite (proj2 (Z.ltb_ge _ _)) by (cbn in *; lia).
    apply IH; try done; [|cbn in *; lia..].
    split_and!; intros; [apply Hcs|apply Hck|apply Hcc]; by constructor.
  - destruct (Z.ltb_spec (Z.of_nat (length ks)) (Z.of_nat (length (s :: ss)))) as [Hlt|Hge]; cbn [negb].
    + exists false. split; [by destruct fuel|]. split; [done|]. intros Hm%sig_matching_length. lia.
    + apply IH; try done; [|cbn in *; lia..].
      split_and!; intros; [apply Hcs|apply Hck|apply Hcc]; done || by constructor.
Qed.

End multisig.

(** C19: OP_CHECKMULTISIG, for well-encoded signatures and keys and an empty
    dummy element: the one pass over the keys from the top of the stack answers
    true exactly when the signatures can be assigned, in order, to distinct
    keys that accept them; all its arguments and the dummy are removed, and the
    keys count towards the operation limit. *)
Theorem checkmultisig_iff_matching `{ScriptCrypto} checker flags sigversion accepts
    keys sigs rest alt vf n code p :
  (length keys <= 20)%nat → (length sigs <= length keys)%nat → n + Z.of_nat (length keys) <= 201 →
  checkable checker flags sigversion accepts (drop_sigs code sigs) sigs keys →
  ∃ b, exec_op checker flags sigversion OP_CHECKMULTISIG true
         (mkState (serialize (Z.of_nat (length keys)) :: keys ++
                   serialize (Z.of_nat (length sigs)) :: sigs ++ [] :: rest) alt vf n code p)
       = Ok (mkState (vch_bool b :: rest) alt vf (n + Z.of_nat (length keys)) code p) ∧
       (b = true ↔ sig_matching accepts sigs keys).
Proof.
  intros Hk Hs Hn Hc.
  change (exec_op _ _ _ OP_CHECKMULTISIG) with
    (λ _ : bool, @op_checkmultisig _ checker flags sigversion OP_CHECKMULTISIG).
  cbv beta. unfold op_checkmultisig. cbn [stack nOpCount pbegincodehash].
  set (st := serialize _ :: _).
  assert (length st = length keys + length sigs + 3 + length rest)%nat as Hst.
  { unfold st. cbn [length]. rewrite !length_app. cbn [length]. rewrite !length_app. cbn [length]. lia. }
  assert (∀ m x r, drop m st = x :: r → stacktop st (Z.of_nat m + 1) = Ok x) as Htop.
  { intros m x r E. unfold stacktop.
    replace (Z.to_nat (Z.of_nat m + 1 - 1)) with (m + 0)%nat by lia. by rewrite <- lookup_drop, E. }
  assert (drop (S (length keys)) st = serialize (Z.of_nat (length sigs)) :: sigs ++ [] :: rest) as Ed1.
  { unfold st. cbn [drop]. by rewrite drop_app_length. }
  assert (drop (S (length keys) + (1 + length sigs)) st = [] :: rest) as Ed2.
  { rewrite <- drop_drop, Ed1. cbn [drop Nat.add]. by rewrite drop_app_length. }
  rewrite (proj2 (Z.ltb_ge _ _)) by lia.
  rewrite (Htop 0%nat _ _ eq_refl : stacktop st 1 = _). cbn [mbind res_bind].
  rewrite script_num_small by lia. cbn [mbind res_bind].
  assert (∀ m, 0 <= m <= 20 → getint m = m) as Hg by (intros; unfold getint; repeat case_match; lia).
  rewrite Hg by lia. rewrite (proj2 (Z.ltb_ge _ 0)), (proj2 (Z.ltb_ge 20 _)) by lia. cbn [orb].
  rewrite (proj2 (Z.ltb_ge 201 _)), (proj2 (Z.ltb_ge (Z.of_nat (length st)) _)) by lia.
  replace (2 + Z.of_nat (length keys)) with (Z.of_nat (S (length keys)) + 1) by lia.
  rewrite (Htop _ _ _ Ed1). cbn [mbind res_bind]. rewrite script_num_small by lia. cbn [mbind res_bind].
  rewrite Hg by lia. rewrite (proj2 (Z.ltb_ge _ 0)), (proj2 (Z.ltb_ge (Z.of_nat (length keys)) _)) by lia. cbn [orb].
  rewrite (proj2 (Z.ltb_ge (Z.of_nat (length st)) _)) by lia.
  replace (Z.to_nat (Z.of_nat (S (length keys)) + 1 + 1 - 1)) with (S (length keys) + 1)%nat by lia.
  rewrite <- drop_drop, Ed1, Nat2Z.id, Nat2Z.id. rewrite (skipn_cons 0), drop_0, take_app_length.
  destruct (multisig_loop_spec checker flags sigversion accepts (length keys) st (drop_sigs code sigs) sigs keys
    (Z.of_nat (S (length keys)) + 1 + 1) 2) as (b & -> & Hb); [done|lia|lia|lia| | |].
  { replace (Z.to_nat _) with (S (length keys) + 1)%nat by lia. rewrite <- drop_drop, Ed1. cbn [drop].
    by eexists. }
  { change (Z.to_nat (2 - 1)) with 1%nat. unfold st. cbn [drop]. rewrite drop_0. by eexists. }
  exists b. split; [|done]. cbn [mbind res_bind].
  replace (Z.to_nat _) with (S (length keys) + (1 + length sigs))%nat by lia. rewrite Ed2.
  by rewrite bool_decide_true, andb_false_r by done.
Qed.

Lemma checkmultisig_iff_matching_witness :
  let keys := [[1; 2]; [3; 4]; [5; 6]] in let sigs := [[2; 1]; [6; 5]] in
  ∃ b, @exec_op sample_crypto sample_checker 0 SIGVERSION_BASE OP_CHECKMULTISIG true
         (mkState (serialize 3 :: keys ++ serialize 2 :: sigs ++ [[]]) [] [] 1 [] [])
       = Ok (mkState [vch_bool b] [] [] 4 [] []) ∧ b = true.
Proof.
  intros keys sigs.
  destruct (@checkmultisig_iff_matching sample_crypto sample_checker 0 SIGVERSION_BASE
    (λ s k, bool_decide (s = reverse k)) keys sigs [] [] [] 1 [] []) as (b & E & Hb).
  - cbn; lia.
  - cbn; lia.
  - cbn; lia.
  - split_and!; [|done|done]. intros s Hs. by destruct s.
  - exists b. split; [exact E|]. apply Hb. unfold keys, sigs.
    apply sig_matching_use; [done|]. apply sig_matching_skip. apply sig_matching_use; [done|]. constructor.
Defined.

(** ** Signature encoding *)

(** A DER integer of a signature: not empty, not negative, no superfluous
    leading zero byte. *)
Definition der_int (v : valtype) : Prop :=
  match v with
  | [] => False
  | [a] => a < 128
  | a :: b :: _ => a < 128 ∧ (a = 0 → 128 <= b)
  end.

Definition der_intb (v : valtype) : bool :=
  (Z.land (nth 0 v 0) 0x80 =? 0) &&
  negb ((1 <? size v) && (nth 0 v 0 =? 0) && (Z.land (nth 1 v 0) 0x80 =? 0)).

Lemma der_intb_spec v : bytes v → v ≠ [] → der_intb v = true ↔ der_int v.
Proof.
  intros Hb Hv. unfold der_intb, der_int. destruct v as [|a [|b v]]; [done|..].
  - inversion_clear Hb. cbn [nth]. rewrite land_128 by done. change (1 <? size [a]) with false. cbn [andb]. lia.
  - inversion_clear Hb as [|? ? Ha Hb']. inversion_clear Hb' as [|? ? Hb'' _]. cbn [nth length].
    rewrite !land_128 by done. lia.
Qed.

Lemma nth_app_l i (l k : list Z) : 0 <= i < size l → nth (Z.to_nat i) (l ++ k) 0 = nth (Z.to_nat i) l 0.
Proof. intros. apply app_nth1. lia. Qed.

Lemma nth_app_r i j (l k : list Z) :
  i = size l + j → 0 <= j → nth (Z.to_nat i) (l ++ k) 0 = nth (Z.to_nat j) k 0.
Proof. intros -> ?. rewrite app_nth2 by lia. f_equal. lia. Qed.

Lemma IsValidSignatureEncoding_form a0 a1 a2 R c0 S ht :
  R ≠ [] → S ≠ [] → bytes R → bytes S → bytes [c0; ht] →
  let sig := [a0; a1; a2; size R] ++ R ++ [c0; size S] ++ S ++ [ht] in
  IsValidSignatureEncoding sig =
    (size sig <=? 73) && (a0 =? 0x30) && (a1 =? size R + size S + 4) && (a2 =? 2) && (c0 =? 2)
    && der_intb R && der_intb S.
Proof.
  intros HR HS HbR HbS Hcb sig.
  assert (0 < size R ∧ 0 < size S) as [] by (destruct R, S; done).
  assert (size sig = size R + size S + 7) as Hn.
  { unfold sig. rewrite !length_app. cbn [length]. lia. }
  assert (∀ i, 0 <= i < size R → nth (Z.to_nat (4 + i)) sig 0 = nth (Z.to_nat i) R 0) as HnR.
  { intros i Hi. unfold sig. rewrite (nth_app_r (4 + i) i) by (cbn; lia). by apply nth_app_l. }
  assert (∀ i, 0 <= i → nth (Z.to_nat (size R + 4 + i)) sig 0 = nth (Z.to_nat i) ([c0; size S] ++ S ++ [ht]) 0) as HnT.
  { intros i Hi. unfold sig. rewrite (nth_app_r _ (size R + i)) by (cbn; lia). apply nth_app_r; lia. }
  assert (∀ i, 0 <= i < size S → nth (Z.to_nat (size R + 6 + i)) sig 0 = nth (Z.to_nat i) S 0) as HnS.
  { intros i Hi. replace (size R + 6 + i) with (size R + 4 + (2 + i)) by lia. rewrite HnT by lia.
    rewrite (nth_app_r (2 + i) i) by (cbn; lia). by apply nth_app_l. }
  unfold IsValidSignatureEncoding. rewrite Hn.
  change (nth (Z.to_nat 0) sig 0) with a0. change (nth (Z.to_nat 1) sig 0) with a1.
  change (nth (Z.to_nat 2) sig 0) with a2. change (nth (Z.to_nat 3) sig 0) with (size R).
  replace (nth (Z.to_nat (5 + size R)) sig 0) with (size S)
    by (replace (5 + size R) with (size R + 4 + 1) by lia; by rewrite HnT by lia).
  replace (nth (Z.to_nat (size R + 4)) sig 0) with c0
    by (replace (size R + 4) with (size R + 4 + 0) by lia; by rewrite HnT by lia).
  replace (nth (Z.to_nat 4) sig 0) with (nth 0 R 0) by (symmetry; apply (HnR 0); lia).
  replace (nth (Z.to_nat (size R + 6)) sig 0) with (nth 0 S 0)
    by (replace (size R + 6) with (size R + 6 + 0) by lia; symmetry; apply (HnS 0); lia).
  assert ((1 <? size R) && (nth 0 R 0 =? 0) && negb (negb (Z.land (nth (Z.to_nat 5) sig 0) 0x80 =? 0))
    = (1 <? size R) && (nth 0 R 0 =? 0) && (Z.land (nth 1 R 0) 0x80 =? 0)) as ->.
  { rewrite negb_involutive. destruct (Z.ltb_spec 1 (size R)); [|done].
    change (Z.to_nat 5) with (Z.to_nat (4 + 1)). by rewrite HnR by lia. }
  assert ((1 <? size S) && (nth 0 S 0 =? 0) && negb (negb (Z.land (nth (Z.to_nat (size R + 7)) sig 0) 0x80 =? 0))
    = (1 <? size S) && (nth 0 S 0 =? 0) && (Z.land (nth 1 S 0) 0x80 =? 0)) as ->.
  { rewrite negb_involutive. destruct (Z.ltb_spec 1 (size S)); [|done].
    replace (size R + 7) with (size R + 6 + 1) by lia. by rewrite HnS by lia. }
  unfold der_intb. 
  generalize (Z.land (nth 0 R 0) 128 =? 0), (Z.land (nth 0 S 0) 128 =? 0),
    ((1 <? size R) && (nth 0 R 0 =? 0) && (Z.land (nth 1 R 0) 128 =? 0)),
    ((1 <? size S) && (nth 0 S 0 =? 0) && (Z.land (nth 1 S 0) 128 =? 0)).
  intros x1 x2 x3 x4. rewrite (proj2 (Z.eqb_eq (size R + size S + 7) _)) by done.
  rewrite (proj2 (Z.ltb_ge _ 9)), (proj2 (Z.leb_gt (size R + size S + 7) _)) by lia.
  rewrite (proj2 (Z.eqb_neq (size R) 0)), (proj2 (Z.eqb_neq (size S) 0)) by lia.
  replace (size R + size S + 7 - 3) with (size R + size S + 4) by lia.
  rewrite (Z.ltb_antisym _ 73). cbn [negb].
  destruct (_ <=? 73), (a0 =? 48), (a1 =? _), (a2 =? 2), (c0 =? 2), x1, x2, x3, x4; done.
Qed.

Lemma IsValidSignatureEncoding_lengths sig :
  IsValidSignatureEncoding sig = true →
  let lenR := nth 3 sig 0 in let lenS := nth (Z.to_nat (5 + lenR)) sig 0 in
  9 <= size sig ∧ 5 + lenR < size sig ∧ lenR + lenS + 7 = size sig ∧ lenR ≠ 0 ∧ lenS ≠ 0.
Proof.
  unfold IsValidSignatureEncoding. cbv zeta. change (Z.to_nat 3) with 3%nat. intros E.
  repeat match type of E with
  | (if ?c then false else _) = true => let Ec := fresh "Ec" in destruct c eqn:Ec; [discriminate E|]
  end.
  clear E. split_and!; lia.
Qed.

(** The parts of a string whose length bytes agree with its length. *)
Lemma signature_parts sig :
  let lenR := nth 3 sig 0 in let lenS := nth (Z.to_nat (5 + lenR)) sig 0 in
  9 <= size sig → 0 < lenR → 0 < lenS → lenR + lenS + 7 = size sig →
  ∃ a0 a1 a2 R c0 S ht, size R = lenR ∧ size S = lenS ∧
    sig = [a0; a1; a2; size R] ++ R ++ [c0; size S] ++ S ++ [ht].
Proof.
  intros lenR lenS H9 HR HS Hn.
  destruct sig as [|a0 [|a1 [|a2 [|a3 t]]]]; [cbn in H9; lia..|]. cbn [nth] in lenR. subst lenR.
  cbn [length] in Hn.
  set (R := take (Z.to_nat a3) t). set (t' := drop (Z.to_nat a3) t).
  assert (size R = a3) as ER by (unfold R; rewrite length_take; lia).
  assert (length t' = Z.to_nat (lenS + 3)) as Et' by (unfold t'; rewrite length_drop; lia).
  assert (lenS = nth 1 t' 0) as ES.
  { unfold lenS, t'. rewrite nth_skipn. replace (Z.to_nat (5 + a3)) with (4 + (Z.to_nat a3 + 1))%nat by lia. done. }
  destruct t' as [|c0 [|c1 u]] eqn:Eu; [cbn [length] in Et'; lia..|]. cbn [nth length] in ES, Et'.
  destruct (snoc_cases u) as [->|(S & ht & ->)]; [cbn [length] in Et'; lia|]. rewrite length_app in Et'. cbn [length] in Et'.
  exists a0, a1, a2, R, c0, S, ht. split_and!; [done|lia|].
  replace (size S) with c1 by lia. rewrite ER. cbn [app]. do 4 f_equal.
  rewrite <- (take_drop (Z.to_nat a3) t). fold R. f_equal. exact Eu.
Qed.

(** [IsValidSignatureEncoding] accepts exactly the strings
    [30 len 02 lenR R 02 lenS S hashtype] of at most 73 bytes in which the
    lengths agree and [R] and [S] are minimal non-negative integers, as the
    comment above it says. *)
Theorem IsValidSignatureEncoding_iff_der (sig : valtype) :
  bytes sig →
  IsValidSignatureEncoding sig = true ↔
  ∃ R S ht, sig = [0x30; size R + size S + 4; 2; size R] ++ R ++ [2; size S] ++ S ++ [ht] ∧
    der_int R ∧ der_int S ∧ size sig <= 73.
Proof.
  intros Hb. split.
  - intros Hv. pose proof (IsValidSignatureEncoding_lengths _ Hv) as (H9 & H5 & Hn & HR & HS).
    assert (∀ i, 0 <= nth i sig 0) as Hpos.
    { intros i. destruct (nth_in_or_default i sig 0) as [Hi| ->]; [|done].
      apply list_elem_of_In in Hi. unfold bytes in Hb. rewrite Forall_forall in Hb. apply (Hb _ Hi). }
    pose proof (Hpos 3%nat). pose proof (Hpos (Z.to_nat (5 + nth 3 sig 0))).
    destruct (signature_parts sig) as (a0 & a1 & a2 & R & c0 & S & ht & ER & ES & E); [lia..|].
    assert (R ≠ [] ∧ S ≠ []) as [HR' HS'] by (split; intros ->; cbn in *; lia).
    assert (bytes R ∧ bytes S ∧ bytes [c0; ht]) as (HbR & HbS & Hc).
    { rewrite E in Hb. rewrite !bytes_app in Hb. destruct Hb as (_ & ? & Hc & ? & Hh).
      split_and!; [done..|]. inversion_clear Hc; inversion_clear Hh. constructor; [done|]. constructor; [done|constructor]. }
    rewrite E, IsValidSignatureEncoding_form in Hv by done. rewrite <- E in Hv.
    repeat (apply andb_prop in Hv as [Hv ?]).
    exists R, S, ht. rewrite <- (der_intb_spec R), <- (der_intb_spec S) by done.
    split_and!; [|done|done|lia]. rewrite E. repeat f_equal; lia.
  - intros (R & S & ht & -> & HR & HS & Hl).
    assert (R ≠ [] ∧ S ≠ []) as [HR' HS'] by (split; intros ->; done).
    rewrite !bytes_app in Hb. destruct Hb as (_ & HbR & Hc & HbS & Hh).
    rewrite IsValidSignatureEncoding_form; try done.
    + rewrite (proj2 (der_intb_spec R HbR HR') HR), (proj2 (der_intb_spec S HbS HS') HS). lia.
    + inversion_clear Hc; inversion_clear Hh. constructor; [done|]. constructor; [done|constructor].
Qed.

Lemma IsValidSignatureEncoding_iff_der_witness :
  let sig := [0x30; 6; 2; 1; 5; 2; 1; 9; 1] in
  bytes sig ∧ IsValidSignatureEncoding sig = true.
Proof.
  intros sig. assert (bytes sig) as Hb by (apply (bool_decide_unpack _); vm_compute; exact I).
  split; [exact Hb|]. apply (IsValidSignatureEncoding_iff_der sig Hb).
  exists [5], [9], 1. split; [reflexivity|]. split; [done|].
  split; [done|]. cbn. lia.
Defined.
