(* ===== verification/Serialize.v ===== *)
(** * Serialize: the wire format of numbers, vectors and optional values ([serialize.h])

    A stream is a list of bytes.  Writing appends to it; reading returns the
    value and the rest, or [None] where the C++ throws (end of the stream, or a
    malformed value).  A [codec] pairs the two functions for a type, and the
    class [RoundTrip] is the promise of a codec to its users: what was written
    is read back, whatever follows. *)

From S2P Require Import Prelude ArithUint256 Script.
Local Open Scope Z_scope.

Definition MAX_SIZE : Z := 0x02000000.

Record codec (A : Type) := {
  enc : A → list Z;
  dec : list Z → option (A * list Z);
}.
Arguments enc {A} c a.
Arguments dec {A} c s.

(** ** Fixed-size data *)

(** [s.read] of [n] bytes. *)
Definition read_bytes (n : nat) (s : list Z) : option (list Z * list Z) :=
  if bool_decide (n <= length s)%nat then Some (take n s, drop n s) else None.

(** [ser_writedata8] to [ser_writedata64] and their readers: little-endian,
    [n] bytes. *)
Definition ser_writedata (n : nat) (x : Z) : list Z := WriteLE n x.
Definition ser_readdata (n : nat) (s : list Z) : option (Z * list Z) :=
  '(l, s) ← read_bytes n s; Some (ReadLE l, s).

Definition c_unsigned (n : nat) : codec Z :=
  {| enc := ser_writedata n; dec := ser_readdata n |}.

(** A signed type is written as the unsigned one of the same width. *)
Definition c_signed (n : nat) : codec Z :=
  {| enc x := ser_writedata n (x mod 256 ^ Z.of_nat n);
     dec s := '(x, s) ← ser_readdata n s; Some (swrap (8 * Z.of_nat n) x, s) |}.

(** Arrays of [n] bytes. *)
Definition c_array (n : nat) : codec (list Z) :=
  {| enc a := a; dec := read_bytes n |}.

(** [base_uint]: its limbs in memory. *)
Fixpoint read_limbs (W : nat) (s : list Z) : option (base_uint * list Z) :=
  match W with
  | O => Some ([], s)
  | S W =>
      '(x, s) ← ser_readdata 4 s;
      '(pn, s) ← read_limbs W s;
      Some (x :: pn, s)
  end.
Definition c_uint (W : nat) : codec base_uint :=
  {| enc pn := concat (ser_writedata 4 <$> pn); dec := read_limbs W |}.

(** ** Compact sizes *)

Definition GetSizeOfCompactSize (nSize : Z) : Z :=
  if nSize <? 253 then 1
  else if nSize <=? 0xffff then 1 + 2
  else if nSize <=? 0xffffffff then 1 + 4
  else 1 + 8.

Definition WriteCompactSize (nSize : Z) : list Z :=
  if nSize <? 253 then ser_writedata 1 nSize
  else if nSize <=? 0xffff then ser_writedata 1 253 ++ ser_writedata 2 nSize
  else if nSize <=? 0xffffffff then ser_writedata 1 254 ++ ser_writedata 4 nSize
  else ser_writedata 1 255 ++ ser_writedata 8 nSize.

Definition ReadCompactSize (s : list Z) : option (Z * list Z) :=
  '(chSize, s) ← ser_readdata 1 s;
  '(nSizeRet, s) ←
    (if chSize <? 253 then Some (chSize, s)
     else if chSize =? 253 then
       '(n, s) ← ser_readdata 2 s; if n <? 253 then None else Some (n, s)
     else if chSize =? 254 then
       '(n, s) ← ser_readdata 4 s; if n <? 0x10000 then None else Some (n, s)
     else
       '(n, s) ← ser_readdata 8 s; if n <? 0x100000000 then None else Some (n, s));
  if MAX_SIZE <? nSizeRet then None else Some (nSizeRet, s).

(** ** Variable-length integers *)

(** The loop that fills [tmp]; [acc] holds the bytes to be written after the
    current one.  Ten bytes hold 64 bits in groups of seven. *)
Fixpoint WriteVarInt_loop (fuel : nat) (n : Z) (more : bool) (acc : list Z) : list Z :=
  let b := Z.lor (Z.land n 0x7F) (if more then 0x80 else 0x00) in
  if n <=? 0x7F then b :: acc
  else match fuel with
       | O => []
       | S fuel => WriteVarInt_loop fuel (Z.shiftr n 7 - 1) true (b :: acc)
       end.
Definition WriteVarInt (n : Z) : list Z := WriteVarInt_loop 9 n false [].

Fixpoint GetSizeOfVarInt_loop (fuel : nat) (n nRet : Z) : Z :=
  if n <=? 0x7F then nRet + 1
  else match fuel with
       | O => nRet
       | S fuel => GetSizeOfVarInt_loop fuel (Z.shiftr n 7 - 1) (nRet + 1)
       end.
Definition GetSizeOfVarInt (n : Z) : Z := GetSizeOfVarInt_loop 9 n 0.

(** [wrap] is the conversion to the type [I] of the template. *)
Fixpoint ReadVarInt_loop (wrap : Z → Z) (n : Z) (s : list Z) : option (Z * list Z) :=
  match s with
  | [] => None
  | chData :: s =>
      let n := Z.lor (wrap (Z.shiftl n 7)) (Z.land chData 0x7F) in
      if negb (Z.land chData 0x80 =? 0) then ReadVarInt_loop wrap (wrap (n + 1)) s else Some (n, s)
  end.
Definition ReadVarInt (s : list Z) : option (Z * list Z) := ReadVarInt_loop u64 0 s.

(** [VARINT] of a [uint64_t] and of an [unsigned int]. *)
Definition c_varint64 : codec Z := {| enc := WriteVarInt; dec := ReadVarInt |}.
Definition c_varint32 : codec Z := {| enc := WriteVarInt; dec := ReadVarInt_loop u32 0 |}.

(** ** Vectors and optional values *)

(** [std::vector<unsigned char>], [prevector] and [std::string]: one blob. *)
Definition c_blob : codec (list Z) :=
  {| enc v := WriteCompactSize (size v) ++ v;
     dec s := '(nSize, s) ← ReadCompactSize s; read_bytes (Z.to_nat nSize) s |}.

(** The elements, one after the other; the chunks in which the C++ enlarges the
    vector do not show in the result. *)
Fixpoint read_items {A} (c : codec A) (n : nat) (s : list Z) : option (list A * list Z) :=
  match n with
  | O => Some ([], s)
  | S n =>
      '(a, s) ← c.(dec) s;
      '(v, s) ← read_items c n s;
      Some (a :: v, s)
  end.
Definition c_vector {A} (c : codec A) : codec (list A) :=
  {| enc v := WriteCompactSize (size v) ++ concat (c.(enc) <$> v);
     dec s := '(nSize, s) ← ReadCompactSize s; read_items c (Z.to_nat nSize) s |}.

Definition c_optional {A} (c : codec A) : codec (option A) :=
  {| enc o := match o with Some a => 0x01 :: c.(enc) a | None => [0x00] end;
     dec s := '(d, s) ← ser_readdata 1 s;
              if d =? 0x00 then Some (None, s) else '(a, s) ← c.(dec) s; Some (Some a, s) |}.

(** ** The interface of a codec *)

Class RoundTrip {A} (ok : A → Prop) (c : codec A) : Prop :=
  round_trip a rest : ok a → c.(dec) (c.(enc) a ++ rest) = Some (a, rest).

Lemma read_bytes_app l k n : length l = n → read_bytes n (l ++ k) = Some (l, k).
Proof.
  intros <-. unfold read_bytes. rewrite bool_decide_true by (rewrite length_app; lia).
  by rewrite take_app_length, drop_app_length.
Qed.

Lemma ser_readdata_app n x k :
  0 <= x < 256 ^ Z.of_nat n → ser_readdata n (ser_writedata n x ++ k) = Some (x, k).
Proof.
  intros Hx. unfold ser_readdata, ser_writedata. rewrite read_bytes_app by apply WriteLE_length.
  cbn. by rewrite ReadLE_WriteLE.
Qed.

#[export] Instance c_unsigned_rt n : RoundTrip (λ x, 0 <= x < 256 ^ Z.of_nat n) (c_unsigned n).
Proof. intros x rest Hx. by apply ser_readdata_app. Qed.

#[export] Instance c_signed_rt n :
  RoundTrip (λ x, (0 < n)%nat ∧ - 2 ^ (8 * Z.of_nat n - 1) <= x < 2 ^ (8 * Z.of_nat n - 1)) (c_signed n).
Proof.
  intros x rest [Hn Hx]. cbn.
  assert (256 ^ Z.of_nat n = 2 ^ (8 * Z.of_nat n)) as E by (symmetry; apply pow256; lia).
  rewrite ser_readdata_app by (apply Z.mod_pos_bound; lia). cbn. do 2 f_equal.
  unfold swrap. rewrite E.
  rewrite Zplus_mod_idemp_l. apply (swrap_id (8 * Z.of_nat n)); lia.
Qed.

#[export] Instance c_array_rt n : RoundTrip (λ a, length a = n) (c_array n).
Proof. intros a rest Ha. by apply read_bytes_app. Qed.

#[export] Instance c_uint_rt W : RoundTrip (wf W) (c_uint W).
Proof.
  intros pn rest [Hl Hf]. cbn. revert W Hl; induction Hf as [|x pn Hx _ IH]; intros W <-; [done|].
  cbn [length read_limbs fmap list_fmap concat]. rewrite <- app_assoc, ser_readdata_app by mlia. cbn [mbind option_bind].
  by rewrite IH.
Qed.

(** Evaluates the sizes of the fixed-width fields. *)
Ltac eval_pow256 :=
  repeat match goal with
  | H : context [256 ^ Z.of_nat ?n] |- _ =>
      let v := eval vm_compute in (256 ^ Z.of_nat n) in change (256 ^ Z.of_nat n) with v in H
  end.

Lemma WriteLE_ReadLE l : bytes l → WriteLE (length l) (ReadLE l) = l.
Proof.
  induction 1 as [|b l Hb Hl IH]; [done|]. cbn [length WriteLE ReadLE].
  replace ((b + 256 * ReadLE l) mod 256) with b by mlia.
  replace ((b + 256 * ReadLE l) / 256) with (ReadLE l) by mlia. by rewrite IH.
Qed.

Lemma ser_readdata_inv n s x r :
  bytes s → ser_readdata n s = Some (x, r) →
  s = ser_writedata n x ++ r ∧ 0 <= x < 256 ^ Z.of_nat n ∧ bytes r.
Proof.
  intros Hb. unfold ser_readdata, read_bytes. case_bool_decide as Hn; [|done]. cbn. intros [= <- <-].
  assert (length (take n s) = n) as El by (rewrite length_take; lia).
  assert (bytes (take n s) ∧ bytes (drop n s)) as [Ht Hd] by (by apply bytes_app; rewrite take_drop).
  unfold ser_writedata. rewrite <- El at 1. rewrite WriteLE_ReadLE, take_drop by done.
  split; [done|]. split; [|done]. pose proof (ReadLE_bound _ Ht) as Hr. by rewrite El in Hr.
Qed.

Lemma ReadCompactSize_app n k : 0 <= n <= MAX_SIZE → ReadCompactSize (WriteCompactSize n ++ k) = Some (n, k).
Proof.
  intros Hn. unfold MAX_SIZE in Hn. unfold ReadCompactSize, WriteCompactSize, MAX_SIZE.
  repeat case_match; rewrite <- ?app_assoc, ser_readdata_app by (cbn; lia); cbn [mbind option_bind];
    repeat (rewrite ?ser_readdata_app by (cbn; lia); case_match || cbn [mbind option_bind]);
    simplify_eq; try done; lia.
Qed.

Lemma ReadCompactSize_inv s n r :
  bytes s → ReadCompactSize s = Some (n, r) → s = WriteCompactSize n ++ r ∧ 0 <= n <= MAX_SIZE.
Proof.
  intros Hb. unfold ReadCompactSize.
  destruct (ser_readdata 1 s) as [[ch s1]|] eqn:E1; cbn [mbind option_bind]; [|done].
  apply ser_readdata_inv in E1 as (-> & Hch & Hb1); [|done]. eval_pow256.
  unfold WriteCompactSize.
  destruct (Z.ltb_spec ch 253); cbn [mbind option_bind].
  { destruct (MAX_SIZE <? ch) eqn:?; [done|]. intros [= <- <-].
    rewrite (proj2 (Z.ltb_lt _ _)) by done. split; [done|lia]. }
  destruct (Z.eqb_spec ch 253) as [->|];
    [|destruct (Z.eqb_spec ch 254) as [->|]; [|assert (ch = 255) as -> by lia]];
    (match goal with |- context [ser_readdata ?m s1] => destruct (ser_readdata m s1) as [[x s2]|] eqn:E2 end;
      cbn [mbind option_bind]; [|done]);
    (apply ser_readdata_inv in E2 as (-> & Hx & _); [|done]); eval_pow256;
    (match goal with |- context [if (?y <? ?b) then None else _] => destruct (Z.ltb_spec y b) end; [done|]); cbn [mbind option_bind];
    (destruct (MAX_SIZE <? x) eqn:?; [done|]); try (exfalso; unfold MAX_SIZE in *; lia); intros [= <- <-];
    repeat (case_match; try lia);
    rewrite <- app_assoc; (split; [done|lia]).
Qed.

(** compact sizes are canonical: every length up to [MAX_SIZE] is read back
    as written, whatever follows, in the number of bytes
    [GetSizeOfCompactSize] announces; and whatever [ReadCompactSize] accepts is
    what [WriteCompactSize] writes for the value it returns. *)
Theorem CompactSize_canonical (n : Z) (s r : list Z) :
  (0 <= n <= MAX_SIZE →
     ReadCompactSize (WriteCompactSize n ++ r) = Some (n, r) ∧
     size (WriteCompactSize n) = GetSizeOfCompactSize n) ∧
  (bytes s → ReadCompactSize s = Some (n, r) → s = WriteCompactSize n ++ r ∧ 0 <= n <= MAX_SIZE).
Proof.
  split; [|apply ReadCompactSize_inv]. intros Hn. split; [by apply ReadCompactSize_app|].
  unfold WriteCompactSize, GetSizeOfCompactSize, ser_writedata.
  repeat case_match; rewrite ?length_app, ?WriteLE_length; done.
Qed.

Lemma CompactSize_canonical_witness :
  ReadCompactSize (WriteCompactSize 515 ++ [7]) = Some (515, [7]) ∧
  WriteCompactSize 515 = [253; 3; 2].
Proof.
  split; [|reflexivity].
  apply (CompactSize_canonical 515 (WriteCompactSize 515 ++ [7]) [7]). unfold MAX_SIZE. lia.
Defined.

(** One byte of a variable-length integer. *)
Lemma varint_byte n (more : bool) :
  let b := Z.lor (Z.land n 0x7F) (if more then 0x80 else 0x00) in
  Z.land b 0x7F = n mod 128 ∧ negb (Z.land b 0x80 =? 0) = more.
Proof.
  cbn. assert (Z.land n 0x7F = n mod 128) as -> by apply (Z.land_ones n 7 ltac:(done)).
  pose proof (Z.mod_pos_bound n 128 eq_refl).
  assert (∀ x, 0 <= x < 128 → Z.land (Z.lor x 0x80) 0x7f = x ∧ negb (Z.land (Z.lor x 0x80) 0x80 =? 0) = true ∧
    Z.land (Z.lor x 0) 0x7f = x ∧ negb (Z.land (Z.lor x 0) 0x80 =? 0) = false) as Hx.
  { intros x Hx.
    pose proof (byte_cases (λ x, (128 <=? x) || (Z.land (Z.lor x 0x80) 0x7f =? x) &&
      negb (Z.land (Z.lor x 0x80) 0x80 =? 0) && (Z.land (Z.lor x 0) 0x7f =? x) && (Z.land (Z.lor x 0) 0x80 =? 0))
      x eq_refl ltac:(mlia)) as E. cbv beta in E. lia. }
  destruct (Hx (n mod 128) H) as (? & ? & ? & ?). by destruct more.
Qed.

Lemma WriteVarInt_loop_spec wrap M fuel n (more : bool) acc rest :
  (∀ x, 0 <= x < M → wrap x = x) → 
  0 <= n < M - (if more then 1 else 0) → n < 128 ^ (Z.of_nat fuel + 1) → 
  ReadVarInt_loop wrap 0 (WriteVarInt_loop fuel n more acc ++ rest) =
    if more then ReadVarInt_loop wrap (n + 1) (acc ++ rest) else Some (n, acc ++ rest).
Proof.
  intros Hw. assert (0 < M → wrap 0 = 0) as H0 by (intros; apply Hw; lia). revert n more acc; induction fuel as [|fuel IH]; intros n more acc Hn Hf; cbn [WriteVarInt_loop];
    pose proof (varint_byte n more) as [Hb7 Hb8]; set (b := Z.lor _ _) in *; cbn zeta in *.
  - change (128 ^ (Z.of_nat 0 + 1)) with 128 in Hf. rewrite (proj2 (Z.leb_le _ _)) by lia.
    cbn [app ReadVarInt_loop]. rewrite Hb7, Hb8, Z.mod_small by lia. change (Z.shiftl 0 7) with 0. rewrite H0 by (destruct more; lia).
    rewrite Z.lor_0_l. destruct more; [|done]. by rewrite Hw by lia.
  - destruct (Z.leb_spec n 0x7F).
    + cbn [app ReadVarInt_loop]. rewrite Hb7, Hb8, Z.mod_small by lia. change (Z.shiftl 0 7) with 0. rewrite H0 by (destruct more; lia).
      rewrite Z.lor_0_l. destruct more; [|done]. by rewrite Hw by lia.
    + rewrite Z.shiftr_div_pow2 by done. change (2 ^ 7) with 128.
      assert (1 <= n / 128) by (apply Z.div_le_lower_bound; lia).
      assert (n < M) by (destruct more; lia).
      pose proof (Z.div_mod n 128 ltac:(lia)). pose proof (Z.mod_pos_bound n 128 eq_refl).
      rewrite IH.
      * cbn [app ReadVarInt_loop]. rewrite Hb7, Hb8. replace (n / 128 - 1 + 1) with (n / 128) by lia.
        rewrite Z.shiftl_mul_pow2 by done. change (2 ^ 7) with 128.
        rewrite (Hw (n / 128 * 128)) by lia.
        assert (Z.lor (n / 128 * 128) (n mod 128) = n) as ->.
        { rewrite Z.lor_comm, <- (Z.shiftl_mul_pow2 _ 7), lor_add_shift by lia. lia. }
        destruct more; [|done]. by rewrite Hw by lia.
      * destruct more; lia.
      * replace (Z.of_nat (S fuel) + 1) with (Z.succ (Z.of_nat fuel + 1)) in Hf by lia.
        rewrite Z.pow_succ_r in Hf by lia.
        pose proof (Z.div_lt_upper_bound n 128 (128 ^ (Z.of_nat fuel + 1)) eq_refl). lia.
Qed.

(** variable-length integers: every 64-bit value is read back as written,
    whatever follows, without overflow of the ten-byte buffer. *)
Theorem VarInt_roundtrip (n : Z) (rest : list Z) :
  is_u64 n → ReadVarInt (WriteVarInt n ++ rest) = Some (n, rest).
Proof.
  intros Hn. unfold ReadVarInt, WriteVarInt. rewrite (WriteVarInt_loop_spec u64 (2 ^ 64)); [done|intros; apply u64_id; mlia|mlia|].
  unfold is_u64 in Hn. change (128 ^ (Z.of_nat 9 + 1)) with (2 ^ 70). mlia.
Qed.

Lemma VarInt_roundtrip_witness : is_u64 65535 ∧ ReadVarInt (WriteVarInt 65535 ++ [1]) = Some (65535, [1]).
Proof. assert (is_u64 65535) as H by mlia. split; [exact H|]. exact (VarInt_roundtrip 65535 [1] H). Defined.

(** The table above [GetSizeOfVarInt] has these encodings as [82 FD 7F] and
    [80 FF 7F]. *)
Example VarInt_documented_examples :
  WriteVarInt 65535 = [0x82; 0xFE; 0x7F] ∧ WriteVarInt 16511 = [0xFF; 0x7F].
Proof. done. Qed.

(** ** Vectors and optional values *)

Section composite.
Context {A : Type} (ok : A → Prop) (c : codec A) `{!RoundTrip ok c}.

Lemma read_items_app v rest :
  Forall ok v → read_items c (length v) (concat (c.(enc) <$> v) ++ rest) = Some (v, rest).
Proof.
  induction 1 as [|a v Ha _ IH]; [done|]. cbn [length read_items fmap list_fmap concat].
  rewrite <- app_assoc, round_trip by done. cbn [mbind option_bind]. by rewrite IH.
Qed.

#[export] Instance c_vector_rt : RoundTrip (λ v, Forall ok v ∧ size v <= MAX_SIZE) (c_vector c).
Proof.
  intros v rest [Hv Hl]. cbn. rewrite <- app_assoc, ReadCompactSize_app by lia. cbn [mbind option_bind].
  rewrite Nat2Z.id. by apply read_items_app.
Qed.

#[export] Instance c_optional_rt : RoundTrip (λ o, ∀ a, o = Some a → ok a) (c_optional c).
Proof.
  intros [a|] rest Ho; cbn [enc dec c_optional app].
  - change (ser_readdata 1 (1 :: ?l)) with (ser_readdata 1 (ser_writedata 1 1 ++ l)).
    rewrite ser_readdata_app by (cbn; lia). cbn. rewrite round_trip; [done|by apply Ho].
  - done.
Qed.

End composite.

#[export] Instance c_blob_rt : RoundTrip (λ v, size v <= MAX_SIZE) c_blob.
Proof.
  intros v rest Hv. cbn. rewrite <- app_assoc, ReadCompactSize_app by lia. cbn [mbind option_bind].
  rewrite Nat2Z.id. by apply read_bytes_app.
Qed.

#[export] Instance c_varint64_rt : RoundTrip is_u64 c_varint64.
Proof. intros n rest Hn. by apply VarInt_roundtrip. Qed.

#[export] Instance c_varint32_rt : RoundTrip is_u32 c_varint32.
Proof.
  intros n rest Hn. unfold c_varint32, WriteVarInt. cbn [enc dec].
  rewrite (WriteVarInt_loop_spec u32 (2 ^ 32)); [done|intros; apply u32_id; mlia|mlia|].
  unfold is_u32 in Hn. change (128 ^ (Z.of_nat 9 + 1)) with (2 ^ 70). mlia.
Qed.
