(* ===== verification/Transaction.v ===== *)
(** * Transaction: inputs, outputs and transactions ([primitives/transaction.h], [primitives/transaction.cpp])

    The records of the transaction format, their serialisation, and the
    predicates that classify a transaction. *)

From S2P Require Import Prelude ArithUint256 Script Interpreter Serialize.
Local Open Scope Z_scope.

Record COutPoint := {
  prevout_hash : base_uint;   (** [hash] *)
  prevout_n : Z;              (** [n], a [uint32_t] *)
}.

Record CTxIn := {
  prevout : COutPoint;
  scriptSig : CScript;
  nSequence : Z;
}.

Record CTxOut := {
  nValue : Z;
  scriptPubKey : CScript;
  nRounds : Z;
}.

#[export] Instance COutPoint_eq_dec : EqDecision COutPoint.
Proof. solve_decision. Defined.
#[export] Instance CTxIn_eq_dec : EqDecision CTxIn.
Proof. solve_decision. Defined.
#[export] Instance CTxOut_eq_dec : EqDecision CTxOut.
Proof. solve_decision. Defined.

(** ** Shielded data ([sapling/sapling_transaction.h]) *)

Record SpendDescription := {
  spend_cv : base_uint;
  spend_anchor : base_uint;
  spend_nullifier : base_uint;
  spend_rk : base_uint;
  spend_zkproof : list Z;
  spendAuthSig : list Z;
}.

Record OutputDescription := {
  output_cv : base_uint;
  output_cmu : base_uint;
  output_ephemeralKey : base_uint;
  encCiphertext : list Z;
  outCiphertext : list Z;
  output_zkproof : list Z;
}.

Record SaplingTxData := {
  valueBalance : Z;
  vShieldedSpend : list SpendDescription;
  vShieldedOutput : list OutputDescription;
  bindingSig : list Z;
}.

Definition GROTH_PROOF_SIZE : nat := 48 + 96 + 48.
Definition ZC_SAPLING_ENCCIPHERTEXT_SIZE : nat := 580.
Definition ZC_SAPLING_OUTCIPHERTEXT_SIZE : nat := 80.
Definition BINDINGSIG_SIZE : nat := 64.

(** The default constructor. *)
Definition SaplingTxData_empty : SaplingTxData :=
  {| valueBalance := 0; vShieldedSpend := []; vShieldedOutput := [];
     bindingSig := replicate BINDINGSIG_SIZE 0 |}.

Definition hasBindingSig (d : SaplingTxData) : bool := existsb (λ c, negb (c =? 0)) d.(bindingSig).

Record CTransaction := {
  nVersion : Z;
  nType : Z;
  vin : list CTxIn;
  vout : list CTxOut;
  nLockTime : Z;
  sapData : option SaplingTxData;
  extraPayload : option (list Z);
  walletSenderId : base_uint;
}.

Definition TxVersion_LEGACY : Z := 1.
Definition TxVersion_SAPLING : Z := 3.
Definition TxVersion_TOOHIGH : Z := 4.
Definition TxType_NORMAL : Z := 0.

(** ** Predicates *)

Definition OutPoint_IsNull (o : COutPoint) : bool :=
  uint_IsNull o.(prevout_hash) && (o.(prevout_n) =? 2 ^ 32 - 1).

Definition TxIn_IsFinal (i : CTxIn) : bool := i.(nSequence) =? 2 ^ 32 - 1.

Definition TxIn_IsMultiMiningSpend (i : CTxIn) : bool :=
  uint_IsNull i.(prevout).(prevout_hash) && IsMultiMiningSpend i.(scriptSig).

Definition TxOut_IsNull (o : CTxOut) : bool := o.(nValue) =? -1.
Definition TxOut_IsEmpty (o : CTxOut) : bool := (o.(nValue) =? 0) && bool_decide (o.(scriptPubKey) = []).
Definition TxOut_IsMultiMiningMint (o : CTxOut) : bool := IsPayAssetScriptHash o.(scriptPubKey).
Definition TxOut_IsAssetDposMint (o : CTxOut) : bool := IsPayAssetDposScript o.(scriptPubKey).

Definition hasSaplingData (tx : CTransaction) : bool :=
  match tx.(sapData) with
  | None => false
  | Some d =>
      negb (bool_decide (length d.(vShieldedOutput) = 0%nat)) || negb (bool_decide (length d.(vShieldedSpend) = 0%nat))
      || negb (d.(valueBalance) =? 0) || hasBindingSig d
  end.

Definition isSaplingVersion (tx : CTransaction) : bool := TxVersion_SAPLING <=? tx.(nVersion).
Definition IsShieldedTx (tx : CTransaction) : bool := isSaplingVersion tx && hasSaplingData tx.
Definition hasExtraPayload (tx : CTransaction) : bool :=
  match tx.(extraPayload) with None => false | Some p => negb (bool_decide (p = [])) end.
Definition IsSpecialTx (tx : CTransaction) : bool :=
  isSaplingVersion tx && negb (tx.(nType) =? TxType_NORMAL) && hasExtraPayload tx.
Definition IsNormalType (tx : CTransaction) : bool := tx.(nType) =? TxType_NORMAL.
Definition GetRequiredSigVersion (tx : CTransaction) : SigVersion :=
  if isSaplingVersion tx then SIGVERSION_SAPLING else SIGVERSION_BASE.

Definition HasAssetsDposMintOutputs (tx : CTransaction) : bool := existsb TxOut_IsAssetDposMint tx.(vout).
Definition HasAssetsMintOutputs (tx : CTransaction) : bool := existsb TxOut_IsMultiMiningMint tx.(vout).
Definition HasAssetsSpendInputs (tx : CTransaction) : bool := existsb TxIn_IsMultiMiningSpend tx.(vin).
Definition ContainsAssets (tx : CTransaction) : bool :=
  HasAssetsSpendInputs tx || HasAssetsMintOutputs tx || HasAssetsDposMintOutputs tx.

Definition IsCoinBase (tx : CTransaction) : bool :=
  match tx.(vin) with
  | [i] => OutPoint_IsNull i.(prevout) && negb (HasAssetsMintOutputs tx) && negb (HasAssetsSpendInputs tx)
           && negb (HasAssetsDposMintOutputs tx)
  | _ => false
  end.

Definition IsCoinStake (tx : CTransaction) : bool :=
  match tx.(vin) with
  | [] => false
  | i :: _ =>
      if OutPoint_IsNull i.(prevout) && negb (TxIn_IsMultiMiningSpend i) then false
      else match tx.(vout) with
           | o :: _ :: _ => TxOut_IsEmpty o
           | _ => false
           end
  end.

Definition HasP2CSOutputs (g_newP2CSRules : bool) (tx : CTransaction) : bool :=
  existsb (λ o, IsPayToColdStaking g_newP2CSRules o.(scriptPubKey)) tx.(vout).

(** ** Values *)

(** The loop over [vout]; [None] is the exception.  The sum is a [CAmount]. *)
Fixpoint GetValueOut_loop (vout : list CTxOut) (nValueOut : Z) : option Z :=
  match vout with
  | [] => Some nValueOut
  | o :: vout =>
      if o.(nValue) <? 0 then None
      else if i64 (nValueOut + o.(nValue)) <? nValueOut then None
      else GetValueOut_loop vout (i64 (nValueOut + o.(nValue)))
  end.

Definition GetValueOut (tx : CTransaction) : option Z :=
  nValueOut ← GetValueOut_loop tx.(vout) 0;
  match tx.(sapData) with
  | Some d =>
      if hasSaplingData tx && (d.(valueBalance) <? 0) then
        if negb (isSaplingVersion tx) then None else Some (i64 (nValueOut + i64 (- d.(valueBalance))))
      else Some nValueOut
  | None => Some nValueOut
  end.

Definition GetShieldedValueIn (tx : CTransaction) : option Z :=
  match tx.(sapData) with
  | Some d =>
      if hasSaplingData tx && (0 <? d.(valueBalance)) then
        if negb (isSaplingVersion tx) then None else Some d.(valueBalance)
      else Some 0
  | None => Some 0
  end.

(** The total value of some outputs. *)
Fixpoint total_value (l : list CTxOut) : Z :=
  match l with [] => 0 | o :: l => o.(nValue) + total_value l end.

Lemma total_value_nonneg l : Forall (λ o, 0 <= o.(nValue)) l → 0 <= total_value l.
Proof. induction 1; cbn; lia. Qed.

(** ** Serialisation *)

Definition c_uint256 : codec base_uint := c_uint 8.
Definition c_uint160 : codec base_uint := c_uint 5.

Definition c_outpoint : codec COutPoint :=
  {| enc o := c_uint256.(enc) o.(prevout_hash) ++ (c_unsigned 4).(enc) o.(prevout_n);
     dec s := '(h, s) ← c_uint256.(dec) s;
              '(n, s) ← (c_unsigned 4).(dec) s;
              Some ({| prevout_hash := h; prevout_n := n |}, s) |}.

Definition c_txin : codec CTxIn :=
  {| enc i := c_outpoint.(enc) i.(prevout) ++ c_blob.(enc) i.(scriptSig) ++ (c_unsigned 4).(enc) i.(nSequence);
     dec s := '(o, s) ← c_outpoint.(dec) s;
              '(sc, s) ← c_blob.(dec) s;
              '(q, s) ← (c_unsigned 4).(dec) s;
              Some ({| prevout := o; scriptSig := sc; nSequence := q |}, s) |}.

Definition c_txout : codec CTxOut :=
  {| enc o := (c_signed 8).(enc) o.(nValue) ++ c_blob.(enc) o.(scriptPubKey);
     dec s := '(v, s) ← (c_signed 8).(dec) s;
              '(sc, s) ← c_blob.(dec) s;
              Some ({| nValue := v; scriptPubKey := sc; nRounds := -10 |}, s) |}.

Definition c_spend : codec SpendDescription :=
  {| enc d := c_uint256.(enc) d.(spend_cv) ++ c_uint256.(enc) d.(spend_anchor) ++
              c_uint256.(enc) d.(spend_nullifier) ++ c_uint256.(enc) d.(spend_rk) ++
              d.(spend_zkproof) ++ d.(spendAuthSig);
     dec s := '(cv, s) ← c_uint256.(dec) s;
              '(an, s) ← c_uint256.(dec) s;
              '(nf, s) ← c_uint256.(dec) s;
              '(rk, s) ← c_uint256.(dec) s;
              '(zk, s) ← read_bytes GROTH_PROOF_SIZE s;
              '(sg, s) ← read_bytes 64 s;
              Some ({| spend_cv := cv; spend_anchor := an; spend_nullifier := nf; spend_rk := rk;
                       spend_zkproof := zk; spendAuthSig := sg |}, s) |}.

Definition c_output : codec OutputDescription :=
  {| enc d := c_uint256.(enc) d.(output_cv) ++ c_uint256.(enc) d.(output_cmu) ++
              c_uint256.(enc) d.(output_ephemeralKey) ++
              d.(encCiphertext) ++ d.(outCiphertext) ++ d.(output_zkproof);
     dec s := '(cv, s) ← c_uint256.(dec) s;
              '(cm, s) ← c_uint256.(dec) s;
              '(ek, s) ← c_uint256.(dec) s;
              '(ec, s) ← read_bytes ZC_SAPLING_ENCCIPHERTEXT_SIZE s;
              '(oc, s) ← read_bytes ZC_SAPLING_OUTCIPHERTEXT_SIZE s;
              '(zk, s) ← read_bytes GROTH_PROOF_SIZE s;
              Some ({| output_cv := cv; output_cmu := cm; output_ephemeralKey := ek; encCiphertext := ec;
                       outCiphertext := oc; output_zkproof := zk |}, s) |}.

Definition c_sapling : codec SaplingTxData :=
  {| enc d := (c_signed 8).(enc) d.(valueBalance) ++ (c_vector c_spend).(enc) d.(vShieldedSpend) ++
              (c_vector c_output).(enc) d.(vShieldedOutput) ++ d.(bindingSig);
     dec s := '(vb, s) ← (c_signed 8).(dec) s;
              '(sp, s) ← (c_vector c_spend).(dec) s;
              '(ou, s) ← (c_vector c_output).(dec) s;
              '(bs, s) ← read_bytes BINDINGSIG_SIZE s;
              Some ({| valueBalance := vb; vShieldedSpend := sp; vShieldedOutput := ou; bindingSig := bs |}, s) |}.

Definition SerializeTransaction (tx : CTransaction) : list Z :=
  (c_signed 2).(enc) tx.(nVersion) ++
  (c_signed 2).(enc) tx.(nType) ++
  (c_vector c_txin).(enc) tx.(vin) ++
  (c_vector c_txout).(enc) tx.(vout) ++
  (c_unsigned 4).(enc) tx.(nLockTime) ++
  (if isSaplingVersion tx then
     (c_optional c_sapling).(enc) tx.(sapData) ++
     (if negb (IsNormalType tx) then (c_optional c_blob).(enc) tx.(extraPayload) else [])
   else []) ++
  c_uint160.(enc) tx.(walletSenderId).

Definition UnserializeTransaction (s : list Z) : option (CTransaction * list Z) :=
  '(ver, s) ← (c_signed 2).(dec) s;
  '(typ, s) ← (c_signed 2).(dec) s;
  '(ins, s) ← (c_vector c_txin).(dec) s;
  '(outs, s) ← (c_vector c_txout).(dec) s;
  '(lock, s) ← (c_unsigned 4).(dec) s;
  '(sap, s) ← (if TxVersion_SAPLING <=? ver then (c_optional c_sapling).(dec) s
               else Some (Some SaplingTxData_empty, s));
  '(pay, s) ← (if (TxVersion_SAPLING <=? ver) && negb (typ =? TxType_NORMAL) then (c_optional c_blob).(dec) s
               else Some (None, s));
  '(snd, s) ← c_uint160.(dec) s;
  Some ({| nVersion := ver; nType := typ; vin := ins; vout := outs; nLockTime := lock; sapData := sap;
           extraPayload := pay; walletSenderId := snd |}, s).

(** ** Round trip *)

Definition signed_ok (n : nat) (x : Z) : Prop :=
  (0 < n)%nat ∧ - 2 ^ (8 * Z.of_nat n - 1) <= x < 2 ^ (8 * Z.of_nat n - 1).

Definition outpoint_ok (o : COutPoint) : Prop := wf 8 o.(prevout_hash) ∧ is_u32 o.(prevout_n).
Definition txin_ok (i : CTxIn) : Prop :=
  outpoint_ok i.(prevout) ∧ size i.(scriptSig) <= MAX_SIZE ∧ is_u32 i.(nSequence).
Definition txout_ok (o : CTxOut) : Prop :=
  signed_ok 8 o.(nValue) ∧ size o.(scriptPubKey) <= MAX_SIZE ∧ o.(nRounds) = -10.
Definition spend_ok (d : SpendDescription) : Prop :=
  wf 8 d.(spend_cv) ∧ wf 8 d.(spend_anchor) ∧ wf 8 d.(spend_nullifier) ∧ wf 8 d.(spend_rk) ∧
  length d.(spend_zkproof) = GROTH_PROOF_SIZE ∧ length d.(spendAuthSig) = 64%nat.
Definition output_ok (d : OutputDescription) : Prop :=
  wf 8 d.(output_cv) ∧ wf 8 d.(output_cmu) ∧ wf 8 d.(output_ephemeralKey) ∧
  length d.(encCiphertext) = ZC_SAPLING_ENCCIPHERTEXT_SIZE ∧
  length d.(outCiphertext) = ZC_SAPLING_OUTCIPHERTEXT_SIZE ∧ length d.(output_zkproof) = GROTH_PROOF_SIZE.
Definition sapling_ok (d : SaplingTxData) : Prop :=
  signed_ok 8 d.(valueBalance) ∧ (Forall spend_ok d.(vShieldedSpend) ∧ size d.(vShieldedSpend) <= MAX_SIZE) ∧
  (Forall output_ok d.(vShieldedOutput) ∧ size d.(vShieldedOutput) <= MAX_SIZE) ∧
  length d.(bindingSig) = BINDINGSIG_SIZE.

(** A transaction of the format: field sizes, the shielded data of a legacy
    transaction is the default one, and only special types have a payload. *)
Definition tx_ok (tx : CTransaction) : Prop :=
  signed_ok 2 tx.(nVersion) ∧ signed_ok 2 tx.(nType) ∧
  (Forall txin_ok tx.(vin) ∧ size tx.(vin) <= MAX_SIZE) ∧
  (Forall txout_ok tx.(vout) ∧ size tx.(vout) <= MAX_SIZE) ∧
  is_u32 tx.(nLockTime) ∧
  (if isSaplingVersion tx then ∀ d, tx.(sapData) = Some d → sapling_ok d
   else tx.(sapData) = Some SaplingTxData_empty) ∧
  (if isSaplingVersion tx && negb (IsNormalType tx) then ∀ p, tx.(extraPayload) = Some p → size p <= MAX_SIZE
   else tx.(extraPayload) = None) ∧
  wf 5 tx.(walletSenderId).

Lemma u32_codec x rest : is_u32 x → (c_unsigned 4).(dec) ((c_unsigned 4).(enc) x ++ rest) = Some (x, rest).
Proof. intros Hx. apply c_unsigned_rt. mlia. Qed.
Lemma uint256_codec x rest : wf 8 x → c_uint256.(dec) (c_uint256.(enc) x ++ rest) = Some (x, rest).
Proof. apply c_uint_rt. Qed.

(** Reads one field back. *)
Ltac read_field :=
  rewrite <- ?app_assoc;
  first [rewrite u32_codec by done | rewrite uint256_codec by done | rewrite round_trip by done
        | rewrite read_bytes_app by done]; cbn [mbind option_bind].

#[export] Instance c_outpoint_rt : RoundTrip outpoint_ok c_outpoint.
Proof. intros [h n] rest [Hh Hn]. cbn [c_outpoint enc dec prevout_hash prevout_n]. by do 2 read_field. Qed.

#[export] Instance c_txin_rt : RoundTrip txin_ok c_txin.
Proof. intros [o sc q] rest (Ho & Hs & Hq). cbn [c_txin enc dec prevout scriptSig nSequence]. by do 3 read_field. Qed.

#[export] Instance c_txout_rt : RoundTrip txout_ok c_txout.
Proof.
  intros [v sc r] rest (Hv & Hs & Hr). cbn in Hr. subst r.
  cbn [c_txout enc dec nValue scriptPubKey]. by do 2 read_field.
Qed.

#[export] Instance c_spend_rt : RoundTrip spend_ok c_spend.
Proof.
  intros [] rest (? & ? & ? & ? & ? & ?).
  cbn [c_spend enc dec spend_cv spend_anchor spend_nullifier spend_rk spend_zkproof spendAuthSig]. by do 6 read_field.
Qed.

#[export] Instance c_output_rt : RoundTrip output_ok c_output.
Proof.
  intros [] rest (? & ? & ? & ? & ? & ?).
  cbn [c_output enc dec output_cv output_cmu output_ephemeralKey encCiphertext outCiphertext output_zkproof].
  by do 6 read_field.
Qed.

#[export] Instance c_sapling_rt : RoundTrip sapling_ok c_sapling.
Proof.
  intros [] rest (? & ? & ? & ?).
  cbn [c_sapling enc dec valueBalance vShieldedSpend vShieldedOutput bindingSig]. by do 4 read_field.
Qed.

Definition c_transaction : codec CTransaction := {| enc := SerializeTransaction; dec := UnserializeTransaction |}.

#[export] Instance c_transaction_rt : RoundTrip tx_ok c_transaction.
Proof.
  intros [ver typ ins outs lock sap pay snd] rest. cbn [c_transaction enc dec].
  unfold tx_ok, SerializeTransaction, UnserializeTransaction, isSaplingVersion, IsNormalType.
  cbn [nVersion nType vin vout nLockTime sapData extraPayload walletSenderId].
  intros (Hv & Ht & Hi & Ho & Hl & Hsap & Hpay & Hw). do 5 read_field.
  destruct (TxVersion_SAPLING <=? ver); cbn [andb] in *.
  - rewrite <- app_assoc, round_trip by done. cbn [mbind option_bind].
    destruct (negb (typ =? TxType_NORMAL)).
    + by do 2 read_field.
    + subst pay. cbn [app mbind option_bind]. by read_field.
  - subst sap pay. cbn [app mbind option_bind]. by read_field.
Qed.

(** C29: transactions survive the wire: whatever follows in the stream, reading
    the serialisation of a well-formed transaction of any version and type
    gives the transaction back. *)
Theorem transaction_roundtrip (tx : CTransaction) (rest : list Z) :
  tx_ok tx → UnserializeTransaction (SerializeTransaction tx ++ rest) = Some (tx, rest).
Proof. exact (c_transaction_rt tx rest). Qed.

(** ** Examples *)

Definition sample_outpoint : COutPoint := {| prevout_hash := replicate 8 7; prevout_n := 1 |}.
Definition sample_tx : CTransaction :=
  {| nVersion := 3; nType := 1;
     vin := [{| prevout := sample_outpoint; scriptSig := [1; 2]; nSequence := 2 ^ 32 - 1 |}];
     vout := [{| nValue := 5000; scriptPubKey := [OP_1]; nRounds := -10 |};
              {| nValue := 70; scriptPubKey := [OP_2]; nRounds := -10 |}];
     nLockTime := 0; sapData := Some SaplingTxData_empty; extraPayload := Some [9];
     walletSenderId := replicate 5 0 |}.

Lemma sample_tx_ok : tx_ok sample_tx.
Proof.
  assert (∀ n x, (0 <? n)%nat && (- 2 ^ (8 * Z.of_nat n - 1) <=? x) && (x <? 2 ^ (8 * Z.of_nat n - 1)) = true →
    signed_ok n x) as Hs by (unfold signed_ok; intros n x E; lia).
  assert (∀ W l, bool_decide (wf W l) = true → wf W l) as Hw by (intros W l E; by apply bool_decide_eq_true in E).
  assert (∀ x, bool_decide (is_u32 x) = true → is_u32 x) as Hu by (intros x E; by apply bool_decide_eq_true in E).
  unfold tx_ok.
  split; [by apply Hs|]. split; [by apply Hs|]. split; [|split; [|split; [|split; [|split]]]].
  - split; [|done]. repeat constructor; cbn; (by apply Hw) || (by apply Hu) || done.
  - split; [|done]. repeat constructor; cbn; lia || done.
  - by apply Hu.
  - intros d [= <-]. split; [by apply Hs|]. split_and!; done || constructor.
  - intros p [= <-]. done.
  - by apply Hw.
Qed.

Lemma transaction_roundtrip_witness :
  tx_ok sample_tx ∧ UnserializeTransaction (SerializeTransaction sample_tx ++ [1; 2; 3]) = Some (sample_tx, [1; 2; 3]).
Proof.
  split; [exact sample_tx_ok|]. exact (transaction_roundtrip sample_tx [1; 2; 3] sample_tx_ok).
Defined.
