(* ===== verification/SigHash.v ===== *)
(** * SigHash: what a signature signs, and the checker used for transactions
    ([script/interpreter.cpp], [SignatureHash] and [TransactionSignatureChecker])

    The functions build the bytes that are hashed.  The hash of a stream is a
    list of 32 bytes.  BLAKE2b with a personalisation (libsodium) and the
    verification of an ECDSA signature (libsecp256k1) are the operations of the
    class [SigCrypto]. *)

From S2P Require Import Prelude ArithUint256 Script Interpreter Serialize Transaction.
Local Open Scope Z_scope.

Definition NOT_AN_INPUT : Z := 2 ^ 32 - 1.

Class SigCrypto := {
  sig_script_crypto :: ScriptCrypto;
  BLAKE2b : list Z → list Z → list Z;                        (** personalisation, data *)
  ecdsa_verify : valtype → list Z → valtype → bool;          (** key, hash, signature *)
}.

Definition ZERO_HASH : list Z := replicate 32 0.
Definition UINT256_ONE : list Z := 1 :: replicate 31 0.

(** ** [CTransactionSignatureSerializer] *)

Record sig_serializer := {
  txTo : CTransaction;
  scriptCode : CScript;
  nIn : Z;
  fAnyoneCanPay : bool;
  fHashSingle : bool;
  fHashNone : bool;
}.

Definition make_serializer (tx : CTransaction) (code : CScript) (n nHashType : Z) : sig_serializer :=
  {| txTo := tx; scriptCode := code; nIn := n;
     fAnyoneCanPay := has nHashType SIGHASH_ANYONECANPAY;
     fHashSingle := Z.land nHashType 0x1f =? SIGHASH_SINGLE;
     fHashNone := Z.land nHashType 0x1f =? SIGHASH_NONE |}.

(** The iterator after a call of [GetOp] that returned [false]. *)
Definition failed_pc (pc : CScript) : CScript :=
  match pc with
  | [] => []
  | opcode :: pc =>
      if opcode <=? OP_PUSHDATA4 then
        match push_size opcode pc with Some (_, pc) => pc | None => pc end
      else pc
  end.

Definition count_separators (s : CScript) : Z := Find s OP_CODESEPARATOR.

(** The second loop: the bytes written, [itBegin] and [it] at its end. *)
Fixpoint separators_loop (fuel : nat) (itBegin it out : CScript) : CScript * CScript * CScript :=
  match GetOp2 it with
  | None => (out, itBegin, failed_pc it)
  | Some (opcode, _, it') =>
      match fuel with
      | O => (out, itBegin, it')
      | S fuel =>
          if opcode =? OP_CODESEPARATOR
          then separators_loop fuel it' it' (out ++ take (length itBegin - length it' - 1) itBegin)
          else separators_loop fuel itBegin it' out
      end
  end.

Definition SerializeScriptCode (t : sig_serializer) : list Z :=
  let '(out, itBegin, it) := separators_loop (length t.(scriptCode)) t.(scriptCode) t.(scriptCode) [] in
  WriteCompactSize (size t.(scriptCode) - count_separators t.(scriptCode)) ++
  out ++ (if bool_decide (itBegin = []) then [] else take (length itBegin - length it) itBegin).

(** [None]: the index is outside of [vin] or [vout], or the assertion fails. *)
Definition SerializeInput (t : sig_serializer) (nInput : Z) : option (list Z) :=
  let nInput := if t.(fAnyoneCanPay) then t.(nIn) else nInput in
  i ← t.(txTo).(vin) !! Z.to_nat nInput;
  if nInput =? NOT_AN_INPUT then None
  else Some (c_outpoint.(enc) i.(prevout) ++
    (if negb (nInput =? t.(nIn)) then c_blob.(enc) [] else SerializeScriptCode t) ++
    (if negb (nInput =? t.(nIn)) && (t.(fHashSingle) || t.(fHashNone)) then (c_signed 4).(enc) 0
     else (c_unsigned 4).(enc) i.(nSequence))).

Definition null_txout : CTxOut := {| nValue := -1; scriptPubKey := []; nRounds := -10 |}.

Definition SerializeOutput (t : sig_serializer) (nOutput : Z) : option (list Z) :=
  if t.(fHashSingle) && negb (nOutput =? t.(nIn)) then Some (c_txout.(enc) null_txout)
  else o ← t.(txTo).(vout) !! Z.to_nat nOutput; Some (c_txout.(enc) o).

(** The bytes of [f 0], ..., [f (n - 1)]. *)
Fixpoint serialize_range (f : Z → option (list Z)) (i : Z) (n : nat) : option (list Z) :=
  match n with
  | O => Some []
  | S n => a ← f i; r ← serialize_range f (i + 1) n; Some (a ++ r)
  end.

Definition Serialize_sig (t : sig_serializer) : option (list Z) :=
  let nInputs := if t.(fAnyoneCanPay) then 1 else size t.(txTo).(vin) in
  ins ← serialize_range (SerializeInput t) 0 (Z.to_nat nInputs);
  let nOutputs := if t.(fHashNone) then 0 else if t.(fHashSingle) then t.(nIn) + 1 else size t.(txTo).(vout) in
  outs ← serialize_range (SerializeOutput t) 0 (Z.to_nat nOutputs);
  Some ((c_signed 2).(enc) t.(txTo).(nVersion) ++ (c_signed 2).(enc) t.(txTo).(nType) ++
        WriteCompactSize nInputs ++ ins ++ WriteCompactSize nOutputs ++ outs ++
        (c_unsigned 4).(enc) t.(txTo).(nLockTime)).

(** ** [SignatureHash] *)

Section sighash.
Context `{SigCrypto}.

Definition QRAX_PREVOUTS_HASH_PERSONALIZATION : list Z :=
  [80; 73; 86; 88; 80; 114; 101; 118; 111; 117; 116; 72; 97; 115; 104; 0].   (* PIVXPrevoutHash *)
Definition QRAX_SEQUENCE_HASH_PERSONALIZATION : list Z :=
  [80; 73; 86; 88; 83; 101; 113; 117; 101; 110; 99; 72; 97; 115; 104; 0].    (* PIVXSequencHash *)
Definition QRAX_OUTPUTS_HASH_PERSONALIZATION : list Z :=
  [80; 73; 86; 88; 79; 117; 116; 112; 117; 116; 115; 72; 97; 115; 104; 0].   (* PIVXOutputsHash *)
Definition QRAX_SHIELDED_SPENDS_HASH_PERSONALIZATION : list Z :=
  [80; 73; 86; 88; 83; 83; 112; 101; 110; 100; 115; 72; 97; 115; 104; 0].    (* PIVXSSpendsHash *)
Definition QRAX_SHIELDED_OUTPUTS_HASH_PERSONALIZATION : list Z :=
  [80; 73; 86; 88; 83; 79; 117; 116; 112; 117; 116; 72; 97; 115; 104; 0].    (* PIVXSOutputHash *)
(** "QRAXSigHash", its terminator, and the consensus branch id zero. *)
Definition sighash_personalization : list Z :=
  [81; 82; 65; 88; 83; 105; 103; 72; 97; 115; 104; 0; 0; 0; 0; 0].

Definition GetPrevoutHash (tx : CTransaction) : list Z :=
  BLAKE2b QRAX_PREVOUTS_HASH_PERSONALIZATION (concat ((λ i, c_outpoint.(enc) i.(prevout)) <$> tx.(vin))).
Definition GetSequenceHash (tx : CTransaction) : list Z :=
  BLAKE2b QRAX_SEQUENCE_HASH_PERSONALIZATION (concat ((λ i, (c_unsigned 4).(enc) i.(nSequence)) <$> tx.(vin))).
Definition GetOutputsHash (tx : CTransaction) : list Z :=
  BLAKE2b QRAX_OUTPUTS_HASH_PERSONALIZATION (concat (c_txout.(enc) <$> tx.(vout))).

(** The spend descriptions without their signatures. *)
Definition GetShieldedSpendsHash (d : SaplingTxData) : list Z :=
  BLAKE2b QRAX_SHIELDED_SPENDS_HASH_PERSONALIZATION
    (concat ((λ n, c_uint256.(enc) n.(spend_cv) ++ c_uint256.(enc) n.(spend_anchor) ++
                   c_uint256.(enc) n.(spend_nullifier) ++ c_uint256.(enc) n.(spend_rk) ++
                   n.(spend_zkproof)) <$> d.(vShieldedSpend))).
Definition GetShieldedOutputsHash (d : SaplingTxData) : list Z :=
  BLAKE2b QRAX_SHIELDED_OUTPUTS_HASH_PERSONALIZATION (concat (c_output.(enc) <$> d.(vShieldedOutput))).

Record PrecomputedTransactionData := {
  hashPrevouts : list Z;
  hashSequence : list Z;
  hashOutputs : list Z;
  hashShieldedSpends : list Z;
  hashShieldedOutputs : list Z;
}.

Definition Precompute (tx : CTransaction) : PrecomputedTransactionData :=
  {| hashPrevouts := GetPrevoutHash tx;
     hashSequence := GetSequenceHash tx;
     hashOutputs := GetOutputsHash tx;
     hashShieldedSpends := match tx.(sapData) with Some d => GetShieldedSpendsHash d | None => ZERO_HASH end;
     hashShieldedOutputs := match tx.(sapData) with Some d => GetShieldedOutputsHash d | None => ZERO_HASH end |}.

(** [cache ? cache->h : compute()] *)
Definition cached (cache : option PrecomputedTransactionData) (h : PrecomputedTransactionData → list Z)
    (compute : list Z) : list Z :=
  match cache with Some c => h c | None => compute end.

(** The branch for Sapling signatures. *)
Definition SignatureHash_sapling (code : CScript) (tx : CTransaction) (nIn nHashType amount : Z)
    (cache : option PrecomputedTransactionData) : option (list Z) :=
  let anyone := has nHashType SIGHASH_ANYONECANPAY in
  let single := Z.land nHashType 0x1f =? SIGHASH_SINGLE in
  let none := Z.land nHashType 0x1f =? SIGHASH_NONE in
  let hPrevouts := if negb anyone then cached cache hashPrevouts (GetPrevoutHash tx) else ZERO_HASH in
  let hSequence := if negb anyone && negb single && negb none
                   then cached cache hashSequence (GetSequenceHash tx) else ZERO_HASH in
  let hOutputs :=
    if negb single && negb none then cached cache hashOutputs (GetOutputsHash tx)
    else if single then
      match tx.(vout) !! Z.to_nat nIn with
      | Some o => BLAKE2b QRAX_OUTPUTS_HASH_PERSONALIZATION (c_txout.(enc) o)
      | None => ZERO_HASH
      end
    else ZERO_HASH in
  let sap :=
    match tx.(sapData) with
    | None => []
    | Some d =>
        let hasSpends := negb (bool_decide (length d.(vShieldedSpend) = 0%nat)) in
        let hasOutputs := negb (bool_decide (length d.(vShieldedOutput) = 0%nat)) in
        let hSpends := if hasSpends then cached cache hashShieldedSpends (GetShieldedSpendsHash d) else ZERO_HASH in
        let hOuts := if hasOutputs then cached cache hashShieldedOutputs (GetShieldedOutputsHash d) else ZERO_HASH in
        if hasSpends || hasOutputs then hSpends ++ hOuts ++ (c_signed 8).(enc) d.(valueBalance) else []
    end in
  input ←
    (if nIn =? NOT_AN_INPUT then Some []
     else i ← tx.(vin) !! Z.to_nat nIn;
          Some (c_outpoint.(enc) i.(prevout) ++ c_blob.(enc) code ++ (c_signed 8).(enc) amount ++
                (c_unsigned 4).(enc) i.(nSequence)));
  let payload :=
    match tx.(extraPayload) with
    | Some p => if IsSpecialTx tx then c_blob.(enc) p else []
    | None => []
    end in
  Some (BLAKE2b sighash_personalization
    ((c_signed 2).(enc) tx.(nVersion) ++ (c_signed 2).(enc) tx.(nType) ++
     hPrevouts ++ hSequence ++ hOutputs ++ sap ++ input ++ payload ++
     (c_unsigned 4).(enc) tx.(nLockTime) ++ (c_signed 4).(enc) nHashType)).

Definition SignatureHash (code : CScript) (tx : CTransaction) (nIn nHashType amount : Z)
    (sigversion : SigVersion) (cache : option PrecomputedTransactionData) : option (list Z) :=
  if (size tx.(vin) <=? nIn) && negb (nIn =? NOT_AN_INPUT) then Some UINT256_ONE
  else if isSaplingVersion tx && negb (bool_decide (sigversion = SIGVERSION_SAPLING)) then None
  else
    match sigversion with
    | SIGVERSION_SAPLING => SignatureHash_sapling code tx nIn nHashType amount cache
    | SIGVERSION_BASE =>
        if (Z.land nHashType 0x1f =? SIGHASH_SINGLE) && (size tx.(vout) <=? nIn) then Some UINT256_ONE
        else
          b ← Serialize_sig (make_serializer tx code nIn nHashType);
          Some (Hash256 (b ++ (c_signed 4).(enc) nHashType))
    end.

(** ** [TransactionSignatureChecker] *)

(** [CPubKey::GetLen], [CPubKey::Set] and [CPubKey::IsValid]. *)
Definition GetLen (chHeader : Z) : Z :=
  if (chHeader =? 2) || (chHeader =? 3) then COMPRESSED_PUBLIC_KEY_SIZE
  else if (chHeader =? 4) || (chHeader =? 6) || (chHeader =? 7) then PUBLIC_KEY_SIZE
  else 0.
Definition pubkey_IsValid (vch : valtype) : bool :=
  match vch with
  | [] => false
  | h :: _ => negb (GetLen h =? 0) && (GetLen h =? size vch)
  end.

Definition tx_CheckSig (tx : CTransaction) (nIn amount : Z) (cache : option PrecomputedTransactionData)
    (vchSigIn vchPubKey : valtype) (code : CScript) (sigversion : SigVersion) : option bool :=
  if negb (pubkey_IsValid vchPubKey) then Some false
  else match vchSigIn with
  | [] => Some false
  | _ =>
      let nHashType := back vchSigIn in
      let vchSig := removelast vchSigIn in
      sighash ← SignatureHash code tx nIn nHashType amount sigversion cache;
      Some (ecdsa_verify vchPubKey sighash vchSig)
  end.

(** An index outside of [vin] is undefined behaviour, here the answer [false]. *)
Definition tx_CheckLockTime (tx : CTransaction) (nIn : Z) (lockTime : Z) : bool :=
  if negb (((tx.(nLockTime) <? LOCKTIME_THRESHOLD) && (lockTime <? LOCKTIME_THRESHOLD)) ||
           ((LOCKTIME_THRESHOLD <=? tx.(nLockTime)) && (LOCKTIME_THRESHOLD <=? lockTime))) then false
  else if tx.(nLockTime) <? lockTime then false
  else match tx.(vin) !! Z.to_nat nIn with
       | Some i => negb (TxIn_IsFinal i)
       | None => false
       end.

(** The loop over [vout], from [i] on: [None] where it returns with an error. *)
Fixpoint coldstake_outputs (prevoutScript : CScript) (outs i : Z) (vout : list CTxOut) (outValue : Z) : option Z :=
  match vout with
  | [] => Some outValue
  | o :: vout =>
      if negb (bool_decide (o.(scriptPubKey) = prevoutScript)) then
        if negb (i =? outs - 1) || (outs <? 3) then None
        else coldstake_outputs prevoutScript outs (i + 1) vout outValue
      else coldstake_outputs prevoutScript outs (i + 1) vout (i64 (outValue + o.(nValue)))
  end.

Definition tx_CheckColdStake (g_newP2CSRules : bool) (tx : CTransaction) (amount : Z)
    (prevoutScript : CScript) (st : list valtype) (flags : Z) (serror : ScriptError) : bool * ScriptError :=
  let rules : res unit :=
    if g_newP2CSRules then
      match st with
      | [vchPubKeyHash; vchPubKey; vchSig] =>
          _ ← CheckSignatureEncoding vchSig flags;
          _ ← CheckPubKeyEncoding vchPubKey flags;
          require (size vchPubKeyHash =? 20) SCRIPT_ERR_SCRIPT_SIZE
      | _ => Err SCRIPT_ERR_INVALID_STACK_OPERATION
      end
    else Ok tt in
  match rules with
  | Err e => (false, e)
  | Exn => (false, serror)
  | Ok _ =>
      if negb (IsCoinStake tx) then (false, SCRIPT_ERR_CHECKCOLDSTAKEVERIFY)
      else if negb (size tx.(vin) =? 1) then (false, SCRIPT_ERR_CHECKCOLDSTAKEVERIFY)
      else match coldstake_outputs prevoutScript (size tx.(vout)) 1 (drop 1 tx.(vout)) 0 with
           | None => (false, SCRIPT_ERR_CHECKCOLDSTAKEVERIFY)
           | Some outValue =>
               if outValue <? amount then (false, SCRIPT_ERR_CHECKCOLDSTAKEVERIFY) else (true, serror)
           end
  end.

Definition TransactionSignatureChecker (g_newP2CSRules : bool) (tx : CTransaction) (nIn amount : Z)
    (cache : option PrecomputedTransactionData) : BaseSignatureChecker :=
  {| CheckSig := tx_CheckSig tx nIn amount cache;
     CheckLockTime := tx_CheckLockTime tx nIn;
     CheckColdStake := tx_CheckColdStake g_newP2CSRules tx amount |}.

End sighash.

(** ** Results *)

Definition with_sender (w : base_uint) (tx : CTransaction) : CTransaction :=
  {| nVersion := tx.(nVersion); nType := tx.(nType); vin := tx.(vin); vout := tx.(vout);
     nLockTime := tx.(nLockTime); sapData := tx.(sapData); extraPayload := tx.(extraPayload);
     walletSenderId := w |}.

(** Whether output [i] of [n] may pay to another script. *)
Definition free_output (n i : Z) : bool := (i =? n - 1) && (3 <=? n).

(** All outputs from number [i] on pay to the script or are free. *)
Definition outputs_return (script : CScript) (n i : Z) (l : list CTxOut) : Prop :=
  ∀ j o, l !! j = Some o → o.(scriptPubKey) = script ∨ free_output n (i + Z.of_nat j) = true.

Lemma outputs_return_cons script n i o l :
  outputs_return script n i (o :: l) ↔
  (o.(scriptPubKey) = script ∨ free_output n i = true) ∧ outputs_return script n (i + 1) l.
Proof.
  unfold outputs_return. split.
  - intros Ha. split.
    + specialize (Ha 0%nat o eq_refl). by rewrite Z.add_0_r in Ha.
    + intros j o' Hj. specialize (Ha (S j) o' Hj). by replace (i + 1 + Z.of_nat j) with (i + Z.of_nat (S j)) by lia.
  - intros [Ho Hl] [|j] o' Hj; cbn in Hj.
    + injection Hj as <-. by rewrite Z.add_0_r.
    + specialize (Hl j o' Hj). by replace (i + Z.of_nat (S j)) with (i + 1 + Z.of_nat j) by lia.
Qed.

Abbreviation returned script l := (total_value (filter (λ o, scriptPubKey o = script) l)).

Lemma coldstake_outputs_spec script n i l acc v :
  0 <= acc → Forall (λ o, 0 <= o.(nValue)) l → acc + total_value l < 2 ^ 63 →
  coldstake_outputs script n i l acc = Some v ↔
  outputs_return script n i l ∧ v = acc + returned script l.
Proof.
  intros Hacc Hl. revert i acc Hacc; induction Hl as [|o l Ho Hl IH]; intros i acc Hacc Hs; cbn [coldstake_outputs].
  { cbn. split; [intros [= <-]; split; [done|lia]|intros [_ ->]; f_equal; lia]. }
  cbn [total_value] in Hs. pose proof (total_value_nonneg l Hl). rewrite outputs_return_cons.
  case_bool_decide as Hscr; cbn [negb].
  - rewrite i64_id by (unfold is_i64; lia). rewrite IH, filter_cons_True by (done || lia). cbn [total_value].
    split; intros [H1 ->]; [|destruct H1]; split_and!; auto; lia.
  - rewrite filter_cons_False by done. unfold free_output.
    destruct (negb (i =? n - 1) || (n <? 3)) eqn:Ef.
    + split; [done|]. intros [[[?|?] _] _]; [done|lia].
    + rewrite IH by lia. split; intros [H1 ->]; [|destruct H1]; split_and!; auto. right. lia.
Qed.

(** the guarantee of [CheckColdStake] (without the later stack rules): it
    accepts exactly the coinstakes with one input in which every output but the
    first, and but the last when there are at least three, pays back to the
    script that is spent, and these outputs together keep the amount spent. *)
Theorem CheckColdStake_keeps_value `{SigCrypto} tx amount script st flags e :
  Forall (λ o, 0 <= o.(nValue)) tx.(vout) → total_value tx.(vout) < 2 ^ 63 →
  (tx_CheckColdStake false tx amount script st flags e).1 = true ↔
  IsCoinStake tx = true ∧ length tx.(vin) = 1%nat ∧
  outputs_return script (size tx.(vout)) 1 (drop 1 tx.(vout)) ∧
  amount <= returned script (drop 1 tx.(vout)).
Proof.
  intros Hv Ht. unfold tx_CheckColdStake.
  destruct (IsCoinStake tx); cbn [negb]; [|split; [done|by intros [? _]]].
  destruct (Z.eqb_spec (size tx.(vin)) 1) as [E|E]; cbn [negb]; [|split; [done|intros (_ & ? & _); lia]].
  assert (Forall (λ o, 0 <= o.(nValue)) (drop 1 tx.(vout)) ∧ total_value (drop 1 tx.(vout)) < 2 ^ 63) as [Hv1 Ht1].
  { destruct (vout tx) as [|o l]; [done|]. inversion_clear Hv. cbn in *. rewrite drop_0. split; [done|lia]. }
  pose proof (λ v, coldstake_outputs_spec script (size (vout tx)) 1 (drop 1 (vout tx)) 0 v ltac:(lia) Hv1 Ht1) as Hs.
  destruct (coldstake_outputs _ _ _ _ _) as [v|].
  - destruct (proj1 (Hs v) eq_refl) as [Hr ->]. rewrite Z.add_0_l.
    destruct (Z.ltb_spec (returned script (drop 1 (vout tx))) amount); cbn [fst]; split; try done.
    + intros (_ & _ & _ & ?). lia.
    + intros _. split_and!; [done|lia|done|done].
  - cbn [fst]. split; [done|]. intros (_ & _ & Hr & _).
    by specialize (proj2 (Hs _) (conj Hr eq_refl)).
Qed.

(** The verdict under both sets of rules, for the stack that the script of a
    delegation leaves: the later rules check the encodings of the signature and
    the key, and the size of the hash. *)
Lemma CheckColdStake_verdict `{SigCrypto} g tx amount script h pk sig flags e :
  Forall (λ o, 0 <= o.(nValue)) tx.(vout) → total_value tx.(vout) < 2 ^ 63 → length h = 20%nat →
  (tx_CheckColdStake g tx amount script [h; pk; sig] flags e).1 = true ↔
  (g = true → CheckSignatureEncoding sig flags = Ok tt ∧ CheckPubKeyEncoding pk flags = Ok tt) ∧
  IsCoinStake tx = true ∧ length tx.(vin) = 1%nat ∧
  outputs_return script (size tx.(vout)) 1 (drop 1 tx.(vout)) ∧
  amount <= returned script (drop 1 tx.(vout)).
Proof.
  intros Hv Ht Hh. rewrite <- (CheckColdStake_keeps_value tx amount script [] flags e Hv Ht).
  destruct g; [|split; [done|by intros [_ ?]]]. unfold tx_CheckColdStake. rewrite Hh. change (Z.of_nat 20 =? 20) with true.
  destruct (CheckSignatureEncoding sig flags) as [[]| |]; cbn [mbind res_bind]; try by split; [|intros [[? _] _]].
  destruct (CheckPubKeyEncoding pk flags) as [[]| |]; cbn [mbind res_bind]; try by split; [|intros [[_ ?] _]].
  cbn [require]. split; [done|by intros [_ ?]].
Qed.

Lemma enc_inj {A} (ok : A → Prop) (c : codec A) `{!RoundTrip ok c} a b :
  ok a → ok b → c.(enc) a = c.(enc) b → a = b.
Proof.
  intros Ha Hb E. pose proof (round_trip a [] Ha) as H1. rewrite E, round_trip in H1 by done. by injection H1.
Qed.

(** the field [walletSenderId] is part of the serialised transaction, and so
    of its hash, but of no signature hash: replacing it changes the
    serialisation and leaves the verdict on every input script unchanged. *)
Theorem sender_id_is_not_signed `{SigCrypto} tx w :
  wf 5 w → wf 5 tx.(walletSenderId) → w ≠ tx.(walletSenderId) →
  SerializeTransaction (with_sender w tx) ≠ SerializeTransaction tx ∧
  ∀ g nIn amount flags sigversion scriptSig scriptPubKey,
    VerifyScript (TransactionSignatureChecker g (with_sender w tx) nIn amount None) flags sigversion scriptSig scriptPubKey =
    VerifyScript (TransactionSignatureChecker g tx nIn amount None) flags sigversion scriptSig scriptPubKey.
Proof.
  intros Hw Hs Hne. split.
  - intros E. apply Hne. unfold SerializeTransaction in E.
    do 6 apply app_inv_head in E. by apply (enc_inj (wf 5) c_uint160).
  - by destruct tx.
Qed.

(** Verifying with the precomputed hashes of the transaction gives the same
    signature hash as computing them. *)
Lemma SignatureHash_cache_transparent `{SigCrypto} code tx nIn nHashType amount sigversion :
  SignatureHash code tx nIn nHashType amount sigversion (Some (Precompute tx)) =
  SignatureHash code tx nIn nHashType amount sigversion None.
Proof.
  unfold SignatureHash. destruct (_ && _); [done|]. destruct (_ && _); [done|]. destruct sigversion; [done|].
  unfold SignatureHash_sapling, cached, Precompute. cbn [hashPrevouts hashSequence hashOutputs hashShieldedSpends hashShieldedOutputs].
  by destruct (sapData tx).
Qed.

(** ** The script code that is signed *)

Abbreviation separator := [OP_CODESEPARATOR].

Lemma deletes_separator it op v it' r n :
  GetOp2 it = Some (op, v, it') → deletes separator it r n →
  if op =? OP_CODESEPARATOR then it = OP_CODESEPARATOR :: it' ∧ deletes separator it' r (n - 1)
  else ∃ ins r', it = ins ++ it' ∧ r = ins ++ r' ∧ deletes separator it' r' n.
Proof.
  intros E Hd. destruct (GetOp2_app _ _ _ _ E) as (pre & Eit & _).
  destruct (Z.eqb_spec op OP_CODESEPARATOR) as [->|Hop].
  - assert (it = OP_CODESEPARATOR :: it') as E2.
    { rewrite Eit in E. unfold GetOp2 in E. cbn in E. injection E as <- E. rewrite Eit. by rewrite E. }
    split; [done|]. clear Eit. subst it. inversion Hd as [? Hnp| |? ? ? ? ? ? ? Hnp]; subst.
    + exfalso. apply Hnp. by exists it'.
    + by replace (n0 + 1 - 1) with n0 by lia.
    + exfalso. apply Hnp. by exists it'.
  - inversion Hd as [? ? E'|pc r0 n0 Hd' Epc|? ? ? ins rest ? ? Hnp E' Eins Hd']; subst.
    + congruence.
    + cbn in Epc; congruence.
    + rewrite E in E'. injection E' as <- <- <-. exists ins, r0. done.
Qed.

Lemma separators_loop_spec fuel pre it out r n :
  (instructions it).2 = [] → (length it <= fuel)%nat → deletes separator it r n →
  let '(o, ib, e) := separators_loop fuel (pre ++ it) it out in
  o ++ (if bool_decide (ib = []) then [] else take (length ib - length e) ib) = out ++ pre ++ r.
Proof.
  revert fuel pre out r n; induction it as [it E|it op v it' E IH] using script_ind; intros fuel pre out r n Hi Hf Hd.
  - rewrite instructions_stop in Hi by done. cbn in Hi. subst it.
    assert (r = []) as ->. { inversion Hd; simplify_eq; done. }
    assert (separators_loop fuel (pre ++ []) [] out = (out, pre ++ [], [])) as -> by (by destruct fuel).
    rewrite !app_nil_r. case_bool_decide as Ep; [by rewrite Ep|].
    cbn [length]. rewrite Nat.sub_0_r. by rewrite firstn_all.
  - rewrite (instructions_cons _ _ _ _ E) in Hi. cbn in Hi. pose proof (GetOp2_shorter _ _ _ _ E) as Hl.
    destruct fuel as [|fuel]; [lia|]. cbn [separators_loop]. rewrite E.
    apply (deletes_separator _ _ _ _ _ _ E) in Hd. destruct (op =? OP_CODESEPARATOR).
    + destruct Hd as [Eit Hd]. specialize (IH fuel [] (out ++ pre) r _ Hi ltac:(lia) Hd).
      cbn [app] in IH. rewrite <- app_assoc in IH. rewrite Eit.
      replace (length (pre ++ OP_CODESEPARATOR :: it') - length it' - 1)%nat with (length pre)
        by (rewrite length_app; cbn; lia).
      by rewrite take_app_length.
    + destruct Hd as (ins & r' & Eit & -> & Hd). specialize (IH fuel (pre ++ ins) out r' _ Hi ltac:(lia) Hd).
      rewrite Eit. by rewrite <- app_assoc in IH; rewrite <- app_assoc in IH.
Qed.

Lemma Find_separators fuel it r n acc :
  (length it <= fuel)%nat → deletes separator it r n → Find_loop fuel OP_CODESEPARATOR it acc = acc + n.
Proof.
  revert fuel r n acc; induction it as [it E|it op v it' E IH] using script_ind; intros fuel r n acc Hf Hd.
  - assert (n = 0) as ->.
    { inversion Hd as [| |? ? ? ? ? ? ? ? E']; subst; [done|discriminate E|by rewrite E in E']. }
    rewrite Z.add_0_r. destruct fuel; [done|]. cbn. by rewrite E.
  - pose proof (GetOp2_shorter _ _ _ _ E) as Hl. destruct fuel as [|fuel]; [lia|]. cbn [Find_loop]. rewrite E.
    apply (deletes_separator _ _ _ _ _ _ E) in Hd. destruct (op =? OP_CODESEPARATOR).
    + destruct Hd as [_ Hd]. rewrite (IH fuel r (n - 1)) by (done || lia). lia.
    + destruct Hd as (ins & r' & _ & _ & Hd). by rewrite (IH fuel r' n) by (done || lia).
Qed.

(** the script code in a signature hash is the script with its
    OP_CODESEPARATOR instructions (and no equal byte inside a push) removed,
    and the length written in front of it is the length of what follows, for
    every script that decodes to its end. *)
Theorem SerializeScriptCode_removes_separators (t : sig_serializer) :
  (instructions t.(scriptCode)).2 = [] →
  SerializeScriptCode t = c_blob.(enc) (FindAndDelete t.(scriptCode) separator).1.
Proof.
  intros Hi. pose proof (FindAndDelete_spec t.(scriptCode) separator ltac:(done)) as Hd.
  pose proof (separators_loop_spec (length t.(scriptCode)) [] t.(scriptCode) [] _ _ Hi (le_n _) Hd) as Hl.
  unfold SerializeScriptCode, count_separators, Find. rewrite (Find_separators _ _ _ _ _ (le_n _) Hd), Z.add_0_l.
  apply deletes_length in Hd. cbn [app] in Hl.
  destruct (separators_loop _ _ _ _) as [[o ib] e]. rewrite Hl. cbn [c_blob enc]. do 2 f_equal. change (size separator) with 1 in Hd. lia.
Qed.

(** ** Examples *)

Definition sample_sig_crypto : SigCrypto :=
  {| sig_script_crypto := sample_crypto; BLAKE2b := λ p d, pad 32 (p ++ d); ecdsa_verify := λ pk h s, true |}.

Lemma SerializeScriptCode_removes_separators_witness :
  let t := make_serializer sample_tx [OP_DUP; OP_CODESEPARATOR; 1; OP_CODESEPARATOR; OP_CHECKSIG] 0 1 in
  (instructions t.(scriptCode)).2 = [] ∧ SerializeScriptCode t = [4; OP_DUP; 1; OP_CODESEPARATOR; OP_CHECKSIG].
Proof.
  intros t. assert ((instructions t.(scriptCode)).2 = []) as H by reflexivity. split; [exact H|].
  exact (SerializeScriptCode_removes_separators t H).
Defined.

Lemma sender_id_is_not_signed_witness :
  SerializeTransaction (with_sender (replicate 5 9) sample_tx) ≠ SerializeTransaction sample_tx.
Proof.
  assert (wf 5 (replicate 5 9) ∧ wf 5 sample_tx.(walletSenderId)) as [H1 H2]
    by (apply (bool_decide_unpack _); vm_compute; exact I).
  assert (replicate 5 9 ≠ sample_tx.(walletSenderId)) as H3 by (vm_compute; discriminate).
  exact (proj1 (@sender_id_is_not_signed sample_sig_crypto sample_tx (replicate 5 9) H1 H2 H3)).
Defined.

(** A coinstake that returns its input to the delegation. *)
Definition sample_p2cs : CScript := p2cs (replicate 20 5) (replicate 20 6).
Definition sample_coinstake : CTransaction :=
  {| nVersion := 1; nType := 0;
     vin := [{| prevout := sample_outpoint; scriptSig := []; nSequence := 2 ^ 32 - 1 |}];
     vout := [{| nValue := 0; scriptPubKey := []; nRounds := -10 |};
              {| nValue := 150; scriptPubKey := sample_p2cs; nRounds := -10 |};
              {| nValue := 7; scriptPubKey := [OP_1]; nRounds := -10 |}];
     nLockTime := 0; sapData := Some SaplingTxData_empty; extraPayload := None;
     walletSenderId := replicate 5 0 |}.

Lemma CheckColdStake_keeps_value_witness :
  (@tx_CheckColdStake sample_sig_crypto false sample_coinstake 120 sample_p2cs [] 0 SCRIPT_ERR_OK).1 = true.
Proof.
  assert (Forall (λ o, 0 <= o.(nValue)) sample_coinstake.(vout)) as Hv by (repeat constructor; cbn; lia).
  assert (total_value sample_coinstake.(vout) < 2 ^ 63) as Ht by (cbn; lia).
  apply (@CheckColdStake_keeps_value sample_sig_crypto sample_coinstake 120 sample_p2cs [] 0 SCRIPT_ERR_OK Hv Ht).
  split_and!; [vm_compute; reflexivity|reflexivity| |vm_compute; discriminate].
  intros [|[|j]] o Hj; [|right; reflexivity|by cbn in Hj; rewrite ?drop_0 in Hj; destruct j].
  left. cbn in Hj. by injection Hj as <-.
Defined.
