(* ===== verification/TxVerify.v ===== *)
(** * TxVerify: context-free transaction checks ([consensus/tx_verify.cpp],
    [sapling/sapling_validation.cpp], [tiertwo/specialtx_validation.cpp])

    A check answers [None] when it accepts and the rejection otherwise: the
    penalty and the reason given to [state.DoS], or neither where the C++
    returns [false] without setting the state. *)

From stdpp Require Import strings.
From S2P Require Import Prelude ArithUint256 Params Script Interpreter Serialize Transaction.
Local Open Scope Z_scope.

Inductive reject :=
  | DoS (level : Z) (reason : string)
  | silent.

Abbreviation check := (option reject).

(** The first rejection of two checks in a row. *)
Definition and_then (a b : check) : check := match a with Some r => Some r | None => b end.
Declare Scope check_scope.
Delimit Scope check_scope with check.
Notation "a ;; b" := (and_then a b) (at level 100, b at level 200, right associativity) : check_scope.
Local Open Scope check_scope.

(** [if (c) return state.DoS(level, ..., reason);] *)
Definition reject_if (c : bool) (level : Z) (reason : string) : check :=
  if c then Some (DoS level reason) else None.

Definition MAX_TX_SIZE_AFTER_SAPLING : Z := 400000.
Definition MAX_STANDARD_TX_SIZE : Z := 150000.
Definition MIN_COLDSTAKING_AMOUNT : Z := 10000 * COIN.
Definition MAX_SPECIALTX_EXTRAPAYLOAD : Z := 10000.

Definition GetTotalSize (tx : CTransaction) : Z := size (SerializeTransaction tx).

(** ** Finality and signature operations *)

Definition IsFinalTx (adjustedTime : Z) (tx : CTransaction) (nBlockHeight nBlockTime : Z) : bool :=
  if tx.(nLockTime) =? 0 then true
  else
    let nBlockTime := if nBlockTime =? 0 then adjustedTime else nBlockTime in
    if tx.(nLockTime) <? (if tx.(nLockTime) <? LOCKTIME_THRESHOLD then nBlockHeight else nBlockTime) then true
    else forallb TxIn_IsFinal tx.(vin).

Definition GetLegacySigOpCount (tx : CTransaction) : Z :=
  let n := foldl (λ n i, u32 (n + GetSigOpCount i.(scriptSig) false)) 0 tx.(vin) in
  foldl (λ n o, u32 (n + GetSigOpCount o.(scriptPubKey) false)) n tx.(vout).

(** [access] is [inputs.AccessCoin(prevout).out.scriptPubKey]. *)
Definition GetP2SHSigOpCount (access : COutPoint → CScript) (tx : CTransaction) : Z :=
  if IsCoinBase tx || ContainsAssets tx then 0
  else foldl (λ n i, let s := access i.(prevout) in
                     if IsPayToScriptHash s then u32 (n + GetSigOpCount_p2sh s i.(scriptSig)) else n) 0 tx.(vin).

(** ** Shielded data *)

(** Whether a list has a repeated element, as the loops with a [std::set] find it. *)
Fixpoint has_duplicate `{EqDecision A} (seen l : list A) : bool :=
  match l with
  | [] => false
  | a :: l => if bool_decide (a ∈ seen) then true else has_duplicate (a :: seen) l
  end.

Section checks.
Variable consensus : Params.

(** Returns the check and the new value of [nValueOut]. *)
Definition CheckTransactionWithoutProofVerification (d : SaplingTxData) (nValueOut : Z) : check * Z :=
  let nValueOut' := if d.(valueBalance) <? 0 then i64 (nValueOut + i64 (- d.(valueBalance))) else nValueOut in
  ((reject_if (bool_decide (length d.(vShieldedSpend) = 0%nat) && bool_decide (length d.(vShieldedOutput) = 0%nat)
               && negb (d.(valueBalance) =? 0)) 100 "bad-txns-valuebalance-nonzero";;
    reject_if ((consensus.(nMaxMoneyOut) <? d.(valueBalance)) || (d.(valueBalance) <? - consensus.(nMaxMoneyOut)))
      100 "bad-txns-valuebalance-toolarge";;
    reject_if ((d.(valueBalance) <? 0) && negb (MoneyRange consensus nValueOut')) 100 "bad-txns-txouttotal-toolarge";;
    reject_if ((0 <? d.(valueBalance)) && negb (MoneyRange consensus d.(valueBalance)))
      100 "bad-txns-txintotal-toolarge";;
    reject_if (has_duplicate [] (spend_nullifier <$> d.(vShieldedSpend)))
      100 "bad-spend-description-nullifiers-duplicate"), nValueOut').

Definition Sapling_CheckTransaction (tx : CTransaction) (nValueOut : Z) (fIsSaplingActive : bool) : check * Z :=
  if negb (isSaplingVersion tx) && hasSaplingData tx then (Some (DoS 100 "bad-txns-form-not-sapling"), nValueOut)
  else if negb (hasSaplingData tx) then (None, nValueOut)
  else if IsCoinStake tx || IsCoinBase tx then (Some (DoS 100 "bad-txns-invalid-sapling"), nValueOut)
  else if negb fIsSaplingActive then (Some (DoS 100 "bad-txns-invalid-sapling-act"), nValueOut)
  else match tx.(sapData) with
       | Some d => CheckTransactionWithoutProofVerification d nValueOut
       | None => (None, nValueOut)
       end.

(** ** Special transactions; no type but the normal one is supported. *)

Definition CheckSpecialTx (tx : CTransaction) (fIsSaplingActive : bool) : check :=
  if negb fIsSaplingActive then (if hasExtraPayload tx then Some silent else None)
  else
    reject_if (negb (isSaplingVersion tx) && negb (tx.(nType) =? TxType_NORMAL)) 100 "bad-txns-type-version";;
    (if tx.(nType) =? TxType_NORMAL then reject_if (hasExtraPayload tx) 100 "bad-txns-type-payload"
     else
       reject_if (negb (hasExtraPayload tx)) 100 "bad-txns-payload-empty";;
       reject_if (match tx.(extraPayload) with Some p => MAX_SPECIALTX_EXTRAPAYLOAD <? size p | None => false end)
         100 "bad-txns-payload-oversize";;
       Some (DoS 10 "bad-tx-type")).

(** ** [CheckTransaction] *)

(** The loop over the outputs.  [tipHeight] is [chainActive.Tip()->nHeight]. *)
Fixpoint check_outputs (g_newP2CSRules fColdStakingActive allowEmpty : bool) (tipHeight : Z)
    (vout : list CTxOut) (nValueOut : Z) : check :=
  match vout with
  | [] => None
  | o :: vout =>
      let nValueOut' := i64 (nValueOut + o.(nValue)) in
      let p2cs := IsPayToColdStaking g_newP2CSRules o.(scriptPubKey) in
      reject_if (TxOut_IsEmpty o && negb allowEmpty) 100 "bad-txns-vout-empty";;
      reject_if (o.(nValue) <? 0) 100 "bad-txns-vout-negative";;
      reject_if (consensus.(nMaxMoneyOut) <? o.(nValue)) 100 "bad-txns-vout-toolarge";;
      reject_if (negb (MoneyRange consensus nValueOut')) 100 "bad-txns-txouttotal-toolarge";;
      reject_if (p2cs && negb fColdStakingActive) 10 "cold-stake-inactive";;
      reject_if (p2cs && (o.(nValue) <? MIN_COLDSTAKING_AMOUNT) && (21555 <? tipHeight)) 100 "cold-stake-vout-toosmall";;
      check_outputs g_newP2CSRules fColdStakingActive allowEmpty tipHeight vout nValueOut'
  end.

(** The last part: the coinbase script, or the previous outputs. *)
Definition check_inputs (tx : CTransaction) : check :=
  if IsCoinBase tx then
    match tx.(vin) with
    | i :: _ => reject_if ((size i.(scriptSig) <? 2) || (150 <? size i.(scriptSig))) 100 "bad-cb-length"
    | [] => None
    end
  else reject_if (existsb (λ i, OutPoint_IsNull i.(prevout) && negb (TxIn_IsMultiMiningSpend i)) tx.(vin))
         10 "bad-txns-prevout-null".

Definition CheckTransaction (g_newP2CSRules : bool) (tipHeight : Z) (tx : CTransaction)
    (fColdStakingActive fSaplingActive : bool) : check :=
  let spends := match tx.(sapData) with Some d => Some (length d.(vShieldedSpend)) | None => None end in
  let outputs := match tx.(sapData) with Some d => Some (length d.(vShieldedOutput)) | None => None end in
  reject_if (bool_decide (tx.(vin) = []) && bool_decide (spends = Some 0%nat)) 10 "bad-txns-vin-empty";;
  reject_if (bool_decide (tx.(vout) = []) && bool_decide (outputs = Some 0%nat)) 10 "bad-txns-vout-empty";;
  reject_if (fSaplingActive && ((tx.(nVersion) <? 1) || (TxVersion_TOOHIGH <=? tx.(nVersion)))) 10 "bad-tx-version-too-high";;
  reject_if ((if IsShieldedTx tx then MAX_TX_SIZE_AFTER_SAPLING else MAX_STANDARD_TX_SIZE) <? GetTotalSize tx)
    10 "bad-txns-oversize";;
  let '(r, nValueOut) := Sapling_CheckTransaction tx 0 fSaplingActive in
  r;;
  CheckSpecialTx tx fSaplingActive;;
  check_outputs g_newP2CSRules fColdStakingActive (IsCoinBase tx || IsCoinStake tx || ContainsAssets tx)
    tipHeight tx.(vout) nValueOut;;
  reject_if (has_duplicate [] (prevout <$> tx.(vin))) 100 "bad-txns-inputs-duplicate";;
  check_inputs tx.

End checks.

(** ** Results *)

Lemma and_then_None a b : (a;; b) = None ↔ a = None ∧ b = None.
Proof. destruct a; cbn; [split; [done|by intros [? _]]|tauto]. Qed.

Lemma reject_if_None c l r : reject_if c l r = None ↔ c = false.
Proof. by destruct c. Qed.

(** Takes an accepted chain of checks apart. *)
Ltac accepted :=
  repeat match goal with
  | H : and_then _ _ = None |- _ => apply and_then_None in H as [? H]
  | H : reject_if _ _ _ = None |- _ => rewrite reject_if_None in H
  end.

Lemma has_duplicate_false `{EqDecision A} (l seen : list A) :
  has_duplicate seen l = false ↔ NoDup l ∧ ∀ a, a ∈ l → a ∉ seen.
Proof.
  revert seen; induction l as [|a l IH]; intros seen; cbn [has_duplicate].
  { split; [|done]. intros _. split; [constructor|]. by intros a ?%elem_of_nil. }
  case_bool_decide as Ha.
  - split; [done|]. intros [_ Hn]. exfalso. apply (Hn a); [by left|done].
  - rewrite IH, NoDup_cons. split.
    + intros [Hnd Hn]. split_and!; [|done|].
      * intros Hin. apply (Hn a Hin). by left.
      * intros b [->|Hb]%elem_of_cons; [done|]. specialize (Hn b Hb). intros ?. apply Hn. by right.
    + intros [[Hal Hnd] Hn]. split; [done|]. intros b Hb [->|Hs]%elem_of_cons; [done|].
      apply (Hn b); [by right|done].
Qed.

Section results.
Variable consensus : Params.
Hypothesis max_money : 0 <= consensus.(nMaxMoneyOut) < 2 ^ 62.

Lemma check_outputs_sound g cs ae tip l acc :
  check_outputs consensus g cs ae tip l acc = None → 0 <= acc <= consensus.(nMaxMoneyOut) →
  Forall (λ o, 0 <= o.(nValue) <= consensus.(nMaxMoneyOut)) l ∧
  acc + total_value l <= consensus.(nMaxMoneyOut).
Proof using max_money.
  revert acc; induction l as [|o l IH]; intros acc; cbn [check_outputs total_value].
  { intros _ ?. split; [constructor|lia]. }
  intros E Hacc. accepted. unfold MoneyRange in *.
  rewrite i64_id in * by (unfold is_i64; lia).
  destruct (IH _ E) as [Hl Hs]; [lia|]. split; [|lia]. constructor; [lia|done].
Qed.

Lemma GetValueOut_loop_total l acc :
  Forall (λ o, 0 <= o.(nValue)) l → 0 <= acc → acc + total_value l < 2 ^ 63 →
  GetValueOut_loop l acc = Some (acc + total_value l).
Proof.
  intros Hl. revert acc; induction Hl as [|o l Ho Hl IH]; intros acc Hacc Hs; cbn [GetValueOut_loop total_value] in *.
  { f_equal. lia. }
  pose proof (total_value_nonneg l Hl). rewrite (i64_id (acc + _)) by (unfold is_i64; lia).
  rewrite !(proj2 (Z.ltb_ge _ _)) by lia. rewrite IH by lia. f_equal. lia.
Qed.

(** The value that a negative [valueBalance] takes from the transparent pool. *)
Definition shielded_out (tx : CTransaction) : Z :=
  match tx.(sapData) with
  | Some d => if hasSaplingData tx then Z.max 0 (- d.(valueBalance)) else 0
  | None => 0
  end.

Lemma Sapling_CheckTransaction_sound tx active r v :
  Sapling_CheckTransaction consensus tx 0 active = (r, v) → r = None →
  v = shielded_out tx ∧ 0 <= v <= consensus.(nMaxMoneyOut) ∧
  (hasSaplingData tx = true → isSaplingVersion tx = true ∧
     ∃ d, tx.(sapData) = Some d ∧ NoDup (spend_nullifier <$> d.(vShieldedSpend))).
Proof using max_money.
  unfold Sapling_CheckTransaction, shielded_out. intros E ->.
  destruct (isSaplingVersion tx); cbn [negb andb] in E.
  - destruct (hasSaplingData tx) eqn:Hd; cbn [negb] in E; [|injection E as <-; destruct (sapData tx); split_and!; (done || lia)].
    destruct (_ || _); [done|]. destruct active; [|done]. cbn [negb] in E.
    destruct (sapData tx) as [d|] eqn:Esap.
    + unfold CheckTransactionWithoutProofVerification in E. injection E as E <-. accepted.
      apply has_duplicate_false in E as [Hn _].
      split_and!; [| | |by eauto]; unfold MoneyRange in *; destruct (Z.ltb_spec d.(valueBalance) 0);
        rewrite ?(i64_id (- valueBalance d)), ?i64_id in * by (unfold is_i64; lia); lia.
    + unfold hasSaplingData in Hd. by rewrite Esap in Hd.
  - destruct (hasSaplingData tx); cbn [negb] in E; [done|]. injection E as <-. destruct (sapData tx); split_and!; (done || lia).
Qed.

End results.

(** What holds of an accepted transaction. *)
Definition transaction_sound (consensus : Params) (active : bool) (tx : CTransaction) : Prop :=
  Forall (λ o, 0 <= o.(nValue) <= consensus.(nMaxMoneyOut)) tx.(vout) ∧
  total_value tx.(vout) + shielded_out tx <= consensus.(nMaxMoneyOut) ∧
  GetValueOut tx = Some (total_value tx.(vout) + shielded_out tx) ∧
  NoDup (prevout <$> tx.(vin)) ∧
  (hasSaplingData tx = true → ∃ d, tx.(sapData) = Some d ∧ NoDup (spend_nullifier <$> d.(vShieldedSpend))) ∧
  (IsCoinBase tx = false → Forall (λ i, OutPoint_IsNull i.(prevout) = true → TxIn_IsMultiMiningSpend i = true) tx.(vin)) ∧
  GetTotalSize tx <= MAX_TX_SIZE_AFTER_SAPLING ∧
  (active = true → 1 <= tx.(nVersion) <= 3 ∧ tx.(nType) = TxType_NORMAL).

Lemma CheckTransaction_accepts consensus g tip tx cs active :
  0 <= consensus.(nMaxMoneyOut) < 2 ^ 62 →
  CheckTransaction consensus g tip tx cs active = None → transaction_sound consensus active tx.
Proof.
  intros Hm E. unfold CheckTransaction in E.
  destruct (Sapling_CheckTransaction consensus tx 0 active) as [r v] eqn:Es. accepted.
  destruct (Sapling_CheckTransaction_sound consensus Hm _ _ _ _ Es ltac:(done)) as (-> & Hv & Hsap).
  match goal with Ho : check_outputs _ _ _ _ _ _ _ = None |- _ =>
    destruct (check_outputs_sound consensus Hm _ _ _ _ _ _ Ho Hv) as [Hf Ht] end.
  assert (Forall (λ o, 0 <= o.(nValue)) tx.(vout)) as Hf0 by (eapply Forall_impl; [exact Hf|cbn; lia]).
  pose proof (total_value_nonneg _ Hf0).
  match goal with Hd : has_duplicate _ _ = false |- _ => apply has_duplicate_false in Hd as [Hnd _] end.
  split_and!; [done|lia| |done|by intros Hd; apply Hsap in Hd as [_ ?]| | |].
  - unfold GetValueOut. rewrite GetValueOut_loop_total by (done || lia). cbn [mbind option_bind].
    unfold shielded_out in *. destruct (sapData tx) as [d|]; [|f_equal; lia].
    destruct (hasSaplingData tx) eqn:Hd; cbn [andb]; [|f_equal; lia].
    destruct (Hsap eq_refl) as [-> _]. cbn [negb].
    destruct (Z.ltb_spec d.(valueBalance) 0); [|f_equal; lia].
    rewrite (i64_id (- valueBalance d)), i64_id by (unfold is_i64; lia). f_equal. lia.
  - intros Hcb. unfold check_inputs in E. rewrite Hcb in E. accepted.
    apply Forall_forall. intros i Hi Hn. destruct (TxIn_IsMultiMiningSpend i) eqn:Emm; [done|].
    apply not_true_iff_false in E. exfalso. apply E. apply existsb_exists. exists i.
    split; [by apply list_elem_of_In|]. by rewrite Hn, Emm.
  - unfold MAX_STANDARD_TX_SIZE, MAX_TX_SIZE_AFTER_SAPLING in *. destruct (IsShieldedTx tx); lia.
  - intros ->. unfold TxVersion_TOOHIGH, CheckSpecialTx in *. cbn [negb] in *. accepted.
    destruct (Z.eqb_spec (nType tx) TxType_NORMAL); [lia|]. accepted. done.
Qed.

(** C12: what [CheckTransaction] guarantees.  The outputs of an accepted
    transaction are in the money range one by one and in total, together with
    the value its shielded part takes, and [GetValueOut] returns that total
    without throwing; no output is spent twice and no nullifier revealed twice;
    only a coinbase or an asset spend has a null previous output; the size
    limit holds; and after the Sapling upgrade the version is at most 3 and the
    type is the normal one. *)
Theorem CheckTransaction_sound consensus g tip tx cs active :
  0 <= consensus.(nMaxMoneyOut) < 2 ^ 62 →
  CheckTransaction consensus g tip tx cs active = None →
  Forall (λ o, 0 <= o.(nValue) <= consensus.(nMaxMoneyOut)) tx.(vout) ∧
  total_value tx.(vout) + shielded_out tx <= consensus.(nMaxMoneyOut) ∧
  GetValueOut tx = Some (total_value tx.(vout) + shielded_out tx) ∧
  NoDup (prevout <$> tx.(vin)) ∧
  (hasSaplingData tx = true → ∃ d, tx.(sapData) = Some d ∧ NoDup (spend_nullifier <$> d.(vShieldedSpend))) ∧
  (IsCoinBase tx = false → Forall (λ i, OutPoint_IsNull i.(prevout) = true → TxIn_IsMultiMiningSpend i = true) tx.(vin)) ∧
  GetTotalSize tx <= MAX_TX_SIZE_AFTER_SAPLING ∧
  (active = true → 1 <= tx.(nVersion) <= 3 ∧ tx.(nType) = TxType_NORMAL).
Proof. apply CheckTransaction_accepts. Qed.

Definition sample_payment : CTransaction :=
  {| nVersion := 1; nType := 0;
     vin := [{| prevout := sample_outpoint; scriptSig := [1; 7]; nSequence := 2 ^ 32 - 1 |}];
     vout := [{| nValue := 5 * COIN; scriptPubKey := [OP_1]; nRounds := -10 |};
              {| nValue := 2; scriptPubKey := [OP_2]; nRounds := -10 |}];
     nLockTime := 0; sapData := Some SaplingTxData_empty; extraPayload := None;
     walletSenderId := replicate 5 0 |}.

Lemma CheckTransaction_sound_witness :
  CheckTransaction main_params true 100 sample_payment true true = None ∧
  GetValueOut sample_payment = Some (5 * COIN + 2).
Proof.
  assert (0 <= main_params.(nMaxMoneyOut) < 2 ^ 62) as Hm by (vm_compute; split; [discriminate|reflexivity]).
  assert (CheckTransaction main_params true 100 sample_payment true true = None) as E by (vm_compute; reflexivity).
  split; [exact E|].
  destruct (CheckTransaction_sound main_params true 100 sample_payment true true Hm E) as (_ & _ & Hv & _).
  exact Hv.
Defined.

(** A Sapling transaction without inputs, outputs and shielded data. *)
Definition empty_transaction : CTransaction :=
  {| nVersion := 3; nType := 0; vin := []; vout := []; nLockTime := 0; sapData := None;
     extraPayload := None; walletSenderId := replicate 5 0 |}.

(** Without the optional shielded data the emptiness checks do not apply, so a
    transaction with no inputs and no outputs at all passes. *)
Lemma empty_transaction_accepted g tip cs :
  CheckTransaction main_params g tip empty_transaction cs true = None ∧
  UnserializeTransaction (SerializeTransaction empty_transaction) = Some (empty_transaction, []).
Proof. split; [by destruct g, cs|done]. Qed.
