(* ===== verification/Block.v ===== *)
(** * Block: block headers and blocks ([primitives/block.h], [primitives/block.cpp])

    The records, their serialisation and the hash of a block.  A block is its
    header and its transactions, asset registrations and signature; the flag
    [fChecked] is in memory only. *)

From S2P Require Import Prelude ArithUint256 Script Interpreter Serialize Transaction.
Local Open Scope Z_scope.

Record CAssetRegistration := {
  reg_owner : base_uint;
  reg_key : base_uint;
  reg_type : Z;
}.

Record CBlockHeader := {
  hdr_nVersion : Z;
  hashPrevBlock : base_uint;
  hdr_hashMerkleRoot : base_uint;
  hdr_nTime : Z;
  hdr_nBits : Z;
  hdr_nNonce : Z;
  hdr_hashFinalSaplingRoot : base_uint;
  hdr_assetRootHash : base_uint;
}.

Record CBlock := {
  header : CBlockHeader;
  vtx : list CTransaction;
  vReg : list CAssetRegistration;
  vchBlockSig : list Z;
  fChecked : bool;
}.

#[export] Instance CAssetRegistration_eq_dec : EqDecision CAssetRegistration.
Proof. solve_decision. Defined.
#[export] Instance CBlockHeader_eq_dec : EqDecision CBlockHeader.
Proof. solve_decision. Defined.

(** ** Members *)

Definition MAX_BLOCK_SIZE_CURRENT : Z := 2000000.
Definition CURRENT_VERSION : Z := 5.

Definition Header_SetNull : CBlockHeader :=
  {| hdr_nVersion := CURRENT_VERSION; hashPrevBlock := uint_zero 8; hdr_hashMerkleRoot := uint_zero 8; hdr_nTime := 0; hdr_nBits := 0;
     hdr_nNonce := 0; hdr_hashFinalSaplingRoot := uint_zero 8; hdr_assetRootHash := uint_zero 8 |}.
Definition Header_IsNull (h : CBlockHeader) : bool := h.(hdr_nBits) =? 0.
Definition Block_SetNull : CBlock :=
  {| header := Header_SetNull; vtx := []; vReg := []; vchBlockSig := []; fChecked := false |}.

(** [CBlock(header)]. *)
Definition Block_of_header (h : CBlockHeader) : CBlock :=
  {| header := h; vtx := []; vReg := []; vchBlockSig := []; fChecked := false |}.

(** [GetBlockHeader]: the fields that the version has. *)
Definition GetBlockHeader (b : CBlock) : CBlockHeader :=
  let h := b.(header) in
  {| hdr_nVersion := h.(hdr_nVersion); hashPrevBlock := h.(hashPrevBlock); hdr_hashMerkleRoot := h.(hdr_hashMerkleRoot);
     hdr_nTime := h.(hdr_nTime); hdr_nBits := h.(hdr_nBits); hdr_nNonce := h.(hdr_nNonce);
     hdr_hashFinalSaplingRoot := if 2 <=? h.(hdr_nVersion) then h.(hdr_hashFinalSaplingRoot) else uint_zero 8;
     hdr_assetRootHash := if 3 <=? h.(hdr_nVersion) then h.(hdr_assetRootHash) else uint_zero 8 |}.

Definition vtx_IsProofOfStake (vtx : list CTransaction) : bool := match vtx with _ :: tx :: _ => IsCoinStake tx | _ => false end.
Definition CBlock_IsProofOfStake (b : CBlock) : bool := vtx_IsProofOfStake b.(vtx).
Definition CBlock_IsProofOfWork (b : CBlock) : bool := negb (CBlock_IsProofOfStake b).

(** ** Serialisation *)

Definition c_registration : codec CAssetRegistration :=
  {| enc r := c_uint160.(enc) r.(reg_owner) ++ c_uint160.(enc) r.(reg_key) ++ (c_signed 2).(enc) r.(reg_type);
     dec s := '(o, s) ← c_uint160.(dec) s;
              '(k, s) ← c_uint160.(dec) s;
              '(t, s) ← (c_signed 2).(dec) s;
              Some ({| reg_owner := o; reg_key := k; reg_type := t |}, s) |}.

(** The fields of a later version are written when the version has them; a
    reader leaves the others as [SetNull] set them. *)
Definition c_header : codec CBlockHeader :=
  {| enc h := (c_signed 4).(enc) h.(hdr_nVersion) ++ c_uint256.(enc) h.(hashPrevBlock) ++ c_uint256.(enc) h.(hdr_hashMerkleRoot) ++
              (c_unsigned 4).(enc) h.(hdr_nTime) ++ (c_unsigned 4).(enc) h.(hdr_nBits) ++ (c_unsigned 4).(enc) h.(hdr_nNonce) ++
              (if 2 <=? h.(hdr_nVersion) then c_uint256.(enc) h.(hdr_hashFinalSaplingRoot) else []) ++
              (if 3 <=? h.(hdr_nVersion) then c_uint256.(enc) h.(hdr_assetRootHash) else []);
     dec s := '(ver, s) ← (c_signed 4).(dec) s;
              '(prev, s) ← c_uint256.(dec) s;
              '(root, s) ← c_uint256.(dec) s;
              '(time, s) ← (c_unsigned 4).(dec) s;
              '(bits, s) ← (c_unsigned 4).(dec) s;
              '(nonce, s) ← (c_unsigned 4).(dec) s;
              '(sapling, s) ← (if 2 <=? ver then c_uint256.(dec) s else Some (uint_zero 8, s));
              '(asset, s) ← (if 3 <=? ver then c_uint256.(dec) s else Some (uint_zero 8, s));
              Some ({| hdr_nVersion := ver; hashPrevBlock := prev; hdr_hashMerkleRoot := root; hdr_nTime := time; hdr_nBits := bits;
                       hdr_nNonce := nonce; hdr_hashFinalSaplingRoot := sapling; hdr_assetRootHash := asset |}, s) |}.

(** The signature is part of a block whose second transaction is a coinstake. *)
Definition c_block : codec CBlock :=
  {| enc b := c_header.(enc) b.(header) ++ (c_vector c_transaction).(enc) b.(vtx) ++ (c_vector c_registration).(enc) b.(vReg) ++
              (if vtx_IsProofOfStake b.(vtx) then c_blob.(enc) b.(vchBlockSig) else []);
     dec s := '(h, s) ← c_header.(dec) s;
              '(txs, s) ← (c_vector c_transaction).(dec) s;
              '(regs, s) ← (c_vector c_registration).(dec) s;
              '(sig, s) ← (if vtx_IsProofOfStake txs then c_blob.(dec) s else Some ([], s));
              Some ({| header := h; vtx := txs; vReg := regs; vchBlockSig := sig; fChecked := false |}, s) |}.

(** [GetSerializeSize]. *)
Definition GetBlockSize (b : CBlock) : Z := size (c_block.(enc) b).

(** [CBlockLocator]; [gethash] is whether the stream has the type
    [SER_GETHASH], and [version] its version, which a reader ignores. *)
Definition c_locator (gethash : bool) (version : Z) : codec (list base_uint) :=
  {| enc v := (if gethash then [] else (c_signed 4).(enc) version) ++ (c_vector c_uint256).(enc) v;
     dec s := '(_, s) ← (if gethash then Some (version, s) else (c_signed 4).(dec) s); (c_vector c_uint256).(dec) s |}.

(** ** The hash *)

Section hash.
Context `{ScriptCrypto}.

(** [SerializeHash] of the header. *)
Definition Header_GetHash (h : CBlockHeader) : base_uint :=
  match c_uint256.(dec) (Hash256 (c_header.(enc) h)) with Some (x, _) => x | None => uint_zero 8 end.
Definition Block_GetHash (b : CBlock) : base_uint := Header_GetHash b.(header).
End hash.

(** ** Round trips *)

Definition registration_ok (r : CAssetRegistration) : Prop := wf 5 r.(reg_owner) ∧ wf 5 r.(reg_key) ∧ signed_ok 2 r.(reg_type).
Definition header_ok (h : CBlockHeader) : Prop :=
  signed_ok 4 h.(hdr_nVersion) ∧ wf 8 h.(hashPrevBlock) ∧ wf 8 h.(hdr_hashMerkleRoot) ∧
  is_u32 h.(hdr_nTime) ∧ is_u32 h.(hdr_nBits) ∧ is_u32 h.(hdr_nNonce) ∧
  wf 8 h.(hdr_hashFinalSaplingRoot) ∧ wf 8 h.(hdr_assetRootHash) ∧
  (h.(hdr_nVersion) < 2 → h.(hdr_hashFinalSaplingRoot) = uint_zero 8) ∧ (h.(hdr_nVersion) < 3 → h.(hdr_assetRootHash) = uint_zero 8).
(** A block as the network sends it. *)
Definition block_ok (b : CBlock) : Prop :=
  header_ok b.(header) ∧ (Forall tx_ok b.(vtx) ∧ size b.(vtx) <= MAX_SIZE) ∧
  (Forall registration_ok b.(vReg) ∧ size b.(vReg) <= MAX_SIZE) ∧
  (if vtx_IsProofOfStake b.(vtx) then size b.(vchBlockSig) <= MAX_SIZE else b.(vchBlockSig) = []) ∧ b.(fChecked) = false.

Lemma uint160_codec x rest : wf 5 x → c_uint160.(dec) (c_uint160.(enc) x ++ rest) = Some (x, rest).
Proof. apply c_uint_rt. Qed.

#[export] Instance c_registration_rt : RoundTrip registration_ok c_registration.
Proof.
  intros [o k t] rest (Ho & Hk & Ht). cbn [c_registration enc dec reg_owner reg_key reg_type] in *.
  rewrite <- !app_assoc, uint160_codec by done. cbn [mbind option_bind]. rewrite uint160_codec by done. cbn [mbind option_bind]. by read_field.
Qed.

#[export] Instance c_header_rt : RoundTrip header_ok c_header.
Proof.
  intros [ver prev root time bits nonce sap asset] rest (Hv & Hp & Hr & Ht & Hb & Hn & Hs & Ha & Hs0 & Ha0).
  cbn [c_header enc dec hdr_nVersion hashPrevBlock hdr_hashMerkleRoot hdr_nTime hdr_nBits hdr_nNonce hdr_hashFinalSaplingRoot hdr_assetRootHash] in *.
  do 6 read_field. rewrite <- ?app_assoc.
  destruct (Z.leb_spec 2 ver); [rewrite uint256_codec by done|rewrite Hs0 by lia]; cbn [mbind option_bind app].
  - destruct (Z.leb_spec 3 ver); [by rewrite uint256_codec by done|by rewrite Ha0 by lia].
  - rewrite (proj2 (Z.leb_gt 3 ver)) by lia. cbn [app]. by rewrite Ha0 by lia.
Qed.

#[export] Instance c_block_rt : RoundTrip block_ok c_block.
Proof.
  intros [h txs regs sig chk] rest (Hh & Ht & Hr & Hs & Hc). cbn [c_block enc dec header vtx vReg vchBlockSig fChecked] in *. subst chk.
  rewrite <- !app_assoc, round_trip by done. cbn [mbind option_bind]. rewrite round_trip by done. cbn [mbind option_bind].
  rewrite round_trip by done. cbn [mbind option_bind]. destruct (vtx_IsProofOfStake txs); [by rewrite round_trip by done|by subst sig].
Qed.

(** The header that [GetBlockHeader] returns has the hash of the block. *)
Lemma GetBlockHeader_hash `{ScriptCrypto} b : Header_GetHash (GetBlockHeader b) = Block_GetHash b.
Proof.
  unfold Block_GetHash, Header_GetHash. assert (c_header.(enc) (GetBlockHeader b) = c_header.(enc) b.(header)) as ->; [|done].
  destruct b as [[ver prev root time bits nonce sap asset] ? ? ? ?]. unfold GetBlockHeader. cbn.
  destruct (2 <=? ver), (3 <=? ver); done.
Qed.

#[export] Instance c_locator_rt gethash version :
  RoundTrip (λ v, signed_ok 4 version ∧ Forall (wf 8) v ∧ size v <= MAX_SIZE) (c_locator gethash version).
Proof.
  intros v rest (Hv & Hf & Hs). cbn [c_locator enc dec]. destruct gethash; cbn [app mbind option_bind].
  - exact (c_vector_rt (wf 8) c_uint256 v rest (conj Hf Hs)).
  - rewrite <- app_assoc, round_trip by done. cbn [mbind option_bind]. exact (c_vector_rt (wf 8) c_uint256 v rest (conj Hf Hs)).
Qed.

(** blocks survive the wire: whatever follows in the stream, reading the
    serialisation of a header of any version, of a block with or without a
    signature or of a locator gives the value back, and the header that
    [GetBlockHeader] copies out of a block has the hash of the block. *)
Theorem block_roundtrip `{ScriptCrypto} (b : CBlock) (v : list base_uint) (gethash : bool) (version : Z) (rest : list Z) :
  block_ok b → signed_ok 4 version → Forall (wf 8) v → size v <= MAX_SIZE →
  c_header.(dec) (c_header.(enc) b.(header) ++ rest) = Some (b.(header), rest) ∧
  c_block.(dec) (c_block.(enc) b ++ rest) = Some (b, rest) ∧
  (c_locator gethash version).(dec) ((c_locator gethash version).(enc) v ++ rest) = Some (v, rest) ∧
  Header_GetHash (GetBlockHeader b) = Block_GetHash b.
Proof.
  intros Hb Hv Hf Hs. split_and!; [apply c_header_rt, Hb|by apply c_block_rt|by apply c_locator_rt|apply GetBlockHeader_hash].
Qed.

(** A block with two transactions. *)
Definition two_transactions : CBlock :=
  {| header := {| hdr_nVersion := 2; hashPrevBlock := replicate 8 1; hdr_hashMerkleRoot := replicate 8 2; hdr_nTime := 3; hdr_nBits := 4;
                  hdr_nNonce := 5; hdr_hashFinalSaplingRoot := replicate 8 6; hdr_assetRootHash := uint_zero 8 |};
     vtx := [sample_tx; sample_tx]; vReg := [{| reg_owner := replicate 5 1; reg_key := replicate 5 2; reg_type := -3 |}];
     vchBlockSig := []; fChecked := false |}.

Lemma two_transactions_ok : block_ok two_transactions.
Proof.
  assert (∀ n x, (0 <? n)%nat && (- 2 ^ (8 * Z.of_nat n - 1) <=? x) && (x <? 2 ^ (8 * Z.of_nat n - 1)) = true →
    signed_ok n x) as Hs by (unfold signed_ok; intros n x E; lia).
  assert (∀ W l, bool_decide (wf W l) = true → wf W l) as Hw by (intros W l E; by apply bool_decide_eq_true in E).
  split; [|split; [|split; [|split]]]; [| | |done|done].
  - split_and!; [by apply Hs|by apply Hw|by apply Hw|done|done|done|by apply Hw|by apply Hw|cbn; lia|done].
  - split; [|done]. by apply Forall_cons; split; [exact sample_tx_ok|apply Forall_singleton; exact sample_tx_ok].
  - split; [|done]. constructor; [|constructor]. split_and!; [by apply Hw|by apply Hw|by apply Hs].
Qed.

Lemma block_roundtrip_witness :
  c_block.(dec) (c_block.(enc) two_transactions ++ [7]) = Some (two_transactions, [7]).
Proof.
  apply (@block_roundtrip sample_crypto two_transactions [] false 70000 [7] two_transactions_ok); [|constructor|done].
  unfold signed_ok. split; [lia|]. cbn. lia.
Defined.
