(* ===== verification/Coins.v ===== *)
(** * Coins: views of the unspent outputs ([coins.h], [coins.cpp])

    [CCoinsView] is an interface with three implementations here: the memory
    cache [CCoinsViewCache] over another view (this file), any stack of such
    caches, and the database view of [CoinsDB.v].  The interface is the class
    [CCoinsView]; what a view promises to the one above it is the class
    [ViewContract], stated over the abstract set of unspent outputs [UtxoSet].
    The cache is proved to implement the contract over any view that does.

    The getters of a cache fill it, so every method returns the new state of
    the view.  The accounting of memory ([cachedCoinsUsage],
    [DynamicMemoryUsage]) and the cursor over the whole database are left
    out. *)

From S2P Require Import Prelude ArithUint256 Script Transaction.
Local Open Scope Z_scope.

#[export] Instance COutPoint_countable : Countable COutPoint.
Proof.
  apply (inj_countable' (λ o, (o.(prevout_hash), o.(prevout_n)))
                        (λ p, {| prevout_hash := p.1; prevout_n := p.2 |})).
  by intros [].
Defined.

Record Coin := {
  fCoinBase : bool;
  fCoinStake : bool;
  coin_out : CTxOut;
  coin_nHeight : Z;
}.

#[export] Instance Coin_eq_dec : EqDecision Coin.
Proof. solve_decision. Defined.

(** [CTxOut::SetNull], [Coin::Coin] and [Coin::Clear]. *)
Definition TxOut_SetNull : CTxOut := {| nValue := -1; scriptPubKey := []; nRounds := -10 |}.
Definition coinEmpty : Coin :=
  {| fCoinBase := false; fCoinStake := false; coin_out := TxOut_SetNull; coin_nHeight := 0 |}.
Definition Coin_Clear (_ : Coin) : Coin :=
  {| fCoinBase := false; fCoinStake := false; coin_out := TxOut_SetNull; coin_nHeight := 0 |}.
Definition IsSpent (c : Coin) : bool := TxOut_IsNull c.(coin_out).

(** ** Cache entries *)

Definition DIRTY : Z := 1.
Definition FRESH : Z := 2.

(** [flags & f]. *)
Definition has (flags f : Z) : bool := negb (Z.land flags f =? 0).

Record CCoinsCacheEntry := { e_coin : Coin; e_flags : Z }.
Definition CCoinsCacheEntry_empty : CCoinsCacheEntry := {| e_coin := coinEmpty; e_flags := 0 |}.

Record CNullifiersCacheEntry := { n_entered : bool; n_flags : Z }.

(** The templates take the type of trees as a parameter; what they use of it
    is the root. *)
Class MerkleTree := {
  Tree : Type;
  root : Tree → base_uint;
  empty_tree : Tree;
}.
Definition empty_root `{MerkleTree} : base_uint := root empty_tree.

Record CAnchorsSaplingCacheEntry `{MerkleTree} := { a_entered : bool; a_tree : Tree; a_flags : Z }.

Abbreviation CCoinsMap := (gmap COutPoint CCoinsCacheEntry).
Abbreviation CAnchorsSaplingMap := (gmap base_uint CAnchorsSaplingCacheEntry).
Abbreviation CNullifiersMap := (gmap base_uint CNullifiersCacheEntry).

(** ** The interface *)

(** [GetCoin] answers [None] for [false].  [BatchWrite] answers [None] where it
    throws or asserts. *)
Class CCoinsView `{MerkleTree} (V : Type) := {
  base_GetCoin : COutPoint → V → option Coin * V;
  base_HaveCoin : COutPoint → V → bool * V;
  base_GetBestBlock : V → base_uint * V;
  base_BatchWrite : CCoinsMap → base_uint → base_uint → CAnchorsSaplingMap → CNullifiersMap → V → option (bool * V);
  base_GetSaplingAnchorAt : base_uint → V → option Tree * V;
  base_GetNullifier : base_uint → V → bool * V;
  base_GetBestAnchor : V → base_uint * V;
}.

(** ** The cache *)

(** The loops of [BatchWrite] visit the entries of a child's map in the order
    of the hash table, here that of [map_to_list]; [f] is the body, which
    maps the entry of the parent, if it has one, and that of the child to the
    new entry of the parent. *)
Fixpoint batch_loop `{Countable K} {E : Type} (f : option E → E → option (option E))
    (l : list (K * E)) (parent : gmap K E) : option (gmap K E) :=
  match l with
  | [] => Some parent
  | (k, e) :: l =>
      r ← f (parent !! k) e;
      batch_loop f l (partial_alter (λ _, r) k parent)
  end.

Section cache.
Context `{MerkleTree} {V : Type} `{!CCoinsView V}.

Record CCoinsViewCache := {
  base : V;
  hashBlock : base_uint;
  cacheCoins : CCoinsMap;
  hashSaplingAnchor : base_uint;
  cacheSaplingAnchors : CAnchorsSaplingMap;
  cacheSaplingNullifiers : CNullifiersMap;
}.

Definition new_cache (baseIn : V) : CCoinsViewCache :=
  {| base := baseIn; hashBlock := uint_zero 8; cacheCoins := ∅; hashSaplingAnchor := uint_zero 8;
     cacheSaplingAnchors := ∅; cacheSaplingNullifiers := ∅ |}.

Definition set_base (v : V) (c : CCoinsViewCache) : CCoinsViewCache :=
  {| base := v; hashBlock := c.(hashBlock); cacheCoins := c.(cacheCoins);
     hashSaplingAnchor := c.(hashSaplingAnchor); cacheSaplingAnchors := c.(cacheSaplingAnchors);
     cacheSaplingNullifiers := c.(cacheSaplingNullifiers) |}.
Definition set_coins (m : CCoinsMap) (c : CCoinsViewCache) : CCoinsViewCache :=
  {| base := c.(base); hashBlock := c.(hashBlock); cacheCoins := m;
     hashSaplingAnchor := c.(hashSaplingAnchor); cacheSaplingAnchors := c.(cacheSaplingAnchors);
     cacheSaplingNullifiers := c.(cacheSaplingNullifiers) |}.
Definition SetBestBlock (h : base_uint) (c : CCoinsViewCache) : CCoinsViewCache :=
  {| base := c.(base); hashBlock := h; cacheCoins := c.(cacheCoins);
     hashSaplingAnchor := c.(hashSaplingAnchor); cacheSaplingAnchors := c.(cacheSaplingAnchors);
     cacheSaplingNullifiers := c.(cacheSaplingNullifiers) |}.
Definition set_anchor (h : base_uint) (m : CAnchorsSaplingMap) (c : CCoinsViewCache) : CCoinsViewCache :=
  {| base := c.(base); hashBlock := c.(hashBlock); cacheCoins := c.(cacheCoins);
     hashSaplingAnchor := h; cacheSaplingAnchors := m;
     cacheSaplingNullifiers := c.(cacheSaplingNullifiers) |}.
Definition set_nullifiers (m : CNullifiersMap) (c : CCoinsViewCache) : CCoinsViewCache :=
  {| base := c.(base); hashBlock := c.(hashBlock); cacheCoins := c.(cacheCoins);
     hashSaplingAnchor := c.(hashSaplingAnchor); cacheSaplingAnchors := c.(cacheSaplingAnchors);
     cacheSaplingNullifiers := m |}.

(** *** Coins *)

Definition FetchCoin (o : COutPoint) (c : CCoinsViewCache) : option CCoinsCacheEntry * CCoinsViewCache :=
  match c.(cacheCoins) !! o with
  | Some e => (Some e, c)
  | None =>
      let '(r, b) := base_GetCoin o c.(base) in
      let c := set_base b c in
      match r with
      | None => (None, c)
      | Some tmp =>
          let e := {| e_coin := tmp; e_flags := if IsSpent tmp then FRESH else 0 |} in
          (Some e, set_coins (<[o := e]> c.(cacheCoins)) c)
      end
  end.

Definition GetCoin (o : COutPoint) (c : CCoinsViewCache) : option Coin * CCoinsViewCache :=
  let '(it, c) := FetchCoin o c in (e_coin <$> it, c).

Definition AccessCoin (o : COutPoint) (c : CCoinsViewCache) : Coin * CCoinsViewCache :=
  let '(it, c) := FetchCoin o c in (default coinEmpty (e_coin <$> it), c).

Definition HaveCoin (o : COutPoint) (c : CCoinsViewCache) : bool * CCoinsViewCache :=
  let '(it, c) := FetchCoin o c in
  (match it with Some e => negb (IsSpent e.(e_coin)) | None => false end, c).

Definition HaveCoinInCache (o : COutPoint) (c : CCoinsViewCache) : bool :=
  bool_decide (is_Some (c.(cacheCoins) !! o)).

(** [None] is the failed assertion or the exception. *)
Definition AddCoin (o : COutPoint) (coin : Coin) (possible_overwrite : bool) (c : CCoinsViewCache) :
    option CCoinsViewCache :=
  if IsSpent coin then None
  else if IsUnspendable coin.(coin_out).(scriptPubKey) then Some c
  else
    let it := default CCoinsCacheEntry_empty (c.(cacheCoins) !! o) in
    if negb possible_overwrite && negb (IsSpent it.(e_coin)) then None
    else
      let fresh := negb possible_overwrite && negb (has it.(e_flags) DIRTY) in
      let e := {| e_coin := coin;
                  e_flags := Z.lor it.(e_flags) (Z.lor DIRTY (if fresh then FRESH else 0)) |} in
      Some (set_coins (<[o := e]> c.(cacheCoins)) c).

(** The first component is what [moveout] receives, if it is written. *)
Definition SpendCoin (o : COutPoint) (c : CCoinsViewCache) : option Coin * CCoinsViewCache :=
  let '(it, c) := FetchCoin o c in
  match it with
  | None => (None, c)
  | Some e =>
      (Some e.(e_coin),
       if has e.(e_flags) FRESH then set_coins (delete o c.(cacheCoins)) c
       else set_coins (<[o := {| e_coin := Coin_Clear e.(e_coin); e_flags := Z.lor e.(e_flags) DIRTY |}]>
                         c.(cacheCoins)) c)
  end.

Definition Uncache (o : COutPoint) (c : CCoinsViewCache) : CCoinsViewCache :=
  match c.(cacheCoins) !! o with
  | Some e => if e.(e_flags) =? 0 then set_coins (delete o c.(cacheCoins)) c else c
  | None => c
  end.

Definition GetCacheSize (c : CCoinsViewCache) : nat := base.size c.(cacheCoins).

(** *** Best block, anchors and nullifiers *)

Definition GetBestBlock (c : CCoinsViewCache) : base_uint * CCoinsViewCache :=
  if uint_IsNull c.(hashBlock) then
    let '(h, b) := base_GetBestBlock c.(base) in (h, SetBestBlock h (set_base b c))
  else (c.(hashBlock), c).

Definition GetBestAnchor (c : CCoinsViewCache) : base_uint * CCoinsViewCache :=
  if uint_IsNull c.(hashSaplingAnchor) then
    let '(h, b) := base_GetBestAnchor c.(base) in
    (h, set_anchor h c.(cacheSaplingAnchors) (set_base b c))
  else (c.(hashSaplingAnchor), c).

Definition GetSaplingAnchorAt (rt : base_uint) (c : CCoinsViewCache) : option Tree * CCoinsViewCache :=
  match c.(cacheSaplingAnchors) !! rt with
  | Some e => (if e.(a_entered) then Some e.(a_tree) else None, c)
  | None =>
      let '(r, b) := base_GetSaplingAnchorAt rt c.(base) in
      let c := set_base b c in
      match r with
      | None => (None, c)
      | Some tree =>
          (Some tree, set_anchor c.(hashSaplingAnchor)
             (<[rt := {| a_entered := true; a_tree := tree; a_flags := 0 |}]> c.(cacheSaplingAnchors)) c)
      end
  end.

Definition GetNullifier (nullifier : base_uint) (c : CCoinsViewCache) : bool * CCoinsViewCache :=
  match c.(cacheSaplingNullifiers) !! nullifier with
  | Some e => (e.(n_entered), c)
  | None =>
      let '(tmp, b) := base_GetNullifier nullifier c.(base) in
      (tmp, set_nullifiers (<[nullifier := {| n_entered := tmp; n_flags := 0 |}]> c.(cacheSaplingNullifiers))
              (set_base b c))
  end.

(** [PushAnchor], which is [AbstractPushAnchor]. *)
Definition PushAnchor (tree : Tree) (c : CCoinsViewCache) : CCoinsViewCache :=
  let newrt := root tree in
  let '(currentRoot, c) := GetBestAnchor c in
  if decide (currentRoot = newrt) then c
  else set_anchor newrt
         (<[newrt := {| a_entered := true; a_tree := tree; a_flags := DIRTY |}]> c.(cacheSaplingAnchors)) c.

(** [PopAnchor], which is [AbstractPopAnchor]; the assertion is that of
    [BringBestAnchorIntoCache].  [cacheAnchors[currentRoot]] exists then. *)
Definition PopAnchor (newrt : base_uint) (c : CCoinsViewCache) : option CCoinsViewCache :=
  let '(currentRoot, c) := GetBestAnchor c in
  if decide (currentRoot = newrt) then Some c
  else
    let '(r, c) := GetSaplingAnchorAt currentRoot c in
    match r with
    | None => None
    | Some tree =>
        let old := match c.(cacheSaplingAnchors) !! currentRoot with Some e => e.(a_tree) | None => empty_tree end in
        Some (set_anchor newrt
                (<[currentRoot := {| a_entered := false; a_tree := old; a_flags := DIRTY |}]>
                   c.(cacheSaplingAnchors)) c)
    end.

Fixpoint SetNullifiers_loop (l : list SpendDescription) (spent : bool) (m : CNullifiersMap) : CNullifiersMap :=
  match l with
  | [] => m
  | d :: l =>
      let flags := match m !! d.(spend_nullifier) with Some e => e.(n_flags) | None => 0 end in
      SetNullifiers_loop l spent
        (<[d.(spend_nullifier) := {| n_entered := spent; n_flags := Z.lor flags DIRTY |}]> m)
  end.

Definition SetNullifiers (tx : CTransaction) (spent : bool) (c : CCoinsViewCache) : CCoinsViewCache :=
  match tx.(sapData) with
  | Some d => set_nullifiers (SetNullifiers_loop d.(vShieldedSpend) spent c.(cacheSaplingNullifiers)) c
  | None => c
  end.

(** *** Writing a child's entries *)

(** The body of the loop over [mapCoins]. *)
Definition batch_coin (itUs : option CCoinsCacheEntry) (it : CCoinsCacheEntry) : option (option CCoinsCacheEntry) :=
  if has it.(e_flags) DIRTY then
    match itUs with
    | None =>
        if negb (has it.(e_flags) FRESH && IsSpent it.(e_coin)) then
          Some (Some {| e_coin := it.(e_coin);
                        e_flags := if has it.(e_flags) FRESH then Z.lor DIRTY FRESH else DIRTY |})
        else Some None
    | Some us =>
        if has it.(e_flags) FRESH && negb (IsSpent us.(e_coin)) then None
        else if has us.(e_flags) FRESH && IsSpent it.(e_coin) then Some None
        else Some (Some {| e_coin := it.(e_coin); e_flags := Z.lor us.(e_flags) DIRTY |})
    end
  else Some itUs.

Definition batch_anchor (parent : option CAnchorsSaplingCacheEntry) (child : CAnchorsSaplingCacheEntry) :
    option (option CAnchorsSaplingCacheEntry) :=
  if has child.(a_flags) DIRTY then
    match parent with
    | None => Some (Some {| a_entered := child.(a_entered); a_tree := child.(a_tree); a_flags := DIRTY |})
    | Some p =>
        if Bool.eqb p.(a_entered) child.(a_entered) then Some (Some p)
        else Some (Some {| a_entered := child.(a_entered); a_tree := p.(a_tree);
                           a_flags := Z.lor p.(a_flags) DIRTY |})
    end
  else Some parent.

Definition batch_nullifier (parent : option CNullifiersCacheEntry) (child : CNullifiersCacheEntry) :
    option (option CNullifiersCacheEntry) :=
  if has child.(n_flags) DIRTY then
    match parent with
    | None => Some (Some {| n_entered := child.(n_entered); n_flags := DIRTY |})
    | Some p =>
        if Bool.eqb p.(n_entered) child.(n_entered) then Some (Some p)
        else Some (Some {| n_entered := child.(n_entered); n_flags := Z.lor p.(n_flags) DIRTY |})
    end
  else Some parent.

Definition BatchWrite (mapCoins : CCoinsMap) (hashBlockIn hashSaplingAnchorIn : base_uint)
    (mapSaplingAnchors : CAnchorsSaplingMap) (mapSaplingNullifiers : CNullifiersMap) (c : CCoinsViewCache) :
    option (bool * CCoinsViewCache) :=
  coins ← batch_loop batch_coin (map_to_list mapCoins) c.(cacheCoins);
  anchors ← batch_loop batch_anchor (map_to_list mapSaplingAnchors) c.(cacheSaplingAnchors);
  nullifiers ← batch_loop batch_nullifier (map_to_list mapSaplingNullifiers) c.(cacheSaplingNullifiers);
  Some (true, {| base := c.(base); hashBlock := hashBlockIn; cacheCoins := coins;
                 hashSaplingAnchor := hashSaplingAnchorIn; cacheSaplingAnchors := anchors;
                 cacheSaplingNullifiers := nullifiers |}).

Definition Flush (c : CCoinsViewCache) : option (bool * CCoinsViewCache) :=
  '(fOk, b) ← base_BatchWrite c.(cacheCoins) c.(hashBlock) c.(hashSaplingAnchor)
                c.(cacheSaplingAnchors) c.(cacheSaplingNullifiers) c.(base);
  Some (fOk, {| base := b; hashBlock := c.(hashBlock); cacheCoins := ∅;
                hashSaplingAnchor := c.(hashSaplingAnchor); cacheSaplingAnchors := ∅;
                cacheSaplingNullifiers := ∅ |}).

#[export] Instance CCoinsViewCache_view : CCoinsView CCoinsViewCache := {
  base_GetCoin := GetCoin;
  base_HaveCoin := HaveCoin;
  base_GetBestBlock := GetBestBlock;
  base_BatchWrite := BatchWrite;
  base_GetSaplingAnchorAt := GetSaplingAnchorAt;
  base_GetNullifier := GetNullifier;
  base_GetBestAnchor := GetBestAnchor;
}.

(** *** Transactions *)

(** The loops that stop at the first input which is not there. *)
Fixpoint HaveInputs_loop (l : list CTxIn) (c : CCoinsViewCache) : bool * CCoinsViewCache :=
  match l with
  | [] => (true, c)
  | i :: l =>
      let '(b, c) := HaveCoin i.(prevout) c in
      if negb b then (false, c) else HaveInputs_loop l c
  end.

Definition HaveInputs (tx : CTransaction) (c : CCoinsViewCache) : bool * CCoinsViewCache :=
  if negb (IsCoinBase tx) && negb (ContainsAssets tx) then HaveInputs_loop tx.(vin) c else (true, c).

Fixpoint GetValueIn_loop (l : list CTxIn) (nResult : Z) (c : CCoinsViewCache) : Z * CCoinsViewCache :=
  match l with
  | [] => (nResult, c)
  | i :: l =>
      let '(coin, c) := AccessCoin i.(prevout) c in
      GetValueIn_loop l (i64 (nResult + coin.(coin_out).(nValue))) c
  end.

Definition GetValueIn (tx : CTransaction) (c : CCoinsViewCache) : Z * CCoinsViewCache :=
  if IsCoinBase tx || ContainsAssets tx then (0, c) else GetValueIn_loop tx.(vin) 0 c.

Definition GetCoinDepthAtHeight (o : COutPoint) (nHeight : Z) (c : CCoinsViewCache) : Z * CCoinsViewCache :=
  let '(coin, c) := AccessCoin o c in
  (if negb (IsSpent coin) then i32 (u32 (nHeight - coin.(coin_nHeight) + 1)) else -1, c).

Fixpoint HaveShieldedRequirements_loop (l : list SpendDescription) (c : CCoinsViewCache) : bool * CCoinsViewCache :=
  match l with
  | [] => (true, c)
  | d :: l =>
      let '(b, c) := GetNullifier d.(spend_nullifier) c in
      if b then (false, c)
      else
        let '(t, c) := GetSaplingAnchorAt d.(spend_anchor) c in
        match t with
        | None => (false, c)
        | Some _ => HaveShieldedRequirements_loop l c
        end
  end.

Definition HaveShieldedRequirements (tx : CTransaction) (c : CCoinsViewCache) : bool * CCoinsViewCache :=
  if IsShieldedTx tx then
    match tx.(sapData) with
    | Some d => HaveShieldedRequirements_loop d.(vShieldedSpend) c
    | None => (true, c)
    end
  else (true, c).

(** [AddCoins] for the outputs from index [i] on; [invalid] is
    [invalid_out::setInvalidOutPoints]. *)
Fixpoint AddCoins_loop (invalid : COutPoint → bool) (txid : base_uint) (fCoinbase fCoinstake : bool)
    (nHeight : Z) (check fSkipInvalid : bool) (i : Z) (vout : list CTxOut) (c : CCoinsViewCache) :
    option CCoinsViewCache :=
  match vout with
  | [] => Some c
  | o :: vout =>
      let out := {| prevout_hash := txid; prevout_n := u32 i |} in
      let next := AddCoins_loop invalid txid fCoinbase fCoinstake nHeight check fSkipInvalid (i + 1) vout in
      if fSkipInvalid && invalid out then next (snd (SpendCoin out c))
      else
        let '(overwrite, c) := if check then HaveCoin out c else (false, c) in
        c ← AddCoin out {| fCoinBase := fCoinbase; fCoinStake := fCoinstake; coin_out := o;
                           coin_nHeight := u32 nHeight |} overwrite c;
        next c
  end.

Definition AddCoins (invalid : COutPoint → bool) (txid : base_uint) (tx : CTransaction) (nHeight : Z)
    (check fSkipInvalid : bool) (c : CCoinsViewCache) : option CCoinsViewCache :=
  AddCoins_loop invalid txid (IsCoinBase tx) (IsCoinStake tx) nHeight check fSkipInvalid 0 tx.(vout) c.

(** [AccessByTxid]: the outputs [n], ..., [n + fuel - 1]. *)
Fixpoint AccessByTxid_loop (fuel : nat) (txid : base_uint) (n : Z) (c : CCoinsViewCache) : Coin * CCoinsViewCache :=
  match fuel with
  | O => (coinEmpty, c)
  | S fuel =>
      let '(alternate, c) := AccessCoin {| prevout_hash := txid; prevout_n := n |} c in
      if negb (IsSpent alternate) then (alternate, c) else AccessByTxid_loop fuel txid (n + 1) c
  end.

(** [MAX_BLOCK_SIZE_CURRENT / GetSerializeSize(CTxOut())], that is [2000000 / 9]. *)
Definition MAX_OUTPUTS_PER_BLOCK : Z := 2000000 / 9.
Definition AccessByTxid (txid : base_uint) (c : CCoinsViewCache) : Coin * CCoinsViewCache :=
  AccessByTxid_loop (Z.to_nat MAX_OUTPUTS_PER_BLOCK) txid 0 c.

Fixpoint PruneInvalidEntries (setInvalidOutPoints : list COutPoint) (c : CCoinsViewCache) : CCoinsViewCache :=
  match setInvalidOutPoints with
  | [] => c
  | out :: l =>
      let '(b, c) := HaveCoin out c in
      PruneInvalidEntries l (if b then snd (SpendCoin out c) else c)
  end.

End cache.
Arguments CCoinsViewCache {_} V.

(** ** The abstract set of unspent outputs *)

Local Arguments uint_IsNull : simpl never.
Local Arguments has : simpl never.

(** What a view answers, without the details of how it stores it: a spent
    output and one that never was are the same. *)
Record UtxoSet := {
  s_coin : COutPoint → option Coin;
  s_best : base_uint;
  s_anchor : base_uint → bool;
  s_nullifier : base_uint → bool;
  s_root : base_uint;
}.

#[export] Instance UtxoSet_equiv : Equiv UtxoSet := λ s t,
  (∀ o, s.(s_coin) o = t.(s_coin) o) ∧ s.(s_best) = t.(s_best) ∧
  (∀ r, s.(s_anchor) r = t.(s_anchor) r) ∧ (∀ n, s.(s_nullifier) n = t.(s_nullifier) n) ∧
  s.(s_root) = t.(s_root).

#[export] Instance UtxoSet_equivalence : Equivalence (≡@{UtxoSet}).
Proof.
  split.
  - by intros s.
  - intros s t (?&?&?&?&?). by repeat split.
  - intros s t u (?&?&?&?&?) (?&?&?&?&?). repeat split; intros; etrans; eauto.
Qed.

#[export] Instance s_coin_proper : Proper ((≡) ==> (=) ==> (=)) s_coin.
Proof. intros s t E o ? <-. apply E. Qed.
#[export] Instance s_best_proper : Proper ((≡) ==> (=)) s_best.
Proof. intros s t E. apply E. Qed.
#[export] Instance s_anchor_proper : Proper ((≡) ==> (=) ==> (=)) s_anchor.
Proof. intros s t E r ? <-. apply E. Qed.
#[export] Instance s_nullifier_proper : Proper ((≡) ==> (=) ==> (=)) s_nullifier.
Proof. intros s t E n ? <-. apply E. Qed.
#[export] Instance s_root_proper : Proper ((≡) ==> (=)) s_root.
Proof. intros s t E. apply E. Qed.

Definition unspent (c : Coin) : option Coin := if IsSpent c then None else Some c.

(** The set after the entries of a child have been written over it. *)
Definition overlay {K E A} `{Countable K} (dirty : E → bool) (new : E → A) (m : gmap K E) (old : K → A) (k : K) : A :=
  match m !! k with Some e => if dirty e then new e else old k | None => old k end.

Section contract.
Context `{MerkleTree}.

(** What a child has to guarantee when it writes to the view below it. *)
Definition batch_ok (s : UtxoSet) (coins : CCoinsMap) (anchors : CAnchorsSaplingMap) : Prop :=
  (∀ o e, coins !! o = Some e → has e.(e_flags) FRESH = true → s.(s_coin) o = None) ∧
  (∀ rt e, anchors !! rt = Some e → root e.(a_tree) = rt ∧ (e.(a_entered) = false → rt ≠ empty_root)).

Class ViewModel (V : Type) := { v_inv : V → Prop; v_set : V → UtxoSet }.

(** A read keeps the invariant and the set. *)
Definition reads {V A} `{ViewModel V} (f : V → A * V) (answer : UtxoSet → A → Prop) : Prop :=
  ∀ v, v_inv v → v_inv (f v).2 ∧ v_set (f v).2 ≡ v_set v ∧ answer (v_set v) (f v).1.

(** What a view promises. *)
Class ViewContract (V : Type) `{!CCoinsView V, !ViewModel V} : Prop := {
  GetCoin_contract o : reads (base_GetCoin o) (λ s r, (r ≫= unspent) = s.(s_coin) o);
  HaveCoin_contract o : reads (base_HaveCoin o) (λ s b, b = bool_decide (is_Some (s.(s_coin) o)));
  GetBestBlock_contract : reads base_GetBestBlock (λ s h, h = s.(s_best));
  GetSaplingAnchorAt_contract rt : reads (base_GetSaplingAnchorAt rt)
    (λ s r, bool_decide (is_Some r) = s.(s_anchor) rt ∧ ∀ t, r = Some t → root t = rt);
  GetNullifier_contract n : reads (base_GetNullifier n) (λ s b, b = s.(s_nullifier) n);
  GetBestAnchor_contract : reads base_GetBestAnchor (λ s h, h = s.(s_root));
  empty_root_contract v : v_inv v → s_anchor (v_set v) empty_root = true;
  BatchWrite_contract v coins h rt anchors nullifiers :
    v_inv v → batch_ok (v_set v) coins anchors → uint_IsNull h = false →
    ∃ v', base_BatchWrite coins h rt anchors nullifiers v = Some (true, v') ∧ v_inv v' ∧
      (∀ o, s_coin (v_set v') o =
         overlay (λ e, has e.(e_flags) DIRTY) (λ e, unspent e.(e_coin)) coins (s_coin (v_set v)) o) ∧
      s_best (v_set v') = h ∧
      (∀ r, s_anchor (v_set v') r =
         overlay (λ e, has e.(a_flags) DIRTY) a_entered anchors (s_anchor (v_set v)) r) ∧
      (∀ n, s_nullifier (v_set v') n =
         overlay (λ e, has e.(n_flags) DIRTY) n_entered nullifiers (s_nullifier (v_set v)) n) ∧
      (uint_IsNull rt = false → s_root (v_set v') = rt);
}.

End contract.

(** ** The invariant of the cache *)

Lemma has_lor a b f : has (Z.lor a b) f = has a f || has b f.
Proof.
  unfold has. rewrite Z.land_lor_distr_l.
  destruct (Z.eqb_spec (Z.land a f) 0), (Z.eqb_spec (Z.land b f) 0),
    (Z.eqb_spec (Z.lor (Z.land a f) (Z.land b f)) 0) as [E|E]; try done.
  - by rewrite e, e0 in E.
  - apply Z.lor_eq_0_iff in E. tauto.
  - apply Z.lor_eq_0_iff in E. tauto.
  - apply Z.lor_eq_0_iff in E. tauto.
Qed.

#[export] Hint Rewrite has_lor : qrax_rw.

(** The loop of [BatchWrite] treats every key on its own. *)
Lemma batch_loop_lookup {K E} `{Countable K} (f : option E → E → option (option E)) (l : list (K * E)) (m : gmap K E) :
  NoDup l.*1 → (∀ k e, (k, e) ∈ l → is_Some (f (m !! k) e)) →
  ∃ m', batch_loop f l m = Some m' ∧
    ∀ k, Some (m' !! k) = match (list_to_map l : gmap K E) !! k with Some e => f (m !! k) e | None => Some (m !! k) end.
Proof.
  revert m. induction l as [|[k e] l IH]; intros m Hnd Hf.
  { exists m. split; [done|]. intros k. cbn. by rewrite lookup_empty. }
  apply NoDup_cons in Hnd as [Hk Hnd]. cbn in Hk.
  destruct (Hf k e ltac:(left)) as [r Hr]. cbn [batch_loop]. rewrite Hr. cbn.
  destruct (IH (partial_alter (λ _, r) k m)) as (m' & Hm' & Hlk); [done| |].
  { intros k' e' Hin. rewrite lookup_partial_alter_ne; [apply Hf; by right|].
    intros ->. apply Hk. apply list_elem_of_fmap. by exists (k', e'). }
  exists m'. split; [done|]. intros k'. rewrite Hlk. cbn.
  destruct (decide (k = k')) as [<-|Hne].
  - rewrite lookup_insert_eq, lookup_partial_alter_eq, Hr.
    by rewrite (not_elem_of_list_to_map_1 l k) by done.
  - by rewrite lookup_insert_ne, lookup_partial_alter_ne by done.
Qed.

Lemma batch_loop_map {K E} `{Countable K} (f : option E → E → option (option E)) (c m : gmap K E) :
  (∀ k e, c !! k = Some e → is_Some (f (m !! k) e)) →
  ∃ m', batch_loop f (map_to_list c) m = Some m' ∧
    ∀ k, Some (m' !! k) = match c !! k with Some e => f (m !! k) e | None => Some (m !! k) end.
Proof.
  intros Hf. destruct (batch_loop_lookup f (map_to_list c) m) as (m' & Hm' & Hlk).
  - apply NoDup_fst_map_to_list.
  - intros k e Hin. apply Hf. by apply elem_of_map_to_list.
  - exists m'. split; [done|]. intros k. by rewrite Hlk, list_to_map_to_list.
Qed.

Section cache_model.
Context `{MerkleTree} {V : Type} `{!CCoinsView V, !ViewModel V}.
Abbreviation Cache := (CCoinsViewCache V).

Definition coin_ok (s : UtxoSet) (o : COutPoint) (e : CCoinsCacheEntry) : Prop :=
  (has e.(e_flags) FRESH = true → s.(s_coin) o = None) ∧
  (has e.(e_flags) DIRTY = false → s.(s_coin) o = unspent e.(e_coin)).

Definition anchor_ok (s : UtxoSet) (rt : base_uint) (e : CAnchorsSaplingCacheEntry) : Prop :=
  root e.(a_tree) = rt ∧ (has e.(a_flags) DIRTY = false → s.(s_anchor) rt = e.(a_entered)) ∧
  (e.(a_entered) = false → rt ≠ empty_root).

Definition nullifier_ok (s : UtxoSet) (n : base_uint) (e : CNullifiersCacheEntry) : Prop :=
  has e.(n_flags) DIRTY = false → s.(s_nullifier) n = e.(n_entered).

Definition cache_inv (c : Cache) : Prop :=
  v_inv c.(base) ∧ map_Forall (coin_ok (v_set c.(base))) c.(cacheCoins) ∧
  map_Forall (anchor_ok (v_set c.(base))) c.(cacheSaplingAnchors) ∧
  map_Forall (nullifier_ok (v_set c.(base))) c.(cacheSaplingNullifiers).

(** The entries of the cache hide what the view below has. *)
Definition cache_set (c : Cache) : UtxoSet :=
  let s := v_set c.(base) in
  {| s_coin o := match c.(cacheCoins) !! o with Some e => unspent e.(e_coin) | None => s.(s_coin) o end;
     s_best := if uint_IsNull c.(hashBlock) then s.(s_best) else c.(hashBlock);
     s_anchor r := match c.(cacheSaplingAnchors) !! r with Some e => e.(a_entered) | None => s.(s_anchor) r end;
     s_nullifier n :=
       match c.(cacheSaplingNullifiers) !! n with Some e => e.(n_entered) | None => s.(s_nullifier) n end;
     s_root := if uint_IsNull c.(hashSaplingAnchor) then s.(s_root) else c.(hashSaplingAnchor) |}.

#[export] Instance cache_model : ViewModel Cache := { v_inv := cache_inv; v_set := cache_set }.

#[export] Instance coin_ok_proper : Proper ((≡) ==> (=) ==> (=) ==> iff) coin_ok.
Proof. intros s t E ?? <- ?? <-. unfold coin_ok. by rewrite E. Qed.
#[export] Instance anchor_ok_proper : Proper ((≡) ==> (=) ==> (=) ==> iff) anchor_ok.
Proof. intros s t E ?? <- ?? <-. unfold anchor_ok. by rewrite E. Qed.
#[export] Instance nullifier_ok_proper : Proper ((≡) ==> (=) ==> (=) ==> iff) nullifier_ok.
Proof. intros s t E ?? <- ?? <-. unfold nullifier_ok. by rewrite E. Qed.

(** Another state of the view below with the same answers. *)
Lemma set_base_same v (c : Cache) :
  cache_inv c → v_inv v → v_set v ≡ v_set c.(base) →
  cache_inv (set_base v c) ∧ cache_set (set_base v c) ≡ cache_set c.
Proof.
  intros (_ & Hc & Ha & Hn) Hv E. split.
  - split; [done|]. cbn. split_and!; intros k e He; rewrite E; [by apply Hc|by apply Ha|by apply Hn].
  - repeat split; cbn; intros; repeat case_match; try congruence; apply E.
Qed.


(** A change of one coin entry. *)
Lemma set_coins_inv (m : CCoinsMap) (c : Cache) :
  cache_inv c → map_Forall (coin_ok (v_set c.(base))) m → cache_inv (set_coins m c).
Proof. intros (?&_&?&?) ?. by split_and!. Qed.

Lemma insert_coin_inv o e (c : Cache) :
  cache_inv c → coin_ok (v_set c.(base)) o e → cache_inv (set_coins (<[o := e]> c.(cacheCoins)) c).
Proof.
  intros Hc He. apply set_coins_inv; [done|]. apply map_Forall_insert_2; [done|apply Hc].
Qed.

Lemma delete_coin_inv o (c : Cache) :
  cache_inv c → cache_inv (set_coins (delete o c.(cacheCoins)) c).
Proof. intros Hc. apply set_coins_inv; [done|]. apply map_Forall_delete, Hc. Qed.

Lemma cache_coin_insert o e (c : Cache) o' :
  s_coin (cache_set (set_coins (<[o := e]> c.(cacheCoins)) c)) o' =
  if decide (o' = o) then unspent e.(e_coin) else s_coin (cache_set c) o'.
Proof.
  cbn. destruct (decide (o' = o)) as [->|]; [by rewrite lookup_insert_eq|by rewrite lookup_insert_ne].
Qed.

Lemma cache_coin_delete o (c : Cache) o' :
  s_coin (cache_set (set_coins (delete o c.(cacheCoins)) c)) o' =
  if decide (o' = o) then s_coin (v_set c.(base)) o else s_coin (cache_set c) o'.
Proof.
  cbn. destruct (decide (o' = o)) as [->|]; [by rewrite lookup_delete_eq|by rewrite lookup_delete_ne].
Qed.

(** Only the coins of the two states may differ. *)
Lemma set_coins_same (m : CCoinsMap) (c : Cache) :
  (∀ o, s_coin (cache_set (set_coins m c)) o = s_coin (cache_set c) o) →
  cache_set (set_coins m c) ≡ cache_set c.
Proof. intros E. by split_and!. Qed.

Lemma set_anchor_inv (h : base_uint) (m : CAnchorsSaplingMap) (c : Cache) :
  cache_inv c → map_Forall (anchor_ok (v_set c.(base))) m → cache_inv (set_anchor h m c).
Proof. intros (?&?&_&?) ?. by split_and!. Qed.

Lemma set_nullifiers_inv (m : CNullifiersMap) (c : Cache) :
  cache_inv c → map_Forall (nullifier_ok (v_set c.(base))) m → cache_inv (set_nullifiers m c).
Proof. intros (?&?&?&_) ?. by split_and!. Qed.

Section reads.
Context `{!ViewContract V}.

(** [FetchCoin] leaves the entry it returns in the cache. *)
Lemma FetchCoin_reads o (c : Cache) :
  cache_inv c →
  cache_inv (FetchCoin o c).2 ∧ cache_set (FetchCoin o c).2 ≡ cache_set c ∧
  ((FetchCoin o c).1 ≫= λ e, unspent e.(e_coin)) = s_coin (cache_set c) o ∧
  (FetchCoin o c).2.(cacheCoins) !! o = (FetchCoin o c).1.
Proof.
  intros Hc. unfold FetchCoin. destruct (c.(cacheCoins) !! o) as [e|] eqn:Ho.
  { cbn. by rewrite Ho. }
  destruct (GetCoin_contract o _ (proj1 Hc)) as (Hv & Es & Er).
  destruct (base_GetCoin o c.(base)) as [r b]. cbn in *.
  destruct (set_base_same b c Hc Hv Es) as [Hc' Es']. rewrite Ho.
  destruct r as [tmp|]; cbn in *; [|by rewrite Ho].
  assert (s_coin (v_set (base (set_base b c))) o = unspent tmp) as E.
  { cbn. by rewrite Es. }
  split_and!; [|rewrite <- Es'|done|by rewrite lookup_insert_eq].
  - apply (insert_coin_inv o _ (set_base b c)); [done|]. split; [|done]. cbn [e_flags e_coin]. rewrite E.
    unfold unspent. by destruct (IsSpent tmp).
  - apply (set_coins_same _ (set_base b c)). intros o'. etrans; [apply (cache_coin_insert o _ (set_base b c))|].
    destruct (decide (o' = o)) as [->|]; [|done]. cbn. by rewrite Ho, Es, <- Er.
Qed.

Lemma cache_GetCoin o : reads (GetCoin o) (λ s r, (r ≫= unspent) = s.(s_coin) o).
Proof.
  intros c Hc. destruct (FetchCoin_reads o c Hc) as (?&?&E&_). unfold GetCoin.
  destruct (FetchCoin o c) as [[e|] c']; by split_and!.
Qed.

Lemma cache_HaveCoin o : reads (HaveCoin o) (λ s b, b = bool_decide (is_Some (s.(s_coin) o))).
Proof.
  intros c Hc. destruct (FetchCoin_reads o c Hc) as (?&?&E&_). unfold HaveCoin.
  destruct (FetchCoin o c) as [[e|] c']; split_and!; [done|done| |done|done|]; change (v_set c) with (cache_set c);
    rewrite <- E; cbn; [|done].
  unfold unspent. by destruct (IsSpent (e_coin e)).
Qed.

Lemma cache_AccessCoin o : reads (AccessCoin o) (λ s r, unspent r = s.(s_coin) o).
Proof.
  intros c Hc. destruct (FetchCoin_reads o c Hc) as (?&?&E&_). unfold AccessCoin.
  destruct (FetchCoin o c) as [[e|] c']; by split_and!.
Qed.

Lemma cache_GetBestBlock : reads GetBestBlock (λ s h, h = s.(s_best)).
Proof.
  intros c Hc. unfold GetBestBlock. destruct (uint_IsNull c.(hashBlock)) eqn:En.
  - destruct (GetBestBlock_contract _ (proj1 Hc)) as (Hv & Es & Er).
    destruct (base_GetBestBlock c.(base)) as [h b]. cbn in *.
    destruct (set_base_same b c Hc Hv Es) as [Hc' Es']. split_and!.
    + destruct Hc' as (?&?&?&?). by split_and!.
    + rewrite <- Es'. split_and!; cbn; try done. rewrite En, Es. case_match; congruence.
    + by rewrite En.
  - cbn. by rewrite En.
Qed.

Lemma cache_GetBestAnchor : reads GetBestAnchor (λ s h, h = s.(s_root)).
Proof.
  intros c Hc. unfold GetBestAnchor. destruct (uint_IsNull c.(hashSaplingAnchor)) eqn:En.
  - destruct (GetBestAnchor_contract _ (proj1 Hc)) as (Hv & Es & Er).
    destruct (base_GetBestAnchor c.(base)) as [h b]. cbn in *.
    destruct (set_base_same b c Hc Hv Es) as [Hc' Es']. split_and!.
    + destruct Hc' as (?&?&?&?). by split_and!.
    + rewrite <- Es'. split_and!; cbn; try done. rewrite En, Es. case_match; congruence.
    + by rewrite En.
  - cbn. by rewrite En.
Qed.

Lemma cache_GetNullifier n : reads (GetNullifier n) (λ s b, b = s.(s_nullifier) n).
Proof.
  intros c Hc. unfold GetNullifier. destruct (c.(cacheSaplingNullifiers) !! n) as [e|] eqn:Hn.
  { cbn. by rewrite Hn. }
  destruct (GetNullifier_contract n _ (proj1 Hc)) as (Hv & Es & Er).
  destruct (base_GetNullifier n c.(base)) as [r b]. cbn in *.
  destruct (set_base_same b c Hc Hv Es) as [Hc' Es']. rewrite Hn. split_and!; [| |done].
  - apply set_nullifiers_inv; [done|]. apply map_Forall_insert_2; [|apply Hc']. intros _. cbn. by rewrite Es.
  - rewrite <- Es'. split_and!; try done. intros n'. cbn.
    destruct (decide (n' = n)) as [->|]; [|by rewrite lookup_insert_ne by done].
    by rewrite lookup_insert_eq, Hn, Es.
Qed.

Lemma cache_GetSaplingAnchorAt rt : reads (GetSaplingAnchorAt rt)
  (λ s r, bool_decide (is_Some r) = s.(s_anchor) rt ∧ ∀ t, r = Some t → root t = rt).
Proof.
  intros c Hc. unfold GetSaplingAnchorAt. destruct (c.(cacheSaplingAnchors) !! rt) as [e|] eqn:Ha.
  { destruct Hc as (?&?&Hca&?). destruct (Hca _ _ Ha) as (Er&_). cbn. rewrite Ha.
    split_and!; [by split_and!|done| |]; destruct (a_entered e); try done. by intros t [= <-]. }
  destruct (GetSaplingAnchorAt_contract rt _ (proj1 Hc)) as (Hv & Es & Er & Et).
  destruct (base_GetSaplingAnchorAt rt c.(base)) as [r b]. cbn in *.
  destruct (set_base_same b c Hc Hv Es) as [Hc' Es']. rewrite Ha.
  destruct r as [t|]; [|by split_and!]. cbn in *. split_and!; [| |done|done].
  - apply set_anchor_inv; [done|]. apply map_Forall_insert_2; [|apply Hc'].
    split_and!; cbn; [by apply Et|by rewrite Es|done].
  - rewrite <- Es'. split_and!; try done. intros n'. cbn.
    destruct (decide (n' = rt)) as [->|]; [|by rewrite lookup_insert_ne by done].
    by rewrite lookup_insert_eq, Ha, Es.
Qed.

(** *** Writing a batch into the cache, entry by entry *)

(** What an entry shows, with the view below behind it. *)
Definition shows {E A} (new : E → A) (old : A) (r : option E) : A :=
  match r with Some e => new e | None => old end.

Lemma batch_coin_spec (s : UtxoSet) o us e :
  (∀ u, us = Some u → coin_ok s o u) →
  (has e.(e_flags) FRESH = true → shows (λ e, unspent e.(e_coin)) (s.(s_coin) o) us = None) →
  ∃ r, batch_coin us e = Some r ∧ (∀ e', r = Some e' → coin_ok s o e') ∧
    shows (λ e, unspent e.(e_coin)) (s.(s_coin) o) r =
      if has e.(e_flags) DIRTY then unspent e.(e_coin) else shows (λ e, unspent e.(e_coin)) (s.(s_coin) o) us.
Proof.
  intros Hus Hf. unfold batch_coin. destruct (has (e_flags e) DIRTY) eqn:Ed; [|by eexists].
  destruct us as [u|]; cbn in Hf.
  - destruct (Hus u eq_refl) as [Hu1 Hu2].
    destruct (has (e_flags e) FRESH && negb (IsSpent (e_coin u))) eqn:E1.
    { apply andb_true_iff in E1 as [E1 E2]. specialize (Hf E1). unfold unspent in Hf.
      by destruct (IsSpent (e_coin u)). }
    destruct (has (e_flags u) FRESH && IsSpent (e_coin e)) eqn:E2.
    + apply andb_true_iff in E2 as [E2 E3]. eexists. split_and!; [done|done|].
      cbn. rewrite Hu1 by done. unfold unspent. by rewrite E3.
    + eexists. split_and!; [done| |done]. intros e' [= <-]. split; cbn [e_flags e_coin]; rewrite has_lor.
      * change (has DIRTY FRESH) with false. rewrite orb_false_r. apply Hu1.
      * change (has DIRTY DIRTY) with true. by rewrite orb_true_r.
  - destruct (has (e_flags e) FRESH && IsSpent (e_coin e)) eqn:E1; cbn [negb].
    + apply andb_true_iff in E1 as [E1 E2]. eexists. split_and!; [done|done|].
      cbn. rewrite Hf by done. unfold unspent. by rewrite E2.
    + eexists. split_and!; [done| |done]. intros e' [= <-].
      destruct (has (e_flags e) FRESH); split; cbn [e_flags e_coin]; try done.
Qed.

Lemma batch_anchor_spec (s : UtxoSet) rt p e :
  (∀ u, p = Some u → anchor_ok s rt u) → root e.(a_tree) = rt → (e.(a_entered) = false → rt ≠ empty_root) →
  ∃ r, batch_anchor p e = Some r ∧ (∀ e', r = Some e' → anchor_ok s rt e') ∧
    shows a_entered (s.(s_anchor) rt) r =
      if has e.(a_flags) DIRTY then e.(a_entered) else shows a_entered (s.(s_anchor) rt) p.
Proof.
  intros Hp Hrt He. unfold batch_anchor. destruct (has (a_flags e) DIRTY) eqn:Ed; [|by eexists].
  destruct p as [p|]; [destruct (Hp p eq_refl) as (?&?&?)|]; [case_match|].
  - eexists. split_and!; [done| |by apply eqb_prop]. intros e' [= <-]. by split_and!.
  - eexists. split_and!; [done| |done]. intros e' [= <-]. split_and!; cbn; try done.
    rewrite has_lor. change (has DIRTY DIRTY) with true. by rewrite orb_true_r.
  - eexists. split_and!; [done| |done]. intros e' [= <-]. by split_and!.
Qed.

Lemma batch_nullifier_spec (s : UtxoSet) n p e :
  (∀ u, p = Some u → nullifier_ok s n u) →
  ∃ r, batch_nullifier p e = Some r ∧ (∀ e', r = Some e' → nullifier_ok s n e') ∧
    shows n_entered (s.(s_nullifier) n) r =
      if has e.(n_flags) DIRTY then e.(n_entered) else shows n_entered (s.(s_nullifier) n) p.
Proof.
  intros Hp. unfold batch_nullifier. destruct (has (n_flags e) DIRTY) eqn:Ed; [|by eexists].
  destruct p as [p|]; [pose proof (Hp p eq_refl)|]; [case_match|].
  - eexists. split_and!; [done| |by apply eqb_prop]. intros e' [= <-]. done.
  - eexists. split_and!; [done| |done]. intros e' [= <-]. unfold nullifier_ok. cbn.
    rewrite has_lor. change (has DIRTY DIRTY) with true. by rewrite orb_true_r.
  - eexists. split_and!; [done| |done]. by intros e' [= <-].
Qed.

(** The loop over a whole map, from the specification of its body. *)
Lemma batch_loop_spec {K E A} `{Countable K} (f : option E → E → option (option E)) (P : K → E → Prop)
    (dirty : E → bool) (new : E → A) (old : K → A) (child parent : gmap K E) :
  map_Forall P parent →
  (∀ k p e, child !! k = Some e → parent !! k = p → (∀ u, p = Some u → P k u) →
     ∃ r, f p e = Some r ∧ (∀ e', r = Some e' → P k e') ∧
       shows new (old k) r = if dirty e then new e else shows new (old k) p) →
  ∃ m, batch_loop f (map_to_list child) parent = Some m ∧ map_Forall P m ∧
    ∀ k, shows new (old k) (m !! k) = overlay dirty new child (λ k, shows new (old k) (parent !! k)) k.
Proof.
  intros Hp Hf.
  assert (∀ k e, child !! k = Some e → ∃ r, f (parent !! k) e = Some r ∧ (∀ e', r = Some e' → P k e') ∧
     shows new (old k) r = if dirty e then new e else shows new (old k) (parent !! k)) as Hf'.
  { intros k e He. apply Hf; [done..|]. intros u. apply Hp. }
  destruct (batch_loop_map f child parent) as (m & Hm & Hlk).
  { intros k e He. destruct (Hf' k e He) as (r & -> & _). done. }
  exists m. split; [done|]. split.
  - intros k e He. specialize (Hlk k). rewrite He in Hlk. destruct (child !! k) as [x|] eqn:Ec.
    + destruct (Hf' k x Ec) as (r & Hr & HP & _). rewrite Hr in Hlk. apply HP. congruence.
    + apply Hp. congruence.
  - intros k. specialize (Hlk k). unfold overlay. destruct (child !! k) as [x|] eqn:Ec.
    + destruct (Hf' k x Ec) as (r & Hr & _ & Hs). rewrite Hr in Hlk. congruence.
    + congruence.
Qed.

Lemma cache_BatchWrite (c : Cache) coins h rt anchors nullifiers :
  cache_inv c → batch_ok (cache_set c) coins anchors → uint_IsNull h = false →
  ∃ c', BatchWrite coins h rt anchors nullifiers c = Some (true, c') ∧ cache_inv c' ∧
    (∀ o, s_coin (cache_set c') o =
       overlay (λ e, has e.(e_flags) DIRTY) (λ e, unspent e.(e_coin)) coins (s_coin (cache_set c)) o) ∧
    s_best (cache_set c') = h ∧
    (∀ r, s_anchor (cache_set c') r =
       overlay (λ e, has e.(a_flags) DIRTY) a_entered anchors (s_anchor (cache_set c)) r) ∧
    (∀ n, s_nullifier (cache_set c') n =
       overlay (λ e, has e.(n_flags) DIRTY) n_entered nullifiers (s_nullifier (cache_set c)) n) ∧
    (uint_IsNull rt = false → s_root (cache_set c') = rt).
Proof.
  intros (Hb & Hc & Ha & Hn) [Hfresh Hanchors] Hh. set (s := v_set c.(base)) in *.
  destruct (batch_loop_spec batch_coin (coin_ok s) (λ e, has e.(e_flags) DIRTY) (λ e, unspent e.(e_coin))
              s.(s_coin) coins c.(cacheCoins)) as (mc & Emc & Hmc & Lmc); [done| |].
  { intros k p e Ek <- Hp. apply batch_coin_spec; [done|]. intros Hf. by apply (Hfresh k e). }
  destruct (batch_loop_spec batch_anchor (anchor_ok s) (λ e, has e.(a_flags) DIRTY) a_entered
              s.(s_anchor) anchors c.(cacheSaplingAnchors)) as (ma & Ema & Hma & Lma); [done| |].
  { intros k p e Ek <- Hp. destruct (Hanchors k e Ek). by apply batch_anchor_spec. }
  destruct (batch_loop_spec batch_nullifier (nullifier_ok s) (λ e, has e.(n_flags) DIRTY) n_entered
              s.(s_nullifier) nullifiers c.(cacheSaplingNullifiers)) as (mn & Emn & Hmn & Lmn); [done| |].
  { intros k p e Ek <- Hp. by apply batch_nullifier_spec. }
  unfold BatchWrite. rewrite Emc. cbn. rewrite Ema. cbn. rewrite Emn. cbn. eexists. split; [done|].
  split; [by split_and!|]. cbn. rewrite Hh. split_and!; try done. by intros ->.
Qed.

Lemma cache_empty_root (c : Cache) : cache_inv c → s_anchor (cache_set c) empty_root = true.
Proof.
  intros (Hb & _ & Ha & _). cbn. destruct (cacheSaplingAnchors c !! empty_root) as [e|] eqn:E.
  - destruct (Ha _ _ E) as (_ & _ & He). destruct (a_entered e); [done|]. by destruct (He eq_refl).
  - by apply empty_root_contract.
Qed.

(** The cache keeps the promises of the view below it. *)
#[export] Instance cache_contract : ViewContract Cache.
Proof.
  split.
  - apply cache_GetCoin.
  - apply cache_HaveCoin.
  - apply cache_GetBestBlock.
  - apply cache_GetSaplingAnchorAt.
  - apply cache_GetNullifier.
  - apply cache_GetBestAnchor.
  - apply cache_empty_root.
  - apply cache_BatchWrite.
Qed.

(** ** The operations of the cache on the abstract set *)

Definition put_coin (o : COutPoint) (r : option Coin) (s : UtxoSet) : UtxoSet :=
  {| s_coin o' := if decide (o' = o) then r else s.(s_coin) o'; s_best := s.(s_best);
     s_anchor := s.(s_anchor); s_nullifier := s.(s_nullifier); s_root := s.(s_root) |}.

#[export] Instance put_coin_proper : Proper ((=) ==> (=) ==> (≡) ==> (≡)) put_coin.
Proof.
  intros o ? <- r ? <- s t (?&?&?&?&?). split_and!; cbn; try done. intros o'. by case_decide.
Qed.

Lemma put_coin_same o s : put_coin o (s_coin s o) s ≡ s.
Proof. split_and!; cbn; try done. intros o'. case_decide; by subst. Qed.

Lemma put_coin_twice o r r' s : put_coin o r (put_coin o r' s) ≡ put_coin o r s.
Proof. split_and!; cbn; try done. intros o'. by repeat case_decide. Qed.

(** A cache that is changed only in the entry of [o]. *)
Lemma insert_coin_set o e (c : Cache) :
  cache_set (set_coins (<[o := e]> c.(cacheCoins)) c) ≡ put_coin o (unspent e.(e_coin)) (cache_set c).
Proof. split_and!; cbn; try done. intros o'. apply cache_coin_insert. Qed.

Lemma delete_coin_set o (c : Cache) :
  cache_set (set_coins (delete o c.(cacheCoins)) c) ≡ put_coin o (s_coin (v_set c.(base)) o) (cache_set c).
Proof. split_and!; cbn; try done. intros o'. apply cache_coin_delete. Qed.

Lemma SpendCoin_spec o (c : Cache) :
  cache_inv c →
  cache_inv (SpendCoin o c).2 ∧ cache_set (SpendCoin o c).2 ≡ put_coin o None (cache_set c) ∧
  ((SpendCoin o c).1 ≫= unspent) = s_coin (cache_set c) o.
Proof.
  intros Hc. destruct (FetchCoin_reads o c Hc) as (Hc' & Es & Er & Ho). unfold SpendCoin.
  destruct (FetchCoin o c) as [[e|] c']; cbn [fst snd] in Hc', Es, Er, Ho.
  - assert (coin_ok (v_set c'.(base)) o e) as Hok by (destruct Hc' as (_&Hc'&_); by apply Hc').
    cbn [fst snd]. destruct (has (e_flags e) FRESH) eqn:Ef; (split_and!; [| |done]).
    + by apply delete_coin_inv.
    + rewrite delete_coin_set, <- Es. destruct Hok as [Hok _]. by rewrite Hok.
    + apply insert_coin_inv; [done|]. split; cbn [e_flags e_coin]; rewrite has_lor.
      * rewrite Ef. done.
      * change (has DIRTY DIRTY) with true. by rewrite orb_true_r.
    + by rewrite insert_coin_set, <- Es.
  - cbn [fst snd]. split_and!; [done| |done]. change (None = s_coin (cache_set c) o) in Er.
    rewrite Er, <- Es. symmetry.
    replace (s_coin (cache_set c) o) with (s_coin (cache_set c') o) by apply Es. apply put_coin_same.
Qed.

Lemma AddCoin_spec o coin possible_overwrite (c : Cache) :
  cache_inv c → IsSpent coin = false → (possible_overwrite = false → s_coin (cache_set c) o = None) →
  ∃ c', AddCoin o coin possible_overwrite c = Some c' ∧ cache_inv c' ∧
    cache_set c' ≡ if IsUnspendable coin.(coin_out).(scriptPubKey) then cache_set c
                   else put_coin o (Some coin) (cache_set c).
Proof.
  intros Hc Hs Hpo. unfold AddCoin. rewrite Hs. destruct (IsUnspendable _); [by eexists|].
  set (it := default CCoinsCacheEntry_empty (c.(cacheCoins) !! o)).
  assert (IsSpent it.(e_coin) = true ∨ possible_overwrite = true) as Hspent.
  { destruct possible_overwrite; [by right|]. left. specialize (Hpo eq_refl). cbn in Hpo. subst it.
    destruct (cacheCoins c !! o) as [e|]; [|done]. cbn. unfold unspent in Hpo. by destruct (IsSpent (e_coin e)). }
  assert (negb possible_overwrite && negb (IsSpent (e_coin it)) = false) as ->.
  { destruct Hspent as [->| ->]; [by rewrite andb_false_r|done]. }
  eexists. split; [done|]. split.
  - apply insert_coin_inv; [done|]. split; cbn [e_flags e_coin]; rewrite !has_lor.
    + change (has DIRTY FRESH) with false. cbn [orb]. rewrite orb_true_iff. intros Hf. subst it.
      destruct (cacheCoins c !! o) as [e|] eqn:Ho; cbn [from_option id] in *.
      * destruct Hc as (_ & Hc & _). destruct (Hc o e Ho) as [H1 H2]. destruct Hf as [Hf|Hf]; [by apply H1|].
        destruct possible_overwrite; [by destruct (has (e_flags e) DIRTY)|].
        destruct (has (e_flags e) DIRTY); [done|]. specialize (Hpo eq_refl). cbn in Hpo.
        rewrite Ho in Hpo. by rewrite H2.
      * destruct possible_overwrite; cbn in Hf; [by destruct Hf|]. specialize (Hpo eq_refl). cbn in Hpo.
        by rewrite Ho in Hpo.
    + change (has DIRTY DIRTY) with true. cbn [orb]. by rewrite orb_true_r.
  - rewrite insert_coin_set. cbn. unfold unspent. by rewrite Hs.
Qed.

Lemma Uncache_spec o (c : Cache) :
  cache_inv c → cache_inv (Uncache o c) ∧ cache_set (Uncache o c) ≡ cache_set c.
Proof.
  intros Hc. unfold Uncache. destruct (cacheCoins c !! o) as [e|] eqn:Ho; [|done].
  destruct (Z.eqb_spec (e_flags e) 0) as [E|]; [|done]. split; [by apply delete_coin_inv|].
  rewrite delete_coin_set. destruct Hc as (_ & Hc & _). destruct (Hc o e Ho) as [_ H2].
  rewrite H2 by (by rewrite E). replace (unspent (e_coin e)) with (s_coin (cache_set c) o) by (cbn; by rewrite Ho).
  apply put_coin_same.
Qed.

(** What the cache holds is a batch that the view below accepts. *)
Lemma cache_batch_ok (c : Cache) : cache_inv c → batch_ok (v_set c.(base)) c.(cacheCoins) c.(cacheSaplingAnchors).
Proof.
  intros (_ & Hc & Ha & _). split.
  - intros o e Ho. apply (Hc o e Ho).
  - intros rt e Hr. destruct (Ha rt e Hr) as (?&_&?). done.
Qed.

Lemma Flush_spec (c : Cache) :
  cache_inv c → uint_IsNull c.(hashBlock) = false → uint_IsNull c.(hashSaplingAnchor) = false →
  ∃ c', Flush c = Some (true, c') ∧ cache_inv c' ∧ cache_set c' ≡ cache_set c ∧
    v_set c'.(base) ≡ cache_set c ∧
    c'.(cacheCoins) = ∅ ∧ c'.(cacheSaplingAnchors) = ∅ ∧ c'.(cacheSaplingNullifiers) = ∅.
Proof.
  intros Hc Hh Hr. pose proof (cache_batch_ok c Hc) as Hok.
  destruct (BatchWrite_contract c.(base) c.(cacheCoins) c.(hashBlock) c.(hashSaplingAnchor)
              c.(cacheSaplingAnchors) c.(cacheSaplingNullifiers) (proj1 Hc) Hok Hh)
    as (b & Eb & Hb & Ec & Eh & Ea & En & Er).
  unfold Flush. rewrite Eb. cbn. eexists. split; [done|].
  assert (v_set b ≡ cache_set c) as Es.
  { destruct Hc as (_ & Hc & Ha & Hn). split_and!; cbn; rewrite ?Hh, ?Hr; auto.
    - intros o. rewrite Ec. unfold overlay. destruct (cacheCoins c !! o) as [e|] eqn:E; [|done].
      destruct (has (e_flags e) DIRTY) eqn:Ed; [done|]. by apply (Hc o e E).
    - intros r. rewrite Ea. unfold overlay. destruct (cacheSaplingAnchors c !! r) as [e|] eqn:E; [|done].
      destruct (has (a_flags e) DIRTY) eqn:Ed; [done|]. by apply (Ha r e E).
    - intros n. rewrite En. unfold overlay. destruct (cacheSaplingNullifiers c !! n) as [e|] eqn:E; [|done].
      destruct (has (n_flags e) DIRTY) eqn:Ed; [done|]. by apply (Hn n e E). }
  split; [by split_and!|]. split; [|by split_and!]. rewrite <- Es.
  repeat split; cbn; intros; rewrite ?lookup_empty, ?Hh, ?Hr; try done; symmetry; auto.
Qed.

(** *** Anchors and nullifiers *)

Definition put_anchor (rt : base_uint) (b : bool) (best : base_uint) (s : UtxoSet) : UtxoSet :=
  {| s_coin := s.(s_coin); s_best := s.(s_best);
     s_anchor r := if decide (r = rt) then b else s.(s_anchor) r; s_nullifier := s.(s_nullifier); s_root := best |}.

#[export] Instance put_anchor_proper : Proper ((=) ==> (=) ==> (=) ==> (≡) ==> (≡)) put_anchor.
Proof.
  intros o ? <- r ? <- h ? <- s t (?&?&?&?&?). split_and!; cbn; try done. intros r'. by case_decide.
Qed.

Lemma set_anchor_set (h rt : base_uint) e (c : Cache) :
  uint_IsNull h = false →
  cache_set (set_anchor h (<[rt := e]> c.(cacheSaplingAnchors)) c) ≡ put_anchor rt e.(a_entered) h (cache_set c).
Proof.
  intros Hh. split_and!; cbn; try done; [|by rewrite Hh]. intros r.
  case_decide; subst; [by rewrite lookup_insert_eq|by rewrite lookup_insert_ne].
Qed.

Lemma PushAnchor_spec tree (c : Cache) :
  cache_inv c → uint_IsNull (root tree) = false →
  cache_inv (PushAnchor tree c) ∧
  cache_set (PushAnchor tree c) ≡
    if decide (s_root (cache_set c) = root tree) then cache_set c
    else put_anchor (root tree) true (root tree) (cache_set c).
Proof.
  intros Hc Hn. unfold PushAnchor. destruct (cache_GetBestAnchor c Hc) as (Hc' & Es & Er).
  destruct (GetBestAnchor c) as [r c']. cbn [fst snd] in *. change (v_set c) with (cache_set c) in *.
  rewrite <- Er. case_decide; [done|]. split.
  - apply set_anchor_inv; [done|]. apply map_Forall_insert_2; [by split_and!|apply Hc'].
  - rewrite set_anchor_set by done. by rewrite Es.
Qed.

(** The assertion of [PopAnchor] holds when the best anchor is entered. *)
Lemma PopAnchor_spec newrt (c : Cache) :
  cache_inv c → uint_IsNull newrt = false → s_anchor (cache_set c) (s_root (cache_set c)) = true →
  (s_root (cache_set c) = empty_root → newrt = empty_root) →
  ∃ c', PopAnchor newrt c = Some c' ∧ cache_inv c' ∧
    cache_set c' ≡ if decide (s_root (cache_set c) = newrt) then cache_set c
                   else put_anchor (s_root (cache_set c)) false newrt (cache_set c).
Proof.
  intros Hc Hn Hroot Hempty. unfold PopAnchor. destruct (cache_GetBestAnchor c Hc) as (Hc' & Es & Er).
  destruct (GetBestAnchor c) as [r c']. cbn [fst snd] in *. change (v_set c) with (cache_set c) in *.
  rewrite <- Er in *. case_decide as Hd; [by eexists|].
  destruct (cache_GetSaplingAnchorAt r c' Hc') as (Hc2 & Es2 & Eb & Et).
  destruct (GetSaplingAnchorAt r c') as [t c2] eqn:Eg. cbn [fst snd] in *.
  change (v_set c2) with (cache_set c2) in *. change (v_set c') with (cache_set c') in *.
  rewrite Es in Eb. rewrite Hroot in Eb. destruct t as [tree|]; [|done]. eexists. split; [done|].
  assert (∃ e, c2.(cacheSaplingAnchors) !! r = Some e ∧ root e.(a_tree) = r) as (e & He & Hre).
  { unfold GetSaplingAnchorAt in Eg. destruct (cacheSaplingAnchors c' !! r) as [e|] eqn:Ea.
    - injection Eg as _ <-. exists e. split; [done|]. destruct Hc' as (_&_&Hca&_). by apply (Hca r e).
    - destruct (base_GetSaplingAnchorAt r (base c')) as [[t'|] b]; [|done]. injection Eg as <- <-.
      eexists. cbn. rewrite lookup_insert_eq. split; [done|]. by apply Et. }
  rewrite He. split.
  - apply set_anchor_inv; [done|]. apply map_Forall_insert_2; [|apply Hc2]. split_and!; [done|done|].
    intros _ E. apply Hd. rewrite Hempty; done.
  - rewrite set_anchor_set by done. cbn. by rewrite Es2, Es.
Qed.

Definition spent_nullifiers (tx : CTransaction) : list base_uint :=
  match tx.(sapData) with Some d => spend_nullifier <$> d.(vShieldedSpend) | None => [] end.

Lemma SetNullifiers_loop_spec (s : UtxoSet) (l : list SpendDescription) (spent : bool) (m : CNullifiersMap) :
  map_Forall (nullifier_ok s) m →
  map_Forall (nullifier_ok s) (SetNullifiers_loop l spent m) ∧
  ∀ n, shows n_entered (s.(s_nullifier) n) (SetNullifiers_loop l spent m !! n) =
    if decide (n ∈ spend_nullifier <$> l) then spent else shows n_entered (s.(s_nullifier) n) (m !! n).
Proof.
  revert m. induction l as [|d l IH]; intros m Hm; [done|]. cbn [SetNullifiers_loop fmap list_fmap].
  edestruct IH as [H1 H2]; [|split; [exact H1|]].
  - apply map_Forall_insert_2; [|done]. unfold nullifier_ok. cbn. rewrite has_lor.
    change (has DIRTY DIRTY) with true. by rewrite orb_true_r.
  - intros n. rewrite H2. destruct (decide (n ∈ spend_nullifier <$> l)) as [Hin|Hin];
      destruct (decide (n ∈ spend_nullifier d :: (spend_nullifier <$> l))) as [Hin'|Hin']; try done.
    + destruct Hin'. by right.
    + apply elem_of_cons in Hin' as [->|]; [|done]. by rewrite lookup_insert_eq.
    + rewrite lookup_insert_ne; [done|]. intros E. apply Hin'. rewrite E. left.
Qed.

Lemma SetNullifiers_spec tx (spent : bool) (c : Cache) :
  cache_inv c →
  cache_inv (SetNullifiers tx spent c) ∧
  (∀ n, s_nullifier (cache_set (SetNullifiers tx spent c)) n =
     if decide (n ∈ spent_nullifiers tx) then spent else s_nullifier (cache_set c) n) ∧
  (∀ o, s_coin (cache_set (SetNullifiers tx spent c)) o = s_coin (cache_set c) o).
Proof.
  intros Hc. unfold SetNullifiers, spent_nullifiers. destruct (sapData tx) as [d|]; [|done].
  destruct Hc as (?&?&?&Hn). destruct (SetNullifiers_loop_spec _ (vShieldedSpend d) spent _ Hn) as [? ?].
  split_and!; [by split_and!|done|done].
Qed.

(** *** Transactions *)

(** A read from a state that answers as another one. *)
Lemma reads_from {A} (f : Cache → A * Cache) answer (c c' : Cache) :
  reads f answer → cache_inv c' → cache_set c' ≡ cache_set c →
  cache_inv (f c').2 ∧ cache_set (f c').2 ≡ cache_set c ∧ answer (cache_set c') (f c').1.
Proof. intros Hf Hc' E. destruct (Hf c' Hc') as (?&E'&?). split_and!; [done| |done]. etrans; [apply E'|done]. Qed.

Definition inputs_unspent (s : UtxoSet) (l : list CTxIn) : bool :=
  forallb (λ i, bool_decide (is_Some (s.(s_coin) i.(prevout)))) l.

#[export] Instance inputs_unspent_proper : Proper ((≡) ==> (=) ==> (=)) inputs_unspent.
Proof.
  intros s t E l ? <-. unfold inputs_unspent. induction l as [|j l IH]; [done|]. cbn [forallb]. rewrite IH.
  by rewrite (s_coin_proper _ _ E _ _ eq_refl).
Qed.

Lemma cache_HaveInputs_loop l : reads (HaveInputs_loop l) (λ s b, b = inputs_unspent s l).
Proof.
  induction l as [|i l IH]; intros c Hc; [done|]. cbn [HaveInputs_loop inputs_unspent forallb].
  destruct (cache_HaveCoin i.(prevout) c Hc) as (Hc' & Es & Eb).
  destruct (HaveCoin (prevout i) c) as [b c']. cbn [fst snd] in *. rewrite <- Eb.
  destruct b; cbn [negb andb]; [|done].
  destruct (reads_from _ _ c c' IH Hc' Es) as (?&?&Ei). split_and!; [done..|]. rewrite Ei. by apply inputs_unspent_proper.
Qed.

Lemma cache_HaveInputs tx :
  reads (HaveInputs tx) (λ s b, b = IsCoinBase tx || ContainsAssets tx || inputs_unspent s tx.(vin)).
Proof.
  intros c Hc. unfold HaveInputs. destruct (IsCoinBase tx), (ContainsAssets tx); cbn [negb andb orb]; try done.
  by apply cache_HaveInputs_loop.
Qed.

(** The value of an input, [-1] for one that is not there. *)
Definition input_value (s : UtxoSet) (i : CTxIn) : Z :=
  match s.(s_coin) i.(prevout) with Some c => c.(coin_out).(nValue) | None => -1 end.
Definition value_in (s : UtxoSet) (n : Z) (l : list CTxIn) : Z :=
  fold_left (λ n i, i64 (n + input_value s i)) l n.

#[export] Instance value_in_proper : Proper ((≡) ==> (=) ==> (=) ==> (=)) value_in.
Proof.
  intros s t E n ? <- l ? <-. revert n. induction l as [|j l IH]; intros n; [done|].
  unfold value_in. cbn [fold_left]. etrans; [|apply IH]. unfold value_in. do 2 f_equal. unfold input_value.
  by rewrite E.
Qed.

Lemma IsSpent_nValue c : IsSpent c = true → c.(coin_out).(nValue) = -1.
Proof. unfold IsSpent, TxOut_IsNull. lia. Qed.

Lemma cache_GetValueIn_loop l n : reads (GetValueIn_loop l n) (λ s r, r = value_in s n l).
Proof.
  revert n. induction l as [|i l IH]; intros n c Hc; [done|]. cbn [GetValueIn_loop].
  destruct (cache_AccessCoin i.(prevout) c Hc) as (Hc' & Es & Eb).
  destruct (AccessCoin (prevout i) c) as [b c']. cbn [fst snd] in *.
  destruct (reads_from _ _ c c' (IH (i64 (n + nValue (coin_out b)))) Hc' Es) as (?&?&Ei). split_and!; [done..|].
  rewrite Ei. unfold value_in. cbn [fold_left].
  assert (nValue (coin_out b) = input_value (v_set c) i) as ->.
  { unfold input_value. rewrite <- Eb. unfold unspent. destruct (IsSpent b) eqn:Hb; [|done].
    by apply IsSpent_nValue. }
  by apply value_in_proper.
Qed.

Lemma cache_GetValueIn tx :
  reads (GetValueIn tx) (λ s r, r = if IsCoinBase tx || ContainsAssets tx then 0 else value_in s 0 tx.(vin)).
Proof.
  intros c Hc. unfold GetValueIn. destruct (IsCoinBase tx || ContainsAssets tx); [done|].
  by apply cache_GetValueIn_loop.
Qed.

Definition spends_allowed (s : UtxoSet) (l : list SpendDescription) : bool :=
  forallb (λ d, negb (s.(s_nullifier) d.(spend_nullifier)) && s.(s_anchor) d.(spend_anchor)) l.

#[export] Instance spends_allowed_proper : Proper ((≡) ==> (=) ==> (=)) spends_allowed.
Proof.
  intros s t E l ? <-. unfold spends_allowed. induction l as [|j l IH]; [done|]. cbn [forallb]. rewrite IH.
  by rewrite E.
Qed.

Lemma cache_HaveShielded_loop l : reads (HaveShieldedRequirements_loop l) (λ s b, b = spends_allowed s l).
Proof.
  induction l as [|d l IH]; intros c Hc; [done|]. cbn [HaveShieldedRequirements_loop spends_allowed forallb].
  destruct (cache_GetNullifier d.(spend_nullifier) c Hc) as (Hc' & Es & Eb).
  destruct (GetNullifier (spend_nullifier d) c) as [b c']. cbn [fst snd] in *. rewrite <- Eb.
  destruct b; cbn [negb andb]; [done|].
  destruct (reads_from _ _ c c' (cache_GetSaplingAnchorAt d.(spend_anchor)) Hc' Es) as (Hc2 & Es2 & Et & _).
  destruct (GetSaplingAnchorAt (spend_anchor d) c') as [t c2]. cbn [fst snd] in *.
  change (v_set c') with (cache_set c') in Es. rewrite Es in Et. rewrite <- Et.
  destruct t as [t|]; cbn [negb andb]; [|done].
  destruct (reads_from _ _ c c2 IH Hc2 Es2) as (?&?&Ei). split_and!; [done..|].
  rewrite Ei. change (bool_decide (is_Some (Some t))) with true. cbn [andb].
  by apply spends_allowed_proper.
Qed.

Definition shielded_allowed (s : UtxoSet) (tx : CTransaction) : bool :=
  negb (IsShieldedTx tx) || match tx.(sapData) with Some d => spends_allowed s d.(vShieldedSpend) | None => true end.

#[export] Instance shielded_allowed_proper : Proper ((≡) ==> (=) ==> (=)) shielded_allowed.
Proof. intros s t E tx ? <-. unfold shielded_allowed. destruct (sapData tx); [|done]. by rewrite E. Qed.

Lemma cache_HaveShieldedRequirements tx : reads (HaveShieldedRequirements tx) (λ s b, b = shielded_allowed s tx).
Proof.
  intros c Hc. unfold HaveShieldedRequirements, shielded_allowed. destruct (IsShieldedTx tx); [|done]. cbn [negb orb].
  destruct (sapData tx); [|done]. by apply cache_HaveShielded_loop.
Qed.

(** *** The outputs of a transaction *)

Definition outpoint (txid : base_uint) (i : Z) : COutPoint := {| prevout_hash := txid; prevout_n := u32 i |}.
Definition out_coin (fCoinbase fCoinstake : bool) (nHeight : Z) (o : CTxOut) : Coin :=
  {| fCoinBase := fCoinbase; fCoinStake := fCoinstake; coin_out := o; coin_nHeight := u32 nHeight |}.

(** The reference for [AddCoins]: what the outputs from [i] on do to the set. *)
Fixpoint put_outputs (invalid : COutPoint → bool) (txid : base_uint) (coin : CTxOut → Coin) (skip : bool)
    (i : Z) (vout : list CTxOut) (s : UtxoSet) : UtxoSet :=
  match vout with
  | [] => s
  | o :: vout =>
      put_outputs invalid txid coin skip (i + 1) vout
        (if skip && invalid (outpoint txid i) then put_coin (outpoint txid i) None s
         else if IsUnspendable o.(scriptPubKey) then s
         else put_coin (outpoint txid i) (Some (coin o)) s)
  end.

#[export] Instance put_outputs_proper invalid txid coin skip i vout :
  Proper ((≡) ==> (≡)) (put_outputs invalid txid coin skip i vout).
Proof.
  revert i. induction vout as [|o vout IH]; intros i s t E; [done|]. cbn. apply IH.
  by repeat case_match; rewrite ?E.
Qed.

(** The outputs before [i] and other transactions are not touched. *)
Lemma put_outputs_other invalid txid coin skip i vout s o :
  0 <= i → i + Z.of_nat (length vout) <= 2 ^ 32 →
  (∀ k, i <= k < i + Z.of_nat (length vout) → o ≠ outpoint txid k) →
  s_coin (put_outputs invalid txid coin skip i vout s) o = s_coin s o.
Proof.
  revert i s. induction vout as [|x vout IH]; intros i s Hi Hl Ho; [done|]. cbn [put_outputs length] in *.
  rewrite IH by (try lia; intros k Hk; apply Ho; lia).
  repeat case_match; cbn; try rewrite decide_False by (apply Ho; lia); done.
Qed.

Lemma outpoint_inj txid i j : is_u32 i → is_u32 j → outpoint txid i = outpoint txid j → i = j.
Proof. intros Hi Hj [= E]. rewrite !u32_id in E by done. done. Qed.

(** Where the outputs end up. *)
Lemma put_outputs_at invalid txid coin skip i vout s k o :
  0 <= i → i + Z.of_nat (length vout) <= 2 ^ 32 → vout !! k = Some o →
  s_coin (put_outputs invalid txid coin skip i vout s) (outpoint txid (i + Z.of_nat k)) =
    if skip && invalid (outpoint txid (i + Z.of_nat k)) then None
    else if IsUnspendable o.(scriptPubKey) then s_coin s (outpoint txid (i + Z.of_nat k))
    else Some (coin o).
Proof.
  revert i s k. induction vout as [|x vout IH]; intros i s k Hi Hl Hk; [done|]. cbn [put_outputs length] in *.
  destruct k as [|k]; cbn in Hk.
  - injection Hk as ->. replace (i + Z.of_nat 0) with i by lia. rewrite put_outputs_other; [|lia..|].
    + repeat case_match; cbn; rewrite ?decide_True by done; done.
    + intros j Hj E. apply outpoint_inj in E; [lia|unfold is_u32; lia..].
  - replace (i + Z.of_nat (S k)) with (i + 1 + Z.of_nat k) by lia. rewrite (IH (i + 1)) by (try lia; done).
    pose proof (lookup_lt_Some _ _ _ Hk).
    assert (outpoint txid (i + 1 + Z.of_nat k) ≠ outpoint txid i) as Hne.
    { intros E. apply outpoint_inj in E; [lia|unfold is_u32; lia..]. }
    repeat case_match; cbn; rewrite ?decide_False by done; done.
Qed.

Lemma AddCoins_loop_spec invalid txid cb cs h check skip i vout (c : Cache) :
  cache_inv c → 0 <= i → i + Z.of_nat (length vout) <= 2 ^ 32 →
  Forall (λ o, TxOut_IsNull o = false) vout →
  (check = true ∨ ∀ k, i <= k < i + Z.of_nat (length vout) → s_coin (cache_set c) (outpoint txid k) = None) →
  ∃ c', AddCoins_loop invalid txid cb cs h check skip i vout c = Some c' ∧ cache_inv c' ∧
    cache_set c' ≡ put_outputs invalid txid (out_coin cb cs h) skip i vout (cache_set c).
Proof.
  revert i c. induction vout as [|o vout IH]; intros i c Hc Hi Hl Hn Hnew; [by eexists|].
  cbn [AddCoins_loop put_outputs length] in *. apply Forall_cons in Hn as [Ho Hn]. fold (outpoint txid i).
  assert (∀ c1, cache_inv c1 → ∀ s, cache_set c1 ≡ s →
    (∀ k, i < k < i + Z.of_nat (S (length vout)) → s_coin s (outpoint txid k) = s_coin (cache_set c) (outpoint txid k)) →
    ∃ c', AddCoins_loop invalid txid cb cs h check skip (i + 1) vout c1 = Some c' ∧ cache_inv c' ∧
      cache_set c' ≡ put_outputs invalid txid (out_coin cb cs h) skip (i + 1) vout s) as Hnext.
  { intros c1 Hc1 s Es Hs. destruct (IH (i + 1) c1) as (c' & ? & ? & E'); [done|lia|lia|done| |].
    - destruct Hnew as [|Hnew]; [by left|right]. intros k Hk. rewrite Es, Hs by lia. apply Hnew. lia.
    - exists c'. split_and!; [done..|]. etrans; [exact E'|]. by rewrite Es. }
  assert (∀ r k, i < k < i + Z.of_nat (S (length vout)) →
    s_coin (put_coin (outpoint txid i) r (cache_set c)) (outpoint txid k) =
    s_coin (cache_set c) (outpoint txid k)) as Hput.
  { intros r k Hk. cbn. rewrite decide_False; [done|]. intros E.
    apply outpoint_inj in E; [lia|unfold is_u32; lia..]. }
  destruct (skip && invalid (outpoint txid i)).
  { destruct (SpendCoin_spec (outpoint txid i) c Hc) as (?&?&_). by eapply Hnext; [| |apply Hput]. }
  assert (∃ b c1, (if check then HaveCoin (outpoint txid i) c else (false, c)) = (b, c1) ∧ cache_inv c1 ∧
    cache_set c1 ≡ cache_set c ∧ (b = false → s_coin (cache_set c1) (outpoint txid i) = None))
    as (b & c1 & -> & Hc1 & Es & Hb).
  { destruct check.
    - destruct (cache_HaveCoin (outpoint txid i) c Hc) as (?&Es&Eb).
      destruct (HaveCoin (outpoint txid i) c) as [b c1]. cbn [fst snd] in *. exists b, c1. split_and!; [done..|].
      intros ->. change (v_set c1) with (cache_set c1) in Es. rewrite Es.
      symmetry in Eb. apply bool_decide_eq_false in Eb. by apply eq_None_not_Some.
    - eexists _, _. split_and!; [done..|]. intros _. destruct Hnew as [|Hnew]; [done|]. apply Hnew. lia. }
  destruct (AddCoin_spec (outpoint txid i) (out_coin cb cs h o) b c1 Hc1 Ho Hb) as (c2 & E2 & Hc2 & Es2).
  unfold out_coin in E2. rewrite E2. cbn [mbind option_bind]. cbn [out_coin coin_out] in Es2.
  destruct (IsUnspendable (scriptPubKey o)); (eapply Hnext; [done| |]).
  - by rewrite Es2.
  - done.
  - by rewrite Es2, Es.
  - apply Hput.
Qed.

End reads.
End cache_model.
