(* ===== verification/CoinsDB.v ===== *)
(** * CoinsDB: the coin database ([txdb.cpp], [sapling/sapling_txdb.cpp])

    [CCoinsViewDB] keeps the coins in a key-value store.  The store is modelled
    by one map per kind of key; a batch is the list of its writes, applied in
    order, and [BatchWrite] is the sequence of the batches it commits, so that
    the state after a crash between two commits can be talked about. *)

From S2P Require Import Prelude ArithUint256 Script Transaction Coins.
Local Open Scope Z_scope.

Local Arguments uint_IsNull : simpl never.
Local Arguments has : simpl never.

Section db.
Context `{MerkleTree}.

Record CCoinsViewDB := {
  db_coin : gmap COutPoint Coin;            (** [DB_COIN] *)
  db_best_block : option base_uint;         (** [DB_BEST_BLOCK] *)
  db_head_blocks : option (list base_uint); (** [DB_HEAD_BLOCKS] *)
  db_anchor : gmap base_uint Tree;          (** [DB_SAPLING_ANCHOR] *)
  db_nullifier : gmap base_uint bool;       (** [DB_SAPLING_NULLIFIER] *)
  db_best_anchor : option base_uint;        (** [DB_BEST_SAPLING_ANCHOR] *)
}.

Definition empty_db : CCoinsViewDB :=
  {| db_coin := ∅; db_best_block := None; db_head_blocks := None; db_anchor := ∅; db_nullifier := ∅;
     db_best_anchor := None |}.

(** [Write] and [Erase] of a [CDBBatch], per kind of key: [None] erases. *)
Inductive db_write :=
  | W_coin (o : COutPoint) (c : option Coin)
  | W_best_block (h : option base_uint)
  | W_head_blocks (l : option (list base_uint))
  | W_anchor (rt : base_uint) (t : option Tree)
  | W_nullifier (n : base_uint) (b : option bool)
  | W_best_anchor (h : option base_uint).

Definition apply_write (db : CCoinsViewDB) (w : db_write) : CCoinsViewDB :=
  match w with
  | W_coin o c =>
      {| db_coin := partial_alter (λ _, c) o db.(db_coin); db_best_block := db.(db_best_block);
         db_head_blocks := db.(db_head_blocks); db_anchor := db.(db_anchor);
         db_nullifier := db.(db_nullifier); db_best_anchor := db.(db_best_anchor) |}
  | W_best_block h =>
      {| db_coin := db.(db_coin); db_best_block := h;
         db_head_blocks := db.(db_head_blocks); db_anchor := db.(db_anchor);
         db_nullifier := db.(db_nullifier); db_best_anchor := db.(db_best_anchor) |}
  | W_head_blocks l =>
      {| db_coin := db.(db_coin); db_best_block := db.(db_best_block);
         db_head_blocks := l; db_anchor := db.(db_anchor);
         db_nullifier := db.(db_nullifier); db_best_anchor := db.(db_best_anchor) |}
  | W_anchor rt t =>
      {| db_coin := db.(db_coin); db_best_block := db.(db_best_block);
         db_head_blocks := db.(db_head_blocks); db_anchor := partial_alter (λ _, t) rt db.(db_anchor);
         db_nullifier := db.(db_nullifier); db_best_anchor := db.(db_best_anchor) |}
  | W_nullifier n b =>
      {| db_coin := db.(db_coin); db_best_block := db.(db_best_block);
         db_head_blocks := db.(db_head_blocks); db_anchor := db.(db_anchor);
         db_nullifier := partial_alter (λ _, b) n db.(db_nullifier); db_best_anchor := db.(db_best_anchor) |}
  | W_best_anchor h =>
      {| db_coin := db.(db_coin); db_best_block := db.(db_best_block);
         db_head_blocks := db.(db_head_blocks); db_anchor := db.(db_anchor);
         db_nullifier := db.(db_nullifier); db_best_anchor := h |}
  end.

Definition WriteBatch (db : CCoinsViewDB) (batch : list db_write) : CCoinsViewDB :=
  fold_left apply_write batch db.

(** ** Reading *)

Definition DB_GetCoin (o : COutPoint) (db : CCoinsViewDB) : option Coin := db.(db_coin) !! o.
Definition DB_HaveCoin (o : COutPoint) (db : CCoinsViewDB) : bool := bool_decide (is_Some (db.(db_coin) !! o)).
Definition DB_GetBestBlock (db : CCoinsViewDB) : base_uint := default (uint_zero 8) db.(db_best_block).
Definition DB_GetHeadBlocks (db : CCoinsViewDB) : list base_uint := default [] db.(db_head_blocks).
Definition DB_GetSaplingAnchorAt (rt : base_uint) (db : CCoinsViewDB) : option Tree :=
  if decide (rt = empty_root) then Some empty_tree else db.(db_anchor) !! rt.
Definition DB_GetNullifier (nf : base_uint) (db : CCoinsViewDB) : bool :=
  bool_decide (is_Some (db.(db_nullifier) !! nf)).
Definition DB_GetBestAnchor (db : CCoinsViewDB) : base_uint := default empty_root db.(db_best_anchor).

(** ** Writing *)

(** [batch.SizeEstimate() > batch_size]; the limit comes from [-dbbatchsize]
    and the estimate from the serialised sizes, so any function may stand
    here. *)
Class BatchLimit := over_batch_size : list db_write → bool.
Context `{BatchLimit}.

(** The writes for one entry of [mapCoins]. *)
Definition coin_writes (p : COutPoint * CCoinsCacheEntry) : list db_write :=
  let '(o, e) := p in
  if has e.(e_flags) DIRTY then [W_coin o (if IsSpent e.(e_coin) then None else Some e.(e_coin))] else [].

(** The loop over [mapCoins]: the batches it commits and the one it leaves
    unwritten. *)
Fixpoint coin_batches (l : list (COutPoint * CCoinsCacheEntry)) (batch : list db_write) :
    list (list db_write) * list db_write :=
  match l with
  | [] => ([], batch)
  | p :: l =>
      let batch := batch ++ coin_writes p in
      if over_batch_size batch then
        let '(done, rest) := coin_batches l [] in (batch :: done, rest)
      else coin_batches l batch
  end.

(** [BatchWriteAnchors], [BatchWriteNullifiers] and [BatchWriteSapling]. *)
Definition anchor_writes (p : base_uint * CAnchorsSaplingCacheEntry) : list db_write :=
  let '(rt, e) := p in
  if has e.(a_flags) DIRTY then
    if negb e.(a_entered) then [W_anchor rt None]
    else if decide (rt = empty_root) then [] else [W_anchor rt (Some e.(a_tree))]
  else [].

Definition nullifier_writes (p : base_uint * CNullifiersCacheEntry) : list db_write :=
  let '(n, e) := p in
  if has e.(n_flags) DIRTY then [W_nullifier n (if negb e.(n_entered) then None else Some true)] else [].

Definition BatchWriteSapling (hashSaplingAnchor : base_uint) (anchors : CAnchorsSaplingMap)
    (nullifiers : CNullifiersMap) : list db_write :=
  (map_to_list anchors ≫= anchor_writes) ++ (map_to_list nullifiers ≫= nullifier_writes) ++
  (if negb (uint_IsNull hashSaplingAnchor) then [W_best_anchor (Some hashSaplingAnchor)] else []).

(** The tip from which the database is moving; [None] is the failed
    assertion. *)
Definition old_tip (hashBlock : base_uint) (db : CCoinsViewDB) : option base_uint :=
  if uint_IsNull (DB_GetBestBlock db) then
    match DB_GetHeadBlocks db with
    | [h0; h1] => if decide (h0 = hashBlock) then Some h1 else None
    | _ => Some (DB_GetBestBlock db)
    end
  else Some (DB_GetBestBlock db).

(** The batches of [BatchWrite], in the order in which they are committed. *)
Definition db_batches (mapCoins : CCoinsMap) (hashBlock hashSaplingAnchor : base_uint)
    (anchors : CAnchorsSaplingMap) (nullifiers : CNullifiersMap) (db : CCoinsViewDB) : option (list (list db_write)) :=
  if uint_IsNull hashBlock then None
  else
    tip ← old_tip hashBlock db;
    let '(done, rest) :=
      coin_batches (map_to_list mapCoins) [W_best_block None; W_head_blocks (Some [hashBlock; tip])] in
    Some (done ++ [rest ++ BatchWriteSapling hashSaplingAnchor anchors nullifiers ++
                   [W_head_blocks None; W_best_block (Some hashBlock)]]).

Definition DB_BatchWrite (mapCoins : CCoinsMap) (hashBlock hashSaplingAnchor : base_uint)
    (anchors : CAnchorsSaplingMap) (nullifiers : CNullifiersMap) (db : CCoinsViewDB) : option (bool * CCoinsViewDB) :=
  batches ← db_batches mapCoins hashBlock hashSaplingAnchor anchors nullifiers db;
  Some (true, fold_left WriteBatch batches db).

#[export] Instance CCoinsViewDB_view : CCoinsView CCoinsViewDB := {
  base_GetCoin o db := (DB_GetCoin o db, db);
  base_HaveCoin o db := (DB_HaveCoin o db, db);
  base_GetBestBlock db := (DB_GetBestBlock db, db);
  base_BatchWrite := DB_BatchWrite;
  base_GetSaplingAnchorAt rt db := (DB_GetSaplingAnchorAt rt db, db);
  base_GetNullifier n db := (DB_GetNullifier n db, db);
  base_GetBestAnchor db := (DB_GetBestAnchor db, db);
}.

(** ** The invariant *)

Definition db_set (db : CCoinsViewDB) : UtxoSet :=
  {| s_coin o := DB_GetCoin o db; s_best := DB_GetBestBlock db;
     s_anchor rt := bool_decide (is_Some (DB_GetSaplingAnchorAt rt db));
     s_nullifier n := DB_GetNullifier n db; s_root := DB_GetBestAnchor db |}.

(** No spent coin is stored, a tree is stored under its root, and no
    transition is under way. *)
Definition db_inv (db : CCoinsViewDB) : Prop :=
  map_Forall (λ _ c, IsSpent c = false) db.(db_coin) ∧
  map_Forall (λ rt t, root t = rt) db.(db_anchor) ∧
  db.(db_head_blocks) = None.

#[export] Instance db_model : ViewModel CCoinsViewDB := { v_inv := db_inv; v_set := db_set }.

(** ** The effect of a batch *)

Lemma WriteBatch_app db l1 l2 : WriteBatch db (l1 ++ l2) = WriteBatch (WriteBatch db l1) l2.
Proof. apply fold_left_app. Qed.

Lemma WriteBatch_concat batches db : fold_left WriteBatch batches db = WriteBatch db (concat batches).
Proof.
  revert db. induction batches as [|b l IH]; intros db; [done|]. cbn [fold_left concat].
  by rewrite IH, WriteBatch_app.
Qed.

(** The loops over the maps write every key at most once.  [upd] is the
    effect on the key, if there is one; [get] and [same] are the part of the
    database that is written and the rest of it. *)
Lemma writes_spec {K E X R} `{Countable K} (ws : K * E → list db_write) (get : CCoinsViewDB → gmap K X)
    (same : CCoinsViewDB → R) (upd : K → E → option (option X)) :
  (∀ k e db, get (WriteBatch db (ws (k, e))) =
     match upd k e with Some r => partial_alter (λ _, r) k (get db) | None => get db end) →
  (∀ k e db, same (WriteBatch db (ws (k, e))) = same db) →
  ∀ l db, NoDup l.*1 →
    same (WriteBatch db (l ≫= ws)) = same db ∧
    ∀ k, get (WriteBatch db (l ≫= ws)) !! k =
      match (list_to_map l : gmap K E) !! k with
      | Some e => match upd k e with Some r => r | None => get db !! k end
      | None => get db !! k
      end.
Proof.
  intros Hget Hsame l. induction l as [|[k e] l IH]; intros db Hnd; [done|].
  apply NoDup_cons in Hnd as [Hk Hnd]. cbn in Hk. cbn [mbind list_bind]. rewrite WriteBatch_app.
  destruct (IH (WriteBatch db (ws (k, e))) Hnd) as [IH1 IH2]. fold (l ≫= ws). split.
  - by rewrite IH1.
  - intros k'. rewrite IH2, Hget. cbn. destruct (decide (k = k')) as [<-|Hne].
    + rewrite lookup_insert_eq, (not_elem_of_list_to_map_1 l k) by done.
      destruct (upd k e); [by rewrite lookup_partial_alter_eq|done].
    + rewrite lookup_insert_ne by done.
      destruct (upd k e); [by rewrite lookup_partial_alter_ne by done|done].
Qed.

Definition without_coins (db : CCoinsViewDB) :=
  (db.(db_best_block), db.(db_head_blocks), db.(db_anchor), db.(db_nullifier), db.(db_best_anchor)).
Definition without_anchors (db : CCoinsViewDB) :=
  (db.(db_coin), db.(db_best_block), db.(db_head_blocks), db.(db_nullifier), db.(db_best_anchor)).
Definition without_nullifiers (db : CCoinsViewDB) :=
  (db.(db_coin), db.(db_best_block), db.(db_head_blocks), db.(db_anchor), db.(db_best_anchor)).

Lemma coin_writes_spec l db :
  NoDup l.*1 →
  without_coins (WriteBatch db (l ≫= coin_writes)) = without_coins db ∧
  ∀ o, db_coin (WriteBatch db (l ≫= coin_writes)) !! o =
    overlay (λ e, has e.(e_flags) DIRTY) (λ e, unspent e.(e_coin)) (list_to_map l : CCoinsMap)
      (λ o, db.(db_coin) !! o) o.
Proof.
  intros Hnd. destruct (writes_spec coin_writes db_coin without_coins
    (λ _ e, if has e.(e_flags) DIRTY then Some (unspent e.(e_coin)) else None)) with (l := l) (db := db) as [H1 H2].
  - intros o e d. cbn. by destruct (has (e_flags e) DIRTY).
  - intros o e d. cbn. by destruct (has (e_flags e) DIRTY).
  - done.
  - split; [done|]. intros o. rewrite H2. unfold overlay. destruct (list_to_map l !! o) as [e|]; [|done].
    by destruct (has (e_flags e) DIRTY).
Qed.

Definition anchor_update (rt : base_uint) (e : CAnchorsSaplingCacheEntry) : option (option Tree) :=
  if has e.(a_flags) DIRTY then
    if negb e.(a_entered) then Some None
    else if decide (rt = empty_root) then None else Some (Some e.(a_tree))
  else None.

Lemma anchor_writes_spec l db :
  NoDup l.*1 →
  without_anchors (WriteBatch db (l ≫= anchor_writes)) = without_anchors db ∧
  ∀ rt, db_anchor (WriteBatch db (l ≫= anchor_writes)) !! rt =
    match (list_to_map l : CAnchorsSaplingMap) !! rt with
    | Some e => match anchor_update rt e with Some r => r | None => db.(db_anchor) !! rt end
    | None => db.(db_anchor) !! rt
    end.
Proof.
  intros Hnd. apply writes_spec; [| |done].
  - intros rt e d. unfold anchor_update, anchor_writes. by repeat case_match.
  - intros rt e d. unfold anchor_writes. by repeat case_match.
Qed.

Definition nullifier_update (e : CNullifiersCacheEntry) : option (option bool) :=
  if has e.(n_flags) DIRTY then Some (if negb e.(n_entered) then None else Some true) else None.

Lemma nullifier_writes_spec l db :
  NoDup l.*1 →
  without_nullifiers (WriteBatch db (l ≫= nullifier_writes)) = without_nullifiers db ∧
  ∀ n, db_nullifier (WriteBatch db (l ≫= nullifier_writes)) !! n =
    match (list_to_map l : CNullifiersMap) !! n with
    | Some e => match nullifier_update e with Some r => r | None => db.(db_nullifier) !! n end
    | None => db.(db_nullifier) !! n
    end.
Proof.
  intros Hnd. apply (writes_spec nullifier_writes db_nullifier without_nullifiers (λ _, nullifier_update)); [| |done].
  - intros n e d. unfold nullifier_update, nullifier_writes. by case_match.
  - intros n e d. unfold nullifier_writes. by case_match.
Qed.

(** All the writes of a [BatchWrite] that started at [tip]. *)
Definition all_writes (tip : base_uint) (coins : CCoinsMap) (h rt : base_uint) (anchors : CAnchorsSaplingMap)
    (nullifiers : CNullifiersMap) : list db_write :=
  [W_best_block None; W_head_blocks (Some [h; tip])] ++ (map_to_list coins ≫= coin_writes) ++
  BatchWriteSapling rt anchors nullifiers ++ [W_head_blocks None; W_best_block (Some h)].

Lemma all_writes_spec tip coins h rt anchors nullifiers db :
  let db' := WriteBatch db (all_writes tip coins h rt anchors nullifiers) in
  (∀ o, db'.(db_coin) !! o =
     overlay (λ e, has e.(e_flags) DIRTY) (λ e, unspent e.(e_coin)) coins (λ o, db.(db_coin) !! o) o) ∧
  db'.(db_best_block) = Some h ∧ db'.(db_head_blocks) = None ∧
  (∀ r, db'.(db_anchor) !! r =
     match anchors !! r with
     | Some e => match anchor_update r e with Some x => x | None => db.(db_anchor) !! r end
     | None => db.(db_anchor) !! r
     end) ∧
  (∀ n, db'.(db_nullifier) !! n =
     match nullifiers !! n with
     | Some e => match nullifier_update e with Some x => x | None => db.(db_nullifier) !! n end
     | None => db.(db_nullifier) !! n
     end) ∧
  db'.(db_best_anchor) = if negb (uint_IsNull rt) then Some rt else db.(db_best_anchor).
Proof.
  unfold all_writes, BatchWriteSapling. rewrite !WriteBatch_app.
  set (d0 := WriteBatch db _).
  destruct (coin_writes_spec (map_to_list coins) d0) as [C1 C2]; [apply NoDup_fst_map_to_list|].
  set (d1 := WriteBatch d0 _) in *.
  destruct (anchor_writes_spec (map_to_list anchors) d1) as [A1 A2]; [apply NoDup_fst_map_to_list|].
  set (d2 := WriteBatch d1 _) in *.
  destruct (nullifier_writes_spec (map_to_list nullifiers) d2) as [N1 N2]; [apply NoDup_fst_map_to_list|].
  set (d3 := WriteBatch d2 _) in *. rewrite list_to_map_to_list in C2.
  setoid_rewrite list_to_map_to_list in A2. setoid_rewrite list_to_map_to_list in N2.
  injection C1 as C11 C12 C13 C14 C15. injection A1 as A11 A12 A13 A14 A15. injection N1 as N11 N12 N13 N14 N15.
  cbn zeta. split_and!.
  - intros o. etrans; [|apply (C2 o)]. rewrite <- A11, <- N11. by destruct (negb (uint_IsNull rt)).
  - done.
  - done.
  - intros r. rewrite <- C13. etrans; [|apply (A2 r)]. rewrite <- N14.
    by destruct (negb (uint_IsNull rt)).
  - intros n. rewrite <- C14, <- A14. etrans; [|apply (N2 n)].
    by destruct (negb (uint_IsNull rt)).
  - destruct (negb (uint_IsNull rt)); [done|]. cbn. rewrite N15, A15, C15. done.
Qed.

(** ** The batches *)

Lemma coin_batches_concat l batch :
  concat (coin_batches l batch).1 ++ (coin_batches l batch).2 = batch ++ (l ≫= coin_writes).
Proof.
  revert batch. induction l as [|p l IH]; intros batch; [cbn; by rewrite app_nil_r|].
  cbn [coin_batches mbind list_bind]. rewrite app_assoc. destruct (over_batch_size _).
  - specialize (IH []). destruct (coin_batches l []) as [ds rest]. cbn in *. rewrite <- app_assoc, IH. done.
  - by rewrite IH.
Qed.

(** The committed batches hold the writes of the first entries. *)
Lemma coin_batches_prefix l batch k :
  (0 < k <= length (coin_batches l batch).1)%nat →
  ∃ l1 l2, l = l1 ++ l2 ∧ concat (take k (coin_batches l batch).1) = batch ++ (l1 ≫= coin_writes).
Proof.
  revert batch k. induction l as [|p l IH]; intros batch k; cbn [coin_batches]; [cbn; lia|].
  destruct (over_batch_size _).
  - specialize (IH [] (pred k)). destruct (coin_batches l []) as [ds rest]. cbn [fst length] in *.
    destruct k as [|[|k]]; intros Hk; [lia|..].
    + exists [p], l. split; [done|]. cbn. by rewrite !app_nil_r.
    + destruct IH as (l1 & l2 & -> & E); [cbn; lia|]. exists (p :: l1), l2. split; [done|].
      cbn [take concat mbind list_bind pred] in *. rewrite E. cbn. by rewrite <- app_assoc.
  - intros Hk. destruct (IH _ _ Hk) as (l1 & l2 & -> & E). exists (p :: l1), l2. split; [done|].
    rewrite E. cbn [mbind list_bind]. by rewrite <- app_assoc.
Qed.

(** The batches depend on the database through the old tip only. *)
Lemma db_batches_concat coins h rt anchors nullifiers db tip :
  uint_IsNull h = false → old_tip h db = Some tip →
  ∃ batches, db_batches coins h rt anchors nullifiers db = Some batches ∧
    concat batches = all_writes tip coins h rt anchors nullifiers ∧
    ∀ k, (0 < k < length batches)%nat → ∃ l1 l2, map_to_list coins = l1 ++ l2 ∧
      concat (take k batches) = [W_best_block None; W_head_blocks (Some [h; tip])] ++ (l1 ≫= coin_writes).
Proof.
  intros Hh Ht. unfold db_batches. rewrite Hh, Ht. cbn [mbind option_bind].
  set (b0 := [W_best_block None; _]). pose proof (coin_batches_concat (map_to_list coins) b0) as E.
  pose proof (coin_batches_prefix (map_to_list coins) b0) as P.
  destruct (coin_batches (map_to_list coins) b0) as [ds rest]. cbn [fst snd] in *. eexists. split; [done|]. split.
  - unfold all_writes. fold b0. rewrite concat_app. cbn [concat]. rewrite app_nil_r, !app_assoc, E. by rewrite <- !app_assoc.
  - intros k Hk. rewrite length_app in Hk. cbn in Hk. rewrite take_app_le by lia. apply P. lia.
Qed.

Lemma old_tip_consistent h db : db_inv db → old_tip h db = Some (DB_GetBestBlock db).
Proof.
  intros (_ & _ & E). unfold old_tip, DB_GetHeadBlocks. rewrite E. cbn. by destruct (uint_IsNull (DB_GetBestBlock db)).
Qed.

Lemma DB_BatchWrite_spec (db : CCoinsViewDB) coins h rt anchors nullifiers :
  db_inv db → batch_ok (db_set db) coins anchors → uint_IsNull h = false →
  ∃ db', DB_BatchWrite coins h rt anchors nullifiers db = Some (true, db') ∧ db_inv db' ∧
    (∀ o, s_coin (db_set db') o =
       overlay (λ e, has e.(e_flags) DIRTY) (λ e, unspent e.(e_coin)) coins (s_coin (db_set db)) o) ∧
    s_best (db_set db') = h ∧
    (∀ r, s_anchor (db_set db') r =
       overlay (λ e, has e.(a_flags) DIRTY) a_entered anchors (s_anchor (db_set db)) r) ∧
    (∀ n, s_nullifier (db_set db') n =
       overlay (λ e, has e.(n_flags) DIRTY) n_entered nullifiers (s_nullifier (db_set db)) n) ∧
    (uint_IsNull rt = false → s_root (db_set db') = rt).
Proof.
  intros Hdb [_ Hanchors] Hh.
  destruct (db_batches_concat coins h rt anchors nullifiers db _ Hh (old_tip_consistent h db Hdb)) as (bs & Ebs & Ec & _).
  unfold DB_BatchWrite. rewrite Ebs. cbn [mbind option_bind]. rewrite WriteBatch_concat, Ec. eexists. split; [done|].
  destruct (all_writes_spec (DB_GetBestBlock db) coins h rt anchors nullifiers db) as (Ec' & Eb & Eh & Ea & En & Er).
  destruct Hdb as (Hc & Ha & _). set (db' := WriteBatch db _) in *. clearbody db'. split; [split_and!|split_and!].
  - intros o c Ho. rewrite Ec' in Ho. unfold overlay, unspent in Ho. repeat case_match; simplify_eq; by eauto.
  - intros r t Hr. rewrite Ea in Hr. unfold anchor_update in Hr. destruct (anchors !! r) as [e|] eqn:Er'; [|by apply Ha].
    destruct (Hanchors r e Er') as [? _]. repeat case_match; simplify_eq; by eauto.
  - done.
  - intros o. apply Ec'.
  - cbn. unfold DB_GetBestBlock. by rewrite Eb.
  - intros r. cbn. unfold DB_GetSaplingAnchorAt, overlay. rewrite Ea. unfold anchor_update.
    destruct (anchors !! r) as [e|] eqn:Er'; [|done]. destruct (Hanchors r e Er') as [_ He].
    destruct (has (a_flags e) DIRTY); [|done]. destruct (a_entered e); cbn [negb]; [by case_decide|].
    rewrite decide_False by auto. done.
  - intros n. cbn. unfold DB_GetNullifier, overlay. rewrite En. unfold nullifier_update.
    destruct (nullifiers !! n) as [e|]; [|done]. destruct (has (n_flags e) DIRTY); [|done]. by destruct (n_entered e).
  - intros Hr. cbn. unfold DB_GetBestAnchor. rewrite Er, Hr. done.
Qed.

(** The database keeps the promises of a view. *)
#[export] Instance db_contract : ViewContract CCoinsViewDB.
Proof.
  split; try (intros; intros db Hdb; by split_and!).
  - intros o db Hdb. split_and!; [done|done|]. cbn. unfold DB_GetCoin.
    destruct (db_coin db !! o) as [c|] eqn:E; [|done]. cbn. destruct Hdb as (Hc & _).
    unfold unspent. by rewrite (Hc o c E).
  - intros rt db Hdb. split_and!; [done|done|done|]. cbn. unfold DB_GetSaplingAnchorAt. intros t.
    case_decide as E; [by intros [= <-]|]. destruct Hdb as (_ & Ha & _). apply Ha.
  - intros db Hdb. cbn. unfold DB_GetSaplingAnchorAt. by rewrite decide_True.
  - apply DB_BatchWrite_spec.
Qed.

(** ** Stacks of caches *)

(** [pcoinsdbview], with [n] caches on top of it. *)
Fixpoint view_stack (n : nat) : Type :=
  match n with O => CCoinsViewDB | S n => CCoinsViewCache (view_stack n) end.

Fixpoint stack_view (n : nat) : CCoinsView (view_stack n) :=
  match n with
  | O => CCoinsViewDB_view
  | S n => @CCoinsViewCache_view _ _ (stack_view n)
  end.

Fixpoint stack_model (n : nat) : ViewModel (view_stack n) :=
  match n with
  | O => db_model
  | S n => @cache_model _ _ (stack_model n)
  end.

(** C11: The coin database, and every stack of memory caches on top of it,
    keeps the contract of a view of the unspent outputs: the reads answer for
    the abstract set and change neither it nor the invariant, although they
    fill the caches; and a batch of a child that respects the meaning of the
    [FRESH] flag is always accepted, without an exception, and leaves the set
    of the view overlaid with the child's dirty entries, whatever the order in
    which the entries are visited and the database writes are split into
    batches. *)
Theorem view_stack_implements_contract n : @ViewContract _ (view_stack n) (stack_view n) (stack_model n).
Proof. induction n as [|n IH]; [apply db_contract|]. apply (@cache_contract _ _ _ _ IH). Qed.

(** ** Crashes *)

Lemma all_writes_twice tip coins h rt anchors nullifiers l1 l2 db :
  map_to_list coins = l1 ++ l2 →
  WriteBatch (WriteBatch db ([W_best_block None; W_head_blocks (Some [h; tip])] ++ (l1 ≫= coin_writes)))
    (all_writes tip coins h rt anchors nullifiers) =
  WriteBatch db (all_writes tip coins h rt anchors nullifiers).
Proof.
  intros El. rewrite WriteBatch_app. set (d0 := WriteBatch db [_; _]).
  destruct (coin_writes_spec l1 d0) as [C1 C2].
  { pose proof (NoDup_fst_map_to_list coins) as Hnd. rewrite El, fmap_app in Hnd.
    apply NoDup_app in Hnd. apply Hnd. }
  set (d1 := WriteBatch d0 _) in *.
  destruct (all_writes_spec tip coins h rt anchors nullifiers db) as (X1 & X2 & X3 & X4 & X5 & X6).
  destruct (all_writes_spec tip coins h rt anchors nullifiers d1) as (Y1 & Y2 & Y3 & Y4 & Y5 & Y6).
  injection C1 as C11 C12 C13 C14 C15. rewrite C13 in Y4. rewrite C14 in Y5. rewrite C15 in Y6.
  change (WriteBatch d0 (l1 ≫= coin_writes)) with d1. clearbody d1.
  set (a := WriteBatch d1 (all_writes _ _ _ _ _ _)) in *. set (b := WriteBatch db (all_writes _ _ _ _ _ _)) in *.
  clearbody a b.
  assert (db_coin a = db_coin b) as Ec.
  { apply map_eq. intros o. rewrite Y1, X1. unfold overlay. destruct (coins !! o) as [e|] eqn:Eo.
    - destruct (has (e_flags e) DIRTY) eqn:Ed; [done|]. rewrite C2. unfold overlay.
      destruct (list_to_map l1 !! o) as [e'|] eqn:E'; [|done].
      apply elem_of_list_to_map_2 in E'. assert (coins !! o = Some e') as Eo'.
      { apply elem_of_map_to_list. rewrite El. apply elem_of_app. by left. }
      rewrite Eo in Eo'. injection Eo' as ->. by rewrite Ed.
    - rewrite C2. unfold overlay. destruct (list_to_map l1 !! o) as [e'|] eqn:E'; [|done].
      apply elem_of_list_to_map_2 in E'. assert (coins !! o = Some e') as Eo'; [|congruence].
      apply elem_of_map_to_list. rewrite El. apply elem_of_app. by left. }
  assert (db_anchor a = db_anchor b) as Ea by (apply map_eq; intros r; by rewrite X4, Y4).
  assert (db_nullifier a = db_nullifier b) as En by (apply map_eq; intros r; by rewrite X5, Y5).
  destruct a, b. cbn in *. by subst.
Qed.

(** C30: A crash during [BatchWrite] can be repaired.  If the node stops after
    some, but not all, of the batches have been committed, the database names
    no best block, its head blocks are the target and the block it came from,
    and every coin has its old or its new value; and repeating the same
    [BatchWrite] then gives exactly the database that it would have given
    without the crash. *)
Theorem BatchWrite_survives_crash (db : CCoinsViewDB) coins h rt anchors nullifiers batches k :
  db_inv db → db_batches coins h rt anchors nullifiers db = Some batches → (0 < k < length batches)%nat →
  let crashed := fold_left WriteBatch (take k batches) db in
  uint_IsNull (DB_GetBestBlock crashed) = true ∧ DB_GetHeadBlocks crashed = [h; DB_GetBestBlock db] ∧
  (∀ o, DB_GetCoin o crashed = DB_GetCoin o db ∨
        ∃ e, coins !! o = Some e ∧ DB_GetCoin o crashed = unspent e.(e_coin)) ∧
  DB_BatchWrite coins h rt anchors nullifiers crashed = DB_BatchWrite coins h rt anchors nullifiers db ∧
  is_Some (DB_BatchWrite coins h rt anchors nullifiers db).
Proof.
  intros Hdb Ebs Hk. set (tip := DB_GetBestBlock db).
  assert (uint_IsNull h = false) as Hh.
  { unfold db_batches in Ebs. by destruct (uint_IsNull h). }
  destruct (db_batches_concat coins h rt anchors nullifiers db tip Hh (old_tip_consistent h db Hdb))
    as (bs & E & Ec & Hp). rewrite Ebs in E. injection E as <-.
  destruct (Hp k Hk) as (l1 & l2 & El & Et). cbn zeta. rewrite WriteBatch_concat, Et.
  set (crashed := WriteBatch db _).
  destruct (coin_writes_spec l1 (WriteBatch db [W_best_block None; W_head_blocks (Some [h; tip])])) as [C1 C2].
  { pose proof (NoDup_fst_map_to_list coins) as Hnd. rewrite El, fmap_app in Hnd.
    apply NoDup_app in Hnd. apply Hnd. }
  rewrite <- WriteBatch_app in C1, C2. fold crashed in C1, C2. injection C1 as C11 C12 _ _ _.
  assert (uint_IsNull (DB_GetBestBlock crashed) = true) as Hb by (unfold DB_GetBestBlock; by rewrite C11).
  assert (DB_GetHeadBlocks crashed = [h; tip]) as Hheads by (unfold DB_GetHeadBlocks; by rewrite C12).
  split_and!; [done|done| | |].
  - intros o. unfold DB_GetCoin. rewrite C2. unfold overlay.
    destruct (list_to_map l1 !! o) as [e|] eqn:E; [|by left]. destruct (has (e_flags e) DIRTY); [right|by left].
    exists e. split; [|done]. apply elem_of_map_to_list. rewrite El. apply elem_of_app. left.
    by apply elem_of_list_to_map_2.
  - assert (old_tip h crashed = Some tip) as Ht.
    { unfold old_tip. rewrite Hb, Hheads. by rewrite decide_True. }
    destruct (db_batches_concat coins h rt anchors nullifiers crashed tip Hh Ht) as (bs' & E' & Ec' & _).
    unfold DB_BatchWrite. rewrite E', Ebs. cbn [mbind option_bind]. rewrite !WriteBatch_concat, Ec, Ec'.
    unfold crashed. by rewrite (all_writes_twice _ _ _ _ _ _ l1 l2).
  - unfold DB_BatchWrite. by rewrite Ebs.
Qed.
End db.

(** ** Running a cache *)

(** The operations of a client of the cache. *)
Inductive cache_op `{MerkleTree} :=
  | Op_AddCoin (o : COutPoint) (coin : Coin) (possible_overwrite : bool)
  | Op_SpendCoin (o : COutPoint)
  | Op_GetCoin (o : COutPoint)
  | Op_HaveCoin (o : COutPoint)
  | Op_Uncache (o : COutPoint)
  | Op_SetBestBlock (h : base_uint)
  | Op_PushAnchor (t : Tree)
  | Op_PopAnchor (rt : base_uint)
  | Op_GetNullifier (n : base_uint)
  | Op_Flush.

Inductive answer := A_none | A_bool (b : bool) | A_coin (r : option Coin).

Section run.
Context `{MerkleTree} {V : Type} `{!CCoinsView V}.

(** One call on the cache; a spent coin is shown as no coin. *)
Definition run_op (op : cache_op) (c : CCoinsViewCache V) : option (answer * CCoinsViewCache V) :=
  match op with
  | Op_AddCoin o coin po => c ← AddCoin o coin po c; Some (A_none, c)
  | Op_SpendCoin o => let '(r, c) := SpendCoin o c in Some (A_coin (r ≫= unspent), c)
  | Op_GetCoin o => let '(r, c) := GetCoin o c in Some (A_coin (r ≫= unspent), c)
  | Op_HaveCoin o => let '(b, c) := HaveCoin o c in Some (A_bool b, c)
  | Op_Uncache o => Some (A_none, Uncache o c)
  | Op_SetBestBlock h => Some (A_none, SetBestBlock h c)
  | Op_PushAnchor t => Some (A_none, PushAnchor t c)
  | Op_PopAnchor rt => c ← PopAnchor rt c; Some (A_none, c)
  | Op_GetNullifier n => let '(b, c) := GetNullifier n c in Some (A_bool b, c)
  | Op_Flush => '(b, c) ← Flush c; Some (A_bool b, c)
  end.

Fixpoint run (ops : list cache_op) (c : CCoinsViewCache V) : option (list answer * CCoinsViewCache V) :=
  match ops with
  | [] => Some ([], c)
  | op :: ops => '(a, c) ← run_op op c; '(l, c) ← run ops c; Some (a :: l, c)
  end.

Definition put_best (h : base_uint) (s : UtxoSet) : UtxoSet :=
  {| s_coin := s.(s_coin); s_best := h; s_anchor := s.(s_anchor); s_nullifier := s.(s_nullifier);
     s_root := s.(s_root) |}.

(** The specification: the same call on the set, [None] where the caller
    breaks the rules.  Flushing and dropping entries do nothing. *)
Definition spec_op (op : cache_op) (s : UtxoSet) : option (answer * UtxoSet) :=
  match op with
  | Op_AddCoin o coin po =>
      if IsSpent coin || negb po && bool_decide (is_Some (s.(s_coin) o)) then None
      else Some (A_none, if IsUnspendable coin.(coin_out).(scriptPubKey) then s else put_coin o (Some coin) s)
  | Op_SpendCoin o => Some (A_coin (s.(s_coin) o), put_coin o None s)
  | Op_GetCoin o => Some (A_coin (s.(s_coin) o), s)
  | Op_HaveCoin o => Some (A_bool (bool_decide (is_Some (s.(s_coin) o))), s)
  | Op_Uncache _ => Some (A_none, s)
  | Op_SetBestBlock h => if uint_IsNull h then None else Some (A_none, put_best h s)
  | Op_PushAnchor t =>
      if uint_IsNull (root t) then None
      else Some (A_none, if decide (s.(s_root) = root t) then s else put_anchor (root t) true (root t) s)
  | Op_PopAnchor rt =>
      if uint_IsNull rt || negb (s.(s_anchor) s.(s_root)) ||
         bool_decide (s.(s_root) = empty_root) && negb (bool_decide (rt = empty_root)) then None
      else Some (A_none, if decide (s.(s_root) = rt) then s else put_anchor s.(s_root) false rt s)
  | Op_GetNullifier n => Some (A_bool (s.(s_nullifier) n), s)
  | Op_Flush => Some (A_bool true, s)
  end.

Fixpoint spec_run (ops : list cache_op) (s : UtxoSet) : option (list answer * UtxoSet) :=
  match ops with
  | [] => Some ([], s)
  | op :: ops => '(a, s) ← spec_op op s; '(l, s) ← spec_run ops s; Some (a :: l, s)
  end.

Context `{!ViewModel V, !ViewContract V}.

(** The cache shows the set, and has loaded its best block and anchor. *)
Definition simulates (c : CCoinsViewCache V) (s : UtxoSet) : Prop :=
  cache_inv c ∧ cache_set c ≡ s ∧
  uint_IsNull c.(hashBlock) = false ∧ uint_IsNull c.(hashSaplingAnchor) = false.

(** What the two hashes of a cache are after an operation. *)
Definition hashes (c : CCoinsViewCache V) := (c.(hashBlock), c.(hashSaplingAnchor)).

Lemma FetchCoin_hashes o (c : CCoinsViewCache V) : hashes (FetchCoin o c).2 = hashes c.
Proof. unfold FetchCoin. by repeat case_match. Qed.

Lemma SpendCoin_hashes o (c : CCoinsViewCache V) : hashes (SpendCoin o c).2 = hashes c.
Proof.
  unfold SpendCoin. pose proof (FetchCoin_hashes o c) as E. destruct (FetchCoin o c) as [[e|] c']; [|done].
  cbn in *. by case_match.
Qed.

Lemma simulates_hashes (c c' : CCoinsViewCache V) s s' :
  simulates c s → cache_inv c' → cache_set c' ≡ s' → hashes c' = hashes c → simulates c' s'.
Proof. intros (_&_&H1&H2) Hc Es [= E1 E2]. unfold simulates. by rewrite E1, E2. Qed.

Lemma run_read {A} (f : CCoinsViewCache V → A * CCoinsViewCache V) ans c s :
  reads f ans → (∀ c, hashes (f c).2 = hashes c) → simulates c s →
  simulates (f c).2 s ∧ ans (cache_set c) (f c).1.
Proof.
  intros Hf Hh Hs. pose proof Hs as (Hc & Es & _). destruct (Hf c Hc) as (Hc' & Es' & Ha). split; [|done].
  eapply simulates_hashes; [done|done| |apply Hh]. etrans; [apply Es'|done].
Qed.

(** The cases of the simulation that need more than the lemma about the
    operation. *)
Lemma run_PushAnchor t (c : CCoinsViewCache V) s :
  simulates c s → uint_IsNull (root t) = false →
  simulates (PushAnchor t c) (if decide (s.(s_root) = root t) then s else put_anchor (root t) true (root t) s).
Proof.
  intros (Hc & Es & H1 & H2) Hr. destruct (PushAnchor_spec t c Hc Hr) as [Hc' Es'].
  assert (hashBlock (PushAnchor t c) = hashBlock c ∧ uint_IsNull (hashSaplingAnchor (PushAnchor t c)) = false)
    as [Eh Ea].
  { unfold PushAnchor, GetBestAnchor. rewrite H2. cbn. by destruct (decide (hashSaplingAnchor c = root t)). }
  split_and!; [done| |by rewrite Eh|done]. etrans; [exact Es'|]. rewrite (s_root_proper _ _ Es).
  destruct (decide (s_root s = root t)); [exact Es|by apply put_anchor_proper].
Qed.

Lemma run_PopAnchor rt (c : CCoinsViewCache V) s :
  simulates c s → uint_IsNull rt = false → s.(s_anchor) s.(s_root) = true →
  (s.(s_root) = empty_root → rt = empty_root) →
  ∃ c', PopAnchor rt c = Some c' ∧
    simulates c' (if decide (s.(s_root) = rt) then s else put_anchor s.(s_root) false rt s).
Proof.
  intros (Hc & Es & H1 & H2) Hr Hroot Hempty.
  destruct (PopAnchor_spec rt c Hc Hr) as (c' & E' & Hc' & Es').
  { by rewrite !Es. }
  { rewrite Es. done. }
  exists c'. split; [done|].
  assert (hashBlock c' = hashBlock c ∧ uint_IsNull (hashSaplingAnchor c') = false) as [Eh Ea].
  { revert E'. unfold PopAnchor, GetBestAnchor. rewrite H2.
    destruct (decide (hashSaplingAnchor c = rt)); [by intros [= <-]|].
    unfold GetSaplingAnchorAt. by repeat case_match; intros [= <-]; simplify_eq. }
  split_and!; [done| |by rewrite Eh|done]. etrans; [exact Es'|]. rewrite (s_root_proper _ _ Es).
  destruct (decide (s_root s = rt)); [exact Es|by apply put_anchor_proper].
Qed.

Lemma run_op_simulates op (c : CCoinsViewCache V) s a s' :
  simulates c s → spec_op op s = Some (a, s') → ∃ c', run_op op c = Some (a, c') ∧ simulates c' s'.
Proof.
  intros Hs E. pose proof Hs as (Hc & Es & H1 & H2). destruct op; cbn in E |- *.
  - destruct (IsSpent coin) eqn:Hcoin; [done|]. cbn in E.
    destruct (negb possible_overwrite && bool_decide (is_Some (s_coin s o))) eqn:Hpo; [done|]. injection E as <- <-.
    destruct (AddCoin_spec o coin possible_overwrite c Hc Hcoin) as (c' & E' & Hc' & Es').
    { intros ->. rewrite Es. cbn in Hpo. apply bool_decide_eq_false in Hpo. by apply eq_None_not_Some. }
    rewrite E'. eexists. split; [done|]. eapply simulates_hashes; [done|done| |].
    + rewrite Es'. by case_match; rewrite Es.
    + unfold AddCoin in E'. by repeat case_match; simplify_eq.
  - injection E as <- <-. destruct (SpendCoin_spec o c Hc) as (Hc' & Es' & Er).
    pose proof (SpendCoin_hashes o c). destruct (SpendCoin o c) as [r c']. cbn [fst snd] in *.
    rewrite Er, (s_coin_proper _ _ Es _ _ eq_refl). eexists. split; [done|]. eapply simulates_hashes; [done|done| |done]. by rewrite Es', Es.
  - injection E as <- <-. destruct (run_read _ _ c s (cache_GetCoin o)) as [Hs' Er]; [|done|].
    { intros c'. unfold GetCoin. pose proof (FetchCoin_hashes o c'). by destruct (FetchCoin o c'). }
    destruct (GetCoin o c) as [r c']. cbn [fst snd] in *. rewrite Er, (s_coin_proper _ _ Es _ _ eq_refl). by eexists.
  - injection E as <- <-. destruct (run_read _ _ c s (cache_HaveCoin o)) as [Hs' Er]; [|done|].
    { intros c'. unfold HaveCoin. pose proof (FetchCoin_hashes o c'). by destruct (FetchCoin o c'). }
    destruct (HaveCoin o c) as [r c']. cbn [fst snd] in *. rewrite Er, (s_coin_proper _ _ Es _ _ eq_refl). by eexists.
  - injection E as <- <-. eexists. split; [done|]. destruct (Uncache_spec o c Hc). eapply simulates_hashes; [done|done| |].
    + by etrans.
    + unfold Uncache. by repeat case_match.
  - destruct (uint_IsNull h) eqn:Hh; [done|]. injection E as <- <-. eexists. split; [done|].
    destruct Hc as (?&?&?&?). destruct Es as (?&?&?&?&?). split; [by split_and!|]. split; [|by split_and!].
    split_and!; cbn; try done. by rewrite Hh.
  - destruct (uint_IsNull (root t)) eqn:Hr; [done|]. injection E as <- <-. eexists. split; [done|].
    by apply run_PushAnchor.
  - destruct (uint_IsNull rt) eqn:Hr; [done|]. destruct (s_anchor s (s_root s)) eqn:Ha; [|done]. cbn in E.
    destruct (bool_decide (s_root s = empty_root) && negb (bool_decide (rt = empty_root))) eqn:Eb; [done|].
    injection E as <- <-. destruct (run_PopAnchor rt c s Hs Hr Ha) as (c' & -> & ?); [|by eexists].
    intros E0. rewrite bool_decide_eq_true_2 in Eb by done. cbn in Eb. apply negb_false_iff in Eb.
    by apply bool_decide_eq_true in Eb.
  - injection E as <- <-. destruct (run_read _ _ c s (cache_GetNullifier n)) as [Hs' Er]; [|done|].
    { intros c'. unfold GetNullifier. by repeat case_match. }
    destruct (GetNullifier n c) as [r c']. cbn [fst snd] in *. rewrite Er, (s_nullifier_proper _ _ Es _ _ eq_refl). by eexists.
  - injection E as <- <-. destruct (Flush_spec c Hc H1 H2) as (c' & E' & Hc' & Es' & _). rewrite E'. cbn.
    eexists. split; [done|]. eapply simulates_hashes; [done|done| |].
    + by rewrite Es'.
    + unfold Flush in E'. by destruct (base_BatchWrite _ _ _ _ _ _) as [[]|]; simplify_eq/=.
Qed.

(** C10: The memory cache is invisible.  Take a cache over any view that keeps
    the contract, and run any sequence of additions, spends, lookups, changes
    of the best block and of the best anchor, removals of clean entries and
    flushes.  If the same calls on the plain set of unspent outputs respect
    its rules, then the cache never throws or asserts, gives the same answers
    call by call, and still shows the resulting set at the end; and flushing
    it then leaves an empty cache over a base which has that set. *)
Theorem cache_simulates_utxo_set ops (c : CCoinsViewCache V) s l s' :
  simulates c s → spec_run ops s = Some (l, s') →
  ∃ c', run ops c = Some (l, c') ∧ simulates c' s' ∧
    ∃ c2, Flush c' = Some (true, c2) ∧ v_set c2.(base) ≡ s' ∧ c2.(cacheCoins) = ∅.
Proof.
  intros Hs E. cut (∃ c', run ops c = Some (l, c') ∧ simulates c' s').
  { intros (c' & E' & Hs'). exists c'. split; [done|]. split; [done|]. destruct Hs' as (Hc' & Es' & H1 & H2).
    destruct (Flush_spec c' Hc' H1 H2) as (c2 & E2 & _ & _ & Eb & Em & _). exists c2. split_and!; [done| |done].
    by etrans. }
  revert c s l Hs E. induction ops as [|op ops IH]; intros c s l Hs E; cbn in *.
  { injection E as <- <-. by eexists. }
  destruct (spec_op op s) as [[a s1]|] eqn:E1; [|done]. cbn in E.
  destruct (spec_run ops s1) as [[l1 s2]|] eqn:E2; [|done]. injection E as <- <-.
  destruct (run_op_simulates op c s a s1 Hs E1) as (c1 & -> & Hs1). cbn.
  destruct (IH c1 s1 l1 Hs1 E2) as (c2 & -> & Hs2). by eexists.
Qed.
End run.

(** ** Samples *)

(** A tree is its own root, and a batch is written once it has two writes. *)
Definition sample_tree_class : MerkleTree := {| Tree := base_uint; root := id; empty_tree := 1 :: replicate 7 0 |}.
Definition sample_limit : @BatchLimit sample_tree_class := λ batch, bool_decide (2 <= length batch)%nat.
#[local] Existing Instance sample_tree_class.
#[local] Existing Instance sample_limit.

Definition sample_hash (n : Z) : base_uint := n :: replicate 7 0.
Definition sample_coin (n : Z) : Coin :=
  {| fCoinBase := false; fCoinStake := false; coin_nHeight := 7;
     coin_out := {| nValue := n; scriptPubKey := [OP_1]; nRounds := -10 |} |}.
Definition sample_db : CCoinsViewDB :=
  {| db_coin := {[ outpoint (sample_hash 5) 0 := sample_coin 50 ]}; db_best_block := Some (sample_hash 9);
     db_head_blocks := None; db_anchor := ∅; db_nullifier := ∅; db_best_anchor := None |}.

(** A cache over the database that has loaded the best block and anchor. *)
Definition sample_cache : CCoinsViewCache CCoinsViewDB := (GetBestAnchor (GetBestBlock (new_cache sample_db)).2).2.

Lemma sample_db_inv : db_inv sample_db.
Proof. split_and!; [|by intros ??|done]. apply map_Forall_singleton. done. Qed.

Lemma sample_cache_simulates : simulates sample_cache (cache_set sample_cache).
Proof.
  split_and!; [|done|done|done]. split_and!; [apply sample_db_inv|by intros ??..].
Qed.

Definition sample_ops : list cache_op :=
  [Op_SpendCoin (outpoint (sample_hash 5) 0); Op_AddCoin (outpoint (sample_hash 6) 1) (sample_coin 8) false;
   Op_SetBestBlock (sample_hash 10); Op_Flush; Op_HaveCoin (outpoint (sample_hash 5) 0);
   Op_GetCoin (outpoint (sample_hash 6) 1); Op_PushAnchor (sample_hash 3); Op_PopAnchor (sample_hash 1)].

Lemma cache_simulates_utxo_set_witness :
  ∃ c', run sample_ops sample_cache =
    Some ([A_coin (Some (sample_coin 50)); A_none; A_none; A_bool true; A_bool false; A_coin (Some (sample_coin 8));
           A_none; A_none], c').
Proof.
  edestruct (cache_simulates_utxo_set sample_ops sample_cache (cache_set sample_cache)) as (c' & E & _).
  - apply sample_cache_simulates.
  - reflexivity.
  - exists c'. exact E.
Defined.

Definition sample_batch : CCoinsMap :=
  {[ outpoint (sample_hash 5) 0 := {| e_coin := coinEmpty; e_flags := DIRTY |};
     outpoint (sample_hash 6) 1 := {| e_coin := sample_coin 8; e_flags := Z.lor DIRTY FRESH |} ]}.

Lemma BatchWrite_survives_crash_witness :
  let crash k := fold_left WriteBatch
    (take k (default [] (db_batches sample_batch (sample_hash 10) (sample_hash 1) ∅ ∅ sample_db))) sample_db in
  DB_BatchWrite sample_batch (sample_hash 10) (sample_hash 1) ∅ ∅ (crash 1%nat) =
  DB_BatchWrite sample_batch (sample_hash 10) (sample_hash 1) ∅ ∅ sample_db.
Proof.
  refine (proj1 (proj2 (proj2 (proj2
    (BatchWrite_survives_crash sample_db sample_batch (sample_hash 10) (sample_hash 1) ∅ ∅ _ 1 sample_db_inv _ _))))).
  - vm_compute. reflexivity.
  - vm_compute. lia.
Defined.
