(* ===== verification/CoinsUpdate.v ===== *)
(** * CoinsUpdate: transactions against the coins ([validation.cpp])

    [CheckTxInputs], and what connecting and disconnecting a block do to the
    view of the unspent outputs: [UpdateCoins], [ApplyTxInUndo] and the loops
    of [ConnectBlock] and [DisconnectBlock].  Those two functions also update
    the address and spent indexes, the money supply and the multi-mining
    records; these are other objects, which do not act on the view and are not
    part of this file. *)

From stdpp Require Import strings.
From S2P Require Import Prelude ArithUint256 Params Script Interpreter Serialize Transaction TxVerify Coins CoinsDB.
Local Open Scope Z_scope.

Local Arguments uint_IsNull : simpl never.
Local Arguments has : simpl never.

(** [CTransaction::GetHash], which is [SerializeHash]. *)
Definition GetHash `{ScriptCrypto} (tx : CTransaction) : base_uint :=
  match c_uint256.(dec) (Hash256 (SerializeTransaction tx)) with Some (h, _) => h | None => uint_zero 8 end.

Inductive DisconnectResult := DISCONNECT_OK | DISCONNECT_UNCLEAN | DISCONNECT_FAILED.

#[export] Instance DisconnectResult_eq_dec : EqDecision DisconnectResult.
Proof. solve_decision. Defined.

Section update.
Context `{ScriptCrypto} `{MerkleTree} {V : Type} `{!CCoinsView V}.
Abbreviation Cache := (CCoinsViewCache V).

(** [invalid_out::ContainsOutPoint]. *)
Variable invalid : COutPoint → bool.

(** ** Checking the inputs *)

(** The loop over the inputs; [None] is the failed assertion. *)
Fixpoint check_tx_inputs_loop (prm : Params) (nSpendHeight : Z) (l : list CTxIn) (nValueIn : Z) (c : Cache) :
    option (check * Z * Cache) :=
  match l with
  | [] => Some (None, nValueIn, c)
  | i :: l =>
      let '(coin, c) := AccessCoin i.(prevout) c in
      if IsSpent coin then None
      else if (coin.(fCoinBase) || coin.(fCoinStake)) &&
              (nSpendHeight - coin.(coin_nHeight) <? prm.(nCoinbaseMaturity)) then
        Some (Some (DoS 0 "bad-txns-premature-spend-of-coinbase-coinstake"), nValueIn, c)
      else
        let nValueIn := i64 (nValueIn + coin.(coin_out).(nValue)) in
        if negb (MoneyRange prm coin.(coin_out).(nValue)) || negb (MoneyRange prm nValueIn) then
          Some (Some (DoS 100 "bad-txns-inputvalues-outofrange"), nValueIn, c)
        else check_tx_inputs_loop prm nSpendHeight l nValueIn c
  end.

(** The outer [None] is a failed assertion or the exception of
    [GetValueOut]. *)
Definition CheckTxInputs (prm : Params) (tx : CTransaction) (nSpendHeight : Z) (c : Cache) : option (check * Cache) :=
  let '(b, c) := HaveInputs tx c in
  if negb b then Some (Some (DoS 0 ""), c)
  else
    let '(b, c) := HaveShieldedRequirements tx c in
    if negb b then Some (Some (DoS 0 ""), c)
    else
      '(r, nValueIn, c) ← check_tx_inputs_loop prm nSpendHeight tx.(vin) 0 c;
      match r with
      | Some _ => Some (r, c)
      | None =>
          if negb (IsCoinStake tx) then
            nValueOut ← GetValueOut tx;
            if nValueIn <? nValueOut then Some (Some (DoS 100 "bad-txns-in-belowout"), c)
            else
              let nTxFee := i64 (nValueIn - nValueOut) in
              if nTxFee <? 0 then Some (Some (DoS 100 "bad-txns-fee-negative"), c)
              else
                let nFees := i64 (0 + nTxFee) in
                if negb (MoneyRange prm nFees) then Some (Some (DoS 100 "bad-txns-fee-outofrange"), c)
                else Some (None, c)
          else Some (None, c)
      end.

(** ** Connecting *)

(** The inputs are spent in order; the undo record of an input that was not
    there is an empty coin. *)
Fixpoint spend_inputs (l : list CTxIn) (c : Cache) : list Coin * Cache :=
  match l with
  | [] => ([], c)
  | i :: l =>
      let '(moveout, c) := SpendCoin i.(prevout) c in
      let '(undo, c) := spend_inputs l c in
      (default coinEmpty moveout :: undo, c)
  end.

(** [UpdateCoins]; the result has the undo records appended to
    [txundo.vprevout]. *)
Definition UpdateCoins (tx : CTransaction) (nHeight : Z) (fSkipInvalid : bool) (c : Cache) :
    option (list Coin * Cache) :=
  let '(undo, c) :=
    if negb (IsCoinBase tx) && negb (ContainsAssets tx) then spend_inputs tx.(vin) c else ([], c) in
  c ← AddCoins invalid (GetHash tx) tx nHeight false fSkipInvalid c;
  Some (undo, c).

(** The transactions of a block after the first one. *)
Fixpoint connect_rest (vtx : list CTransaction) (nHeight : Z) (fSkipInvalid : bool) (c : Cache) :
    option (list (list Coin) * Cache) :=
  match vtx with
  | [] => Some ([], c)
  | tx :: vtx =>
      '(undo, c) ← UpdateCoins tx nHeight fSkipInvalid c;
      '(vtxundo, c) ← connect_rest vtx nHeight fSkipInvalid c;
      Some (undo :: vtxundo, c)
  end.

(** The updates of [ConnectBlock]: the undo record of the first transaction is
    dropped.  [sapling_tree] is the tree after the block. *)
Definition connect_view (vtx : list CTransaction) (nHeight : Z) (fSkipInvalid : bool) (sapling_tree : Tree) (c : Cache) :
    option (list (list Coin) * Cache) :=
  match vtx with
  | [] => Some ([], PushAnchor sapling_tree c)
  | tx :: vtx =>
      '(_, c) ← UpdateCoins tx nHeight fSkipInvalid c;
      '(vtxundo, c) ← connect_rest vtx nHeight fSkipInvalid c;
      Some (vtxundo, PushAnchor sapling_tree c)
  end.

(** ** Disconnecting *)

Definition ApplyTxInUndo (undo : Coin) (out : COutPoint) (c : Cache) : option (DisconnectResult * Cache) :=
  let '(have, c) := HaveCoin out c in
  let fClean := negb have in
  let '(known, undo, c) :=
    if undo.(coin_nHeight) =? 0 then
      let '(alternate, c) := AccessByTxid out.(prevout_hash) c in
      if negb (IsSpent alternate) then
        (true, {| fCoinBase := alternate.(fCoinBase); fCoinStake := alternate.(fCoinStake);
                  coin_out := undo.(coin_out); coin_nHeight := alternate.(coin_nHeight) |}, c)
      else (false, undo, c)
    else (true, undo, c) in
  if negb known then Some (DISCONNECT_FAILED, c)
  else
    c ← AddCoin out undo (negb fClean) c;
    Some (if fClean then DISCONNECT_OK else DISCONNECT_UNCLEAN, c).

(** The outputs from index [i] on are spent and compared. *)
Fixpoint disconnect_outputs (hash : base_uint) (i : Z) (vout : list CTxOut) (fClean : bool) (c : Cache) : bool * Cache :=
  match vout with
  | [] => (fClean, c)
  | o :: vout =>
      if negb (IsUnspendable o.(scriptPubKey)) then
        let '(r, c) := SpendCoin {| prevout_hash := hash; prevout_n := u32 i |} c in
        let coin := default coinEmpty r in
        disconnect_outputs hash (i + 1) vout (if decide (o = coin.(coin_out)) then fClean else false) c
      else disconnect_outputs hash (i + 1) vout fClean c
  end.

(** The inputs are restored from the last one to the first; the list has them
    in that order, each with its undo record. *)
Fixpoint disconnect_inputs (l : list (CTxIn * Coin)) (fClean : bool) (c : Cache) : option (DisconnectResult * Cache) :=
  match l with
  | [] => Some (if fClean then DISCONNECT_OK else DISCONNECT_UNCLEAN, c)
  | (i, undo) :: l =>
      '(res, c) ← ApplyTxInUndo undo i.(prevout) c;
      if decide (res = DISCONNECT_FAILED) then Some (DISCONNECT_FAILED, c)
      else disconnect_inputs l (fClean && negb (bool_decide (res = DISCONNECT_UNCLEAN))) c
  end.

(** One round of the loop over [vtx]; [undo] is [blockUndo.vtxundo[i - 1]],
    which the first transaction does not have. *)
Definition disconnect_tx (tx : CTransaction) (undo : option (list Coin)) (fClean : bool) (c : Cache) :
    option (DisconnectResult * Cache) :=
  let '(fClean, c) := disconnect_outputs (GetHash tx) 0 tx.(vout) fClean c in
  if IsCoinBase tx || ContainsAssets tx then Some (if fClean then DISCONNECT_OK else DISCONNECT_UNCLEAN, c)
  else
    vprevout ← undo;
    if negb (bool_decide (length vprevout = length tx.(vin))) then Some (DISCONNECT_FAILED, c)
    else disconnect_inputs (reverse (zip tx.(vin) vprevout)) fClean c.

(** The loop over the transactions, given from the last to the first. *)
Fixpoint disconnect_txs (l : list (CTransaction * option (list Coin))) (fClean : bool) (c : Cache) :
    option (DisconnectResult * Cache) :=
  match l with
  | [] => Some (if fClean then DISCONNECT_OK else DISCONNECT_UNCLEAN, c)
  | (tx, undo) :: l =>
      '(res, c) ← disconnect_tx tx undo fClean c;
      if decide (res = DISCONNECT_FAILED) then Some (DISCONNECT_FAILED, c)
      else disconnect_txs l (bool_decide (res = DISCONNECT_OK)) c
  end.

(** The part of [DisconnectBlock] that acts on the view, from the check of the
    undo data on; [prevAnchor] is the anchor of the previous block. *)
Definition disconnect_view (vtx : list CTransaction) (vtxundo : list (list Coin)) (prevAnchor prevHash : base_uint)
    (c : Cache) : option (DisconnectResult * Cache) :=
  if negb (bool_decide (length vtxundo + 1 = length vtx)%nat) then Some (DISCONNECT_FAILED, c)
  else
    '(res, c) ← disconnect_txs (reverse (zip vtx (None :: (Some <$> vtxundo)))) true c;
    if decide (res = DISCONNECT_FAILED) then Some (DISCONNECT_FAILED, c)
    else c ← PopAnchor prevAnchor c; Some (res, SetBestBlock prevHash c).

(** ** The effect on the set *)

Context `{!ViewModel V, !ViewContract V}.

Definition spend_set (l : list COutPoint) (s : UtxoSet) : UtxoSet :=
  {| s_coin o := if decide (o ∈ l) then None else s.(s_coin) o; s_best := s.(s_best);
     s_anchor := s.(s_anchor); s_nullifier := s.(s_nullifier); s_root := s.(s_root) |}.

#[local] Instance spend_set_proper l : Proper ((≡) ==> (≡)) (spend_set l).
Proof. intros s t (?&?&?&?&?). split_and!; cbn; try done. intros o. by case_decide. Qed.

Lemma spend_set_nil s : spend_set [] s ≡ s.
Proof. by split_and!. Qed.

Lemma spend_set_cons o l s : spend_set (o :: l) s ≡ spend_set l (put_coin o None s).
Proof.
  split_and!; cbn; try done. intros o'.
  destruct (decide (o' = o)) as [->|Hne].
  - rewrite (decide_True (P := o ∈ o :: l)) by left. by destruct (decide (o ∈ l)).
  - assert (o' ∈ o :: l ↔ o' ∈ l) as E by (rewrite elem_of_cons; split; [by intros [?|?]|by right]).
    destruct (decide (o' ∈ o :: l)), (decide (o' ∈ l)); tauto.
Qed.

(** The coins that some inputs spend. *)
Definition input_coins (s : UtxoSet) (l : list CTxIn) : list (option Coin) := (λ i, s.(s_coin) i.(prevout)) <$> l.

Lemma input_coins_put o r s l :
  o ∉ prevout <$> l → input_coins (put_coin o r s) l = input_coins s l.
Proof.
  intros Ho. apply list_fmap_ext. intros k i Hi. cbn. rewrite decide_False; [done|]. intros <-.
  apply Ho. apply list_elem_of_fmap. exists i. split; [done|]. by eapply list_elem_of_lookup_2.
Qed.

#[local] Instance input_coins_proper : Proper ((≡) ==> (=) ==> (=)) input_coins.
Proof. intros s t E l ? <-. apply list_fmap_ext. intros k i Hi. apply E. Qed.

Lemma spend_inputs_spec l (c : Cache) :
  cache_inv c → NoDup (prevout <$> l) →
  cache_inv (spend_inputs l c).2 ∧ cache_set (spend_inputs l c).2 ≡ spend_set (prevout <$> l) (cache_set c) ∧
  unspent <$> (spend_inputs l c).1 = input_coins (cache_set c) l.
Proof.
  revert c. induction l as [|i l IH]; intros c Hc Hnd; cbn [spend_inputs fmap list_fmap].
  { split_and!; [done|by rewrite spend_set_nil|done]. }
  apply NoDup_cons in Hnd as [Hi Hnd]. destruct (SpendCoin_spec i.(prevout) c Hc) as (Hc' & Es & Er).
  destruct (SpendCoin (prevout i) c) as [r c']. cbn [fst snd] in *.
  destruct (IH c' Hc' Hnd) as (Hc2 & Es2 & Hu). destruct (spend_inputs l c') as [undo c2]. cbn [fst snd] in *.
  split_and!; [done| |].
  - rewrite Es2, spend_set_cons. by apply spend_set_proper.
  - cbn [fmap list_fmap]. unfold input_coins. cbn [fmap list_fmap]. f_equal; [by destruct r|].
    etrans; [exact Hu|]. rewrite Es. by apply input_coins_put.
Qed.

(** *** Outputs *)

Lemma outputs_cases txid i n o :
  0 <= i → i + Z.of_nat n <= 2 ^ 32 →
  (∃ k : nat, (k < n)%nat ∧ o = outpoint txid (i + Z.of_nat k)) ∨
  (∀ j, i <= j < i + Z.of_nat n → o ≠ outpoint txid j).
Proof.
  intros Hi Hn. destruct o as [h m].
  destruct (decide (h = txid ∧ i <= m < i + Z.of_nat n)) as [[-> Hm]|Hd].
  - left. exists (Z.to_nat (m - i)). split; [lia|]. unfold outpoint. f_equal.
    rewrite u32_id; [lia|unfold is_u32; lia].
  - right. intros j Hj [= -> ->]. apply Hd. split; [done|]. rewrite u32_id; [lia|unfold is_u32; lia].
Qed.

(** What [disconnect_outputs] leaves. *)
Fixpoint remove_outputs (txid : base_uint) (i : Z) (vout : list CTxOut) (s : UtxoSet) : UtxoSet :=
  match vout with
  | [] => s
  | o :: vout =>
      remove_outputs txid (i + 1) vout
        (if IsUnspendable o.(scriptPubKey) then s else put_coin (outpoint txid i) None s)
  end.

#[local] Instance remove_outputs_proper txid i vout : Proper ((≡) ==> (≡)) (remove_outputs txid i vout).
Proof.
  revert i. induction vout as [|o vout IH]; intros i s t E; [done|]. cbn. apply IH. by case_match; rewrite ?E.
Qed.

Lemma remove_outputs_other txid i vout s o :
  0 <= i → i + Z.of_nat (length vout) <= 2 ^ 32 →
  (∀ k, i <= k < i + Z.of_nat (length vout) → o ≠ outpoint txid k) →
  s_coin (remove_outputs txid i vout s) o = s_coin s o.
Proof.
  revert i s. induction vout as [|x vout IH]; intros i s Hi Hl Ho; [done|]. cbn [remove_outputs length] in *.
  rewrite IH by (try lia; intros k Hk; apply Ho; lia).
  case_match; cbn; try rewrite decide_False by (apply Ho; lia); done.
Qed.

Lemma remove_outputs_at txid i vout s k o :
  0 <= i → i + Z.of_nat (length vout) <= 2 ^ 32 → vout !! k = Some o →
  s_coin (remove_outputs txid i vout s) (outpoint txid (i + Z.of_nat k)) =
    if IsUnspendable o.(scriptPubKey) then s_coin s (outpoint txid (i + Z.of_nat k)) else None.
Proof.
  revert i s k. induction vout as [|x vout IH]; intros i s k Hi Hl Hk; [done|]. cbn [remove_outputs length] in *.
  destruct k as [|k]; cbn in Hk.
  - injection Hk as ->. replace (i + Z.of_nat 0) with i by lia. rewrite remove_outputs_other; [|lia..|].
    + case_match; cbn; rewrite ?decide_True by done; done.
    + intros j Hj E. apply outpoint_inj in E; [lia|unfold is_u32; lia..].
  - replace (i + Z.of_nat (S k)) with (i + 1 + Z.of_nat k) by lia. rewrite (IH (i + 1)) by (try lia; done).
    pose proof (lookup_lt_Some _ _ _ Hk).
    assert (outpoint txid (i + 1 + Z.of_nat k) ≠ outpoint txid i) as Hne.
    { intros E. apply outpoint_inj in E; [lia|unfold is_u32; lia..]. }
    repeat case_match; cbn; rewrite ?decide_False by done; done.
Qed.

(** Both change the coins only. *)
Definition other_parts (s : UtxoSet) := (s.(s_best), s.(s_anchor), s.(s_nullifier), s.(s_root)).

Lemma put_outputs_parts txid coin skip i vout s :
  other_parts (put_outputs invalid txid coin skip i vout s) = other_parts s.
Proof. revert i s. induction vout as [|o vout IH]; intros i s; [done|]. cbn. rewrite IH. by repeat case_match. Qed.

Lemma remove_outputs_parts txid i vout s : other_parts (remove_outputs txid i vout s) = other_parts s.
Proof. revert i s. induction vout as [|o vout IH]; intros i s; [done|]. cbn. rewrite IH. by repeat case_match. Qed.

Lemma coins_equiv s t : (∀ o, s_coin s o = s_coin t o) → other_parts s = other_parts t → s ≡ t.
Proof. intros Hc [= E1 E2 E3 E4]. split_and!; [done|done|by rewrite E2|by rewrite E3|done]. Qed.

(** The outputs that are new, and of which none is banned. *)
Definition new_outputs (skip : bool) (txid : base_uint) (n : nat) (s : UtxoSet) : Prop :=
  ∀ k : nat, (k < n)%nat →
    s.(s_coin) (outpoint txid (Z.of_nat k)) = None ∧ skip && invalid (outpoint txid (Z.of_nat k)) = false.

Lemma remove_put_outputs txid coin skip vout s :
  Z.of_nat (length vout) <= 2 ^ 32 → new_outputs skip txid (length vout) s →
  remove_outputs txid 0 vout (put_outputs invalid txid coin skip 0 vout s) ≡ s.
Proof.
  intros Hl Hnew. apply coins_equiv; [|by rewrite remove_outputs_parts, put_outputs_parts].
  intros o. destruct (outputs_cases txid 0 (length vout) o) as [(k & Hk & ->)|Ho]; [lia|lia| |].
  - destruct (lookup_lt_is_Some_2 vout k Hk) as [x Hx].
    rewrite (remove_outputs_at _ _ _ _ _ x), (put_outputs_at _ _ _ _ _ _ _ _ x) by (lia || done).
    destruct (Hnew k Hk) as [E1 E2]. rewrite Z.add_0_l in *. rewrite E1, E2. by destruct (IsUnspendable (scriptPubKey x)).
  - by rewrite remove_outputs_other, put_outputs_other by (lia || done).
Qed.

(** [disconnect_outputs] is clean when the outputs are there. *)
Lemma disconnect_outputs_spec txid coin i vout (c : Cache) :
  cache_inv c → 0 <= i → i + Z.of_nat (length vout) <= 2 ^ 32 → (∀ o, coin_out (coin o) = o) →
  (∀ k o, vout !! k = Some o → IsUnspendable o.(scriptPubKey) = false →
     s_coin (cache_set c) (outpoint txid (i + Z.of_nat k)) = Some (coin o)) →
  (disconnect_outputs txid i vout true c).1 = true ∧ cache_inv (disconnect_outputs txid i vout true c).2 ∧
  cache_set (disconnect_outputs txid i vout true c).2 ≡ remove_outputs txid i vout (cache_set c).
Proof.
  revert i c. induction vout as [|o vout IH]; intros i c Hc Hi Hl Hcoin Hout; [done|].
  cbn [disconnect_outputs remove_outputs length] in *. fold (outpoint txid i).
  assert (∀ k x, vout !! k = Some x → IsUnspendable x.(scriptPubKey) = false →
     s_coin (cache_set c) (outpoint txid (i + 1 + Z.of_nat k)) = Some (coin x)) as Hout'.
  { intros k x Hk Hu. replace (i + 1 + Z.of_nat k) with (i + Z.of_nat (S k)) by lia. by apply Hout. }
  destruct (IsUnspendable (scriptPubKey o)) eqn:Hu; cbn [negb].
  { apply IH; (done || lia). }
  destruct (SpendCoin_spec (outpoint txid i) c Hc) as (Hc' & Es & Er).
  destruct (SpendCoin (outpoint txid i) c) as [r c']. cbn [fst snd] in *.
  specialize (Hout 0%nat o eq_refl Hu). replace (i + Z.of_nat 0) with i in Hout by lia. rewrite Hout in Er.
  destruct r as [u|]; [|done]. cbn in Er. unfold unspent in Er. destruct (IsSpent u); [done|]. injection Er as ->.
  cbn [from_option id]. rewrite decide_True by by rewrite Hcoin.
  destruct (IH (i + 1) c' Hc') as (E1 & E2 & E3); [lia|lia|done| |].
  { intros k x Hk Hux. rewrite Es. cbn. rewrite decide_False; [by apply Hout'|]. intros E.
    pose proof (lookup_lt_Some _ _ _ Hk). apply outpoint_inj in E; [lia|unfold is_u32; lia..]. }
  split_and!; [done|done|]. by rewrite E3, Es.
Qed.

(** *** Inputs *)

Definition restore (l : list (CTxIn * Coin)) (s : UtxoSet) : UtxoSet :=
  fold_left (λ s p, put_coin (prevout p.1) (Some p.2) s) l s.

#[local] Instance restore_proper l : Proper ((≡) ==> (≡)) (restore l).
Proof. induction l as [|p l IH]; intros s t E; [done|]. cbn. apply IH. by rewrite E. Qed.

Lemma restore_other l s o : o ∉ prevout <$> l.*1 → s_coin (restore l s) o = s_coin s o.
Proof.
  revert s. induction l as [|[i u] l IH]; intros s Ho; [done|]. cbn in *. rewrite not_elem_of_cons in Ho.
  destruct Ho as [Ho1 Ho2]. rewrite IH by done. cbn. by rewrite decide_False.
Qed.

Lemma restore_at l s i u :
  NoDup (prevout <$> l.*1) → (i, u) ∈ l → s_coin (restore l s) i.(prevout) = Some u.
Proof.
  revert s. induction l as [|[j v] l IH]; intros s Hnd Hin; cbn in *; [by apply elem_of_nil in Hin|].
  apply NoDup_cons in Hnd as [Hj Hnd]. apply elem_of_cons in Hin as [[= -> ->]|Hin]; [|by apply IH].
  rewrite restore_other by done. cbn. by rewrite decide_True.
Qed.

Lemma restore_parts l s : other_parts (restore l s) = other_parts s.
Proof. revert s. induction l as [|p l IH]; intros s; [done|]. cbn. by rewrite IH. Qed.

(** An undo record that [ApplyTxInUndo] can use. *)
Definition undo_ok (u : Coin) : Prop :=
  IsSpent u = false ∧ u.(coin_nHeight) ≠ 0 ∧ IsUnspendable u.(coin_out).(scriptPubKey) = false.

Lemma ApplyTxInUndo_spec u o (c : Cache) :
  cache_inv c → s_coin (cache_set c) o = None → undo_ok u →
  ∃ c', ApplyTxInUndo u o c = Some (DISCONNECT_OK, c') ∧ cache_inv c' ∧
    cache_set c' ≡ put_coin o (Some u) (cache_set c).
Proof.
  intros Hc Ho (Hu & Hh & Hs). unfold ApplyTxInUndo. destruct (cache_HaveCoin o c Hc) as (Hc' & Es & Eb).
  destruct (HaveCoin o c) as [b c']. cbn [fst snd] in *. change (v_set c) with (cache_set c) in *.
  change (v_set c') with (cache_set c') in *. rewrite Ho in Eb. cbn in Eb. subst b.
  destruct (Z.eqb_spec (coin_nHeight u) 0); [done|]. cbn [negb].
  destruct (AddCoin_spec o u false c' Hc' Hu) as (c2 & -> & Hc2 & Es2); [intros _; by rewrite Es|].
  eexists. split; [done|]. split; [done|]. rewrite Hs in Es2. by rewrite Es2, Es.
Qed.

Lemma disconnect_inputs_spec l (c : Cache) :
  cache_inv c → NoDup (prevout <$> l.*1) → (∀ i u, (i, u) ∈ l → s_coin (cache_set c) i.(prevout) = None ∧ undo_ok u) →
  ∃ c', disconnect_inputs l true c = Some (DISCONNECT_OK, c') ∧ cache_inv c' ∧ cache_set c' ≡ restore l (cache_set c).
Proof.
  revert c. induction l as [|[i u] l IH]; intros c Hc Hnd Hl; [by eexists|]. cbn in Hnd.
  apply NoDup_cons in Hnd as [Hi Hnd]. destruct (Hl i u) as [Ho Hu]; [left|].
  destruct (ApplyTxInUndo_spec u i.(prevout) c Hc Ho Hu) as (c1 & E1 & Hc1 & Es1). cbn [disconnect_inputs].
  rewrite E1. cbn [mbind option_bind]. rewrite decide_False by done.
  change (true && negb (bool_decide (DISCONNECT_OK = DISCONNECT_UNCLEAN))) with true.
  destruct (IH c1 Hc1 Hnd) as (c2 & E2 & Hc2 & Es2).
  { intros j v Hin. destruct (Hl j v) as [Hj Hv]; [by right|]. split; [|done]. rewrite Es1. cbn.
    rewrite decide_False; [done|]. intros E. apply Hi. rewrite <- E. apply list_elem_of_fmap. exists j.
    split; [done|]. apply list_elem_of_fmap. by exists (j, v). }
  exists c2. split_and!; [done|done|]. rewrite Es2. cbn. by rewrite Es1.
Qed.

(** Spending some coins and restoring them. *)
Lemma restore_spend_set vin undo s :
  NoDup (prevout <$> vin) → unspent <$> undo = input_coins s vin → Forall is_Some (input_coins s vin) →
  restore (reverse (zip vin undo)) (spend_set (prevout <$> vin) s) ≡ s.
Proof.
  intros Hnd Hu Hin. apply coins_equiv; [|by rewrite restore_parts].
  assert (length undo = length vin) as Hlen.
  { apply (f_equal length) in Hu. unfold input_coins in Hu. by rewrite !length_fmap in Hu. }
  assert ((zip vin undo).*1 = vin) as Hfst by (apply fst_zip; lia).
  assert (prevout <$> (reverse (zip vin undo)).*1 = reverse (prevout <$> vin)) as Hkeys.
  { by rewrite fmap_reverse, Hfst, fmap_reverse. }
  intros o. destruct (decide (o ∈ prevout <$> vin)) as [Ho|Ho].
  - apply list_elem_of_fmap in Ho as (i & -> & Hi). apply list_elem_of_lookup in Hi as [k Hk].
    destruct (lookup_lt_is_Some_2 undo k) as [u Hk']; [rewrite Hlen; by eapply lookup_lt_Some|].
    rewrite (restore_at _ _ i u).
    + pose proof (f_equal (lookup k) Hu) as E. unfold input_coins in E. rewrite !list_lookup_fmap, Hk, Hk' in E.
      cbn in E. injection E as E. rewrite <- E. rewrite Forall_lookup in Hin.
      destruct (Hin k (unspent u)) as [x Hx]; [unfold input_coins; rewrite list_lookup_fmap, Hk; cbn; by rewrite E|].
      unfold unspent in *. by destruct (IsSpent u).
    + rewrite Hkeys. by rewrite reverse_Permutation.
    + apply elem_of_reverse. apply list_elem_of_lookup. exists k. rewrite lookup_zip_with. by rewrite Hk, Hk'.
  - rewrite restore_other; [cbn; by rewrite decide_False|]. by rewrite Hkeys, elem_of_reverse.
Qed.

(** *** Transactions and blocks *)

(** No stored coin has an unspendable script. *)
Definition spendable_set (s : UtxoSet) : Prop :=
  ∀ o c, s.(s_coin) o = Some c → IsUnspendable c.(coin_out).(scriptPubKey) = false.

Definition spends_coins (tx : CTransaction) : bool := negb (IsCoinBase tx) && negb (ContainsAssets tx).

Definition connect_set (nHeight : Z) (skip : bool) (tx : CTransaction) (s : UtxoSet) : UtxoSet :=
  put_outputs invalid (GetHash tx) (out_coin (IsCoinBase tx) (IsCoinStake tx) nHeight) skip 0 tx.(vout)
    (if spends_coins tx then spend_set (prevout <$> tx.(vin)) s else s).

(** What the checks of a block establish: the outputs are well-formed and new,
    and the inputs are distinct coins of the set, with their metadata. *)
Definition tx_connects (skip : bool) (s : UtxoSet) (tx : CTransaction) : Prop :=
  Z.of_nat (length tx.(vout)) <= 2 ^ 32 ∧ Forall (λ o, TxOut_IsNull o = false) tx.(vout) ∧
  new_outputs skip (GetHash tx) (length tx.(vout)) s ∧
  (spends_coins tx = true →
     NoDup (prevout <$> tx.(vin)) ∧
     Forall (λ i, ∃ c, s.(s_coin) i.(prevout) = Some c ∧ c.(coin_nHeight) ≠ 0) tx.(vin)).

Fixpoint block_connects (nHeight : Z) (skip : bool) (s : UtxoSet) (vtx : list CTransaction) : Prop :=
  match vtx with
  | [] => True
  | tx :: vtx => tx_connects skip s tx ∧ block_connects nHeight skip (connect_set nHeight skip tx s) vtx
  end.

#[local] Instance connect_set_proper nHeight skip tx : Proper ((≡) ==> (≡)) (connect_set nHeight skip tx).
Proof. intros s t E. unfold connect_set. case_match; by rewrite E. Qed.

#[local] Instance spendable_set_proper : Proper ((≡) ==> iff) spendable_set.
Proof. intros s t E. unfold spendable_set. split; intros Hs o c Ho; apply (Hs o c); by rewrite <- Ho, E. Qed.

Lemma block_connects_equiv nHeight skip s t vtx :
  s ≡ t → block_connects nHeight skip s vtx → block_connects nHeight skip t vtx.
Proof.
  revert s t. induction vtx as [|tx vtx IH]; intros s t E; [done|]. cbn. intros [(H1 & H2 & H3 & H4) Hb].
  split; [|eapply IH; [|exact Hb]; by rewrite E]. split_and!; [done|done| |].
  - intros k Hk. rewrite <- E. by apply H3.
  - intros Hsp. destruct (H4 Hsp) as [Hnd Hf]. split; [done|]. eapply Forall_impl; [exact Hf|]. cbn.
    intros i (c & Hi & Hh). exists c. by rewrite <- E.
Qed.

Lemma connect_set_spendable nHeight skip tx s :
  Z.of_nat (length tx.(vout)) <= 2 ^ 32 → spendable_set s → spendable_set (connect_set nHeight skip tx s).
Proof.
  intros Hl Hs o c. unfold connect_set. set (s0 := if spends_coins tx then _ else s).
  assert (spendable_set s0) as Hs0.
  { subst s0. destruct (spends_coins tx); [|done]. intros o' c'. cbn. case_decide; [done|apply Hs]. }
  destruct (outputs_cases (GetHash tx) 0 (length tx.(vout)) o) as [(k & Hk & ->)|Ho]; [lia|lia| |].
  - destruct (lookup_lt_is_Some_2 _ k Hk) as [x Hx]. rewrite (put_outputs_at _ _ _ _ _ _ _ _ x) by (lia || done).
    case_match; [done|]. destruct (IsUnspendable (scriptPubKey x)) eqn:Hu; [by apply Hs0|]. by intros [= <-].
  - rewrite put_outputs_other by (lia || done). apply Hs0.
Qed.

Lemma new_outputs_spent skip txid n l s : new_outputs skip txid n s → new_outputs skip txid n (spend_set l s).
Proof. intros Hn k Hk. destruct (Hn k Hk) as [E1 E2]. split; [|done]. cbn. by case_decide. Qed.

Lemma UpdateCoins_spec nHeight skip tx (c : Cache) :
  cache_inv c → tx_connects skip (cache_set c) tx →
  ∃ undo c', UpdateCoins tx nHeight skip c = Some (undo, c') ∧ cache_inv c' ∧
    cache_set c' ≡ connect_set nHeight skip tx (cache_set c) ∧
    (spends_coins tx = true → unspent <$> undo = input_coins (cache_set c) tx.(vin)).
Proof.
  intros Hc (Hl & Hnull & Hnew & Hin). unfold UpdateCoins. fold (spends_coins tx).
  assert (∃ undo c1, (if spends_coins tx then spend_inputs tx.(vin) c else ([], c)) = (undo, c1) ∧ cache_inv c1 ∧
    cache_set c1 ≡ (if spends_coins tx then spend_set (prevout <$> tx.(vin)) (cache_set c) else cache_set c) ∧
    (spends_coins tx = true → unspent <$> undo = input_coins (cache_set c) tx.(vin))) as (undo & c1 & -> & Hc1 & Es1 & Hu).
  { destruct (spends_coins tx); [|by eexists _, _].
    destruct (Hin eq_refl) as [Hnd _]. destruct (spend_inputs_spec tx.(vin) c Hc Hnd) as (?&?&?).
    destruct (spend_inputs (vin tx) c) as [undo c1]. exists undo, c1. by split_and!. }
  destruct (AddCoins_loop_spec invalid (GetHash tx) (IsCoinBase tx) (IsCoinStake tx) nHeight false skip 0 tx.(vout) c1)
    as (c2 & E2 & Hc2 & Es2); [done|lia|lia|done| |].
  { right. intros k Hk. rewrite Es1.
    assert (new_outputs skip (GetHash tx) (length (vout tx))
              (if spends_coins tx then spend_set (prevout <$> tx.(vin)) (cache_set c) else cache_set c)) as Hn.
    { destruct (spends_coins tx); [by apply new_outputs_spent|done]. }
    destruct (Hn (Z.to_nat k)) as [E _]; [lia|]. by rewrite Z2Nat.id in E by lia. }
  unfold AddCoins. rewrite E2. cbn. eexists _, _. split; [done|]. split_and!; [done| |done].
  rewrite Es2. unfold connect_set. by apply put_outputs_proper.
Qed.

(** The undo records of a connected transaction are usable. *)
Lemma undo_records_ok s vin undo :
  spendable_set s → unspent <$> undo = input_coins s vin →
  Forall (λ i, ∃ c, s.(s_coin) i.(prevout) = Some c ∧ c.(coin_nHeight) ≠ 0) vin →
  Forall undo_ok undo.
Proof.
  intros Hs Hu Hin. apply Forall_lookup. intros k u Hk.
  destruct (vin !! k) as [i|] eqn:Hi.
  - pose proof (f_equal (lookup k) Hu) as E. unfold input_coins in E. rewrite !list_lookup_fmap, Hk, Hi in E.
    cbn in E. injection E as E. rewrite Forall_lookup in Hin. destruct (Hin k i Hi) as (c & Hc & Hh).
    rewrite Hc in E. unfold unspent in E. destruct (IsSpent u) eqn:Hsp; [done|]. injection E as ->.
    split_and!; [done|done|by eapply Hs].
  - apply (f_equal length) in Hu. unfold input_coins in Hu. rewrite !length_fmap in Hu.
    apply lookup_lt_Some in Hk. apply lookup_ge_None in Hi. lia.
Qed.

Lemma disconnect_tx_spec nHeight skip tx undo uo s (c : Cache) :
  cache_inv c → tx_connects skip s tx → spendable_set s → cache_set c ≡ connect_set nHeight skip tx s →
  (spends_coins tx = true → unspent <$> undo = input_coins s tx.(vin) ∧ uo = Some undo) →
  ∃ c', disconnect_tx tx uo true c = Some (DISCONNECT_OK, c') ∧ cache_inv c' ∧ cache_set c' ≡ s.
Proof.
  intros Hc (Hl & Hnull & Hnew & Hin) Hs Es Hundo. unfold disconnect_tx.
  set (s0 := if spends_coins tx then spend_set (prevout <$> tx.(vin)) s else s).
  set (coin := out_coin (IsCoinBase tx) (IsCoinStake tx) nHeight).
  assert (new_outputs skip (GetHash tx) (length (vout tx)) s0) as Hn.
  { subst s0. destruct (spends_coins tx); [by apply new_outputs_spent|done]. }
  assert (cache_set c ≡ put_outputs invalid (GetHash tx) coin skip 0 tx.(vout) s0) as Es' by exact Es.
  destruct (disconnect_outputs_spec (GetHash tx) coin 0 tx.(vout) c Hc) as (E1 & Hc1 & Es1); [lia|lia|done| |].
  { intros k o Hk Hu. rewrite Es', (put_outputs_at _ _ _ _ _ _ _ _ o) by (lia || done). rewrite Hu, Z.add_0_l.
    destruct (Hn k) as [_ ->]; [by eapply lookup_lt_Some|done]. }
  destruct (disconnect_outputs (GetHash tx) 0 (vout tx) true c) as [fClean c1]. cbn [fst snd] in *. subst fClean.
  rewrite Es', remove_put_outputs in Es1 by (lia || done).
  destruct (IsCoinBase tx || ContainsAssets tx) eqn:Ecb.
  { eexists. split; [done|]. split; [done|]. subst s0. unfold spends_coins in Es1.
    by rewrite <- negb_orb, Ecb in Es1. }
  assert (spends_coins tx = true) as Esp by (unfold spends_coins; by rewrite <- negb_orb, Ecb).
  destruct (Hundo Esp) as [Hu ->]. destruct (Hin Esp) as [Hnd Hcoins]. subst s0. rewrite Esp in Es1.
  assert (length undo = length (vin tx)) as Hlen.
  { apply (f_equal length) in Hu. unfold input_coins in Hu. by rewrite !length_fmap in Hu. }
  cbn [mbind option_bind]. rewrite bool_decide_eq_true_2 by done. cbn [negb].
  pose proof (undo_records_ok s _ _ Hs Hu Hcoins) as Hok. rewrite Forall_lookup in Hok.
  destruct (disconnect_inputs_spec (reverse (zip (vin tx) undo)) c1 Hc1) as (c2 & E2 & Hc2 & Es2).
  - rewrite fmap_reverse, fst_zip, fmap_reverse by lia. by rewrite reverse_Permutation.
  - intros i u Hiu. rewrite elem_of_reverse, list_elem_of_lookup in Hiu. destruct Hiu as [k Hk].
    rewrite lookup_zip_with in Hk. destruct (vin tx !! k) as [i'|] eqn:Hi; [|done]. cbn in Hk.
    destruct (undo !! k) as [u'|] eqn:Hu'; [|done]. cbn in Hk. injection Hk as -> ->. split; [|by eapply Hok].
    rewrite Es1. cbn. rewrite decide_True; [done|]. apply list_elem_of_fmap. exists i. split; [done|].
    by eapply list_elem_of_lookup_2.
  - exists c2. split_and!; [done|done|]. rewrite Es2, Es1. apply restore_spend_set; [done|done|].
    apply Forall_fmap. eapply Forall_impl; [exact Hcoins|]. cbn. intros i (x & -> & _). done.
Qed.

Lemma disconnect_txs_app l1 l2 (c c1 : Cache) :
  disconnect_txs l1 true c = Some (DISCONNECT_OK, c1) →
  disconnect_txs (l1 ++ l2) true c = disconnect_txs l2 true c1.
Proof.
  revert c. cut (∀ b c, disconnect_txs l1 b c = Some (DISCONNECT_OK, c1) → (l1 = [] → b = true) →
    disconnect_txs (l1 ++ l2) b c = disconnect_txs l2 true c1); [eauto|].
  induction l1 as [|[tx u] l1 IH]; intros b c E Hb; cbn in *.
  { rewrite (Hb eq_refl) in *. by injection E as ->. }
  destruct (disconnect_tx tx u b c) as [[res c']|]; [|done]. cbn in *.
  destruct (decide (res = DISCONNECT_FAILED)); [by subst|]. apply IH; [done|]. intros ->. cbn in E.
  by destruct (bool_decide (res = DISCONNECT_OK)).
Qed.

(** The coins of one set with the rest of another. *)
Definition with_coins (t s : UtxoSet) : UtxoSet :=
  {| s_coin := s.(s_coin); s_best := t.(s_best); s_anchor := t.(s_anchor); s_nullifier := t.(s_nullifier);
     s_root := t.(s_root) |}.

#[local] Instance with_coins_proper : Proper ((≡) ==> (≡) ==> (≡)) with_coins.
Proof. intros s t (?&?&?&?&?) s' t' (?&?&?&?&?). by split_and!. Qed.

Lemma put_outputs_coins txid coin skip i vout s t :
  (∀ o, s_coin s o = s_coin t o) →
  ∀ o, s_coin (put_outputs invalid txid coin skip i vout s) o = s_coin (put_outputs invalid txid coin skip i vout t) o.
Proof.
  revert i s t. induction vout as [|x vout IH]; intros i s t E o; [apply E|]. cbn. apply IH. intros o'.
  repeat case_match; cbn; rewrite ?E; done.
Qed.

Lemma connect_set_parts nHeight skip tx s : other_parts (connect_set nHeight skip tx s) = other_parts s.
Proof. unfold connect_set. rewrite put_outputs_parts. by case_match. Qed.

Lemma connect_set_with_coins nHeight skip tx t s :
  connect_set nHeight skip tx (with_coins t s) ≡ with_coins t (connect_set nHeight skip tx s).
Proof.
  apply coins_equiv.
  - unfold connect_set, with_coins. cbn [s_coin]. apply put_outputs_coins. intros o. by case_match.
  - by rewrite connect_set_parts.
Qed.

Definition connect_sets (nHeight : Z) (skip : bool) (vtx : list CTransaction) (s : UtxoSet) : UtxoSet :=
  fold_left (λ s tx, connect_set nHeight skip tx s) vtx s.

#[local] Instance connect_sets_proper nHeight skip vtx : Proper ((≡) ==> (≡)) (connect_sets nHeight skip vtx).
Proof. induction vtx as [|tx vtx IH]; intros s t E; [done|]. cbn. apply IH. by rewrite E. Qed.

Lemma connect_sets_parts nHeight skip vtx s : other_parts (connect_sets nHeight skip vtx s) = other_parts s.
Proof.
  revert s. induction vtx as [|tx vtx IH]; intros s; [done|].
  change (other_parts (connect_sets nHeight skip vtx (connect_set nHeight skip tx s)) = other_parts s).
  by rewrite IH, connect_set_parts.
Qed.

(** Undoing one transaction, whatever happened to the other parts of the view. *)
Lemma disconnect_tx_coins nHeight skip tx undo uo s (c : Cache) :
  cache_inv c → tx_connects skip s tx → spendable_set s →
  (∀ o, s_coin (cache_set c) o = s_coin (connect_set nHeight skip tx s) o) →
  (spends_coins tx = true → unspent <$> undo = input_coins s tx.(vin) ∧ uo = Some undo) →
  ∃ c', disconnect_tx tx uo true c = Some (DISCONNECT_OK, c') ∧ cache_inv c' ∧
    cache_set c' ≡ with_coins (cache_set c) s.
Proof.
  intros Hc Htx Hs Es Hu. apply (disconnect_tx_spec nHeight skip tx undo); try done.
  rewrite connect_set_with_coins. by apply coins_equiv.
Qed.

Lemma connect_rest_spec nHeight skip vtx (c : Cache) :
  cache_inv c → spendable_set (cache_set c) → block_connects nHeight skip (cache_set c) vtx →
  ∃ vtxundo c1, connect_rest vtx nHeight skip c = Some (vtxundo, c1) ∧ cache_inv c1 ∧ length vtxundo = length vtx ∧
    cache_set c1 ≡ connect_sets nHeight skip vtx (cache_set c) ∧
    ∀ c1', cache_inv c1' → (∀ o, s_coin (cache_set c1') o = s_coin (cache_set c1) o) →
    ∃ c2, disconnect_txs (reverse (zip vtx (Some <$> vtxundo))) true c1' = Some (DISCONNECT_OK, c2) ∧ cache_inv c2 ∧
      cache_set c2 ≡ with_coins (cache_set c1') (cache_set c).
Proof.
  revert c. induction vtx as [|tx vtx IH]; intros c Hc Hs Hb; cbn [connect_rest].
  { eexists [], c. split_and!; [done..|]. intros c1' ? E. exists c1'. split_and!; [done|done|]. by apply coins_equiv. }
  destruct Hb as [Htx Hb]. destruct (UpdateCoins_spec nHeight skip tx c Hc Htx) as (undo & c1 & -> & Hc1 & Es1 & Hu).
  cbn [mbind option_bind]. destruct (IH c1 Hc1) as (vtxundo & c2 & -> & Hc2 & Hlen & Es2 & Hdis).
  { rewrite Es1. apply connect_set_spendable; [apply Htx|done]. }
  { by eapply block_connects_equiv. }
  eexists (undo :: vtxundo), c2. split_and!; [done|done|cbn; by rewrite Hlen| |].
  { etrans; [exact Es2|]. cbn. by rewrite Es1. }
  intros c1' Hc1' Es'. cbn [fmap list_fmap zip zip_with]. rewrite reverse_cons.
  destruct (Hdis c1' Hc1' Es') as (c3 & E3 & Hc3 & Es3).
  rewrite (disconnect_txs_app _ _ _ _ E3). cbn [disconnect_txs].
  destruct (disconnect_tx_coins nHeight skip tx undo (Some undo) (cache_set c) c3 Hc3 Htx Hs) as (c4 & E4 & Hc4 & Es4).
  { intros o. rewrite Es3. cbn. apply Es1. }
  { intros Hsp. split; [by apply Hu|done]. }
  rewrite E4. cbn. exists c4. split_and!; [done|done|]. rewrite Es4, Es3. done.
Qed.

(** *** The anchor *)

Definition push_set (tree : Tree) (s : UtxoSet) : UtxoSet :=
  if decide (s.(s_root) = root tree) then s else put_anchor (root tree) true (root tree) s.

Lemma push_set_root tree s : s_root (push_set tree s) = root tree.
Proof. unfold push_set. by case_decide. Qed.

Lemma push_set_coins tree s o : s_coin (push_set tree s) o = s_coin s o.
Proof. unfold push_set. by case_decide. Qed.

Lemma push_set_equiv tree s t : s ≡ t → push_set tree s ≡ push_set tree t.
Proof.
  intros E. unfold push_set. rewrite (s_root_proper _ _ E). case_decide; by rewrite E.
Qed.

Lemma push_set_with_coins tree t s : with_coins (push_set tree t) s ≡ push_set tree (with_coins t s).
Proof. unfold push_set. cbn. by case_decide. Qed.

(** A new anchor is pushed and popped again, with other work in between. *)
Lemma pop_pushed_anchor tree s (c : Cache) :
  cache_inv c → cache_set c ≡ push_set tree s →
  s_anchor s (s_root s) = true → s_anchor s empty_root = true → uint_IsNull (s_root s) = false →
  (root tree = s_root s ∨ s_anchor s (root tree) = false) →
  ∃ c', PopAnchor (s_root s) c = Some c' ∧ cache_inv c' ∧ cache_set c' ≡ s.
Proof.
  intros Hc Es Ha He Hn Htree.
  assert (s_root (cache_set c) = root tree) as Er by by rewrite Es, push_set_root.
  destruct (PopAnchor_spec (s_root s) c Hc Hn) as (c' & E & Hc' & Es').
  - rewrite Er, Es. unfold push_set. case_decide; [congruence|]. cbn. by rewrite decide_True.
  - rewrite Er. intros E. destruct Htree as [<-|Hf]; [done|]. congruence.
  - exists c'. split_and!; [done|done|]. etrans; [exact Es'|]. rewrite Er. unfold push_set in Es.
    destruct (decide (root tree = s_root s)) as [E'|E'].
    + by rewrite decide_True in Es.
    + rewrite decide_False in Es by done. destruct Htree as [|Hf]; [done|]. rewrite Es.
      split_and!; cbn; try done. intros r. repeat case_decide; congruence.
Qed.

(** C1: Connecting a block and disconnecting it restores the unspent outputs.
    If every transaction of a block connects (its outputs are new, not banned
    and not null, and, unless it is a coinbase or carries assets, its inputs
    are distinct coins with a known height), then [ConnectBlock] updates the
    view without an exception and produces undo data with which
    [DisconnectBlock] reports [DISCONNECT_OK] and leaves the view with exactly
    the coins, anchors and nullifiers that it had before the block, also when
    transactions of the block spend outputs of each other and whatever was
    flushed in between. *)
Theorem connect_then_disconnect_restores nHeight skip tx vtx tree prevHash (c : Cache) :
  let s := cache_set c in
  cache_inv c → spendable_set s → spends_coins tx = false → block_connects nHeight skip s (tx :: vtx) →
  s_anchor s (s_root s) = true → uint_IsNull (s_root s) = false → uint_IsNull prevHash = false →
  uint_IsNull (root tree) = false → (root tree = s_root s ∨ s_anchor s (root tree) = false) →
  ∃ vtxundo c1, connect_view (tx :: vtx) nHeight skip tree c = Some (vtxundo, c1) ∧ cache_inv c1 ∧
    s_root (cache_set c1) = root tree ∧
    (∀ o, s_coin (cache_set c1) o = s_coin (connect_sets nHeight skip (tx :: vtx) s) o) ∧
    ∀ c1', cache_inv c1' → cache_set c1' ≡ cache_set c1 →
    ∃ c2, disconnect_view (tx :: vtx) vtxundo (s_root s) prevHash c1' = Some (DISCONNECT_OK, c2) ∧ cache_inv c2 ∧
      cache_set c2 ≡ put_best prevHash s.
Proof.
  cbn zeta. intros Hc Hs Hcb [Htx Hb] Hanchor Hna Hnh Hnt Htree. unfold connect_view.
  destruct (UpdateCoins_spec nHeight skip tx c Hc Htx) as (undo & c1 & -> & Hc1 & Es1 & _). cbn [mbind option_bind].
  destruct (connect_rest_spec nHeight skip vtx c1 Hc1) as (vtxundo & c2 & -> & Hc2 & Hlen & Es2 & Hdis).
  { rewrite Es1. apply connect_set_spendable; [apply Htx|done]. }
  { by eapply block_connects_equiv. }
  rewrite Es1 in Es2. destruct (PushAnchor_spec tree c2 Hc2 Hnt) as [Hc3 Es3]. fold (push_set tree (cache_set c2)) in Es3.
  set (s := cache_set c) in *.
  assert (cache_set c2 ≡ with_coins s (connect_sets nHeight skip (tx :: vtx) s)) as Es2'.
  { rewrite Es2. apply coins_equiv; [done|]. apply (connect_sets_parts nHeight skip (tx :: vtx) s). }
  rewrite (push_set_equiv tree _ _ Es2') in Es3.
  eexists vtxundo, (PushAnchor tree c2). split; [done|]. split; [done|]. split; [by rewrite Es3, push_set_root|].
  split; [intros o; by rewrite Es3, push_set_coins|]. intros c3 Hc3' Es3'. rewrite Es3 in Es3'.
  unfold disconnect_view. rewrite bool_decide_eq_true_2 by (cbn; lia). cbn [negb zip zip_with].
  rewrite reverse_cons. destruct (Hdis c3 Hc3') as (c4 & E4 & Hc4 & Es4).
  { intros o. by rewrite Es3', push_set_coins, Es2'. }
  rewrite (disconnect_txs_app _ _ _ _ E4). cbn [disconnect_txs].
  destruct (disconnect_tx_coins nHeight skip tx [] None s c4 Hc4 Htx Hs) as (c5 & -> & Hc5 & Es5).
  { intros o. rewrite Es4. cbn. apply Es1. }
  { by rewrite Hcb. }
  cbn [mbind option_bind]. rewrite decide_False by done. cbn [bool_decide]. rewrite bool_decide_eq_true_2 by done.
  destruct (pop_pushed_anchor tree s c5) as (c6 & E6 & Hc6 & Es6); [done| |done|by apply cache_empty_root|done|done|].
  { rewrite Es5, Es4, Es3'. rewrite !push_set_with_coins. by apply push_set_equiv, coins_equiv. }
  cbn [mbind option_bind]. rewrite decide_False by done. rewrite E6. cbn. eexists. split; [done|].
  destruct Hc6 as (?&?&?&?). split; [by split_and!|]. destruct Es6 as (?&?&?&?&?). split_and!; cbn; try done.
  by rewrite Hnh.
Qed.

(** Connecting a transaction records no nullifier, because the call of
    [SetNullifiers] in [UpdateCoins] is commented out: after the transaction
    has been connected, [HaveShieldedRequirements] gives the same answer as
    before for every transaction, so shielded spends that were allowed stay
    allowed, the connected ones included. *)
Theorem UpdateCoins_records_no_nullifier nHeight skip tx (c : Cache) :
  cache_inv c → tx_connects skip (cache_set c) tx →
  ∃ undo c', UpdateCoins tx nHeight skip c = Some (undo, c') ∧
    (∀ n, s_nullifier (cache_set c') n = s_nullifier (cache_set c) n) ∧
    ∀ tx', (HaveShieldedRequirements tx' c').1 = (HaveShieldedRequirements tx' c).1.
Proof.
  intros Hc Htx. destruct (UpdateCoins_spec nHeight skip tx c Hc Htx) as (undo & c' & E & Hc' & Es & _).
  pose proof (connect_set_parts nHeight skip tx (cache_set c)) as [= _ Ea En _].
  exists undo, c'. split; [done|]. split; [intros n; by rewrite Es, En|]. intros tx'.
  destruct (cache_HaveShieldedRequirements tx' c Hc) as (_ & _ & ->).
  destruct (cache_HaveShieldedRequirements tx' c' Hc') as (_ & _ & ->).
  change (v_set c) with (cache_set c). change (v_set c') with (cache_set c').
  rewrite (shielded_allowed_proper _ _ Es _ _ eq_refl). unfold shielded_allowed, spends_allowed.
  by rewrite Ea, En.
Qed.

(** ** The inputs of an accepted transaction *)

Definition input_ok (prm : Params) (nSpendHeight : Z) (s : UtxoSet) (i : CTxIn) : Prop :=
  ∃ coin, s.(s_coin) i.(prevout) = Some coin ∧
    (coin.(fCoinBase) || coin.(fCoinStake) = true → prm.(nCoinbaseMaturity) <= nSpendHeight - coin.(coin_nHeight)) ∧
    0 <= coin.(coin_out).(nValue) <= prm.(nMaxMoneyOut).

Fixpoint sum_values (s : UtxoSet) (l : list CTxIn) : Z :=
  match l with [] => 0 | i :: l => input_value s i + sum_values s l end.

Lemma input_ok_equiv prm h s t i : s ≡ t → input_ok prm h s i ↔ input_ok prm h t i.
Proof. intros E. unfold input_ok. split; intros (coin & Hi & ?); exists coin; (split; [|done]); rewrite <- Hi; by rewrite E. Qed.

Lemma inputs_ok_equiv prm h s t l : s ≡ t → Forall (input_ok prm h s) l ↔ Forall (input_ok prm h t) l.
Proof. intros E. split; intros Hf; (eapply Forall_impl; [exact Hf|]); intros i; by apply input_ok_equiv. Qed.

Lemma sum_values_equiv s t l : s ≡ t → sum_values s l = sum_values t l.
Proof. intros E. induction l as [|i l IH]; [done|]. cbn. rewrite IH. unfold input_value. by rewrite E. Qed.

Lemma sum_values_nonneg prm h s l : Forall (input_ok prm h s) l → 0 <= sum_values s l.
Proof.
  induction 1 as [|i l (coin & Hi & _ & Hv) _ IH]; cbn; [lia|]. unfold input_value. rewrite Hi. lia.
Qed.

Lemma check_tx_inputs_loop_spec prm h l n (c : Cache) :
  cache_inv c → 0 <= n <= prm.(nMaxMoneyOut) → prm.(nMaxMoneyOut) < 2 ^ 62 →
  (∀ i, i ∈ l → is_Some (s_coin (cache_set c) i.(prevout))) →
  ∃ r n' c', check_tx_inputs_loop prm h l n c = Some (r, n', c') ∧ cache_inv c' ∧ cache_set c' ≡ cache_set c ∧
    (r = None ↔ Forall (input_ok prm h (cache_set c)) l ∧ n + sum_values (cache_set c) l <= prm.(nMaxMoneyOut)) ∧
    (r = None → n' = n + sum_values (cache_set c) l).
Proof.
  intros Hc Hn Hmax. revert n Hn c Hc. induction l as [|i l IH]; intros n Hn c Hc Hl; cbn [check_tx_inputs_loop sum_values].
  { eexists _, _, _. split_and!; [done..| |lia]. split; [|done]. intros _. split; [constructor|lia]. }
  destruct (cache_AccessCoin i.(prevout) c Hc) as (Hc' & Es & Ecoin).
  destruct (AccessCoin (prevout i) c) as [coin c']. cbn [fst snd] in *. change (v_set c) with (cache_set c) in *.
  change (v_set c') with (cache_set c') in *.
  destruct (Hl i) as [x Hx]; [left|]. rewrite Hx in Ecoin. unfold unspent in Ecoin.
  destruct (IsSpent coin); [done|]. injection Ecoin as ->.
  assert (input_value (cache_set c) i = nValue (coin_out x)) as Ev by (unfold input_value; by rewrite Hx).
  destruct ((fCoinBase x || fCoinStake x) && (h - coin_nHeight x <? nCoinbaseMaturity prm)) eqn:Em.
  { eexists _, _, _. split_and!; [done..| |done]. split; [done|]. intros [Hf _]. apply Forall_cons in Hf as [(y & Hy & Hm & _) _].
    rewrite Hx in Hy. injection Hy as <-. apply andb_true_iff in Em as [Em1 Em2]. specialize (Hm Em1). lia. }
  destruct (negb (MoneyRange prm (nValue (coin_out x))) || negb (MoneyRange prm (i64 (n + nValue (coin_out x))))) eqn:Er.
  { eexists _, _, _. split_and!; [done..| |done]. split; [done|]. intros [Hf Hs]. apply Forall_cons in Hf as [(y & Hy & _ & Hv) Hf].
    rewrite Hx in Hy. injection Hy as <-. pose proof (sum_values_nonneg _ _ _ _ Hf). unfold MoneyRange in Er.
    rewrite i64_id in Er by (unfold is_i64; lia). lia. }
  unfold MoneyRange in Er. assert (0 <= nValue (coin_out x) <= nMaxMoneyOut prm) as Hv by lia.
  rewrite i64_id in * by (unfold is_i64; lia).
  destruct (IH (n + nValue (coin_out x)) ltac:(lia) c' Hc') as (r & n' & c2 & E2 & Hc2 & Es2 & Hr & Hn').
  { intros j Hj. rewrite (s_coin_proper _ _ Es _ _ eq_refl). apply Hl. by right. }
  exists r, n', c2. rewrite (sum_values_equiv _ _ l Es) in *. rewrite Ev. split_and!; [done|done|by etrans| |].
  - rewrite Hr, Forall_cons, (inputs_ok_equiv prm h _ _ l Es).
    split; [intros [? ?]; split; [|lia]; split; [|done]|intros [[? ?] ?]; split; [done|lia]].
    exists x. split_and!; [done| |lia|lia]. intros Hcb. rewrite Hcb in Em. cbn in Em. lia.
  - intros ->. rewrite Hn' by done. lia.
Qed.

Lemma CheckTxInputs_spec prm tx nSpendHeight (c : Cache) :
  cache_inv c → spends_coins tx = true → 0 <= prm.(nMaxMoneyOut) < 2 ^ 62 → is_Some (GetValueOut tx) →
  let s := cache_set c in
  ∃ r c', CheckTxInputs prm tx nSpendHeight c = Some (r, c') ∧ cache_inv c' ∧ cache_set c' ≡ s ∧
    (r = None ↔
      Forall (input_ok prm nSpendHeight s) tx.(vin) ∧ sum_values s tx.(vin) <= prm.(nMaxMoneyOut) ∧
      shielded_allowed s tx = true ∧
      (IsCoinStake tx = false →
         ∃ out, GetValueOut tx = Some out ∧ out <= sum_values s tx.(vin) ∧
           MoneyRange prm (i64 (sum_values s tx.(vin) - out)) = true)).
Proof.
  cbn zeta. intros Hc Hsp Hmax [out Hout]. unfold CheckTxInputs.
  destruct (cache_HaveInputs tx c Hc) as (Hc1 & Es1 & Eb1). destruct (HaveInputs tx c) as [b1 c1]. cbn [fst snd] in *.
  assert (IsCoinBase tx || ContainsAssets tx = false) as Ecb.
  { unfold spends_coins in Hsp. rewrite <- negb_orb in Hsp. by apply negb_true_iff. }
  rewrite Ecb in Eb1. cbn [orb] in Eb1. change (v_set c) with (cache_set c) in *. change (v_set c1) with (cache_set c1) in *.
  destruct b1; cbn [negb].
  2: { eexists _, _. split_and!; [done..|]. split; [done|]. intros (Hf & _). symmetry in Eb1.
       apply not_true_iff_false in Eb1. destruct Eb1. apply forallb_forall. intros i Hi.
       rewrite Forall_forall in Hf. destruct (Hf i) as (coin & -> & _); [by apply list_elem_of_In|done]. }
  destruct (cache_HaveShieldedRequirements tx c1 Hc1) as (Hc2 & Es2 & Eb2).
  destruct (HaveShieldedRequirements tx c1) as [b2 c2]. cbn [fst snd] in *. change (v_set c1) with (cache_set c1) in *.
  change (v_set c2) with (cache_set c2) in *.
  rewrite (shielded_allowed_proper _ _ Es1 _ _ eq_refl) in Eb2. rewrite Es1 in Es2. rewrite <- Eb2.
  destruct b2; cbn [negb].
  2: { eexists _, _. split_and!; [done..|]. split; [done|]. by intros (_ & _ & ? & _). }
  destruct (check_tx_inputs_loop_spec prm nSpendHeight tx.(vin) 0 c2 Hc2) as (r & n' & c3 & -> & Hc3 & Es3 & Hr & Hn').
  { lia. }
  { lia. }
  { intros i Hi. rewrite (s_coin_proper _ _ Es2 _ _ eq_refl). symmetry in Eb1. unfold inputs_unspent in Eb1.
    rewrite forallb_forall in Eb1. specialize (Eb1 i ltac:(by apply list_elem_of_In)). by apply bool_decide_eq_true in Eb1. }
  rewrite (sum_values_equiv _ _ _ Es2), Z.add_0_l in Hr, Hn'. rewrite (inputs_ok_equiv _ _ _ _ _ Es2) in Hr.
  rewrite Es2 in Es3.
  cbn [mbind option_bind]. destruct r as [r|].
  { eexists _, _. split_and!; [done..|]. split; [done|]. intros (? & ? & _). by destruct (proj2 Hr). }
  destruct (proj1 Hr eq_refl) as [Hf Hsum]. rewrite Hn', Hout by done. cbn [mbind option_bind].
  set (n := sum_values (cache_set c) (vin tx)) in *. clear Hn' Hr.
  assert (∀ P : Prop, (Forall (input_ok prm nSpendHeight (cache_set c)) tx.(vin) ∧ n <= prm.(nMaxMoneyOut) ∧ true = true ∧ P) ↔ P)
    as Hred by tauto.
  destruct (IsCoinStake tx); cbn [negb]; setoid_rewrite Hred.
  { eexists _, _. split_and!; [done..|]. split; [done|]. done. }
  replace (i64 (0 + i64 (n - out))) with (i64 (n - out)).
  2: { rewrite Z.add_0_l. symmetry. apply i64_id, i64_range. }
  destruct (Z.ltb_spec n out); [|destruct (Z.ltb_spec (i64 (n - out)) 0);
    [|destruct (MoneyRange prm (i64 (n - out))) eqn:Em; cbn [negb]]];
    (eexists _, _; split_and!; [done..|]); (split; [try done|]).
  - intros H'. destruct (H' eq_refl) as (o & [= <-] & ? & _). lia.
  - intros H'. destruct (H' eq_refl) as (o & [= <-] & _ & Hm). unfold MoneyRange in Hm. lia.
  - intros _ _. exists out. by split_and!.
  - done.
  - intros H'. destruct (H' eq_refl) as (o & [= <-] & _ & Hm). congruence.
Qed.

(** C15: [CheckTxInputs], called as [CheckInputs] calls it on a transaction that
    spends coins, never fails its assertion and does not change the unspent
    outputs; and it accepts exactly when all the inputs are unspent coins, the
    requirements of the shielded spends hold, every coinbase or coinstake
    coin has reached maturity, the input values and their exact sum are in the
    money range, and, unless the transaction is a coinstake, the value of the
    outputs does not exceed that sum, with a fee in the money range. *)
Theorem CheckTxInputs_iff prm tx nSpendHeight (c : Cache) :
  cache_inv c → spends_coins tx = true → 0 <= prm.(nMaxMoneyOut) < 2 ^ 62 → is_Some (GetValueOut tx) →
  let s := cache_set c in
  ∃ r c', CheckTxInputs prm tx nSpendHeight c = Some (r, c') ∧ cache_inv c' ∧ cache_set c' ≡ s ∧
    (r = None ↔
      Forall (input_ok prm nSpendHeight s) tx.(vin) ∧ sum_values s tx.(vin) <= prm.(nMaxMoneyOut) ∧
      shielded_allowed s tx = true ∧
      (IsCoinStake tx = false →
         ∃ out, GetValueOut tx = Some out ∧ out <= sum_values s tx.(vin) ∧
           MoneyRange prm (i64 (sum_values s tx.(vin) - out)) = true)).
Proof. apply CheckTxInputs_spec. Qed.
End update.

(** ** Samples *)

#[local] Existing Instance sample_crypto.
#[local] Existing Instance sample_tree_class.
#[local] Existing Instance sample_limit.

Definition payment (o : COutPoint) (sig : CScript) (values : list Z) : CTransaction :=
  {| nVersion := 1; nType := 0; vin := [{| prevout := o; scriptSig := sig; nSequence := 2 ^ 32 - 1 |}];
     vout := (λ v, {| nValue := v; scriptPubKey := [OP_1]; nRounds := -10 |}) <$> values;
     nLockTime := 0; sapData := None; extraPayload := None; walletSenderId := replicate 5 0 |}.

Definition sample_coinbase : CTransaction :=
  payment {| prevout_hash := uint_zero 8; prevout_n := 2 ^ 32 - 1 |} [1; 8] [100].
Definition sample_pay1 : CTransaction := payment (outpoint (sample_hash 5) 0) [1; 7] [30; 19].
Definition sample_pay2 : CTransaction := payment (outpoint (GetHash sample_pay1) 0) [1; 7] [29].
Definition sample_block : list CTransaction := [sample_pay1; sample_pay2].

Definition sample_new_tree : Tree := sample_hash 4.

Lemma sample_cache_inv : cache_inv sample_cache.
Proof. apply sample_cache_simulates. Qed.

Lemma sample_spendable : spendable_set (cache_set sample_cache).
Proof.
  intros o c.
  change (({[ outpoint (sample_hash 5) 0 := sample_coin 50 ]} : gmap COutPoint Coin) !! o = Some c →
    IsUnspendable c.(coin_out).(scriptPubKey) = false).
  intros E. apply lookup_singleton_Some in E as [_ <-]. reflexivity.
Qed.

(** Checks the outputs of a transaction one by one. *)
Ltac check_outputs_new :=
  intros k Hk; cbn [payment vout sample_coinbase sample_pay1 sample_pay2 fmap list_fmap length] in Hk;
  repeat first [exfalso; lia|destruct k as [|k]; [split; vm_compute; reflexivity|]].

Ltac check_connects :=
  split_and!;
  [ vm_compute; discriminate
  | apply (bool_decide_unpack _); vm_compute; exact I
  | check_outputs_new
  | intros _; split; [apply (bool_decide_unpack _); vm_compute; exact I|];
    constructor; [eexists; split; [vm_compute; reflexivity|discriminate]|constructor] ].

Lemma sample_block_connects :
  block_connects (λ _, false) 8 true (cache_set sample_cache) (sample_coinbase :: sample_block).
Proof.
  split; [|split; [|split]].
  - split; [vm_compute; discriminate|].
    split; [apply (bool_decide_unpack _); vm_compute; exact I|].
    split; [check_outputs_new|].
    intros E. vm_compute in E. discriminate E.
  - check_connects.
  - check_connects.
  - done.
Qed.

Lemma connect_then_disconnect_restores_witness :
  ∃ vtxundo c1 c2,
    connect_view (λ _, false) (sample_coinbase :: sample_block) 8 true sample_new_tree sample_cache = Some (vtxundo, c1) ∧
    disconnect_view (sample_coinbase :: sample_block) vtxundo (sample_hash 1) (sample_hash 9) c1 = Some (DISCONNECT_OK, c2) ∧
    s_coin (cache_set c2) (outpoint (sample_hash 5) 0) = Some (sample_coin 50).
Proof.
  destruct (connect_then_disconnect_restores (λ _, false) 8 true sample_coinbase sample_block sample_new_tree (sample_hash 9)
    sample_cache sample_cache_inv sample_spendable) as (vtxundo & c1 & E1 & Hc1 & _ & _ & Hdis).
  - reflexivity.
  - apply sample_block_connects.
  - reflexivity.
  - reflexivity.
  - reflexivity.
  - reflexivity.
  - right. reflexivity.
  - destruct (Hdis c1 Hc1) as (c2 & E2 & _ & Es); [reflexivity|].
    exists vtxundo, c1, c2. split; [exact E1|]. split; [exact E2|]. rewrite Es. reflexivity.
Defined.

Lemma CheckTxInputs_iff_witness :
  ∃ c', CheckTxInputs main_params sample_pay1 30 sample_cache = Some (None, c').
Proof.
  destruct (CheckTxInputs_iff main_params sample_pay1 30 sample_cache sample_cache_inv) as (r & c' & E & _ & _ & Hr).
  - reflexivity.
  - split; [vm_compute; discriminate|reflexivity].
  - eexists. vm_compute. reflexivity.
  - exists c'. rewrite E. f_equal. f_equal. apply Hr. split_and!.
    + constructor; [|constructor]. eexists. split; [vm_compute; reflexivity|].
      split; [discriminate|]. split; vm_compute; discriminate.
    + vm_compute. discriminate.
    + reflexivity.
    + intros _. eexists. split; [vm_compute; reflexivity|]. split; [vm_compute; discriminate|reflexivity].
Defined.

Lemma UpdateCoins_records_no_nullifier_witness :
  ∃ undo c', UpdateCoins (λ _, false) sample_pay1 8 true sample_cache = Some (undo, c') ∧
    ∀ n, s_nullifier (cache_set c') n = s_nullifier (cache_set sample_cache) n.
Proof.
  destruct (UpdateCoins_records_no_nullifier (λ _, false) 8 true sample_pay1 sample_cache sample_cache_inv)
    as (undo & c' & E & Hn & _).
  - check_connects.
  - exists undo, c'. split; [exact E|exact Hn].
Defined.
