(* ===== verification/Crypto.v ===== *)
(** * Crypto: the hash functions ([crypto/])

    The byte order helpers of [crypto/common.h], the buffering that the hashers
    share, and SHA-256 ([crypto/sha256.cpp]), SHA-1 ([crypto/sha1.cpp]) and
    RIPEMD-160 ([crypto/ripemd160.cpp]).  Each hasher is compared with the
    standard that it implements. *)

From S2P Require Import Prelude Script.
Local Open Scope Z_scope.

(** ** [crypto/common.h] *)

Definition ReadLE32 (chunk : list Z) (off : nat) : Z := ReadLE (take 4 (drop off chunk)).
Definition ReadBE32 (chunk : list Z) (off : nat) : Z := ReadLE (reverse (take 4 (drop off chunk))).
Definition ReadBE64 (chunk : list Z) (off : nat) : Z := ReadLE (reverse (take 8 (drop off chunk))).
Definition WriteLE32 (x : Z) : list Z := WriteLE 4 x.
Definition WriteLE64 (x : Z) : list Z := WriteLE 8 x.
Definition WriteBE32 (x : Z) : list Z := reverse (WriteLE 4 x).
Definition WriteBE64 (x : Z) : list Z := reverse (WriteLE 8 x).

(** The assignment of a word of the schedule, [w = e]. *)
Definition assign {A : Type} (e : Z) (b : Z → A) : A := b e.
Notation "'word' w := e 'in' b" := (assign e (λ w, b)) (at level 10, w name, e at level 100, b at level 200).

(** ** The buffering of the hashers *)

(** [memcpy(buf + off, data, len)] on an array. *)
Definition memcpy (buf : list Z) (off : nat) (data : list Z) : list Z :=
  take off buf ++ data ++ drop (off + length data) buf.

(** [CSHA256], [CSHA1], [CRIPEMD160] and [CSHA512]: the chaining words, the
    buffer and the number of bytes written. *)
Record hasher := { h_s : list Z; h_buf : list Z; h_bytes : Z }.

Section buffering.
(** The block size and the compression function. *)
Variable B : nat.
Variable Transform : list Z → list Z → list Z.

(** [while (end >= data + B)]; every round takes [B] bytes, so [length data]
    rounds suffice. *)
Fixpoint write_chunks (fuel : nat) (s : list Z) (bytes : Z) (data : list Z) : list Z * Z * list Z :=
  match fuel with
  | S fuel =>
      if bool_decide (B <= length data)%nat
      then write_chunks fuel (Transform s (take B data)) (u64 (bytes + Z.of_nat B)) (drop B data)
      else (s, bytes, data)
  | O => (s, bytes, data)
  end.

(** [Write]; an object is smaller than the address space, so [bufsize + len]
    does not wrap around. *)
Definition Write (h : hasher) (data : list Z) : hasher :=
  let bufsize := Z.to_nat (h.(h_bytes) mod Z.of_nat B) in
  let '(s, buf, bytes, data, bufsize) :=
    if negb (bool_decide (bufsize = 0%nat)) && bool_decide (B <= bufsize + length data)%nat then
      let buf := memcpy h.(h_buf) bufsize (take (B - bufsize) data) in
      (Transform h.(h_s) buf, buf, u64 (h.(h_bytes) + Z.of_nat (B - bufsize)), drop (B - bufsize) data, 0%nat)
    else (h.(h_s), h.(h_buf), h.(h_bytes), data, bufsize) in
  let '(s, bytes, data) := write_chunks (length data) s bytes data in
  match data with
  | [] => {| h_s := s; h_buf := buf; h_bytes := bytes |}
  | _ => {| h_s := s; h_buf := memcpy buf bufsize data; h_bytes := u64 (bytes + Z.of_nat (length data)) |}
  end.

(** *** The message that has been written *)

Variable s0 : list Z.

(** The compression function over [n] blocks. *)
Fixpoint run_blocks (n : nat) (s : list Z) (l : list Z) : list Z :=
  match n with O => s | S n => run_blocks n (Transform s (take B l)) (drop B l) end.

Definition run_all (s : list Z) (l : list Z) : list Z := run_blocks (length l / B) s l.

Record represents (h : hasher) (m : list Z) : Prop := {
  rp_bytes : h.(h_bytes) = u64 (Z.of_nat (length m));
  rp_buf : length h.(h_buf) = B;
  rp_s : h.(h_s) = run_all s0 m;
  rp_tail : take (length m mod B) h.(h_buf) = drop (length m / B * B) m;
}.

Hypothesis HB : (0 < B)%nat.
Hypothesis HB64 : (Z.of_nat B | 2 ^ 64).

Lemma run_blocks_add a b s l : run_blocks (a + b) s l = run_blocks b (run_blocks a s l) (drop (a * B) l).
Proof.
  revert s l. induction a as [|a IH]; intros s l; cbn [run_blocks Nat.add Nat.mul]; [by rewrite drop_0|].
  rewrite IH, drop_drop. done.
Qed.

Lemma run_blocks_app n s l k : (n * B <= length l)%nat → run_blocks n s (l ++ k) = run_blocks n s l.
Proof.
  revert s l. induction n as [|n IH]; intros s l Hn; [done|]. cbn [run_blocks]. cbn in Hn.
  rewrite take_app_le, drop_app_le by lia. apply IH. rewrite length_drop. lia.
Qed.

Lemma run_all_app q s m d : length m = (q * B)%nat → run_all s (m ++ d) = run_all (run_all s m) d.
Proof.
  intros Hm. unfold run_all. rewrite length_app, Hm, Nat.div_add_l, Nat.div_mul by lia.
  rewrite run_blocks_add, run_blocks_app by lia. by rewrite <- Hm, drop_app_length.
Qed.

Lemma run_all_block s l : length l = B → run_all s l = Transform s l.
Proof. intros Hl. unfold run_all. rewrite Hl, Nat.div_same by lia. cbn. by rewrite take_ge by lia. Qed.

Lemma run_all_short s l : (length l < B)%nat → run_all s l = s.
Proof. intros Hl. unfold run_all. by rewrite Nat.div_small. Qed.

Lemma write_chunks_spec fuel s n q d :
  (length d <= fuel)%nat → n = (q * B)%nat →
  write_chunks fuel s (u64 (Z.of_nat n)) d =
    (run_all s d, u64 (Z.of_nat (n + length d / B * B)), drop (length d / B * B) d).
Proof.
  revert s n q d. induction fuel as [|fuel IH]; intros s n q d Hf Hn; cbn [write_chunks].
  - destruct d; [|cbn in Hf; lia]. cbn [length]. rewrite Nat.div_small, Nat.mul_0_l, Nat.add_0_r, drop_0 by lia.
    by rewrite run_all_short.
  - destruct (bool_decide_reflect (B <= length d)%nat) as [Hle|Hgt].
    + replace (u64 (u64 (Z.of_nat n) + Z.of_nat B)) with (u64 (Z.of_nat (n + B))).
      2: { unfold u64. rewrite Zplus_mod_idemp_l. f_equal. lia. }
      rewrite (IH _ _ (S q)) by (rewrite ?length_drop; nia). rewrite length_drop.
      assert (length d / B = S ((length d - B) / B))%nat as E.
      { replace (length d) with (length d - B + 1 * B)%nat at 1 by lia. rewrite Nat.div_add by lia. lia. }
      f_equal; [f_equal|].
      * rewrite <- (take_drop B d) at 3. rewrite (run_all_app 1), (run_all_block _ (take B d)) by (rewrite length_take; lia). done.
      * rewrite E. do 2 f_equal. lia.
      * rewrite drop_drop, E. f_equal.
    + rewrite Nat.div_small, Nat.mul_0_l, Nat.add_0_r, drop_0 by lia. by rewrite run_all_short by lia.
Qed.

(** The second half of [Write], when the message so far ends at a block. *)
Lemma write_aligned q m d s buf bytes :
  length m = (q * B)%nat → length buf = B → s = run_all s0 m → bytes = u64 (Z.of_nat (length m)) →
  represents
    (let '(s, bytes, data) := write_chunks (length d) s bytes d in
     match data with
     | [] => {| h_s := s; h_buf := buf; h_bytes := bytes |}
     | _ => {| h_s := s; h_buf := memcpy buf 0 data; h_bytes := u64 (bytes + Z.of_nat (length data)) |}
     end) (m ++ d).
Proof.
  intros Hm Hb -> ->. rewrite (write_chunks_spec _ _ _ q) by done.
  pose proof (Nat.div_mod (length d) B ltac:(lia)) as Ed. pose proof (Nat.mod_upper_bound (length d) B ltac:(lia)) as Hr.
  pose proof (length_drop d (length d / B * B)) as Hl.
  assert (length (m ++ d) mod B = length d mod B ∧ length (m ++ d) / B * B = length m + length d / B * B)%nat as [E1 E2].
  { rewrite length_app, Hm, Nat.div_add_l by lia. rewrite Nat.add_comm, Nat.Div0.mod_add. lia. }
  destruct (drop (length d / B * B) d) as [|x t] eqn:Et; cbn [length] in Hl.
  - split; cbn; [|done|by rewrite (run_all_app q)|].
    + rewrite length_app. do 2 f_equal. lia.
    + rewrite E1, E2. replace (length d mod B)%nat with 0%nat by lia. rewrite take_0, <- drop_drop, drop_app_length. done.
  - set (data := x :: t) in *. assert (length data = length d mod B)%nat as Hd by (cbn; lia).
    split; cbn [h_s h_buf h_bytes].
    + rewrite length_app, Hd. unfold u64. rewrite Zplus_mod_idemp_l. f_equal. lia.
    + unfold memcpy. rewrite take_0, !length_app, length_drop. cbn [length app]. lia.
    + by rewrite (run_all_app q).
    + rewrite E1, E2, <- drop_drop, drop_app_length, Et. unfold memcpy. rewrite take_0. cbn [app].
      rewrite <- Hd. apply take_app_length.
Qed.

Lemma represents_init buf : length buf = B → represents {| h_s := s0; h_buf := buf; h_bytes := 0 |} [].
Proof.
  intros Hb. split; cbn; [done|done|by rewrite run_all_short|]. rewrite Nat.Div0.mod_0_l. by rewrite drop_nil.
Qed.

(** [Write] appends to the message. *)
Lemma Write_represents h m d : represents h m → represents (Write h d) (m ++ d).
Proof.
  intros [Hby Hbuf Hs Ht]. unfold Write.
  pose proof (Nat.div_mod (length m) B ltac:(lia)) as Em. pose proof (Nat.mod_upper_bound (length m) B ltac:(lia)) as Hr.
  assert (Z.to_nat (h.(h_bytes) mod Z.of_nat B) = length m mod B)%nat as ->.
  { rewrite Hby. unfold u64. destruct HB64 as [k Hk]. rewrite Hk, (Z.mul_comm k).
    rewrite Z.mod_mod_divide by (exists k; lia). rewrite <- Nat2Z.inj_mod. lia. }
  set (r := (length m mod B)%nat) in *. set (q := (length m / B)%nat) in *.
  destruct (bool_decide_reflect (r = 0%nat)) as [H0|H0]; cbn [negb andb].
  { rewrite H0. apply (write_aligned q); [lia|done|done|done]. }
  destruct (bool_decide_reflect (B <= r + length d)%nat) as [Hge|Hlt].
  - set (t := take (B - r) d). assert (length t = B - r)%nat as Hlt by (subst t; rewrite length_take; lia).
    assert (memcpy h.(h_buf) r t = drop (q * B) m ++ t) as Emc.
    { unfold memcpy. rewrite Ht, Hlt, (drop_ge h.(h_buf)), app_nil_r by lia. done. }
    replace (m ++ d) with ((m ++ t) ++ drop (B - r) d) by (subst t; by rewrite <- app_assoc, take_drop).
    apply (write_aligned (S q)).
    + rewrite length_app, Hlt. lia.
    + rewrite Emc, length_app, length_drop, Hlt. lia.
    + rewrite Emc, Hs. rewrite <- (take_drop (q * B) m) at 3. rewrite <- app_assoc.
      rewrite (run_all_app q _ (take (q * B) m)) by (rewrite length_take; lia).
      rewrite (run_all_block _ (_ ++ _)) by (rewrite length_app, length_drop, Hlt; lia).
      rewrite <- (take_drop (q * B) m) at 1. rewrite (run_all_app q) by (rewrite length_take; lia).
      by rewrite (run_all_short _ (drop _ _)) by (rewrite length_drop; lia).
    + rewrite Hby, length_app, Hlt. unfold u64. rewrite Zplus_mod_idemp_l. f_equal. lia.
  - assert (length d = r + length d - r)%nat by lia.
    assert (write_chunks (length d) h.(h_s) h.(h_bytes) d = (h.(h_s), h.(h_bytes), d)) as ->.
    { destruct d; [done|]. cbn [length write_chunks]. rewrite bool_decide_eq_false_2 by (cbn in *; lia). done. }
    destruct d as [|x t]; [rewrite app_nil_r; by split|]. set (d := x :: t) in *.
    assert (length (m ++ d) / B = q ∧ length (m ++ d) mod B = r + length d)%nat as [E1 E2].
    { rewrite length_app, Em, <- Nat.add_assoc, (Nat.mul_comm B), Nat.div_add_l by lia.
      rewrite (Nat.add_comm (q * B)), Nat.Div0.mod_add, Nat.mod_small, Nat.div_small by lia. lia. }
    split; cbn [h_s h_buf h_bytes].
    + rewrite Hby, length_app. unfold u64. rewrite Zplus_mod_idemp_l. f_equal. lia.
    + unfold memcpy. rewrite !length_app, length_take, length_drop. lia.
    + rewrite Hs. rewrite <- (take_drop (q * B) m), <- app_assoc.
      rewrite !(run_all_app q) by (rewrite length_take; lia).
      rewrite (run_all_short _ (drop _ _)), (run_all_short _ (_ ++ _)) by (rewrite ?length_app, length_drop; lia). done.
    + rewrite E1, E2. rewrite drop_app_le by lia. unfold memcpy. rewrite app_assoc.
      replace (r + length d)%nat with (length (take r h.(h_buf) ++ d)) by (rewrite length_app, length_take; lia).
      rewrite take_app_length, Ht. done.
Qed.
End buffering.

(** Padding with the bit 1, zeros and the length in bits, to a multiple of the
    block size [B]; the length takes the bytes [sz]. *)
Definition md_pad (B : nat) (sz : list Z) (m : list Z) : list Z :=
  let len := Z.of_nat (length m) in
  m ++ 0x80 :: replicate (Z.to_nat ((Z.of_nat B - 1 - Z.of_nat (length sz) - len) mod Z.of_nat B)) 0 ++ sz.

Lemma run_blocks_ext len B T1 T2 n s l :
  (∀ s b, length s = len → T1 s b = T2 s b ∧ length (T2 s b) = len) → length s = len →
  run_blocks B T1 n s l = run_blocks B T2 n s l ∧ length (run_blocks B T2 n s l) = len.
Proof.
  intros HT. revert s l. induction n as [|n IH]; intros s l Hs; cbn [run_blocks]; [done|].
  destruct (HT s (take B l) Hs) as [-> Hl]. by apply IH.
Qed.

(** What the hashers represent after some calls of [Write]. *)
Lemma Writes_represent B T s0 chunks h m :
  (0 < B)%nat → (Z.of_nat B | 2 ^ 64) → represents B T s0 h m →
  represents B T s0 (fold_left (Write B T) chunks h) (m ++ concat chunks).
Proof.
  intros HB HB64. revert h m. induction chunks as [|c chunks IH]; intros h m Hr; cbn [fold_left concat]; [by rewrite app_nil_r|].
  rewrite app_assoc. apply IH. by apply Write_represents.
Qed.

(** The bytes of a number that is cut to their width. *)
Lemma WriteLE_mod n x : WriteLE n (x mod 256 ^ Z.of_nat n) = WriteLE n x.
Proof.
  revert x. induction n as [|n IH]; intros x; [done|]. cbn [WriteLE].
  rewrite Nat2Z.inj_succ, Z.pow_succ_r by lia. pose proof (Z.pow_pos_nonneg 256 (Z.of_nat n) ltac:(lia) ltac:(lia)).
  rewrite Z.rem_mul_r by lia. rewrite (Z.mul_comm 256 (_ mod _)), Z_mod_plus_full, Z.div_add, Zmod_mod by lia.
  rewrite (Z.div_small (x mod 256)), Z.add_0_l, IH by (apply Z.mod_pos_bound; lia). done.
Qed.

Lemma WriteLE_add a b x : WriteLE (a + b) x = WriteLE a x ++ WriteLE b (x / 256 ^ Z.of_nat a).
Proof.
  revert x. induction a as [|a IH]; intros x; cbn [Nat.add WriteLE app]; [by rewrite Z.div_1_r|].
  rewrite IH, Z.div_div, <- Z.pow_succ_r by lia. by rewrite Nat2Z.inj_succ.
Qed.

(** The two calls of [Write] in [Finalize] append the padding. *)
Lemma pad_bytes B n c len :
  (c + 1 = B + (B - n))%nat → (0 < n < B)%nat → (Z.of_nat B | 2 ^ 64) →
  take (Z.to_nat (1 + (Z.of_nat c - u64 (Z.of_nat len) mod Z.of_nat B) mod Z.of_nat B)) (0x80 :: replicate (B - 1) 0) =
  0x80 :: replicate (Z.to_nat ((Z.of_nat B - 1 - Z.of_nat n - Z.of_nat len) mod Z.of_nat B)) 0.
Proof.
  intros Hc Hn [k Hk]. unfold u64. rewrite Hk, Z.mod_mod_divide by (exists k; lia).
  rewrite Zminus_mod_idemp_r.
  replace (Z.of_nat c - Z.of_nat len) with (Z.of_nat B - 1 - Z.of_nat n - Z.of_nat len + 1 * Z.of_nat B) by lia.
  rewrite Z_mod_plus_full. set (r := (_ mod Z.of_nat B)).
  assert (0 <= r < Z.of_nat B) as Hr by (apply Z.mod_pos_bound; lia).
  replace (Z.to_nat (1 + r)) with (S (Z.to_nat r)) by lia. cbn [take]. f_equal.
  by rewrite take_replicate, Nat.min_l by lia.
Qed.

Lemma finalize_state B T s0 n c h m sz :
  (c + 1 = B + (B - n))%nat → (0 < n < B)%nat → (Z.of_nat B | 2 ^ 64) → length sz = n → represents B T s0 h m →
  (Write B T (Write B T h (take (Z.to_nat (1 + (Z.of_nat c - u64 (Z.of_nat (length m)) mod Z.of_nat B) mod Z.of_nat B))
    (0x80 :: replicate (B - 1) 0))) sz).(h_s) = run_all B T s0 (md_pad B sz m).
Proof.
  intros Hc Hn HB Hsz Hr. rewrite (pad_bytes B n c) by done. unfold md_pad. cbn zeta. rewrite Hsz.
  set (p := _ :: replicate _ 0).
  pose proof (Write_represents B T s0 ltac:(lia) HB _ _ p Hr) as H1.
  pose proof (Write_represents B T s0 ltac:(lia) HB _ _ sz H1) as H2.
  rewrite (rp_s _ _ _ _ _ H2), <- app_assoc. done.
Qed.

Lemma size_bytes len : WriteLE 8 (u64 (Z.shiftl (u64 len) 3)) = WriteLE 8 (8 * len).
Proof.
  rewrite <- (WriteLE_mod 8 (8 * len)). change (256 ^ Z.of_nat 8) with (2 ^ 64). f_equal.
  rewrite Z.shiftl_mul_pow2 by lia. unfold u64. rewrite Zmult_mod_idemp_l. f_equal. lia.
Qed.

