(* ===== verification/Sha2.v ===== *)
(** * Sha2: SHA-256 and SHA-512 ([crypto/sha256.cpp], [crypto/sha512.cpp])

    The modules [sha256] and [sha512] are the namespaces of the code, with the
    unrolled compression functions; [CSHA256] and [CSHA512] are the hashers.
    They are compared with the description of SHA-2 in FIPS 180-4: a sliding
    window over the message schedule, eight rotating registers, and constants
    that are computed from the primes. *)

From S2P Require Import Prelude Script Crypto.
Local Open Scope Z_scope.
Local Infix "⊕" := Z.lxor (at level 50, left associativity).

Module sha256.

(** Addition and the two shifts of a rotation, on [uint32_t]. *)
Definition add (x y : Z) : Z := u32 (x + y).
Infix "⊞" := add (at level 50, left associativity).
Definition rotr (x i j : Z) : Z := Z.lor (Z.shiftr x i) (u32 (Z.shiftl x j)).

Definition Ch (x y z : Z) : Z := z ⊕ (Z.land x (y ⊕ z)).
Definition Maj (x y z : Z) : Z := Z.lor (Z.land x y) (Z.land z (Z.lor x y)).
Definition Sigma0 (x : Z) : Z := (rotr x 2 30) ⊕ (rotr x 13 19) ⊕ (rotr x 22 10).
Definition Sigma1 (x : Z) : Z := (rotr x 6 26) ⊕ (rotr x 11 21) ⊕ (rotr x 25 7).
Definition sigma0 (x : Z) : Z := (rotr x 7 25) ⊕ (rotr x 18 14) ⊕ (Z.shiftr x 3).
Definition sigma1 (x : Z) : Z := (rotr x 17 15) ⊕ (rotr x 19 13) ⊕ (Z.shiftr x 10).

(** [Round]: the new values of [d] and [h]. *)
Definition Round (a b c d e f g h k w : Z) : Z * Z :=
  let t1 := h ⊞ Sigma1 e ⊞ Ch e f g ⊞ k ⊞ w in
  let t2 := Sigma0 a ⊞ Maj a b c in
  (d ⊞ t1, t1 ⊞ t2).

Definition Initialize : list Z :=
  [0x6a09e667; 0xbb67ae85; 0x3c6ef372; 0xa54ff53a; 0x510e527f; 0x9b05688c; 0x1f83d9ab; 0x5be0cd19].

Definition Transform (s chunk : list Z) : list Z :=
  match s with
  | [s0; s1; s2; s3; s4; s5; s6; s7] =>
      word a := s0 in word b := s1 in word c := s2 in word d := s3 in
      word e := s4 in word f := s5 in word g := s6 in word h := s7 in
      word w0 := ReadBE32 chunk 0 in
      let '(d, h) := Round a b c d e f g h 0x428a2f98 w0 in
      word w1 := ReadBE32 chunk 4 in
      let '(c, g) := Round h a b c d e f g 0x71374491 w1 in
      word w2 := ReadBE32 chunk 8 in
      let '(b, f) := Round g h a b c d e f 0xb5c0fbcf w2 in
      word w3 := ReadBE32 chunk 12 in
      let '(a, e) := Round f g h a b c d e 0xe9b5dba5 w3 in
      word w4 := ReadBE32 chunk 16 in
      let '(h, d) := Round e f g h a b c d 0x3956c25b w4 in
      word w5 := ReadBE32 chunk 20 in
      let '(g, c) := Round d e f g h a b c 0x59f111f1 w5 in
      word w6 := ReadBE32 chunk 24 in
      let '(f, b) := Round c d e f g h a b 0x923f82a4 w6 in
      word w7 := ReadBE32 chunk 28 in
      let '(e, a) := Round b c d e f g h a 0xab1c5ed5 w7 in
      word w8 := ReadBE32 chunk 32 in
      let '(d, h) := Round a b c d e f g h 0xd807aa98 w8 in
      word w9 := ReadBE32 chunk 36 in
      let '(c, g) := Round h a b c d e f g 0x12835b01 w9 in
      word w10 := ReadBE32 chunk 40 in
      let '(b, f) := Round g h a b c d e f 0x243185be w10 in
      word w11 := ReadBE32 chunk 44 in
      let '(a, e) := Round f g h a b c d e 0x550c7dc3 w11 in
      word w12 := ReadBE32 chunk 48 in
      let '(h, d) := Round e f g h a b c d 0x72be5d74 w12 in
      word w13 := ReadBE32 chunk 52 in
      let '(g, c) := Round d e f g h a b c 0x80deb1fe w13 in
      word w14 := ReadBE32 chunk 56 in
      let '(f, b) := Round c d e f g h a b 0x9bdc06a7 w14 in
      word w15 := ReadBE32 chunk 60 in
      let '(e, a) := Round b c d e f g h a 0xc19bf174 w15 in
      word w0 := w0 ⊞ ((sigma1 w14) ⊞ w9 ⊞ (sigma0 w1)) in
      let '(d, h) := Round a b c d e f g h 0xe49b69c1 w0 in
      word w1 := w1 ⊞ ((sigma1 w15) ⊞ w10 ⊞ (sigma0 w2)) in
      let '(c, g) := Round h a b c d e f g 0xefbe4786 w1 in
      word w2 := w2 ⊞ ((sigma1 w0) ⊞ w11 ⊞ (sigma0 w3)) in
      let '(b, f) := Round g h a b c d e f 0x0fc19dc6 w2 in
      word w3 := w3 ⊞ ((sigma1 w1) ⊞ w12 ⊞ (sigma0 w4)) in
      let '(a, e) := Round f g h a b c d e 0x240ca1cc w3 in
      word w4 := w4 ⊞ ((sigma1 w2) ⊞ w13 ⊞ (sigma0 w5)) in
      let '(h, d) := Round e f g h a b c d 0x2de92c6f w4 in
      word w5 := w5 ⊞ ((sigma1 w3) ⊞ w14 ⊞ (sigma0 w6)) in
      let '(g, c) := Round d e f g h a b c 0x4a7484aa w5 in
      word w6 := w6 ⊞ ((sigma1 w4) ⊞ w15 ⊞ (sigma0 w7)) in
      let '(f, b) := Round c d e f g h a b 0x5cb0a9dc w6 in
      word w7 := w7 ⊞ ((sigma1 w5) ⊞ w0 ⊞ (sigma0 w8)) in
      let '(e, a) := Round b c d e f g h a 0x76f988da w7 in
      word w8 := w8 ⊞ ((sigma1 w6) ⊞ w1 ⊞ (sigma0 w9)) in
      let '(d, h) := Round a b c d e f g h 0x983e5152 w8 in
      word w9 := w9 ⊞ ((sigma1 w7) ⊞ w2 ⊞ (sigma0 w10)) in
      let '(c, g) := Round h a b c d e f g 0xa831c66d w9 in
      word w10 := w10 ⊞ ((sigma1 w8) ⊞ w3 ⊞ (sigma0 w11)) in
      let '(b, f) := Round g h a b c d e f 0xb00327c8 w10 in
      word w11 := w11 ⊞ ((sigma1 w9) ⊞ w4 ⊞ (sigma0 w12)) in
      let '(a, e) := Round f g h a b c d e 0xbf597fc7 w11 in
      word w12 := w12 ⊞ ((sigma1 w10) ⊞ w5 ⊞ (sigma0 w13)) in
      let '(h, d) := Round e f g h a b c d 0xc6e00bf3 w12 in
      word w13 := w13 ⊞ ((sigma1 w11) ⊞ w6 ⊞ (sigma0 w14)) in
      let '(g, c) := Round d e f g h a b c 0xd5a79147 w13 in
      word w14 := w14 ⊞ ((sigma1 w12) ⊞ w7 ⊞ (sigma0 w15)) in
      let '(f, b) := Round c d e f g h a b 0x06ca6351 w14 in
      word w15 := w15 ⊞ ((sigma1 w13) ⊞ w8 ⊞ (sigma0 w0)) in
      let '(e, a) := Round b c d e f g h a 0x14292967 w15 in
      word w0 := w0 ⊞ ((sigma1 w14) ⊞ w9 ⊞ (sigma0 w1)) in
      let '(d, h) := Round a b c d e f g h 0x27b70a85 w0 in
      word w1 := w1 ⊞ ((sigma1 w15) ⊞ w10 ⊞ (sigma0 w2)) in
      let '(c, g) := Round h a b c d e f g 0x2e1b2138 w1 in
      word w2 := w2 ⊞ ((sigma1 w0) ⊞ w11 ⊞ (sigma0 w3)) in
      let '(b, f) := Round g h a b c d e f 0x4d2c6dfc w2 in
      word w3 := w3 ⊞ ((sigma1 w1) ⊞ w12 ⊞ (sigma0 w4)) in
      let '(a, e) := Round f g h a b c d e 0x53380d13 w3 in
      word w4 := w4 ⊞ ((sigma1 w2) ⊞ w13 ⊞ (sigma0 w5)) in
      let '(h, d) := Round e f g h a b c d 0x650a7354 w4 in
      word w5 := w5 ⊞ ((sigma1 w3) ⊞ w14 ⊞ (sigma0 w6)) in
      let '(g, c) := Round d e f g h a b c 0x766a0abb w5 in
      word w6 := w6 ⊞ ((sigma1 w4) ⊞ w15 ⊞ (sigma0 w7)) in
      let '(f, b) := Round c d e f g h a b 0x81c2c92e w6 in
      word w7 := w7 ⊞ ((sigma1 w5) ⊞ w0 ⊞ (sigma0 w8)) in
      let '(e, a) := Round b c d e f g h a 0x92722c85 w7 in
      word w8 := w8 ⊞ ((sigma1 w6) ⊞ w1 ⊞ (sigma0 w9)) in
      let '(d, h) := Round a b c d e f g h 0xa2bfe8a1 w8 in
      word w9 := w9 ⊞ ((sigma1 w7) ⊞ w2 ⊞ (sigma0 w10)) in
      let '(c, g) := Round h a b c d e f g 0xa81a664b w9 in
      word w10 := w10 ⊞ ((sigma1 w8) ⊞ w3 ⊞ (sigma0 w11)) in
      let '(b, f) := Round g h a b c d e f 0xc24b8b70 w10 in
      word w11 := w11 ⊞ ((sigma1 w9) ⊞ w4 ⊞ (sigma0 w12)) in
      let '(a, e) := Round f g h a b c d e 0xc76c51a3 w11 in
      word w12 := w12 ⊞ ((sigma1 w10) ⊞ w5 ⊞ (sigma0 w13)) in
      let '(h, d) := Round e f g h a b c d 0xd192e819 w12 in
      word w13 := w13 ⊞ ((sigma1 w11) ⊞ w6 ⊞ (sigma0 w14)) in
      let '(g, c) := Round d e f g h a b c 0xd6990624 w13 in
      word w14 := w14 ⊞ ((sigma1 w12) ⊞ w7 ⊞ (sigma0 w15)) in
      let '(f, b) := Round c d e f g h a b 0xf40e3585 w14 in
      word w15 := w15 ⊞ ((sigma1 w13) ⊞ w8 ⊞ (sigma0 w0)) in
      let '(e, a) := Round b c d e f g h a 0x106aa070 w15 in
      word w0 := w0 ⊞ ((sigma1 w14) ⊞ w9 ⊞ (sigma0 w1)) in
      let '(d, h) := Round a b c d e f g h 0x19a4c116 w0 in
      word w1 := w1 ⊞ ((sigma1 w15) ⊞ w10 ⊞ (sigma0 w2)) in
      let '(c, g) := Round h a b c d e f g 0x1e376c08 w1 in
      word w2 := w2 ⊞ ((sigma1 w0) ⊞ w11 ⊞ (sigma0 w3)) in
      let '(b, f) := Round g h a b c d e f 0x2748774c w2 in
      word w3 := w3 ⊞ ((sigma1 w1) ⊞ w12 ⊞ (sigma0 w4)) in
      let '(a, e) := Round f g h a b c d e 0x34b0bcb5 w3 in
      word w4 := w4 ⊞ ((sigma1 w2) ⊞ w13 ⊞ (sigma0 w5)) in
      let '(h, d) := Round e f g h a b c d 0x391c0cb3 w4 in
      word w5 := w5 ⊞ ((sigma1 w3) ⊞ w14 ⊞ (sigma0 w6)) in
      let '(g, c) := Round d e f g h a b c 0x4ed8aa4a w5 in
      word w6 := w6 ⊞ ((sigma1 w4) ⊞ w15 ⊞ (sigma0 w7)) in
      let '(f, b) := Round c d e f g h a b 0x5b9cca4f w6 in
      word w7 := w7 ⊞ ((sigma1 w5) ⊞ w0 ⊞ (sigma0 w8)) in
      let '(e, a) := Round b c d e f g h a 0x682e6ff3 w7 in
      word w8 := w8 ⊞ ((sigma1 w6) ⊞ w1 ⊞ (sigma0 w9)) in
      let '(d, h) := Round a b c d e f g h 0x748f82ee w8 in
      word w9 := w9 ⊞ ((sigma1 w7) ⊞ w2 ⊞ (sigma0 w10)) in
      let '(c, g) := Round h a b c d e f g 0x78a5636f w9 in
      word w10 := w10 ⊞ ((sigma1 w8) ⊞ w3 ⊞ (sigma0 w11)) in
      let '(b, f) := Round g h a b c d e f 0x84c87814 w10 in
      word w11 := w11 ⊞ ((sigma1 w9) ⊞ w4 ⊞ (sigma0 w12)) in
      let '(a, e) := Round f g h a b c d e 0x8cc70208 w11 in
      word w12 := w12 ⊞ ((sigma1 w10) ⊞ w5 ⊞ (sigma0 w13)) in
      let '(h, d) := Round e f g h a b c d 0x90befffa w12 in
      word w13 := w13 ⊞ ((sigma1 w11) ⊞ w6 ⊞ (sigma0 w14)) in
      let '(g, c) := Round d e f g h a b c 0xa4506ceb w13 in
      let '(f, b) := Round c d e f g h a b 0xbef9a3f7 (w14 ⊞ (sigma1 w12) ⊞ w7 ⊞ (sigma0 w15)) in
      let '(e, a) := Round b c d e f g h a 0xc67178f2 (w15 ⊞ (sigma1 w13) ⊞ w8 ⊞ (sigma0 w0)) in
      [s0 ⊞ a; s1 ⊞ b; s2 ⊞ c; s3 ⊞ d; s4 ⊞ e; s5 ⊞ f; s6 ⊞ g; s7 ⊞ h]
  | _ => s
  end.
End sha256.

Module sha512.

(** Addition and the two shifts of a rotation, on [uint64_t]. *)
Definition add (x y : Z) : Z := u64 (x + y).
Infix "⊞" := add (at level 50, left associativity).
Definition rotr (x i j : Z) : Z := Z.lor (Z.shiftr x i) (u64 (Z.shiftl x j)).

Definition Ch (x y z : Z) : Z := z ⊕ (Z.land x (y ⊕ z)).
Definition Maj (x y z : Z) : Z := Z.lor (Z.land x y) (Z.land z (Z.lor x y)).
Definition Sigma0 (x : Z) : Z := (rotr x 28 36) ⊕ (rotr x 34 30) ⊕ (rotr x 39 25).
Definition Sigma1 (x : Z) : Z := (rotr x 14 50) ⊕ (rotr x 18 46) ⊕ (rotr x 41 23).
Definition sigma0 (x : Z) : Z := (rotr x 1 63) ⊕ (rotr x 8 56) ⊕ (Z.shiftr x 7).
Definition sigma1 (x : Z) : Z := (rotr x 19 45) ⊕ (rotr x 61 3) ⊕ (Z.shiftr x 6).

(** [Round]: the new values of [d] and [h]. *)
Definition Round (a b c d e f g h k w : Z) : Z * Z :=
  let t1 := h ⊞ Sigma1 e ⊞ Ch e f g ⊞ k ⊞ w in
  let t2 := Sigma0 a ⊞ Maj a b c in
  (d ⊞ t1, t1 ⊞ t2).

Definition Initialize : list Z :=
  [0x6a09e667f3bcc908; 0xbb67ae8584caa73b; 0x3c6ef372fe94f82b; 0xa54ff53a5f1d36f1; 0x510e527fade682d1; 0x9b05688c2b3e6c1f; 0x1f83d9abfb41bd6b; 0x5be0cd19137e2179].

Definition Transform (s chunk : list Z) : list Z :=
  match s with
  | [s0; s1; s2; s3; s4; s5; s6; s7] =>
      word a := s0 in word b := s1 in word c := s2 in word d := s3 in
      word e := s4 in word f := s5 in word g := s6 in word h := s7 in
      word w0 := ReadBE64 chunk 0 in
      let '(d, h) := Round a b c d e f g h 0x428a2f98d728ae22 w0 in
      word w1 := ReadBE64 chunk 8 in
      let '(c, g) := Round h a b c d e f g 0x7137449123ef65cd w1 in
      word w2 := ReadBE64 chunk 16 in
      let '(b, f) := Round g h a b c d e f 0xb5c0fbcfec4d3b2f w2 in
      word w3 := ReadBE64 chunk 24 in
      let '(a, e) := Round f g h a b c d e 0xe9b5dba58189dbbc w3 in
      word w4 := ReadBE64 chunk 32 in
      let '(h, d) := Round e f g h a b c d 0x3956c25bf348b538 w4 in
      word w5 := ReadBE64 chunk 40 in
      let '(g, c) := Round d e f g h a b c 0x59f111f1b605d019 w5 in
      word w6 := ReadBE64 chunk 48 in
      let '(f, b) := Round c d e f g h a b 0x923f82a4af194f9b w6 in
      word w7 := ReadBE64 chunk 56 in
      let '(e, a) := Round b c d e f g h a 0xab1c5ed5da6d8118 w7 in
      word w8 := ReadBE64 chunk 64 in
      let '(d, h) := Round a b c d e f g h 0xd807aa98a3030242 w8 in
      word w9 := ReadBE64 chunk 72 in
      let '(c, g) := Round h a b c d e f g 0x12835b0145706fbe w9 in
      word w10 := ReadBE64 chunk 80 in
      let '(b, f) := Round g h a b c d e f 0x243185be4ee4b28c w10 in
      word w11 := ReadBE64 chunk 88 in
      let '(a, e) := Round f g h a b c d e 0x550c7dc3d5ffb4e2 w11 in
      word w12 := ReadBE64 chunk 96 in
      let '(h, d) := Round e f g h a b c d 0x72be5d74f27b896f w12 in
      word w13 := ReadBE64 chunk 104 in
      let '(g, c) := Round d e f g h a b c 0x80deb1fe3b1696b1 w13 in
      word w14 := ReadBE64 chunk 112 in
      let '(f, b) := Round c d e f g h a b 0x9bdc06a725c71235 w14 in
      word w15 := ReadBE64 chunk 120 in
      let '(e, a) := Round b c d e f g h a 0xc19bf174cf692694 w15 in
      word w0 := w0 ⊞ ((sigma1 w14) ⊞ w9 ⊞ (sigma0 w1)) in
      let '(d, h) := Round a b c d e f g h 0xe49b69c19ef14ad2 w0 in
      word w1 := w1 ⊞ ((sigma1 w15) ⊞ w10 ⊞ (sigma0 w2)) in
      let '(c, g) := Round h a b c d e f g 0xefbe4786384f25e3 w1 in
      word w2 := w2 ⊞ ((sigma1 w0) ⊞ w11 ⊞ (sigma0 w3)) in
      let '(b, f) := Round g h a b c d e f 0x0fc19dc68b8cd5b5 w2 in
      word w3 := w3 ⊞ ((sigma1 w1) ⊞ w12 ⊞ (sigma0 w4)) in
      let '(a, e) := Round f g h a b c d e 0x240ca1cc77ac9c65 w3 in
      word w4 := w4 ⊞ ((sigma1 w2) ⊞ w13 ⊞ (sigma0 w5)) in
      let '(h, d) := Round e f g h a b c d 0x2de92c6f592b0275 w4 in
      word w5 := w5 ⊞ ((sigma1 w3) ⊞ w14 ⊞ (sigma0 w6)) in
      let '(g, c) := Round d e f g h a b c 0x4a7484aa6ea6e483 w5 in
      word w6 := w6 ⊞ ((sigma1 w4) ⊞ w15 ⊞ (sigma0 w7)) in
      let '(f, b) := Round c d e f g h a b 0x5cb0a9dcbd41fbd4 w6 in
      word w7 := w7 ⊞ ((sigma1 w5) ⊞ w0 ⊞ (sigma0 w8)) in
      let '(e, a) := Round b c d e f g h a 0x76f988da831153b5 w7 in
      word w8 := w8 ⊞ ((sigma1 w6) ⊞ w1 ⊞ (sigma0 w9)) in
      let '(d, h) := Round a b c d e f g h 0x983e5152ee66dfab w8 in
      word w9 := w9 ⊞ ((sigma1 w7) ⊞ w2 ⊞ (sigma0 w10)) in
      let '(c, g) := Round h a b c d e f g 0xa831c66d2db43210 w9 in
      word w10 := w10 ⊞ ((sigma1 w8) ⊞ w3 ⊞ (sigma0 w11)) in
      let '(b, f) := Round g h a b c d e f 0xb00327c898fb213f w10 in
      word w11 := w11 ⊞ ((sigma1 w9) ⊞ w4 ⊞ (sigma0 w12)) in
      let '(a, e) := Round f g h a b c d e 0xbf597fc7beef0ee4 w11 in
      word w12 := w12 ⊞ ((sigma1 w10) ⊞ w5 ⊞ (sigma0 w13)) in
      let '(h, d) := Round e f g h a b c d 0xc6e00bf33da88fc2 w12 in
      word w13 := w13 ⊞ ((sigma1 w11) ⊞ w6 ⊞ (sigma0 w14)) in
      let '(g, c) := Round d e f g h a b c 0xd5a79147930aa725 w13 in
      word w14 := w14 ⊞ ((sigma1 w12) ⊞ w7 ⊞ (sigma0 w15)) in
      let '(f, b) := Round c d e f g h a b 0x06ca6351e003826f w14 in
      word w15 := w15 ⊞ ((sigma1 w13) ⊞ w8 ⊞ (sigma0 w0)) in
      let '(e, a) := Round b c d e f g h a 0x142929670a0e6e70 w15 in
      word w0 := w0 ⊞ ((sigma1 w14) ⊞ w9 ⊞ (sigma0 w1)) in
      let '(d, h) := Round a b c d e f g h 0x27b70a8546d22ffc w0 in
      word w1 := w1 ⊞ ((sigma1 w15) ⊞ w10 ⊞ (sigma0 w2)) in
      let '(c, g) := Round h a b c d e f g 0x2e1b21385c26c926 w1 in
      word w2 := w2 ⊞ ((sigma1 w0) ⊞ w11 ⊞ (sigma0 w3)) in
      let '(b, f) := Round g h a b c d e f 0x4d2c6dfc5ac42aed w2 in
      word w3 := w3 ⊞ ((sigma1 w1) ⊞ w12 ⊞ (sigma0 w4)) in
      let '(a, e) := Round f g h a b c d e 0x53380d139d95b3df w3 in
      word w4 := w4 ⊞ ((sigma1 w2) ⊞ w13 ⊞ (sigma0 w5)) in
      let '(h, d) := Round e f g h a b c d 0x650a73548baf63de w4 in
      word w5 := w5 ⊞ ((sigma1 w3) ⊞ w14 ⊞ (sigma0 w6)) in
      let '(g, c) := Round d e f g h a b c 0x766a0abb3c77b2a8 w5 in
      word w6 := w6 ⊞ ((sigma1 w4) ⊞ w15 ⊞ (sigma0 w7)) in
      let '(f, b) := Round c d e f g h a b 0x81c2c92e47edaee6 w6 in
      word w7 := w7 ⊞ ((sigma1 w5) ⊞ w0 ⊞ (sigma0 w8)) in
      let '(e, a) := Round b c d e f g h a 0x92722c851482353b w7 in
      word w8 := w8 ⊞ ((sigma1 w6) ⊞ w1 ⊞ (sigma0 w9)) in
      let '(d, h) := Round a b c d e f g h 0xa2bfe8a14cf10364 w8 in
      word w9 := w9 ⊞ ((sigma1 w7) ⊞ w2 ⊞ (sigma0 w10)) in
      let '(c, g) := Round h a b c d e f g 0xa81a664bbc423001 w9 in
      word w10 := w10 ⊞ ((sigma1 w8) ⊞ w3 ⊞ (sigma0 w11)) in
      let '(b, f) := Round g h a b c d e f 0xc24b8b70d0f89791 w10 in
      word w11 := w11 ⊞ ((sigma1 w9) ⊞ w4 ⊞ (sigma0 w12)) in
      let '(a, e) := Round f g h a b c d e 0xc76c51a30654be30 w11 in
      word w12 := w12 ⊞ ((sigma1 w10) ⊞ w5 ⊞ (sigma0 w13)) in
      let '(h, d) := Round e f g h a b c d 0xd192e819d6ef5218 w12 in
      word w13 := w13 ⊞ ((sigma1 w11) ⊞ w6 ⊞ (sigma0 w14)) in
      let '(g, c) := Round d e f g h a b c 0xd69906245565a910 w13 in
      word w14 := w14 ⊞ ((sigma1 w12) ⊞ w7 ⊞ (sigma0 w15)) in
      let '(f, b) := Round c d e f g h a b 0xf40e35855771202a w14 in
      word w15 := w15 ⊞ ((sigma1 w13) ⊞ w8 ⊞ (sigma0 w0)) in
      let '(e, a) := Round b c d e f g h a 0x106aa07032bbd1b8 w15 in
      word w0 := w0 ⊞ ((sigma1 w14) ⊞ w9 ⊞ (sigma0 w1)) in
      let '(d, h) := Round a b c d e f g h 0x19a4c116b8d2d0c8 w0 in
      word w1 := w1 ⊞ ((sigma1 w15) ⊞ w10 ⊞ (sigma0 w2)) in
      let '(c, g) := Round h a b c d e f g 0x1e376c085141ab53 w1 in
      word w2 := w2 ⊞ ((sigma1 w0) ⊞ w11 ⊞ (sigma0 w3)) in
      let '(b, f) := Round g h a b c d e f 0x2748774cdf8eeb99 w2 in
      word w3 := w3 ⊞ ((sigma1 w1) ⊞ w12 ⊞ (sigma0 w4)) in
      let '(a, e) := Round f g h a b c d e 0x34b0bcb5e19b48a8 w3 in
      word w4 := w4 ⊞ ((sigma1 w2) ⊞ w13 ⊞ (sigma0 w5)) in
      let '(h, d) := Round e f g h a b c d 0x391c0cb3c5c95a63 w4 in
      word w5 := w5 ⊞ ((sigma1 w3) ⊞ w14 ⊞ (sigma0 w6)) in
      let '(g, c) := Round d e f g h a b c 0x4ed8aa4ae3418acb w5 in
      word w6 := w6 ⊞ ((sigma1 w4) ⊞ w15 ⊞ (sigma0 w7)) in
      let '(f, b) := Round c d e f g h a b 0x5b9cca4f7763e373 w6 in
      word w7 := w7 ⊞ ((sigma1 w5) ⊞ w0 ⊞ (sigma0 w8)) in
      let '(e, a) := Round b c d e f g h a 0x682e6ff3d6b2b8a3 w7 in
      word w8 := w8 ⊞ ((sigma1 w6) ⊞ w1 ⊞ (sigma0 w9)) in
      let '(d, h) := Round a b c d e f g h 0x748f82ee5defb2fc w8 in
      word w9 := w9 ⊞ ((sigma1 w7) ⊞ w2 ⊞ (sigma0 w10)) in
      let '(c, g) := Round h a b c d e f g 0x78a5636f43172f60 w9 in
      word w10 := w10 ⊞ ((sigma1 w8) ⊞ w3 ⊞ (sigma0 w11)) in
      let '(b, f) := Round g h a b c d e f 0x84c87814a1f0ab72 w10 in
      word w11 := w11 ⊞ ((sigma1 w9) ⊞ w4 ⊞ (sigma0 w12)) in
      let '(a, e) := Round f g h a b c d e 0x8cc702081a6439ec w11 in
      word w12 := w12 ⊞ ((sigma1 w10) ⊞ w5 ⊞ (sigma0 w13)) in
      let '(h, d) := Round e f g h a b c d 0x90befffa23631e28 w12 in
      word w13 := w13 ⊞ ((sigma1 w11) ⊞ w6 ⊞ (sigma0 w14)) in
      let '(g, c) := Round d e f g h a b c 0xa4506cebde82bde9 w13 in
      word w14 := w14 ⊞ ((sigma1 w12) ⊞ w7 ⊞ (sigma0 w15)) in
      let '(f, b) := Round c d e f g h a b 0xbef9a3f7b2c67915 w14 in
      word w15 := w15 ⊞ ((sigma1 w13) ⊞ w8 ⊞ (sigma0 w0)) in
      let '(e, a) := Round b c d e f g h a 0xc67178f2e372532b w15 in
      word w0 := w0 ⊞ ((sigma1 w14) ⊞ w9 ⊞ (sigma0 w1)) in
      let '(d, h) := Round a b c d e f g h 0xca273eceea26619c w0 in
      word w1 := w1 ⊞ ((sigma1 w15) ⊞ w10 ⊞ (sigma0 w2)) in
      let '(c, g) := Round h a b c d e f g 0xd186b8c721c0c207 w1 in
      word w2 := w2 ⊞ ((sigma1 w0) ⊞ w11 ⊞ (sigma0 w3)) in
      let '(b, f) := Round g h a b c d e f 0xeada7dd6cde0eb1e w2 in
      word w3 := w3 ⊞ ((sigma1 w1) ⊞ w12 ⊞ (sigma0 w4)) in
      let '(a, e) := Round f g h a b c d e 0xf57d4f7fee6ed178 w3 in
      word w4 := w4 ⊞ ((sigma1 w2) ⊞ w13 ⊞ (sigma0 w5)) in
      let '(h, d) := Round e f g h a b c d 0x06f067aa72176fba w4 in
      word w5 := w5 ⊞ ((sigma1 w3) ⊞ w14 ⊞ (sigma0 w6)) in
      let '(g, c) := Round d e f g h a b c 0x0a637dc5a2c898a6 w5 in
      word w6 := w6 ⊞ ((sigma1 w4) ⊞ w15 ⊞ (sigma0 w7)) in
      let '(f, b) := Round c d e f g h a b 0x113f9804bef90dae w6 in
      word w7 := w7 ⊞ ((sigma1 w5) ⊞ w0 ⊞ (sigma0 w8)) in
      let '(e, a) := Round b c d e f g h a 0x1b710b35131c471b w7 in
      word w8 := w8 ⊞ ((sigma1 w6) ⊞ w1 ⊞ (sigma0 w9)) in
      let '(d, h) := Round a b c d e f g h 0x28db77f523047d84 w8 in
      word w9 := w9 ⊞ ((sigma1 w7) ⊞ w2 ⊞ (sigma0 w10)) in
      let '(c, g) := Round h a b c d e f g 0x32caab7b40c72493 w9 in
      word w10 := w10 ⊞ ((sigma1 w8) ⊞ w3 ⊞ (sigma0 w11)) in
      let '(b, f) := Round g h a b c d e f 0x3c9ebe0a15c9bebc w10 in
      word w11 := w11 ⊞ ((sigma1 w9) ⊞ w4 ⊞ (sigma0 w12)) in
      let '(a, e) := Round f g h a b c d e 0x431d67c49c100d4c w11 in
      word w12 := w12 ⊞ ((sigma1 w10) ⊞ w5 ⊞ (sigma0 w13)) in
      let '(h, d) := Round e f g h a b c d 0x4cc5d4becb3e42b6 w12 in
      word w13 := w13 ⊞ ((sigma1 w11) ⊞ w6 ⊞ (sigma0 w14)) in
      let '(g, c) := Round d e f g h a b c 0x597f299cfc657e2a w13 in
      let '(f, b) := Round c d e f g h a b 0x5fcb6fab3ad6faec (w14 ⊞ (sigma1 w12) ⊞ w7 ⊞ (sigma0 w15)) in
      let '(e, a) := Round b c d e f g h a 0x6c44198c4a475817 (w15 ⊞ (sigma1 w13) ⊞ w8 ⊞ (sigma0 w0)) in
      [s0 ⊞ a; s1 ⊞ b; s2 ⊞ c; s3 ⊞ d; s4 ⊞ e; s5 ⊞ f; s6 ⊞ g; s7 ⊞ h]
  | _ => s
  end.
End sha512.

(** ** The hashers *)

(** [CSHA256]; the buffer starts with whatever is in memory. *)
Definition CSHA256 (buf : list Z) : hasher := {| h_s := sha256.Initialize; h_buf := buf; h_bytes := 0 |}.
Definition CSHA256_Write : hasher → list Z → hasher := Write 64 sha256.Transform.

(** [FinalizeNoPadding]; [None] is the exception. *)
Definition CSHA256_FinalizeNoPadding (h : hasher) (enforce_compression : bool) : option (list Z) :=
  if enforce_compression && negb (h.(h_bytes) =? 64) then None
  else Some (concat (WriteBE32 <$> h.(h_s))).

(** [Finalize] writes the padding, of which [pad] has 64 bytes, the first of
    them 0x80, and the size. *)
Definition CSHA256_pad (h : hasher) : hasher :=
  let sizedesc := WriteBE64 (u64 (Z.shiftl h.(h_bytes) 3)) in
  let h' := CSHA256_Write h (take (Z.to_nat (1 + (119 - h.(h_bytes) mod 64) mod 64)) (0x80 :: replicate 63 0)) in
  CSHA256_Write h' sizedesc.
Definition CSHA256_Finalize (h : hasher) : option (list Z) := CSHA256_FinalizeNoPadding (CSHA256_pad h) false.
Definition CSHA256_Reset (h : hasher) : hasher := {| h_s := sha256.Initialize; h_buf := h.(h_buf); h_bytes := 0 |}.

Definition CSHA512 (buf : list Z) : hasher := {| h_s := sha512.Initialize; h_buf := buf; h_bytes := 0 |}.
Definition CSHA512_Write : hasher → list Z → hasher := Write 128 sha512.Transform.
Definition CSHA512_pad (h : hasher) : hasher :=
  let sizedesc := replicate 8 0 ++ WriteBE64 (u64 (Z.shiftl h.(h_bytes) 3)) in
  let h' := CSHA512_Write h (take (Z.to_nat (1 + (239 - h.(h_bytes) mod 128) mod 128)) (0x80 :: replicate 127 0)) in
  CSHA512_Write h' sizedesc.
Definition CSHA512_Finalize (h : hasher) : list Z := concat (WriteBE64 <$> (CSHA512_pad h).(h_s)).
Definition CSHA512_Reset (h : hasher) : hasher := {| h_s := sha512.Initialize; h_buf := h.(h_buf); h_bytes := 0 |}.

(** ** FIPS 180-4 *)

(** The primes below [n], and the first [bits] bits of the fractional parts of
    their square and cube roots. *)
Definition is_prime_bool (p : Z) : bool := forallb (λ d, negb (p mod Z.of_nat d =? 0)) (seq 2 (Z.to_nat p - 2)).
Definition primes_below (n : nat) : list Z := filter is_prime_bool (Z.of_nat <$> seq 2 (n - 2)).

(** The cube root of [x] rounded down, when it has at most [n] bits. *)
Fixpoint icbrt (n : nat) (x acc : Z) : Z :=
  match n with
  | O => acc
  | S n => let y := acc + 2 ^ Z.of_nat n in icbrt n x (if y ^ 3 <=? x then y else acc)
  end.
Definition sqrt_frac (bits p : Z) : Z := Z.sqrt (p * 2 ^ (2 * bits)) mod 2 ^ bits.
Definition cbrt_frac (bits p : Z) : Z := icbrt (Z.to_nat (bits + 3)) (p * 2 ^ (3 * bits)) 0 mod 2 ^ bits.

Section fips.
(** The word size, the rotations of the four functions and the constants. *)
Variables (w : Z) (Sr0 Sr1 : Z * Z * Z) (sr0 sr1 : Z * Z * Z) (K : list Z).

Definition ROTR (n x : Z) : Z := Z.lor (Z.shiftr x n) (Z.shiftl x (w - n) mod 2 ^ w).
Definition SHR (n x : Z) : Z := Z.shiftr x n.
Definition fips_Ch (x y z : Z) : Z := Z.land x y ⊕ Z.land (Z.lnot x) z.
Definition fips_Maj (x y z : Z) : Z := Z.land x y ⊕ Z.land x z ⊕ Z.land y z.
Definition big_sigma (r : Z * Z * Z) (x : Z) : Z := let '(i, j, k) := r in ROTR i x ⊕ ROTR j x ⊕ ROTR k x.
Definition small_sigma (r : Z * Z * Z) (x : Z) : Z := let '(i, j, k) := r in ROTR i x ⊕ ROTR j x ⊕ SHR k x.

(** The registers, and one step of the compression. *)
Record regs := Regs { r_a : Z; r_b : Z; r_c : Z; r_d : Z; r_e : Z; r_f : Z; r_g : Z; r_h : Z }.
Definition fips_step (st : regs) (k wt : Z) : regs :=
  let '(Regs a b c d e f g h) := st in
  let T1 := h + big_sigma Sr1 e + fips_Ch e f g + k + wt in
  let T2 := big_sigma Sr0 a + fips_Maj a b c in
  Regs ((T1 + T2) mod 2 ^ w) a b c ((d + T1) mod 2 ^ w) e f g.

(** The word that follows 16 words of the schedule. *)
Definition fips_next (win : list Z) : Z :=
  (small_sigma sr1 (nth 14 win 0) + nth 9 win 0 + small_sigma sr0 (nth 1 win 0) + nth 0 win 0) mod 2 ^ w.

(** The rounds; [win] is the schedule from the current word on. *)
Fixpoint fips_rounds (ks win : list Z) (st : regs) : regs :=
  match ks with
  | [] => st
  | k :: ks => fips_rounds ks (tail win ++ [fips_next win]) (fips_step st k (nth 0 win 0))
  end.

Definition add_regs (H : list Z) (r : regs) : list Z :=
  zip_with (λ x y, (x + y) mod 2 ^ w) H [r_a r; r_b r; r_c r; r_d r; r_e r; r_f r; r_g r; r_h r].

Definition fips_compress (H : list Z) (block : list Z) : list Z :=
  let words := (λ i, ReadLE (reverse (take (Z.to_nat (w / 8)) (drop (Z.to_nat (w / 8) * i) block)))) <$> seq 0 16 in
  let r := fips_rounds K words (Regs (nth 0 H 0) (nth 1 H 0) (nth 2 H 0) (nth 3 H 0)
                                     (nth 4 H 0) (nth 5 H 0) (nth 6 H 0) (nth 7 H 0)) in
  add_regs H r.
End fips.

Definition fips_compress256 : list Z → list Z → list Z :=
  fips_compress 32 (2, 13, 22) (6, 11, 25) (7, 18, 3) (17, 19, 10) (cbrt_frac 32 <$> primes_below 312).
Definition fips_compress512 : list Z → list Z → list Z :=
  fips_compress 64 (28, 34, 39) (14, 18, 41) (1, 8, 7) (19, 61, 6) (cbrt_frac 64 <$> primes_below 410).

(** The hash: the blocks of the padded message, from the square roots of the
    first eight primes on. *)
Definition fips_SHA256 (m : list Z) : list Z :=
  concat ((λ x, reverse (WriteLE 4 x)) <$>
    run_all 64 fips_compress256 (sqrt_frac 32 <$> primes_below 20) (md_pad 64 (reverse (WriteLE 8 (8 * Z.of_nat (length m)))) m)).
Definition fips_SHA512 (m : list Z) : list Z :=
  concat ((λ x, reverse (WriteLE 8 x)) <$>
    run_all 128 fips_compress512 (sqrt_frac 64 <$> primes_below 20) (md_pad 128 (reverse (WriteLE 16 (8 * Z.of_nat (length m)))) m)).

(** ** The compression functions *)

Lemma Ch_fips x y z : z ⊕ (Z.land x (y ⊕ z)) = fips_Ch x y z.
Proof.
  apply Z.bits_inj'. intros i Hi. unfold fips_Ch. rewrite !Z.lxor_spec, !Z.land_spec, Z.lxor_spec, Z.lnot_spec by lia.
  by destruct (Z.testbit x i), (Z.testbit y i), (Z.testbit z i).
Qed.

Lemma Maj_fips x y z : Z.lor (Z.land x y) (Z.land z (Z.lor x y)) = fips_Maj x y z.
Proof.
  apply Z.bits_inj'. intros i Hi. unfold fips_Maj. rewrite !Z.lxor_spec, Z.lor_spec, !Z.land_spec, Z.lor_spec by lia.
  by destruct (Z.testbit x i), (Z.testbit y i), (Z.testbit z i).
Qed.

(** The wrap-arounds inside a sum. *)
Lemma sum4_mod n x y z t : (((x + y) mod n + z) mod n + t) mod n = (x + y + z + t) mod n.
Proof. by rewrite (Zplus_mod_idemp_l (x + y)), Zplus_mod_idemp_l. Qed.

Lemma sum5_mod n x y z t v : ((((x + y) mod n + z) mod n + t) mod n + v) mod n = (x + y + z + t + v) mod n.
Proof. by rewrite (sum4_mod n x y), Zplus_mod_idemp_l. Qed.

(** One line of the unrolled code against one step of the standard. *)

Lemma round256 a b c d e f g h k w :
  fips_step 32 (2, 13, 22) (6, 11, 25) (Regs a b c d e f g h) k w =
  let '(d', h') := sha256.Round a b c d e f g h k w in Regs h' a b c d' e f g.
Proof.
  unfold sha256.Round, fips_step, sha256.Ch, sha256.Maj. rewrite Ch_fips, Maj_fips.
  change (big_sigma 32 (6, 11, 25) e) with (sha256.Sigma1 e). change (big_sigma 32 (2, 13, 22) a) with (sha256.Sigma0 a).
  cbn zeta. unfold sha256.add, u32. rewrite !(sum5_mod _ h), !Zplus_mod_idemp_r, !Zplus_mod_idemp_l. done.
Qed.

Lemma rounds256 k ks w0 w1 w2 w3 w4 w5 w6 w7 w8 w9 w10 w11 w12 w13 w14 w15 a b c d e f g h :
  fips_rounds 32 (2, 13, 22) (6, 11, 25) (7, 18, 3) (17, 19, 10) (k :: ks)
    [w0; w1; w2; w3; w4; w5; w6; w7; w8; w9; w10; w11; w12; w13; w14; w15] (Regs a b c d e f g h) =
  let '(d', h') := sha256.Round a b c d e f g h k w0 in
  fips_rounds 32 (2, 13, 22) (6, 11, 25) (7, 18, 3) (17, 19, 10) ks
    [w1; w2; w3; w4; w5; w6; w7; w8; w9; w10; w11; w12; w13; w14; w15;
     sha256.add w0 (sha256.add (sha256.add (sha256.sigma1 w14) w9) (sha256.sigma0 w1))] (Regs h' a b c d' e f g).
Proof.
  cbn [fips_rounds nth tail app]. rewrite round256. destruct (sha256.Round a b c d e f g h k w0) as [d' h'].
  do 2 f_equal. do 15 f_equal. unfold fips_next, sha256.add, u32. cbn [nth].
  change (small_sigma 32 (17, 19, 10) w14) with (sha256.sigma1 w14). change (small_sigma 32 (7, 18, 3) w1) with (sha256.sigma0 w1).
  rewrite Zplus_mod_idemp_l, Zplus_mod_idemp_r. f_equal. lia.
Qed.

Lemma add256_assoc x y z t : sha256.add (sha256.add (sha256.add x y) z) t = sha256.add x (sha256.add (sha256.add y z) t).
Proof. unfold sha256.add, u32. rewrite (sum4_mod _ x), (Zplus_mod_idemp_l (y + z)), Zplus_mod_idemp_r. f_equal. lia. Qed.

Lemma round512 a b c d e f g h k w :
  fips_step 64 (28, 34, 39) (14, 18, 41) (Regs a b c d e f g h) k w =
  let '(d', h') := sha512.Round a b c d e f g h k w in Regs h' a b c d' e f g.
Proof.
  unfold sha512.Round, fips_step, sha512.Ch, sha512.Maj. rewrite Ch_fips, Maj_fips.
  change (big_sigma 64 (14, 18, 41) e) with (sha512.Sigma1 e). change (big_sigma 64 (28, 34, 39) a) with (sha512.Sigma0 a).
  cbn zeta. unfold sha512.add, u64. rewrite !(sum5_mod _ h), !Zplus_mod_idemp_r, !Zplus_mod_idemp_l. done.
Qed.

Lemma rounds512 k ks w0 w1 w2 w3 w4 w5 w6 w7 w8 w9 w10 w11 w12 w13 w14 w15 a b c d e f g h :
  fips_rounds 64 (28, 34, 39) (14, 18, 41) (1, 8, 7) (19, 61, 6) (k :: ks)
    [w0; w1; w2; w3; w4; w5; w6; w7; w8; w9; w10; w11; w12; w13; w14; w15] (Regs a b c d e f g h) =
  let '(d', h') := sha512.Round a b c d e f g h k w0 in
  fips_rounds 64 (28, 34, 39) (14, 18, 41) (1, 8, 7) (19, 61, 6) ks
    [w1; w2; w3; w4; w5; w6; w7; w8; w9; w10; w11; w12; w13; w14; w15;
     sha512.add w0 (sha512.add (sha512.add (sha512.sigma1 w14) w9) (sha512.sigma0 w1))] (Regs h' a b c d' e f g).
Proof.
  cbn [fips_rounds nth tail app]. rewrite round512. destruct (sha512.Round a b c d e f g h k w0) as [d' h'].
  do 2 f_equal. do 15 f_equal. unfold fips_next, sha512.add, u64. cbn [nth].
  change (small_sigma 64 (19, 61, 6) w14) with (sha512.sigma1 w14). change (small_sigma 64 (1, 8, 7) w1) with (sha512.sigma0 w1).
  rewrite Zplus_mod_idemp_l, Zplus_mod_idemp_r. f_equal. lia.
Qed.

Lemma add512_assoc x y z t : sha512.add (sha512.add (sha512.add x y) z) t = sha512.add x (sha512.add (sha512.add y z) t).
Proof. unfold sha512.add, u64. rewrite (sum4_mod _ x), (Zplus_mod_idemp_l (y + z)), Zplus_mod_idemp_r. f_equal. lia. Qed.

(** Goes through a word and a round of the unrolled code, giving names to the
    values so that the terms stay small. *)
Lemma word_named {A : Type} (e : Z) (b : Z → A) (r : A) : (∀ v, v = e → b v = r) → assign e b = r.
Proof. intros Hv. by apply Hv. Qed.

Ltac name_word :=
  apply word_named;
  let v := fresh "v" in let E := fresh "E" in intros v E; try unfold ReadBE32, ReadBE64 in E;
  (* the word is the head of the window *)
  lazymatch goal with
  | |- _ = add_regs _ _ (fips_rounds _ _ _ _ _ _ (?u :: _) _) =>
      match goal with E' : u = _ |- _ => rewrite <- E' in E end; subst v
  end.

(** The round itself, and the word that the window gains. *)
Ltac name_round rounds :=
  lazymatch goal with
  | |- match ?R with _ => _ end = _ =>
      rewrite rounds; destruct R; cbv beta iota;
      lazymatch goal with
      | |- _ = add_regs _ _ (fips_rounds _ _ _ _ _ _ [_; _; _; _; _; _; _; _; _; _; _; _; _; _; _; ?n] _) =>
          let u := fresh "u" in let E := fresh "E" in remember n as u eqn:E
      end
  end.

(** The words of the block. *)
Ltac name_block :=
  repeat lazymatch goal with
  | |- context [ReadLE ?r] => let u := fresh "u" in let E := fresh "E" in remember (ReadLE r) as u eqn:E
  end.

(** The last two words are used without being stored. *)
Ltac inline_word assoc :=
  lazymatch goal with
  | |- _ = add_regs _ _ (fips_rounds _ _ _ _ _ _ (?u :: _) _) =>
      rewrite assoc; match goal with E' : u = _ |- _ => rewrite <- E' end
  end.

Lemma Transform256_fips s0 s1 s2 s3 s4 s5 s6 s7 chunk :
  sha256.Transform [s0; s1; s2; s3; s4; s5; s6; s7] chunk = fips_compress256 [s0; s1; s2; s3; s4; s5; s6; s7] chunk.
Proof.
  unfold fips_compress256, fips_compress.
  let K := eval vm_compute in (cbrt_frac 32 <$> primes_below 312) in
    replace (cbrt_frac 32 <$> primes_below 312) with K by (vm_compute; reflexivity).
  change (Z.to_nat (32 / 8)) with 4%nat. cbn [seq fmap list_fmap Nat.mul Nat.add nth]. name_block.
  cbv beta iota delta [sha256.Transform].  do 8 (apply word_named; intros ? ->).
  do 62 (name_word; name_round rounds256).
  do 2 (inline_word add256_assoc; name_round rounds256). reflexivity.
Qed.

Lemma Transform512_fips s0 s1 s2 s3 s4 s5 s6 s7 chunk :
  sha512.Transform [s0; s1; s2; s3; s4; s5; s6; s7] chunk = fips_compress512 [s0; s1; s2; s3; s4; s5; s6; s7] chunk.
Proof.
  unfold fips_compress512, fips_compress.
  let K := eval vm_compute in (cbrt_frac 64 <$> primes_below 410) in
    replace (cbrt_frac 64 <$> primes_below 410) with K by (vm_compute; reflexivity).
  change (Z.to_nat (64 / 8)) with 8%nat. cbn [seq fmap list_fmap Nat.mul Nat.add nth]. name_block.
  cbv beta iota delta [sha512.Transform].  do 8 (apply word_named; intros ? ->).
  do 78 (name_word; name_round rounds512).
  do 2 (inline_word add512_assoc; name_round rounds512). reflexivity.
Qed.

(** ** The hashers against the standard *)

Lemma length_fips_compress w Sr0 Sr1 sr0 sr1 K H block :
  length H = 8%nat → length (fips_compress w Sr0 Sr1 sr0 sr1 K H block) = 8%nat.
Proof. intros Hl. unfold fips_compress, add_regs. cbn zeta. rewrite length_zip_with, Hl. done. Qed.

Lemma Transform256_eq s b : length s = 8%nat →
  sha256.Transform s b = fips_compress256 s b ∧ length (fips_compress256 s b) = 8%nat.
Proof.
  intros Hs. split; [|by apply length_fips_compress].
  destruct s as [|? [|? [|? [|? [|? [|? [|? [|? [|]]]]]]]]]; try discriminate Hs. apply Transform256_fips.
Qed.

Lemma Transform512_eq s b : length s = 8%nat →
  sha512.Transform s b = fips_compress512 s b ∧ length (fips_compress512 s b) = 8%nat.
Proof.
  intros Hs. split; [|by apply length_fips_compress].
  destruct s as [|? [|? [|? [|? [|? [|? [|? [|? [|]]]]]]]]]; try discriminate Hs. apply Transform512_fips.
Qed.

Lemma Initialize256_eq : sha256.Initialize = (sqrt_frac 32 <$> primes_below 20).
Proof. vm_compute. reflexivity. Qed.
Lemma Initialize512_eq : sha512.Initialize = (sqrt_frac 64 <$> primes_below 20).
Proof. vm_compute. reflexivity. Qed.

Lemma CSHA256_Finalize_spec h m :
  represents 64 sha256.Transform sha256.Initialize h m → CSHA256_Finalize h = Some (fips_SHA256 m).
Proof.
  intros Hr. unfold CSHA256_Finalize, CSHA256_pad, CSHA256_FinalizeNoPadding. cbn [andb]. f_equal. unfold fips_SHA256. f_equal. f_equal.
  rewrite (rp_bytes _ _ _ _ _ Hr). unfold CSHA256_Write, WriteBE64. rewrite size_bytes.
  rewrite (finalize_state 64 _ _ 8 119) by (done || lia || by exists (2 ^ 58)).
  rewrite <- Initialize256_eq. apply (run_blocks_ext 8); [intros; by apply Transform256_eq|done].
Qed.

Lemma CSHA512_Finalize_spec h m :
  8 * Z.of_nat (length m) < 2 ^ 64 →
  represents 128 sha512.Transform sha512.Initialize h m → CSHA512_Finalize h = fips_SHA512 m.
Proof.
  intros Hlen Hr. unfold CSHA512_Finalize, CSHA512_pad, fips_SHA512. f_equal. f_equal.
  rewrite (rp_bytes _ _ _ _ _ Hr). unfold CSHA512_Write, WriteBE64. rewrite size_bytes.
  assert (replicate 8 0 ++ reverse (WriteLE 8 (8 * Z.of_nat (length m))) = reverse (WriteLE 16 (8 * Z.of_nat (length m)))) as ->.
  { change 16%nat with (8 + 8)%nat. rewrite WriteLE_add, (Z.div_small _ (256 ^ Z.of_nat 8)), reverse_app by (cbn; lia). done. }
  rewrite (finalize_state 128 _ _ 16 239) by (done || lia || by exists (2 ^ 57)).
  rewrite <- Initialize512_eq. apply (run_blocks_ext 8); [intros; by apply Transform512_eq|done].
Qed.

(** C34: The hashers compute the hash functions of FIPS 180-4: whatever is in
    the uninitialised buffer and however the message is cut into calls of
    [Write], [CSHA256] returns the SHA-256 hash of the message, and [CSHA512]
    the SHA-512 hash, for messages of less than 2^61 bytes. *)
Theorem sha2_hashers_compute_fips (buf256 buf512 : list Z) (chunks : list (list Z)) :
  length buf256 = 64%nat → length buf512 = 128%nat → 8 * Z.of_nat (length (concat chunks)) < 2 ^ 64 →
  CSHA256_Finalize (fold_left CSHA256_Write chunks (CSHA256 buf256)) = Some (fips_SHA256 (concat chunks)) ∧
  CSHA512_Finalize (fold_left CSHA512_Write chunks (CSHA512 buf512)) = fips_SHA512 (concat chunks).
Proof.
  intros H256 H512 Hlen. split.
  - apply CSHA256_Finalize_spec, (Writes_represent 64 _ _ chunks _ []);
      [lia|exists (2 ^ 58); done|apply represents_init; [lia|done]].
  - apply CSHA512_Finalize_spec; [done|]. apply (Writes_represent 128 _ _ chunks _ []);
      [lia|exists (2 ^ 57); done|apply represents_init; [lia|done]].
Qed.

Lemma sha2_hashers_compute_fips_witness :
  CSHA256_Finalize (fold_left CSHA256_Write [[97]; [98; 99]] (CSHA256 (replicate 64 7))) = Some (fips_SHA256 [97; 98; 99]) ∧
  CSHA512_Finalize (fold_left CSHA512_Write [[97]; [98; 99]] (CSHA512 (replicate 128 7))) = fips_SHA512 [97; 98; 99].
Proof. apply (sha2_hashers_compute_fips (replicate 64 7) (replicate 128 7) [[97]; [98; 99]]); [done|done|done]. Defined.

(** The test vector of the standard for the message "abc". *)
Example sha256_abc : CSHA256_Finalize (CSHA256_Write (CSHA256 (replicate 64 0)) [97; 98; 99]) =
  Some [186; 120; 22; 191; 143; 1; 207; 234; 65; 65; 64; 222; 93; 174; 34; 35; 176; 3; 97; 163; 150; 23; 122; 156;
        180; 16; 255; 97; 242; 0; 21; 173].
Proof. vm_compute. reflexivity. Qed.
