(* ===== verification/Sha1Ripemd.v ===== *)
(** * Sha1Ripemd: SHA-1 and RIPEMD-160 ([crypto/sha1.cpp], [crypto/ripemd160.cpp])

    The modules [sha1] and [ripemd160] are the namespaces of the code.  The
    unrolled compression functions are compared with the round descriptions of
    FIPS 180-4 and of the RIPEMD-160 paper, which have logical functions of
    their own on integers, and the hashers with the hash functions. *)

From S2P Require Import Prelude Script Crypto Sha2.
Local Open Scope Z_scope.
Local Infix "⊕" := Z.lxor (at level 50, left associativity).

(** Operations on [uint32_t]. *)
Definition add32 (x y : Z) : Z := u32 (x + y).
Local Infix "⊞" := add32 (at level 50, left associativity).
Definition not32 (x : Z) : Z := u32 (Z.lnot x).

Module sha1.

(** [Round]: the new values of [b] and [e]. *)
Definition Round (a b c d e f k w : Z) : Z * Z :=
  (Z.lor (u32 (Z.shiftl b 30)) (Z.shiftr b 2),
   e ⊞ (Z.lor (u32 (Z.shiftl a 5)) (Z.shiftr a 27) ⊞ f ⊞ k ⊞ w)).

Definition f1 (b c d : Z) : Z := d ⊕ (Z.land b (c ⊕ d)).
Definition f2 (b c d : Z) : Z := b ⊕ c ⊕ d.
Definition f3 (b c d : Z) : Z := Z.lor (Z.land b c) (Z.land d (Z.lor b c)).

Definition left (x : Z) : Z := Z.lor (u32 (Z.shiftl x 1)) (Z.shiftr x 31).

Definition Initialize : list Z := [0x67452301; 0xEFCDAB89; 0x98BADCFE; 0x10325476; 0xC3D2E1F0].

Definition k1 : Z := 0x5A827999.
Definition k2 : Z := 0x6ED9EBA1.
Definition k3 : Z := 0x8F1BBCDC.
Definition k4 : Z := 0xCA62C1D6.

Definition Transform (s chunk : list Z) : list Z :=
  match s with
  | [s0; s1; s2; s3; s4] =>
      word a := s0 in word b := s1 in word c := s2 in word d := s3 in word e := s4 in
      word w0 := ReadBE32 chunk 0 in
      let '(b, e) := Round a b c d e (f1 b c d) k1 w0 in
      word w1 := ReadBE32 chunk 4 in
      let '(a, d) := Round e a b c d (f1 a b c) k1 w1 in
      word w2 := ReadBE32 chunk 8 in
      let '(e, c) := Round d e a b c (f1 e a b) k1 w2 in
      word w3 := ReadBE32 chunk 12 in
      let '(d, b) := Round c d e a b (f1 d e a) k1 w3 in
      word w4 := ReadBE32 chunk 16 in
      let '(c, a) := Round b c d e a (f1 c d e) k1 w4 in
      word w5 := ReadBE32 chunk 20 in
      let '(b, e) := Round a b c d e (f1 b c d) k1 w5 in
      word w6 := ReadBE32 chunk 24 in
      let '(a, d) := Round e a b c d (f1 a b c) k1 w6 in
      word w7 := ReadBE32 chunk 28 in
      let '(e, c) := Round d e a b c (f1 e a b) k1 w7 in
      word w8 := ReadBE32 chunk 32 in
      let '(d, b) := Round c d e a b (f1 d e a) k1 w8 in
      word w9 := ReadBE32 chunk 36 in
      let '(c, a) := Round b c d e a (f1 c d e) k1 w9 in
      word w10 := ReadBE32 chunk 40 in
      let '(b, e) := Round a b c d e (f1 b c d) k1 w10 in
      word w11 := ReadBE32 chunk 44 in
      let '(a, d) := Round e a b c d (f1 a b c) k1 w11 in
      word w12 := ReadBE32 chunk 48 in
      let '(e, c) := Round d e a b c (f1 e a b) k1 w12 in
      word w13 := ReadBE32 chunk 52 in
      let '(d, b) := Round c d e a b (f1 d e a) k1 w13 in
      word w14 := ReadBE32 chunk 56 in
      let '(c, a) := Round b c d e a (f1 c d e) k1 w14 in
      word w15 := ReadBE32 chunk 60 in
      let '(b, e) := Round a b c d e (f1 b c d) k1 w15 in
      word w0 := left (w0 ⊕ w13 ⊕ w8 ⊕ w2) in
      let '(a, d) := Round e a b c d (f1 a b c) k1 w0 in
      word w1 := left (w1 ⊕ w14 ⊕ w9 ⊕ w3) in
      let '(e, c) := Round d e a b c (f1 e a b) k1 w1 in
      word w2 := left (w2 ⊕ w15 ⊕ w10 ⊕ w4) in
      let '(d, b) := Round c d e a b (f1 d e a) k1 w2 in
      word w3 := left (w3 ⊕ w0 ⊕ w11 ⊕ w5) in
      let '(c, a) := Round b c d e a (f1 c d e) k1 w3 in
      word w4 := left (w4 ⊕ w1 ⊕ w12 ⊕ w6) in
      let '(b, e) := Round a b c d e (f2 b c d) k2 w4 in
      word w5 := left (w5 ⊕ w2 ⊕ w13 ⊕ w7) in
      let '(a, d) := Round e a b c d (f2 a b c) k2 w5 in
      word w6 := left (w6 ⊕ w3 ⊕ w14 ⊕ w8) in
      let '(e, c) := Round d e a b c (f2 e a b) k2 w6 in
      word w7 := left (w7 ⊕ w4 ⊕ w15 ⊕ w9) in
      let '(d, b) := Round c d e a b (f2 d e a) k2 w7 in
      word w8 := left (w8 ⊕ w5 ⊕ w0 ⊕ w10) in
      let '(c, a) := Round b c d e a (f2 c d e) k2 w8 in
      word w9 := left (w9 ⊕ w6 ⊕ w1 ⊕ w11) in
      let '(b, e) := Round a b c d e (f2 b c d) k2 w9 in
      word w10 := left (w10 ⊕ w7 ⊕ w2 ⊕ w12) in
      let '(a, d) := Round e a b c d (f2 a b c) k2 w10 in
      word w11 := left (w11 ⊕ w8 ⊕ w3 ⊕ w13) in
      let '(e, c) := Round d e a b c (f2 e a b) k2 w11 in
      word w12 := left (w12 ⊕ w9 ⊕ w4 ⊕ w14) in
      let '(d, b) := Round c d e a b (f2 d e a) k2 w12 in
      word w13 := left (w13 ⊕ w10 ⊕ w5 ⊕ w15) in
      let '(c, a) := Round b c d e a (f2 c d e) k2 w13 in
      word w14 := left (w14 ⊕ w11 ⊕ w6 ⊕ w0) in
      let '(b, e) := Round a b c d e (f2 b c d) k2 w14 in
      word w15 := left (w15 ⊕ w12 ⊕ w7 ⊕ w1) in
      let '(a, d) := Round e a b c d (f2 a b c) k2 w15 in
      word w0 := left (w0 ⊕ w13 ⊕ w8 ⊕ w2) in
      let '(e, c) := Round d e a b c (f2 e a b) k2 w0 in
      word w1 := left (w1 ⊕ w14 ⊕ w9 ⊕ w3) in
      let '(d, b) := Round c d e a b (f2 d e a) k2 w1 in
      word w2 := left (w2 ⊕ w15 ⊕ w10 ⊕ w4) in
      let '(c, a) := Round b c d e a (f2 c d e) k2 w2 in
      word w3 := left (w3 ⊕ w0 ⊕ w11 ⊕ w5) in
      let '(b, e) := Round a b c d e (f2 b c d) k2 w3 in
      word w4 := left (w4 ⊕ w1 ⊕ w12 ⊕ w6) in
      let '(a, d) := Round e a b c d (f2 a b c) k2 w4 in
      word w5 := left (w5 ⊕ w2 ⊕ w13 ⊕ w7) in
      let '(e, c) := Round d e a b c (f2 e a b) k2 w5 in
      word w6 := left (w6 ⊕ w3 ⊕ w14 ⊕ w8) in
      let '(d, b) := Round c d e a b (f2 d e a) k2 w6 in
      word w7 := left (w7 ⊕ w4 ⊕ w15 ⊕ w9) in
      let '(c, a) := Round b c d e a (f2 c d e) k2 w7 in
      word w8 := left (w8 ⊕ w5 ⊕ w0 ⊕ w10) in
      let '(b, e) := Round a b c d e (f3 b c d) k3 w8 in
      word w9 := left (w9 ⊕ w6 ⊕ w1 ⊕ w11) in
      let '(a, d) := Round e a b c d (f3 a b c) k3 w9 in
      word w10 := left (w10 ⊕ w7 ⊕ w2 ⊕ w12) in
      let '(e, c) := Round d e a b c (f3 e a b) k3 w10 in
      word w11 := left (w11 ⊕ w8 ⊕ w3 ⊕ w13) in
      let '(d, b) := Round c d e a b (f3 d e a) k3 w11 in
      word w12 := left (w12 ⊕ w9 ⊕ w4 ⊕ w14) in
      let '(c, a) := Round b c d e a (f3 c d e) k3 w12 in
      word w13 := left (w13 ⊕ w10 ⊕ w5 ⊕ w15) in
      let '(b, e) := Round a b c d e (f3 b c d) k3 w13 in
      word w14 := left (w14 ⊕ w11 ⊕ w6 ⊕ w0) in
      let '(a, d) := Round e a b c d (f3 a b c) k3 w14 in
      word w15 := left (w15 ⊕ w12 ⊕ w7 ⊕ w1) in
      let '(e, c) := Round d e a b c (f3 e a b) k3 w15 in
      word w0 := left (w0 ⊕ w13 ⊕ w8 ⊕ w2) in
      let '(d, b) := Round c d e a b (f3 d e a) k3 w0 in
      word w1 := left (w1 ⊕ w14 ⊕ w9 ⊕ w3) in
      let '(c, a) := Round b c d e a (f3 c d e) k3 w1 in
      word w2 := left (w2 ⊕ w15 ⊕ w10 ⊕ w4) in
      let '(b, e) := Round a b c d e (f3 b c d) k3 w2 in
      word w3 := left (w3 ⊕ w0 ⊕ w11 ⊕ w5) in
      let '(a, d) := Round e a b c d (f3 a b c) k3 w3 in
      word w4 := left (w4 ⊕ w1 ⊕ w12 ⊕ w6) in
      let '(e, c) := Round d e a b c (f3 e a b) k3 w4 in
      word w5 := left (w5 ⊕ w2 ⊕ w13 ⊕ w7) in
      let '(d, b) := Round c d e a b (f3 d e a) k3 w5 in
      word w6 := left (w6 ⊕ w3 ⊕ w14 ⊕ w8) in
      let '(c, a) := Round b c d e a (f3 c d e) k3 w6 in
      word w7 := left (w7 ⊕ w4 ⊕ w15 ⊕ w9) in
      let '(b, e) := Round a b c d e (f3 b c d) k3 w7 in
      word w8 := left (w8 ⊕ w5 ⊕ w0 ⊕ w10) in
      let '(a, d) := Round e a b c d (f3 a b c) k3 w8 in
      word w9 := left (w9 ⊕ w6 ⊕ w1 ⊕ w11) in
      let '(e, c) := Round d e a b c (f3 e a b) k3 w9 in
      word w10 := left (w10 ⊕ w7 ⊕ w2 ⊕ w12) in
      let '(d, b) := Round c d e a b (f3 d e a) k3 w10 in
      word w11 := left (w11 ⊕ w8 ⊕ w3 ⊕ w13) in
      let '(c, a) := Round b c d e a (f3 c d e) k3 w11 in
      word w12 := left (w12 ⊕ w9 ⊕ w4 ⊕ w14) in
      let '(b, e) := Round a b c d e (f2 b c d) k4 w12 in
      word w13 := left (w13 ⊕ w10 ⊕ w5 ⊕ w15) in
      let '(a, d) := Round e a b c d (f2 a b c) k4 w13 in
      word w14 := left (w14 ⊕ w11 ⊕ w6 ⊕ w0) in
      let '(e, c) := Round d e a b c (f2 e a b) k4 w14 in
      word w15 := left (w15 ⊕ w12 ⊕ w7 ⊕ w1) in
      let '(d, b) := Round c d e a b (f2 d e a) k4 w15 in
      word w0 := left (w0 ⊕ w13 ⊕ w8 ⊕ w2) in
      let '(c, a) := Round b c d e a (f2 c d e) k4 w0 in
      word w1 := left (w1 ⊕ w14 ⊕ w9 ⊕ w3) in
      let '(b, e) := Round a b c d e (f2 b c d) k4 w1 in
      word w2 := left (w2 ⊕ w15 ⊕ w10 ⊕ w4) in
      let '(a, d) := Round e a b c d (f2 a b c) k4 w2 in
      word w3 := left (w3 ⊕ w0 ⊕ w11 ⊕ w5) in
      let '(e, c) := Round d e a b c (f2 e a b) k4 w3 in
      word w4 := left (w4 ⊕ w1 ⊕ w12 ⊕ w6) in
      let '(d, b) := Round c d e a b (f2 d e a) k4 w4 in
      word w5 := left (w5 ⊕ w2 ⊕ w13 ⊕ w7) in
      let '(c, a) := Round b c d e a (f2 c d e) k4 w5 in
      word w6 := left (w6 ⊕ w3 ⊕ w14 ⊕ w8) in
      let '(b, e) := Round a b c d e (f2 b c d) k4 w6 in
      word w7 := left (w7 ⊕ w4 ⊕ w15 ⊕ w9) in
      let '(a, d) := Round e a b c d (f2 a b c) k4 w7 in
      word w8 := left (w8 ⊕ w5 ⊕ w0 ⊕ w10) in
      let '(e, c) := Round d e a b c (f2 e a b) k4 w8 in
      word w9 := left (w9 ⊕ w6 ⊕ w1 ⊕ w11) in
      let '(d, b) := Round c d e a b (f2 d e a) k4 w9 in
      word w10 := left (w10 ⊕ w7 ⊕ w2 ⊕ w12) in
      let '(c, a) := Round b c d e a (f2 c d e) k4 w10 in
      word w11 := left (w11 ⊕ w8 ⊕ w3 ⊕ w13) in
      let '(b, e) := Round a b c d e (f2 b c d) k4 w11 in
      word w12 := left (w12 ⊕ w9 ⊕ w4 ⊕ w14) in
      let '(a, d) := Round e a b c d (f2 a b c) k4 w12 in
      let '(e, c) := Round d e a b c (f2 e a b) k4 (left (w13 ⊕ w10 ⊕ w5 ⊕ w15)) in
      let '(d, b) := Round c d e a b (f2 d e a) k4 (left (w14 ⊕ w11 ⊕ w6 ⊕ w0)) in
      let '(c, a) := Round b c d e a (f2 c d e) k4 (left (w15 ⊕ w12 ⊕ w7 ⊕ w1)) in
      [s0 ⊞ a; s1 ⊞ b; s2 ⊞ c; s3 ⊞ d; s4 ⊞ e]
  | _ => s
  end.
End sha1.

Module ripemd160.

Definition f1 (x y z : Z) : Z := x ⊕ y ⊕ z.
Definition f2 (x y z : Z) : Z := Z.lor (Z.land x y) (Z.land (not32 x) z).
Definition f3 (x y z : Z) : Z := Z.lor x (not32 y) ⊕ z.
Definition f4 (x y z : Z) : Z := Z.lor (Z.land x z) (Z.land y (not32 z)).
Definition f5 (x y z : Z) : Z := x ⊕ Z.lor y (not32 z).

Definition Initialize : list Z := [0x67452301; 0xEFCDAB89; 0x98BADCFE; 0x10325476; 0xC3D2E1F0].

Definition rol (x i : Z) : Z := Z.lor (u32 (Z.shiftl x i)) (Z.shiftr x (32 - i)).

(** [Round]: the new values of [a] and [c]. *)
Definition Round (a b c d e f x k r : Z) : Z * Z := (rol (a ⊞ f ⊞ x ⊞ k) r ⊞ e, rol c 10).

Definition R11 (a b c d e x r : Z) : Z * Z := Round a b c d e (f1 b c d) x 0 r.
Definition R21 (a b c d e x r : Z) : Z * Z := Round a b c d e (f2 b c d) x 0x5A827999 r.
Definition R31 (a b c d e x r : Z) : Z * Z := Round a b c d e (f3 b c d) x 0x6ED9EBA1 r.
Definition R41 (a b c d e x r : Z) : Z * Z := Round a b c d e (f4 b c d) x 0x8F1BBCDC r.
Definition R51 (a b c d e x r : Z) : Z * Z := Round a b c d e (f5 b c d) x 0xA953FD4E r.

Definition R12 (a b c d e x r : Z) : Z * Z := Round a b c d e (f5 b c d) x 0x50A28BE6 r.
Definition R22 (a b c d e x r : Z) : Z * Z := Round a b c d e (f4 b c d) x 0x5C4DD124 r.
Definition R32 (a b c d e x r : Z) : Z * Z := Round a b c d e (f3 b c d) x 0x6D703EF3 r.
Definition R42 (a b c d e x r : Z) : Z * Z := Round a b c d e (f2 b c d) x 0x7A6D76E9 r.
Definition R52 (a b c d e x r : Z) : Z * Z := Round a b c d e (f1 b c d) x 0 r.

Definition Transform (s chunk : list Z) : list Z :=
  match s with
  | [s0; s1; s2; s3; s4] =>
      word a1 := s0 in word b1 := s1 in word c1 := s2 in word d1 := s3 in word e1 := s4 in
      word a2 := a1 in word b2 := b1 in word c2 := c1 in word d2 := d1 in word e2 := e1 in
      word w0 := ReadLE32 chunk 0 in word w1 := ReadLE32 chunk 4 in word w2 := ReadLE32 chunk 8 in word w3 := ReadLE32 chunk 12 in
      word w4 := ReadLE32 chunk 16 in word w5 := ReadLE32 chunk 20 in word w6 := ReadLE32 chunk 24 in word w7 := ReadLE32 chunk 28 in
      word w8 := ReadLE32 chunk 32 in word w9 := ReadLE32 chunk 36 in word w10 := ReadLE32 chunk 40 in word w11 := ReadLE32 chunk 44 in
      word w12 := ReadLE32 chunk 48 in word w13 := ReadLE32 chunk 52 in word w14 := ReadLE32 chunk 56 in word w15 := ReadLE32 chunk 60 in
      let '(a1, c1) := R11 a1 b1 c1 d1 e1 w0 11 in
      let '(a2, c2) := R12 a2 b2 c2 d2 e2 w5 8 in
      let '(e1, b1) := R11 e1 a1 b1 c1 d1 w1 14 in
      let '(e2, b2) := R12 e2 a2 b2 c2 d2 w14 9 in
      let '(d1, a1) := R11 d1 e1 a1 b1 c1 w2 15 in
      let '(d2, a2) := R12 d2 e2 a2 b2 c2 w7 9 in
      let '(c1, e1) := R11 c1 d1 e1 a1 b1 w3 12 in
      let '(c2, e2) := R12 c2 d2 e2 a2 b2 w0 11 in
      let '(b1, d1) := R11 b1 c1 d1 e1 a1 w4 5 in
      let '(b2, d2) := R12 b2 c2 d2 e2 a2 w9 13 in
      let '(a1, c1) := R11 a1 b1 c1 d1 e1 w5 8 in
      let '(a2, c2) := R12 a2 b2 c2 d2 e2 w2 15 in
      let '(e1, b1) := R11 e1 a1 b1 c1 d1 w6 7 in
      let '(e2, b2) := R12 e2 a2 b2 c2 d2 w11 15 in
      let '(d1, a1) := R11 d1 e1 a1 b1 c1 w7 9 in
      let '(d2, a2) := R12 d2 e2 a2 b2 c2 w4 5 in
      let '(c1, e1) := R11 c1 d1 e1 a1 b1 w8 11 in
      let '(c2, e2) := R12 c2 d2 e2 a2 b2 w13 7 in
      let '(b1, d1) := R11 b1 c1 d1 e1 a1 w9 13 in
      let '(b2, d2) := R12 b2 c2 d2 e2 a2 w6 7 in
      let '(a1, c1) := R11 a1 b1 c1 d1 e1 w10 14 in
      let '(a2, c2) := R12 a2 b2 c2 d2 e2 w15 8 in
      let '(e1, b1) := R11 e1 a1 b1 c1 d1 w11 15 in
      let '(e2, b2) := R12 e2 a2 b2 c2 d2 w8 11 in
      let '(d1, a1) := R11 d1 e1 a1 b1 c1 w12 6 in
      let '(d2, a2) := R12 d2 e2 a2 b2 c2 w1 14 in
      let '(c1, e1) := R11 c1 d1 e1 a1 b1 w13 7 in
      let '(c2, e2) := R12 c2 d2 e2 a2 b2 w10 14 in
      let '(b1, d1) := R11 b1 c1 d1 e1 a1 w14 9 in
      let '(b2, d2) := R12 b2 c2 d2 e2 a2 w3 12 in
      let '(a1, c1) := R11 a1 b1 c1 d1 e1 w15 8 in
      let '(a2, c2) := R12 a2 b2 c2 d2 e2 w12 6 in
      let '(e1, b1) := R21 e1 a1 b1 c1 d1 w7 7 in
      let '(e2, b2) := R22 e2 a2 b2 c2 d2 w6 9 in
      let '(d1, a1) := R21 d1 e1 a1 b1 c1 w4 6 in
      let '(d2, a2) := R22 d2 e2 a2 b2 c2 w11 13 in
      let '(c1, e1) := R21 c1 d1 e1 a1 b1 w13 8 in
      let '(c2, e2) := R22 c2 d2 e2 a2 b2 w3 15 in
      let '(b1, d1) := R21 b1 c1 d1 e1 a1 w1 13 in
      let '(b2, d2) := R22 b2 c2 d2 e2 a2 w7 7 in
      let '(a1, c1) := R21 a1 b1 c1 d1 e1 w10 11 in
      let '(a2, c2) := R22 a2 b2 c2 d2 e2 w0 12 in
      let '(e1, b1) := R21 e1 a1 b1 c1 d1 w6 9 in
      let '(e2, b2) := R22 e2 a2 b2 c2 d2 w13 8 in
      let '(d1, a1) := R21 d1 e1 a1 b1 c1 w15 7 in
      let '(d2, a2) := R22 d2 e2 a2 b2 c2 w5 9 in
      let '(c1, e1) := R21 c1 d1 e1 a1 b1 w3 15 in
      let '(c2, e2) := R22 c2 d2 e2 a2 b2 w10 11 in
      let '(b1, d1) := R21 b1 c1 d1 e1 a1 w12 7 in
      let '(b2, d2) := R22 b2 c2 d2 e2 a2 w14 7 in
      let '(a1, c1) := R21 a1 b1 c1 d1 e1 w0 12 in
      let '(a2, c2) := R22 a2 b2 c2 d2 e2 w15 7 in
      let '(e1, b1) := R21 e1 a1 b1 c1 d1 w9 15 in
      let '(e2, b2) := R22 e2 a2 b2 c2 d2 w8 12 in
      let '(d1, a1) := R21 d1 e1 a1 b1 c1 w5 9 in
      let '(d2, a2) := R22 d2 e2 a2 b2 c2 w12 7 in
      let '(c1, e1) := R21 c1 d1 e1 a1 b1 w2 11 in
      let '(c2, e2) := R22 c2 d2 e2 a2 b2 w4 6 in
      let '(b1, d1) := R21 b1 c1 d1 e1 a1 w14 7 in
      let '(b2, d2) := R22 b2 c2 d2 e2 a2 w9 15 in
      let '(a1, c1) := R21 a1 b1 c1 d1 e1 w11 13 in
      let '(a2, c2) := R22 a2 b2 c2 d2 e2 w1 13 in
      let '(e1, b1) := R21 e1 a1 b1 c1 d1 w8 12 in
      let '(e2, b2) := R22 e2 a2 b2 c2 d2 w2 11 in
      let '(d1, a1) := R31 d1 e1 a1 b1 c1 w3 11 in
      let '(d2, a2) := R32 d2 e2 a2 b2 c2 w15 9 in
      let '(c1, e1) := R31 c1 d1 e1 a1 b1 w10 13 in
      let '(c2, e2) := R32 c2 d2 e2 a2 b2 w5 7 in
      let '(b1, d1) := R31 b1 c1 d1 e1 a1 w14 6 in
      let '(b2, d2) := R32 b2 c2 d2 e2 a2 w1 15 in
      let '(a1, c1) := R31 a1 b1 c1 d1 e1 w4 7 in
      let '(a2, c2) := R32 a2 b2 c2 d2 e2 w3 11 in
      let '(e1, b1) := R31 e1 a1 b1 c1 d1 w9 14 in
      let '(e2, b2) := R32 e2 a2 b2 c2 d2 w7 8 in
      let '(d1, a1) := R31 d1 e1 a1 b1 c1 w15 9 in
      let '(d2, a2) := R32 d2 e2 a2 b2 c2 w14 6 in
      let '(c1, e1) := R31 c1 d1 e1 a1 b1 w8 13 in
      let '(c2, e2) := R32 c2 d2 e2 a2 b2 w6 6 in
      let '(b1, d1) := R31 b1 c1 d1 e1 a1 w1 15 in
      let '(b2, d2) := R32 b2 c2 d2 e2 a2 w9 14 in
      let '(a1, c1) := R31 a1 b1 c1 d1 e1 w2 14 in
      let '(a2, c2) := R32 a2 b2 c2 d2 e2 w11 12 in
      let '(e1, b1) := R31 e1 a1 b1 c1 d1 w7 8 in
      let '(e2, b2) := R32 e2 a2 b2 c2 d2 w8 13 in
      let '(d1, a1) := R31 d1 e1 a1 b1 c1 w0 13 in
      let '(d2, a2) := R32 d2 e2 a2 b2 c2 w12 5 in
      let '(c1, e1) := R31 c1 d1 e1 a1 b1 w6 6 in
      let '(c2, e2) := R32 c2 d2 e2 a2 b2 w2 14 in
      let '(b1, d1) := R31 b1 c1 d1 e1 a1 w13 5 in
      let '(b2, d2) := R32 b2 c2 d2 e2 a2 w10 13 in
      let '(a1, c1) := R31 a1 b1 c1 d1 e1 w11 12 in
      let '(a2, c2) := R32 a2 b2 c2 d2 e2 w0 13 in
      let '(e1, b1) := R31 e1 a1 b1 c1 d1 w5 7 in
      let '(e2, b2) := R32 e2 a2 b2 c2 d2 w4 7 in
      let '(d1, a1) := R31 d1 e1 a1 b1 c1 w12 5 in
      let '(d2, a2) := R32 d2 e2 a2 b2 c2 w13 5 in
      let '(c1, e1) := R41 c1 d1 e1 a1 b1 w1 11 in
      let '(c2, e2) := R42 c2 d2 e2 a2 b2 w8 15 in
      let '(b1, d1) := R41 b1 c1 d1 e1 a1 w9 12 in
      let '(b2, d2) := R42 b2 c2 d2 e2 a2 w6 5 in
      let '(a1, c1) := R41 a1 b1 c1 d1 e1 w11 14 in
      let '(a2, c2) := R42 a2 b2 c2 d2 e2 w4 8 in
      let '(e1, b1) := R41 e1 a1 b1 c1 d1 w10 15 in
      let '(e2, b2) := R42 e2 a2 b2 c2 d2 w1 11 in
      let '(d1, a1) := R41 d1 e1 a1 b1 c1 w0 14 in
      let '(d2, a2) := R42 d2 e2 a2 b2 c2 w3 14 in
      let '(c1, e1) := R41 c1 d1 e1 a1 b1 w8 15 in
      let '(c2, e2) := R42 c2 d2 e2 a2 b2 w11 14 in
      let '(b1, d1) := R41 b1 c1 d1 e1 a1 w12 9 in
      let '(b2, d2) := R42 b2 c2 d2 e2 a2 w15 6 in
      let '(a1, c1) := R41 a1 b1 c1 d1 e1 w4 8 in
      let '(a2, c2) := R42 a2 b2 c2 d2 e2 w0 14 in
      let '(e1, b1) := R41 e1 a1 b1 c1 d1 w13 9 in
      let '(e2, b2) := R42 e2 a2 b2 c2 d2 w5 6 in
      let '(d1, a1) := R41 d1 e1 a1 b1 c1 w3 14 in
      let '(d2, a2) := R42 d2 e2 a2 b2 c2 w12 9 in
      let '(c1, e1) := R41 c1 d1 e1 a1 b1 w7 5 in
      let '(c2, e2) := R42 c2 d2 e2 a2 b2 w2 12 in
      let '(b1, d1) := R41 b1 c1 d1 e1 a1 w15 6 in
      let '(b2, d2) := R42 b2 c2 d2 e2 a2 w13 9 in
      let '(a1, c1) := R41 a1 b1 c1 d1 e1 w14 8 in
      let '(a2, c2) := R42 a2 b2 c2 d2 e2 w9 12 in
      let '(e1, b1) := R41 e1 a1 b1 c1 d1 w5 6 in
      let '(e2, b2) := R42 e2 a2 b2 c2 d2 w7 5 in
      let '(d1, a1) := R41 d1 e1 a1 b1 c1 w6 5 in
      let '(d2, a2) := R42 d2 e2 a2 b2 c2 w10 15 in
      let '(c1, e1) := R41 c1 d1 e1 a1 b1 w2 12 in
      let '(c2, e2) := R42 c2 d2 e2 a2 b2 w14 8 in
      let '(b1, d1) := R51 b1 c1 d1 e1 a1 w4 9 in
      let '(b2, d2) := R52 b2 c2 d2 e2 a2 w12 8 in
      let '(a1, c1) := R51 a1 b1 c1 d1 e1 w0 15 in
      let '(a2, c2) := R52 a2 b2 c2 d2 e2 w15 5 in
      let '(e1, b1) := R51 e1 a1 b1 c1 d1 w5 5 in
      let '(e2, b2) := R52 e2 a2 b2 c2 d2 w10 12 in
      let '(d1, a1) := R51 d1 e1 a1 b1 c1 w9 11 in
      let '(d2, a2) := R52 d2 e2 a2 b2 c2 w4 9 in
      let '(c1, e1) := R51 c1 d1 e1 a1 b1 w7 6 in
      let '(c2, e2) := R52 c2 d2 e2 a2 b2 w1 12 in
      let '(b1, d1) := R51 b1 c1 d1 e1 a1 w12 8 in
      let '(b2, d2) := R52 b2 c2 d2 e2 a2 w5 5 in
      let '(a1, c1) := R51 a1 b1 c1 d1 e1 w2 13 in
      let '(a2, c2) := R52 a2 b2 c2 d2 e2 w8 14 in
      let '(e1, b1) := R51 e1 a1 b1 c1 d1 w10 12 in
      let '(e2, b2) := R52 e2 a2 b2 c2 d2 w7 6 in
      let '(d1, a1) := R51 d1 e1 a1 b1 c1 w14 5 in
      let '(d2, a2) := R52 d2 e2 a2 b2 c2 w6 8 in
      let '(c1, e1) := R51 c1 d1 e1 a1 b1 w1 12 in
      let '(c2, e2) := R52 c2 d2 e2 a2 b2 w2 13 in
      let '(b1, d1) := R51 b1 c1 d1 e1 a1 w3 13 in
      let '(b2, d2) := R52 b2 c2 d2 e2 a2 w13 6 in
      let '(a1, c1) := R51 a1 b1 c1 d1 e1 w8 14 in
      let '(a2, c2) := R52 a2 b2 c2 d2 e2 w14 5 in
      let '(e1, b1) := R51 e1 a1 b1 c1 d1 w11 11 in
      let '(e2, b2) := R52 e2 a2 b2 c2 d2 w0 15 in
      let '(d1, a1) := R51 d1 e1 a1 b1 c1 w6 8 in
      let '(d2, a2) := R52 d2 e2 a2 b2 c2 w3 13 in
      let '(c1, e1) := R51 c1 d1 e1 a1 b1 w15 5 in
      let '(c2, e2) := R52 c2 d2 e2 a2 b2 w9 11 in
      let '(b1, d1) := R51 b1 c1 d1 e1 a1 w13 6 in
      let '(b2, d2) := R52 b2 c2 d2 e2 a2 w11 11 in
      [s1 ⊞ c1 ⊞ d2; s2 ⊞ d1 ⊞ e2; s3 ⊞ e1 ⊞ a2; s4 ⊞ a1 ⊞ b2; s0 ⊞ b1 ⊞ c2]
  | _ => s
  end.
End ripemd160.

(** ** The hashers *)

Definition CSHA1 (buf : list Z) : hasher := {| h_s := sha1.Initialize; h_buf := buf; h_bytes := 0 |}.
Definition CSHA1_Write : hasher → list Z → hasher := Write 64 sha1.Transform.
Definition CSHA1_Finalize (h : hasher) : list Z :=
  let sizedesc := WriteBE64 (u64 (Z.shiftl h.(h_bytes) 3)) in
  let h' := CSHA1_Write h (take (Z.to_nat (1 + (119 - h.(h_bytes) mod 64) mod 64)) (0x80 :: replicate 63 0)) in
  concat (WriteBE32 <$> (CSHA1_Write h' sizedesc).(h_s)).
Definition CSHA1_Reset (h : hasher) : hasher := {| h_s := sha1.Initialize; h_buf := h.(h_buf); h_bytes := 0 |}.

Definition CRIPEMD160 (buf : list Z) : hasher := {| h_s := ripemd160.Initialize; h_buf := buf; h_bytes := 0 |}.
Definition CRIPEMD160_Write : hasher → list Z → hasher := Write 64 ripemd160.Transform.
Definition CRIPEMD160_Finalize (h : hasher) : list Z :=
  let sizedesc := WriteLE64 (u64 (Z.shiftl h.(h_bytes) 3)) in
  let h' := CRIPEMD160_Write h (take (Z.to_nat (1 + (119 - h.(h_bytes) mod 64) mod 64)) (0x80 :: replicate 63 0)) in
  concat (WriteLE32 <$> (CRIPEMD160_Write h' sizedesc).(h_s)).
Definition CRIPEMD160_Reset (h : hasher) : hasher :=
  {| h_s := ripemd160.Initialize; h_buf := h.(h_buf); h_bytes := 0 |}.

(** ** The standards *)

Definition ROTL (n x : Z) : Z := Z.lor (Z.shiftl x n mod 2 ^ 32) (Z.shiftr x (32 - n)).

Record regs5 := Regs5 { q_a : Z; q_b : Z; q_c : Z; q_d : Z; q_e : Z }.

(** SHA-1 (FIPS 180-4, 4.1.1 and 6.1): four phases of twenty steps, each with
    its function and the constant 2^30 times a square root. *)
Definition fips_Parity (x y z : Z) : Z := x ⊕ (y ⊕ z).
Definition sha1_phases : list ((Z → Z → Z → Z) * Z) :=
  replicate 20 (fips_Ch, Z.sqrt (2 * 2 ^ 60)) ++ replicate 20 (fips_Parity, Z.sqrt (3 * 2 ^ 60)) ++
  replicate 20 (fips_Maj, Z.sqrt (5 * 2 ^ 60)) ++ replicate 20 (fips_Parity, Z.sqrt (10 * 2 ^ 60)).

Definition sha1_step (st : regs5) (f : Z → Z → Z → Z) (k wt : Z) : regs5 :=
  let '(Regs5 a b c d e) := st in
  Regs5 ((ROTL 5 a + f b c d + e + k + wt) mod 2 ^ 32) a (ROTL 30 b) c d.

Definition sha1_next (win : list Z) : Z := ROTL 1 (nth 13 win 0 ⊕ nth 8 win 0 ⊕ nth 2 win 0 ⊕ nth 0 win 0).

Fixpoint sha1_rounds (ps : list ((Z → Z → Z → Z) * Z)) (win : list Z) (st : regs5) : regs5 :=
  match ps with
  | [] => st
  | (f, k) :: ps => sha1_rounds ps (tail win ++ [sha1_next win]) (sha1_step st f k (nth 0 win 0))
  end.

Definition add_regs5 (H : list Z) (r : regs5) : list Z :=
  zip_with (λ x y, (x + y) mod 2 ^ 32) H [q_a r; q_b r; q_c r; q_d r; q_e r].

Definition sha1_compress (H block : list Z) : list Z :=
  let words := (λ i, ReadLE (reverse (take 4 (drop (4 * i) block)))) <$> seq 0 16 in
  add_regs5 H (sha1_rounds sha1_phases words (Regs5 (nth 0 H 0) (nth 1 H 0) (nth 2 H 0) (nth 3 H 0) (nth 4 H 0))).

Definition fips_SHA1 (m : list Z) : list Z :=
  concat ((λ x, reverse (WriteLE 4 x)) <$>
    run_all 64 sha1_compress [0x67452301; 0xEFCDAB89; 0x98BADCFE; 0x10325476; 0xC3D2E1F0]
      (md_pad 64 (reverse (WriteLE 8 (8 * Z.of_nat (length m)))) m)).

(** RIPEMD-160: two lines of five rounds; the message words, the rotations, the
    functions and the constants of each step. *)
Definition rmd_r : list nat :=
  seq 0 16 ++ [7; 4; 13; 1; 10; 6; 15; 3; 12; 0; 9; 5; 2; 14; 11; 8;
    3; 10; 14; 4; 9; 15; 8; 1; 2; 7; 0; 6; 13; 11; 5; 12; 1; 9; 11; 10; 0; 8; 12; 4; 13; 3; 7; 15; 14; 5; 6; 2;
    4; 0; 5; 9; 7; 12; 2; 10; 14; 1; 3; 8; 11; 6; 15; 13]%nat.
Definition rmd_r' : list nat :=
  [5; 14; 7; 0; 9; 2; 11; 4; 13; 6; 15; 8; 1; 10; 3; 12; 6; 11; 3; 7; 0; 13; 5; 10; 14; 15; 8; 12; 4; 9; 1; 2;
   15; 5; 1; 3; 7; 14; 6; 9; 11; 8; 12; 2; 10; 0; 4; 13; 8; 6; 4; 1; 3; 11; 15; 0; 5; 12; 2; 13; 9; 7; 10; 14;
   12; 15; 10; 4; 1; 5; 8; 7; 6; 2; 13; 14; 0; 3; 9; 11]%nat.
Definition rmd_s : list Z :=
  [11; 14; 15; 12; 5; 8; 7; 9; 11; 13; 14; 15; 6; 7; 9; 8; 7; 6; 8; 13; 11; 9; 7; 15; 7; 12; 15; 9; 11; 7; 13; 12;
   11; 13; 6; 7; 14; 9; 13; 15; 14; 8; 13; 6; 5; 12; 7; 5; 11; 12; 14; 15; 14; 15; 9; 8; 9; 14; 5; 6; 8; 6; 5; 12;
   9; 15; 5; 11; 6; 8; 13; 12; 5; 12; 13; 14; 11; 8; 5; 6].
Definition rmd_s' : list Z :=
  [8; 9; 9; 11; 13; 15; 15; 5; 7; 7; 8; 11; 14; 14; 12; 6; 9; 13; 15; 7; 12; 8; 9; 11; 7; 7; 12; 7; 6; 15; 13; 11;
   9; 7; 15; 11; 8; 6; 6; 14; 12; 13; 5; 14; 13; 13; 7; 5; 15; 5; 8; 11; 14; 14; 6; 14; 6; 9; 12; 9; 12; 5; 15; 8;
   8; 5; 12; 9; 12; 5; 14; 6; 8; 13; 6; 5; 15; 13; 11; 11].
(** The functions of the paper, bit by bit on the integers; a step takes its
    sum modulo 2^32. *)
Definition rmd_F1 (x y z : Z) : Z := x ⊕ (y ⊕ z).
Definition rmd_F2 (x y z : Z) : Z := Z.lor (Z.land x y) (Z.land (Z.lnot x) z).
Definition rmd_F3 (x y z : Z) : Z := Z.lor x (Z.lnot y) ⊕ z.
Definition rmd_F4 (x y z : Z) : Z := Z.lor (Z.land x z) (Z.land y (Z.lnot z)).
Definition rmd_F5 (x y z : Z) : Z := x ⊕ Z.lor y (Z.lnot z).
Definition rmd_phase (f : Z → Z → Z → Z) (k : Z) : list ((Z → Z → Z → Z) * Z) := replicate 16 (f, k).
Definition rmd_fk : list ((Z → Z → Z → Z) * Z) :=
  rmd_phase rmd_F1 0 ++ rmd_phase rmd_F2 (Z.sqrt (2 * 2 ^ 60)) ++ rmd_phase rmd_F3 (Z.sqrt (3 * 2 ^ 60)) ++
  rmd_phase rmd_F4 (Z.sqrt (5 * 2 ^ 60)) ++ rmd_phase rmd_F5 (Z.sqrt (7 * 2 ^ 60)).
Definition rmd_fk' : list ((Z → Z → Z → Z) * Z) :=
  rmd_phase rmd_F5 (icbrt 40 (2 * 2 ^ 90) 0) ++ rmd_phase rmd_F4 (icbrt 40 (3 * 2 ^ 90) 0) ++
  rmd_phase rmd_F3 (icbrt 40 (5 * 2 ^ 90) 0) ++ rmd_phase rmd_F2 (icbrt 40 (7 * 2 ^ 90) 0) ++
  rmd_phase rmd_F1 0.

(** One step of a line. *)
Definition rmd_step (p : (Z → Z → Z → Z) * Z * nat * Z) (X : list Z) (st : regs5) : regs5 :=
  let '(f, k, r, s) := p in
  let '(Regs5 a b c d e) := st in
  Regs5 e ((ROTL s ((a + f b c d + nth r X 0 + k) mod 2 ^ 32) + e) mod 2 ^ 32) b (ROTL 10 c) d.

Fixpoint rmd_rounds (ps : list (((Z → Z → Z → Z) * Z * nat * Z) * ((Z → Z → Z → Z) * Z * nat * Z))) (X : list Z)
    (l r : regs5) : regs5 * regs5 :=
  match ps with
  | [] => (l, r)
  | (p, p') :: ps => rmd_rounds ps X (rmd_step p X l) (rmd_step p' X r)
  end.

Definition rmd_combine (H : list Z) (lr : regs5 * regs5) : list Z :=
  let '(l, r) := lr in
  [(nth 1 H 0 + q_c l + q_d r) mod 2 ^ 32; (nth 2 H 0 + q_d l + q_e r) mod 2 ^ 32;
   (nth 3 H 0 + q_e l + q_a r) mod 2 ^ 32; (nth 4 H 0 + q_a l + q_b r) mod 2 ^ 32; (nth 0 H 0 + q_b l + q_c r) mod 2 ^ 32].

Definition rmd_steps : list (((Z → Z → Z → Z) * Z * nat * Z) * ((Z → Z → Z → Z) * Z * nat * Z)) :=
  zip (zip (zip rmd_fk rmd_r) rmd_s) (zip (zip rmd_fk' rmd_r') rmd_s').

Definition rmd_compress (H block : list Z) : list Z :=
  let X := (λ i, ReadLE (take 4 (drop (4 * i) block))) <$> seq 0 16 in
  let st := Regs5 (nth 0 H 0) (nth 1 H 0) (nth 2 H 0) (nth 3 H 0) (nth 4 H 0) in
  rmd_combine H (rmd_rounds rmd_steps X st st).

Definition ref_RIPEMD160 (m : list Z) : list Z :=
  concat ((λ x, WriteLE 4 x) <$>
    run_all 64 rmd_compress [0x67452301; 0xEFCDAB89; 0x98BADCFE; 0x10325476; 0xC3D2E1F0]
      (md_pad 64 (WriteLE 8 (8 * Z.of_nat (length m))) m)).

(** ** The compression functions *)

Lemma sha1_round_eq st_f k wt a b c d e :
  sha1_step (Regs5 a b c d e) st_f k wt =
  let '(b', e') := sha1.Round a b c d e (st_f b c d) k wt in Regs5 e' a b' c d.
Proof.
  unfold sha1.Round, sha1_step, add32, u32. cbn zeta. f_equal.
  rewrite sum4_mod, Zplus_mod_idemp_r. change (Z.lor (Z.shiftl a 5 mod 2 ^ 32) (Z.shiftr a 27)) with (ROTL 5 a). f_equal. lia.
Qed.

Lemma sha1_rounds_cons f k ps w0 w1 w2 w3 w4 w5 w6 w7 w8 w9 w10 w11 w12 w13 w14 w15 a b c d e :
  sha1_rounds ((f, k) :: ps) [w0; w1; w2; w3; w4; w5; w6; w7; w8; w9; w10; w11; w12; w13; w14; w15] (Regs5 a b c d e) =
  let '(b', e') := sha1.Round a b c d e (f b c d) k w0 in
  sha1_rounds ps [w1; w2; w3; w4; w5; w6; w7; w8; w9; w10; w11; w12; w13; w14; w15; sha1.left (w0 ⊕ w13 ⊕ w8 ⊕ w2)]
    (Regs5 e' a b' c d).
Proof.
  cbn [sha1_rounds nth tail app]. rewrite sha1_round_eq. destruct (sha1.Round a b c d e (f b c d) k w0) as [b' e'].
  do 2 f_equal. do 15 f_equal. unfold sha1_next. cbn [nth]. unfold sha1.left, ROTL, u32. change (32 - 1) with 31.
  replace (w13 ⊕ w8 ⊕ w2 ⊕ w0) with (w0 ⊕ w13 ⊕ w8 ⊕ w2); [done|].
  rewrite !Z.lxor_assoc. rewrite (Z.lxor_comm w0). by rewrite !Z.lxor_assoc.
Qed.

(** The functions of the phases, as the code has them. *)
Lemma sha1_f1_eq : ∀ x y z, fips_Ch x y z = sha1.f1 x y z.
Proof. intros. symmetry. apply Ch_fips. Qed.
Lemma sha1_f2_eq : ∀ x y z, fips_Parity x y z = sha1.f2 x y z.
Proof. intros. symmetry. apply Z.lxor_assoc. Qed.
Lemma sha1_f3_eq : ∀ x y z, fips_Maj x y z = sha1.f3 x y z.
Proof. intros. symmetry. apply Maj_fips. Qed.
Ltac sha1_word :=
  apply word_named;
  let v := fresh "v" in let E := fresh "E" in intros v E; try unfold ReadBE32 in E;
  lazymatch goal with
  | |- _ = add_regs5 _ (sha1_rounds _ (?u :: _) _) => match goal with E' : u = _ |- _ => rewrite <- E' in E end; subst v
  end.

Ltac sha1_round :=
  rewrite sha1_rounds_cons; first [rewrite sha1_f1_eq | rewrite sha1_f2_eq | rewrite sha1_f3_eq];
  lazymatch goal with
  | |- match ?R with _ => _ end = _ =>
      destruct R; cbv beta iota;
      lazymatch goal with
      | |- _ = add_regs5 _ (sha1_rounds _ [_; _; _; _; _; _; _; _; _; _; _; _; _; _; _; ?n] _) =>
         let u := fresh "u" in let E := fresh "E" in remember n as u eqn:E
      end
  end.

(** The last three words are used without being stored. *)
Ltac sha1_inline :=
  lazymatch goal with
  | |- _ = add_regs5 _ (sha1_rounds _ (?u :: _) _) => match goal with E' : u = _ |- _ => rewrite <- E' end
  end.

Lemma sha1_Transform_fips s0 s1 s2 s3 s4 chunk :
  sha1.Transform [s0; s1; s2; s3; s4] chunk = sha1_compress [s0; s1; s2; s3; s4] chunk.
Proof.
  unfold sha1_compress, sha1_phases.
  change (Z.sqrt (2 * 2 ^ 60)) with sha1.k1. change (Z.sqrt (3 * 2 ^ 60)) with sha1.k2.
  change (Z.sqrt (5 * 2 ^ 60)) with sha1.k3. change (Z.sqrt (10 * 2 ^ 60)) with sha1.k4.
  cbn [seq fmap list_fmap Nat.mul Nat.add nth replicate app]. name_block.
  cbv beta iota delta [sha1.Transform]. do 5 (apply word_named; intros ? ->).
  do 77 (sha1_word; sha1_round). do 3 (sha1_inline; sha1_round). reflexivity.
Qed.

Lemma rmd_round_eq f k r s X a b c d e :
  rmd_step (f, k, r, s) X (Regs5 a b c d e) =
  let '(a', c') := ripemd160.Round a b c d e (f b c d) (nth r X 0) k s in Regs5 e a' b c' d.
Proof.
  unfold ripemd160.Round, rmd_step, add32, u32. cbn zeta. by rewrite sum4_mod.
Qed.

Lemma rmd_rounds_cons f k r s f' k' r' s' ps X a1 b1 c1 d1 e1 a2 b2 c2 d2 e2 :
  rmd_rounds (((f, k, r, s), (f', k', r', s')) :: ps) X (Regs5 a1 b1 c1 d1 e1) (Regs5 a2 b2 c2 d2 e2) =
  let '(a1', c1') := ripemd160.Round a1 b1 c1 d1 e1 (f b1 c1 d1) (nth r X 0) k s in
  let '(a2', c2') := ripemd160.Round a2 b2 c2 d2 e2 (f' b2 c2 d2) (nth r' X 0) k' s' in
  rmd_rounds ps X (Regs5 e1 a1' b1 c1' d1) (Regs5 e2 a2' b2 c2' d2).
Proof. cbn [rmd_rounds]. rewrite !rmd_round_eq. by destruct (ripemd160.Round a1 _ _ _ _ _ _ _ _), (ripemd160.Round a2 _ _ _ _ _ _ _ _). Qed.

(** The functions of the code are those of the paper modulo 2^32. *)
Lemma word_bits x y : (∀ i, 0 <= i < 32 → Z.testbit x i = Z.testbit y i) → x mod 2 ^ 32 = y mod 2 ^ 32.
Proof.
  intros Hb. apply Z.bits_inj'. intros i Hi. destruct (decide (i < 32)).
  - rewrite !Z.mod_pow2_bits_low by lia. apply Hb. lia.
  - by rewrite !Z.mod_pow2_bits_high by lia.
Qed.
Lemma not32_bit x i : 0 <= i < 32 → Z.testbit (not32 x) i = negb (Z.testbit x i).
Proof. intros Hi. unfold not32, u32. rewrite Z.mod_pow2_bits_low, Z.lnot_spec by lia. done. Qed.
Lemma Round_mod a b c d e f f' x k r : f mod 2 ^ 32 = f' mod 2 ^ 32 → ripemd160.Round a b c d e f x k r = ripemd160.Round a b c d e f' x k r.
Proof. intros E. unfold ripemd160.Round, add32, u32. by rewrite <- (Zplus_mod_idemp_r f a), E, Zplus_mod_idemp_r. Qed.

Ltac word_function :=
  intros; apply Round_mod, word_bits; intros i Hi;
  unfold rmd_F1, rmd_F2, rmd_F3, rmd_F4, rmd_F5, ripemd160.f1, ripemd160.f2, ripemd160.f3, ripemd160.f4, ripemd160.f5;
  repeat first [rewrite Z.lxor_spec | rewrite Z.lor_spec | rewrite Z.land_spec | rewrite not32_bit by done | rewrite Z.lnot_spec by lia]; first [reflexivity | symmetry; apply xorb_assoc_reverse].
Lemma rmd_f1_eq a b c d e x k r : ripemd160.Round a b c d e (rmd_F1 b c d) x k r = ripemd160.Round a b c d e (ripemd160.f1 b c d) x k r.
Proof. word_function. Qed.
Lemma rmd_f2_eq a b c d e x k r : ripemd160.Round a b c d e (rmd_F2 b c d) x k r = ripemd160.Round a b c d e (ripemd160.f2 b c d) x k r.
Proof. word_function. Qed.
Lemma rmd_f3_eq a b c d e x k r : ripemd160.Round a b c d e (rmd_F3 b c d) x k r = ripemd160.Round a b c d e (ripemd160.f3 b c d) x k r.
Proof. word_function. Qed.
Lemma rmd_f4_eq a b c d e x k r : ripemd160.Round a b c d e (rmd_F4 b c d) x k r = ripemd160.Round a b c d e (ripemd160.f4 b c d) x k r.
Proof. word_function. Qed.
Lemma rmd_f5_eq a b c d e x k r : ripemd160.Round a b c d e (rmd_F5 b c d) x k r = ripemd160.Round a b c d e (ripemd160.f5 b c d) x k r.
Proof. word_function. Qed.

(** The two lines of a round, one after the other. *)
Ltac rmd_line := lazymatch goal with |- match ?R with _ => _ end = _ => destruct R; cbv beta iota end.
Ltac rmd_function := first [rewrite rmd_f1_eq | rewrite rmd_f2_eq | rewrite rmd_f3_eq | rewrite rmd_f4_eq | rewrite rmd_f5_eq].
Ltac rmd_round := rewrite rmd_rounds_cons; cbn [nth]; do 2 rmd_function; do 2 rmd_line.

Ltac name_words := do 16 (apply word_named; let v := fresh "v" in let E := fresh "E" in intros v E; unfold ReadLE32 in E; rewrite <- E).

Lemma rmd_Transform_ref s0 s1 s2 s3 s4 chunk :
  ripemd160.Transform [s0; s1; s2; s3; s4] chunk = rmd_compress [s0; s1; s2; s3; s4] chunk.
Proof.
  unfold rmd_compress, rmd_steps, rmd_fk, rmd_fk', rmd_phase.
  change (Z.sqrt (2 * 2 ^ 60)) with 0x5A827999. change (Z.sqrt (3 * 2 ^ 60)) with 0x6ED9EBA1.
  change (Z.sqrt (5 * 2 ^ 60)) with 0x8F1BBCDC. change (Z.sqrt (7 * 2 ^ 60)) with 0xA953FD4E.
  replace (icbrt 40 (2 * 2 ^ 90) 0) with 0x50A28BE6 by (vm_compute; reflexivity).
  replace (icbrt 40 (3 * 2 ^ 90) 0) with 0x5C4DD124 by (vm_compute; reflexivity).
  replace (icbrt 40 (5 * 2 ^ 90) 0) with 0x6D703EF3 by (vm_compute; reflexivity).
  replace (icbrt 40 (7 * 2 ^ 90) 0) with 0x7A6D76E9 by (vm_compute; reflexivity).
  unfold rmd_r, rmd_r', rmd_s, rmd_s'. cbn [seq fmap list_fmap Nat.mul Nat.add nth replicate app zip zip_with].
  cbv beta iota delta [ripemd160.Transform ripemd160.R11 ripemd160.R21 ripemd160.R31 ripemd160.R41 ripemd160.R51
    ripemd160.R12 ripemd160.R22 ripemd160.R32 ripemd160.R42 ripemd160.R52]. do 10 (apply word_named; intros ? ->). name_words.
  do 80 rmd_round. cbn [rmd_combine rmd_rounds nth q_a q_b q_c q_d q_e]. unfold add32, u32.
  by rewrite !Zplus_mod_idemp_l.
Qed.

(** ** The hashers against the standards *)

Lemma sha1_Transform_eq s b : length s = 5%nat → sha1.Transform s b = sha1_compress s b ∧ length (sha1_compress s b) = 5%nat.
Proof.
  intros Hs. split; [|unfold sha1_compress, add_regs5; cbn zeta; by rewrite length_zip_with, Hs].
  destruct s as [|? [|? [|? [|? [|? [|]]]]]]; try discriminate Hs. apply sha1_Transform_fips.
Qed.

Lemma rmd_Transform_eq s b : length s = 5%nat → ripemd160.Transform s b = rmd_compress s b ∧ length (rmd_compress s b) = 5%nat.
Proof.
  intros Hs. split; [|unfold rmd_compress, rmd_combine; cbn zeta; by destruct (rmd_rounds _ _ _ _)].
  destruct s as [|? [|? [|? [|? [|? [|]]]]]]; try discriminate Hs. apply rmd_Transform_ref.
Qed.

Lemma CSHA1_Finalize_spec h m : represents 64 sha1.Transform sha1.Initialize h m → CSHA1_Finalize h = fips_SHA1 m.
Proof.
  intros Hr. unfold CSHA1_Finalize, fips_SHA1. f_equal. f_equal.
  rewrite (rp_bytes _ _ _ _ _ Hr). unfold CSHA1_Write, WriteBE64. rewrite size_bytes.
  rewrite (finalize_state 64 _ _ 8 119) by (done || lia || by exists (2 ^ 58)).
  apply (run_blocks_ext 5); [intros; by apply sha1_Transform_eq|done].
Qed.

Lemma CRIPEMD160_Finalize_spec h m :
  represents 64 ripemd160.Transform ripemd160.Initialize h m → CRIPEMD160_Finalize h = ref_RIPEMD160 m.
Proof.
  intros Hr. unfold CRIPEMD160_Finalize, ref_RIPEMD160. f_equal. f_equal.
  rewrite (rp_bytes _ _ _ _ _ Hr). unfold CRIPEMD160_Write, WriteLE64. rewrite size_bytes.
  rewrite (finalize_state 64 _ _ 8 119) by (done || lia || by exists (2 ^ 58)).
  apply (run_blocks_ext 5); [intros; by apply rmd_Transform_eq|done].
Qed.

(** C35: Whatever is in the uninitialised buffers and however the message is cut
    into calls of [Write], [CSHA1] returns the SHA-1 hash of FIPS 180-4 and
    [CRIPEMD160] the hash of the RIPEMD-160 paper. *)
Theorem sha1_ripemd160_compute_standards (buf1 buf2 : list Z) (chunks : list (list Z)) :
  length buf1 = 64%nat → length buf2 = 64%nat →
  CSHA1_Finalize (fold_left CSHA1_Write chunks (CSHA1 buf1)) = fips_SHA1 (concat chunks) ∧
  CRIPEMD160_Finalize (fold_left CRIPEMD160_Write chunks (CRIPEMD160 buf2)) = ref_RIPEMD160 (concat chunks).
Proof.
  intros H1 H2. split.
  - apply CSHA1_Finalize_spec, (Writes_represent 64 _ _ chunks _ []);
      [lia|exists (2 ^ 58); done|apply represents_init; [lia|done]].
  - apply CRIPEMD160_Finalize_spec, (Writes_represent 64 _ _ chunks _ []);
      [lia|exists (2 ^ 58); done|apply represents_init; [lia|done]].
Qed.

Lemma sha1_ripemd160_compute_standards_witness :
  CSHA1_Finalize (fold_left CSHA1_Write [[97]; [98; 99]] (CSHA1 (replicate 64 7))) = fips_SHA1 [97; 98; 99] ∧
  CRIPEMD160_Finalize (fold_left CRIPEMD160_Write [[97]; [98; 99]] (CRIPEMD160 (replicate 64 7))) = ref_RIPEMD160 [97; 98; 99].
Proof. apply (sha1_ripemd160_compute_standards (replicate 64 7) (replicate 64 7) [[97]; [98; 99]]); [done|done]. Defined.

(** The published hashes of the message "abc". *)
Example sha1_abc : CSHA1_Finalize (CSHA1_Write (CSHA1 (replicate 64 0)) [97; 98; 99]) =
  [169; 153; 62; 54; 71; 6; 129; 106; 186; 62; 37; 113; 120; 80; 194; 108; 156; 208; 216; 157].
Proof. vm_compute. reflexivity. Qed.
Example ripemd160_abc : CRIPEMD160_Finalize (CRIPEMD160_Write (CRIPEMD160 (replicate 64 0)) [97; 98; 99]) =
  [142; 178; 8; 247; 224; 93; 152; 122; 155; 4; 74; 142; 152; 198; 176; 135; 241; 90; 11; 252].
Proof. vm_compute. reflexivity. Qed.
