(* ===== verification/Hash.v ===== *)
(** * Hash: the hashes of the program ([hash.h], [hash.cpp], [crypto/hmac_*.cpp])

    Double SHA-256 ([CHash256]), SHA-256 followed by RIPEMD-160 ([CHash160]),
    HMAC, SipHash-2-4 and MurmurHash3, on top of the hashers of [crypto/].
    [core_crypto] is the instance of the script interpreter's interface that
    uses them. *)

From S2P Require Import Prelude ArithUint256 Script Interpreter Serialize Transaction Crypto Sha2 Sha1Ripemd.
Local Open Scope Z_scope.
Local Infix "⊕" := Z.lxor (at level 50, left associativity).

(** ** [CHash256], [CHash512] and [CHash160] *)

Definition CHash256_Finalize (sha : hasher) : option (list Z) :=
  buf ← CSHA256_Finalize sha;
  CSHA256_Finalize (CSHA256_Write (CSHA256_Reset (CSHA256_pad sha)) buf).

Definition CHash512_Finalize (sha : hasher) : list Z :=
  let buf := CSHA512_Finalize sha in
  CSHA512_Finalize (CSHA512_Write (CSHA512_Reset (CSHA512_pad sha)) buf).

(** [garbage] is what is in the buffer of the new [CRIPEMD160]. *)
Definition CHash160_Finalize (garbage : list Z) (sha : hasher) : option (list Z) :=
  buf ← CSHA256_Finalize sha;
  Some (CRIPEMD160_Finalize (CRIPEMD160_Write (CRIPEMD160 garbage) buf)).

(** ** HMAC *)

Record CHMAC := { hmac_outer : hasher; hmac_inner : hasher }.

(** The arrays that are not initialised: the buffers of [outer], of [inner] and
    of the hasher of a long key. *)
Definition CHMAC_SHA256 (g1 g2 g3 : list Z) (key : list Z) : option CHMAC :=
  rkey ← (if bool_decide (length key <= 64)%nat then Some (key ++ replicate (64 - length key) 0)
          else h ← CSHA256_Finalize (CSHA256_Write (CSHA256 g3) key); Some (h ++ replicate 32 0));
  let rkey := (λ x, x ⊕ 0x5c) <$> rkey in
  let outer := CSHA256_Write (CSHA256 g1) rkey in
  let rkey := (λ x, x ⊕ (0x5c ⊕ 0x36)) <$> rkey in
  Some {| hmac_outer := outer; hmac_inner := CSHA256_Write (CSHA256 g2) rkey |}.
Definition CHMAC_SHA256_Write (m : CHMAC) (data : list Z) : CHMAC :=
  {| hmac_outer := m.(hmac_outer); hmac_inner := CSHA256_Write m.(hmac_inner) data |}.
Definition CHMAC_SHA256_Finalize (m : CHMAC) : option (list Z) :=
  temp ← CSHA256_Finalize m.(hmac_inner);
  CSHA256_Finalize (CSHA256_Write m.(hmac_outer) temp).

Definition CHMAC_SHA512 (g1 g2 g3 : list Z) (key : list Z) : CHMAC :=
  let rkey := if bool_decide (length key <= 128)%nat then key ++ replicate (128 - length key) 0
              else CSHA512_Finalize (CSHA512_Write (CSHA512 g3) key) ++ replicate 64 0 in
  let rkey := (λ x, x ⊕ 0x5c) <$> rkey in
  let outer := CSHA512_Write (CSHA512 g1) rkey in
  let rkey := (λ x, x ⊕ (0x5c ⊕ 0x36)) <$> rkey in
  {| hmac_outer := outer; hmac_inner := CSHA512_Write (CSHA512 g2) rkey |}.
Definition CHMAC_SHA512_Write (m : CHMAC) (data : list Z) : CHMAC :=
  {| hmac_outer := m.(hmac_outer); hmac_inner := CSHA512_Write m.(hmac_inner) data |}.
Definition CHMAC_SHA512_Finalize (m : CHMAC) : list Z :=
  let temp := CSHA512_Finalize m.(hmac_inner) in
  CSHA512_Finalize (CSHA512_Write m.(hmac_outer) temp).

(** [BIP32Hash]. *)
Definition BIP32Hash (g1 g2 g3 : list Z) (chainCode : list Z) (nChild header : Z) (data : list Z) : list Z :=
  let num := [Z.land (Z.shiftr nChild 24) 0xFF; Z.land (Z.shiftr nChild 16) 0xFF; Z.land (Z.shiftr nChild 8) 0xFF;
              Z.land (Z.shiftr nChild 0) 0xFF] in
  CHMAC_SHA512_Finalize (CHMAC_SHA512_Write (CHMAC_SHA512_Write (CHMAC_SHA512_Write
    (CHMAC_SHA512 g1 g2 g3 chainCode) [header]) data) num).

(** ** MurmurHash3 *)

Definition ROTL32 (x r : Z) : Z := Z.lor (u32 (Z.shiftl x r)) (Z.shiftr x (32 - r)).

Definition murmur_k (k1 : Z) : Z := u32 (ROTL32 (u32 (k1 * 0xcc9e2d51)) 15 * 0x1b873593).

(** The body: the blocks of four bytes, [n] of them. *)
Fixpoint murmur_blocks (n : nat) (h1 : Z) (data : list Z) : Z * list Z :=
  match n with
  | O => (h1, data)
  | S n =>
      let h1 := h1 ⊕ murmur_k (ReadLE32 data 0) in
      let h1 := ROTL32 h1 13 in
      murmur_blocks n (u32 (h1 * 5 + 0xe6546b64)) (drop 4 data)
  end.

(** The tail; the cases of the [switch] fall through. *)
Definition murmur_tail (h1 : Z) (tail : list Z) : Z :=
  match tail with
  | [] => h1
  | [t0] => h1 ⊕ murmur_k (0 ⊕ t0)
  | [t0; t1] => h1 ⊕ murmur_k (0 ⊕ Z.shiftl t1 8 ⊕ t0)
  | t0 :: t1 :: t2 :: _ => h1 ⊕ murmur_k (0 ⊕ Z.shiftl t2 16 ⊕ Z.shiftl t1 8 ⊕ t0)
  end.

Definition MurmurHash3 (nHashSeed : Z) (vDataToHash : list Z) : Z :=
  let h1 :=
    if 0 <? size vDataToHash then
      let '(h1, tail) := murmur_blocks (length vDataToHash / 4) nHashSeed vDataToHash in murmur_tail h1 tail
    else nHashSeed in
  let h1 := h1 ⊕ u32 (size vDataToHash) in
  let h1 := h1 ⊕ Z.shiftr h1 16 in
  let h1 := u32 (h1 * 0x85ebca6b) in
  let h1 := h1 ⊕ Z.shiftr h1 13 in
  let h1 := u32 (h1 * 0xc2b2ae35) in
  h1 ⊕ Z.shiftr h1 16.

(** ** SipHash *)

Definition add64 (x y : Z) : Z := u64 (x + y).
Definition ROTL64 (x b : Z) : Z := Z.lor (u64 (Z.shiftl x b)) (Z.shiftr x (64 - b)).

Record sip_v := SipV { v0 : Z; v1 : Z; v2 : Z; v3 : Z }.

Definition SIPROUND (v : sip_v) : sip_v :=
  let '(SipV v0 v1 v2 v3) := v in
  let v0 := add64 v0 v1 in let v1 := ROTL64 v1 13 in let v1 := v1 ⊕ v0 in
  let v0 := ROTL64 v0 32 in
  let v2 := add64 v2 v3 in let v3 := ROTL64 v3 16 in let v3 := v3 ⊕ v2 in
  let v0 := add64 v0 v3 in let v3 := ROTL64 v3 21 in let v3 := v3 ⊕ v0 in
  let v2 := add64 v2 v1 in let v1 := ROTL64 v1 17 in let v1 := v1 ⊕ v2 in
  let v2 := ROTL64 v2 32 in
  SipV v0 v1 v2 v3.

Definition xor_v0 (x : Z) (v : sip_v) : sip_v := SipV (v.(v0) ⊕ x) v.(v1) v.(v2) v.(v3).
Definition xor_v2 (x : Z) (v : sip_v) : sip_v := SipV v.(v0) v.(v1) (v.(v2) ⊕ x) v.(v3).
Definition xor_v3 (x : Z) (v : sip_v) : sip_v := SipV v.(v0) v.(v1) v.(v2) (v.(v3) ⊕ x).

(** [v3 ^= d; SIPROUND; SIPROUND; v0 ^= d;] *)
Definition sip_block (d : Z) (v : sip_v) : sip_v := xor_v0 d (SIPROUND (SIPROUND (xor_v3 d v))).

(** [v2 ^= 0xFF], four rounds and the result. *)
Definition sip_end (v : sip_v) : Z :=
  let v := SIPROUND (SIPROUND (SIPROUND (SIPROUND (xor_v2 0xFF v)))) in
  v.(v0) ⊕ v.(v1) ⊕ v.(v2) ⊕ v.(v3).

(** [count] is an [int], so fewer than [2 ^ 31] bytes may be written. *)
Record CSipHasher := { sip_state : sip_v; sip_tmp : Z; sip_count : Z }.

Definition sip_init (k0 k1 : Z) : sip_v :=
  SipV (0x736f6d6570736575 ⊕ k0) (0x646f72616e646f6d ⊕ k1) (0x6c7967656e657261 ⊕ k0) (0x7465646279746573 ⊕ k1).
Definition CSipHasher_new (k0 k1 : Z) : CSipHasher := {| sip_state := sip_init k0 k1; sip_tmp := 0; sip_count := 0 |}.

(** [Write(uint64_t)]; [None] is the failed assertion. *)
Definition SipWrite64 (data : Z) (h : CSipHasher) : option CSipHasher :=
  if h.(sip_count) mod 8 =? 0
  then Some {| sip_state := sip_block data h.(sip_state); sip_tmp := h.(sip_tmp); sip_count := h.(sip_count) + 8 |}
  else None.

(** [Write(const unsigned char*, size_t)]. *)
Fixpoint SipWrite (data : list Z) (h : CSipHasher) : CSipHasher :=
  match data with
  | [] => h
  | b :: data =>
      let t := Z.lor h.(sip_tmp) (u64 (Z.shiftl b (8 * (h.(sip_count) mod 8)))) in
      let c := h.(sip_count) + 1 in
      SipWrite data
        (if Z.land c 7 =? 0 then {| sip_state := sip_block t h.(sip_state); sip_tmp := 0; sip_count := c |}
         else {| sip_state := h.(sip_state); sip_tmp := t; sip_count := c |})
  end.

Definition SipFinalize (h : CSipHasher) : Z :=
  let t := Z.lor h.(sip_tmp) (u64 (Z.shiftl (u64 h.(sip_count)) 56)) in
  sip_end (sip_block t h.(sip_state)).

(** [base_uint::GetUint64] reads the memory of the number. *)
Definition GetUint64 (val : base_uint) (pos : nat) : Z :=
  let ptr := drop (pos * 8) (c_uint256.(enc) val) in
  let at_ i := nth i ptr 0 in
  Z.lor (Z.lor (Z.lor (Z.lor (Z.lor (Z.lor (Z.lor (at_ 0%nat) (Z.shiftl (at_ 1%nat) 8)) (Z.shiftl (at_ 2%nat) 16))
    (Z.shiftl (at_ 3%nat) 24)) (Z.shiftl (at_ 4%nat) 32)) (Z.shiftl (at_ 5%nat) 40)) (Z.shiftl (at_ 6%nat) 48))
    (Z.shiftl (at_ 7%nat) 56).

Definition SipHashUint256 (k0 k1 : Z) (val : base_uint) : Z :=
  let d := GetUint64 val 0 in
  let v := SipV (0x736f6d6570736575 ⊕ k0) (0x646f72616e646f6d ⊕ k1) (0x6c7967656e657261 ⊕ k0)
                (0x7465646279746573 ⊕ k1 ⊕ d) in
  let v := xor_v0 d (SIPROUND (SIPROUND v)) in
  let v := sip_block (GetUint64 val 1) v in
  let v := sip_block (GetUint64 val 2) v in
  let v := sip_block (GetUint64 val 3) v in
  let v := sip_block (Z.shiftl 4 59) v in
  sip_end v.

Definition SipHashUint256Extra (k0 k1 : Z) (val : base_uint) (extra : Z) : Z :=
  let d := GetUint64 val 0 in
  let v := SipV (0x736f6d6570736575 ⊕ k0) (0x646f72616e646f6d ⊕ k1) (0x6c7967656e657261 ⊕ k0)
                (0x7465646279746573 ⊕ k1 ⊕ d) in
  let v := xor_v0 d (SIPROUND (SIPROUND v)) in
  let v := sip_block (GetUint64 val 1) v in
  let v := sip_block (GetUint64 val 2) v in
  let v := sip_block (GetUint64 val 3) v in
  let v := sip_block (Z.lor (Z.shiftl 36 56) extra) v in
  sip_end v.

(** ** The interface of the script interpreter *)

(** [CSHA256().Write(..).Finalize(..)] and the like; the check of the value
    [S] of a signature belongs to libsecp256k1. *)
Definition core_SHA256 (v : valtype) : valtype :=
  default [] (CSHA256_Finalize (CSHA256_Write (CSHA256 (replicate 64 0)) v)).
Definition core_crypto (CheckLowS : valtype → bool) : ScriptCrypto :=
  {| RIPEMD160 v := CRIPEMD160_Finalize (CRIPEMD160_Write (CRIPEMD160 (replicate 64 0)) v);
     SHA1 v := CSHA1_Finalize (CSHA1_Write (CSHA1 (replicate 64 0)) v);
     SHA256 := core_SHA256;
     CheckLowS := CheckLowS |}.

(** ** The hashers are functions of the message *)

Lemma CSHA256_spec garbage chunks : length garbage = 64%nat →
  CSHA256_Finalize (fold_left CSHA256_Write chunks (CSHA256 garbage)) = Some (fips_SHA256 (concat chunks)).
Proof.
  intros Hg. apply CSHA256_Finalize_spec, (Writes_represent 64 _ _ chunks _ []);
    [lia|exists (2 ^ 58); done|apply represents_init; [lia|done]].
Qed.

Lemma CSHA512_spec garbage chunks : length garbage = 128%nat → 8 * size (concat chunks) < 2 ^ 64 →
  CSHA512_Finalize (fold_left CSHA512_Write chunks (CSHA512 garbage)) = fips_SHA512 (concat chunks).
Proof.
  intros Hg Hl. apply CSHA512_Finalize_spec; [done|]. apply (Writes_represent 128 _ _ chunks _ []);
    [lia|exists (2 ^ 57); done|apply represents_init; [lia|done]].
Qed.

Lemma CRIPEMD160_spec garbage m : length garbage = 64%nat →
  CRIPEMD160_Finalize (CRIPEMD160_Write (CRIPEMD160 garbage) m) = ref_RIPEMD160 m.
Proof.
  intros Hg. rewrite <- (app_nil_l m) at 2. apply CRIPEMD160_Finalize_spec.
  apply Write_represents; [lia|exists (2 ^ 58); done|]. apply represents_init; [lia|done].
Qed.

Lemma length_concat_fixed {A B : Type} (n : nat) (f : A → list B) (l : list A) :
  (∀ x, length (f x) = n) → length (concat (f <$> l)) = (length l * n)%nat.
Proof. intros Hf. induction l as [|x l IH]; [done|]. cbn. by rewrite length_app, Hf, IH. Qed.

Lemma length_fips_SHA256 m : length (fips_SHA256 m) = 32%nat.
Proof.
  unfold fips_SHA256. rewrite (length_concat_fixed 4) by (intros; rewrite length_reverse; apply WriteLE_length).
  rewrite <- Initialize256_eq. unfold run_all.
  assert (length (run_blocks 64 fips_compress256 (length (md_pad 64 (reverse (WriteLE 8 (8 * size m))) m) / 64)
    sha256.Initialize (md_pad 64 (reverse (WriteLE 8 (8 * size m))) m)) = 8%nat) as ->; [|done].
  apply (run_blocks_ext 8 64 sha256.Transform); [intros; by apply Transform256_eq|done].
Qed.

Lemma length_ref_RIPEMD160 m : length (ref_RIPEMD160 m) = 20%nat.
Proof.
  unfold ref_RIPEMD160. rewrite (length_concat_fixed 4) by (intros; apply WriteLE_length). unfold run_all.
  set (l := md_pad _ _ _). assert (length (run_blocks 64 rmd_compress (length l / 64) ripemd160.Initialize l) = 5%nat) as E.
  { apply (run_blocks_ext 5 64 ripemd160.Transform); [intros; by apply rmd_Transform_eq|done]. }
  unfold ripemd160.Initialize in E. by rewrite E.
Qed.

Lemma length_fips_SHA1 m : length (fips_SHA1 m) = 20%nat.
Proof.
  unfold fips_SHA1. rewrite (length_concat_fixed 4) by (intros; rewrite length_reverse; apply WriteLE_length). unfold run_all.
  set (l := md_pad _ _ _). assert (length (run_blocks 64 sha1_compress (length l / 64) sha1.Initialize l) = 5%nat) as E.
  { apply (run_blocks_ext 5 64 sha1.Transform); [intros; by apply sha1_Transform_eq|done]. }
  unfold sha1.Initialize in E. by rewrite E.
Qed.

Lemma core_SHA256_eq v : core_SHA256 v = fips_SHA256 v.
Proof.
  unfold core_SHA256. pose proof (CSHA256_spec (replicate 64 0) [v] (length_replicate _ _)) as E.
  cbn [fold_left concat] in E. by rewrite E, app_nil_r.
Qed.

Lemma fips_SHA256_bytes m : bytes (fips_SHA256 m).
Proof.
  unfold fips_SHA256. apply Forall_concat, Forall_fmap, Forall_true. intros x.
  apply (Forall_reverse is_u8 (WriteLE 4 x)), WriteLE_bytes.
Qed.

#[export] Instance core_crypto_laws CheckLowS : @ScriptCryptoLaws (core_crypto CheckLowS).
Proof.
  split; intros v; cbn [RIPEMD160 SHA1 SHA256 core_crypto].
  - rewrite CRIPEMD160_spec by done. apply length_ref_RIPEMD160.
  - assert (CSHA1_Finalize (CSHA1_Write (CSHA1 (replicate 64 0)) v) = fips_SHA1 v) as ->; [|apply length_fips_SHA1].
    rewrite <- (app_nil_l v) at 2. apply CSHA1_Finalize_spec, Write_represents; [lia|exists (2 ^ 58); done|].
    apply represents_init; [lia|done].
  - rewrite core_SHA256_eq. apply length_fips_SHA256.
Qed.

(** [CHash256] and [CHash160], fed with any pieces of a message, return the
    double SHA-256 and the RIPEMD-160 of the SHA-256 of the message, as the
    script interpreter computes them. *)
Theorem CHash256_CHash160_compute (CheckLowS : valtype → bool) (garbage garbage' : list Z) (chunks : list (list Z)) :
  length garbage = 64%nat → length garbage' = 64%nat →
  CHash256_Finalize (fold_left CSHA256_Write chunks (CSHA256 garbage)) =
    Some (@Hash256 (core_crypto CheckLowS) (concat chunks)) ∧
  CHash160_Finalize garbage' (fold_left CSHA256_Write chunks (CSHA256 garbage)) =
    Some (@Hash160 (core_crypto CheckLowS) (concat chunks)) ∧
  @Hash256 (core_crypto CheckLowS) (concat chunks) = fips_SHA256 (fips_SHA256 (concat chunks)) ∧
  @Hash160 (core_crypto CheckLowS) (concat chunks) = ref_RIPEMD160 (fips_SHA256 (concat chunks)).
Proof.
  intros Hg Hg'. unfold CHash256_Finalize, CHash160_Finalize. rewrite CSHA256_spec by done. cbn [mbind option_bind].
  unfold Hash256, Hash160. cbn [SHA256 RIPEMD160 core_crypto]. rewrite !core_SHA256_eq, !CRIPEMD160_spec by done.
  split_and!; [|done|done|done].
  set (h := fold_left CSHA256_Write chunks (CSHA256 garbage)).
  assert (represents 64 sha256.Transform sha256.Initialize h ([] ++ concat chunks)) as Hr.
  { apply Writes_represent; [lia|exists (2 ^ 58); done|apply represents_init; [lia|done]]. }
  assert (length (h_buf (CSHA256_pad h)) = 64%nat) as Hlen.
  { eapply (rp_buf 64 sha256.Transform sha256.Initialize). unfold CSHA256_pad. cbn zeta.
    do 2 (apply Write_represents; [lia|exists (2 ^ 58); done|]). exact Hr. }
  pose proof (CSHA256_spec (h_buf (CSHA256_pad h)) [fips_SHA256 (concat chunks)] Hlen) as E.
  cbn [fold_left concat] in E. rewrite app_nil_r in E. exact E.
Qed.

Lemma CHash256_CHash160_compute_witness :
  CHash256_Finalize (fold_left CSHA256_Write [[1]; [2; 3]] (CSHA256 (replicate 64 9))) =
    Some (@Hash256 (core_crypto (λ _, true)) [1; 2; 3]).
Proof. apply (CHash256_CHash160_compute (λ _, true) (replicate 64 9) (replicate 64 9) [[1]; [2; 3]]); [done|done]. Defined.

(** HMAC as in RFC 2104, for a hash function with blocks of [B] bytes. *)
Definition hmac_key (H : list Z → list Z) (B : nat) (key : list Z) : list Z :=
  let k := if bool_decide (length key <= B)%nat then key else H key in k ++ replicate (B - length k) 0.
Definition rfc2104 (H : list Z → list Z) (B : nat) (key m : list Z) : list Z :=
  let k := hmac_key H B key in
  H (((λ x, x ⊕ 0x5c) <$> k) ++ H (((λ x, x ⊕ 0x36) <$> k) ++ m)).

Lemma xor_both_pads (l : list Z) : (λ x, x ⊕ (0x5c ⊕ 0x36)) <$> ((λ x, x ⊕ 0x5c) <$> l) = (λ x, x ⊕ 0x36) <$> l.
Proof.
  rewrite <- list_fmap_compose. apply list_fmap_ext. intros i x _. cbn [compose].
  rewrite Z.lxor_assoc, <- (Z.lxor_assoc 92), Z.lxor_nilpotent, Z.lxor_0_l. done.
Qed.

Lemma fold_inner_256 chunks m :
  fold_left CHMAC_SHA256_Write chunks m =
  {| hmac_outer := m.(hmac_outer); hmac_inner := fold_left CSHA256_Write chunks m.(hmac_inner) |}.
Proof. revert m. induction chunks as [|c chunks IH]; intros [o i]; [done|]. cbn [fold_left]. by rewrite IH. Qed.

Lemma fold_inner_512 chunks m :
  fold_left CHMAC_SHA512_Write chunks m =
  {| hmac_outer := m.(hmac_outer); hmac_inner := fold_left CSHA512_Write chunks m.(hmac_inner) |}.
Proof. revert m. induction chunks as [|c chunks IH]; intros [o i]; [done|]. cbn [fold_left]. by rewrite IH. Qed.

Lemma length_fips_SHA512 m : length (fips_SHA512 m) = 64%nat.
Proof.
  unfold fips_SHA512. rewrite (length_concat_fixed 8) by (intros; rewrite length_reverse; apply WriteLE_length). unfold run_all.
  rewrite <- Initialize512_eq. set (l := md_pad _ _ _).
  assert (length (run_blocks 128 fips_compress512 (length l / 128) sha512.Initialize l) = 8%nat) as ->; [|done].
  apply (run_blocks_ext 8 128 sha512.Transform); [intros; by apply Transform512_eq|done].
Qed.

Lemma length_hmac_key_512 key : length (hmac_key fips_SHA512 128 key) = 128%nat.
Proof.
  unfold hmac_key. cbn zeta. rewrite length_app, length_replicate.
  destruct (bool_decide_reflect (length key <= 128)%nat); [lia|]. by rewrite length_fips_SHA512.
Qed.

(** [CHMAC_SHA256] and [CHMAC_SHA512] compute the HMAC of RFC 2104 for any
    key and any message, short or long, written in any pieces (for SHA-512 of
    less than 2^60 bytes). *)
Theorem hmac_computes_rfc2104 (g : list Z) (g' : list Z) (key : list Z) (chunks : list (list Z)) :
  length g = 64%nat → length g' = 128%nat → size key < 2 ^ 60 → size (concat chunks) < 2 ^ 60 →
  (m ← CHMAC_SHA256 g g g key; CHMAC_SHA256_Finalize (fold_left CHMAC_SHA256_Write chunks m)) =
    Some (rfc2104 fips_SHA256 64 key (concat chunks)) ∧
  CHMAC_SHA512_Finalize (fold_left CHMAC_SHA512_Write chunks (CHMAC_SHA512 g' g' g' key)) =
    rfc2104 fips_SHA512 128 key (concat chunks).
Proof.
  intros Hg Hg' Hk Hm. split.
  - unfold CHMAC_SHA256.
    assert ((if bool_decide (length key <= 64)%nat then Some (key ++ replicate (64 - length key) 0)
             else h ← CSHA256_Finalize (CSHA256_Write (CSHA256 g) key); Some (h ++ replicate 32 0)) =
            Some (hmac_key fips_SHA256 64 key)) as ->.
    { unfold hmac_key. cbn zeta. destruct (bool_decide (length key <= 64)%nat); [done|].
      pose proof (CSHA256_spec g [key] Hg) as E. cbn [fold_left concat] in E. rewrite app_nil_r in E.
      by rewrite E, length_fips_SHA256. }
    cbn [mbind option_bind]. cbn zeta. rewrite fold_inner_256, xor_both_pads. unfold CHMAC_SHA256_Finalize. cbn [hmac_inner hmac_outer].
    pose proof (CSHA256_spec g (((λ x, x ⊕ 54) <$> hmac_key fips_SHA256 64 key) :: chunks) Hg) as E. cbn [fold_left concat] in E.
    rewrite E. cbn [mbind option_bind]. set (t := fips_SHA256 (_ ++ concat chunks)).
    pose proof (CSHA256_spec g [((λ x, x ⊕ 92) <$> hmac_key fips_SHA256 64 key); t] Hg) as E2. cbn [fold_left concat] in E2.
    rewrite E2, app_nil_r. done.
  - unfold CHMAC_SHA512.
    assert ((if bool_decide (length key <= 128)%nat then key ++ replicate (128 - length key) 0
             else CSHA512_Finalize (CSHA512_Write (CSHA512 g') key) ++ replicate 64 0) = hmac_key fips_SHA512 128 key) as ->.
    { unfold hmac_key. cbn zeta. destruct (bool_decide (length key <= 128)%nat); [done|].
      pose proof (CSHA512_spec g' [key] Hg') as E. cbn [fold_left concat] in E. rewrite app_nil_r in E.
      rewrite E by lia. by rewrite length_fips_SHA512. }
    cbn zeta. rewrite fold_inner_512, xor_both_pads. unfold CHMAC_SHA512_Finalize. cbn [hmac_inner hmac_outer].
    pose proof (length_hmac_key_512 key) as Hlk.
    pose proof (CSHA512_spec g' (((λ x, x ⊕ 54) <$> hmac_key fips_SHA512 128 key) :: chunks) Hg') as E. cbn [fold_left concat] in E.
    rewrite E by (rewrite length_app, length_fmap, Hlk; lia). set (t := fips_SHA512 (_ ++ concat chunks)).
    pose proof (CSHA512_spec g' [((λ x, x ⊕ 92) <$> hmac_key fips_SHA512 128 key); t] Hg') as E2. cbn [fold_left concat] in E2.
    assert (length t = 64%nat) as Ht by apply length_fips_SHA512.
    rewrite E2 by (rewrite !length_app, length_fmap, Hlk, Ht; cbn; lia). by rewrite app_nil_r.
Qed.

Lemma hmac_computes_rfc2104_witness :
  (m ← CHMAC_SHA256 (replicate 64 5) (replicate 64 5) (replicate 64 5) (replicate 70 1);
   CHMAC_SHA256_Finalize (fold_left CHMAC_SHA256_Write [[1]; [2; 3]] m)) =
    Some (rfc2104 fips_SHA256 64 (replicate 70 1) [1; 2; 3]).
Proof. apply (hmac_computes_rfc2104 (replicate 64 5) (replicate 128 5) (replicate 70 1) [[1]; [2; 3]]); done. Defined.

(** ** SipHash *)

(** The bytes of an unfinished word. *)
Definition sip_ok (h : CSipHasher) (pending : list Z) : Prop :=
  0 <= h.(sip_count) ∧ h.(sip_count) mod 8 = size pending ∧ bytes pending ∧ h.(sip_tmp) = ReadLE pending.

Lemma ReadLE_snoc l b : ReadLE (l ++ [b]) = ReadLE l + b * 256 ^ size l.
Proof. induction l as [|x l IH]; cbn [app ReadLE length]; [cbn; lia|]. rewrite IH, Nat2Z.inj_succ, Z.pow_succ_r by lia. lia. Qed.

Lemma ReadLE_range l : bytes l → 0 <= ReadLE l < 256 ^ size l.
Proof.
  induction 1 as [|b l Hb _ IH]; cbn [ReadLE length]; [cbn; lia|]. rewrite Nat2Z.inj_succ, Z.pow_succ_r by lia.
  unfold is_u8 in Hb. lia.
Qed.

(** One byte joins the pending ones. *)
Lemma sip_byte h pending b : sip_ok h pending → is_u8 b → (length pending < 8)%nat →
  Z.lor h.(sip_tmp) (u64 (Z.shiftl b (8 * (h.(sip_count) mod 8)))) = ReadLE (pending ++ [b]).
Proof.
  intros (_ & Hc & Hp & Ht) Hb Hl. rewrite Hc, Ht. pose proof (ReadLE_range pending Hp) as Hr.
  assert (256 ^ size pending = 2 ^ (8 * size pending)) as E by (rewrite Z.pow_mul_r by lia; done). rewrite E in Hr.
  rewrite u64_id.
  - rewrite lor_add_shift by lia. by rewrite ReadLE_snoc, E.
  - rewrite Z.shiftl_mul_pow2 by lia. unfold is_u64, is_u8 in *. split; [apply Z.mul_nonneg_nonneg; lia|].
    assert (2 ^ (8 * size pending) <= 2 ^ 56) by (apply Z.pow_le_mono_r; lia).
    pose proof (Z.pow_pos_nonneg 2 (8 * size pending)). change (2 ^ 64) with (2 ^ 8 * 2 ^ 56). nia.
Qed.

Lemma land_7 c : Z.land c 7 = c mod 8.
Proof. exact (Z.land_ones c 3 ltac:(lia)). Qed.

(** Writing the rest of a word. *)
Lemma SipWrite_word l h pending rest :
  sip_ok h pending → bytes l → (length pending + length l = 8)%nat → l ≠ [] →
  SipWrite (l ++ rest) h =
  SipWrite rest {| sip_state := sip_block (ReadLE (pending ++ l)) h.(sip_state); sip_tmp := 0; sip_count := h.(sip_count) + size l |}.
Proof.
  revert h pending. induction l as [|b l IH]; intros h pending Hok Hb Hl Hne; [done|]. apply Forall_cons in Hb as [Hb Hbs].
  cbn [app SipWrite]. rewrite (sip_byte h pending b) by (done || cbn in Hl; lia). rewrite land_7.
  destruct Hok as (Hc0 & Hc & Hp & Ht). cbn [length] in Hl.
  destruct l as [|b' l]; cbn [length] in *.
  - assert ((sip_count h + 1) mod 8 = 0) as E.
    { rewrite <- Zplus_mod_idemp_l, Hc. by replace (length pending) with 7%nat by lia. }
    rewrite E. cbn [Z.eqb app]. by replace (size [b]) with 1 by done.
  - assert ((sip_count h + 1) mod 8 = size pending + 1) as E.
    { rewrite <- Zplus_mod_idemp_l, Hc. apply Z.mod_small. lia. }
    destruct (Z.eqb_spec ((sip_count h + 1) mod 8) 0) as [|_]; [lia|].
    rewrite (IH _ (pending ++ [b])); [|split_and!; cbn [sip_count sip_tmp]|done|rewrite length_app; cbn; lia|done].
    + cbn [sip_state sip_count]. rewrite <- app_assoc. cbn [app length]. do 2 f_equal. lia.
    + lia.
    + rewrite length_app. cbn [length]. lia.
    + apply Forall_app_2; [done|]. by apply Forall_singleton.
    + done.
Qed.

(** Fewer bytes than a word. *)
Lemma SipWrite_short l h pending : sip_ok h pending → bytes l → (length pending + length l < 8)%nat →
  SipWrite l h = {| sip_state := h.(sip_state); sip_tmp := ReadLE (pending ++ l); sip_count := h.(sip_count) + size l |}.
Proof.
  revert h pending. induction l as [|b l IH]; intros h pending Hok Hb Hl.
  { cbn. rewrite app_nil_r, Z.add_0_r. destruct Hok as (_ & _ & _ & <-). by destruct h. }
  apply Forall_cons in Hb as [Hb Hbs]. cbn [length] in Hl. cbn [SipWrite].
  rewrite (sip_byte h pending b) by (done || lia). rewrite land_7. destruct Hok as (Hc0 & Hc & Hp & Ht).
  assert ((sip_count h + 1) mod 8 = size pending + 1) as E.
  { rewrite <- Zplus_mod_idemp_l, Hc. apply Z.mod_small. lia. }
  destruct (Z.eqb_spec ((sip_count h + 1) mod 8) 0) as [|_]; [lia|].
  rewrite (IH _ (pending ++ [b])); [|split_and!; cbn [sip_count sip_tmp]|done|rewrite length_app; cbn; lia].
  - cbn [sip_state sip_count]. rewrite <- app_assoc. cbn [app length]. f_equal. lia.
  - lia.
  - rewrite length_app. cbn [length]. lia.
  - apply Forall_app_2; [done|]. by apply Forall_singleton.
  - done.
Qed.

Lemma SipWrite_aligned h l rest :
  0 <= h.(sip_count) → h.(sip_count) mod 8 = 0 → h.(sip_tmp) = 0 → bytes l → length l = 8%nat →
  SipWrite (l ++ rest) h =
  SipWrite rest {| sip_state := sip_block (ReadLE l) h.(sip_state); sip_tmp := 0; sip_count := h.(sip_count) + 8 |}.
Proof.
  intros H0 Hc Ht Hb Hl. rewrite (SipWrite_word l h [] rest); [|split_and!; [done|done|constructor|done]|done|cbn; lia|by destruct l].
  by rewrite Hl.
Qed.

(** The four words of a number are the words of its bytes. *)
Lemma GetUint64_eq val pos : bytes (take 8 (drop (pos * 8) (c_uint256.(enc) val))) →
  length (take 8 (drop (pos * 8) (c_uint256.(enc) val))) = 8%nat →
  GetUint64 val pos = ReadLE (take 8 (drop (pos * 8) (c_uint256.(enc) val))).
Proof.
  unfold GetUint64. set (l := drop (pos * 8) _). intros Hb Hl.
  assert (∀ i, (i < 8)%nat → nth i l 0 = nth i (take 8 l) 0) as En.
  { intros i Hi. by rewrite <- (take_drop 8 l) at 1; rewrite app_nth1 by lia. }
  rewrite !En by lia. clear En. set (t := take 8 l) in *. clearbody t. clear l.
  destruct t as [|b0 [|b1 [|b2 [|b3 [|b4 [|b5 [|b6 [|b7 [|]]]]]]]]]; try discriminate Hl. cbn [nth ReadLE].
  repeat (apply Forall_cons in Hb as [? Hb]). unfold is_u8 in *.
  repeat match goal with
  | |- context [Z.lor ?x (Z.shiftl ?y ?w)] =>
      lazymatch x with context [Z.lor _ _] => fail | _ => rewrite (lor_add_shift x y w) by lia end
  end. lia.
Qed.

Lemma enc_uint256_app (val : base_uint) : wf 8 val →
  bytes (c_uint256.(enc) val) ∧ length (c_uint256.(enc) val) = 32%nat.
Proof.
  intros [Hl Hf]. cbn [c_uint256 c_uint enc]. split.
  - clear Hl. induction Hf as [|x l Hx _ IH]; [constructor|]. cbn [fmap list_fmap concat].
    apply Forall_app_2; [apply WriteLE_bytes|done].
  - by rewrite (length_concat_fixed 4), Hl by (intros; apply WriteLE_length).
Qed.

(** The state after the four words. *)
Definition sip_words (k0 k1 : Z) (val : base_uint) : sip_v :=
  sip_block (GetUint64 val 3) (sip_block (GetUint64 val 2) (sip_block (GetUint64 val 1)
    (sip_block (GetUint64 val 0) (sip_init k0 k1)))).

Lemma SipHashUint256_words k0 k1 val : SipHashUint256 k0 k1 val = sip_end (sip_block (Z.shiftl 4 59) (sip_words k0 k1 val)).
Proof.
  unfold SipHashUint256, sip_words. cbn zeta. generalize (GetUint64 val 0), (GetUint64 val 1), (GetUint64 val 2), (GetUint64 val 3).
  intros. do 5 f_equal.
Qed.

Lemma SipHashUint256Extra_words k0 k1 val extra :
  SipHashUint256Extra k0 k1 val extra = sip_end (sip_block (Z.lor (Z.shiftl 36 56) extra) (sip_words k0 k1 val)).
Proof.
  unfold SipHashUint256Extra, sip_words. cbn zeta. generalize (GetUint64 val 0), (GetUint64 val 1), (GetUint64 val 2), (GetUint64 val 3).
  intros. do 5 f_equal.
Qed.

Lemma SipWrite64_words k0 k1 val :
  (h ← SipWrite64 (GetUint64 val 0) (CSipHasher_new k0 k1); h ← SipWrite64 (GetUint64 val 1) h;
   h ← SipWrite64 (GetUint64 val 2) h; SipWrite64 (GetUint64 val 3) h) =
  Some {| sip_state := sip_words k0 k1 val; sip_tmp := 0; sip_count := 32 |}.
Proof.
  unfold sip_words. generalize (GetUint64 val 0), (GetUint64 val 1), (GetUint64 val 2), (GetUint64 val 3). intros w0 w1 w2 w3.
  unfold SipWrite64, CSipHasher_new. generalize sip_block, (sip_init k0 k1). intros. reflexivity.
Qed.

(** The special functions for 256-bit numbers compute what the hasher does:
    [SipHashUint256] agrees with [CSipHasher] fed with the four words, and with
    its 32 bytes in one or in many writes; [SipHashUint256Extra] agrees with the
    hasher fed with the 32 bytes followed by the four bytes of [extra]. *)
Theorem SipHashUint256_agrees (k0 k1 : Z) (val : base_uint) (extra : Z) :
  wf 8 val → is_u32 extra →
  (h ← SipWrite64 (GetUint64 val 0) (CSipHasher_new k0 k1); h ← SipWrite64 (GetUint64 val 1) h;
   h ← SipWrite64 (GetUint64 val 2) h; SipWrite64 (GetUint64 val 3) h) ≫= (λ h, Some (SipFinalize h)) =
    Some (SipHashUint256 k0 k1 val) ∧
  SipFinalize (SipWrite (c_uint256.(enc) val) (CSipHasher_new k0 k1)) = SipHashUint256 k0 k1 val ∧
  SipFinalize (SipWrite (WriteLE 4 extra) (SipWrite (c_uint256.(enc) val) (CSipHasher_new k0 k1))) =
    SipHashUint256Extra k0 k1 val extra.
Proof.
  intros Hwf Hx. destruct (enc_uint256_app val Hwf) as [Hb Hl].
  assert (∀ i, (i < 4)%nat → bytes (take 8 (drop (i * 8) (c_uint256.(enc) val))) ∧
    length (take 8 (drop (i * 8) (c_uint256.(enc) val))) = 8%nat) as Hw.
  { intros i Hi. split; [by apply Forall_take, Forall_drop|]. rewrite length_take, length_drop, Hl. lia. }
  assert (SipWrite (c_uint256.(enc) val) (CSipHasher_new k0 k1) =
    {| sip_state := sip_words k0 k1 val; sip_tmp := 0; sip_count := 32 |}) as E.
  { unfold sip_words. rewrite !GetUint64_eq by (apply Hw; lia). set (l := c_uint256.(enc) val) in *.
    assert (l = take 8 (drop (0 * 8) l) ++ take 8 (drop (1 * 8) l) ++ take 8 (drop (2 * 8) l) ++ take 8 (drop (3 * 8) l) ++ []) as El.
    { rewrite app_nil_r. rewrite (take_ge (drop (3 * 8) l)) by (rewrite length_drop; lia).
      change (3 * 8)%nat with (2 * 8 + 8)%nat. rewrite <- drop_drop, take_drop.
      change (2 * 8)%nat with (1 * 8 + 8)%nat. rewrite <- drop_drop, take_drop.
      change (1 * 8)%nat with (0 * 8 + 8)%nat. rewrite <- drop_drop, take_drop. done. }
    rewrite El at 1. repeat (rewrite SipWrite_aligned; [|done|done|done|apply Hw; lia|apply Hw; lia]). done. }
  rewrite SipWrite64_words, E, SipHashUint256_words, SipHashUint256Extra_words. unfold SipFinalize. cbn [sip_tmp sip_count sip_state].
  change (Z.lor 0 (u64 (Z.shiftl (u64 32) 56))) with (Z.shiftl 4 59). split_and!; [done|done|].
  rewrite (SipWrite_short _ _ []); [|split_and!; [done|done|constructor|done]|apply WriteLE_bytes|rewrite WriteLE_length; cbn; lia].
  rewrite WriteLE_length. cbn [app sip_tmp sip_count sip_state]. rewrite ReadLE_WriteLE by exact Hx.
  rewrite (Z.lor_comm (Z.shiftl 36 56)). done.
Qed.

Lemma SipHashUint256_agrees_witness :
  SipFinalize (SipWrite (WriteLE 4 77) (SipWrite (c_uint256.(enc) [1; 2; 3; 4; 5; 6; 7; 8]) (CSipHasher_new 11 12))) =
  SipHashUint256Extra 11 12 [1; 2; 3; 4; 5; 6; 7; 8] 77.
Proof.
  apply (SipHashUint256_agrees 11 12 [1; 2; 3; 4; 5; 6; 7; 8] 77); [split; [done|by repeat constructor]|done].
Defined.

(** Test vectors of [test/hash_tests.cpp]. *)
Example murmur_vectors :
  MurmurHash3 0xFBA4C795 [] = 0x6a396f08 ∧ MurmurHash3 0 [0xff] = 0xfd6cf10d ∧
  MurmurHash3 0 [0; 0x11] = 0x16c6b7ab ∧ MurmurHash3 0 [0; 0x11; 0x22] = 0x8eb51c3d ∧
  MurmurHash3 0 [0; 0x11; 0x22; 0x33; 0x44; 0x55; 0x66; 0x77; 0x88] = 0xb4698def.
Proof. vm_compute. done. Qed.
