(* ===== verification/Merkle.v ===== *)
(** * Merkle: the merkle tree of a block ([consensus/merkle.cpp])

    [MerkleComputation] computes the root, a branch and the mutation flag in one
    pass over the leaves, with an array of the roots of the complete subtrees
    seen so far.  It is compared with the tree that it stands for. *)

From S2P Require Import Prelude ArithUint256 Script Interpreter Serialize Transaction CoinsUpdate Hash.
Local Open Scope Z_scope.

Section merkle.
Context `{ScriptCrypto}.

(** [CHash256().Write(a).Write(b).Finalize()], also [Hash(a, b)]. *)
Definition hash_pair (a b : base_uint) : base_uint :=
  match c_uint256.(dec) (Hash256 (c_uint256.(enc) a ++ c_uint256.(enc) b)) with
  | Some (h, _) => h
  | None => uint_zero 8
  end.

(** The variables that the inner loops change. *)
Record climb := {
  cl_level : nat;
  cl_h : base_uint;
  cl_matchh : bool;
  cl_mutated : bool;
  cl_branch : list base_uint;
}.

(** [inner[level]]; an index outside of the array is undefined behaviour. *)
Definition inner_at (inner : list base_uint) (level : nat) : base_uint := nth level inner (uint_zero 8).

(** The body of the loops that run while [count & (1 << level)] is zero; the
    final sweep does not look at [mutated].  [pbranch] says whether a branch is
    wanted. *)
Definition climb_step (pbranch : bool) (inner : list base_uint) (matchlevel : Z) (s : climb) : climb :=
  let node := inner_at inner s.(cl_level) in
  let '(branch, matchh) :=
    if pbranch then
      if s.(cl_matchh) then (s.(cl_branch) ++ [node], true)
      else if matchlevel =? Z.of_nat s.(cl_level) then (s.(cl_branch) ++ [s.(cl_h)], true)
      else (s.(cl_branch), false)
    else (s.(cl_branch), s.(cl_matchh)) in
  {| cl_level := S s.(cl_level); cl_h := hash_pair node s.(cl_h); cl_matchh := matchh;
     cl_mutated := s.(cl_mutated) || bool_decide (node = s.(cl_h)); cl_branch := branch |}.

(** A [uint32_t] that is not zero has a bit below 32, so 32 rounds suffice. *)
Fixpoint climb_loop (fuel : nat) (pbranch : bool) (count : Z) (inner : list base_uint) (matchlevel : Z) (s : climb) :
    option climb :=
  if negb (Z.land count (u32 (Z.shiftl 1 (Z.of_nat s.(cl_level)))) =? 0) then Some s
  else match fuel with
       | O => None
       | S fuel => climb_loop fuel pbranch count inner matchlevel (climb_step pbranch inner matchlevel s)
       end.

(** The state of the loop over the leaves. *)
Record merkle_state := {
  mk_count : Z;
  mk_inner : list base_uint;
  mk_matchlevel : Z;
  mk_mutated : bool;
  mk_branch : list base_uint;
}.

Definition add_leaf (pbranch : bool) (branchpos : Z) (leaf : base_uint) (s : merkle_state) : option merkle_state :=
  let matchh := s.(mk_count) =? branchpos in
  let count := u32 (s.(mk_count) + 1) in
  r ← climb_loop 32 pbranch count s.(mk_inner) s.(mk_matchlevel)
        {| cl_level := 0; cl_h := leaf; cl_matchh := matchh; cl_mutated := s.(mk_mutated); cl_branch := s.(mk_branch) |};
  Some {| mk_count := count; mk_inner := <[r.(cl_level) := r.(cl_h)]> s.(mk_inner);
          mk_matchlevel := if r.(cl_matchh) then Z.of_nat r.(cl_level) else s.(mk_matchlevel);
          mk_mutated := r.(cl_mutated); mk_branch := r.(cl_branch) |}.

Fixpoint add_leaves (pbranch : bool) (branchpos : Z) (leaves : list base_uint) (s : merkle_state) : option merkle_state :=
  match leaves with
  | [] => Some s
  | leaf :: leaves => s ← add_leaf pbranch branchpos leaf s; add_leaves pbranch branchpos leaves s
  end.

(** The lowest bit of [count] that is set. *)
Fixpoint lowest_bit (fuel : nat) (count : Z) (level : nat) : option nat :=
  if negb (Z.land count (u32 (Z.shiftl 1 (Z.of_nat level))) =? 0) then Some level
  else match fuel with O => None | S fuel => lowest_bit fuel count (S level) end.

(** The final sweep; the level grows on every round and stays below 32. *)
Fixpoint sweep (fuel : nat) (pbranch : bool) (count : Z) (inner : list base_uint) (matchlevel : Z) (s : climb) :
    option climb :=
  if count =? u32 (Z.shiftl 1 (Z.of_nat s.(cl_level))) then Some s
  else match fuel with
  | O => None
  | S fuel =>
      let branch := if pbranch && s.(cl_matchh) then s.(cl_branch) ++ [s.(cl_h)] else s.(cl_branch) in
      let count := u32 (count + u32 (Z.shiftl 1 (Z.of_nat s.(cl_level)))) in
      s ← climb_loop 32 pbranch count inner matchlevel
            {| cl_level := S s.(cl_level); cl_h := hash_pair s.(cl_h) s.(cl_h); cl_matchh := s.(cl_matchh);
               cl_mutated := s.(cl_mutated); cl_branch := branch |};
      sweep fuel pbranch count inner matchlevel s
  end.

(** The root, the mutation flag and the branch; [None] is running out of
    rounds, which stands for undefined behaviour. *)
Definition MerkleComputation (leaves : list base_uint) (branchpos : Z) (pbranch : bool) :
    option (base_uint * bool * list base_uint) :=
  match leaves with
  | [] => Some (uint_zero 8, false, [])
  | _ =>
      s ← add_leaves pbranch branchpos leaves
            {| mk_count := 0; mk_inner := replicate 32 (uint_zero 8); mk_matchlevel := -1; mk_mutated := false;
               mk_branch := [] |};
      level ← lowest_bit 32 s.(mk_count) 0;
      let h := inner_at s.(mk_inner) level in
      let matchh := s.(mk_matchlevel) =? Z.of_nat level in
      r ← sweep 32 pbranch s.(mk_count) s.(mk_inner) s.(mk_matchlevel)
            {| cl_level := level; cl_h := h; cl_matchh := matchh; cl_mutated := false; cl_branch := s.(mk_branch) |};
      Some (r.(cl_h), s.(mk_mutated), r.(cl_branch))
  end.

Definition ComputeMerkleRoot (leaves : list base_uint) : option (base_uint * bool) :=
  '(root, mutated, _) ← MerkleComputation leaves (2 ^ 32 - 1) false; Some (root, mutated).

Definition ComputeMerkleBranch (leaves : list base_uint) (position : Z) : option (list base_uint) :=
  '(_, _, branch) ← MerkleComputation leaves position true; Some branch.

Fixpoint ComputeMerkleRootFromBranch (hash : base_uint) (vMerkleBranch : list base_uint) (nIndex : Z) : base_uint :=
  match vMerkleBranch with
  | [] => hash
  | it :: l =>
      ComputeMerkleRootFromBranch (if negb (Z.land nIndex 1 =? 0) then hash_pair it hash else hash_pair hash it)
        l (Z.shiftr nIndex 1)
  end.

(** The leaves are the hashes of the transactions. *)
Definition BlockMerkleRoot (vtx : list CTransaction) : option (base_uint * bool) := ComputeMerkleRoot (GetHash <$> vtx).
Definition BlockMerkleBranch (vtx : list CTransaction) (position : Z) : option (list base_uint) :=
  ComputeMerkleBranch (GetHash <$> vtx) position.

(** ** The tree *)

(** The root of a tree with [2 ^ level] places, of which the first ones are
    taken by the leaves [l]: a missing right half repeats the left one. *)
Fixpoint tree_root (level : nat) (l : list base_uint) : base_uint :=
  match level with
  | O => nth 0 l (uint_zero 8)
  | S k =>
      if bool_decide (length l <= 2 ^ k)%nat then hash_pair (tree_root k l) (tree_root k l)
      else hash_pair (tree_root k (take (2 ^ k) l)) (tree_root k (drop (2 ^ k) l))
  end.

Definition merkle_height (n : nat) : nat := Z.to_nat (Z.log2_up (Z.of_nat n)).

(** ** Powers of two and bits *)

Definition pw (l : nat) : Z := 2 ^ Z.of_nat l.

Lemma pw_S l : pw (S l) = 2 * pw l.
Proof. unfold pw. rewrite Nat2Z.inj_succ, Z.pow_succ_r by lia. done. Qed.
Lemma pw_pos l : 0 < pw l.
Proof. apply Z.pow_pos_nonneg; lia. Qed.
Lemma pw_nat l : Z.of_nat (2 ^ l) = pw l.
Proof. unfold pw. rewrite Nat2Z.inj_pow. done. Qed.
Lemma pw_mono l m : (l <= m)%nat → pw l <= pw m.
Proof. intros. apply Z.pow_le_mono_r; lia. Qed.
Lemma pw_lt_inv l : pw l < 2 ^ 32 → (l < 32)%nat.
Proof. intros Hl. unfold pw in Hl. apply Z.pow_lt_mono_r_iff in Hl; lia. Qed.

(** A multiple of [pw l], by its bit [l]. *)
Lemma multiple_cases l p : (pw l | p) →
  (Z.testbit p (Z.of_nat l) = true ∧ (pw (S l) | p - pw l) ∧ p / pw (S l) * pw (S l) = p - pw l) ∨
  (Z.testbit p (Z.of_nat l) = false ∧ (pw (S l) | p)).
Proof.
  intros [k ->]. pose proof (pw_pos l). rewrite Z.testbit_eqb by lia. fold (pw l). rewrite Z.div_mul by lia. rewrite pw_S.
  pose proof (Z.div_mod k 2 ltac:(lia)) as E. pose proof (Z.mod_pos_bound k 2 ltac:(lia)).
  destruct (Z.eqb_spec (k mod 2) 1) as [Hk|Hk]; [left|right]; (split; [done|]).
  - assert (k = 2 * (k / 2) + 1) as Ek by lia. set (q := k / 2) in *. clearbody q. subst k.
    split; [exists q; lia|]. replace ((2 * q + 1) * pw l) with (q * (2 * pw l) + pw l) by lia.
    rewrite Z.div_add_l, Z.div_small by lia. lia.
  - exists (k / 2). assert (k = 2 * (k / 2)) as Ek by lia. nia.
Qed.

(** Adding [pw l] to a multiple of it flips bit [l]. *)
Lemma testbit_plus_pw l p : (pw l | p) →
  Z.testbit (p + pw l) (Z.of_nat l) = negb (Z.testbit p (Z.of_nat l)).
Proof.
  intros [k ->]. pose proof (pw_pos l). rewrite !Z.testbit_eqb by lia. fold (pw l).
  replace (k * pw l + pw l) with ((k + 1) * pw l) by lia. rewrite !Z.div_mul by lia.
  rewrite Z.add_mod by lia. pose proof (Z.mod_pos_bound k 2 ltac:(lia)).
  assert (k mod 2 = 0 ∨ k mod 2 = 1) as [-> | ->] by lia; done.
Qed.

(** The bits and the enclosing block of a position in a block. *)
Lemma block_bit l p r : (pw l | p) → 0 <= r < pw l → Z.testbit (p + r) (Z.of_nat l) = Z.testbit p (Z.of_nat l).
Proof.
  intros [k ->] Hr. rewrite !Z.testbit_eqb by lia. fold (pw l). by rewrite Z.div_add_l, Z.div_mul, (Z.div_small r), Z.add_0_r by lia.
Qed.

Lemma block_high_bit l m p r : (l <= m)%nat → (pw l | p) → 0 <= r < pw l →
  Z.testbit (p + r) (Z.of_nat m) = Z.testbit p (Z.of_nat m) ∧ (p + r) / pw (S m) = p / pw (S m).
Proof.
  intros Hm [k ->] Hr. pose proof (pw_pos l).
  assert (∀ d, (l <= d)%nat → (k * pw l + r) / pw d = k * pw l / pw d) as Hd.
  { intros d Hd. replace (pw d) with (pw l * pw (d - l)).
    - pose proof (pw_pos (d - l)). rewrite <- !Z.div_div by lia.
      by rewrite Z.div_add_l, Z.div_mul, (Z.div_small r), Z.add_0_r by lia.
    - unfold pw. rewrite <- Z.pow_add_r by lia. f_equal. lia. }
  split; [|apply Hd; lia]. rewrite !Z.testbit_eqb by lia. fold (pw m). by rewrite Hd by lia.
Qed.

(** The block of a bit that is set in [p] ends at or before [p]. *)
Lemma bit_block_end m p : Z.testbit p (Z.of_nat m) = true → p / pw (S m) * pw (S m) + pw m <= p.
Proof.
  intros Hb. pose proof (Z.div_mod p (pw (S m))) as E. pose proof (pw_pos (S m)). pose proof (pw_pos m).
  apply Z.testbit_true in Hb; [|lia]. fold (pw m) in Hb. rewrite pw_S, (Z.mul_comm 2), Z.rem_mul_r, Hb in E by lia.
  pose proof (Z.mod_pos_bound p (pw m)). rewrite (pw_S m), (Z.mul_comm 2). lia.
Qed.

(** The position [p + pw l] for a multiple [p] of [pw (S l)]. *)
Lemma count_bits l p m : (pw (S l) | p) → (l < m)%nat →
  Z.testbit (p + pw l) (Z.of_nat m) = Z.testbit p (Z.of_nat m) ∧ (p + pw l) / pw (S m) = p / pw (S m).
Proof. intros Hd Hm. pose proof (pw_pos l). apply (block_high_bit (S l)); [lia|done|rewrite pw_S; lia]. Qed.

Lemma pw_divide l m : (l <= m)%nat → (pw l | pw m).
Proof. intros Hlm. exists (pw (m - l)). unfold pw. rewrite <- Z.pow_add_r by lia. f_equal. lia. Qed.

Lemma count_lowest l p : (pw (S l) | p) →
  Z.testbit (p + pw l) (Z.of_nat l) = true ∧ Z.testbit p (Z.of_nat l) = false ∧
  (p + pw l) / pw (S l) * pw (S l) = p ∧
  (∀ m, (m < l)%nat → Z.testbit (p + pw l) (Z.of_nat m) = false).
Proof.
  intros Hd. pose proof (pw_pos l). assert (pw l | p) as Hd' by (etrans; [|done]; apply pw_divide; lia).
  assert (Z.testbit p (Z.of_nat l) = false) as Hb.
  { destruct Hd as [k ->]. rewrite pw_S, Z.testbit_eqb by lia. fold (pw l).
    replace (k * (2 * pw l)) with (k * 2 * pw l) by lia. rewrite Z.div_mul, Z.mod_mul by lia. done. }
  split_and!; [by rewrite testbit_plus_pw, Hb|done| |].
  - destruct Hd as [k ->]. rewrite Z.div_add_l, Z.div_small by (rewrite ?pw_S; lia). lia.
  - intros m Hm. assert (pw (S m) | p + pw l) as [k ->].
    { apply Z.divide_add_r; [etrans; [|done]|]; apply pw_divide; lia. }
    rewrite pw_S, Z.testbit_eqb by lia. fold (pw m). pose proof (pw_pos m).
    replace (k * (2 * pw m)) with (k * 2 * pw m) by lia. rewrite Z.div_mul, Z.mod_mul by lia. done.
Qed.

(** The tests of the loops. *)
Lemma land_shifted_bit count l : (l < 32)%nat →
  negb (Z.land count (u32 (Z.shiftl 1 (Z.of_nat l))) =? 0) = Z.testbit count (Z.of_nat l).
Proof.
  intros Hl. rewrite Z.shiftl_1_l. fold (pw l). rewrite u32_id.
  2: { unfold is_u32, pw. split; [apply Z.pow_nonneg; lia|apply Z.pow_lt_mono_r; lia]. }
  unfold pw. rewrite Z.land_comm. rewrite <- Z.shiftl_1_l.
  destruct (Z.testbit count (Z.of_nat l)) eqn:E.
  - apply negb_true_iff, Z.eqb_neq. intros E0. apply (f_equal (λ z, Z.testbit z (Z.of_nat l))) in E0.
    rewrite Z.land_spec, E, Z.shiftl_spec, Z.sub_diag, Z.bits_0 in E0 by lia. done.
  - apply negb_false_iff, Z.eqb_eq. apply Z.bits_inj'. intros i Hi. rewrite Z.land_spec, Z.bits_0, Z.shiftl_spec by lia.
    destruct (decide (i = Z.of_nat l)) as [->|Hne]; [by rewrite E, andb_false_r|].
    destruct (decide (i < Z.of_nat l)); [by rewrite Z.testbit_neg_r by lia|].
    by rewrite (testbit_above 1 1) by lia.
Qed.

(** ** The loops against the tree *)

Section against_tree.
Variable leaves : list base_uint.
Variables (pbranch : bool) (pos : Z).
Hypothesis Hpos : 0 <= pos < Z.of_nat (length leaves).
Abbreviation n := (Z.of_nat (length leaves)).

(** The root of the subtree with [pw l] places at position [q]. *)
Definition node (l : nat) (q : Z) : base_uint := tree_root l (take (2 ^ l) (drop (Z.to_nat q) leaves)).

#[local] Arguments node : simpl never.

Lemma node_split l q : 0 <= q → q + pw l < n → node (S l) q = hash_pair (node l q) (node l (q + pw l)).
Proof.
  intros Hq Hn. unfold node. cbn [tree_root]. pose proof (pw_nat l). rewrite bool_decide_eq_false_2.
  - assert (2 ^ S l = 2 ^ l + 2 ^ l)%nat as E2 by (cbn; lia). rewrite take_take, Nat.min_l by lia. f_equal.
    rewrite skipn_firstn_comm. rewrite drop_drop.
    replace (2 ^ S l - 2 ^ l)%nat with (2 ^ l)%nat by lia. do 3 f_equal. lia.
  - rewrite length_take, length_drop. pose proof (pw_pos l). cbn. lia.
Qed.

Lemma node_odd l q : 0 <= q < n → n <= q + pw l → node (S l) q = hash_pair (node l q) (node l q).
Proof.
  intros Hq Hn. unfold node. cbn [tree_root]. pose proof (pw_nat l).
  rewrite !(take_ge (drop (Z.to_nat q) leaves)) by (rewrite length_drop; cbn; lia).
  rewrite bool_decide_eq_true_2; [done|]. rewrite length_drop. lia.
Qed.

Definition the_leaf : base_uint := node 0 pos.

(** The branch [br] leads from the leaf at [pos] to the root [h] of a subtree of
    level [l]. *)
Definition path (br : list base_uint) (l : nat) (h : base_uint) : Prop :=
  length br = l ∧ ComputeMerkleRootFromBranch the_leaf br pos = h.

Lemma from_branch_snoc hash br x idx : 0 <= idx →
  ComputeMerkleRootFromBranch hash (br ++ [x]) idx =
    let h := ComputeMerkleRootFromBranch hash br idx in
    if Z.testbit idx (Z.of_nat (length br)) then hash_pair x h else hash_pair h x.
Proof.
  revert hash idx. induction br as [|y br IH]; intros hash idx Hi; cbn [app ComputeMerkleRootFromBranch length].
  - cbn zeta. replace (Z.land idx 1) with (Z.land idx (u32 (Z.shiftl 1 (Z.of_nat 0)))) by done. by rewrite land_shifted_bit by lia.
  - rewrite IH by (apply Z.shiftr_nonneg; lia). cbn zeta. rewrite Z.shiftr_spec by lia.
    replace (Z.of_nat (length br) + 1) with (Z.of_nat (S (length br))) by lia. done.
Qed.

Lemma path_snoc br l h x : path br l h →
  path (br ++ [x]) (S l) (if Z.testbit pos (Z.of_nat l) then hash_pair x h else hash_pair h x).
Proof.
  intros [<- <-]. split; [rewrite length_app; cbn; lia|]. by rewrite from_branch_snoc by lia.
Qed.

(** The array holds the subtrees of the bits of [p] from [lev] on. *)
Definition inner_ok (inner : list base_uint) (p : Z) (lev : nat) : Prop :=
  ∀ l, (lev <= l)%nat → Z.testbit p (Z.of_nat l) = true → inner_at inner l = node l (p / pw (S l) * pw (S l)).

(** What is known about the match: the position is in one of the subtrees of
    the array, or it comes later. *)
Definition match_below (inner : list base_uint) (matchlevel p : Z) (lev : nat) (br : list base_uint) : Prop :=
  (pos < p → ∃ ml, matchlevel = Z.of_nat ml ∧ (lev <= ml)%nat ∧ Z.testbit p (Z.of_nat ml) = true ∧
     p / pw (S ml) * pw (S ml) <= pos < p / pw (S ml) * pw (S ml) + pw ml ∧ path br ml (inner_at inner ml)) ∧
  (p <= pos → matchlevel = -1 ∧ br = []).

(** The state of a climb that has reached the subtree of level [cl_level] at
    [p]. *)
Record climb_ok (inner : list base_uint) (matchlevel p : Z) (s : climb) : Prop := {
  ck_p : 0 <= p < n;
  ck_div : (pw s.(cl_level) | p);
  ck_h : s.(cl_h) = node s.(cl_level) p;
  ck_inner : inner_ok inner p s.(cl_level);
  ck_match : pbranch = true →
    (s.(cl_matchh) = true ∧ p <= pos < p + pw s.(cl_level) ∧ path s.(cl_branch) s.(cl_level) s.(cl_h)) ∨
    (s.(cl_matchh) = false ∧ (pos < p ∨ p + pw s.(cl_level) <= pos) ∧
     match_below inner matchlevel p s.(cl_level) s.(cl_branch));
}.

Lemma inner_ok_next inner p l :
  (pw l | p) → Z.testbit p (Z.of_nat l) = true → inner_ok inner p l → inner_ok inner (p - pw l) (S l).
Proof.
  intros Hd Hb Hi m Hm. destruct (multiple_cases l p Hd) as [(_ & Hd' & _)|[? _]]; [|congruence].
  pose proof (pw_pos l). destruct (block_high_bit (S l) m (p - pw l) (pw l) Hm Hd') as [E1 E2]; [rewrite pw_S; lia|].
  replace (p - pw l + pw l) with p in E1, E2 by lia. rewrite <- E1, <- E2. apply Hi. lia.
Qed.

(** Of the two halves that are joined at level [l], the bit tells in which one
    the position is. *)
Lemma match_bit l p : (pw l | p) → p <= pos < p + pw l →
  Z.testbit pos (Z.of_nat l) = Z.testbit p (Z.of_nat l).
Proof. intros Hd Hp. replace pos with (p + (pos - p)) by lia. apply block_bit; [done|lia]. Qed.

Lemma match_below_next inner matchlevel p l br :
  (pw l | p) → Z.testbit p (Z.of_nat l) = true → matchlevel ≠ Z.of_nat l →
  pos < p ∨ p + pw l <= pos → match_below inner matchlevel p l br →
  match_below inner matchlevel (p - pw l) (S l) br ∧ (pos < p - pw l ∨ p + pw l <= pos).
Proof.
  intros Hd Hb Hne Hp [H1 H2]. destruct (multiple_cases l p Hd) as [(_ & Hd' & _)|[? _]]; [|congruence].
  pose proof (pw_pos l). destruct (decide (pos < p)) as [Hlt|Hge].
  - destruct (H1 Hlt) as (ml & -> & Hml & Hbit & Hr & Hpath). assert (S l <= ml)%nat as Hml' by lia.
    destruct (block_high_bit (S l) ml (p - pw l) (pw l) Hml' Hd') as [E1 E2]; [rewrite pw_S; lia|].
    replace (p - pw l + pw l) with p in E1, E2 by lia. rewrite E1 in Hbit. rewrite E2 in Hr.
    pose proof (bit_block_end ml _ Hbit) as Hend. assert (pos < p - pw l) as Hlt' by lia.
    split; [|by left]. split; [|lia]. intros _. exists ml. do 3 (split; [done|]). split; [lia|done].
  - split; [|right; lia]. split; [lia|]. intros _. apply H2. lia.
Qed.

Lemma climb_step_fields inner matchlevel s : let s' := climb_step pbranch inner matchlevel s in
  cl_level s' = S s.(cl_level) ∧ cl_h s' = hash_pair (inner_at inner s.(cl_level)) s.(cl_h) ∧
  cl_mutated s' = s.(cl_mutated) || bool_decide (inner_at inner s.(cl_level) = s.(cl_h)).
Proof.
  unfold climb_step. cbn zeta. by destruct pbranch, (cl_matchh s), (matchlevel =? Z.of_nat (cl_level s)).
Qed.

Lemma climb_step_ok inner matchlevel p s :
  climb_ok inner matchlevel p s → Z.testbit p (Z.of_nat s.(cl_level)) = true →
  climb_ok inner matchlevel (p - pw s.(cl_level)) (climb_step pbranch inner matchlevel s) ∧
  cl_level (climb_step pbranch inner matchlevel s) = S s.(cl_level) ∧
  cl_mutated (climb_step pbranch inner matchlevel s) = s.(cl_mutated) ||
    bool_decide (node s.(cl_level) (p - pw s.(cl_level)) = node s.(cl_level) p).
Proof.
  intros [Hp Hd Hh Hi Hm] Hb. destruct s as [l h matchh mut br]. cbn [cl_level cl_h cl_matchh cl_mutated cl_branch] in *.
  destruct (multiple_cases l p Hd) as [(_ & Hd' & Hq)|[? _]]; [|congruence]. pose proof (pw_pos l).
  assert (inner_at inner l = node l (p - pw l)) as Hnode by (rewrite (Hi l) by done; by rewrite Hq).
  assert (pw l <= p) as Hle by (destruct Hd as [k ->]; assert (k ≠ 0); [intros ->; by rewrite Z.mul_0_l, Z.bits_0 in Hb|]; nia).
  assert (hash_pair (inner_at inner l) h = node (S l) (p - pw l)) as Hnew.
  { rewrite Hnode, Hh, node_split by lia. do 2 f_equal. lia. }
  destruct (climb_step_fields inner matchlevel (Build_climb l h matchh mut br)) as (Hl' & Hh' & Hm').
  cbn [cl_level cl_h cl_mutated] in Hl', Hh', Hm'. rewrite Hnew in Hh'.
  split; [|split; [done|by rewrite Hm', Hnode, Hh]].
  split; rewrite ?Hl', ?Hh'; [lia|done|done|by apply inner_ok_next|]. intros Hpb. specialize (Hm Hpb).
  unfold climb_step. cbn. rewrite Hpb. cbn. rewrite (pw_S l). destruct Hm as [(-> & Hr & Hpath)|(-> & Hr & Hbelow)].
  - left. cbn. split_and!; [done|lia|lia|]. rewrite <- Hnew. pose proof (path_snoc br l h (inner_at inner l) Hpath) as Hs.
    by rewrite (match_bit l p Hd Hr), Hb in Hs.
  - destruct (Z.eqb_spec matchlevel (Z.of_nat l)) as [->|Hne]; cbn.
    + left. destruct Hbelow as [H1 H2]. destruct (decide (pos < p)) as [Hlt|Hge]; [|destruct (H2 ltac:(lia)); lia].
      destruct (H1 Hlt) as (ml & E & _ & _ & Hpr & Hpath). apply Nat2Z.inj in E as <-. rewrite Hq in Hpr.
      split_and!; [done|lia|lia|]. rewrite <- Hnew. pose proof (path_snoc br l _ h Hpath) as Hs.
      assert (pw l | p - pw l) as Hd2 by (apply Z.divide_sub_r; [done|reflexivity]).
      rewrite (match_bit l (p - pw l) Hd2 Hpr) in Hs. replace p with (p - pw l + pw l) in Hb by lia.
      rewrite testbit_plus_pw in Hb by done. apply negb_true_iff in Hb. by rewrite Hb in Hs.
    + right. destruct (match_below_next inner matchlevel p l br Hd Hb Hne Hr Hbelow) as [Hn Hr'].
      split_and!; [done|lia|done].
Qed.

(** A climb stops at the lowest bit of the count; the flag is raised when two
    subtrees that are joined on the way are equal. *)
Definition equal_below (c : Z) (lo hi : nat) : Prop :=
  ∃ l, (lo <= l < hi)%nat ∧ node l (c - pw (S l)) = node l (c - pw l).

Lemma climb_loop_spec fuel c inner matchlevel p s :
  climb_ok inner matchlevel p s → p + pw s.(cl_level) = c → c < 2 ^ 32 → (32 <= s.(cl_level) + fuel)%nat →
  ∃ s' p', climb_loop fuel pbranch c inner matchlevel s = Some s' ∧ climb_ok inner matchlevel p' s' ∧
    p' + pw s'.(cl_level) = c ∧ (pw (S s'.(cl_level)) | p') ∧ (s.(cl_level) <= s'.(cl_level) < 32)%nat ∧
    (s'.(cl_mutated) = true ↔ s.(cl_mutated) = true ∨ equal_below c s.(cl_level) s'.(cl_level)).
Proof.
  revert p s. induction fuel as [|fuel IH]; intros p s Hok Hc Hc32 Hf; cbn [climb_loop].
  all: assert (s.(cl_level) < 32)%nat as Hl by (apply pw_lt_inv; pose proof (ck_p _ _ _ _ Hok); lia).
  1: lia.
  rewrite land_shifted_bit by done. pose proof (ck_div _ _ _ _ Hok) as Hd. 
  assert (Z.testbit c (Z.of_nat s.(cl_level)) = negb (Z.testbit p (Z.of_nat s.(cl_level)))) as -> by (by rewrite <- Hc, testbit_plus_pw).
  destruct (multiple_cases _ _ Hd) as [(Hb & _ & _)|[Hb Hd']]; rewrite Hb; cbn [negb].
  - destruct (climb_step_ok inner matchlevel p s Hok Hb) as (Hok' & El & Em).
    destruct (IH _ _ Hok') as (s' & p' & Hrun & Hs' & Hc' & Hd' & Hle & Hm'); rewrite ?El, ?pw_S; [lia|lia|lia|].
    exists s', p'. split_and!; [done|done|done|done|lia|lia|]. rewrite Hm', Em, orb_true_iff, bool_decide_eq_true, Logic.or_assoc, El.
    apply or_iff_compat_l. split.
    + intros [E|(l & Hl' & E)]; [exists s.(cl_level)|exists l]; (split; [lia|]); [|done].
      rewrite pw_S. rewrite <- Hc. replace (p + pw (cl_level s) - pw (cl_level s)) with p by lia. rewrite <- E. f_equal. lia.
    + intros (l & Hl' & E). destruct (decide (l = s.(cl_level))) as [->|Hne]; [left|right; exists l; split; [lia|done]].
      rewrite pw_S in E. rewrite <- Hc in E. replace (p + pw (cl_level s) - pw (cl_level s)) with p in E by lia.
      rewrite <- E. f_equal. lia.
  - exists s, p. split_and!; try done; try lia. split; [by left|]. intros [?|(l & Hl' & _)]; [done|lia].
Qed.

(** The loop over the leaves. *)
Definition equal_pair (c : Z) : Prop :=
  ∃ l q, 0 <= q ∧ (pw (S l) | q) ∧ q + pw (S l) <= c ∧ node l q = node l (q + pw l).

Record leaves_ok (c : Z) (s : merkle_state) : Prop := {
  lk_count : s.(mk_count) = c;
  lk_length : length s.(mk_inner) = 32%nat;
  lk_inner : inner_ok s.(mk_inner) c 0;
  lk_match : pbranch = true → match_below s.(mk_inner) s.(mk_matchlevel) c 0 s.(mk_branch);
  lk_mutated : s.(mk_mutated) = true ↔ equal_pair c;
}.

(** Storing the subtree that a climb has reached. *)
Lemma inner_ok_store inner p l h :
  (l < length inner)%nat → (pw (S l) | p) → h = node l p → inner_ok inner p l → inner_ok (<[l := h]> inner) (p + pw l) 0.
Proof.
  intros Hlen Hd -> Hi m _ Hb. destruct (count_lowest l p Hd) as (_ & _ & E & Hlow).
  unfold inner_at. rewrite nth_lookup. destruct (Nat.lt_trichotomy m l) as [Hm|[->|Hm]].
  - by rewrite Hlow in Hb.
  - by rewrite list_lookup_insert_eq, E by done.
  - rewrite list_lookup_insert_ne by lia. destruct (count_bits l p m Hd Hm) as [E1 E2]. rewrite E2.
    rewrite E1 in Hb. specialize (Hi m ltac:(lia) Hb). unfold inner_at in Hi. by rewrite nth_lookup in Hi.
Qed.

Lemma match_below_store inner ml p l h br :
  (l < length inner)%nat → (pw (S l) | p) → pos < p ∨ p + pw l <= pos →
  match_below inner ml p l br → match_below (<[l := h]> inner) ml (p + pw l) 0 br.
Proof.
  intros Hlen Hd Hp [H1 H2]. pose proof (pw_pos l). destruct (count_lowest l p Hd) as (_ & Hbl & _ & _). split; [|intros; apply H2; lia].
  intros Hlt. destruct (H1 ltac:(lia)) as (m & -> & Hm & Hb & Hr & Hpath). exists m.
  assert (l < m)%nat as Hm'. { destruct (decide (m = l)) as [->|]; [congruence|lia]. }
  destruct (count_bits l p m Hd Hm') as [E1 E2]. rewrite E1, E2. split_and!; [done|lia|done|lia|lia|].
  unfold inner_at in *. rewrite nth_lookup in *. by rewrite list_lookup_insert_ne by lia.
Qed.

Lemma match_below_found inner p l h br :
  (l < length inner)%nat → (pw (S l) | p) → p <= pos < p + pw l → path br l h →
  match_below (<[l := h]> inner) (Z.of_nat l) (p + pw l) 0 br.
Proof.
  intros Hlen Hd Hp Hpath. destruct (count_lowest l p Hd) as (Hb & _ & E & _). split; [|lia]. intros _. exists l.
  rewrite E. split_and!; [done|lia|done|lia|lia|]. unfold inner_at. by rewrite nth_lookup, list_lookup_insert_eq.
Qed.

(** The pairs that end at a count are those that the climb joins. *)
Lemma equal_pair_next c l p : (pw (S l) | p) → 0 <= p → p + pw l = c →
  equal_pair c ↔ equal_pair (c - 1) ∨ equal_below c 0 l.
Proof.
  intros Hd Hp Hc. split.
  - intros (m & q & Hq & Hdq & Hle & E). destruct (decide (q + pw (S m) = c)) as [Hend|]; [right|left; exists m, q; split_and!; [done|done|lia|done]].
    exists m. split; [|by replace (c - pw (S m)) with q by lia; replace (c - pw m) with (q + pw m) by (rewrite pw_S in Hend; lia)].
    destruct (decide (m < l)%nat) as [|Hge]; [lia|]. exfalso.
    assert (pw (S l) | pw l) as Hbad.
    { replace (pw l) with (q + pw (S m) - p) by lia. apply Z.divide_sub_r; [|done].
      apply Z.divide_add_r; [etrans; [|done]|]; apply pw_divide; lia. }
    apply Z.divide_pos_le in Hbad; [|apply pw_pos]. rewrite pw_S in Hbad. pose proof (pw_pos l). lia.
  - intros [(m & q & Hq & Hdq & Hle & E)|(m & Hm & E)]; [exists m, q; split_and!; [done|done|lia|done]|].
    assert (pw (S m) <= pw l) by (apply pw_mono; lia). exists m, (c - pw (S m)). split_and!; [lia| |lia|].
    + apply Z.divide_sub_r; [|done]. subst c. apply Z.divide_add_r; [etrans; [|done]|]; apply pw_divide; lia.
    + rewrite E. f_equal. rewrite pw_S. lia.
Qed.

Variable branchpos : Z.
Hypothesis Hbranchpos : pbranch = true → branchpos = pos.
Hypothesis Hsize : n <= 2 ^ 31.

Lemma node_leaf c leaf : 0 <= c → leaves !! Z.to_nat c = Some leaf → node 0 c = leaf.
Proof.
  intros Hc Hl. unfold node. cbn [tree_root]. by rewrite (drop_S _ leaf _ Hl).
Qed.

Lemma add_leaf_ok c s leaf :
  leaves_ok c s → 0 <= c → leaves !! Z.to_nat c = Some leaf →
  ∃ s', add_leaf pbranch branchpos leaf s = Some s' ∧ leaves_ok (c + 1) s'.
Proof.
  intros [Hc Hlen Hi Hm Hmut] Hc0 Hl. assert (c < n) as Hcn by (apply lookup_lt_Some in Hl; lia).
  unfold add_leaf. rewrite Hc, u32_id by (unfold is_u32; lia).
  set (s0 := {| cl_level := 0; cl_h := leaf; cl_matchh := c =? branchpos; cl_mutated := s.(mk_mutated);
                cl_branch := s.(mk_branch) |}).
  assert (climb_ok s.(mk_inner) s.(mk_matchlevel) c s0) as H0.
  { split; cbn [s0 cl_level cl_h cl_matchh cl_branch]; [lia|apply Z.divide_1_l|by rewrite (node_leaf c leaf)|done|].
    intros Hpb. rewrite (Hbranchpos Hpb). specialize (Hm Hpb). change (pw 0) with 1.
    destruct (Z.eqb_spec c pos) as [->|Hne]; [left|right; split_and!; [done|lia|done]].
    split_and!; [done|lia|lia|]. destruct Hm as [_ [_ ->]]; [lia|]. split; [done|]. by rewrite <- (node_leaf pos leaf). }
  destruct (climb_loop_spec 32 (c + 1) _ _ _ _ H0) as (r & p & -> & [Hp _ Hh Hri Hrm] & Hpc & Hd & Hlt & Hmut'); [done|lia|cbn; lia|].
  eexists. split; [done|]. split; cbn [mk_count mk_inner mk_matchlevel mk_branch mk_mutated].
  - done.
  - by rewrite length_insert.
  - rewrite <- Hpc. apply inner_ok_store; [lia|done|done|done].
  - intros Hpb. rewrite <- Hpc. destruct (Hrm Hpb) as [(-> & Hr & Hpath)|(-> & Hr & Hbelow)].
    + apply match_below_found; [lia|done|done|done].
    + apply match_below_store; [lia|done|done|done].
  - rewrite Hmut'. cbn [s0 cl_mutated cl_level]. rewrite (equal_pair_next (c + 1) (cl_level r) p Hd ltac:(lia) Hpc).
    by rewrite Hmut, Z.add_simpl_r.
Qed.

Lemma add_leaves_ok l c s :
  leaves_ok c s → 0 <= c → l = drop (Z.to_nat c) leaves →
  ∃ s', add_leaves pbranch branchpos l s = Some s' ∧ leaves_ok (c + Z.of_nat (length l)) s'.
Proof.
  revert c s. induction l as [|leaf l IH]; intros c s Hok Hc Hl; cbn [add_leaves length].
  - exists s. by rewrite Z.add_0_r.
  - assert (leaves !! Z.to_nat c = Some leaf) as Hleaf.
    { rewrite <- (Nat.add_0_r (Z.to_nat c)), <- lookup_drop, <- Hl. done. }
    destruct (add_leaf_ok c s leaf Hok Hc Hleaf) as (s1 & -> & Hok1). cbn [mbind option_bind].
    destruct (IH (c + 1) s1) as (s' & -> & Hok'); [done|lia| |].
    + replace (Z.to_nat (c + 1)) with (S (Z.to_nat c)) by lia. rewrite (drop_S _ leaf _ Hleaf) in Hl. by injection Hl.
    + exists s'. split; [done|]. by replace (c + Z.of_nat (S (length l))) with (c + 1 + Z.of_nat (length l)) by lia.
Qed.

Lemma lowest_bit_spec fuel c level :
  0 < c < 2 ^ 32 → (32 <= level + fuel)%nat → (pw level | c) →
  ∃ l p, lowest_bit fuel c level = Some l ∧ (l < 32)%nat ∧ (pw (S l) | p) ∧ p + pw l = c ∧ 0 <= p.
Proof.
  intros Hc. revert level. induction fuel as [|fuel IH]; intros level Hf Hd; cbn [lowest_bit].
  all: assert (level < 32)%nat as Hl by (apply pw_lt_inv; apply Z.divide_pos_le in Hd; lia).
  1: lia.
  rewrite land_shifted_bit by done. destruct (multiple_cases level c Hd) as [(-> & Hd' & _)|[-> Hd']].
  - exists level, (c - pw level). apply Z.divide_pos_le in Hd; [|lia]. split_and!; [done|done|done|lia|lia].
  - apply IH; [lia|done].
Qed.

(** The final sweep: the subtree at [p] holds all the leaves from [p] on. *)
Lemma sweep_step_ok inner ml p s :
  climb_ok inner ml p s → (pw (S s.(cl_level)) | p) → n <= p + pw s.(cl_level) →
  climb_ok inner ml p {| cl_level := S s.(cl_level); cl_h := hash_pair s.(cl_h) s.(cl_h); cl_matchh := s.(cl_matchh);
    cl_mutated := s.(cl_mutated);
    cl_branch := if pbranch && s.(cl_matchh) then s.(cl_branch) ++ [s.(cl_h)] else s.(cl_branch) |}.
Proof.
  intros [Hp Hd Hh Hi Hm] Hd' Hn. destruct s as [l h matchh mut br]. cbn [cl_level cl_h cl_matchh cl_branch] in *.
  destruct (count_lowest l p Hd') as (_ & Hb & _ & _). pose proof (pw_pos l).
  split; cbn [cl_level cl_h cl_matchh cl_branch]; [done|done|by rewrite node_odd, Hh by lia| |].
  - intros m Hm'. apply Hi. lia.
  - intros Hpb. rewrite Hpb. cbn [andb]. rewrite pw_S. destruct (Hm Hpb) as [(-> & Hr & Hpath)|(-> & Hr & H1 & H2)].
    + left. split_and!; [done|lia|lia|]. pose proof (path_snoc br l h h Hpath) as Hs. by rewrite (match_bit l p Hd Hr), Hb in Hs.
    + right. split_and!; [done|lia|split; [|done]]. intros Hlt. destruct (H1 Hlt) as (m & -> & Hml & Hbm & Hrm & Hpm).
      exists m. split_and!; [done| |done|lia|lia|done]. destruct (decide (m = l)) as [->|]; [congruence|lia].
Qed.

Lemma sweep_spec fuel inner ml p s :
  climb_ok inner ml p s → (pw (S s.(cl_level)) | p) → n <= p + pw s.(cl_level) → (32 <= s.(cl_level) + fuel)%nat →
  p + pw s.(cl_level) <= 2 ^ 31 → (p = 0 → pw s.(cl_level) < 2 * n) →
  ∃ s', sweep fuel pbranch (p + pw s.(cl_level)) inner ml s = Some s' ∧ climb_ok inner ml 0 s' ∧
    n <= pw s'.(cl_level) < 2 * n.
Proof.
  revert p s. induction fuel as [|fuel IH]; intros p s Hok Hd Hn Hf Hsz H0; cbn [sweep].
  all: pose proof (ck_p _ _ _ _ Hok) as Hp.
  all: assert (s.(cl_level) < 32)%nat as Hl by (apply pw_lt_inv; lia).
  1: lia.
  rewrite Z.shiftl_1_l. fold (pw s.(cl_level)). pose proof (pw_pos s.(cl_level)) as Hpw.
  rewrite (u32_id (pw _)) by (unfold is_u32; lia).
  destruct (Z.eqb_spec (p + pw s.(cl_level)) (pw s.(cl_level))) as [E|Hne].
  - assert (p = 0) as -> by lia. exists s. split; [done|]. split; [done|]. specialize (H0 eq_refl). lia.
  - assert (pw (S s.(cl_level)) <= p) as Hge by (apply Z.divide_pos_le; [lia|done]).
    assert (S s.(cl_level) < 32)%nat as Hl' by (apply pw_lt_inv; lia).
    assert (pw (S s.(cl_level)) | 2 ^ 31) as Hd31 by (apply (pw_divide _ 31); lia).
    assert (p + pw (S s.(cl_level)) <= 2 ^ 31) as Hsz'.
    { destruct Hd as [k Hk], Hd31 as [j Hj]. pose proof (pw_pos (S s.(cl_level))) as Hw.
      assert (k < j) by (apply (Z.mul_lt_mono_pos_r (pw (S s.(cl_level)))); lia).
      pose proof (Z.mul_le_mono_nonneg_r (k + 1) j (pw (S s.(cl_level)))). lia. }
    replace (p + pw s.(cl_level) + pw s.(cl_level)) with (p + pw (S s.(cl_level))) by (rewrite pw_S; lia).
    rewrite u32_id by (unfold is_u32; pose proof (pw_pos (S s.(cl_level))); lia).
    pose proof (sweep_step_ok inner ml p s Hok Hd Hn) as Hok1.
    destruct (climb_loop_spec 32 (p + pw (S s.(cl_level))) _ _ _ _ Hok1) as (s' & p' & -> & Hok' & Hc' & Hd' & Hlev & _);
      cbn [cl_level] in *; [done|lia|lia|]. cbn [mbind option_bind]. rewrite <- Hc'.
    apply IH; [done|done|rewrite Hc', pw_S; lia|lia|lia|]. intros ->. rewrite pw_S in *. lia.
Qed.

Lemma height_unique l : n <= pw l < 2 * n → l = merkle_height (length leaves).
Proof.
  intros [Hle Hlt]. unfold merkle_height. destruct l as [|l].
  - change (pw 0) with 1 in *. replace n with 1 by lia. done.
  - rewrite pw_S in Hlt. rewrite (Z.log2_up_unique n (Z.of_nat (S l))); [lia|lia|].
    replace (Z.pred (Z.of_nat (S l))) with (Z.of_nat l) by lia. fold (pw l) (pw (S l)). lia.
Qed.

Lemma leaves_ok_init : leaves_ok 0 {| mk_count := 0; mk_inner := replicate 32 (uint_zero 8); mk_matchlevel := -1;
  mk_mutated := false; mk_branch := [] |}.
Proof.
  split; cbn [mk_count mk_inner mk_matchlevel mk_branch mk_mutated]; [done|done| | |].
  - intros l _ Hb. by rewrite Z.bits_0 in Hb.
  - intros _. split; [lia|done].
  - split; [done|]. intros (l & q & Hq & _ & Hle & _). pose proof (pw_pos (S l)). lia.
Qed.

Lemma height_covers : n <= pw (merkle_height (length leaves)).
Proof.
  unfold merkle_height, pw. rewrite Z2Nat.id by apply Z.log2_up_nonneg.
  destruct (decide (n = 1)) as [E1|]; [by rewrite E1|]. apply Z.log2_up_spec. lia.
Qed.

(** The state from which the sweep starts, at the lowest bit of the count. *)
Lemma sweep_start_ok s l p :
  leaves_ok n s → (pw (S l) | p) → p + pw l = n → 0 <= p →
  climb_ok s.(mk_inner) s.(mk_matchlevel) p {| cl_level := l; cl_h := inner_at s.(mk_inner) l;
    cl_matchh := s.(mk_matchlevel) =? Z.of_nat l; cl_mutated := false; cl_branch := s.(mk_branch) |}.
Proof.
  intros [_ _ Hi Hm _] Hd Hpn Hp. destruct (count_lowest l p Hd) as (Hb & Hbp & Eq & Hbelow). rewrite Hpn in *.
  pose proof (pw_pos l). split; cbn [cl_level cl_h cl_matchh cl_branch].
  - lia.
  - etrans; [|done]. apply pw_divide. lia.
  - by rewrite Hi, Eq by (done || lia).
  - intros m Hlm Hbm. destruct (decide (m = l)) as [->|Hne]; [congruence|].
    destruct (count_bits l p m Hd ltac:(lia)) as [E1 E2]. rewrite <- E2, Hpn. apply Hi; [lia|]. by rewrite <- Hpn, E1.
  - intros Hpb. destruct (Hm Hpb) as [H1 _]. destruct (H1 ltac:(lia)) as (m & -> & _ & Hbm & Hr & Hpath).
    destruct (Nat.lt_trichotomy m l) as [Hlt|[->|Hlt]].
    + by rewrite Hbelow in Hbm.
    + left. rewrite Eq in Hr. split_and!; [lia|lia|lia|done].
    + right. destruct (count_bits l p m Hd Hlt) as [E1 E2]. rewrite Hpn in *. rewrite E1 in Hbm. rewrite E2 in Hr.
      pose proof (bit_block_end m p Hbm). split_and!; [lia|lia|]. split; [|lia]. intros _. exists m.
      split_and!; [done|lia|done|lia|lia|done].
Qed.

(** The whole computation. *)
Lemma MerkleComputation_spec :
  ∃ br mutated, MerkleComputation leaves branchpos pbranch =
      Some (tree_root (merkle_height (length leaves)) leaves, mutated, br) ∧
    (mutated = true ↔ equal_pair n) ∧
    (pbranch = true → path br (merkle_height (length leaves)) (tree_root (merkle_height (length leaves)) leaves)).
Proof.
  destruct (add_leaves_ok leaves 0 _ leaves_ok_init) as (s & Hrun & Hok); [done|done|]. rewrite Z.add_0_l in Hok.
  destruct (lowest_bit_spec 32 n 0) as (l & p & Hlow & Hl & Hd & Hpn & Hp); [lia|lia|apply Z.divide_1_l|]. pose proof (pw_pos l).
  destruct (sweep_spec 32 _ _ _ _ (sweep_start_ok s l p Hok Hd Hpn Hp)) as (r & Hsw & Hokr & Hh);
    cbn [cl_level] in *; [done|lia|lia|lia|lia|].
  apply height_unique in Hh. exists r.(cl_branch), s.(mk_mutated). pose proof height_covers as Hcov.
  assert (r.(cl_h) = tree_root (merkle_height (length leaves)) leaves) as Eh.
  { rewrite (ck_h _ _ _ _ Hokr), Hh. unfold node. rewrite drop_0, take_ge; [done|].
    apply Nat2Z.inj_le. by rewrite pw_nat. }
  unfold MerkleComputation. destruct leaves as [|x l0] eqn:El; [cbn in Hpos; lia|]. rewrite <- El in *.
  rewrite Hrun. cbn [mbind option_bind]. rewrite (lk_count _ _ Hok), Hlow. cbn [mbind option_bind]. rewrite <- Hpn, Hsw.
  cbn [mbind option_bind]. rewrite Eh, Hpn. split; [done|]. split; [apply Hok|]. intros Hpb.
  destruct (ck_match _ _ _ _ Hokr Hpb) as [(_ & _ & Hpath)|(_ & Hr & _)]; [by rewrite Hh, Eh in Hpath|].
  rewrite Hh in Hr. lia.
Qed.
End against_tree.

Lemma ComputeMerkleRoot_spec (leaves : list base_uint) :
  leaves ≠ [] → Z.of_nat (length leaves) <= 2 ^ 31 →
  ∃ mutated, ComputeMerkleRoot leaves = Some (tree_root (merkle_height (length leaves)) leaves, mutated) ∧
    (mutated = true ↔ equal_pair leaves (Z.of_nat (length leaves))).
Proof.
  intros Hne Hsz. assert (0 <= 0 < Z.of_nat (length leaves)) as Hpos by (destruct leaves; [done|cbn; lia]).
  destruct (MerkleComputation_spec leaves false 0 Hpos (2 ^ 32 - 1) ltac:(done) Hsz) as (br & mutated & E & Hm & _).
  exists mutated. unfold ComputeMerkleRoot. by rewrite E.
Qed.

(** C33: For a block of at least one and at most 2^31 transactions,
    [ComputeMerkleRoot] returns the root of the merkle tree whose missing
    right halves repeat the left ones, and it reports a mutation exactly when
    two complete sibling subtrees of the tree are equal. *)
Theorem ComputeMerkleRoot_is_tree_root (leaves : list base_uint) :
  leaves ≠ [] → Z.of_nat (length leaves) <= 2 ^ 31 →
  ∃ mutated, ComputeMerkleRoot leaves = Some (tree_root (merkle_height (length leaves)) leaves, mutated) ∧
    (mutated = true ↔ equal_pair leaves (Z.of_nat (length leaves))).
Proof. apply ComputeMerkleRoot_spec. Qed.

(** The branch that [ComputeMerkleBranch] returns for a transaction of the
    block leads back from that transaction to the merkle root of the block. *)
Theorem ComputeMerkleBranch_verifies (leaves : list base_uint) (pos : nat) (leaf : base_uint) :
  leaves !! pos = Some leaf → Z.of_nat (length leaves) <= 2 ^ 31 →
  ∃ branch mutated, ComputeMerkleBranch leaves (Z.of_nat pos) = Some branch ∧
    ComputeMerkleRoot leaves = Some (ComputeMerkleRootFromBranch leaf branch (Z.of_nat pos), mutated) ∧
    length branch = merkle_height (length leaves).
Proof.
  intros Hl Hsz. assert (0 <= Z.of_nat pos < Z.of_nat (length leaves)) as Hpos by (apply lookup_lt_Some in Hl; lia).
  destruct (MerkleComputation_spec leaves false _ Hpos (2 ^ 32 - 1) ltac:(done) Hsz) as (br1 & mutated & E1 & _ & _).
  destruct (MerkleComputation_spec leaves true _ Hpos (Z.of_nat pos) ltac:(done) Hsz) as (br & ? & E & _ & Hp).
  destruct (Hp eq_refl) as [Hlen Hroot]. exists br, mutated. unfold ComputeMerkleBranch, ComputeMerkleRoot. rewrite E, E1.
  split; [done|]. split; [|done]. cbn. rewrite <- Hroot. unfold the_leaf. rewrite (node_leaf leaves _ leaf); [done|lia|].
  by rewrite Nat2Z.id.
Qed.

(** ** The root binds the transactions *)

(** The pairs that are hashed in a tree. *)
Fixpoint tree_pairs (level : nat) (l : list base_uint) : list (base_uint * base_uint) :=
  match level with
  | O => []
  | S k =>
      if bool_decide (length l <= 2 ^ k)%nat then (tree_root k l, tree_root k l) :: tree_pairs k l
      else (tree_root k (take (2 ^ k) l), tree_root k (drop (2 ^ k) l)) ::
           tree_pairs k (take (2 ^ k) l) ++ tree_pairs k (drop (2 ^ k) l)
  end.

Definition no_collision (ps : list (base_uint * base_uint)) : Prop :=
  ∀ a b c d, (a, b) ∈ ps → (c, d) ∈ ps → hash_pair a b = hash_pair c d → a = c ∧ b = d.

Abbreviation mutated l := (equal_pair l (Z.of_nat (length l))).

Lemma equal_pair_drop m l : mutated (drop m l) → ∀ k, Z.of_nat m = pw k → (length l <= 2 ^ S k)%nat → mutated l.
Proof.
  intros (j & q & Hq & Hd & Hle & E) k Hm Hlen. rewrite length_drop in Hle. pose proof (pw_pos (S j)). pose proof (pw_nat (S k)).
  exists j, (Z.of_nat m + q). assert (pw (S j) <= pw k) as Hjk by (rewrite pw_S in *; lia).
  split_and!; [lia| |lia|].
  - apply Z.divide_add_r; [|done]. rewrite Hm. apply pw_divide. destruct (decide (S j <= k)%nat) as [|Hgt]; [done|].
    pose proof (pw_mono (S k) (S j) ltac:(lia)) as Hk. rewrite pw_S in Hk. pose proof (pw_pos k). lia.
  - unfold node in *. rewrite !drop_drop in E. rewrite Z2Nat.inj_add, Nat2Z.id by lia.
    replace (Z.to_nat (Z.of_nat m + q + pw j)) with (m + Z.to_nat (q + pw j))%nat by (pose proof (pw_pos j); lia). done.
Qed.

Lemma equal_pair_take m l : mutated (take m l) → mutated l.
Proof.
  intros (j & q & Hq & Hd & Hle & E). rewrite length_take in Hle. pose proof (pw_pos j). pose proof (pw_nat j).
  rewrite (pw_S j) in Hle. exists j, q. rewrite (pw_S j). split_and!; [lia|by rewrite <- pw_S|lia|].
  unfold node in *. rewrite !skipn_firstn_comm, !take_take in E.
  rewrite !Nat.min_l in E by lia. done.
Qed.

Lemma equal_halves_mutated k (l : list base_uint) :
  (length l = 2 ^ S k)%nat → tree_root k (take (2 ^ k) l) = tree_root k (drop (2 ^ k) l) → mutated l.
Proof.
  intros Hlen E. pose proof (pw_nat k). pose proof (pw_nat (S k)). rewrite pw_S in *. pose proof (pw_pos k).
  exists k, 0. rewrite pw_S. split_and!; [lia|apply Z.divide_0_r|lia|]. unfold node. rewrite drop_0, E.
  replace (Z.to_nat (0 + pw k)) with (2 ^ k)%nat by lia. rewrite (take_ge (drop _ _)); [done|]. rewrite length_drop. lia.
Qed.

(** What is asked of a tree: its places suffice, no siblings are equal, and its
    pairs are among [ps]. *)
Definition tree_ok (ps : list (base_uint * base_uint)) (k : nat) (l : list base_uint) : Prop :=
  (∀ x, x ∈ tree_pairs k l → x ∈ ps) ∧ (0 < length l <= 2 ^ k)%nat ∧ ¬ mutated l.

Lemma tree_ok_halves ps k l : tree_ok ps (S k) l → (2 ^ k < length l)%nat →
  tree_ok ps k (take (2 ^ k) l) ∧ tree_ok ps k (drop (2 ^ k) l) ∧
  (tree_root k (take (2 ^ k) l), tree_root k (drop (2 ^ k) l)) ∈ ps.
Proof.
  intros (Hp & Hl & Hm) Hlt. cbn [tree_pairs] in Hp. rewrite bool_decide_eq_false_2 in Hp by lia.
  assert (2 ^ S k = 2 ^ k + 2 ^ k)%nat as Ew by (cbn; lia).
  split_and!; [split_and!|split_and!|apply Hp; left]; try (rewrite ?length_take, ?length_drop; lia).
  - intros x Hx. apply Hp. right. apply elem_of_app. by left.
  - intros Hm'. exact (Hm (equal_pair_take _ _ Hm')).
  - intros x Hx. apply Hp. right. apply elem_of_app. by right.
  - intros Hm'. apply Hm, (equal_pair_drop (2 ^ k) l Hm' k); [apply pw_nat|lia].
Qed.

Lemma tree_ok_half ps k l : tree_ok ps (S k) l → (length l <= 2 ^ k)%nat →
  tree_ok ps k l ∧ (tree_root k l, tree_root k l) ∈ ps.
Proof.
  intros (Hp & Hl & Hm) Hle. cbn [tree_pairs] in Hp. rewrite bool_decide_eq_true_2 in Hp by lia.
  split; [|apply Hp; left]. split_and!; [|lia|lia|done]. intros x Hx. apply Hp. by right.
Qed.

Lemma tree_root_S k l : tree_root (S k) l =
  if bool_decide (length l <= 2 ^ k)%nat then hash_pair (tree_root k l) (tree_root k l)
  else hash_pair (tree_root k (take (2 ^ k) l)) (tree_root k (drop (2 ^ k) l)).
Proof. done. Qed.

(** Trees of one height without equal siblings and without collisions have the
    same root only when they have the same leaves. *)
Lemma tree_root_inj ps k l1 l2 :
  no_collision ps → tree_ok ps k l1 → tree_ok ps k l2 → tree_root k l1 = tree_root k l2 → l1 = l2.
Proof.
  intros Hnc. revert l1 l2. induction k as [|k IH]; intros l1 l2 H1 H2.
  { destruct H1 as (_ & H1 & _), H2 as (_ & H2 & _). destruct l1 as [|? [|]], l2 as [|? [|]]; cbn in *; try lia. by intros ->. }
  assert (∀ l, tree_ok ps (S k) l → (2 ^ k < length l)%nat → tree_root k (take (2 ^ k) l) ≠ tree_root k (drop (2 ^ k) l)) as Hhalf.
  { intros l Hl Hlt E. destruct (tree_ok_halves ps k l Hl Hlt) as (Ht & Hd & _). pose proof (IH _ _ Ht Hd E) as Eq.
    apply (f_equal length) in Eq. rewrite length_take, length_drop in Eq. destruct Hl as (_ & Hl & Hm).
    apply Hm, (equal_halves_mutated k); [cbn in *; lia|done]. }
  rewrite !tree_root_S.
  destruct (bool_decide_reflect (length l1 <= 2 ^ k)%nat) as [B1|B1], (bool_decide_reflect (length l2 <= 2 ^ k)%nat) as [B2|B2];
    intros E.
  - destruct (tree_ok_half ps k l1 H1 B1) as [T1 P1], (tree_ok_half ps k l2 H2 B2) as [T2 P2].
    destruct (Hnc _ _ _ _ P1 P2 E) as [E1 _]. by apply IH.
  - destruct (tree_ok_half ps k l1 H1 B1) as [_ P1], (tree_ok_halves ps k l2 H2 ltac:(lia)) as (_ & _ & P2).
    destruct (Hnc _ _ _ _ P1 P2 E). destruct (Hhalf l2 H2); [lia|congruence].
  - destruct (tree_ok_halves ps k l1 H1 ltac:(lia)) as (_ & _ & P1), (tree_ok_half ps k l2 H2 B2) as [_ P2].
    destruct (Hnc _ _ _ _ P1 P2 E). destruct (Hhalf l1 H1); [lia|congruence].
  - destruct (tree_ok_halves ps k l1 H1 ltac:(lia)) as (T1 & D1 & P1), (tree_ok_halves ps k l2 H2 ltac:(lia)) as (T2 & D2 & P2).
    destruct (Hnc _ _ _ _ P1 P2 E) as [E1 E2]. rewrite <- (take_drop (2 ^ k) l1), <- (take_drop (2 ^ k) l2).
    f_equal; by apply IH.
Qed.

Lemma ComputeMerkleRoot_false leaves root :
  leaves ≠ [] → Z.of_nat (length leaves) <= 2 ^ 31 → ComputeMerkleRoot leaves = Some (root, false) →
  root = tree_root (merkle_height (length leaves)) leaves ∧ ¬ mutated leaves ∧
  (0 < length leaves <= 2 ^ merkle_height (length leaves))%nat.
Proof.
  intros Hne Hsz E. assert (0 <= 0 < Z.of_nat (length leaves)) as Hpos by (destruct leaves; [done|cbn; lia]).
  destruct (MerkleComputation_spec leaves false 0 Hpos (2 ^ 32 - 1) ltac:(done) Hsz) as (br & m & E' & Hm & _).
  unfold ComputeMerkleRoot in E. rewrite E' in E. cbn in E. injection E as <- ->. pose proof (height_covers leaves false 0 Hpos (2 ^ 32 - 1) ltac:(done)) as Hc.
  rewrite <- pw_nat in Hc. split_and!; [done|naive_solver|lia|lia].
Qed.

(** The left subtree. *)
Lemma tree_ok_left ps k l : tree_ok ps (S k) l →
  ∃ l' b, tree_ok ps k l' ∧ l' ⊆ l ∧ (tree_root k l', b) ∈ ps ∧ tree_root (S k) l = hash_pair (tree_root k l') b.
Proof.
  intros Hl. rewrite tree_root_S. case_bool_decide as B.
  - destruct (tree_ok_half ps k l Hl B) as [T P]. by exists l, (tree_root k l).
  - destruct (tree_ok_halves ps k l Hl ltac:(lia)) as (T & _ & P). exists (take (2 ^ k) l), (tree_root k (drop (2 ^ k) l)).
    split_and!; [done| |done|done]. intros x Hx. rewrite <- (take_drop (2 ^ k) l). apply elem_of_app. by left.
Qed.

(** Trees whose leaves are not hashes of pairs have the same root only when
    they have the same height. *)
Lemma tree_root_height ps (P : base_uint → Prop) k1 k2 l1 l2 :
  no_collision ps → (∀ x a b, P x → (a, b) ∈ ps → x ≠ hash_pair a b) → tree_ok ps k1 l1 → tree_ok ps k2 l2 →
  Forall P l1 → Forall P l2 → tree_root k1 l1 = tree_root k2 l2 → k1 = k2.
Proof.
  intros Hnc Hleaf. assert (∀ k l, tree_ok ps k l → Forall P l → ∀ x, P x → x = tree_root k l → k = 0%nat) as H0.
  { intros [|k] l Hl _ x Hx; [done|]. destruct (tree_ok_left ps k l Hl) as (l' & b & _ & _ & Hb & ->). intros E. by destruct (Hleaf x _ _ Hx Hb). }
  assert (∀ l, tree_ok ps 0 l → Forall P l → P (tree_root 0 l)) as H1.
  { intros l (_ & Hl & _) HF. destruct l as [|x [|]]; cbn in Hl; [lia| |lia]. by apply Forall_cons in HF as [? _]. }
  revert k2 l1 l2. induction k1 as [|k1 IH]; intros k2 l1 l2 T1 T2 F1 F2 E.
  - symmetry. eapply (H0 k2 l2); [done|done|by apply (H1 l1)|done].
  - destruct k2 as [|k2]; [by apply (H0 (S k1) l1 T1 F1 (tree_root 0 l2)); [apply H1|]|].
    destruct (tree_ok_left ps k1 l1 T1) as (l1' & b1 & T1' & S1 & P1 & E1), (tree_ok_left ps k2 l2 T2) as (l2' & b2 & T2' & S2 & P2 & E2).
    rewrite E1, E2 in E. destruct (Hnc _ _ _ _ P1 P2 E) as [E' _]. f_equal. apply (IH k2 l1' l2'); [done|done| | |done].
    + apply Forall_forall. intros x Hx. rewrite Forall_forall in F1. auto.
    + apply Forall_forall. intros x Hx. rewrite Forall_forall in F2. auto.
Qed.

Lemma read_limbs_length W s x r : read_limbs W s = Some (x, r) → length x = W.
Proof.
  revert s x r. induction W as [|W IH]; intros s x r; cbn [read_limbs]; [by intros [= <- _]|].
  destruct (ser_readdata 4 s) as [[y s1]|]; [|done]. cbn [mbind option_bind]. destruct (read_limbs W s1) as [[pn s2]|] eqn:E; [|done].
  cbn [mbind option_bind]. intros [= <- _]. cbn. by rewrite (IH _ _ _ E).
Qed.

Lemma hash_pair_limbs a b : length (hash_pair a b) = 8%nat.
Proof.
  unfold hash_pair. destruct (c_uint256.(dec) _) as [[h r]|] eqn:E; [|done]. by apply (read_limbs_length 8) in E.
Qed.
Lemma tree_root_limbs k l : (0 < length l <= 2 ^ k)%nat → Forall (λ x : base_uint, length x = 8%nat) l → length (tree_root k l) = 8%nat.
Proof.
  destruct k as [|k]; [|rewrite tree_root_S; case_bool_decide; intros; apply hash_pair_limbs].
  intros Hl HF. destruct l as [|x [|]]; cbn in Hl; [lia| |lia]. by apply Forall_cons in HF as [? _].
Qed.
Lemma tree_pairs_limbs k l a b : (0 < length l <= 2 ^ k)%nat → Forall (λ x : base_uint, length x = 8%nat) l → (a, b) ∈ tree_pairs k l →
  length a = 8%nat ∧ length b = 8%nat.
Proof.
  revert l. induction k as [|k IH]; intros l Hl HF Hin; [by apply not_elem_of_nil in Hin|]. cbn [tree_pairs] in Hin.
  assert (2 ^ S k = 2 ^ k + 2 ^ k)%nat as Ew by (cbn; lia). case_bool_decide as B.
  - apply elem_of_cons in Hin as [[= -> ->]|Hin]; [split; by apply tree_root_limbs; [lia|]|by apply (IH l); [lia|..]].
  - pose proof (Forall_take _ (2 ^ k)%nat _ HF) as H1. pose proof (Forall_drop _ (2 ^ k)%nat _ HF) as H2.
    apply elem_of_cons in Hin as [[= -> ->]|[Hin|Hin]%elem_of_app].
    + split; apply tree_root_limbs; rewrite ?length_take, ?length_drop; (lia || done).
    + apply (IH (take (2 ^ k) l)); [rewrite length_take; lia|done|done].
    + apply (IH (drop (2 ^ k) l)); [rewrite length_drop; lia|done|done].
Qed.

Lemma unmutated_root_inj (l1 l2 : list base_uint) (root : base_uint) :
  let h := merkle_height (length l1) in
  l1 ≠ [] → l2 ≠ [] → Z.of_nat (length l1) <= 2 ^ 31 → Z.of_nat (length l2) <= 2 ^ 31 →
  merkle_height (length l2) = h →
  no_collision (tree_pairs h l1 ++ tree_pairs h l2) →
  ComputeMerkleRoot l1 = Some (root, false) → ComputeMerkleRoot l2 = Some (root, false) → l1 = l2.
Proof.
  cbn zeta. intros N1 N2 S1 S2 Eh Hnc E1 E2.
  destruct (ComputeMerkleRoot_false l1 root N1 S1 E1) as (R1 & M1 & L1), (ComputeMerkleRoot_false l2 root N2 S2 E2) as (R2 & M2 & L2).
  rewrite Eh in *. apply (tree_root_inj _ (merkle_height (length l1)) l1 l2 Hnc).
  - split_and!; [intros; apply elem_of_app; by left|lia|lia|done].
  - split_and!; [intros; apply elem_of_app; by right|lia|lia|done].
  - congruence.
Qed.

(** A block whose merkle root was computed without a report of mutation is
    determined by the root: two lists of transactions whose trees have one
    height, the same root and no report are equal, when no two different pairs
    that are hashed in these trees collide. *)
Theorem unmutated_root_binds_leaves (l1 l2 : list base_uint) (root : base_uint) :
  let h := merkle_height (length l1) in
  l1 ≠ [] → l2 ≠ [] → Z.of_nat (length l1) <= 2 ^ 31 → Z.of_nat (length l2) <= 2 ^ 31 →
  merkle_height (length l2) = h →
  no_collision (tree_pairs h l1 ++ tree_pairs h l2) →
  ComputeMerkleRoot l1 = Some (root, false) → ComputeMerkleRoot l2 = Some (root, false) → l1 = l2.
Proof. exact (unmutated_root_inj l1 l2 root). Qed.
End merkle.

(** ** Examples, with the hash functions of the program *)

#[local] Instance merkle_crypto : ScriptCrypto := core_crypto (λ _, true).

Definition sample_leaves (k : nat) : list base_uint := (λ i, Z.of_nat i :: replicate 7 1) <$> seq 1 k.

Lemma ComputeMerkleRoot_is_tree_root_witness :
  ∃ mutated, ComputeMerkleRoot (sample_leaves 5) = Some (tree_root 3 (sample_leaves 5), mutated) ∧
    (mutated = true ↔ equal_pair (sample_leaves 5) 5).
Proof. apply (ComputeMerkleRoot_is_tree_root (sample_leaves 5)); done. Defined.

Lemma ComputeMerkleBranch_verifies_witness :
  ∃ branch mutated, ComputeMerkleBranch (sample_leaves 5) 4 = Some branch ∧
    ComputeMerkleRoot (sample_leaves 5) = Some (ComputeMerkleRootFromBranch (5 :: replicate 7 1) branch 4, mutated) ∧
    length branch = 3%nat.
Proof. apply (ComputeMerkleBranch_verifies (sample_leaves 5) 4 (5 :: replicate 7 1)); done. Defined.

(** A boolean version of [no_collision], for computation. *)
Definition no_collision_b (ps : list (base_uint * base_uint)) : bool :=
  forallb (λ p, forallb (λ q, bool_decide (p = q) || negb (bool_decide (hash_pair p.1 p.2 = hash_pair q.1 q.2))) ps) ps.

Lemma no_collision_b_sound ps : no_collision_b ps = true → no_collision ps.
Proof.
  intros Hb a b c d Hp Hq E. unfold no_collision_b in Hb. rewrite forallb_forall in Hb.
  specialize (Hb (a, b) (proj1 (list_elem_of_In _ _) Hp)). rewrite forallb_forall in Hb.
  specialize (Hb (c, d) (proj1 (list_elem_of_In _ _) Hq)). cbn in Hb. apply orb_true_iff in Hb as [Hb|Hb].
  - apply bool_decide_eq_true in Hb. by injection Hb.
  - apply negb_true_iff, bool_decide_eq_false in Hb. done.
Qed.

Lemma unmutated_root_binds_leaves_witness :
  ∃ root, ComputeMerkleRoot (sample_leaves 2) = Some (root, false) ∧ sample_leaves 2 = reverse (reverse (sample_leaves 2)).
Proof.
  eexists. split; [vm_compute; reflexivity|].
  eapply (unmutated_root_binds_leaves (sample_leaves 2) (reverse (reverse (sample_leaves 2))));
    [done|done|done|done|done|apply no_collision_b_sound; vm_compute; reflexivity|vm_compute; reflexivity|vm_compute; reflexivity].
Defined.

(** The two transaction lists of the comment in the source have one root, and
    only the longer one is reported. *)
Example duplicated_tail :
  (∃ root, ComputeMerkleRoot (sample_leaves 6) = Some (root, false) ∧
    ComputeMerkleRoot (sample_leaves 6 ++ drop 4 (sample_leaves 6)) = Some (root, true)).
Proof. eexists. split; vm_compute; reflexivity. Qed.
