(* ===== verification/IncrementalTree.v ===== *)
(** * IncrementalTree: the tree of note commitments ([sapling/incrementalmerkletree.h],
    [sapling/incrementalmerkletree.cpp], [sapling/sapling_util.cpp])

    [IncrementalMerkleTree] keeps of a merkle tree of fixed depth the roots of
    the complete subtrees on its right edge only; [IncrementalWitness] keeps an
    authentication path of one leaf up to date while leaves are appended.  Both
    are compared with the list of the leaves and the full tree over it
    ([tree_root]).  An exception is [None]. *)

From S2P Require Import Prelude ArithUint256 Serialize Crypto Sha2.
Local Open Scope Z_scope.

Module libzcash.

(** ** The hash of inner nodes *)

(** [Hash::combine], which takes the depth of the children, [Hash::uncommitted]
    and [Hash::EmptyRoot], a table with bounds check. *)
Class TreeHash := {
  combine : base_uint → base_uint → nat → base_uint;
  uncommitted : base_uint;
  EmptyRoot : nat → option base_uint;
}.

(** ** Vectors of bits ([sapling_util.cpp]) *)

(** The bits of a byte, from the most significant one. *)
Definition byte_bits (c : Z) : list bool := (λ j, Z.testbit c (7 - Z.of_nat j)) <$> seq 0 8.
Definition convertBytesVectorToVector (bytes : list Z) : list bool := bytes ≫= byte_bits.
(** [convertVectorToInt]: big endian. *)
Definition convertVectorToInt (v : list bool) : option Z :=
  if 64 <? Z.of_nat (length v) then None
  else Some (foldl Z.lor 0 (imap (λ i b, if b : bool then Z.shiftl 1 (Z.of_nat (length v) - 1 - Z.of_nat i) else 0) v)).

(** [MerklePath]. *)
Record MerklePath := mkMerklePath { authentication_path : list (list bool); path_index : list bool }.

(** One element of the path as bytes: bit [p] goes to the byte [p / 8]. *)
Fixpoint bits_byte (k : nat) (v : list bool) : Z :=
  match k, v with S k, b :: v => Z.lor (Z.shiftl (Z.b2z b) (Z.of_nat k)) (bits_byte k v) | _, _ => 0 end.
Fixpoint bits_bytes (n : nat) (v : list bool) : list Z :=
  match n with O => [] | S n => bits_byte 8 (take 8 v) :: bits_bytes n (drop 8 v) end.
Definition path_bytes (v : list bool) : list Z := bits_bytes ((length v + 7) / 8) v.

Definition MerklePath_Serialize (p : MerklePath) : option (list Z) :=
  if negb (bool_decide (length p.(authentication_path) = length p.(path_index))) then None
  else indexInt ← convertVectorToInt p.(path_index);
       Some ((c_vector c_blob).(enc) (path_bytes <$> p.(authentication_path)) ++ (c_unsigned 8).(enc) indexInt).
(** The shift by [pathBytes.size() - 1 - i] is undefined from 64 on. *)
Definition index_bit (indexInt : Z) (n i : nat) : bool := Z.testbit indexInt (Z.of_nat n - 1 - Z.of_nat i).
Definition MerklePath_Unserialize (s : list Z) : option (MerklePath * list Z) :=
  '(pathBytes, s) ← (c_vector c_blob).(dec) s;
  '(indexInt, s) ← (c_unsigned 8).(dec) s;
  if 64 <? Z.of_nat (length pathBytes) then None
  else Some (mkMerklePath (convertBytesVectorToVector <$> pathBytes)
               (index_bit indexInt (length pathBytes) <$> seq 0 (length pathBytes)), s).

(** ** The tree *)

Record IncrementalMerkleTree := mkTree { left : option base_uint; right : option base_uint; parents : list (option base_uint) }.
#[export] Instance IncrementalMerkleTree_eq_dec : EqDecision IncrementalMerkleTree.
Proof. solve_decision. Defined.
Definition new_tree : IncrementalMerkleTree := mkTree None None [].

Section tree.
Context `{TH : TreeHash} (Depth : nat).

(** [PathFiller::next]: the queue first, then empty subtrees. *)
Definition next (depth : nat) (queue : list base_uint) : option (base_uint * list base_uint) :=
  match queue with
  | h :: queue => Some (h, queue)
  | [] => h ← EmptyRoot depth; Some (h, [])
  end.

(** [wfcheck], true unless it throws. *)
Definition wfcheck (t : IncrementalMerkleTree) : bool :=
  negb (bool_decide (Depth <= length t.(parents))%nat) &&
  negb (bool_decide (list.last t.(parents) = Some None)) &&
  negb (bool_decide (t.(left) = None) && bool_decide (is_Some t.(right))) &&
  negb (bool_decide (t.(left) = None) && bool_decide (0 < length t.(parents))%nat).

Definition last (t : IncrementalMerkleTree) : option base_uint :=
  match t.(right) with Some h => Some h | None => t.(left) end.

(** The literal [1] is an [int], and so is [1 << (i + 1)]. *)
Fixpoint size_loop (i : nat) (ps : list (option base_uint)) (ret : Z) : Z :=
  match ps with
  | [] => ret
  | p :: ps => size_loop (S i) ps (if p then u64 (ret + i32 (Z.shiftl 1 (Z.of_nat i + 1))) else ret)
  end.
Definition size (t : IncrementalMerkleTree) : Z :=
  size_loop 0 t.(parents) ((if t.(left) then 1 else 0) + (if t.(right) then 1 else 0)).

(** [depth] is unsigned, so [depth - 1] wraps around. *)
Definition is_complete (depth : nat) (t : IncrementalMerkleTree) : bool :=
  match t.(left), t.(right) with
  | Some _, Some _ =>
      (Z.of_nat (length t.(parents)) =? u64 (Z.of_nat depth - 1)) && forallb (λ p, bool_decide (is_Some p)) t.(parents)
  | _, _ => false
  end.

(** The loop of [append] from index [i] on, [k] rounds from the limit. *)
Fixpoint propagate (k i : nat) (combined : base_uint) (ps : list (option base_uint)) : list (option base_uint) :=
  match k with
  | O => ps
  | S k =>
      match ps with
      | [] => [Some combined]
      | Some p :: ps => None :: propagate k (S i) (combine p combined (i + 1)) ps
      | None :: ps => Some combined :: ps
      end
  end.
Definition append (t : IncrementalMerkleTree) (obj : base_uint) : option IncrementalMerkleTree :=
  if is_complete Depth t then None
  else
    match t.(left), t.(right) with
    | None, _ => Some (mkTree (Some obj) t.(right) t.(parents))
    | Some l, None => Some (mkTree (Some l) (Some obj) t.(parents))
    | Some l, Some r => Some (mkTree (Some obj) None (propagate Depth 0 (combine l r 0) t.(parents)))
    end.

(** [next_depth]: the depth of the next empty slot after [skip] filled ones. *)
Fixpoint next_depth_loop (d skip : nat) (ps : list (option base_uint)) : nat :=
  match ps with
  | [] => d + skip
  | Some _ :: ps => next_depth_loop (S d) skip ps
  | None :: ps => match skip with O => d | S skip => next_depth_loop (S d) skip ps end
  end.
Definition next_depth (skip : nat) (t : IncrementalMerkleTree) : nat :=
  let right_slot skip := match t.(right), skip with
                         | None, O => O
                         | None, S skip => next_depth_loop 1 skip t.(parents)
                         | Some _, _ => next_depth_loop 1 skip t.(parents)
                         end in
  match t.(left), skip with
  | None, O => O
  | None, S skip => right_slot skip
  | Some _, _ => right_slot skip
  end.

(** The loops of [root]: over the parents, then up to the depth. *)
Fixpoint root_fill (k d : nat) (r : base_uint) (queue : list base_uint) : option base_uint :=
  match k with
  | O => Some r
  | S k => '(h, queue) ← next d queue; root_fill k (S d) (combine r h d) queue
  end.
Fixpoint root_loop (depth d : nat) (ps : list (option base_uint)) (r : base_uint) (queue : list base_uint) : option base_uint :=
  match ps with
  | [] => root_fill (depth - d) d r queue
  | Some p :: ps => root_loop depth (S d) ps (combine p r d) queue
  | None :: ps => '(h, queue) ← next d queue; root_loop depth (S d) ps (combine r h d) queue
  end.
Definition leaf_or_next (o : option base_uint) (queue : list base_uint) : option (base_uint * list base_uint) :=
  match o with Some h => Some (h, queue) | None => next 0 queue end.
Definition root (depth : nat) (queue : list base_uint) (t : IncrementalMerkleTree) : option base_uint :=
  '(combine_left, queue) ← leaf_or_next t.(left) queue;
  '(combine_right, queue) ← leaf_or_next t.(right) queue;
  root_loop depth 1 t.(parents) (combine combine_left combine_right 0) queue.
Definition Tree_root (t : IncrementalMerkleTree) : option base_uint := root Depth [] t.
Definition empty_root : option base_uint := EmptyRoot Depth.

(** [path]: the siblings from the leaf to the root, each with the side of the
    node.  The code reverses both lists at its end. *)
Fixpoint path_fill (k d : nat) (queue : list base_uint) : option (list (bool * base_uint)) :=
  match k with
  | O => Some []
  | S k => '(h, queue) ← next d queue; rest ← path_fill k (S d) queue; Some ((false, h) :: rest)
  end.
Fixpoint path_loop (d : nat) (ps : list (option base_uint)) (queue : list base_uint) : option (list (bool * base_uint)) :=
  match ps with
  | [] => path_fill (Depth - d) d queue
  | Some p :: ps => rest ← path_loop (S d) ps queue; Some ((true, p) :: rest)
  | None :: ps => '(h, queue) ← next d queue; rest ← path_loop (S d) ps queue; Some ((false, h) :: rest)
  end.
Definition path_steps (queue : list base_uint) (t : IncrementalMerkleTree) : option (list (bool * base_uint)) :=
  match t.(left), t.(right) with
  | None, _ => None
  | Some l, Some _ => rest ← path_loop 1 t.(parents) queue; Some ((true, l) :: rest)
  | Some _, None => '(h, queue) ← next 0 queue; rest ← path_loop 1 t.(parents) queue; Some ((false, h) :: rest)
  end.
Definition path (queue : list base_uint) (t : IncrementalMerkleTree) : option MerklePath :=
  steps ← path_steps queue t;
  Some (mkMerklePath (reverse ((λ b, convertBytesVectorToVector ((c_uint 8).(enc) b)) <$> steps.*2)) (reverse steps.*1)).

(** ** The witness *)

Record IncrementalWitness := mkWitness {
  w_tree : IncrementalMerkleTree;
  filled : list base_uint;
  w_cursor : option IncrementalMerkleTree;
  cursor_depth : nat;
}.
Definition witness (t : IncrementalMerkleTree) : IncrementalWitness := mkWitness t [] None 0.

Definition partial_path (w : IncrementalWitness) : option (list base_uint) :=
  match w.(w_cursor) with
  | Some cursor => r ← root w.(cursor_depth) [] cursor; Some (w.(filled) ++ [r])
  | None => Some w.(filled)
  end.
Definition Witness_path (w : IncrementalWitness) : option MerklePath := uncles ← partial_path w; path uncles w.(w_tree).
Definition element (w : IncrementalWitness) : option base_uint := last w.(w_tree).
Definition position (w : IncrementalWitness) : Z := u64 (size w.(w_tree) - 1).
Definition Witness_root (w : IncrementalWitness) : option base_uint := uncles ← partial_path w; root Depth uncles w.(w_tree).
Definition Witness_append (w : IncrementalWitness) (obj : base_uint) : option IncrementalWitness :=
  match w.(w_cursor) with
  | Some cursor =>
      cursor ← append cursor obj;
      if is_complete w.(cursor_depth) cursor then
        r ← root w.(cursor_depth) [] cursor;
        Some (mkWitness w.(w_tree) (w.(filled) ++ [r]) None w.(cursor_depth))
      else Some (mkWitness w.(w_tree) w.(filled) (Some cursor) w.(cursor_depth))
  | None =>
      let depth := next_depth (length w.(filled)) w.(w_tree) in
      if bool_decide (Depth <= depth)%nat then None
      else if bool_decide (depth = O) then Some (mkWitness w.(w_tree) (w.(filled) ++ [obj]) None depth)
      else cursor ← append new_tree obj; Some (mkWitness w.(w_tree) w.(filled) (Some cursor) depth)
  end.

(** ** Serialisation *)

(** Both directions end with [wfcheck]. *)
Definition Tree_Serialize (t : IncrementalMerkleTree) : option (list Z) :=
  if wfcheck t then
    Some ((c_optional (c_uint 8)).(enc) t.(left) ++ (c_optional (c_uint 8)).(enc) t.(right) ++ (c_vector (c_optional (c_uint 8))).(enc) t.(parents))
  else None.
Definition Tree_Unserialize (s : list Z) : option (IncrementalMerkleTree * list Z) :=
  '(l, s) ← (c_optional (c_uint 8)).(dec) s;
  '(r, s) ← (c_optional (c_uint 8)).(dec) s;
  '(ps, s) ← (c_vector (c_optional (c_uint 8))).(dec) s;
  if wfcheck (mkTree l r ps) then Some (mkTree l r ps, s) else None.

Definition Witness_Serialize (w : IncrementalWitness) : option (list Z) :=
  t ← Tree_Serialize w.(w_tree);
  c ← match w.(w_cursor) with Some cursor => bytes ← Tree_Serialize cursor; Some (0x01 :: bytes) | None => Some [0x00] end;
  Some (t ++ (c_vector (c_uint 8)).(enc) w.(filled) ++ c).
Definition Witness_Unserialize (s : list Z) : option (IncrementalWitness * list Z) :=
  '(t, s) ← Tree_Unserialize s;
  '(f, s) ← (c_vector (c_uint 8)).(dec) s;
  '(d, s) ← ser_readdata 1 s;
  '(cursor, s) ← (if d =? 0x00 then Some (None, s) else '(c, s) ← Tree_Unserialize s; Some (Some c, s));
  Some (mkWitness t f cursor (next_depth (length f) t), s).

(** ** The reference: the full tree over a list of leaves *)

Fixpoint tree_root (d : nat) (l : list base_uint) : base_uint :=
  match d with
  | O => default uncommitted (head l)
  | S d => combine (tree_root d (take (2 ^ d) l)) (tree_root d (drop (2 ^ d) l)) d
  end.

Lemma tree_root_app d l1 l2 : length l1 = (2 ^ d)%nat → tree_root (S d) (l1 ++ l2) = combine (tree_root d l1) (tree_root d l2) d.
Proof. intros H. cbn [tree_root]. by rewrite <- H, take_app_length, drop_app_length. Qed.
Lemma tree_root_low d l : (length l <= 2 ^ d)%nat → tree_root (S d) l = combine (tree_root d l) (tree_root d []) d.
Proof. intros H. cbn [tree_root]. by rewrite take_ge, drop_ge by done. Qed.

(** The subtrees that the parents from the depth [d] on stand for: [l] are the
    leaves before the ones that the lower levels hold. *)
Fixpoint holds (d : nat) (ps : list (option base_uint)) (l : list base_uint) : Prop :=
  match ps with
  | [] => l = []
  | Some h :: ps => ∃ l1 l2, l = l1 ++ l2 ∧ length l2 = (2 ^ d)%nat ∧ h = tree_root d l2 ∧ holds (S d) ps l1
  | None :: ps => holds (S d) ps l
  end.
(** The last parent is there. *)
Definition canonical (ps : list (option base_uint)) : Prop := list.last ps ≠ Some None.

(** The tree [t] has the leaves [l]. *)
Definition represents (t : IncrementalMerkleTree) (l : list base_uint) : Prop :=
  canonical t.(parents) ∧
  match t.(left), t.(right) with
  | None, None => l = [] ∧ t.(parents) = []
  | Some a, None => ∃ l1, l = l1 ++ [a] ∧ holds 1 t.(parents) l1
  | Some a, Some b => ∃ l1, l = l1 ++ [a; b] ∧ holds 1 t.(parents) l1
  | None, Some _ => False
  end.

(** *** Lengths *)

Lemma holds_multiple d ps l : holds d ps l → ∃ k, length l = (k * 2 ^ d)%nat ∧ (k < 2 ^ length ps)%nat.
Proof.
  revert d l. induction ps as [|[h|] ps IH]; intros d l; cbn [holds length].
  - intros ->. exists O. cbn. lia.
  - intros (l1 & l2 & -> & E & _ & H). apply IH in H as (k & Ek & Hk). exists (2 * k + 1)%nat. rewrite length_app, Ek, E.
    cbn [Nat.pow] in *. lia.
  - intros H. apply IH in H as (k & Ek & Hk). exists (2 * k)%nat. rewrite Ek. cbn [Nat.pow] in *. lia.
Qed.
Lemma holds_least d ps l : holds d ps l → canonical ps → ps ≠ [] → (2 ^ (d + length ps - 1) <= length l)%nat.
Proof.
  revert d l. induction ps as [|p ps IH]; intros d l H Hc Hn; [done|]. destruct ps as [|q ps].
  - destruct p as [h|]; [|by destruct Hc]. cbn in H. destruct H as (l1 & l2 & -> & E & _ & ->). cbn. rewrite E. by replace (d + 1 - 1)%nat with d by lia.
  - assert (∃ l', holds (S d) (q :: ps) l' ∧ (length l' <= length l)%nat) as (l' & Hl & Hle).
    { destruct p as [h|]; [|by exists l]. destruct H as (l1 & l2 & -> & _ & _ & H). exists l1. rewrite length_app. split; [done|lia]. }
    apply IH in Hl; [|by apply Hc|done]. etrans; [|exact Hle]. etrans; [|exact Hl]. apply Nat.eq_le_incl. f_equal. cbn. lia.
Qed.
Lemma holds_full d ps l : holds d ps l → forallb (λ p, bool_decide (is_Some p)) ps = true → (length l + 2 ^ d = 2 ^ (d + length ps))%nat.
Proof.
  revert d l. induction ps as [|[h|] ps IH]; intros d l; cbn [holds length forallb].
  - intros -> _. cbn. by rewrite Nat.add_0_r.
  - intros (l1 & l2 & -> & E & _ & H) Hf. apply IH in H; [|done]. rewrite length_app, E.
    replace (d + S (length ps))%nat with (S d + length ps)%nat by lia. rewrite <- H. cbn [Nat.pow]. lia.
  - intros _ Hf. by rewrite bool_decide_false in Hf by (by intros []).
Qed.
Lemma holds_not_full d ps l : holds d ps l → forallb (λ p, bool_decide (is_Some p)) ps = false → (length l + 2 ^ d < 2 ^ (d + length ps))%nat.
Proof.
  revert d l. induction ps as [|p ps IH]; intros d l H Hf; [done|]. cbn [forallb length] in *.
  replace (d + S (length ps))%nat with (S d + length ps)%nat by lia. destruct p as [h|].
  - destruct H as (l1 & l2 & -> & E & _ & H). apply IH in H; [|done]. rewrite length_app, E. cbn [Nat.pow] in *. lia.
  - cbn in H. clear Hf. apply holds_multiple in H as (k & -> & Hk). rewrite Nat.pow_add_r.
    assert (k * 2 ^ S d + 2 ^ S d <= 2 ^ S d * 2 ^ length ps)%nat by nia.
    pose proof (Nat.pow_nonzero 2 d). cbn [Nat.pow] in *. lia.
Qed.

(** A tree over at most [2 ^ depth] leaves has fewer than [depth] parents. *)
Lemma represents_parents t l depth : represents t l → (0 < depth)%nat → (length l <= 2 ^ depth)%nat → (length t.(parents) < depth)%nat.
Proof.
  intros [Hc H] Hd Hl. assert (t.(parents) = [] ∨ t.(parents) ≠ []) as [->|Hn]; [by destruct t.(parents); [left|right]|cbn; lia|].
  assert (∀ l1, holds 1 t.(parents) l1 → 2 ^ length t.(parents) <= length l1)%nat as Hle.
  { intros l1 H1. apply holds_least in H1; [|done..]. cbn [Nat.add] in H1. by rewrite Nat.sub_succ, Nat.sub_0_r in H1. }
  assert (2 ^ length t.(parents) < length l)%nat as Hlt.
  { destruct t.(left) as [a|], t.(right) as [b|]; [| |done|by destruct H].
    all: destruct H as (l1 & -> & H); apply Hle in H; rewrite length_app; cbn [length]; lia. }
  apply (Nat.pow_lt_mono_r_iff 2); lia.
Qed.

Lemma is_complete_iff depth t l : represents t l → (0 < depth)%nat → Z.of_nat depth < 2 ^ 64 → (length l <= 2 ^ depth)%nat →
  is_complete depth t = true ↔ length l = (2 ^ depth)%nat.
Proof.
  intros Hr Hd Hb Hl. pose proof (represents_parents t l depth Hr Hd Hl) as Hp. destruct Hr as [Hc H]. unfold is_complete.
  rewrite u64_id by (unfold is_u64; lia).
  destruct t.(left) as [a|], t.(right) as [b|].
  - destruct H as (l1 & -> & H). rewrite length_app, andb_true_iff, Z.eqb_eq. cbn [length].
    destruct (forallb _ (parents t)) eqn:Ef.
    + apply holds_full in H; [|done]. cbn [Nat.add Nat.pow] in H. rewrite length_app in Hl. cbn [length] in Hl.
      split; [intros [E _]|intros E].
      * replace depth with (S (length (parents t))) by lia. cbn [Nat.pow]. lia.
      * split; [|done]. rewrite <- E in *. replace (length l1 + 2)%nat with (2 ^ (S (length (parents t))))%nat in E by (cbn [Nat.pow]; lia).
        apply Nat.pow_inj_r in E; lia.
    + split; [by intros []|]. intros E. apply holds_not_full in H; [|done]. cbn [Nat.pow Nat.add] in H.
      assert (2 ^ S (length (parents t)) <= 2 ^ depth)%nat by (apply Nat.pow_le_mono_r; lia). cbn [Nat.pow] in *. lia.
  - split; [done|]. intros E. destruct H as (l1 & -> & H). apply holds_multiple in H as (k & Ek & _). rewrite length_app, Ek in E. cbn [length] in E.
    destruct depth; [lia|]. cbn [Nat.pow] in E. lia.
  - done.
  - destruct H as [-> _]. split; [done|]. cbn. pose proof (Nat.pow_nonzero 2 depth). lia.
Qed.

(** ** Appending a leaf *)

Lemma propagate_holds k d ps l1 l2 h : (length ps < k)%nat → holds (S d) ps l1 → length l2 = (2 ^ S d)%nat → h = tree_root (S d) l2 →
  holds (S d) (propagate k d h ps) (l1 ++ l2).
Proof.
  revert d ps l1 l2 h. induction k as [|k IH]; intros d ps l1 l2 h Hk H E ->; [lia|]. destruct ps as [|[p|] ps]; cbn [propagate holds length] in *.
  - exists [], l2. by rewrite H.
  - destruct H as (l3 & l4 & -> & E4 & -> & H). rewrite <- app_assoc. apply IH; [lia|done| |].
    + rewrite length_app, E4, E. cbn [Nat.pow]. lia.
    + rewrite tree_root_app by done. by rewrite Nat.add_1_r.
  - by exists l1, l2.
Qed.
Lemma propagate_canonical k i ps h : (length ps < k)%nat → canonical ps → canonical (propagate k i h ps).
Proof.
  revert i ps h. induction k as [|k IH]; intros i ps h Hk Hc; [lia|]. destruct ps as [|[p|] ps]; cbn [propagate].
  - done.
  - assert (canonical ps) as Hc'. { destruct ps; [done|]. exact Hc. }
    cbn [length] in Hk. specialize (IH (S i) ps (combine p h (i + 1)) ltac:(lia) Hc'). unfold canonical in *.
    destruct (propagate k (S i) _ ps) eqn:E; [|exact IH]. destruct k; [lia|]. by destruct ps as [|[]].
  - unfold canonical in *. by destruct ps.
Qed.

Hypothesis Depth_small : (0 < Depth < 64)%nat.
Lemma Depth_fits : Z.of_nat Depth < 2 ^ 64.
Proof. lia. Qed.

(** [append] adds a leaf, and throws exactly at the full tree. *)
Lemma append_spec t l x : represents t l → (length l <= 2 ^ Depth)%nat →
  match append t x with
  | Some t' => represents t' (l ++ [x]) ∧ (length l < 2 ^ Depth)%nat
  | None => length l = (2 ^ Depth)%nat
  end.
Proof.
  intros Hr Hl. pose proof (is_complete_iff Depth t l Hr ltac:(lia) Depth_fits Hl) as Hic.
  pose proof (represents_parents t l Depth Hr ltac:(lia) Hl) as Hp. unfold append.
  destruct (is_complete Depth t); [by apply Hic|]. assert (length l ≠ 2 ^ Depth)%nat as Hne by (by intros E%Hic).
  destruct Hr as [Hc H]. destruct t as [[a|] [b|] ps]; cbn [left right parents] in *; (split; [|lia]); split; cbn [left right parents]; try done.
  - by apply propagate_canonical.
  - destruct H as (l1 & -> & H). exists (l1 ++ [a; b]). split; [done|]. by apply propagate_holds.
  - destruct H as (l1 & -> & H). exists l1. by rewrite <- app_assoc.
  - destruct H as [-> ->]. by exists [].
Qed.
Lemma new_tree_represents : represents new_tree [].
Proof. done. Qed.

(** ** The root *)

Hypothesis EmptyRoot_ok : ∀ d, (d < Depth)%nat → EmptyRoot d = Some (tree_root d []).

Lemma tree_root_take d l : tree_root d (take (2 ^ d) l) = tree_root d l.
Proof.
  revert l. induction d as [|d IH]; intros l; cbn [tree_root]; [by destruct l|].
  rewrite take_take, Nat.min_l by (cbn [Nat.pow]; lia). f_equal. replace (2 ^ S d)%nat with (2 ^ d + 2 ^ d)%nat by (cbn [Nat.pow]; lia).
  by rewrite <- take_drop_commute, IH.
Qed.

(** The depths of the empty places on the right edge, from the lowest one. *)
Fixpoint empty_slots (depth d : nat) (ps : list (option base_uint)) : list nat :=
  match ps with
  | [] => seq d (depth - d)
  | Some _ :: ps => empty_slots depth (S d) ps
  | None :: ps => d :: empty_slots depth (S d) ps
  end.
Definition slots (depth : nat) (t : IncrementalMerkleTree) : list nat :=
  (match t.(left) with Some _ => [] | None => [O] end) ++ (match t.(right) with Some _ => [] | None => [O] end) ++
  empty_slots depth 1 t.(parents).

(** The queue has the roots of the subtrees that [m] fills these places with;
    the last one may be incomplete. *)
Fixpoint fed (places : list nat) (queue : list base_uint) (m : list base_uint) {struct queue} : Prop :=
  match queue, places with
  | [], _ => m = []
  | h :: queue, d :: places => h = tree_root d (take (2 ^ d) m) ∧ fed places queue (drop (2 ^ d) m)
  | _ :: _, [] => False
  end.

Lemma next_fed d places queue m : (d < Depth)%nat → fed (d :: places) queue m →
  ∃ queue', next d queue = Some (tree_root d (take (2 ^ d) m), queue') ∧ fed places queue' (drop (2 ^ d) m).
Proof.
  intros Hd. destruct queue as [|h queue]; cbn [fed next].
  - intros ->. rewrite EmptyRoot_ok by done. exists []. by rewrite take_nil, drop_nil.
  - intros [-> H]. by exists queue.
Qed.

(** One level: [l] are the leaves below the node, [m] what comes after them. *)
Definition level (d : nat) (l m : list base_uint) : Prop := (length l <= 2 ^ d)%nat ∧ (length l = (2 ^ d)%nat ∨ m = []).
Lemma level_next d l m : level d l m →
  combine (tree_root d l) (tree_root d (take (2 ^ d) m)) d = tree_root (S d) (l ++ take (2 ^ d) m) ∧
  level (S d) (l ++ take (2 ^ d) m) (drop (2 ^ d) m).
Proof.
  intros [Hl Hm]. split.
  - destruct Hm as [E| ->]; [by rewrite tree_root_app|]. by rewrite take_nil, app_nil_r, tree_root_low.
  - split; [rewrite length_app, length_take; cbn [Nat.pow]; lia|]. destruct Hm as [E| ->]; [|right; apply drop_nil].
    destruct (le_lt_dec (2 ^ d) (length m)) as [?|?]; [left|right; apply drop_ge; lia]. rewrite length_app, length_take. cbn [Nat.pow]. lia.
Qed.
Lemma level_left d l1 l m : length l1 = (2 ^ d)%nat → level d l m → level (S d) (l1 ++ l) m.
Proof. intros E [Hl Hm]. split; [rewrite length_app; cbn [Nat.pow]; lia|]. destruct Hm as [?|?]; [left|by right]. rewrite length_app. cbn [Nat.pow]. lia. Qed.

Lemma root_loop_spec depth d ps l1 l m queue : (depth <= Depth)%nat → (d + length ps <= depth)%nat → holds d ps l1 → level d l m →
  fed (empty_slots depth d ps) queue m → root_loop depth d ps (tree_root d l) queue = Some (tree_root depth (l1 ++ l ++ m)).
Proof.
  intros HD. revert d l1 l m queue. induction ps as [|[p|] ps IH]; intros d l1 l m queue Hd Hh Hl Hf; cbn [root_loop holds empty_slots length] in *.
  - subst l1. cbn [app]. remember (depth - d)%nat as k eqn:Ek. revert d l m queue Hd Ek Hl Hf.
    induction k as [|k IHk]; intros d l m queue Hd Ek Hl Hf; cbn [root_fill seq] in *.
    + assert (d = depth) as -> by lia. f_equal. destruct Hl as [_ [E| ->]]; [|by rewrite app_nil_r].
      rewrite <- (tree_root_take depth (l ++ m)), <- E. by rewrite take_app_length.
    + apply next_fed in Hf as (queue' & -> & Hf); [|lia]. cbn [mbind option_bind].
      destruct (level_next d l m Hl) as [-> Hl']. rewrite (IHk (S d) _ _ _ ltac:(lia) ltac:(lia) Hl' Hf). by rewrite <- app_assoc, take_drop.
  - destruct Hh as (l3 & l4 & -> & E & -> & Hh). rewrite <- tree_root_app by done. rewrite (IH (S d) l3 (l4 ++ l) m queue); [|lia|done|by apply level_left|done].
    by rewrite <- !app_assoc.
  - apply next_fed in Hf as (queue' & -> & Hf); [|lia]. cbn [mbind option_bind]. destruct (level_next d l m Hl) as [-> Hl'].
    rewrite (IH (S d) l1 _ _ _ ltac:(lia) Hh Hl' Hf). by rewrite <- (app_assoc l), take_drop.
Qed.

(** The pair of leaves, with the rest of the queue. *)
Lemma leaf_level0 m : level 0 (take 1 m) (drop 1 m).
Proof. split; [rewrite length_take; change (2 ^ 0)%nat with 1%nat; lia|]. destruct m as [|x m]; [by right|by left]. Qed.
Lemma leaves_fed depth t l queue m : represents t l → fed (slots depth t) queue m → ∃ a b queue1 queue2 l1 l2 m',
  leaf_or_next t.(left) queue = Some (a, queue1) ∧ leaf_or_next t.(right) queue1 = Some (b, queue2) ∧
  combine a b 0 = tree_root 1 l2 ∧ holds 1 t.(parents) l1 ∧ level 1 l2 m' ∧ fed (empty_slots depth 1 t.(parents)) queue2 m' ∧ l ++ m = l1 ++ l2 ++ m'.
Proof.
  intros [_ H] Hf. unfold slots in Hf. destruct t as [[a|] [b|] ps]; cbn [left right parents leaf_or_next app] in *; [| |done|].
  - destruct H as (l1 & -> & H). exists a, b, queue, queue, l1, [a; b], m. split_and!; try done; [by split; [cbn; lia|left]|by rewrite <- app_assoc].
  - destruct H as (l1 & -> & H). apply next_fed in Hf as (queue' & E & Hf); [|lia].
    destruct (level_next 0 [a] m) as [Ec Hl]; [by split; [cbn; lia|left]|].
    exists a, (tree_root 0 (take (2 ^ 0) m)), queue, queue', l1, ([a] ++ take (2 ^ 0) m), (drop (2 ^ 0) m). split_and!; try done.
    by rewrite <- !(app_assoc [a]), take_drop, app_assoc.
  - destruct H as [-> ->]. apply next_fed in Hf as (queue1 & E1 & Hf); [|lia]. apply next_fed in Hf as (queue2 & E2 & Hf); [|lia].
    destruct (level_next 0 _ _ (leaf_level0 m)) as [Ec Hl].
    eexists _, _, queue1, queue2, [], _, _. split_and!; [exact E1|exact E2|exact Ec|done|exact Hl|exact Hf|].
    by rewrite <- app_assoc, !take_drop.
Qed.

Lemma root_spec depth t l queue m : (0 < depth <= Depth)%nat → represents t l → (length l <= 2 ^ depth)%nat → fed (slots depth t) queue m →
  root depth queue t = Some (tree_root depth (l ++ m)).
Proof.
  intros Hd Hr Hl Hf. pose proof (represents_parents t l depth Hr ltac:(lia) Hl) as Hp.
  destruct (leaves_fed depth t l queue m Hr Hf) as (a & b & q1 & q2 & l1 & l2 & m' & E1 & E2 & Ec & Hh & Hlv & Hf' & ->).
  unfold root. rewrite E1. cbn [mbind option_bind]. rewrite E2. cbn [mbind option_bind]. rewrite Ec. apply root_loop_spec; [lia|lia|done..].
Qed.

(** ** The authentication path *)

(** The root that a path leads to from the leaf [x]. *)
Fixpoint climb (d : nat) (x : base_uint) (steps : list (bool * base_uint)) : base_uint :=
  match steps with [] => x | (b, h) :: steps => climb (S d) (if b : bool then combine h x d else combine x h d) steps end.
(** The number that the sides are the bits of, the lowest one first. *)
Definition bits_value (l : list bool) : nat := foldr (λ b a, Nat.b2n b + 2 * a)%nat O l.

Lemma path_fill_spec k d x r queue : root_fill k d x queue = Some r →
  ∃ steps, path_fill k d queue = Some steps ∧ climb d x steps = r ∧ length steps = k ∧ bits_value steps.*1 = O.
Proof.
  revert d x queue. induction k as [|k IH]; intros d x queue; cbn [root_fill path_fill].
  - intros [= ->]. by exists [].
  - destruct (next d queue) as [[h queue']|]; [|done]. cbn [mbind option_bind]. intros H. apply IH in H as (steps & -> & Hc & Hn & Hb).
    exists ((false, h) :: steps). split_and!; [done|done|cbn; by f_equal|]. change (0 + 2 * bits_value steps.*1 = 0)%nat. lia.
Qed.
Lemma path_loop_spec d ps l1 x r queue : (d + length ps <= Depth)%nat → holds d ps l1 → root_loop Depth d ps x queue = Some r →
  ∃ steps, path_loop d ps queue = Some steps ∧ climb d x steps = r ∧ length steps = (Depth - d)%nat ∧ (bits_value steps.*1 * 2 ^ d = length l1)%nat.
Proof.
  revert d l1 x queue. induction ps as [|[p|] ps IH]; intros d l1 x queue Hd Hh H; cbn [root_loop path_loop holds length] in *.
  - apply path_fill_spec in H as (steps & -> & Hc & Hn & Hb). exists steps. subst l1. by rewrite Hb.
  - destruct Hh as (l3 & l4 & -> & E & _ & Hh). apply (IH _ l3) in H as (steps & -> & Hc & Hn & Hb); [|lia|done].
    exists ((true, p) :: steps). rewrite length_app, E, <- Hb. split_and!; [done|done|cbn; lia|].
    change ((1 + 2 * bits_value steps.*1) * 2 ^ d = bits_value steps.*1 * (2 * 2 ^ d) + 2 ^ d)%nat. lia.
  - destruct (next d queue) as [[h queue']|]; [|done]. cbn [mbind option_bind] in *. apply (IH _ l1) in H as (steps & -> & Hc & Hn & Hb); [|lia|done].
    exists ((false, h) :: steps). rewrite <- Hb. split_and!; [done|done|cbn; lia|].
    change ((0 + 2 * bits_value steps.*1) * 2 ^ d = bits_value steps.*1 * (2 * 2 ^ d))%nat. lia.
Qed.

Lemma path_steps_spec t l x queue m : represents t (l ++ [x]) → (length (l ++ [x]) <= 2 ^ Depth)%nat → fed (slots Depth t) queue m →
  ∃ steps, path_steps queue t = Some steps ∧ climb 0 x steps = tree_root Depth ((l ++ [x]) ++ m) ∧ length steps = Depth ∧ bits_value steps.*1 = length l.
Proof.
  intros Hr Hl Hf. pose proof (represents_parents _ _ Depth Hr ltac:(lia) Hl) as Hp.
  pose proof (root_spec Depth t _ queue m ltac:(lia) Hr Hl Hf) as Hroot. destruct Hr as [_ H]. unfold root in Hroot.
  destruct t as [[a|] [b|] ps]; cbn [left right parents leaf_or_next] in *; [| |done|by destruct H as [E _], l].
  - destruct H as (l1 & E & Hh). cbn [mbind option_bind] in Hroot. change (l ++ [x] = l1 ++ [a] ++ [b]) in E. rewrite app_assoc in E. apply app_inj_tail in E as [-> ->].
    apply (path_loop_spec 1 ps l1) in Hroot as (steps & Es & Hc & Hn & Hb); [|lia|done]. exists ((true, a) :: steps). unfold path_steps.
    cbn [left right parents]. rewrite Es. split_and!; [done|exact Hc|cbn; lia|]. rewrite length_app. change (1 + 2 * bits_value steps.*1 = length l1 + 1)%nat.
    change (bits_value steps.*1 * 2 = length l1)%nat in Hb. lia.
  - destruct H as (l1 & E & Hh). apply app_inj_tail in E as [-> ->]. unfold path_steps. cbn [left right parents mbind option_bind] in *.
    destruct (next 0 queue) as [[h queue']|]; [|done]. cbn [mbind option_bind] in *.
    apply (path_loop_spec 1 ps l1) in Hroot as (steps & Es & Hc & Hn & Hb); [|lia|done]. exists ((false, h) :: steps).
    rewrite Es. split_and!; [done|exact Hc|cbn; lia|].
    change (0 + 2 * bits_value steps.*1 = length l1)%nat. change (bits_value steps.*1 * 2 = length l1)%nat in Hb. lia.
Qed.

(** ** Keeping a witness up to date *)

Definition sum_pow (places : list nat) : nat := foldr (λ d a, 2 ^ d + a)%nat O places.

(** The empty places have room for the leaves that the tree lacks. *)
Lemma seq_room d k : (sum_pow (seq d k) + 2 ^ d = 2 ^ (d + k))%nat.
Proof.
  revert d. induction k as [|k IH]; intros d; cbn [seq sum_pow foldr]; [by rewrite Nat.add_0_r|].
  fold (sum_pow (seq (S d) k)). specialize (IH (S d)). rewrite <- Nat.add_succ_comm, <- IH. cbn [Nat.pow]. lia.
Qed.
Lemma slots_room d ps l : (d + length ps <= Depth)%nat → holds d ps l → (length l + sum_pow (empty_slots Depth d ps) + 2 ^ d = 2 ^ Depth)%nat.
Proof.
  revert d l. induction ps as [|[p|] ps IH]; intros d l Hd H; cbn [holds empty_slots length] in *.
  - subst l. cbn [length]. rewrite <- Nat.add_assoc, seq_room. cbn. f_equal. lia.
  - destruct H as (l1 & l2 & -> & E & _ & H). apply IH in H; [|lia]. rewrite length_app. cbn [Nat.pow] in *. lia.
  - apply IH in H; [|lia]. cbn [sum_pow foldr]. fold (sum_pow (empty_slots Depth (S d) ps)). cbn [Nat.pow] in *. lia.
Qed.
Lemma tree_room t l : represents t l → (length l <= 2 ^ Depth)%nat → (length l + sum_pow (slots Depth t) = 2 ^ Depth)%nat.
Proof.
  intros Hr Hl. pose proof (represents_parents t l Depth Hr ltac:(lia) Hl) as Hp. destruct Hr as [_ H]. unfold slots.
  destruct t as [[a|] [b|] ps]; cbn [left right parents app] in *; [| |done|].
  - destruct H as (l1 & -> & H). apply slots_room in H; [|lia]. rewrite length_app. cbn [length Nat.pow] in *. lia.
  - destruct H as (l1 & -> & H). apply slots_room in H; [|lia]. rewrite length_app. cbn [sum_pow foldr length Nat.pow] in *.
    fold (sum_pow (empty_slots Depth 1 ps)). lia.
  - destruct H as [-> ->]. pose proof (seq_room 1 (Depth - 1)) as H. replace (1 + (Depth - 1))%nat with Depth in H by lia.
    cbn [empty_slots sum_pow foldr length Nat.pow Nat.add] in *. fold (sum_pow (seq 1 (Depth - 1))). lia.
Qed.

(** The next place. *)
Lemma next_depth_loop_spec d skip ps : (d + length ps <= Depth)%nat → match empty_slots Depth d ps !! skip with
  | Some x => next_depth_loop d skip ps = x
  | None => (Depth <= next_depth_loop d skip ps)%nat
  end.
Proof.
  revert d skip. induction ps as [|[p|] ps IH]; intros d skip Hd; cbn [empty_slots next_depth_loop length] in *.
  - destruct (decide (skip < Depth - d)%nat); [by rewrite lookup_seq_lt|]. rewrite lookup_seq_ge by lia. lia.
  - apply IH. lia.
  - destruct skip as [|skip]; cbn; [done|]. apply IH. lia.
Qed.
Lemma next_depth_spec t skip : (1 + length t.(parents) <= Depth)%nat → match slots Depth t !! skip with
  | Some x => next_depth skip t = x
  | None => (Depth <= next_depth skip t)%nat
  end.
Proof.
  intros Hp. unfold slots, next_depth.
  destruct t as [[a|] [b|] ps]; cbn [left right parents app] in *; destruct skip as [|skip]; cbn [lookup list_lookup]; try done;
    try apply (next_depth_loop_spec 1); try done; destruct skip as [|skip]; cbn [lookup list_lookup]; try done; by apply (next_depth_loop_spec 1).
Qed.

(** The places that complete subtrees fill. *)
Fixpoint filled_by (places : list nat) (hs : list base_uint) (m : list base_uint) {struct hs} : Prop :=
  match hs, places with
  | [], _ => m = []
  | h :: hs, d :: places => ∃ m1 m2, m = m1 ++ m2 ∧ length m1 = (2 ^ d)%nat ∧ h = tree_root d m1 ∧ filled_by places hs m2
  | _ :: _, [] => False
  end.
Lemma filled_by_fed places hs m : filled_by places hs m → fed places hs m.
Proof.
  revert places m. induction hs as [|h hs IH]; intros [|d places] m; cbn [filled_by fed]; try done.
  intros (m1 & m2 & -> & E & -> & H). rewrite <- E, take_app_length, drop_app_length. split; [done|]. by apply IH.
Qed.
Lemma filled_by_snoc places hs m d m' : filled_by places hs m → places !! length hs = Some d → length m' = (2 ^ d)%nat →
  filled_by places (hs ++ [tree_root d m']) (m ++ m').
Proof.
  revert places m. induction hs as [|h hs IH]; intros [|x places] m; cbn [filled_by length app lookup list_lookup]; try done.
  - intros -> [= ->] E. exists m', []. by rewrite app_nil_r.
  - intros (m1 & m2 & -> & E & -> & H) Hd Hm. exists m1, (m2 ++ m'). rewrite <- app_assoc. split_and!; [done..|]. by apply IH.
Qed.
Lemma filled_fed_snoc places hs m d m' : filled_by places hs m → places !! length hs = Some d → (length m' <= 2 ^ d)%nat →
  fed places (hs ++ [tree_root d m']) (m ++ m').
Proof.
  revert places m. induction hs as [|h hs IH]; intros [|x places] m; cbn [filled_by fed length app lookup list_lookup]; try done.
  - intros -> [= ->] E. cbn [app]. by rewrite take_ge, drop_ge.
  - intros (m1 & m2 & -> & E & -> & H) Hd Hm. rewrite <- app_assoc, <- E, take_app_length, drop_app_length. split; [done|]. by apply IH.
Qed.
Lemma filled_by_length places hs m : filled_by places hs m → length m = sum_pow (take (length hs) places).
Proof.
  revert places m. induction hs as [|h hs IH]; intros [|x places] m; cbn [filled_by length]; try done.
  all: try (by intros ->). intros (m1 & m2 & -> & E & _ & H). apply IH in H. rewrite length_app, E, H. done.
Qed.
Lemma sum_pow_lookup places k d : places !! k = Some d → (sum_pow (take k places) + 2 ^ d <= sum_pow places)%nat.
Proof.
  revert k. induction places as [|x places IH]; intros [|k] H; try done.
  - injection H as ->. cbn. lia.
  - apply IH in H. cbn [take sum_pow foldr]. fold (sum_pow places) (sum_pow (take k places)). lia.
Qed.

(** The witness [w] of the last leaf of [l], after the leaves [m]. *)
Record follows (w : IncrementalWitness) (l m : list base_uint) : Prop := {
  fo_tree : represents w.(w_tree) l;
  fo_size : (length l <= 2 ^ Depth)%nat;
  fo_after : ∃ m1 m2, m = m1 ++ m2 ∧ filled_by (slots Depth w.(w_tree)) w.(filled) m1 ∧
    match w.(w_cursor) with
    | None => m2 = []
    | Some cursor => represents cursor m2 ∧ slots Depth w.(w_tree) !! length w.(filled) = Some w.(cursor_depth) ∧
        (0 < w.(cursor_depth) < Depth)%nat ∧ (length m2 < 2 ^ w.(cursor_depth))%nat
    end;
}.
Lemma witness_follows t l : represents t l → (length l <= 2 ^ Depth)%nat → follows (witness t) l [].
Proof. intros Hr Hl. split; [done|done|]. by exists [], []. Qed.

Lemma slots_range t k d : (1 + length t.(parents) <= Depth)%nat → slots Depth t !! k = Some d → (d < Depth)%nat.
Proof.
  intros Hp H%list_elem_of_lookup_2. unfold slots in H. rewrite !elem_of_app in H.
  assert (∀ d0 ps, d0 + length ps <= Depth → d ∈ empty_slots Depth d0 ps → d < Depth)%nat as Hs.
  { intros d0 ps. revert d0. induction ps as [|[p|] ps IH]; intros d0 Hd Hin; cbn [empty_slots length] in *.
    - apply elem_of_seq in Hin. lia.
    - eapply IH; [|exact Hin]. lia.
    - apply elem_of_cons in Hin as [->|Hin]; [lia|]. eapply IH; [|exact Hin]. lia. }
  destruct H as [H|[H|H]]; [destruct (left t); [by apply elem_of_nil in H|]; apply list_elem_of_singleton in H; lia
    |destruct (right t); [by apply elem_of_nil in H|]; apply list_elem_of_singleton in H; lia|]. by eapply Hs.
Qed.

Lemma cursor_root cursor d m : represents cursor m → (0 < d <= Depth)%nat → (length m <= 2 ^ d)%nat → root d [] cursor = Some (tree_root d m).
Proof. intros Hr Hd Hm. rewrite (root_spec d cursor m [] [] Hd Hr Hm); [by rewrite app_nil_r|]. done. Qed.

(** [append] keeps the witness, and throws exactly at the full tree. *)
Lemma Witness_append_spec w l m x : follows w l m →
  match Witness_append w x with
  | Some w' => follows w' l (m ++ [x]) ∧ w'.(w_tree) = w.(w_tree) ∧ (length l + length m < 2 ^ Depth)%nat
  | None => (length l + length m = 2 ^ Depth)%nat
  end.
Proof.
  intros [Hr Hl (m1 & m2 & -> & Hf & Hc)]. pose proof (tree_room _ _ Hr Hl) as Hroom.
  pose proof (represents_parents _ _ Depth Hr ltac:(lia) Hl) as Hp. pose proof (filled_by_length _ _ _ Hf) as Hlen. unfold Witness_append.
  destruct (w_cursor w) as [cursor|].
  - destruct Hc as (Hrc & Hs & Hd & Hm2). pose proof (sum_pow_lookup _ _ _ Hs) as Hle.
    pose proof (Nat.pow_le_mono_r 2 (cursor_depth w) Depth ltac:(lia) ltac:(lia)) as HpD.
    pose proof (append_spec cursor m2 x Hrc ltac:(lia)) as Ha. destruct (append cursor x) as [cursor'|]; [|lia]. destruct Ha as [Hrc' _]. cbn [mbind option_bind].
    assert (length (m2 ++ [x]) <= 2 ^ cursor_depth w)%nat as Hm2' by (rewrite length_app; cbn; lia).
    pose proof (is_complete_iff (cursor_depth w) cursor' _ Hrc' ltac:(lia) ltac:(pose proof Depth_fits; lia) Hm2') as Hic.
    destruct (is_complete (cursor_depth w) cursor').
    + rewrite (cursor_root cursor' _ _ Hrc') by (done || lia). cbn [mbind option_bind w_tree]. split_and!; [|done|rewrite length_app; lia].
      split; [done|done|]. exists (m1 ++ m2 ++ [x]), []. cbn [w_tree filled w_cursor]. rewrite app_nil_r, app_assoc. split_and!; [done| |done].
      rewrite <- app_assoc. apply filled_by_snoc; [done|done|by apply Hic].
    + cbn [w_tree]. split_and!; [|done|rewrite length_app; lia]. split; [done|done|]. exists m1, (m2 ++ [x]). cbn [w_tree filled w_cursor cursor_depth].
      rewrite app_assoc. split_and!; try done; [lia|lia|]. destruct (decide (length (m2 ++ [x]) = (2 ^ cursor_depth w)%nat)) as [E|E]; [by apply Hic in E|lia].
  - subst m2. rewrite app_nil_r. pose proof (next_depth_spec (w_tree w) (length (filled w)) ltac:(lia)) as Hn.
    destruct (slots Depth (w_tree w) !! length (filled w)) as [d|] eqn:Es.
    + rewrite Hn. pose proof (slots_range (w_tree w) _ _ ltac:(lia) Es) as Hd. rewrite bool_decide_false by lia. pose proof (sum_pow_lookup _ _ _ Es) as Hle.
      pose proof (Nat.pow_nonzero 2 d). assert (length l + length m1 < 2 ^ Depth)%nat by lia.
      destruct (decide (d = O)) as [->|Hd0].
      * rewrite bool_decide_true by done. split_and!; [|done|done]. split; [done|done|]. exists (m1 ++ [x]), []. rewrite app_nil_r. split_and!; [done| |done].
        cbn [filled w_tree]. by apply (filled_by_snoc _ _ _ 0 [x]).
      * rewrite bool_decide_false by done. pose proof (append_spec new_tree [] x new_tree_represents ltac:(cbn; lia)) as Ha.
        destruct (append new_tree x) as [cursor|]; [|pose proof (Nat.pow_nonzero 2 Depth); cbn in Ha; lia]. destruct Ha as [Hrc _]. cbn [mbind option_bind w_tree].
        split_and!; [|done|done]. split; [done|done|]. exists m1, [x]. cbn [w_tree filled w_cursor cursor_depth length]. split_and!; try done; [lia|].
        destruct d; [done|]. pose proof (Nat.pow_nonzero 2 d). cbn [Nat.pow]. lia.
    + rewrite bool_decide_true by done. apply lookup_ge_None in Es. rewrite take_ge in Hlen by done. lia.
Qed.

(** What the witness answers. *)
Lemma partial_path_spec w l m : follows w l m → ∃ uncles, partial_path w = Some uncles ∧ fed (slots Depth w.(w_tree)) uncles m.
Proof.
  intros [Hr Hl (m1 & m2 & -> & Hf & Hc)]. unfold partial_path. destruct (w_cursor w) as [cursor|].
  - destruct Hc as (Hrc & Hs & Hd & Hm2). rewrite (cursor_root cursor _ _ Hrc) by lia. cbn [mbind option_bind]. eexists. split; [done|].
    apply filled_fed_snoc; [done|done|lia].
  - subst m2. rewrite app_nil_r. eexists. split; [done|]. by apply filled_by_fed.
Qed.

(** The leaves [m] one after the other. *)
Definition append_all (t : IncrementalMerkleTree) (m : list base_uint) : option IncrementalMerkleTree := foldl (λ o x, t ← o; append t x) (Some t) m.
Definition Witness_append_all (w : IncrementalWitness) (m : list base_uint) : option IncrementalWitness :=
  foldl (λ o x, w ← o; Witness_append w x) (Some w) m.

Lemma fold_fails {A B} (f : A → B → option A) m : foldl (λ o x, a ← o; f a x) None m = None.
Proof. induction m as [|x m IH]; [done|]. exact IH. Qed.

Lemma append_all_spec t l m : represents t l → (length l <= 2 ^ Depth)%nat →
  match append_all t m with
  | Some t' => represents t' (l ++ m) ∧ (length l + length m <= 2 ^ Depth)%nat
  | None => (2 ^ Depth < length l + length m)%nat
  end.
Proof.
  unfold append_all. revert t l. induction m as [|x m IH]; intros t l Hr Hl; cbn [foldl]; [rewrite app_nil_r; cbn; split; [done|lia]|].
  cbn [mbind option_bind]. pose proof (append_spec t l x Hr Hl) as Ha. destruct (append t x) as [t'|].
  - destruct Ha as [Hr' Hlt]. specialize (IH t' (l ++ [x]) Hr'). rewrite length_app in IH. cbn [length] in IH. specialize (IH ltac:(lia)).
    destruct (foldl _ _ m); cbn [length]; [|lia]. rewrite <- app_assoc in IH. split; [apply IH|]. destruct IH. lia.
  - rewrite fold_fails. cbn [length]. lia.
Qed.
Lemma Witness_append_all_spec w l m m' : follows w l m →
  match Witness_append_all w m' with
  | Some w' => follows w' l (m ++ m') ∧ w'.(w_tree) = w.(w_tree)
  | None => (2 ^ Depth < length l + length m + length m')%nat
  end.
Proof.
  unfold Witness_append_all. revert w m. induction m' as [|x m' IH]; intros w m Hw; cbn [foldl]; [by rewrite app_nil_r|].
  cbn [mbind option_bind]. pose proof (Witness_append_spec w l m x Hw) as Ha. destruct (Witness_append w x) as [w'|].
  - destruct Ha as (Hw' & Et & Hlt). specialize (IH w' (m ++ [x]) Hw'). rewrite length_app in IH. cbn [length] in *.
    destruct (foldl _ _ m'); [|lia]. rewrite <- app_assoc in IH. split; [apply IH|]. destruct IH as [_ ->]. done.
  - rewrite fold_fails. cbn [length]. lia.
Qed.

(** ** The size *)

Lemma size_loop_spec i ps ret l : (i + length ps <= 30)%nat → 0 <= ret <= 2 ^ Z.of_nat (S i) → holds (S i) ps l →
  size_loop i ps ret = ret + Z.of_nat (length l).
Proof.
  revert i ret l. induction ps as [|[p|] ps IH]; intros i ret l Hi Hr; cbn [size_loop holds length] in *.
  - intros ->. cbn. lia.
  - intros (l1 & l2 & -> & E & _ & H). rewrite length_app, E, Nat2Z.inj_add, Nat2Z.inj_pow.
    assert (Z.shiftl 1 (Z.of_nat i + 1) = 2 ^ Z.of_nat (S i)) as -> by (rewrite Z.shiftl_mul_pow2 by lia; f_equal; lia).
    assert (2 ^ Z.of_nat (S i) <= 2 ^ 30) by (apply Z.pow_le_mono_r; lia).
    rewrite i32_id by (unfold is_i32; lia). rewrite u64_id by (unfold is_u64; lia).
    rewrite (IH (S i) _ l1); [change (Z.of_nat 2) with 2; lia|lia| |done].
    rewrite (Nat2Z.inj_succ (S i)), Z.pow_succ_r by lia. lia.
  - intros H. apply IH; [lia| |done]. rewrite (Nat2Z.inj_succ (S i)), Z.pow_succ_r by lia. lia.
Qed.
(** [size] counts the leaves, up to [2 ^ 31] of them. *)
Lemma size_spec t l : represents t l → (length l <= 2 ^ 31)%nat → size t = Z.of_nat (length l).
Proof.
  intros Hr Hl. pose proof (represents_parents t l 31 Hr ltac:(lia) Hl) as Hp. clear Hl. destruct Hr as [_ H]. unfold size.
  destruct t as [[a|] [b|] ps]; cbn [left right parents] in *; [| |done|by destruct H as [-> ->]].
  all: destruct H as (l1 & -> & H); rewrite (size_loop_spec 0 ps _ l1), length_app; [cbn [length]; lia|lia|cbn; lia|done].
Qed.

(** ** Serialisation *)

Definition words_ok (o : option base_uint) : Prop := ∀ h, o = Some h → wf 8 h.
Definition tree_words (t : IncrementalMerkleTree) : Prop := words_ok t.(left) ∧ words_ok t.(right) ∧ Forall words_ok t.(parents).

(** A tree with leaves passes [wfcheck]. *)
Lemma represents_wfcheck t l : represents t l → (length l <= 2 ^ Depth)%nat → wfcheck t = true.
Proof.
  intros Hr Hl. pose proof (represents_parents t l Depth Hr ltac:(lia) Hl) as Hp. destruct Hr as [Hc H]. unfold wfcheck.
  rewrite (bool_decide_false (Depth <= _)%nat) by lia. rewrite (bool_decide_false (list.last _ = _)) by exact Hc.
  destruct t as [[a|] [b|] ps]; cbn [left right parents] in *; try done. by destruct H as [_ ->].
Qed.

Lemma Tree_roundtrip t bytes rest : tree_words t → Tree_Serialize t = Some bytes → Tree_Unserialize (bytes ++ rest) = Some (t, rest).
Proof.
  intros (H1 & H2 & H3). unfold Tree_Serialize, Tree_Unserialize. destruct (wfcheck t) eqn:Ew; [|done]. intros E; apply Some_inj in E as <-.
  rewrite <- !app_assoc, (round_trip (c := c_optional (c_uint 8))) by exact H1. cbn [mbind option_bind].
  rewrite (round_trip (c := c_optional (c_uint 8))) by exact H2. cbn [mbind option_bind].
  rewrite (round_trip (c := c_vector (c_optional (c_uint 8)))); cbn [mbind option_bind]; [by destruct t; cbn [left right parents] in *; rewrite Ew|].
  split; [exact H3|]. unfold wfcheck in Ew. rewrite !andb_true_iff, negb_true_iff, bool_decide_eq_false in Ew.
  unfold Serialize.MAX_SIZE. destruct Ew as [[[Ew _] _] _]. change (Z.of_nat (length (parents t)) <= 0x02000000). lia.
Qed.
Lemma filled_short w l m : follows w l m → (length w.(filled) <= Depth + 1)%nat.
Proof.
  intros [Hr Hl (m1 & m2 & -> & Hf & _)]. pose proof (represents_parents _ _ Depth Hr ltac:(lia) Hl) as Hp.
  assert (∀ d ps, d + length ps <= Depth → length (empty_slots Depth d ps) <= Depth - d)%nat as Hs.
  { intros d ps. revert d. induction ps as [|[p|] ps IH]; intros d Hd; cbn [empty_slots length] in *; [by rewrite length_seq|..].
    all: specialize (IH (S d) ltac:(lia)); lia. }
  assert (length (filled w) <= length (slots Depth (w_tree w)))%nat as Hle.
  { clear - Hf. revert m1 Hf. generalize (slots Depth (w_tree w)). induction (filled w) as [|h hs IH]; intros [|d ps] m1; cbn [filled_by length]; try done; [lia..|].
    intros (m2 & m3 & _ & _ & _ & H%IH). lia. }
  etrans; [exact Hle|]. unfold slots. rewrite !length_app. specialize (Hs 1%nat (parents (w_tree w)) ltac:(lia)).
  destruct (left (w_tree w)), (right (w_tree w)); cbn [length]; lia.
Qed.
(** The depth of the cursor is not written; reading computes it again. *)
Lemma Witness_roundtrip w l m bytes rest : follows w l m →
  tree_words w.(w_tree) → Forall (wf 8) w.(filled) → (∀ c, w.(w_cursor) = Some c → tree_words c) →
  Witness_Serialize w = Some bytes →
  Witness_Unserialize (bytes ++ rest) = Some (mkWitness w.(w_tree) w.(filled) w.(w_cursor) (next_depth (length w.(filled)) w.(w_tree)), rest).
Proof.
  intros Hw H1 H2 H3. unfold Witness_Serialize, Witness_Unserialize. destruct (Tree_Serialize (w_tree w)) as [bt|] eqn:Et; [|done].
  cbn [mbind option_bind]. assert (Z.of_nat (length (filled w)) <= Serialize.MAX_SIZE) as Hn.
  { pose proof (filled_short _ _ _ Hw). unfold Serialize.MAX_SIZE. lia. }
  destruct (w_cursor w) as [c|].
  - destruct (Tree_Serialize c) as [bc|] eqn:Ec; [|done]. cbn [mbind option_bind]. intros E; apply Some_inj in E as <-. rewrite <- !app_assoc.
    rewrite (Tree_roundtrip _ _ _ H1 Et). cbn [mbind option_bind]. rewrite (round_trip (c := c_vector (c_uint 8))) by done. cbn [mbind option_bind].
    change ((1 :: bc) ++ rest) with (ser_writedata 1 1 ++ (bc ++ rest)). rewrite ser_readdata_app by done. cbn [mbind option_bind]. cbn [Z.eqb].
    by rewrite (Tree_roundtrip _ _ _ (H3 c eq_refl) Ec).
  - intros E; apply Some_inj in E as <-. cbn [mbind option_bind]. rewrite <- !app_assoc.
    rewrite (Tree_roundtrip _ _ _ H1 Et). cbn [mbind option_bind]. rewrite (round_trip (c := c_vector (c_uint 8))) by done. cbn [mbind option_bind].
    change ([0] ++ rest) with (ser_writedata 1 0 ++ rest). rewrite ser_readdata_app by done. done.
Qed.

(** A witness that is read back follows the same leaves, and it is the same one
    while a subtree is being filled. *)
Lemma reread_witness w l m : follows w l m → let w' := mkWitness w.(w_tree) w.(filled) w.(w_cursor) (next_depth (length w.(filled)) w.(w_tree)) in
  follows w' l m ∧ (is_Some w.(w_cursor) → w' = w).
Proof.
  intros [Hr Hl (m1 & m2 & E & Hf & Hc)]. pose proof (represents_parents _ _ Depth Hr ltac:(lia) Hl) as Hp. cbn zeta.
  pose proof (next_depth_spec (w_tree w) (length (filled w)) ltac:(lia)) as Hn. destruct w as [t f [c|] d]; cbn [w_tree filled w_cursor cursor_depth] in *.
  - destruct Hc as (Hrc & Hs & Hd & Hm2). rewrite Hs in Hn. rewrite Hn. split; [|done]. split; [done|done|]. by exists m1, m2.
  - split; [|by intros []]. split; [done|done|]. by exists m1, m2.
Qed.
End tree.

(** ** The two hash functions *)

(** A [uint256] from its bytes. *)
Definition uint256_of (bytes : list Z) : base_uint := match (c_uint 8).(dec) bytes with Some (h, _) => h | None => uint_zero 8 end.

(** [SHA256Compress::combine]: one round of the compression function; the depth
    does not matter. *)
Definition SHA256Compress_combine (a b : base_uint) (depth : nat) : base_uint :=
  let hasher := CSHA256_Write (CSHA256_Write (CSHA256 (replicate 64 0)) ((c_uint 8).(enc) a)) ((c_uint 8).(enc) b) in
  match CSHA256_FinalizeNoPadding hasher true with Some res => uint256_of res | None => uint_zero 8 end.
(** The roots of the empty trees of the depths 0 to 65. *)
Definition sha256_empty_roots : list (list Z) := [
  [0; 0; 0; 0; 0; 0; 0; 0; 0; 0; 0; 0; 0; 0; 0; 0;
   0; 0; 0; 0; 0; 0; 0; 0; 0; 0; 0; 0; 0; 0; 0; 0];
  [218; 86; 152; 190; 23; 185; 180; 105; 98; 51; 87; 153; 119; 159; 190; 202;
   140; 229; 212; 145; 192; 210; 98; 67; 186; 254; 249; 234; 24; 55; 169; 216];
  [220; 118; 111; 171; 73; 44; 207; 61; 30; 73; 212; 243; 116; 181; 35; 95;
   165; 101; 6; 170; 194; 34; 77; 57; 249; 67; 252; 212; 146; 2; 151; 76];
  [63; 10; 64; 97; 129; 16; 89; 104; 253; 174; 227; 6; 121; 227; 39; 60;
   102; 183; 43; 249; 167; 245; 222; 187; 243; 181; 160; 162; 110; 53; 159; 146];
  [38; 176; 5; 38; 148; 252; 66; 253; 255; 147; 230; 251; 90; 113; 211; 140;
   61; 215; 220; 91; 106; 215; 16; 235; 4; 140; 102; 2; 51; 19; 127; 171];
  [1; 9; 236; 192; 114; 38; 89; 255; 131; 69; 11; 143; 123; 136; 70; 230;
   123; 40; 89; 243; 60; 48; 217; 183; 172; 213; 191; 57; 202; 229; 78; 49];
  [63; 144; 155; 140; 227; 215; 255; 216; 165; 179; 9; 8; 246; 5; 160; 59;
   13; 184; 81; 105; 85; 141; 220; 29; 167; 187; 188; 201; 176; 159; 211; 37];
  [64; 70; 15; 166; 188; 105; 42; 6; 244; 117; 33; 166; 114; 90; 84; 124;
   2; 138; 106; 36; 13; 132; 9; 241; 101; 230; 60; 181; 77; 162; 210; 63];
  [140; 8; 86; 116; 36; 155; 67; 218; 27; 154; 49; 160; 232; 32; 232; 30;
   117; 243; 66; 128; 123; 3; 182; 185; 230; 73; 131; 33; 123; 194; 179; 142];
  [160; 131; 69; 12; 27; 162; 163; 167; 190; 118; 250; 217; 209; 59; 195; 123;
   228; 191; 131; 189; 62; 89; 252; 55; 90; 54; 186; 98; 220; 98; 2; 152];
  [29; 221; 218; 188; 44; 170; 45; 233; 239; 249; 225; 140; 140; 90; 57; 64;
   109; 121; 54; 232; 137; 188; 22; 207; 171; 177; 68; 245; 192; 2; 38; 130];
  [194; 45; 143; 11; 94; 64; 86; 229; 243; 24; 186; 34; 9; 28; 192; 125;
   181; 105; 79; 190; 181; 232; 126; 240; 215; 226; 197; 124; 163; 82; 53; 158];
  [137; 164; 52; 174; 31; 235; 215; 104; 126; 206; 234; 33; 208; 127; 32; 162;
   81; 36; 73; 208; 140; 226; 238; 229; 88; 113; 205; 185; 212; 108; 18; 51];
  [115; 51; 219; 255; 189; 17; 240; 146; 71; 162; 179; 58; 1; 62; 196; 196;
   52; 32; 41; 216; 81; 226; 43; 164; 133; 212; 70; 24; 81; 55; 12; 21];
  [93; 173; 132; 74; 185; 70; 107; 112; 247; 69; 19; 113; 149; 202; 34; 27;
   72; 243; 70; 171; 209; 69; 251; 94; 252; 35; 168; 180; 186; 80; 128; 34];
  [80; 126; 13; 174; 129; 203; 251; 228; 87; 253; 55; 14; 241; 202; 66; 1;
   194; 182; 64; 16; 131; 221; 171; 68; 14; 74; 3; 141; 193; 227; 88; 196];
  [189; 205; 179; 41; 49; 136; 201; 128; 125; 128; 130; 103; 1; 134; 132; 207;
   236; 224; 122; 195; 90; 66; 192; 15; 44; 121; 180; 0; 56; 37; 48; 93];
  [186; 181; 128; 9; 114; 161; 108; 44; 34; 83; 12; 102; 6; 109; 10; 88;
   103; 233; 135; 190; 210; 26; 109; 90; 69; 11; 104; 60; 241; 207; 215; 9];
  [17; 170; 11; 74; 210; 155; 19; 176; 87; 163; 22; 25; 214; 80; 13; 99;
   108; 215; 53; 205; 208; 125; 129; 30; 162; 101; 236; 75; 203; 187; 208; 88];
  [81; 69; 177; 176; 85; 194; 223; 2; 185; 86; 117; 227; 121; 123; 145; 222;
   27; 132; 109; 37; 0; 60; 10; 128; 61; 8; 144; 7; 40; 242; 205; 106];
  [3; 35; 242; 133; 11; 243; 68; 79; 75; 76; 92; 9; 166; 5; 126; 199;
   22; 145; 144; 244; 90; 203; 158; 70; 152; 74; 179; 223; 206; 196; 240; 106];
  [103; 21; 70; 226; 107; 29; 161; 175; 117; 69; 49; 226; 109; 138; 106; 81;
   7; 58; 87; 221; 215; 45; 196; 114; 239; 180; 63; 203; 37; 124; 255; 255];
  [187; 35; 169; 187; 165; 109; 229; 124; 178; 132; 176; 210; 176; 28; 100; 44;
   247; 156; 154; 85; 99; 240; 6; 122; 33; 41; 36; 18; 20; 91; 215; 138];
  [243; 12; 200; 54; 185; 247; 27; 78; 126; 227; 199; 43; 31; 210; 83; 38;
   138; 249; 162; 126; 157; 114; 145; 162; 61; 2; 130; 27; 33; 221; 253; 22];
  [88; 162; 117; 61; 173; 225; 3; 206; 203; 205; 165; 11; 94; 191; 206; 49;
   225; 45; 65; 213; 132; 29; 204; 149; 98; 15; 123; 61; 80; 161; 185; 161];
  [146; 94; 109; 71; 74; 93; 141; 48; 4; 242; 157; 160; 221; 120; 211; 10;
   227; 130; 76; 231; 157; 254; 73; 52; 187; 41; 236; 58; 250; 243; 213; 33];
  [8; 242; 121; 97; 134; 22; 188; 221; 78; 173; 201; 199; 169; 6; 38; 145;
   165; 155; 67; 176; 126; 44; 30; 35; 127; 23; 189; 24; 156; 214; 168; 254];
  [201; 43; 50; 219; 66; 244; 46; 43; 240; 165; 157; 249; 5; 91; 229; 198;
   105; 211; 36; 45; 244; 83; 87; 101; 155; 117; 174; 44; 39; 167; 111; 80];
  [192; 219; 42; 116; 153; 140; 80; 235; 123; 166; 83; 79; 109; 65; 14; 252;
   39; 196; 187; 136; 172; 176; 34; 44; 121; 6; 234; 40; 163; 39; 181; 17];
  [215; 198; 18; 200; 23; 121; 49; 145; 161; 230; 134; 82; 18; 24; 118; 214;
   179; 189; 228; 15; 79; 165; 43; 195; 20; 20; 92; 230; 229; 205; 210; 89];
  [178; 35; 112; 16; 108; 103; 161; 114; 9; 246; 19; 11; 192; 159; 115; 93;
   131; 170; 44; 4; 252; 79; 231; 46; 165; 216; 11; 33; 103; 35; 231; 206];
  [159; 103; 213; 246; 100; 102; 76; 144; 25; 64; 238; 227; 208; 45; 213; 179;
   228; 185; 46; 123; 66; 130; 12; 66; 252; 81; 89; 233; 27; 65; 23; 42];
  [172; 88; 205; 19; 136; 254; 194; 144; 211; 152; 241; 148; 75; 86; 68; 73;
   166; 60; 129; 88; 128; 86; 107; 209; 209; 137; 247; 131; 158; 59; 12; 140];
  [86; 152; 234; 231; 200; 81; 94; 208; 90; 112; 51; 155; 223; 124; 16; 40;
   231; 172; 202; 19; 164; 250; 151; 217; 83; 143; 1; 172; 141; 136; 154; 227];
  [45; 73; 149; 119; 10; 118; 251; 147; 49; 76; 167; 75; 53; 36; 234; 29;
   181; 104; 138; 208; 167; 97; 131; 234; 23; 32; 74; 143; 2; 74; 159; 59];
  [94; 137; 146; 193; 176; 114; 193; 110; 158; 40; 168; 83; 88; 251; 95; 182;
   144; 26; 129; 88; 119; 102; 218; 219; 122; 160; 185; 115; 222; 210; 242; 100];
  [233; 93; 183; 30; 31; 114; 145; 186; 84; 153; 70; 27; 199; 21; 32; 62;
   41; 184; 75; 250; 66; 131; 227; 187; 127; 71; 10; 21; 208; 225; 88; 78];
  [65; 240; 120; 189; 24; 36; 200; 164; 183; 25; 100; 243; 148; 170; 89; 80;
   132; 216; 235; 23; 185; 122; 54; 48; 67; 58; 247; 13; 16; 224; 239; 246];
  [161; 145; 63; 230; 178; 1; 50; 49; 47; 140; 31; 0; 221; 214; 60; 236;
   122; 3; 245; 241; 215; 216; 52; 146; 250; 40; 76; 11; 93; 99; 32; 176];
  [186; 148; 64; 196; 219; 252; 245; 92; 235; 96; 90; 91; 137; 144; 252; 17;
   248; 239; 34; 135; 13; 141; 18; 225; 48; 249; 134; 73; 30; 174; 132; 179];
  [73; 219; 45; 94; 34; 184; 1; 92; 174; 72; 16; 215; 94; 84; 1; 76;
   84; 105; 134; 39; 56; 225; 97; 236; 150; 236; 32; 33; 135; 24; 130; 138];
  [212; 133; 31; 184; 67; 30; 223; 187; 139; 30; 133; 173; 166; 137; 89; 103;
   194; 218; 200; 125; 243; 68; 153; 42; 5; 250; 241; 236; 248; 54; 238; 201];
  [228; 171; 159; 68; 112; 240; 12; 209; 150; 212; 124; 117; 200; 46; 122; 218;
   240; 111; 225; 126; 4; 46; 57; 83; 217; 59; 181; 213; 109; 140; 216; 251];
  [126; 67; 32; 67; 72; 73; 236; 179; 87; 241; 175; 170; 186; 33; 165; 68;
   0; 239; 45; 17; 207; 248; 59; 147; 125; 135; 253; 175; 164; 159; 129; 153];
  [2; 10; 220; 152; 217; 108; 251; 188; 202; 21; 252; 58; 160; 55; 96; 237;
   40; 102; 134; 195; 91; 93; 146; 199; 203; 100; 169; 153; 179; 148; 168; 84];
  [58; 38; 178; 159; 225; 172; 253; 214; 198; 161; 81; 188; 195; 219; 203; 149;
   161; 14; 190; 47; 5; 83; 248; 7; 121; 86; 155; 103; 183; 36; 78; 119];
  [236; 45; 9; 134; 230; 160; 221; 244; 56; 151; 178; 212; 242; 59; 176; 52;
   245; 56; 255; 224; 8; 39; 243; 16; 220; 73; 99; 243; 38; 127; 11; 251];
  [212; 128; 115; 248; 129; 159; 129; 240; 53; 142; 63; 195; 90; 4; 124; 199;
   64; 130; 174; 28; 183; 238; 34; 251; 96; 156; 1; 100; 147; 66; 208; 230];
  [173; 128; 55; 96; 23; 147; 241; 114; 68; 30; 203; 0; 220; 19; 141; 159;
   197; 149; 113; 37; 236; 195; 130; 236; 101; 227; 111; 129; 125; 199; 153; 251];
  [202; 80; 10; 84; 65; 243; 111; 77; 246; 115; 214; 184; 237; 7; 93; 54;
   218; 226; 199; 230; 72; 20; 40; 199; 10; 90; 118; 183; 169; 190; 188; 232];
  [66; 43; 109; 221; 71; 50; 49; 220; 77; 86; 254; 145; 52; 68; 204; 213;
   111; 124; 97; 247; 71; 186; 87; 202; 148; 109; 95; 239; 114; 216; 64; 160];
  [171; 65; 244; 236; 183; 215; 8; 150; 21; 128; 14; 25; 252; 197; 59; 131;
   121; 237; 5; 238; 53; 200; 37; 103; 9; 85; 131; 253; 144; 255; 48; 53];
  [187; 247; 97; 130; 72; 53; 76; 235; 27; 193; 252; 157; 188; 66; 196; 38;
   164; 226; 193; 224; 212; 67; 197; 104; 58; 146; 86; 198; 46; 205; 194; 111];
  [229; 10; 231; 20; 121; 252; 142; 197; 105; 25; 42; 19; 7; 46; 1; 26;
   252; 36; 159; 71; 26; 240; 149; 0; 234; 57; 247; 93; 10; 248; 86; 191];
  [231; 76; 11; 146; 32; 20; 125; 178; 213; 10; 59; 88; 212; 19; 119; 93;
   22; 201; 132; 105; 11; 231; 217; 15; 11; 196; 61; 153; 219; 161; 182; 137];
  [41; 50; 74; 10; 72; 209; 22; 87; 165; 27; 160; 139; 0; 72; 121; 191;
   207; 198; 106; 26; 203; 124; 227; 109; 254; 71; 141; 38; 85; 72; 75; 72];
  [136; 149; 46; 61; 10; 192; 108; 177; 107; 102; 82; 1; 18; 34; 73; 101;
   154; 34; 50; 94; 1; 200; 112; 244; 158; 41; 218; 107; 23; 87; 224; 130];
  [205; 248; 121; 242; 67; 91; 149; 175; 4; 42; 59; 247; 184; 80; 247; 129;
   146; 70; 200; 5; 40; 88; 3; 214; 127; 251; 244; 242; 149; 190; 208; 4];
  [224; 5; 227; 36; 32; 11; 79; 66; 140; 98; 188; 51; 49; 230; 149; 195;
   115; 96; 124; 208; 250; 169; 121; 3; 65; 250; 59; 161; 237; 34; 139; 197];
  [53; 68; 71; 114; 122; 169; 165; 61; 216; 52; 91; 107; 108; 105; 52; 67;
   229; 110; 244; 174; 186; 19; 196; 16; 23; 159; 200; 88; 158; 119; 51; 213];
  [218; 82; 221; 169; 31; 40; 41; 193; 92; 14; 88; 210; 154; 149; 54; 11;
   134; 171; 48; 207; 12; 172; 129; 1; 131; 42; 41; 243; 140; 49; 133; 241];
  [199; 218; 120; 20; 226; 40; 225; 20; 68; 17; 215; 139; 83; 96; 146; 254;
   146; 11; 205; 252; 195; 108; 241; 157; 18; 89; 4; 123; 38; 125; 88; 181];
  [171; 161; 246; 139; 108; 43; 77; 182; 204; 6; 167; 52; 14; 18; 49; 60;
   75; 74; 78; 166; 222; 177; 125; 235; 62; 30; 102; 205; 142; 172; 243; 43];
  [193; 96; 174; 79; 100; 171; 118; 77; 134; 74; 82; 173; 94; 51; 18; 108;
   75; 92; 225; 5; 164; 125; 238; 221; 117; 188; 112; 25; 154; 82; 71; 239];
  [234; 223; 35; 252; 153; 213; 20; 221; 142; 162; 4; 210; 35; 233; 141; 169;
   136; 131; 31; 155; 93; 25; 64; 39; 76; 165; 32; 183; 251; 23; 61; 138];
  [91; 142; 20; 250; 202; 200; 167; 199; 163; 191; 238; 139; 174; 113; 242; 247;
   121; 61; 58; 213; 254; 51; 131; 249; 58; 182; 6; 31; 42; 17; 187; 2]].
(** The array has 65 elements; the two that are not listed are zero. *)
Definition pedersen_empty_roots : list (list Z) := [
  [1; 0; 0; 0; 0; 0; 0; 0; 0; 0; 0; 0; 0; 0; 0; 0;
   0; 0; 0; 0; 0; 0; 0; 0; 0; 0; 0; 0; 0; 0; 0; 0];
  [129; 125; 227; 106; 178; 213; 127; 235; 7; 118; 52; 188; 167; 120; 25; 200;
   224; 189; 41; 140; 4; 246; 254; 208; 230; 168; 60; 193; 53; 108; 161; 85];
  [255; 233; 252; 3; 241; 139; 23; 108; 153; 136; 6; 67; 159; 240; 187; 138;
   209; 147; 175; 219; 39; 178; 204; 188; 136; 133; 105; 22; 221; 128; 78; 52];
  [216; 40; 51; 134; 239; 46; 240; 126; 189; 187; 67; 131; 193; 42; 115; 154;
   149; 58; 77; 110; 13; 111; 177; 19; 154; 64; 54; 214; 147; 191; 187; 108];
  [225; 16; 222; 101; 201; 7; 185; 222; 164; 174; 11; 216; 58; 75; 10; 81;
   190; 161; 117; 100; 106; 100; 193; 43; 76; 159; 147; 27; 44; 179; 27; 73];
  [145; 45; 130; 178; 194; 188; 162; 49; 247; 30; 252; 246; 23; 55; 251; 240;
   160; 139; 239; 160; 65; 98; 21; 174; 239; 83; 232; 187; 109; 35; 57; 10];
  [138; 201; 207; 156; 57; 30; 63; 212; 40; 145; 210; 114; 56; 168; 26; 138;
   92; 29; 58; 114; 177; 188; 190; 168; 207; 68; 165; 140; 231; 56; 150; 19];
  [214; 198; 57; 172; 36; 180; 107; 209; 147; 65; 201; 27; 19; 253; 202; 179;
   21; 129; 221; 175; 127; 20; 17; 51; 106; 39; 31; 61; 10; 165; 40; 19];
  [123; 153; 171; 220; 55; 48; 153; 28; 201; 39; 71; 39; 215; 216; 45; 40;
   203; 121; 78; 219; 199; 3; 75; 79; 0; 83; 255; 124; 75; 104; 4; 68];
  [67; 255; 84; 87; 241; 59; 146; 107; 97; 223; 85; 45; 78; 64; 46; 230;
   220; 20; 99; 249; 154; 83; 95; 154; 113; 52; 57; 38; 77; 91; 97; 107];
  [186; 73; 182; 89; 251; 208; 183; 51; 66; 17; 234; 106; 157; 157; 241; 133;
   199; 87; 231; 10; 168; 29; 165; 98; 251; 145; 43; 132; 244; 155; 206; 114];
  [71; 119; 200; 119; 106; 59; 30; 105; 183; 58; 98; 250; 112; 31; 164; 247;
   166; 40; 45; 154; 238; 44; 122; 107; 130; 231; 147; 125; 112; 129; 194; 60];
  [236; 103; 113; 20; 194; 114; 6; 245; 222; 188; 28; 30; 214; 111; 149; 226;
   177; 136; 93; 165; 183; 190; 61; 115; 107; 29; 233; 133; 121; 71; 48; 72];
  [27; 119; 218; 196; 210; 79; 183; 37; 140; 60; 82; 135; 4; 197; 148; 48;
   182; 48; 113; 139; 236; 72; 100; 33; 131; 112; 33; 207; 117; 218; 182; 81];
  [189; 116; 178; 90; 172; 185; 35; 120; 168; 113; 191; 39; 210; 37; 207; 194;
   107; 172; 163; 68; 161; 234; 53; 253; 217; 69; 16; 243; 209; 87; 8; 44];
  [214; 172; 222; 223; 149; 246; 8; 224; 159; 165; 63; 180; 61; 205; 9; 144;
   71; 87; 38; 197; 19; 18; 16; 201; 229; 202; 234; 185; 127; 14; 100; 47];
  [30; 166; 103; 95; 149; 81; 238; 185; 223; 170; 169; 36; 123; 201; 133; 130;
   112; 211; 211; 164; 197; 175; 167; 23; 122; 152; 77; 94; 209; 190; 36; 81];
  [110; 219; 22; 208; 25; 7; 183; 89; 151; 125; 118; 80; 218; 215; 227; 236;
   4; 154; 241; 163; 216; 117; 56; 11; 105; 124; 134; 44; 158; 197; 213; 28];
  [205; 28; 141; 191; 110; 58; 204; 122; 128; 67; 155; 196; 150; 44; 242; 91;
   157; 206; 124; 137; 111; 58; 91; 215; 8; 3; 252; 90; 14; 51; 207; 0];
  [106; 202; 132; 72; 216; 38; 62; 84; 125; 95; 242; 149; 14; 46; 211; 131;
   158; 153; 141; 49; 203; 198; 172; 159; 213; 123; 198; 0; 43; 21; 146; 22];
  [141; 95; 164; 62; 90; 16; 209; 22; 5; 172; 116; 48; 186; 31; 93; 129;
   251; 27; 104; 210; 154; 100; 4; 5; 118; 119; 73; 232; 65; 82; 118; 115];
  [8; 238; 171; 12; 19; 171; 214; 6; 158; 99; 16; 25; 123; 248; 15; 156;
   30; 166; 222; 120; 253; 25; 203; 174; 36; 212; 165; 32; 230; 207; 48; 35];
  [7; 105; 85; 123; 198; 130; 177; 191; 48; 134; 70; 253; 11; 34; 230; 72;
   232; 185; 233; 143; 87; 226; 159; 90; 244; 15; 110; 219; 131; 62; 44; 73];
  [76; 105; 55; 215; 143; 66; 104; 95; 132; 180; 58; 211; 183; 176; 15; 129;
   40; 86; 98; 248; 92; 106; 104; 239; 17; 214; 42; 209; 163; 238; 8; 80];
  [254; 224; 229; 40; 2; 203; 12; 70; 177; 235; 77; 55; 108; 98; 105; 127;
   71; 89; 246; 200; 145; 127; 163; 82; 87; 18; 2; 253; 119; 143; 215; 18];
  [22; 214; 37; 41; 104; 151; 26; 131; 218; 133; 33; 214; 83; 130; 230; 31;
   1; 118; 100; 109; 119; 28; 145; 82; 142; 50; 118; 238; 69; 56; 62; 74];
  [210; 225; 100; 44; 154; 70; 34; 41; 40; 158; 91; 14; 59; 127; 144; 8;
   224; 48; 28; 187; 147; 56; 94; 224; 226; 29; 162; 84; 80; 115; 203; 88];
  [165; 18; 44; 8; 255; 156; 22; 29; 156; 166; 252; 70; 32; 115; 57; 108;
   125; 125; 56; 232; 238; 72; 205; 179; 190; 167; 226; 35; 1; 52; 237; 106];
  [40; 231; 184; 65; 220; 188; 71; 204; 235; 105; 215; 203; 141; 148; 36; 95;
   183; 203; 43; 163; 167; 166; 188; 24; 241; 63; 148; 95; 125; 189; 110; 42];
  [225; 243; 75; 3; 77; 74; 60; 210; 133; 87; 226; 144; 126; 191; 153; 12;
   145; 143; 100; 236; 181; 10; 148; 240; 29; 111; 218; 92; 165; 199; 239; 114];
  [18; 147; 95; 20; 182; 118; 80; 155; 129; 235; 73; 239; 37; 243; 146; 105;
   237; 114; 48; 146; 56; 180; 193; 69; 128; 53; 68; 182; 70; 220; 166; 45];
  [178; 238; 208; 49; 212; 214; 164; 240; 42; 9; 127; 128; 181; 76; 193; 84;
   29; 65; 99; 198; 182; 245; 151; 31; 136; 182; 228; 29; 53; 197; 56; 20];
  [251; 194; 244; 48; 12; 1; 240; 183; 130; 13; 0; 227; 52; 124; 141; 164;
   238; 97; 70; 116; 55; 108; 188; 69; 53; 157; 170; 84; 249; 181; 73; 62];
  [37; 46; 103; 152; 100; 95; 91; 241; 20; 228; 180; 233; 14; 150; 24; 40;
   97; 72; 152; 64; 217; 180; 204; 196; 193; 251; 90; 70; 153; 124; 238; 20];
  [152; 177; 144; 66; 241; 247; 199; 221; 17; 236; 37; 234; 102; 182; 255; 116;
   224; 140; 225; 29; 68; 126; 214; 241; 191; 232; 126; 17; 14; 51; 30; 17];
  [212; 81; 48; 71; 153; 87; 43; 169; 244; 44; 77; 171; 107; 7; 199; 3;
   189; 44; 18; 58; 185; 214; 15; 42; 96; 249; 149; 88; 84; 145; 11; 106];
  [62; 205; 95; 39; 172; 240; 27; 211; 122; 51; 228; 81; 120; 103; 239; 118;
   71; 76; 216; 63; 179; 28; 146; 8; 220; 239; 46; 237; 206; 243; 108; 114];
  [38; 195; 125; 166; 120; 148; 161; 61; 248; 170; 72; 120; 210; 81; 74; 66;
   18; 87; 59; 115; 236; 202; 171; 22; 254; 79; 166; 96; 232; 254; 39; 7];
  [181; 69; 239; 52; 72; 94; 237; 48; 212; 43; 44; 41; 90; 74; 91; 104;
   13; 232; 169; 213; 227; 131; 69; 120; 36; 98; 192; 79; 9; 220; 104; 81];
  [119; 253; 32; 179; 0; 148; 103; 101; 168; 127; 36; 189; 4; 80; 115; 114;
   156; 189; 123; 102; 235; 143; 161; 64; 181; 131; 250; 169; 209; 66; 88; 1];
  [203; 170; 87; 107; 23; 153; 181; 143; 243; 166; 222; 203; 186; 145; 155; 11;
   104; 215; 200; 147; 228; 111; 222; 153; 135; 104; 232; 126; 53; 10; 7; 37];
  [69; 254; 129; 177; 140; 163; 0; 116; 208; 18; 13; 43; 26; 13; 16; 179;
   160; 80; 147; 53; 18; 219; 142; 227; 78; 82; 71; 61; 79; 8; 162; 103];
  [14; 96; 161; 240; 18; 31; 89; 30; 85; 29; 62; 209; 134; 91; 80; 167;
   93; 124; 207; 241; 40; 157; 247; 196; 77; 212; 101; 165; 67; 23; 245; 106];
  [206; 223; 177; 132; 221; 146; 160; 203; 252; 17; 232; 190; 105; 123; 71; 105;
   136; 237; 95; 57; 54; 154; 189; 217; 12; 97; 84; 73; 136; 96; 28; 13];
  [243; 98; 104; 102; 18; 100; 154; 49; 59; 164; 100; 67; 122; 12; 173; 14;
   126; 61; 126; 27; 75; 55; 67; 249; 14; 5; 162; 16; 10; 73; 95; 66];
  [125; 234; 229; 243; 187; 222; 255; 211; 248; 82; 113; 160; 139; 94; 195; 31;
   22; 249; 55; 150; 74; 231; 8; 253; 255; 124; 19; 229; 164; 243; 223; 107];
  [64; 204; 240; 252; 30; 171; 109; 133; 2; 189; 147; 220; 49; 52; 45; 253;
   87; 223; 91; 187; 93; 112; 161; 191; 107; 146; 239; 198; 30; 201; 162; 88];
  [215; 128; 37; 73; 31; 27; 202; 133; 7; 246; 79; 37; 135; 45; 208; 35;
   136; 71; 154; 26; 34; 81; 38; 228; 13; 47; 228; 24; 185; 142; 14; 44];
  [13; 183; 41; 70; 133; 200; 160; 114; 95; 21; 132; 110; 165; 137; 158; 160;
   233; 134; 194; 112; 123; 215; 180; 18; 149; 68; 18; 242; 106; 191; 85; 10];
  [183; 226; 144; 190; 149; 85; 207; 117; 84; 134; 80; 218; 109; 71; 200; 147;
   174; 247; 248; 198; 221; 39; 53; 73; 148; 149; 246; 54; 89; 13; 174; 10];
  [45; 210; 83; 42; 133; 140; 48; 1; 69; 166; 94; 53; 31; 145; 190; 106;
   254; 171; 89; 124; 65; 239; 7; 63; 80; 182; 34; 213; 134; 255; 89; 39];
  [151; 47; 12; 92; 111; 154; 235; 14; 56; 191; 131; 25; 243; 165; 252; 220;
   143; 216; 120; 46; 65; 136; 115; 12; 208; 130; 217; 186; 188; 88; 152; 81];
  [0; 30; 87; 123; 15; 67; 144; 24; 43; 74; 228; 61; 50; 155; 58; 168;
   131; 93; 174; 27; 183; 158; 96; 75; 125; 45; 160; 233; 13; 6; 9; 41];
  [170; 110; 112; 169; 30; 188; 84; 238; 252; 229; 255; 213; 182; 117; 218; 243;
   241; 217; 64; 168; 69; 31; 203; 1; 8; 31; 169; 212; 242; 98; 67; 111];
  [215; 112; 56; 191; 103; 230; 49; 117; 41; 64; 35; 18; 81; 215; 254; 133;
   175; 82; 219; 221; 106; 171; 55; 199; 165; 236; 50; 182; 95; 230; 222; 3];
  [210; 39; 161; 122; 126; 12; 249; 109; 206; 221; 159; 199; 188; 228; 60; 108;
   29; 102; 186; 221; 117; 67; 168; 135; 200; 101; 108; 84; 126; 207; 178; 79];
  [112; 232; 165; 33; 149; 21; 131; 229; 63; 192; 88; 92; 112; 126; 206; 218;
   137; 183; 167; 209; 175; 65; 209; 160; 21; 215; 151; 250; 118; 192; 245; 105];
  [228; 133; 169; 104; 85; 232; 114; 252; 80; 144; 21; 14; 44; 210; 78; 16;
   89; 29; 53; 22; 110; 176; 235; 48; 252; 223; 172; 147; 176; 29; 40; 28];
  [228; 161; 159; 235; 223; 42; 134; 137; 110; 65; 242; 206; 220; 242; 174; 88;
   70; 113; 128; 46; 106; 70; 126; 132; 57; 202; 181; 214; 24; 67; 65; 107];
  [233; 39; 131; 136; 71; 128; 106; 67; 189; 108; 96; 136; 227; 159; 101; 184;
   179; 229; 139; 45; 181; 247; 173; 86; 67; 217; 30; 6; 89; 162; 138; 42];
  [11; 211; 168; 24; 232; 63; 156; 210; 255; 79; 98; 1; 26; 81; 1; 118;
   172; 50; 245; 68; 142; 110; 21; 69; 21; 4; 60; 89; 38; 213; 28; 111];
  [206; 65; 52; 69; 224; 55; 144; 73; 143; 231; 45; 142; 1; 145; 94; 127;
   241; 32; 174; 53; 179; 181; 144; 210; 27; 127; 116; 222; 225; 131; 15; 13];
  [96; 14; 111; 147; 231; 61; 122; 189; 78; 224; 166; 92; 177; 177; 154; 163;
   236; 197; 37; 104; 157; 191; 23; 119; 150; 88; 116; 27; 149; 193; 90; 85]].

Definition SHA256Compress : TreeHash :=
  {| combine := SHA256Compress_combine; uncommitted := uint_zero 8; EmptyRoot depth := uint256_of <$> sha256_empty_roots !! depth |}.

(** [librustzcash]: the hash of a node takes the depth and the bytes of both
    children. *)
Class LibRustZcash := {
  librustzcash_merkle_hash : nat → list Z → list Z → list Z;
  librustzcash_tree_uncommitted : list Z;
}.
Definition PedersenHash_combine `{LibRustZcash} (a b : base_uint) (depth : nat) : base_uint :=
  uint256_of (librustzcash_merkle_hash depth ((c_uint 8).(enc) a) ((c_uint 8).(enc) b)).
Definition PedersenHash_EmptyRoot (depth : nat) : option base_uint :=
  if bool_decide (depth < 65)%nat then Some (default (uint_zero 8) (uint256_of <$> pedersen_empty_roots !! depth)) else None.
Definition PedersenHash `{LibRustZcash} : TreeHash :=
  {| combine := PedersenHash_combine; uncommitted := uint256_of librustzcash_tree_uncommitted; EmptyRoot := PedersenHash_EmptyRoot |}.

(** *** The table of the empty roots *)

(** Every entry of the table is the hash of the one before it with itself. *)
Definition table_ok (l : list (list Z)) : bool :=
  forallb (λ '(a, b), bool_decide (SHA256Compress_combine (uint256_of a) (uint256_of a) 0 = uint256_of b)) (zip l (drop 1 l)).
Lemma sha256_table_ok : table_ok sha256_empty_roots = true.
Proof. vm_compute. reflexivity. Qed.


Lemma table_step l d a b : table_ok l = true → l !! d = Some a → l !! S d = Some b →
  uint256_of b = SHA256Compress_combine (uint256_of a) (uint256_of a) d.
Proof.
  intros H Ha Hb. unfold table_ok in H. rewrite forallb_forall in H. assert ((a, b) ∈ zip l (drop 1 l)) as Hin.
  { apply list_elem_of_lookup. exists d. apply lookup_zip_with_Some. exists a, b. split_and!; [done|done|]. by rewrite lookup_drop. }
  apply list_elem_of_In, H in Hin. symmetry. by apply bool_decide_eq_true in Hin.
Qed.
Lemma table_correct {TH : TreeHash} (l : list (list Z)) : (∀ a, l !! O = Some a → uint256_of a = uncommitted) →
  (∀ d a b, l !! d = Some a → l !! S d = Some b → uint256_of b = combine (uint256_of a) (uint256_of a) d) →
  ∀ d b, l !! d = Some b → uint256_of b = tree_root d [].
Proof.
  intros H0 Hs d. induction d as [|d IH]; intros b Hb; [by apply H0|].
  destruct (lookup_lt_is_Some_2 l d) as [a Ha]; [apply lookup_lt_Some in Hb; lia|].
  rewrite (Hs d a b Ha Hb), (IH a Ha). cbn [tree_root]. by rewrite take_nil, drop_nil.
Qed.
(** The table [sha256_empty_roots] has the roots of the empty trees. *)
Lemma sha256_empty_roots_correct d : (d < 66)%nat → SHA256Compress.(EmptyRoot) d = Some (tree_root (TH := SHA256Compress) d []).
Proof.
  intros Hd. destruct (lookup_lt_is_Some_2 sha256_empty_roots d) as [b Hb]; [by change (length sha256_empty_roots) with 66%nat|].
  change (uint256_of <$> sha256_empty_roots !! d = Some (tree_root (TH := SHA256Compress) d [])).
  rewrite Hb. cbn [fmap option_fmap option_map]. f_equal. revert Hb. apply (table_correct (TH := SHA256Compress) sha256_empty_roots).
  - intros a Ha. change (sha256_empty_roots !! O) with (Some (replicate 32 0)) in Ha. injection Ha as <-. reflexivity.
  - intros i a c Ha Hc. exact (table_step _ i a c sha256_table_ok Ha Hc).
Qed.

(** ** Vectors of bits *)

Lemma foldl_lor_acc l a : foldl Z.lor a l = Z.lor a (foldl Z.lor 0 l).
Proof. revert a. induction l as [|x l IH]; intros a; cbn [foldl]; [by rewrite Z.lor_0_r|]. rewrite IH, (IH (Z.lor 0 x)), Z.lor_0_l. symmetry. apply Z.lor_assoc. Qed.
Lemma foldl_lor_double l : foldl Z.lor 0 (Z.mul 2 <$> l) = 2 * foldl Z.lor 0 l.
Proof.
  induction l as [|x l IH]; [done|]. cbn [fmap list_fmap foldl]. rewrite !Z.lor_0_l, !(foldl_lor_acc _ (_ * _)), (foldl_lor_acc _ x), IH.
  rewrite !(Z.mul_comm 2), <- !(Z.shiftl_mul_pow2 _ 1) by done. by rewrite Z.shiftl_lor.
Qed.

(** The vector of the sides, reversed, is the number in binary. *)
Lemma convertVectorToInt_reverse bits : (length bits <= 64)%nat → convertVectorToInt (reverse bits) = Some (Z.of_nat (bits_value bits)).
Proof.
  intros H. unfold convertVectorToInt. rewrite length_reverse, (proj2 (Z.ltb_ge _ _)) by lia. f_equal. clear H.
  induction bits as [|b bits IH]; [done|]. rewrite reverse_cons, imap_app, foldl_app, length_reverse. cbn [length imap foldl].
  assert (imap (λ i b, if b : bool then Z.shiftl 1 (Z.of_nat (S (length bits)) - 1 - Z.of_nat i) else 0) (reverse bits) =
    Z.mul 2 <$> imap (λ i b, if b : bool then Z.shiftl 1 (Z.of_nat (length bits) - 1 - Z.of_nat i) else 0) (reverse bits)) as ->.
  { rewrite fmap_imap. apply imap_ext. intros i x Hx%lookup_lt_Some. rewrite length_reverse in Hx. cbn [compose]. destruct x; [|done].
    rewrite !Z.shiftl_mul_pow2, !Z.mul_1_l, <- Z.pow_succ_r by lia. f_equal. lia. }
  rewrite foldl_lor_double, IH. change (bits_value (b :: bits)) with (Nat.b2n b + 2 * bits_value bits)%nat.
  replace (Z.of_nat (S (length bits)) - 1 - Z.of_nat (length bits + 0)) with 0 by lia.
  replace (if b then Z.shiftl 1 0 else 0) with (Z.b2z b) by by destruct b. pose proof (Z.add_lor_land (2 * Z.of_nat (bits_value bits)) (Z.b2z b)) as E.
  assert (Z.land (2 * Z.of_nat (bits_value bits)) (Z.b2z b) = 0) as E0.
  { destruct b; [|apply Z.land_0_r]. change (Z.b2z true) with (Z.ones 1). rewrite Z.land_ones by lia. rewrite Z.mul_comm. by apply Z.mod_mul. }
  destruct b; cbn [Nat.b2n Z.b2z] in *; lia.
Qed.

(** ** Paths on the wire *)

Lemma byte_bits_back c : 0 <= c < 256 → bits_byte 8 (byte_bits c) = c.
Proof.
  intros Hc. assert (forallb (λ k, bits_byte 8 (byte_bits (Z.of_nat k)) =? Z.of_nat k) (seq 0 256) = true) as H by (vm_compute; reflexivity).
  rewrite forallb_forall in H. specialize (H (Z.to_nat c)). rewrite Z2Nat.id in H by lia. apply Z.eqb_eq, H, in_seq. lia.
Qed.
Lemma path_bytes_back bytes : Forall (λ c, 0 <= c < 256) bytes → path_bytes (convertBytesVectorToVector bytes) = bytes.
Proof.
  intros Hb. unfold path_bytes, convertBytesVectorToVector.
  assert (length (bytes ≫= byte_bits) = 8 * length bytes)%nat as Hlen.
  { clear Hb. induction bytes as [|c bytes IH]; [done|]. cbn [mbind list_bind]. rewrite length_app, IH. cbn [length byte_bits fmap list_fmap seq]. lia. }
  rewrite Hlen. replace ((8 * length bytes + 7) / 8)%nat with (length bytes) by (apply (Nat.div_unique _ 8 _ 7); lia). clear Hlen.
  induction Hb as [|c bytes Hc Hb IH]; [done|]. cbn [mbind list_bind length bits_bytes].
  assert (length (byte_bits c) = 8%nat) as H8 by done. by rewrite <- !H8, take_app_length, drop_app_length, H8, byte_bits_back, IH.
Qed.
Lemma bits_value_bit bits k : Z.testbit (Z.of_nat (bits_value bits)) (Z.of_nat k) = default false (bits !! k).
Proof.
  revert k. induction bits as [|b bits IH]; intros k; [by rewrite Z.bits_0|].
  assert (Z.of_nat (bits_value (b :: bits)) = Z.b2z b + 2 * Z.of_nat (bits_value bits)) as ->.
  { change (bits_value (b :: bits)) with (Nat.b2n b + 2 * bits_value bits)%nat. destruct b; cbn [Nat.b2n Z.b2z]; lia. }
  destruct k as [|k]; [apply Z.add_b2z_double_bit0|]. cbn [lookup list_lookup]. rewrite <- IH, Nat2Z.inj_succ, <- Z.div2_bits by lia. f_equal.
  apply Z.add_b2z_double_div2.
Qed.
Lemma index_bits_back v n : convertVectorToInt v = Some n → index_bit n (length v) <$> seq 0 (length v) = v.
Proof.
  intros H. assert (length v <= 64)%nat as Hlen by (unfold convertVectorToInt in H; destruct (64 <? _) eqn:E; [done|lia]).
  rewrite <- (reverse_involutive v), convertVectorToInt_reverse in H by by rewrite length_reverse. injection H as <-.
  apply list_eq. intros i. rewrite list_lookup_fmap. destruct (decide (i < length v)%nat) as [Hi|Hi].
  - rewrite lookup_seq_lt by done. cbn [fmap option_fmap option_map]. unfold index_bit.
    replace (Z.of_nat (length v) - 1 - Z.of_nat (0 + i)) with (Z.of_nat (length v - 1 - i)) by lia. rewrite bits_value_bit, reverse_lookup by lia.
    replace (length v - S (length v - 1 - i))%nat with i by lia. by destruct (lookup_lt_is_Some_2 v i Hi) as [b ->].
  - rewrite lookup_seq_ge, lookup_ge_None_2 by lia. done.
Qed.

(** A path with elements of whole bytes is read back. *)
Lemma MerklePath_roundtrip hs index bytes rest : Forall (Forall (λ c, 0 <= c < 256)) hs → Forall (λ h, Z.of_nat (length h) <= MAX_SIZE) hs →
  MerklePath_Serialize (mkMerklePath (convertBytesVectorToVector <$> hs) index) = Some bytes →
  MerklePath_Unserialize (bytes ++ rest) = Some (mkMerklePath (convertBytesVectorToVector <$> hs) index, rest).
Proof.
  intros Hb Hs. unfold MerklePath_Serialize, MerklePath_Unserialize. cbn [authentication_path path_index]. rewrite length_fmap.
  destruct (bool_decide (length hs = length index)) eqn:E; [|done]. apply bool_decide_eq_true in E. cbn [negb].
  destruct (convertVectorToInt index) as [n|] eqn:En; [|done]. cbn [mbind option_bind]. intros Hx; apply Some_inj in Hx as <-.
  assert (path_bytes <$> (convertBytesVectorToVector <$> hs) = hs) as ->.
  { rewrite <- list_fmap_compose. transitivity (id <$> hs); [|apply list_fmap_id]. apply list_fmap_ext. intros i h Hh. apply path_bytes_back.
    by eapply Forall_lookup_1 in Hb. }
  assert (length index <= 64)%nat as Hlen by (unfold convertVectorToInt in En; destruct (64 <? _) eqn:E'; [done|lia]).
  rewrite <- app_assoc, (round_trip (c := c_vector c_blob)).
  2:{ split; [|unfold MAX_SIZE; change (Z.of_nat (length hs) <= 0x02000000); lia]. eapply Forall_impl; [exact Hs|]. done. }
  cbn [mbind option_bind]. rewrite (round_trip (c := c_unsigned 8)).
  - cbn [mbind option_bind]. rewrite (proj2 (Z.ltb_ge _ _)) by lia. rewrite E. by rewrite (index_bits_back _ _ En).
  - rewrite <- (reverse_involutive index), convertVectorToInt_reverse in En by by rewrite length_reverse. injection En as <-.
    change (256 ^ Z.of_nat 8) with (2 ^ 64). assert (bits_value (reverse index) < 2 ^ length (reverse index))%nat as H.
    { induction (reverse index) as [|b l IH]; [cbn; lia|]. change (bits_value (b :: l)) with (Nat.b2n b + 2 * bits_value l)%nat. cbn [length Nat.pow].
      destruct b; cbn [Nat.b2n]; lia. }
    rewrite length_reverse in H. apply Nat2Z.inj_lt in H. rewrite Nat2Z.inj_pow in H. change (Z.of_nat 2) with 2 in H.
    assert (2 ^ Z.of_nat (length index) <= 2 ^ 64) by (apply Z.pow_le_mono_r; lia). lia.
Qed.

(** ** The tree and its witnesses *)

Section correct.
Context `{TH : TreeHash} (Depth : nat).
Hypothesis Depth_small : (0 < Depth < 64)%nat.
Hypothesis EmptyRoot_ok : ∀ d, (d < Depth)%nat → EmptyRoot d = Some (tree_root d []).

Lemma represents_last t l : represents t l → last t = list.last l.
Proof.
  intros [_ H]. unfold last. destruct t as [[a|] [b|] ps]; cbn [left right] in *; [| |done|by destruct H as [-> _]].
  all: destruct H as (l1 & -> & _). 2: by rewrite last_snoc. change [a; b] with ([a] ++ [b]). by rewrite app_assoc, last_snoc.
Qed.

(** C7: a tree that starts empty and gets the leaves [m] one by one has the
    root of the full merkle tree over [m], of which the missing leaves are
    uncommitted, although it only keeps the right edge; [append] throws exactly
    when all [2 ^ Depth] leaves are used; the last leaf is the one appended
    last, the tree passes [wfcheck], and [size] counts the leaves, up to
    [2 ^ 31] of them. *)
Theorem append_builds_merkle_tree m :
  match append_all Depth new_tree m with
  | Some t =>
      (length m <= 2 ^ Depth)%nat ∧ Tree_root Depth t = Some (tree_root Depth m) ∧ last t = list.last m ∧ wfcheck Depth t = true ∧
      (Z.of_nat (length m) <= 2 ^ 31 → size t = Z.of_nat (length m))
  | None => (2 ^ Depth < length m)%nat
  end.
Proof.
  pose proof (append_all_spec Depth Depth_small new_tree [] m new_tree_represents ltac:(cbn; lia)) as H.
  destruct (append_all Depth new_tree m) as [t|]; [|exact H]. cbn [app length Nat.add] in H. destruct H as [Hr Hl].
  split; [done|]. split; [|split; [by apply represents_last|split; [by eapply represents_wfcheck|]]].
  2:{ intros H31. apply (size_spec Depth Depth_small); [done|]. rewrite Nat2Z.inj_le, Nat2Z.inj_pow. exact H31. }
  unfold Tree_root. rewrite (root_spec Depth Depth_small EmptyRoot_ok Depth t m [] []) by (done || lia). by rewrite app_nil_r.
Qed.

(** C8: a witness that is taken after the leaf [x] and is told all leaves [m]
    that follow has the root of the tree over all leaves, and its path leads
    from [x] to that root, with the position of [x] as its index; it refuses a
    leaf exactly when the tree is full. *)
Theorem witness_authenticates t l x m : represents t (l ++ [x]) → (length (l ++ [x]) <= 2 ^ Depth)%nat →
  match Witness_append_all Depth (witness t) m with
  | Some w =>
      let r := tree_root Depth (l ++ [x] ++ m) in
      element w = Some x ∧ Witness_root Depth w = Some r ∧
      ∃ steps, Witness_path Depth w = Some (mkMerklePath (reverse ((λ b, convertBytesVectorToVector ((c_uint 8).(enc) b)) <$> steps.*2)) (reverse steps.*1)) ∧
        climb 0 x steps = r ∧ length steps = Depth ∧ convertVectorToInt (reverse steps.*1) = Some (Z.of_nat (length l))
  | None => (2 ^ Depth < length (l ++ [x]) + length m)%nat
  end.
Proof.
  intros Hr Hl. pose proof (Witness_append_all_spec Depth Depth_small EmptyRoot_ok (witness t) _ [] m (witness_follows Depth t _ Hr Hl)) as H.
  destruct (Witness_append_all Depth (witness t) m) as [w|]; [|cbn [length] in H; lia]. destruct H as [Hw Et]. cbn [app w_tree witness] in *.
  destruct (partial_path_spec Depth Depth_small EmptyRoot_ok w _ _ Hw) as (uncles & Ep & Hf). rewrite Et in Hf.
  split; [unfold element; rewrite Et, (represents_last _ _ Hr); apply last_snoc|].
  unfold Witness_root, Witness_path. rewrite Ep. cbn [mbind option_bind]. rewrite Et.
  rewrite (root_spec Depth Depth_small EmptyRoot_ok Depth t _ uncles m ltac:(lia) Hr Hl Hf), <- app_assoc. split; [done|].
  destruct (path_steps_spec Depth Depth_small EmptyRoot_ok t l x uncles m Hr Hl Hf) as (steps & Es & Hc & Hn & Hb). exists steps.
  unfold path. rewrite Es, <- app_assoc in *. split_and!; [done|exact Hc|done|]. rewrite convertVectorToInt_reverse by (rewrite length_fmap; lia). by rewrite Hb.
Qed.
End correct.

(** Three leaves, of which the third is followed through two more. *)
Definition some_leaf (k : Z) : base_uint := k :: replicate 7 0.
Definition three_leaves : option IncrementalMerkleTree := append_all (TH := SHA256Compress) 4 new_tree (some_leaf <$> [1; 2; 3]).

Lemma append_builds_merkle_tree_witness : ∃ t, three_leaves = Some t ∧ size t = 3.
Proof.
  assert (EmptyRoot_table : ∀ d, (d < 4)%nat → EmptyRoot (TreeHash := SHA256Compress) d = Some (tree_root (TH := SHA256Compress) d []))
    by (intros d Hd; apply sha256_empty_roots_correct; lia).
  pose proof (append_builds_merkle_tree (TH := SHA256Compress) 4 ltac:(lia) EmptyRoot_table (some_leaf <$> [1; 2; 3])) as H. fold three_leaves in H.
  assert (is_Some three_leaves) as [t Ht] by (by eexists; vm_compute). rewrite Ht in H. exists t. split; [exact Ht|].
  destruct H as (_ & _ & _ & _ & H). apply H. done.
Defined.
Lemma three_leaves_represented `{TH : TreeHash} a b c : represents (mkTree (Some c) None [Some (combine a b 0)]) ([a; b] ++ [c]).
Proof. split; [done|]. exists [a; b]. split; [done|]. by exists [], [a; b]. Qed.
Definition witnessed_tree : IncrementalMerkleTree :=
  mkTree (Some (some_leaf 3)) None [Some (combine (TreeHash := SHA256Compress) (some_leaf 1) (some_leaf 2) 0)].
Lemma witness_authenticates_witness : ∃ w, Witness_append_all (TH := SHA256Compress) 4 (witness witnessed_tree) (some_leaf <$> [4; 5]) = Some w ∧
  Witness_root (TH := SHA256Compress) 4 w = Some (tree_root (TH := SHA256Compress) 4 (some_leaf <$> [1; 2; 3; 4; 5])).
Proof.
  assert (EmptyRoot_table : ∀ d, (d < 4)%nat → EmptyRoot (TreeHash := SHA256Compress) d = Some (tree_root (TH := SHA256Compress) d []))
    by (intros d Hd; apply sha256_empty_roots_correct; lia).
  pose proof (witness_authenticates (TH := SHA256Compress) 4 ltac:(lia) EmptyRoot_table witnessed_tree [some_leaf 1; some_leaf 2] (some_leaf 3)
    (some_leaf <$> [4; 5]) (three_leaves_represented (TH := SHA256Compress) _ _ _) ltac:(cbn; lia)) as H.
  assert (is_Some (Witness_append_all (TH := SHA256Compress) 4 (witness witnessed_tree) (some_leaf <$> [4; 5]))) as [w Hw] by (by eexists; vm_compute).
  rewrite Hw in H. exists w. split; [exact Hw|]. destruct H as (_ & H & _). exact H.
Defined.

(** The literal [1] of [size] is too narrow: at [2 ^ 31] leaves the tree has a
    parent for which [1 << 31] is negative. *)
Example size_of_huge_tree : size (mkTree (Some (some_leaf 1)) None (replicate 30 None ++ [Some (some_leaf 1)])) = 2 ^ 64 - 2 ^ 31 + 1.
Proof. reflexivity. Qed.
End libzcash.
