(* ===== verification/CheckQueue.v ===== *)
(** * CheckQueue: script checks on several threads ([checkqueue.h])

    [CCheckQueue] distributes checks over worker threads; the thread that adds
    them joins the workers in [Wait] until all are done.  The fields are
    protected by one mutex, so a critical section is one step of the system;
    between two of them a thread runs the checks of its batch one by one.  The
    steps of the threads interleave in any order.

    [Wait] returns whether all checks that were added since the last [Wait]
    hold, in every interleaving, and it does return ([Wait_returns_conjunction]). *)

From S2P Require Import Prelude.
Local Open Scope Z_scope.

Section checkqueue.
Context {T : Type} (check : T → bool).

Record CCheckQueue := mkQueue {
  queue : list T;
  nIdle : Z;
  nTotal : Z;
  fAllOk : bool;
  nTodo : Z;
  fQuit : bool;
  nBatchSize : Z;
}.
Definition new_queue (nBatchSizeIn : Z) : CCheckQueue := mkQueue [] 0 0 true 0 false nBatchSizeIn.
Definition IsIdle (q : CCheckQueue) : bool := (q.(nTotal) =? q.(nIdle)) && (q.(nTodo) =? 0) && q.(fAllOk).

(** Where a thread is in [Loop]: not in it, before its first critical section,
    in [cond.wait], notified, or outside of the lock with the rest of its batch,
    the size of the batch and its local result. *)
Inductive thread :=
  | Outside
  | Entering
  | Waiting
  | Woken
  | Working (vChecks : list T) (nNow : Z) (fOk : bool)
  | Returned (fRet : bool).

(** The clean-up of the previous round, with whether the master is notified. *)
Definition clean_up (fMaster : bool) (th : thread) (q : CCheckQueue) : CCheckQueue * bool :=
  match th with
  | Working _ nNow fOk =>
      let nTodo := u32 (q.(nTodo) - nNow) in
      (mkQueue q.(queue) q.(nIdle) q.(nTotal) (q.(fAllOk) && fOk) nTodo q.(fQuit) q.(nBatchSize), (nTodo =? 0) && negb fMaster)
  | Entering => (mkQueue q.(queue) q.(nIdle) (i32 (q.(nTotal) + 1)) q.(fAllOk) q.(nTodo) q.(fQuit) q.(nBatchSize), false)
  | Woken => (mkQueue q.(queue) (i32 (q.(nIdle) - 1)) q.(nTotal) q.(fAllOk) q.(nTodo) q.(fQuit) q.(nBatchSize), false)
  | _ => (q, false)
  end.
(** The size of the next batch. *)
Definition batch_size (q : CCheckQueue) : Z :=
  Z.max 1 (Z.min q.(nBatchSize) (Z.of_nat (length q.(queue)) / u32 (q.(nTotal) + q.(nIdle) + 1))).
(** The rest of the critical section: return, wait or take a batch from the
    back of the queue. *)
Definition take_work (fMaster : bool) (q : CCheckQueue) : CCheckQueue * thread :=
  match q.(queue) with
  | [] =>
      if (fMaster || q.(fQuit)) && (q.(nTodo) =? 0) then
        (mkQueue [] q.(nIdle) (i32 (q.(nTotal) - 1)) (fMaster || q.(fAllOk)) q.(nTodo) q.(fQuit) q.(nBatchSize), Returned q.(fAllOk))
      else (mkQueue [] (i32 (q.(nIdle) + 1)) q.(nTotal) q.(fAllOk) q.(nTodo) q.(fQuit) q.(nBatchSize), Waiting)
  | _ =>
      let nNow := batch_size q in
      let rest := (length q.(queue) - Z.to_nat nNow)%nat in
      (mkQueue (take rest q.(queue)) q.(nIdle) q.(nTotal) q.(fAllOk) q.(nTodo) q.(fQuit) q.(nBatchSize),
       Working (reverse (drop rest q.(queue))) nNow q.(fAllOk))
  end.
Definition critical (fMaster : bool) (th : thread) (q : CCheckQueue) : CCheckQueue * thread * bool :=
  let '(q, notify) := clean_up fMaster th q in
  let '(q, th) := take_work fMaster q in
  (q, th, notify).
(** The loop over the batch runs a check only if all before it held. *)
Definition run_check (c : T) (fOk : bool) : bool := if fOk then check c else fOk.

Definition wake (th : thread) : thread := match th with Waiting => Woken | _ => th end.
Definition Add (vChecks : list T) (q : CCheckQueue) : CCheckQueue :=
  mkQueue (q.(queue) ++ vChecks) q.(nIdle) q.(nTotal) q.(fAllOk) (u32 (q.(nTodo) + Z.of_nat (length vChecks))) q.(fQuit) q.(nBatchSize).

(** ** The system *)

(** The queue, its threads, of which the first one is the master, and the checks
    that were added since the last [Wait]. *)
Record System := mkSystem { sys_q : CCheckQueue; threads : list thread; added : list T }.

(** The threads that want the mutex. *)
Definition at_lock (th : thread) : bool := match th with Entering | Woken | Working [] _ _ => true | _ => false end.
Definition is_master (i : nat) : bool := bool_decide (i = O).

(** [notify_one] and [notify_all] for the workers. *)
Inductive notified (k : nat) : list thread → list thread → Prop :=
  | notify_none ths : (k = 0 ∨ (k = 1 ∧ Waiting ∉ drop 1 ths))%nat → notified k ths ths
  | notify_one ths i : k = 1%nat → i ≠ O → ths !! i = Some Waiting → notified k ths (<[i := Woken]> ths)
  | notify_all m ths : (1 < k)%nat → notified k (m :: ths) (m :: (wake <$> ths)).

Inductive step : System → System → Prop :=
  | step_lock q ths l i th q' th' notify : ths !! i = Some th → at_lock th = true → critical (is_master i) th q = (q', th', notify) →
      step (mkSystem q ths l) (mkSystem q' (let ths' := <[i := th']> ths in if notify then alter wake O ths' else ths') l)
  | step_check q ths l i c cs nNow fOk : ths !! i = Some (Working (c :: cs) nNow fOk) →
      step (mkSystem q ths l) (mkSystem q (<[i := Working cs nNow (run_check c fOk)]> ths) l)
  | step_add q ths l vChecks ths' : ths !! O = Some Outside → notified (length vChecks) ths ths' →
      Z.of_nat (length (l ++ vChecks)) < 2 ^ 32 → step (mkSystem q ths l) (mkSystem (Add vChecks q) ths' (l ++ vChecks))
  | step_wait q ths l : ths !! O = Some Outside → step (mkSystem q ths l) (mkSystem q (<[O := Entering]> ths) l)
  | step_return q ths l r : ths !! O = Some (Returned r) → step (mkSystem q ths l) (mkSystem q (<[O := Outside]> ths) []).
(** A thread may also wake up without a notification. *)
Inductive step_spurious : System → System → Prop :=
  | spurious_step s s' : step s s' → step_spurious s s'
  | spurious_wake q ths l i : ths !! i = Some Waiting → step_spurious (mkSystem q ths l) (mkSystem q (<[i := Woken]> ths) l).

(** The queue is created, and [n] worker threads call [Thread]. *)
Definition initial (nBatchSizeIn : Z) (n : nat) : System := mkSystem (new_queue nBatchSizeIn) (Outside :: replicate n Entering) [].

(** [CCheckQueueControl]: with no queue all checks were run at once. *)
Definition Control_Add (pqueue : option CCheckQueue) (vChecks : list T) : option CCheckQueue := Add vChecks <$> pqueue.

(** ** The invariant *)

Definition in_loop (th : thread) : Z := match th with Waiting | Woken | Working _ _ _ => 1 | _ => 0 end.
Definition idle (th : thread) : Z := match th with Waiting | Woken => 1 | _ => 0 end.
Definition in_flight (th : thread) : Z := match th with Working _ nNow _ => nNow | _ => 0 end.
Definition total (f : thread → Z) (ths : list thread) : Z := foldr (λ th a, f th + a) 0 ths.

Lemma total_cons f t ths : total f (t :: ths) = f t + total f ths.
Proof. done. Qed.
Lemma total_insert f ths i x y : ths !! i = Some x → total f (<[i := y]> ths) = total f ths - f x + f y.
Proof.
  revert i. induction ths as [|t ths IH]; intros [|i] H; [done|done| |]; cbn [insert list_insert lookup list_lookup] in *; rewrite !total_cons.
  - injection H as ->. lia.
  - rewrite IH by done. lia.
Qed.
Lemma total_nonneg f ths : (∀ th, th ∈ ths → 0 <= f th) → 0 <= total f ths.
Proof. induction ths as [|t ths IH]; intros H; [done|]. rewrite total_cons. specialize (IH ltac:(set_solver)). specialize (H t ltac:(set_solver)). lia. Qed.
Lemma total_ge f ths i x : (∀ th, th ∈ ths → 0 <= f th) → ths !! i = Some x → f x <= total f ths.
Proof.
  revert i. induction ths as [|t ths IH]; intros [|i] H Hi; [done|done| |]; cbn [lookup list_lookup] in *; rewrite total_cons.
  - injection Hi as ->. pose proof (total_nonneg f ths ltac:(set_solver)). lia.
  - specialize (IH i ltac:(set_solver) Hi). specialize (H t ltac:(set_solver)). lia.
Qed.
Lemma total_pos f ths : 0 < total f ths → ∃ i th, ths !! i = Some th ∧ 0 < f th.
Proof.
  induction ths as [|t ths IH]; [done|]. rewrite total_cons. intros H. destruct (decide (0 < f t)) as [Ht|Ht]; [by exists O, t|].
  destruct IH as (i & th & Hi & Hf); [lia|]. by exists (S i), th.
Qed.

(** A check that a thread has not come to, and a failure that is known. *)
Definition pending (ths : list thread) (c : T) : Prop := ∃ i cs nNow fOk, ths !! i = Some (Working cs nNow fOk) ∧ c ∈ cs.
Definition failed (q : CCheckQueue) (ths : list thread) : Prop := q.(fAllOk) = false ∨ ∃ i cs nNow, ths !! i = Some (Working cs nNow false).

Record queue_inv (s : System) : Prop := {
  qi_quit : s.(sys_q).(fQuit) = false;
  qi_small : Z.of_nat (length s.(threads)) < 2 ^ 30;
  qi_total : s.(sys_q).(nTotal) = total in_loop s.(threads);
  qi_idle : s.(sys_q).(nIdle) = total idle s.(threads);
  qi_todo : s.(sys_q).(nTodo) = Z.of_nat (length s.(sys_q).(queue)) + total in_flight s.(threads);
  qi_bound : s.(sys_q).(nTodo) <= Z.of_nat (length s.(added)) < 2 ^ 32;
  qi_batch i cs nNow fOk : s.(threads) !! i = Some (Working cs nNow fOk) → 0 <= nNow ∧ (nNow = 0 → cs = [] ∧ fOk = true);
  qi_added c : c ∈ s.(sys_q).(queue) ∨ pending s.(threads) c → c ∈ s.(added);
  qi_done : (∀ r, s.(threads) !! O ≠ Some (Returned r)) → ∀ c, c ∈ s.(added) →
    c ∈ s.(sys_q).(queue) ∨ pending s.(threads) c ∨ check c = true ∨ failed s.(sys_q) s.(threads);
  qi_failed : failed s.(sys_q) s.(threads) → ∃ c, c ∈ s.(added) ∧ check c = false;
  qi_returned r : s.(threads) !! O = Some (Returned r) →
    s.(sys_q).(queue) = [] ∧ s.(sys_q).(nTodo) = 0 ∧ s.(sys_q).(fAllOk) = true ∧ r = forallb check s.(added);
}.
(** A master that waits will be notified. *)
Definition master_notified (s : System) : Prop := s.(threads) !! O = Some Waiting → s.(sys_q).(queue) = [] ∧ 0 < s.(sys_q).(nTodo).

(** *** Replacing a thread *)

Lemma insert_cases (ths : list thread) i y j z : <[i := y]> ths !! j = Some z → (j = i ∧ z = y) ∨ (j ≠ i ∧ ths !! j = Some z).
Proof. intros H. apply list_lookup_insert_Some in H as [(-> & -> & _)|[? ?]]; [by left|right; done]. Qed.
Lemma insert_here (ths : list thread) i x y : ths !! i = Some x → <[i := y]> ths !! i = Some y.
Proof. intros H. apply list_lookup_insert_eq. by eapply lookup_lt_Some. Qed.

Lemma pending_insert ths i x y c : ths !! i = Some x → (∀ cs nNow fOk, y = Working cs nNow fOk → c ∉ cs) → pending (<[i := y]> ths) c → pending ths c.
Proof.
  intros Hx Hy (j & cs & nNow & fOk & Hj & Hc). apply insert_cases in Hj as [[-> <-]|[_ Hj]]; [by destruct (Hy cs nNow fOk)|]. by exists j, cs, nNow, fOk.
Qed.
Lemma pending_insert_2 ths i x y c : ths !! i = Some x → (∀ cs nNow fOk, x = Working cs nNow fOk → c ∉ cs) → pending ths c → pending (<[i := y]> ths) c.
Proof.
  intros Hx Hn (j & cs & nNow & fOk & Hj & Hc). destruct (decide (j = i)) as [->|Hji]; [rewrite Hx in Hj; injection Hj as ->; by destruct (Hn cs nNow fOk)|].
  exists j, cs, nNow, fOk. by rewrite list_lookup_insert_ne.
Qed.
Lemma failed_insert q ths i y : (∀ cs nNow, y ≠ Working cs nNow false) → failed q (<[i := y]> ths) → failed q ths.
Proof.
  intros Hy [H|(j & cs & nNow & Hj)]; [by left|right]. apply insert_cases in Hj as [[-> <-]|[_ Hj]]; [by destruct (Hy cs nNow)|]. by exists j, cs, nNow.
Qed.
Lemma failed_insert_2 q ths i x y : ths !! i = Some x → (∀ cs nNow, x ≠ Working cs nNow false) → failed q ths → failed q (<[i := y]> ths).
Proof.
  intros Hx Hn [H|(j & cs & nNow & Hj)]; [by left|right]. destruct (decide (j = i)) as [->|Hji]; [rewrite Hx in Hj; injection Hj as ->; by destruct (Hn cs nNow)|].
  exists j, cs, nNow. by rewrite list_lookup_insert_ne.
Qed.

(** *** Waking threads up *)

Definition wakes (ths ths' : list thread) : Prop := Forall2 (λ a b, b = a ∨ (a = Waiting ∧ b = Woken)) ths ths'.
Lemma wakes_refl ths : wakes ths ths.
Proof. induction ths; constructor; auto. Qed.
Lemma wakes_insert ths i : ths !! i = Some Waiting → wakes ths (<[i := Woken]> ths).
Proof.
  revert i. induction ths as [|t ths IH]; intros [|i] H; [done|done| |]; cbn [insert list_insert lookup list_lookup] in *; constructor.
  - injection H as ->. by right.
  - apply wakes_refl.
  - by left.
  - by apply IH.
Qed.
Lemma wakes_alter ths i : wakes ths (alter wake i ths).
Proof.
  revert i. induction ths as [|t ths IH]; intros [|i]; cbn [alter list_alter]; constructor; [by destruct t; auto|apply wakes_refl|by left|apply IH].
Qed.
Lemma notified_wakes k ths ths' : notified k ths ths' → wakes ths ths'.
Proof.
  destruct 1; auto using wakes_refl, wakes_insert. constructor; [by left|]. induction ths as [|t ths IH]; constructor; [|done]. destruct t; auto.
Qed.
Lemma wakes_lookup ths ths' i y : wakes ths ths' → y ≠ Waiting → y ≠ Woken → ths !! i = Some y ↔ ths' !! i = Some y.
Proof.
  intros H H1 H2. revert i. induction H as [|a b ths ths' Hab H IH]; intros i; [done|]. destruct i; cbn; [|apply IH].
  destruct Hab as [-> |[-> ->]]; [done|]. split; intros [= <-]; done.
Qed.
Lemma wakes_to ths ths' i y : wakes ths ths' → y ≠ Waiting → y ≠ Woken → ths !! i = Some y → ths' !! i = Some y.
Proof. intros H H1 H2. by apply (wakes_lookup ths ths'). Qed.
Lemma wakes_from ths ths' i y : wakes ths ths' → y ≠ Waiting → y ≠ Woken → ths' !! i = Some y → ths !! i = Some y.
Proof. intros H H1 H2. by apply (wakes_lookup ths ths'). Qed.
Lemma wakes_total f ths ths' : wakes ths ths' → f Waiting = f Woken → total f ths' = total f ths.
Proof. intros H E. induction H as [|a b ths ths' Hab H IH]; [done|]. rewrite !total_cons, IH. destruct Hab as [-> |[-> ->]]; lia. Qed.
Lemma wakes_pending ths ths' c : wakes ths ths' → pending ths c ↔ pending ths' c.
Proof. intros H. split; intros (i & cs & nNow & fOk & Hi & Hc); exists i, cs, nNow, fOk; (split; [|done]); [by eapply wakes_to|by eapply wakes_from]. Qed.
Lemma wakes_failed q ths ths' : wakes ths ths' → failed q ths ↔ failed q ths'.
Proof. intros H. split; (intros [?|(i & cs & nNow & Hi)]; [by left|right]); exists i, cs, nNow; [by eapply wakes_to|by eapply wakes_from]. Qed.

Lemma wakes_inv q ths ths' l : wakes ths ths' → queue_inv (mkSystem q ths l) → queue_inv (mkSystem q ths' l).
Proof.
  intros Hw [H1 H2 H3 H4 H5 H6 H7 H8 H9 H10 H11]. cbn [sys_q threads added] in *.
  split; cbn [sys_q threads added]; try done; try (rewrite (wakes_total _ _ _ Hw) by done; done).
  - by rewrite <- (Forall2_length _ _ _ Hw).
  - intros i cs nNow fOk Hi. apply (H7 i). by eapply wakes_from.
  - intros c. rewrite <- (wakes_pending _ _ c Hw). apply H8.
  - intros Hr c Hc. rewrite <- (wakes_pending _ _ c Hw), <- (wakes_failed q _ _ Hw). apply H9; [|done]. intros r Hx. apply (Hr r). by eapply wakes_to.
  - by rewrite <- (wakes_failed q _ _ Hw).
  - intros r Hr. apply H11. by eapply wakes_from.
Qed.
Lemma wakes_notified q ths ths' l : wakes ths ths' → master_notified (mkSystem q ths l) → master_notified (mkSystem q ths' l).
Proof.
  intros Hw H Hm. apply H. cbn [threads] in *. destruct Hw as [|a b ths ths' Hab Hw]; [done|]. injection Hm as ->. by destruct Hab as [<- |[_ ?]].
Qed.

(** *** The critical section *)

(** The thread that holds the mutex, after the clean-up. *)
Definition holding : thread := Working [] 0 true.

Lemma in_flight_nonneg s th : queue_inv s → th ∈ s.(threads) → 0 <= in_flight th.
Proof. intros H [i Hi]%list_elem_of_lookup. destruct th; cbn; try lia. by eapply qi_batch in Hi as [? _]. Qed.
Lemma in_loop_small s : queue_inv s → 0 <= total in_loop s.(threads) < 2 ^ 30 ∧ 0 <= total idle s.(threads) < 2 ^ 30.
Proof.
  intros H. pose proof (qi_small _ H) as Hs. assert (∀ f ths, (∀ th, 0 <= f th <= 1) → 0 <= total f ths <= Z.of_nat (length ths)) as Ht.
  { intros f ths Hf. induction ths as [|t ths IH]; [done|]. rewrite total_cons. specialize (Hf t). cbn [length]. lia. }
  pose proof (Ht in_loop s.(threads) ltac:(intros []; cbn; lia)). pose proof (Ht idle s.(threads) ltac:(intros []; cbn; lia)). lia.
Qed.
Lemma todo_range s : queue_inv s → 0 <= s.(sys_q).(nTodo) < 2 ^ 32.
Proof.
  intros H. pose proof (qi_bound _ H). pose proof (qi_todo _ H). pose proof (total_nonneg in_flight s.(threads) ltac:(intros th; by apply in_flight_nonneg)). lia.
Qed.

Lemma clean_up_inv q ths l i th m q' notify : queue_inv (mkSystem q ths l) → ths !! i = Some th → at_lock th = true → clean_up m th q = (q', notify) →
  queue_inv (mkSystem q' (<[i := holding]> ths) l).
Proof.
  intros H Hi Hl Hc. pose proof (in_loop_small _ H) as [Hn1 Hn2]. pose proof (todo_range _ H) as Hn3.
  assert (in_flight th <= total in_flight ths) as Hge by (eapply total_ge; [intros t; by apply (in_flight_nonneg (mkSystem q ths l))|done]).
  assert (0 <= in_flight th) as Hge0 by (apply (in_flight_nonneg (mkSystem q ths l)); [done|by eapply list_elem_of_lookup_2]).
  assert (0 <= total idle ths - idle th) as Hgi.
  { assert (idle th <= total idle ths) by (eapply total_ge; [intros []; cbn; lia|done]). lia. }
  destruct H as [H1 H2 H3 H4 H5 H6 H7 H8 H9 H10 H11]. cbn [sys_q threads added] in *.
  assert (pend_to : ∀ c, pending (<[i := holding]> ths) c → pending ths c) by (intros c; eapply pending_insert; [done|]; intros cs nNow fOk [= <- _ _]; apply not_elem_of_nil).
  assert (pend_from : ∀ c, pending ths c → pending (<[i := holding]> ths) c).
  { intros c. eapply pending_insert_2; [done|]. intros cs nNow fOk ->. destruct cs; [apply not_elem_of_nil|done]. }
  assert (q'.(queue) = q.(queue) ∧ q'.(fQuit) = q.(fQuit) ∧ q'.(nTotal) = total in_loop (<[i := holding]> ths) ∧
    q'.(nIdle) = total idle (<[i := holding]> ths) ∧ q'.(nTodo) = q.(nTodo) - in_flight th ∧
    (failed q' (<[i := holding]> ths) ↔ failed q ths) ∧ (q'.(fAllOk) = q.(fAllOk) ∨ in_flight th ≠ 0)) as (E1 & E2 & E3 & E4 & E5 & E6 & E7).
  { rewrite !(total_insert _ ths i th) by done. destruct th as [| | | |cs nNow fOk|]; try done; cbn [clean_up] in Hc; injection Hc as <- _;
      cbn [queue fQuit nTotal nIdle nTodo fAllOk in_loop idle in_flight holding at_lock] in *.
    - rewrite i32_id by (unfold is_i32; lia). split_and!; try lia; try done. unfold failed. cbn [fAllOk]. split.
      + by apply failed_insert.
      + by eapply failed_insert_2.
    - rewrite i32_id by (unfold is_i32; lia). split_and!; try lia; try done. unfold failed. cbn [fAllOk]. split.
      + by apply failed_insert.
      + by eapply failed_insert_2.
    - destruct cs; [|done]. rewrite u32_id by (unfold is_u32; lia). split_and!; try lia; try done.
      + unfold failed. cbn [fAllOk]. destruct fOk; rewrite ?andb_true_r, ?andb_false_r.
        * split; [by apply failed_insert|by eapply failed_insert_2].
        * split; [intros _; right; by exists i, [], nNow|by left].
      + destruct (H7 i [] nNow fOk Hi) as [_ Hz]. destruct (decide (nNow = 0)) as [->|]; [|by right]. destruct (Hz eq_refl) as [_ ->]. left. by rewrite andb_true_r. }
  split; cbn [sys_q threads added]; try congruence.
  - by rewrite length_insert.
  - rewrite E5, E1, H5, (total_insert _ ths i th) by done. cbn [in_flight holding]. lia.
  - lia.
  - intros j cs nNow fOk [[_ E]|[_ Hj]]%insert_cases; [injection E as -> -> ->; done|]. by apply (H7 j).
  - intros c. rewrite E1. intros [?|?]; apply H8; auto.
  - intros Hr c Hc'. rewrite E1, E6. destruct (H9) with (c := c) as [?|[?|[?|?]]]; auto. intros r Hx. apply (Hr r).
    rewrite list_lookup_insert_ne; [done|]. intros ->. rewrite Hi in Hx. by injection Hx as ->.
  - by rewrite E6.
  - intros r Hr. apply insert_cases in Hr as [[_ ?]|[_ Hr]]; [done|]. destruct (H11 r Hr) as (F1 & F2 & F3 & F4). rewrite E1.
    assert (in_flight th = 0) as Ez by lia. split_and!; [done|lia|destruct E7 as [-> |?]; done|done].
Qed.

Lemma batch_size_range q : q.(queue) ≠ [] → 1 <= batch_size q <= Z.of_nat (length q.(queue)).
Proof.
  intros Hn. assert (1 <= Z.of_nat (length q.(queue))) by (destruct q.(queue); [done|cbn; lia]). unfold batch_size.
  assert (Z.of_nat (length q.(queue)) / u32 (q.(nTotal) + q.(nIdle) + 1) <= Z.of_nat (length q.(queue))).
  { pose proof (u32_range (q.(nTotal) + q.(nIdle) + 1)) as Hu. unfold is_u32 in Hu. destruct (decide (u32 (nTotal q + nIdle q + 1) = 0)) as [->|].
    - rewrite Zdiv_0_r. lia.
    - apply Z.div_le_upper_bound; nia. }
  lia.
Qed.
(** The division is never by zero. *)
Lemma batch_divisor s : queue_inv s → 0 < u32 (s.(sys_q).(nTotal) + s.(sys_q).(nIdle) + 1).
Proof.
  intros H. destruct (in_loop_small _ H). rewrite (qi_total _ H), (qi_idle _ H), u32_id by (unfold is_u32; lia). lia.
Qed.

(** Nothing is in flight once [nTodo] is zero. *)
Lemma nothing_left s : queue_inv s → s.(sys_q).(nTodo) = 0 → s.(sys_q).(queue) = [] ∧ (∀ c, ¬ pending s.(threads) c) ∧
  (failed s.(sys_q) s.(threads) → s.(sys_q).(fAllOk) = false).
Proof.
  intros H Hz. pose proof (qi_todo _ H) as Ht. pose proof (total_nonneg in_flight s.(threads) ltac:(intros th; by apply in_flight_nonneg)) as Hn.
  assert (∀ i cs nNow fOk, s.(threads) !! i = Some (Working cs nNow fOk) → cs = [] ∧ fOk = true) as Hw.
  { intros i cs nNow fOk Hi. apply (qi_batch _ H) in Hi as Hb. destruct Hb as [Hb0 Hb]. apply Hb.
    assert (in_flight (Working cs nNow fOk) <= total in_flight (threads s)) by (eapply total_ge; [intros th; by apply in_flight_nonneg|done]). cbn in *. lia. }
  split_and!.
  - destruct (queue (sys_q s)); [done|]. cbn [length] in Ht. lia.
  - intros c (i & cs & nNow & fOk & Hi & Hc). apply Hw in Hi as [-> _]. by apply not_elem_of_nil in Hc.
  - intros [?|(i & cs & nNow & Hi)]; [done|]. by apply Hw in Hi as [_ ?].
Qed.

Lemma all_checks_hold s : queue_inv s → s.(sys_q).(nTodo) = 0 → (∀ r, s.(threads) !! O ≠ Some (Returned r)) → s.(sys_q).(fAllOk) = forallb check s.(added).
Proof.
  intros H Hz Hr. destruct (nothing_left _ H Hz) as (Hq & Hp & Hf). destruct (fAllOk (sys_q s)) eqn:Ef; symmetry.
  - apply forallb_forall. intros c Hc%list_elem_of_In. destruct (qi_done _ H Hr c Hc) as [Hx|[Hx|[Hx|Hx]]]; [|by destruct (Hp c)|done|by apply Hf in Hx].
    rewrite Hq in Hx. by apply not_elem_of_nil in Hx.
  - destruct (qi_failed _ H) as (c & Hc & Hx); [by left|]. apply not_true_iff_false. rewrite forallb_forall. intros Hall.
    rewrite (Hall c) in Hx; [done|]. by apply list_elem_of_In.
Qed.

Lemma take_work_inv q ths l i q' th' : queue_inv (mkSystem q ths l) → ths !! i = Some holding → take_work (is_master i) q = (q', th') →
  queue_inv (mkSystem q' (<[i := th']> ths) l).
Proof.
  intros H Hi Ht. pose proof (in_loop_small _ H) as [Hn1 Hn2]. pose proof (todo_range _ H) as Hn3. pose proof (all_checks_hold _ H) as Hall.
  pose proof (total_ge in_loop ths i holding ltac:(intros []; cbn; lia) Hi) as Hge.
  destruct H as [H1 H2 H3 H4 H5 H6 H7 H8 H9 H10 H11]. cbn [sys_q threads added in_loop idle in_flight holding] in *.
  assert (∀ c, pending ths c → pending (<[i := th']> ths) c) as pend_from.
  { intros c. eapply pending_insert_2; [done|]. intros cs nNow fOk [= <- _ _]. apply not_elem_of_nil. }
  assert (∀ q, failed q ths → failed q (<[i := th']> ths)) as fail_from by (intros q0; eapply failed_insert_2; [exact Hi|done]).
  assert (∀ r, i = O → ths !! O ≠ Some (Returned r)) as Hnr by (intros r -> E; rewrite Hi in E; done).
  unfold take_work in Ht. destruct (queue q) as [|c0 cq] eqn:Eq.
  - cbn [length] in H5. rewrite H1, orb_false_r in Ht. destruct (is_master i && (nTodo q =? 0)) eqn:Em; injection Ht as <- <-.
    + apply andb_true_iff in Em as [->%bool_decide_eq_true Hz%Z.eqb_eq]. specialize (Hall Hz (λ r, Hnr r eq_refl)).
      split; cbn [sys_q threads added queue nIdle nTotal fAllOk nTodo fQuit]; rewrite ?(total_insert _ ths 0 holding) by done; cbn [in_loop idle in_flight holding length]; try done; try lia.
      * by rewrite length_insert.
      * rewrite i32_id by (unfold is_i32; lia). lia.
      * intros j cs nNow fOk [[_ E]|[_ Hj]]%insert_cases; [done|]. by apply (H7 j).
      * intros c [?|?]; [by apply H8; left|]. apply H8. right. by eapply pending_insert; [exact Hi| |done].
      * intros Hr. destruct (Hr (fAllOk q)). by eapply insert_here.
      * intros [Hx|Hx]; [done|]. destruct (failed_insert q ths 0 (Returned (fAllOk q))) as [Hy|Hy]; [done|by right| |].
        { apply H10. by left. } { apply H10. by right. }
      * intros r Hr. rewrite (insert_here ths 0 holding) in Hr by done. injection Hr as <-. done.
    + split; cbn [sys_q threads added queue nIdle nTotal fAllOk nTodo fQuit]; rewrite ?(total_insert _ ths i holding) by done; cbn [in_loop idle in_flight holding length]; try done; try lia.
      * by rewrite length_insert.
      * rewrite i32_id by (unfold is_i32; lia). lia.
      * intros j cs nNow fOk [[_ E]|[_ Hj]]%insert_cases; [done|]. by apply (H7 j).
      * intros c [?|?]; [by apply H8; left|]. apply H8. right. by eapply pending_insert; [exact Hi| |done].
      * intros Hr c Hc. destruct (H9) with (c := c) as [?|[?|[?|?]]]; auto.
        intros r Hx. apply (Hr r). rewrite list_lookup_insert_ne; [done|]. intros ->. by apply (Hnr r).
      * intros Hx. apply H10. by apply (failed_insert q ths i Waiting).
      * intros r Hr. apply insert_cases in Hr as [[_ ?]|[_ Hr]]; [done|]. destruct (H11 r Hr) as (? & ? & ? & ?). done.
  - rewrite <- Eq in *. assert (queue q ≠ []) as Hne by (by rewrite Eq). pose proof (batch_size_range q Hne) as Hb.
    set (rest := (length (queue q) - Z.to_nat (batch_size q))%nat) in *. injection Ht as <- <-.
    assert (∀ c, c ∈ queue q ↔ c ∈ take rest (queue q) ∨ c ∈ reverse (drop rest (queue q))) as Hsplit.
    { intros c. rewrite elem_of_reverse, <- elem_of_app, take_drop. done. }
    split; cbn [sys_q threads added queue nIdle nTotal fAllOk nTodo fQuit]; rewrite ?(total_insert _ ths i holding) by done; cbn [in_loop idle in_flight holding]; try done; try lia.
    + by rewrite length_insert.
    + rewrite length_take. lia.
    + intros j cs nNow fOk [[_ E]|[_ Hj]]%insert_cases; [|by apply (H7 j)]. injection E as -> -> ->. split; [lia|]. lia.
    + intros c [Hc|(j & cs & nNow & fOk & Hj & Hc)]; [apply H8; left; apply Hsplit; by left|].
      apply insert_cases in Hj as [[_ E]|[_ Hj]]; [injection E as -> _ _; apply H8; left; apply Hsplit; by right|]. apply H8. right. by exists j, cs, nNow, fOk.
    + intros Hr c Hc. destruct (H9) with (c := c) as [Hx|[?|[?|?]]]; auto.
      * intros r Hx. apply (Hr r). rewrite list_lookup_insert_ne; [done|]. intros ->. by apply (Hnr r).
      * apply Hsplit in Hx as [Hx|Hx]; [by left|right; left]. eexists i, _, _, _. split; [by eapply insert_here|done].
    + intros [Hx|(j & cs & nNow & Hj)]; [apply H10; by left|]. apply insert_cases in Hj as [[_ E]|[_ Hj]]; [injection E as _ _ E; apply H10; by left|].
      apply H10. right. by exists j, cs, nNow.
    + intros r Hr. apply insert_cases in Hr as [[_ ?]|[_ Hr]]; [done|]. destruct (H11 r Hr) as (? & ? & ? & ?). done.
Qed.

(** *** The steps *)

Lemma check_inv q ths l i c cs nNow fOk : queue_inv (mkSystem q ths l) → ths !! i = Some (Working (c :: cs) nNow fOk) →
  queue_inv (mkSystem q (<[i := Working cs nNow (run_check c fOk)]> ths) l).
Proof.
  intros [H1 H2 H3 H4 H5 H6 H7 H8 H9 H10 H11] Hi. cbn [sys_q threads added] in *. destruct (H7 _ _ _ _ Hi) as [Hn0 Hn].
  assert (nNow ≠ 0) as Hnz by (intros E; by destruct (Hn E)).
  assert (c ∈ l) as Hcl by (apply H8; right; exists i, (c :: cs), nNow, fOk; set_solver).
  assert (fOk = false → check c = false ∨ run_check c fOk = false) as Hrun by (intros ->; by right).
  split; cbn [sys_q threads added]; rewrite ?(total_insert _ ths i (Working (c :: cs) nNow fOk)) by done; cbn [in_loop idle in_flight]; try done; try lia.
  - by rewrite length_insert.
  - intros j cs' nNow' fOk' [[_ E]|[_ Hj]]%insert_cases; [injection E as -> -> _; split; [done|lia]|]. by apply (H7 j).
  - intros x [?|(j & cs' & nNow' & fOk' & Hj & Hx)]; [by apply H8; left|]. apply H8. right.
    apply insert_cases in Hj as [[-> E]|[_ Hj]]; [injection E as -> -> _; exists i, (c :: cs), nNow, fOk; set_solver|by exists j, cs', nNow', fOk'].
  - intros Hr x Hx. assert (failed q ths → failed q (<[i := Working cs nNow (run_check c fOk)]> ths)) as Hfail.
    { intros [?|(j & cs' & nNow' & Hj)]; [by left|right]. destruct (decide (j = i)) as [->|Hji].
      - rewrite Hi in Hj. injection Hj as <- <- ->. exists i, cs, nNow. by eapply insert_here.
      - exists j, cs', nNow'. by rewrite list_lookup_insert_ne. }
    assert (∀ r, ths !! O ≠ Some (Returned r)) as Hr0.
    { intros r E. destruct (decide (i = O)) as [->|]; [by rewrite Hi in E|]. apply (Hr r). by rewrite list_lookup_insert_ne. }
    destruct (H9 Hr0 x Hx) as [?|[Hp|[?|?]]]; auto. destruct Hp as (j & cs' & nNow' & fOk' & Hj & Hxin).
    destruct (decide (j = i)) as [->|Hji]; [|right; left; exists j, cs', nNow', fOk'; by rewrite list_lookup_insert_ne].
    rewrite Hi in Hj. injection Hj as <- <- <-. apply elem_of_cons in Hxin as [->|Hxin].
    + destruct (check c) eqn:Ec; [auto|]. do 3 right. right. exists i, cs, nNow. assert (run_check c fOk = false) as Ef by (unfold run_check; by destruct fOk).
      rewrite Ef. by eapply insert_here.
    + right; left. eexists i, cs, nNow, _. split; [by eapply insert_here|done].
  - intros [?|(j & cs' & nNow' & Hj)]; [apply H10; by left|]. apply insert_cases in Hj as [[_ E]|[_ Hj]].
    + injection E as _ _ Hf. unfold run_check in Hf. destruct fOk; [by exists c|]. apply H10. right. by exists i, (c :: cs), nNow.
    + apply H10. right. by exists j, cs', nNow'.
  - intros r Hr. apply insert_cases in Hr as [[_ ?]|[_ Hr]]; [done|]. by apply H11.
Qed.
Lemma add_inv q ths l vChecks : queue_inv (mkSystem q ths l) → ths !! O = Some Outside → Z.of_nat (length (l ++ vChecks)) < 2 ^ 32 →
  queue_inv (mkSystem (Add vChecks q) ths (l ++ vChecks)).
Proof.
  intros H Ho Hb. pose proof (todo_range _ H). destruct H as [H1 H2 H3 H4 H5 H6 H7 H8 H9 H10 H11]. cbn [sys_q threads added] in *. rewrite length_app in *.
  assert (∀ p, failed (Add vChecks q) p ↔ failed q p) as Hf by done.
  split; cbn [sys_q threads added Add queue nIdle nTotal fAllOk nTodo fQuit]; try done.
  - rewrite u32_id by (unfold is_u32; lia). rewrite length_app. lia.
  - rewrite u32_id by (unfold is_u32; lia). rewrite length_app. lia.
  - intros c. rewrite !elem_of_app. intros [[?|?]|?]; [left; apply H8; by left|by right|left; apply H8; by right].
  - intros Hr c. rewrite !elem_of_app, Hf. intros [Hc|?]; [|auto]. destruct (H9 Hr c Hc) as [?|[?|[?|?]]]; auto.
  - rewrite Hf. intros Hx. destruct (H10 Hx) as (c & ? & ?). exists c. set_solver.
  - intros r Hr. by rewrite Ho in Hr.
Qed.
Lemma master_inv q ths l x y : queue_inv (mkSystem q ths l) → ths !! O = Some x → (x = Outside ∧ y = Entering) →
  queue_inv (mkSystem q (<[O := y]> ths) l).
Proof.
  intros [H1 H2 H3 H4 H5 H6 H7 H8 H9 H10 H11] Hx [-> ->]. cbn [sys_q threads added] in *.
  split; cbn [sys_q threads added]; rewrite ?(total_insert _ ths 0 Outside) by done; cbn [in_loop idle in_flight]; try done; try lia.
  - by rewrite length_insert.
  - intros j cs nNow fOk [[_ E]|[_ Hj]]%insert_cases; [done|]. by apply (H7 j).
  - intros c [?|?]; apply H8; [by left|right]. by eapply pending_insert; [exact Hx| |done].
  - intros Hr c Hc. destruct (H9) with (c := c) as [?|[Hp|[?|Hf]]]; auto.
    + intros r E. by rewrite Hx in E.
    + right; left. by eapply pending_insert_2; [exact Hx| |done].
    + do 3 right. by eapply failed_insert_2; [exact Hx| |done].
  - intros Hf. apply H10. by eapply failed_insert; [|done].
  - intros r Hr. by rewrite (insert_here ths 0 Outside) in Hr by done.
Qed.
Lemma return_inv q ths l r : queue_inv (mkSystem q ths l) → ths !! O = Some (Returned r) → queue_inv (mkSystem q (<[O := Outside]> ths) []).
Proof.
  intros H Hx. destruct (qi_returned _ H r Hx) as (F1 & F2 & F3 & F4). destruct (nothing_left _ H F2) as (_ & Hp & Hf).
  destruct H as [H1 H2 H3 H4 H5 H6 H7 H8 H9 H10 H11]. cbn [sys_q threads added] in *.
  split; cbn [sys_q threads added]; rewrite ?(total_insert _ ths 0 (Returned r)) by done; cbn [in_loop idle in_flight length]; try done; try lia.
  - by rewrite length_insert.
  - intros j cs nNow fOk [[_ E]|[_ Hj]]%insert_cases; [done|]. by apply (H7 j).
  - intros c [Hc|Hc]; [by rewrite F1 in Hc|]. destruct (Hp c). by eapply pending_insert; [exact Hx| |done].
  - intros _ c Hc. by apply not_elem_of_nil in Hc.
  - intros Hx'. apply failed_insert in Hx'; [|done]. apply Hf in Hx'. by rewrite F3 in Hx'.
  - intros r' Hr. by rewrite (insert_here ths 0 (Returned r)) in Hr by done.
Qed.

Lemma lock_inv q ths l i th q' th' notify : queue_inv (mkSystem q ths l) → ths !! i = Some th → at_lock th = true →
  critical (is_master i) th q = (q', th', notify) → queue_inv (mkSystem q' (<[i := th']> ths) l).
Proof.
  intros H Hi Hl Hc. unfold critical in Hc. destruct (clean_up (is_master i) th q) as [q1 n1] eqn:E1. destruct (take_work (is_master i) q1) as [q2 th2] eqn:E2.
  injection Hc as <- <- <-. pose proof (clean_up_inv _ _ _ _ _ _ _ _ H Hi Hl E1) as H'.
  rewrite <- (list_insert_insert_eq ths i th2 holding). eapply take_work_inv; [exact H'|by eapply insert_here|exact E2].
Qed.
Lemma step_inv s s' : queue_inv s → step_spurious s s' → queue_inv s'.
Proof.
  intros H Hs. destruct Hs as [s s' Hs|q ths l i Hi]; [|eapply wakes_inv, H; by apply wakes_insert]. destruct Hs as [q ths l i th q' th' notify Hi Hl Hc| | | |].
  - pose proof (lock_inv _ _ _ _ _ _ _ _ H Hi Hl Hc) as H'. cbn zeta. destruct notify; [|done]. eapply wakes_inv, H'. apply wakes_alter.
  - by apply check_inv.
  - eapply wakes_inv; [by eapply notified_wakes|]. by apply add_inv.
  - by eapply master_inv.
  - by eapply return_inv.
Qed.

Lemma notified_step s s' : queue_inv s → master_notified s → step_spurious s s' → master_notified s'.
Proof.
  intros H Hm Hs. destruct Hs as [s s' Hs|q ths l i Hi]; [|eapply wakes_notified, Hm; by apply wakes_insert].
  destruct Hs as [q ths l i th q' th' notify Hi Hl Hc|q ths l i c cs nNow fOk Hi|q ths l vChecks ths' Ho Hn|q ths l Ho|q ths l r Hr].
  - pose proof (todo_range _ H) as Ht. pose proof (lock_inv _ _ _ _ _ _ _ _ H Hi Hl Hc) as H'. pose proof (todo_range _ H') as Ht'.
    unfold critical in Hc. destruct (clean_up (is_master i) th q) as [q1 n1] eqn:E1. destruct (take_work (is_master i) q1) as [q2 th2] eqn:E2.
    injection Hc as <- <- <-. intros Hw. cbn [sys_q threads] in *.
    assert (n1 = false ∧ <[i := th2]> ths !! O = Some Waiting) as [-> Hw'].
    { destruct n1; [|done]. destruct (<[i := th2]> ths) as [|[] ?]; done. }
    clear Hw. unfold take_work in E2. destruct (decide (i = O)) as [->|Hi0].
    + rewrite (insert_here ths 0 th) in Hw' by done. injection Hw' as ->. destruct (queue q1) eqn:Eq; [|done].
      change (is_master 0) with true in E2. cbn [orb andb] in E2. destruct (nTodo q1 =? 0) eqn:Ez; [done|]. injection E2 as <-. cbn [queue nTodo sys_q] in *. split; [done|lia].
    + rewrite list_lookup_insert_ne in Hw' by done. destruct (Hm Hw') as [Hq0 Hp0]. cbn [sys_q] in *.
      assert (queue q1 = [] ∧ 0 < nTodo q1) as [Hq1 Hp1].
      { destruct th as [| | | |cs nNow fOk|]; try done; cbn [clean_up] in E1; [by injection E1 as <-|by injection E1 as <-|].
        injection E1 as <- Hnot; cbn [queue nTodo] in *. split; [done|].
        unfold is_master in Hnot. rewrite bool_decide_false in Hnot by done. cbn [negb] in Hnot. rewrite andb_true_r in Hnot.
        pose proof (u32_range (nTodo q - nNow)). unfold is_u32 in *. lia. }
      rewrite Hq1 in E2. destruct ((is_master i || fQuit q1) && (nTodo q1 =? 0)); injection E2 as <- _; done.
  - intros Hw. apply Hm. cbn [threads] in *. apply insert_cases in Hw as [[_ ?]|[_ ?]]; done.
  - intros Hw. cbn [threads] in *. destruct (notified_wakes _ _ _ Hn) as [|a b la lb Hab _]; [done|]. injection Hw as ->. injection Ho as ->. by destruct Hab as [?|[? _]].
  - intros Hw. cbn [threads] in Hw. by rewrite (insert_here ths 0 Outside) in Hw by done.
  - intros Hw. cbn [threads] in Hw. by rewrite (insert_here ths 0 (Returned r)) in Hw by done.
Qed.

Lemma initial_inv nBatchSizeIn n : Z.of_nat n < 2 ^ 30 - 1 → queue_inv (initial nBatchSizeIn n) ∧ master_notified (initial nBatchSizeIn n).
Proof.
  intros Hn. split; [|by intros ?]. assert (∀ f, f Entering = 0 → total f (replicate n Entering) = 0) as Ht.
  { intros f Hf. clear Hn. induction n as [|n IH]; [done|]. cbn [replicate]. rewrite total_cons. lia. }
  assert (∀ i cs nNow fOk, (Outside :: replicate n Entering) !! i ≠ Some (Working cs nNow fOk)) as Hnw.
  { intros [|i] cs nNow fOk; [done|]. cbn [lookup list_lookup]. intros E. by apply lookup_replicate_1 in E as [? _]. }
  split; cbn [initial sys_q threads added new_queue queue nIdle nTotal fAllOk nTodo fQuit]; rewrite ?total_cons, ?Ht by done; try done.
  - cbn [length]. rewrite length_replicate. lia.
  - intros i cs nNow fOk H. by destruct (Hnw i cs nNow fOk).
  - intros c [H|(i & cs & nNow & fOk & Hi & _)]; [by apply not_elem_of_nil in H|]. by destruct (Hnw i cs nNow fOk).
  - intros _ c Hc. by apply not_elem_of_nil in Hc.
  - intros [?|(i & cs & nNow & Hi)]; [done|]. by destruct (Hnw i cs nNow false).
Qed.

(** Between two critical sections a batch has at least one check. *)
Definition batches (s : System) : Prop := ∀ i cs nNow fOk, s.(threads) !! i = Some (Working cs nNow fOk) → 1 <= nNow.
Lemma batches_wakes q ths ths' l : wakes ths ths' → batches (mkSystem q ths l) → batches (mkSystem q ths' l).
Proof. intros Hw H i cs nNow fOk Hi. eapply (H i). cbn [threads] in *. by eapply wakes_from. Qed.
Lemma batches_insert q q' ths l l' i y : batches (mkSystem q ths l) → (∀ cs nNow fOk, y = Working cs nNow fOk → 1 <= nNow) →
  batches (mkSystem q' (<[i := y]> ths) l').
Proof. intros H Hy j cs nNow fOk [[_ E]|[_ Hj]]%insert_cases; [by eapply Hy|]. by eapply (H j). Qed.
Lemma take_work_batch m q q' cs nNow fOk : take_work m q = (q', Working cs nNow fOk) → 1 <= nNow ∧
  (length cs = Z.to_nat nNow ∧ length q'.(queue) + length cs = length q.(queue))%nat.
Proof.
  unfold take_work. destruct (queue q) as [|c0 cq] eqn:Eq; [by destruct ((m || _) && _)|]. rewrite <- Eq. pose proof (batch_size_range q ltac:(by rewrite Eq)) as Hb.
  intros [= <- <- <- <-]. cbn [queue]. rewrite length_reverse, length_drop, length_take. lia.
Qed.
Lemma batches_step s s' : batches s → step_spurious s s' → batches s'.
Proof.
  intros H Hs. destruct Hs as [s s' Hs|q ths l i Hi]; [|eapply batches_wakes, H; by apply wakes_insert].
  destruct Hs as [q ths l i th q' th' notify Hi Hl Hc|q ths l i c cs nNow fOk Hi|q ths l vChecks ths' Ho Hn|q ths l Ho|q ths l r Hr].
  - assert (batches (mkSystem q' (<[i := th']> ths) l)) as H'.
    { eapply batches_insert; [exact H|]. intros cs nNow fOk ->. unfold critical in Hc. destruct (clean_up _ th q) as [q1 n1].
      destruct (take_work _ q1) as [q2 th2] eqn:E2. injection Hc as <- -> <-. by apply take_work_batch in E2 as [? _]. }
    cbn zeta. destruct notify; [|done]. eapply batches_wakes, H'. apply wakes_alter.
  - eapply batches_insert; [exact H|]. intros cs' nNow' fOk' [= _ -> _]. by eapply (H i).
  - intros i cs nNow fOk Hi. eapply (H i). cbn [threads] in *. eapply wakes_from; [by eapply notified_wakes|done..].
  - by eapply batches_insert.
  - by eapply batches_insert.
Qed.

(** [IsIdle], which [CCheckQueueControl] asserts, holds whenever nothing is left
    to do: a worker that has finished its last batch is already waiting. *)
Lemma idle_when_done s : queue_inv s → batches s → s.(sys_q).(nTodo) = 0 → s.(sys_q).(fAllOk) = true → IsIdle s.(sys_q) = true.
Proof.
  intros H Hb Hz Ha. unfold IsIdle. rewrite (qi_total _ H), (qi_idle _ H), Hz, Ha, !andb_true_iff, !Z.eqb_eq. split_and!; [|done|done].
  pose proof (qi_todo _ H) as Ht. assert (∀ i th, s.(threads) !! i = Some th → in_loop th = idle th) as Hth.
  { intros i th Hi. destruct th; try done. exfalso. apply Hb in Hi as Hn.
    assert (in_flight (Working vChecks nNow fOk) <= total in_flight (threads s)) by (eapply total_ge; [intros t; by apply in_flight_nonneg|done]). cbn in *. lia. }
  clear - Hth. induction (threads s) as [|t ths IH]; [done|]. rewrite !total_cons, (Hth O t eq_refl), IH; [done|]. intros i th Hi. exact (Hth (S i) th Hi).
Qed.

(** ** [Wait] returns *)

(** On every way of continuing, [P] holds at some point. *)
Inductive inevitably (P : System → Prop) (s : System) : Prop :=
  | inevitably_now : P s → inevitably P s
  | inevitably_later s' : step s s' → (∀ s'', step s s'' → inevitably P s'') → inevitably P s.

Definition waits (th : thread) : bool := match th with Entering | Waiting | Woken | Working _ _ _ => true | _ => false end.
Definition in_Wait (s : System) : Prop := ∃ th, s.(threads) !! O = Some th ∧ waits th = true.

Definition weight (th : thread) : Z := match th with Entering | Woken => 1 | Working cs _ _ => 4 + Z.of_nat (length cs) | _ => 0 end.
Definition work (s : System) : Z := 6 * Z.of_nat (length s.(sys_q).(queue)) + total weight s.(threads).
Lemma weight_nonneg th : 0 <= weight th.
Proof. destruct th; cbn; lia. Qed.
Lemma work_nonneg s : 0 <= work s.
Proof. unfold work. pose proof (total_nonneg weight s.(threads) ltac:(intros; apply weight_nonneg)). lia. Qed.

Lemma take_work_weight m q q' th' : take_work m q = (q', th') → 6 * Z.of_nat (length q'.(queue)) + weight th' <= 6 * Z.of_nat (length q.(queue)).
Proof.
  intros Ht. destruct th' as [| | | |cs nNow fOk|]; [| | | | |].
  5:{ apply take_work_batch in Ht as (Hn & Hl & Hq). cbn [weight]. lia. }
  all: unfold take_work in Ht; destruct (queue q) as [|c0 cq] eqn:Eq; [|done]; destruct ((m || _) && _); try discriminate Ht; inversion Ht; cbn; lia.
Qed.
(** Every step of a thread is progress. *)
Lemma step_work s s' : in_Wait s → step s s' → work s' < work s ∧ s'.(added) = s.(added).
Proof.
  intros (m & Hm & Hw) Hs. destruct Hs as [q ths l i th q' th' notify Hi Hl Hc|q ths l i c cs nNow fOk Hi|q ths l vChecks ths' Ho Hn|q ths l Ho|q ths l r Hr];
    cbn [threads] in *; try (by rewrite Hm in *; simplify_eq).
  - split; [|done]. unfold critical in Hc. destruct (clean_up (is_master i) th q) as [q1 n1] eqn:E1. destruct (take_work (is_master i) q1) as [q2 th2] eqn:E2.
    injection Hc as <- <- <-. apply take_work_weight in E2. unfold work. cbn [sys_q threads].
    assert (queue q1 = queue q) as Eq by (destruct th; cbn [clean_up] in E1; by injection E1 as <-). rewrite Eq in E2.
    assert (total weight (let ths' := <[i := th2]> ths in if n1 then alter wake O ths' else ths') <= total weight (<[i := th2]> ths) + (if n1 then 1 else 0)) as Hle.
    { cbn zeta. destruct n1; [|lia]. destruct (<[i := th2]> ths) as [|t r]; [cbn; lia|]. change (alter wake 0%nat (t :: r)) with (wake t :: r). rewrite !total_cons. destruct t; cbn; lia. }
    rewrite (total_insert _ ths i th) in Hle by done.
    assert ((if n1 then 1 else 0) < weight th) by (destruct th; try done; cbn [clean_up] in E1; [by injection E1 as _ <-..|]; destruct n1; cbn; lia).
    cbn zeta in *. set (e := if n1 then 1 else 0) in *. clearbody e. lia.
  - split; [|done]. unfold work. cbn [sys_q threads]. rewrite (total_insert _ ths i (Working (c :: cs) nNow fOk)) by done. cbn [weight length]. lia.
Qed.
(** A thread that runs can always make a step. *)
Lemma thread_steps q ths l i th : ths !! i = Some th → waits th = true → th ≠ Waiting → ∃ s', step (mkSystem q ths l) s'.
Proof.
  intros Hi Hw Hn. destruct th as [| | | |[|c cs] nNow fOk|]; try done.
  - destruct (critical (is_master i) Entering q) as [[q' th'] n] eqn:E. eexists. by eapply step_lock.
  - destruct (critical (is_master i) Woken q) as [[q' th'] n] eqn:E. eexists. by eapply step_lock.
  - destruct (critical (is_master i) (Working [] nNow fOk) q) as [[q' th'] n] eqn:E. eexists. by eapply step_lock.
  - eexists. by eapply step_check.
Qed.
Lemma wait_progress s : queue_inv s → master_notified s → in_Wait s → ∃ s', step s s'.
Proof.
  intros H Hm (th & Hi & Hw). destruct s as [q ths l]. cbn [threads] in *. destruct th as [| | | | |]; try done; try (by eapply thread_steps).
  destruct (Hm Hi) as [Hq Hp]. pose proof (qi_todo _ H) as Ht. cbn [sys_q threads] in *. rewrite Hq in Ht. cbn [length] in Ht.
  destruct (total_pos in_flight ths ltac:(lia)) as (j & th & Hj & Hf). destruct th; try (cbn in Hf; lia). by eapply thread_steps.
Qed.
(** The master stays in [Wait] until it returns. *)
Lemma wait_or_returned s s' : in_Wait s → step s s' → in_Wait s' ∨ ∃ r, s'.(threads) !! O = Some (Returned r).
Proof.
  intros (m & Hm & Hw) Hs. destruct Hs as [q ths l i th q' th' notify Hi Hl Hc|q ths l i c cs nNow fOk Hi|q ths l vChecks ths' Ho Hn|q ths l Ho|q ths l r Hr];
    cbn [threads] in *; try (by rewrite Hm in *; simplify_eq).
  - assert (∃ th0, <[i := th']> ths !! O = Some th0 ∧ (waits th0 = true ∨ ∃ r, th0 = Returned r)) as (th0 & H0 & Hr).
    { destruct (decide (i = O)) as [->|Hi0]; [|exists m; rewrite list_lookup_insert_ne by done; auto]. exists th'. split; [by eapply insert_here|].
      unfold critical in Hc. destruct (clean_up _ th q) as [q1 n1]. destruct (take_work _ q1) as [q2 th2] eqn:E2. injection Hc as _ <- _.
      unfold take_work in E2. destruct (queue q1); [destruct ((_ || _) && _)|]; injection E2 as _ <-; eauto. }
    cbn zeta. assert (∀ t, waits t = true → waits (wake t) = true) as Hwk by (by intros []).
    destruct Hr as [Hr|[r ->]]; [left|right; exists r].
    + destruct notify; [|by exists th0]. exists (wake th0). split; [|by apply Hwk]. cbn [threads]. by rewrite list_lookup_alter_eq, H0.
    + destruct notify; [|done]. cbn [threads]. by rewrite list_lookup_alter_eq, H0.
  - left. destruct (decide (i = O)) as [->|Hi0]; [eexists; split; [by eapply insert_here|done]|]. exists m. cbn [threads]. by rewrite list_lookup_insert_ne.
Qed.

Lemma wait_inevitable s : queue_inv s → master_notified s → batches s → in_Wait s →
  inevitably (λ s', s'.(threads) !! O = Some (Returned (forallb check s.(added))) ∧ IsIdle s'.(sys_q) = true) s.
Proof.
  remember (Z.to_nat (work s)) as k eqn:Ek. revert s Ek. induction k as [k IH] using lt_wf_ind. intros s -> H Hm Hb Hw.
  destruct (wait_progress s H Hm Hw) as [s1 Hs1]. apply (inevitably_later _ _ s1 Hs1). intros s2 Hs2. destruct (step_work s s2 Hw Hs2) as [Hlt Ea].
  pose proof (spurious_step _ _ Hs2) as Hsp. pose proof (step_inv _ _ H Hsp) as H2. pose proof (notified_step _ _ H Hm Hsp) as Hm2. pose proof (batches_step _ _ Hb Hsp) as Hb2.
  destruct (wait_or_returned s s2 Hw Hs2) as [Hw2|[r Hr]].
  - rewrite <- Ea. eapply (IH (Z.to_nat (work s2))); [|done..]. pose proof (work_nonneg s2). lia.
  - apply inevitably_now. destruct (qi_returned _ H2 r Hr) as (_ & F2 & F3 & ->). rewrite <- Ea. split; [done|]. by apply idle_when_done.
Qed.

(** What can be reached from the start, with spurious wake-ups. *)
Definition reachable (nBatchSizeIn : Z) (n : nat) : System → Prop := rtc step_spurious (initial nBatchSizeIn n).
Lemma reachable_inv nBatchSizeIn n s : Z.of_nat n < 2 ^ 30 - 1 → reachable nBatchSizeIn n s → queue_inv s ∧ master_notified s ∧ batches s.
Proof.
  intros Hn Hr. destruct (initial_inv nBatchSizeIn n Hn) as [H Hm]. assert (batches (initial nBatchSizeIn n)) as Hb.
  { intros [|i] cs nNow fOk; [done|]. cbn [initial threads lookup list_lookup]. intros E. by apply lookup_replicate_1 in E as [? _]. }
  revert H Hm Hb. induction Hr as [|s s1 s2 Hs Hr IH]; [done|]. intros H Hm Hb. apply IH; [by eapply step_inv|by eapply notified_step|by eapply batches_step].
Qed.

(** C9: whatever the interleaving of the master and the workers was, from every
    state in which the master is in [Wait] it returns on every continuation, and
    the answer is whether all checks that were added since the last [Wait] hold;
    no check is lost, none is counted twice, a failure is never forgotten, no
    thread waits for ever, and the queue is idle again for its next user. *)
Theorem Wait_returns_conjunction nBatchSizeIn n s : Z.of_nat n < 2 ^ 30 - 1 → reachable nBatchSizeIn n s → in_Wait s →
  inevitably (λ s', s'.(threads) !! O = Some (Returned (forallb check s.(added))) ∧ IsIdle s'.(sys_q) = true) s.
Proof. intros Hn Hr Hw. destruct (reachable_inv _ _ _ Hn Hr) as (H & Hm & Hb). by apply wait_inevitable. Qed.
End checkqueue.

(** Two workers, three checks of which one fails. *)
Definition small_number (k : Z) : bool := k <? 10.
Definition three_added : System (T := Z) := mkSystem (Add [1; 20; 3] (new_queue 128)) [Outside; Entering; Entering] [1; 20; 3].
Definition master_joins : System (T := Z) := mkSystem (Add [1; 20; 3] (new_queue 128)) [Entering; Entering; Entering] [1; 20; 3].
Lemma master_joins_reachable : reachable small_number 128 2 master_joins.
Proof.
  eapply (rtc_l _ _ three_added).
  - apply spurious_step, (step_add small_number (new_queue 128) [Outside; Entering; Entering] [] [1; 20; 3] [Outside; Entering; Entering]); [done| |done].
    apply (notify_all 3 Outside [Entering; Entering]). lia.
  - eapply rtc_once, spurious_step, (step_wait small_number _ [Outside; Entering; Entering]). done.
Qed.
Lemma Wait_returns_conjunction_witness :
  inevitably small_number (λ s', s'.(threads) !! O = Some (Returned false) ∧ IsIdle s'.(sys_q) = true) master_joins.
Proof.
  apply (Wait_returns_conjunction small_number 128 2 master_joins); [done|exact master_joins_reachable|].
  exists Entering. done.
Defined.
