(* ===== verification/StakeModifier.v ===== *)
(** * StakeModifier: the stake modifiers of blocks ([chain.cpp], [legacy/stakemodifier.cpp])

    In the proof-of-work era a block carries a 64-bit modifier whose bits are
    the entropy bits of blocks that are selected among its ancestors; later the
    modifier is a hash chain.  [None] is undefined behaviour: a null pointer, or
    a copy behind the end of a variable. *)

From stdpp Require Import sorting.
From S2P Require Import Prelude ArithUint256 Params Chain Script Interpreter Serialize Transaction.
Local Open Scope Z_scope.

(** ** Modifiers of an entry *)

Definition BLOCK_STAKE_MODIFIER_flag (b : CBlockIndex) (generated : bool) : Z :=
  if generated then Z.lor b.(nFlags) BLOCK_STAKE_MODIFIER else b.(nFlags).
(** [SetStakeModifier] of a [uint64_t]. *)
Definition SetStakeModifierV1 (b : CBlockIndex) (nStakeModifier : Z) (fGeneratedStakeModifier : bool) : CBlockIndex :=
  set_stake b (WriteLE 8 nStakeModifier) (BLOCK_STAKE_MODIFIER_flag b fGeneratedStakeModifier).
(** [SetStakeModifier] of a [uint256]. *)
Definition SetStakeModifierV2 (b : CBlockIndex) (nStakeModifier : base_uint) : CBlockIndex :=
  set_stake b (c_uint256.(enc) nStakeModifier) b.(nFlags).

(** A modifier of another length than the variable is copied over its end, or
    leaves a part of it unset. *)
Definition GetStakeModifierV1 (b : CBlockIndex) : option Z :=
  match b.(vStakeModifier) with
  | [] => Some 0
  | v => if bool_decide (length v = 8%nat) then Some (ReadLE v) else None
  end.
Definition GetStakeModifierV2 (b : CBlockIndex) : option base_uint :=
  if bool_decide (length b.(vStakeModifier) <= 32)%nat then
    '(m, _) ← c_uint256.(dec) (b.(vStakeModifier) ++ replicate (32 - length b.(vStakeModifier)) 0); Some m
  else None.

(** ** The selection of blocks *)

Definition MODIFIER_INTERVAL : Z := 60.
Definition MODIFIER_INTERVAL_RATIO : Z := 3.
Definition OLD_MODIFIER_INTERVAL : Z := 2087.

(** The constant is unsigned, so the arithmetic is modulo [2 ^ 32]; all
    numbers are small. *)
Definition GetStakeModifierSelectionIntervalSection (nSection : Z) : option Z :=
  if (0 <=? nSection) && (nSection <? 64)
  then Some (u32 (MODIFIER_INTERVAL * 63) / u32 (63 + (63 - nSection) * (MODIFIER_INTERVAL_RATIO - 1)))
  else None.

(** The order of [std::pair], smaller or equivalent. *)
Definition pair_le (x y : Z * base_uint) : Prop :=
  x.1 < y.1 ∨ (x.1 = y.1 ∧ (uint_ltb x.2 y.2 = true ∨ uint_ltb y.2 x.2 = false)).
#[export] Instance pair_le_dec : RelDecision pair_le.
Proof. unfold RelDecision, pair_le. apply _. Defined.

Section modifier.
Context `{ScriptCrypto}.

(** [uint64_t("stakemodifier")]: the address of the literal. *)
Variable stakemodifier_address : Z.
(** [mapBlockIndex]. *)
Variable mapBlockIndex : gmap base_uint ptr.

Definition Hash_uint256 (data : list Z) : base_uint :=
  match c_uint256.(dec) (Hash256 data) with Some (h, _) => h | None => uint_zero 8 end.

Definition selection_hash (nStakeModifierPrev : Z) (b : CBlockIndex) : base_uint :=
  let hashProof := if IsProofOfStake b then uint_zero 8 else b.(phashBlock) in
  let hashSelection := Hash_uint256 (c_uint256.(enc) hashProof ++ (c_unsigned 8).(enc) nStakeModifierPrev) in
  if IsProofOfStake b then uint_shr hashSelection 32 else hashSelection.

(** The loop; [best] is the selected block with its hash.  The inner [None] is
    the answer [false]. *)
Fixpoint select_loop (t : BlockTree) (vSortedByTimestamp : list (Z * base_uint)) (mapSelectedBlocks : list base_uint)
    (nSelectionIntervalStop nStakeModifierPrev : Z) (best : option (CBlockIndex * base_uint)) : option (option CBlockIndex) :=
  match vSortedByTimestamp with
  | [] => Some (fst <$> best)
  | (_, hash) :: l =>
      match mapBlockIndex !! hash with
      | None => Some None
      | Some p =>
          b ← t !! p;
          if bool_decide (is_Some best) && (nSelectionIntervalStop <? GetBlockTime b) then Some (fst <$> best)
          else if bool_decide (b.(phashBlock) ∈ mapSelectedBlocks) then
            select_loop t l mapSelectedBlocks nSelectionIntervalStop nStakeModifierPrev best
          else
            let hashSelection := selection_hash nStakeModifierPrev b in
            let best := match best with
                        | Some (b0, hashBest) => if uint_ltb hashSelection hashBest then Some (b, hashSelection) else Some (b0, hashBest)
                        | None => Some (b, hashSelection)
                        end in
            select_loop t l mapSelectedBlocks nSelectionIntervalStop nStakeModifierPrev best
      end
  end.
Definition SelectBlockFromCandidates (t : BlockTree) (vSortedByTimestamp : list (Z * base_uint)) (mapSelectedBlocks : list base_uint)
    (nSelectionIntervalStop nStakeModifierPrev : Z) : option (option CBlockIndex) :=
  select_loop t vSortedByTimestamp mapSelectedBlocks nSelectionIntervalStop nStakeModifierPrev None.

(** The rounds, from [nRound] on; the inner [None] is the answer [false]. *)
Fixpoint modifier_rounds (t : BlockTree) (vSortedByTimestamp : list (Z * base_uint)) (nStakeModifier : Z)
    (rounds : nat) (nRound nSelectionIntervalStop : Z) (mapSelectedBlocks : list base_uint) (nStakeModifierNew : Z) : option (option Z) :=
  match rounds with
  | O => Some (Some nStakeModifierNew)
  | S rounds =>
      section ← GetStakeModifierSelectionIntervalSection nRound;
      let nSelectionIntervalStop := nSelectionIntervalStop + section in
      r ← SelectBlockFromCandidates t vSortedByTimestamp mapSelectedBlocks nSelectionIntervalStop nStakeModifier;
      match r with
      | None => Some None
      | Some b =>
          modifier_rounds t vSortedByTimestamp nStakeModifier rounds (nRound + 1) nSelectionIntervalStop
            (b.(phashBlock) :: mapSelectedBlocks) (Z.lor nStakeModifierNew (u64 (Z.shiftl (GetStakeEntropyBit b) nRound)))
      end
  end.

(** The walk to the last block that generated a modifier, or to the genesis;
    heights decrease. *)
Fixpoint last_generated (fuel : nat) (t : BlockTree) (p : ptr) : option CBlockIndex :=
  b ← t !! p;
  match b.(pprev) with
  | Some q => if GeneratedStakeModifier b then Some b else match fuel with O => None | S fuel => last_generated fuel t q end
  | None => Some b
  end.

(** The ancestors since a time, the youngest first. *)
Fixpoint candidates_since (fuel : nat) (t : BlockTree) (start : Z) (p : option ptr) : option (list (Z * base_uint)) :=
  match p with
  | None => Some []
  | Some p =>
      b ← t !! p;
      if start <=? GetBlockTime b then
        match fuel with
        | O => None
        | S fuel => l ← candidates_since fuel t start b.(pprev); Some ((GetBlockTime b, b.(phashBlock)) :: l)
        end
      else Some []
  end.

(** The answer, [nStakeModifier] and [fGeneratedStakeModifier]. *)
Definition ComputeNextStakeModifier (t : BlockTree) (pindexPrev : option ptr) : option (bool * Z * bool) :=
  match pindexPrev with
  | None => Some (true, 0, true)
  | Some prev =>
      b ← t !! prev;
      if b.(nHeight) =? 0 then Some (true, stakemodifier_address, true)
      else
        p ← last_generated (Z.to_nat b.(nHeight)) t prev;
        if negb (GeneratedStakeModifier p) then Some (false, 0, false)
        else
          nStakeModifier ← GetStakeModifierV1 p;
          if Z.quot (GetBlockTime b) MODIFIER_INTERVAL <=? Z.quot (GetBlockTime p) MODIFIER_INTERVAL then Some (true, nStakeModifier, false)
          else
            let nSelectionIntervalStart := Z.quot (GetBlockTime b) MODIFIER_INTERVAL * MODIFIER_INTERVAL - OLD_MODIFIER_INTERVAL in
            candidates ← candidates_since (S (Z.to_nat b.(nHeight))) t nSelectionIntervalStart (Some prev);
            let vSortedByTimestamp := merge_sort pair_le (reverse candidates) in
            r ← modifier_rounds t vSortedByTimestamp nStakeModifier (Nat.min 64 (length vSortedByTimestamp)) 0 nSelectionIntervalStart [] 0;
            match r with
            | None => Some (false, nStakeModifier, false)
            | Some nStakeModifierNew => Some (true, nStakeModifierNew, true)
            end
  end.

(** ** The modifier of a new entry *)

(** The first version: the entropy bit and the selected bits. *)
Definition SetNewStakeModifierV1 (t : BlockTree) (b : CBlockIndex) : option CBlockIndex :=
  let b := (SetStakeEntropyBit b (GetStakeEntropyBit b)).2 in
  '(_, nStakeModifier, fGenerated) ← ComputeNextStakeModifier t b.(pprev);
  Some (SetStakeModifierV1 b nStakeModifier fGenerated).

(** The second version; without a parent the code throws. *)
Definition SetNewStakeModifierV2 (t : BlockTree) (b : CBlockIndex) (prevoutId : base_uint) : option CBlockIndex :=
  q ← b.(pprev);
  prev ← t !! q;
  m ← GetStakeModifierV2 prev;
  Some (SetStakeModifierV2 b (Hash_uint256 (c_uint256.(enc) prevoutId ++ c_uint256.(enc) m))).

(** [GetOldModifier]: the loop follows the active chain, whose length bounds
    it; the inner [None] is the answer [false]. *)
Fixpoint old_modifier_loop (fuel : nat) (t : BlockTree) (active : CChain) (stop : Z) (next : option ptr) (nStakeModifierTime : Z) :
    option (option Z) :=
  match next with
  | None => Some None
  | Some p =>
      b ← t !! p;
      let nStakeModifierTime := if GeneratedStakeModifier b then GetBlockTime b else nStakeModifierTime in
      if nStakeModifierTime <? stop then
        match fuel with O => None | S fuel => old_modifier_loop fuel t active stop (Chain_at active (b.(nHeight) + 1)) nStakeModifierTime end
      else m ← GetStakeModifierV1 b; Some (Some m)
  end.
Definition GetOldModifier (t : BlockTree) (active : CChain) (pindexFrom : CBlockIndex) : option (option Z) :=
  old_modifier_loop (length active) t active (GetBlockTime pindexFrom + OLD_MODIFIER_INTERVAL)
    (Chain_at active (pindexFrom.(nHeight) + 1)) (GetBlockTime pindexFrom).
End modifier.

(** ** The order of hashes *)

Lemma compare_from_trans n a b c :
  uint_compare_from n a b < 0 → uint_compare_from n b c < 0 → uint_compare_from n a c < 0.
Proof.
  induction n as [|n IH]; cbn [uint_compare_from]; [done|].
  destruct (Z.ltb_spec (limb a n) (limb b n)), (Z.ltb_spec (limb b n) (limb a n)), (Z.ltb_spec (limb b n) (limb c n)),
    (Z.ltb_spec (limb c n) (limb b n)), (Z.ltb_spec (limb a n) (limb c n)), (Z.ltb_spec (limb c n) (limb a n)); try lia; auto.
Qed.
Lemma compare_from_refl n a : uint_compare_from n a a = 0.
Proof. induction n as [|n IH]; cbn [uint_compare_from]; [done|]. by rewrite Z.ltb_irrefl. Qed.
Lemma length_uint_shr a s : length (uint_shr a s) = length a.
Proof.
  unfold uint_shr. generalize (seq 0 (length a)) as l. assert (length (uint_zero (length a)) = length a) as E by apply length_replicate.
  revert E. generalize (uint_zero (length a)) as pn. intros pn E l. revert pn E. induction l as [|i l IH]; intros pn E; [done|].
  cbn [foldl]. apply IH. unfold uint_shr_step, or_at. repeat case_bool_decide; cbn; rewrite ?length_alter; try done.
  all: destruct (negb _); rewrite ?length_alter; done.
Qed.

Lemma length_read_limbs W s pn r : read_limbs W s = Some (pn, r) → length pn = W.
Proof.
  revert s pn r. induction W as [|W IH]; intros s pn r; cbn [read_limbs]; [by intros [= <- _]|].
  destruct (ser_readdata 4 s) as [[x s']|]; [|done]. cbn. destruct (read_limbs W s') as [[pn' s'']|] eqn:E; [|done]. cbn.
  intros [= <- _]. cbn. f_equal. by eapply IH.
Qed.

Section selection.
Context `{ScriptCrypto}.
Variable mapBlockIndex : gmap base_uint ptr.
Variable t : BlockTree.
Hypothesis wf : wf_tree t.
Hypothesis indexed : ∀ p b, t !! p = Some b → mapBlockIndex !! b.(phashBlock) = Some p.

Lemma length_Hash_uint256 d : length (Hash_uint256 d) = 8%nat.
Proof using.
  unfold Hash_uint256. destruct (c_uint256.(dec) (Hash256 d)) as [[h r]|] eqn:E; [|by apply length_replicate].
  cbn in E. by eapply length_read_limbs.
Qed.
Lemma length_selection_hash m b : length (selection_hash m b) = 8%nat.
Proof using.
  unfold selection_hash. destruct (IsProofOfStake b); rewrite ?length_uint_shr; apply length_Hash_uint256.
Qed.

(** [selection_hash] orders the blocks. *)
Definition beats (m : Z) (b c : CBlockIndex) : bool := uint_ltb (selection_hash m b) (selection_hash m c).
Lemma beats_trans m a b c : beats m a b = true → beats m b c = true → beats m a c = true.
Proof using.
  unfold beats, uint_ltb, uint_CompareTo. rewrite !length_selection_hash, !Z.ltb_lt. apply compare_from_trans.
Qed.

Lemma beats_irrefl m b : beats m b b = false.
Proof using. unfold beats, uint_ltb, uint_CompareTo. by rewrite compare_from_refl. Qed.

(** A candidate stands for an entry of the tree. *)
Definition candidate (c : Z * base_uint) (b : CBlockIndex) : Prop :=
  c = (GetBlockTime b, b.(phashBlock)) ∧ ∃ p, t !! p = Some b.

(** What a round selects: an unselected candidate, and none of the unselected
    candidates within the interval has a smaller selection hash. *)
Definition selects (l : list (Z * base_uint)) (sel : list base_uint) (stop m : Z) (b : CBlockIndex) : Prop :=
  b.(phashBlock) ∉ sel ∧ (GetBlockTime b, b.(phashBlock)) ∈ l ∧ (∃ p, t !! p = Some b) ∧
  ∀ c b', c ∈ l → candidate c b' → b'.(phashBlock) ∉ sel → GetBlockTime b' <= stop → beats m b' b = false.

Lemma select_loop_best l sel stop m b0 :
  Forall (λ c, ∃ b, candidate c b) l → Sorted (λ x y, x.1 <= y.1) l →
  ∃ b, select_loop mapBlockIndex t l sel stop m (Some (b0, selection_hash m b0)) = Some (Some b) ∧
    (b = b0 ∨ b.(phashBlock) ∉ sel ∧ (GetBlockTime b, b.(phashBlock)) ∈ l ∧ ∃ p, t !! p = Some b) ∧
    (b = b0 ∨ beats m b b0 = true) ∧
    ∀ c b', c ∈ l → candidate c b' → b'.(phashBlock) ∉ sel → GetBlockTime b' <= stop → beats m b' b = false.
Proof using indexed.
  intros Hc. revert b0. induction Hc as [|c l (b & -> & p & Hp) Hc IH]; intros b0 Hs.
  { exists b0. cbn. split_and!; [done|by left|by left|]. by intros ? ? ?%elem_of_nil. }
  cbn [select_loop]. rewrite (indexed p b Hp). cbn [mbind option_bind]. rewrite Hp. cbn [mbind option_bind fst].
  apply Sorted_inv in Hs as Hs'. destruct Hs' as [Hs' Hh].
  assert (∀ c b', c ∈ (GetBlockTime b, phashBlock b) :: l → candidate c b' → c = (GetBlockTime b, phashBlock b) ∧ b' = b ∨ c ∈ l) as Hcase.
  { intros c b' [->|Hin]%elem_of_cons [Hcb [q Hq]]; [left|by right]. split; [done|]. injection Hcb as _ Hcb.
    pose proof (indexed q b' Hq) as E. rewrite <- Hcb, (indexed p b Hp) in E. injection E as <-. congruence. }
  destruct (Z.ltb_spec stop (GetBlockTime b)) as [Hlt|Hle]; cbn [andb].
  - rewrite bool_decide_true by (by eexists). exists b0. split_and!; [done|by left|by left|].
    intros c b' Hin Hcb Hsel Htime. exfalso. assert (∀ x, x ∈ (GetBlockTime b, phashBlock b) :: l → stop < x.1) as Hall.
    { apply Sorted_StronglySorted in Hs; [|intros ? ? ? ? ?; lia]. apply StronglySorted_inv in Hs as [_ Hf]. rewrite Forall_forall in Hf.
      intros x [->|Hx]%elem_of_cons; [done|]. specialize (Hf x Hx). cbn in Hf. lia. }
    specialize (Hall c Hin). destruct Hcb as [-> _]. cbn in Hall. lia.
  - rewrite andb_false_r. case_bool_decide as Hsel.
    + destruct (IH b0 Hs') as (r & -> & R1 & R2 & R3). exists r. split_and!; [done| |done|].
      { destruct R1 as [->|(? & ? & ?)]; [by left|right; split_and!; [done|by right|done]]. }
      intros c b' Hin Hcb Hns Ht. destruct (Hcase c b' Hin Hcb) as [[-> ->]|Hin']; [done|by apply (R3 c)].
    + assert (∃ b1, (if uint_ltb (selection_hash m b) (selection_hash m b0) then Some (b, selection_hash m b) else Some (b0, selection_hash m b0))
          = Some (b1, selection_hash m b1) ∧ (b1 = b0 ∨ b1 = b) ∧ (b1 = b0 ∨ beats m b1 b0 = true) ∧ (b1 = b ∨ beats m b b1 = false)) as (b1 & -> & B1 & B2 & B3).
      { destruct (uint_ltb (selection_hash m b) (selection_hash m b0)) eqn:E; [exists b|exists b0]; split_and!; auto. }
      destruct (IH b1 Hs') as (r & -> & R1 & R2 & R3). exists r. split_and!; [done| | |].
      * destruct R1 as [->|(? & ? & ?)]; [|right; split_and!; [done|by right|done]].
        destruct B1 as [->| ->]; [by left|right; split_and!; [done|by left|by eexists]].
      * destruct R2 as [->|R2]; [done|]. destruct B2 as [->|B2]; [by right|]. right. by eapply beats_trans.
      * intros c b' Hin Hcb Hns Ht. destruct (Hcase c b' Hin Hcb) as [[-> ->]|Hin']; [|by apply (R3 c)].
        destruct (beats m b r) eqn:E; [|done]. destruct R2 as [->|R2], B3 as [->|B3].
        -- by rewrite beats_irrefl in E.
        -- congruence.
        -- by rewrite <- (beats_irrefl m b), (beats_trans m b r b).
        -- by rewrite (beats_trans m b r b1) in B3.
Qed.

Lemma SelectBlockFromCandidates_spec l sel stop m :
  Forall (λ c, ∃ b, candidate c b) l → Sorted (λ x y, x.1 <= y.1) l → (∃ c, c ∈ l ∧ c.2 ∉ sel) →
  ∃ b, SelectBlockFromCandidates mapBlockIndex t l sel stop m = Some (Some b) ∧ selects l sel stop m b.
Proof using indexed.
  unfold SelectBlockFromCandidates. intros Hc. induction Hc as [|c l (b & -> & p & Hp) Hc IH]; intros Hs (c & Hin & Hns).
  { by apply elem_of_nil in Hin. }
  cbn [select_loop]. rewrite (indexed p b Hp). cbn [mbind option_bind]. rewrite Hp. cbn [mbind option_bind fst].
  rewrite bool_decide_false by (by intros [? ?]). cbn [andb]. apply Sorted_inv in Hs as [Hs Hh]. case_bool_decide as Hsel.
  - destruct IH as (r & -> & S1 & S2 & S3 & S4); [done| |].
    { exists c. split; [|done]. by apply elem_of_cons in Hin as [->|?]. }
    exists r. split; [done|]. split_and!; [done|by right|done|]. intros c' b' Hin' Hcb Hns'.
    apply elem_of_cons in Hin' as [->|Hin']; [|by apply (S4 c')]. destruct Hcb as [[= _ Hcb] _]. congruence.
  - destruct (select_loop_best l sel stop m b Hc Hs) as (r & -> & R1 & R2 & R3). exists r. split; [done|]. split_and!.
    + by destruct R1 as [->|(? & _)].
    + destruct R1 as [->|(_ & ? & _)]; [by left|by right].
    + destruct R1 as [->|(_ & _ & ?)]; [by eexists|done].
    + intros c' b' Hin' Hcb Hns' Ht. apply elem_of_cons in Hin' as [->|Hin']; [|by apply (R3 c')].
      destruct Hcb as [[= _ Hcb] [q Hq]]. pose proof (indexed q b' Hq) as E. rewrite <- Hcb, (indexed p b Hp) in E. injection E as <-.
      assert (b' = b) as -> by congruence. destruct R2 as [->|R2]; [apply beats_irrefl|]. destruct (beats m b r) eqn:E; [|done].
      by rewrite <- (beats_irrefl m b), (beats_trans m b r b).
Qed.

(** ** The rounds *)

(** The length of the sections of the rounds [n], [n + 1], ... *)
Fixpoint sections (n : Z) (k : nat) : Z :=
  match k with O => 0 | S k => default 0 (GetStakeModifierSelectionIntervalSection n) + sections (n + 1) k end.

(** The blocks that the rounds from [n] on select, when [sel] are selected. *)
Fixpoint selected (l : list (Z * base_uint)) (m n stop : Z) (sel : list base_uint) (bs : list CBlockIndex) : Prop :=
  match bs with
  | [] => True
  | b :: bs => selects l sel (stop + sections n 1) m b ∧ selected l m (n + 1) (stop + sections n 1) (b.(phashBlock) :: sel) bs
  end.

(** The modifier with the entropy bits of [bs] at the places from [n] on. *)
Definition entropy_at (n : Z) (bs : list CBlockIndex) (j : Z) : bool :=
  (n <=? j) && match bs !! Z.to_nat (j - n) with Some b => GetStakeEntropyBit b =? 1 | None => false end.

Lemma entropy_bit b : GetStakeEntropyBit b = 0 ∨ GetStakeEntropyBit b = 1.
Proof using.
  unfold GetStakeEntropyBit. change 1 with (Z.ones 1). rewrite Z.land_ones by done. change (2 ^ 1) with 2. change (Z.ones 1) with 1.
  pose proof (Z.mod_pos_bound (uint_GetLow64 (phashBlock b)) 2 ltac:(done)). lia.
Qed.

Lemma entropy_shift b n j : 0 <= n < 64 → Z.testbit (u64 (Z.shiftl (GetStakeEntropyBit b) n)) j = (j =? n) && (GetStakeEntropyBit b =? 1).
Proof using.
  intros Hn. rewrite u64_id.
  - destruct (Z.lt_ge_cases j 0) as [Hj|Hj]; [rewrite Z.testbit_neg_r by done; rewrite (proj2 (Z.eqb_neq j n)) by lia; done|].
    rewrite Z.shiftl_spec by done. destruct (Z.eqb_spec j n) as [->|Hne]; cbn [andb].
    + rewrite Z.sub_diag. by destruct (entropy_bit b) as [-> | ->].
    + destruct (Z.lt_ge_cases (j - n) 0); [by rewrite Z.testbit_neg_r|]. destruct (entropy_bit b) as [-> | ->]; [by rewrite Z.bits_0|].
      apply (testbit_above 1 1); lia.
  - unfold is_u64. rewrite Z.shiftl_mul_pow2 by lia. pose proof (Z.pow_lt_mono_r 2 n 64 ltac:(lia) ltac:(lia) ltac:(lia)).
    pose proof (Z.pow_nonneg 2 n ltac:(lia)). destruct (entropy_bit b) as [-> | ->]; lia.
Qed.

Lemma unselected_exists (l : list (Z * base_uint)) sel :
  NoDup (snd <$> l) → (length sel < length l)%nat → ∃ c, c ∈ l ∧ c.2 ∉ sel.
Proof using.
  intros Hn Hl. destruct (decide (Exists (λ c, c.2 ∉ sel) l)) as [He|He]; [by apply Exists_exists in He|].
  exfalso. assert (snd <$> l ⊆+ sel) as Hsub.
  { apply NoDup_submseteq; [done|]. intros h (c & -> & Hc)%list_elem_of_fmap. destruct (decide (c.2 ∈ sel)); [done|].
    destruct He. apply Exists_exists. by exists c. }
  apply submseteq_length in Hsub. rewrite length_fmap in Hsub. lia.
Qed.

Lemma modifier_rounds_spec l m rounds n stop sel new :
  Forall (λ c, ∃ b, candidate c b) l → Sorted (λ x y, x.1 <= y.1) l → NoDup (snd <$> l) →
  n = Z.of_nat (length sel) → n + Z.of_nat rounds <= 64 → (length sel + rounds <= length l)%nat →
  ∃ r bs, modifier_rounds mapBlockIndex t l m rounds n stop sel new = Some (Some r) ∧ length bs = rounds ∧ selected l m n stop sel bs ∧
    ∀ j, 0 <= j < 64 → Z.testbit r j = Z.testbit new j || entropy_at n bs j.
Proof using indexed.
  intros Hc Hs Hn. revert n stop sel new. induction rounds as [|rounds IH]; intros n stop sel new En H64 Hl.
  { exists new, []. cbn. split_and!; [done..|]. intros j _. unfold entropy_at. rewrite lookup_nil, andb_false_r, orb_false_r. done. }
  assert (GetStakeModifierSelectionIntervalSection n = Some (sections n 1)) as Esec.
  { cbn [sections]. unfold GetStakeModifierSelectionIntervalSection. rewrite (proj2 (Z.leb_le 0 n)), (proj2 (Z.ltb_lt n 64)) by lia. cbn. f_equal. lia. }
  cbn [modifier_rounds]. rewrite Esec. cbn [mbind option_bind].
  destruct (SelectBlockFromCandidates_spec l sel (stop + sections n 1) m Hc Hs) as (b & -> & Hb).
  { apply unselected_exists; [done|lia]. }
  cbn [mbind option_bind].
  destruct (IH (n + 1) (stop + sections n 1) (b.(phashBlock) :: sel) (Z.lor new (u64 (Z.shiftl (GetStakeEntropyBit b) n)))) as (r & bs & -> & Hlen & Hsel & Hbits);
    [cbn [length]; lia|lia|cbn [length]; lia|].
  exists r, (b :: bs). split_and!; [done|cbn; lia|done|]. intros j Hj. rewrite Hbits, Z.lor_spec, entropy_shift, <- orb_assoc by lia. f_equal.
  unfold entropy_at. destruct (Z.eqb_spec j n) as [->|Hne].
  - rewrite Z.leb_refl, Z.sub_diag, (proj2 (Z.leb_gt (n + 1) n)) by lia. cbn. by rewrite orb_false_r.
  - cbn [andb orb]. destruct (Z.leb_spec n j); [|by rewrite (proj2 (Z.leb_gt _ _)) by lia]. rewrite (proj2 (Z.leb_le _ _)) by lia. cbn [andb].
    replace (Z.to_nat (j - n)) with (S (Z.to_nat (j - (n + 1)))) by lia. done.
Qed.

Lemma selected_nodup l m n stop sel bs : selected l m n stop sel bs →
  NoDup (phashBlock <$> bs) ∧ ∀ b, b ∈ bs → b.(phashBlock) ∉ sel.
Proof using.
  revert n stop sel. induction bs as [|b bs IH]; intros n stop sel; [intros _; split; [constructor|by intros ? ?%elem_of_nil]|].
  cbn [selected]. intros [(Hb & _) Hs]. destruct (IH _ _ _ Hs) as [Hn Hd]. split.
  - apply NoDup_cons. split; [|done]. intros (c & E & Hc)%list_elem_of_fmap. apply (Hd c Hc). rewrite E. by left.
  - intros c [->|Hc]%elem_of_cons; [done|]. intros Hin. apply (Hd c Hc). by right.
Qed.

(** ** The candidates *)

Lemma candidates_since_spec fuel start p b :
  t !! p = Some b → (Z.to_nat b.(nHeight) < fuel)%nat →
  ∃ l, candidates_since fuel t start (Some p) = Some l ∧ Forall (λ c, ∃ b, candidate c b) l ∧ NoDup (snd <$> l) ∧
    Forall (λ c, ∃ q bq, t !! q = Some bq ∧ bq.(phashBlock) = c.2 ∧ bq.(nHeight) <= b.(nHeight)) l.
Proof using wf indexed.
  revert p b. induction fuel as [|fuel IH]; intros p b Hp Hf; [lia|]. cbn [candidates_since]. rewrite Hp. cbn [mbind option_bind].
  destruct (start <=? GetBlockTime b); [|exists []; split_and!; (done || constructor)].
  pose proof (wf p b Hp) as Hok. unfold entry_ok in Hok. destruct (pprev b) as [q|] eqn:Eq.
  - destruct Hok as (bq & Hq & Hbq & Hh & _). destruct (IH q bq Hq ltac:(lia)) as (l & -> & Hc & Hn & Ha). cbn [mbind option_bind].
    eexists. split; [done|]. split_and!.
    + constructor; [|done]. exists b. split; [done|by exists p].
    + apply NoDup_cons. split; [|done]. intros (c & E & Hin)%list_elem_of_fmap. rewrite Forall_forall in Ha.
      destruct (Ha c Hin) as (r & br & Hr & Er & Hhr). cbn in E. pose proof (indexed r br Hr) as Ei. rewrite Er, <- E, (indexed p b Hp) in Ei.
      injection Ei as <-. rewrite Hp in Hr. injection Hr as <-. lia.
    + constructor; [exists p, b; split_and!; (done || lia)|]. eapply Forall_impl; [exact Ha|]. intros c (r & br & ? & ? & ?). exists r, br. split_and!; (done || lia).
  - destruct fuel; cbn [candidates_since mbind option_bind]; (eexists; split; [done|]; split_and!;
      [constructor; [exists b; split; [done|by exists p]|constructor]|apply NoDup_singleton|
       constructor; [exists p, b; split_and!; (done || lia)|constructor]]).
Qed.

#[local] Instance pair_le_total : Total pair_le.
Proof using.
  intros x y. unfold pair_le. destruct (Z.lt_trichotomy x.1 y.1) as [|[E|]]; [by left; left| |by right; left].
  destruct (uint_ltb x.2 y.2) eqn:E1; [left; right; auto|]. right. right. auto.
Qed.

Lemma sorted_by_time l : Sorted (λ x y, x.1 <= y.1) (merge_sort pair_le l).
Proof using.
  induction (Sorted_merge_sort pair_le l) as [|x k Hk IH Hd]; constructor; [done|].
  destruct Hd as [|y k Hxy]; constructor. unfold pair_le in Hxy. lia.
Qed.

(** The last generated modifier. *)
Lemma last_generated_eq fuel p : last_generated fuel t p =
  b ← t !! p;
  match b.(pprev) with
  | Some q => if GeneratedStakeModifier b then Some b else match fuel with O => None | S fuel => last_generated fuel t q end
  | None => Some b
  end.
Proof using. by destruct fuel. Qed.

Lemma is_ancestor_cases p b r : t !! p = Some b → is_ancestor t p r → r = p ∨ ∃ q, b.(pprev) = Some q ∧ is_ancestor t q r.
Proof using.
  intros Hp [[|n] Hn]; [left; by injection Hn|right]. cbn in Hn. rewrite Hp in Hn. cbn in Hn. destruct (pprev b) as [q|]; [|done].
  exists q. split; [done|by exists n].
Qed.

Lemma last_generated_spec fuel p b :
  t !! p = Some b → (Z.to_nat b.(nHeight) <= fuel)%nat →
  ∃ g, last_generated fuel t p = Some g ∧ (∃ q, is_ancestor t p q ∧ t !! q = Some g) ∧
    (GeneratedStakeModifier g = false → ∀ q bq, is_ancestor t p q → t !! q = Some bq → GeneratedStakeModifier bq = false).
Proof using wf.
  revert p b. induction fuel as [|fuel IH]; intros p b Hp Hf; pose proof (wf p b Hp) as Hok; unfold entry_ok in Hok;
    rewrite last_generated_eq, Hp; cbn [mbind option_bind].
  all: destruct (pprev b) as [q|] eqn:Eq; [destruct (GeneratedStakeModifier b) eqn:Eg|].
  all: try (exists b; split_and!; [done|exists p; split; [by exists O|done]|];
    intros Hg r br [->|(q' & Eq' & _)]%(is_ancestor_cases p b r Hp) Hbr; congruence).
  - destruct Hok as (bq & Hq & Hbq & Hh & _). lia.
  - destruct Hok as (bq & Hq & Hbq & Hh & _). destruct (IH q bq Hq ltac:(lia)) as (g & Hlast & (r & [n Hn] & Hr) & Hall).
    exists g. split; [exact Hlast|]. split; [exists r; split; [exists (S n); cbn; rewrite Hp; cbn; by rewrite Eq|done]|].
    intros Hg r' br' [->|(q' & Eq' & Ha)]%(is_ancestor_cases p b r' Hp) Hbr'; [congruence|].
    rewrite Eq in Eq'. injection Eq' as <-. by apply (Hall Hg r' br').
Qed.

(** ** The modifier *)

(** Modifiers of the first version. *)
Hypothesis modifiers : ∀ p b, t !! p = Some b → GeneratedStakeModifier b = true → length b.(vStakeModifier) = 8%nat.

(** the computation of a stake modifier above the first block always
    answers: it fails only when no ancestor has generated a modifier, and never
    because a round finds no block.  When it generates a new modifier, the
    rounds select as many different ancestors since the start of the interval
    as there are, up to 64, each with the smallest selection hash among the
    blocks that its interval leaves, and the bits of the modifier are their
    entropy bits. *)
Theorem ComputeNextStakeModifier_selects (address : Z) (prev : ptr) (b : CBlockIndex) :
  t !! prev = Some b → 0 < b.(nHeight) →
  ∃ ok m g, ComputeNextStakeModifier address mapBlockIndex t (Some prev) = Some (ok, m, g) ∧
    (ok = false → ∀ q bq, is_ancestor t prev q → t !! q = Some bq → GeneratedStakeModifier bq = false) ∧
    (g = true → ∃ start m0 ancestors l bs,
       candidates_since (S (Z.to_nat b.(nHeight))) t start (Some prev) = Some ancestors ∧ l ≡ₚ ancestors ∧
       length bs = Nat.min 64 (length ancestors) ∧ NoDup (phashBlock <$> bs) ∧ selected l m0 0 start [] bs ∧
       ∀ j, 0 <= j < 64 → Z.testbit m j = entropy_at 0 bs j).
Proof using wf indexed modifiers.
  intros Hp Hh. cbn [ComputeNextStakeModifier]. rewrite Hp. cbn [mbind option_bind]. rewrite (proj2 (Z.eqb_neq _ _)) by lia.
  destruct (last_generated_spec (Z.to_nat b.(nHeight)) prev b Hp ltac:(lia)) as (g & -> & (q & _ & Hq) & Hnone). cbn [mbind option_bind].
  destruct (GeneratedStakeModifier g) eqn:Eg; cbn [negb]; [|by exists false, 0, false; split_and!; [done|intros _; by apply Hnone|]].
  unfold GetStakeModifierV1. pose proof (modifiers q g Hq Eg) as H8. destruct (vStakeModifier g) as [|x v]; [done|]. rewrite bool_decide_true by done.
  cbn [mbind option_bind]. set (m0 := ReadLE (x :: v)). destruct (_ <=? _); [by exists true, m0, false|].
  set (start := _ - OLD_MODIFIER_INTERVAL).
  destruct (candidates_since_spec (S (Z.to_nat b.(nHeight))) start prev b Hp ltac:(lia)) as (anc & Hanc & Hc & Hn & _). rewrite Hanc. cbn [mbind option_bind].
  assert (merge_sort pair_le (reverse anc) ≡ₚ anc) as Hperm by (rewrite (merge_sort_Permutation pair_le); apply reverse_Permutation).
  set (l := merge_sort pair_le (reverse anc)) in *.
  destruct (modifier_rounds_spec l m0 (Nat.min 64 (length l)) 0 start [] 0) as (r & bs & -> & Hlen & Hsel & Hbits);
    [by rewrite Hperm|apply sorted_by_time|by rewrite Hperm|done|lia|cbn [length]; lia|].
  cbn [mbind option_bind]. exists true, r, true. split_and!; [done|done|]. intros _.
  exists start, m0, anc, l, bs. split_and!; [done|done|by rewrite Hlen, Hperm|by apply (selected_nodup l m0 0 start [])|done|].
  intros j Hj. by rewrite Hbits, Z.bits_0.
Qed.
End selection.

(** ** Example *)

(** Six blocks, of which the second has generated a modifier. *)
Definition modifier_tree : BlockTree := alter (λ b, SetStakeModifierV1 b 5 true) 2%positive (sample_main 5).
Definition modifier_index : gmap base_uint ptr :=
  list_to_map ((λ '(p, b), (b.(phashBlock), p)) <$> map_to_list modifier_tree).

Lemma ComputeNextStakeModifier_selects_witness :
  ∃ m, @ComputeNextStakeModifier sample_crypto 0 modifier_index modifier_tree (Some 5%positive) = Some (true, m, true).
Proof.
  destruct (@ComputeNextStakeModifier_selects sample_crypto modifier_index modifier_tree) with (address := 0) (prev := 5%positive)
    (b := default (sample_entry 1 None 0 0) (modifier_tree !! 5%positive)) as (ok & m & g & E & _).
  - apply (bool_decide_unpack _). vm_compute. exact I.
  - assert (map_Forall (λ p b, modifier_index !! b.(phashBlock) = Some p) modifier_tree) as Hi.
    { apply (bool_decide_unpack _). vm_compute. exact I. }
    exact Hi.
  - assert (map_Forall (λ p b, GeneratedStakeModifier b = true → length b.(vStakeModifier) = 8%nat) modifier_tree) as Hi.
    { apply (bool_decide_unpack _). vm_compute. exact I. }
    exact Hi.
  - vm_compute. reflexivity.
  - vm_compute. reflexivity.
  - revert E. vm_compute. intros [= <- <- <-]. eexists. reflexivity.
Defined.
