(* ===== verification/ChainState.v ===== *)
(** * ChainState: the choice of the active chain ([validation.cpp])

    The block index with its candidates, and the functions that move the active
    chain: [FindMostWorkChain], [ConnectTip], [DisconnectTip],
    [ActivateBestChainStep], [ActivateBestChain], [InvalidateBlock],
    [ReconsiderBlock] and [ReceivedBlockTransactions].

    What a block does to the coins is behind the interface [ChainCoins]; the
    promises that it makes are the class [ChainCoinsLaws].  The memory pool, the
    masternode and multi-mining caches, the notifications and the marks of
    entries to be written to disk do not act on the choice of the chain. *)

From S2P Require Import Prelude ArithUint256 Params Transaction Chain.
Local Open Scope Z_scope.

(** ** The interface to the coins *)

(** The answers of [ReadBlockFromDisk], [ConnectBlock], [Flush] and
    [FlushStateToDisk] together: the block is connected, with the position of
    its undo data; it breaks a rule, possibly because the data are corrupted;
    or the system fails, perhaps after the coins were changed and the undo data
    were written at a position. *)
Inductive connect_result (S : Type) :=
  | Connected (coins : S) (nUndoPos : Z)
  | InvalidBlock (corruption : bool)
  | SystemError (coins : S) (nUndoPos : option Z).
Inductive disconnect_result (S : Type) :=
  | Disconnected (coins : S)
  | DisconnectFailed (coins : S).
Arguments Connected {S}. Arguments InvalidBlock {S}. Arguments SystemError {S}.
Arguments Disconnected {S}. Arguments DisconnectFailed {S}.

Class ChainCoins (S : Type) := {
  coins_connect : BlockTree → ptr → S → connect_result S;
  coins_disconnect : BlockTree → ptr → S → disconnect_result S;
}.

(** ** The state *)

Record ChainState (S : Type) := mkChainState {
  cs_tree : BlockTree;
  cs_active : CChain;
  cs_candidates : gset ptr;
  cs_unlinked : list (ptr * ptr);
  cs_best_invalid : option ptr;
  cs_sequence : Z;
  cs_coins : S;
}.
Arguments mkChainState {S}. Arguments cs_tree {S}. Arguments cs_active {S}. Arguments cs_candidates {S}.
Arguments cs_unlinked {S}. Arguments cs_best_invalid {S}. Arguments cs_sequence {S}. Arguments cs_coins {S}.

Definition set_nUndoPos (b : CBlockIndex) (pos : Z) : CBlockIndex :=
  let '(mkCBlockIndex a1 a2 a3 a4 a5 a6 _ a8 a9 a10 a11 a12 a13 a14 a15 a16 a17 a18 a19 a20 a21 a22 a23) := b in
  mkCBlockIndex a1 a2 a3 a4 a5 a6 pos a8 a9 a10 a11 a12 a13 a14 a15 a16 a17 a18 a19 a20 a21 a22 a23.

(** [CBlockIndexWorkComparator]: [pa] is worse than [pb]. *)
Definition entry_less (pa pb : ptr) (a b : CBlockIndex) : bool :=
  if uint_gtb a.(nChainWork) b.(nChainWork) then false
  else if uint_ltb a.(nChainWork) b.(nChainWork) then true
  else if a.(nSequenceId) <? b.(nSequenceId) then false
  else if b.(nSequenceId) <? a.(nSequenceId) then true
  else if (pa <? pb)%positive then false
  else if (pb <? pa)%positive then true
  else false.
Definition work_less (t : BlockTree) (pa pb : ptr) : option bool :=
  a ← t !! pa; b ← t !! pb; Some (entry_less pa pb a b).

Definition failed (b : CBlockIndex) : bool := negb (Z.land b.(nStatus) BLOCK_FAILED_MASK =? 0).
Definition have_data (b : CBlockIndex) : bool := negb (Z.land b.(nStatus) BLOCK_HAVE_DATA =? 0).
Definition have_undo (b : CBlockIndex) : bool := negb (Z.land b.(nStatus) BLOCK_HAVE_UNDO =? 0).

(** [pindex->nStatus |= flag]. *)
Definition add_status (flag : Z) (p : ptr) (t : BlockTree) : BlockTree :=
  alter (λ b, set_nStatus b (Z.lor b.(nStatus) flag)) p t.

Section chainstate.
Context {S : Type} `{!ChainCoins S}.
Abbreviation State := (ChainState S).

Definition with_tree (t : BlockTree) (s : State) : State :=
  mkChainState t s.(cs_active) s.(cs_candidates) s.(cs_unlinked) s.(cs_best_invalid) s.(cs_sequence) s.(cs_coins).
Definition with_active (c : CChain) (s : State) : State :=
  mkChainState s.(cs_tree) c s.(cs_candidates) s.(cs_unlinked) s.(cs_best_invalid) s.(cs_sequence) s.(cs_coins).
Definition with_candidates (c : gset ptr) (s : State) : State :=
  mkChainState s.(cs_tree) s.(cs_active) c s.(cs_unlinked) s.(cs_best_invalid) s.(cs_sequence) s.(cs_coins).
Definition with_unlinked (u : list (ptr * ptr)) (s : State) : State :=
  mkChainState s.(cs_tree) s.(cs_active) s.(cs_candidates) u s.(cs_best_invalid) s.(cs_sequence) s.(cs_coins).
Definition with_best_invalid (p : option ptr) (s : State) : State :=
  mkChainState s.(cs_tree) s.(cs_active) s.(cs_candidates) s.(cs_unlinked) p s.(cs_sequence) s.(cs_coins).
Definition with_sequence (n : Z) (s : State) : State :=
  mkChainState s.(cs_tree) s.(cs_active) s.(cs_candidates) s.(cs_unlinked) s.(cs_best_invalid) n s.(cs_coins).
Definition with_coins (c : S) (s : State) : State :=
  mkChainState s.(cs_tree) s.(cs_active) s.(cs_candidates) s.(cs_unlinked) s.(cs_best_invalid) s.(cs_sequence) c.

Definition erase_candidate (p : ptr) (s : State) : State := with_candidates (s.(cs_candidates) ∖ {[p]}) s.
Definition tip (s : State) : option ptr := Chain_Tip s.(cs_active).

(** ** [FindMostWorkChain] *)

(** [*setBlockIndexCandidates.rbegin()]: the last candidate in the order. *)
Fixpoint last_in_order (t : BlockTree) (l : list ptr) (best : ptr) : option ptr :=
  match l with
  | [] => Some best
  | p :: l => worse ← work_less t best p; last_in_order t l (if worse : bool then p else best)
  end.
Definition best_candidate (s : State) : option (option ptr) :=
  match elements s.(cs_candidates) with
  | [] => Some None
  | p :: l => b ← last_in_order s.(cs_tree) l p; Some (Some b)
  end.

(** The walk from a candidate down to the active chain: the first block that is
    failed or has no data, and whether it is failed.  Heights decrease, so the
    height of the candidate plus one rounds suffice. *)
Fixpoint first_unusable (fuel : nat) (t : BlockTree) (active : CChain) (pindexTest : option ptr) :
    option (option (ptr * bool)) :=
  match pindexTest with
  | None => Some None
  | Some p =>
      inside ← Chain_Contains t active p;
      if inside : bool then Some None
      else
        b ← t !! p;
        if (b.(nChainTx) =? 0) && negb (b.(nHeight) =? 0) then None
        else if failed b || negb (have_data b) then Some (Some (p, failed b))
        else match fuel with
             | O => None
             | Datatypes.S fuel => first_unusable fuel t active b.(pprev)
             end
  end.

(** The removal of the chain from the candidate down to that block. *)
Fixpoint remove_chain (fuel : nat) (fFailedChain : bool) (pindexTest pindexFailed : ptr) (s : State) : option State :=
  if bool_decide (pindexTest = pindexFailed) then Some (erase_candidate pindexTest s)
  else match fuel with
  | O => None
  | Datatypes.S fuel =>
      b ← s.(cs_tree) !! pindexFailed;
      prev ← b.(pprev);
      let s := if fFailedChain then with_tree (add_status BLOCK_FAILED_CHILD pindexFailed s.(cs_tree)) s
               else with_unlinked (s.(cs_unlinked) ++ [(prev, pindexFailed)]) s in
      remove_chain fuel fFailedChain pindexTest prev (erase_candidate pindexFailed s)
  end.

(** [pindexBestInvalid == NULL || p->nChainWork > pindexBestInvalid->nChainWork]. *)
Definition more_work_than_invalid (p : ptr) (s : State) : option bool :=
  match s.(cs_best_invalid) with
  | None => Some true
  | Some q => b ← s.(cs_tree) !! p; bq ← s.(cs_tree) !! q; Some (uint_gtb b.(nChainWork) bq.(nChainWork))
  end.

(** Every round that does not answer erases a candidate, so as many rounds as
    there are candidates suffice. *)
Fixpoint FindMostWorkChain_loop (fuel : nat) (s : State) : option (option ptr * State) :=
  best ← best_candidate s;
  match best with
  | None => Some (None, s)
  | Some pindexNew =>
      b ← s.(cs_tree) !! pindexNew;
      bad ← first_unusable (Z.to_nat (b.(nHeight) + 1)) s.(cs_tree) s.(cs_active) (Some pindexNew);
      match bad with
      | None => Some (Some pindexNew, s)
      | Some (pindexTest, fFailedChain) =>
          more ← (if fFailedChain then more_work_than_invalid pindexNew s else Some false);
          let s := if more : bool then with_best_invalid (Some pindexNew) s else s in
          s ← remove_chain (Z.to_nat (b.(nHeight) + 1)) fFailedChain pindexTest pindexNew s;
          match fuel with O => None | Datatypes.S fuel => FindMostWorkChain_loop fuel s end
      end
  end.
Definition FindMostWorkChain (s : State) : option (option ptr * State) :=
  FindMostWorkChain_loop (size s.(cs_candidates)) s.

(** [PruneBlockIndexCandidates]; [None] is the failed assertion. *)
Definition PruneBlockIndexCandidates (s : State) : option State :=
  t ← tip s;
  let keep := filter (λ p, work_less s.(cs_tree) p t ≠ Some true) s.(cs_candidates) in
  if bool_decide (keep = ∅) then None else Some (with_candidates keep s).

(** ** Moving the tip *)

(** [InvalidChainFound], with its assertion; the rest of it writes the log and
    the warnings. *)
Definition InvalidChainFound (p : ptr) (s : State) : option State :=
  more ← more_work_than_invalid p s;
  let s := if more : bool then with_best_invalid (Some p) s else s in
  _ ← tip s;
  Some s.

Definition InvalidBlockFound (p : ptr) (corruption : bool) (s : State) : option State :=
  if corruption then Some s
  else InvalidChainFound p (erase_candidate p (with_tree (add_status BLOCK_FAILED_VALID p s.(cs_tree)) s)).

(** What [ConnectBlock] does to the entry of a block other than the genesis. *)
Definition mark_connected (pos : Z) (b : CBlockIndex) : option CBlockIndex :=
  valid ← IsValid b BLOCK_VALID_SCRIPTS;
  if negb (have_undo b) || negb valid then
    let b := if negb (have_undo b) then set_nStatus (set_nUndoPos b pos) (Z.lor b.(nStatus) BLOCK_HAVE_UNDO) else b in
    '(_, b) ← RaiseValidity b BLOCK_VALID_SCRIPTS;
    Some b
  else Some b.

Inductive tip_result := TipConnected | TipInvalid (corruption : bool) | TipError.

Definition ConnectTip (pindexNew : ptr) (s : State) : option (tip_result * State) :=
  b ← s.(cs_tree) !! pindexNew;
  if negb (bool_decide (b.(pprev) = tip s)) then None
  else match coins_connect s.(cs_tree) pindexNew s.(cs_coins) with
  | InvalidBlock corruption => s ← InvalidBlockFound pindexNew corruption s; Some (TipInvalid corruption, s)
  | SystemError c None => Some (TipError, with_coins c s)
  | SystemError c (Some pos) =>
      b ← mark_connected pos b;
      Some (TipError, with_coins c (with_tree (<[pindexNew := b]> s.(cs_tree)) s))
  | Connected c pos =>
      b ← (if bool_decide (b.(pprev) = None) then Some b else mark_connected pos b);
      let s := with_coins c (with_tree (<[pindexNew := b]> s.(cs_tree)) s) in
      active ← SetTip s.(cs_tree) s.(cs_active) (Some pindexNew);
      Some (TipConnected, with_active active s)
  end.

(** [DisconnectTip]: the answer says whether it succeeded; [UpdateTip] does not
    accept the null pointer. *)
Definition DisconnectTip (s : State) : option (bool * State) :=
  pindexDelete ← tip s;
  b ← s.(cs_tree) !! pindexDelete;
  match coins_disconnect s.(cs_tree) pindexDelete s.(cs_coins) with
  | DisconnectFailed c => Some (false, with_coins c s)
  | Disconnected c =>
      prev ← b.(pprev);
      active ← SetTip s.(cs_tree) s.(cs_active) (Some prev);
      Some (true, with_active active (with_coins c s))
  end.

(** ** [ActivateBestChainStep] *)

(** [while (chainActive.Tip() && chainActive.Tip() != pindexFork)]. *)
Fixpoint disconnect_loop (fuel : nat) (pindexFork : option ptr) (s : State) : option (bool * State) :=
  match tip s with
  | None => Some (true, s)
  | Some t =>
      if bool_decide (Some t = pindexFork) then Some (true, s)
      else match fuel with
      | O => None
      | Datatypes.S fuel =>
          '(ok, s) ← DisconnectTip s;
          if ok : bool then disconnect_loop fuel pindexFork s else Some (false, s)
      end
  end.

(** The blocks from [pindexIter] down to above [nHeight], in that order. *)
Fixpoint to_connect (fuel : nat) (t : BlockTree) (pindexIter : option ptr) (height : Z) : option (list ptr) :=
  match pindexIter with
  | None => Some []
  | Some p =>
      b ← t !! p;
      if b.(nHeight) =? height then Some []
      else match fuel with
           | O => None
           | Datatypes.S fuel => l ← to_connect fuel t b.(pprev) height; Some (p :: l)
           end
  end.

(** The outcome of connecting a list of blocks: all of them are connected; the
    tip has become better than the old one; a block was invalid; or the system
    failed. *)
Inductive connect_outcome := AllConnected | BetterTip | FoundInvalid | ConnectFailed.

(** The loop over [reverse_iterate(vpindexToConnect)], with [front] the first
    entry of the vector. *)
Fixpoint connect_blocks (front : option ptr) (oldTip : option ptr) (l : list ptr) (s : State) : option (connect_outcome * State) :=
  match l with
  | [] => Some (AllConnected, s)
  | p :: l =>
      '(r, s) ← ConnectTip p s;
      match r with
      | TipInvalid corruption =>
          s ← (if corruption : bool then Some s else f ← front; InvalidChainFound f s);
          Some (FoundInvalid, s)
      | TipError => Some (ConnectFailed, s)
      | TipConnected =>
          s ← PruneBlockIndexCandidates s;
          t ← tip s; bt ← s.(cs_tree) !! t;
          better ← match oldTip with
                   | None => Some true
                   | Some o => bo ← s.(cs_tree) !! o; Some (uint_gtb bt.(nChainWork) bo.(nChainWork))
                   end;
          if better : bool then Some (BetterTip, s) else connect_blocks front oldTip l s
      end
  end.

(** The batches of at most 32 blocks; the height grows on every round. *)
Fixpoint connect_batches (fuel : nat) (oldTip : option ptr) (pindexMostWork : ptr) (height : Z) (s : State) :
    option (connect_outcome * State) :=
  bm ← s.(cs_tree) !! pindexMostWork;
  if height =? bm.(nHeight) then Some (AllConnected, s)
  else match fuel with
  | O => None
  | Datatypes.S fuel =>
      let nTargetHeight := Z.min (height + 32) bm.(nHeight) in
      start ← GetAncestor s.(cs_tree) pindexMostWork nTargetHeight;
      l ← to_connect (Z.to_nat (nTargetHeight - height)) s.(cs_tree) start height;
      '(r, s) ← connect_blocks (head l) oldTip (reverse l) s;
      match r with
      | AllConnected => connect_batches fuel oldTip pindexMostWork nTargetHeight s
      | _ => Some (r, s)
      end
  end.

(** The first result says whether the step succeeded, the second one whether an
    invalid block was found. *)
Definition ActivateBestChainStep (pindexMostWork : ptr) (s : State) : option (bool * bool * State) :=
  let oldTip := tip s in
  pindexFork ← FindFork s.(cs_tree) s.(cs_active) (Some pindexMostWork);
  '(ok, s) ← disconnect_loop (length s.(cs_active)) pindexFork s;
  if negb ok then Some (false, false, s)
  else
    height ← match pindexFork with Some f => b ← s.(cs_tree) !! f; Some b.(nHeight) | None => Some (-1) end;
    bm ← s.(cs_tree) !! pindexMostWork;
    '(r, s) ← connect_batches (Z.to_nat (bm.(nHeight) - height)) oldTip pindexMostWork height s;
    Some (match r with
          | ConnectFailed => (false, false, s)
          | FoundInvalid => (true, true, s)
          | _ => (true, false, s)
          end).

(** ** [ActivateBestChain] *)

(** The inner loop: the answer is [None] when a step has failed, otherwise
    [pindexMostWork] and whether anything was connected.  [running] is the fuel
    that the loops share. *)
Fixpoint activate_inner (fuel : nat) (starting : option ptr) (pindexMostWork : option ptr) (blocks_connected : bool) (s : State) :
    option (option (option ptr * bool) * State) :=
  match fuel with
  | O => None
  | Datatypes.S fuel =>
      '(most, s) ← match pindexMostWork with None => FindMostWorkChain s | Some p => Some (Some p, s) end;
      match most with
      | None => Some (Some (None, blocks_connected), s)
      | Some p =>
          if bool_decide (Some p = tip s) then Some (Some (Some p, blocks_connected), s)
          else
            '(ok, fInvalidFound, s) ← ActivateBestChainStep p s;
            if negb ok then Some (None, s)
            else
              let most := if fInvalidFound : bool then None else Some p in
              again ← match tip s, starting with
                      | None, _ => Some true
                      | Some t, Some st => work_less s.(cs_tree) t st
                      | Some _, None => Some false
                      end;
              if again : bool then activate_inner fuel starting most true s
              else Some (Some (most, true), s)
      end
  end.

(** The outer loop, without a shutdown request; the answer says whether all the
    steps succeeded. *)
Fixpoint activate_outer (fuel : nat) (pindexMostWork : option ptr) (s : State) : option (bool * State) :=
  match fuel with
  | O => None
  | Datatypes.S fuel =>
      '(r, s) ← activate_inner fuel (tip s) pindexMostWork false s;
      match r with
      | None => Some (false, s)
      | Some (most, blocks_connected) =>
          if negb blocks_connected then Some (true, s)
          else if bool_decide (most = tip s) then Some (true, s)
          else activate_outer fuel most s
      end
  end.

(** A round that is not the last one finds an invalid block or a better tip, so
    the square of the number of blocks bounds their number. *)
Definition ActivateBestChain (s : State) : option (bool * State) :=
  let n := size s.(cs_tree) in activate_outer ((n + 1) * (n + 1) + 1) None s.

(** ** [InvalidateBlock] and [ReconsiderBlock] *)

(** [while (chainActive.Contains(pindex))]: the tip is flagged and disconnected. *)
Fixpoint invalidate_loop (fuel : nat) (pindex : ptr) (s : State) : option (bool * State) :=
  inside ← Chain_Contains s.(cs_tree) s.(cs_active) pindex;
  if negb inside then Some (true, s)
  else match fuel with
  | O => None
  | Datatypes.S fuel =>
      pindexWalk ← tip s;
      '(ok, s) ← DisconnectTip (erase_candidate pindexWalk (with_tree (add_status BLOCK_FAILED_CHILD pindexWalk s.(cs_tree)) s));
      if ok : bool then invalidate_loop fuel pindex s else Some (false, s)
  end.

(** [IsValid(BLOCK_VALID_TRANSACTIONS) && nChainTx]. *)
Definition has_chain (b : CBlockIndex) : bool :=
  bool_decide (IsValid b BLOCK_VALID_TRANSACTIONS = Some true) && negb (b.(nChainTx) =? 0).

(** The blocks that [InvalidateBlock] makes candidates again. *)
Definition not_worse_than_tip (t : BlockTree) (tp : ptr) : gset ptr :=
  dom (filter (λ kb : ptr * CBlockIndex, has_chain kb.2 = true ∧ work_less t kb.1 tp ≠ Some true) t).

Definition InvalidateBlock (pindex : ptr) (s : State) : option (bool * State) :=
  let s := erase_candidate pindex (with_tree (add_status BLOCK_FAILED_VALID pindex s.(cs_tree)) s) in
  '(ok, s) ← invalidate_loop (length s.(cs_active)) pindex s;
  if negb ok then Some (false, s)
  else
    t ← tip s;
    let s := with_candidates (s.(cs_candidates) ∪ not_worse_than_tip s.(cs_tree) t) s in
    s ← InvalidChainFound pindex s;
    Some (true, s).

(** [nStatus &= ~BLOCK_FAILED_MASK]. *)
Definition clear_failed (b : CBlockIndex) : CBlockIndex :=
  set_nStatus b (Z.land b.(nStatus) (u32 (Z.lnot BLOCK_FAILED_MASK))).

(** The blocks of the first loop: not valid, and with [pindex] as the ancestor
    at its height. *)
Definition reconsidered (t : BlockTree) (pindex : ptr) (nHeight : Z) (kb : ptr * CBlockIndex) : Prop :=
  IsValid kb.2 BLOCK_VALID_TRANSACTIONS = Some false ∧ GetAncestor t kb.1 nHeight = Some (Some pindex).
#[export] Instance reconsidered_dec t pindex h kb : Decision (reconsidered t pindex h kb).
Proof. unfold reconsidered. apply _. Defined.

(** The flags of the ancestors are cleared too, but the ancestors do not become
    candidates. *)
Fixpoint clear_ancestors (fuel : nat) (pindex : option ptr) (t : BlockTree) : option BlockTree :=
  match pindex with
  | None => Some t
  | Some p =>
      b ← t !! p;
      let t := if failed b then <[p := clear_failed b]> t else t in
      match fuel with
      | O => None
      | Datatypes.S fuel => clear_ancestors fuel b.(pprev) t
      end
  end.

Definition ReconsiderBlock (pindex : ptr) (s : State) : option State :=
  b ← s.(cs_tree) !! pindex;
  tp ← tip s;
  let hit := filter (reconsidered s.(cs_tree) pindex b.(nHeight)) s.(cs_tree) in
  let cleared := clear_failed <$> hit in
  let t := cleared ∪ s.(cs_tree) in
  let fresh := dom (filter (λ kb : ptr * CBlockIndex, has_chain kb.2 = true ∧ work_less t tp kb.1 = Some true) cleared) in
  let best_invalid := match s.(cs_best_invalid) with
                      | Some q => if bool_decide (q ∈ dom hit) then None else Some q
                      | None => None
                      end in
  t ← clear_ancestors (Z.to_nat (b.(nHeight) + 1)) (Some pindex) t;
  Some (with_best_invalid best_invalid (with_candidates (s.(cs_candidates) ∪ fresh) (with_tree t s))).

(** ** [ReceivedBlockTransactions] *)

(** The Sapling value that the transactions add to the pool. *)
Definition sapling_value (vtx : list CTransaction) : Z :=
  foldl (λ v tx, if IsShieldedTx tx then match tx.(sapData) with Some d => i64 (v + - d.(valueBalance)) | None => v end else v) 0 vtx.

(** [CBlock::IsProofOfStake]. *)
Definition Block_IsProofOfStake (vtx : list CTransaction) : bool :=
  match vtx with _ :: tx :: _ => IsCoinStake tx | _ => false end.

Definition set_received (b : CBlockIndex) (vtx : list CTransaction) (file pos : Z) : CBlockIndex :=
  let '(mkCBlockIndex a1 a2 a3 a4 _ _ _ a8 _ _ a11 a12 a13 _ _ a16 a17 a18 a19 a20 a21 a22 a23) :=
    (if Block_IsProofOfStake vtx then SetProofOfStake b else b) in
  mkCBlockIndex a1 a2 a3 a4 file pos 0 a8 (u32 (Z.of_nat (length vtx))) 0 (Z.lor a11 BLOCK_HAVE_DATA) a12 a13
    (sapling_value vtx) None a16 a17 a18 a19 a20 a21 a22 a23.
Definition set_linked (b : CBlockIndex) (nChainTx nSequenceId : Z) : CBlockIndex :=
  let '(mkCBlockIndex a1 a2 a3 a4 a5 a6 a7 a8 a9 _ a11 a12 a13 a14 a15 a16 a17 a18 a19 a20 a21 a22 _) := b in
  mkCBlockIndex a1 a2 a3 a4 a5 a6 a7 a8 a9 nChainTx a11 a12 a13 a14 a15 a16 a17 a18 a19 a20 a21 a22 nSequenceId.

(** The block at the front of the queue gets its number of transactions, its
    place in the order of arrival, and becomes a candidate. *)
Definition link_one (p : ptr) (s : State) : option State :=
  b ← s.(cs_tree) !! p;
  base ← match b.(pprev) with Some q => bq ← s.(cs_tree) !! q; Some bq.(nChainTx) | None => Some 0 end;
  b ← SetChainSaplingValue s.(cs_tree) (set_linked b (u32 (base + b.(nTx))) s.(cs_sequence));
  let s := with_sequence (u32 (s.(cs_sequence) + 1)) (with_tree (<[p := b]> s.(cs_tree)) s) in
  worse ← match tip s with Some t => work_less s.(cs_tree) p t | None => Some false end;
  Some (if worse : bool then s else with_candidates (s.(cs_candidates) ∪ {[p]}) s).

(** The queue: every round but the first takes an entry of [mapBlocksUnlinked]
    away, so one more round than it has entries suffices. *)
Fixpoint link_blocks (fuel : nat) (queue : list ptr) (s : State) : option State :=
  match queue with
  | [] => Some s
  | p :: queue =>
      match fuel with
      | O => None
      | Datatypes.S fuel =>
          s ← link_one p s;
          let children := filter (λ e : ptr * ptr, e.1 = p) s.(cs_unlinked) in
          link_blocks fuel (queue ++ children.*2) (with_unlinked (filter (λ e : ptr * ptr, e.1 ≠ p) s.(cs_unlinked)) s)
      end
  end.

Definition ReceivedBlockTransactions (vtx : list CTransaction) (pindexNew : ptr) (file pos : Z) (s : State) : option State :=
  b ← s.(cs_tree) !! pindexNew;
  '(_, b) ← RaiseValidity (set_received b vtx file pos) BLOCK_VALID_TRANSACTIONS;
  let s := with_tree (<[pindexNew := b]> s.(cs_tree)) s in
  match b.(pprev) with
  | None => link_blocks (length s.(cs_unlinked) + 1) [pindexNew] s
  | Some q =>
      bq ← s.(cs_tree) !! q;
      if negb (bq.(nChainTx) =? 0) then link_blocks (length s.(cs_unlinked) + 1) [pindexNew] s
      else
        valid ← IsValid bq BLOCK_VALID_TREE;
        Some (if valid : bool then with_unlinked (s.(cs_unlinked) ++ [(q, pindexNew)]) s else s)
  end.
End chainstate.
