(* ===== verification/ChainActivate.v ===== *)
(** * ChainActivate: the active chain is the best one ([validation.cpp])

    The invariant of the chain state, and the correctness of
    [FindMostWorkChain] and [ActivateBestChain].  The invariant names the best
    tip so far: a chain that was connected once can be found invalid when it is
    connected again, and the code then falls back without looking at the blocks
    that are worse than that tip. *)

From S2P Require Import Prelude ArithUint256 Params Chain ChainState.
Local Open Scope Z_scope.

(** ** Changes that keep the shape of the tree *)

(** Everything of an entry but its status and the position of its undo data. *)
Definition shape (b : CBlockIndex) : CBlockIndex := set_nStatus (set_nUndoPos b 0) 0.
Definition same_shape (t t' : BlockTree) : Prop := ∀ p : ptr, shape <$> t !! p = shape <$> t' !! p.

#[export] Instance same_shape_equiv : Equivalence same_shape.
Proof. split; [done|intros t t' H p; by rewrite H|]. intros t1 t2 t3 H1 H2 p. by rewrite H1, H2. Qed.

Lemma shape_fields b b' : shape b = shape b' →
  pprev b = pprev b' ∧ pskip b = pskip b' ∧ nHeight b = nHeight b' ∧ nChainWork b = nChainWork b' ∧
  nChainTx b = nChainTx b' ∧ nSequenceId b = nSequenceId b'.
Proof. destruct b, b'. cbn. intros [=]. by simplify_eq. Qed.

Lemma same_shape_lookup t t' p b : same_shape t t' → t !! p = Some b → ∃ b', t' !! p = Some b' ∧ shape b = shape b'.
Proof. intros Hs Hp. specialize (Hs p). rewrite Hp in Hs. destruct (t' !! p) as [b'|]; [|done]. injection Hs. eauto. Qed.

Lemma same_shape_up t t' p n : same_shape t t' → up t p n = up t' p n.
Proof.
  intros Hs. revert p. induction n as [|n IH]; intros p; [done|]. cbn [up]. specialize (Hs p).
  destruct (t !! p) as [b|], (t' !! p) as [b'|]; try done. injection Hs as Hb. cbn [mbind option_bind].
  apply shape_fields in Hb as [-> _]. destruct (pprev b'); [|done]. cbn. apply IH.
Qed.

Lemma same_shape_ancestor t t' p q : same_shape t t' → is_ancestor t p q ↔ is_ancestor t' p q.
Proof. intros Hs. unfold is_ancestor. by setoid_rewrite (same_shape_up t t' p _ Hs). Qed.

Lemma same_shape_wf t t' : same_shape t t' → wf_tree t → wf_tree t'.
Proof.
  intros Hs Hwf p b' Hp'. symmetry in Hs. destruct (same_shape_lookup t' t p b' Hs Hp') as (b & Hp & Hb).
  apply shape_fields in Hb as (E1 & E2 & E3 & _). specialize (Hwf p b Hp). unfold entry_ok in *. rewrite E1, E2, E3.
  destruct (pprev b) as [q|]; [|done]. destruct Hwf as (bq & Hq & H0 & Hh & Hk).
  symmetry in Hs. destruct (same_shape_lookup t t' q bq Hs Hq) as (bq' & Hq' & Hbq).
  apply shape_fields in Hbq as (_ & _ & E & _). exists bq'. rewrite <- E. split_and!; [done|done|done|].
  by rewrite Hk, (same_shape_up t t' q _ Hs).
Qed.

Lemma same_shape_chain t t' c p : same_shape t t' → chain_to t c p → chain_to t' c p.
Proof.
  intros Hs (b & Hb & Hl & Hi). destruct (same_shape_lookup t t' p b Hs Hb) as (b' & Hb' & E).
  apply shape_fields in E as (_ & _ & E & _). exists b'. rewrite <- E. split_and!; [done|done|].
  intros i Hlt. by rewrite (Hi i Hlt), (same_shape_up t t' p _ Hs).
Qed.

Lemma same_shape_less t t' p q : same_shape t t' → work_less t p q = work_less t' p q.
Proof.
  intros Hs. unfold work_less. pose proof (Hs p) as Hp. pose proof (Hs q) as Hq.
  destruct (t !! p) as [b|], (t' !! p) as [b'|]; try done.
  destruct (t !! q) as [c|], (t' !! q) as [c'|]; try done. injection Hp as Hp. injection Hq as Hq.
  apply shape_fields in Hp as (_ & _ & _ & E1 & _ & E2). apply shape_fields in Hq as (_ & _ & _ & E3 & _ & E4).
  cbn. unfold entry_less. by rewrite E1, E2, E3, E4.
Qed.

Lemma same_shape_alter t p f : (∀ b, shape (f b) = shape b) → same_shape t (alter f p t).
Proof.
  intros Hf q. destruct (decide (p = q)) as [->|Hne]; [|by rewrite lookup_alter_ne].
  rewrite lookup_alter_eq. destruct (t !! q); [|done]. cbn. by rewrite Hf.
Qed.

Lemma shape_set_nStatus b st : shape (set_nStatus b st) = shape b.
Proof. by destruct b. Qed.
Lemma shape_set_nUndoPos b pos : shape (set_nUndoPos b pos) = shape b.
Proof. by destruct b. Qed.

Lemma same_shape_insert t p b b' : t !! p = Some b → shape b' = shape b → same_shape t (<[p := b']> t).
Proof.
  intros Hp Hb q. destruct (decide (p = q)) as [->|Hne]; [|by rewrite lookup_insert_ne].
  rewrite lookup_insert_eq, Hp. cbn. by rewrite Hb.
Qed.

(** ** The order of the candidates *)

Definition worse (t : BlockTree) (p q : ptr) : Prop := work_less t p q = Some true.

#[export] Instance worse_dec t p q : Decision (worse t p q).
Proof. unfold worse. apply _. Defined.

(** The numbers of an entry are 256-bit numbers. *)
Definition works_wf (t : BlockTree) : Prop := ∀ p b, t !! p = Some b → wf 8 b.(nChainWork).

(** The order compares the work, then the order of arrival, then the addresses. *)
Lemma worse_iff t p q bp bq : works_wf t → t !! p = Some bp → t !! q = Some bq →
  worse t p q ↔
    (val bp.(nChainWork) < val bq.(nChainWork) ∨
     val bp.(nChainWork) = val bq.(nChainWork) ∧
       (nSequenceId bq < nSequenceId bp ∨ nSequenceId bp = nSequenceId bq ∧ Zpos q < Zpos p)).
Proof.
  intros Hw Hp Hq. unfold worse, work_less. rewrite Hp, Hq. cbn [mbind option_bind]. unfold entry_less.
  destruct (uint_order_spec 8 _ _ (Hw p bp Hp) (Hw q bq Hq)) as (-> & _ & -> & _).
  destruct (Z.ltb_spec (val (nChainWork bq)) (val (nChainWork bp))); [split; [done|lia]|].
  destruct (Z.ltb_spec (val (nChainWork bp)) (val (nChainWork bq))); [split; [lia|done]|].
  destruct (Z.ltb_spec (nSequenceId bp) (nSequenceId bq)); [split; [done|lia]|].
  destruct (Z.ltb_spec (nSequenceId bq) (nSequenceId bp)); [split; [lia|done]|].
  destruct (Pos.ltb_spec p q); [split; [done|lia]|]. destruct (Pos.ltb_spec q p); [split; [lia|done]|]. split; [done|lia].
Qed.

Lemma worse_lookup t p q : worse t p q → ∃ bp bq, t !! p = Some bp ∧ t !! q = Some bq.
Proof. unfold worse, work_less. destruct (t !! p) as [bp|]; [|done]. destruct (t !! q) as [bq|]; [|done]. eauto. Qed.

Lemma worse_irrefl t p : works_wf t → ¬ worse t p p.
Proof. intros Hw H. destruct (worse_lookup t p p H) as (b & _ & Hb & _). apply (worse_iff t p p b b Hw Hb Hb) in H. lia. Qed.

Lemma worse_trans t p q r : works_wf t → worse t p q → worse t q r → worse t p r.
Proof.
  intros Hw H1 H2. destruct (worse_lookup _ _ _ H1) as (bp & bq & Hp & Hq), (worse_lookup _ _ _ H2) as (_ & br & _ & Hr).
  apply (worse_iff t p q bp bq Hw Hp Hq) in H1. apply (worse_iff t q r bq br Hw Hq Hr) in H2.
  apply (worse_iff t p r bp br Hw Hp Hr). lia.
Qed.

Lemma worse_total t p q bp bq : works_wf t → t !! p = Some bp → t !! q = Some bq → p = q ∨ worse t p q ∨ worse t q p.
Proof.
  intros Hw Hp Hq. rewrite (worse_iff t p q bp bq Hw Hp Hq), (worse_iff t q p bq bp Hw Hq Hp).
  destruct (decide (p = q)) as [|Hne]; [by left|right]. assert (Zpos p ≠ Zpos q) by congruence. lia.
Qed.

(** [q] is at least as good as [p]. *)
Definition at_least (t : BlockTree) (q p : ptr) : Prop := q = p ∨ worse t p q.

Lemma at_least_iff t p q bp bq : works_wf t → t !! p = Some bp → t !! q = Some bq → at_least t q p ↔ ¬ worse t q p.
Proof.
  intros Hw Hp Hq. unfold at_least. split.
  - intros [->|H] H'; [by apply (worse_irrefl t p)|]. apply (worse_irrefl t p Hw). by eapply worse_trans.
  - intros H. destruct (worse_total t q p bq bp Hw Hq Hp) as [?|[?|?]]; [by left|done|by right].
Qed.

Lemma at_least_trans t p q r : works_wf t → at_least t r q → at_least t q p → at_least t r p.
Proof. intros Hw [->|H1] [->|H2]; [by left|by right|by right|right; by eapply worse_trans]. Qed.

(** ** Usable chains *)

Definition usable (b : CBlockIndex) : bool := negb (failed b) && have_data b.

(** Every block from [p] down to the genesis has its data and is not failed. *)
Definition ready (t : BlockTree) (p : ptr) : Prop := ∀ q, is_ancestor t p q → ∃ b, t !! q = Some b ∧ usable b = true.
(** The transactions of [p] and of all its ancestors have been received. *)
Definition linked (t : BlockTree) (p : ptr) : Prop :=
  ∀ q b, is_ancestor t p q → t !! q = Some b → b.(nChainTx) ≠ 0 ∨ b.(nHeight) = 0.
(** The scripts of [p] and of its ancestors but the genesis were found valid. *)
Definition scripts_ok (b : CBlockIndex) : Prop := BLOCK_VALID_SCRIPTS <= Z.land b.(nStatus) BLOCK_VALID_MASK.
Definition validated (t : BlockTree) (p : ptr) : Prop :=
  ∀ q b, is_ancestor t p q → t !! q = Some b → b.(pprev) = None ∨ scripts_ok b.

Lemma is_ancestor_refl t p : is_ancestor t p p.
Proof. by exists 0%nat. Qed.
Lemma is_ancestor_parent t p b q : t !! p = Some b → b.(pprev) = Some q → is_ancestor t p q.
Proof. intros Hp Hq. exists 1%nat. by rewrite (up_1 t p b Hp). Qed.
#[export] Hint Resolve is_ancestor_refl : qrax.

Lemma ready_lookup t p : ready t p → ∃ b, t !! p = Some b ∧ usable b = true.
Proof. intros H. apply H, is_ancestor_refl. Qed.
Lemma ready_ancestor t p q : ready t p → is_ancestor t p q → ready t q.
Proof. intros H Hq r Hr. apply H. by eapply is_ancestor_trans. Qed.
Lemma linked_ancestor t p q : linked t p → is_ancestor t p q → linked t q.
Proof. intros H Hq r b Hr. apply H. by eapply is_ancestor_trans. Qed.

Lemma ready_child t p b q : t !! p = Some b → b.(pprev) = Some q → usable b = true → ready t q → ready t p.
Proof.
  intros Hp Hq Hu H r Hr. destruct (is_ancestor_step t p b r Hp Hr) as [->|(r' & E & Hr')]; [eauto|].
  apply H. congruence.
Qed.
Lemma validated_child t p b q : t !! p = Some b → b.(pprev) = Some q → scripts_ok b → validated t q → validated t p.
Proof.
  intros Hp Hq Hu H r c Hr Hc. destruct (is_ancestor_step t p b r Hp Hr) as [->|(r' & E & Hr')]; [right; congruence|].
  eapply H; [|done]. congruence.
Qed.

(** Facts of the tree that only depend on its shape. *)
Record tree_inv (g : ptr) (t : BlockTree) : Prop := {
  ti_wf : wf_tree t;
  ti_works : works_wf t;
  ti_grows p b q bq : t !! p = Some b → b.(pprev) = Some q → t !! q = Some bq → val bq.(nChainWork) < val b.(nChainWork);
  ti_root p b : t !! p = Some b → is_ancestor t p g;
}.

Lemma same_shape_tree_inv g t t' : same_shape t t' → tree_inv g t → tree_inv g t'.
Proof.
  intros Hs [H1 H2 H3 H4]. pose proof Hs as Hs'. symmetry in Hs'. split.
  - by eapply same_shape_wf.
  - intros p b Hp. destruct (same_shape_lookup t' t p b Hs' Hp) as (c & Hc & E). apply shape_fields in E as (_ & _ & _ & -> & _). eauto.
  - intros p b q bq Hp Hb Hq. destruct (same_shape_lookup t' t p b Hs' Hp) as (c & Hc & E).
    destruct (same_shape_lookup t' t q bq Hs' Hq) as (cq & Hcq & Eq).
    apply shape_fields in E as (E & _ & _ & -> & _). apply shape_fields in Eq as (_ & _ & _ & -> & _).
    eapply H3; [done| |done]. by rewrite <- E.
  - intros p b Hp. destruct (same_shape_lookup t' t p b Hs' Hp) as (c & Hc & E).
    rewrite <- (same_shape_ancestor t t' p g Hs). eauto.
Qed.

Lemma same_shape_linked t t' p : same_shape t t' → linked t p → linked t' p.
Proof.
  intros Hs H q b Hq Hb. rewrite <- (same_shape_ancestor t t' p q Hs) in Hq. symmetry in Hs.
  destruct (same_shape_lookup t' t q b Hs Hb) as (c & Hc & E). apply shape_fields in E as (_ & _ & -> & _ & -> & _). eauto.
Qed.

Lemma same_shape_worse t t' p q : same_shape t t' → worse t p q ↔ worse t' p q.
Proof. intros Hs. unfold worse. by rewrite (same_shape_less t t'). Qed.
Lemma same_shape_at_least t t' p q : same_shape t t' → at_least t p q ↔ at_least t' p q.
Proof. intros Hs. unfold at_least. by rewrite (same_shape_worse t t'). Qed.
Lemma same_shape_dom t t' : same_shape t t' → dom t = dom t'.
Proof. intros Hs. apply set_eq. intros p. rewrite !elem_of_dom. specialize (Hs p). by destruct (t !! p), (t' !! p). Qed.

(** A block is worse than its proper descendants. *)
Lemma ancestor_worse g t p b q : tree_inv g t → t !! p = Some b → is_ancestor t p q → q = p ∨ worse t q p.
Proof.
  intros Hi Hp [n Hn]. revert p b Hp Hn. induction n as [|n IH]; intros p b Hp Hn; [cbn in Hn; left; congruence|].
  right. cbn [up] in Hn. rewrite Hp in Hn. cbn in Hn. destruct (pprev b) as [r|] eqn:Er; [|done].
  pose proof (ti_wf g t Hi p b Hp) as He. unfold entry_ok in He. rewrite Er in He. destruct He as (br & Hr & _).
  assert (worse t r p) as Hw.
  { apply (worse_iff t r p br b (ti_works g t Hi) Hr Hp). left. by eapply ti_grows. }
  destruct (IH r br Hr Hn) as [->|H]; [done|]. eapply worse_trans; [apply Hi|done|done].
Qed.
Lemma ancestor_at_least g t p b q : tree_inv g t → t !! p = Some b → is_ancestor t p q → at_least t p q.
Proof. intros Hi Hp Hq. destruct (ancestor_worse g t p b q Hi Hp Hq) as [->|]; [by left|by right]. Qed.
Lemma not_worse_ancestor g t p b q r : tree_inv g t → t !! p = Some b → is_ancestor t p q → worse t p r → worse t q r.
Proof.
  intros Hi Hp Hq Hr. destruct (ancestor_worse g t p b q Hi Hp Hq) as [->|]; [done|].
  eapply worse_trans; [apply Hi|done|done].
Qed.

(** The common root has no parent. *)
Lemma genesis_parent g t b : tree_inv g t → t !! g = Some b → b.(pprev) = None.
Proof.
  intros Hi Hb. destruct (pprev b) as [q|] eqn:Hq; [|done].
  pose proof (ti_wf g t Hi g b Hb) as He. unfold entry_ok in He. rewrite Hq in He. destruct He as (bq & Hbq & _ & Hh & _).
  destruct (ti_root g t Hi q bq Hbq) as [k Hk]. pose proof (up_height t q bq k g b (ti_wf g t Hi) Hbq Hk Hb). lia.
Qed.

(** ** Changes of the status *)

(** The blocks that are not failed, and the blocks better than [p]. *)
Definition unfailed (t : BlockTree) : gset ptr := dom (filter (λ kb : ptr * CBlockIndex, failed kb.2 = false) t).
Definition better (t : BlockTree) (p : ptr) : gset ptr := filter (λ q, worse t p q) (dom t).

Lemma elem_of_unfailed t p : p ∈ unfailed t ↔ ∃ b, t !! p = Some b ∧ failed b = false.
Proof. unfold unfailed. rewrite elem_of_dom. unfold is_Some. by setoid_rewrite map_lookup_filter_Some. Qed.

Lemma same_shape_better t t' p : same_shape t t' → better t p = better t' p.
Proof.
  intros Hs. apply set_eq. intros q. unfold better. rewrite !elem_of_filter, (same_shape_worse t t' p q Hs).
  by rewrite (same_shape_dom t t' Hs).
Qed.

Lemma status_of b st : nStatus (set_nStatus b st) = st.
Proof. by destruct b. Qed.
Lemma status_of_undo b pos : nStatus (set_nUndoPos b pos) = nStatus b.
Proof. by destruct b. Qed.

(** Adding a failure flag. *)
Lemma flagged_status b flag : flag = BLOCK_FAILED_VALID ∨ flag = BLOCK_FAILED_CHILD →
  let b' := set_nStatus b (Z.lor b.(nStatus) flag) in
  failed b' = true ∧ have_data b' = have_data b ∧ (scripts_ok b' ↔ scripts_ok b).
Proof.
  intros Hf b'. unfold failed, have_data, scripts_ok, b'. rewrite status_of, !Z.land_lor_distr_l.
  assert (Z.land flag BLOCK_FAILED_MASK ≠ 0 ∧ Z.land flag BLOCK_HAVE_DATA = 0 ∧ Z.land flag BLOCK_VALID_MASK = 0) as (E1 & -> & ->)
    by (destruct Hf as [-> | ->]; by vm_compute).
  rewrite !Z.lor_0_r. split_and!; [|done|done].
  apply negb_true_iff, Z.eqb_neq. rewrite Z.lor_eq_0_iff. tauto.
Qed.

Lemma failed_unusable b : failed b = true → usable b = false.
Proof. unfold usable. by intros ->. Qed.

Lemma lookup_add_status flag p t q :
  add_status flag p t !! q = if decide (p = q) then (λ b, set_nStatus b (Z.lor b.(nStatus) flag)) <$> t !! q else t !! q.
Proof. unfold add_status. destruct (decide (p = q)) as [->|]; [apply lookup_alter_eq|by apply lookup_alter_ne]. Qed.

Lemma add_status_shape flag p t : same_shape t (add_status flag p t).
Proof. apply same_shape_alter. intros b. apply shape_set_nStatus. Qed.

Section flag.
Context (flag : Z) (Hflag : flag = BLOCK_FAILED_VALID ∨ flag = BLOCK_FAILED_CHILD) (f : ptr) (t : BlockTree).

(** Flagging a block takes exactly its descendants out of the ready blocks. *)
Lemma add_status_ready p : ready (add_status flag f t) p ↔ ready t p ∧ ¬ is_ancestor t p f.
Proof using Hflag.
  unfold ready. split.
  - intros H. split.
    + intros q Hq. rewrite (same_shape_ancestor _ _ p q (add_status_shape flag f t)) in Hq.
      destruct (H q Hq) as (b & Hb & Hu). rewrite lookup_add_status in Hb. destruct (decide (f = q)); [|eauto].
      destruct (t !! q) as [b0|]; [|done]. injection Hb as <-. by rewrite (failed_unusable _ (proj1 (flagged_status b0 flag Hflag))) in Hu.
    + intros Hf. rewrite (same_shape_ancestor _ _ p f (add_status_shape flag f t)) in Hf.
      destruct (H f Hf) as (b & Hb & Hu). rewrite lookup_add_status, decide_True in Hb by done.
      destruct (t !! f) as [b0|]; [|done]. injection Hb as <-. by rewrite (failed_unusable _ (proj1 (flagged_status b0 flag Hflag))) in Hu.
  - intros [H Hn] q Hq. rewrite <- (same_shape_ancestor _ _ p q (add_status_shape flag f t)) in Hq.
    destruct (H q Hq) as (b & Hb & Hu). exists b. rewrite lookup_add_status. destruct (decide (f = q)) as [->|]; [done|eauto].
Qed.

Lemma add_status_validated p : validated (add_status flag f t) p ↔ validated t p.
Proof using Hflag.
  unfold validated. split; intros H q b Hq Hb.
  - rewrite (same_shape_ancestor _ _ p q (add_status_shape flag f t)) in Hq. specialize (H q).
    rewrite lookup_add_status in H. destruct (decide (f = q)); [|eauto]. rewrite Hb in H.
    destruct (H _ Hq eq_refl) as [E|E]; [left; by destruct b|right]. by apply (flagged_status b flag Hflag).
  - rewrite <- (same_shape_ancestor _ _ p q (add_status_shape flag f t)) in Hq.
    rewrite lookup_add_status in Hb. destruct (decide (f = q)); [|eauto].
    destruct (t !! q) as [b0|] eqn:E0; [|done]. injection Hb as <-.
    destruct (H q b0 Hq E0) as [E|E]; [left; by destruct b0|right]. by apply (flagged_status b0 flag Hflag).
Qed.

Lemma add_status_unfailed : unfailed (add_status flag f t) = unfailed t ∖ {[f]}.
Proof using Hflag.
  apply set_eq. intros q. rewrite elem_of_difference, not_elem_of_singleton, !elem_of_unfailed, lookup_add_status.
  destruct (decide (f = q)) as [->|Hne]; [|naive_solver]. split; [|naive_solver].
  intros (b & Hb & Hf). destruct (t !! q) as [b0|]; [|done]. injection Hb as <-.
  by rewrite (proj1 (flagged_status b0 flag Hflag)) in Hf.
Qed.
End flag.

(** Marking a connected block. *)
Lemma RaiseValidity_scripts b : failed b = false →
  ∃ r b', RaiseValidity b BLOCK_VALID_SCRIPTS = Some (r, b') ∧ shape b' = shape b ∧ failed b' = false ∧
    have_data b' = have_data b ∧ scripts_ok b'.
Proof.
  unfold failed, RaiseValidity. intros Hf. rewrite Hf. change (negb (Z.land _ _ =? 0)) with false at 1. cbv iota.
  destruct (Z.ltb_spec (Z.land (nStatus b) BLOCK_VALID_MASK) BLOCK_VALID_SCRIPTS) as [|Hge]; do 2 eexists; (split; [reflexivity|]).
  - unfold have_data, scripts_ok. rewrite shape_set_nStatus, status_of, !Z.land_lor_distr_l, <- !Z.land_assoc.
    change (Z.land (u32 (Z.lnot BLOCK_VALID_MASK)) BLOCK_FAILED_MASK) with BLOCK_FAILED_MASK.
    change (Z.land (u32 (Z.lnot BLOCK_VALID_MASK)) BLOCK_HAVE_DATA) with BLOCK_HAVE_DATA.
    change (Z.land (u32 (Z.lnot BLOCK_VALID_MASK)) BLOCK_VALID_MASK) with 0.
    change (Z.land BLOCK_VALID_SCRIPTS BLOCK_FAILED_MASK) with 0. change (Z.land BLOCK_VALID_SCRIPTS BLOCK_HAVE_DATA) with 0.
    change (Z.land BLOCK_VALID_SCRIPTS BLOCK_VALID_MASK) with BLOCK_VALID_SCRIPTS.
    rewrite !Z.lor_0_r, Z.land_0_r. done.
  - by rewrite Hf.
Qed.

Lemma mark_connected_spec pos b : failed b = false →
  ∃ b', mark_connected pos b = Some b' ∧ shape b' = shape b ∧ failed b' = false ∧ have_data b' = have_data b ∧ scripts_ok b'.
Proof.
  intros Hf. unfold mark_connected.
  assert (IsValid b BLOCK_VALID_SCRIPTS = Some (BLOCK_VALID_SCRIPTS <=? Z.land (nStatus b) BLOCK_VALID_MASK)) as ->.
  { unfold IsValid. unfold failed in Hf. rewrite Hf. reflexivity. }
  cbn [mbind option_bind].
  set (b1 := if negb (have_undo b) then _ else b).
  assert (shape b1 = shape b ∧ failed b1 = false ∧ have_data b1 = have_data b) as (E1 & E2 & E3).
  { unfold b1. destruct (negb (have_undo b)); [|done]. rewrite shape_set_nStatus, shape_set_nUndoPos.
    unfold failed, have_data. rewrite status_of, !Z.land_lor_distr_l.
    change (Z.land BLOCK_HAVE_UNDO BLOCK_FAILED_MASK) with 0. change (Z.land BLOCK_HAVE_UNDO BLOCK_HAVE_DATA) with 0.
    by rewrite !Z.lor_0_r. }
  destruct (RaiseValidity_scripts b1 E2) as (r & b' & -> & E4 & E5 & E6 & E7). cbn [mbind option_bind].
  destruct (negb (have_undo b) || negb _) eqn:Ec.
  - exists b'. by rewrite E4, E1, E6, E3.
  - exists b. apply orb_false_iff in Ec as [_ Ec]. apply negb_false_iff, Z.leb_le in Ec. done.
Qed.

Section insert.
Context (t : BlockTree) (p : ptr) (b b' : CBlockIndex).
Context (Hp : t !! p = Some b) (Hs : shape b' = shape b).
Let t' := <[p := b']> t.
Let Hsh : same_shape t t' := same_shape_insert t p b b' Hp Hs.

Lemma insert_ready q : usable b' = usable b → ready t' q ↔ ready t q.
Proof using Hp Hs.
  intros Hu. unfold ready. setoid_rewrite <- (same_shape_ancestor t t' q _ Hsh).
  split; intros H r Hr; destruct (H r Hr) as (c & Hc & E); unfold t' in *; destruct (decide (p = r)) as [<-|Hne].
  - rewrite lookup_insert_eq in Hc. exists b. split; [done|]. congruence.
  - rewrite lookup_insert_ne in Hc by done. eauto.
  - exists b'. rewrite lookup_insert_eq. split; [done|]. congruence.
  - exists c. by rewrite lookup_insert_ne.
Qed.

Lemma insert_validated q : (scripts_ok b → scripts_ok b') → validated t q → validated t' q.
Proof using Hp Hs.
  intros Hu H r c. rewrite <- (same_shape_ancestor t t' q _ Hsh). intros Hr Hc. unfold t' in *.
  destruct (decide (p = r)) as [<-|Hne].
  - rewrite lookup_insert_eq in Hc. simplify_eq. destruct (H p b Hr Hp) as [E|E]; [left|by right; apply Hu].
    pose proof (shape_fields c b Hs) as [-> _]. done.
  - rewrite lookup_insert_ne in Hc by done. eauto.
Qed.

Lemma insert_unfailed : failed b' = failed b → unfailed t' = unfailed t.
Proof using Hp.
  intros Hf. apply set_eq. intros q. rewrite !elem_of_unfailed. unfold t'. destruct (decide (p = q)) as [<-|Hne].
  - rewrite lookup_insert_eq, Hp. split; intros (c & [= <-] & E); eexists; (split; [done|]); congruence.
  - by rewrite lookup_insert_ne.
Qed.
End insert.

(** ** What the coins promise *)

(** [ConnectBlock] takes the coins from a block to its child and
    [DisconnectBlock] back, and [ConnectBlock] stops the node instead of
    reporting corrupted data.  Nothing is said of a block that is connected
    again: [ConnectBlock] may reject it then, because the payees are only
    checked after the initial download. *)
Class ChainCoinsLaws (S : Type) `{!ChainCoins S} := {
  follows : S → ptr → Prop;
  connect_follows t p b q c c' pos : t !! p = Some b → b.(pprev) = Some q → follows c q →
    coins_connect t p c = Connected c' pos → follows c' p;
  disconnect_follows t p b q c c' : t !! p = Some b → b.(pprev) = Some q → follows c p →
    coins_disconnect t p c = Disconnected c' → follows c' q;
  connect_not_corrupt t p c : coins_connect t p c ≠ InvalidBlock true;
}.

Section activate.
Context {S : Type} `{!ChainCoins S, !ChainCoinsLaws S} (g : ptr).
Abbreviation State := (ChainState S).
Implicit Types s : State.

(** The chain state: the active chain ends at [tp], its blocks are usable and
    were validated, and the coins are those of [tp]. *)
Record chain_core (s : State) (tp : ptr) : Prop := {
  cc_tree : tree_inv g s.(cs_tree);
  cc_chain : chain_to s.(cs_tree) s.(cs_active) tp;
  cc_ready : ready s.(cs_tree) tp;
  cc_linked : linked s.(cs_tree) tp;
  cc_validated : validated s.(cs_tree) tp;
  cc_candidates p : p ∈ s.(cs_candidates) → p ∈ dom s.(cs_tree) ∧ linked s.(cs_tree) p;
  cc_invalid p : s.(cs_best_invalid) = Some p → p ∈ dom s.(cs_tree);
  cc_follows : follows s.(cs_coins) tp;
}.

(** No candidate is worse than the tip. *)
Definition sound s tp : Prop := ∀ p, p ∈ s.(cs_candidates) → ¬ worse s.(cs_tree) p tp.
(** The blocks that can be connected, and that are at least as good as [r] and
    the tip, are candidates. *)
Definition complete s (r tp : ptr) : Prop :=
  ∀ p, ready s.(cs_tree) p → linked s.(cs_tree) p → at_least s.(cs_tree) p r → at_least s.(cs_tree) p tp →
  p ∈ s.(cs_candidates).

Lemma core_tip s tp : chain_core s tp → tip s = Some tp.
Proof. intros H. unfold tip. eapply Chain_Tip_spec; [apply H|apply H]. Qed.
Lemma core_lookup s tp : chain_core s tp → ∃ b, s.(cs_tree) !! tp = Some b ∧ usable b = true.
Proof. intros H. apply ready_lookup, H. Qed.
Lemma core_candidate s tp p : chain_core s tp → p ∈ s.(cs_candidates) → ∃ b, s.(cs_tree) !! p = Some b.
Proof. intros H Hp. apply elem_of_dom, (cc_candidates s tp H p Hp). Qed.

(** ** The choice of a candidate *)

Lemma last_in_order_spec t l best :
  works_wf t → (∀ p, p ∈ best :: l → p ∈ dom t) →
  ∃ r, last_in_order t l best = Some r ∧ r ∈ best :: l ∧ ∀ q, q ∈ best :: l → at_least t r q.
Proof.
  intros Hw. revert best. induction l as [|p l IH]; intros best Hin.
  { exists best. split_and!; [done|set_solver|]. intros q Hq. left. set_solver. }
  pose proof (proj1 (elem_of_dom t best) (Hin best ltac:(set_solver))) as [bb Hbb].
  pose proof (proj1 (elem_of_dom t p) (Hin p ltac:(set_solver))) as [bp Hbp].
  cbn [last_in_order]. destruct (work_less t best p) as [w|] eqn:Ew.
  2: { unfold work_less in Ew. rewrite Hbb, Hbp in Ew. discriminate. }
  cbn [mbind option_bind]. set (m := if w then p else best).
  assert (at_least t m best ∧ at_least t m p) as [Hm1 Hm2].
  { unfold m. destruct w; [split; [by right|by left]|]. split; [by left|].
    apply (at_least_iff t p best bp bb); [done..|]. unfold worse. by rewrite Ew. }
  destruct (IH m) as (r & -> & Hr & Hq).
  { intros q [->|Hq]%elem_of_cons; [|set_solver]. unfold m. destruct w; set_solver. }
  exists r. split; [done|]. split; [unfold m in Hr; destruct w; set_solver|].
  assert (at_least t r m) as Hrm by (apply Hq; set_solver).
  intros q [->|[->|Hl]%elem_of_cons]%elem_of_cons; [by eapply at_least_trans|by eapply at_least_trans|]. apply Hq. set_solver.
Qed.

Lemma best_candidate_spec s tp : chain_core s tp →
  ∃ r, best_candidate s = Some r ∧
    match r with
    | None => s.(cs_candidates) = ∅
    | Some p => p ∈ s.(cs_candidates) ∧ ∀ q, q ∈ s.(cs_candidates) → at_least s.(cs_tree) p q
    end.
Proof.
  intros Hc. unfold best_candidate. destruct (elements (cs_candidates s)) as [|p l] eqn:E.
  { exists None. split; [done|]. by apply leibniz_equiv, elements_empty_iff. }
  assert (∀ q, q ∈ p :: l ↔ q ∈ cs_candidates s) as Hl by (intros q; by rewrite <- E, elem_of_elements).
  destruct (last_in_order_spec (cs_tree s) l p) as (r & -> & Hr & Hq).
  - apply Hc.
  - intros q Hq. apply (cc_candidates s tp Hc), Hl, Hq.
  - exists (Some r). split; [done|]. setoid_rewrite Hl in Hq. by rewrite Hl in Hr.
Qed.

Lemma first_unusable_spec s tp fuel p b : chain_core s tp → s.(cs_tree) !! p = Some b → linked s.(cs_tree) p →
  b.(nHeight) < Z.of_nat fuel →
  ∃ r, first_unusable fuel s.(cs_tree) s.(cs_active) (Some p) = Some r ∧
    match r with
    | None => ready s.(cs_tree) p
    | Some (q, f) => is_ancestor s.(cs_tree) p q ∧ ∃ bq, s.(cs_tree) !! q = Some bq ∧ usable bq = false
    end.
Proof.
  intros Hc. revert p b. induction fuel as [|fuel IH]; intros p b Hp Hl Hf.
  { pose proof (wf_height _ p b (ti_wf _ _ (cc_tree s tp Hc)) Hp). lia. }
  cbn [first_unusable]. pose proof (ti_wf _ _ (cc_tree s tp Hc)) as Hwf.
  destruct (Chain_Contains_spec _ _ tp p b Hwf (cc_chain s tp Hc) Hp) as (k & -> & Hk). cbn [mbind option_bind].
  destruct k.
  { exists None. split; [done|]. eapply ready_ancestor; [apply Hc|]. by apply Hk. }
  rewrite Hp. cbn [mbind option_bind].
  destruct ((nChainTx b =? 0) && negb (nHeight b =? 0)) eqn:Et.
  { destruct (Hl p b (is_ancestor_refl _ p) Hp); lia. }
  destruct (failed b || negb (have_data b)) eqn:Eu.
  { exists (Some (p, failed b)). split; [done|]. split; [apply is_ancestor_refl|]. exists b. split; [done|].
    unfold usable. by destruct (failed b), (have_data b). }
  assert (usable b = true) as Hu by (unfold usable; by destruct (failed b), (have_data b)).
  destruct (pprev b) as [q|] eqn:Eq.
  - pose proof (Hwf p b Hp) as He. unfold entry_ok in He. rewrite Eq in He. destruct He as (bq & Hq & _ & Hh & _).
    pose proof (is_ancestor_parent _ p b q Hp Eq) as Ha.
    destruct (IH q bq Hq) as (r & -> & Hr); [by eapply linked_ancestor|lia|].
    exists r. split; [done|]. destruct r as [[r f]|].
    + destruct Hr as [Hr ?]. split; [by eapply is_ancestor_trans|done].
    + by eapply ready_child.
  - exists None. split; [by destruct fuel|]. intros q Hq.
    destruct (is_ancestor_step _ p b q Hp Hq) as [->|(r & E & _)]; [eauto|congruence].
Qed.

(** ** Removing unusable candidates *)

(** [s'] differs from [s] in the flags and the candidacy of blocks that cannot
    be connected. *)
Record demotes (s s' : State) : Prop := {
  dm_shape : same_shape s.(cs_tree) s'.(cs_tree);
  dm_ready p : ready s'.(cs_tree) p ↔ ready s.(cs_tree) p;
  dm_validated p : validated s'.(cs_tree) p ↔ validated s.(cs_tree) p;
  dm_unfailed : unfailed s'.(cs_tree) ⊆ unfailed s.(cs_tree);
  dm_active : s'.(cs_active) = s.(cs_active);
  dm_coins : s'.(cs_coins) = s.(cs_coins);
  dm_sub : s'.(cs_candidates) ⊆ s.(cs_candidates);
  dm_keeps p : p ∈ s.(cs_candidates) → ready s.(cs_tree) p → p ∈ s'.(cs_candidates);
  dm_invalid p : s'.(cs_best_invalid) = Some p → p ∈ dom s.(cs_tree) ∨ s.(cs_best_invalid) = Some p;
}.

Lemma demotes_refl s : demotes s s.
Proof. split; auto. done. Qed.
Lemma demotes_trans s1 s2 s3 : demotes s1 s2 → demotes s2 s3 → demotes s1 s3.
Proof.
  intros H1 H2. split.
  - etrans; [apply H1|apply H2].
  - intros p. by rewrite (dm_ready _ _ H2), (dm_ready _ _ H1).
  - intros p. by rewrite (dm_validated _ _ H2), (dm_validated _ _ H1).
  - etrans; [apply H2|apply H1].
  - by rewrite (dm_active _ _ H2), (dm_active _ _ H1).
  - by rewrite (dm_coins _ _ H2), (dm_coins _ _ H1).
  - etrans; [apply H2|apply H1].
  - intros p Hp Hr. apply H2; [by apply H1|by apply H1].
  - intros p Hp. destruct (dm_invalid _ _ H2 p Hp) as [Hd|Hi]; [left|by apply H1].
    by rewrite (same_shape_dom _ _ (dm_shape _ _ H1)).
Qed.

Lemma demotes_erase s p : ¬ ready s.(cs_tree) p → demotes s (erase_candidate p s).
Proof.
  intros Hp. split; auto; [done|set_solver|]. intros q Hq Hr. cbn. apply elem_of_difference. split; [done|].
  apply not_elem_of_singleton. by intros ->.
Qed.
Lemma demotes_flag s p : ¬ ready s.(cs_tree) p →
  demotes s (with_tree (add_status BLOCK_FAILED_CHILD p s.(cs_tree)) s).
Proof.
  intros Hp. split; auto; cbn.
  - apply add_status_shape.
  - intros q. rewrite add_status_ready by auto. split; [tauto|]. intros Hr. split; [done|].
    intros Ha. by apply Hp, (ready_ancestor _ q).
  - intros q. apply add_status_validated. auto.
  - rewrite add_status_unfailed by auto. set_solver.
Qed.
Lemma demotes_unlinked s u : demotes s (with_unlinked u s).
Proof. split; auto. done. Qed.
Lemma demotes_invalid s p : p ∈ dom s.(cs_tree) → demotes s (with_best_invalid (Some p) s).
Proof. intros Hp. split; auto; [done|]. cbn. intros q [= <-]. by left. Qed.

Lemma demotes_core s s' tp : demotes s s' → chain_core s tp → chain_core s' tp.
Proof.
  intros Hd Hc. pose proof (dm_shape _ _ Hd) as Hs. split.
  - eapply same_shape_tree_inv; [done|apply Hc].
  - rewrite (dm_active _ _ Hd). eapply same_shape_chain; [done|apply Hc].
  - apply Hd, Hc.
  - eapply same_shape_linked; [done|apply Hc].
  - apply Hd, Hc.
  - intros p Hp. destruct (cc_candidates s tp Hc p (dm_sub _ _ Hd p Hp)) as [H1 H2].
    rewrite <- (same_shape_dom _ _ Hs). split; [done|]. by eapply same_shape_linked.
  - intros p Hp. rewrite <- (same_shape_dom _ _ Hs). destruct (dm_invalid _ _ Hd p Hp); [done|]. by apply (cc_invalid s tp Hc).
  - rewrite (dm_coins _ _ Hd). apply Hc.
Qed.
Lemma demotes_sound s s' tp : demotes s s' → sound s tp → sound s' tp.
Proof. intros Hd H p Hp. rewrite <- (same_shape_worse _ _ p tp (dm_shape _ _ Hd)). by apply H, Hd. Qed.
Lemma demotes_complete s s' r tp : demotes s s' → complete s r tp → complete s' r tp.
Proof.
  intros Hd H p Hr Hl H1 H2. pose proof (dm_shape _ _ Hd) as Hs.
  rewrite <- (same_shape_at_least _ _ _ _ Hs) in H1. rewrite <- (same_shape_at_least _ _ _ _ Hs) in H2. apply (dm_ready _ _ Hd) in Hr.
  apply Hd; [|done]. apply H; [done| |done|done]. symmetry in Hs. by eapply same_shape_linked.
Qed.

Lemma remove_chain_spec fuel f p q n s :
  wf_tree s.(cs_tree) → q ∈ dom s.(cs_tree) → ¬ ready s.(cs_tree) p → up s.(cs_tree) q n = Some p → (n <= fuel)%nat →
  ∃ s', remove_chain fuel f p q s = Some s' ∧ demotes s s' ∧ q ∉ s'.(cs_candidates).
Proof.
  intros Hwf Hq Hp. revert q n s Hwf Hq Hp. induction fuel as [|fuel IH]; intros q n s Hwf Hq Hp Hup Hn.
  { assert (n = 0%nat) as -> by lia. cbn in Hup. simplify_eq. cbn [remove_chain]. rewrite bool_decide_true by done.
    eexists. split; [done|]. split; [by apply demotes_erase|]. cbn. set_solver. }
  assert (¬ ready (cs_tree s) q) as Hnr by (intros H; apply Hp, (ready_ancestor _ q); [done|by exists n]).
  cbn [remove_chain]. case_bool_decide as Hpq.
  { subst. eexists. split; [done|]. split; [by apply demotes_erase|]. cbn. set_solver. }
  destruct n as [|n]; [cbn in Hup; congruence|]. cbn [up] in Hup.
  pose proof Hq as [b Hb]%elem_of_dom. rewrite Hb in Hup. rewrite Hb. cbn [mbind option_bind] in Hup |- *.
  destruct (pprev b) as [r|] eqn:Er; [|done]. cbn [mbind option_bind] in Hup |- *.
  set (s1 := if f then _ else _).
  assert (demotes s s1) as D1 by (unfold s1; destruct f; [by apply demotes_flag|apply demotes_unlinked]).
  assert (demotes s (erase_candidate q s1)) as D2.
  { eapply demotes_trans; [done|]. apply demotes_erase. by rewrite (dm_ready _ _ D1). }
  pose proof (dm_shape _ _ D2) as Hs.
  pose proof (Hwf q b Hb) as He. unfold entry_ok in He. rewrite Er in He. destruct He as (br & Hr & _).
  destruct (IH r n (erase_candidate q s1)) as (s' & -> & D3 & _).
  - by eapply same_shape_wf.
  - rewrite <- (same_shape_dom _ _ Hs). apply elem_of_dom. eauto.
  - by rewrite (dm_ready _ _ D2).
  - by rewrite <- (same_shape_up _ _ r n Hs).
  - lia.
  - exists s'. split; [done|]. split; [by eapply demotes_trans|]. intros Hin%(dm_sub _ _ D3). cbn in Hin. set_solver.
Qed.

Lemma more_work_spec s tp p : chain_core s tp → p ∈ dom s.(cs_tree) → ∃ m, more_work_than_invalid p s = Some m.
Proof.
  intros Hc [b Hb]%elem_of_dom. unfold more_work_than_invalid. destruct (cs_best_invalid s) as [q|] eqn:Eq; [|eauto].
  pose proof (cc_invalid s tp Hc q Eq) as [bq Hbq]%elem_of_dom. rewrite Hb, Hbq. cbn. eauto.
Qed.

Lemma FindMostWorkChain_loop_spec fuel s tp : chain_core s tp → (size s.(cs_candidates) <= fuel)%nat →
  ∃ r s', FindMostWorkChain_loop fuel s = Some (r, s') ∧ demotes s s' ∧
    match r with
    | None => s'.(cs_candidates) = ∅
    | Some p => p ∈ s'.(cs_candidates) ∧ ready s'.(cs_tree) p ∧ ∀ q, q ∈ s'.(cs_candidates) → at_least s'.(cs_tree) p q
    end.
Proof.
  revert s. induction fuel as [|fuel IH]; intros s Hc Hf;
    destruct (best_candidate_spec s tp Hc) as (r & Er & Hr); cbn [FindMostWorkChain_loop]; rewrite Er; cbn [mbind option_bind];
    destruct r as [p|].
  { assert (cs_candidates s = ∅) by (apply leibniz_equiv, size_empty_iff; lia). set_solver. }
  { exists None, s. split; [done|]. split; [apply demotes_refl|done]. }
  2: { exists None, s. split; [done|]. split; [apply demotes_refl|done]. }
  destruct Hr as [Hp Hmax]. destruct (core_candidate s tp p Hc Hp) as [b Hb]. rewrite Hb. cbn [mbind option_bind].
  pose proof (ti_wf _ _ (cc_tree s tp Hc)) as Hwf. pose proof (wf_height _ p b Hwf Hb) as Hh.
  destruct (first_unusable_spec s tp (Z.to_nat (nHeight b + 1)) p b Hc Hb) as (r & -> & Hr).
  { apply (cc_candidates s tp Hc p Hp). }
  { lia. }
  cbn [mbind option_bind]. destruct r as [[q f]|].
  2: { exists (Some p), s. split; [done|]. split; [apply demotes_refl|done]. }
  destruct Hr as ([n Hn] & bq & Hq & Hu).
  assert (¬ ready (cs_tree s) q) as Hnq.
  { intros H. destruct (ready_lookup _ q H) as (c & Hc' & Hu'). congruence. }
  assert (p ∈ dom (cs_tree s)) as Hpd by (apply elem_of_dom; eauto).
  assert (∃ m, (if f then more_work_than_invalid p s else Some false) = Some m) as [m ->].
  { destruct f; [by eapply more_work_spec|eauto]. }
  cbn [mbind option_bind]. set (s1 := if m then _ else s).
  assert (demotes s s1) as D1 by (unfold s1; destruct m; [by apply demotes_invalid|apply demotes_refl]).
  destruct (remove_chain_spec (Z.to_nat (nHeight b + 1)) f q p n s1) as (s2 & -> & D2 & Hout).
  - by unfold s1; destruct m.
  - by unfold s1; destruct m.
  - by rewrite (dm_ready _ _ D1).
  - by unfold s1; destruct m.
  - pose proof (up_le_height _ p b n q Hwf Hb Hn). lia.
  - assert (demotes s s2) as D by (by eapply demotes_trans). cbn [mbind option_bind].
    assert (size (cs_candidates s2) < size (cs_candidates s))%nat as Hlt.
    { apply subset_size. split; [apply D|]. set_solver. }
    destruct (IH s2) as (r & s3 & -> & D3 & Hr); [by eapply demotes_core|lia|].
    exists r, s3. split; [done|]. split; [by eapply demotes_trans|done].
Qed.

(** ** The tip *)

Lemma Prune_spec s tp m : chain_core s tp → m ∈ s.(cs_candidates) → ¬ worse s.(cs_tree) m tp →
  ∃ s', PruneBlockIndexCandidates s = Some s' ∧ chain_core s' tp ∧ sound s' tp ∧ s'.(cs_tree) = s.(cs_tree) ∧
    s'.(cs_candidates) ⊆ s.(cs_candidates) ∧ m ∈ s'.(cs_candidates) ∧ (∀ r, complete s r tp → complete s' r tp).
Proof.
  intros Hc Hm Hw. unfold PruneBlockIndexCandidates. rewrite (core_tip s tp Hc). cbn [mbind option_bind].
  set (keep := filter _ _).
  assert (∀ p, p ∈ keep ↔ ¬ worse (cs_tree s) p tp ∧ p ∈ cs_candidates s) as Hk by (intros p; unfold keep; by rewrite elem_of_filter).
  assert (m ∈ keep) as Hmk by (apply Hk; done).
  rewrite bool_decide_false by set_solver. eexists. split; [done|]. cbn. split.
  { destruct Hc. split; try done. intros p [_ Hp]%Hk. eauto. }
  split; [by intros p [Hp _]%Hk|]. split; [done|]. split; [by intros p [_ Hp]%Hk|]. split; [done|].
  intros r Hcm p Hr Hl H1 H2. cbn in *. apply Hk. split; [|by apply Hcm].
  destruct (core_lookup s tp Hc) as (bt & Hbt & _). destruct (ready_lookup _ _ Hr) as (bp & Hbp & _).
  by apply (at_least_iff _ tp p bt bp (ti_works _ _ (cc_tree s tp Hc)) Hbt Hbp).
Qed.

Lemma InvalidChainFound_spec s tp p : chain_core s tp → p ∈ dom s.(cs_tree) →
  ∃ s', InvalidChainFound p s = Some s' ∧ demotes s s' ∧ s'.(cs_tree) = s.(cs_tree) ∧ s'.(cs_candidates) = s.(cs_candidates).
Proof.
  intros Hc Hp. unfold InvalidChainFound. destruct (more_work_spec s tp p Hc Hp) as [m ->]. cbn [mbind option_bind].
  set (s1 := if m then _ else s).
  assert (demotes s s1 ∧ cs_tree s1 = cs_tree s ∧ cs_candidates s1 = cs_candidates s) as (D & E1 & E2).
  { unfold s1. destruct m; (split; [|done]); [by apply demotes_invalid|apply demotes_refl]. }
  rewrite (core_tip s1 tp (demotes_core s s1 tp D Hc)). cbn. eauto.
Qed.

(** An invalid block is flagged and is not a candidate any more. *)
Lemma InvalidBlockFound_spec s tp p : chain_core s tp → p ∈ unfailed s.(cs_tree) → ¬ is_ancestor s.(cs_tree) tp p →
  ∃ s', InvalidBlockFound p false s = Some s' ∧ chain_core s' tp ∧ same_shape s.(cs_tree) s'.(cs_tree) ∧
    s'.(cs_candidates) = s.(cs_candidates) ∖ {[p]} ∧ unfailed s'.(cs_tree) ⊂ unfailed s.(cs_tree) ∧
    (∀ q, ready s'.(cs_tree) q ↔ ready s.(cs_tree) q ∧ ¬ is_ancestor s.(cs_tree) q p) ∧
    (∀ q, validated s'.(cs_tree) q ↔ validated s.(cs_tree) q).
Proof.
  intros Hc Hp Hn. unfold InvalidBlockFound. set (s1 := erase_candidate _ _).
  pose proof (add_status_shape BLOCK_FAILED_VALID p (cs_tree s)) as Hs.
  assert (Hflag : BLOCK_FAILED_VALID = BLOCK_FAILED_VALID ∨ BLOCK_FAILED_VALID = BLOCK_FAILED_CHILD) by auto.
  assert (chain_core s1 tp) as Hc1.
  { split; cbn.
    - eapply same_shape_tree_inv; [done|apply Hc].
    - eapply same_shape_chain; [done|apply Hc].
    - apply add_status_ready; [done|]. split; [apply Hc|done].
    - eapply same_shape_linked; [done|apply Hc].
    - apply add_status_validated; [done|apply Hc].
    - intros q [Hq _]%elem_of_difference. rewrite <- (same_shape_dom _ _ Hs).
      destruct (cc_candidates s tp Hc q Hq). split; [done|]. by eapply same_shape_linked.
    - rewrite <- (same_shape_dom _ _ Hs). apply Hc.
    - apply Hc. }
  destruct (InvalidChainFound_spec s1 tp p Hc1) as (s' & -> & D & Et & Ec).
  { cbn. rewrite <- (same_shape_dom _ _ Hs). apply elem_of_unfailed in Hp as (b & Hb & _). apply elem_of_dom. eauto. }
  exists s'. split; [done|]. split; [by eapply demotes_core|]. rewrite Et, Ec. cbn. split_and!.
  - done.
  - done.
  - rewrite add_status_unfailed by done. set_solver.
  - intros q. by apply add_status_ready.
  - intros q. by apply add_status_validated.
Qed.

Lemma core_parent s tp p b : chain_core s tp → s.(cs_tree) !! p = Some b → b.(pprev) = Some tp → ¬ is_ancestor s.(cs_tree) tp p.
Proof.
  intros Hc Hb Hp [n Hn]. pose proof (ti_wf _ _ (cc_tree s tp Hc)) as Hwf. destruct (core_lookup s tp Hc) as (bt & Hbt & _).
  pose proof (up_height _ tp bt n p b Hwf Hbt Hn Hb) as E.
  pose proof (up_height _ p b 1 tp bt Hwf Hb ltac:(by rewrite (up_1 _ p b)) Hbt). lia.
Qed.

(** The three outcomes of [ConnectTip] for a child [p] of the tip. *)
Lemma ConnectTip_spec s tp p b :
  chain_core s tp → s.(cs_tree) !! p = Some b → b.(pprev) = Some tp → usable b = true → linked s.(cs_tree) p →
  ∃ r s', ConnectTip p s = Some (r, s') ∧
    match r with
    | TipConnected => chain_core s' p ∧ same_shape s.(cs_tree) s'.(cs_tree) ∧ s'.(cs_candidates) = s.(cs_candidates) ∧
        unfailed s'.(cs_tree) = unfailed s.(cs_tree) ∧ (∀ q, ready s'.(cs_tree) q ↔ ready s.(cs_tree) q) ∧
        (∀ q, validated s.(cs_tree) q → validated s'.(cs_tree) q)
    | TipInvalid corruption => corruption = false ∧
        chain_core s' tp ∧ same_shape s.(cs_tree) s'.(cs_tree) ∧
        s'.(cs_candidates) = s.(cs_candidates) ∖ {[p]} ∧ unfailed s'.(cs_tree) ⊂ unfailed s.(cs_tree) ∧
        (∀ q, ready s'.(cs_tree) q ↔ ready s.(cs_tree) q ∧ ¬ is_ancestor s.(cs_tree) q p) ∧
        (∀ q, validated s'.(cs_tree) q ↔ validated s.(cs_tree) q)
    | TipError => True
    end.
Proof.
  intros Hc Hb Hp Hu Hl. unfold ConnectTip. rewrite Hb. cbn [mbind option_bind]. rewrite (core_tip s tp Hc), Hp.
  rewrite bool_decide_true by done. cbn [negb].
  assert (failed b = false) as Hf by (unfold usable in Hu; by destruct (failed b)).
  destruct (coins_connect (cs_tree s) p (cs_coins s)) as [c pos|corruption|c pos] eqn:Ec; [|..].
  - rewrite bool_decide_false by done. destruct (mark_connected_spec pos b Hf) as (b' & -> & Hsb & Hf' & Hd' & Hs').
    cbn [mbind option_bind]. set (t' := <[p:=b']> (cs_tree s)).
    pose proof (same_shape_insert _ p b b' Hb Hsb) as Hs. fold t' in Hs.
    assert (tree_inv g t') as Ht' by (eapply same_shape_tree_inv; [done|apply Hc]).
    assert (t' !! p = Some b') as Hb' by apply lookup_insert_eq.
    assert (usable b' = usable b) as Eu by (unfold usable; by rewrite Hf', Hd', Hf).
    destruct (SetTip_spec t' (cs_active s) p b') as (active & Ea & Hto); [apply Ht'| |done|].
    { right. exists tp. eapply same_shape_chain; [done|apply Hc]. }
    cbn [cs_tree cs_active with_coins with_tree]. rewrite Ea. cbn [mbind option_bind].
    do 2 eexists. split; [reflexivity|]. cbn.
    assert (∀ q, ready t' q ↔ ready (cs_tree s) q) as Hrq by (intros q; by apply (insert_ready _ p b b')).
    assert (∀ q, validated (cs_tree s) q → validated t' q) as Hvq by (intros q; by apply (insert_validated _ p b b')).
    assert (pprev b' = Some tp) as Hp' by (pose proof (shape_fields _ _ Hsb) as [-> _]; done).
    split; [|split_and!; [done|done|by apply (insert_unfailed _ p b b'); [..|congruence]|done|done]]. split; cbn.
    + done.
    + done.
    + apply Hrq. eapply ready_child; [done|done|done|apply Hc].
    + by eapply same_shape_linked.
    + eapply validated_child; [done|done|done|]. apply Hvq, Hc.
    + intros q Hq. rewrite <- (same_shape_dom _ _ Hs). destruct (cc_candidates s tp Hc q Hq). split; [done|by eapply same_shape_linked].
    + rewrite <- (same_shape_dom _ _ Hs). apply Hc.
    + eapply connect_follows; [exact Hb|exact Hp|apply Hc|done].
  - assert (corruption = false) as -> by (destruct corruption; [destruct (connect_not_corrupt _ _ _ Ec)|done]).
    destruct (InvalidBlockFound_spec s tp p Hc) as (s' & -> & H).
    { apply elem_of_unfailed. eauto. }
    { by eapply core_parent. }
    cbn. do 2 eexists. split; [reflexivity|]. by split.
  - destruct pos as [pos|]; [|by exists TipError, (with_coins c s)].
    destruct (mark_connected_spec pos b Hf) as (b' & -> & _). by eexists TipError, _.
Qed.

(** A tip other than the genesis can be disconnected. *)
Lemma DisconnectTip_moves s tp b : tree_inv g s.(cs_tree) → chain_to s.(cs_tree) s.(cs_active) tp → follows s.(cs_coins) tp →
  s.(cs_tree) !! tp = Some b → tp ≠ g →
  ∃ q, b.(pprev) = Some q ∧
    ((∃ c, DisconnectTip s = Some (false, with_coins c s)) ∨
     ∃ c active, DisconnectTip s = Some (true, with_active active (with_coins c s)) ∧
       chain_to s.(cs_tree) active q ∧ follows c q).
Proof.
  intros Hi Hch Hfo Hb Hg.
  destruct (is_ancestor_step _ tp b g Hb (ti_root _ _ Hi tp b Hb)) as [->|(q & Hq & _)]; [done|].
  exists q. split; [done|]. pose proof (ti_wf _ _ Hi) as Hwf. unfold DisconnectTip, tip.
  rewrite (Chain_Tip_spec _ _ tp Hwf Hch). cbn [mbind option_bind]. rewrite Hb. cbn [mbind option_bind].
  destruct (coins_disconnect (cs_tree s) tp (cs_coins s)) as [c|c] eqn:Ec; [right|left; by exists c].
  pose proof (Hwf tp b Hb) as He. unfold entry_ok in He. rewrite Hq in He |- *. cbn [mbind option_bind]. destruct He as (bq & Hbq & _).
  destruct (SetTip_spec (cs_tree s) (cs_active s) q bq Hwf) as (active & -> & Hto); [right; by exists tp|done|].
  exists c, active. split; [done|]. split; [done|]. exact (disconnect_follows _ _ _ _ _ _ Hb Hq Hfo Ec).
Qed.

Lemma DisconnectTip_spec s tp : chain_core s tp → tp ≠ g →
  ∃ b q r s', s.(cs_tree) !! tp = Some b ∧ b.(pprev) = Some q ∧ DisconnectTip s = Some (r, s') ∧
    (r = true → chain_core s' q ∧ s'.(cs_tree) = s.(cs_tree) ∧ s'.(cs_candidates) = s.(cs_candidates)).
Proof.
  intros Hc Hg. destruct (core_lookup s tp Hc) as (b & Hb & _). pose proof Hc as [H1 H2 H3 H4 H5 H6 H7 H8].
  destruct (DisconnectTip_moves s tp b H1 H2 H8 Hb Hg) as (q & Hq & [(c & E)|(c & active & E & Hto & Hfo)]).
  { by exists b, q, false, (with_coins c s). }
  exists b, q, true, (with_active active (with_coins c s)). split_and!; [done|done|done|]. intros _.
  pose proof (is_ancestor_parent _ tp b q Hb Hq) as Ha. split; [|done]. split; cbn; try done.
  - by eapply ready_ancestor.
  - by eapply linked_ancestor.
  - intros r c' Hr. apply H5. by eapply is_ancestor_trans.
Qed.

Lemma disconnect_loop_spec fuel f n s tp : chain_core s tp → up s.(cs_tree) tp n = Some f → (n <= fuel)%nat →
  ∃ r s', disconnect_loop fuel (Some f) s = Some (r, s') ∧
    (r = true → chain_core s' f ∧ s'.(cs_tree) = s.(cs_tree) ∧ s'.(cs_candidates) = s.(cs_candidates)).
Proof.
  revert n s tp. induction fuel as [|fuel IH]; intros n s tp Hc Hn Hle.
  { assert (n = 0%nat) as -> by lia. cbn in Hn. simplify_eq. cbn [disconnect_loop]. rewrite (core_tip s f Hc).
    rewrite bool_decide_true by done. by exists true, s. }
  cbn [disconnect_loop]. rewrite (core_tip s tp Hc). case_bool_decide as Ht; [simplify_eq; by exists true, s|].
  destruct n as [|n]; [cbn in Hn; congruence|].
  destruct (DisconnectTip_spec s tp Hc) as (b & q & r & s' & Hb & Hq & -> & Hr).
  { intros ->. cbn [up] in Hn. destruct (core_lookup s g Hc) as (b & Hb & _). rewrite Hb in Hn. cbn in Hn.
    by rewrite (genesis_parent g _ b (cc_tree s g Hc) Hb) in Hn. }
  cbn [mbind option_bind]. destruct r; [|by eexists false, _].
  destruct (Hr eq_refl) as (Hc' & Et & Ecd). cbn [up] in Hn. rewrite Hb in Hn. cbn in Hn. rewrite Hq in Hn. cbn in Hn.
  destruct (IH n s' q Hc') as (r & s2 & -> & H2); [by rewrite Et|lia|]. exists r, s2. split; [done|].
  intros Hr2. destruct (H2 Hr2) as (? & -> & ->). done.
Qed.

(** ** The steps *)

(** The reference block [r], the best tip so far: its chain is complete and was
    validated once, but may have been found invalid since. *)
Definition reached (t : BlockTree) (r : ptr) : Prop := r ∈ dom t ∧ linked t r ∧ validated t r.

Record settled s (tp r : ptr) : Prop := {
  st_core : chain_core s tp;
  st_sound : sound s tp;
  st_complete : complete s r tp;
  st_reached : reached s.(cs_tree) r;
}.
Record working s (tp r m : ptr) : Prop := {
  wk_settled : settled s tp r;
  wk_target : m ∈ s.(cs_candidates);
  wk_ready : ready s.(cs_tree) m;
}.
Definition progress s s' : Prop :=
  same_shape s.(cs_tree) s'.(cs_tree) ∧ unfailed s'.(cs_tree) ⊆ unfailed s.(cs_tree) ∧ s'.(cs_candidates) ⊆ s.(cs_candidates).

#[local] Instance progress_preorder : PreOrder progress.
Proof.
  split; [by intros s|]. intros s1 s2 s3 (H1 & H2 & H3) (H4 & H5 & H6). split_and!; [by etrans|set_solver|set_solver].
Qed.

Lemma reached_shape t t' r : same_shape t t' → (validated t r → validated t' r) → reached t r → reached t' r.
Proof. intros Hs H (Ha & Hb & Hc). split_and!; [by rewrite <- (same_shape_dom _ _ Hs)|by eapply same_shape_linked|auto]. Qed.

Lemma demotes_settled s s' tp r : demotes s s' → settled s tp r → settled s' tp r.
Proof.
  intros D [H1 H2 H3 H4]. split; [by eapply demotes_core|by eapply demotes_sound|by eapply demotes_complete|].
  eapply reached_shape; [apply D|apply D|done].
Qed.
Lemma demotes_progress s s' : demotes s s' → progress s s'.
Proof. intros D. split_and!; apply D. Qed.

Lemma target_not_worse s tp r m q b : working s tp r m → s.(cs_tree) !! m = Some b → is_ancestor s.(cs_tree) m q →
  ¬ worse s.(cs_tree) m q.
Proof.
  intros Hw Hm Hq. pose proof (cc_tree _ _ (st_core _ _ _ (wk_settled _ _ _ _ Hw))) as Hi.
  destruct (ready_ancestor _ _ _ (wk_ready _ _ _ _ Hw) Hq q (is_ancestor_refl _ q)) as (bq & Hbq & _).
  rewrite <- (at_least_iff _ q m bq b (ti_works _ _ Hi) Hbq Hm). by eapply ancestor_at_least.
Qed.

(** One block of the way to the target. *)
Lemma connect_one s tp r m p b : working s tp r m → s.(cs_tree) !! p = Some b → b.(pprev) = Some tp →
  is_ancestor s.(cs_tree) m p →
  ∃ o s1, ConnectTip p s = Some (o, s1) ∧
    match o with
    | TipConnected => ∃ s2, PruneBlockIndexCandidates s1 = Some s2 ∧ working s2 p r m ∧ progress s s2
    | TipInvalid corruption => corruption = false ∧ settled s1 tp r ∧ progress s s1 ∧ unfailed s1.(cs_tree) ⊂ unfailed s.(cs_tree)
    | TipError => True
    end.
Proof.
  intros Hw Hb Hp Ha. pose proof Hw as [[Hc Hs Hcm Han] Hm Hr].
  destruct (ready_ancestor _ _ _ Hr Ha p (is_ancestor_refl _ p)) as (b1 & Hb1 & Hu). simplify_eq.
  pose proof (cc_candidates _ _ Hc m Hm) as [[bm Hbm]%elem_of_dom Hl].
  destruct (ConnectTip_spec s tp p b Hc Hb Hp Hu) as (o & s1 & -> & Ho); [by eapply linked_ancestor|].
  exists o, s1. split; [done|]. destruct o as [|corruption|]; [| |done].
  - destruct Ho as (Hc1 & Hsh & Ec & Eu & Hrd & Hv).
    destruct (Prune_spec s1 p m Hc1) as (s2 & -> & Hc2 & Hs2 & Et & Hsub & Hm2 & Hcm2).
    { by rewrite Ec. }
    { rewrite <- (same_shape_worse _ _ _ _ Hsh). by eapply target_not_worse. }
    exists s2. split; [done|]. split; [split; [split|..]|].
    + done.
    + done.
    + apply Hcm2. intros q Hrq Hlq H1 H2. rewrite Ec. rewrite <- (same_shape_at_least _ _ _ _ Hsh) in H1.
      rewrite <- (same_shape_at_least _ _ _ _ Hsh) in H2. apply Hcm; [by apply Hrd| |done|].
      * symmetry in Hsh. by eapply same_shape_linked.
      * eapply at_least_trans; [apply Hc|exact H2|]. eapply ancestor_at_least; [apply Hc|done|]. by eapply is_ancestor_parent.
    + rewrite Et. eapply reached_shape; [done|apply Hv|done].
    + done.
    + rewrite Et. by apply Hrd.
    + split_and!; [by rewrite Et|by rewrite Et, Eu|by rewrite <- Ec].
  - destruct Ho as (-> & Hc1 & Hsh & Ec & Hlt & Hrd & Hv). split; [done|].
    split; [split|split; [|done]].
    + done.
    + intros q Hq. rewrite <- (same_shape_worse _ _ _ _ Hsh). apply Hs. set_solver.
    + intros q [Hrq Hnq]%Hrd Hlq H1 H2. rewrite Ec. rewrite <- (same_shape_at_least _ _ _ _ Hsh) in H1.
      rewrite <- (same_shape_at_least _ _ _ _ Hsh) in H2. apply elem_of_difference. split.
      * apply Hcm; [done| |done|done]. symmetry in Hsh. by eapply same_shape_linked.
      * intros ->%elem_of_singleton. by apply Hnq, is_ancestor_refl.
    + eapply reached_shape; [done|apply Hv|done].
    + split_and!; [done|set_solver|set_solver].
Qed.

(** The blocks of [l] follow each other, from a child of [a] on. *)
Fixpoint ascends (t : BlockTree) (a : ptr) (l : list ptr) : Prop :=
  match l with
  | [] => True
  | p :: l => (∃ b, t !! p = Some b ∧ b.(pprev) = Some a) ∧ ascends t p l
  end.
Definition end_of (a : ptr) (l : list ptr) : ptr := default a (last l).

Lemma same_shape_ascends t t' a l : same_shape t t' → ascends t a l → ascends t' a l.
Proof.
  intros Hs. revert a. induction l as [|p l IH]; intros a; [done|]. intros [(b & Hb & Hp) Hl]. split; [|by apply IH].
  destruct (same_shape_lookup t t' p b Hs Hb) as (b' & Hb' & E). exists b'. split; [done|].
  by apply shape_fields in E as [<- _].
Qed.
Lemma end_of_cons a p l : end_of a (p :: l) = end_of p l.
Proof. unfold end_of. destruct l as [|q l]; [done|]. rewrite last_cons_cons. by destruct (last (q :: l)) eqn:E; [|apply last_None in E]. Qed.
Lemma ascends_snoc t a l p : ascends t a l → (∃ b, t !! p = Some b ∧ b.(pprev) = Some (end_of a l)) → ascends t a (l ++ [p]).
Proof. revert a. induction l as [|q l IH]; intros a; [by split|]. rewrite end_of_cons. intros [Hq Hl] Hp. split; [done|]. by apply IH. Qed.

(** What the loops over the blocks promise, with [goal] the tip that they work
    towards. *)
Definition connect_post (o : connect_outcome) s s' (old r m goal : ptr) : Prop :=
  match o with
  | AllConnected => working s' goal r m ∧ progress s s'
  | BetterTip => ∃ tp', working s' tp' r m ∧ progress s s' ∧ worse s.(cs_tree) old tp'
  | FoundInvalid => ∃ tp', settled s' tp' r ∧ progress s s' ∧ unfailed s'.(cs_tree) ⊂ unfailed s.(cs_tree)
  | ConnectFailed => True
  end.

Lemma connect_post_trans o s1 s2 s3 old r m goal :
  progress s1 s2 → connect_post o s2 s3 old r m goal → connect_post o s1 s3 old r m goal.
Proof.
  intros H. pose proof H as (H1 & H2 & H3). destruct o; cbn; [| | |done].
  - intros (? & ?). split; [done|by etrans].
  - intros (tp' & ? & ? & Hw). exists tp'. split; [done|]. split; [by etrans|]. by rewrite (same_shape_worse _ _ _ _ H1).
  - intros (tp' & ? & ? & ?). exists tp'. split; [done|]. split; [by etrans|set_solver].
Qed.

Lemma connect_blocks_spec front old l s tp r m :
  working s tp r m → ascends s.(cs_tree) tp l → (∀ p, p ∈ l → is_ancestor s.(cs_tree) m p) →
  front ∈ dom s.(cs_tree) → old ∈ dom s.(cs_tree) →
  ∃ o s', connect_blocks (Some front) (Some old) l s = Some (o, s') ∧ connect_post o s s' old r m (end_of tp l).
Proof.
  revert s tp. induction l as [|p l IH]; intros s tp Hw Hl Hin Hfr Hold.
  { exists AllConnected, s. by split; [|split]. }
  cbn [connect_blocks]. destruct Hl as [(b & Hb & Hp) Hl].
  destruct (connect_one s tp r m p b Hw Hb Hp) as (o & s1 & -> & Ho); [apply Hin; set_solver|].
  cbn [mbind option_bind]. destruct o as [|corruption|].
  - destruct Ho as (s2 & -> & Hw2 & Hpr). cbn [mbind option_bind].
    pose proof (st_core _ _ _ (wk_settled _ _ _ _ Hw2)) as Hc2. rewrite (core_tip s2 p Hc2). cbn [mbind option_bind].
    destruct (core_lookup s2 p Hc2) as (b2 & Hb2 & _). rewrite Hb2. cbn [mbind option_bind].
    pose proof Hpr as (Hsh & _ & _). pose proof (same_shape_dom _ _ Hsh) as Ed.
    pose proof Hold as [bo Hbo]%elem_of_dom. destruct (same_shape_lookup _ _ old bo Hsh Hbo) as (bo2 & Hbo2 & _).
    rewrite Hbo2. cbn [mbind option_bind].
    pose proof (ti_works _ _ (cc_tree _ _ Hc2)) as Hwk.
    destruct (uint_gtb (nChainWork b2) (nChainWork bo2)) eqn:Eg.
    + exists BetterTip, s2. split; [done|]. exists p. split; [done|]. split; [done|].
      rewrite (same_shape_worse _ _ _ _ Hsh), (worse_iff _ old p bo2 b2 Hwk Hbo2 Hb2). left.
      destruct (uint_order_spec 8 _ _ (Hwk p b2 Hb2) (Hwk old bo2 Hbo2)) as (_ & _ & E & _). rewrite E in Eg. lia.
    + destruct (IH s2 p Hw2) as (o & s' & -> & Ho).
      * by eapply same_shape_ascends.
      * intros q Hq. rewrite <- (same_shape_ancestor _ _ m q Hsh). apply Hin. set_solver.
      * by rewrite <- Ed.
      * by rewrite <- Ed.
      * exists o, s'. split; [done|]. rewrite end_of_cons. by eapply connect_post_trans.
  - destruct Ho as (-> & Hs1 & Hpr & Hlt). pose proof Hpr as (Hsh & _ & _).
    destruct (InvalidChainFound_spec s1 tp front (st_core _ _ _ Hs1)) as (s2 & E & D & Et & Ec).
    { by rewrite <- (same_shape_dom _ _ Hsh). }
    cbn [mbind option_bind]. rewrite E. cbn [mbind option_bind]. exists FoundInvalid, s2. split; [done|]. exists tp.
    split; [by eapply demotes_settled|]. split; [etrans; [done|by apply demotes_progress]|by rewrite Et].
  - exists ConnectFailed, s1. done.
Qed.

(** The list of blocks built for a batch. *)
Lemma to_connect_spec t n fuel p a b : wf_tree t → t !! p = Some b → up t p n = Some a → (n <= fuel)%nat →
  ∃ l, to_connect fuel t (Some p) (b.(nHeight) - Z.of_nat n) = Some l ∧ ascends t a (reverse l) ∧
    end_of a (reverse l) = p ∧ (∀ q, q ∈ l → is_ancestor t p q) ∧ head l = (if decide (n = 0%nat) then None else Some p).
Proof.
  intros Hwf. revert fuel p b. induction n as [|n IH]; intros fuel p b Hp Hn Hle.
  { cbn in Hn. simplify_eq. exists []. destruct fuel; cbn [to_connect]; rewrite Hp; cbn [mbind option_bind];
      (rewrite (proj2 (Z.eqb_eq _ _)) by lia); (split_and!; [done|done|done| |done]); set_solver. }
  destruct fuel as [|fuel]; [lia|]. cbn [to_connect]. rewrite Hp. cbn [mbind option_bind].
  rewrite (proj2 (Z.eqb_neq _ _)) by lia. cbn [up] in Hn. rewrite Hp in Hn. cbn [mbind option_bind] in Hn.
  destruct (pprev b) as [q|] eqn:Eq; [|done]. cbn [mbind option_bind] in Hn.
  pose proof (Hwf p b Hp) as He. unfold entry_ok in He. rewrite Eq in He. destruct He as (bq & Hq & _ & Hh & _).
  destruct (IH fuel q bq Hq Hn ltac:(lia)) as (l & El & Ha & Hend & Hin & _).
  replace (nHeight b - Z.of_nat (Datatypes.S n)) with (nHeight bq - Z.of_nat n) by lia. rewrite El. cbn [mbind option_bind].
  exists (p :: l). split; [done|]. rewrite reverse_cons. split; [|split; [|split]].
  - apply ascends_snoc; [done|]. rewrite Hend. eauto.
  - unfold end_of. by rewrite last_snoc.
  - intros x [->|Hx]%elem_of_cons; [apply is_ancestor_refl|]. eapply is_ancestor_trans; [by eapply is_ancestor_parent|by apply Hin].
  - done.
Qed.

(** The batches reach the target, unless they stop before. *)
Lemma connect_batches_spec fuel old s tp r m n bm :
  working s tp r m → s.(cs_tree) !! m = Some bm → up s.(cs_tree) m n = Some tp → (n <= fuel)%nat → old ∈ dom s.(cs_tree) →
  ∃ o s', connect_batches fuel (Some old) m (bm.(nHeight) - Z.of_nat n) s = Some (o, s') ∧ connect_post o s s' old r m m.
Proof.
  revert s tp n bm. induction fuel as [|fuel IH]; intros s tp n bm Hw Hbm Hn Hle Hold.
  { assert (n = 0%nat) as -> by lia. cbn in Hn. simplify_eq. cbn [connect_batches]. rewrite Hbm. cbn [mbind option_bind].
    rewrite (proj2 (Z.eqb_eq _ _)) by lia. exists AllConnected, s. by split; [|split]. }
  cbn [connect_batches]. rewrite Hbm. cbn [mbind option_bind].
  destruct (Z.eqb_spec (nHeight bm - Z.of_nat n) (nHeight bm)) as [E|E].
  { assert (n = 0%nat) as -> by lia. cbn in Hn. simplify_eq. exists AllConnected, s. by split; [|split]. }
  pose proof (ti_wf _ _ (cc_tree _ _ (st_core _ _ _ (wk_settled _ _ _ _ Hw)))) as Hwf.
  pose proof (up_le_height _ m bm n tp Hwf Hbm Hn) as Hnh.
  set (h := nHeight bm - Z.of_nat n). set (target := Z.min (h + 32) (nHeight bm)).
  set (k := Z.to_nat (nHeight bm - target)).
  assert (n = k + (n - k) ∧ k < n)%nat as [En Hk] by lia.
  rewrite (GetAncestor_spec _ m bm target Hwf Hbm). replace ((nHeight bm <? target) || (target <? 0)) with false by lia.
  cbn [mbind option_bind]. fold k. rewrite En, up_add in Hn.
  destruct (up_total _ m bm k Hwf Hbm ltac:(lia)) as (p & bp & Ep & Hp & Hph). rewrite Ep in Hn |- *. cbn [mbind option_bind] in Hn.
  destruct (to_connect_spec _ (n - k) (Z.to_nat (target - h)) p tp bp Hwf Hp Hn ltac:(lia)) as (l & El & Hasc & Hend & Hin & Hhd).
  replace (nHeight bp - Z.of_nat (n - k)) with h in El by lia. rewrite El. cbn [mbind option_bind].
  rewrite decide_False in Hhd by lia. rewrite Hhd.
  destruct (connect_blocks_spec p old (reverse l) s tp r m Hw Hasc) as (o & s1 & -> & Ho).
  - intros q Hq. rewrite elem_of_reverse in Hq. apply (is_ancestor_trans _ m p q); [by exists k|by apply Hin].
  - apply elem_of_dom. eauto.
  - done.
  - cbn [mbind option_bind]. rewrite Hend in Ho.
    destruct o; [|by exists BetterTip, s1|by exists FoundInvalid, s1|by exists ConnectFailed, s1].
    destruct Ho as [Hw1 Hpr]. pose proof Hpr as (Hsh & _ & _).
    destruct (same_shape_lookup _ _ m bm Hsh Hbm) as (bm1 & Hbm1 & Eb). apply shape_fields in Eb as (_ & _ & Eh & _).
    destruct (IH s1 p k bm1 Hw1 Hbm1) as (o & s2 & E2 & Ho).
    + by rewrite <- (same_shape_up _ _ m k Hsh).
    + lia.
    + by rewrite <- (same_shape_dom _ _ Hsh).
    + replace (nHeight bm1 - Z.of_nat k) with target in E2 by lia. exists o, s2. split; [done|by eapply connect_post_trans].
Qed.

(** A step towards the target: the system fails, or an invalid block is found,
    or the new tip is better. *)
Lemma ActivateBestChainStep_spec s tp r m :
  working s tp r m → at_least s.(cs_tree) r tp → m ≠ tp →
  ∃ ok inv s', ActivateBestChainStep m s = Some (ok, inv, s') ∧
    (ok = true → progress s s' ∧ ∃ tp',
      if inv : bool then settled s' tp' r ∧ unfailed s'.(cs_tree) ⊂ unfailed s.(cs_tree)
      else working s' tp' r m ∧ worse s.(cs_tree) tp tp').
Proof.
  intros Hw Hr Hne. pose proof Hw as [[Hc Hs Hcm Han] Hm Hrd]. pose proof (ti_wf _ _ (cc_tree _ _ Hc)) as Hwf.
  destruct (core_candidate s tp m Hc Hm) as [bm Hbm]. destruct (core_lookup s tp Hc) as (bt & Hbt & _).
  unfold ActivateBestChainStep. rewrite (core_tip s tp Hc).
  destruct (FindFork_spec _ _ tp m bm Hwf (cc_chain _ _ Hc) Hbm) as (f & -> & Hf). cbn [mbind option_bind].
  destruct f as [f|].
  2: { destruct (Hf g (ti_root _ _ (cc_tree _ _ Hc) m bm Hbm)). by eapply ti_root; [apply Hc|]. }
  destruct Hf as ([n Hn] & [k Hk] & _). pose proof (cc_chain _ _ Hc) as (bt' & Hbt' & Hlen & _). simplify_eq.
  pose proof (up_le_height _ tp bt k f Hwf Hbt Hk).
  destruct (disconnect_loop_spec (length (cs_active s)) f k s tp Hc Hk ltac:(lia)) as (ok & s1 & -> & H1). cbn [mbind option_bind].
  destruct ok; cbn [negb]; [|by exists false, false, s1]. destruct (H1 eq_refl) as (Hc1 & Et & Ecd). clear H1.
  destruct (up_lookup _ m bm n f Hwf Hbm Hn) as (bf & Hbf). rewrite Et, Hbf, Hbm. cbn [mbind option_bind].
  pose proof (up_height _ m bm n f bf Hwf Hbm Hn Hbf) as Eh.
  assert (at_least (cs_tree s) tp f) as Htf by (eapply ancestor_at_least; [apply Hc|done|by exists k]).
  assert (working s1 f r m) as Hw1.
  { split; [split|..]; [done| | |by rewrite Et|by rewrite Ecd|by rewrite Et].
    - intros p Hp Hwp. rewrite Et in Hwp. rewrite Ecd in Hp. destruct (core_candidate s tp p Hc Hp) as [bp Hbp].
      apply (Hs p Hp). destruct Htf as [->|Htf]; [done|]. eapply worse_trans; [apply Hc|done|done].
    - intros p Hp1 Hp2 Hp3 _. rewrite Et in Hp1, Hp2, Hp3. rewrite Ecd. apply Hcm; [done|done|done|].
      eapply at_least_trans; [apply Hc|done|done]. }
  replace (nHeight bf) with (nHeight bm - Z.of_nat n) by lia.
  destruct (connect_batches_spec (Z.to_nat (nHeight bm - (nHeight bm - Z.of_nat n))) tp s1 f r m n bm Hw1) as (o & s2 & -> & Ho).
  - by rewrite Et.
  - by rewrite Et.
  - lia.
  - rewrite Et. apply elem_of_dom. eauto.
  - cbn [mbind option_bind]. assert (progress s s1) as Hp1 by (unfold progress; by rewrite Et, Ecd).
    apply (connect_post_trans _ s) in Ho; [|done]. destruct o; cbn in Ho.
    + exists true, false, s2. split; [done|]. destruct Ho as [Hw2 Hp]. split; [done|]. exists m. split; [done|].
      destruct (worse_total _ tp m bt bm (ti_works _ _ (cc_tree _ _ Hc)) Hbt Hbm) as [->|[?|?]]; [done|done|]. by destruct (Hs m Hm).
    + exists true, false, s2. split; [done|]. destruct Ho as (tp' & ? & ? & ?). eauto.
    + exists true, true, s2. split; [done|]. destruct Ho as (tp' & ? & ? & ?). eauto.
    + by exists false, false, s2.
Qed.

(** ** Termination *)

(** Every step finds an invalid block or a better tip. *)
Definition measure s (tp : ptr) : nat :=
  (size (unfailed s.(cs_tree)) * (size s.(cs_tree) + 1) + size (better s.(cs_tree) tp))%nat.

Lemma better_bound t p : (size (better t p) <= size t)%nat.
Proof. rewrite <- (size_dom (D := gset ptr)). apply subseteq_size. unfold better. set_solver. Qed.
Lemma unfailed_bound t : (size (unfailed t) <= size t)%nat.
Proof.
  rewrite <- (size_dom (D := gset ptr)). apply subseteq_size. intros p (b & Hb & _)%elem_of_unfailed. apply elem_of_dom. eauto.
Qed.
Lemma measure_bound s tp : (measure s tp + 2 <= (size s.(cs_tree) + 1) * (size s.(cs_tree) + 1) + 1)%nat.
Proof. unfold measure. pose proof (better_bound (cs_tree s) tp). pose proof (unfailed_bound (cs_tree s)). nia. Qed.

Lemma same_shape_size t t' : same_shape t t' → size t = size t'.
Proof. intros Hs. by rewrite <- !(size_dom (D := gset ptr)), (same_shape_dom _ _ Hs). Qed.

Lemma measure_progress s s' tp : progress s s' → (measure s' tp <= measure s tp)%nat.
Proof.
  intros (Hs & Hu & _). unfold measure. rewrite (same_shape_size _ _ Hs), (same_shape_better _ _ tp Hs).
  apply subseteq_size in Hu. nia.
Qed.
Lemma measure_unfailed s s' tp tp' : progress s s' → unfailed s'.(cs_tree) ⊂ unfailed s.(cs_tree) →
  (measure s' tp' < measure s tp)%nat.
Proof.
  intros (Hs & _ & _) Hu. unfold measure. rewrite (same_shape_size _ _ Hs). apply subset_size in Hu.
  pose proof (better_bound (cs_tree s') tp'). nia.
Qed.
Lemma measure_better s s' tp tp' : works_wf s.(cs_tree) → progress s s' → worse s.(cs_tree) tp tp' →
  (measure s' tp' < measure s tp)%nat.
Proof.
  intros Hwk Hp Hw. pose proof (measure_progress s s' tp' Hp). unfold measure in *.
  assert (size (better (cs_tree s) tp') < size (better (cs_tree s) tp))%nat; [|lia].
  apply subset_size. unfold better. split.
  - intros q [Hq Hd]%elem_of_filter. apply elem_of_filter. split; [by eapply worse_trans|done].
  - intros Hsub. assert (tp' ∈ better (cs_tree s) tp) as Hin.
    { apply elem_of_filter. split; [done|]. destruct (worse_lookup _ _ _ Hw) as (_ & b & _ & Hb). apply elem_of_dom. eauto. }
    apply Hsub, elem_of_filter in Hin as [Hin _]. by apply (worse_irrefl _ _ Hwk) in Hin.
Qed.

(** ** [ActivateBestChain] *)

(** [m] can be connected and no candidate is better. *)
Definition best_target s (m : ptr) : Prop :=
  m ∈ s.(cs_candidates) ∧ ready s.(cs_tree) m ∧ ∀ q, q ∈ s.(cs_candidates) → at_least s.(cs_tree) m q.

Lemma progress_best_target s s' m : progress s s' → m ∈ s'.(cs_candidates) → ready s'.(cs_tree) m →
  best_target s m → best_target s' m.
Proof.
  intros (Hs & _ & Hc) Hm Hr (_ & _ & H). split_and!; [done|done|]. intros q Hq.
  rewrite <- (same_shape_at_least _ _ _ _ Hs). by apply H, Hc.
Qed.

Lemma core_reached s tp : chain_core s tp → reached s.(cs_tree) tp.
Proof. intros Hc. destruct (core_lookup s tp Hc) as (b & Hb & _). split_and!; [apply elem_of_dom; eauto|apply Hc|apply Hc]. Qed.

Lemma settled_advance s tp r : settled s tp r → at_least s.(cs_tree) tp r → settled s tp tp.
Proof.
  intros [Hc Hs Hcm Ha] H. split; [done|done| |by apply core_reached].
  intros p H1 H2 H3 H4. apply Hcm; [done|done| |done]. eapply at_least_trans; [apply Hc|done|done].
Qed.

(** The best tip so far, once the tip has moved. *)
Lemma settled_raise s tp r : settled s tp r → ∃ r', settled s tp r' ∧ at_least s.(cs_tree) r' tp ∧ at_least s.(cs_tree) r' r.
Proof.
  intros Hs. pose proof (st_core _ _ _ Hs) as Hc. destruct (core_lookup s tp Hc) as (bt & Hbt & _).
  pose proof (st_reached _ _ _ Hs) as ([br Hbr]%elem_of_dom & _).
  destruct (worse_total _ tp r bt br (ti_works _ _ (cc_tree _ _ Hc)) Hbt Hbr) as [<-|[Hw|Hw]].
  - exists tp. split; [done|]. by split; left.
  - exists r. split; [done|]. split; [by right|by left].
  - exists tp. split; [apply (settled_advance s tp r Hs); by right|]. split; [by left|by right].
Qed.

(** No candidate is better than [tp]. *)
Definition topmost s (tp : ptr) : Prop := ∀ q, q ∈ s.(cs_candidates) → at_least s.(cs_tree) tp q.

Lemma FindMostWorkChain_spec s tp r : settled s tp r →
  ∃ o s', FindMostWorkChain s = Some (o, s') ∧ demotes s s' ∧
    match o with Some m => best_target s' m | None => s'.(cs_candidates) = ∅ end.
Proof.
  intros Hs. apply (FindMostWorkChain_loop_spec (size (cs_candidates s)) s tp (st_core _ _ _ Hs)). lia.
Qed.

(** The chain to try next, remembered or looked for. *)
Lemma next_target s tp r pm : settled s tp r → (pm = None ∨ ∃ m, pm = Some m ∧ best_target s m) →
  ∃ o s', match pm with None => FindMostWorkChain s | Some p => Some (Some p, s) end = Some (o, s') ∧ demotes s s' ∧
    match o with Some m => best_target s' m | None => s'.(cs_candidates) = ∅ end.
Proof.
  intros Hs [->|(m & -> & Hm)]; [by eapply FindMostWorkChain_spec|]. exists (Some m), s. split; [done|]. by split; [apply demotes_refl|].
Qed.

Definition inner_post s (tp r : ptr) (bc : bool) (o : option (option ptr * bool)) s' : Prop :=
  match o with
  | None => True
  | Some (most, bc') => ∃ tp' r', settled s' tp' r' ∧ at_least s'.(cs_tree) r' tp' ∧ at_least s.(cs_tree) r' r ∧ progress s s' ∧
      (most = None ∨ ∃ m, most = Some m ∧ best_target s' m) ∧
      (measure s' tp' <= measure s tp)%nat ∧ (bc = false → bc' = true → (measure s' tp' < measure s tp)%nat) ∧
      (bc' = false → topmost s' tp')
  end.

Lemma inner_post_step s s1 tp tp1 r r1 bc o s' : works_wf s.(cs_tree) → progress s s1 → (measure s1 tp1 < measure s tp)%nat →
  at_least s.(cs_tree) r1 r → inner_post s1 tp1 r1 true o s' → inner_post s tp r bc o s'.
Proof.
  intros Hwk Hp Hm Hr. destruct o as [[most bc']|]; [|done]. cbn. intros (tp' & r' & H1 & H2 & H3 & H4 & H5 & H6 & H7 & H8).
  rewrite <- (same_shape_at_least _ _ _ _ (proj1 Hp)) in H3.
  exists tp', r'. split_and!; [done|done|by eapply at_least_trans|by etrans|done|lia|lia|done].
Qed.

Lemma activate_inner_spec fuel st s tp r pm bc :
  settled s tp r → at_least s.(cs_tree) r tp → st ∈ dom s.(cs_tree) → (pm = None ∨ ∃ m, pm = Some m ∧ best_target s m) →
  (measure s tp < fuel)%nat →
  ∃ o s', activate_inner fuel (Some st) pm bc s = Some (o, s') ∧ inner_post s tp r bc o s'.
Proof.
  revert s tp r pm bc. induction fuel as [|fuel IH]; intros s tp r pm bc Hs Hr Hst Hpm Hf; [lia|]. cbn [activate_inner].
  destruct (next_target s tp r pm Hs Hpm) as (o & s1 & -> & D & Ho). cbn [mbind option_bind].
  pose proof (demotes_settled _ _ _ _ D Hs) as Hs1. pose proof (st_core _ _ _ Hs1) as Hc1.
  pose proof (demotes_progress _ _ D) as Hp1. pose proof (measure_progress s s1 tp Hp1) as Hme.
  pose proof (dm_shape _ _ D) as Hd. pose proof Hr as Hr0. rewrite (same_shape_at_least _ _ _ _ Hd) in Hr.
  destruct o as [m|].
  2: { do 2 eexists. split; [reflexivity|]. exists tp, r. split_and!; [done|done|by left|done|by left|done|congruence|].
       intros _ q Hq. set_solver. }
  rewrite (core_tip s1 tp Hc1). case_bool_decide as Hmt.
  { injection Hmt as ->. do 2 eexists. split; [reflexivity|]. exists tp, r. split_and!; [done|done|by left|done|eauto|done|congruence|].
    intros _. by destruct Ho as (_ & _ & Ho). }
  destruct (ActivateBestChainStep_spec s1 tp r m) as (ok & inv & s2 & -> & H2).
  { split; [done|apply Ho|apply Ho]. }
  { done. }
  { congruence. }
  cbn [mbind option_bind]. destruct ok; cbn [negb]; [|by exists None, s2].
  destruct (H2 eq_refl) as (Hp2 & tp' & H). clear H2.
  assert (settled s2 tp' r ∧ (measure s2 tp' < measure s1 tp)%nat ∧ (inv = false → best_target s2 m)) as (Hs2 & Hlt & Hbt).
  { destruct inv; destruct H as [Ha Hb].
    - split; [done|]. split; [by apply measure_unfailed|done].
    - split; [apply Ha|]. split; [apply measure_better; [apply Hc1|done|done]|].
      intros _. apply (progress_best_target s1 s2 m Hp2); [by eapply wk_target|by eapply wk_ready|done]. }
  destruct (settled_raise s2 tp' r Hs2) as (r' & Hs2' & Hr1 & Hr2).
  rewrite (core_tip s2 tp' (st_core _ _ _ Hs2)). set (most := if inv then None else Some m).
  assert (most = None ∨ ∃ m, most = Some m ∧ best_target s2 m) as Hmost by (unfold most; destruct inv; eauto).
  assert (progress s s2) as Hp by (by etrans). assert (measure s2 tp' < measure s tp)%nat as Hlt' by lia.
  pose proof (proj1 Hp) as Hsh. rewrite <- (same_shape_at_least _ _ _ _ Hsh) in Hr2. rewrite (same_shape_dom _ _ Hsh) in Hst.
  destruct (core_lookup s2 tp' (st_core _ _ _ Hs2)) as (bt & Hbt' & _). pose proof Hst as [br Hbr]%elem_of_dom.
  destruct (work_less (cs_tree s2) tp' st) as [w|] eqn:Ew; [|unfold work_less in Ew; by rewrite Hbt', Hbr in Ew].
  cbn [mbind option_bind]. destruct w.
  - destruct (IH s2 tp' r' most true Hs2' Hr1 Hst Hmost) as (o & s' & -> & Ho'); [lia|]. exists o, s'. split; [done|].
    eapply inner_post_step; [apply Hs|done|exact Hlt'|exact Hr2|done].
  - do 2 eexists. split; [reflexivity|]. exists tp', r'. by split_and!; [..|lia|lia|].
Qed.

Lemma activate_outer_spec fuel s tp r pm :
  settled s tp r → at_least s.(cs_tree) r tp → (pm = None ∨ ∃ m, pm = Some m ∧ best_target s m) → (measure s tp + 2 <= fuel)%nat →
  ∃ ok s', activate_outer fuel pm s = Some (ok, s') ∧
    (ok = true → ∃ tp' r', settled s' tp' r' ∧ at_least s'.(cs_tree) r' tp' ∧ at_least s.(cs_tree) r' r ∧ progress s s' ∧ topmost s' tp').
Proof.
  revert s tp r pm. induction fuel as [|fuel IH]; intros s tp r pm Hs Hr Hpm Hf; [lia|]. cbn [activate_outer].
  rewrite (core_tip s tp (st_core _ _ _ Hs)). destruct (core_lookup s tp (st_core _ _ _ Hs)) as (bt & Hbt & _).
  destruct (activate_inner_spec fuel tp s tp r pm false Hs Hr) as (o & s1 & -> & Ho); [apply elem_of_dom; eauto|done|lia|].
  cbn [mbind option_bind]. destruct o as [[most bc]|]; [|by exists false, s1].
  destruct Ho as (tp' & r' & Hs1 & Hr1 & Hrr & Hp & Hmost & _ & Hlt & Htop). rewrite (core_tip s1 tp' (st_core _ _ _ Hs1)).
  destruct bc; cbn [negb]; [|exists true, s1; split; [done|]; intros _; exists tp', r'; split_and!; auto].
  case_bool_decide as Ht.
  { exists true, s1. split; [done|]. intros _. exists tp', r'. split_and!; [done..|]. destruct Hmost as [->|(m & -> & Hm)]; [done|].
    injection Ht as ->. by destruct Hm as (_ & _ & Hm). }
  destruct (IH s1 tp' r' most Hs1 Hr1 Hmost) as (ok & s' & -> & H); [specialize (Hlt eq_refl eq_refl); lia|].
  exists ok, s'. split; [done|]. intros Hok. destruct (H Hok) as (tp2 & r2 & ? & ? & Hr2 & ? & ?). exists tp2, r2.
  rewrite <- (same_shape_at_least _ _ _ _ (proj1 Hp)) in Hr2.
  split_and!; [done|done|eapply at_least_trans; [apply Hs|done|done]|by etrans|done].
Qed.
End activate.

(** ** Main theorems *)

(** The invariant of the chain state between two calls: [hw] is the best tip
    that the node has had, and the blocks that can be connected and are at least
    as good as [hw] are candidates.  [hw] is [tp] unless a block of the chain of
    [hw] was found invalid when it was connected again. *)
Record chain_inv {S} `{!ChainCoins S, !ChainCoinsLaws S} (g : ptr) (s : ChainState S) (tp hw : ptr) : Prop := {
  ci_settled : settled g s tp hw;
  ci_above : at_least (cs_tree s) hw tp;
}.

Lemma ci_core {S} `{!ChainCoins S, !ChainCoinsLaws S} g (s : ChainState S) tp hw : chain_inv g s tp hw → chain_core g s tp.
Proof. intros H. apply H. Qed.

(** A state whose tip is its best tip. *)
Lemma chain_inv_top {S} `{!ChainCoins S, !ChainCoinsLaws S} g (s : ChainState S) tp :
  chain_core g s tp → sound s tp → complete s tp tp → chain_inv g s tp tp.
Proof.
  intros Hc H1 H2. split; [|by left]. split; [done|done|done|by apply (core_reached g)].
Qed.

(** What [ActivateBestChain] leaves: no connectable block that is at least as
    good as the best tip so far is better than the tip, and the tip is that
    best tip unless a block of its chain is failed now. *)
Record best_active {S} (s : ChainState S) (tp hw : ptr) : Prop := {
  ba_above p : ready (cs_tree s) p → linked (cs_tree s) p → at_least (cs_tree s) p hw → at_least (cs_tree s) tp p;
  ba_top : tp = hw ∨ ¬ ready (cs_tree s) hw;
}.

(** Then the tip is the best of all blocks that can be connected. *)
Lemma best_active_all {S} `{!ChainCoins S, !ChainCoinsLaws S} g (s : ChainState S) tp hw :
  chain_inv g s tp hw → best_active s tp hw → ready (cs_tree s) hw →
  ∀ p, ready (cs_tree s) p → linked (cs_tree s) p → at_least (cs_tree s) tp p.
Proof.
  intros [Hs _] [H1 H2] Hhw p Hr Hl. destruct H2 as [<-|H2]; [|done].
  pose proof (st_core _ _ _ _ Hs) as Hc. pose proof (ti_works _ _ (cc_tree _ _ _ Hc)) as Hwk.
  destruct (core_lookup g s tp Hc) as (bt & Hbt & _). destruct (ready_lookup _ _ Hr) as (bp & Hbp & _).
  destruct (worse_total _ p tp bp bt Hwk Hbp Hbt) as [->|[?|Hw]]; [by left|by right|]. apply H1; [done|done|by right].
Qed.

Lemma topmost_best {S} `{!ChainCoins S, !ChainCoinsLaws S} g (s : ChainState S) tp hw :
  chain_inv g s tp hw → topmost s tp → best_active s tp hw.
Proof.
  intros [Hs Ha] Ht. pose proof (st_core _ _ _ _ Hs) as Hc. pose proof (ti_works _ _ (cc_tree _ _ _ Hc)) as Hwk.
  destruct (core_lookup g s tp Hc) as (bt & Hbt & _).
  assert (∀ p, ready (cs_tree s) p → linked (cs_tree s) p → at_least (cs_tree s) p hw → at_least (cs_tree s) tp p) as Hb.
  { intros p Hr Hl Hp. apply Ht, (st_complete _ _ _ _ Hs); [done|done|done|]. by eapply at_least_trans. }
  split; [done|]. pose proof (st_reached _ _ _ _ Hs) as ([bh Hbh]%elem_of_dom & Hlh & _).
  destruct Ha as [->|Ha]; [by left|right]. intros Hr. pose proof (Hb hw Hr Hlh ltac:(by left)) as Hth.
  by apply (at_least_iff _ hw tp bh bt Hwk Hbh Hbt) in Hth.
Qed.

(** [FindMostWorkChain] always answers: it only drops candidates that cannot
    be connected because of a failed block or of missing data, and returns the
    best of the others, if there is one; the active chain and the coins do not
    change, nor does the set of the blocks that can be connected. *)
Theorem FindMostWorkChain_selects_best {S} `{!ChainCoins S, !ChainCoinsLaws S} (g : ptr) (s : ChainState S) (tp : ptr) :
  chain_core g s tp →
  ∃ r s', FindMostWorkChain s = Some (r, s') ∧ cs_active s' = cs_active s ∧ cs_coins s' = cs_coins s ∧
    cs_candidates s' ⊆ cs_candidates s ∧ (∀ p, ready (cs_tree s') p ↔ ready (cs_tree s) p) ∧
    match r with
    | Some m => m ∈ cs_candidates s' ∧ ready (cs_tree s) m ∧
        ∀ p, p ∈ cs_candidates s → ready (cs_tree s) p → p ∈ cs_candidates s' ∧ at_least (cs_tree s) m p
    | None => ∀ p, p ∈ cs_candidates s → ¬ ready (cs_tree s) p
    end.
Proof.
  intros Hc. unfold FindMostWorkChain.
  destruct (FindMostWorkChain_loop_spec g (size (cs_candidates s)) s tp Hc ltac:(lia)) as (r & s' & -> & D & H).
  exists r, s'. split; [done|]. split; [apply D|]. split; [apply D|]. split; [apply D|]. split; [apply D|].
  destruct r as [m|].
  - destruct H as (H1 & H2 & H3). split; [done|]. split; [by apply D|]. intros p Hp Hr.
    assert (p ∈ cs_candidates s') as Hp' by (by apply D). split; [done|].
    rewrite (same_shape_at_least _ _ _ _ (dm_shape _ _ D)). by apply H3.
  - intros p Hp Hr. assert (p ∈ cs_candidates s') by (by apply D). set_solver.
Qed.

Lemma ActivateBestChain_spec {S} `{!ChainCoins S, !ChainCoinsLaws S} (g : ptr) (s : ChainState S) (tp hw : ptr) :
  chain_inv g s tp hw →
  ∃ ok s', ActivateBestChain s = Some (ok, s') ∧
    (ok = true → ∃ tp' hw', chain_inv g s' tp' hw' ∧ tip s' = Some tp' ∧ best_active s' tp' hw' ∧
      at_least (cs_tree s) hw' hw ∧ same_shape (cs_tree s) (cs_tree s') ∧ unfailed (cs_tree s') ⊆ unfailed (cs_tree s) ∧
      (ready (cs_tree s') hw' → ∀ p, ready (cs_tree s') p → linked (cs_tree s') p → at_least (cs_tree s') tp' p)).
Proof.
  intros [Hs Ha]. destruct (activate_outer_spec g ((size (cs_tree s) + 1) * (size (cs_tree s) + 1) + 1) s tp hw None Hs Ha)
    as (ok & s' & E & H); [by left|apply measure_bound|].
  exists ok, s'. split; [done|]. intros Hok. destruct (H Hok) as (tp' & hw' & Hs' & Ha' & Hhw & (Hsh & Hu & _) & Ht).
  assert (chain_inv g s' tp' hw') as Hinv by done. pose proof (topmost_best g s' tp' hw' Hinv Ht) as Hb.
  exists tp', hw'. split_and!; [done|apply (core_tip g s' tp'), Hs'|done|done|done|done|]. by apply (best_active_all g).
Qed.


(** *** A concrete chain state *)

(** Checks over all the ancestors of a block, and over all the blocks. *)
Lemma ancestors_check (P : ptr → Prop) t p b : wf_tree t → t !! p = Some b →
  Forall (λ n, match up t p n with Some q => P q | None => True end) (seq 0 (Z.to_nat b.(nHeight) + 1)) →
  ∀ q, is_ancestor t p q → P q.
Proof.
  intros Hwf Hp HF q [n Hn]. pose proof (up_le_height t p b n q Hwf Hp Hn). rewrite Forall_forall in HF.
  specialize (HF n ltac:(apply elem_of_seq; lia)). by rewrite Hn in HF.
Qed.

Lemma tree_inv_check g t :
  map_Forall (λ p b, entry_ok t b ∧ wf 8 b.(nChainWork) ∧ up t p (Z.to_nat b.(nHeight)) = Some g ∧
    match b.(pprev) with
    | None => true
    | Some q => match t !! q with Some bq => val bq.(nChainWork) <? val b.(nChainWork) | None => false end
    end = true) t → tree_inv g t.
Proof.
  intros H. split.
  - intros p b Hp. apply (H p b Hp).
  - intros p b Hp. apply (H p b Hp).
  - intros p b q bq Hp Hq Hbq. destruct (H p b Hp) as (_ & _ & _ & HM). rewrite Hq, Hbq in HM. lia.
  - intros p b Hp. eexists. apply (H p b Hp).
Qed.


(** Coins that know only their best block, and that reject block 4. *)
#[local] Instance sample_coins : ChainCoins ptr := {
  coins_connect t p c := match t !! p with
    | Some b => if bool_decide (p = 4%positive) && bool_decide (¬ scripts_ok b) then InvalidBlock false else Connected p 0
    | None => SystemError c None
    end;
  coins_disconnect t p c := match t !! p with
    | Some b => match b.(pprev) with Some q => Disconnected q | None => DisconnectFailed c end
    | None => DisconnectFailed c
    end;
}.

#[local] Instance sample_laws : ChainCoinsLaws ptr.
Proof.
  refine {| follows := eq |}; cbn.
  - intros t p b q c c' pos -> Hq ->. by destruct (_ && _); intros [= <-].
  - intros t p b q c c' -> -> _. by intros [= <-].
  - intros t p c. destruct (t !! p); [|done]. by destruct (_ && _).
Defined.

(** Block 1 is the genesis and 2 the tip; 4 and 5 are children of 3, which is a
    child of 1. *)
Definition sample_block (prev : option ptr) (h work seq status : Z) : CBlockIndex :=
  mkCBlockIndex (uint_zero W256) prev None h 0 0 0 (uint_of_u64 W256 work) 1 1 status [] 0 0 None 1
    (uint_zero W256) (uint_zero W256) (uint_zero W256) 0 0 0 seq.
Definition sample_index : BlockTree :=
  let add t p b := match BuildSkip t b with Some b => <[p := b]> t | None => t end in
  let t := add ∅ 1%positive (sample_block None 0 1 0 13) in
  let t := add t 2%positive (sample_block (Some 1%positive) 1 2 1 29) in
  let t := add t 3%positive (sample_block (Some 1%positive) 1 2 2 11) in
  let t := add t 4%positive (sample_block (Some 3%positive) 2 3 3 11) in
  add t 5%positive (sample_block (Some 3%positive) 2 3 4 11).
Definition sample_state : ChainState ptr :=
  mkChainState sample_index [Some 1%positive; Some 2%positive] {[2; 4; 5]}%positive [] None 5 2%positive.

Definition sample_tip : option (bool * option ptr) := '(ok, s) ← ActivateBestChain sample_state; Some (ok, tip s).
Example sample_tip_is : sample_tip = Some (true, Some 5%positive).
Proof. vm_compute. reflexivity. Qed.

Lemma sample_tree_inv : tree_inv 1 sample_index.
Proof. apply tree_inv_check, (bool_decide_unpack _). vm_compute. exact I. Qed.

Lemma sample_linked p : linked sample_index p.
Proof.
  assert (map_Forall (λ _ b, nChainTx b ≠ 0) sample_index) as H by (apply (bool_decide_unpack _); vm_compute; exact I).
  intros q b _ Hq. left. by apply (H q).
Qed.

Lemma sample_inv : chain_inv 1 sample_state 2 2.
Proof.
  assert (∃ b, sample_index !! 2%positive = Some b) as [b Hb] by (eexists; vm_compute; reflexivity).
  assert (Z.to_nat (nHeight b) = 1%nat) as Hh by (revert Hb; vm_compute; by intros [= <-]).
  assert (ready sample_index 2) as Hr.
  { refine (ancestors_check _ sample_index 2 b (ti_wf _ _ sample_tree_inv) Hb _).
    rewrite Hh. constructor; [|constructor; [|constructor]]; vm_compute; (eexists; split; reflexivity). }
  assert (validated sample_index 2) as Hv.
  { intros q c Hq. revert q Hq c. refine (ancestors_check _ sample_index 2 b (ti_wf _ _ sample_tree_inv) Hb _).
    rewrite Hh. constructor; [|constructor; [|constructor]]; vm_compute; intros c [= <-]; [by right|by left]. }
  apply chain_inv_top; [split|..]; cbn.
  - apply sample_tree_inv.
  - exists b. split; [done|]. revert Hb. vm_compute. intros [= <-]. split; [done|]. intros i Hi.
    destruct i as [|[|i]]; [done|done|lia].
  - done.
  - apply sample_linked.
  - done.
  - intros p Hp. split; [|apply sample_linked]. revert p Hp. apply (bool_decide_unpack _). vm_compute. exact I.
  - done.
  - done.
  - apply (bool_decide_unpack _). vm_compute. exact I.
  - assert (map_Forall (λ p _, worse sample_index p 2 ∨ p ∈ ({[2; 4; 5]}%positive : gset ptr)) sample_index) as H
      by (apply (bool_decide_unpack _); vm_compute; exact I).
    intros p Hrp _ _ Hp. destruct (ready_lookup _ _ Hrp) as (bp & Hbp & _). destruct (H p bp Hbp) as [Hw|]; [|done].
    destruct (proj1 (at_least_iff _ 2 p b bp (ti_works _ _ sample_tree_inv) Hb Hbp) Hp Hw).
Qed.

Lemma FindMostWorkChain_selects_best_witness :
  ∃ r s', FindMostWorkChain sample_state = Some (r, s') ∧ cs_active s' = cs_active sample_state.
Proof.
  destruct (FindMostWorkChain_selects_best 1 sample_state 2 (ci_core _ _ _ _ sample_inv)) as (r & s' & H1 & H2 & _). eauto.
Defined.


(** *** A chain that is rejected when it is connected again *)

(** Blocks 2 and 3 were accepted during the initial download, when the payees
    are not checked, and 3 is the tip; 4, 5 and 6 are another chain, whose last
    block is invalid.  After the attempt to connect 6 the payee of 2 is checked
    and block 2 is rejected. *)
Definition payee_coins : ChainCoins ptr := {|
  coins_connect t p c := if bool_decide (p = 6%positive ∨ p = 2%positive) then InvalidBlock false else Connected p 0;
  coins_disconnect t p c := match t !! p with
    | Some b => match b.(pprev) with Some q => Disconnected q | None => DisconnectFailed c end
    | None => DisconnectFailed c
    end;
|}.
Definition payee_index : BlockTree :=
  let add t p b := match BuildSkip t b with Some b => <[p := b]> t | None => t end in
  let t := add ∅ 1%positive (sample_block None 0 1 0 13) in
  let t := add t 2%positive (sample_block (Some 1%positive) 1 2 1 29) in
  let t := add t 3%positive (sample_block (Some 2%positive) 2 3 2 29) in
  let t := add t 4%positive (sample_block (Some 1%positive) 1 2 3 11) in
  let t := add t 5%positive (sample_block (Some 4%positive) 2 3 4 11) in
  add t 6%positive (sample_block (Some 5%positive) 3 4 5 11).
Definition payee_state : ChainState ptr :=
  mkChainState payee_index [Some 1; Some 2; Some 3]%positive {[3; 6]}%positive [] None 6 3%positive.

(** The node ends on the genesis block without candidates, although the chain of
    block 5, which it has just connected, can be connected and has more work. *)
Definition payee_result : option (bool * option ptr * bool * option bool * option (bool * bool)) :=
  '(ok, s) ← @ActivateBestChain _ payee_coins payee_state;
  Some (ok, tip s, bool_decide (s.(cs_candidates) = ∅), work_less s.(cs_tree) 1%positive 5%positive,
        b4 ← s.(cs_tree) !! 4%positive; b5 ← s.(cs_tree) !! 5%positive; Some (usable b4, usable b5)).
Example payee_result_is : payee_result = Some (true, Some 1%positive, true, Some true, Some (true, true)).
Proof. vm_compute. reflexivity. Qed.
