(* ===== verification/ChainInvalidate.v ===== *)
(** * ChainInvalidate: invalidating and reconsidering blocks ([validation.cpp])

    [InvalidateBlock] moves the active chain below a block and keeps the
    invariant of the chain state, so that [ActivateBestChain] then finds the best
    chain without it; [ReconsiderBlock] clears the failure flags again. *)

From S2P Require Import Prelude ArithUint256 Params Chain ChainState ChainActivate.
Local Open Scope Z_scope.

(** ** The index *)

(** [nChainTx] is set for a block exactly when the transactions of the block
    and of its ancestors have been received and checked. *)
Record index_inv (g : ptr) (t : BlockTree) : Prop := {
  ii_level p b : t !! p = Some b → b.(nChainTx) ≠ 0 → BLOCK_VALID_TRANSACTIONS <= Z.land b.(nStatus) BLOCK_VALID_MASK;
  ii_parent p b q bq : t !! p = Some b → b.(nChainTx) ≠ 0 → b.(pprev) = Some q → t !! q = Some bq → bq.(nChainTx) ≠ 0;
  ii_genesis b : t !! g = Some b → b.(nChainTx) ≠ 0;
}.

Lemma linked_of_chain_tx g t p b : wf_tree t → index_inv g t → t !! p = Some b → b.(nChainTx) ≠ 0 → linked t p.
Proof.
  intros Hwf Hi Hp Hn q bq [n Hup]. revert p b Hp Hn Hup. induction n as [|n IH]; intros p b Hp Hn Hup Hq; cbn [up] in Hup.
  { left. simplify_eq. congruence. }
  rewrite Hp in Hup. cbn in Hup. destruct (pprev b) as [r|] eqn:Er; [|done]. cbn in Hup.
  pose proof (Hwf p b Hp) as He. unfold entry_ok in He. rewrite Er in He. destruct He as (br & Hr & _).
  apply (IH r br Hr); [|done|done]. exact (ii_parent g t Hi p b r br Hp Hn Er Hr).
Qed.

Lemma chain_tx_of_linked g t p b : tree_inv g t → index_inv g t → t !! p = Some b → linked t p → b.(nChainTx) ≠ 0.
Proof.
  intros Hti Hi Hp Hl. destruct (Hl p b (is_ancestor_refl t p) Hp) as [|Hh]; [done|].
  pose proof (ti_wf g t Hti p b Hp) as He. unfold entry_ok in He. destruct (pprev b) as [q|] eqn:Eq.
  - destruct He as (bq & _ & ? & ? & _). lia.
  - destruct (is_ancestor_step t p b g Hp (ti_root g t Hti p b Hp)) as [->|(r & E & _)]; [|congruence]. by eapply ii_genesis.
Qed.

(** The validity level of a block. *)
Definition same_level (t t' : BlockTree) : Prop :=
  ∀ p : ptr, (λ b, Z.land (nStatus b) BLOCK_VALID_MASK) <$> t !! p = (λ b, Z.land (nStatus b) BLOCK_VALID_MASK) <$> t' !! p.

Lemma add_status_level flag p t : flag = BLOCK_FAILED_VALID ∨ flag = BLOCK_FAILED_CHILD → same_level t (add_status flag p t).
Proof.
  intros Hf q. rewrite lookup_add_status. destruct (decide (p = q)); [|done]. destruct (t !! q) as [b|]; [|done]. cbn. f_equal.
  rewrite status_of, Z.land_lor_distr_l. destruct Hf as [-> | ->].
  - change (Z.land BLOCK_FAILED_VALID BLOCK_VALID_MASK) with 0. by rewrite Z.lor_0_r.
  - change (Z.land BLOCK_FAILED_CHILD BLOCK_VALID_MASK) with 0. by rewrite Z.lor_0_r.
Qed.

Lemma index_inv_same g t t' : same_shape t t' → same_level t t' → index_inv g t → index_inv g t'.
Proof.
  intros Hs Hl [H1 H2 H3]. pose proof Hs as Hs'. symmetry in Hs'. split.
  - intros p b Hp Hn. destruct (same_shape_lookup t' t p b Hs' Hp) as (c & Hc & E).
    apply shape_fields in E as (_ & _ & _ & _ & E & _). specialize (Hl p). rewrite Hp, Hc in Hl. cbn in Hl. injection Hl as <-.
    apply (H1 p c Hc). congruence.
  - intros p b q bq Hp Hn Hq Hbq. destruct (same_shape_lookup t' t p b Hs' Hp) as (c & Hc & E).
    destruct (same_shape_lookup t' t q bq Hs' Hbq) as (cq & Hcq & Eq).
    apply shape_fields in E as (E & _ & _ & _ & E' & _). apply shape_fields in Eq as (_ & _ & _ & _ & -> & _).
    eapply H2; [exact Hc|by rewrite <- E'|by rewrite <- E|done].
  - intros b Hb. destruct (same_shape_lookup t' t g b Hs' Hb) as (c & Hc & E). apply shape_fields in E as (_ & _ & _ & _ & -> & _). eauto.
Qed.

Lemma IsValid_transactions b :
  IsValid b BLOCK_VALID_TRANSACTIONS =
    Some (negb (failed b) && (BLOCK_VALID_TRANSACTIONS <=? Z.land b.(nStatus) BLOCK_VALID_MASK)).
Proof. unfold IsValid, failed. change (negb (Z.land _ _ =? 0)) with false at 1. cbv iota. by destruct (negb _). Qed.

Lemma has_chain_iff b : has_chain b = true ↔
  failed b = false ∧ BLOCK_VALID_TRANSACTIONS <= Z.land b.(nStatus) BLOCK_VALID_MASK ∧ b.(nChainTx) ≠ 0.
Proof.
  unfold has_chain. rewrite IsValid_transactions, andb_true_iff, bool_decide_eq_true, negb_true_iff, Z.eqb_neq.
  destruct (failed b); cbn [negb andb]; [naive_solver|]. rewrite <- Z.leb_le. split; [intros [[= H] ?]; done|intros (_ & -> & ?); done].
Qed.

Lemma usable_not_failed b : usable b = true → failed b = false.
Proof. unfold usable. by destruct (failed b). Qed.

Section invalidate.
Context {S : Type} `{!ChainCoins S, !ChainCoinsLaws S} (g : ptr).
Implicit Types s : ChainState S.

(** ** [InvalidateBlock] *)

(** During the loop: blocks that descend from [pindex] are not ready any more,
    and the tip goes down from [tp0]. *)
Record going_down s0 (tp0 pindex : ptr) s (tp : ptr) : Prop := {
  gd_shape : same_shape s0.(cs_tree) s.(cs_tree);
  gd_level : same_level s0.(cs_tree) s.(cs_tree);
  gd_chain : chain_to s.(cs_tree) s.(cs_active) tp;
  gd_follows : follows s.(cs_coins) tp;
  gd_sub : s.(cs_candidates) ⊆ s0.(cs_candidates);
  gd_ready p : ready s.(cs_tree) p ↔ ready s0.(cs_tree) p ∧ ¬ is_ancestor s0.(cs_tree) p pindex;
  gd_validated p : validated s.(cs_tree) p ↔ validated s0.(cs_tree) p;
  gd_unfailed : unfailed s.(cs_tree) ⊆ unfailed s0.(cs_tree);
  gd_flagged : pindex ∉ unfailed s.(cs_tree);
  gd_invalid : s.(cs_best_invalid) = s0.(cs_best_invalid);
  gd_down : is_ancestor s0.(cs_tree) tp0 tp;
}.

Lemma same_level_trans t1 t2 t3 : same_level t1 t2 → same_level t2 t3 → same_level t1 t3.
Proof. intros H1 H2 p. by rewrite H1. Qed.

(** Flagging the tip, which descends from [pindex]. *)
Lemma going_down_flag s0 tp0 pindex s tp : going_down s0 tp0 pindex s tp → is_ancestor s0.(cs_tree) tp pindex →
  going_down s0 tp0 pindex (erase_candidate tp (with_tree (add_status BLOCK_FAILED_CHILD tp s.(cs_tree)) s)) tp.
Proof.
  intros [H1 H2 H3 H4 H5 H6 H7 H8 Hfl H9 H10] Ha. pose proof (add_status_shape BLOCK_FAILED_CHILD tp (cs_tree s)) as Hs.
  split; cbn; [by etrans| |by eapply same_shape_chain|done|set_solver| | | | |done|done].
  - eapply same_level_trans; [done|]. apply add_status_level. auto.
  - intros p. rewrite add_status_ready, H6 by auto. split; [tauto|]. intros [Hr Hn]. split; [done|].
    rewrite <- (same_shape_ancestor _ _ p tp H1). intros Hp. apply Hn. by eapply is_ancestor_trans.
  - intros p. rewrite add_status_validated by auto. apply H7.
  - rewrite add_status_unfailed by auto. set_solver.
  - rewrite add_status_unfailed by auto. set_solver.
Qed.

Lemma going_down_disconnect s0 tp0 pindex s tp b q c active :
  going_down s0 tp0 pindex s tp → s.(cs_tree) !! tp = Some b → b.(pprev) = Some q → chain_to s.(cs_tree) active q → follows c q →
  going_down s0 tp0 pindex (with_active active (with_coins c s)) q.
Proof.
  intros [H1 H2 H3 H4 H5 H6 H7 H8 Hfl H9 H10] Hb Hq Hto Hf. split; cbn; try done.
  eapply is_ancestor_trans; [done|]. rewrite (same_shape_ancestor _ _ tp q H1). by eapply is_ancestor_parent.
Qed.

Lemma invalidate_loop_spec fuel s0 tp0 pindex s tp bt :
  tree_inv g s0.(cs_tree) → pindex ∈ dom s0.(cs_tree) → pindex ≠ g → going_down s0 tp0 pindex s tp →
  s.(cs_tree) !! tp = Some bt → bt.(nHeight) < Z.of_nat fuel →
  ∃ ok s', invalidate_loop fuel pindex s = Some (ok, s') ∧
    (ok = true → ∃ tp', going_down s0 tp0 pindex s' tp' ∧ ¬ is_ancestor s0.(cs_tree) tp' pindex).
Proof.
  intros Hi0 Hp Hg. revert s tp bt. induction fuel as [|fuel IH]; intros s tp bt Hgd Hbt Hf.
  { pose proof (same_shape_wf _ _ (gd_shape _ _ _ _ _ Hgd) (ti_wf _ _ Hi0)) as Hwf. pose proof (wf_height _ _ _ Hwf Hbt). lia. }
  pose proof (gd_shape _ _ _ _ _ Hgd) as Hs. pose proof (same_shape_tree_inv g _ _ Hs Hi0) as Hi.
  rewrite (same_shape_dom _ _ Hs) in Hp. pose proof Hp as [bp Hbp]%elem_of_dom.
  destruct (Chain_Contains_spec _ _ tp pindex bp (ti_wf _ _ Hi) (gd_chain _ _ _ _ _ Hgd) Hbp) as (k & Ek & Hk).
  cbn [invalidate_loop]. rewrite Ek. cbn [mbind option_bind]. destruct k; cbn [negb].
  2: { exists true, s. split; [done|]. intros _. exists tp. split; [done|]. rewrite (same_shape_ancestor _ _ tp pindex Hs). intros H.
       by apply Hk in H. }
  pose proof (proj1 Hk eq_refl) as Ha. rewrite <- (same_shape_ancestor _ _ tp pindex Hs) in Ha.
  unfold tip. rewrite (Chain_Tip_spec _ _ tp (ti_wf _ _ Hi) (gd_chain _ _ _ _ _ Hgd)). cbn [mbind option_bind].
  pose proof (going_down_flag _ _ _ _ _ Hgd Ha) as Hgd1. set (s1 := erase_candidate tp _) in *.
  pose proof (gd_shape _ _ _ _ _ Hgd1) as Hs1. pose proof (same_shape_tree_inv g _ _ Hs1 Hi0) as Hi1.
  assert (same_shape (cs_tree s) (cs_tree s1)) as Hss by (etrans; [symmetry; done|done]).
  destruct (same_shape_lookup _ _ tp bt Hss Hbt) as (b1 & Hb1 & Eb).
  assert (tp ≠ g) as Htg.
  { intros ->. pose proof (genesis_parent g _ b1 Hi1 Hb1) as Hpn. rewrite (same_shape_ancestor _ _ g pindex Hs1) in Ha.
    destruct (is_ancestor_step _ g b1 pindex Hb1 Ha) as [E|(r & E & _)]; congruence. }
  destruct (DisconnectTip_moves g s1 tp b1 Hi1 (gd_chain _ _ _ _ _ Hgd1) (gd_follows _ _ _ _ _ Hgd1) Hb1 Htg)
    as (q & Hq & [(c & ->)|(c & active & -> & Hto & Hfo)]); cbn [mbind option_bind]; [by exists false, (with_coins c s1)|].
  pose proof (ti_wf _ _ Hi1 tp b1 Hb1) as He. unfold entry_ok in He. rewrite Hq in He. destruct He as (bq & Hbq & _ & Hh & _).
  apply shape_fields in Eb as (_ & _ & Eh & _).
  apply (IH _ q bq); [by eapply going_down_disconnect|done|lia].
Qed.

Lemma InvalidateBlock_start s tp pindex : chain_core g s tp →
  going_down s tp pindex (erase_candidate pindex (with_tree (add_status BLOCK_FAILED_VALID pindex s.(cs_tree)) s)) tp.
Proof.
  intros Hc. pose proof (add_status_shape BLOCK_FAILED_VALID pindex (cs_tree s)) as Hs. split; cbn.
  - done.
  - apply add_status_level. auto.
  - eapply same_shape_chain; [done|apply Hc].
  - apply Hc.
  - set_solver.
  - intros p. apply add_status_ready. auto.
  - intros p. apply add_status_validated. auto.
  - rewrite add_status_unfailed by auto. set_solver.
  - rewrite add_status_unfailed by auto. set_solver.
  - done.
  - apply is_ancestor_refl.
Qed.

Lemma elem_of_not_worse t tp p : p ∈ not_worse_than_tip t tp ↔ ∃ b, t !! p = Some b ∧ has_chain b = true ∧ ¬ worse t p tp.
Proof. unfold not_worse_than_tip. rewrite elem_of_dom. unfold is_Some. by setoid_rewrite map_lookup_filter_Some. Qed.

(** The blocks made candidates again restore the invariant. *)
Lemma going_down_inv s tp hw pindex s1 tp1 :
  chain_inv g s tp hw → index_inv g s.(cs_tree) → going_down s tp pindex s1 tp1 → ¬ is_ancestor s.(cs_tree) tp1 pindex →
  chain_inv g (with_candidates (s1.(cs_candidates) ∪ not_worse_than_tip s1.(cs_tree) tp1) s1) tp1 tp1.
Proof.
  intros [[Hc Hso _ _] _] Hix Hgd Hn. pose proof (gd_shape _ _ _ _ _ Hgd) as Hs. pose proof (gd_down _ _ _ _ _ Hgd) as Hd.
  pose proof (same_shape_tree_inv g _ _ Hs (cc_tree _ _ _ Hc)) as Hi. pose proof (index_inv_same g _ _ Hs (gd_level _ _ _ _ _ Hgd) Hix) as Hix1.
  assert (ready (cs_tree s1) tp1) as Hr1.
  { apply (gd_ready _ _ _ _ _ Hgd). split; [|done]. eapply ready_ancestor; [apply Hc|done]. }
  assert (linked (cs_tree s1) tp1) as Hl1.
  { eapply same_shape_linked; [done|]. eapply linked_ancestor; [apply Hc|done]. }
  assert (validated (cs_tree s1) tp1) as Hv1.
  { apply (gd_validated _ _ _ _ _ Hgd). intros q b Hq. apply (cc_validated _ _ _ Hc). by eapply is_ancestor_trans. }
  destruct (ready_lookup _ _ Hr1) as (b1 & Hb1 & _).
  apply chain_inv_top; [split|..]; cbn; try done.
  - apply (gd_chain _ _ _ _ _ Hgd).
  - intros p [Hp|Hp]%elem_of_union.
    + destruct (cc_candidates _ _ _ Hc p (gd_sub _ _ _ _ _ Hgd p Hp)) as [Hpd Hpl]. rewrite <- (same_shape_dom _ _ Hs).
      split; [done|by eapply same_shape_linked].
    + apply elem_of_not_worse in Hp as (b & Hb & Hch & _). split; [apply elem_of_dom; eauto|].
      apply (linked_of_chain_tx g _ p b (ti_wf _ _ Hi) Hix1 Hb). unfold has_chain in Hch.
      destruct (Z.eqb_spec (nChainTx b) 0); [by rewrite andb_false_r in Hch|done].
  - intros p Hp. rewrite <- (same_shape_dom _ _ Hs). rewrite (gd_invalid _ _ _ _ _ Hgd) in Hp. by apply (cc_invalid _ _ _ Hc).
  - apply (gd_follows _ _ _ _ _ Hgd).
  - intros p Hp. cbn in Hp |- *. apply elem_of_union in Hp as [Hp|Hp]; [|by apply elem_of_not_worse in Hp as (? & ? & ? & ?)].
    rewrite <- (same_shape_worse _ _ _ _ Hs). intros Hw. apply (gd_sub _ _ _ _ _ Hgd) in Hp. apply (Hso p Hp).
    destruct (core_lookup g s tp Hc) as (bt & Hbt & _).
    destruct (ancestor_worse g _ tp bt tp1 (cc_tree _ _ _ Hc) Hbt Hd) as [<-|?]; [done|]. eapply worse_trans; [apply Hc|done|done].
  - intros p Hr Hl _ Hp. cbn in *. apply elem_of_union_r, elem_of_not_worse. destruct (ready_lookup _ _ Hr) as (b & Hb & Hu).
    pose proof (chain_tx_of_linked g _ p b Hi Hix1 Hb Hl) as Htx.
    exists b. split; [done|]. split; [apply has_chain_iff; split; [by apply usable_not_failed|]; split; [by apply (ii_level g _ Hix1 p)|done]|].
    by apply (at_least_iff _ tp1 p b1 b (ti_works _ _ Hi) Hb1 Hb).
Qed.

Lemma InvalidateBlock_spec s tp hw pindex :
  chain_inv g s tp hw → index_inv g s.(cs_tree) → pindex ∈ dom s.(cs_tree) → pindex ≠ g →
  ∃ ok s', InvalidateBlock pindex s = Some (ok, s') ∧
    (ok = true → ∃ tp', chain_inv g s' tp' tp' ∧ same_shape s.(cs_tree) s'.(cs_tree) ∧ is_ancestor s.(cs_tree) tp tp' ∧
      unfailed s'.(cs_tree) ⊆ unfailed s.(cs_tree) ∧ pindex ∉ unfailed s'.(cs_tree) ∧
      (∀ p, ready s'.(cs_tree) p ↔ ready s.(cs_tree) p ∧ ¬ is_ancestor s.(cs_tree) p pindex)).
Proof.
  intros Hinv Hix Hp Hg. pose proof (ci_core _ _ _ _ Hinv) as Hc. unfold InvalidateBlock.
  pose proof (InvalidateBlock_start s tp pindex Hc) as Hgd. set (s1 := erase_candidate pindex _) in *.
  destruct (gd_chain _ _ _ _ _ Hgd) as (bt & Hbt & Hlen & _).
  destruct (invalidate_loop_spec (length (cs_active s1)) s tp pindex s1 tp bt (cc_tree _ _ _ Hc) Hp Hg Hgd Hbt) as (ok & s2 & -> & H2); [lia|].
  cbn [mbind option_bind]. destruct ok; cbn [negb]; [|by exists false, s2].
  destruct (H2 eq_refl) as (tp2 & Hgd2 & Hn). pose proof (gd_shape _ _ _ _ _ Hgd2) as Hs2.
  pose proof (going_down_inv s tp hw pindex s2 tp2 Hinv Hix Hgd2 Hn) as Hinv3.
  unfold tip. rewrite (Chain_Tip_spec _ _ tp2 (same_shape_wf _ _ Hs2 (ti_wf _ _ (cc_tree _ _ _ Hc))) (gd_chain _ _ _ _ _ Hgd2)).
  cbn [mbind option_bind]. set (s3 := with_candidates _ s2) in *.
  destruct (InvalidChainFound_spec g s3 tp2 pindex (ci_core _ _ _ _ Hinv3)) as (s4 & -> & D & Et & Ec).
  { cbn. by rewrite <- (same_shape_dom _ _ Hs2). }
  cbn [mbind option_bind]. exists true, s4. split; [done|]. intros _. exists tp2.
  split; [split; [eapply demotes_settled; [done|apply Hinv3]|by left]|]. rewrite Et. cbn. split; [done|]. split; [by eapply gd_down|]. split; [by eapply gd_unfailed|].
  split; [by eapply gd_flagged|by eapply gd_ready].
Qed.
End invalidate.


(** ** [ReconsiderBlock] *)

Lemma clear_failed_spec b : shape (clear_failed b) = shape b ∧ failed (clear_failed b) = false ∧
  have_data (clear_failed b) = have_data b ∧ Z.land (nStatus (clear_failed b)) BLOCK_VALID_MASK = Z.land b.(nStatus) BLOCK_VALID_MASK.
Proof.
  unfold clear_failed, failed, have_data. rewrite shape_set_nStatus, status_of, <- !Z.land_assoc.
  change (Z.land (u32 (Z.lnot BLOCK_FAILED_MASK)) BLOCK_FAILED_MASK) with 0.
  change (Z.land (u32 (Z.lnot BLOCK_FAILED_MASK)) BLOCK_HAVE_DATA) with BLOCK_HAVE_DATA.
  change (Z.land (u32 (Z.lnot BLOCK_FAILED_MASK)) BLOCK_VALID_MASK) with BLOCK_VALID_MASK. by rewrite Z.land_0_r.
Qed.

(** [t'] is [t] with the flags of the blocks in [P] cleared. *)
Definition cleared_in (P : ptr → Prop) (t t' : BlockTree) : Prop :=
  ∀ q b, t !! q = Some b → ∃ b', t' !! q = Some b' ∧ shape b' = shape b ∧ have_data b' = have_data b ∧
    Z.land b'.(nStatus) BLOCK_VALID_MASK = Z.land b.(nStatus) BLOCK_VALID_MASK ∧
    (P q → failed b' = false) ∧ (¬ P q → b' = b).

Lemma clear_ancestors_spec fuel t p b : wf_tree t → t !! p = Some b → b.(nHeight) < Z.of_nat fuel →
  ∃ t', clear_ancestors fuel (Some p) t = Some t' ∧ same_shape t t' ∧ cleared_in (is_ancestor t p) t t'.
Proof.
  revert t p b. induction fuel as [|fuel IH]; intros t p b Hwf Hp Hf; [pose proof (wf_height t p b Hwf Hp); lia|].
  cbn [clear_ancestors]. rewrite Hp. cbn [mbind option_bind]. set (b1 := if failed b then clear_failed b else b).
  assert ((if failed b then <[p := clear_failed b]> t else t) = <[p := b1]> t) as ->.
  { unfold b1. destruct (failed b); [done|]. by rewrite insert_id. }
  destruct (clear_failed_spec b) as (C1 & C2 & C3 & C4).
  assert (shape b1 = shape b ∧ have_data b1 = have_data b ∧ failed b1 = false ∧
    Z.land b1.(nStatus) BLOCK_VALID_MASK = Z.land b.(nStatus) BLOCK_VALID_MASK) as (E1 & E2 & E3 & E4).
  { unfold b1. by destruct (failed b) eqn:Ef. }
  pose proof (same_shape_insert t p b b1 Hp E1) as Hs. set (t1 := <[p := b1]> t) in *.
  assert (∀ q, q ≠ p → t1 !! q = t !! q) as Hne by (intros q Hq; unfold t1; by rewrite lookup_insert_ne).
  pose proof (lookup_insert_eq t p b1 : t1 !! p = Some b1) as Hp1.
  destruct (pprev b) as [q|] eqn:Eq.
  - pose proof (Hwf p b Hp) as He. unfold entry_ok in He. rewrite Eq in He. destruct He as (bq & Hq & _ & Hh & _).
    destruct (same_shape_lookup t t1 q bq Hs Hq) as (bq1 & Hq1 & Eb). apply shape_fields in Eb as (_ & _ & Eh & _).
    destruct (IH t1 q bq1) as (t' & -> & Hs' & Hcl); [by eapply same_shape_wf|done|lia|].
    exists t'. split; [done|]. split; [by etrans|]. intros r c Hr.
    assert (∃ c1, t1 !! r = Some c1 ∧ shape c1 = shape c ∧ have_data c1 = have_data c ∧
      Z.land c1.(nStatus) BLOCK_VALID_MASK = Z.land c.(nStatus) BLOCK_VALID_MASK ∧ (r = p → failed c1 = false) ∧ (r ≠ p → c1 = c))
      as (c1 & Hr1 & F1 & F2 & F3 & F4 & F5).
    { destruct (decide (r = p)) as [->|Hn]; [exists b1; simplify_eq; by split_and!|]. exists c. rewrite Hne by done. by split_and!. }
    destruct (Hcl r c1 Hr1) as (c' & Hr' & G1 & G2 & G3 & G4 & G5). exists c'.
    rewrite <- (same_shape_ancestor t t1 q r Hs) in G4, G5.
    split_and!; [done|congruence|congruence|congruence| |].
    + intros Ha. destruct (is_ancestor_step t p b r Hp Ha) as [->|(x & Ex & Hx)]; [|apply G4; congruence].
      rewrite G5; [by apply F4|]. intros [n Hn]. pose proof (up_height t q bq n p b Hwf Hq Hn Hp). lia.
    + intros Hna. rewrite G5; [apply F5; intros ->; by apply Hna, is_ancestor_refl|].
      intros Ha. apply Hna. eapply is_ancestor_trans; [by eapply is_ancestor_parent|done].
  - exists t1. split; [by destruct fuel|]. split; [done|]. intros r c Hr. destruct (decide (r = p)) as [->|Hn].
    + exists b1. simplify_eq. split_and!; try done. intros Hna. by destruct (Hna (is_ancestor_refl t p)).
    + exists c. rewrite Hne by done. split_and!; try done. intros Ha.
      destruct (is_ancestor_step t p b r Hp Ha) as [->|(x & Ex & Hx)]; [done|congruence].
Qed.

Lemma GetAncestor_is_ancestor t p b q bq : wf_tree t → t !! p = Some b → t !! q = Some bq →
  GetAncestor t p bq.(nHeight) = Some (Some q) ↔ is_ancestor t p q.
Proof.
  intros Hwf Hp Hq. rewrite (GetAncestor_spec t p b _ Hwf Hp). split.
  - destruct (_ || _); [done|]. intros [= H]. by eexists.
  - intros [n Hn]. pose proof (up_height t p b n q bq Hwf Hp Hn Hq). pose proof (up_le_height t p b n q Hwf Hp Hn).
    pose proof (wf_height t q bq Hwf Hq). replace ((_ <? _) || (_ <? 0)) with false by lia.
    rewrite <- Hn. do 2 f_equal. lia.
Qed.

(** The entries that the first loop visits, and the tree after it. *)
Definition hit_by (t : BlockTree) (pindex : ptr) (h : Z) : BlockTree := filter (reconsidered t pindex h) t.
Definition after_hits (t hit : BlockTree) : BlockTree := (clear_failed <$> hit) ∪ t.

Lemma lookup_hit t pindex b q c : wf_tree t → t !! pindex = Some b →
  hit_by t pindex b.(nHeight) !! q = Some c ↔
    t !! q = Some c ∧ IsValid c BLOCK_VALID_TRANSACTIONS = Some false ∧ is_ancestor t q pindex.
Proof.
  intros Hwf Hb. unfold hit_by. rewrite map_lookup_filter_Some. split; intros [H1 [H2 H3]]; (split; [done|split; [done|]]).
  - by apply (GetAncestor_is_ancestor t q c pindex b Hwf H1 Hb).
  - by apply (GetAncestor_is_ancestor t q c pindex b Hwf H1 Hb).
Qed.

Lemma after_hits_cleared t pindex b : wf_tree t → t !! pindex = Some b →
  cleared_in (λ q, is_ancestor t q pindex) t (after_hits t (hit_by t pindex b.(nHeight))).
Proof.
  intros Hwf Hb q c Hq. unfold after_hits. rewrite lookup_union, lookup_fmap.
  destruct (hit_by t pindex (nHeight b) !! q) as [c0|] eqn:Eh.
  - apply (lookup_hit t pindex b q c0 Hwf Hb) in Eh as (Eq & _ & Ha). rewrite Hq in *. simplify_eq.
    exists (clear_failed c0). destruct (clear_failed_spec c0) as (? & ? & ? & ?). by split_and!.
  - rewrite Hq. exists c. split_and!; try done. intros Ha. destruct (failed c) eqn:Ef; [|done].
    assert (hit_by t pindex (nHeight b) !! q = Some c) as E; [|congruence].
    apply (lookup_hit t pindex b q c Hwf Hb). split; [done|]. split; [by rewrite IsValid_transactions, Ef|done].
Qed.

Lemma after_hits_shape t pindex b : wf_tree t → t !! pindex = Some b →
  same_shape t (after_hits t (hit_by t pindex b.(nHeight))).
Proof.
  intros Hwf Hb q. destruct (t !! q) as [c|] eqn:Eq.
  - destruct (after_hits_cleared t pindex b Hwf Hb q c Eq) as (c' & -> & E & _). cbn. by rewrite E.
  - unfold after_hits. rewrite lookup_union, lookup_fmap, Eq.
    destruct (hit_by t pindex (nHeight b) !! q) as [c|] eqn:Eh; [|done]. apply (lookup_hit t pindex b q c Hwf Hb) in Eh as [Eh _]. congruence.
Qed.

Lemma cleared_in_trans P Q t1 t2 t3 : cleared_in P t1 t2 → cleared_in Q t2 t3 → cleared_in (λ q, P q ∨ Q q) t1 t3.
Proof.
  intros H1 H2 q c Hq. destruct (H1 q c Hq) as (c1 & Hq1 & F1 & F2 & F3 & F4 & F5).
  destruct (H2 q c1 Hq1) as (c2 & Hq2 & G1 & G2 & G3 & G4 & G5).
  exists c2. split_and!; [done|congruence|congruence|congruence| |].
  - intros Ha. destruct (failed c2) eqn:E; [|done]. exfalso.
    assert (¬ Q q) as Hn by (intros H; specialize (G4 H); congruence). destruct Ha as [Ha|]; [|done]. rewrite (G5 Hn), (F4 Ha) in E. done.
  - intros Hn. rewrite G5, F5 by tauto. done.
Qed.

(** Whether a cleared block has a complete chain. *)
Lemma cleared_has_chain P t t' q c c' : cleared_in P t t' → P q → t !! q = Some c → t' !! q = Some c' →
  has_chain c' = has_chain (clear_failed c).
Proof.
  intros Hcl HP Hq Hq'. destruct (Hcl q c Hq) as (c2 & E & G1 & _ & G3 & G4 & _). simplify_eq.
  destruct (clear_failed_spec c) as (C1 & C2 & _ & C4).
  apply shape_fields in C1 as (_ & _ & _ & _ & E1 & _). apply shape_fields in G1 as (_ & _ & _ & _ & E2 & _).
  apply eq_bool_prop_intro. rewrite !Is_true_true, !has_chain_iff, C2, (G4 HP), C4, G3, E1, E2. done.
Qed.

(** [ReconsiderBlock] always answers, leaves the active chain and the coins
    alone, clears the failure flags of exactly the ancestors and the descendants
    of the block, and adds to the candidates exactly its formerly failed
    descendants that have a complete chain of transactions and are better than
    the tip. *)
Theorem ReconsiderBlock_clears_flags {S} `{!ChainCoins S, !ChainCoinsLaws S} (g : ptr) (s : ChainState S) (tp pindex : ptr) :
  chain_core g s tp → pindex ∈ dom (cs_tree s) →
  ∃ s', ReconsiderBlock pindex s = Some s' ∧ cs_active s' = cs_active s ∧ cs_coins s' = cs_coins s ∧
    same_shape (cs_tree s) (cs_tree s') ∧
    cleared_in (λ q, is_ancestor (cs_tree s) q pindex ∨ is_ancestor (cs_tree s) pindex q) (cs_tree s) (cs_tree s') ∧
    ∀ p, p ∈ cs_candidates s' ↔ p ∈ cs_candidates s ∨
      is_ancestor (cs_tree s) p pindex ∧ worse (cs_tree s) tp p ∧
      ∃ b b', cs_tree s !! p = Some b ∧ failed b = true ∧ cs_tree s' !! p = Some b' ∧ has_chain b' = true.
Proof.
  intros Hc [b Hb]%elem_of_dom. pose proof (ti_wf _ _ (cc_tree _ _ _ Hc)) as Hwf. set (t := cs_tree s) in *.
  unfold ReconsiderBlock. fold t. rewrite Hb. cbn [mbind option_bind]. rewrite (core_tip g s tp Hc). cbn [mbind option_bind].
  change (filter (reconsidered t pindex (nHeight b)) t) with (hit_by t pindex (nHeight b)).
  set (hit := hit_by t pindex (nHeight b)). change ((clear_failed <$> hit) ∪ t) with (after_hits t hit). set (t1 := after_hits t hit).
  pose proof (after_hits_shape t pindex b Hwf Hb) as Hs1. fold hit t1 in Hs1.
  destruct (same_shape_lookup t t1 pindex b Hs1 Hb) as (b1 & Hb1 & Eb). apply shape_fields in Eb as (_ & _ & Eh & _).
  destruct (clear_ancestors_spec (Z.to_nat (nHeight b + 1)) t1 pindex b1) as (t2 & -> & Hs2 & Hcl2).
  { by eapply same_shape_wf. }
  { done. }
  { pose proof (wf_height t pindex b Hwf Hb). lia. }
  cbn [mbind option_bind]. eexists. split; [reflexivity|]. cbn.
  assert (cleared_in (λ q, is_ancestor t q pindex ∨ is_ancestor t pindex q) t t2) as Hcl.
  { pose proof (cleared_in_trans _ _ _ _ _ (after_hits_cleared t pindex b Hwf Hb) Hcl2) as H.
    intros q c Hq. specialize (H q c Hq). cbn beta in H. by setoid_rewrite <- (same_shape_ancestor t t1 pindex q Hs1) in H. }
  split_and!; [done|done|by etrans|done|]. intros p. rewrite elem_of_union, elem_of_dom. apply or_iff_compat_l. split.
  - intros [c' (Hin & Hch & Hw)%map_lookup_filter_Some]. cbn in Hch, Hw. rewrite lookup_fmap in Hin.
    destruct (hit !! p) as [c|] eqn:Ehp; [|done]. injection Hin as <-. apply (lookup_hit t pindex b p c Hwf Hb) in Ehp as (Hp & Hv & Ha).
    split; [done|]. split; [by rewrite (same_shape_worse _ _ _ _ Hs1)|].
    destruct (Hcl p c Hp) as (c2 & Hp2 & _). exists c, c2. split; [done|]. split.
    + rewrite IsValid_transactions in Hv. apply has_chain_iff in Hch as (_ & Hl & _). destruct (clear_failed_spec c) as (_ & _ & _ & C4).
      destruct (failed c); [done|]. injection Hv. lia.
    + split; [done|]. rewrite (cleared_has_chain _ t t2 p c c2 Hcl); [done|by left|done|done].
  - intros (Ha & Hw & c & c2 & Hp & Hf & Hp2 & Hch). exists (clear_failed c). apply map_lookup_filter_Some. rewrite lookup_fmap.
    assert (hit !! p = Some c) as -> by (apply (lookup_hit t pindex b p c Hwf Hb); split; [done|]; split; [by rewrite IsValid_transactions, Hf|done]).
    split; [done|]. cbn. rewrite <- (cleared_has_chain _ t t2 p c c2 Hcl); [|by left|done|done].
    split; [done|]. by rewrite (same_shape_worse _ _ _ _ Hs1) in Hw.
Qed.

(** ** Concrete cases *)

#[local] Existing Instance sample_coins.
#[local] Existing Instance sample_laws.

Lemma sample_index_inv : index_inv 1 sample_index.
Proof.
  assert (map_Forall (λ _ b, nChainTx b ≠ 0 ∧ BLOCK_VALID_TRANSACTIONS <= Z.land b.(nStatus) BLOCK_VALID_MASK) sample_index) as H
    by (apply (bool_decide_unpack _); vm_compute; exact I).
  split.
  - intros p b Hp _. apply (H p b Hp).
  - intros p b q bq _ _ _ Hq. apply (H q bq Hq).
  - intros b Hb. apply (H _ b Hb).
Qed.

(** Invalidating the tip 2 leads to the chain that ends at block 5. *)
Definition sample_invalidated : option (option ptr * option ptr) :=
  '(_, s1) ← InvalidateBlock 2%positive sample_state; '(_, s2) ← ActivateBestChain s1; Some (tip s1, tip s2).
Example sample_invalidated_is : sample_invalidated = Some (Some 1%positive, Some 5%positive).
Proof. vm_compute. reflexivity. Qed.


Lemma ReconsiderBlock_clears_flags_witness :
  ∃ s', ReconsiderBlock 3%positive sample_state = Some s' ∧ cs_active s' = cs_active sample_state.
Proof.
  destruct (ReconsiderBlock_clears_flags 1 sample_state 2 3 (ci_core _ _ _ _ sample_inv)) as (s' & E & E1 & _).
  - vm_compute. by eexists.
  - exists s'. split; [exact E|exact E1].
Defined.

(** An ancestor whose flag is cleared does not become a candidate.  Block 2 is
    the tip and block 3 is a header without transactions above it: after
    [invalidateblock 2] and [reconsiderblock 3], block 2 can be connected again
    and has more work than the tip 1, but the node stays on block 1. *)
Definition header_index : BlockTree :=
  let add t p b := match BuildSkip t b with Some b => <[p := b]> t | None => t end in
  let t := add ∅ 1%positive (sample_block None 0 1 0 13) in
  let t := add t 2%positive (sample_block (Some 1%positive) 1 2 1 29) in
  add t 3%positive (set_linked (sample_block (Some 2%positive) 2 3 0 2) 0 0).
Definition header_state : ChainState ptr :=
  mkChainState header_index [Some 1%positive; Some 2%positive] {[2]}%positive [] None 2 2%positive.
Definition reconsider_header : option (option ptr * option bool * option (bool * bool)) :=
  '(_, s1) ← InvalidateBlock 2%positive header_state; '(_, s2) ← ActivateBestChain s1;
  s3 ← ReconsiderBlock 3%positive s2; '(_, s4) ← ActivateBestChain s3;
  Some (tip s4, work_less s4.(cs_tree) 1%positive 2%positive,
        b1 ← s4.(cs_tree) !! 1%positive; b2 ← s4.(cs_tree) !! 2%positive; Some (usable b1, usable b2)).
Example reconsider_header_loses_tip : reconsider_header = Some (Some 1%positive, Some true, Some (true, true)).
Proof. vm_compute. reflexivity. Qed.
