(* ===== verification/ChainReceive.v ===== *)
(** * ChainReceive: the transactions of a block arrive ([validation.cpp])

    [ReceivedBlockTransactions] completes the entry of a block and those of the
    blocks that were waiting for it, and keeps the invariant of the chain state. *)

From S2P Require Import Prelude ArithUint256 Params Transaction Chain ChainState ChainActivate ChainInvalidate.
Local Open Scope Z_scope.

(** ** Changing an entry whose chain is not complete *)

(** The links, the height and the work of an entry. *)
Definition links (b : CBlockIndex) := (b.(pprev), b.(pskip), b.(nHeight), b.(nChainWork)).
Definition same_links (t t' : BlockTree) : Prop := ∀ p : ptr, links <$> t !! p = links <$> t' !! p.

Lemma same_links_sym t t' : same_links t t' → same_links t' t.
Proof. intros H p. by rewrite H. Qed.
Lemma same_links_lookup t t' p b : same_links t t' → t !! p = Some b → ∃ b', t' !! p = Some b' ∧ links b = links b'.
Proof. intros Hs Hp. specialize (Hs p). rewrite Hp in Hs. destruct (t' !! p) as [b'|]; [|done]. exists b'. split; [done|]. cbn in Hs. congruence. Qed.

Lemma same_links_up t t' p n : same_links t t' → up t p n = up t' p n.
Proof.
  intros Hs. revert p. induction n as [|n IH]; intros p; [done|]. cbn [up]. specialize (Hs p).
  destruct (t !! p) as [b|], (t' !! p) as [b'|]; try done. injection Hs as Hb _ _ _. cbn [mbind option_bind].
  rewrite Hb. destruct (pprev b'); [|done]. cbn. apply IH.
Qed.
Lemma same_links_ancestor t t' p q : same_links t t' → is_ancestor t p q ↔ is_ancestor t' p q.
Proof. intros Hs. unfold is_ancestor. by setoid_rewrite (same_links_up t t' p _ Hs). Qed.

Lemma same_links_tree_inv g t t' : same_links t t' → tree_inv g t → tree_inv g t'.
Proof.
  intros Hs [H1 H2 H3 H4]. pose proof (same_links_sym _ _ Hs) as Hs'. split.
  - intros p b' Hp'. destruct (same_links_lookup t' t p b' Hs' Hp') as (b & Hp & [= E1 E2 E3 _]).
    specialize (H1 p b Hp). unfold entry_ok in *. rewrite E1, E2, E3. destruct (pprev b) as [q|]; [|done].
    destruct H1 as (bq & Hq & H0 & Hh & Hk). destruct (same_links_lookup t t' q bq Hs Hq) as (bq' & Hq' & [= _ _ E _]).
    exists bq'. rewrite <- E, Hk, (same_links_up t t' q _ Hs). done.
  - intros p b Hp. destruct (same_links_lookup t' t p b Hs' Hp) as (c & Hc & [= _ _ _ ->]). eauto.
  - intros p b q bq Hp Hb Hq. destruct (same_links_lookup t' t p b Hs' Hp) as (c & Hc & [= E _ _ ->]).
    destruct (same_links_lookup t' t q bq Hs' Hq) as (cq & Hcq & [= _ _ _ ->]). eapply H3; [done| |done]. by rewrite <- E.
  - intros p b Hp. destruct (same_links_lookup t' t p b Hs' Hp) as (c & Hc & _). rewrite <- (same_links_ancestor t t' p g Hs). eauto.
Qed.
Lemma same_links_chain t t' c p : same_links t t' → chain_to t c p → chain_to t' c p.
Proof.
  intros Hs (b & Hb & Hl & Hi). destruct (same_links_lookup t t' p b Hs Hb) as (b' & Hb' & [= _ _ E _]).
  exists b'. rewrite <- E. split_and!; [done|done|]. intros i Hlt. by rewrite (Hi i Hlt), (same_links_up t t' p _ Hs).
Qed.

Section update.
Context (t : BlockTree) (x : ptr) (b b' : CBlockIndex).
Context (Hx : t !! x = Some b) (Hl : links b' = links b).
Let t' := <[x := b']> t.

Lemma update_links : same_links t t'.
Proof using Hx Hl.
  intros p. unfold t'. destruct (decide (x = p)) as [<-|Hne]; [|by rewrite lookup_insert_ne].
  rewrite lookup_insert_eq, Hx. cbn. by rewrite Hl.
Qed.
Lemma update_ancestor p q : is_ancestor t' p q ↔ is_ancestor t p q.
Proof using Hx Hl. symmetry. apply same_links_ancestor, update_links. Qed.
Lemma update_dom : dom t' = dom t.
Proof using Hx. clear Hl. unfold t'. rewrite dom_insert_L. assert (x ∈ dom t) by (apply elem_of_dom; eauto). set_solver. Qed.

(** Blocks that do not descend from [x] keep their properties. *)
Lemma update_other y q : ¬ is_ancestor t y x → is_ancestor t y q → t' !! q = t !! q.
Proof. intros Hn Hq. unfold t'. apply lookup_insert_ne. intros ->. done. Qed.
Lemma update_ready y : ¬ is_ancestor t y x → ready t' y ↔ ready t y.
Proof using Hx Hl.
  intros Hn. unfold ready. setoid_rewrite update_ancestor.
  split; intros H q Hq; destruct (H q Hq) as (c & Hc & Hu); exists c; [rewrite <- (update_other y q)|rewrite (update_other y q)]; done.
Qed.
Lemma update_linked y : ¬ is_ancestor t y x → linked t' y ↔ linked t y.
Proof using Hx Hl.
  intros Hn. unfold linked. setoid_rewrite update_ancestor.
  split; intros H q c Hq Hc; (eapply H; [done|]); [rewrite (update_other y q)|rewrite <- (update_other y q)]; done.
Qed.
Lemma update_validated y : ¬ is_ancestor t y x → validated t' y ↔ validated t y.
Proof using Hx Hl.
  intros Hn. unfold validated. setoid_rewrite update_ancestor.
  split; intros H q c Hq Hc; (eapply H; [done|]); [rewrite (update_other y q)|rewrite <- (update_other y q)]; done.
Qed.
Lemma update_worse y z : y ≠ x → z ≠ x → worse t' y z ↔ worse t y z.
Proof. intros Hy Hz. unfold worse, work_less, t'. by rewrite !lookup_insert_ne. Qed.
Lemma update_at_least y z : y ≠ x → z ≠ x → at_least t' y z ↔ at_least t y z.
Proof. intros Hy Hz. unfold at_least. by rewrite update_worse. Qed.

(** A complete chain does not go through a block that is not complete. *)
Lemma linked_avoids y q : wf_tree t → b.(pprev) = Some q → b.(nChainTx) = 0 → linked t y → ¬ is_ancestor t y x.
Proof using Hx.
  intros Hwf Hq Hn Hy Ha. destruct (Hy x b Ha Hx) as [|Hh]; [done|].
  pose proof (Hwf x b Hx) as He. unfold entry_ok in He. rewrite Hq in He. destruct He as (bq & _ & ? & ? & _). lia.
Qed.
End update.

Section receive.
Context {S : Type} `{!ChainCoins S, !ChainCoinsLaws S} (g : ptr).
Implicit Types s : ChainState S.

Lemma update_core s tp x b b' q : chain_core g s tp → s.(cs_tree) !! x = Some b → b.(pprev) = Some q → b.(nChainTx) = 0 →
  links b' = links b → chain_core g (with_tree (<[x := b']> s.(cs_tree)) s) tp.
Proof.
  intros [H1 H2 H3 H4 H5 H6 H7 H8] Hx Hq Hn Hl. pose proof (ti_wf _ _ H1) as Hwf. pose proof (update_links _ x b b' Hx Hl) as Hs.
  pose proof (linked_avoids _ x b Hx tp q Hwf Hq Hn H4) as Htp. split; cbn.
  - by eapply same_links_tree_inv.
  - by eapply same_links_chain.
  - by apply (update_ready _ x b b').
  - by apply (update_linked _ x b b').
  - by apply (update_validated _ x b b').
  - intros p Hp. destruct (H6 p Hp) as [Hd Hlp]. rewrite (update_dom _ x b b' Hx). split; [done|].
    apply (update_linked _ x b b'); [done|done| |done]. by eapply linked_avoids.
  - intros p Hp. rewrite (update_dom _ x b b' Hx). by apply H7.
  - done.
Qed.

(** Blocks with a complete chain are not [x]. *)
Lemma linked_not_x s tp x b q y : chain_core g s tp → s.(cs_tree) !! x = Some b → b.(pprev) = Some q → b.(nChainTx) = 0 →
  linked s.(cs_tree) y → y ≠ x.
Proof.
  intros Hc Hx Hq Hn Hl ->. by apply (linked_avoids _ x b Hx x q (ti_wf _ _ (cc_tree _ _ _ Hc)) Hq Hn Hl), is_ancestor_refl.
Qed.

Lemma update_complete s tp hw x b b' q y : chain_core g s tp → complete s hw tp → linked s.(cs_tree) hw → s.(cs_tree) !! x = Some b → b.(pprev) = Some q →
  b.(nChainTx) = 0 → links b' = links b →
  ¬ is_ancestor s.(cs_tree) y x → ready (<[x := b']> s.(cs_tree)) y → linked (<[x := b']> s.(cs_tree)) y →
  at_least (<[x := b']> s.(cs_tree)) y hw → at_least (<[x := b']> s.(cs_tree)) y tp → y ∈ s.(cs_candidates).
Proof.
  intros Hc Hcm Hlh Hx Hq Hn Hl Hy Hr Hly Hh Ha. apply (update_ready _ x b b' Hx Hl y Hy) in Hr. apply (update_linked _ x b b' Hx Hl y Hy) in Hly.
  assert (y ≠ x) as Hyx by (intros ->; by apply Hy, is_ancestor_refl).
  assert (tp ≠ x) as Htx by (eapply linked_not_x; [done|done|done|done|apply Hc]).
  assert (hw ≠ x) as Hhx by (eapply linked_not_x; [done|done|done|done|done]).
  apply (update_at_least (cs_tree s) x b' y tp Hyx Htx) in Ha. apply (update_at_least (cs_tree s) x b' y hw Hyx Hhx) in Hh.
  exact (Hcm y Hr Hly Hh Ha).
Qed.

Lemma update_sound s tp x b b' q y : chain_core g s tp → sound s tp → s.(cs_tree) !! x = Some b → b.(pprev) = Some q →
  b.(nChainTx) = 0 → y ∈ s.(cs_candidates) → ¬ worse (<[x := b']> s.(cs_tree)) y tp.
Proof.
  intros Hc Hso Hx Hq Hn Hy. rewrite (update_worse _ x b'); [by apply Hso| |].
  - eapply linked_not_x; [done|done|done|done|]. by apply (cc_candidates _ _ _ Hc).
  - eapply linked_not_x; [done|done|done|done|apply Hc].
Qed.

(** The best tip so far is not [x] either. *)
Lemma update_reached s tp hw x b b' q : chain_core g s tp → reached s.(cs_tree) hw → at_least s.(cs_tree) hw tp →
  s.(cs_tree) !! x = Some b → b.(pprev) = Some q → b.(nChainTx) = 0 → links b' = links b →
  reached (<[x := b']> s.(cs_tree)) hw ∧ at_least (<[x := b']> s.(cs_tree)) hw tp.
Proof.
  intros Hc (H1 & H2 & H3) Ha Hx Hq Hn Hl. pose proof (linked_avoids _ x b Hx hw q (ti_wf _ _ (cc_tree _ _ _ Hc)) Hq Hn H2) as Hav.
  split; [split_and!|].
  - by rewrite (update_dom _ x b b' Hx).
  - by apply (update_linked _ x b b').
  - by apply (update_validated _ x b b').
  - apply update_at_least; [eapply linked_not_x; done|eapply linked_not_x; [done|done|done|done|apply Hc]|done].
Qed.

(** Completing the data of a block whose parent is not complete. *)
Lemma update_inv s tp hw x b b' q : chain_inv g s tp hw → s.(cs_tree) !! x = Some b → b.(pprev) = Some q → b.(nChainTx) = 0 →
  links b' = links b → b'.(nChainTx) = 0 → chain_inv g (with_tree (<[x := b']> s.(cs_tree)) s) tp hw.
Proof.
  intros [[Hc Hso Hcm Ha] Hab] Hx Hq Hn Hl Hn'. destruct (update_reached s tp hw x b b' q Hc Ha Hab Hx Hq Hn Hl) as [Ha' Hab']. pose proof (update_core s tp x b b' q Hc Hx Hq Hn Hl) as Hc'.
  assert (pprev b' = Some q) as Hq' by (injection Hl as -> _ _ _; done).
  split; [split; [done| | |done]|done].
  - intros y Hy. by eapply update_sound.
  - intros y Hr Hly Hyh Hya. cbn in *. eapply (update_complete s tp hw x b b' q); try done; [apply Ha|].
    rewrite <- (update_ancestor _ x b b' Hx Hl). exact (linked_avoids _ x b' (lookup_insert_eq _ _ _) y q (ti_wf _ _ (cc_tree _ _ _ Hc')) Hq' Hn' Hly).
Qed.

(** Completing the chain of a block. *)
Lemma link_index s x b b' q bq : tree_inv g s.(cs_tree) → index_inv g s.(cs_tree) → s.(cs_tree) !! x = Some b → b.(pprev) = Some q →
  s.(cs_tree) !! q = Some bq → bq.(nChainTx) ≠ 0 → links b' = links b →
  BLOCK_VALID_TRANSACTIONS <= Z.land b'.(nStatus) BLOCK_VALID_MASK → b'.(nChainTx) ≠ 0 → index_inv g (<[x := b']> s.(cs_tree)).
Proof.
  intros Hi [I1 I2 I3] Hx Hq Hbq Hnq Hl Hv Hn'. injection Hl as Ep _ _ _. split.
  - intros p c Hp Hc. destruct (decide (x = p)) as [<-|Hne]; [rewrite lookup_insert_eq in Hp; by simplify_eq|].
    rewrite lookup_insert_ne in Hp by done. eauto.
  - intros p c r cr Hp Hc Hr Hcr. destruct (decide (x = r)) as [<-|Hner]; [rewrite lookup_insert_eq in Hcr; by simplify_eq|].
    rewrite lookup_insert_ne in Hcr by done. destruct (decide (x = p)) as [<-|Hne].
    + rewrite lookup_insert_eq in Hp. simplify_eq. congruence.
    + rewrite lookup_insert_ne in Hp by done. exact (I2 p c r cr Hp Hc Hr Hcr).
  - intros c Hc. destruct (decide (x = g)) as [->|Hne]; [rewrite lookup_insert_eq in Hc; by simplify_eq|].
    rewrite lookup_insert_ne in Hc by done. eauto.
Qed.

Lemma link_inv s tp hw x b b' q bq (w : bool) cands : chain_inv g s tp hw → index_inv g s.(cs_tree) → s.(cs_tree) !! x = Some b → b.(pprev) = Some q →
  s.(cs_tree) !! q = Some bq → b.(nChainTx) = 0 → bq.(nChainTx) ≠ 0 → links b' = links b →
  BLOCK_VALID_TRANSACTIONS <= Z.land b'.(nStatus) BLOCK_VALID_MASK → b'.(nChainTx) ≠ 0 →
  (worse (<[x := b']> s.(cs_tree)) x tp ↔ w = true) → cands = (if w then s.(cs_candidates) else s.(cs_candidates) ∪ {[x]}) →
  chain_inv g (with_candidates cands (with_tree (<[x := b']> s.(cs_tree)) s)) tp hw.
Proof.
  intros [[Hc Hso Hcm Ha] Hab] Hix Hx Hq Hbq Hn Hnq Hl Hv Hn' Hw ->.
  pose proof (update_core s tp x b b' q Hc Hx Hq Hn Hl) as Hc'. pose proof (cc_tree _ _ _ Hc') as Hi'. cbn in Hi'.
  destruct (update_reached s tp hw x b b' q Hc Ha Hab Hx Hq Hn Hl) as [Ha' Hab'].
  pose proof (link_index s x b b' q bq (cc_tree _ _ _ Hc) Hix Hx Hq Hbq Hnq Hl Hv Hn') as Hix'.
  pose proof (lookup_insert_eq (cs_tree s) x b') as Hx'. set (t' := <[x := b']> (cs_tree s)) in *.
  assert (linked t' x) as Hlx by (by apply (linked_of_chain_tx g t' x b' (ti_wf _ _ Hi') Hix')).
  split; [split; [| | |done]|done].
  - destruct Hc' as [C1 C2 C3 C4 C5 C6 C7 C8]. split; try done. intros p Hp. cbn in Hp. destruct w; [by apply C6|].
    apply elem_of_union in Hp as [Hp|Hp]; [by apply C6|]. apply elem_of_singleton in Hp as ->. split; [apply elem_of_dom; eauto|done].
  - intros y Hy. cbn in Hy |- *. destruct w; [by eapply update_sound|].
    apply elem_of_union in Hy as [Hy|Hy]; [by eapply update_sound|]. apply elem_of_singleton in Hy as ->. intros H%Hw. done.
  - intros y Hr Hly Hyh Hya. cbn in *. destruct (decide (y = x)) as [->|Hne].
    + destruct w; [|set_solver]. exfalso. destruct (core_lookup g _ tp Hc') as (bt & Hbt & _).
      apply (at_least_iff t' tp x bt b' (ti_works _ _ Hi') Hbt Hx'); [done|by apply Hw].
    + assert (y ∈ cs_candidates s); [|destruct w; set_solver]. eapply (update_complete s tp hw x b b' q); try done; [apply Ha|]. intros Hyx.
      destruct (ready_lookup _ _ Hr) as (c & Hc0 & _). pose proof (chain_tx_of_linked g t' y c Hi' Hix' Hc0 Hly) as Hny.
      unfold t' in Hc0. rewrite lookup_insert_ne in Hc0 by done.
      pose proof (linked_of_chain_tx g _ y c (ti_wf _ _ (cc_tree _ _ _ Hc)) Hix Hc0 Hny) as Hly'.
      by eapply (linked_avoids _ x b Hx y q (ti_wf _ _ (cc_tree _ _ _ Hc)) Hq Hn Hly').
Qed.

(** ** The queue *)

(** Block [x] has its data and waits for its parent [a]. *)
Definition waits (t : BlockTree) (a x : ptr) : Prop :=
  ∃ b, t !! x = Some b ∧ b.(pprev) = Some a ∧ b.(nChainTx) = 0 ∧ 0 < b.(nTx) ∧
    BLOCK_VALID_TRANSACTIONS <= Z.land b.(nStatus) BLOCK_VALID_MASK.
Definition chain_tx_is (P : Z → Prop) (t : BlockTree) (a : ptr) : Prop := ∃ b, t !! a = Some b ∧ P b.(nChainTx).

(** [mapBlocksUnlinked] lists blocks that wait for a parent without a complete
    chain, each of them once. *)
Record unlinked_ok s : Prop := {
  uo_waits a x : (a, x) ∈ s.(cs_unlinked) → waits s.(cs_tree) a x ∧ chain_tx_is (λ n, n = 0) s.(cs_tree) a;
  uo_nodup : NoDup s.(cs_unlinked).*2;
}.

(** The number of transactions of a chain stays below [2 ^ 32]. *)
Record tx_bounds (M H : Z) (t : BlockTree) : Prop := {
  tb_room : M * (H + 1) < 2 ^ 32;
  tb_entry p b : t !! p = Some b → 0 <= b.(nTx) <= M ∧ 0 <= b.(nChainTx) <= M * (b.(nHeight) + 1) ∧ b.(nHeight) <= H;
}.

Lemma waits_other t x b a y : x ≠ y → waits t a y → waits (<[x := b]> t) a y.
Proof. intros Hne (c & Hc & H). exists c. by rewrite lookup_insert_ne. Qed.
Lemma chain_tx_other P t x b a : x ≠ a → chain_tx_is P t a → chain_tx_is P (<[x := b]> t) a.
Proof. intros Hne (c & Hc & H). exists c. by rewrite lookup_insert_ne. Qed.

Lemma SetChainSaplingValue_spec t b : (∀ q, b.(pprev) = Some q → q ∈ dom t) →
  ∃ v, SetChainSaplingValue t b = Some (set_nChainSaplingValue b v).
Proof.
  intros Hq. unfold SetChainSaplingValue. destruct (pprev b) as [q|]; [|eauto].
  pose proof (Hq q eq_refl) as [c Hc]%elem_of_dom. rewrite Hc. cbn. eauto.
Qed.

Lemma unlinked_split (p : ptr) (l : list (ptr * ptr)) :
  (filter (λ e : ptr * ptr, e.1 = p) l).*2 ++ (filter (λ e : ptr * ptr, e.1 ≠ p) l).*2 ≡ₚ l.*2.
Proof.
  induction l as [|e l IH]; [done|]. destruct (decide (e.1 = p)) as [He|He].
  - rewrite filter_cons_True, filter_cons_False by tauto. cbn. by rewrite IH.
  - rewrite filter_cons_False, filter_cons_True by done. rewrite !fmap_cons, <- IH. symmetry. apply Permutation_middle.
Qed.

(** The state of the loop. *)
Record linking (M H : Z) s (tp hw : ptr) (queue : list ptr) : Prop := {
  lk_inv : chain_inv g s tp hw;
  lk_index : index_inv g s.(cs_tree);
  lk_bounds : tx_bounds M H s.(cs_tree);
  lk_queue x : x ∈ queue → ∃ q, waits s.(cs_tree) q x ∧ chain_tx_is (λ n, n ≠ 0) s.(cs_tree) q;
  lk_waits a x : (a, x) ∈ s.(cs_unlinked) → waits s.(cs_tree) a x ∧ (chain_tx_is (λ n, n = 0) s.(cs_tree) a);
  lk_nodup : NoDup (queue ++ s.(cs_unlinked).*2);
}.

(** The invariant does not look at the sequence number and the waiting blocks. *)
Lemma chain_inv_frame s tp hw n u : chain_inv g s tp hw → chain_inv g (with_sequence n (with_unlinked u s)) tp hw.
Proof. intros [[[C1 C2 C3 C4 C5 C6 C7 C8] D1 D2 D3] D4]. split; [|done]. by split; [split|..]. Qed.

(** One round of the queue. *)
Lemma link_one_spec M H s tp hw p queue : linking M H s tp hw (p :: queue) →
  ∃ b' s', link_one p s = Some s' ∧ s'.(cs_tree) = <[p := b']> s.(cs_tree) ∧ b'.(nChainTx) ≠ 0 ∧ s'.(cs_unlinked) = s.(cs_unlinked) ∧
    s'.(cs_active) = s.(cs_active) ∧ s'.(cs_coins) = s.(cs_coins) ∧
    s.(cs_candidates) ⊆ s'.(cs_candidates) ∧
    chain_inv g s' tp hw ∧ index_inv g s'.(cs_tree) ∧ tx_bounds M H s'.(cs_tree).
Proof.
  intros [Hinv Hix Htb Hqu _ _]. destruct (Hqu p ltac:(set_solver)) as (q & (b & Hb & Hq & Hn & Htx & Hv) & (bq & Hbq & Hnq)).
  pose proof (ci_core _ _ _ _ Hinv) as Hc. unfold link_one. rewrite Hb. cbn [mbind option_bind]. rewrite Hq, Hbq. cbn [mbind option_bind].
  pose proof (ti_wf _ _ (cc_tree _ _ _ Hc) p b Hb) as He. unfold entry_ok in He. rewrite Hq in He. destruct He as (bq1 & E & _ & Hh & _). rewrite Hbq in E. injection E as <-.
  destruct (tb_entry _ _ _ Htb p b Hb) as (B1 & _ & B2). destruct (tb_entry _ _ _ Htb q bq Hbq) as (_ & B3 & _). pose proof (tb_room _ _ _ Htb) as B4.
  assert (u32 (nChainTx bq + nTx b) = nChainTx bq + nTx b) as -> by (apply u32_id; unfold is_u32; nia).
  destruct (SetChainSaplingValue_spec (cs_tree s) (set_linked b (nChainTx bq + nTx b) (cs_sequence s))) as (v & ->).
  { intros r Hr. destruct b; cbn in *. simplify_eq. apply elem_of_dom. eauto. }
  cbn [mbind option_bind]. set (b' := set_nChainSaplingValue _ v). set (t' := <[p := b']> (cs_tree s)).
  assert (links b' = links b ∧ nStatus b' = nStatus b ∧ nChainTx b' = nChainTx bq + nTx b ∧ nTx b' = nTx b) as (E1 & E2 & E3 & E4) by (by destruct b).
  assert (nHeight b' = nHeight b) as E5 by (by destruct b).
  change (tip (with_sequence _ _)) with (tip s). rewrite (core_tip g s tp Hc). cbn [cs_tree with_sequence with_tree].
  pose proof (update_core s tp p b b' q Hc Hb Hq Hn E1) as Hc'. destruct (core_lookup g _ tp Hc') as (bt & Hbt & _). cbn in Hbt.
  assert (∃ w, work_less t' p tp = Some w) as [w Hw] by (unfold work_less, t'; rewrite lookup_insert_eq, Hbt; cbn; eauto).
  rewrite Hw. cbn [mbind option_bind]. eexists b', _. split; [reflexivity|].
  assert (index_inv g t') as Hix' by (eapply link_index; [apply Hc|done|done|done|done|done|done|by rewrite E2|lia]).
  assert (chain_inv g (with_candidates (if w then cs_candidates s else cs_candidates s ∪ {[p]}) (with_tree t' s)) tp hw) as Hinv'.
  { eapply (link_inv s tp hw p b b' q bq w); try done; [by rewrite E2|lia|]. unfold worse. fold t'. rewrite Hw. split; [by intros [= ->]|by intros ->]. }
  assert (tx_bounds M H t') as Htb'.
  { split; [done|]. intros y c Hy. unfold t' in Hy. destruct (decide (p = y)) as [<-|Hne].
    - rewrite lookup_insert_eq in Hy. simplify_eq. rewrite E3, E4, E5. split; [lia|]. split; [nia|lia].
    - rewrite lookup_insert_ne in Hy by done. by apply (tb_entry _ _ _ Htb y). }
  apply (chain_inv_frame _ tp hw (u32 (cs_sequence s + 1)) (cs_unlinked s)) in Hinv'.
  by destruct w; cbn; (split_and!; [done|lia|done|done|done|set_solver|exact Hinv'|done|done]).
Qed.

Lemma linking_next M H s tp hw p queue b' s' :
  linking M H s tp hw (p :: queue) → s'.(cs_tree) = <[p := b']> s.(cs_tree) → b'.(nChainTx) ≠ 0 → s'.(cs_unlinked) = s.(cs_unlinked) →
  chain_inv g s' tp hw → index_inv g s'.(cs_tree) → tx_bounds M H s'.(cs_tree) →
  linking M H (with_unlinked (filter (λ e : ptr * ptr, e.1 ≠ p) s'.(cs_unlinked)) s') tp hw
    (queue ++ (filter (λ e : ptr * ptr, e.1 = p) s'.(cs_unlinked)).*2).
Proof.
  intros [_ _ _ Hqu Hwa Hnd] Et Hn Eu Hinv Hix Htb. rewrite Eu.
  assert (∀ x, x ∈ queue ++ (cs_unlinked s).*2 → p ≠ x) as Hfresh.
  { cbn in Hnd. apply NoDup_cons in Hnd as [Hnd _]. intros x Hx ->. done. }
  assert (∀ a x, (a, x) ∈ cs_unlinked s → p ≠ x) as Hfresh2.
  { intros a x Hx. apply Hfresh, elem_of_app. right. apply list_elem_of_fmap. by exists (a, x). }
  split; cbn.
  - by apply (chain_inv_frame s' tp hw (cs_sequence s')).
  - done.
  - done.
  - rewrite Et. intros x [Hx|Hx]%elem_of_app.
    + destruct (Hqu x ltac:(set_solver)) as (q & Hw & Hq). exists q. split.
      * apply waits_other; [|done]. apply Hfresh. set_solver.
      * destruct (decide (p = q)) as [<-|Hne]; [exists b'; by rewrite lookup_insert_eq|by apply chain_tx_other].
    + apply list_elem_of_fmap in Hx as ([a y] & -> & [Ha Hin]%list_elem_of_filter). cbn in Ha |- *. subst a.
      exists p. split; [apply waits_other; [by eapply Hfresh2|by apply Hwa]|]. exists b'. by rewrite lookup_insert_eq.
  - rewrite Et. intros a x [Ha Hin]%list_elem_of_filter. destruct (Hwa a x Hin) as [Hw Hz]. split.
    + apply waits_other; [by eapply Hfresh2|done].
    + apply chain_tx_other; [|done]. intros ->. done.
  - rewrite <- app_assoc, unlinked_split. by apply NoDup_cons in Hnd as [_ Hnd].
Qed.

Lemma link_blocks_spec M H fuel queue s tp hw : linking M H s tp hw queue → (length queue + length s.(cs_unlinked) <= fuel)%nat →
  ∃ s', link_blocks fuel queue s = Some s' ∧ linking M H s' tp hw [] ∧ s'.(cs_active) = s.(cs_active) ∧ s'.(cs_coins) = s.(cs_coins) ∧
    s.(cs_candidates) ⊆ s'.(cs_candidates) ∧
    (∀ x, chain_tx_is (λ n, n ≠ 0) s.(cs_tree) x ∨ x ∈ queue → chain_tx_is (λ n, n ≠ 0) s'.(cs_tree) x).
Proof.
  revert queue s. induction fuel as [|fuel IH]; intros [|p queue] s Hlk Hf; cbn in Hf; try lia.
  1,2: exists s; split_and!; try done; intros x [Hx|Hx]; [done|set_solver].
  destruct (link_one_spec M H s tp hw p queue Hlk) as (b' & s1 & E & Et & Hn & Eu & Ea & Eco & Hsub & Hinv & Hix & Htb).
  cbn [link_blocks]. rewrite E. cbn [mbind option_bind].
  pose proof (linking_next M H s tp hw p queue b' s1 Hlk Et Hn Eu Hinv Hix Htb) as Hlk1.
  pose proof (Permutation_length (unlinked_split p (cs_unlinked s1))) as Hlen. rewrite length_app, !length_fmap in Hlen.
  destruct (IH _ _ Hlk1) as (s' & -> & Hlk' & Ea' & Eco' & Hsub' & Hx').
  { cbn. rewrite length_app, length_fmap. rewrite Eu in *. lia. }
  exists s'. split_and!; [done|done|by rewrite Ea'|by rewrite Eco'|set_solver|].
  intros x Hx. apply Hx'. cbn. rewrite Et. destruct (decide (p = x)) as [<-|Hne]; [left; exists b'; by rewrite lookup_insert_eq|].
  destruct Hx as [Hx|Hx]; [left; by apply chain_tx_other|right; set_solver].
Qed.

(** ** The data of the block *)

Lemma set_received_fields b vtx file pos : let b' := set_received b vtx file pos in
  links b' = links b ∧ b'.(nChainTx) = 0 ∧ b'.(nTx) = u32 (Z.of_nat (length vtx)) ∧ failed b' = failed b ∧ have_data b' = true.
Proof.
  intros b'. assert (links b' = links b ∧ b'.(nChainTx) = 0 ∧ b'.(nTx) = u32 (Z.of_nat (length vtx)) ∧
    nStatus b' = Z.lor b.(nStatus) BLOCK_HAVE_DATA) as (E1 & E2 & E3 & E4) by (unfold b', set_received; destruct (Block_IsProofOfStake vtx), b; done).
  split_and!; try done; unfold failed, have_data; rewrite E4, Z.land_lor_distr_l.
  - change (Z.land BLOCK_HAVE_DATA BLOCK_FAILED_MASK) with 0. by rewrite Z.lor_0_r.
  - apply negb_true_iff, Z.eqb_neq. rewrite Z.lor_eq_0_iff. by intros [_ ?].
Qed.

Lemma RaiseValidity_transactions b : failed b = false →
  ∃ r b', RaiseValidity b BLOCK_VALID_TRANSACTIONS = Some (r, b') ∧ links b' = links b ∧ nChainTx b' = nChainTx b ∧ nTx b' = nTx b ∧
    BLOCK_VALID_TRANSACTIONS <= Z.land b'.(nStatus) BLOCK_VALID_MASK.
Proof.
  unfold failed, RaiseValidity. intros Hf. rewrite Hf. change (negb (Z.land _ _ =? 0)) with false at 1. cbv iota.
  destruct (Z.ltb_spec (Z.land (nStatus b) BLOCK_VALID_MASK) BLOCK_VALID_TRANSACTIONS) as [|Hge]; do 2 eexists; (split; [reflexivity|]); [|done].
  split_and!; [by destruct b..|]. rewrite status_of, Z.land_lor_distr_l, <- Z.land_assoc.
  change (Z.land (u32 (Z.lnot BLOCK_VALID_MASK)) BLOCK_VALID_MASK) with 0. rewrite Z.land_0_r. by vm_compute.
Qed.

Lemma update_index t x b b' : index_inv g t → tree_inv g t → t !! x = Some b → links b' = links b → b.(nChainTx) = 0 → b'.(nChainTx) = 0 →
  index_inv g (<[x := b']> t).
Proof.
  intros [I1 I2 I3] Hi Hx Hl Hn Hn'. injection Hl as Ep _ _ _. split.
  - intros p c Hp Hc. destruct (decide (x = p)) as [<-|Hne]; [rewrite lookup_insert_eq in Hp; by simplify_eq|].
    rewrite lookup_insert_ne in Hp by done. eauto.
  - intros p c r cr Hp Hc Hr Hcr. destruct (decide (x = p)) as [<-|Hne]; [rewrite lookup_insert_eq in Hp; by simplify_eq|].
    rewrite lookup_insert_ne in Hp by done. destruct (decide (x = r)) as [<-|Hner].
    + by destruct (I2 p c x b Hp Hc Hr Hx).
    + rewrite lookup_insert_ne in Hcr by done. exact (I2 p c r cr Hp Hc Hr Hcr).
  - intros c Hc. destruct (decide (x = g)) as [->|Hne]; [by destruct (I3 b Hx)|].
    rewrite lookup_insert_ne in Hc by done. eauto.
Qed.

(** What holds of the chain state when a block arrives. *)
Record receiving (M H : Z) s (tp hw : ptr) : Prop := {
  rc_inv : chain_inv g s tp hw;
  rc_index : index_inv g s.(cs_tree);
  rc_bounds : tx_bounds M H s.(cs_tree);
  rc_unlinked : unlinked_ok s;
}.

Lemma received_data M H s tp hw vtx p b q file pos :
  receiving M H s tp hw → s.(cs_tree) !! p = Some b → b.(pprev) = Some q → b.(nChainTx) = 0 → failed b = false →
  vtx ≠ [] → Z.of_nat (length vtx) <= M → p ∉ s.(cs_unlinked).*2 →
  ∃ r b1, RaiseValidity (set_received b vtx file pos) BLOCK_VALID_TRANSACTIONS = Some (r, b1) ∧ b1.(pprev) = Some q ∧
    receiving M H (with_tree (<[p := b1]> s.(cs_tree)) s) tp hw ∧ waits (<[p := b1]> s.(cs_tree)) q p.
Proof.
  intros [Hinv Hix Htb [Huw Hund]] Hb Hq Hn Hf Hvtx Hlen Hp.
  destruct (set_received_fields b vtx file pos) as (F1 & F2 & F3 & F4 & _).
  destruct (RaiseValidity_transactions (set_received b vtx file pos)) as (r & b1 & -> & G1 & G2 & G3 & G4); [by rewrite F4|].
  pose proof (cc_tree _ _ _ (ci_core _ _ _ _ Hinv)) as Hi.
  assert (links b1 = links b) as Hl by (by rewrite G1, F1). assert (nChainTx b1 = 0) as Hn1 by (by rewrite G2, F2).
  destruct (tb_entry _ _ _ Htb p b Hb) as (B1 & B2 & B3). pose proof (tb_room _ _ _ Htb) as B4. pose proof (wf_height _ p b (ti_wf _ _ Hi) Hb) as B5.
  assert (nTx b1 = Z.of_nat (length vtx)) as Hnt by (rewrite G3, F3; apply u32_id; unfold is_u32; nia).
  assert (0 < nTx b1) as Hpos by (rewrite Hnt; destruct vtx; [done|]; cbn; lia).
  assert (nHeight b1 = nHeight b ∧ pprev b1 = Some q) as [Hh1 Hq1] by (injection Hl as -> _ -> _; done).
  exists r, b1. split; [done|]. split; [done|]. split.
  2: { exists b1. rewrite lookup_insert_eq. by split_and!. }
  split; cbn.
  - by eapply update_inv.
  - by eapply update_index.
  - split; [done|]. intros y c Hy. destruct (decide (p = y)) as [<-|Hne].
    + rewrite lookup_insert_eq in Hy. simplify_eq. rewrite Hn1, Hh1, Hnt. split; [lia|]. split; [nia|lia].
    + rewrite lookup_insert_ne in Hy by done. by apply (tb_entry _ _ _ Htb y).
  - split; cbn; [|done]. intros a x Hax. destruct (Huw a x Hax) as [Hw Hz]. split.
    + apply waits_other; [|done]. intros ->. apply Hp, list_elem_of_fmap. by exists (a, x).
    + destruct (decide (p = a)) as [<-|Hne]; [exists b1; by rewrite lookup_insert_eq|by apply chain_tx_other].
Qed.

Lemma waits_nodup M H s tp hw p q : receiving M H s tp hw → p ∉ s.(cs_unlinked).*2 → waits s.(cs_tree) q p →
  chain_tx_is (λ n, n ≠ 0) s.(cs_tree) q → linking M H s tp hw [p].
Proof.
  intros [R1 R2 R3 [R4 R5]] Hp Hw Hq. split; [done|done|done| |done|].
  - intros x ->%list_elem_of_singleton. eauto.
  - cbn. by apply NoDup_cons.
Qed.
End receive.

Lemma ReceivedBlockTransactions_spec {S} `{!ChainCoins S, !ChainCoinsLaws S} (g : ptr) (M H : Z) (s : ChainState S)
    (tp hw : ptr) (vtx : list CTransaction) (p : ptr) (b : CBlockIndex) (q : ptr) (bq : CBlockIndex) (file pos : Z) :
  receiving g M H s tp hw → cs_tree s !! p = Some b → b.(pprev) = Some q → cs_tree s !! q = Some bq →
  b.(nChainTx) = 0 → failed b = false → vtx ≠ [] → Z.of_nat (length vtx) <= M → p ∉ (cs_unlinked s).*2 →
  ∃ s', ReceivedBlockTransactions vtx p file pos s = Some s' ∧ receiving g M H s' tp hw ∧
    cs_active s' = cs_active s ∧ cs_coins s' = cs_coins s ∧ cs_candidates s ⊆ cs_candidates s' ∧
    (bq.(nChainTx) ≠ 0 → chain_tx_is (λ n, n ≠ 0) (cs_tree s') p) ∧
    (bq.(nChainTx) = 0 → IsValid bq BLOCK_VALID_TREE = Some true → cs_unlinked s' = cs_unlinked s ++ [(q, p)]).
Proof.
  intros Hrc Hb Hq Hbq Hn Hf Hvtx Hlen Hp.
  destruct (received_data g M H s tp hw vtx p b q file pos Hrc Hb Hq Hn Hf Hvtx Hlen Hp) as (r & b1 & E & Hq1 & Hrc1 & Hw1).
  unfold ReceivedBlockTransactions. rewrite Hb. cbn [mbind option_bind]. rewrite E. cbn [mbind option_bind]. rewrite Hq1.
  assert (p ≠ q) as Hpq.
  { intros ->. pose proof (ti_wf _ _ (cc_tree _ _ _ (ci_core _ _ _ _ (rc_inv _ _ _ _ _ _ Hrc))) q b Hb) as He. unfold entry_ok in He.
    rewrite Hq in He. destruct He as (b2 & ? & _ & ? & _). simplify_eq. lia. }
  cbn [cs_tree with_tree]. rewrite lookup_insert_ne, Hbq by done. cbn [mbind option_bind].
  set (s1 := with_tree _ s) in *. destruct (Z.eqb_spec (nChainTx bq) 0) as [Hz|Hz]; cbn [negb].
  - destruct (IsValid bq BLOCK_VALID_TREE) as [v|] eqn:Ev; [|by unfold IsValid in Ev; destruct (negb (Z.land bq.(nStatus) _ =? 0)) in Ev].
    cbn [mbind option_bind]. eexists. split; [reflexivity|]. destruct v; cbn; [|split_and!; [done|done|done|done|done|done]].
    split_and!; [|done|done|done|done|done]. destruct Hrc1 as [R1 R2 R3 [R4 R5]]. split; cbn; [|done|done|].
    + exact (chain_inv_frame g s1 tp hw (cs_sequence s1) (cs_unlinked s ++ [(q, p)]) R1).
    + split; cbn.
      * intros a x [Hax|Hax]%elem_of_app; [by apply R4|]. apply list_elem_of_singleton in Hax as [= -> ->]. split; [done|].
        exists bq. by rewrite lookup_insert_ne.
      * rewrite fmap_app. apply NoDup_app. split_and!; [done| |by apply NoDup_singleton]. intros x Hx ->%list_elem_of_singleton. done.
  - destruct (link_blocks_spec g M H (length (cs_unlinked s1) + 1) [p] s1 tp hw) as (s' & -> & [L1 L2 L3 _ L5 L6] & Ea & Eco & Hsub & Hx).
    { eapply waits_nodup; [done|done|done|]. exists bq. cbn. by rewrite lookup_insert_ne. }
    { cbn. lia. }
    exists s'. split; [done|]. split; [by split|]. split_and!; [done|done|done| |done].
    intros _. apply Hx. right. set_solver.
Qed.

(** when the transactions of a block arrive, [ReceivedBlockTransactions]
    always answers and keeps the invariant of the chain state, the consistency
    of [nChainTx] and the table of waiting blocks, without touching the active
    chain or the coins.  If the chain of the parent is complete, so is
    afterwards that of the block, and no waiting block is left whose parent is
    complete; otherwise the block joins the waiting blocks, unless its parent
    is failed. *)
Theorem ReceivedBlockTransactions_keeps_invariant {S} `{!ChainCoins S, !ChainCoinsLaws S} (g : ptr) (M H : Z) (s : ChainState S)
    (tp hw : ptr) (vtx : list CTransaction) (p : ptr) (b : CBlockIndex) (q : ptr) (bq : CBlockIndex) (file pos : Z) :
  receiving g M H s tp hw → cs_tree s !! p = Some b → b.(pprev) = Some q → cs_tree s !! q = Some bq →
  b.(nChainTx) = 0 → failed b = false → vtx ≠ [] → Z.of_nat (length vtx) <= M → p ∉ (cs_unlinked s).*2 →
  ∃ s', ReceivedBlockTransactions vtx p file pos s = Some s' ∧ receiving g M H s' tp hw ∧
    cs_active s' = cs_active s ∧ cs_coins s' = cs_coins s ∧ cs_candidates s ⊆ cs_candidates s' ∧
    (bq.(nChainTx) ≠ 0 → chain_tx_is (λ n, n ≠ 0) (cs_tree s') p) ∧
    (bq.(nChainTx) = 0 → IsValid bq BLOCK_VALID_TREE = Some true → cs_unlinked s' = cs_unlinked s ++ [(q, p)]).
Proof. apply ReceivedBlockTransactions_spec. Qed.

(** ** A concrete arrival *)

#[local] Existing Instance sample_coins.
#[local] Existing Instance sample_laws.

(** Blocks 1 and 2 are active; 3 is known by its header and its child 4 waits. *)
Definition arrival_index : BlockTree :=
  let add t p b := match BuildSkip t b with Some b => <[p := b]> t | None => t end in
  let t := add ∅ 1%positive (sample_block None 0 1 0 13) in
  let t := add t 2%positive (sample_block (Some 1%positive) 1 2 1 29) in
  let t := add t 3%positive (set_linked (sample_block (Some 2%positive) 2 3 0 2) 0 0) in
  add t 4%positive (set_linked (sample_block (Some 3%positive) 3 4 0 11) 0 0).
Definition arrival_state : ChainState ptr :=
  mkChainState arrival_index [Some 1%positive; Some 2%positive] {[2]}%positive [(3, 4)]%positive None 2 2%positive.

(** Both blocks become candidates, in the order of the chain. *)
Definition arrival_result : option (bool * bool * list (ptr * ptr) * Z) :=
  s ← ReceivedBlockTransactions [sample_tx] 3%positive 0 0 arrival_state;
  Some (bool_decide (3%positive ∈ s.(cs_candidates)), bool_decide (4%positive ∈ s.(cs_candidates)), s.(cs_unlinked), s.(cs_sequence)).
Example arrival_result_is : arrival_result = Some (true, true, [], 4).
Proof. vm_compute. reflexivity. Qed.

Lemma index_inv_check g t : map_Forall (λ p b,
    (p = g → b.(nChainTx) ≠ 0) ∧
    (b.(nChainTx) = 0 ∨ BLOCK_VALID_TRANSACTIONS <= Z.land b.(nStatus) BLOCK_VALID_MASK ∧
      (q ← b.(pprev); bq ← t !! q; Some (bq.(nChainTx) =? 0)) ≠ Some true)) t → index_inv g t.
Proof.
  intros H. split.
  - intros p b Hp Hn. destruct (H p b Hp) as (_ & [|[? _]]); done.
  - intros p b q bq Hp Hn Hq Hbq. destruct (H p b Hp) as (_ & [|[_ Hc]]); [done|]. rewrite Hq in Hc. cbn in Hc. rewrite Hbq in Hc. cbn in Hc.
    intros E. by rewrite E in Hc.
  - intros b Hb. by apply (H g b Hb).
Qed.

Lemma arrival_tree_inv : tree_inv 1 arrival_index.
Proof. apply tree_inv_check, (bool_decide_unpack _). vm_compute. exact I. Qed.
Lemma arrival_index_inv : index_inv 1 arrival_index.
Proof. apply index_inv_check, (bool_decide_unpack _). vm_compute. exact I. Qed.

Lemma arrival_inv : chain_inv 1 arrival_state 2 2.
Proof.
  assert (∃ b, arrival_index !! 2%positive = Some b ∧ Z.to_nat (nHeight b) = 1%nat ∧ nChainTx b ≠ 0) as (b & Hb & Hh & Hn)
    by (eexists; split; [vm_compute; reflexivity|by vm_compute]).
  pose proof (ti_wf _ _ arrival_tree_inv) as Hwf. pose proof (linked_of_chain_tx 1 _ 2 b Hwf arrival_index_inv Hb Hn) as Hl.
  assert (ready arrival_index 2) as Hr.
  { refine (ancestors_check _ _ 2 b Hwf Hb _). rewrite Hh. constructor; [|constructor; [|constructor]]; vm_compute; (eexists; split; reflexivity). }
  assert (validated arrival_index 2) as Hv.
  { intros q c Hq. revert q Hq c. refine (ancestors_check _ _ 2 b Hwf Hb _).
    rewrite Hh. constructor; [|constructor; [|constructor]]; vm_compute; intros c [= <-]; [by right|by left]. }
  apply chain_inv_top; [split|..]; cbn; try done.
  - apply arrival_tree_inv.
  - exists b. split; [done|]. revert Hb. vm_compute. intros [= <-]. split; [done|]. intros i Hi. destruct i as [|[|i]]; [done|done|lia].
  - intros p ->%elem_of_singleton. split; [|done]. apply elem_of_dom. eauto.
  - apply (bool_decide_unpack _). vm_compute. exact I.
  - assert (map_Forall (λ p c, worse arrival_index p 2 ∨ p = 2%positive ∨ nChainTx c = 0) arrival_index) as H
      by (apply (bool_decide_unpack _); vm_compute; exact I).
    intros p Hrp Hlp _ Hp. destruct (ready_lookup _ _ Hrp) as (bp & Hbp & _).
    pose proof (chain_tx_of_linked 1 _ p bp arrival_tree_inv arrival_index_inv Hbp Hlp). destruct (H p bp Hbp) as [Hw|[->|?]]; [|set_solver|done].
    destruct (proj1 (at_least_iff _ 2 p b bp (ti_works _ _ arrival_tree_inv) Hb Hbp) Hp Hw).
Qed.

Lemma arrival_receiving : receiving 1 100 1000 arrival_state 2 2.
Proof.
  split.
  - apply arrival_inv.
  - apply arrival_index_inv.
  - split; [done|]. cbn. assert (map_Forall (λ _ b, 0 <= nTx b <= 100 ∧ 0 <= nChainTx b <= 100 * (nHeight b + 1) ∧ nHeight b <= 1000) arrival_index) as H
      by (apply (bool_decide_unpack _); vm_compute; exact I). exact H.
  - split; cbn; [|apply NoDup_singleton]. intros a x [= -> ->]%list_elem_of_singleton.
    split; eexists; (split; [vm_compute; reflexivity|by vm_compute]).
Qed.

Lemma ReceivedBlockTransactions_keeps_invariant_witness :
  ∃ s', ReceivedBlockTransactions [sample_tx] 3%positive 0 0 arrival_state = Some s' ∧ receiving 1 100 1000 s' 2 2 ∧
    chain_tx_is (λ n, n ≠ 0) (cs_tree s') 3.
Proof.
  assert (∃ b bq, cs_tree arrival_state !! 3%positive = Some b ∧ cs_tree arrival_state !! 2%positive = Some bq ∧ pprev b = Some 2%positive ∧
    nChainTx b = 0 ∧ failed b = false ∧ nChainTx bq ≠ 0) as (b & bq & H1 & H2 & H3 & H4 & H5 & H6).
  { do 2 eexists. split; [vm_compute; reflexivity|]. split; [vm_compute; reflexivity|]. by vm_compute. }
  destruct (ReceivedBlockTransactions_keeps_invariant 1 100 1000 arrival_state 2 2 [sample_tx] 3 b 2 bq 0 0
    arrival_receiving H1 H3 H2 H4 H5) as (s' & E & Hr & _ & _ & _ & Hl & _).
  - done.
  - cbn. lia.
  - cbn. set_solver.
  - exists s'. split; [exact E|]. split; [exact Hr|]. exact (Hl H6).
Defined.
