(* ===== verification/ChainFrame.v ===== *)
(** * ChainFrame: what the activation of a chain leaves alone ([validation.cpp])

    [ActivateBestChain] changes flags of entries of the block index and raises
    their level of validity, but it does not change their links, their number
    of transactions or whether they have data, and it does not touch
    [mapBlocksUnlinked] as long as all blocks with a complete chain have their
    data.  With [ChainActivate] this makes the invariant of the arrival of
    blocks ([receiving]) an invariant of the whole chain state. *)

From S2P Require Import Prelude ArithUint256 Params Transaction Chain ChainState ChainActivate ChainInvalidate ChainReceive.
Local Open Scope Z_scope.

(** ** Entries *)

Definition received_level (b : CBlockIndex) : Prop := BLOCK_VALID_TRANSACTIONS <= Z.land b.(nStatus) BLOCK_VALID_MASK.

Record kept (b b' : CBlockIndex) : Prop := {
  kp_links : links b' = links b;
  kp_hash : b'.(phashBlock) = b.(phashBlock);
  kp_tx : b'.(nTx) = b.(nTx);
  kp_chain_tx : b'.(nChainTx) = b.(nChainTx);
  kp_data : have_data b' = have_data b;
  kp_level : received_level b → received_level b';
}.

#[export] Instance kept_preorder : PreOrder kept.
Proof.
  split; [by split|]. intros b1 b2 b3 [? ? ? ? ? H1] [? ? ? ? ? H2]. split; try congruence. auto.
Qed.

Lemma set_nStatus_fields b s : nStatus (set_nStatus b s) = s ∧ links (set_nStatus b s) = links b ∧ phashBlock (set_nStatus b s) = phashBlock b ∧
  nTx (set_nStatus b s) = nTx b ∧ nChainTx (set_nStatus b s) = nChainTx b.
Proof. by destruct b. Qed.

Lemma kept_status b s : Z.land s BLOCK_HAVE_DATA = Z.land b.(nStatus) BLOCK_HAVE_DATA →
  (received_level b → BLOCK_VALID_TRANSACTIONS <= Z.land s BLOCK_VALID_MASK) → kept b (set_nStatus b s).
Proof.
  intros Hd Hl. destruct (set_nStatus_fields b s) as (E1 & E2 & E3 & E4 & E5). split; [done|done|done|done| |].
  - unfold have_data. by rewrite E1, Hd.
  - unfold received_level at 2. by rewrite E1.
Qed.

Lemma kept_flag b flag : Z.land flag BLOCK_HAVE_DATA = 0 → Z.land flag BLOCK_VALID_MASK = 0 → kept b (set_nStatus b (Z.lor b.(nStatus) flag)).
Proof.
  intros Hd Hm. apply kept_status; rewrite Z.land_lor_distr_l; [by rewrite Hd, Z.lor_0_r|]. by rewrite Hm, Z.lor_0_r.
Qed.

Lemma kept_raise b n r b' : n = BLOCK_VALID_TREE ∨ BLOCK_VALID_TRANSACTIONS <= n <= BLOCK_VALID_SCRIPTS → RaiseValidity b n = Some (r, b') → kept b b'.
Proof.
  intros Hn. unfold RaiseValidity. destruct (negb (Z.land n _ =? 0)); [done|]. destruct (negb _); [by intros [= <- <-]|].
  destruct (Z.ltb_spec (Z.land b.(nStatus) BLOCK_VALID_MASK) n) as [Hlt|]; [|by intros [= <- <-]]. intros [= <- <-].
  assert (n = 2 ∨ n = 3 ∨ n = 4 ∨ n = 5) as Hc by (unfold BLOCK_VALID_TREE, BLOCK_VALID_TRANSACTIONS, BLOCK_VALID_SCRIPTS in Hn; lia).
  assert (Z.land n BLOCK_HAVE_DATA = 0 ∧ Z.land n BLOCK_VALID_MASK = n) as [Hd Hm] by (destruct Hc as [-> |[-> |[-> | ->]]]; done).
  apply kept_status.
  - rewrite Z.land_lor_distr_l, Hd, Z.lor_0_r, <- Z.land_assoc. f_equal.
  - rewrite Z.land_lor_distr_l, Hm, <- Z.land_assoc. change (Z.land (u32 (Z.lnot BLOCK_VALID_MASK)) BLOCK_VALID_MASK) with 0.
    rewrite Z.land_0_r, Z.lor_0_l. unfold received_level. lia.
Qed.

Lemma kept_mark_connected pos b b' : mark_connected pos b = Some b' → kept b b'.
Proof.
  unfold mark_connected. destruct (IsValid b BLOCK_VALID_SCRIPTS) as [valid|]; [|done]. cbn [mbind option_bind].
  destruct (negb (have_undo b) || negb valid); [|by intros [= <-]].
  assert (kept b (if negb (have_undo b) then set_nStatus (set_nUndoPos b pos) (Z.lor b.(nStatus) BLOCK_HAVE_UNDO) else b)) as Hk.
  { destruct (negb (have_undo b)); [|done]. transitivity (set_nUndoPos b pos); [by destruct b|].
    replace (nStatus b) with (nStatus (set_nUndoPos b pos)) by by destruct b. by apply kept_flag. }
  destruct (RaiseValidity _ _) as [[r b1]|] eqn:E; [|done]. intros [= <-]. etrans; [exact Hk|].
  eapply kept_raise; [|exact E]. right. done.
Qed.

(** ** The index *)

Definition tree_kept (t t' : BlockTree) : Prop := ∀ p : ptr, option_Forall2 kept (t !! p) (t' !! p).

#[export] Instance tree_kept_preorder : PreOrder tree_kept.
Proof.
  split; [intros t p; destruct (t !! p); by constructor|]. intros t1 t2 t3 H1 H2 p. specialize (H1 p). specialize (H2 p).
  destruct H1 as [b1 b2 K1|]; inversion H2; constructor. by etrans.
Qed.

Lemma tree_kept_insert t p b b' : t !! p = Some b → kept b b' → tree_kept t (<[p := b']> t).
Proof.
  intros Hp Hk q. destruct (decide (p = q)) as [<-|Hne]; [rewrite lookup_insert_eq, Hp; by constructor|].
  rewrite lookup_insert_ne by done. destruct (t !! q); by constructor.
Qed.

Lemma tree_kept_add_status t p flag : flag = BLOCK_FAILED_VALID ∨ flag = BLOCK_FAILED_CHILD → tree_kept t (add_status flag p t).
Proof.
  intros Hf q. unfold add_status. rewrite lookup_alter. case_decide as E; [subst q|destruct (t !! q); by constructor].
  destruct (t !! p) as [b|]; constructor. by apply kept_flag; destruct Hf as [-> | ->].
Qed.

Lemma tree_kept_lookup t t' p b' : tree_kept t t' → t' !! p = Some b' → ∃ b, t !! p = Some b ∧ kept b b'.
Proof. intros H Hp. specialize (H p). rewrite Hp in H. inversion H; eauto. Qed.
Lemma tree_kept_lookup_fwd t t' p b : tree_kept t t' → t !! p = Some b → ∃ b', t' !! p = Some b' ∧ kept b b'.
Proof. intros H Hp. specialize (H p). rewrite Hp in H. inversion H; eauto. Qed.

(** Every block with a complete chain, and the genesis block, has its data. *)
Definition data_ok (t : BlockTree) : Prop :=
  ∀ p b, t !! p = Some b → b.(nChainTx) ≠ 0 ∨ b.(nHeight) = 0 → have_data b = true.

Lemma data_ok_kept t t' : tree_kept t t' → data_ok t → data_ok t'.
Proof.
  intros Hk Hd p b' Hp Hn. destruct (tree_kept_lookup t t' p b' Hk Hp) as (b & Hb & [Kl _ _ Kn Kd _]).
  rewrite Kd. apply (Hd p b Hb). rewrite <- Kn. injection Kl as _ _ <- _. done.
Qed.

(** ** The functions of the choice of the chain *)

Section frame.
Context {S : Type} `{!ChainCoins S}.
Implicit Types s : ChainState S.

Record frame s s' : Prop := {
  fr_tree : tree_kept s.(cs_tree) s'.(cs_tree);
  fr_unlinked : s'.(cs_unlinked) = s.(cs_unlinked);
}.

#[local] Instance frame_preorder : PreOrder frame.
Proof. split; [by split|]. intros s1 s2 s3 [? ?] [? ?]. split; [by etrans|congruence]. Qed.

Lemma frame_data s s' : frame s s' → data_ok s.(cs_tree) → data_ok s'.(cs_tree).
Proof. intros [Hk _]. by apply data_ok_kept. Qed.

(** One step of an evaluation in the option monad. *)
Ltac step H := match type of H with mbind _ ?o = Some _ => let E := fresh "E" in destruct o eqn:E; [cbn [mbind option_bind] in H|done] end.

Lemma remove_chain_frame fuel test p s s' : remove_chain fuel true test p s = Some s' → frame s s'.
Proof.
  revert p s. induction fuel as [|fuel IH]; intros p s; cbn [remove_chain]; case_bool_decide; [by intros [= <-]|done|by intros [= <-]|].
  intros Hr. do 2 step Hr. apply IH in Hr. etrans; [|exact Hr]. split; [|done]. apply tree_kept_add_status. by right.
Qed.

Lemma first_unusable_data fuel t active o p : data_ok t → first_unusable fuel t active o = Some (Some (p, false)) → False.
Proof.
  intros Hd. revert o. induction fuel as [|fuel IH]; intros [q|]; cbn [first_unusable]; try done; intros Hr; step Hr; (destruct b; [done|]); step Hr;
    (destruct ((nChainTx c =? 0) && negb (nHeight c =? 0)) eqn:En; [done|]); 
    assert (have_data c = true) as Hc by
      (apply (Hd q c); [done|]; apply andb_false_iff in En as [En|En]; [left; by apply Z.eqb_neq|right; apply negb_false_iff in En; by apply Z.eqb_eq]);
    rewrite Hc, orb_false_r in Hr; destruct (failed c); try done. by apply IH in Hr.
Qed.

Lemma FindMostWorkChain_loop_frame fuel s r s' : data_ok s.(cs_tree) → FindMostWorkChain_loop fuel s = Some (r, s') → frame s s'.
Proof.
  revert s. induction fuel as [|fuel IH]; intros s Hd; cbn [FindMostWorkChain_loop]; intros Hr; step Hr;
    (destruct o as [p|]; [|by injection Hr as <- <-]); step Hr; step Hr; (destruct o as [[q f]|]; [|by injection Hr as <- <-]);
    step Hr; step Hr; try done.
  destruct f; [|by apply first_unusable_data in E1].
  assert (frame s c0) as Hf.
  { apply remove_chain_frame in E3. etrans; [|exact E3]. by destruct b. }
  etrans; [exact Hf|]. apply IH in Hr; [done|]. by apply (frame_data s).
Qed.

Lemma InvalidChainFound_frame p s s' : InvalidChainFound p s = Some s' → frame s s'.
Proof. unfold InvalidChainFound. intros Hr. step Hr. step Hr. injection Hr as <-. by destruct b. Qed.

Lemma InvalidBlockFound_frame p corruption s s' : InvalidBlockFound p corruption s = Some s' → frame s s'.
Proof.
  unfold InvalidBlockFound. destruct corruption; [by intros [= <-]|]. intros Hr%InvalidChainFound_frame. etrans; [|exact Hr].
  split; [|done]. apply tree_kept_add_status. by left.
Qed.

Lemma PruneBlockIndexCandidates_frame s s' : PruneBlockIndexCandidates s = Some s' → frame s s'.
Proof. unfold PruneBlockIndexCandidates. intros Hr. step Hr. case_bool_decide; [done|]. by injection Hr as <-. Qed.

Lemma ConnectTip_frame p s r s' : ConnectTip p s = Some (r, s') → frame s s'.
Proof.
  unfold ConnectTip. intros Hr. step Hr. destruct (negb _); [done|]. destruct (coins_connect _ _ _) as [coins pos|corruption|coins [pos|]].
  - step Hr. step Hr. injection Hr as <- <-. split; [|done]. apply (tree_kept_insert _ _ c); [done|].
    case_bool_decide; [by injection E0 as <-|by eapply kept_mark_connected].
  - step Hr. injection Hr as <- <-. by eapply InvalidBlockFound_frame.
  - step Hr. injection Hr as <- <-. split; [|done]. apply (tree_kept_insert _ _ c); [done|]. by eapply kept_mark_connected.
  - by injection Hr as <- <-.
Qed.

Lemma DisconnectTip_frame s r s' : DisconnectTip s = Some (r, s') → frame s s'.
Proof.
  unfold DisconnectTip. intros Hr. step Hr. step Hr. destruct (coins_disconnect _ _ _); [step Hr; step Hr|]; by injection Hr as <- <-.
Qed.

Lemma disconnect_loop_frame fuel fork s r s' : disconnect_loop fuel fork s = Some (r, s') → frame s s'.
Proof.
  revert s. induction fuel as [|fuel IH]; intros s; cbn [disconnect_loop]; (destruct (tip s); [|by intros [= <- <-]]);
    case_bool_decide; [by intros [= <- <-]|done|by intros [= <- <-]|]. intros Hr. step Hr. destruct p0 as [ok s1]. apply DisconnectTip_frame in E.
  destruct ok; [|by injection Hr as <- <-]. etrans; [exact E|]. by apply IH in Hr.
Qed.

Lemma connect_blocks_frame front old l s r s' : connect_blocks front old l s = Some (r, s') → frame s s'.
Proof.
  revert s. induction l as [|p l IH]; intros s; cbn [connect_blocks]; [by intros [= <- <-]|]. intros Hr. step Hr. destruct p0 as [o s1].
  apply ConnectTip_frame in E. etrans; [exact E|]. destruct o as [|corruption|].
  - step Hr. apply PruneBlockIndexCandidates_frame in E0. etrans; [exact E0|]. do 3 step Hr. destruct b; [by injection Hr as <- <-|by apply IH in Hr].
  - step Hr. injection Hr as <- <-. destruct corruption; [by injection E0 as <-|]. step E0. by eapply InvalidChainFound_frame.
  - by injection Hr as <- <-.
Qed.

Lemma connect_batches_frame fuel old most height s r s' : connect_batches fuel old most height s = Some (r, s') → frame s s'.
Proof.
  revert height s. induction fuel as [|fuel IH]; intros height s; cbn [connect_batches]; intros Hr; step Hr;
    (destruct (height =? _); [by injection Hr as <- <-|]); [done|]. do 3 step Hr. destruct p as [o1 s1]. apply connect_blocks_frame in E2.
  etrans; [exact E2|]. destruct o1; [by apply IH in Hr|by injection Hr as <- <-..].
Qed.

Lemma ActivateBestChainStep_frame p s r s' : ActivateBestChainStep p s = Some (r, s') → frame s s'.
Proof.
  unfold ActivateBestChainStep. intros Hr. step Hr. step Hr. destruct p0 as [ok s1]. apply disconnect_loop_frame in E0. etrans; [exact E0|].
  destruct ok; cbn [negb] in Hr; [|by injection Hr as <- <-]. do 3 step Hr. destruct p0 as [o1 s2]. apply connect_batches_frame in E3.
  injection Hr as Hr. destruct o1; injection Hr as <- <-; done.
Qed.

Lemma activate_inner_frame fuel starting most bc s r s' : data_ok s.(cs_tree) → activate_inner fuel starting most bc s = Some (r, s') → frame s s'.
Proof.
  revert most bc s. induction fuel as [|fuel IH]; intros most bc s Hd; cbn [activate_inner]; [done|]. intros Hr. step Hr. destruct p as [o s1].
  assert (frame s s1) as Hf.
  { destruct most; [by injection E as <- <-|]. by eapply FindMostWorkChain_loop_frame. }
  etrans; [exact Hf|]. destruct o as [p|]; [|by injection Hr as <- <-]. case_bool_decide; [by injection Hr as <- <-|].
  step Hr. destruct p0 as [[ok inv] s2]. apply ActivateBestChainStep_frame in E0. etrans; [exact E0|].
  destruct ok; cbn [negb] in Hr; [|by injection Hr as <- <-]. step Hr. destruct b; [|by injection Hr as <- <-].
  apply IH in Hr; [done|]. apply (frame_data s1); [done|]. by apply (frame_data s).
Qed.

Lemma activate_outer_frame fuel most s r s' : data_ok s.(cs_tree) → activate_outer fuel most s = Some (r, s') → frame s s'.
Proof.
  revert most s. induction fuel as [|fuel IH]; intros most s Hd; cbn [activate_outer]; [done|]. intros Hr. step Hr. destruct p as [o s1].
  apply activate_inner_frame in E; [|done]. etrans; [exact E|]. destruct o as [[m bc]|]; [|by injection Hr as <- <-].
  destruct bc; cbn [negb] in Hr; [|by injection Hr as <- <-]. case_bool_decide; [by injection Hr as <- <-|].
  apply IH in Hr; [done|]. by apply (frame_data s).
Qed.

Lemma ActivateBestChain_frame s r s' : data_ok s.(cs_tree) → ActivateBestChain s = Some (r, s') → frame s s'.
Proof. apply activate_outer_frame. Qed.
End frame.

(** ** The invariant of the arrival of blocks *)

Section receiving.
Context {S : Type} `{!ChainCoins S, !ChainCoinsLaws S} (g : ptr).
Implicit Types s : ChainState S.

Lemma tree_kept_chain_tx P t t' a : tree_kept t t' → chain_tx_is P t a → chain_tx_is P t' a.
Proof.
  intros Hk (b & Hb & Hp). destruct (tree_kept_lookup_fwd t t' a b Hk Hb) as (b' & Hb' & [_ _ _ K _ _]). exists b'. by rewrite K.
Qed.

Lemma tree_kept_waits t t' a x : tree_kept t t' → waits t a x → waits t' a x.
Proof.
  intros Hk (b & Hb & Hp & Hn & Ht & Hv). destruct (tree_kept_lookup_fwd t t' x b Hk Hb) as (b' & Hb' & [Kl _ Kt Kn _ Kv]).
  exists b'. rewrite Kt, Kn. injection Kl as -> _ _ _. split_and!; [done|done|done|done|by apply Kv].
Qed.

(** Only the invariant of the chain itself depends on the tip. *)
Lemma receiving_frame M H s s' tp hw tp' hw' : receiving g M H s tp hw → frame s s' → chain_inv g s' tp' hw' → receiving g M H s' tp' hw'.
Proof.
  intros [R1 [I1 I2 I3] [T1 T2] [U1 U2]] [Hk Hu] Hc. split; [done| | |].
  - split.
    + intros p b' Hp Hn. destruct (tree_kept_lookup _ _ p b' Hk Hp) as (b & Hb & [_ _ _ Kn _ Kv]). apply Kv, (I1 p b Hb). congruence.
    + intros p b' q bq' Hp Hn Hq Hbq. destruct (tree_kept_lookup _ _ p b' Hk Hp) as (b & Hb & [Kl _ _ Kn _ _]).
      destruct (tree_kept_lookup _ _ q bq' Hk Hbq) as (bq & Hbq0 & [_ _ _ Knq _ _]). rewrite Knq. injection Kl as Ep _ _ _.
      apply (I2 p b q bq Hb); congruence.
    + intros b' Hb'. destruct (tree_kept_lookup _ _ g b' Hk Hb') as (b & Hb & [_ _ _ Kn _ _]). rewrite Kn. by apply I3.
  - split; [done|]. intros p b' Hp. destruct (tree_kept_lookup _ _ p b' Hk Hp) as (b & Hb & [Kl _ Kt Kn _ _]).
    rewrite Kt, Kn. injection Kl as _ _ -> _. by apply (T2 p).
  - split; rewrite Hu; [|done]. intros a x Hax. destruct (U1 a x Hax) as [Hw Hz].
    split; [by eapply tree_kept_waits|by eapply tree_kept_chain_tx].
Qed.

(** ** Data and transactions *)

(** A block with a complete chain has transactions, and a block with
    transactions has its data. *)
Definition tx_data (t : BlockTree) : Prop :=
  ∀ p b, t !! p = Some b → (b.(nChainTx) ≠ 0 → 0 < b.(nTx)) ∧ (0 < b.(nTx) → have_data b = true).

Lemma tx_data_kept t t' : tree_kept t t' → tx_data t → tx_data t'.
Proof.
  intros Hk Hd p b' Hp. destruct (tree_kept_lookup t t' p b' Hk Hp) as (b & Hb & [_ _ Kt Kn Kd _]). rewrite Kt, Kn, Kd. by apply (Hd p).
Qed.

(** The genesis block is the only block of height 0. *)
Lemma genesis_height t p b : tree_inv g t → t !! p = Some b → b.(nHeight) = 0 → p = g.
Proof.
  intros Ht Hp Hh. destruct (ti_root _ _ Ht p b Hp) as [n Hn]. destruct n as [|n]; [by injection Hn|].
  cbn [up] in Hn. rewrite Hp in Hn. cbn [mbind option_bind] in Hn. pose proof (ti_wf _ _ Ht p b Hp) as He. unfold entry_ok in He.
  destruct (pprev b); [|done]. destruct He as (bq & _ & ? & ? & _). lia.
Qed.

Lemma tx_data_ok s t : t = s.(cs_tree) → tree_inv g t → index_inv g t → tx_data t → data_ok t.
Proof.
  intros -> Ht Hi Hd p b Hp [Hn|Hh]; [apply (Hd p b Hp); by apply (Hd p b Hp)|].
  pose proof (genesis_height _ p b Ht Hp Hh) as ->. apply (Hd g b Hp), (Hd g b Hp), (ii_genesis _ _ Hi b Hp).
Qed.

(** What the arrival of transactions leaves of the other entries. *)
Definition same_body (b b' : CBlockIndex) : Prop :=
  b'.(phashBlock) = b.(phashBlock) ∧ links b' = links b ∧ b'.(nTx) = b.(nTx) ∧ b'.(nStatus) = b.(nStatus).
Definition tree_rel (R : CBlockIndex → CBlockIndex → Prop) (t t' : BlockTree) : Prop := ∀ p : ptr, option_Forall2 R (t !! p) (t' !! p).

Lemma tree_rel_insert (R : CBlockIndex → CBlockIndex → Prop) t p b b' : Reflexive R → t !! p = Some b → R b b' → tree_rel R t (<[p := b']> t).
Proof.
  intros HR Hp Hk q. destruct (decide (p = q)) as [<-|Hne]; [rewrite lookup_insert_eq, Hp; by constructor|].
  rewrite lookup_insert_ne by done. destruct (t !! q); by constructor.
Qed.
#[local] Instance same_body_preorder : PreOrder same_body.
Proof. split; [by intros b|]. intros b1 b2 b3 (? & ? & ? & ?) (? & ? & ? & ?). split_and!; congruence. Qed.
#[local] Instance tree_rel_preorder R : PreOrder R → PreOrder (tree_rel R).
Proof.
  intros [HR HT]. split; [intros t p; destruct (t !! p); by constructor|]. intros t1 t2 t3 H1 H2 p. specialize (H1 p). specialize (H2 p).
  destruct H1 as [b1 b2 K1|]; inversion H2; constructor. by etrans.
Qed.

Definition has_txs (t : BlockTree) (x : ptr) : Prop := ∃ b, t !! x = Some b ∧ 0 < b.(nTx).

Lemma has_txs_rel t t' x : tree_rel same_body t t' → has_txs t x → has_txs t' x.
Proof.
  intros Ht (b & Hb & Hn). specialize (Ht x). rewrite Hb in Ht. inversion Ht as [? b' (_ & _ & E & _) Eq E2|]; subst.
  exists b'. split; [done|]. by rewrite E.
Qed.

Lemma link_one_body p s s' : link_one p s = Some s' → has_txs s.(cs_tree) p → tx_data s.(cs_tree) →
  tree_rel same_body s.(cs_tree) s'.(cs_tree) ∧ tx_data s'.(cs_tree) ∧ s'.(cs_unlinked) = s.(cs_unlinked).
Proof.
  unfold link_one. intros Hr (b & Hb & Hn) Hd. rewrite Hb in Hr. cbn [mbind option_bind] in Hr.
  destruct (match pprev b with Some q => _ | None => _ end) as [base|]; [|done]. cbn [mbind option_bind] in Hr.
  destruct (SetChainSaplingValue _ _) as [b2|] eqn:E2; [|done]. cbn [mbind option_bind] in Hr.
  destruct (match tip _ with Some t => _ | None => _ end) as [w|]; [|done]. cbn [mbind option_bind] in Hr. injection Hr as <-.
  assert (same_body b b2) as Hs.
  { unfold SetChainSaplingValue in E2. destruct (pprev _); [destruct (cs_tree s !! p0); [|done]|]; injection E2 as <-; by destruct b. }
  enough (tree_rel same_body (cs_tree s) (<[p:=b2]> (cs_tree s)) ∧ tx_data (<[p:=b2]> (cs_tree s))) as [? ?] by by destruct w.
  split; [by apply (tree_rel_insert _ _ _ b); [apply _|..]|].
  intros q c Hq. destruct (decide (p = q)) as [<-|Hne]; [|rewrite lookup_insert_ne in Hq by done; by apply (Hd q)].
  rewrite lookup_insert_eq in Hq. injection Hq as <-. destruct Hs as (_ & _ & Et2 & Es). unfold have_data. rewrite Et2, Es. split; [done|].
  intros _. by apply (Hd p b Hb).
Qed.

Lemma link_blocks_body fuel queue s s' : link_blocks fuel queue s = Some s' → tx_data s.(cs_tree) →
  (∀ x, x ∈ queue ++ s.(cs_unlinked).*2 → has_txs s.(cs_tree) x) →
  tree_rel same_body s.(cs_tree) s'.(cs_tree) ∧ tx_data s'.(cs_tree).
Proof.
  revert queue s. induction fuel as [|fuel IH]; intros [|p queue] s; cbn [link_blocks]; try done; try (by intros [= <-]; split; [reflexivity|]).
  intros Hr Hd Hx. destruct (link_one p s) as [s1|] eqn:E; [|done]. cbn [mbind option_bind] in Hr.
  destruct (link_one_body p s s1 E) as (Hb & Hd1 & Hu); [apply Hx; set_solver|done|].
  apply IH in Hr; cbn; [|done|].
  - destruct Hr as [Hr1 Hr2]. split; [by etrans|done].
  - cbn. intros x Hin. apply (has_txs_rel _ _ _ Hb), Hx. rewrite Hu in Hin. rewrite <- app_assoc in Hin.
    cbn. rewrite !elem_of_cons, !elem_of_app in *. destruct Hin as [Hin|Hin]; [tauto|]. right. right.
    rewrite <- elem_of_app, unlinked_split in Hin. done.
Qed.

(** What an arrival leaves of every entry. *)
Definition same_block (b b' : CBlockIndex) : Prop :=
  b'.(phashBlock) = b.(phashBlock) ∧ links b' = links b ∧ failed b' = failed b ∧ (have_data b = true → have_data b' = true).
#[local] Instance same_block_preorder : PreOrder same_block.
Proof. split; [by intros b|]. intros b1 b2 b3 (? & ? & ? & ?) (? & ? & ? & ?). split_and!; [congruence..|auto]. Qed.

Lemma same_body_block t t' : tree_rel same_body t t' → tree_rel same_block t t'.
Proof.
  intros Ht p. specialize (Ht p). destruct Ht as [b b' (E1 & E2 & _ & E4)|]; constructor. unfold same_block, failed, have_data. by rewrite E1, E2, E4.
Qed.

Lemma raise_failed b n r b' : Z.land n BLOCK_FAILED_MASK = 0 → RaiseValidity b n = Some (r, b') → failed b' = failed b.
Proof.
  intros Hn. unfold RaiseValidity. destruct (negb (Z.land n _ =? 0)); [done|]. destruct (negb _); [by intros [= <- <-]|].
  destruct (_ <? n); [|by intros [= <- <-]]. intros [= <- <-]. unfold failed. rewrite (proj1 (set_nStatus_fields b _)).
  rewrite Z.land_lor_distr_l, Hn, Z.lor_0_r, <- Z.land_assoc. by change (Z.land (u32 (Z.lnot BLOCK_VALID_MASK)) BLOCK_FAILED_MASK) with BLOCK_FAILED_MASK.
Qed.

Lemma ReceivedBlockTransactions_body vtx p file pos s s' b :
  ReceivedBlockTransactions vtx p file pos s = Some s' → s.(cs_tree) !! p = Some b → vtx ≠ [] → Z.of_nat (length vtx) < 2 ^ 32 →
  tx_data s.(cs_tree) → (∀ x, x ∈ s.(cs_unlinked).*2 → has_txs s.(cs_tree) x) →
  tree_rel same_block s.(cs_tree) s'.(cs_tree) ∧ tx_data s'.(cs_tree) ∧ ∃ b', s'.(cs_tree) !! p = Some b' ∧ have_data b' = true.
Proof.
  unfold ReceivedBlockTransactions. intros Hr Hb Hv Hl Hd Hu. rewrite Hb in Hr. cbn [mbind option_bind] in Hr.
  destruct (RaiseValidity _ _) as [[r b1]|] eqn:E; [|done]. cbn [mbind option_bind] in Hr.
  assert (0 < Z.of_nat (length vtx)) as Hpos by (destruct vtx; [done|cbn; lia]).
  destruct (set_received_fields b vtx file pos) as (F1 & F2 & F3 & F4 & F5). rewrite u32_id in F3 by mlia.
  assert (phashBlock (set_received b vtx file pos) = phashBlock b) as F6 by (unfold set_received; destruct (Block_IsProofOfStake vtx), b; done).
  pose proof (kept_raise _ _ _ _ ltac:(right; done) E) as [Kl Kh Kt Kn Kd _]. apply raise_failed in E as Ef; [|done].
  set (t1 := <[p:=b1]> (cs_tree s)) in *. set (s1 := with_tree t1 s) in *.
  assert (tree_rel same_block s.(cs_tree) t1) as Hr1 by (apply (tree_rel_insert _ _ _ b); [apply _|done|split_and!; congruence]).
  assert (tx_data t1) as Hd1.
  { intros q c Hq. unfold t1 in Hq. destruct (decide (p = q)) as [<-|Hne]; [|rewrite lookup_insert_ne in Hq by done; by apply (Hd q)].
    rewrite lookup_insert_eq in Hq. injection Hq as <-. rewrite Kt, Kd, F3, F5. by split. }
  assert (t1 !! p = Some b1) as Hp1 by apply lookup_insert_eq.
  assert (∀ x, has_txs s.(cs_tree) x → has_txs t1 x) as Hmono.
  { intros x (c & Hc & Hn). destruct (decide (p = x)) as [<-|Hne]; [exists b1; split; [done|]; rewrite Kt, F3; lia|].
    exists c. unfold t1. by rewrite lookup_insert_ne. }
  assert (∀ s2, link_blocks (length s1.(cs_unlinked) + 1) [p] s1 = Some s2 →
    tree_rel same_block s.(cs_tree) s2.(cs_tree) ∧ tx_data s2.(cs_tree) ∧ ∃ b', s2.(cs_tree) !! p = Some b' ∧ have_data b' = true) as Hlink.
  { intros s2 H2. apply link_blocks_body in H2 as [H2 H3]; [|done|].
    - split; [by etrans; [|apply same_body_block]|]. split; [done|]. apply same_body_block in H2. specialize (H2 p). cbn in H2. rewrite Hp1 in H2.
      inversion H2 as [? b' (_ & _ & _ & Hdat) Eq E2|]; subst. exists b'. split; [done|]. apply Hdat. congruence.
    - intros x Hx. cbn in Hx. apply elem_of_cons in Hx as [->|Hx]; [exists b1; split; [done|]; rewrite Kt, F3; lia|]. apply Hmono, Hu, Hx. }
  assert (∃ b', t1 !! p = Some b' ∧ have_data b' = true) as Hdat by (exists b1; split; [done|congruence]).
  destruct (pprev b1) as [q|]; [|by apply Hlink]. destruct (cs_tree s1 !! q) as [bq|]; [|done]. cbn [mbind option_bind] in Hr.
  destruct (negb (nChainTx bq =? 0)); [by apply Hlink|]. destruct (IsValid bq BLOCK_VALID_TREE) as [v|]; [|done]. cbn [mbind option_bind] in Hr.
  injection Hr as <-. by destruct v.
Qed.
End receiving.

(** ** A new entry *)

Section leaf.
Context (t : BlockTree) (x : ptr) (b : CBlockIndex) (Hwf : wf_tree t) (Hx : t !! x = None).
Local Notation t' := (<[x := b]> t).

Lemma leaf_lookup y c : t !! y = Some c → t' !! y = Some c.
Proof using Hx. intros Hy. rewrite lookup_insert_ne; [done|congruence]. Qed.
Lemma leaf_up y c n : t !! y = Some c → up t' y n = up t y n.
Proof using Hwf Hx. intros Hy. by apply (up_insert_fresh t x b y c). Qed.
Lemma leaf_ancestor y c z : t !! y = Some c → is_ancestor t' y z ↔ is_ancestor t y z.
Proof using Hwf Hx. intros Hy. unfold is_ancestor. by setoid_rewrite (leaf_up y c _ Hy). Qed.
Lemma ancestor_dom y c z : t !! y = Some c → is_ancestor t y z → ∃ d, t !! z = Some d.
Proof using Hwf.
  intros Hy [n Hn]. revert y c Hy Hn. induction n as [|n IH]; intros y c Hy Hn; cbn [up] in Hn; [injection Hn as <-; eauto|].
  rewrite Hy in Hn. cbn [mbind option_bind] in Hn. destruct (pprev c) as [q|] eqn:Eq; [|done]. cbn [mbind option_bind] in Hn.
  pose proof (Hwf y c Hy) as He. unfold entry_ok in He. rewrite Eq in He. destruct He as (bq & Hq & _). by apply (IH q bq).
Qed.
Lemma leaf_old y c z : t !! y = Some c → is_ancestor t' y z → is_ancestor t y z ∧ ∃ d, t !! z = Some d ∧ t' !! z = Some d.
Proof using Hwf Hx.
  intros Hy Hz. apply (leaf_ancestor y c z Hy) in Hz. split; [done|]. destruct (ancestor_dom y c z Hy Hz) as [d Hd]. exists d.
  split; [done|by apply leaf_lookup].
Qed.

Lemma leaf_ready y c : t !! y = Some c → ready t' y ↔ ready t y.
Proof using Hwf Hx.
  intros Hy. split; intros Hr z Hz.
  - destruct (ancestor_dom y c z Hy Hz) as [d Hd]. destruct (Hr z) as (d' & Hd' & Hu); [by apply (leaf_ancestor y c)|].
    rewrite (leaf_lookup z d Hd) in Hd'. injection Hd' as <-. eauto.
  - destruct (leaf_old y c z Hy Hz) as (Hz' & d & Hd & Hd'). destruct (Hr z Hz') as (d0 & Hd0 & Hu). simplify_eq. eauto.
Qed.
Lemma leaf_linked y c : t !! y = Some c → linked t' y ↔ linked t y.
Proof using Hwf Hx.
  intros Hy. split; intros Hr z d Hz Hd.
  - apply (Hr z d); [by apply (leaf_ancestor y c)|by apply leaf_lookup].
  - destruct (leaf_old y c z Hy Hz) as (Hz' & d0 & Hd0 & Hd'). simplify_eq. by apply (Hr z).
Qed.
Lemma leaf_validated y c : t !! y = Some c → validated t y → validated t' y.
Proof using Hwf Hx.
  intros Hy Hr z d Hz Hd. destruct (leaf_old y c z Hy Hz) as (Hz' & d0 & Hd0 & Hd'). simplify_eq. by apply (Hr z).
Qed.
Lemma leaf_worse y c z d : t !! y = Some c → t !! z = Some d → worse t' y z ↔ worse t y z.
Proof using Hx. intros Hy Hz. unfold worse, work_less. by rewrite (leaf_lookup y c Hy), (leaf_lookup z d Hz), Hy, Hz. Qed.

Lemma leaf_tree_inv g q bq : tree_inv g t → entry_ok t b → b.(pprev) = Some q → t !! q = Some bq → wf 8 b.(nChainWork) →
  val bq.(nChainWork) < val b.(nChainWork) → tree_inv g t'.
Proof using Hwf Hx.
  intros [_ T2 T3 T4] He Hq Hbq Hw Hlt. split.
  - by apply wf_tree_insert.
  - intros p c Hp. destruct (decide (x = p)) as [<-|Hne]; [rewrite lookup_insert_eq in Hp; by simplify_eq|].
    rewrite lookup_insert_ne in Hp by done. eauto.
  - intros p c r br Hp Hr Hbr. destruct (decide (x = p)) as [<-|Hne].
    + rewrite lookup_insert_eq in Hp. injection Hp as <-. rewrite Hq in Hr. injection Hr as <-. rewrite (leaf_lookup q bq Hbq) in Hbr. by injection Hbr as <-.
    + rewrite lookup_insert_ne in Hp by done. pose proof (Hwf p c Hp) as Hc. unfold entry_ok in Hc. rewrite Hr in Hc. destruct Hc as (br' & Hbr' & _).
      rewrite (leaf_lookup r br' Hbr') in Hbr. injection Hbr as <-. by apply (T3 p c r br').
  - intros p c Hp. destruct (decide (x = p)) as [<-|Hne].
    + destruct (T4 q bq Hbq) as [n Hn]. exists (S n). cbn [up]. rewrite lookup_insert_eq. cbn [mbind option_bind]. rewrite Hq.
      cbn [mbind option_bind]. by rewrite (leaf_up q bq n Hbq).
    + rewrite lookup_insert_ne in Hp by done. apply (leaf_ancestor p c g Hp). by apply (T4 p c).
Qed.
End leaf.

Section new_leaf.
Context {S : Type} `{!ChainCoins S, !ChainCoinsLaws S} (g : ptr) (s : ChainState S) (tp : ptr) (x : ptr) (b : CBlockIndex) (q : ptr) (bq : CBlockIndex).
Context (Hx : s.(cs_tree) !! x = None) (He : entry_ok s.(cs_tree) b) (Hq : b.(pprev) = Some q) (Hbq : s.(cs_tree) !! q = Some bq).
Context (Hw : wf 8 b.(nChainWork)) (Hlt : val bq.(nChainWork) < val b.(nChainWork)).
Let s' := with_tree (<[x := b]> s.(cs_tree)) s.

Lemma leaf_core : chain_core g s tp → chain_core g s' tp.
Proof using Hx He Hq Hbq Hw Hlt.
  intros Hc. pose proof Hc as [C1 C2 C3 C4 C5 C6 C7 C8]. pose proof (ti_wf _ _ C1) as Hwf. destruct (core_lookup g s tp Hc) as (bt & Hbt & _). split; cbn.
  - by eapply leaf_tree_inv.
  - destruct C2 as (bt' & Hbt' & Hl & Hi). exists bt'. split; [by apply leaf_lookup|]. split; [done|]. intros i Hi'.
    rewrite (leaf_up _ _ _ Hwf Hx tp bt' _ Hbt'). by apply Hi.
  - by apply (leaf_ready _ _ _ Hwf Hx tp bt).
  - by apply (leaf_linked _ _ _ Hwf Hx tp bt).
  - by apply (leaf_validated _ _ _ Hwf Hx tp bt).
  - intros p Hp. destruct (C6 p Hp) as [[c Hc']%elem_of_dom Hl]. split; [apply elem_of_dom; exists c; by apply leaf_lookup|].
    by apply (leaf_linked _ _ _ Hwf Hx p c).
  - intros p Hp. specialize (C7 p Hp). rewrite dom_insert_L. set_solver.
  - done.
Qed.

(** A header that is added to the index keeps the invariant: it has no
    transactions yet, so it is not a candidate. *)
Lemma leaf_chain_inv hw : b.(nChainTx) = 0 → chain_inv g s tp hw → chain_inv g s' tp hw.
Proof using Hx He Hq Hbq Hw Hlt.
  intros Hn [[Hc Hso Hcm (A1 & A2 & A3)] Hab]. pose proof (ti_wf _ _ (cc_tree _ _ _ Hc)) as Hwf.
  destruct (core_lookup g s tp Hc) as (bt & Hbt & _). pose proof A1 as [bh Hbh]%elem_of_dom.
  assert (∀ y c z d, cs_tree s !! y = Some c → cs_tree s !! z = Some d → at_least (cs_tree s') y z ↔ at_least (cs_tree s) y z) as Hal.
  { intros y c z d Hy Hz. unfold at_least. cbn. by rewrite (leaf_worse _ _ _ Hx z d y c Hz Hy). }
  split; [split|].
  - by apply leaf_core.
  - intros p Hp. cbn. destruct (cc_candidates _ _ _ Hc p Hp) as [[c Hc']%elem_of_dom Hl]. rewrite (leaf_worse _ _ _ Hx p c tp bt) by done. by apply Hso.
  - intros p Hr Hl Ha Ht. assert (p ≠ x) as Hpx.
    { intros ->. unfold entry_ok in He. rewrite Hq in He. destruct He as (? & _ & ? & ? & _).
      destruct (Hl x b (is_ancestor_refl _ _)) as [|]; [apply lookup_insert_eq|done|lia]. }
    destruct (ready_lookup _ _ Hr) as (c & Hc' & _). cbn in Hc'. rewrite lookup_insert_ne in Hc' by done.
    apply (leaf_ready _ _ _ Hwf Hx p c Hc') in Hr. apply (leaf_linked _ _ _ Hwf Hx p c Hc') in Hl.
    apply (Hal p c hw bh Hc' Hbh) in Ha. apply (Hal p c tp bt Hc' Hbt) in Ht. exact (Hcm p Hr Hl Ha Ht).
  - cbn. split_and!; [rewrite dom_insert_L; set_solver|by apply (leaf_linked _ _ _ Hwf Hx hw bh)|by apply (leaf_validated _ _ _ Hwf Hx hw bh)].
  - by apply (Hal hw bh tp bt Hbh Hbt).
Qed.

Lemma leaf_receiving M H hw : receiving g M H s tp hw → b.(nChainTx) = 0 → b.(nTx) = 0 → 0 <= M → b.(nHeight) <= H →
  receiving g M H s' tp hw.
Proof using Hx He Hq Hbq Hw Hlt.
  intros [Hinv [I1 I2 I3] [T1 T2] [U1 U2]] Hn Ht HM Hh. pose proof (ci_core _ _ _ _ Hinv) as Hc. pose proof (cc_tree _ _ _ Hc) as C1.
  pose proof (ti_wf _ _ C1) as Hwf. destruct (core_lookup g s tp Hc) as (bt & Hbt & _).
  assert (0 < b.(nHeight)) as Hpos by (unfold entry_ok in He; rewrite Hq in He; destruct He as (? & _ & ? & ? & _); lia).
  split; cbn.
  - by apply leaf_chain_inv.
  - split.
    + intros p c Hp. destruct (decide (x = p)) as [<-|Hne]; [rewrite lookup_insert_eq in Hp; by simplify_eq|].
      rewrite lookup_insert_ne in Hp by done. by apply (I1 p).
    + intros p c r br Hp. destruct (decide (x = p)) as [<-|Hne]; [rewrite lookup_insert_eq in Hp; by simplify_eq|].
      rewrite lookup_insert_ne in Hp by done. intros Hnc Hr Hbr. pose proof (Hwf p c Hp) as Hcok. unfold entry_ok in Hcok. rewrite Hr in Hcok.
      destruct Hcok as (br' & Hbr' & _). rewrite (leaf_lookup _ _ _ Hx r br' Hbr') in Hbr. injection Hbr as <-. by apply (I2 p c r br').
    + intros c Hc'. destruct (ti_root _ _ C1 tp bt Hbt) as [n Hn'].
      destruct (ancestor_dom _ Hwf tp bt g Hbt (ex_intro _ n Hn')) as [d Hd]. rewrite (leaf_lookup _ _ _ Hx g d Hd) in Hc'. injection Hc' as <-. by apply I3.
  - split; [done|]. intros p c Hp. destruct (decide (x = p)) as [<-|Hne]; [|rewrite lookup_insert_ne in Hp by done; by apply (T2 p)].
    rewrite lookup_insert_eq in Hp. injection Hp as <-. rewrite Hn, Ht. split; [lia|]. split; [nia|done].
  - split; cbn; [|done]. intros a y Hay. destruct (U1 a y Hay) as [(c & Hy & Hrest) (d & Ha & Hz)]. split.
    + exists c. split; [by apply leaf_lookup|done].
    + exists d. split; [by apply leaf_lookup|done].
Qed.
End new_leaf.
