(* ===== verification/Standard.v ===== *)
(** * Standard: the standard output scripts ([script/standard.cpp], [pubkey.h])

    [Solver] tells the kind of an output script and what it pays to; the
    [GetScriptFor] functions build such scripts.  [None] is the result [false]
    of a function, or a failing assertion where the function has no such
    result. *)

From S2P Require Import Prelude ArithUint256 Params Script Interpreter.
Local Open Scope Z_scope.

(** ** Public keys *)

Definition PUBLIC_KEY_SIZE : Z := 65.
Definition COMPRESSED_PUBLIC_KEY_SIZE : Z := 33.

Definition GetLen (chHeader : Z) : Z :=
  if (chHeader =? 2) || (chHeader =? 3) then COMPRESSED_PUBLIC_KEY_SIZE
  else if (chHeader =? 4) || (chHeader =? 6) || (chHeader =? 7) then PUBLIC_KEY_SIZE
  else 0.

Definition ValidSize (vch : valtype) : bool :=
  match vch with [] => false | b :: _ => GetLen b =? size vch end.

(** [CPubKey(vch)]; [None] is an invalid key. *)
Definition CPubKey_of (vch : valtype) : option valtype := if ValidSize vch then Some vch else None.

(** ** [Solver] *)

Inductive txnouttype :=
  | TX_NONSTANDARD | TX_PUBKEY | TX_PUBKEYHASH | TX_SCRIPTHASH | TX_MULTISIG | TX_NULL_DATA | TX_COLDSTAKE
  | TX_ASSETSMINT | TX_DPOSASSETMINT.
#[export] Instance txnouttype_eq_dec : EqDecision txnouttype.
Proof. solve_decision. Defined.

(** The bytes of the script from [a] to before [b]. *)
Definition slice (a b : nat) (s : CScript) : valtype := take (b - a) (drop a s).

Definition MatchPayToPubkey (script : CScript) : option valtype :=
  if (size script =? PUBLIC_KEY_SIZE + 2) && at_ script 0 PUBLIC_KEY_SIZE && (back script =? OP_CHECKSIG) then
    let pubkey := slice 1 (Z.to_nat (PUBLIC_KEY_SIZE + 1)) script in if ValidSize pubkey then Some pubkey else None
  else if (size script =? COMPRESSED_PUBLIC_KEY_SIZE + 2) && at_ script 0 COMPRESSED_PUBLIC_KEY_SIZE && (back script =? OP_CHECKSIG) then
    let pubkey := slice 1 (Z.to_nat (COMPRESSED_PUBLIC_KEY_SIZE + 1)) script in if ValidSize pubkey then Some pubkey else None
  else None.

Definition MatchPayToPubkeyHash (script : CScript) : option valtype :=
  if (size script =? 25) && at_ script 0 OP_DUP && at_ script 1 OP_HASH160 && at_ script 2 20 && at_ script 23 OP_EQUALVERIFY
     && at_ script 24 OP_CHECKSIG
  then Some (slice 3 23 script) else None.

Definition MatchPayToColdStaking (g_newP2CSRules : bool) (script : CScript) : option (valtype * valtype) :=
  if IsPayToColdStaking g_newP2CSRules script then Some (slice 6 26 script, slice 28 48 script) else None.

Definition MatchPayToDposAssets (script : CScript) : option (valtype * valtype) :=
  if IsPayAssetDposScript script then Some (slice 6 26 script, slice 28 48 script) else None.

Definition IsSmallInteger (opcode : Z) : bool := (OP_1 <=? opcode) && (opcode <=? OP_16).

(** The loop over the keys: the keys, the opcode that ended the loop
    ([OP_INVALIDOPCODE] when [GetOp] failed) and the rest of the script. *)
Fixpoint multisig_keys (fuel : nat) (it : CScript) (pubkeys : list valtype) : option (list valtype * Z * CScript) :=
  match GetOp2 it with
  | None => Some (pubkeys, OP_INVALIDOPCODE, it)
  | Some (opcode, data, it) =>
      if ValidSize data then
        match fuel with O => None | S fuel => multisig_keys fuel it (pubkeys ++ [data]) end
      else Some (pubkeys, opcode, it)
  end.

(** [std::nullopt] becomes [None]; the keys are shorter than the script, which
    bounds the rounds. *)
Definition MatchMultisig (script : CScript) : option (Z * list valtype) :=
  if (size script <? 1) || negb (back script =? OP_CHECKMULTISIG) then None
  else
    '(opcode, _, it) ← GetOp2 script;
    if negb (IsSmallInteger opcode) then None
    else
      required ← DecodeOP_N opcode;
      '(pubkeys, opcode, it) ← multisig_keys (length script) it [];
      if negb (IsSmallInteger opcode) then None
      else
        keys ← DecodeOP_N opcode;
        if negb (size pubkeys =? keys) || (keys <? required) then None
        else if size it =? 1 then Some (required, pubkeys) else None.

(** Without the unset results of a failing call. *)
Definition Solver (g_newP2CSRules : bool) (scriptPubKey : CScript) : option (txnouttype * list valtype) :=
  if bool_decide (scriptPubKey = []) then None
  else if IsPayToScriptHash scriptPubKey then Some (TX_SCRIPTHASH, [slice 2 22 scriptPubKey])
  else if IsPayAssetScriptHash scriptPubKey then Some (TX_ASSETSMINT, [slice 4 24 scriptPubKey])
  else if (1 <=? size scriptPubKey) && at_ scriptPubKey 0 OP_RETURN && IsPushOnly (drop 1 scriptPubKey) then Some (TX_NULL_DATA, [])
  else match MatchPayToPubkey scriptPubKey with
  | Some data => Some (TX_PUBKEY, [data])
  | None =>
  match MatchPayToPubkeyHash scriptPubKey with
  | Some data => Some (TX_PUBKEYHASH, [data])
  | None =>
  match MatchPayToColdStaking g_newP2CSRules scriptPubKey with
  | Some (data, data1) => Some (TX_COLDSTAKE, [data; data1])
  | None =>
  match MatchPayToDposAssets scriptPubKey with
  | Some (data, data1) => Some (TX_DPOSASSETMINT, [data; data1])
  | None =>
  match MatchMultisig scriptPubKey with
  | Some (required, keys) => Some (TX_MULTISIG, [[u8 required]] ++ keys ++ [[u8 (size keys)]])
  | None => None
  end end end end end.

Definition ScriptSigArgsExpected (t : txnouttype) (vSolutions : list valtype) : Z :=
  match t with
  | TX_NONSTANDARD | TX_NULL_DATA => -1
  | TX_PUBKEY => 1
  | TX_ASSETSMINT | TX_PUBKEYHASH => 2
  | TX_COLDSTAKE | TX_DPOSASSETMINT => 3
  | TX_MULTISIG => match vSolutions with (b :: _) :: _ => b + 1 | _ => -1 end
  | TX_SCRIPTHASH => 1
  end.

(** ** Destinations *)

Inductive CTxDestination := CNoDestination | CKeyID (h : valtype) | CScriptID (h : valtype).
#[export] Instance CTxDestination_eq_dec : EqDecision CTxDestination.
Proof. solve_decision. Defined.

Section destinations.
Context `{ScriptCrypto}.

Definition GetID (pubkey : valtype) : valtype := Hash160 pubkey.

Definition ExtractDestination (g_newP2CSRules : bool) (scriptPubKey : CScript) (fColdStake : bool) : option CTxDestination :=
  '(whichType, vSolutions) ← Solver g_newP2CSRules scriptPubKey;
  match whichType with
  | TX_PUBKEY => s ← vSolutions !! 0%nat; pubKey ← CPubKey_of s; Some (CKeyID (GetID pubKey))
  | TX_PUBKEYHASH | TX_ASSETSMINT => s ← vSolutions !! 0%nat; Some (CKeyID s)
  | TX_SCRIPTHASH => s ← vSolutions !! 0%nat; Some (CScriptID s)
  | TX_COLDSTAKE | TX_DPOSASSETMINT => s ← vSolutions !! (if fColdStake then 0 else 1)%nat; Some (CKeyID s)
  | _ => None
  end.

(** The type, the addresses and [nRequiredRet]. *)
Definition ExtractDestinations (g_newP2CSRules : bool) (scriptPubKey : CScript) : option (txnouttype * list CTxDestination * Z) :=
  '(typeRet, vSolutions) ← Solver g_newP2CSRules scriptPubKey;
  match typeRet with
  | TX_NULL_DATA => None
  | TX_COLDSTAKE | TX_DPOSASSETMINT =>
      match vSolutions with
      | s0 :: s1 :: _ => Some (typeRet, [CKeyID s0; CKeyID s1], 2)
      | _ => None
      end
  | _ => address ← ExtractDestination g_newP2CSRules scriptPubKey false; Some (typeRet, [address], 1)
  end.

Definition GetScriptForDestination (dest : CTxDestination) : CScript :=
  match dest with
  | CNoDestination => []
  | CKeyID keyID => [OP_DUP; OP_HASH160] ++ push_data keyID ++ [OP_EQUALVERIFY; OP_CHECKSIG]
  | CScriptID scriptID => [OP_HASH160] ++ push_data scriptID ++ [OP_EQUAL]
  end.
Definition GetScriptForRawPubKey (pubKey : valtype) : CScript := push_data pubKey ++ [OP_CHECKSIG].
Definition GetScriptForStakeDelegation (stakingKey spendingKey : valtype) : CScript :=
  [OP_DUP; OP_HASH160; OP_ROT; OP_IF; OP_CHECKCOLDSTAKEVERIFY] ++ push_data stakingKey ++
  [OP_ELSE] ++ push_data spendingKey ++ [OP_ENDIF; OP_EQUALVERIFY; OP_CHECKSIG].
Definition GetScriptForMultiminingDestination (ownerKey : valtype) : CScript :=
  [OP_DUP; OP_HASH160; OP_ASSETSMINT] ++ push_data ownerKey ++ [OP_EQUALVERIFY; OP_CHECKSIG].
Definition GetScriptForAssetsDposDestination (owner staker : valtype) : CScript :=
  [OP_DUP; OP_HASH160; OP_ROT; OP_IF; OP_DPOSASSETSMINT] ++ push_data staker ++
  [OP_ELSE] ++ push_data owner ++ [OP_ENDIF; OP_EQUALVERIFY; OP_CHECKSIG].
Definition GetScriptForMultisig (nRequired : Z) (keys : list valtype) : option CScript :=
  m ← EncodeOP_N nRequired; n ← EncodeOP_N (size keys);
  Some ([m] ++ concat (push_data <$> keys) ++ [n; OP_CHECKMULTISIG]).
Definition GetScriptForOpReturn (message : valtype) : CScript := [OP_RETURN] ++ push_data message.
Definition IsValidDestination (dest : CTxDestination) : bool := match dest with CNoDestination => false | _ => true end.
End destinations.

(** ** Templates are recognised *)

Lemma list_20 (h : valtype) : length h = 20%nat →
  ∃ a b c d e f g i j k l m n o p q r s t u, h = [a; b; c; d; e; f; g; i; j; k; l; m; n; o; p; q; r; s; t; u].
Proof. intros E. do 20 (destruct h as [|? h]; [done|]). destruct h; [|done]. repeat eexists. Qed.

Lemma Solver_script_hash r h : length h = 20%nat →
  Solver r (GetScriptForDestination (CScriptID h)) = Some (TX_SCRIPTHASH, [h]).
Proof.
  intros E. cbn [GetScriptForDestination]. rewrite push_data_20 by done.
  destruct (list_20 h E) as (?&?&?&?&?&?&?&?&?&?&?&?&?&?&?&?&?&?&?&?&->). reflexivity.
Qed.
Lemma Solver_key_hash r h : length h = 20%nat → Solver r (GetScriptForDestination (CKeyID h)) = Some (TX_PUBKEYHASH, [h]).
Proof.
  intros E. cbn [GetScriptForDestination]. rewrite push_data_20 by done.
  destruct (list_20 h E) as (?&?&?&?&?&?&?&?&?&?&?&?&?&?&?&?&?&?&?&?&->). reflexivity.
Qed.
Lemma Solver_multimining r h : length h = 20%nat → Solver r (GetScriptForMultiminingDestination h) = Some (TX_ASSETSMINT, [h]).
Proof.
  intros E. unfold GetScriptForMultiminingDestination. rewrite push_data_20 by done.
  destruct (list_20 h E) as (?&?&?&?&?&?&?&?&?&?&?&?&?&?&?&?&?&?&?&?&->). reflexivity.
Qed.
Lemma Solver_stake_delegation r h h' : length h = 20%nat → length h' = 20%nat →
  Solver r (GetScriptForStakeDelegation h h') = Some (TX_COLDSTAKE, [h; h']).
Proof.
  intros E E'. unfold GetScriptForStakeDelegation. rewrite !push_data_20 by done.
  destruct (list_20 h E) as (?&?&?&?&?&?&?&?&?&?&?&?&?&?&?&?&?&?&?&?&->).
  destruct (list_20 h' E') as (?&?&?&?&?&?&?&?&?&?&?&?&?&?&?&?&?&?&?&?&->). destruct r; reflexivity.
Qed.
Lemma Solver_assets_dpos r h h' : length h = 20%nat → length h' = 20%nat →
  Solver r (GetScriptForAssetsDposDestination h h') = Some (TX_DPOSASSETMINT, [h'; h]).
Proof.
  intros E E'. unfold GetScriptForAssetsDposDestination. rewrite !push_data_20 by done.
  destruct (list_20 h E) as (?&?&?&?&?&?&?&?&?&?&?&?&?&?&?&?&?&?&?&?&->).
  destruct (list_20 h' E') as (?&?&?&?&?&?&?&?&?&?&?&?&?&?&?&?&?&?&?&?&->). destruct r; reflexivity.
Qed.

Lemma at_last s b x i : length s = i → at_ (s ++ [b]) i x = (b =? x).
Proof. intros <-. unfold at_. by rewrite app_nth2, Nat.sub_diag by lia. Qed.

(** A template of a fixed size whose last byte does not match. *)
Ltac by_end H :=
  let E := fresh in
  pose proof H as E; apply andb_false_iff in E as [E|E];
  [rewrite E; reflexivity|rewrite E; apply andb_false_r].

(** The templates of fixed size end with [OP_CHECKSIG] or [OP_EQUAL]. *)
Lemma templates_end r s b : b ≠ OP_CHECKSIG → b ≠ OP_EQUAL →
  IsPayToScriptHash (s ++ [b]) = false ∧ IsPayAssetScriptHash (s ++ [b]) = false ∧ MatchPayToPubkey (s ++ [b]) = None ∧
  MatchPayToPubkeyHash (s ++ [b]) = None ∧ MatchPayToColdStaking r (s ++ [b]) = None ∧ MatchPayToDposAssets (s ++ [b]) = None.
Proof.
  intros H1 H2. apply Z.eqb_neq in H1, H2.
  assert (∀ n z x, z = Z.of_nat (S n) → (b =? x) = false → (size (s ++ [b]) =? z) && at_ (s ++ [b]) n x = false) as Hat.
  { intros n z x -> Hx. destruct (Z.eqb_spec (size (s ++ [b])) (Z.of_nat (S n))) as [E|]; [|done]. rewrite length_app in E. cbn in E.
    rewrite at_last by lia. done. }
  assert (IsPayToScriptHash (s ++ [b]) = false ∧ IsPayAssetScriptHash (s ++ [b]) = false ∧ IsPayToColdStaking r (s ++ [b]) = false ∧
    IsPayAssetDposScript (s ++ [b]) = false) as (E1 & E2 & E3 & E4).
  { unfold IsPayToScriptHash, IsPayAssetScriptHash, IsPayToColdStaking, IsPayAssetDposScript.
    split_and!; [by_end (Hat 22%nat 23 OP_EQUAL eq_refl H2)|by_end (Hat 25%nat 26 OP_CHECKSIG eq_refl H1)|by_end (Hat 50%nat 51 OP_CHECKSIG eq_refl H1)..]. }
  unfold MatchPayToPubkey, MatchPayToPubkeyHash, MatchPayToColdStaking, MatchPayToDposAssets. rewrite E1, E2, E3, E4, back_snoc, H1, !andb_false_r.
  split_and!; try done. match goal with |- (if ?c then _ else _) = _ => assert (c = false) as -> end; [|done].
  by_end (Hat 24%nat 25 OP_CHECKSIG eq_refl H1).
Qed.

Lemma ValidSize_length k : ValidSize k = true → size k = 33 ∨ size k = 65.
Proof.
  unfold ValidSize. destruct k as [|b k]; [done|]. unfold GetLen, COMPRESSED_PUBLIC_KEY_SIZE, PUBLIC_KEY_SIZE.
  destruct (_ || _); [lia|]. destruct (_ || _); [lia|]. cbn [length]. lia.
Qed.

Lemma Solver_raw_pubkey r k : ValidSize k = true → Solver r (GetScriptForRawPubKey k) = Some (TX_PUBKEY, [k]).
Proof.
  intros Hv. unfold GetScriptForRawPubKey. pose proof (ValidSize_length k Hv) as Hl.
  assert (push_data k = size k :: k) as ->.
  { unfold push_data, OP_PUSHDATA1. rewrite (proj2 (Z.ltb_lt _ _)) by lia. by rewrite u8_id by mlia. }
  assert (slice 1 (Z.to_nat (size k + 1)) ((size k :: k) ++ [OP_CHECKSIG]) = k) as Hs.
  { unfold slice. cbn [app drop]. rewrite drop_0. apply take_app_length'. lia. }
  assert (size ((size k :: k) ++ [OP_CHECKSIG]) = size k + 2) as Hsz by (rewrite length_app; cbn [length]; lia).
  unfold Solver, IsPayToScriptHash, IsPayAssetScriptHash. rewrite bool_decide_false by done. rewrite Hsz.
  rewrite (proj2 (Z.eqb_neq (size k + 2) 23)), (proj2 (Z.eqb_neq (size k + 2) 26)) by lia. cbn [andb].
  assert (at_ ((size k :: k) ++ [OP_CHECKSIG]) 0 OP_RETURN = false) as -> by (unfold at_, OP_RETURN; cbn [nth app]; lia).
  rewrite andb_false_r. cbn [andb].
  assert (MatchPayToPubkey ((size k :: k) ++ [OP_CHECKSIG]) = Some k) as ->; [|done].
  unfold MatchPayToPubkey. rewrite Hsz, back_snoc. unfold at_, PUBLIC_KEY_SIZE, COMPRESSED_PUBLIC_KEY_SIZE. cbn [nth app] in Hs |- *.
  destruct Hl as [E|E]; rewrite E in *; cbn [Z.eqb Pos.eqb Z.add Pos.add Pos.succ andb]; by rewrite Hs, Hv.
Qed.

Lemma multisig_keys_spec fuel keys acc n : Forall (λ k, ValidSize k = true) keys → (length keys <= fuel)%nat → OP_PUSHDATA4 < n →
  multisig_keys fuel (concat (push_data <$> keys) ++ [n; OP_CHECKMULTISIG]) acc = Some (acc ++ keys, n, [OP_CHECKMULTISIG]).
Proof.
  intros Hk. revert fuel acc. induction Hk as [|k keys Hv _ IH]; intros fuel acc Hf Hn; cbn in Hf.
  - destruct fuel; cbn [multisig_keys fmap list_fmap concat app GetOp2]; rewrite (proj2 (Z.leb_gt n OP_PUSHDATA4)) by done;
      cbn [ValidSize]; by rewrite app_nil_r.
  - destruct fuel as [|fuel]; [lia|]. cbn [multisig_keys fmap list_fmap concat].
    rewrite <- app_assoc, push_GetOp2 by (pose proof (ValidSize_length k Hv); lia). cbv iota beta. rewrite Hv, IH by (done || lia).
    by rewrite <- app_assoc.
Qed.

Lemma length_pushes keys : (length keys <= length (concat (push_data <$> keys)))%nat.
Proof.
  induction keys as [|k keys IH]; [done|]. cbn. rewrite length_app.
  assert (1 <= length (push_data k))%nat; [|lia]. unfold push_data. rewrite length_app. repeat case_match; cbn; lia.
Qed.

(** [OP_1] to [OP_16]. *)
Lemma small_integer n : 1 <= n <= 16 →
  EncodeOP_N n = Some (OP_1 + n - 1) ∧ IsSmallInteger (OP_1 + n - 1) = true ∧ DecodeOP_N (OP_1 + n - 1) = Some n ∧
  OP_PUSHDATA4 < OP_1 + n - 1 ∧ (OP_1 + n - 1 =? OP_RETURN) = false.
Proof.
  intros Hn. unfold EncodeOP_N, IsSmallInteger, DecodeOP_N, OP_1, OP_16, OP_0, OP_PUSHDATA4, OP_RETURN.
  rewrite (proj2 (Z.leb_le 0 n)), (proj2 (Z.leb_le n 16)), (proj2 (Z.eqb_neq n 0)) by lia.
  rewrite (proj2 (Z.leb_le 0x51 (0x51 + n - 1))), (proj2 (Z.leb_le (0x51 + n - 1) 0x60)), (proj2 (Z.eqb_neq (0x51 + n - 1) 0)) by lia.
  split_and!; [done|done| |lia|lia]. cbn [andb]. f_equal. lia.
Qed.

Lemma MatchMultisig_script m keys : 1 <= m <= size keys → size keys <= 16 → Forall (λ k, ValidSize k = true) keys →
  MatchMultisig ([OP_1 + m - 1] ++ concat (push_data <$> keys) ++ [OP_1 + size keys - 1; OP_CHECKMULTISIG]) = Some (m, keys).
Proof.
  intros Hm Hn Hk. destruct (small_integer m) as (_ & M1 & M2 & M3 & _); [lia|].
  destruct (small_integer (size keys)) as (_ & N1 & N2 & N3 & _); [lia|].
  set (om := OP_1 + m - 1) in *. set (on := OP_1 + size keys - 1) in *. set (rest := concat (push_data <$> keys) ++ [on; OP_CHECKMULTISIG]).
  assert (back ([om] ++ rest) = OP_CHECKMULTISIG) as Hb.
  { unfold rest. change ([on; OP_CHECKMULTISIG]) with ([on] ++ [OP_CHECKMULTISIG]). rewrite !app_assoc. apply back_snoc. }
  assert (GetOp2 ([om] ++ rest) = Some (om, [], rest)) as Hg by (cbn [app GetOp2]; by rewrite (proj2 (Z.leb_gt om OP_PUSHDATA4))).
  unfold MatchMultisig. rewrite Hb, Hg, (proj2 (Z.ltb_ge _ _)) by (cbn [app length]; lia).
  change (OP_CHECKMULTISIG =? OP_CHECKMULTISIG) with true. cbn [negb orb mbind option_bind]. rewrite M1, M2. cbn [negb mbind option_bind].
  unfold rest at 2. rewrite multisig_keys_spec; [|done| |done].
  2: { unfold rest. cbn [length app]. rewrite length_app. pose proof (length_pushes keys). lia. }
  cbn [mbind option_bind app]. rewrite N1, N2. cbn [negb mbind option_bind]. rewrite Z.eqb_refl, (proj2 (Z.ltb_ge _ _)) by lia. done.
Qed.

Lemma Solver_multisig r m keys script : 1 <= m <= size keys → size keys <= 16 → Forall (λ k, ValidSize k = true) keys →
  GetScriptForMultisig m keys = Some script →
  Solver r script = Some (TX_MULTISIG, [[m]] ++ keys ++ [[size keys]]).
Proof.
  intros Hm Hn Hk. unfold GetScriptForMultisig. destruct (small_integer m) as (-> & _ & _ & _ & Mr); [lia|].
  destruct (small_integer (size keys)) as (-> & _); [lia|]. cbn [mbind option_bind]. intros Hs.
  assert (script = [OP_1 + m - 1] ++ concat (push_data <$> keys) ++ [OP_1 + size keys - 1; OP_CHECKMULTISIG]) as -> by congruence. clear Hs.
  unfold Solver. rewrite bool_decide_false by done. rewrite (MatchMultisig_script m keys Hm Hn Hk).
  assert (at_ ([OP_1 + m - 1] ++ concat (push_data <$> keys) ++ [OP_1 + size keys - 1; OP_CHECKMULTISIG]) 0 OP_RETURN = false) as -> by exact Mr.
  change ([OP_1 + size keys - 1; OP_CHECKMULTISIG]) with ([OP_1 + size keys - 1] ++ [OP_CHECKMULTISIG]). rewrite !(app_assoc (A := Z)).
  match goal with |- context [IsPayToScriptHash (?s ++ [OP_CHECKMULTISIG])] => destruct (templates_end r s OP_CHECKMULTISIG) as (-> & -> & -> & -> & -> & ->) end;
    [done|done|].
  rewrite andb_false_r. cbn [andb]. rewrite !u8_id by mlia. done.
Qed.

Lemma Solver_op_return r message : size message < 2 ^ 32 → Solver r (GetScriptForOpReturn message) = Some (TX_NULL_DATA, []).
Proof.
  intros Hm. unfold Solver, GetScriptForOpReturn. rewrite bool_decide_false by done.
  assert (IsPayToScriptHash ([OP_RETURN] ++ push_data message) = false) as -> by (unfold IsPayToScriptHash, at_; cbn [nth app]; by rewrite andb_false_r).
  assert (IsPayAssetScriptHash ([OP_RETURN] ++ push_data message) = false) as -> by (unfold IsPayAssetScriptHash, at_; cbn [nth app]; by rewrite andb_false_r).
  assert (IsPushOnly (push_data message) = true) as Hp.
  { unfold IsPushOnly. rewrite IsPushOnly_fuel by lia. pose proof (instructions_pushes [message]) as E. cbn [fmap list_fmap concat] in E. rewrite app_nil_r in E.
    rewrite E by (by constructor). cbn [fst snd forallb]. rewrite (proj2 (Z.leb_le _ _) (push_opcode_le message)). done. }
  cbn [app drop]. rewrite drop_0, Hp. rewrite (proj2 (Z.leb_le 1 _)) by (cbn [length]; lia). done.
Qed.

(** ** What is recognised is a template *)

Tactic Notation "explode" hyp(s) integer(n) := do n (destruct s as [|? s]; [done|]); destruct s; [|done].
Ltac at_bytes H := unfold at_ in H; cbn [nth size length] in H; repeat rewrite ?andb_true_iff, ?Z.eqb_eq in H; destruct_and? H; subst.

Lemma script_hash_inv s : IsPayToScriptHash s = true →
  length (slice 2 22 s) = 20%nat ∧ s = GetScriptForDestination (CScriptID (slice 2 22 s)).
Proof.
  unfold IsPayToScriptHash. intros Hs. assert (length s = 23%nat) as Hl by (destruct (Z.eqb_spec (size s) 23); [by apply Nat2Z.inj|done]).
  explode s 23. at_bytes Hs. done.
Qed.

Lemma key_hash_inv s h : MatchPayToPubkeyHash s = Some h → length h = 20%nat ∧ s = GetScriptForDestination (CKeyID h).
Proof.
  unfold MatchPayToPubkeyHash. intros Hs. assert (length s = 25%nat) as Hl by (destruct (Z.eqb_spec (size s) 25); [by apply Nat2Z.inj|done]).
  explode s 25. match type of Hs with (if ?c then _ else _) = _ => destruct c eqn:E end; [|done]. injection Hs as <-. at_bytes E. done.
Qed.

(** A script with two hashes: [b0], [b1], [b3], [b26] and [b48] are bytes that
    the loose rules do not look at. *)
Definition two_hashes (op b0 b1 b3 b26 b48 : Z) (h h' : valtype) : CScript :=
  [b0; b1; OP_ROT; b3; op; 20] ++ h ++ [b26; 20] ++ h' ++ [b48; OP_EQUALVERIFY; OP_CHECKSIG].

Lemma assets_mint_inv s : IsPayAssetScriptHash s = true →
  length (slice 4 24 s) = 20%nat ∧
  ∃ b3, s = [OP_DUP; OP_HASH160; OP_ASSETSMINT; b3] ++ slice 4 24 s ++ [OP_EQUALVERIFY; OP_CHECKSIG].
Proof.
  unfold IsPayAssetScriptHash. intros Hs. assert (length s = 26%nat) as Hl by (destruct (Z.eqb_spec (size s) 26); [by apply Nat2Z.inj|done]).
  explode s 26. at_bytes Hs. split; [done|]. by eexists.
Qed.

Lemma cold_staking_inv r s h h' : MatchPayToColdStaking r s = Some (h, h') →
  length h = 20%nat ∧ length h' = 20%nat ∧
  (∃ b0 b1 b3 b26 b48, s = two_hashes OP_CHECKCOLDSTAKEVERIFY b0 b1 b3 b26 b48 h h') ∧
  (r = true → s = GetScriptForStakeDelegation h h').
Proof.
  unfold MatchPayToColdStaking. intros Hs. destruct (IsPayToColdStaking r s) eqn:E; [|done]. injection Hs as <- <-.
  assert (length s = 51%nat) as Hl by (unfold IsPayToColdStaking in E; destruct (Z.eqb_spec (size s) 51); [by apply Nat2Z.inj|done]).
  explode s 51. unfold IsPayToColdStaking in E. destruct r; cbn [negb orb] in E; at_bytes E; (split; [done|]); (split; [done|]);
    (split; [by repeat eexists|done]).
Qed.

Lemma assets_dpos_inv s h h' : MatchPayToDposAssets s = Some (h, h') →
  length h = 20%nat ∧ length h' = 20%nat ∧ ∃ b0 b1 b3 b26 b48, s = two_hashes OP_DPOSASSETSMINT b0 b1 b3 b26 b48 h h'.
Proof.
  unfold MatchPayToDposAssets. intros Hs. destruct (IsPayAssetDposScript s) eqn:E; [|done]. injection Hs as <- <-.
  assert (length s = 51%nat) as Hl by (unfold IsPayAssetDposScript in E; destruct (Z.eqb_spec (size s) 51); [by apply Nat2Z.inj|done]).
  explode s 51. unfold IsPayAssetDposScript in E. at_bytes E. split; [done|]. split; [done|]. by repeat eexists.
Qed.

Lemma fixed_slice a b n s : size s = n → (b <= Z.to_nat n)%nat → length (slice a b s) = (b - a)%nat ∨ (b < a)%nat.
Proof. intros E Hb. unfold slice. rewrite length_take, length_drop. lia. Qed.

Lemma raw_pubkey_inv s k : MatchPayToPubkey s = Some k → ValidSize k = true ∧ s = GetScriptForRawPubKey k.
Proof.
  assert (∀ n : nat, (n = 33 ∨ n = 65)%nat → size s = Z.of_nat n + 2 → at_ s 0 (Z.of_nat n) = true → back s = OP_CHECKSIG →
    s = GetScriptForRawPubKey (slice 1 (n + 1) s)) as Hgen.
  { intros n Hn Hsz Hat Hb. destruct s as [|b s]; [cbn in Hsz; lia|]. unfold at_ in Hat. cbn [nth] in Hat. apply Z.eqb_eq in Hat as ->.
    destruct s as [|x s'] using rev_ind; [cbn in Hsz; lia|]. clear IHs'. rewrite app_comm_cons, back_snoc in Hb. subst x.
    cbn [length] in Hsz. rewrite length_app in Hsz. cbn in Hsz.
    assert (slice 1 (n + 1) (Z.of_nat n :: s' ++ [OP_CHECKSIG]) = s') as ->.
    { unfold slice. cbn [drop]. rewrite drop_0. apply take_app_length'. lia. }
    unfold GetScriptForRawPubKey, push_data, OP_PUSHDATA1. assert (size s' = Z.of_nat n) as E by lia. rewrite E.
    rewrite (proj2 (Z.ltb_lt _ _)) by lia. rewrite u8_id by mlia. done. }
  unfold MatchPayToPubkey, PUBLIC_KEY_SIZE, COMPRESSED_PUBLIC_KEY_SIZE. intros Hs.
  match type of Hs with (if ?c then _ else _) = _ => destruct c eqn:E end.
  - destruct (ValidSize _) eqn:Ev; [|done]. injection Hs as <-. split; [done|].
    apply andb_true_iff in E as [[E1%Z.eqb_eq E2]%andb_true_iff E3%Z.eqb_eq]. by apply (Hgen 65%nat); [by right|..].
  - match type of Hs with (if ?c then _ else _) = _ => destruct c eqn:E' end; [|done].
    destruct (ValidSize _) eqn:Ev; [|done]. injection Hs as <-. split; [done|].
    apply andb_true_iff in E' as [[E1%Z.eqb_eq E2]%andb_true_iff E3%Z.eqb_eq]. by apply (Hgen 33%nat); [by left|..].
Qed.

Lemma multisig_keys_valid fuel it acc keys op rest : Forall (λ k, ValidSize k = true) acc →
  multisig_keys fuel it acc = Some (keys, op, rest) → Forall (λ k, ValidSize k = true) keys.
Proof.
  revert it acc. induction fuel as [|fuel IH]; intros it acc Ha; cbn [multisig_keys];
    (destruct (GetOp2 it) as [[[o d] it']|]; [|by intros [= <- _ _]]); (destruct (ValidSize d) eqn:Ev; [|by intros [= <- _ _]]); [done|].
  apply IH. apply Forall_app. by split; [|constructor].
Qed.

Lemma IsSmallInteger_decode op n : IsSmallInteger op = true → DecodeOP_N op = Some n → 1 <= n <= 16.
Proof.
  unfold IsSmallInteger, DecodeOP_N, OP_1, OP_16, OP_0. intros H. destruct (Z.eqb_spec op 0); [lia|]. rewrite H. intros [= <-]. lia.
Qed.

(** The four forms of a push of [k]: the length is the opcode itself, or stands
    behind the opcode in one, two or four bytes. *)
Definition is_push (p : CScript) (k : valtype) : Prop :=
  p = size k :: k ∨
  ∃ l, ReadLE l = size k ∧
    (p = OP_PUSHDATA1 :: l ++ k ∧ length l = 1%nat ∨ p = OP_PUSHDATA2 :: l ++ k ∧ length l = 2%nat ∨
     p = OP_PUSHDATA4 :: l ++ k ∧ length l = 4%nat).

Lemma take_drop_size (n : Z) (l k r : valtype) : size l <? n = false → take (Z.to_nat n) l = k → drop (Z.to_nat n) l = r → k ≠ [] →
  n = size k ∧ l = k ++ r.
Proof.
  intros Hn%Z.ltb_ge <- <- Hk. rewrite take_drop, length_take. split; [|done].
  destruct (decide (n <= 0)); [|lia]. by rewrite Z2Nat.nonpos in Hk.
Qed.

Lemma GetOp2_push it op k rest : GetOp2 it = Some (op, k, rest) → k ≠ [] → ∃ p, is_push p k ∧ it = p ++ rest.
Proof.
  destruct it as [|o it]; [done|]. cbn [GetOp2]. destruct (Z.leb_spec o OP_PUSHDATA4) as [Ho|]; [|by intros [= _ <- _]].
  destruct (push_size o it) as [[n pc]|] eqn:E; [|done]. cbn [mbind option_bind]. destruct (size pc <? n) eqn:En; [done|].
  intros [= _ Ek Er] Hk. destruct (take_drop_size n pc k rest En Ek Er Hk) as [Hn Hpc].
  assert (∀ c, it = take c it ++ k ++ rest ↔ drop c it = k ++ rest) as Hit.
  { intros c. rewrite <- (take_drop c it) at 1. split; [by intros ?%app_inv_head|by intros ->]. }
  unfold push_size in E. unfold OP_PUSHDATA1, OP_PUSHDATA2, OP_PUSHDATA4 in *.
  destruct (Z.ltb_spec o 0x4c); [injection E as -> <-; exists (size k :: k); split; [by left|by rewrite Hpc, Hn]|].
  destruct (Z.eqb_spec o 0x4c) as [->|]; [|destruct (Z.eqb_spec o 0x4d) as [->|]; [|assert (o = 0x4e) as -> by lia]];
    destruct (_ <? _) eqn:El in E; try done; injection E as E1 E2;
    [exists (0x4c :: take 1 it ++ k)|exists (0x4d :: take 2 it ++ k)|exists (0x4e :: take 4 it ++ k)];
    (split; [right; eexists; split; [by rewrite E1|apply Z.ltb_ge in El; rewrite length_take; first [left; split; [done|lia]|right; left; split; [done|lia]|right; right; split; [done|lia]]]|]);
    cbn [app]; f_equal; rewrite <- app_assoc; apply Hit; congruence.
Qed.

Lemma GetOp2_opcode it op k rest : GetOp2 it = Some (op, k, rest) → OP_PUSHDATA4 < op → it = op :: rest.
Proof.
  destruct it as [|o it]; [done|]. cbn [GetOp2]. destruct (Z.leb_spec o OP_PUSHDATA4); [|by intros [= -> _ ->]].
  destruct (push_size o it) as [[n pc]|]; [|done]. cbn [mbind option_bind]. destruct (_ <? _); [done|]. intros [= <- _ _]. lia.
Qed.

Lemma multisig_keys_split fuel it acc keys op rest : multisig_keys fuel it acc = Some (keys, op, rest) → IsSmallInteger op = true →
  ∃ ks ps, keys = acc ++ ks ∧ Forall2 is_push ps ks ∧ it = concat ps ++ op :: rest.
Proof.
  intros H Hop. revert it acc H. induction fuel as [|fuel IH]; intros it acc; cbn [multisig_keys];
    (destruct (GetOp2 it) as [[[o d] it']|] eqn:Eg; [|by intros [= _ <- _]]); (destruct (ValidSize d) eqn:Ev;
      [|intros [= <- -> ->]; exists [], []; split_and!; [by rewrite app_nil_r|constructor|];
        apply (GetOp2_opcode _ _ _ _ Eg); unfold IsSmallInteger, OP_1, OP_16, OP_PUSHDATA4 in *; lia]); [done|].
  intros H. destruct (IH _ _ H) as (ks & ps & -> & Hps & ->).
  destruct (GetOp2_push _ _ _ _ Eg) as (p & Hp & ->); [by intros ->|].
  exists (d :: ks), (p :: ps). rewrite <- app_assoc. split_and!; [done|by constructor|]. cbn [concat]. by rewrite <- app_assoc.
Qed.

Lemma DecodeOP_N_inv op n : IsSmallInteger op = true → DecodeOP_N op = Some n → op = OP_1 + n - 1.
Proof.
  unfold IsSmallInteger, DecodeOP_N, OP_1, OP_16, OP_0. intros H. destruct (Z.eqb_spec op 0); [lia|]. rewrite H. intros [= <-]. lia.
Qed.

Lemma multisig_inv s m keys : MatchMultisig s = Some (m, keys) →
  1 <= m <= size keys ∧ size keys <= 16 ∧ Forall (λ k, ValidSize k = true) keys ∧
  ∃ ps, Forall2 is_push ps keys ∧ s = [OP_1 + m - 1] ++ concat ps ++ [OP_1 + size keys - 1; OP_CHECKMULTISIG].
Proof.
  unfold MatchMultisig. destruct (_ || _) eqn:E0; [done|]. destruct (GetOp2 s) as [[[op d] it]|] eqn:Eg; [|done]. cbn [mbind option_bind].
  destruct (IsSmallInteger op) eqn:E1; [|done]. cbn [negb]. destruct (DecodeOP_N op) as [m'|] eqn:E2; [|done]. cbn [mbind option_bind].
  destruct (multisig_keys _ it []) as [[[ks op'] rest]|] eqn:E3; [|done]. cbn [mbind option_bind].
  destruct (IsSmallInteger op') eqn:E4; [|done]. cbn [negb]. destruct (DecodeOP_N op') as [n|] eqn:E5; [|done]. cbn [mbind option_bind].
  destruct (negb _ || _) eqn:E6; [done|]. destruct (size rest =? 1) eqn:E7; [|done]. intros [= <- <-].
  pose proof (IsSmallInteger_decode _ _ E1 E2). pose proof (IsSmallInteger_decode _ _ E4 E5).
  split; [lia|]. split; [lia|]. split; [by apply (multisig_keys_valid _ _ _ _ _ _ (Forall_nil_2 _) E3)|].
  destruct (multisig_keys_split _ _ _ _ _ _ E3 E4) as (ks' & ps & -> & Hps & ->). exists ps. split; [done|].
  apply GetOp2_opcode in Eg as ->; [|unfold IsSmallInteger, OP_1, OP_16, OP_PUSHDATA4 in *; lia].
  destruct rest as [|b [|]]; [done| |cbn [length] in E7; lia]. apply orb_false_iff in E0 as [_ E0].
  rewrite app_comm_cons in E0. change [op'; b] with ([op'] ++ [b]) in E0. rewrite app_assoc, back_snoc in E0.
  apply negb_false_iff, Z.eqb_eq in E0 as ->. rewrite (DecodeOP_N_inv _ _ E1 E2), (DecodeOP_N_inv _ _ E4 E5).
  apply orb_false_iff in E6 as [E6%negb_false_iff%Z.eqb_eq _]. by rewrite E6.
Qed.

(** ** Main theorems *)

(** [Solver] recognises every script that the wallet builds, with the
    keys and hashes that were put into it, under both rules for cold staking
    scripts; in particular [ExtractDestination] inverts
    [GetScriptForDestination]. *)
Theorem Solver_inverts_templates `{ScriptCrypto} (r fColdStake : bool) (h h' k : valtype) (m : Z) (keys : list valtype) (message : valtype) :
  length h = 20%nat → length h' = 20%nat → ValidSize k = true → 1 <= m <= size keys → size keys <= 16 →
  Forall (λ k, ValidSize k = true) keys → length message = 32%nat →
  Solver r (GetScriptForRawPubKey k) = Some (TX_PUBKEY, [k]) ∧
  Solver r (GetScriptForDestination (CKeyID h)) = Some (TX_PUBKEYHASH, [h]) ∧
  Solver r (GetScriptForDestination (CScriptID h)) = Some (TX_SCRIPTHASH, [h]) ∧
  Solver r (GetScriptForStakeDelegation h h') = Some (TX_COLDSTAKE, [h; h']) ∧
  Solver r (GetScriptForMultiminingDestination h) = Some (TX_ASSETSMINT, [h]) ∧
  Solver r (GetScriptForAssetsDposDestination h h') = Some (TX_DPOSASSETMINT, [h'; h]) ∧
  Solver r (GetScriptForOpReturn message) = Some (TX_NULL_DATA, []) ∧
  (∃ script, GetScriptForMultisig m keys = Some script ∧ Solver r script = Some (TX_MULTISIG, [[m]] ++ keys ++ [[size keys]])) ∧
  (∀ dest, dest = CKeyID h ∨ dest = CScriptID h → ExtractDestination r (GetScriptForDestination dest) fColdStake = Some dest) ∧
  ExtractDestination r (GetScriptForStakeDelegation h h') fColdStake = Some (CKeyID (if fColdStake then h else h')).
Proof.
  intros Hh Hh' Hk Hm Hn Hks Hmsg. split_and!.
  - by apply Solver_raw_pubkey.
  - by apply Solver_key_hash.
  - by apply Solver_script_hash.
  - by apply Solver_stake_delegation.
  - by apply Solver_multimining.
  - by apply Solver_assets_dpos.
  - apply Solver_op_return. lia.
  - destruct (GetScriptForMultisig m keys) as [script|] eqn:E; [exists script; split; [done|by eapply Solver_multisig]|].
    unfold GetScriptForMultisig in E. rewrite (proj1 (small_integer m ltac:(lia))), (proj1 (small_integer (size keys) ltac:(lia))) in E. done.
  - intros dest [-> | ->]; unfold ExtractDestination; [by rewrite Solver_key_hash|by rewrite Solver_script_hash].
  - unfold ExtractDestination. rewrite Solver_stake_delegation by done. by destruct fColdStake.
Qed.

Definition sample_key : valtype := 2 :: replicate 32 7.
Lemma Solver_inverts_templates_witness :
  ∃ script, GetScriptForMultisig 1 [sample_key; 4 :: replicate 64 9] = Some script ∧
    Solver true script = Some (TX_MULTISIG, [[1]; sample_key; 4 :: replicate 64 9; [2]]).
Proof.
  destruct (@Solver_inverts_templates sample_crypto true false (replicate 20 3) (replicate 20 4) sample_key 1 [sample_key; 4 :: replicate 64 9]
    (replicate 32 5)) as (_ & _ & _ & _ & _ & _ & _ & H & _);
    [reflexivity|reflexivity|reflexivity|done|done|repeat constructor|reflexivity|]. exact H.
Defined.

(** C36: conversely, what [Solver] answers describes the script.  The answers for
    keys, key hashes and script hashes, and for cold staking under the strict
    rules, determine the script byte by byte.  Elsewhere the code does not look
    at every byte, and the script is the template up to these: the length byte
    of an asset output; five bytes of an asset delegation, and of a cold staking
    script under the loose rules; the form of the pushes of a multisignature
    script, whose well-formed keys are pushed between the number of required
    signatures and the number of keys.  The hashes and keys of the answer are
    the bytes of the script at these places; data outputs start with
    [OP_RETURN] and cannot be spent. *)
Theorem Solver_describes_script (r : bool) (s : CScript) (t : txnouttype) (sols : list valtype) :
  Solver r s = Some (t, sols) →
  match t with
  | TX_NONSTANDARD => False
  | TX_PUBKEY => ∃ k, sols = [k] ∧ ValidSize k = true ∧ s = GetScriptForRawPubKey k
  | TX_PUBKEYHASH => ∃ h, sols = [h] ∧ length h = 20%nat ∧ s = GetScriptForDestination (CKeyID h)
  | TX_SCRIPTHASH => ∃ h, sols = [h] ∧ length h = 20%nat ∧ s = GetScriptForDestination (CScriptID h)
  | TX_COLDSTAKE => ∃ h h', sols = [h; h'] ∧ length h = 20%nat ∧ length h' = 20%nat ∧
      (∃ b0 b1 b3 b26 b48, s = two_hashes OP_CHECKCOLDSTAKEVERIFY b0 b1 b3 b26 b48 h h') ∧
      (r = true → s = GetScriptForStakeDelegation h h')
  | TX_NULL_DATA => sols = [] ∧ IsUnspendable s = true ∧ ∃ data, s = OP_RETURN :: data ∧ IsPushOnly data = true
  | TX_MULTISIG => ∃ m keys, sols = [[m]] ++ keys ++ [[size keys]] ∧ 1 <= m <= size keys ∧ size keys <= 16 ∧
      Forall (λ k, ValidSize k = true) keys ∧
      ∃ ps, Forall2 is_push ps keys ∧ s = [OP_1 + m - 1] ++ concat ps ++ [OP_1 + size keys - 1; OP_CHECKMULTISIG]
  | TX_ASSETSMINT => ∃ h, sols = [h] ∧ length h = 20%nat ∧
      ∃ b3, s = [OP_DUP; OP_HASH160; OP_ASSETSMINT; b3] ++ h ++ [OP_EQUALVERIFY; OP_CHECKSIG]
  | TX_DPOSASSETMINT => ∃ h h', sols = [h; h'] ∧ length h = 20%nat ∧ length h' = 20%nat ∧
      ∃ b0 b1 b3 b26 b48, s = two_hashes OP_DPOSASSETSMINT b0 b1 b3 b26 b48 h h'
  end.
Proof.
  unfold Solver. case_bool_decide as Hne; [done|]. destruct (IsPayToScriptHash s) eqn:E1.
  { intros [= <- <-]. destruct (script_hash_inv s E1). eauto. }
  destruct (IsPayAssetScriptHash s) eqn:E2; [intros [= <- <-]; destruct (assets_mint_inv s E2); eauto|].
  match goal with |- (if ?c then _ else _) = _ → _ => destruct c eqn:E3 end.
  { intros [= <- <-]. split; [done|]. apply andb_true_iff in E3 as [[_ E4]%andb_true_iff E5]. destruct s as [|b s]; [done|].
    unfold at_ in E4. cbn [nth] in E4. apply Z.eqb_eq in E4 as ->. rewrite skipn_cons, drop_0 in E5. split; [|by exists s].
    unfold IsUnspendable. by rewrite (proj2 (Z.ltb_lt 0 _)) by (cbn [length]; lia). }
  destruct (MatchPayToPubkey s) as [k|] eqn:E4; [intros [= <- <-]; destruct (raw_pubkey_inv s k E4); eauto|].
  destruct (MatchPayToPubkeyHash s) as [h|] eqn:E5; [intros [= <- <-]; destruct (key_hash_inv s h E5); eauto|].
  destruct (MatchPayToColdStaking r s) as [[h h']|] eqn:E6; [intros [= <- <-]; exists h, h'; split; [done|by apply cold_staking_inv]|].
  destruct (MatchPayToDposAssets s) as [[h h']|] eqn:E7; [intros [= <- <-]; exists h, h'; split; [done|by apply assets_dpos_inv]|].
  destruct (MatchMultisig s) as [[m keys]|] eqn:E8; [|done]. intros [= <- <-].
  destruct (multisig_inv s m keys E8) as (Hm & Hn & Hk). exists m, keys. rewrite !u8_id by mlia. done.
Qed.

Lemma Solver_describes_script_witness :
  ∃ h, [replicate 20 3] = [h] ∧ length h = 20%nat ∧ GetScriptForDestination (CKeyID (replicate 20 3)) = GetScriptForDestination (CKeyID h).
Proof. exact (Solver_describes_script false (GetScriptForDestination (CKeyID (replicate 20 3))) TX_PUBKEYHASH [replicate 20 3] eq_refl). Defined.
