(* ===== verification/Bloom.v ===== *)
(** * Bloom: bloom filters ([bloom.h], [bloom.cpp])

    [CBloomFilter] is the filter of a light client: the node sends it the
    transactions that match.  [CRollingBloomFilter] remembers the last elements
    that were inserted.  The sizes that the constructors compute with floating
    point numbers are parameters.  [None] is undefined behaviour: a division by
    the size of an empty filter, or an access outside of it. *)

From S2P Require Import Prelude ArithUint256 Script Interpreter Serialize Transaction CoinsUpdate Hash Standard.
Local Open Scope Z_scope.

Definition MAX_BLOOM_FILTER_SIZE : Z := 36000.
Definition MAX_HASH_FUNCS : Z := 50.
Definition BLOOM_UPDATE_ALL : Z := 1.
Definition BLOOM_UPDATE_P2PUBKEY_ONLY : Z := 2.
Definition BLOOM_UPDATE_MASK : Z := 3.

(** ** [CBloomFilter] *)

Record CBloomFilter := mkFilter {
  vData : list Z;
  isFull : bool;
  isEmpty : bool;
  nHashFuncs : Z;
  nTweak : Z;
  nFlags : Z;
}.
(** [CBloomFilter()]. *)
Definition default_filter : CBloomFilter := mkFilter [] true false 0 0 0.
(** The other constructor; the numbers of bits and of hash functions before the
    limits come from floating point formulas. *)
Definition new_filter (bits hashes nTweakIn nFlagsIn : Z) : CBloomFilter :=
  mkFilter (replicate (Z.to_nat (Z.min bits (MAX_BLOOM_FILTER_SIZE * 8) / 8)) 0) false false (Z.min hashes MAX_HASH_FUNCS) nTweakIn nFlagsIn.
Definition with_data (d : list Z) (f : CBloomFilter) : CBloomFilter := mkFilter d f.(isFull) f.(isEmpty) f.(nHashFuncs) f.(nTweak) f.(nFlags).

(** The seed of the [n]-th hash function. *)
Definition hash_seed (nHashNum tweak : Z) : Z := u32 (u32 (nHashNum * 0xFBA4C795) + tweak).
Definition Bloom_Hash (f : CBloomFilter) (nHashNum : Z) (vDataToHash : list Z) : option Z :=
  let n := Z.of_nat (length f.(vData)) * 8 in
  if n =? 0 then None else Some (MurmurHash3 (hash_seed nHashNum f.(nTweak)) vDataToHash mod n).

Definition set_bit (nIndex : Z) (d : list Z) : list Z := alter (λ b, Z.lor b (Z.shiftl 1 (Z.land 7 nIndex))) (Z.to_nat (Z.shiftr nIndex 3)) d.
Definition get_bit (nIndex : Z) (d : list Z) : bool := Z.testbit (default 0 (d !! Z.to_nat (Z.shiftr nIndex 3))) (Z.land 7 nIndex).

Fixpoint insert_loop (ns : list nat) (vKey : list Z) (f : CBloomFilter) : option CBloomFilter :=
  match ns with
  | [] => Some f
  | n :: ns => nIndex ← Bloom_Hash f (Z.of_nat n) vKey; insert_loop ns vKey (with_data (set_bit nIndex f.(vData)) f)
  end.
Definition insert (vKey : list Z) (f : CBloomFilter) : option CBloomFilter :=
  if f.(isFull) then Some f
  else f ← insert_loop (seq 0 (Z.to_nat f.(nHashFuncs))) vKey f;
       Some (mkFilter f.(vData) f.(isFull) false f.(nHashFuncs) f.(nTweak) f.(nFlags)).
Definition insert_outpoint (o : COutPoint) (f : CBloomFilter) : option CBloomFilter := insert (c_outpoint.(enc) o) f.
Definition insert_hash (h : base_uint) (f : CBloomFilter) : option CBloomFilter := insert (c_uint256.(enc) h) f.

Fixpoint contains_loop (ns : list nat) (vKey : list Z) (f : CBloomFilter) : option bool :=
  match ns with
  | [] => Some true
  | n :: ns => nIndex ← Bloom_Hash f (Z.of_nat n) vKey; if get_bit nIndex f.(vData) then contains_loop ns vKey f else Some false
  end.
Definition contains (vKey : list Z) (f : CBloomFilter) : option bool :=
  if f.(isFull) then Some true else if f.(isEmpty) then Some false else contains_loop (seq 0 (Z.to_nat f.(nHashFuncs))) vKey f.
Definition contains_outpoint (o : COutPoint) (f : CBloomFilter) : option bool := contains (c_outpoint.(enc) o) f.
Definition contains_hash (h : base_uint) (f : CBloomFilter) : option bool := contains (c_uint256.(enc) h) f.

Definition clear (f : CBloomFilter) : CBloomFilter := mkFilter (replicate (length f.(vData)) 0) false true f.(nHashFuncs) f.(nTweak) f.(nFlags).
Definition reset (nNewTweak : Z) (f : CBloomFilter) : CBloomFilter :=
  let f := clear f in mkFilter f.(vData) f.(isFull) f.(isEmpty) f.(nHashFuncs) nNewTweak f.(nFlags).
Definition IsWithinSizeConstraints (f : CBloomFilter) : bool :=
  (Z.of_nat (length f.(vData)) <=? MAX_BLOOM_FILTER_SIZE) && (f.(nHashFuncs) <=? MAX_HASH_FUNCS).
Definition MatchesAll (f : CBloomFilter) : bool := forallb (λ b, b =? 0xff) f.(vData).
(** The last branch writes to the first byte of a vector that it has just
    cleared. *)
Definition Merge (filter f : CBloomFilter) : option (bool * CBloomFilter) :=
  if negb (MatchesAll f) && negb (MatchesAll filter) then
    if negb (bool_decide (length filter.(vData) = length f.(vData)) && (filter.(nHashFuncs) =? f.(nHashFuncs)) && (filter.(nTweak) =? f.(nTweak))) then Some (false, f)
    else Some (true, with_data (zip_with Z.lor f.(vData) filter.(vData)) f)
  else None.
Definition UpdateEmptyFull (f : CBloomFilter) : CBloomFilter :=
  mkFilter f.(vData) (forallb (λ b, b =? 0xff) f.(vData)) (forallb (λ b, b =? 0) f.(vData)) f.(nHashFuncs) f.(nTweak) f.(nFlags).

(** Whether a script has an element in the filter; the loop ends at an opcode
    that is cut off.  Every round consumes a byte, which bounds the rounds. *)
Fixpoint script_matches (fuel : nat) (pc : CScript) (f : CBloomFilter) : option bool :=
  match fuel with
  | O => Some false
  | S fuel =>
      match GetOp2 pc with
      | None => Some false
      | Some (_, data, pc) =>
          if bool_decide (data = []) then script_matches fuel pc f
          else found ← contains data f; if (found : bool) then Some true else script_matches fuel pc f
      end
  end.
Definition script_has (s : CScript) (f : CBloomFilter) : option bool := script_matches (length s) s f.

Section relevant.
Context `{SCr : ScriptCrypto} (g_newP2CSRules : bool).

(** Whether the output at the index is added for a match. *)
Definition adds_outpoint (s : CScript) (f : CBloomFilter) : bool :=
  let flag := Z.land f.(nFlags) BLOOM_UPDATE_MASK in
  if flag =? BLOOM_UPDATE_ALL then true
  else if flag =? BLOOM_UPDATE_P2PUBKEY_ONLY then
    match Solver g_newP2CSRules s with
    | Some (type, _) => bool_decide (type = TX_PUBKEY) || bool_decide (type = TX_MULTISIG)
    | None => false
    end
  else false.
Fixpoint outputs_loop (hash : base_uint) (i : Z) (l : list CTxOut) (fFound : bool) (f : CBloomFilter) : option (bool * CBloomFilter) :=
  match l with
  | [] => Some (fFound, f)
  | txout :: l =>
      found ← script_has txout.(scriptPubKey) f;
      if (found : bool) then
        f ← (if adds_outpoint txout.(scriptPubKey) f then insert_outpoint {| prevout_hash := hash; prevout_n := i |} f else Some f);
        outputs_loop hash (i + 1) l true f
      else outputs_loop hash (i + 1) l fFound f
  end.
Fixpoint inputs_loop (l : list CTxIn) (f : CBloomFilter) : option bool :=
  match l with
  | [] => Some false
  | txin :: l =>
      spends ← contains_outpoint txin.(prevout) f;
      if (spends : bool) then Some true
      else found ← script_has txin.(scriptSig) f; if (found : bool) then Some true else inputs_loop l f
  end.
Definition IsRelevantAndUpdate (tx : CTransaction) (f : CBloomFilter) : option (bool * CBloomFilter) :=
  let hash := GetHash tx in
  if f.(isFull) then Some (true, f)
  else if f.(isEmpty) then Some (false, f)
  else
    here ← contains_hash hash f;
    '(fFound, f) ← outputs_loop hash 0 tx.(vout) here f;
    if (fFound : bool) then Some (true, f)
    else found ← inputs_loop tx.(vin) f; Some (found, f).
End relevant.

(** On the wire; the flags for a full and an empty filter are not sent. *)
Definition Bloom_Serialize (f : CBloomFilter) : list Z :=
  c_blob.(enc) f.(vData) ++ (c_unsigned 4).(enc) f.(nHashFuncs) ++ (c_unsigned 4).(enc) f.(nTweak) ++ (c_unsigned 1).(enc) f.(nFlags).
Definition Bloom_Unserialize (s : list Z) : option (CBloomFilter * list Z) :=
  '(d, s) ← c_blob.(dec) s; '(n, s) ← (c_unsigned 4).(dec) s; '(t, s) ← (c_unsigned 4).(dec) s; '(g, s) ← (c_unsigned 1).(dec) s;
  Some (mkFilter d true false n t g, s).

(** ** [CRollingBloomFilter] *)

Record CRollingBloomFilter := mkRolling {
  nEntriesPerGeneration : Z;
  nEntriesThisGeneration : Z;
  nGeneration : Z;
  cells : list Z;
  r_nTweak : Z;
  r_nHashFuncs : Z;
}.
(** The constructor; the number of hash functions and of cells come from
    floating point formulas, and the tweak is random. *)
Definition new_rolling (nElements hashes : Z) (size : nat) (tweak : Z) : CRollingBloomFilter :=
  mkRolling (u32 (nElements + 1) / 2) 0 1 (replicate size 0) tweak hashes.
Definition Rolling_Hash (r : CRollingBloomFilter) (nHashNum : Z) (vDataToHash : list Z) : option Z :=
  let n := Z.of_nat (length r.(cells)) * 16 in
  if n =? 0 then None else Some (MurmurHash3 (hash_seed nHashNum r.(r_nTweak)) vDataToHash mod n).

(** Two bits for every position. *)
Definition cell_of (position : Z) (d : list Z) : nat := Z.to_nat (Z.shiftr position 4 mod Z.of_nat (length d)).
Definition get (position : Z) (d : list Z) : Z :=
  Z.land (Z.shiftr (default 0 (d !! cell_of position d)) (2 * Z.land position 0xF)) 0x3.
Definition put_cell (position v cell : Z) : Z :=
  let k := 2 * Z.land position 0xF in Z.lor (Z.land cell (u32 (Z.lnot (u32 (Z.shiftl 3 k))))) (u32 (Z.shiftl v k)).
Definition put (position v : Z) (d : list Z) : list Z := alter (put_cell position v) (cell_of position d) d.

(** The loop that wipes a generation; its 32-bit counter reaches the end when
    there are fewer than 2^28 cells. *)
Definition wipe_one (g : Z) (d : list Z) (p : Z) : list Z := if get p d =? g then put p 0 d else d.
Definition wipe (g : Z) (d : list Z) : list Z := foldl (wipe_one g) d (Z.of_nat <$> seq 0 (length d * 16)).
Fixpoint rolling_loop (ns : list nat) (vKey : list Z) (r : CRollingBloomFilter) : option CRollingBloomFilter :=
  match ns with
  | [] => Some r
  | n :: ns =>
      h ← Rolling_Hash r (Z.of_nat n) vKey;
      rolling_loop ns vKey (mkRolling r.(nEntriesPerGeneration) r.(nEntriesThisGeneration) r.(nGeneration) (put h r.(nGeneration) r.(cells)) r.(r_nTweak) r.(r_nHashFuncs))
  end.
Definition next_generation (r : CRollingBloomFilter) : CRollingBloomFilter :=
  if r.(nEntriesThisGeneration) =? r.(nEntriesPerGeneration) then
    let g := if r.(nGeneration) + 1 =? 4 then 1 else r.(nGeneration) + 1 in
    mkRolling r.(nEntriesPerGeneration) 0 g (wipe g r.(cells)) r.(r_nTweak) r.(r_nHashFuncs)
  else r.
Definition Rolling_insert (vKey : list Z) (r : CRollingBloomFilter) : option CRollingBloomFilter :=
  let r := next_generation r in
  let r := mkRolling r.(nEntriesPerGeneration) (r.(nEntriesThisGeneration) + 1) r.(nGeneration) r.(cells) r.(r_nTweak) r.(r_nHashFuncs) in
  rolling_loop (seq 0 (Z.to_nat r.(r_nHashFuncs))) vKey r.
Fixpoint rolling_contains_loop (ns : list nat) (vKey : list Z) (r : CRollingBloomFilter) : option bool :=
  match ns with
  | [] => Some true
  | n :: ns => h ← Rolling_Hash r (Z.of_nat n) vKey; if get h r.(cells) =? 0 then Some false else rolling_contains_loop ns vKey r
  end.
Definition Rolling_contains (vKey : list Z) (r : CRollingBloomFilter) : option bool :=
  rolling_contains_loop (seq 0 (Z.to_nat r.(r_nHashFuncs))) vKey r.
Definition Rolling_insert_hash (h : base_uint) (r : CRollingBloomFilter) : option CRollingBloomFilter := Rolling_insert (c_uint256.(enc) h) r.
Definition Rolling_contains_hash (h : base_uint) (r : CRollingBloomFilter) : option bool := Rolling_contains (c_uint256.(enc) h) r.
Definition Rolling_reset (tweak : Z) (r : CRollingBloomFilter) : CRollingBloomFilter :=
  mkRolling r.(nEntriesPerGeneration) 0 1 (replicate (length r.(cells)) 0) tweak r.(r_nHashFuncs).

(** ** No false negatives *)

(** The filter can be used: it has bytes, or it is full. *)
Definition usable (f : CBloomFilter) : Prop := f.(vData) ≠ [] ∨ f.(isFull) = true.

(** The indices of the bits for a key. *)
Definition key_index (f : CBloomFilter) (vKey : list Z) (n : nat) : Z := MurmurHash3 (hash_seed (Z.of_nat n) f.(nTweak)) vKey mod (Z.of_nat (length f.(vData)) * 8).
Lemma Bloom_Hash_index f vKey n : f.(vData) ≠ [] → Bloom_Hash f (Z.of_nat n) vKey = Some (key_index f vKey n) ∧ 0 <= key_index f vKey n < Z.of_nat (length f.(vData)) * 8.
Proof.
  intros Hd. assert (0 < Z.of_nat (length (vData f))) by (destruct (vData f); [done|cbn; lia]). unfold Bloom_Hash, key_index.
  rewrite (proj2 (Z.eqb_neq _ 0)) by lia. split; [done|]. apply Z.mod_pos_bound. lia.
Qed.

(** Setting a bit sets it and leaves the others. *)
Lemma get_set_bit i d : 0 <= i < Z.of_nat (length d) * 8 → get_bit i (set_bit i d) = true.
Proof.
  intros Hi. unfold get_bit, set_bit. rewrite list_lookup_alter_eq. destruct (lookup_lt_is_Some_2 d (Z.to_nat (Z.shiftr i 3))) as [b Hb].
  { rewrite Z.shiftr_div_pow2 by lia. pose proof (Z.div_lt_upper_bound i (2 ^ 3) (Z.of_nat (length d)) ltac:(lia) ltac:(lia)). lia. }
  rewrite Hb. cbn [fmap option_fmap option_map from_option id]. rewrite Z.lor_spec, Z.shiftl_spec, Z.sub_diag; [apply orb_true_r|]. apply Z.land_nonneg. by left.
Qed.
Lemma set_bit_keeps i j d : get_bit j d = true → get_bit j (set_bit i d) = true.
Proof.
  unfold get_bit, set_bit. rewrite list_lookup_alter. destruct (decide (Z.to_nat (Z.shiftr i 3) = Z.to_nat (Z.shiftr j 3))) as [->|]; [|done].
  destruct (d !! Z.to_nat (Z.shiftr j 3)); [|done]. cbn [fmap option_fmap option_map from_option id]. intros H. by rewrite Z.lor_spec, H.
Qed.
Lemma length_set_bit i d : length (set_bit i d) = length d.
Proof. apply length_alter. Qed.

(** All bits of the key are set. *)
Definition covers (f : CBloomFilter) (vKey : list Z) : Prop := ∀ n, (n < Z.to_nat f.(nHashFuncs))%nat → get_bit (key_index f vKey n) f.(vData) = true.

Lemma contains_iff vKey f : usable f → ∃ b, contains vKey f = Some b ∧
  (b = true ↔ f.(isFull) = true ∨ (f.(isEmpty) = false ∧ covers f vKey)).
Proof.
  intros Hu. unfold contains. destruct (isFull f) eqn:Ef; [by exists true; split; [done|]; split; auto|].
  destruct (isEmpty f) eqn:Ee; [exists false; split; [done|]; split; [done|]; by intros [|[]]|]. assert (vData f ≠ []) as Hd by (destruct Hu; congruence).
  assert (∀ k m, ∃ b, contains_loop (seq k m) vKey f = Some b ∧ (b = true ↔ ∀ n, (k <= n < k + m)%nat → get_bit (key_index f vKey n) (vData f) = true)) as H.
  { intros k m. revert k. induction m as [|m IH]; intros k; cbn [seq contains_loop]; [exists true; split; [done|]; split; [lia|done]|].
    rewrite (proj1 (Bloom_Hash_index f vKey k Hd)). cbn [mbind option_bind]. destruct (get_bit (key_index f vKey k) (vData f)) eqn:Eb.
    - destruct (IH (S k)) as (b & -> & Hb). exists b. split; [done|]. rewrite Hb. split; intros Hn n Hr; [|apply Hn; lia].
      destruct (decide (n = k)) as [->|]; [done|]. apply Hn. lia.
    - exists false. split; [done|]. split; [done|]. intros Hn. rewrite (Hn k) in Eb by lia. done. }
  destruct (H O (Z.to_nat (nHashFuncs f))) as (b & -> & Hb). exists b. split; [done|]. rewrite Hb. unfold covers. split.
  - intros Hn. right. split; [done|]. intros n Hr. apply Hn. lia.
  - intros [|[_ Hc]]; [done|]. intros n Hr. apply Hc. lia.
Qed.

(** What an insertion does to the bits. *)
Lemma insert_loop_spec ns vKey f : f.(vData) ≠ [] → ∃ d, insert_loop ns vKey f = Some (with_data d f) ∧ length d = length f.(vData) ∧
  (∀ i, get_bit i f.(vData) = true → get_bit i d = true) ∧ (∀ n, n ∈ ns → get_bit (key_index f vKey n) d = true).
Proof.
  revert f. induction ns as [|n ns IH]; intros f Hd; cbn [insert_loop].
  - exists f.(vData). split; [by destruct f|]. split_and!; [done|done|]. intros n H. by apply not_elem_of_nil in H.
  - destruct (Bloom_Hash_index f vKey n Hd) as [-> Hr]. cbn [mbind option_bind]. set (f1 := with_data (set_bit (key_index f vKey n) (vData f)) f).
    assert (vData f1 ≠ []) as Hd1 by (intros E; apply (f_equal length) in E; cbn in E; rewrite length_set_bit in E; by destruct (vData f)).
    destruct (IH f1 Hd1) as (d & -> & Hl & Hk & Hn). exists d. cbn [f1 vData with_data] in Hl, Hk. rewrite length_set_bit in Hl. split_and!; [done|done| |].
    + intros i Hi. apply Hk. by apply set_bit_keeps.
    + assert (∀ m, key_index f1 vKey m = key_index f vKey m) as Ei by (intros m; unfold key_index; cbn [f1 vData nTweak with_data]; by rewrite length_set_bit).
      intros m [->|Hm]%elem_of_cons; [apply Hk, get_set_bit; by rewrite ?length_set_bit|]. rewrite <- Ei. by apply Hn.
Qed.
(** The filter [f'] has the parameters of [f] and at least its bits. *)
Definition extends (f f' : CBloomFilter) : Prop :=
  length f'.(vData) = length f.(vData) ∧ f'.(isFull) = f.(isFull) ∧ f'.(nHashFuncs) = f.(nHashFuncs) ∧ f'.(nTweak) = f.(nTweak) ∧ f'.(nFlags) = f.(nFlags) ∧
  (f.(isEmpty) = false → f'.(isEmpty) = false) ∧ ∀ i, get_bit i f.(vData) = true → get_bit i f'.(vData) = true.
#[local] Instance extends_preorder : PreOrder extends.
Proof.
  split; [by intros f; split_and!|]. intros f g h (A1 & A2 & A3 & A4 & A5 & A6 & A7) (B1 & B2 & B3 & B4 & B5 & B6 & B7).
  split_and!; try congruence; auto.
Qed.
Lemma extends_usable f f' : extends f f' → usable f → usable f'.
Proof. intros (E1 & E2 & _) [H|H]; [left|right; congruence]. intros E. rewrite E in E1. by destruct (vData f). Qed.
Lemma extends_contains f f' vKey : usable f → extends f f' → contains vKey f = Some true → contains vKey f' = Some true.
Proof.
  intros Hu He Hc. destruct (contains_iff vKey f Hu) as (b & Eb & Hb). rewrite Hc in Eb. injection Eb as <-.
  destruct (contains_iff vKey f' (extends_usable _ _ He Hu)) as (b' & -> & Hb'). f_equal. apply Hb'. destruct He as (E1 & E2 & E3 & E4 & E5 & E6 & E7).
  destruct (proj1 Hb eq_refl) as [Hf|[He Hcov]]; [left; congruence|right]. split; [auto|]. intros n Hn. rewrite E3 in Hn. apply E7.
  unfold key_index. rewrite E1, E4. by apply Hcov.
Qed.
Lemma insert_spec vKey f : usable f → ∃ f', insert vKey f = Some f' ∧ extends f f' ∧ contains vKey f' = Some true.
Proof.
  intros Hu. unfold insert. destruct (isFull f) eqn:Ef; [exists f; split_and!; [done|done|]; unfold contains; by rewrite Ef|].
  assert (vData f ≠ []) as Hd by (destruct Hu; congruence).
  destruct (insert_loop_spec (seq 0 (Z.to_nat (nHashFuncs f))) vKey f Hd) as (d & -> & Hl & Hk & Hn). cbn [mbind option_bind with_data vData isFull nHashFuncs nTweak nFlags].
  eexists. split; [done|]. assert (extends f (mkFilter d (isFull f) false (nHashFuncs f) (nTweak f) (nFlags f))) as He by (by split_and!). split; [done|].
  destruct (contains_iff vKey (mkFilter d (isFull f) false (nHashFuncs f) (nTweak f) (nFlags f)) (extends_usable _ _ He Hu)) as (b & -> & Hb). f_equal. apply Hb. right.
  split; [done|]. intros n Hr. cbn [nHashFuncs vData] in *. unfold key_index. cbn [nTweak vData]. rewrite Hl. apply Hn, elem_of_seq. lia.
Qed.

(** Scripts *)
Lemma script_matches_defined fuel pc f : usable f → is_Some (script_matches fuel pc f).
Proof.
  intros Hu. revert pc. induction fuel as [|fuel IH]; intros pc; cbn [script_matches]; [done|]. destruct (GetOp2 pc) as [[[op data] pc']|]; [|done].
  destruct (bool_decide (data = [])); [apply IH|]. destruct (contains_iff data f Hu) as (b & -> & _). cbn [mbind option_bind]. destruct b; [done|apply IH].
Qed.
(** The elements that a script pushes, up to an opcode that is cut off. *)
Inductive pushes : CScript → list Z → Prop :=
  | pushes_here pc op data pc' : GetOp2 pc = Some (op, data, pc') → pushes pc data
  | pushes_later pc op data' pc' data : GetOp2 pc = Some (op, data', pc') → pushes pc' data → pushes pc data.
Lemma script_has_push s data f : usable f → pushes s data → data ≠ [] → contains data f = Some true → script_has s f = Some true.
Proof.
  intros Hu Hp Hn Hc. unfold script_has. assert (∀ fuel, (length s <= fuel)%nat → script_matches fuel s f = Some true) as H; [|by apply H].
  induction Hp as [pc op data pc' E|pc op data' pc' data E Hp IH]; intros fuel Hf; pose proof (GetOp2_shorter _ _ _ _ E) as Hl; destruct fuel as [|fuel]; try lia;
    cbn [script_matches]; rewrite E.
  - rewrite bool_decide_false by done. by rewrite Hc.
  - destruct (bool_decide (data' = [])); [apply IH; [done|done|lia]|]. destruct (contains_iff data' f Hu) as (b & -> & _). cbn [mbind option_bind]. destruct b; [done|].
    apply IH; [done|done|lia].
Qed.

(** ** What a filter finds *)

Section found.
Context `{SCr : ScriptCrypto} (newP2CS : bool).

Lemma add_match s o f : usable f → ∃ f', (if adds_outpoint newP2CS s f then insert_outpoint o f else Some f) = Some f' ∧ extends f f' ∧
  (adds_outpoint newP2CS s f = true → contains_outpoint o f' = Some true).
Proof.
  intros Hu. destruct (adds_outpoint newP2CS s f); [|by exists f]. destruct (insert_spec (c_outpoint.(enc) o) f Hu) as (f' & E & He & Hc). by exists f'.
Qed.
Lemma outputs_loop_spec hash i l fFound f : usable f → ∃ found f', outputs_loop newP2CS hash i l fFound f = Some (found, f') ∧ extends f f' ∧
  (fFound = true → found = true) ∧
  ∀ k txout, l !! k = Some txout → script_has txout.(scriptPubKey) f = Some true → found = true ∧
    (Z.land f.(nFlags) BLOOM_UPDATE_MASK = BLOOM_UPDATE_ALL → contains_outpoint {| prevout_hash := hash; prevout_n := i + Z.of_nat k |} f' = Some true).
Proof.
  revert i fFound f. induction l as [|txout l IH]; intros i fFound f Hu; cbn [outputs_loop]; [by exists fFound, f|].
  destruct (script_matches_defined (length (scriptPubKey txout)) (scriptPubKey txout) f Hu) as [found Hs]. fold (script_has (scriptPubKey txout) f) in Hs. rewrite Hs. cbn [mbind option_bind].
  assert (∀ f1 g, usable f → extends f f1 → script_has (scriptPubKey g) f = Some true → script_has (scriptPubKey g) f1 = Some true) as Hmono.
  { intros f1 g _ He. unfold script_has. generalize (scriptPubKey g) at 2 4. induction (length (scriptPubKey g)) as [|fuel IHf]; intros pc; cbn [script_matches]; [done|].
    destruct (GetOp2 pc) as [[[op data] pc']|]; [|done]. destruct (bool_decide (data = [])); [apply IHf|].
    destruct (contains_iff data f Hu) as (b & Eb & _). rewrite Eb. cbn [mbind option_bind]. destruct b.
    - intros _. by rewrite (extends_contains f f1 data Hu He Eb).
    - intros Hx. destruct (contains_iff data f1 (extends_usable _ _ He Hu)) as (b1 & -> & _). cbn [mbind option_bind]. destruct b1; [done|by apply IHf]. }
  destruct found.
  - destruct (add_match (scriptPubKey txout) {| prevout_hash := hash; prevout_n := i |} f Hu) as (f1 & -> & He & Ha). cbn [mbind option_bind].
    destruct (IH (i + 1) true f1 (extends_usable _ _ He Hu)) as (r & f' & -> & He' & Hr & Hk). exists r, f'. split_and!; [done|by etrans|auto|].
    intros [|k] g Hg Hm; cbn in Hg.
    + split; [auto|]. intros Hflag. replace (i + Z.of_nat 0) with i by lia. eapply extends_contains; [exact (extends_usable _ _ He Hu)|exact He'|]. apply Ha.
      injection Hg as <-. unfold adds_outpoint. by rewrite Hflag.
    + destruct (Hk k g Hg (Hmono f1 g Hu He Hm)) as [? Hc]. split; [done|]. intros Hflag. replace (i + Z.of_nat (S k)) with (i + 1 + Z.of_nat k) by lia. apply Hc.
      destruct He as (_ & _ & _ & _ & -> & _). done.
  - destruct (IH (i + 1) fFound f Hu) as (r & f' & -> & He' & Hr & Hk). exists r, f'. split_and!; [done|done|done|].
    intros [|k] g Hg Hm; cbn in Hg; [injection Hg as <-; by rewrite Hs in Hm|]. replace (i + Z.of_nat (S k)) with (i + 1 + Z.of_nat k) by lia. exact (Hk k g Hg Hm).
Qed.
Lemma inputs_loop_spec l f : usable f → ∃ found, inputs_loop l f = Some found ∧
  ∀ txin, txin ∈ l → contains_outpoint txin.(prevout) f = Some true ∨ script_has txin.(scriptSig) f = Some true → found = true.
Proof.
  intros Hu. induction l as [|txin l IH]; cbn [inputs_loop]; [exists false; split; [done|]; intros txin H; by apply not_elem_of_nil in H|].
  destruct (contains_iff (c_outpoint.(enc) (prevout txin)) f Hu) as (b & Eb & _). fold (contains_outpoint (prevout txin) f) in Eb. rewrite Eb. cbn [mbind option_bind].
  destruct b; [by exists true|]. destruct (script_matches_defined (length (scriptSig txin)) (scriptSig txin) f Hu) as [found Hs]. fold (script_has (scriptSig txin) f) in Hs.
  rewrite Hs. cbn [mbind option_bind]. destruct found; [by exists true|]. destruct IH as (r & -> & Hr). exists r. split; [done|].
  intros t [->|Ht]%elem_of_cons; [|by apply Hr]. rewrite Eb, Hs. by intros [|].
Qed.

(** The parts of a transaction that a filter looks at. *)
Definition matches (tx : CTransaction) (f : CBloomFilter) : Prop :=
  contains_hash (GetHash tx) f = Some true ∨
  (∃ k txout data, tx.(vout) !! k = Some txout ∧ pushes txout.(scriptPubKey) data ∧ data ≠ [] ∧ contains data f = Some true) ∨
  (∃ txin, txin ∈ tx.(vin) ∧ contains_outpoint txin.(prevout) f = Some true) ∨
  (∃ txin data, txin ∈ tx.(vin) ∧ pushes txin.(scriptSig) data ∧ data ≠ [] ∧ contains data f = Some true).

Lemma relevant_spec tx f : usable f → ∃ found f', IsRelevantAndUpdate newP2CS tx f = Some (found, f') ∧ extends f f' ∧ (matches tx f → found = true) ∧
  (∀ k txout data, Z.land f.(nFlags) BLOOM_UPDATE_MASK = BLOOM_UPDATE_ALL → tx.(vout) !! k = Some txout → pushes txout.(scriptPubKey) data →
     data ≠ [] → contains data f = Some true → contains_outpoint {| prevout_hash := GetHash tx; prevout_n := Z.of_nat k |} f' = Some true).
Proof.
  intros Hu. unfold IsRelevantAndUpdate. destruct (isFull f) eqn:Ef; [exists true, f; split_and!; [done|done|done|]; intros; unfold contains_outpoint, contains; by rewrite Ef|]. destruct (isEmpty f) eqn:Ee.
  { assert (∀ d, contains d f ≠ Some true) as Hno by (intros d; unfold contains; by rewrite Ef, Ee). exists false, f. split_and!; [done|done| |].
    - intros [H|[(k & o & d & _ & _ & _ & H)|[(i & _ & H)|(i & d & _ & _ & _ & H)]]]; by destruct (Hno _ H).
    - intros k o d _ _ _ _ H. by destruct (Hno _ H). }
  destruct (contains_iff (c_uint256.(enc) (GetHash tx)) f Hu) as (here & Eh & _). fold (contains_hash (GetHash tx) f) in Eh. rewrite Eh. cbn [mbind option_bind].
  destruct (outputs_loop_spec (GetHash tx) 0 (vout tx) here f Hu) as (found & f' & -> & He & Hh & Hk). cbn [mbind option_bind].
  pose proof (extends_usable _ _ He Hu) as Hu'. destruct (inputs_loop_spec (vin tx) f' Hu') as (found2 & E2 & Hi).
  assert ((if found then Some (true, f') else found0 ← inputs_loop (vin tx) f'; Some (found0, f')) = Some (found || found2, f')) as -> by (destruct found; [done|by rewrite E2]).
  exists (found || found2), f'. split_and!; [done|done| |].
  - intros [H|[(k & o & d & Ho & Hp & Hn & Hc)|[(i & Hin & H)|(i & d & Hin & Hp & Hn & Hc)]]].
    + rewrite Eh in H. injection H as ->. by rewrite Hh.
    + destruct (Hk k o Ho) as [-> _]; [by apply (script_has_push _ d)|done].
    + rewrite (Hi i Hin); [apply orb_true_r|]. left. by apply (extends_contains f).
    + rewrite (Hi i Hin); [apply orb_true_r|]. right. apply (script_has_push _ d); [done..|]. by apply (extends_contains f).
  - intros k o d Hflag Ho Hp Hn Hc. destruct (Hk k o Ho) as [_ H]; [by apply (script_has_push _ d)|]. by apply H.
Qed.

(** The operations on the filter of a peer after it was loaded. *)
Inductive filter_op := Insert (vKey : list Z) | Relevant (tx : CTransaction).
Definition apply_op (op : filter_op) (f : CBloomFilter) : option CBloomFilter :=
  match op with Insert vKey => insert vKey f | Relevant tx => '(_, f) ← IsRelevantAndUpdate newP2CS tx f; Some f end.
Fixpoint apply_ops (ops : list filter_op) (f : CBloomFilter) : option CBloomFilter :=
  match ops with [] => Some f | op :: ops => f ← apply_op op f; apply_ops ops f end.

Lemma apply_ops_extends ops f : usable f → ∃ f', apply_ops ops f = Some f' ∧ extends f f'.
Proof.
  revert f. induction ops as [|op ops IH]; intros f Hu; cbn [apply_ops]; [by exists f|].
  assert (∃ f1, apply_op op f = Some f1 ∧ extends f f1) as (f1 & -> & He).
  { destruct op as [k|tx]; cbn [apply_op]; [destruct (insert_spec k f Hu) as (f1 & ? & ? & _); by exists f1|].
    destruct (relevant_spec tx f Hu) as (b & f1 & -> & ? & _). by exists f1. }
  cbn [mbind option_bind]. destruct (IH f1 (extends_usable _ _ He Hu)) as (f' & -> & He'). exists f'. split; [done|]. by etrans.
Qed.
Lemma apply_ops_app l1 l2 f : apply_ops (l1 ++ l2) f = (g ← apply_ops l1 f; apply_ops l2 g).
Proof. revert f. induction l1 as [|op l1 IH]; intros f; [done|]. cbn [app apply_ops]. destruct (apply_op op f); [apply IH|done]. Qed.
(** An inserted key stays contained. *)
Lemma apply_ops_insert ops1 vKey ops2 f : usable f →
  ∃ f1, apply_ops (ops1 ++ Insert vKey :: ops2) f = Some f1 ∧ extends f f1 ∧ contains vKey f1 = Some true.
Proof.
  intros Hu. destruct (apply_ops_extends ops1 f Hu) as (g1 & G1 & Hg1). rewrite apply_ops_app, G1. cbn [mbind option_bind apply_ops apply_op].
  pose proof (extends_usable _ _ Hg1 Hu) as Hu1. destruct (insert_spec vKey g1 Hu1) as (g2 & -> & Hg2 & Hc2). cbn [mbind option_bind].
  pose proof (extends_usable _ _ Hg2 Hu1) as Hu2. destruct (apply_ops_extends ops2 g2 Hu2) as (g3 & -> & Hg3). exists g3.
  split_and!; [done|by etrans; [|etrans]|by apply (extends_contains g2)].
Qed.
Lemma UpdateEmptyFull_usable f : usable (UpdateEmptyFull f).
Proof. unfold usable. cbn. destruct (vData f); [by right|by left]. Qed.

(** C24: a filter that a peer has loaded never misses a transaction.  Inserting
    a key and checking a transaction are always defined on it, also for a filter
    without bytes, and a key that was inserted is contained after any further
    insertions and checks.  If the key is not empty, a transaction with an
    output whose script pushes it is found, whatever the flags are; and if they
    say [BLOOM_UPDATE_ALL], so is every later transaction that spends that
    output. *)
Theorem filter_finds_payments_and_spends f0 ops1 vKey ops2 tx ops3 spend :
  let f := UpdateEmptyFull f0 in
  ∃ f1 found f2 f3 found' f4,
    apply_ops (ops1 ++ Insert vKey :: ops2) f = Some f1 ∧ contains vKey f1 = Some true ∧
    IsRelevantAndUpdate newP2CS tx f1 = Some (found, f2) ∧ apply_ops ops3 f2 = Some f3 ∧ contains vKey f3 = Some true ∧
    IsRelevantAndUpdate newP2CS spend f3 = Some (found', f4) ∧
    ∀ k txout, vKey ≠ [] → tx.(vout) !! k = Some txout → pushes txout.(scriptPubKey) vKey →
      found = true ∧
      (Z.land f.(nFlags) BLOOM_UPDATE_MASK = BLOOM_UPDATE_ALL → ∀ txin, txin ∈ spend.(vin) →
         txin.(prevout) = {| prevout_hash := GetHash tx; prevout_n := Z.of_nat k |} → found' = true).
Proof.
  cbn zeta. set (f := UpdateEmptyFull f0). pose proof (UpdateEmptyFull_usable f0) as Hu. fold f in Hu.
  destruct (apply_ops_insert ops1 vKey ops2 f Hu) as (f1 & E1 & He1 & Hc1).
  pose proof (extends_usable _ _ He1 Hu) as Hu1. destruct (relevant_spec tx f1 Hu1) as (found & f2 & E2 & He2 & Hm & Hadd).
  pose proof (extends_usable _ _ He2 Hu1) as Hu2.
  destruct (apply_ops_extends ops3 f2 Hu2) as (f3 & E3 & He3). pose proof (extends_usable _ _ He3 Hu2) as Hu3.
  destruct (relevant_spec spend f3 Hu3) as (found' & f4 & E4 & _ & Hm4 & _). exists f1, found, f2, f3, found', f4. split_and!; [done|done|done|done| |done|].
  - eapply extends_contains; [exact Hu2|exact He3|]. by apply (extends_contains f1).
  - intros k txout Hn Hout Hp. split; [apply Hm; right; left; by exists k, txout, vKey|]. intros Hflag txin Hin Hprev.
    apply Hm4. right; right; left. exists txin. split; [done|]. rewrite Hprev. eapply extends_contains; [exact Hu2|exact He3|].
    destruct He1 as (_ & _ & _ & _ & F2 & _). eapply Hadd; [by rewrite F2|done..].
Qed.
End found.

(** ** The rolling filter remembers the last elements *)

Definition in_range (p : Z) (d : list Z) : Prop := 0 <= p < Z.of_nat (length d) * 16.
Lemma cell_of_lt p d : in_range p d → cell_of p d = Z.to_nat (p / 16) ∧ (cell_of p d < length d)%nat.
Proof.
  intros Hp. unfold cell_of. rewrite Z.shiftr_div_pow2 by lia. change (2 ^ 4) with 16. unfold in_range in Hp.
  pose proof (Z.div_lt_upper_bound p 16 (Z.of_nat (length d)) ltac:(lia) ltac:(lia)). pose proof (Z.div_pos p 16 ltac:(lia) ltac:(lia)).
  rewrite Z.mod_small by lia. split; [done|lia].
Qed.
Lemma low_four p : Z.land p 0xF = p mod 16.
Proof. change 0xF with (Z.ones 4). by rewrite Z.land_ones. Qed.
Lemma two_bits_eq c c' k k' : 0 <= k → 0 <= k' → (∀ i, 0 <= i < 2 → Z.testbit c (k + i) = Z.testbit c' (k' + i)) →
  Z.land (Z.shiftr c k) 0x3 = Z.land (Z.shiftr c' k') 0x3.
Proof.
  intros Hk Hk' H. apply Z.bits_inj'. intros i Hi. rewrite !Z.land_spec, !Z.shiftr_spec by done. change 0x3 with (Z.ones 2). destruct (decide (i < 2)).
  - rewrite Z.ones_spec_low by lia. rewrite !andb_true_r, !(Z.add_comm i). apply H. lia.
  - rewrite Z.ones_spec_high by lia. by rewrite !andb_false_r.
Qed.
Lemma put_cell_bit p v c i : 0 <= i < 32 → Z.testbit (put_cell p v c) i =
  (Z.testbit c i && negb (Z.testbit 3 (i - 2 * (p mod 16)))) || Z.testbit v (i - 2 * (p mod 16)).
Proof.
  intros Hi. unfold put_cell. rewrite low_four, Z.lor_spec, Z.land_spec. unfold u32. rewrite !Z.mod_pow2_bits_low, Z.lnot_spec, Z.mod_pow2_bits_low, !Z.shiftl_spec by lia. done.
Qed.
Lemma get_put p q v d : in_range p d → in_range q d → 0 <= v < 4 → get q (put p v d) = if decide (p = q) then v else get q d.
Proof.
  intros Hp Hq Hv. unfold get. assert (cell_of q (put p v d) = cell_of q d) as -> by (unfold cell_of, put; by rewrite length_alter).
  destruct (cell_of_lt p d Hp) as [Ep Lp], (cell_of_lt q d Hq) as [Eq Lq]. unfold put. rewrite list_lookup_alter. unfold in_range in *.
  pose proof (Z.mod_pos_bound p 16 ltac:(lia)). pose proof (Z.mod_pos_bound q 16 ltac:(lia)). rewrite low_four.
  destruct (lookup_lt_is_Some_2 d (cell_of q d) Lq) as [c Hc]. destruct (decide (p = q)) as [->|Hpq].
  - rewrite decide_True by done. rewrite Hc. cbn [fmap option_fmap option_map from_option id].
    transitivity (Z.land (Z.shiftr v 0) 0x3); [|rewrite Z.shiftr_0_r; change 0x3 with (Z.ones 2); rewrite Z.land_ones, Z.mod_small; lia].
    apply two_bits_eq; [lia..|]. intros i Hi. rewrite put_cell_bit by lia. replace (2 * (q mod 16) + i - 2 * (q mod 16)) with i by lia. rewrite Z.add_0_l.
    assert (Z.testbit 3 i = true) as -> by (assert (i = 0 ∨ i = 1) as [-> | ->] by lia; done). by rewrite andb_false_r.
  - destruct (decide (cell_of p d = cell_of q d)) as [Hcell|]; [|done]. rewrite Hcell, Hc. cbn [fmap option_fmap option_map from_option id].
    assert (p / 16 = q / 16) as Hdiv by (rewrite Ep, Eq in Hcell; apply Z2Nat.inj in Hcell; [done|by apply Z.div_pos; lia..]).
    assert (p mod 16 ≠ q mod 16) as Hmod by (intros E; apply Hpq; rewrite (Z.div_mod p 16), (Z.div_mod q 16) by lia; by rewrite Hdiv, E).
    apply two_bits_eq; [lia..|]. intros i Hi. rewrite put_cell_bit by lia. set (j := 2 * (q mod 16) + i - 2 * (p mod 16)).
    assert (j < 0 ∨ 2 <= j) as Hj by lia. assert (∀ w, 0 <= w < 4 → Z.testbit w j = false) as Hw.
    { intros w Hw. destruct Hj; [by apply Z.testbit_neg_r|]. destruct (decide (w = 0)) as [->|]; [apply Z.testbit_0_l|]. apply Z.bits_above_log2; [lia|].
      apply Z.log2_lt_pow2; [lia|]. pose proof (Z.pow_le_mono_r 2 2 j ltac:(lia) ltac:(lia)). lia. }
    rewrite !Hw by lia. by rewrite orb_false_r, andb_true_r.
Qed.
Lemma length_put p v d : length (put p v d) = length d.
Proof. apply length_alter. Qed.

(** Wiping a generation touches the cells of that generation only, and leaves
    none of them. *)
Lemma wipe_spec g d : 1 <= g < 4 → length (wipe g d) = length d ∧ ∀ q, in_range q d → get q (wipe g d) = if get q d =? g then 0 else get q d.
Proof.
  intros Hg. unfold wipe. set (k := (length d * 16)%nat).
  assert (∀ n m d1, (m + n <= k)%nat → length d1 = length d → let d2 := foldl (wipe_one g) d1 (Z.of_nat <$> seq m n) in
    length d2 = length d ∧ ∀ q, in_range q d → get q d2 = if (Z.of_nat m <=? q) && (q <? Z.of_nat (m + n)) && (get q d1 =? g) then 0 else get q d1) as H.
  { induction n as [|n IH]; intros m d1 Hm Hl; cbn [seq fmap list_fmap foldl].
    - split; [done|]. intros q _. destruct (Z.leb_spec (Z.of_nat m) q), (Z.ltb_spec q (Z.of_nat (m + 0))); try lia; done.
    - assert (in_range (Z.of_nat m) d1) as Hr by (unfold in_range; rewrite Hl; lia).
      assert (length (wipe_one g d1 (Z.of_nat m)) = length d) as Hl1 by (unfold wipe_one; case_match; rewrite ?length_put; done).
      destruct (IH (S m) _ ltac:(lia) Hl1) as [Hl2 Hq]. split; [done|]. intros q Hqr. rewrite Hq by done. assert (in_range q d1) as Hq1 by (unfold in_range in *; by rewrite Hl).
      assert (get q (wipe_one g d1 (Z.of_nat m)) = if decide (Z.of_nat m = q) then (if get q d1 =? g then 0 else get q d1) else get q d1) as ->.
      { unfold wipe_one. destruct (get (Z.of_nat m) d1 =? g) eqn:E; [rewrite get_put by (done || lia)|]; destruct (decide (Z.of_nat m = q)) as [<-|]; rewrite ?E; done. }
      destruct (decide (Z.of_nat m = q)) as [<-|Hne].
      + rewrite (proj2 (Z.leb_gt (Z.of_nat (S m)) (Z.of_nat m))) by lia. rewrite (proj2 (Z.leb_le (Z.of_nat m) (Z.of_nat m))), (proj2 (Z.ltb_lt (Z.of_nat m) (Z.of_nat (m + S n)))) by lia. done.
      + replace (Z.of_nat (S m + n)) with (Z.of_nat (m + S n)) by lia. assert ((Z.of_nat (S m) <=? q) = (Z.of_nat m <=? q)) as -> by (apply eq_true_iff_eq; rewrite !Z.leb_le; lia). done. }
  destruct (H k O d ltac:(lia) eq_refl) as [Hl Hq]. split; [done|]. intros q Hr. rewrite Hq by done. unfold in_range in Hr.
  rewrite (proj2 (Z.leb_le _ _)), (proj2 (Z.ltb_lt _ _)) by (subst k; lia). done.
Qed.

Definition next_gen (g : Z) : Z := if g + 1 =? 4 then 1 else g + 1.
Definition r_index (r : CRollingBloomFilter) (vKey : list Z) (n : nat) : Z := MurmurHash3 (hash_seed (Z.of_nat n) r.(r_nTweak)) vKey mod (Z.of_nat (length r.(cells)) * 16).
Record wf_rolling (r : CRollingBloomFilter) : Prop := {
  wr_cells : r.(cells) ≠ [];
  wr_generation : 1 <= r.(nGeneration) < 4;
  wr_entries : 0 <= r.(nEntriesThisGeneration) <= r.(nEntriesPerGeneration);
  wr_per : 1 <= r.(nEntriesPerGeneration);
}.
Definition same_params (r r' : CRollingBloomFilter) : Prop :=
  length r'.(cells) = length r.(cells) ∧ r'.(nEntriesPerGeneration) = r.(nEntriesPerGeneration) ∧ r'.(r_nTweak) = r.(r_nTweak) ∧ r'.(r_nHashFuncs) = r.(r_nHashFuncs).
Lemma r_index_range r vKey n : r.(cells) ≠ [] → Rolling_Hash r (Z.of_nat n) vKey = Some (r_index r vKey n) ∧ in_range (r_index r vKey n) r.(cells).
Proof.
  intros Hd. assert (0 < Z.of_nat (length (cells r))) by (destruct (cells r); [done|cbn; lia]). unfold Rolling_Hash, r_index, in_range.
  rewrite (proj2 (Z.eqb_neq _ 0)) by lia. split; [done|]. apply Z.mod_pos_bound. lia.
Qed.
Definition with_cells (d : list Z) (r : CRollingBloomFilter) : CRollingBloomFilter :=
  mkRolling r.(nEntriesPerGeneration) r.(nEntriesThisGeneration) r.(nGeneration) d r.(r_nTweak) r.(r_nHashFuncs).
Lemma rolling_loop_spec ns vKey r : r.(cells) ≠ [] → 1 <= r.(nGeneration) < 4 → ∃ d, rolling_loop ns vKey r = Some (with_cells d r) ∧ length d = length r.(cells) ∧
  (∀ q, in_range q r.(cells) → get q d = get q r.(cells) ∨ get q d = r.(nGeneration)) ∧ (∀ n, n ∈ ns → get (r_index r vKey n) d = r.(nGeneration)).
Proof.
  revert r. induction ns as [|n ns IH]; intros r Hd Hg; cbn [rolling_loop].
  - exists r.(cells). split; [by destruct r|]. split_and!; [done|by left|]. intros n H. by apply not_elem_of_nil in H.
  - destruct (r_index_range r vKey n Hd) as [-> Hr]. cbn [mbind option_bind]. set (r1 := with_cells (put (r_index r vKey n) (nGeneration r) (cells r)) r).
    change (mkRolling _ _ _ _ _ _) with r1. assert (length (cells r1) = length (cells r)) as Hl1 by apply length_put.
    assert (cells r1 ≠ []) as Hd1 by (intros E; rewrite E in Hl1; by destruct (cells r)). destruct (IH r1 Hd1 Hg) as (d & -> & Hl & Hk & Hn). exists d.
    assert (∀ q, in_range q (cells r) → get q (cells r1) = if decide (r_index r vKey n = q) then nGeneration r else get q (cells r)) as H1
      by (intros q Hq; cbn [r1 cells with_cells]; by rewrite get_put by (done || lia)).
    assert (∀ q, in_range q (cells r) → in_range q (cells r1)) as Hr1 by (intros q; unfold in_range; by rewrite Hl1).
    split_and!; [done|congruence| |].
    + intros q Hq. destruct (Hk q (Hr1 q Hq)) as [->| ->]; [|by right]. rewrite H1 by done. destruct (decide _); auto.
    + assert (∀ m, r_index r1 vKey m = r_index r vKey m) as Ei by (intros m; unfold r_index; by rewrite Hl1).
      intros m [->|Hm]%elem_of_cons; [|rewrite <- Ei; by apply Hn]. destruct (Hk _ (Hr1 _ Hr)) as [->| ->]; [|done]. rewrite H1 by done. by rewrite decide_True.
Qed.

(** One insertion: at the end of a generation, the oldest one is wiped. *)
Lemma Rolling_insert_spec vKey r : wf_rolling r → ∃ r', Rolling_insert vKey r = Some r' ∧ wf_rolling r' ∧ same_params r r' ∧
  let switch := bool_decide (r.(nEntriesThisGeneration) = r.(nEntriesPerGeneration)) in
  r'.(nEntriesThisGeneration) = (if switch then 1 else r.(nEntriesThisGeneration) + 1) ∧
  r'.(nGeneration) = (if switch then next_gen r.(nGeneration) else r.(nGeneration)) ∧
  (∀ q, in_range q r.(cells) → get q r'.(cells) = r'.(nGeneration) ∨ (get q r'.(cells) = get q r.(cells)) ∨ (switch = true ∧ get q r.(cells) = r'.(nGeneration))) ∧
  (∀ n, (n < Z.to_nat r.(r_nHashFuncs))%nat → get (r_index r vKey n) r'.(cells) = r'.(nGeneration)).
Proof.
  intros [Hd Hg He Hp]. unfold Rolling_insert, next_generation. change (if nGeneration r + 1 =? 4 then 1 else nGeneration r + 1) with (next_gen (nGeneration r)).
  assert (1 <= next_gen (nGeneration r) < 4) as Hng by (unfold next_gen; destruct (Z.eqb_spec (nGeneration r + 1) 4); lia).
  assert ((nEntriesThisGeneration r =? nEntriesPerGeneration r) = bool_decide (nEntriesThisGeneration r = nEntriesPerGeneration r)) as ->
    by (apply eq_true_iff_eq; by rewrite Z.eqb_eq, bool_decide_eq_true).
  destruct (wipe_spec (next_gen (nGeneration r)) (cells r) Hng) as [Hwl Hw]. case_bool_decide as Hs; cbn [nEntriesPerGeneration nEntriesThisGeneration nGeneration cells r_nTweak r_nHashFuncs].
  - set (r1 := mkRolling _ _ _ _ _ _). assert (cells r1 ≠ []) as Hd1 by (intros E; cbn in E; rewrite E in Hwl; by destruct (cells r)).
    destruct (rolling_loop_spec (seq 0 (Z.to_nat (r_nHashFuncs r))) vKey r1 Hd1 Hng) as (d & -> & Hl & Hk & Hn). eexists. split; [done|]. cbn [r1 cells] in Hl. rewrite Hwl in Hl.
    split_and!; try done.
    + split; cbn; [intros ->; by destruct (cells r)|lia..].
    + intros q Hq. cbn [with_cells cells nGeneration r1]. destruct (Hk q) as [Ek|Ek]; [unfold in_range; cbn [r1 cells]; by rewrite Hwl| |by left].
      rewrite Ek. cbn [r1 cells]. rewrite Hw by done. destruct (Z.eqb_spec (get q (cells r)) (next_gen (nGeneration r))); [by right; right|by right; left].
    + intros n Hlt. transitivity (nGeneration r1); [|done]. rewrite <- (Hn n) by (apply elem_of_seq; lia). cbn [with_cells cells]. f_equal. unfold r_index. cbn [r1 cells r_nTweak]. by rewrite Hwl.
  - set (r1 := mkRolling _ _ _ _ _ _). destruct (rolling_loop_spec (seq 0 (Z.to_nat (r_nHashFuncs r))) vKey r1 Hd Hg) as (d & -> & Hl & Hk & Hn). eexists. split; [done|]. cbn [r1 cells] in Hl.
    split_and!; try done.
    + split; cbn; [intros ->; by destruct (cells r)|lia..].
    + intros q Hq. destruct (Hk q Hq) as [Ek|Ek]; [right; by left|by left].
    + intros n Hlt. apply Hn, elem_of_seq. lia.
Qed.
Lemma Rolling_contains_spec vKey r : r.(cells) ≠ [] → (∀ n, (n < Z.to_nat r.(r_nHashFuncs))%nat → get (r_index r vKey n) r.(cells) ≠ 0) → Rolling_contains vKey r = Some true.
Proof.
  intros Hd Hn. unfold Rolling_contains. assert (∀ l, (∀ n, n ∈ l → (n < Z.to_nat (r_nHashFuncs r))%nat) → rolling_contains_loop l vKey r = Some true) as H.
  { induction l as [|n l IH]; intros Hl; cbn [rolling_contains_loop]; [done|]. rewrite (proj1 (r_index_range r vKey n Hd)). cbn [mbind option_bind].
    rewrite (proj2 (Z.eqb_neq _ 0)) by (apply Hn, Hl; left). apply IH. intros m Hm. apply Hl; by right. }
  apply H. intros n Hm. apply elem_of_seq in Hm. lia.
Qed.

Fixpoint insert_all (keys : list (list Z)) (r : CRollingBloomFilter) : option CRollingBloomFilter :=
  match keys with [] => Some r | k :: keys => r ← Rolling_insert k r; insert_all keys r end.

(** [r] is [s] generations after [g0], and the positions of the key hold one
    of the generations since. *)
Definition holds (vKey : list Z) (g0 : Z) (s : nat) (r : CRollingBloomFilter) : Prop :=
  r.(nGeneration) = Nat.iter s next_gen g0 ∧ ∀ n, (n < Z.to_nat r.(r_nHashFuncs))%nat → ∃ i, (i <= s)%nat ∧ get (r_index r vKey n) r.(cells) = Nat.iter i next_gen g0.
Lemma generations_differ g0 s i : 1 <= g0 < 4 → (s <= 1)%nat → (i <= s)%nat → Nat.iter i next_gen g0 ≠ Nat.iter (S s) next_gen g0.
Proof.
  intros Hg Hs Hi. assert (g0 = 1 ∨ g0 = 2 ∨ g0 = 3) as Hc by lia. destruct s as [|[|]]; [| |lia]; (destruct i as [|[|]]; [| |lia] || idtac);
    destruct Hc as [->|[-> | ->]]; try lia; done.
Qed.
Lemma holds_insert vKey g0 s key r : 1 <= g0 < 4 → wf_rolling r → holds vKey g0 s r → Z.of_nat s * r.(nEntriesPerGeneration) + r.(nEntriesThisGeneration) < 3 * r.(nEntriesPerGeneration) →
  ∃ r' s', Rolling_insert key r = Some r' ∧ wf_rolling r' ∧ same_params r r' ∧ holds vKey g0 s' r' ∧
    Z.of_nat s' * r.(nEntriesPerGeneration) + r'.(nEntriesThisGeneration) = Z.of_nat s * r.(nEntriesPerGeneration) + r.(nEntriesThisGeneration) + 1.
Proof.
  intros Hg Hwf [Hgen Hpos] Hage. destruct (Rolling_insert_spec key r Hwf) as (r' & -> & Hwf' & Hsame & Ht & Hg' & Hq & _). destruct Hwf as [Hd _ He Hp].
  exists r'. assert (∀ n, r_index r' vKey n = r_index r vKey n) as Ei by (intros n; destruct Hsame as (El & _ & Et & _); unfold r_index; by rewrite El, Et).
  case_bool_decide as Hs.
  - exists (S s). assert (s <= 1)%nat as Hs1 by nia. split_and!; [done..| |nia]. split; [by rewrite Hg', Hgen|]. intros n Hn. destruct Hsame as (_ & _ & _ & Eh). rewrite Eh in Hn.
    rewrite Ei. destruct (Hpos n Hn) as (i & Hi & E). destruct (Hq _ (proj2 (r_index_range r vKey n Hd))) as [->|[->|[_ E']]].
    + exists (S s). split; [lia|]. by rewrite Hg', Hgen.
    + exists i. split; [lia|done].
    + destruct (generations_differ g0 s i Hg Hs1 Hi). rewrite <- E, E', Hg', Hgen. done.
  - exists s. split_and!; [done..| |nia]. split; [by rewrite Hg'|]. intros n Hn. destruct Hsame as (_ & _ & _ & Eh). rewrite Eh in Hn. rewrite Ei.
    destruct (Hq _ (proj2 (r_index_range r vKey n Hd))) as [->|[->|[? _]]]; [|by apply Hpos|done]. exists s. split; [done|]. by rewrite Hg'.
Qed.
Lemma insert_all_wf keys r : wf_rolling r → ∃ r', insert_all keys r = Some r' ∧ wf_rolling r' ∧ same_params r r'.
Proof.
  revert r. induction keys as [|k keys IH]; intros r Hwf; cbn [insert_all]; [by exists r|].
  destruct (Rolling_insert_spec k r Hwf) as (r1 & -> & Hwf1 & Hs & _). cbn [mbind option_bind]. destruct (IH r1 Hwf1) as (r' & -> & Hwf' & Hs'). exists r'. split_and!; [done..|].
  destruct Hs as (A & B & C & D), Hs' as (A' & B' & C' & D'). split_and!; congruence.
Qed.
Lemma insert_all_app l1 l2 r : insert_all (l1 ++ l2) r = (r ← insert_all l1 r; insert_all l2 r).
Proof. revert r. induction l1 as [|k l1 IH]; intros r; [done|]. cbn [app insert_all]. destruct (Rolling_insert k r); [apply IH|done]. Qed.
Lemma holds_insert_all vKey g0 keys s r : 1 <= g0 < 4 → wf_rolling r → holds vKey g0 s r →
  Z.of_nat s * r.(nEntriesPerGeneration) + r.(nEntriesThisGeneration) + Z.of_nat (length keys) <= 3 * r.(nEntriesPerGeneration) →
  ∃ r' s', insert_all keys r = Some r' ∧ wf_rolling r' ∧ holds vKey g0 s' r'.
Proof.
  intros Hg. revert s r. induction keys as [|k keys IH]; intros s r Hwf Hh Hage; cbn [insert_all]; [by exists r, s|]. cbn [length] in Hage.
  destruct (holds_insert vKey g0 s k r Hg Hwf Hh ltac:(lia)) as (r1 & s1 & -> & Hwf1 & (_ & Ep & _) & Hh1 & Ha). cbn [mbind option_bind]. apply (IH s1 r1); [done..|]. rewrite Ep. lia.
Qed.

(** C25: the rolling filter remembers the last elements.  Whatever was inserted
    before, an element is contained as long as at most [nElements] others were
    inserted after it, across every change of the generation. *)
Theorem rolling_remembers nElements hashes size tweak before vKey after :
  1 <= nElements < 2 ^ 32 - 1 → 0 < Z.of_nat size < 2 ^ 28 → Z.of_nat (length after) <= nElements →
  ∃ r, insert_all (before ++ vKey :: after) (new_rolling nElements hashes size tweak) = Some r ∧ Rolling_contains vKey r = Some true.
Proof.
  intros Hn Hs Hl. set (r0 := new_rolling nElements hashes size tweak).
  assert (nElements <= 2 * nEntriesPerGeneration r0) as Hper.
  { cbn. unfold u32. rewrite Z.mod_small by lia. pose proof (Z.div_mod (nElements + 1) 2 ltac:(lia)). pose proof (Z.mod_pos_bound (nElements + 1) 2 ltac:(lia)). lia. }
  assert (wf_rolling r0) as Hwf0 by (split; cbn [r0 new_rolling cells nGeneration nEntriesThisGeneration]; [by destruct size; [lia|]|lia..]).
  destruct (insert_all_wf before r0 Hwf0) as (r1 & E1 & Hwf1 & Hsame1). destruct (Rolling_insert_spec vKey r1 Hwf1) as (r2 & E2 & Hwf2 & Hsame2 & _ & _ & _ & Hkey).
  assert (holds vKey (nGeneration r2) 0 r2) as Hh.
  { split; [done|]. destruct Hsame2 as (A & _ & C & D). rewrite D. intros n Hlt. exists O. split; [lia|]. rewrite <- (Hkey n Hlt). f_equal. unfold r_index. by rewrite A, C. }
  destruct (holds_insert_all vKey (nGeneration r2) after 0 r2) as (r & s & E3 & [Hd Hg _ _] & Hgen & Hpos); [apply Hwf2|done|done| |].
  { destruct Hwf2 as [_ _ He _], Hsame1 as (_ & B & _), Hsame2 as (_ & B' & _). lia. }
  exists r. split; [rewrite insert_all_app, E1; cbn [mbind option_bind insert_all]; by rewrite E2|]. apply Rolling_contains_spec; [done|]. intros n Hlt.
  destruct (Hpos n Hlt) as (i & _ & ->). assert (1 <= Nat.iter i next_gen (nGeneration r2) < 4); [|lia]. clear -Hwf2. destruct Hwf2 as [_ Hg _ _].
  induction i as [|i IH]; [done|]. cbn [Nat.iter nat_rect]. unfold next_gen at 1 3. fold (Nat.iter i next_gen (nGeneration r2)). destruct (Z.eqb_spec (Nat.iter i next_gen (nGeneration r2) + 1) 4); lia.
Qed.

(** ** Samples *)

#[local] Instance bloom_crypto : ScriptCrypto := sample_crypto.
Definition wallet_filter : CBloomFilter := mkFilter [0; 0; 0; 0; 0; 0; 0; 0] true false 3 7 BLOOM_UPDATE_ALL.
Definition funding : CTransaction := CoinsUpdate.sample_coinbase.
Definition paying : CTransaction :=
  {| nVersion := 1; nType := 0; vin := funding.(vin); vout := [{| nValue := 5; scriptPubKey := [OP_DUP; OP_HASH160; 3; 1; 2; 3; OP_EQUALVERIFY; OP_CHECKSIG]; nRounds := 0 |}];
     nLockTime := 0; sapData := None; extraPayload := None; walletSenderId := funding.(walletSenderId) |}.
Definition spending_it : CTransaction := payment {| prevout_hash := GetHash paying; prevout_n := 0 |} [1; 9] [4].

Lemma filter_finds_payments_and_spends_witness : ∃ f1 f2 f3 f4,
  apply_ops false ([Relevant funding] ++ Insert [1; 2; 3] :: [Insert [4]]) (UpdateEmptyFull wallet_filter) = Some f1 ∧ contains [1; 2; 3] f1 = Some true ∧
  IsRelevantAndUpdate false paying f1 = Some (true, f2) ∧ apply_ops false [Insert [5]] f2 = Some f3 ∧ contains [1; 2; 3] f3 = Some true ∧
  IsRelevantAndUpdate false spending_it f3 = Some (true, f4).
Proof.
  destruct (filter_finds_payments_and_spends false wallet_filter [Relevant funding] [1; 2; 3] [Insert [4]] paying [Insert [5]] spending_it)
    as (f1 & found & f2 & f3 & found' & f4 & E1 & C1 & E2 & E3 & C3 & E4 & H).
  edestruct (H 0%nat) as [-> Hs]; [discriminate|reflexivity| |].
  { do 2 (eapply pushes_later; [reflexivity|]). eapply pushes_here. reflexivity. }
  assert (found' = true) as -> by (eapply Hs; [reflexivity|left|reflexivity]).
  exists f1, f2, f3, f4. split_and!; assumption.
Defined.

Lemma rolling_remembers_witness : ∃ r,
  insert_all ([[1]; [2]; [3]] ++ [7; 7] :: [[4]; [5]; [6]]) (new_rolling 3 2 4 99) = Some r ∧ Rolling_contains [7; 7] r = Some true.
Proof. apply (rolling_remembers 3 2 4 99 [[1]; [2]; [3]] [7; 7] [[4]; [5]; [6]]); cbn; lia. Defined.

(** Merging does not update the flag for an empty filter, so what the other
    filter had is not found. *)
Example Merge_keeps_isEmpty :
  let f := clear wallet_filter in let g := default default_filter (insert [1; 2; 3] f) in
  contains [1; 2; 3] g = Some true ∧ match Merge g f with Some (true, m) => contains [1; 2; 3] m = Some false | _ => False end.
Proof. split; vm_compute; reflexivity. Qed.
(** Merging a full filter is undefined. *)
Example Merge_full : Merge (mkFilter [0xff] true false 1 0 0) (clear (mkFilter [0] false true 1 0 0)) = None.
Proof. reflexivity. Qed.
