(* ===== verification/MerkleBlock.v ===== *)
(** * MerkleBlock: partial merkle trees ([merkleblock.h], [merkleblock.cpp])

    A block that is filtered for a light client is its header and a partial
    merkle tree: the hashes that are needed to compute the merkle root from the
    transactions that matched.  The tree is built by one recursion and read by
    another one, which consumes the bits and hashes in the same order.

    [None] is an access outside of a vector.  The height of a tree is a natural
    number, since the loop that computes it starts at zero; it ends below 32 for
    fewer than [2 ^ 31] transactions. *)

From S2P Require Import Prelude ArithUint256 Script Interpreter Serialize Transaction CoinsUpdate Crypto Sha2 Hash Merkle Block Bloom.
Local Open Scope Z_scope.

Section merkleblock.
Context `{SCr : ScriptCrypto}.

Record CPartialMerkleTree := mkPartial {
  nTransactions : Z;
  vBits : list bool;
  vHash : list base_uint;
  fBad : bool;
}.
Definition default_partial : CPartialMerkleTree := mkPartial 0 [] [] true.

Definition CalcTreeWidth (n : Z) (height : nat) : Z :=
  Z.shiftr (u32 (u32 (n + u32 (Z.shiftl 1 (Z.of_nat height))) - 1)) (Z.of_nat height).
Fixpoint height_loop (fuel : nat) (n : Z) (nHeight : nat) : nat :=
  match fuel with
  | O => nHeight
  | S fuel => if 1 <? CalcTreeWidth n nHeight then height_loop fuel n (S nHeight) else nHeight
  end.
Definition tree_height (n : Z) : nat := height_loop 32 n 0.

Fixpoint CalcHash (n : Z) (height : nat) (pos : Z) (vTxid : list base_uint) : option base_uint :=
  match height with
  | O => vTxid !! Z.to_nat pos
  | S height =>
      l ← CalcHash n height (u32 (pos * 2)) vTxid;
      r ← (if u32 (u32 (pos * 2) + 1) <? CalcTreeWidth n height then CalcHash n height (u32 (u32 (pos * 2) + 1)) vTxid else Some l);
      Some (hash_pair l r)
  end.

(** The loop over the leaves below a node. *)
Definition parent_of_match (n : Z) (height : nat) (pos : Z) (vMatch : list bool) : option bool :=
  let first := u32 (Z.shiftl pos (Z.of_nat height)) in
  let last := Z.min (u32 (Z.shiftl (u32 (pos + 1)) (Z.of_nat height))) n in
  bits ← mapM (λ p, vMatch !! Z.to_nat p) (seqZ first (last - first));
  Some (existsb id bits).
Definition push_bit (b : bool) (t : CPartialMerkleTree) : CPartialMerkleTree := mkPartial t.(nTransactions) (t.(vBits) ++ [b]) t.(vHash) t.(fBad).
Definition push_hash (h : base_uint) (t : CPartialMerkleTree) : CPartialMerkleTree := mkPartial t.(nTransactions) t.(vBits) (t.(vHash) ++ [h]) t.(fBad).

Fixpoint TraverseAndBuild (height : nat) (pos : Z) (vTxid : list base_uint) (vMatch : list bool) (t : CPartialMerkleTree) : option CPartialMerkleTree :=
  fParentOfMatch ← parent_of_match t.(nTransactions) height pos vMatch;
  let t := push_bit fParentOfMatch t in
  match height with
  | O => h ← CalcHash t.(nTransactions) 0 pos vTxid; Some (push_hash h t)
  | S height' =>
      if (fParentOfMatch : bool) then
        t ← TraverseAndBuild height' (u32 (pos * 2)) vTxid vMatch t;
        if u32 (u32 (pos * 2) + 1) <? CalcTreeWidth t.(nTransactions) height' then TraverseAndBuild height' (u32 (u32 (pos * 2) + 1)) vTxid vMatch t else Some t
      else h ← CalcHash t.(nTransactions) height pos vTxid; Some (push_hash h t)
  end.
(** The constructor from a list of hashes and a mask. *)
Definition new_partial (vTxid : list base_uint) (vMatch : list bool) : option CPartialMerkleTree :=
  let n := u32 (Z.of_nat (length vTxid)) in TraverseAndBuild (tree_height n) 0 vTxid vMatch (mkPartial n [] [] false).

(** What [TraverseAndExtract] changes. *)
Record extraction := mkExtraction { nBitsUsed : nat; nHashUsed : nat; matched : list base_uint; bad : bool }.
Definition set_bad (s : extraction) : extraction := mkExtraction s.(nBitsUsed) s.(nHashUsed) s.(matched) true.
Definition use_bit (s : extraction) : extraction := mkExtraction (S s.(nBitsUsed)) s.(nHashUsed) s.(matched) s.(bad).
Definition use_hash (here : bool) (h : base_uint) (s : extraction) : extraction :=
  mkExtraction s.(nBitsUsed) (S s.(nHashUsed)) (if here then s.(matched) ++ [h] else s.(matched)) s.(bad).

Fixpoint TraverseAndExtract (t : CPartialMerkleTree) (height : nat) (pos : Z) (s : extraction) : base_uint * extraction :=
  match t.(vBits) !! s.(nBitsUsed) with
  | None => (uint_zero 8, set_bad s)
  | Some fParentOfMatch =>
      let s := use_bit s in
      let stored here := match t.(vHash) !! s.(nHashUsed) with None => (uint_zero 8, set_bad s) | Some h => (h, use_hash here h s) end in
      match height with
      | O => stored fParentOfMatch
      | S height =>
          if (fParentOfMatch : bool) then
            let '(l, s) := TraverseAndExtract t height (u32 (pos * 2)) s in
            let '(r, s) := (if u32 (u32 (pos * 2) + 1) <? CalcTreeWidth t.(nTransactions) height then TraverseAndExtract t height (u32 (u32 (pos * 2) + 1)) s else (l, s)) in
            (hash_pair l r, s)
          else stored false
      end
  end.
(** The root, the matched hashes and the tree, whose flag may have been set. *)
Definition ExtractMatches (t : CPartialMerkleTree) : base_uint * list base_uint * CPartialMerkleTree :=
  if t.(nTransactions) =? 0 then (uint_zero 8, [], t)
  else if MAX_BLOCK_SIZE_CURRENT / 60 <? t.(nTransactions) then (uint_zero 8, [], t)
  else if t.(nTransactions) <? Z.of_nat (length t.(vHash)) then (uint_zero 8, [], t)
  else if bool_decide (length t.(vBits) < length t.(vHash))%nat then (uint_zero 8, [], t)
  else
    let '(hashMerkleRoot, s) := TraverseAndExtract t (tree_height t.(nTransactions)) 0 (mkExtraction 0 0 [] t.(fBad)) in
    let t' := mkPartial t.(nTransactions) t.(vBits) t.(vHash) s.(bad) in
    if s.(bad) then (uint_zero 8, s.(matched), t')
    else if negb (bool_decide ((s.(nBitsUsed) + 7) / 8 = (length t.(vBits) + 7) / 8)%nat) then (uint_zero 8, s.(matched), t')
    else if negb (bool_decide (s.(nHashUsed) = length t.(vHash))) then (uint_zero 8, s.(matched), t')
    else (hashMerkleRoot, s.(matched), t').

(** Eight bits in a byte, the first one lowest. *)
Fixpoint pack_byte (k : nat) (v : list bool) : Z :=
  match k with O => 0 | S k => match v with [] => 0 | b :: v => Z.lor (Z.b2z b) (Z.shiftl (pack_byte k v) 1) end end.
Fixpoint pack (n : nat) (v : list bool) : list Z := match n with O => [] | S n => pack_byte 8 v :: pack n (drop 8 v) end.
Definition unpack (bytes : list Z) : list bool := bytes ≫= λ c, (λ j, Z.testbit c (Z.of_nat j)) <$> seq 0 8.
Definition Partial_Serialize (t : CPartialMerkleTree) : list Z :=
  (c_unsigned 4).(enc) t.(nTransactions) ++ (c_vector c_uint256).(enc) t.(vHash) ++ c_blob.(enc) (pack ((length t.(vBits) + 7) / 8) t.(vBits)).
Definition Partial_Unserialize (s : list Z) : option (CPartialMerkleTree * list Z) :=
  '(n, s) ← (c_unsigned 4).(dec) s; '(h, s) ← (c_vector c_uint256).(dec) s; '(bytes, s) ← c_blob.(dec) s; Some (mkPartial n (unpack bytes) h false, s).

(** ** [CMerkleBlock] *)

Record CMerkleBlock := mkMerkleBlock { mb_header : CBlockHeader; txn : CPartialMerkleTree; vMatchedTxn : list (Z * base_uint) }.

(** The loop over the transactions: the filter, the mask and the matches. *)
Fixpoint match_transactions (newP2CS : bool) (i : Z) (l : list CTransaction) (filter : CBloomFilter) : option (CBloomFilter * list bool * list (Z * base_uint)) :=
  match l with
  | [] => Some (filter, [], [])
  | tx :: l =>
      '(relevant, filter) ← IsRelevantAndUpdate newP2CS tx filter;
      '(filter, mask, matches) ← match_transactions newP2CS (i + 1) l filter;
      Some (filter, relevant :: mask, if (relevant : bool) then (i, GetHash tx) :: matches else matches)
  end.
Definition new_merkle_block (newP2CS : bool) (block : CBlock) (filter : CBloomFilter) : option (CMerkleBlock * CBloomFilter) :=
  '(filter, mask, matches) ← match_transactions newP2CS 0 block.(vtx) filter;
  t ← new_partial (GetHash <$> block.(vtx)) mask;
  Some (mkMerkleBlock (GetBlockHeader block) t matches, filter).
Definition MerkleBlock_Serialize (m : CMerkleBlock) : list Z := c_header.(enc) m.(mb_header) ++ Partial_Serialize m.(txn).
Definition MerkleBlock_Unserialize (s : list Z) : option (CMerkleBlock * list Z) :=
  '(h, s) ← c_header.(dec) s; '(t, s) ← Partial_Unserialize s; Some (mkMerkleBlock h t [], s).

(** ** The shape of the tree *)

Lemma pw_31 h : (h <= 31)%nat → 0 < pw h <= 2 ^ 31.
Proof. intros Hh. split; [apply pw_pos|]. exact (pw_mono h 31 Hh). Qed.
(** The part of a list below a node. *)
Definition seg {A} (h : nat) (q : Z) (l : list A) : list A := take (2 ^ h) (drop (Z.to_nat q) l).
Lemma seg_S {A} h q (l : list A) : 0 <= q → seg (S h) q l = seg h q l ++ seg h (q + pw h) l.
Proof.
  intros Hq. unfold seg. pose proof (pw_nat h). replace (Z.to_nat (q + pw h)) with (Z.to_nat q + 2 ^ h)%nat by lia. rewrite <- drop_drop.
  replace (2 ^ S h)%nat with (2 ^ h + 2 ^ h)%nat by (cbn; lia). generalize (drop (Z.to_nat q) l). intros k. rewrite <- (take_drop (2 ^ h) k) at 1.
  destruct (decide (2 ^ h <= length k)%nat).
  - rewrite take_app, length_take, Nat.min_l by lia. rewrite take_take, Nat.min_r by lia. f_equal. f_equal. lia.
  - rewrite (drop_ge k) by lia. rewrite take_nil, !app_nil_r, take_take, Nat.min_r by lia. done.
Qed.
Lemma length_seg {A} h q (l : list A) : 0 <= q → Z.of_nat (length (seg h q l)) = Z.max 0 (Z.min (pw h) (Z.of_nat (length l) - q)).
Proof. intros Hq. unfold seg. rewrite length_take, length_drop. pose proof (pw_nat h). lia. Qed.
Lemma seg_end {A} h q (l : list A) : Z.of_nat (length l) <= q → seg h q l = [].
Proof. intros Hq. unfold seg. rewrite drop_ge by lia. apply take_nil. Qed.

Lemma mapM_lookup {A} (l : list A) q m : 0 <= q → q + Z.of_nat m <= Z.of_nat (length l) →
  mapM (λ p, l !! Z.to_nat p) (seqZ q (Z.of_nat m)) = Some (take m (drop (Z.to_nat q) l)).
Proof.
  revert q. induction m as [|m IH]; intros q Hq Hl; [done|]. rewrite seqZ_cons by lia. cbn [mapM].
  destruct (lookup_lt_is_Some_2 l (Z.to_nat q)) as [x Hx]; [lia|]. rewrite Hx. cbn [mbind option_bind].
  replace (Z.pred (Z.of_nat (S m))) with (Z.of_nat m) by lia. rewrite IH by lia. cbn [mbind option_bind]. f_equal.
  rewrite (drop_S l x (Z.to_nat q)) by done. cbn [take]. do 2 f_equal. f_equal. lia.
Qed.
(** The transactions that the mask selects. *)
Definition selected (ids : list base_uint) (mask : list bool) : list base_uint := zip ids mask ≫= λ p : base_uint * bool, if p.2 then [p.1] else [].
Lemma selected_app i1 i2 m1 m2 : length i1 = length m1 → selected (i1 ++ i2) (m1 ++ m2) = selected i1 m1 ++ selected i2 m2.
Proof. intros Hl. unfold selected. rewrite zip_with_app by done. apply bind_app. Qed.
Lemma selected_none ids mask : existsb id mask = false → selected ids mask = [].
Proof.
  revert ids. induction mask as [|b mask IH]; intros [|x ids] Hb; try done. cbn in Hb. apply orb_false_iff in Hb as [-> Hb]. unfold selected. cbn. by apply IH.
Qed.

Lemma read_next {A} (l : list A) k x r : drop k l = x :: r → l !! k = Some x ∧ drop (S k) l = r.
Proof.
  intros E. assert (l !! k = Some x) as Hx by (rewrite <- (Nat.add_0_r k), <- lookup_drop, E; done). split; [done|]. rewrite (drop_S l x k Hx) in E. by injection E.
Qed.
Lemma read_part {A} (l : list A) k a r : drop k l = a ++ r → drop (k + length a) l = r.
Proof. intros E. rewrite <- drop_drop, E. apply drop_app_length. Qed.

Section shape.
Variables (vTxid : list base_uint) (vMask : list bool).
Abbreviation n := (Z.of_nat (length vTxid)).
Hypothesis Hn : 1 <= n < 2 ^ 31.
Hypothesis Hmask : length vMask = length vTxid.

Lemma width_lt h k : (h <= 31)%nat → 0 <= k → (k <? CalcTreeWidth n h) = (k * pw h <? n).
Proof.
  intros Hh Hk. pose proof (pw_31 h Hh) as Hp. unfold CalcTreeWidth. rewrite Z.shiftl_mul_pow2, Z.mul_1_l, Z.shiftr_div_pow2 by lia. fold (pw h).
  rewrite !(u32_id (pw h)), !u32_id by mlia. apply eq_true_iff_eq. rewrite !Z.ltb_lt. split; intros H.
  - assert (k + 1 <= (n + pw h - 1) / pw h) as H1 by lia. apply (Z.mul_le_mono_nonneg_r _ _ (pw h)) in H1; [|lia].
    pose proof (Z.mul_div_le (n + pw h - 1) (pw h) ltac:(lia)). lia.
  - assert (k + 1 <= (n + pw h - 1) / pw h); [|lia]. apply Z.div_le_lower_bound; [lia|]. rewrite Z.mul_add_distr_l. lia.
Qed.
Lemma height_loop_spec fuel h : (h + fuel = 32)%nat → pw h < 2 * n → let r := height_loop fuel n h in n <= pw r < 2 * n.
Proof.
  revert h. induction fuel as [|fuel IH]; intros h Hh Hp; cbn [height_loop].
  - replace h with 32%nat in * by lia. change (pw 32) with (2 ^ 32) in *. lia.
  - rewrite width_lt by lia. rewrite Z.mul_1_l. destruct (Z.ltb_spec (pw h) n); [apply IH; [lia|rewrite pw_S; lia]|lia].
Qed.
Lemma tree_height_spec : tree_height n = merkle_height (length vTxid) ∧ (tree_height n <= 31)%nat ∧ n <= pw (tree_height n).
Proof.
  pose proof (height_loop_spec 32 0 eq_refl ltac:(change (pw 0) with 1; lia)) as Hr. cbn zeta in Hr. fold (tree_height n) in Hr. split_and!.
  - exact (height_unique vTxid false 0 0 ltac:(done) _ Hr).
  - pose proof (pw_lt_inv (tree_height n) ltac:(lia)). lia.
  - lia.
Qed.

(** The children of a node. *)
Lemma child_positions h pos : (S h <= 31)%nat → 0 <= pos → pos * pw (S h) < n →
  u32 (pos * 2) = pos * 2 ∧ u32 (u32 (pos * 2) + 1) = pos * 2 + 1 ∧ (pos * 2) * pw h = pos * pw (S h) ∧ (pos * 2 + 1) * pw h = pos * pw (S h) + pw h.
Proof.
  intros Hh Hp Hq. pose proof (pw_pos h). rewrite pw_S in *. assert (pos * 2 < n) by nia. rewrite !(u32_id (pos * 2)), u32_id by mlia. split_and!; lia.
Qed.
Lemma CalcHash_node h pos : (h <= 31)%nat → 0 <= pos → pos * pw h < n → CalcHash n h pos vTxid = Some (node vTxid h (pos * pw h)).
Proof.
  revert pos. induction h as [|h IH]; intros pos Hh Hp Hq; cbn [CalcHash].
  - change (pw 0) with 1 in *. rewrite Z.mul_1_r in *. destruct (lookup_lt_is_Some_2 vTxid (Z.to_nat pos)) as [x Hx]; [lia|]. rewrite Hx. f_equal. symmetry. by apply node_leaf.
  - destruct (child_positions h pos Hh Hp Hq) as (E1 & E2 & P1 & P2). pose proof (pw_pos h). rewrite E2, E1, (IH (pos * 2)) by lia. cbn [mbind option_bind].
    rewrite width_lt by lia. rewrite P1, P2. destruct (Z.ltb_spec (pos * pw (S h) + pw h) n) as [Hr|Hr].
    + rewrite (IH (pos * 2 + 1)) by lia. cbn [mbind option_bind]. f_equal. rewrite P2. symmetry. apply node_split; lia.
    + cbn [mbind option_bind]. f_equal. symmetry. apply node_odd; lia.
Qed.

Lemma parent_of_match_seg h pos : (h <= 31)%nat → 0 <= pos → pos * pw h < n →
  parent_of_match n h pos vMask = Some (existsb id (seg h (pos * pw h) vMask)).
Proof.
  intros Hh Hp Hq. pose proof (pw_31 h Hh) as Hw. unfold parent_of_match. rewrite !Z.shiftl_mul_pow2 by lia. fold (pw h).
  assert (pos < n) by nia. rewrite (u32_id (pos + 1)), !u32_id by mlia. set (m := Z.min ((pos + 1) * pw h) n - pos * pw h).
  rewrite <- (Z2Nat.id m) by lia. rewrite mapM_lookup by lia. cbn [mbind option_bind]. do 2 f_equal. unfold seg. pose proof (pw_nat h).
  destruct (Z.min_spec ((pos + 1) * pw h) n) as [[_ E]|[_ E]]; subst m; rewrite E.
  - f_equal. lia.
  - rewrite !take_ge; [done|rewrite length_drop; lia..].
Qed.

Lemma node_all (P : base_uint → Prop) h q : 0 <= q < n → Forall P vTxid → (∀ x y, P (hash_pair x y)) → P (node vTxid h q).
Proof.
  intros Hq HP HS. destruct h as [|h].
  - destruct (lookup_lt_is_Some_2 vTxid (Z.to_nat q)) as [x Hx]; [lia|]. rewrite (node_leaf _ _ x) by (done || lia). by eapply Forall_lookup_1.
  - unfold node. rewrite tree_root_S. by case_bool_decide.
Qed.

(** What is built below a node is read back, whatever follows. *)
Definition reads (h : nat) (pos : Z) (b : list bool) (hs : list base_uint) : Prop :=
  ∀ t s rb rh, t.(nTransactions) = n → drop s.(nBitsUsed) t.(vBits) = b ++ rb → drop s.(nHashUsed) t.(vHash) = hs ++ rh →
  let q := pos * pw h in
  TraverseAndExtract t h pos s = (node vTxid h q, mkExtraction (s.(nBitsUsed) + length b) (s.(nHashUsed) + length hs) (s.(matched) ++ selected (seg h q vTxid) (seg h q vMask)) s.(bad)).
Lemma build_spec h pos t : (h <= 31)%nat → 0 <= pos → pos * pw h < n → t.(nTransactions) = n →
  ∃ b hs, TraverseAndBuild h pos vTxid vMask t = Some (mkPartial n (t.(vBits) ++ b) (t.(vHash) ++ hs) t.(fBad)) ∧
    (length hs <= length b)%nat ∧ (length hs <= length (seg h (pos * pw h) vTxid))%nat ∧ (length b <= length (seg h (pos * pw h) vTxid) * S h)%nat ∧
    (∀ P : base_uint → Prop, Forall P vTxid → (∀ x y, P (hash_pair x y)) → Forall P hs) ∧ reads h pos b hs.
Proof.
  revert pos t. induction h as [|h IH]; intros pos t Hh Hp Hq Ht; cbn [TraverseAndBuild]; rewrite Ht, parent_of_match_seg by done; cbn [mbind option_bind].
  - set (m := existsb id _). change (nTransactions (push_bit m t)) with (nTransactions t). rewrite Ht, CalcHash_node by done. cbn [mbind option_bind].
    exists [m], [node vTxid 0 (pos * pw 0)]. split; [by rewrite <- Ht|]. pose proof (length_seg 0 (pos * pw 0) vTxid ltac:(change (pw 0) with 1 in *; lia)) as Hl. change (pw 0) with 1 in *.
    split; [done|]. split; [cbn [length]; lia|]. split; [cbn [length]; lia|]. split; [by intros P HP HS; constructor; [apply node_all; [lia|done..]|constructor]|].
    intros t' s rb rh Ht' Hb Hh'. cbn zeta. change (pw 0) with 1 in *. cbn [app] in Hb, Hh'. apply read_next in Hb as [Hb _], Hh' as [Hh' _].
    cbn [TraverseAndExtract]. rewrite Hb. cbn [use_bit nHashUsed]. rewrite Hh'. unfold use_hash. cbn [nBitsUsed nHashUsed matched bad length]. f_equal. rewrite !Nat.add_1_r. f_equal.
    destruct (lookup_lt_is_Some_2 vTxid (Z.to_nat (pos * 1))) as [x Hx]; [lia|]. destruct (lookup_lt_is_Some_2 vMask (Z.to_nat (pos * 1))) as [y Hy]; [lia|].
    rewrite (node_leaf _ _ x) by (done || lia). subst m. unfold seg. cbn [Nat.pow]. rewrite (drop_S vTxid x), (drop_S vMask y) by done. cbn [take]. rewrite !take_0. unfold selected.
    cbn. rewrite orb_false_r. destruct y; [done|]. by rewrite app_nil_r.
  - destruct (child_positions h pos Hh Hp Hq) as (E1 & E2 & P1 & P2). pose proof (pw_pos h) as Hpw. set (q := pos * pw (S h)) in *.
    destruct (existsb id (seg (S h) q vMask)) eqn:Em.
    + set (t0 := push_bit true t). destruct (IH (pos * 2) t0) as (b1 & hs1 & B1 & Lb1 & Ls1 & N1 & F1 & R1); [lia|lia|lia|done|]. rewrite E2, E1, B1. cbn [mbind option_bind nTransactions].
      rewrite width_lt by lia. rewrite P1, P2 in *.
      assert (∀ t' s rb1 rh, nTransactions t' = n → drop s.(nBitsUsed) t'.(vBits) = (true :: b1) ++ rb1 → drop s.(nHashUsed) t'.(vHash) = hs1 ++ rh →
        t'.(vBits) !! s.(nBitsUsed) = Some true ∧ drop (s.(nBitsUsed) + length (true :: b1)) t'.(vBits) = rb1 ∧
        TraverseAndExtract t' h (pos * 2) (use_bit s) = (node vTxid h q, mkExtraction (s.(nBitsUsed) + length (true :: b1)) (s.(nHashUsed) + length hs1)
          (s.(matched) ++ selected (seg h q vTxid) (seg h q vMask)) s.(bad))) as Hleft.
      { intros t' s rb1 rh Ht' Hb Hh'. pose proof (read_part _ _ _ _ Hb) as Hb2. cbn [app] in Hb. apply read_next in Hb as [Hb Hb1]. split_and!; [done|done|].
        rewrite (R1 t' (use_bit s) rb1 rh Ht' Hb1 Hh'). cbn [use_bit nBitsUsed nHashUsed matched bad length]. rewrite P1. do 2 f_equal. lia. }
      destruct (Z.ltb_spec (q + pw h) n) as [Hr|Hr].
      * destruct (IH (pos * 2 + 1) (mkPartial n (vBits t0 ++ b1) (vHash t0 ++ hs1) (fBad t0))) as (b2 & hs2 & B2 & Lb2 & Ls2 & N2 & F2 & R2); [lia|lia|lia|done|]. rewrite B2.
        exists (true :: b1 ++ b2), (hs1 ++ hs2). cbn [vBits vHash fBad t0 push_bit]. split; [by rewrite <- !app_assoc|]. rewrite seg_S by lia. cbn [length]. rewrite !length_app.
        rewrite P2 in *. split_and!; [lia|lia|pose proof (length_seg h q vTxid ltac:(lia)); nia|intros P HP HS; apply Forall_app; auto|]. intros t' s rb rh Ht' Hb Hh'. cbn zeta. fold q. rewrite app_comm_cons, <- app_assoc in Hb. rewrite <- app_assoc in Hh'.
        destruct (Hleft t' s _ _ Ht' Hb Hh') as (Hbit & Hb2 & El). cbn [TraverseAndExtract]. rewrite Hbit, E2, E1, El, Ht', width_lt by lia. rewrite P2.
        rewrite (proj2 (Z.ltb_lt _ _)) by lia. erewrite (R2 t' _ rb rh Ht'); [|exact Hb2|exact (read_part _ _ _ _ Hh')]. cbn [nBitsUsed nHashUsed matched bad]. rewrite P2.
        rewrite <- node_split by lia. f_equal. rewrite !seg_S, selected_app by first [lia | pose proof (length_seg h q vTxid); pose proof (length_seg h q vMask); lia].
        rewrite app_assoc. f_equal; cbn [length]; rewrite ?length_app; lia.
      * exists (true :: b1), hs1. cbn [vBits vHash fBad t0 push_bit]. split; [by rewrite <- !app_assoc|]. rewrite seg_S by lia. rewrite (seg_end h (q + pw h) vTxid) by lia.
        rewrite app_nil_r. split_and!; [cbn [length]; lia|lia|cbn [length]; pose proof (length_seg h q vTxid ltac:(lia)); nia|done|]. intros t' s rb rh Ht' Hb Hh'. cbn zeta. fold q.
        destruct (Hleft t' s _ _ Ht' Hb Hh') as (Hbit & _ & El). cbn [TraverseAndExtract]. rewrite Hbit, E2, E1, El, Ht', width_lt by lia. rewrite P2.
        rewrite (proj2 (Z.ltb_ge _ _)) by lia. rewrite <- node_odd by lia. rewrite !seg_S by lia. rewrite !(seg_end h (q + pw h)) by lia. by rewrite !app_nil_r.
    + change (nTransactions (push_bit false t)) with (nTransactions t). rewrite Ht, CalcHash_node by done. cbn [mbind option_bind].
      exists [false], [node vTxid (S h) q]. split; [by rewrite <- Ht|]. pose proof (length_seg (S h) q vTxid ltac:(lia)). pose proof (pw_pos (S h)). split; [done|]. split; [cbn [length]; lia|]. split; [cbn [length]; nia|]. split; [by intros P HP HS; constructor; [apply node_all; [lia|done..]|constructor]|].
      intros t' s rb rh Ht' Hb Hh'. cbn zeta. fold q. cbn [app] in Hb, Hh'. apply read_next in Hb as [Hb _], Hh' as [Hh' _].
      cbn [TraverseAndExtract]. rewrite Hb. cbn [use_bit nHashUsed]. rewrite Hh'. unfold use_hash. cbn [nBitsUsed nHashUsed matched bad length]. rewrite selected_none by done.
      by rewrite app_nil_r, !Nat.add_1_r.
Qed.
End shape.

(** ** Bits in bytes *)

Lemma pack_byte_bit k v j : Z.testbit (pack_byte k v) (Z.of_nat j) = nth j (take k v) false.
Proof.
  revert v j. induction k as [|k IH]; intros v j; cbn [pack_byte take]; [by destruct j; cbn; rewrite Z.testbit_0_l|]. destruct v as [|b v]; [by destruct j; cbn; rewrite Z.testbit_0_l|].
  rewrite Z.lor_spec. destruct j as [|j].
  - rewrite Z.shiftl_spec_low by lia. rewrite orb_false_r. by destruct b.
  - rewrite Z.shiftl_spec by lia. replace (Z.of_nat (S j) - 1) with (Z.of_nat j) by lia. rewrite IH. cbn [nth].
    assert (Z.testbit (Z.b2z b) (Z.of_nat (S j)) = false) as ->; [|done]. destruct b; [|apply Z.testbit_0_l]. apply Z.bits_above_log2; cbn; lia.
Qed.
Lemma unpack_byte v : (λ j, Z.testbit (pack_byte 8 v) (Z.of_nat j)) <$> seq 0 8 = take 8 v ++ replicate (8 - length v) false.
Proof.
  apply list_eq_same_length with 8%nat; [by rewrite length_app, length_take, length_replicate; lia|by rewrite length_fmap, length_seq|].
  intros i x y Hi Hx Hy. rewrite list_lookup_fmap, lookup_seq_lt in Hx by done. apply Some_inj in Hx as <-. change (0 + i)%nat with i. rewrite pack_byte_bit. apply lookup_app_Some in Hy as [Hy|[Hl Hy]].
  - by apply nth_lookup_Some with (d := false) in Hy.
  - apply lookup_replicate in Hy as [-> _]. apply nth_overflow. lia.
Qed.
Lemma unpack_pack m v : (length v <= 8 * m)%nat → unpack (pack m v) = v ++ replicate (8 * m - length v) false.
Proof.
  revert v. induction m as [|m IH]; intros v Hl; [by destruct v; [|cbn in Hl; lia]|]. cbn [pack]. unfold unpack. cbn [mbind list_bind]. rewrite unpack_byte.
  change (pack m (drop 8 v) ≫= _) with (unpack (pack m (drop 8 v))). rewrite IH by (rewrite length_drop; lia). rewrite length_drop.
  destruct (decide (8 <= length v)%nat).
  - replace (8 - length v)%nat with 0%nat by lia. cbn [replicate]. rewrite app_nil_r, app_assoc, take_drop. do 2 f_equal. lia.
  - rewrite take_ge, drop_ge by lia. cbn [app]. rewrite <- app_assoc, <- replicate_add. do 2 f_equal. lia.
Qed.
Lemma length_pack m v : length (pack m v) = m.
Proof. revert v. induction m as [|m IH]; intros v; cbn; [done|]. by rewrite IH. Qed.

(** ** Building, sending and extracting *)

(** What arrives is what was sent, with the last byte of bits filled up. *)
Definition received (t : CPartialMerkleTree) : CPartialMerkleTree :=
  mkPartial t.(nTransactions) (t.(vBits) ++ replicate (8 * ((length t.(vBits) + 7) / 8) - length t.(vBits)) false) t.(vHash) false.
Lemma Partial_roundtrip t rest : is_u32 t.(nTransactions) → Forall (wf 8) t.(vHash) → Z.of_nat (length t.(vHash)) <= MAX_SIZE → Z.of_nat (length t.(vBits)) <= MAX_SIZE →
  Partial_Unserialize (Partial_Serialize t ++ rest) = Some (received t, rest).
Proof.
  intros Hn Hh Hl Hb. unfold Partial_Unserialize, Partial_Serialize. rewrite <- !app_assoc. rewrite (c_unsigned_rt 4) by mlia. cbn [mbind option_bind].
  rewrite (round_trip (c := c_vector c_uint256)) by done. cbn [mbind option_bind].
  assert (length (vBits t) <= 8 * ((length (vBits t) + 7) / 8))%nat as Hc by (pose proof (Nat.div_mod_eq (length (vBits t) + 7) 8); pose proof (Nat.mod_upper_bound (length (vBits t) + 7) 8); lia).
  rewrite (round_trip (c := c_blob)); [|rewrite length_pack; pose proof (Nat.div_mod_eq (length (vBits t) + 7) 8); unfold MAX_SIZE in *; lia].
  cbn [mbind option_bind]. by rewrite unpack_pack.
Qed.

Lemma new_partial_spec ids mask : 1 <= Z.of_nat (length ids) <= MAX_BLOCK_SIZE_CURRENT / 60 → length mask = length ids →
  ∃ t, new_partial ids mask = Some t ∧ t.(nTransactions) = Z.of_nat (length ids) ∧ (length t.(vHash) <= length ids)%nat ∧
    (length t.(vBits) <= length ids * 32)%nat ∧ (Forall (wf 8) ids → (∀ x y, wf 8 (hash_pair x y)) → Forall (wf 8) t.(vHash)) ∧
    ∃ t', ExtractMatches (received t) = (tree_root (merkle_height (length ids)) ids, selected ids mask, t').
Proof.
  intros Hn Hm. change (MAX_BLOCK_SIZE_CURRENT / 60) with 33333 in Hn. assert (1 <= Z.of_nat (length ids) < 2 ^ 31) as Hn' by lia.
  destruct (tree_height_spec ids mask Hn' Hm) as (Hh & H31 & Hcov). unfold new_partial. rewrite u32_id by mlia. pose proof (pw_pos (tree_height (Z.of_nat (length ids)))).
  destruct (build_spec ids mask Hn' Hm (tree_height (Z.of_nat (length ids))) 0 (mkPartial (Z.of_nat (length ids)) [] [] false)) as (b & hs & E & Lb & Ls & Nb & HF & HR); [done|lia|lia|done|].
  rewrite E. eexists. split; [done|]. cbn [nTransactions vBits vHash fBad app]. rewrite Z.mul_0_l in *. assert (∀ {A} (l : list A), length l = length ids → seg (tree_height (Z.of_nat (length ids))) 0 l = l) as Hall.
  { intros A l Hl. unfold seg. rewrite drop_0, take_ge; [done|]. rewrite <- pw_nat in Hcov. lia. }
  rewrite Hall in Ls, Nb by done. split_and!; [done|done|nia|apply HF|]. unfold received, ExtractMatches. cbn [nTransactions vBits vHash fBad]. set (z := (8 * ((length b + 7) / 8) - length b)%nat).
  change (MAX_BLOCK_SIZE_CURRENT / 60) with 33333. rewrite (proj2 (Z.eqb_neq _ 0)), !(proj2 (Z.ltb_ge _ _)) by lia. rewrite bool_decide_false by (rewrite length_app; lia).
  set (t := mkPartial _ _ _ _). rewrite (HR t (mkExtraction 0 0 [] false) (replicate z false) []); [|done|done|by cbn; rewrite app_nil_r]. cbn [nBitsUsed nHashUsed matched bad app plus].
  rewrite !Hall by done. rewrite Z.mul_0_l. rewrite !bool_decide_true; [|done|].
  - cbn [negb]. eexists. f_equal. f_equal. unfold node. rewrite drop_0, take_ge; [by rewrite Hh|]. rewrite <- pw_nat in Hcov. lia.
  - rewrite length_app, length_replicate. subst z. pose proof (Nat.div_mod_eq (length b + 7) 8). pose proof (Nat.mod_upper_bound (length b + 7) 8 ltac:(lia)).
    replace (length b + (8 * ((length b + 7) / 8) - length b) + 7)%nat with (7 + (length b + 7) / 8 * 8)%nat by lia. by rewrite Nat.div_add by lia.
Qed.

(** ** What is extracted is in the block *)

(** The pairs that are hashed while a tree is read. *)
Fixpoint extract_pairs (t : CPartialMerkleTree) (height : nat) (pos : Z) (s : extraction) : list (base_uint * base_uint) :=
  match height, t.(vBits) !! s.(nBitsUsed) with
  | S height, Some true =>
      let '(l, s1) := TraverseAndExtract t height (u32 (pos * 2)) (use_bit s) in
      let below := extract_pairs t height (u32 (pos * 2)) (use_bit s) in
      if u32 (u32 (pos * 2) + 1) <? CalcTreeWidth t.(nTransactions) height then
        (l, (TraverseAndExtract t height (u32 (u32 (pos * 2) + 1)) s1).1) :: below ++ extract_pairs t height (u32 (u32 (pos * 2) + 1)) s1
      else (l, l) :: below
  | _, _ => []
  end.
Definition hashed_pairs (t : CPartialMerkleTree) : list (base_uint * base_uint) :=
  extract_pairs t (tree_height t.(nTransactions)) 0 (mkExtraction 0 0 [] t.(fBad)).

Lemma bad_stays t h pos s : s.(bad) = true → (TraverseAndExtract t h pos s).2.(bad) = true.
Proof.
  revert pos s. induction h as [|h IH]; intros pos s Hb; cbn [TraverseAndExtract]; (destruct (vBits t !! nBitsUsed s) as [b|]; [|done]).
  - by case_match.
  - destruct b; [|by case_match]. pose proof (IH (u32 (pos * 2)) (use_bit s) Hb) as H1. destruct (TraverseAndExtract t h (u32 (pos * 2)) (use_bit s)) as [l s1].
    destruct (_ <? _); [|done]. pose proof (IH (u32 (u32 (pos * 2) + 1)) s1 H1) as H2. by destruct (TraverseAndExtract t h _ s1).
Qed.
Lemma pairs_below ids h q : 0 <= q < Z.of_nat (length ids) → tree_pairs (S h) (seg (S h) q ids) =
  if q + pw h <? Z.of_nat (length ids) then (node ids h q, node ids h (q + pw h)) :: tree_pairs h (seg h q ids) ++ tree_pairs h (seg h (q + pw h) ids)
  else (node ids h q, node ids h q) :: tree_pairs h (seg h q ids).
Proof.
  intros Hq. pose proof (pw_nat h). pose proof (pw_pos h). pose proof (length_seg (S h) q ids ltac:(lia)) as Hl. rewrite pw_S in Hl. cbn [tree_pairs].
  destruct (Z.ltb_spec (q + pw h) (Z.of_nat (length ids))).
  - rewrite bool_decide_false by lia. assert (take (2 ^ h) (seg (S h) q ids) = seg h q ids ∧ drop (2 ^ h) (seg (S h) q ids) = seg h (q + pw h) ids) as [-> ->]; [|done].
    rewrite seg_S by lia. pose proof (length_seg h q ids ltac:(lia)). assert (length (seg h q ids) = 2 ^ h)%nat as <- by lia. by rewrite take_app_length, drop_app_length.
  - rewrite bool_decide_true by lia. rewrite seg_S by lia. rewrite (seg_end h (q + pw h)) by lia. by rewrite app_nil_r.
Qed.
Lemma extract_sound ids ps t h pos s s' : 1 <= Z.of_nat (length ids) < 2 ^ 31 → no_collision ps → t.(nTransactions) = Z.of_nat (length ids) →
  (h <= 31)%nat → 0 <= pos → pos * pw h < Z.of_nat (length ids) → extract_pairs t h pos s ⊆ ps → tree_pairs h (seg h (pos * pw h) ids) ⊆ ps →
  TraverseAndExtract t h pos s = (node ids h (pos * pw h), s') → s'.(bad) = false →
  ∃ l, s'.(matched) = s.(matched) ++ l ∧ sublist l (seg h (pos * pw h) ids).
Proof.
  intros Hn Hnc Ht. revert pos s s'. induction h as [|h IH]; intros pos s s' Hh Hp Hq Hps Hts E Hb; cbn [TraverseAndExtract] in E; cbn [extract_pairs] in Hps;
    (destruct (vBits t !! nBitsUsed s) as [b|]; [|injection E as _ <-; done]).
  - destruct (vHash t !! nHashUsed (use_bit s)) as [x|]; [|injection E as _ <-; done]. assert (s' = use_hash b x (use_bit s)) as -> by (by injection E). cbn [use_hash use_bit matched].
    change (pw 0) with 1 in *. destruct (lookup_lt_is_Some_2 ids (Z.to_nat (pos * 1))) as [y Hy]; [lia|]. rewrite (node_leaf _ _ y) in E by (done || lia). injection E as ->.
    destruct b; [|exists []; split; [by rewrite app_nil_r|apply sublist_nil_l]]. exists [y]. split; [done|]. unfold seg. cbn [Nat.pow]. by rewrite (drop_S ids y), firstn_cons, take_0.
  - assert (length (replicate (length ids) false) = length ids) as Hm by apply length_replicate. pose proof (pw_pos h).
    destruct (child_positions ids (replicate (length ids) false) Hn Hm h pos Hh Hp Hq) as (E1 & E2 & P1 & P2). set (q := pos * pw (S h)) in *.
    destruct b; [|destruct (vHash t !! nHashUsed (use_bit s)) as [x|]; injection E as _ <-; [|done]; exists []; split; [by rewrite app_nil_r|apply sublist_nil_l]].
    rewrite E2, E1 in *. rewrite Ht, (width_lt ids (replicate (length ids) false) Hn Hm) in * by lia. rewrite P2 in *.
    rewrite pairs_below in Hts by lia. destruct (TraverseAndExtract t h (pos * 2) (use_bit s)) as [l s1] eqn:El. destruct (Z.ltb_spec (q + pw h) (Z.of_nat (length ids))) as [Hr|Hr].
    + destruct (TraverseAndExtract t h (pos * 2 + 1) s1) as [r s2] eqn:Er. cbn [fst] in Hps. assert (s2 = s') as -> by (by injection E). assert (hash_pair l r = node ids (S h) q) as Eh by (by injection E).
      rewrite node_split in Eh by lia. destruct (Hnc l r (node ids h q) (node ids h (q + pw h))) as [-> ->]; [apply Hps; left|apply Hts; left|done|].
      assert (bad s1 = false) as Hb1 by (destruct (bad s1) eqn:Eb; [pose proof (bad_stays t h (pos * 2 + 1) s1 Eb) as HH; rewrite Er in HH; cbn in HH; congruence|done]).
      destruct (IH (pos * 2) (use_bit s) s1) as (l1 & M1 & S1); [lia|lia|lia| | |by rewrite P1|done|].
      { intros x Hx. apply Hps. right. apply elem_of_app. by left. }
      { intros x Hx. rewrite P1 in Hx. apply Hts. right. apply elem_of_app. by left. }
      destruct (IH (pos * 2 + 1) s1 s') as (l2 & M2 & S2); [lia|lia|lia| | |by rewrite P2|done|].
      { intros x Hx. apply Hps. right. apply elem_of_app. by right. }
      { intros x Hx. rewrite P2 in Hx. apply Hts. right. apply elem_of_app. by right. }
      exists (l1 ++ l2). rewrite M2, M1. cbn [use_bit matched]. split; [by rewrite app_assoc|]. rewrite seg_S by lia. rewrite P1, P2 in *. by apply sublist_app.
    + assert (s1 = s') as -> by (by injection E). assert (hash_pair l l = node ids (S h) q) as Eh by (by injection E). rewrite node_odd in Eh by lia.
      destruct (Hnc l l (node ids h q) (node ids h q)) as [-> _]; [apply Hps; left|apply Hts; left|done|].
      destruct (IH (pos * 2) (use_bit s) s') as (l1 & M1 & S1); [lia|lia|lia| | |by rewrite P1|done|].
      { intros x Hx. apply Hps. by right. }
      { intros x Hx. rewrite P1 in Hx. apply Hts. by right. }
      exists l1. rewrite M1. split; [done|]. rewrite seg_S by lia. rewrite (seg_end h (q + pw h)) by lia. rewrite app_nil_r. by rewrite P1 in S1.
Qed.

(** C23: a partial merkle tree from anyone, of which the number of transactions
    is right and which gives the merkle root of the block, extracts
    transactions of the block only, in their order and none of them twice,
    unless two of the hashed pairs collide. *)
Theorem extracted_are_transactions (t t' : CPartialMerkleTree) (vTxid vMatch : list base_uint) (root : base_uint) (mutated : bool) :
  t.(nTransactions) = Z.of_nat (length vTxid) → ComputeMerkleRoot vTxid = Some (root, mutated) → root ≠ uint_zero 8 →
  no_collision (hashed_pairs t ++ tree_pairs (merkle_height (length vTxid)) vTxid) →
  ExtractMatches t = (root, vMatch, t') → sublist vMatch vTxid.
Proof.
  intros Ht Hroot Hz Hnc E. unfold ExtractMatches in E.
  destruct (Z.eqb_spec (nTransactions t) 0); [by injection E as <-|]. destruct (Z.ltb_spec (MAX_BLOCK_SIZE_CURRENT / 60) (nTransactions t)) as [|Hmax]; [by injection E as <-|].
  destruct (Z.ltb_spec (nTransactions t) (Z.of_nat (length (vHash t)))); [by injection E as <-|]. destruct (bool_decide (length (vBits t) < length (vHash t))%nat); [by injection E as <-|].
  destruct (TraverseAndExtract t _ 0 _) as [r s] eqn:Ex. change (MAX_BLOCK_SIZE_CURRENT / 60) with 33333 in Hmax. assert (1 <= Z.of_nat (length vTxid) < 2 ^ 31) as Hn by lia.
  destruct (bad s) eqn:Eb; [by injection E as <-|]. destruct (bool_decide _); [|by injection E as <-]. destruct (bool_decide _); [|by injection E as <-]. cbn [negb] in E.
  assert (r = root ∧ vMatch = matched s) as [-> ->] by (by injection E).
  destruct (ComputeMerkleRoot_spec vTxid) as (m & Em & _); [by intros ->|lia|]. rewrite Hroot in Em. injection Em as -> _.
  destruct (tree_height_spec vTxid (replicate (length vTxid) false) Hn ltac:(by rewrite length_replicate)) as (Hh & H31 & Hcov). unfold hashed_pairs in Hnc. rewrite Ht in *. pose proof (pw_pos (tree_height (Z.of_nat (length vTxid)))).
  assert (seg (tree_height (Z.of_nat (length vTxid))) (0 * pw (tree_height (Z.of_nat (length vTxid)))) vTxid = vTxid) as Hall.
  { unfold seg. rewrite Z.mul_0_l, drop_0, take_ge; [done|]. rewrite <- pw_nat in Hcov. lia. }
  destruct (extract_sound vTxid _ t _ 0 (mkExtraction 0 0 [] (fBad t)) s Hn Hnc Ht H31 ltac:(lia) ltac:(lia)) as (l & -> & Hl).
  - intros x Hx. apply elem_of_app. by left.
  - rewrite Hall, Hh. intros x Hx. apply elem_of_app. by right.
  - rewrite Ex. f_equal. rewrite <- Hh. unfold node. fold (seg (tree_height (Z.of_nat (length vTxid))) (0 * pw (tree_height (Z.of_nat (length vTxid)))) vTxid). by rewrite Hall.
  - done.
  - cbn [matched app]. by rewrite Hall in Hl.
Qed.

(** ** Filtered blocks *)

Lemma matches_extends tx f f' : usable f → extends f f' → matches tx f → matches tx f'.
Proof.
  intros Hu He. pose proof (λ d, extends_contains f f' d Hu He) as Hc. intros [H|[(k & o & d & Ho & Hp & Hn & H)|[(i & Hi & H)|(i & d & Hi & Hp & Hn & H)]]].
  - left. by apply Hc.
  - right; left. exists k, o, d. split_and!; auto.
  - right; right; left. exists i. split; [done|]. by apply Hc.
  - right; right; right. exists i, d. split_and!; auto.
Qed.
Lemma match_transactions_spec newP2CS i l f : usable f → ∃ f' mask ms, match_transactions newP2CS i l f = Some (f', mask, ms) ∧
  length mask = length l ∧ ms.*2 = selected (GetHash <$> l) mask ∧ ∀ tx, tx ∈ l → matches tx f → GetHash tx ∈ ms.*2.
Proof.
  revert i f. induction l as [|tx l IH]; intros i f Hu; cbn [match_transactions]; [exists f, [], []; split_and!; [done..|]; intros tx H; by apply not_elem_of_nil in H|].
  destruct (relevant_spec newP2CS tx f Hu) as (b & f1 & -> & He & Hm & _). cbn [mbind option_bind]. pose proof (extends_usable _ _ He Hu) as Hu1.
  destruct (IH (i + 1) f1 Hu1) as (f' & mask & ms & -> & Hl & Hs & Hin). cbn [mbind option_bind]. eexists _, _, _. split; [done|]. split; [cbn; lia|].
  split; [destruct b; unfold selected in *; cbn; by rewrite Hs|]. intros tx' [->|Htx]%elem_of_cons Hmt.
  - rewrite (Hm Hmt). left.
  - pose proof (Hin tx' Htx (matches_extends _ _ _ Hu He Hmt)). destruct b; [right|]; done.
Qed.

Section hashes.
Hypothesis SHA256_bytes : ∀ v, bytes (SHA256 v).
Lemma read_limbs_wf W s pn r : bytes s → read_limbs W s = Some (pn, r) → wf W pn ∧ bytes r.
Proof.
  revert s pn r. induction W as [|W IH]; intros s pn r Hs; cbn [read_limbs]; [by intros [= <- <-]|]. unfold ser_readdata, read_bytes. case_bool_decide as Hl; [|done]. cbn [mbind option_bind].
  destruct (read_limbs W (drop 4 s)) as [[pn' r']|] eqn:E; [|done]. intros [= <- <-]. destruct (IH _ _ _ (Forall_drop _ 4 _ Hs) E) as [[Hw Hf] Hr]. split; [|done]. split; [cbn; by f_equal|].
  constructor; [|done]. pose proof (ReadLE_bound (take 4 s) (Forall_take _ 4 _ Hs)) as Hb. rewrite length_take, Nat.min_l in Hb by lia. change (256 ^ Z.of_nat 4) with (2 ^ 32) in Hb. exact Hb.
Qed.
Lemma digest_wf v : wf 8 match c_uint256.(dec) (Hash256 v) with Some (h, _) => h | None => uint_zero 8 end.
Proof.
  destruct (dec c_uint256 (Hash256 v)) as [[h r]|] eqn:E; [|by split; [|repeat constructor]].
  by apply (read_limbs_wf 8 (Hash256 v) h r (SHA256_bytes _)).
Qed.

(** C22: what a light client receives of a block that was filtered for it.  The
    message is read back; the partial merkle tree in it gives the merkle root
    of the block and exactly the transactions that the node found relevant, in
    their order; and among these is every transaction of the block that matches
    the filter the client had loaded. *)
Theorem filtered_block_arrives newP2CS (block : CBlock) (filter : CBloomFilter) (rest : list Z) :
  usable filter → header_ok (GetBlockHeader block) → 1 <= Z.of_nat (length block.(vtx)) <= MAX_BLOCK_SIZE_CURRENT / 60 →
  ∃ m filter' m' root mutated t', new_merkle_block newP2CS block filter = Some (m, filter') ∧
    MerkleBlock_Unserialize (MerkleBlock_Serialize m ++ rest) = Some (m', rest) ∧ m'.(mb_header) = GetBlockHeader block ∧
    BlockMerkleRoot block.(vtx) = Some (root, mutated) ∧ ExtractMatches m'.(txn) = (root, m.(vMatchedTxn).*2, t') ∧
    sublist m.(vMatchedTxn).*2 (GetHash <$> block.(vtx)) ∧ ∀ tx, tx ∈ block.(vtx) → matches tx filter → GetHash tx ∈ m.(vMatchedTxn).*2.
Proof.
  intros Hu Hh Hn. destruct (match_transactions_spec newP2CS 0 (vtx block) filter Hu) as (f' & mask & ms & E1 & Hl & Hs & Hin).
  set (ids := GetHash <$> vtx block) in *. assert (length ids = length (vtx block)) as Hi by apply length_fmap.
  destruct (new_partial_spec ids mask) as (t & E2 & Ht & Hvh & Hvb & Hw & t' & Ex); [by rewrite Hi|by rewrite Hi|]. change (MAX_BLOCK_SIZE_CURRENT / 60) with 33333 in Hn.
  destruct (ComputeMerkleRoot_spec ids) as (mutated & Er & _); [by intros E; rewrite E in Hi; cbn in Hi; lia|lia|].
  exists (mkMerkleBlock (GetBlockHeader block) t ms), f', (mkMerkleBlock (GetBlockHeader block) (received t) []), (tree_root (merkle_height (length ids)) ids), mutated, t'.
  cbn [mb_header txn vMatchedTxn]. split_and!; [| |done|done|by rewrite Hs| |done].
  - unfold new_merkle_block. rewrite E1. cbn [mbind option_bind]. fold ids. by rewrite E2.
  - unfold MerkleBlock_Unserialize, MerkleBlock_Serialize. cbn [mb_header txn]. rewrite <- app_assoc, (round_trip (c := c_header)) by done. cbn [mbind option_bind].
    rewrite Partial_roundtrip; [done|unfold is_u32; lia| |unfold MAX_SIZE; lia..]. apply Hw; [|intros; apply digest_wf]. apply Forall_fmap, Forall_true. intros. apply digest_wf.
  - rewrite Hs. clear -Hi Hl. revert mask Hl. unfold ids. clear. induction (vtx block) as [|tx l IH]; intros [|b mask] Hl; try done. unfold selected. cbn. injection Hl as Hl.
    destruct b; cbn; [apply sublist_skip|apply sublist_cons]; by apply IH.
Qed.
End hashes.
End merkleblock.

(** ** Samples, with the hash functions of the program *)

#[local] Instance block_crypto : ScriptCrypto := core_crypto (λ _, true).
Lemma core_SHA256_bytes v : bytes (SHA256 v).
Proof. cbn [SHA256 block_crypto core_crypto]. rewrite core_SHA256_eq. apply fips_SHA256_bytes. Qed.

Definition relayed_block : CBlock :=
  {| header := {| hdr_nVersion := 4; hashPrevBlock := uint_zero 8; hdr_hashMerkleRoot := uint_zero 8; hdr_nTime := 0; hdr_nBits := 0; hdr_nNonce := 0;
                  hdr_hashFinalSaplingRoot := uint_zero 8; hdr_assetRootHash := uint_zero 8 |};
     vtx := [funding; paying; sample_pay1]; vReg := []; vchBlockSig := []; fChecked := false |}.
Lemma filtered_block_arrives_witness : ∃ m filter' m' root mutated t', new_merkle_block false relayed_block (UpdateEmptyFull wallet_filter) = Some (m, filter') ∧
    MerkleBlock_Unserialize (MerkleBlock_Serialize m ++ [1]) = Some (m', [1]) ∧ m'.(mb_header) = GetBlockHeader relayed_block ∧
    BlockMerkleRoot relayed_block.(vtx) = Some (root, mutated) ∧ ExtractMatches m'.(txn) = (root, m.(vMatchedTxn).*2, t') ∧
    sublist m.(vMatchedTxn).*2 (GetHash <$> relayed_block.(vtx)) ∧ ∀ tx, tx ∈ relayed_block.(vtx) → matches tx (UpdateEmptyFull wallet_filter) → GetHash tx ∈ m.(vMatchedTxn).*2.
Proof.
  apply (filtered_block_arrives core_SHA256_bytes false relayed_block (UpdateEmptyFull wallet_filter) [1]).
  - apply UpdateEmptyFull_usable.
  - unfold header_ok. cbn. split_and!; try done; try (split; [done|repeat constructor]); try done; unfold signed_ok; mlia.
  - vm_compute. split; discriminate.
Defined.

(** Three transactions of which the last one is selected. *)
Definition last_of_three : CPartialMerkleTree := default default_partial (new_partial (sample_leaves 3) [false; false; true]).
Definition root_of_three : base_uint := Eval vm_compute in tree_root 2 (sample_leaves 3).
Lemma extracted_are_transactions_witness : sublist [3 :: replicate 7 1] (sample_leaves 3).
Proof.
  apply (extracted_are_transactions last_of_three last_of_three (sample_leaves 3) [3 :: replicate 7 1] root_of_three false).
  - vm_compute. reflexivity.
  - vm_compute. reflexivity.
  - vm_compute. discriminate.
  - apply no_collision_b_sound. vm_compute. reflexivity.
  - vm_compute. reflexivity.
Defined.

(** The two sides of a node may be equal, since this is not checked: with
    another number of transactions the last one of the block is extracted
    twice, for the same root. *)
Definition doubled : CPartialMerkleTree := mkPartial 4 [true; false; true; true; true] [tree_root 1 (sample_leaves 2); 3 :: replicate 7 1; 3 :: replicate 7 1] false.
Example equal_siblings_accepted : (ExtractMatches doubled).1 = (root_of_three, [3 :: replicate 7 1; 3 :: replicate 7 1]).
Proof. vm_compute. reflexivity. Qed.
