(* ===== verification/NetAddress.v ===== *)
(** * NetAddress: addresses, services and subnets ([netaddress.h], [netaddress.cpp], [protocol.h])

    An address is 16 bytes in network order; IPv4 and Tor addresses are embedded
    in prefixes of IPv6.  The operations on socket structures and the printing
    of addresses are left out. *)

From S2P Require Import Prelude ArithUint256 Script Interpreter Serialize Transaction.
Local Open Scope Z_scope.

(** ** [CNetAddr] *)

Inductive Network := NET_UNROUTABLE | NET_IPV4 | NET_IPV6 | NET_TOR.
#[export] Instance Network_eq_dec : EqDecision Network.
Proof. solve_decision. Defined.
(** The value of the enumeration. *)
Definition Network_value (n : Network) : Z := match n with NET_UNROUTABLE => 0 | NET_IPV4 => 1 | NET_IPV6 => 2 | NET_TOR => 3 end.
Definition NET_MAX : Z := 4.

Record CNetAddr := mkNetAddr { ip : list Z; scopeId : Z }.
Definition pchIPv4 : list Z := replicate 10 0 ++ [0xff; 0xff].
Definition pchOnionCat : list Z := [0xFD; 0x87; 0xD8; 0x7E; 0xEB; 0x43].

Definition NetAddr_Init : CNetAddr := mkNetAddr (replicate 16 0) 0.
Definition SetIP (ipIn a : CNetAddr) : CNetAddr := mkNetAddr ipIn.(ip) a.(scopeId).
(** [SetRaw]; [None] is the failed assertion. *)
Definition SetRaw (network : Network) (ip_in : list Z) (a : CNetAddr) : option CNetAddr :=
  match network with
  | NET_IPV4 => Some (mkNetAddr (pchIPv4 ++ take 4 ip_in) a.(scopeId))
  | NET_IPV6 => Some (mkNetAddr (take 16 ip_in) a.(scopeId))
  | _ => None
  end.
Definition GetByte (a : CNetAddr) (n : nat) : Z := nth (15 - n) a.(ip) 0.
(** [memcmp(ip, p, sizeof(p)) == 0]. *)
Definition starts_with (p : list Z) (a : CNetAddr) : bool := bool_decide (take (length p) a.(ip) = p).

Section classes.
Variable a : CNetAddr.

Definition IsIPv4 : bool := starts_with pchIPv4 a.
Definition IsTor : bool := starts_with pchOnionCat a.
Definition IsIPv6 : bool := negb IsIPv4 && negb IsTor.
Definition IsRFC1918 : bool :=
  IsIPv4 && ((GetByte a 3 =? 10) || ((GetByte a 3 =? 192) && (GetByte a 2 =? 168)) ||
             ((GetByte a 3 =? 172) && ((16 <=? GetByte a 2) && (GetByte a 2 <=? 31)))).
Definition IsRFC2544 : bool := IsIPv4 && (GetByte a 3 =? 198) && ((GetByte a 2 =? 18) || (GetByte a 2 =? 19)).
Definition IsRFC3927 : bool := IsIPv4 && ((GetByte a 3 =? 169) && (GetByte a 2 =? 254)).
Definition IsRFC6598 : bool := IsIPv4 && (GetByte a 3 =? 100) && (64 <=? GetByte a 2) && (GetByte a 2 <=? 127).
Definition IsRFC5737 : bool :=
  IsIPv4 && (((GetByte a 3 =? 192) && (GetByte a 2 =? 0) && (GetByte a 1 =? 2)) ||
             ((GetByte a 3 =? 198) && (GetByte a 2 =? 51) && (GetByte a 1 =? 100)) ||
             ((GetByte a 3 =? 203) && (GetByte a 2 =? 0) && (GetByte a 1 =? 113))).
Definition IsRFC3849 : bool := (GetByte a 15 =? 0x20) && (GetByte a 14 =? 0x01) && (GetByte a 13 =? 0x0D) && (GetByte a 12 =? 0xB8).
Definition IsRFC3964 : bool := (GetByte a 15 =? 0x20) && (GetByte a 14 =? 0x02).
Definition IsRFC6052 : bool := starts_with [0; 0x64; 0xFF; 0x9B; 0; 0; 0; 0; 0; 0; 0; 0] a.
Definition IsRFC4380 : bool := (GetByte a 15 =? 0x20) && (GetByte a 14 =? 0x01) && (GetByte a 13 =? 0) && (GetByte a 12 =? 0).
Definition IsRFC4862 : bool := starts_with [0xFE; 0x80; 0; 0; 0; 0; 0; 0] a.
Definition IsRFC4193 : bool := Z.land (GetByte a 15) 0xFE =? 0xFC.
Definition IsRFC6145 : bool := starts_with [0; 0; 0; 0; 0; 0; 0; 0; 0xFF; 0xFF; 0; 0] a.
Definition IsRFC4843 : bool := (GetByte a 15 =? 0x20) && (GetByte a 14 =? 0x01) && (GetByte a 13 =? 0x00) && (Z.land (GetByte a 12) 0xF0 =? 0x10).
Definition IsLocal : bool :=
  if IsIPv4 && ((GetByte a 3 =? 127) || (GetByte a 3 =? 0)) then true
  else bool_decide (a.(ip) = replicate 15 0 ++ [1]).
Definition IsMulticast : bool := (IsIPv4 && (Z.land (GetByte a 3) 0xF0 =? 0xE0)) || (GetByte a 15 =? 0xFF).
Definition IsValid : bool :=
  if starts_with (drop 3 pchIPv4) a then false
  else if bool_decide (a.(ip) = replicate 16 0) then false
  else if IsRFC3849 then false
  else if IsIPv4 then
    if bool_decide (drop 12 a.(ip) = replicate 4 0xff) then false
    else if bool_decide (drop 12 a.(ip) = replicate 4 0) then false
    else true
  else true.
Definition IsRoutable : bool :=
  IsValid && negb (IsRFC1918 || IsRFC2544 || IsRFC3927 || IsRFC4862 || IsRFC6598 || IsRFC5737 || (IsRFC4193 && negb IsTor) || IsRFC4843 || IsLocal).
Definition GetNetwork : Network :=
  if negb IsRoutable then NET_UNROUTABLE else if IsIPv4 then NET_IPV4 else if IsTor then NET_TOR else NET_IPV6.
Definition GetInAddr : option (list Z) := if IsIPv4 then Some (drop 12 a.(ip)) else None.
Definition GetIn6Addr : list Z := take 16 a.(ip).

(** The loop of [GetGroup]: the whole bytes, then a part of a byte. *)
Fixpoint group_bytes (k : nat) (nStartByte : nat) : list Z :=
  match k with O => [] | S k => GetByte a (15 - nStartByte) :: group_bytes k (S nStartByte) end.
Definition group (nClass : Z) (nStartByte nBits : nat) : list Z :=
  let whole := (nBits / 8)%nat in let rest := (nBits mod 8)%nat in
  nClass :: group_bytes whole nStartByte ++
  (if bool_decide (0 < rest)%nat then [Z.lor (GetByte a (15 - (nStartByte + whole))) (Z.shiftl 1 (Z.of_nat (8 - rest)) - 1)] else []).
Definition GetGroup : list Z :=
  let nBits := if IsLocal then O else 16%nat in
  if negb IsRoutable then group (Network_value NET_UNROUTABLE) 0 0
  else if IsIPv4 || IsRFC6145 || IsRFC6052 then group (Network_value NET_IPV4) 12 nBits
  else if IsRFC3964 then group (Network_value NET_IPV4) 2 nBits
  else if IsRFC4380 then [Network_value NET_IPV4; Z.lxor (GetByte a 3) 0xFF; Z.lxor (GetByte a 2) 0xFF]
  else if IsTor then group (Network_value NET_TOR) 6 4
  else
    let nClass := if IsLocal then 255 else Network_value NET_IPV6 in
    if (GetByte a 15 =? 0x20) && (GetByte a 14 =? 0x01) && (GetByte a 13 =? 0x04) && (GetByte a 12 =? 0x70) then group nClass 0 36
    else group nClass 0 32.

Definition NetAddr_GetHash `{ScriptCrypto} : Z := ReadLE (take 8 (Hash256 (take 16 a.(ip)))).
End classes.

(** Equality and order of addresses do not look at the scope. *)
Definition NetAddr_eq (a b : CNetAddr) : bool := bool_decide (a.(ip) = b.(ip)).
(** [memcmp < 0] for arrays of the same length. *)
Fixpoint memlt (a b : list Z) : bool :=
  match a, b with x :: a, y :: b => (x <? y) || ((x =? y) && memlt a b) | _, _ => false end.
Definition NetAddr_lt (a b : CNetAddr) : bool := memlt a.(ip) b.(ip).

Definition NET_UNKNOWN : Z := NET_MAX + 0.
Definition NET_TEREDO : Z := NET_MAX + 1.
Definition GetExtNetwork (addr : option CNetAddr) : Z :=
  match addr with
  | None => NET_UNKNOWN
  | Some a => if IsRFC4380 a then NET_TEREDO else Network_value (GetNetwork a)
  end.
Inductive Reachability := REACH_UNREACHABLE | REACH_DEFAULT | REACH_TEREDO | REACH_IPV6_WEAK | REACH_IPV4 | REACH_IPV6_STRONG | REACH_PRIVATE.
Definition GetReachabilityFrom (a : CNetAddr) (paddrPartner : option CNetAddr) : Reachability :=
  let on n net := net =? Network_value n in
  if negb (IsRoutable a) then REACH_UNREACHABLE
  else
    let ourNet := GetExtNetwork (Some a) in
    let theirNet := GetExtNetwork paddrPartner in
    let fTunnel := IsRFC3964 a || IsRFC6052 a || IsRFC6145 a in
    if on NET_IPV4 theirNet then if on NET_IPV4 ourNet then REACH_IPV4 else REACH_DEFAULT
    else if on NET_IPV6 theirNet then
      if ourNet =? NET_TEREDO then REACH_TEREDO
      else if on NET_IPV4 ourNet then REACH_IPV4
      else if on NET_IPV6 ourNet then if fTunnel then REACH_IPV6_WEAK else REACH_IPV6_STRONG
      else REACH_DEFAULT
    else if on NET_TOR theirNet then
      if on NET_IPV4 ourNet then REACH_IPV4 else if on NET_TOR ourNet then REACH_PRIVATE else REACH_DEFAULT
    else if theirNet =? NET_TEREDO then
      if ourNet =? NET_TEREDO then REACH_TEREDO else if on NET_IPV6 ourNet then REACH_IPV6_WEAK else if on NET_IPV4 ourNet then REACH_IPV4 else REACH_DEFAULT
    else if ourNet =? NET_TEREDO then REACH_TEREDO
    else if on NET_IPV6 ourNet then REACH_IPV6_WEAK
    else if on NET_IPV4 ourNet then REACH_IPV4
    else if on NET_TOR ourNet then REACH_PRIVATE
    else REACH_DEFAULT.

(** ** [CService] and [CAddress] *)

Record CService := mkService { srv_addr : CNetAddr; port : Z }.
Definition Service_Init : CService := mkService NetAddr_Init 0.
Definition Service_eq (a b : CService) : bool := NetAddr_eq a.(srv_addr) b.(srv_addr) && (a.(port) =? b.(port)).
Definition Service_lt (a b : CService) : bool :=
  NetAddr_lt a.(srv_addr) b.(srv_addr) || (NetAddr_eq a.(srv_addr) b.(srv_addr) && (a.(port) <? b.(port))).
Definition GetKey (s : CService) : list Z := take 16 s.(srv_addr).(ip) ++ [u8 (s.(port) / 0x100); Z.land s.(port) 0x0FF].

(** On the wire; the port in network order.  The scope is not sent. *)
Definition c_netaddr : codec CNetAddr :=
  {| enc a := (c_array 16).(enc) a.(ip); dec s := '(b, s) ← (c_array 16).(dec) s; Some (mkNetAddr b 0, s) |}.
Definition c_service : codec CService :=
  {| enc v := (c_array 16).(enc) v.(srv_addr).(ip) ++ (c_array 2).(enc) [v.(port) / 256; v.(port) mod 256];
     dec s := '(b, s) ← (c_array 16).(dec) s; '(p, s) ← (c_array 2).(dec) s; Some (mkService (mkNetAddr b 0) (256 * nth 0 p 0 + nth 1 p 0), s) |}.

Record CAddress := mkAddress { addr_service : CService; nServices : Z; nTime : Z }.
Definition Address_Init (s : CService) : CAddress := mkAddress s 0 100000000.
(** The format on disk: the version is written, and what was written is read
    and ignored. *)
Definition c_address_disk (version : Z) : codec CAddress :=
  {| enc a := (c_signed 4).(enc) version ++ (c_unsigned 4).(enc) a.(nTime) ++ (c_unsigned 8).(enc) a.(nServices) ++ c_service.(enc) a.(addr_service);
     dec s := '(_, s) ← (c_signed 4).(dec) s; '(t, s) ← (c_unsigned 4).(dec) s; '(n, s) ← (c_unsigned 8).(dec) s; '(v, s) ← c_service.(dec) s;
              Some (mkAddress v n t, s) |}.
(** The format in a message of a version with time stamps. *)
Definition c_address : codec CAddress :=
  {| enc a := (c_unsigned 4).(enc) a.(nTime) ++ (c_unsigned 8).(enc) a.(nServices) ++ c_service.(enc) a.(addr_service);
     dec s := '(t, s) ← (c_unsigned 4).(dec) s; '(n, s) ← (c_unsigned 8).(dec) s; '(v, s) ← c_service.(dec) s; Some (mkAddress v n t, s) |}.

(** ** [CSubNet] *)

Record CSubNet := mkSubNet { sn_network : CNetAddr; netmask : list Z; valid : bool }.
Definition SubNet_default : CSubNet := mkSubNet NetAddr_Init (replicate 16 0) false.
Definition and_bytes (a m : list Z) : list Z := zip_with Z.land a m.
Definition normalize (a : CNetAddr) (mask : list Z) : CNetAddr := mkNetAddr (and_bytes a.(ip) mask) a.(scopeId).
Definition astartofs (a : CNetAddr) : nat := if IsIPv4 a then 12%nat else O.
(** [netmask[n>>3] &= ~(1<<(7-(n&7)))]. *)
Definition clear_bit (m : list Z) (n : Z) : list Z :=
  alter (λ b, Z.land b (Z.lnot (Z.shiftl 1 (7 - Z.land n 7)))) (Z.to_nat (Z.shiftr n 3)) m.
Definition SubNet_bits (addr : CNetAddr) (mask : Z) : CSubNet :=
  let full := replicate 16 255 in
  let ofs := Z.of_nat (astartofs addr) * 8 in
  if (0 <=? mask) && (mask <=? 128 - ofs) then
    let m := foldl clear_bit full (seqZ (mask + ofs) (128 - (mask + ofs))) in mkSubNet (normalize addr m) m true
  else mkSubNet (normalize addr full) full false.
Definition SubNet_mask (addr mask : CNetAddr) : CSubNet :=
  let m := replicate (astartofs addr) 255 ++ drop (astartofs addr) mask.(ip) in mkSubNet (normalize addr m) m true.
Definition SubNet_single (addr : CNetAddr) : CSubNet := mkSubNet addr (replicate 16 255) (IsValid addr).
Definition Match (sn : CSubNet) (addr : CNetAddr) : bool :=
  sn.(valid) && IsValid addr && bool_decide (and_bytes addr.(ip) sn.(netmask) = sn.(sn_network).(ip)).
Definition NetmaskBits (x : Z) : Z :=
  if x =? 0x00 then 0 else if x =? 0x80 then 1 else if x =? 0xc0 then 2 else if x =? 0xe0 then 3 else if x =? 0xf0 then 4
  else if x =? 0xf8 then 5 else if x =? 0xfc then 6 else if x =? 0xfe then 7 else if x =? 0xff then 8 else -1.
Definition SubNet_eq (a b : CSubNet) : bool :=
  Bool.eqb a.(valid) b.(valid) && NetAddr_eq a.(sn_network) b.(sn_network) && bool_decide (a.(netmask) = b.(netmask)).
Definition SubNet_lt (a b : CSubNet) : bool :=
  NetAddr_lt a.(sn_network) b.(sn_network) || (NetAddr_eq a.(sn_network) b.(sn_network) && memlt a.(netmask) b.(netmask)).

(** ** Round trips and keys *)

Definition ip_ok (a : list Z) : Prop := length a = 16%nat ∧ bytes a.
Definition service_ok (s : CService) : Prop := ip_ok s.(srv_addr).(ip) ∧ s.(srv_addr).(scopeId) = 0 ∧ 0 <= s.(port) < 2 ^ 16.
#[export] Instance c_service_rt : RoundTrip service_ok c_service.
Proof.
  intros [[b sc] p] rest ([Hl _] & Hs & Hp). cbn [srv_addr ip scopeId port c_service enc dec] in *. subst sc. rewrite <- app_assoc, (c_array_rt 16) by done. cbn [mbind option_bind].
  rewrite (c_array_rt 2) by done. cbn [mbind option_bind nth]. do 3 f_equal. pose proof (Z.div_mod p 256 ltac:(lia)). lia.
Qed.
Definition address_ok (a : CAddress) : Prop := service_ok a.(addr_service) ∧ is_u64 a.(nServices) ∧ is_u32 a.(nTime).
#[export] Instance c_address_rt : RoundTrip address_ok c_address.
Proof.
  intros [v n t] rest (Hv & Hn & Ht). cbn [addr_service nServices nTime c_address enc dec] in *. rewrite <- !app_assoc.
  rewrite (c_unsigned_rt 4) by mlia. cbn [mbind option_bind]. rewrite (c_unsigned_rt 8) by mlia. cbn [mbind option_bind]. by rewrite (c_service_rt v).
Qed.
#[export] Instance c_address_disk_rt version : RoundTrip (λ a, address_ok a ∧ is_i32 version) (c_address_disk version).
Proof.
  intros [v n t] rest [(Hv & Hn & Ht) Hver]. cbn [addr_service nServices nTime c_address_disk enc dec] in *. rewrite <- !app_assoc.
  rewrite (c_signed_rt 4) by (split; [lia|mlia]). cbn [mbind option_bind]. rewrite (c_unsigned_rt 4) by mlia. cbn [mbind option_bind].
  rewrite (c_unsigned_rt 8) by mlia. cbn [mbind option_bind]. by rewrite (c_service_rt v).
Qed.
Lemma GetKey_inj s1 s2 : service_ok s1 → service_ok s2 → GetKey s1 = GetKey s2 → s1 = s2.
Proof.
  destruct s1 as [[b1 c1] p1], s2 as [[b2 c2] p2]. intros ([L1 _] & S1 & P1) ([L2 _] & S2 & P2) E. cbn [srv_addr ip scopeId port GetKey] in *. subst. unfold GetKey in E.
  cbn [srv_addr ip port] in E. rewrite !take_ge in E by lia. apply app_inj_1 in E as [-> E]; [|lia]. f_equal. change 0x0FF with (Z.ones 8) in E. rewrite !Z.land_ones in E by lia.
  injection E as E1 E2. unfold u8 in E1. pose proof (Z.div_lt_upper_bound p1 256 256 ltac:(lia) ltac:(lia)). pose proof (Z.div_lt_upper_bound p2 256 256 ltac:(lia) ltac:(lia)).
  pose proof (Z.div_pos p1 256 ltac:(lia) ltac:(lia)). pose proof (Z.div_pos p2 256 ltac:(lia) ltac:(lia)). rewrite !Z.mod_small in E1 by lia.
  rewrite (Z.div_mod p1 256), (Z.div_mod p2 256) by lia. change (2 ^ 8) with 256 in E2. lia.
Qed.

(** ** Subnets match prefixes *)

(** Bit [i] of an address, in network order. *)
Definition addr_bit (b : list Z) (i : nat) : bool := Z.testbit (nth (i / 8) b 0) (7 - Z.of_nat (i mod 8)).

Lemma addr_bits_eq b1 b2 : ip_ok b1 → ip_ok b2 → (∀ i, (i < 128)%nat → addr_bit b1 i = addr_bit b2 i) → b1 = b2.
Proof.
  intros [L1 B1] [L2 B2] H. apply (list_eq_same_length _ _ 16); [done..|]. intros k x y Hk Hx Hy. pose proof (Forall_lookup_1 _ _ _ _ B1 Hx) as Rx. pose proof (Forall_lookup_1 _ _ _ _ B2 Hy) as Ry. cbn in Rx, Ry.
  apply Z.bits_inj'. intros j Hj. destruct (decide (j < 8)) as [Hj8|Hj8].
  - specialize (H (8 * k + Z.to_nat (7 - j))%nat ltac:(lia)). unfold addr_bit in H.
    assert ((8 * k + Z.to_nat (7 - j)) / 8 = k)%nat as E by (rewrite (Nat.mul_comm 8), Nat.div_add_l, Nat.div_small by lia; lia).
    assert ((8 * k + Z.to_nat (7 - j)) mod 8 = Z.to_nat (7 - j))%nat as E' by (rewrite Nat.add_comm, (Nat.mul_comm 8), Nat.Div0.mod_add, Nat.mod_small by lia; lia).
    rewrite E, E' in H. rewrite (nth_lookup_Some b1 k 0 x Hx), (nth_lookup_Some b2 k 0 y Hy) in H. replace (7 - Z.of_nat (Z.to_nat (7 - j))) with j in H by lia. done.
  - rewrite (testbit_above x 8 j), (testbit_above y 8 j) by mlia. done.
Qed.
Lemma and_bytes_ok b m : ip_ok b → ip_ok m → ip_ok (and_bytes b m).
Proof.
  intros [L1 B1] [L2 B2]. split; [unfold and_bytes; rewrite length_zip_with; lia|]. unfold bytes. apply Forall_lookup. intros k z (x & y & -> & Hx & Hy)%lookup_zip_with_Some.
  pose proof (Forall_lookup_1 _ _ _ _ B1 Hx) as Rx. pose proof (Forall_lookup_1 _ _ _ _ B2 Hy) as Ry. cbn in Rx, Ry. unfold is_u8 in *. pose proof (land_le_l x y). split; [apply Z.land_nonneg; lia|lia].
Qed.
Lemma and_bytes_bit b m i : length b = 16%nat → length m = 16%nat → (i < 128)%nat → addr_bit (and_bytes b m) i = addr_bit b i && addr_bit m i.
Proof.
  intros L1 L2 Hi. unfold addr_bit. assert (i / 8 < 16)%nat as Hd by (apply Nat.Div0.div_lt_upper_bound; lia).
  destruct (lookup_lt_is_Some_2 b (i / 8)) as [x Hx]; [lia|]. destruct (lookup_lt_is_Some_2 m (i / 8)) as [y Hy]; [lia|].
  rewrite (nth_lookup_Some b _ 0 x Hx), (nth_lookup_Some m _ 0 y Hy). rewrite (nth_lookup_Some (and_bytes b m) _ 0 (Z.land x y)); [apply Z.land_spec|].
  apply lookup_zip_with_Some. by exists x, y.
Qed.
Lemma clear_bit_ok m n : ip_ok m → ip_ok (clear_bit m n).
Proof.
  intros [L B]. split; [unfold clear_bit; by rewrite length_alter|]. unfold clear_bit. apply Forall_alter; [done|]. intros x Hx Rx. cbn in Rx |- *. unfold is_u8 in *.
  set (c := Z.lnot _). pose proof (land_le_l x c). split; [apply Z.land_nonneg; lia|lia].
Qed.
Lemma clear_bit_bit m n i : length m = 16%nat → (n < 128)%nat → (i < 128)%nat → addr_bit (clear_bit m (Z.of_nat n)) i = addr_bit m i && negb (bool_decide (i = n)).
Proof.
  intros L Hn Hi. unfold addr_bit, clear_bit. assert (i / 8 < 16)%nat as Hd by (apply Nat.Div0.div_lt_upper_bound; lia). destruct (lookup_lt_is_Some_2 m (i / 8)) as [x Hx]; [lia|].
  change (Z.land (Z.of_nat n) 7) with (Z.land (Z.of_nat n) (Z.ones 3)). rewrite Z.land_ones, Z.shiftr_div_pow2 by lia. change (2 ^ 3) with (Z.of_nat 8). rewrite <- Nat2Z.inj_mod, <- Nat2Z.inj_div, Nat2Z.id.
  rewrite (nth_lookup_Some m _ 0 x Hx). pose proof (Nat.mod_upper_bound i 8 ltac:(lia)). pose proof (Nat.mod_upper_bound n 8 ltac:(lia)). pose proof (Nat.div_mod_eq i 8). pose proof (Nat.div_mod_eq n 8).
  destruct (decide (n / 8 = i / 8)%nat) as [E|E].
  - erewrite (nth_lookup_Some (alter _ _ m)); [|rewrite E, list_lookup_alter_eq, Hx; done]. rewrite Z.land_spec, Z.lnot_spec, Z.shiftl_spec by lia. f_equal. f_equal.
    case_bool_decide as Hc; [subst; by rewrite Z.sub_diag|]. set (k := 7 - Z.of_nat (i mod 8) - (7 - Z.of_nat (n mod 8))). assert (k ≠ 0) by (subst k; lia).
    destruct (decide (k < 0)); [by apply Z.testbit_neg_r|]. apply Z.bits_above_log2; cbn; lia.
  - erewrite (nth_lookup_Some (alter _ _ m)); [|rewrite list_lookup_alter_ne by done; exact Hx]. rewrite bool_decide_false by (intros ->; done). by rewrite andb_true_r.
Qed.
Lemma mask_bits k i : (k <= 128)%nat → (i < 128)%nat → let m := foldl clear_bit (replicate 16 255) (seqZ (Z.of_nat k) (128 - Z.of_nat k)) in
  ip_ok m ∧ addr_bit m i = bool_decide (i < k)%nat.
Proof.
  intros Hk Hi. cbn zeta. assert (∀ d k m, (k + d = 128)%nat → ip_ok m → let m' := foldl clear_bit m (seqZ (Z.of_nat k) (Z.of_nat d)) in ip_ok m' ∧ addr_bit m' i = addr_bit m i && bool_decide (i < k)%nat) as H.
  { clear k Hk. induction d as [|d IH]; intros k m Hkd Hm; [split; [done|]; rewrite bool_decide_true by lia; by rewrite andb_true_r|]. rewrite seqZ_cons by lia. cbn [foldl].
    replace (Z.pred (Z.of_nat (S d))) with (Z.of_nat d) by lia. replace (Z.succ (Z.of_nat k)) with (Z.of_nat (S k)) by lia.
    destruct (IH (S k) (clear_bit m (Z.of_nat k)) ltac:(lia) (clear_bit_ok _ _ Hm)) as [Ho Hb]. split; [done|]. rewrite Hb, clear_bit_bit by (apply Hm || lia). rewrite <- andb_assoc. f_equal.
    destruct (decide (i = k)) as [->|]; [rewrite !bool_decide_true, bool_decide_false by lia; done|]. rewrite (bool_decide_false (i = k)) by done. cbn. apply bool_decide_ext. lia. }
  replace (128 - Z.of_nat k) with (Z.of_nat (128 - k)) by lia. assert (ip_ok (replicate 16 255)) as Hf by (split; [done|]; unfold bytes; repeat constructor; done).
  destruct (H (128 - k)%nat k (replicate 16 255) ltac:(lia) Hf) as [Ho Hb]. split; [done|]. rewrite Hb. assert (addr_bit (replicate 16 255) i = true) as ->; [|done].
  unfold addr_bit. assert (i / 8 < 16)%nat as Hd by (apply Nat.Div0.div_lt_upper_bound; lia). rewrite (nth_lookup_Some _ _ 0 255) by (by apply lookup_replicate_2).
  change 255 with (Z.ones 8). pose proof (Nat.mod_upper_bound i 8 ltac:(lia)). apply Z.ones_spec_low. lia.
Qed.

(** C40: a subnet given by a number of bits matches exactly the valid addresses
    that have the first bits of its address, where the bits of an IPv4 address
    are counted from its start within the mapped address. *)
Theorem subnet_matches_prefix (addr x : CNetAddr) (mask : Z) : ip_ok addr.(ip) → ip_ok x.(ip) →
  let k := (8 * astartofs addr)%nat in
  0 <= mask <= 128 - Z.of_nat k →
  Match (SubNet_bits addr mask) x = true ↔ IsValid x = true ∧ ∀ i, (i < k + Z.to_nat mask)%nat → addr_bit x.(ip) i = addr_bit addr.(ip) i.
Proof.
  intros Ha Hx. cbn zeta. set (k := (8 * astartofs addr)%nat). intros Hm. unfold SubNet_bits. replace (Z.of_nat (astartofs addr) * 8) with (Z.of_nat k) by lia.
  rewrite !(proj2 (Z.leb_le _ _)) by lia. cbn [andb]. set (n := (k + Z.to_nat mask)%nat). replace (mask + Z.of_nat k) with (Z.of_nat n) by lia.
  set (m := foldl clear_bit _ _). unfold Match. cbn [valid netmask sn_network normalize ip andb]. rewrite andb_true_iff, bool_decide_eq_true.
  pose proof (λ i Hi, mask_bits n i ltac:(lia) Hi) as Hb. fold m in Hb. cbn zeta in Hb. assert (ip_ok m) as Hmo by apply (Hb O ltac:(lia)).
  assert (and_bytes (ip x) m = and_bytes (ip addr) m ↔ ∀ i, (i < n)%nat → addr_bit (ip x) i = addr_bit (ip addr) i) as ->; [|done]. split.
  - intros E i Hi. pose proof (f_equal (λ l, addr_bit l i) E) as E'. cbn beta in E'. rewrite !and_bytes_bit, (proj2 (Hb i ltac:(lia))), bool_decide_true in E' by (apply Ha || apply Hx || apply Hmo || lia).
    by rewrite !andb_true_r in E'.
  - intros H. apply addr_bits_eq; [by apply and_bytes_ok..|]. intros i Hi. rewrite !and_bytes_bit, (proj2 (Hb i Hi)) by (apply Ha || apply Hx || apply Hmo || lia).
    case_bool_decide; [|by rewrite !andb_false_r]. by rewrite H.
Qed.
Lemma subnet_matches_prefix_witness :
  Match (SubNet_bits (mkNetAddr (pchIPv4 ++ [192; 168; 1; 7]) 0) 16) (mkNetAddr (pchIPv4 ++ [192; 168; 9; 9]) 0) = true ↔
  IsValid (mkNetAddr (pchIPv4 ++ [192; 168; 9; 9]) 0) = true ∧
  ∀ i, (i < 96 + Z.to_nat 16)%nat → addr_bit (pchIPv4 ++ [192; 168; 9; 9]) i = addr_bit (pchIPv4 ++ [192; 168; 1; 7]) i.
Proof.
  apply (subnet_matches_prefix (mkNetAddr (pchIPv4 ++ [192; 168; 1; 7]) 0) (mkNetAddr (pchIPv4 ++ [192; 168; 9; 9]) 0) 16).
  - split; [done|]. unfold bytes. cbn. repeat constructor; done.
  - split; [done|]. unfold bytes. cbn. repeat constructor; done.
  - vm_compute. split; discriminate.
Defined.

(** ** Groups *)

(** The group of a routable IPv4 address is its first 16 bits; an address that
    is not routable, a local one too, is in the group of the unroutable ones. *)
Lemma GetGroup_ipv4 a : IsRoutable a = true → IsIPv4 a = true → GetGroup a = [Network_value NET_IPV4; GetByte a 3; GetByte a 2].
Proof.
  intros Hr H4. assert (IsLocal a = false) as Hl by (unfold IsRoutable in Hr; destruct (IsLocal a); [rewrite !orb_true_r, andb_false_r in Hr|]; done).
  unfold GetGroup. rewrite Hr, H4, Hl. cbn [negb orb]. done.
Qed.
Lemma GetGroup_unroutable a : IsRoutable a = false → GetGroup a = [Network_value NET_UNROUTABLE].
Proof. intros Hr. unfold GetGroup. by rewrite Hr. Qed.
Lemma IsLocal_unroutable a : IsLocal a = true → IsRoutable a = false.
Proof. intros Hl. unfold IsRoutable. rewrite Hl. by rewrite !orb_true_r, andb_false_r. Qed.
