(* ===== verification/AddrMan.v ===== *)
(** * AddrMan: the address manager ([addrman.h], [addrman.cpp])

    The addresses of other nodes are kept in two tables of buckets, one for
    addresses that were heard of and one for those that were connected to, with
    several indexes over them.  The code has a consistency check for all of this
    ([Check_]) that is compiled in debug builds only; [man_inv] states the part
    of it that is about the tables (it also looks at the signs of times and at
    the key), and every operation is proved to preserve it.

    A table is a map from the places (bucket, position) that are taken; an empty
    place is [-1] in the code.  [None] is a failed assertion.  The random numbers
    that an operation draws and the time are arguments.  The chance of an entry
    ([GetChance]) is a floating point number: for [Select_] the answers of the
    comparisons with it are arguments.  Reading and writing [peers.dat] is not
    modelled. *)

From S2P Require Import Prelude ArithUint256 Script Interpreter Serialize Transaction NetAddress.
Local Open Scope Z_scope.

Definition ADDRMAN_TRIED_BUCKET_COUNT : Z := 256.
Definition ADDRMAN_NEW_BUCKET_COUNT : Z := 1024.
Definition ADDRMAN_BUCKET_SIZE : Z := 64.
Definition ADDRMAN_TRIED_BUCKETS_PER_GROUP : Z := 8.
Definition ADDRMAN_NEW_BUCKETS_PER_SOURCE_GROUP : Z := 64.
Definition ADDRMAN_NEW_BUCKETS_PER_ADDRESS : Z := 8.
Definition ADDRMAN_HORIZON_DAYS : Z := 30.
Definition ADDRMAN_RETRIES : Z := 3.
Definition ADDRMAN_MAX_FAILURES : Z := 10.
Definition ADDRMAN_MIN_FAIL_DAYS : Z := 7.
Definition ADDRMAN_REPLACEMENT_HOURS : Z := 4.
Definition ADDRMAN_GETADDR_MAX_PCT : Z := 23.
Definition ADDRMAN_GETADDR_MAX : Z := 2500.
Definition ADDRMAN_SET_TRIED_COLLISION_SIZE : nat := 10.

(** ** [CAddrInfo] *)

Record CAddrInfo := mkInfo {
  ai_addr : CAddress;
  nLastTry : Z;
  nLastCountAttempt : Z;
  source : CNetAddr;
  nLastSuccess : Z;
  nAttempts : Z;
  nRefCount : Z;
  fInTried : bool;
  nRandomPos : Z;
}.
Definition new_info (addrIn : CAddress) (addrSource : CNetAddr) : CAddrInfo := mkInfo addrIn 0 0 addrSource 0 0 0 false (-1).
(** [CAddrInfo()]. *)
Definition default_info : CAddrInfo := new_info (Address_Init Service_Init) NetAddr_Init.
Definition service_of (i : CAddrInfo) : CService := i.(ai_addr).(addr_service).
Definition net_of (i : CAddrInfo) : CNetAddr := (service_of i).(srv_addr).

Definition set_addr (a : CAddress) (i : CAddrInfo) : CAddrInfo :=
  mkInfo a i.(nLastTry) i.(nLastCountAttempt) i.(source) i.(nLastSuccess) i.(nAttempts) i.(nRefCount) i.(fInTried) i.(nRandomPos).
Definition set_time (t : Z) (i : CAddrInfo) : CAddrInfo := set_addr (mkAddress i.(ai_addr).(addr_service) i.(ai_addr).(nServices) t) i.
Definition set_services (n : Z) (i : CAddrInfo) : CAddrInfo := set_addr (mkAddress i.(ai_addr).(addr_service) n i.(ai_addr).(nTime)) i.
Definition set_refs (n : Z) (i : CAddrInfo) : CAddrInfo :=
  mkInfo i.(ai_addr) i.(nLastTry) i.(nLastCountAttempt) i.(source) i.(nLastSuccess) i.(nAttempts) n i.(fInTried) i.(nRandomPos).
Definition set_in_tried (b : bool) (i : CAddrInfo) : CAddrInfo :=
  mkInfo i.(ai_addr) i.(nLastTry) i.(nLastCountAttempt) i.(source) i.(nLastSuccess) i.(nAttempts) i.(nRefCount) b i.(nRandomPos).
Definition set_pos (p : Z) (i : CAddrInfo) : CAddrInfo :=
  mkInfo i.(ai_addr) i.(nLastTry) i.(nLastCountAttempt) i.(source) i.(nLastSuccess) i.(nAttempts) i.(nRefCount) i.(fInTried) p.
(** The statistics after a success and after an attempt. *)
Definition set_success (t : Z) (i : CAddrInfo) : CAddrInfo :=
  mkInfo i.(ai_addr) t i.(nLastCountAttempt) i.(source) t 0 i.(nRefCount) i.(fInTried) i.(nRandomPos).
Definition set_attempt (t : Z) (count : bool) (i : CAddrInfo) : CAddrInfo :=
  mkInfo i.(ai_addr) t (if count then t else i.(nLastCountAttempt)) i.(source) i.(nLastSuccess) (if count then i.(nAttempts) + 1 else i.(nAttempts)) i.(nRefCount) i.(fInTried) i.(nRandomPos).

Section buckets.
Context `{ScriptCrypto} (nKey : base_uint).

(** [CHashWriter(...).GetHash().GetCheapHash()]. *)
Definition cheap_hash (l : list Z) : Z := ReadLE (take 8 (Hash256 (c_uint256.(enc) nKey ++ l))).
Definition GetTriedBucket (i : CAddrInfo) : Z :=
  let hash1 := cheap_hash (c_blob.(enc) (GetKey (service_of i))) in
  let hash2 := cheap_hash (c_blob.(enc) (GetGroup (net_of i)) ++ (c_unsigned 8).(enc) (hash1 mod ADDRMAN_TRIED_BUCKETS_PER_GROUP)) in
  hash2 mod ADDRMAN_TRIED_BUCKET_COUNT.
Definition GetNewBucket (i : CAddrInfo) (src : CNetAddr) : Z :=
  let vchSourceGroupKey := GetGroup src in
  let hash1 := cheap_hash (c_blob.(enc) (GetGroup (net_of i)) ++ c_blob.(enc) vchSourceGroupKey) in
  let hash2 := cheap_hash (c_blob.(enc) vchSourceGroupKey ++ (c_unsigned 8).(enc) (hash1 mod ADDRMAN_NEW_BUCKETS_PER_SOURCE_GROUP)) in
  hash2 mod ADDRMAN_NEW_BUCKET_COUNT.
Definition GetBucketPosition (i : CAddrInfo) (fNew : bool) (nBucket : Z) : Z :=
  let hash1 := cheap_hash ([if fNew then 78 else 75] ++ (c_signed 4).(enc) nBucket ++ c_blob.(enc) (GetKey (service_of i))) in
  hash1 mod ADDRMAN_BUCKET_SIZE.
End buckets.

Definition IsTerrible (nNow : Z) (i : CAddrInfo) : bool :=
  if negb (i.(nLastTry) =? 0) && (nNow - 60 <=? i.(nLastTry)) then false
  else if nNow + 10 * 60 <? i.(ai_addr).(nTime) then true
  else if (i.(ai_addr).(nTime) =? 0) || (ADDRMAN_HORIZON_DAYS * 24 * 60 * 60 <? nNow - i.(ai_addr).(nTime)) then true
  else if (i.(nLastSuccess) =? 0) && (ADDRMAN_RETRIES <=? i.(nAttempts)) then true
  else if (ADDRMAN_MIN_FAIL_DAYS * 24 * 60 * 60 <? nNow - i.(nLastSuccess)) && (ADDRMAN_MAX_FAILURES <=? i.(nAttempts)) then true
  else false.

(** ** [CAddrMan] *)

(** [mapAddr] is keyed by the bytes of an address, which is what its order
    compares.  The set of collisions is the list of its elements in order. *)
Record CAddrMan := mkMan {
  nIdCount : Z;
  mapInfo : gmap Z CAddrInfo;
  mapAddr : gmap (list Z) Z;
  vRandom : list Z;
  nTried : Z;
  vvTried : gmap (Z * Z) Z;
  nNew : Z;
  vvNew : gmap (Z * Z) Z;
  nLastGood : Z;
  m_tried_collisions : list Z;
  nKey : base_uint;
}.
Definition with_info (m : gmap Z CAddrInfo) (a : CAddrMan) : CAddrMan :=
  mkMan a.(nIdCount) m a.(mapAddr) a.(vRandom) a.(nTried) a.(vvTried) a.(nNew) a.(vvNew) a.(nLastGood) a.(m_tried_collisions) a.(nKey).
Definition with_random (l : list Z) (a : CAddrMan) : CAddrMan :=
  mkMan a.(nIdCount) a.(mapInfo) a.(mapAddr) l a.(nTried) a.(vvTried) a.(nNew) a.(vvNew) a.(nLastGood) a.(m_tried_collisions) a.(nKey).
Definition with_addr (m : gmap (list Z) Z) (a : CAddrMan) : CAddrMan :=
  mkMan a.(nIdCount) a.(mapInfo) m a.(vRandom) a.(nTried) a.(vvTried) a.(nNew) a.(vvNew) a.(nLastGood) a.(m_tried_collisions) a.(nKey).
Definition with_new (n : Z) (v : gmap (Z * Z) Z) (a : CAddrMan) : CAddrMan :=
  mkMan a.(nIdCount) a.(mapInfo) a.(mapAddr) a.(vRandom) a.(nTried) a.(vvTried) n v a.(nLastGood) a.(m_tried_collisions) a.(nKey).
Definition with_tried (n : Z) (v : gmap (Z * Z) Z) (a : CAddrMan) : CAddrMan :=
  mkMan a.(nIdCount) a.(mapInfo) a.(mapAddr) a.(vRandom) n v a.(nNew) a.(vvNew) a.(nLastGood) a.(m_tried_collisions) a.(nKey).
Definition with_last_good (t : Z) (a : CAddrMan) : CAddrMan :=
  mkMan a.(nIdCount) a.(mapInfo) a.(mapAddr) a.(vRandom) a.(nTried) a.(vvTried) a.(nNew) a.(vvNew) t a.(m_tried_collisions) a.(nKey).
Definition with_collisions (l : list Z) (a : CAddrMan) : CAddrMan :=
  mkMan a.(nIdCount) a.(mapInfo) a.(mapAddr) a.(vRandom) a.(nTried) a.(vvTried) a.(nNew) a.(vvNew) a.(nLastGood) l a.(nKey).
Definition with_id_count (n : Z) (a : CAddrMan) : CAddrMan :=
  mkMan n a.(mapInfo) a.(mapAddr) a.(vRandom) a.(nTried) a.(vvTried) a.(nNew) a.(vvNew) a.(nLastGood) a.(m_tried_collisions) a.(nKey).
Definition set_info (nId : Z) (i : CAddrInfo) (a : CAddrMan) : CAddrMan := with_info (<[nId := i]> a.(mapInfo)) a.

(** [Clear] leaves the set of collisions alone. *)
Definition Clear (key : base_uint) (collisions : list Z) : CAddrMan := mkMan 0 ∅ ∅ [] 0 ∅ 0 ∅ 1 collisions key.
Definition new_man (key : base_uint) : CAddrMan := Clear key [].
Definition man_size (a : CAddrMan) : Z := Z.of_nat (length a.(vRandom)).

(** [mapInfo[nId]], which makes an entry when there is none. *)
Definition info_at (nId : Z) (a : CAddrMan) : CAddrInfo * CAddrMan :=
  match a.(mapInfo) !! nId with Some i => (i, a) | None => (default_info, set_info nId default_info a) end.

Definition Find (addr : CNetAddr) (a : CAddrMan) : option (Z * CAddrInfo) :=
  nId ← a.(mapAddr) !! addr.(ip); i ← a.(mapInfo) !! nId; Some (nId, i).
Definition Create (addr : CAddress) (addrSource : CNetAddr) (a : CAddrMan) : Z * CAddrMan :=
  let nId := a.(nIdCount) in
  let i := set_pos (i32 (Z.of_nat (length a.(vRandom)))) (new_info addr addrSource) in
  (nId, with_random (a.(vRandom) ++ [nId]) (with_addr (<[addr.(addr_service).(srv_addr).(ip) := nId]> a.(mapAddr)) (set_info nId i (with_id_count (i32 (nId + 1)) a)))).
Definition SwapRandom (nRndPos1 nRndPos2 : nat) (a : CAddrMan) : option CAddrMan :=
  if bool_decide (nRndPos1 = nRndPos2) then Some a
  else
    nId1 ← a.(vRandom) !! nRndPos1;
    nId2 ← a.(vRandom) !! nRndPos2;
    i1 ← a.(mapInfo) !! nId1;
    _ ← a.(mapInfo) !! nId2;
    let a := set_info nId1 (set_pos (Z.of_nat nRndPos2) i1) a in
    i2 ← a.(mapInfo) !! nId2;
    let a := set_info nId2 (set_pos (Z.of_nat nRndPos1) i2) a in
    Some (with_random (<[nRndPos2 := nId1]> (<[nRndPos1 := nId2]> a.(vRandom))) a).
Definition Delete (nId : Z) (a : CAddrMan) : option CAddrMan :=
  i ← a.(mapInfo) !! nId;
  if i.(fInTried) then None else if negb (i.(nRefCount) =? 0) then None
  else
    a ← SwapRandom (Z.to_nat (u32 i.(nRandomPos))) (length a.(vRandom) - 1) a;
    let a := with_random (take (length a.(vRandom) - 1) a.(vRandom)) a in
    let a := with_addr (delete (net_of i).(ip) a.(mapAddr)) a in
    let a := with_info (delete nId a.(mapInfo)) a in
    Some (with_new (a.(nNew) - 1) a.(vvNew) a).
Definition ClearNew (nUBucket nUBucketPos : Z) (a : CAddrMan) : option CAddrMan :=
  match a.(vvNew) !! (nUBucket, nUBucketPos) with
  | None => Some a
  | Some nIdDelete =>
      let '(i, a) := info_at nIdDelete a in
      if negb (0 <? i.(nRefCount)) then None
      else
        let a := set_info nIdDelete (set_refs (i.(nRefCount) - 1) i) a in
        let a := with_new a.(nNew) (delete (nUBucket, nUBucketPos) a.(vvNew)) a in
        if i.(nRefCount) - 1 =? 0 then Delete nIdDelete a else Some a
  end.

Section operations.
Context `{ScriptCrypto}.

(** One round of the loop that takes an entry out of the new buckets. *)
Definition leave_bucket (key : base_uint) (i : CAddrInfo) (nId : Z) (s : gmap (Z * Z) Z * Z) (bucket : Z) : gmap (Z * Z) Z * Z :=
  let '(vv, refs) := s in
  let pos := GetBucketPosition key i true bucket in
  if bool_decide (vv !! (bucket, pos) = Some nId) then (delete (bucket, pos) vv, refs - 1) else (vv, refs).
(** Making space at a place of the tried table. *)
Definition evict (nKBucket nKBucketPos : Z) (a : CAddrMan) : option CAddrMan :=
  match a.(vvTried) !! (nKBucket, nKBucketPos) with
  | None => Some a
  | Some nIdEvict =>
      infoOld ← a.(mapInfo) !! nIdEvict;
      let a := set_info nIdEvict (set_in_tried false infoOld) a in
      let a := with_tried (a.(nTried) - 1) (delete (nKBucket, nKBucketPos) a.(vvTried)) a in
      let nUBucket := GetNewBucket a.(nKey) infoOld infoOld.(source) in
      let nUBucketPos := GetBucketPosition a.(nKey) infoOld true nUBucket in
      a ← ClearNew nUBucket nUBucketPos a;
      if bool_decide (a.(vvNew) !! (nUBucket, nUBucketPos) ≠ None) then None
      else
        infoOld ← a.(mapInfo) !! nIdEvict;
        let a := set_info nIdEvict (set_refs 1 infoOld) a in
        Some (with_new (a.(nNew) + 1) (<[(nUBucket, nUBucketPos) := nIdEvict]> a.(vvNew)) a)
  end.
Definition MakeTried (nId : Z) (a : CAddrMan) : option CAddrMan :=
  i ← a.(mapInfo) !! nId;
  let '(vv, refs) := foldl (leave_bucket a.(nKey) i nId) (a.(vvNew), i.(nRefCount)) (seqZ 0 ADDRMAN_NEW_BUCKET_COUNT) in
  let a := with_new (a.(nNew) - 1) vv (set_info nId (set_refs refs i) a) in
  if negb (refs =? 0) then None
  else
    let nKBucket := GetTriedBucket a.(nKey) i in
    let nKBucketPos := GetBucketPosition a.(nKey) i false nKBucket in
    a ← evict nKBucket nKBucketPos a;
    if bool_decide (a.(vvTried) !! (nKBucket, nKBucketPos) ≠ None) then None
    else
      i ← a.(mapInfo) !! nId;
      let a := with_tried (a.(nTried) + 1) (<[(nKBucket, nKBucketPos) := nId]> a.(vvTried)) a in
      Some (set_info nId (set_in_tried true i) a).

(** [std::set::insert]. *)
Fixpoint set_insert (x : Z) (l : list Z) : list Z :=
  match l with [] => [x] | y :: l' => if x <? y then x :: l else if x =? y then l else y :: set_insert x l' end.
(** The entry of a service, when its port is the same. *)
Definition Find_exact (addr : CService) (a : CAddrMan) : option (Z * CAddrInfo) :=
  '(nId, i) ← Find addr.(srv_addr) a; if Service_eq (service_of i) addr then Some (nId, i) else None.
(** Whether a search that starts at bucket [nRnd] finds the entry. *)
Definition in_new_bucket (nRnd nId : Z) (i : CAddrInfo) (a : CAddrMan) : bool :=
  existsb (λ n, let nB := (n + nRnd) mod ADDRMAN_NEW_BUCKET_COUNT in bool_decide (a.(vvNew) !! (nB, GetBucketPosition a.(nKey) i true nB) = Some nId))
    (seqZ 0 ADDRMAN_NEW_BUCKET_COUNT).
Definition Good_ (addr : CService) (test_before_evict : bool) (time nRnd : Z) (a : CAddrMan) : option CAddrMan :=
  let a := with_last_good time a in
  match Find_exact addr a with
  | None => Some a
  | Some (nId, i) =>
      let i := set_success time i in
      let a := set_info nId i a in
      if i.(fInTried) then Some a
      else if negb (in_new_bucket nRnd nId i a) then Some a
      else
        let tried_bucket := GetTriedBucket a.(nKey) i in
        let tried_bucket_pos := GetBucketPosition a.(nKey) i false tried_bucket in
        if test_before_evict && bool_decide (a.(vvTried) !! (tried_bucket, tried_bucket_pos) ≠ None) then
          if bool_decide (length a.(m_tried_collisions) < ADDRMAN_SET_TRIED_COLLISION_SIZE)%nat
          then Some (with_collisions (set_insert nId a.(m_tried_collisions)) a) else Some a
        else MakeTried nId a
  end.

(** What [Add_] does with an entry that exists: the new entry, and whether the
    rest of the function is run. *)
Definition refresh (addr : CAddress) (nTimePenalty now : Z) (RandomInt : Z → Z) (i : CAddrInfo) : CAddrInfo * bool :=
  let fCurrentlyOnline := now - addr.(nTime) <? 24 * 60 * 60 in
  let nUpdateInterval := if fCurrentlyOnline then 60 * 60 else 24 * 60 * 60 in
  let i := if negb (addr.(nTime) =? 0) && ((i.(ai_addr).(nTime) =? 0) || (i.(ai_addr).(nTime) <? addr.(nTime) - nUpdateInterval - nTimePenalty))
           then set_time (u32 (Z.max 0 (addr.(nTime) - nTimePenalty))) i else i in
  let i := set_services (Z.lor i.(ai_addr).(nServices) addr.(nServices)) i in
  if (addr.(nTime) =? 0) || (negb (i.(ai_addr).(nTime) =? 0) && (addr.(nTime) <=? i.(ai_addr).(nTime))) then (i, false)
  else if i.(fInTried) then (i, false)
  else if i.(nRefCount) =? ADDRMAN_NEW_BUCKETS_PER_ADDRESS then (i, false)
  else
    let nFactor := 2 ^ i.(nRefCount) in
    (i, negb ((1 <? nFactor) && negb (RandomInt nFactor =? 0))).
(** The rest of the function: the entry gets a place in a new bucket. *)
Definition place_new (src : CNetAddr) (now nId : Z) (a : CAddrMan) : option CAddrMan :=
  i ← a.(mapInfo) !! nId;
  let nUBucket := GetNewBucket a.(nKey) i src in
  let nUBucketPos := GetBucketPosition a.(nKey) i true nUBucket in
  let here := a.(vvNew) !! (nUBucket, nUBucketPos) in
  if bool_decide (here = Some nId) then Some a
  else
    let '(fInsert, a) := match here with
      | None => (true, a)
      | Some existing => let '(infoExisting, a) := info_at existing a in (IsTerrible now infoExisting || ((1 <? infoExisting.(nRefCount)) && (i.(nRefCount) =? 0)), a)
      end in
    if (fInsert : bool) then
      a ← ClearNew nUBucket nUBucketPos a;
      i ← a.(mapInfo) !! nId;
      let a := set_info nId (set_refs (i.(nRefCount) + 1) i) a in
      Some (with_new a.(nNew) (<[(nUBucket, nUBucketPos) := nId]> a.(vvNew)) a)
    else if i.(nRefCount) =? 0 then Delete nId a else Some a.
Definition Add_ (addr : CAddress) (src : CNetAddr) (nTimePenalty now : Z) (RandomInt : Z → Z) (a : CAddrMan) : option (bool * CAddrMan) :=
  let net := addr.(addr_service).(srv_addr) in
  if negb (IsRoutable net) then Some (false, a)
  else
    let nTimePenalty := if NetAddr_eq net src then 0 else nTimePenalty in
    match Find net a with
    | Some (nId, i) =>
        let '(i, go) := refresh addr nTimePenalty now RandomInt i in
        let a := set_info nId i a in
        if go then a ← place_new src now nId a; Some (false, a) else Some (false, a)
    | None =>
        let '(nId, a) := Create addr src a in
        i ← a.(mapInfo) !! nId;
        let a := set_info nId (set_time (u32 (Z.max 0 (i.(ai_addr).(nTime) - nTimePenalty))) i) a in
        let a := with_new (a.(nNew) + 1) a.(vvNew) a in
        a ← place_new src now nId a;
        Some (true, a)
    end.
(** [Add] of several addresses. *)
Fixpoint Add_all (vAddr : list CAddress) (src : CNetAddr) (nTimePenalty now : Z) (RandomInt : Z → Z) (a : CAddrMan) : option (Z * CAddrMan) :=
  match vAddr with
  | [] => Some (0, a)
  | addr :: vAddr =>
      '(added, a) ← Add_ addr src nTimePenalty now RandomInt a;
      '(nAdd, a) ← Add_all vAddr src nTimePenalty now RandomInt a;
      Some (Z.b2z added + nAdd, a)
  end.

Definition Attempt_ (addr : CService) (fCountFailure : bool) (time : Z) (a : CAddrMan) : CAddrMan :=
  match Find_exact addr a with
  | None => a
  | Some (nId, i) => set_info nId (set_attempt time (fCountFailure && (i.(nLastCountAttempt) <? a.(nLastGood))) i) a
  end.
Definition Connected_ (addr : CService) (time : Z) (a : CAddrMan) : CAddrMan :=
  match Find_exact addr a with
  | None => a
  | Some (nId, i) => if 20 * 60 <? time - i.(ai_addr).(nTime) then set_info nId (set_time (u32 time) i) a else a
  end.
Definition SetServices_ (addr : CService) (services : Z) (a : CAddrMan) : CAddrMan :=
  match Find_exact addr a with None => a | Some (nId, i) => set_info nId (set_services services i) a end.

(** The search for a place that is taken, with the random numbers that move on
    from an empty one. *)
Fixpoint find_place (vv : gmap (Z * Z) Z) (count : Z) (moves : list (Z * Z)) (bucket pos : Z) : option Z :=
  match vv !! (bucket, pos) with
  | Some nId => Some nId
  | None => match moves with [] => None | (x, y) :: moves => find_place vv count moves ((bucket + x) mod count) ((pos + y) mod ADDRMAN_BUCKET_SIZE) end
  end.
(** A round of the selection: where it starts, how it moves on, and whether the
    entry is taken. *)
Record draw := mkDraw { d_bucket : Z; d_pos : Z; d_moves : list (Z * Z); d_accept : CAddrInfo → bool }.
Fixpoint select_loop (vv : gmap (Z * Z) Z) (count : Z) (draws : list draw) (a : CAddrMan) : option CAddrInfo :=
  match draws with
  | [] => None
  | d :: draws =>
      nId ← find_place vv count d.(d_moves) d.(d_bucket) d.(d_pos);
      i ← a.(mapInfo) !! nId;
      if d.(d_accept) i then Some i else select_loop vv count draws a
  end.
(** [Select_]; [None] is a failed assertion or that the draws do not suffice. *)
Definition Select_ (newOnly coin : bool) (draws : list draw) (a : CAddrMan) : option CAddrInfo :=
  if man_size a =? 0 then Some default_info
  else if newOnly && (a.(nNew) =? 0) then Some default_info
  else if negb newOnly && ((0 <? a.(nTried)) && ((a.(nNew) =? 0) || coin)) then select_loop a.(vvTried) ADDRMAN_TRIED_BUCKET_COUNT draws a
  else select_loop a.(vvNew) ADDRMAN_NEW_BUCKET_COUNT draws a.

Fixpoint getaddr_loop (k n : nat) (nNodes now : Z) (RandomInt : nat → Z → Z) (a : CAddrMan) (vAddr : list CAddress) : option (list CAddress * CAddrMan) :=
  match k with
  | O => Some (vAddr, a)
  | S k =>
      if nNodes <=? Z.of_nat (length vAddr) then Some (vAddr, a)
      else
        let nRndPos := RandomInt n (Z.of_nat (length a.(vRandom) - n)) + Z.of_nat n in
        a ← SwapRandom n (Z.to_nat nRndPos) a;
        nId ← a.(vRandom) !! n;
        ai ← a.(mapInfo) !! nId;
        getaddr_loop k (S n) nNodes now RandomInt a (if IsTerrible now ai then vAddr else vAddr ++ [ai.(ai_addr)])
  end.
Definition GetAddr_ (now : Z) (RandomInt : nat → Z → Z) (a : CAddrMan) : option (list CAddress * CAddrMan) :=
  let nNodes := Z.min (ADDRMAN_GETADDR_MAX_PCT * Z.of_nat (length a.(vRandom)) / 100) ADDRMAN_GETADDR_MAX in
  getaddr_loop (length a.(vRandom)) 0 nNodes now RandomInt a [].

(** One element of [ResolveCollisions_]: whether it is erased. *)
Definition resolve_one (now nRnd id_new : Z) (a : CAddrMan) : option (bool * CAddrMan) :=
  match a.(mapInfo) !! id_new with
  | None => Some (true, a)
  | Some info_new =>
      let tried_bucket := GetTriedBucket a.(nKey) info_new in
      let tried_bucket_pos := GetBucketPosition a.(nKey) info_new false tried_bucket in
      if negb (IsValid (net_of info_new)) then Some (true, a)
      else
        match a.(vvTried) !! (tried_bucket, tried_bucket_pos) with
        | Some id_old =>
            let '(info_old, a) := info_at id_old a in
            if now - info_old.(nLastSuccess) <? ADDRMAN_REPLACEMENT_HOURS * (60 * 60) then Some (true, a)
            else if now - info_old.(nLastTry) <? ADDRMAN_REPLACEMENT_HOURS * (60 * 60) then
              if 60 <? now - info_old.(nLastTry) then a ← Good_ (service_of info_new) false now nRnd a; Some (true, a)
              else Some (false, a)
            else Some (false, a)
        | None => a ← Good_ (service_of info_new) false now nRnd a; Some (true, a)
        end
  end.
Fixpoint resolve_loop (now : Z) (RandomInt : Z → Z) (ids : list Z) (a : CAddrMan) : option (list Z * CAddrMan) :=
  match ids with
  | [] => Some ([], a)
  | id :: ids =>
      '(erase, a) ← resolve_one now (RandomInt id) id a;
      '(kept, a) ← resolve_loop now RandomInt ids a;
      Some (if (erase : bool) then kept else id :: kept, a)
  end.
Definition ResolveCollisions_ (now : Z) (RandomInt : Z → Z) (a : CAddrMan) : option CAddrMan :=
  '(kept, a) ← resolve_loop now RandomInt a.(m_tried_collisions) a; Some (with_collisions kept a).
Definition SelectTriedCollision_ (rnd : nat) (a : CAddrMan) : option (CAddrInfo * CAddrMan) :=
  if bool_decide (a.(m_tried_collisions) = []) then Some (default_info, a)
  else
    id_new ← a.(m_tried_collisions) !! rnd;
    match a.(mapInfo) !! id_new with
    | None => Some (default_info, with_collisions (filter (λ x, x ≠ id_new) a.(m_tried_collisions)) a)
    | Some newInfo =>
        let tried_bucket := GetTriedBucket a.(nKey) newInfo in
        let tried_bucket_pos := GetBucketPosition a.(nKey) newInfo false tried_bucket in
        Some (info_at (default (-1) (a.(vvTried) !! (tried_bucket, tried_bucket_pos))) a)
    end.
End operations.

(** ** Counting places *)

Definition count_new (v : gmap (Z * Z) Z) (nId : Z) : Z := Z.of_nat (base.size (filter (λ kv : Z * Z * Z, kv.2 = nId) v)).

Lemma count_insert v k nId j : v !! k = None → count_new (<[k := nId]> v) j = count_new v j + if decide (j = nId) then 1 else 0.
Proof.
  intros Hk. unfold count_new. destruct (decide (j = nId)) as [->|Hj].
  - rewrite map_filter_insert_True by done. rewrite map_size_insert_None; [lia|]. apply map_lookup_filter_None. by left.
  - rewrite map_filter_insert_False by (cbn; congruence). rewrite delete_id by done. lia.
Qed.
Lemma count_delete v k nId j : v !! k = Some nId → count_new (delete k v) j = count_new v j - if decide (j = nId) then 1 else 0.
Proof.
  intros Hk. rewrite <- (insert_delete_id v k nId Hk) at 2. rewrite count_insert by apply lookup_delete_eq. lia.
Qed.
Lemma count_nonneg v nId : 0 <= count_new v nId.
Proof. unfold count_new. lia. Qed.
Lemma count_taken v k nId : v !! k = Some nId → 0 < count_new v nId.
Proof. intros Hk. pose proof (count_delete v k nId nId Hk) as E. rewrite decide_True in E by done. pose proof (count_nonneg (delete k v) nId). lia. Qed.
Lemma count_none v nId : (∀ k, v !! k ≠ Some nId) → count_new v nId = 0.
Proof.
  intros Hk. unfold count_new. assert (filter (λ kv : Z * Z * Z, kv.2 = nId) v = ∅) as ->; [|done]. apply map_empty_filter. intros k x Hx E. cbn in E. subst. by apply (Hk k).
Qed.

(** ** The invariant *)

Section invariant.
Context `{ScriptCrypto}.

(** The place of an entry in the tried table. *)
Definition tried_place (key : base_uint) (i : CAddrInfo) : Z * Z := let b := GetTriedBucket key i in (b, GetBucketPosition key i false b).

(** The invariant of the manager, up to the entries of [X], which may have no
    place, and to [d] entries that are counted neither as new nor as tried. *)
Record man_inv (X : gset Z) (d : Z) (a : CAddrMan) : Prop := {
  mi_ids nId i : a.(mapInfo) !! nId = Some i → 0 <= nId < a.(nIdCount);
  mi_count : Z.of_nat (length a.(vRandom)) <= a.(nIdCount) < 2 ^ 31;
  mi_pos nId i : a.(mapInfo) !! nId = Some i → 0 <= i.(nRandomPos) ∧ a.(vRandom) !! Z.to_nat i.(nRandomPos) = Some nId;
  mi_random n nId : a.(vRandom) !! n = Some nId → ∃ i, a.(mapInfo) !! nId = Some i ∧ i.(nRandomPos) = Z.of_nat n;
  mi_addr nId i : a.(mapInfo) !! nId = Some i → a.(mapAddr) !! (net_of i).(ip) = Some nId;
  mi_known k nId : a.(mapAddr) !! k = Some nId → ∃ i, a.(mapInfo) !! nId = Some i ∧ (net_of i).(ip) = k;
  mi_new b p nId : a.(vvNew) !! (b, p) = Some nId → 0 <= b < ADDRMAN_NEW_BUCKET_COUNT ∧
    ∃ i, a.(mapInfo) !! nId = Some i ∧ i.(fInTried) = false ∧ p = GetBucketPosition a.(nKey) i true b;
  mi_tried k nId : a.(vvTried) !! k = Some nId → ∃ i, a.(mapInfo) !! nId = Some i ∧ i.(fInTried) = true ∧ k = tried_place a.(nKey) i;
  mi_placed nId i : a.(mapInfo) !! nId = Some i → i.(fInTried) = true → a.(vvTried) !! tried_place a.(nKey) i = Some nId;
  mi_refs nId i : a.(mapInfo) !! nId = Some i → i.(nRefCount) = count_new a.(vvNew) nId ∧ i.(nRefCount) <= ADDRMAN_NEW_BUCKETS_PER_ADDRESS;
  mi_listed nId i : a.(mapInfo) !! nId = Some i → i.(fInTried) = false → nId ∉ X → 0 < i.(nRefCount);
  mi_nTried : a.(nTried) = Z.of_nat (base.size a.(vvTried));
  mi_total : a.(nTried) + a.(nNew) + d = Z.of_nat (length a.(vRandom));
}.

Lemma new_man_inv key : man_inv ∅ 0 (new_man key).
Proof.
  split; cbn; try (intros *; rewrite ?lookup_empty, ?lookup_nil; done); try done. Unshelve.
Qed.

(** Entries that differ in what the invariant does not look at. *)
Definition same_place (i i' : CAddrInfo) : Prop := service_of i' = service_of i ∧ i'.(source) = i.(source).
Lemma same_place_buckets key i i' : same_place i i' → tried_place key i' = tried_place key i ∧ (∀ b, GetBucketPosition key i' true b = GetBucketPosition key i true b) ∧
  net_of i' = net_of i.
Proof. intros [E _]. unfold tried_place, GetTriedBucket, GetBucketPosition, net_of. by rewrite E. Qed.

(** An update of the statistics of an entry. *)
Lemma inv_update X d a nId i i' : man_inv X d a → a.(mapInfo) !! nId = Some i → same_place i i' → i'.(nRefCount) = i.(nRefCount) →
  i'.(fInTried) = i.(fInTried) → i'.(nRandomPos) = i.(nRandomPos) → man_inv X d (set_info nId i' a).
Proof.
  intros Ha Hi Hs Er Ef Ep. destruct (same_place_buckets a.(nKey) i i' Hs) as (Et & Eb & En).
  assert (∀ j x, <[nId := i']> (mapInfo a) !! j = Some x → ∃ y, mapInfo a !! j = Some y ∧ same_place y x ∧ nRefCount x = nRefCount y ∧ fInTried x = fInTried y ∧ nRandomPos x = nRandomPos y) as Hback.
  { intros j x. destruct (decide (j = nId)) as [->|]; [rewrite lookup_insert_eq; intros [= <-]; by exists i|]. rewrite lookup_insert_ne by done. intros Hx. exists x. by split_and!. }
  assert (∀ j y, mapInfo a !! j = Some y → ∃ x, <[nId := i']> (mapInfo a) !! j = Some x ∧ same_place y x ∧ nRefCount x = nRefCount y ∧ fInTried x = fInTried y ∧ nRandomPos x = nRandomPos y) as Hfwd.
  { intros j y Hy. destruct (decide (j = nId)) as [->|]; [rewrite Hi in Hy; injection Hy as <-; exists i'; by rewrite lookup_insert_eq|]. exists y. rewrite lookup_insert_ne by done. by split_and!. }
  destruct Ha. split; cbn [set_info with_info mapInfo mapAddr vRandom nIdCount vvNew vvTried nTried nNew nKey].
  - intros j x (y & Hy & _)%Hback. eauto.
  - done.
  - intros j x (y & Hy & _ & _ & _ & ->)%Hback. eauto.
  - intros n j (y & Hy & <-)%mi_random0. destruct (Hfwd j y Hy) as (x & Hx & _ & _ & _ & Epx). by exists x.
  - intros j x (y & Hy & Hsx & _)%Hback. destruct (same_place_buckets (nKey a) y x Hsx) as (_ & _ & ->). eauto.
  - intros k j (y & Hy & <-)%mi_known0. destruct (Hfwd j y Hy) as (x & Hx & Hsx & _). exists x. split; [done|]. by destruct (same_place_buckets (nKey a) y x Hsx) as (_ & _ & ->).
  - intros b p j (Hb & y & Hy & Hf & ->)%mi_new0. destruct (Hfwd j y Hy) as (x & Hx & Hsx & _ & Hfx & _). split; [done|]. exists x. split_and!; [done|congruence|].
    destruct (same_place_buckets (nKey a) y x Hsx) as (_ & E & _). by rewrite E.
  - intros k j (y & Hy & Hf & ->)%mi_tried0. destruct (Hfwd j y Hy) as (x & Hx & Hsx & _ & Hfx & _). exists x. split_and!; [done|congruence|].
    by destruct (same_place_buckets (nKey a) y x Hsx) as (-> & _).
  - intros j x (y & Hy & Hsx & _ & Hfx & _)%Hback Hf. destruct (same_place_buckets (nKey a) y x Hsx) as (-> & _). apply mi_placed0; congruence.
  - intros j x (y & Hy & _ & -> & _)%Hback. eauto.
  - intros j x (y & Hy & _ & -> & -> & _)%Hback. eauto.
  - done.
  - done.
Qed.

(** What an operation keeps: the entries with [P], but for their position in
    [vRandom], the tried table and the rest. *)
Definition keeps (P : Z → Prop) (a a' : CAddrMan) : Prop :=
  (∀ j x, P j → a.(mapInfo) !! j = Some x → ∃ q, a'.(mapInfo) !! j = Some (set_pos q x)) ∧
  a'.(vvTried) = a.(vvTried) ∧ a'.(nTried) = a.(nTried) ∧ a'.(nIdCount) = a.(nIdCount) ∧ a'.(nKey) = a.(nKey) ∧
  a'.(m_tried_collisions) = a.(m_tried_collisions) ∧ a'.(nLastGood) = a.(nLastGood).
(** The entries of [a'] that are not new were in [a], with the same address. *)
Definition entries_from (a a' : CAddrMan) : Prop :=
  a'.(nKey) = a.(nKey) ∧ a.(nIdCount) <= a'.(nIdCount) ∧ ∀ j y, j < a.(nIdCount) → a'.(mapInfo) !! j = Some y → ∃ x, a.(mapInfo) !! j = Some x ∧ same_place x y.
#[local] Instance entries_from_preorder : PreOrder entries_from.
Proof.
  split; [intros a; split_and!; [done|done|]; intros j y _ Hy; by exists y|]. intros a b c (K1 & C1 & H1) (K2 & C2 & H2). split_and!; [congruence|lia|].
  intros j y Hj Hy. destruct (H2 j y ltac:(lia) Hy) as (x & Hx & S1 & S2). destruct (H1 j x Hj Hx) as (z & Hz & S3 & S4). exists z. split; [done|]. split; congruence.
Qed.
Lemma entries_from_set a nId i i' : a.(mapInfo) !! nId = Some i → same_place i i' → entries_from a (set_info nId i' a).
Proof.
  intros Hi Hs. split_and!; [done|done|]. intros j y _. cbn. destruct (decide (j = nId)) as [->|]; [rewrite lookup_insert_eq; intros [= <-]; by exists i|].
  rewrite lookup_insert_ne by done. intros Hy. by exists y.
Qed.
Lemma set_pos_same i : set_pos i.(nRandomPos) i = i.
Proof. by destruct i. Qed.
Lemma same_place_pos q i : same_place i (set_pos q i).
Proof. done. Qed.

Lemma inv_weaken X d a nId : man_inv ({[nId]} ∪ X) d a → (∀ i, a.(mapInfo) !! nId = Some i → i.(fInTried) = false → 0 < i.(nRefCount)) → man_inv X d a.
Proof.
  intros [] Hi. split; try done. intros j x Hx Hf Hj. destruct (decide (j = nId)) as [->|]; [by apply Hi|]. apply (mi_listed0 j x); [done..|]. set_solver.
Qed.
Lemma tried_no_cells X d a nId i k : man_inv X d a → a.(mapInfo) !! nId = Some i → i.(fInTried) = true → a.(vvNew) !! k ≠ Some nId.
Proof. intros Ha Hi Hf Hk. destruct k as [b p]. destruct (mi_new _ _ _ Ha b p nId Hk) as (_ & x & Hx & Hfx & _). congruence. Qed.

(** Swapping two positions of [vRandom]. *)
Lemma SwapRandom_spec X d a p1 p2 : man_inv X d a → (p1 < length a.(vRandom))%nat → (p2 < length a.(vRandom))%nat →
  ∃ a', SwapRandom p1 p2 a = Some a' ∧ man_inv X d a' ∧ keeps (λ _, True) a a' ∧ a'.(mapAddr) = a.(mapAddr) ∧ a'.(nNew) = a.(nNew) ∧ a'.(vvNew) = a.(vvNew) ∧
    length a'.(vRandom) = length a.(vRandom) ∧ a'.(vRandom) !! p2 = a.(vRandom) !! p1 ∧ entries_from a a'.
Proof.
  intros Ha H1 H2. unfold SwapRandom. case_bool_decide as Hp.
  { subst. exists a. split_and!; try done. split_and!; try done. intros j x _ Hx. exists (nRandomPos x). by rewrite set_pos_same. }
  destruct (lookup_lt_is_Some_2 _ _ H1) as [id1 E1], (lookup_lt_is_Some_2 _ _ H2) as [id2 E2]. rewrite E1, E2. cbn [mbind option_bind].
  destruct (mi_random _ _ _ Ha _ _ E1) as (i1 & I1 & P1), (mi_random _ _ _ Ha _ _ E2) as (i2 & I2 & P2). assert (id1 ≠ id2) as Hne by (intros ->; assert (i1 = i2) by congruence; subst; lia).
  rewrite I1, I2. cbn [mbind option_bind set_info with_info mapInfo]. rewrite lookup_insert_ne, I2 by done. cbn [mbind option_bind]. eexists. split; [done|].
  cbn [with_random mapInfo mapAddr vRandom nIdCount vvNew vvTried nTried nNew nKey m_tried_collisions nLastGood with_info set_info].
  set (m := <[id2 := set_pos (Z.of_nat p1) i2]> (<[id1 := set_pos (Z.of_nat p2) i1]> (mapInfo a))). set (v := <[p2 := id1]> (<[p1 := id2]> (vRandom a))).
  assert (m !! id1 = Some (set_pos (Z.of_nat p2) i1)) as M1 by (unfold m; rewrite lookup_insert_ne, lookup_insert_eq by done; done).
  assert (m !! id2 = Some (set_pos (Z.of_nat p1) i2)) as M2 by (unfold m; by rewrite lookup_insert_eq).
  assert (∀ j, j ≠ id1 → j ≠ id2 → m !! j = mapInfo a !! j) as Mo by (intros; unfold m; by rewrite !lookup_insert_ne).
  assert (∀ j x, mapInfo a !! j = Some x → ∃ q, m !! j = Some (set_pos q x)) as Hfwd.
  { intros j x Hx. destruct (decide (j = id1)) as [->|]; [rewrite I1 in Hx; injection Hx as <-; by eexists|]. destruct (decide (j = id2)) as [->|]; [rewrite I2 in Hx; injection Hx as <-; by eexists|].
    exists (nRandomPos x). by rewrite Mo, set_pos_same. }
  assert (∀ j y, m !! j = Some y → ∃ x q, mapInfo a !! j = Some x ∧ y = set_pos q x) as Hback.
  { intros j y Hy. destruct (mapInfo a !! j) as [x|] eqn:Ex; [|rewrite Mo in Hy by congruence; congruence]. destruct (Hfwd j x Ex) as [q Hq]. exists x, q. split; [done|congruence]. }
  assert (v !! p1 = Some id2 ∧ v !! p2 = Some id1 ∧ (∀ k, k ≠ p1 → k ≠ p2 → v !! k = vRandom a !! k) ∧ length v = length (vRandom a)) as (V1 & V2 & Vo & Vl).
  { unfold v. split_and!; [rewrite list_lookup_insert_ne by done; by rewrite list_lookup_insert_eq|rewrite list_lookup_insert_eq; [done|by rewrite length_insert]| |by rewrite !length_insert].
    intros k K1 K2. by rewrite !list_lookup_insert_ne. }
  split_and!; [| |done|done|done|done|congruence|split_and!; [done|done|]; intros j y _ (x & q & ? & ->)%Hback; by exists x]; [|by split_and!; try done; intros j x _; apply Hfwd].
  destruct Ha. split; cbn [with_random mapInfo mapAddr vRandom nIdCount vvNew vvTried nTried nNew nKey with_info set_info]; fold m; fold v.
  - intros j y (x & q & Hx & _)%Hback. eauto.
  - by rewrite Vl.
  - intros j y Hy. destruct (decide (j = id1)) as [->|]; [rewrite M1 in Hy; injection Hy as <-; cbn; rewrite Nat2Z.id; split; [lia|done]|].
    destruct (decide (j = id2)) as [->|]; [rewrite M2 in Hy; injection Hy as <-; cbn; rewrite Nat2Z.id; split; [lia|done]|]. rewrite Mo in Hy by done.
    destruct (mi_pos0 j y Hy) as [Hp0 Hpv]. split; [done|]. rewrite Vo; [done|intros E; rewrite E in Hpv; congruence..].
  - intros k j Hk. destruct (decide (k = p1)) as [->|]; [rewrite V1 in Hk; injection Hk as <-; by eexists|]. destruct (decide (k = p2)) as [->|]; [rewrite V2 in Hk; injection Hk as <-; by eexists|].
    rewrite Vo in Hk by done. destruct (mi_random0 k j Hk) as (x & Hx & Hxp). exists x. split; [|done]. rewrite Mo; [done|intros ->; assert (x = i1) by congruence; subst x; lia|intros ->; assert (x = i2) by congruence; subst x; lia].
  - intros j y (x & q & Hx & ->)%Hback. exact (mi_addr0 j x Hx).
  - intros k j (x & Hx & <-)%mi_known0. destruct (Hfwd j x Hx) as [q Hq]. by exists (set_pos q x).
  - intros b p j (Hb & x & Hx & Hf & ->)%mi_new0. split; [done|]. destruct (Hfwd j x Hx) as [q Hq]. by exists (set_pos q x).
  - intros k j (x & Hx & Hf & ->)%mi_tried0. destruct (Hfwd j x Hx) as [q Hq]. by exists (set_pos q x).
  - intros j y (x & q & Hx & ->)%Hback Hf. by apply (mi_placed0 j x).
  - intros j y (x & q & Hx & ->)%Hback. by apply (mi_refs0 j x).
  - intros j y (x & q & Hx & ->)%Hback. by apply (mi_listed0 j x).
  - done.
  - by rewrite Vl.
Qed.

Lemma Delete_spec X d a nId i : man_inv ({[nId]} ∪ X) d a → a.(mapInfo) !! nId = Some i → i.(fInTried) = false → i.(nRefCount) = 0 →
  ∃ a', Delete nId a = Some a' ∧ man_inv X d a' ∧ keeps (λ j, j ≠ nId) a a' ∧ a'.(vvNew) = a.(vvNew) ∧ entries_from a a'.
Proof.
  intros Ha Hi Hf Hr. unfold Delete. rewrite Hi. cbn [mbind option_bind]. rewrite Hf, Hr. cbn [Z.eqb negb]. destruct (mi_pos _ _ _ Ha nId i Hi) as [Hp Hv]. pose proof (lookup_lt_Some _ _ _ Hv) as Hlt.
  pose proof (mi_count _ _ _ Ha) as Hc. rewrite u32_id by mlia. destruct (SwapRandom_spec _ _ a (Z.to_nat (nRandomPos i)) (length (vRandom a) - 1) Ha ltac:(lia) ltac:(lia)) as (a1 & -> & Ha1 & (Hk & K1 & K2 & K3 & K4 & K5 & K6) & Eaddr & Enew & Evv & El & Elast & Hfrom).
  cbn [mbind option_bind]. destruct (Hk nId i I Hi) as [q Hi1]. rewrite Hv, <- El in Elast. set (l := (length (vRandom a1) - 1)%nat) in *.
  assert (count_new (vvNew a1) nId = 0) as Hc0 by (destruct (mi_refs _ _ _ Ha1 nId _ Hi1) as [E _]; cbn in E; lia).
  assert (∀ k, vvNew a1 !! k ≠ Some nId) as Hno by (intros k E; pose proof (count_taken _ _ _ E); lia).
  eexists. split; [done|]. cbn [with_new with_info with_addr with_random mapInfo mapAddr vRandom nIdCount vvNew vvTried nTried nNew nKey m_tried_collisions nLastGood].
  assert (∀ j y, delete nId (mapInfo a1) !! j = Some y → j ≠ nId ∧ mapInfo a1 !! j = Some y) as Hd by (intros j y (? & ?)%lookup_delete_Some; auto).
  split_and!; [| |done|].
  3: { destruct Hfrom as (F1 & F2 & F3). split_and!; [done|done|]. intros j y Hj [_ Hy]%Hd. by apply F3. }
  - destruct Ha1. split; cbn [with_new with_info with_addr with_random mapInfo mapAddr vRandom nIdCount vvNew vvTried nTried nNew nKey].
    + intros j y [_ Hy]%Hd. eauto.
    + rewrite length_take. lia.
    + intros j y [Hj Hy]%Hd. destruct (mi_pos0 j y Hy) as [Hp0 Hpv]. split; [done|]. pose proof (lookup_lt_Some _ _ _ Hpv). rewrite lookup_take_lt; [done|].
      assert (Z.to_nat (nRandomPos y) ≠ l); [|lia]. intros E. rewrite E, Elast in Hpv. congruence.
    + intros n j Hn. apply lookup_take_Some in Hn as [Hn Hlt']. destruct (mi_random0 n j Hn) as (y & Hy & Hyp). exists y. split; [|done]. rewrite lookup_delete_ne; [done|].
      intros <-. destruct (mi_random0 l nId Elast) as (z & Hz & Hzp). assert (y = z) by congruence. subst. lia.
    + intros j y [Hj Hy]%Hd. rewrite lookup_delete_ne; [eauto|]. intros E. pose proof (mi_addr0 j y Hy) as E1. rewrite <- E in E1. pose proof (mi_addr0 nId _ Hi1) as E2.
      change (net_of (set_pos q i)) with (net_of i) in E2. congruence.
    + intros k j [Hkne Hkj]%lookup_delete_Some. destruct (mi_known0 k j Hkj) as (y & Hy & <-). exists y. split; [|done]. rewrite lookup_delete_ne; [done|]. intros <-.
      rewrite Hi1 in Hy. injection Hy as <-. by apply Hkne.
    + intros b p j Hb. destruct (mi_new0 b p j Hb) as (Hbb & y & Hy & Hfy & ->). split; [done|]. exists y. split; [|done]. rewrite lookup_delete_ne; [done|]. intros <-. by apply (Hno (b, GetBucketPosition (nKey a1) y true b)).
    + intros k j Hkj. destruct (mi_tried0 k j Hkj) as (y & Hy & Hfy & ->). exists y. split; [|done]. rewrite lookup_delete_ne; [done|]. intros <-. rewrite Hi1 in Hy. injection Hy as <-. cbn in Hfy. congruence.
    + intros j y [_ Hy]%Hd. eauto.
    + intros j y [_ Hy]%Hd. eauto.
    + intros j y [Hj Hy]%Hd Hfy Hx. apply (mi_listed0 j y); [done|done|]. set_solver.
    + done.
    + rewrite length_take. lia.
  - split_and!; try done. intros j x Hj Hx. destruct (Hk j x I Hx) as [q' Hq']. exists q'. cbn [mapInfo with_new with_info with_addr with_random]. by rewrite lookup_delete_ne.
Qed.

(** ** The tables *)

(** A change of the new table that concerns one entry. *)
Lemma inv_new_table X X' d d' a v n r nId i : man_inv X d a → a.(mapInfo) !! nId = Some i → i.(fInTried) = false →
  (∀ b p j, v !! (b, p) = Some j → a.(vvNew) !! (b, p) = Some j ∨ (j = nId ∧ 0 <= b < ADDRMAN_NEW_BUCKET_COUNT ∧ p = GetBucketPosition a.(nKey) i true b)) →
  (∀ j, j ≠ nId → count_new v j = count_new a.(vvNew) j) → r = count_new v nId → r <= ADDRMAN_NEW_BUCKETS_PER_ADDRESS →
  (∀ j, j ∉ X' → j ∉ X ∧ j ≠ nId ∨ j = nId ∧ 0 < r) → a.(nTried) + n + d' = Z.of_nat (length a.(vRandom)) →
  man_inv X' d' (with_new n v (set_info nId (set_refs r i) a)).
Proof.
  intros Ha Hi Hf Hv Hc Hr H8 HX Ht. set (m := <[nId := set_refs r i]> (mapInfo a)).
  assert (∀ j y, m !! j = Some y → ∃ x, mapInfo a !! j = Some x ∧ same_place x y ∧ fInTried y = fInTried x ∧ nRandomPos y = nRandomPos x ∧ nRefCount y = if decide (j = nId) then r else nRefCount x) as Hback.
  { intros j y. unfold m. destruct (decide (j = nId)) as [->|]; [rewrite lookup_insert_eq; intros [= <-]; by exists i|]. rewrite lookup_insert_ne by done. intros Hy. by exists y. }
  assert (∀ j x, mapInfo a !! j = Some x → ∃ y, m !! j = Some y ∧ same_place x y ∧ fInTried y = fInTried x ∧ nRandomPos y = nRandomPos x) as Hfwd.
  { intros j x Hx. unfold m. destruct (decide (j = nId)) as [->|]; [rewrite Hi in Hx; injection Hx as <-; exists (set_refs r i); by rewrite lookup_insert_eq|].
    exists x. by rewrite lookup_insert_ne. }
  destruct Ha. split; cbn [with_new set_info with_info mapInfo mapAddr vRandom nIdCount vvNew vvTried nTried nNew nKey]; fold m.
  - intros j y (x & Hx & _)%Hback. eauto.
  - done.
  - intros j y (x & Hx & _ & _ & -> & _)%Hback. eauto.
  - intros k j (x & Hx & Hp)%mi_random0. destruct (Hfwd j x Hx) as (y & Hy & _ & _ & Ep). exists y. split; [done|congruence].
  - intros j y (x & Hx & Hs & _)%Hback. destruct (same_place_buckets (nKey a) x y Hs) as (_ & _ & ->). eauto.
  - intros k j (x & Hx & <-)%mi_known0. destruct (Hfwd j x Hx) as (y & Hy & Hs & _). exists y. split; [done|]. by destruct (same_place_buckets (nKey a) x y Hs) as (_ & _ & ->).
  - intros b p j [Hj|(-> & Hb & ->)]%Hv.
    + destruct (mi_new0 b p j Hj) as (Hb & x & Hx & Hfx & ->). split; [done|]. destruct (Hfwd j x Hx) as (y & Hy & Hs & Hfy & _). exists y. split_and!; [done|congruence|].
      destruct (same_place_buckets (nKey a) x y Hs) as (_ & E & _). by rewrite E.
    + split; [done|]. exists (set_refs r i). unfold m. by rewrite lookup_insert_eq.
  - intros k j (x & Hx & Hfx & ->)%mi_tried0. destruct (Hfwd j x Hx) as (y & Hy & Hs & Hfy & _). exists y. split_and!; [done|congruence|].
    by destruct (same_place_buckets (nKey a) x y Hs) as (-> & _).
  - intros j y (x & Hx & Hs & Hfy & _)%Hback Hy. destruct (same_place_buckets (nKey a) x y Hs) as (-> & _). apply mi_placed0; congruence.
  - intros j y (x & Hx & _ & _ & _ & ->)%Hback. destruct (decide (j = nId)) as [->|Hj]; [done|]. rewrite Hc by done. eauto.
  - intros j y (x & Hx & _ & -> & _ & ->)%Hback Hfx HjX. destruct (HX j HjX) as [[Hjx Hj]|[-> Hpos]]; [rewrite decide_False by done; eauto|by rewrite decide_True].
  - done.
  - done.
Qed.

Lemma ClearNew_spec X d a b p : man_inv X d a →
  ∃ a', ClearNew b p a = Some a' ∧ man_inv X d a' ∧ a'.(vvNew) = delete (b, p) a.(vvNew) ∧ keeps (λ j, a.(vvNew) !! (b, p) ≠ Some j) a a' ∧ entries_from a a'.
Proof.
  intros Ha. unfold ClearNew. destruct (vvNew a !! (b, p)) as [nId|] eqn:Ek.
  2: { exists a. split_and!; try done; [by rewrite delete_id| ]. split_and!; try done. intros j x _ Hx. exists (nRandomPos x). by rewrite set_pos_same. }
  destruct (mi_new _ _ _ Ha b p nId Ek) as (_ & i & Hi & Hf & _). destruct (mi_refs _ _ _ Ha nId i Hi) as [Hr H8]. pose proof (count_taken _ _ _ Ek) as Hpos.
  unfold info_at. rewrite Hi. rewrite (proj2 (Z.ltb_lt _ _)) by lia. cbn [negb]. set (a1 := with_new _ _ _).
  assert (man_inv ({[nId]} ∪ X) d a1) as Ha1.
  { apply (inv_new_table X _ d d a (delete (b, p) (vvNew a)) (nNew a) (nRefCount i - 1) nId i); [done|done|done| | | |lia| |apply Ha].
    - intros b' p' j [_ Hj]%lookup_delete_Some. by left.
    - intros j Hj. rewrite (count_delete _ _ nId) by done. rewrite decide_False by done. lia.
    - rewrite (count_delete _ _ nId) by done. rewrite decide_True by done. lia.
    - intros j Hj. left. set_solver. }
  assert (mapInfo a1 !! nId = Some (set_refs (nRefCount i - 1) i)) as Hi1 by apply lookup_insert_eq.
  assert (∀ j x, Some nId ≠ Some j → mapInfo a !! j = Some x → mapInfo a1 !! j = Some x) as Hk1 by (intros j x Hj Hx; cbn; rewrite lookup_insert_ne by congruence; done).
  assert (entries_from a a1) as Hf1 by (apply (entries_from_set a nId i); done).
  destruct (Z.eqb_spec (nRefCount i - 1) 0) as [E0|E0].
  - destruct (Delete_spec X d a1 nId _ Ha1 Hi1 Hf E0) as (a' & -> & Ha' & (Hk & Hrest) & Ev & Hfrom). exists a'. split_and!; [done|done|by rewrite Ev| |by etrans]. split; [|exact Hrest].
    intros j x Hj Hx. apply Hk; [congruence|]. by apply Hk1.
  - exists a1. split_and!; [done| |done| |done].
    + apply (inv_weaken X d a1 nId Ha1). intros x Hx _. rewrite Hi1 in Hx. injection Hx as <-. cbn. lia.
    + split_and!; try done. intros j x Hj Hx. exists (nRandomPos x). rewrite set_pos_same. by apply Hk1.
Qed.

(** An entry leaves the tried table. *)
Lemma inv_untry X d a k nId i : man_inv X d a → a.(vvTried) !! k = Some nId → a.(mapInfo) !! nId = Some i →
  man_inv ({[nId]} ∪ X) (d + 1) (with_tried (a.(nTried) - 1) (delete k a.(vvTried)) (set_info nId (set_in_tried false i) a)).
Proof.
  intros Ha Hk Hi. pose proof (λ c, tried_no_cells X d a nId i c Ha Hi) as Hno. set (m := <[nId := set_in_tried false i]> (mapInfo a)).
  assert (fInTried i = true ∧ k = tried_place (nKey a) i) as [Hf Ek] by (destruct (mi_tried _ _ _ Ha k nId Hk) as (x & Hx & ? & ?); split; congruence).
  assert (∀ j y, m !! j = Some y → ∃ x, mapInfo a !! j = Some x ∧ same_place x y ∧ nRandomPos y = nRandomPos x ∧ nRefCount y = nRefCount x ∧ fInTried y = if decide (j = nId) then false else fInTried x) as Hback.
  { intros j y. unfold m. destruct (decide (j = nId)) as [->|]; [rewrite lookup_insert_eq; intros [= <-]; by exists i|]. rewrite lookup_insert_ne by done. intros Hy. by exists y. }
  assert (∀ j x, mapInfo a !! j = Some x → ∃ y, m !! j = Some y ∧ same_place x y ∧ nRandomPos y = nRandomPos x ∧ (j ≠ nId → fInTried y = fInTried x)) as Hfwd.
  { intros j x Hx. unfold m. destruct (decide (j = nId)) as [->|]; [rewrite Hi in Hx; injection Hx as <-; exists (set_in_tried false i); by rewrite lookup_insert_eq|].
    exists x. by rewrite lookup_insert_ne. }
  assert (base.size (delete k (vvTried a)) = pred (base.size (vvTried a))) as Hsz by (apply map_size_delete_Some; by eexists).
  assert (0 < base.size (vvTried a))%nat as Hsz0 by (destruct (decide (base.size (vvTried a) = O)) as [E|]; [apply map_size_empty_iff in E; rewrite E, lookup_empty in Hk; done|lia]).
  destruct Ha. split; cbn [with_tried set_info with_info mapInfo mapAddr vRandom nIdCount vvNew vvTried nTried nNew nKey]; fold m.
  - intros j y (x & Hx & _)%Hback. eauto.
  - done.
  - intros j y (x & Hx & _ & -> & _)%Hback. eauto.
  - intros n j (x & Hx & Hp)%mi_random0. destruct (Hfwd j x Hx) as (y & Hy & _ & Ep & _). exists y. split; [done|congruence].
  - intros j y (x & Hx & Hs & _)%Hback. destruct (same_place_buckets (nKey a) x y Hs) as (_ & _ & ->). eauto.
  - intros c j (x & Hx & <-)%mi_known0. destruct (Hfwd j x Hx) as (y & Hy & Hs & _). exists y. split; [done|]. by destruct (same_place_buckets (nKey a) x y Hs) as (_ & _ & ->).
  - intros b p j Hb. destruct (mi_new0 b p j Hb) as (Hbb & x & Hx & Hfx & ->). assert (j ≠ nId) as Hj by (intros ->; congruence). split; [done|].
    destruct (Hfwd j x Hx) as (y & Hy & Hs & _ & Hfy). exists y. split_and!; [done|rewrite Hfy; done|]. destruct (same_place_buckets (nKey a) x y Hs) as (_ & E & _). by rewrite E.
  - intros c j [Hc Hcj]%lookup_delete_Some. destruct (mi_tried0 c j Hcj) as (x & Hx & Hfx & ->). assert (j ≠ nId) as Hj by (intros ->; apply Hc; congruence).
    destruct (Hfwd j x Hx) as (y & Hy & Hs & _ & Hfy). exists y. split_and!; [done|rewrite Hfy; done|]. by destruct (same_place_buckets (nKey a) x y Hs) as (-> & _).
  - intros j y (x & Hx & Hs & _ & _ & Hfy)%Hback Hy. destruct (same_place_buckets (nKey a) x y Hs) as (-> & _). destruct (decide (j = nId)) as [->|Hj]; [congruence|].
    assert (vvTried a !! tried_place (nKey a) x = Some j) as Hpl by (apply mi_placed0; congruence). rewrite lookup_delete_ne; [done|]. intros E. rewrite <- E in Hpl. congruence.
  - intros j y (x & Hx & _ & _ & -> & _)%Hback. eauto.
  - intros j y (x & Hx & _ & _ & -> & Hfy)%Hback Hy HjX. destruct (decide (j = nId)) as [->|]; [set_solver|]. apply (mi_listed0 j x); [done|congruence|set_solver].
  - rewrite Hsz. lia.
  - lia.
Qed.
(** An entry enters the tried table. *)
Lemma inv_try X d a nId i : man_inv ({[nId]} ∪ X) (d + 1) a → a.(mapInfo) !! nId = Some i → i.(fInTried) = false → i.(nRefCount) = 0 →
  a.(vvTried) !! tried_place a.(nKey) i = None →
  man_inv X d (set_info nId (set_in_tried true i) (with_tried (a.(nTried) + 1) (<[tried_place a.(nKey) i := nId]> a.(vvTried)) a)).
Proof.
  intros Ha Hi Hf Hr Hfree. assert (∀ c, vvNew a !! c ≠ Some nId) as Hno by (intros c E; pose proof (count_taken _ _ _ E); destruct (mi_refs _ _ _ Ha nId i Hi); lia).
  set (m := <[nId := set_in_tried true i]> (mapInfo a)).
  assert (∀ j y, m !! j = Some y → ∃ x, mapInfo a !! j = Some x ∧ same_place x y ∧ nRandomPos y = nRandomPos x ∧ nRefCount y = nRefCount x ∧ fInTried y = if decide (j = nId) then true else fInTried x) as Hback.
  { intros j y. unfold m. destruct (decide (j = nId)) as [->|]; [rewrite lookup_insert_eq; intros [= <-]; by exists i|]. rewrite lookup_insert_ne by done. intros Hy. by exists y. }
  assert (∀ j x, mapInfo a !! j = Some x → ∃ y, m !! j = Some y ∧ same_place x y ∧ nRandomPos y = nRandomPos x ∧ (j ≠ nId → fInTried y = fInTried x)) as Hfwd.
  { intros j x Hx. unfold m. destruct (decide (j = nId)) as [->|]; [rewrite Hi in Hx; injection Hx as <-; exists (set_in_tried true i); by rewrite lookup_insert_eq|].
    exists x. by rewrite lookup_insert_ne. }
  destruct Ha. split; cbn [with_tried set_info with_info mapInfo mapAddr vRandom nIdCount vvNew vvTried nTried nNew nKey]; fold m.
  - intros j y (x & Hx & _)%Hback. eauto.
  - done.
  - intros j y (x & Hx & _ & -> & _)%Hback. eauto.
  - intros n j (x & Hx & Hp)%mi_random0. destruct (Hfwd j x Hx) as (y & Hy & _ & Ep & _). exists y. split; [done|congruence].
  - intros j y (x & Hx & Hs & _)%Hback. destruct (same_place_buckets (nKey a) x y Hs) as (_ & _ & ->). eauto.
  - intros c j (x & Hx & <-)%mi_known0. destruct (Hfwd j x Hx) as (y & Hy & Hs & _). exists y. split; [done|]. by destruct (same_place_buckets (nKey a) x y Hs) as (_ & _ & ->).
  - intros b p j Hb. destruct (mi_new0 b p j Hb) as (Hbb & x & Hx & Hfx & ->). assert (j ≠ nId) as Hj by (intros ->; by apply (Hno (b, GetBucketPosition (nKey a) x true b))). split; [done|].
    destruct (Hfwd j x Hx) as (y & Hy & Hs & _ & Hfy). exists y. split_and!; [done|rewrite Hfy; done|]. destruct (same_place_buckets (nKey a) x y Hs) as (_ & E & _). by rewrite E.
  - intros c j [[<- <-]|[Hc Hcj]]%lookup_insert_Some; [exists (set_in_tried true i); unfold m; by rewrite lookup_insert_eq|].
    destruct (mi_tried0 c j Hcj) as (x & Hx & Hfx & ->). assert (j ≠ nId) as Hj by (intros ->; congruence).
    destruct (Hfwd j x Hx) as (y & Hy & Hs & _ & Hfy). exists y. split_and!; [done|rewrite Hfy; done|]. by destruct (same_place_buckets (nKey a) x y Hs) as (-> & _).
  - intros j y (x & Hx & Hs & _ & _ & Hfy)%Hback Hy. destruct (same_place_buckets (nKey a) x y Hs) as (-> & _). destruct (decide (j = nId)) as [->|Hj].
    + rewrite Hi in Hx. injection Hx as <-. apply lookup_insert_eq.
    + assert (vvTried a !! tried_place (nKey a) x = Some j) as Hpl by (apply mi_placed0; congruence). rewrite lookup_insert_ne; [done|]. intros E. rewrite <- E in Hpl. congruence.
  - intros j y (x & Hx & _ & _ & -> & _)%Hback. eauto.
  - intros j y (x & Hx & _ & _ & -> & Hfy)%Hback Hy HjX. destruct (decide (j = nId)) as [->|]; [congruence|]. apply (mi_listed0 j x); [done|congruence|set_solver].
  - rewrite map_size_insert_None by done. lia.
  - lia.
Qed.

(** ** Moving an entry to the tried table *)

Lemma GetNewBucket_range key i src : 0 <= GetNewBucket key i src < ADDRMAN_NEW_BUCKET_COUNT.
Proof. apply Z.mod_pos_bound. done. Qed.

Lemma leave_buckets N key i nId v : 0 <= N → (∀ b p, v !! (b, p) = Some nId → 0 <= b < N ∧ p = GetBucketPosition key i true b) →
  let '(v', refs) := foldl (leave_bucket key i nId) (v, count_new v nId) (seqZ 0 N) in
  refs = 0 ∧ count_new v' nId = 0 ∧ (∀ k j, v' !! k = Some j → v !! k = Some j) ∧ ∀ j, j ≠ nId → count_new v' j = count_new v j.
Proof.
  intros HN Hv. assert (∀ n m v1, Z.of_nat m + Z.of_nat n = N → (∀ k j, v1 !! k = Some j → v !! k = Some j) → (∀ j, j ≠ nId → count_new v1 j = count_new v j) →
    (∀ b p, v1 !! (b, p) = Some nId → Z.of_nat m <= b) →
    let '(v', refs) := foldl (leave_bucket key i nId) (v1, count_new v1 nId) (seqZ (Z.of_nat m) (Z.of_nat n)) in
    refs = count_new v' nId ∧ (∀ k j, v' !! k = Some j → v !! k = Some j) ∧ (∀ j, j ≠ nId → count_new v' j = count_new v j) ∧ ∀ b p, v' !! (b, p) = Some nId → N <= b) as Hl.
  { induction n as [|n IH]; intros m v1 Hm Hsub Hcnt Hlow; [cbn; split_and!; [done..|]; intros b p Hb; pose proof (Hlow b p Hb); lia|].
    rewrite seqZ_cons by lia. cbn [foldl]. replace (Z.pred (Z.of_nat (S n))) with (Z.of_nat n) by lia. replace (Z.succ (Z.of_nat m)) with (Z.of_nat (S m)) by lia.
    unfold leave_bucket at 2. set (pos := GetBucketPosition key i true (Z.of_nat m)). case_bool_decide as Hc.
    - replace (count_new v1 nId - 1) with (count_new (delete (Z.of_nat m, pos) v1) nId) by (rewrite (count_delete _ _ nId) by done; rewrite decide_True by done; lia).
      apply IH; [lia| | |].
      + intros k j [_ Hk]%lookup_delete_Some. eauto.
      + intros j Hj. rewrite (count_delete _ _ nId), decide_False by done. rewrite Hcnt by done. lia.
      + intros b p [Hne Hb]%lookup_delete_Some. pose proof (Hlow b p Hb). destruct (decide (b = Z.of_nat m)) as [->|]; [|lia]. destruct (Hv _ _ (Hsub _ _ Hb)) as [_ ->]. by destruct Hne.
    - apply IH; [lia|done|done|]. intros b p Hb. pose proof (Hlow b p Hb). destruct (decide (b = Z.of_nat m)) as [->|]; [|lia]. destruct (Hv _ _ (Hsub _ _ Hb)) as [_ ->]. done. }
  specialize (Hl (Z.to_nat N) O v ltac:(lia) ltac:(done) ltac:(done) (λ b p Hb, proj1 (proj1 (Hv b p Hb)))). rewrite Z2Nat.id in Hl by done. cbn [Z.of_nat] in Hl.
  destruct (foldl _ _ _) as [v' refs]. destruct Hl as (-> & Hsub & Hcnt & Hgone). assert (count_new v' nId = 0) as E; [|by rewrite E].
  apply count_none. intros [b p] Hb. pose proof (Hgone b p Hb). destruct (Hv b p (Hsub _ _ Hb)). lia.
Qed.

Lemma evict_spec X d a k : man_inv X d a → ∃ a', evict k.1 k.2 a = Some a' ∧ man_inv X d a' ∧ a'.(vvTried) = delete k a.(vvTried) ∧ a'.(nKey) = a.(nKey) ∧ a'.(nIdCount) = a.(nIdCount) ∧
  a'.(m_tried_collisions) = a.(m_tried_collisions) ∧ entries_from a a' ∧
  ∀ j x, a.(mapInfo) !! j = Some x → x.(fInTried) = false → x.(nRefCount) = 0 → ∃ q, a'.(mapInfo) !! j = Some (set_pos q x).
Proof.
  intros Ha. unfold evict. rewrite <- (surjective_pairing k). destruct (vvTried a !! k) as [idE|] eqn:Ek.
  2: { exists a. split_and!; try done; [by rewrite delete_id|]. intros j x Hx _ _. exists (nRandomPos x). by rewrite set_pos_same. }
  destruct (mi_tried _ _ _ Ha k idE Ek) as (i & Hi & Hf & _). rewrite Hi. cbn [mbind option_bind]. pose proof (inv_untry X d a k idE i Ha Ek Hi) as Ha1. set (a1 := with_tried _ _ _) in *.
  change (with_tried _ _ _) with a1. assert (mapInfo a1 !! idE = Some (set_in_tried false i)) as Hi1 by apply lookup_insert_eq.
  change (nKey a1) with (nKey a) in *. set (b := GetNewBucket (nKey a) i (source i)). set (p := GetBucketPosition (nKey a) i true b).
  assert (∀ c, vvNew a1 !! c ≠ Some idE) as Hno by (intros c; exact (tried_no_cells X d a idE i c Ha Hi Hf)).
  destruct (ClearNew_spec _ _ a1 b p Ha1) as (a2 & -> & Ha2 & Ev2 & (Hk2 & K1 & K2 & K3 & K4 & K5 & K6) & Hfrom2). cbn [mbind option_bind]. rewrite bool_decide_false by (rewrite Ev2, lookup_delete_eq; tauto).
  destruct (Hk2 idE _ (Hno (b, p)) Hi1) as [q Hi2]. rewrite Hi2. cbn [mbind option_bind].
  assert (count_new (vvNew a2) idE = 0) as Hc2 by (destruct (mi_refs _ _ _ Ha2 idE _ Hi2) as [<- _]; cbn; destruct (mi_refs _ _ _ Ha1 idE _ Hi1) as [E _]; cbn in E; rewrite E; by apply count_none).
  eexists. split; [done|]. cbn [with_new set_info with_info mapInfo vvTried nKey nIdCount m_tried_collisions]. rewrite K1, K3, K4, K5. split_and!; [|done|done|done|done| |].
  2: { transitivity a1; [exact (entries_from_set a idE i (set_in_tried false i) Hi ltac:(done))|]. transitivity a2; [done|]. exact (entries_from_set a2 idE _ (set_refs 1 (set_pos q (set_in_tried false i))) Hi2 ltac:(done)). }
  - apply (inv_new_table ({[idE]} ∪ X) X (d + 1) d a2 (<[(b, p) := idE]> (vvNew a2)) (nNew a2 + 1) 1 idE (set_pos q (set_in_tried false i))); [done|done|done| | | |done| |pose proof (mi_total _ _ _ Ha2); lia].
    + intros b' p' j [[[= <- <-] <-]|[_ Hj]]%lookup_insert_Some; [|by left]. right. split_and!; [done|apply GetNewBucket_range..|]. by rewrite K4.
    + intros j Hj. rewrite count_insert by (by rewrite Ev2, lookup_delete_eq). rewrite decide_False by done. lia.
    + rewrite count_insert by (by rewrite Ev2, lookup_delete_eq). rewrite decide_True by done. lia.
    + intros j Hj. destruct (decide (j = idE)) as [->|]; [by right|left]. set_solver.
  - intros j x Hx Hfx Hrx. assert (j ≠ idE) as Hj by (intros ->; congruence). destruct (Hk2 j x) as [q' Hq'].
    + intros E. pose proof (count_taken _ _ _ E) as Hpos. change (vvNew a1) with (vvNew a) in Hpos. destruct (mi_refs _ _ _ Ha j x Hx). lia.
    + cbn. by rewrite lookup_insert_ne.
    + exists q'. by rewrite lookup_insert_ne.
Qed.

Lemma MakeTried_spec a nId i : man_inv ∅ 0 a → a.(mapInfo) !! nId = Some i → i.(fInTried) = false → ∃ a', MakeTried nId a = Some a' ∧ man_inv ∅ 0 a' ∧
  a'.(nIdCount) = a.(nIdCount) ∧ a'.(m_tried_collisions) = a.(m_tried_collisions) ∧
  entries_from a a' ∧ ∀ k, is_Some (a.(vvTried) !! k) → is_Some (a'.(vvTried) !! k).
Proof.
  intros Ha Hi Hf. unfold MakeTried. rewrite Hi. cbn [mbind option_bind]. destruct (mi_refs _ _ _ Ha nId i Hi) as [Hr _]. rewrite Hr.
  pose proof (leave_buckets ADDRMAN_NEW_BUCKET_COUNT (nKey a) i nId (vvNew a) ltac:(done)) as Hl. generalize dependent (foldl (leave_bucket (nKey a) i nId) (vvNew a, count_new (vvNew a) nId) (seqZ 0 ADDRMAN_NEW_BUCKET_COUNT)).
  intros [v refs] Hl. destruct Hl as (-> & Hc & Hsub & Hcnt).
  { intros b p Hb. destruct (mi_new _ _ _ Ha b p nId Hb) as (Hbb & x & Hx & _ & ->). assert (x = i) by congruence. by subst. }
  cbn [Z.eqb negb]. set (a1 := with_new _ _ _). assert (man_inv {[nId]} 1 a1) as Ha1.
  { apply (inv_new_table ∅ {[nId]} 0 1 a v (nNew a - 1) 0 nId i); [done|done|done|intros b p j Hj; left; by apply Hsub|done|done|done|intros j Hj; left; set_solver|pose proof (mi_total _ _ _ Ha); lia]. }
  assert (mapInfo a1 !! nId = Some (set_refs 0 i)) as Hi1 by apply lookup_insert_eq.
  destruct (evict_spec {[nId]} 1 a1 (tried_place (nKey a) i) Ha1) as (a2 & E2 & Ha2 & Hdel & Ek & Ec & Ecol & Hfrom & Hkeep). assert (vvTried a2 !! tried_place (nKey a) i = None) as Hfree by (by rewrite Hdel, lookup_delete_eq). change (evict _ _ a1) with (evict (tried_place (nKey a) i).1 (tried_place (nKey a) i).2 a1). rewrite E2. cbn [mbind option_bind].
  change (GetTriedBucket (nKey a1) i, GetBucketPosition (nKey a1) i false (GetTriedBucket (nKey a1) i)) with (tried_place (nKey a) i). rewrite bool_decide_false by (rewrite Hfree; tauto).
  destruct (Hkeep nId _ Hi1 Hf eq_refl) as [q Hi2]. rewrite Hi2. cbn [mbind option_bind]. eexists. split; [done|]. rewrite <- (union_empty_r_L {[nId]}) in Ha2. change 1 with (0 + 1) in Ha2.
  pose proof (inv_try ∅ 0 a2 nId _ Ha2 Hi2 Hf eq_refl) as Ht. change (tried_place (nKey a2) (set_pos q (set_refs 0 i))) with (tried_place (nKey a2) i) in Ht. rewrite Ek in Ht. split; [by apply Ht|].
  cbn [set_info with_info with_tried nIdCount m_tried_collisions vvTried]. split_and!; [done|done| |].
  - transitivity a1; [exact (entries_from_set a nId i (set_refs 0 i) Hi ltac:(done))|]. transitivity a2; [done|]. exact (entries_from_set a2 nId _ (set_in_tried true (set_pos q (set_refs 0 i))) Hi2 ltac:(done)).
  - intros k Hk. rewrite Hdel. destruct (decide (k = tried_place (nKey a) i)) as [->|]; [rewrite lookup_insert_eq; by eexists|]. by rewrite lookup_insert_ne, lookup_delete_ne.
Qed.

(** ** Adding an entry *)

Lemma Create_spec a addr src : man_inv ∅ 0 a → a.(mapAddr) !! addr.(addr_service).(srv_addr).(ip) = None → a.(nIdCount) < 2 ^ 31 - 1 →
  let '(nId, a') := Create addr src a in
  man_inv {[nId]} 1 a' ∧ (∃ q, a'.(mapInfo) !! nId = Some (set_pos q (new_info addr src))) ∧ a'.(nIdCount) = a.(nIdCount) + 1 ∧ a'.(m_tried_collisions) = a.(m_tried_collisions) ∧
  a'.(vvTried) = a.(vvTried) ∧ entries_from a a'.
Proof.
  intros Ha Hnew Hc. unfold Create. pose proof (mi_count _ _ _ Ha) as Hcnt. pose proof (lookup_ge_None_2 (vRandom a) (length (vRandom a)) ltac:(lia)) as Hend.
  rewrite !i32_id by mlia. set (nId := nIdCount a). set (i := set_pos (Z.of_nat (length (vRandom a))) (new_info addr src)).
  assert (mapInfo a !! nId = None) as Hfresh by (destruct (mapInfo a !! nId) eqn:E; [pose proof (mi_ids _ _ _ Ha nId _ E); lia|done]).
  assert (∀ k, vvNew a !! k ≠ Some nId) as Hno by (intros [b p] E; destruct (mi_new _ _ _ Ha b p nId E) as (_ & x & Hx & _); congruence).
  split_and!; [|exists (Z.of_nat (length (vRandom a))); apply lookup_insert_eq|done|done|done|].
  2: { split_and!; [done|cbn; lia|]. intros j y Hj. cbn. rewrite lookup_insert_ne by lia. intros Hy. by exists y. }
  assert (∀ j x, <[nId := i]> (mapInfo a) !! j = Some x → (j = nId ∧ x = i) ∨ (j ≠ nId ∧ mapInfo a !! j = Some x)) as Hback by (intros j x [[<- <-]|[? ?]]%lookup_insert_Some; auto).
  assert (∀ j x, mapInfo a !! j = Some x → <[nId := i]> (mapInfo a) !! j = Some x) as Hfwd by (intros j x Hx; rewrite lookup_insert_ne; [done|congruence]).
  destruct Ha. split; cbn [with_random with_addr set_info with_info with_id_count mapInfo mapAddr vRandom nIdCount vvNew vvTried nTried nNew nKey].
  - intros j x [[-> ->]|[_ Hx]]%Hback; [lia|]. pose proof (mi_ids0 j x Hx). lia.
  - rewrite length_app. cbn. lia.
  - intros j x [[-> ->]|[_ Hx]]%Hback; [cbn; rewrite Nat2Z.id; split; [lia|by rewrite lookup_app_r, Nat.sub_diag]|]. destruct (mi_pos0 j x Hx) as [? Hp]. split; [done|]. by apply lookup_app_l_Some.
  - intros n j [Hn|[Hn Hj]]%lookup_app_Some; [destruct (mi_random0 n j Hn) as (x & Hx & Hp); exists x; auto|]. apply list_lookup_singleton_Some in Hj as [Hz <-]. exists i. rewrite lookup_insert_eq. split; [done|cbn; lia].
  - intros j x [[-> ->]|[_ Hx]]%Hback; [apply lookup_insert_eq|]. rewrite lookup_insert_ne; [eauto|]. intros E. pose proof (mi_addr0 j x Hx). congruence.
  - intros k j [[<- <-]|[_ Hk]]%lookup_insert_Some; [exists i; by rewrite lookup_insert_eq|]. destruct (mi_known0 k j Hk) as (x & Hx & <-). exists x. auto.
  - intros b p j Hb. destruct (mi_new0 b p j Hb) as (Hbb & x & Hx & Hf & ->). split; [done|]. exists x. auto.
  - intros k j Hk. destruct (mi_tried0 k j Hk) as (x & Hx & Hf & ->). exists x. auto.
  - intros j x [[-> ->]|[_ Hx]]%Hback Hf; [done|eauto].
  - intros j x [[-> ->]|[_ Hx]]%Hback; [cbn; rewrite count_none by done; done|eauto].
  - intros j x [[-> ->]|[Hj Hx]]%Hback Hf HX; [set_solver|]. apply (mi_listed0 j x Hx Hf). set_solver.
  - done.
  - rewrite length_app. cbn. lia.
Qed.

Lemma place_new_spec X a src now nId i : man_inv X 0 a → X ⊆ {[nId]} → a.(mapInfo) !! nId = Some i → i.(fInTried) = false → i.(nRefCount) < ADDRMAN_NEW_BUCKETS_PER_ADDRESS →
  ∃ a', place_new src now nId a = Some a' ∧ man_inv ∅ 0 a' ∧ a'.(nIdCount) = a.(nIdCount) ∧ a'.(m_tried_collisions) = a.(m_tried_collisions) ∧ a'.(vvTried) = a.(vvTried) ∧ entries_from a a'.
Proof.
  intros Ha HX Hi Hf H8. assert (man_inv ({[nId]} ∪ ∅) 0 a) as Ha' by (destruct Ha; split; try done; intros j x Hx Hfx Hj; apply (mi_listed0 j x Hx Hfx); set_solver).
  pose proof (inv_weaken ∅ 0 a nId Ha') as Hweak.
  destruct (mi_refs _ _ _ Ha nId i Hi) as [Hr _]. unfold place_new. rewrite Hi. cbn [mbind option_bind]. set (b := GetNewBucket (nKey a) i src). set (p := GetBucketPosition (nKey a) i true b).
  case_bool_decide as Hh. { exists a. split_and!; [done| |done..]. apply Hweak. intros x Hx _. assert (x = i) by congruence. subst. pose proof (count_taken _ _ _ Hh). lia. }
  assert (∃ fInsert, match vvNew a !! (b, p) with None => (true, a) | Some existing => let '(infoExisting, a) := info_at existing a in (IsTerrible now infoExisting || ((1 <? nRefCount infoExisting) && (nRefCount i =? 0)), a) end = (fInsert, a)) as [fInsert ->].
  { destruct (vvNew a !! (b, p)) as [e|] eqn:Ee; [|by eexists]. destruct (mi_new _ _ _ Ha b p e Ee) as (_ & x & Hx & _). unfold info_at. rewrite Hx. by eexists. }
  destruct fInsert.
  - destruct (ClearNew_spec _ _ a b p Ha) as (a1 & -> & Ha1 & Ev & (Hk & K1 & K2 & K3 & K4 & K5 & K6) & Hfrom). cbn [mbind option_bind]. destruct (Hk nId i Hh Hi) as [q Hi1]. rewrite Hi1. cbn [mbind option_bind].
    eexists. split; [done|]. split; [|split_and!; [done..|]; transitivity a1; [done|]; exact (entries_from_set a1 nId _ (set_refs (nRefCount i + 1) (set_pos q i)) Hi1 ltac:(done))].
    pose proof (mi_refs _ _ _ Ha1 nId _ Hi1) as [Hr1 _]. cbn in Hr1. apply (inv_new_table X ∅ 0 0 a1 (<[(b, p) := nId]> (vvNew a1)) (nNew a1) (nRefCount i + 1) nId (set_pos q i)); [done|done|done| | | |lia| |apply Ha1].
    + intros b' p' j [[[= <- <-] <-]|[_ Hj]]%lookup_insert_Some; [|by left]. right. split_and!; [done|apply GetNewBucket_range..|]. by rewrite K4.
    + intros j Hj. rewrite count_insert by (by rewrite Ev, lookup_delete_eq). rewrite decide_False by done. lia.
    + rewrite count_insert by (by rewrite Ev, lookup_delete_eq). rewrite decide_True by done. lia.
    + intros j _. destruct (decide (j = nId)) as [->|]; [right; split; [done|]; pose proof (count_nonneg (vvNew a) nId); lia|left; set_solver].
  - destruct (Z.eqb_spec (nRefCount i) 0) as [E0|E0].
    + destruct (Delete_spec ∅ 0 a nId i Ha' Hi Hf E0) as (a1 & -> & Ha1 & (_ & K1 & _ & K3 & _ & K5 & _) & _ & Hfrom). by exists a1.
    + exists a. split_and!; [done| |done..]. apply Hweak. intros x Hx _. assert (x = i) by congruence. subst. pose proof (count_nonneg (vvNew a) nId). lia.
Qed.

(** ** The operations *)

(** An entry that waits for a place of the tried table waits for one that is
    taken. *)
Definition collisions_ok (a : CAddrMan) : Prop :=
  ∀ nId, nId ∈ a.(m_tried_collisions) → nId < a.(nIdCount) ∧ ∀ i, a.(mapInfo) !! nId = Some i → is_Some (a.(vvTried) !! tried_place a.(nKey) i).
(** [fresh] says whether the waiting entries are still to be looked at. *)
Context (fresh : bool).
Definition consistent (a : CAddrMan) : Prop := man_inv ∅ 0 a ∧ (fresh = true → collisions_ok a).
(** What happens between two states of the manager. *)
Definition later (a a' : CAddrMan) : Prop := entries_from a a' ∧ ∀ k, is_Some (a.(vvTried) !! k) → is_Some (a'.(vvTried) !! k).
#[local] Instance later_preorder : PreOrder later.
Proof. split; [by intros a; split|]. intros a b c [E1 S1] [E2 S2]. split; [by etrans|eauto]. Qed.
Lemma collisions_later a a' : later a a' → a'.(m_tried_collisions) ⊆ a.(m_tried_collisions) → (fresh = true → collisions_ok a) → fresh = true → collisions_ok a'.
Proof.
  intros [(Ek & Ec & He) Hs] Hsub Hc Hfr nId Hin. destruct (Hc Hfr nId (Hsub _ Hin)) as [Hlt Hi]. split; [lia|]. intros y Hy. destruct (He nId y Hlt Hy) as (x & Hx & Hsame).
  rewrite Ek. destruct (same_place_buckets (nKey a) x y Hsame) as (-> & _). eauto.
Qed.
Lemma inv_last_good X d t a : man_inv X d a → man_inv X d (with_last_good t a).
Proof. by intros []. Qed.
Lemma inv_collisions X d l a : man_inv X d a → man_inv X d (with_collisions l a).
Proof. by intros []. Qed.
Lemma Find_spec net a nId i : Find net a = Some (nId, i) → a.(mapInfo) !! nId = Some i.
Proof. unfold Find. intros. by simplify_option_eq. Qed.
Lemma Find_None net X d a : man_inv X d a → Find net a = None → a.(mapAddr) !! net.(ip) = None.
Proof. intros Ha. unfold Find. destruct (mapAddr a !! ip net) as [nId|] eqn:E; [|done]. cbn. destruct (mi_known _ _ _ Ha _ _ E) as (i & -> & _). done. Qed.
Lemma Find_exact_spec addr a nId i : Find_exact addr a = Some (nId, i) → a.(mapInfo) !! nId = Some i.
Proof. unfold Find_exact. destruct (Find (srv_addr addr) a) as [[j x]|] eqn:E; [|done]. cbn. case_match; [|done]. intros [= <- <-]. by eapply Find_spec. Qed.

(** A change of the statistics of one entry. *)
Lemma update_consistent a nId i i' : consistent a → a.(mapInfo) !! nId = Some i → same_place i i' → i'.(nRefCount) = i.(nRefCount) → i'.(fInTried) = i.(fInTried) →
  i'.(nRandomPos) = i.(nRandomPos) → consistent (set_info nId i' a) ∧ later a (set_info nId i' a).
Proof.
  intros [Ha Hc] Hi Hs Er Ef Ep. assert (later a (set_info nId i' a)) as Hl by (split; [by apply (entries_from_set a nId i)|done]). split; [|done].
  split; [by apply (inv_update ∅ 0 a nId i)|]. by apply (collisions_later a).
Qed.
Lemma Attempt__spec addr fCountFailure time a : consistent a → consistent (Attempt_ addr fCountFailure time a).
Proof. intros Ha. unfold Attempt_. destruct (Find_exact addr a) as [[nId i]|] eqn:E; [|done]. by apply (update_consistent a nId i); [done|eapply Find_exact_spec|..]. Qed.
Lemma Connected__spec addr time a : consistent a → consistent (Connected_ addr time a).
Proof. intros Ha. unfold Connected_. destruct (Find_exact addr a) as [[nId i]|] eqn:E; [|done]. case_match; [|done]. by apply (update_consistent a nId i); [done|eapply Find_exact_spec|..]. Qed.
Lemma SetServices__spec addr services a : consistent a → consistent (SetServices_ addr services a).
Proof. intros Ha. unfold SetServices_. destruct (Find_exact addr a) as [[nId i]|] eqn:E; [|done]. by apply (update_consistent a nId i); [done|eapply Find_exact_spec|..]. Qed.

Lemma elem_of_set_insert x y l : x ∈ set_insert y l → x = y ∨ x ∈ l.
Proof.
  induction l as [|z l IH]; cbn [set_insert]; [intros ->%list_elem_of_singleton; by left|]. repeat case_match; rewrite ?elem_of_cons; [tauto|tauto|]. intros [->|Hx]; [tauto|]. destruct (IH Hx); tauto.
Qed.
Lemma Good__spec addr test time nRnd a : consistent a → ∃ a', Good_ addr test time nRnd a = Some a' ∧ consistent a' ∧ later a a' ∧ a'.(nIdCount) = a.(nIdCount) ∧
  (test = false → a'.(m_tried_collisions) = a.(m_tried_collisions)).
Proof.
  intros Ha. unfold Good_. set (a0 := with_last_good time a). assert (consistent a0 ∧ later a a0) as [Ha0 Hl0] by (destruct Ha; split; [split; [by apply inv_last_good|done]|exact (reflexivity (R := later) a)]).
  destruct (Find_exact addr a0) as [[nId i]|] eqn:E; [|by exists a0]. pose proof (Find_exact_spec _ _ _ _ E) as Hi. set (i1 := set_success time i). set (a1 := set_info nId i1 a0).
  destruct (update_consistent a0 nId i i1 Ha0 Hi) as [[Ha1 Hc1] Hl1]; [done..|]. fold a1 in Ha1, Hc1, Hl1. assert (later a a1) as Hl by (by transitivity a0). assert (mapInfo a1 !! nId = Some i1) as Hi1 by apply lookup_insert_eq.
  destruct (fInTried i1) eqn:Ef; [by exists a1|]. destruct (in_new_bucket nRnd nId i1 a1); cbn [negb]; [|by exists a1].
  change (GetTriedBucket (nKey a1) i1, GetBucketPosition (nKey a1) i1 false (GetTriedBucket (nKey a1) i1)) with (tried_place (nKey a1) i1).
  destruct (test && bool_decide (vvTried a1 !! tried_place (nKey a1) i1 ≠ None)) eqn:Et.
  - apply andb_true_iff in Et as [-> Hocc%bool_decide_eq_true]. case_bool_decide; [|by exists a1]. eexists. split; [done|]. split_and!; [|done|done|done]. split; [by apply inv_collisions|].
    intros Hfr id Hid. specialize (Hc1 Hfr). cbn [with_collisions m_tried_collisions nIdCount mapInfo vvTried nKey] in *. apply elem_of_set_insert in Hid as [->|Hid]; [|by apply Hc1]. split; [apply (mi_ids _ _ _ Ha1 nId i1 Hi1)|].
    intros x Hx. assert (x = i1) as -> by congruence. by apply not_eq_None_Some.
  - destruct (MakeTried_spec a1 nId i1 Ha1 Hi1 Ef) as (a' & -> & Ha' & Ec & Ecol & Hfrom & Hs). exists a'. assert (later a1 a') as Hl' by done. split_and!; [done| |by transitivity a1|done|done].
    split; [done|]. apply (collisions_later a1); [done|by rewrite Ecol|done].
Qed.

Lemma refresh_spec addr penalty now rnd i : let '(i', go) := refresh addr penalty now rnd i in
  same_place i i' ∧ i'.(nRefCount) = i.(nRefCount) ∧ i'.(fInTried) = i.(fInTried) ∧ i'.(nRandomPos) = i.(nRandomPos) ∧
  (go = true → i.(fInTried) = false ∧ i.(nRefCount) ≠ ADDRMAN_NEW_BUCKETS_PER_ADDRESS).
Proof.
  unfold refresh. destruct (negb (nTime addr =? 0) && _); cbn [set_time set_services set_addr nRefCount fInTried nRandomPos];
    (destruct (_ || _); [by split_and!|]; destruct (fInTried i) eqn:Ef; [by split_and!|];
     destruct (Z.eqb_spec (nRefCount i) ADDRMAN_NEW_BUCKETS_PER_ADDRESS); [by split_and!|]; split_and!; try done; congruence).
Qed.
Lemma Add__spec addr src penalty now rnd a : consistent a → a.(nIdCount) < 2 ^ 31 - 1 →
  ∃ b a', Add_ addr src penalty now rnd a = Some (b, a') ∧ consistent a' ∧ a'.(nIdCount) <= a.(nIdCount) + 1.
Proof.
  intros [Ha Hc] Hid. unfold Add_. destruct (IsRoutable (srv_addr (addr_service addr))); cbn [negb]; [|exists false, a; split_and!; [done|done|lia]].
  set (pen := if NetAddr_eq _ _ then 0 else penalty). destruct (Find (srv_addr (addr_service addr)) a) as [[nId i]|] eqn:E.
  - pose proof (Find_spec _ _ _ _ E) as Hi. pose proof (refresh_spec addr pen now rnd i) as Hr. destruct (refresh addr pen now rnd i) as [i1 go]. destruct Hr as (S & R & F & P & Hgo).
    destruct (update_consistent a nId i i1 (conj Ha Hc) Hi S R F P) as [[Ha1 Hc1] Hl1]. destruct go; [|exists false; eexists; split_and!; [done|done|cbn; lia]].
    destruct (Hgo eq_refl) as [Hf H8]. destruct (mi_refs _ _ _ Ha nId i Hi) as [_ Hle].
    destruct (place_new_spec ∅ (set_info nId i1 a) src now nId i1 Ha1 ltac:(set_solver) (lookup_insert_eq _ _ _) ltac:(congruence) ltac:(lia)) as (a' & -> & Ha' & Ec & Ecol & Et & Hfrom).
    exists false, a'. cbn [mbind option_bind]. split_and!; [done| |cbn in Ec; lia]. split; [done|]. apply (collisions_later (set_info nId i1 a)); [split; [done|by rewrite Et]|by rewrite Ecol|done].
  - pose proof (Create_spec a addr src Ha (Find_None _ _ _ _ Ha E) Hid) as Hcr. destruct (Create addr src a) as [nId a1]. destruct Hcr as (Ha1 & [q Hi1] & Ec1 & Ecol1 & Et1 & Hfrom1).
    rewrite Hi1. cbn [mbind option_bind]. set (i1 := set_pos q (new_info addr src)) in *. set (i2 := set_time _ i1). pose proof (inv_update _ _ a1 nId i1 i2 Ha1 Hi1 ltac:(done) eq_refl eq_refl eq_refl) as Ha2.
    set (a2 := with_new _ _ _). assert (man_inv {[nId]} 0 a2) as Ha3 by (destruct Ha2; split; try done; cbn in *; lia).
    destruct (place_new_spec {[nId]} a2 src now nId i2 Ha3 ltac:(done) (lookup_insert_eq _ _ _) ltac:(done) ltac:(done)) as (a' & -> & Ha' & Ec & Ecol & Et & Hfrom).
    exists true, a'. cbn [mbind option_bind]. change (nIdCount a2) with (nIdCount a1) in Ec. split_and!; [done| |lia]. split; [done|]. apply (collisions_later a); [|rewrite Ecol; cbn; by rewrite Ecol1|done]. split.
    + transitivity a1; [done|]. transitivity a2; [exact (entries_from_set a1 nId i1 i2 Hi1 ltac:(done))|done].
    + intros k. rewrite Et. cbn. by rewrite Et1.
Qed.

Lemma getaddr_loop_spec k n nNodes now rnd a l : consistent a → (k + n <= length a.(vRandom))%nat → (∀ n m, 0 < m → 0 <= rnd n m < m) → Z.of_nat (length l) <= Z.max 0 nNodes →
  ∃ l' a', getaddr_loop k n nNodes now rnd a l = Some (l', a') ∧ consistent a' ∧ later a a' ∧ a'.(nIdCount) = a.(nIdCount) ∧ Z.of_nat (length l') <= Z.max 0 nNodes ∧
    ∀ x, x ∈ l' → x ∈ l ∨ ∃ nId i, a.(mapInfo) !! nId = Some i ∧ IsTerrible now i = false ∧ x = i.(ai_addr).
Proof.
  intros Ha Hk Hr Hl. revert n a l Ha Hk Hl. induction k as [|k IH]; intros n a l Ha Hk Hl; cbn [getaddr_loop]; [exists l, a; split_and!; [done|done|reflexivity|done|done|auto]|].
  destruct (Z.leb_spec nNodes (Z.of_nat (length l))); [exists l, a; split_and!; [done|done|reflexivity|done|done|auto]|]. specialize (Hr n) as Hrn. specialize (Hrn (Z.of_nat (length (vRandom a) - n)) ltac:(lia)).
  destruct Ha as [Ha Hc]. destruct (SwapRandom_spec ∅ 0 a n (Z.to_nat (rnd n (Z.of_nat (length (vRandom a) - n)) + Z.of_nat n)) Ha ltac:(lia) ltac:(lia)) as (a1 & -> & Ha1 & (Hkeep & K1 & K2 & K3 & K4 & K5 & K6) & _ & _ & _ & El & _ & Hfrom).
  cbn [mbind option_bind]. destruct (lookup_lt_is_Some_2 (vRandom a1) n) as [nId En]; [lia|]. rewrite En. cbn [mbind option_bind]. destruct (mi_random _ _ _ Ha1 n nId En) as (ai & Hai & _). rewrite Hai. cbn [mbind option_bind].
  assert (later a a1) as Hl1 by (split; [done|by rewrite K1]). assert (consistent a1) as Ha1' by (split; [done|apply (collisions_later a); [done|by rewrite K5|done]]).
  set (l1 := if IsTerrible now ai then l else l ++ [ai_addr ai]). destruct (IH (S n) a1 l1) as (l' & a' & -> & Ha' & Hl' & Ec & Hlen & Hin); [done|lia|unfold l1; case_match; rewrite ?length_app; cbn; lia|].
  exists l', a'. split_and!; [done|done|by transitivity a1|congruence|done|]. intros x Hx. assert (∀ j y, mapInfo a1 !! j = Some y → ∃ y0 q, mapInfo a !! j = Some y0 ∧ y = set_pos q y0) as Hback.
  { intros j y Hy. destruct Hfrom as (_ & _ & Hf). pose proof (mi_ids _ _ _ Ha1 j y Hy) as Hj. destruct (Hf j y ltac:(lia) Hy) as (y0 & Hy0 & _). destruct (Hkeep j y0 I Hy0) as [q Hq]. exists y0, q. split; [done|congruence]. }
  destruct (Hin x Hx) as [Hx1|(j & y & Hy & Ht & ->)]; [|right; destruct (Hback j y Hy) as (y0 & q & ? & ->); by exists j, y0]. unfold l1 in Hx1. destruct (IsTerrible now ai) eqn:Et; [by left|].
  apply elem_of_app in Hx1 as [|Hx1]; [by left|]. apply list_elem_of_singleton in Hx1 as ->. right. destruct (Hback nId ai Hai) as (y0 & q & ? & ->). by exists nId, y0.
Qed.

Lemma resolve_one_spec now nRnd id a : consistent a → ∃ b a', resolve_one now nRnd id a = Some (b, a') ∧ consistent a' ∧ later a a' ∧ a'.(nIdCount) = a.(nIdCount) ∧ a'.(m_tried_collisions) = a.(m_tried_collisions).
Proof.
  intros Ha. unfold resolve_one. destruct (mapInfo a !! id) as [i|] eqn:Ei; [|exists true, a; by split_and!]. destruct (IsValid (net_of i)); cbn [negb]; [|exists true, a; by split_and!].
  destruct (Good__spec (service_of i) false now nRnd a Ha) as (a' & Eg & Ha' & Hl & Ec & Ecol). specialize (Ecol eq_refl).
  destruct (vvTried a !! _) as [id_old|] eqn:Et; [|rewrite Eg; exists true, a'; by split_and!]. destruct (mi_tried _ _ _ (proj1 Ha) _ _ Et) as (x & Hx & _). unfold info_at. rewrite Hx.
  destruct (now - nLastSuccess x <? _); [exists true, a; by split_and!|]. destruct (now - nLastTry x <? _); [|exists false, a; by split_and!]. destruct (60 <? _); [|exists false, a; by split_and!].
  rewrite Eg. exists true, a'. by split_and!.
Qed.
Lemma resolve_loop_spec now rnd ids a : consistent a → ∃ kept a', resolve_loop now rnd ids a = Some (kept, a') ∧ consistent a' ∧ later a a' ∧ a'.(nIdCount) = a.(nIdCount) ∧ a'.(m_tried_collisions) = a.(m_tried_collisions) ∧ kept ⊆ ids.
Proof.
  revert a. induction ids as [|id ids IH]; intros a Ha; cbn [resolve_loop]; [exists [], a; by split_and!|]. destruct (resolve_one_spec now (rnd id) id a Ha) as (b & a1 & -> & Ha1 & Hl1 & Ec1 & Ecol1). cbn [mbind option_bind].
  destruct (IH a1 Ha1) as (kept & a' & -> & Ha' & Hl' & Ec' & Ecol' & Hsub). cbn [mbind option_bind]. eexists _, a'. split_and!; [done|done|by transitivity a1|congruence|congruence|]. destruct b; set_solver.
Qed.
Lemma ResolveCollisions__spec now rnd a : consistent a → ∃ a', ResolveCollisions_ now rnd a = Some a' ∧ consistent a' ∧ a'.(nIdCount) = a.(nIdCount).
Proof.
  intros Ha. unfold ResolveCollisions_. destruct (resolve_loop_spec now rnd (m_tried_collisions a) a Ha) as (kept & a' & -> & [Ha' Hc'] & Hl & Ec & Ecol & Hsub). cbn [mbind option_bind]. eexists. split; [done|]. split; [|done].
  split; [by apply inv_collisions|]. apply (collisions_later a'); [exact (reflexivity (R := later) a')| |done]. cbn. by rewrite Ecol.
Qed.
Lemma SelectTriedCollision__spec rnd a : fresh = true → consistent a → (a.(m_tried_collisions) = [] ∨ (rnd < length a.(m_tried_collisions))%nat) →
  ∃ i a', SelectTriedCollision_ rnd a = Some (i, a') ∧ consistent a' ∧ a'.(nIdCount) = a.(nIdCount) ∧ a'.(mapInfo) = a.(mapInfo).
Proof.
  intros Hfr [Ha Hc] Hr. pose proof (Hc Hfr) as Hw. unfold SelectTriedCollision_. case_bool_decide as He; [by exists default_info, a|]. destruct Hr as [|Hr]; [done|]. destruct (lookup_lt_is_Some_2 _ _ Hr) as [idn Eid]. rewrite Eid. cbn [mbind option_bind].
  destruct (mapInfo a !! idn) as [i|] eqn:Ei.
  - destruct (Hw idn (list_elem_of_lookup_2 _ _ _ Eid)) as [_ Hs]. destruct (Hs i Ei) as [id_old Eo]. change (GetTriedBucket (nKey a) i, GetBucketPosition (nKey a) i false (GetTriedBucket (nKey a) i)) with (tried_place (nKey a) i).
    rewrite Eo. cbn [default from_option id]. destruct (mi_tried _ _ _ Ha _ _ Eo) as (x & Hx & _). unfold info_at. cbn. rewrite Hx. by exists x, a.
  - eexists _, _. split; [done|]. split_and!; [|done|done]. split; [by apply inv_collisions|]. apply (collisions_later a); [exact (reflexivity (R := later) a)| |done]. cbn. intros x Hx. by apply list_elem_of_filter in Hx as [_ Hx].
Qed.

(** The answer to a [getaddr] message has at most 2500 addresses and at most 23
    percent of the known ones, each of which is known and not terrible. *)
Lemma GetAddr__spec now rnd a : consistent a → (∀ n m, 0 < m → 0 <= rnd n m < m) → ∃ l a', GetAddr_ now rnd a = Some (l, a') ∧ consistent a' ∧
  a'.(nIdCount) = a.(nIdCount) ∧ Z.of_nat (length l) <= ADDRMAN_GETADDR_MAX ∧ 100 * Z.of_nat (length l) <= ADDRMAN_GETADDR_MAX_PCT * man_size a ∧
  ∀ x, x ∈ l → ∃ nId i, a.(mapInfo) !! nId = Some i ∧ IsTerrible now i = false ∧ x = i.(ai_addr).
Proof.
  intros Ha Hr. unfold GetAddr_. set (m := Z.min _ _). destruct (getaddr_loop_spec (length (vRandom a)) 0 m now rnd a [] Ha ltac:(lia) Hr ltac:(cbn; lia)) as (l & a' & -> & Ha' & _ & Ec & Hl & Hin). exists l, a'.
  assert (0 <= m) as Hm by (apply Z.min_glb; [apply Z.div_pos; unfold ADDRMAN_GETADDR_MAX_PCT; lia|done]). assert (Z.of_nat (length l) <= m) as Hlm by lia. unfold man_size.
  pose proof (Z.mul_div_le (ADDRMAN_GETADDR_MAX_PCT * Z.of_nat (length (vRandom a))) 100 ltac:(lia)). split_and!; [done|done|done|lia|lia|]. intros x Hx. destruct (Hin x Hx) as [Hnil|]; [by apply not_elem_of_nil in Hnil|done].
Qed.
Lemma Add_all_spec l src penalty now rnd a : consistent a → a.(nIdCount) + Z.of_nat (length l) < 2 ^ 31 →
  ∃ n a', Add_all l src penalty now rnd a = Some (n, a') ∧ consistent a' ∧ a'.(nIdCount) <= a.(nIdCount) + Z.of_nat (length l).
Proof.
  revert a. induction l as [|addr l IH]; intros a Ha Hc; cbn [Add_all length] in *; [exists 0, a; split_and!; [done|done|lia]|].
  destruct (Add__spec addr src penalty now rnd a Ha ltac:(lia)) as (b & a1 & -> & Ha1 & Hc1). cbn [mbind option_bind].
  destruct (IH a1 Ha1 ltac:(lia)) as (n & a' & -> & Ha' & Hc'). cbn [mbind option_bind]. eexists _, a'. split_and!; [done|done|lia].
Qed.
End invariant.

(** ** Runs *)

Section runs.
Context `{ScriptCrypto}.

Inductive man_op :=
  | OpAdd (vAddr : list CAddress) (src : CNetAddr) (nTimePenalty now : Z) (RandomInt : Z → Z)
  | OpGood (addr : CService) (test_before_evict : bool) (time nRnd : Z)
  | OpAttempt (addr : CService) (fCountFailure : bool) (time : Z)
  | OpConnected (addr : CService) (time : Z)
  | OpSetServices (addr : CService) (services : Z)
  | OpResolveCollisions (now : Z) (RandomInt : Z → Z)
  | OpGetAddr (now : Z) (RandomInt : nat → Z → Z)
  | OpSelectTriedCollision (GetRandInt : nat → nat)
  | OpClear (GetRandHash : base_uint).
Definition run_op (op : man_op) (a : CAddrMan) : option CAddrMan :=
  match op with
  | OpAdd vAddr src penalty now rnd => '(_, a) ← Add_all vAddr src penalty now rnd a; Some a
  | OpGood addr test time nRnd => Good_ addr test time nRnd a
  | OpAttempt addr count time => Some (Attempt_ addr count time a)
  | OpConnected addr time => Some (Connected_ addr time a)
  | OpSetServices addr services => Some (SetServices_ addr services a)
  | OpResolveCollisions now rnd => ResolveCollisions_ now rnd a
  | OpGetAddr now rnd => '(_, a) ← GetAddr_ now rnd a; Some a
  | OpSelectTriedCollision rnd => '(_, a) ← SelectTriedCollision_ (rnd (length a.(m_tried_collisions))) a; Some a
  | OpClear key => Some (Clear key a.(m_tried_collisions))
  end.
Fixpoint run_ops (ops : list man_op) (a : CAddrMan) : option CAddrMan :=
  match ops with [] => Some a | op :: ops => a ← run_op op a; run_ops ops a end.
(** A random number below [n] is below [n]. *)
Definition op_ok (op : man_op) : Prop :=
  match op with
  | OpGetAddr _ rnd => ∀ n m, 0 < m → 0 <= rnd n m < m
  | OpSelectTriedCollision rnd => ∀ n, (0 < n)%nat → (rnd n < n)%nat
  | _ => True
  end.
Definition added (op : man_op) : Z := match op with OpAdd vAddr _ _ _ _ => Z.of_nat (length vAddr) | _ => 0 end.

(** [Clear] forgets the entries but not those that wait for a place: their
    identifiers are stale from then on. *)
Definition stays_fresh (fresh : bool) (op : man_op) (a : CAddrMan) : bool :=
  match op with OpClear _ => fresh && bool_decide (a.(m_tried_collisions) = []) | _ => fresh end.
Fixpoint fresh_after (fresh : bool) (ops : list man_op) (a : CAddrMan) : bool :=
  match ops with
  | [] => fresh
  | op :: ops => match run_op op a with Some a' => fresh_after (stays_fresh fresh op a) ops a' | None => fresh end
  end.
(** No stale identifier is looked up by [SelectTriedCollision_]. *)
Fixpoint selects_fresh (fresh : bool) (ops : list man_op) (a : CAddrMan) : Prop :=
  match ops with
  | [] => True
  | op :: ops => match op with OpSelectTriedCollision _ => fresh = true | _ => True end ∧
      match run_op op a with Some a' => selects_fresh (stays_fresh fresh op a) ops a' | None => True end
  end.

Lemma Clear_consistent fresh key a : man_inv ∅ 0 a → consistent (fresh && bool_decide (a.(m_tried_collisions) = [])) (Clear key a.(m_tried_collisions)).
Proof.
  intros Ha. split; [by destruct (new_man_inv key)|]. intros [_ E%bool_decide_eq_true]%andb_true_iff nId Hin. cbn in Hin. rewrite E in Hin.
  by apply not_elem_of_nil in Hin.
Qed.
Lemma run_op_spec fresh op a : consistent fresh a → op_ok op → match op with OpSelectTriedCollision _ => fresh = true | _ => True end → a.(nIdCount) + added op < 2 ^ 31 →
  ∃ a', run_op op a = Some a' ∧ consistent (stays_fresh fresh op a) a' ∧ a'.(nIdCount) <= a.(nIdCount) + added op.
Proof.
  intros Ha Hop Hfr Hc. destruct op as [l src penalty now rnd|addr test time nRnd|addr count time|addr time|addr services|now rnd|now rnd|rnd|key]; cbn [run_op added op_ok stays_fresh] in *.
  - destruct (Add_all_spec fresh l src penalty now rnd a Ha Hc) as (n & a' & -> & Ha' & Hc'). by exists a'.
  - destruct (Good__spec fresh addr test time nRnd a Ha) as (a' & -> & Ha' & _ & Ec & _). exists a'. split_and!; [done|done|lia].
  - eexists. split; [done|]. split; [by apply Attempt__spec|]. unfold Attempt_. case_match; [case_match|]; cbn; lia.
  - eexists. split; [done|]. split; [by apply Connected__spec|]. unfold Connected_. case_match; [case_match; case_match|]; cbn; lia.
  - eexists. split; [done|]. split; [by apply SetServices__spec|]. unfold SetServices_. case_match; [case_match|]; cbn; lia.
  - destruct (ResolveCollisions__spec fresh now rnd a Ha) as (a' & -> & Ha' & Ec). exists a'. split_and!; [done|done|lia].
  - destruct (GetAddr__spec fresh now rnd a Ha Hop) as (l & a' & -> & Ha' & Ec & _). exists a'. cbn. split_and!; [done|done|lia].
  - destruct (SelectTriedCollision__spec fresh (rnd (length (m_tried_collisions a))) a Hfr Ha) as (i & a' & -> & Ha' & Ec & _); [destruct (m_tried_collisions a); [by left|right; apply Hop; cbn; lia]|]. exists a'. cbn. split_and!; [done|done|lia].
  - eexists. split; [done|]. split; [apply Clear_consistent, Ha|]. cbn. pose proof (mi_count _ _ _ (proj1 Ha)). lia.
Qed.
Lemma run_ops_spec ops fresh a : consistent fresh a → Forall op_ok ops → selects_fresh fresh ops a → a.(nIdCount) + foldr (λ op n, added op + n) 0 ops < 2 ^ 31 →
  ∃ a', run_ops ops a = Some a' ∧ consistent (fresh_after fresh ops a) a'.
Proof.
  revert fresh a. induction ops as [|op ops IH]; intros fresh a Ha Hops Hsel Hc; cbn [run_ops foldr fresh_after selects_fresh] in *; [by exists a|]. apply Forall_cons in Hops as [Hop Hops]. destruct Hsel as [Hs1 Hs2].
  assert (∀ l, 0 <= foldr (λ op n, added op + n) 0 l) as Hn by (induction l as [|o l IHl]; cbn [foldr]; [done|]; destruct o; cbn [added]; lia). pose proof (Hn ops).
  destruct (run_op_spec fresh op a Ha Hop Hs1 ltac:(lia)) as (a1 & E & Ha1 & Hc1). rewrite E in Hs2 |- *. cbn [mbind option_bind]. apply IH; [done|done|done|lia].
Qed.

(** What is selected is known, and is a new address if this was asked for. *)
Lemma find_place_spec vv count moves b p nId : find_place vv count moves b p = Some nId → ∃ k, vv !! k = Some nId.
Proof. revert b p. induction moves as [|[x y] moves IH]; intros b p; cbn [find_place]; (destruct (vv !! (b, p)) eqn:E; [intros [= <-]; by eexists|]); [done|apply IH]. Qed.
Lemma select_loop_spec vv count draws a i : select_loop vv count draws a = Some i → ∃ k nId, vv !! k = Some nId ∧ a.(mapInfo) !! nId = Some i.
Proof.
  induction draws as [|d draws IH]; cbn [select_loop]; [done|]. destruct (find_place vv count _ _ _) as [nId|] eqn:E; [|done]. cbn [mbind option_bind]. destruct (mapInfo a !! nId) as [x|] eqn:Ex; [|done]. cbn [mbind option_bind].
  case_match; [|done]. intros [= <-]. apply find_place_spec in E as [k Hk]. by exists k, nId.
Qed.
Lemma Select__spec newOnly coin draws a i : man_inv ∅ 0 a → Select_ newOnly coin draws a = Some i →
  (i = default_info ∧ (man_size a = 0 ∨ newOnly = true ∧ a.(nNew) = 0)) ∨ ∃ nId, a.(mapInfo) !! nId = Some i ∧ (newOnly = true → i.(fInTried) = false).
Proof.
  intros Ha. unfold Select_. destruct (Z.eqb_spec (man_size a) 0); [intros [= <-]; left; auto|]. destruct (newOnly && (nNew a =? 0)) eqn:E1; [intros [= <-]; left; split; [done|]; right; apply andb_true_iff in E1 as [-> E1]; split; [done|lia]|].
  destruct (negb newOnly && _) eqn:E2; intros (k & nId & Hk & Hi)%select_loop_spec; right; exists nId; (split; [done|]).
  - apply andb_true_iff in E2 as [E2 _]. by destruct newOnly.
  - intros _. destruct k as [b p]. destruct (mi_new _ _ _ Ha b p nId Hk) as (_ & x & Hx & Hf & _). congruence.
Qed.

(** C6: the tables of the address manager stay consistent.  From an empty
    manager, any sequence of operations with fewer than [2 ^ 31] added
    addresses, whatever random numbers are drawn, runs without a failed
    assertion to a state that satisfies what the debug check asks of the tables,
    provided that [SelectTriedCollision_] is not called any more once [Clear]
    was called while entries were waiting for a place of the tried table: every
    entry is found under its address and at its position, it is in the tried
    table at its place or in the new table in as many buckets as its reference
    count says, one to eight, and the counters are right.  If every [Clear] was
    called without waiting entries, each waiting entry waits for a place that
    is taken.  What is then selected is one of the entries. *)
Theorem manager_stays_consistent (key : base_uint) (ops : list man_op) :
  Forall op_ok ops → foldr (λ op n, added op + n) 0 ops < 2 ^ 31 → selects_fresh true ops (new_man key) →
  ∃ a, run_ops ops (new_man key) = Some a ∧ man_inv ∅ 0 a ∧ (fresh_after true ops (new_man key) = true → collisions_ok a) ∧
    ∀ newOnly coin draws i, Select_ newOnly coin draws a = Some i →
      (i = default_info ∧ (man_size a = 0 ∨ newOnly = true ∧ a.(nNew) = 0)) ∨ ∃ nId, a.(mapInfo) !! nId = Some i ∧ (newOnly = true → i.(fInTried) = false).
Proof.
  intros Hops Hc Hsel. destruct (run_ops_spec ops true (new_man key)) as (a & E & Ha); [split; [apply new_man_inv|intros _ id Hnil; by apply not_elem_of_nil in Hnil]|done|done|done|].
  exists a. split_and!; [done|apply Ha|apply Ha|]. intros newOnly coin draws i. apply Select__spec, Ha.
Qed.
End runs.

(** ** Samples *)

#[local] Instance addrman_crypto : ScriptCrypto := sample_crypto.
Definition node_at (x p : Z) : CService := mkService (mkNetAddr (pchIPv4 ++ [8; 8; x; 8]) 0) p.
Definition peer (x : Z) : CAddress := mkAddress (node_at x 9999) 1 1600000000.
Definition some_source : CNetAddr := srv_addr (node_at 77 0).
Definition some_ops : list man_op :=
  [OpAdd [peer 1; peer 2; peer 3] some_source 0 1600000000 (λ _, 0); OpGood (node_at 2 9999) true 1600000000 5; OpGetAddr 1600000000 (λ _ m, m - 1);
   OpSelectTriedCollision (λ n, pred n); OpClear (uint_zero 8); OpAdd [peer 4] some_source 0 1600000000 (λ _, 0); OpSelectTriedCollision (λ n, pred n);
   OpAttempt (node_at 3 9999) true 1600000001; OpResolveCollisions 1600000002 (λ _, 0)].
Lemma manager_stays_consistent_witness : ∃ a, run_ops some_ops (new_man (uint_zero 8)) = Some a ∧ man_inv ∅ 0 a ∧
    (fresh_after true some_ops (new_man (uint_zero 8)) = true → collisions_ok a) ∧
    ∀ newOnly coin draws i, Select_ newOnly coin draws a = Some i →
      (i = default_info ∧ (man_size a = 0 ∨ newOnly = true ∧ a.(nNew) = 0)) ∨ ∃ nId, a.(mapInfo) !! nId = Some i ∧ (newOnly = true → i.(fInTried) = false).
Proof.
  apply (manager_stays_consistent (uint_zero 8) some_ops).
  - repeat constructor; cbn; lia.
  - vm_compute. reflexivity.
  - vm_compute. by split_and!.
Defined.

(** [Clear] does not empty the set of collisions.  When an identifier in it is
    given to another address, [SelectTriedCollision_] reads the entry of the
    identifier [-1], which makes an entry that is in no table. *)
Example stale_collision :
  let a := Clear (uint_zero 8) [0] in
  match Add_ (peer 1) some_source 0 1600000000 (λ _, 0) a with
  | Some (true, a) => match SelectTriedCollision_ 0 a with Some (_, a) => a.(mapInfo) !! (-1) = Some default_info ∧ man_size a = 1 | None => False end
  | _ => False
  end.
Proof. vm_compute. split; reflexivity. Qed.
