(* ===== verification/StrEncodings.v ===== *)
(** * StrEncodings: numbers and bytes as text ([utilstrencodings.h], [utilstrencodings.cpp], [utilmoneystr.cpp])

    Hexadecimal, base 64 and base 32, and amounts of money.  A string is the list
    of its characters, as numbers from 0 to 255; a C string ends before the first
    zero. *)

From Stdlib Require Import String Ascii.
From S2P Require Import Prelude Params Script.
Local Open Scope Z_scope.
(* The names of the standard library that are in the way. *)
Local Notation length := Datatypes.length.

(** The characters of a constant. *)
Definition chars (s : string) : list Z := List.map (λ c, Z.of_N (N_of_ascii c)) (list_ascii_of_string s).
(** [strlen] and what is before it. *)
Fixpoint cstr (s : list Z) : list Z := match s with [] => [] | c :: s => if c =? 0 then [] else c :: cstr s end.
(** [isspace] and [isdigit] in the C locale. *)
Definition isspace (c : Z) : bool := ((9 <=? c) && (c <=? 13)) || (c =? 32).
Definition IsDigit (c : Z) : bool := (48 <=? c) && (c <=? 57).

(** ** Hexadecimal *)

Definition p_util_hexdigit : list Z := Eval vm_compute in
  replicate 48 (-1) ++ [0; 1; 2; 3; 4; 5; 6; 7; 8; 9] ++ replicate 7 (-1) ++ [10; 11; 12; 13; 14; 15] ++ replicate 26 (-1) ++ [10; 11; 12; 13; 14; 15] ++ replicate 153 (-1).
Definition HexDigit (c : Z) : Z := nth (Z.to_nat c) p_util_hexdigit (-1).
Definition IsHex (s : list Z) : bool :=
  forallb (λ c, 0 <=? HexDigit c) s && (negb (length s =? 0)%nat && (length s mod 2 =? 0)%nat).
Fixpoint ParseHex (s : list Z) : list Z :=
  match s with
  | [] => []
  | c :: s =>
      if isspace c then ParseHex s
      else if HexDigit c =? -1 then []
      else match s with
           | [] => []
           | d :: s => if HexDigit d =? -1 then [] else Z.lor (u8 (Z.shiftl (HexDigit c) 4)) (HexDigit d) :: ParseHex s
           end
  end.
Definition hexmap : list Z := Eval vm_compute in chars "0123456789abcdef".
Definition hex_byte (v : Z) : list Z := [nth (Z.to_nat (Z.shiftr v 4)) hexmap 0; nth (Z.to_nat (Z.land v 15)) hexmap 0].
Definition HexStr (l : list Z) (fSpaces : bool) : list Z :=
  match l with
  | [] => []
  | v :: l => hex_byte v ++ flat_map (λ v, (if fSpaces then [32] else []) ++ hex_byte v) l
  end.
(** Without the trailing zero bytes. *)
Fixpoint FindFirstNonZero (l : list Z) : list Z := match l with [] => [] | v :: l' => if v =? 0 then FindFirstNonZero l' else l end.
Definition HexStrTrimmed (l : list Z) (fSpaces : bool) : list Z := HexStr (rev (FindFirstNonZero (rev l))) fSpaces.
(** [None] is the exception of [substr] for an odd length. *)
Fixpoint ReverseEndianString (s : list Z) : option (list Z) :=
  match s with
  | [] => Some []
  | [_] => None
  | a :: b :: s => r ← ReverseEndianString s; Some (r ++ [a; b])
  end.
(** The loop goes over the first argument; the second one is read cyclically. *)
Definition TimingResistantEqual (a b : list Z) : bool :=
  if (length b =? 0)%nat then (length a =? 0)%nat
  else
    let accumulator := foldl (λ acc i, Z.lor acc (Z.lxor (nth i a 0) (nth (i mod length b) b 0)))
                         (Z.lxor (Z.of_nat (length a)) (Z.of_nat (length b))) (seq 0 (length a)) in
    accumulator =? 0.

(** ** Conversion between bases that are powers of two *)

(** The inner loop: the groups that are complete, and how many bits are left. *)
Fixpoint emit (k : nat) (tobits : Z) (acc bits : Z) : list Z * Z :=
  match k with
  | O => ([], bits)
  | S k =>
      if tobits <=? bits then
        let bits := bits - tobits in
        let '(out, bits') := emit k tobits acc bits in
        (Z.land (Z.shiftr acc bits) (Z.ones tobits) :: out, bits')
      else ([], bits)
  end.
Fixpoint convert_loop (frombits tobits : Z) (l : list Z) (acc bits : Z) : list Z * Z * Z :=
  match l with
  | [] => ([], acc, bits)
  | v :: l =>
      let acc := Z.land (Z.lor (u64 (Z.shiftl acc frombits)) v) (Z.ones (frombits + tobits - 1)) in
      let '(out, bits) := emit (Z.to_nat (bits + frombits)) tobits acc (bits + frombits) in
      let '(out', acc, bits) := convert_loop frombits tobits l acc bits in
      (out ++ out', acc, bits)
  end.
Definition ConvertBits (frombits tobits : Z) (pad : bool) (l : list Z) : list Z * bool :=
  let '(out, acc, bits) := convert_loop frombits tobits l 0 0 in
  let rest := Z.land (u64 (Z.shiftl acc (tobits - bits))) (Z.ones tobits) in
  if pad then (if negb (bits =? 0) then out ++ [rest] else out, true)
  else (out, negb ((frombits <=? bits) || negb (rest =? 0))).

Definition pbase64 : list Z := Eval vm_compute in chars "ABCDEFGHIJKLMNOPQRSTUVWXYZabcdefghijklmnopqrstuvwxyz0123456789+/".
Definition decode64_table : list Z := Eval vm_compute in
  replicate 43 (-1) ++ [62; -1; -1; -1; 63; 52; 53; 54; 55; 56; 57; 58; 59; 60; 61] ++ replicate 7 (-1) ++ [0; 1; 2; 3; 4; 5; 6; 7; 8; 9; 10; 11; 12; 13; 14; 15; 16; 17; 18; 19; 20; 21; 22; 23; 24; 25] ++ replicate 6 (-1) ++ [26; 27; 28; 29; 30; 31; 32; 33; 34; 35; 36; 37; 38; 39; 40; 41; 42; 43; 44; 45; 46; 47; 48; 49; 50; 51] ++ replicate 133 (-1).
Definition pbase32 : list Z := Eval vm_compute in chars "abcdefghijklmnopqrstuvwxyz234567".
Definition decode32_table : list Z := Eval vm_compute in
  replicate 50 (-1) ++ [26; 27; 28; 29; 30; 31] ++ replicate 9 (-1) ++ [0; 1; 2; 3; 4; 5; 6; 7; 8; 9; 10; 11; 12; 13; 14; 15; 16; 17; 18; 19; 20; 21; 22; 23; 24; 25] ++ replicate 6 (-1) ++ [0; 1; 2; 3; 4; 5; 6; 7; 8; 9; 10; 11; 12; 13; 14; 15; 16; 17; 18; 19; 20; 21; 22; 23; 24; 25] ++ replicate 133 (-1).

(** [while (str.size() % n) str += '=']. *)
Fixpoint fill (k n : nat) (s : list Z) : list Z :=
  match k with O => s | S k => if (length s mod n =? 0)%nat then s else fill k n (s ++ [61]) end.
Definition EncodeBase64 (l : list Z) : list Z := fill 4 4 (map (λ v, nth (Z.to_nat v) pbase64 0) (ConvertBits 8 6 true l).1).
Definition EncodeBase32 (l : list Z) : list Z := fill 8 8 (map (λ v, nth (Z.to_nat v) pbase32 0) (ConvertBits 8 5 true l).1).
(** The digits at the front, and what follows. *)
Fixpoint digits (table : list Z) (s : list Z) : list Z * list Z :=
  match s with
  | [] => ([], [])
  | c :: s' =>
      let x := nth (Z.to_nat c) table (-1) in
      if x =? -1 then ([], s) else let '(val, rest) := digits table s' in (x :: val, rest)
  end.
(** The body of both decoders: the bytes and [valid]. *)
Definition decode_base (table : list Z) (frombits : Z) (n : nat) (s : list Z) : list Z * bool :=
  let s := cstr s in
  let '(val, rest) := digits table s in
  let '(ret, valid) := ConvertBits frombits 8 false val in
  (ret, valid && forallb (λ c, c =? 61) rest && ((length s mod n =? 0)%nat && (length rest <? n)%nat)).
Definition DecodeBase64 (s : list Z) : list Z * bool := decode_base decode64_table 6 4 s.
Definition DecodeBase32 (s : list Z) : list Z * bool := decode_base decode32_table 5 8 s.

(** ** Digits of a base, from the most significant one *)

Section digits.
Context (B : Z) (HB : 1 < B).
Definition be_val (l : list Z) : Z := foldl (λ v d, v * B + d) 0 l.
Definition base_digits (l : list Z) : Prop := Forall (λ d, 0 <= d < B) l.

Lemma be_val_from l v : foldl (λ v d, v * B + d) v l = v * B ^ Z.of_nat (length l) + be_val l.
Proof.
  unfold be_val. revert v. induction l as [|d l IH]; intros v; cbn [foldl length]; [lia|]. rewrite IH, (IH (0 * B + d)).
  rewrite Nat2Z.inj_succ, Z.pow_succ_r by lia. ring.
Qed.
Lemma be_val_cons d l : be_val (d :: l) = d * B ^ Z.of_nat (length l) + be_val l.
Proof. unfold be_val at 1. cbn [foldl]. rewrite be_val_from. f_equal. Qed.
Lemma be_val_app l k : be_val (l ++ k) = be_val l * B ^ Z.of_nat (length k) + be_val k.
Proof. unfold be_val at 1. rewrite foldl_app. apply be_val_from. Qed.
Lemma be_val_snoc l d : be_val (l ++ [d]) = be_val l * B + d.
Proof. rewrite be_val_app. cbn [length]. rewrite Z.pow_1_r. unfold be_val at 2. cbn. lia. Qed.
Lemma be_val_range l : base_digits l → 0 <= be_val l < B ^ Z.of_nat (length l).
Proof.
  induction l as [|d l IH] using rev_ind; intros H; [cbn; lia|]. apply Forall_app in H as [Hl Hd]. apply Forall_cons in Hd as [Hd _]. specialize (IH Hl).
  rewrite be_val_snoc, length_app. cbn [length]. rewrite Nat2Z.inj_add, Z.pow_add_r, Z.pow_1_r by lia. nia.
Qed.
Lemma be_val_inj l k : base_digits l → base_digits k → length l = length k → be_val l = be_val k → l = k.
Proof.
  revert k. induction l as [|d l IH] using rev_ind; intros k Hl Hk E Ev; [by destruct k|]. destruct k as [|e k _] using rev_ind; [rewrite length_app in E; cbn in E; lia|].
  apply Forall_app in Hl as [Hl Hd]. apply Forall_cons in Hd as [Hd _]. apply Forall_app in Hk as [Hk He]. apply Forall_cons in He as [He _].
  rewrite !be_val_snoc in Ev. rewrite !length_app in E. cbn [length] in E.
  assert (d = e) as -> by (rewrite <- (Z.mod_small d B), <- (Z.mod_small e B), <- (Z.mod_add d (be_val l) B), <- (Z.mod_add e (be_val k) B) by lia; f_equal; lia).
  f_equal. apply IH; [done|done|lia|nia].
Qed.
Lemma be_val_zeroes n l : be_val (replicate n 0 ++ l) = be_val l.
Proof. induction n as [|n IH]; cbn [replicate app]; [done|]. rewrite be_val_cons, IH. lia. Qed.
End digits.

(** ** Conversion of bits *)

Section bits.
Context (f t : Z) (Hf : 1 <= f <= 8) (Ht : 1 <= t <= 8).

Lemma land_ones_shiftr acc b : 0 <= b → Z.land (Z.shiftr acc b) (Z.ones t) = acc / 2 ^ b mod 2 ^ t.
Proof. intros Hb. by rewrite Z.land_ones, Z.shiftr_div_pow2 by lia. Qed.
(** The inner loop splits off the complete groups. *)
Lemma emit_spec k acc bits : 0 <= bits → (Z.to_nat bits <= k)%nat → ∃ out, emit k t acc bits = (out, bits mod t) ∧ Z.of_nat (length out) = bits / t ∧
  base_digits (2 ^ t) out ∧ be_val (2 ^ t) out = acc mod 2 ^ bits / 2 ^ (bits mod t).
Proof.
  revert bits. induction k as [|k IH]; intros bits Hb Hk; cbn [emit].
  - assert (bits = 0) as -> by lia. exists []. rewrite Z.mod_0_l, Z.div_0_l, Z.pow_0_r, Z.mod_1_r by lia. split_and!; [done|done|constructor|done].
  - destruct (Z.leb_spec t bits) as [H|H].
    + destruct (IH (bits - t) ltac:(lia) ltac:(lia)) as (out & E & El & Hd & Ev).
      assert ((bits - t) mod t = bits mod t) as Em by (rewrite <- (Z.mod_add (bits - t) 1 t) by lia; f_equal; lia).
      assert ((bits - t) / t = bits / t - 1) as Eq by (pose proof (Z.div_add (bits - t) 1 t ltac:(lia)); replace (bits - t + 1 * t) with bits in * by lia; lia).
      rewrite E, Em. exists (Z.land (Z.shiftr acc (bits - t)) (Z.ones t) :: out). split; [done|]. rewrite land_ones_shiftr by lia. cbn [length]. split; [lia|].
      split; [constructor; [apply Z.mod_pos_bound; lia|done]|]. rewrite be_val_cons by lia. rewrite Ev, Em, El, Eq, <- Z.pow_mul_r by (try apply Z.div_pos; lia).
      pose proof (Z.div_mod bits t ltac:(lia)) as Ebits. pose proof (Z.mod_pos_bound bits t ltac:(lia)) as Hbm. set (r := bits mod t) in *. assert (0 <= bits / t - 1) by (assert (1 <= bits / t) by (apply Z.div_le_lower_bound; lia); lia).
      assert (acc mod 2 ^ bits = acc / 2 ^ (bits - t) mod 2 ^ t * 2 ^ (t * (bits / t - 1)) * 2 ^ r + acc mod 2 ^ (bits - t)) as ->; [|rewrite <- Z.mul_assoc, (Z.mul_comm _ (2 ^ r)), Z.mul_assoc, Z.mul_shuffle0, Z.div_add_l by lia; done].
      rewrite <- Z.mul_assoc, <- Z.pow_add_r by nia. replace (t * (bits / t - 1) + r) with (bits - t) by lia.
      replace (2 ^ bits) with (2 ^ (bits - t) * 2 ^ t) by (rewrite <- Z.pow_add_r by lia; f_equal; lia). rewrite Z.rem_mul_r by lia. lia.
    + exists []. rewrite Z.mod_small, Z.div_small by lia. split_and!; [done|done|constructor|]. cbn. symmetry. apply Z.div_small, Z.mod_pos_bound. lia.
Qed.

Lemma mod_pow_pow x a b : 0 <= a <= b → (x mod 2 ^ b) mod 2 ^ a = x mod 2 ^ a.
Proof. intros H. apply Z.mod_mod_divide. exists (2 ^ (b - a)). rewrite <- Z.pow_add_r by lia. f_equal. lia. Qed.
Lemma acc_step acc v bits : 0 <= acc < 2 ^ (f + t - 1) → 0 <= v < 2 ^ f → 0 <= bits < t →
  let acc' := Z.land (Z.lor (u64 (Z.shiftl acc f)) v) (Z.ones (f + t - 1)) in
  0 <= acc' < 2 ^ (f + t - 1) ∧ acc' mod 2 ^ (bits + f) = acc mod 2 ^ bits * 2 ^ f + v.
Proof.
  intros Ha Hv Hb acc'. subst acc'. rewrite Z.land_ones, Z.shiftl_mul_pow2 by lia. split; [apply Z.mod_pos_bound; lia|].
  assert (2 ^ (f + t - 1) * 2 ^ f < 2 ^ 64) by (rewrite <- Z.pow_add_r by lia; apply Z.pow_lt_mono_r; lia).
  assert (0 < 2 ^ f) by lia. unfold u64. rewrite (Z.mod_small (acc * 2 ^ f)) by nia.
  rewrite Z.lor_comm, <- (Z.shiftl_mul_pow2 acc f), lor_add_shift, mod_pow_pow by lia.
  pose proof (Z.mod_pos_bound acc (2 ^ bits) ltac:(lia)). rewrite (Z.div_mod acc (2 ^ bits)) at 1 by lia.
  replace (v + (2 ^ bits * (acc / 2 ^ bits) + acc mod 2 ^ bits) * 2 ^ f) with (acc mod 2 ^ bits * 2 ^ f + v + acc / 2 ^ bits * 2 ^ (bits + f)) by (rewrite Z.pow_add_r by lia; ring).
  rewrite Z.mod_add by lia. apply Z.mod_small. rewrite Z.pow_add_r by lia. nia.
Qed.
Lemma convert_loop_spec l acc bits : base_digits (2 ^ f) l → 0 <= acc < 2 ^ (f + t - 1) → 0 <= bits < t → ∃ out acc' bits',
  convert_loop f t l acc bits = (out, acc', bits') ∧ base_digits (2 ^ t) out ∧ 0 <= acc' < 2 ^ (f + t - 1) ∧ 0 <= bits' < t ∧
  bits + f * Z.of_nat (length l) = t * Z.of_nat (length out) + bits' ∧
  be_val (2 ^ t) out * 2 ^ bits' + acc' mod 2 ^ bits' = acc mod 2 ^ bits * 2 ^ (f * Z.of_nat (length l)) + be_val (2 ^ f) l.
Proof.
  revert acc bits. induction l as [|v l IH]; intros acc bits Hl Ha Hb; cbn [convert_loop].
  - exists [], acc, bits. cbn [length]. rewrite Z.mul_0_r. split_and!; [done|by apply Forall_nil|lia..|cbn; lia].
  - apply Forall_cons in Hl as [Hv Hl]. destruct (acc_step acc v bits Ha Hv Hb) as [Ha1 E1]. set (acc1 := Z.land _ _) in *. clearbody acc1.
    destruct (emit_spec (Z.to_nat (bits + f)) acc1 (bits + f) ltac:(lia) ltac:(lia)) as (out1 & -> & El1 & Hd1 & Ev1). rewrite E1 in Ev1.
    pose proof (Z.mod_pos_bound (bits + f) t ltac:(lia)) as Hb1. pose proof (Z.div_mod (bits + f) t ltac:(lia)) as Eb1. pose proof (Z.mod_le (bits + f) t ltac:(lia) ltac:(lia)). set (b1 := (bits + f) mod t) in *.
    destruct (IH acc1 b1 Hl Ha1 Hb1) as (out2 & acc2 & b2 & -> & Hd2 & Ha2 & Hb2 & El2 & Ev2).
    exists (out1 ++ out2), acc2, b2. split; [done|]. split; [by apply Forall_app|]. split_and!; [lia|lia|lia|lia|rewrite length_app; cbn [length]; nia|].
    rewrite be_val_app, be_val_cons, Ev1 by lia. rewrite <- (mod_pow_pow acc1 b1 (bits + f)), E1 in Ev2 by lia. set (X := acc mod 2 ^ bits * 2 ^ f + v) in *. set (L := Z.of_nat (length l)) in *. cbn [length]. rewrite Nat2Z.inj_succ. fold L.
    assert (0 <= L) by lia. replace (acc mod 2 ^ bits * 2 ^ (f * Z.succ L) + (v * (2 ^ f) ^ L + be_val (2 ^ f) l)) with (X * 2 ^ (f * L) + be_val (2 ^ f) l) by (unfold X; rewrite <- Z.pow_mul_r, Z.mul_succ_r, Z.pow_add_r by lia; ring).
    rewrite (Z.div_mod X (2 ^ b1)) at 2 by lia. rewrite <- Z.pow_mul_r by lia. transitivity (X / 2 ^ b1 * 2 ^ (b1 + f * L) + (X mod 2 ^ b1 * 2 ^ (f * L) + be_val (2 ^ f) l)); [|rewrite Z.pow_add_r by lia; ring].
    rewrite El2, <- Ev2, Z.pow_add_r by lia. ring.
Qed.
End bits.

(** Bytes that are converted to groups of fewer bits, with padding, are
    recovered without. *)
Lemma ConvertBits_encode t l : 1 <= t <= 8 → bytes l → ∃ out pad, ConvertBits 8 t true l = (out, true) ∧ base_digits (2 ^ t) out ∧ 0 <= pad < t ∧
  8 * Z.of_nat (length l) + pad = t * Z.of_nat (length out) ∧ be_val (2 ^ t) out = be_val (2 ^ 8) l * 2 ^ pad.
Proof.
  intros Ht Hl. destruct (convert_loop_spec 8 t ltac:(lia) Ht l 0 0 Hl ltac:(lia) ltac:(lia)) as (out & acc & bits & E & Hd & Ha & Hb & El & Ev). unfold ConvertBits. rewrite E.
  rewrite Zmod_0_l, Z.mul_0_l, Z.add_0_l in Ev. rewrite Z.add_0_l in El. destruct (Z.eqb_spec bits 0) as [->|Hn]; cbn [negb].
  - exists out, 0. rewrite Z.pow_0_r, Z.mod_1_r in Ev. split_and!; [done|done|lia|lia|lia|lia].
  - assert (2 ^ (8 + t - 1) * 2 ^ (t - bits) < 2 ^ 64) by (rewrite <- Z.pow_add_r by lia; apply Z.pow_lt_mono_r; lia). assert (0 < 2 ^ (t - bits)) by lia.
    assert (Z.land (u64 (Z.shiftl acc (t - bits))) (Z.ones t) = acc mod 2 ^ bits * 2 ^ (t - bits)) as ->.
    { rewrite Z.land_ones, Z.shiftl_mul_pow2 by lia. unfold u64. rewrite (Z.mod_small (acc * _)) by nia. replace (2 ^ t) with (2 ^ bits * 2 ^ (t - bits)) by (rewrite <- Z.pow_add_r by lia; f_equal; lia). by rewrite Z.mul_mod_distr_r by lia. }
    pose proof (Z.mod_pos_bound acc (2 ^ bits) ltac:(lia)). assert (2 ^ bits * 2 ^ (t - bits) = 2 ^ t) as Ep by (rewrite <- Z.pow_add_r by lia; f_equal; lia).
    exists (out ++ [acc mod 2 ^ bits * 2 ^ (t - bits)]), (t - bits). split; [done|]. split; [apply Forall_app; split; [done|]; apply Forall_singleton; nia|]. rewrite length_app. cbn [length]. split_and!; [lia|lia|lia|].
    rewrite be_val_snoc by lia. rewrite <- Ev, <- Ep. ring.
Qed.
Lemma ConvertBits_decode f l out pad : 1 <= f <= 8 → base_digits (2 ^ f) out → bytes l → 0 <= pad < f → 8 * Z.of_nat (length l) + pad = f * Z.of_nat (length out) → be_val (2 ^ f) out = be_val (2 ^ 8) l * 2 ^ pad →
  ConvertBits f 8 false out = (l, true).
Proof.
  intros Hf Hd Hl Hp El Ev. destruct (convert_loop_spec f 8 Hf ltac:(lia) out 0 0 Hd ltac:(lia) ltac:(lia)) as (k & acc & bits & E & Hk & Ha & Hb & Ek & Evk). unfold ConvertBits. rewrite E.
  rewrite Zmod_0_l, Z.mul_0_l, Z.add_0_l, Ev in Evk. rewrite Z.add_0_l in Ek. assert (bits = pad ∧ length k = length l) as [-> Elen] by lia.
  pose proof (Z.mod_pos_bound acc (2 ^ pad) ltac:(lia)). assert (be_val (2 ^ 8) k = be_val (2 ^ 8) l ∧ acc mod 2 ^ pad = 0) as [Ekl Er].
  { set (P := 2 ^ pad) in *. assert (0 < P) by lia. set (r := acc mod P) in *. clearbody r P. destruct (Z.lt_total (be_val (2 ^ 8) k) (be_val (2 ^ 8) l)) as [?|[?|?]]; nia. }
 
  f_equal; [by apply (be_val_inj (2 ^ 8))|]. assert (2 ^ (f + 8 - 1) * 2 ^ (8 - pad) < 2 ^ 64) by (rewrite <- Z.pow_add_r by lia; apply Z.pow_lt_mono_r; lia). assert (0 < 2 ^ (8 - pad)) by lia.
  assert (Z.land (u64 (Z.shiftl acc (8 - pad))) (Z.ones 8) = 0) as ->; [|destruct (Z.leb_spec f pad); [lia|done]].
  rewrite Z.land_ones, Z.shiftl_mul_pow2 by lia. unfold u64. rewrite (Z.mod_small (acc * _)) by nia.
  replace (2 ^ 8) with (2 ^ pad * 2 ^ (8 - pad)) by (rewrite <- Z.pow_add_r by lia; f_equal; lia). rewrite Z.mul_mod_distr_r by lia. lia.
Qed.
Lemma ConvertBits_roundtrip t l : 1 <= t <= 8 → bytes l → ConvertBits t 8 false (ConvertBits 8 t true l).1 = (l, true).
Proof. intros Ht Hl. destruct (ConvertBits_encode t l Ht Hl) as (out & pad & -> & Hd & Hp & El & Ev). by apply (ConvertBits_decode t l out pad). Qed.

(** ** Base 64 and base 32 *)

Lemma fill_spec k n s : (1 < n)%nat → (length s mod n = 0 ∨ n - length s mod n <= k)%nat →
  ∃ p, fill k n s = s ++ replicate p 61 ∧ (p < n)%nat ∧ ((length s + p) mod n = 0)%nat.
Proof.
  intros Hn. revert s. induction k as [|k IH]; intros s Hk; cbn [fill].
  - exists O. rewrite app_nil_r, Nat.add_0_r. pose proof (Nat.mod_upper_bound (length s) n ltac:(lia)). split_and!; [done|lia|lia].
  - destruct (Nat.eqb_spec (length s mod n) 0) as [E|E]; [exists O; rewrite app_nil_r, Nat.add_0_r; split_and!; [done|lia|done]|].
    pose proof (Nat.mod_upper_bound (length s) n ltac:(lia)) as Hm. pose proof (Nat.div_mod_eq (length s) n) as Es.
    assert (length (s ++ [61]) = (length s + 1)%nat) as El by (by rewrite length_app).
    destruct (decide (length s mod n + 1 = n)%nat) as [En|En].
    + assert (((length s + 1) mod n)%nat = 0%nat) as E0 by (rewrite Es; replace (n * (length s / n) + length s mod n + 1)%nat with ((length s / n + 1) * n)%nat by lia; apply Nat.Div0.mod_mul).
      exists 1%nat. split_and!; [|lia|done]. destruct k; cbn [fill]; [done|]. by rewrite El, E0.
    + assert (((length s + 1) mod n)%nat = (length s mod n + 1)%nat) as E1 by (rewrite <- Nat.Div0.add_mod_idemp_l; apply Nat.mod_small; lia).
      destruct (IH (s ++ [61])) as (p & Ep & Hp & Hmod); [right; rewrite El, E1; lia|]. rewrite El in Hmod.
      exists (S p). rewrite Ep, <- app_assoc. cbn [replicate app]. replace (length s + S p)%nat with (length s + 1 + p)%nat by lia. split_and!; [done| |done].
      destruct (decide (S p = n)) as [<-|]; [|lia]. exfalso. replace (length s + 1 + p)%nat with (length s + 1 * S p)%nat in Hmod by lia. rewrite Nat.Div0.mod_add in Hmod. done.
Qed.
Section tables.
Context (enc_table table : list Z) (f : Z) (n : nat) (Hf : 1 <= f <= 8) (Hn : (1 < n)%nat).
Hypothesis inverse : ∀ v, 0 <= v < 2 ^ f → nth (Z.to_nat (nth (Z.to_nat v) enc_table 0)) table (-1) = v ∧ nth (Z.to_nat v) enc_table 0 ≠ 0.
Hypothesis no_digit : nth 61 table (-1) = -1.
Lemma digits_spec out p : base_digits (2 ^ f) out → digits table (map (λ v, nth (Z.to_nat v) enc_table 0) out ++ replicate p 61) = (out, replicate p 61).
Proof.
  induction out as [|v out IH]; intros H; cbn [map app digits].
  - destruct p; cbn [replicate digits]; [done|]. change (Z.to_nat 61) with 61%nat. by rewrite no_digit.
  - apply Forall_cons in H as [Hv H]. destruct (inverse v Hv) as [-> _]. destruct (Z.eqb_spec v (-1)); [lia|]. by rewrite IH.
Qed.
Lemma cstr_id s : Forall (λ c, c ≠ 0) s → cstr s = s.
Proof. induction 1 as [|c s Hc Hs IH]; cbn [cstr]; [done|]. destruct (Z.eqb_spec c 0); [done|]. by rewrite IH. Qed.
Lemma decode_base_spec l : bytes l → decode_base table f n (fill n n (map (λ v, nth (Z.to_nat v) enc_table 0) (ConvertBits 8 f true l).1)) = (l, true).
Proof.
  intros Hl. pose proof (ConvertBits_roundtrip f l Hf Hl) as Hrt. destruct (ConvertBits_encode f l Hf Hl) as (out & pad & E & Hd & _). rewrite E in *. cbn [fst] in *.
  set (s := map _ out). destruct (fill_spec n n s Hn ltac:(lia)) as (p & -> & Hp & Hm). unfold decode_base.
  rewrite cstr_id; [|apply Forall_app; split; [apply Forall_map; eapply Forall_impl; [exact Hd|]; intros v Hv; apply (inverse v Hv)|apply Forall_replicate; lia]].
  unfold s at 1. rewrite (digits_spec out p Hd), Hrt, length_app, length_replicate. f_equal. apply andb_true_iff. split; [apply andb_true_iff; split; [done|]; clear; by induction p|].
  apply andb_true_iff. split; [by apply Nat.eqb_eq|by apply Nat.ltb_lt].
Qed.
End tables.

(** A finite range is checked by computation. *)
Lemma below_check (P : Z → bool) (n : nat) : forallb (λ k, P (Z.of_nat k)) (seq 0 n) = true → ∀ v, 0 <= v < Z.of_nat n → P v = true.
Proof. intros H v Hv. rewrite forallb_forall in H. specialize (H (Z.to_nat v)). rewrite Z2Nat.id in H by lia. apply H, in_seq. lia. Qed.

Lemma base64_roundtrip l : bytes l → DecodeBase64 (EncodeBase64 l) = (l, true).
Proof.
  apply decode_base_spec; [lia|lia| |done]. intros v Hv.
  assert ((nth (Z.to_nat (nth (Z.to_nat v) pbase64 0)) decode64_table (-1) =? v) && negb (nth (Z.to_nat v) pbase64 0 =? 0) = true) as H; [|lia].
  revert v Hv. apply (below_check _ 64). vm_compute. done.
Qed.
Lemma base32_roundtrip l : bytes l → DecodeBase32 (EncodeBase32 l) = (l, true).
Proof.
  apply decode_base_spec; [lia|lia| |done]. intros v Hv.
  assert ((nth (Z.to_nat (nth (Z.to_nat v) pbase32 0)) decode32_table (-1) =? v) && negb (nth (Z.to_nat v) pbase32 0 =? 0) = true) as H; [|lia].
  revert v Hv. apply (below_check _ 32). vm_compute. done.
Qed.

(** ** Hexadecimal *)

Lemma hex_byte_parses v s : 0 <= v < 256 → ParseHex (hex_byte v ++ s) = v :: ParseHex s.
Proof.
  intros Hv. unfold hex_byte. cbn [app ParseHex].
  assert (let a := nth (Z.to_nat (Z.shiftr v 4)) hexmap 0 in let b := nth (Z.to_nat (Z.land v 15)) hexmap 0 in
    negb (isspace a) && negb (HexDigit a =? -1) && negb (HexDigit b =? -1) && (Z.lor (u8 (Z.shiftl (HexDigit a) 4)) (HexDigit b) =? v) = true) as H by (revert v Hv; apply (below_check _ 256); vm_compute; done).
  cbv zeta in H. rewrite !andb_true_iff, !negb_true_iff in H. destruct H as [[[-> ->] ->] E]. apply Z.eqb_eq in E. by rewrite E.
Qed.
Lemma hex_roundtrip l b : bytes l → ParseHex (HexStr l b) = l.
Proof.
  intros H. unfold HexStr. destruct l as [|v l]; [done|]. apply Forall_cons in H as [Hv H]. rewrite hex_byte_parses by done. f_equal.
  induction H as [|w l Hw H IH]; cbn [flat_map]; [done|]. rewrite <- app_assoc. destruct b; cbn [app ParseHex isspace]; rewrite hex_byte_parses by done; f_equal; exact IH.
Qed.
Lemma HexStr_IsHex l : bytes l → l ≠ [] → IsHex (HexStr l false) = true.
Proof.
  intros H Hl. assert (∀ v, 0 <= v < 256 → forallb (λ c, 0 <=? HexDigit c) (hex_byte v) = true) as Hb by (apply (below_check _ 256); vm_compute; done).
  assert (∀ k, bytes k → let s := flat_map hex_byte k in forallb (λ c, 0 <=? HexDigit c) s = true ∧ length s = (2 * length k)%nat) as Hk.
  { induction 1 as [|v k Hv Hk [IH1 IH2]]; [done|]. cbn [flat_map length] in *. rewrite forallb_app, IH1, Hb, length_app, IH2 by done. split; [done|]. cbn. lia. }
  unfold IsHex, HexStr. destruct l as [|v l]; [done|]. apply Forall_cons in H as [Hv H]. destruct (Hk l H) as [E1 E2]. cbn [app]. change (λ v0, hex_byte v0) with hex_byte. rewrite forallb_app, Hb, E1, length_app by done. cbn [andb]. rewrite E2.
  replace (length (hex_byte v) + 2 * length l)%nat with ((1 + length l) * 2)%nat by (cbn; lia). rewrite Nat.Div0.mod_mul. by destruct (length l).
Qed.

Lemma TimingResistantEqual_spec a b : bytes a → bytes b → TimingResistantEqual a b = bool_decide (a = b).
Proof.
  intros Ha Hb. unfold TimingResistantEqual. destruct (Nat.eqb_spec (length b) 0) as [E0|E0].
  { destruct b; [|done]. destruct a; done. }
  set (g := λ acc i, _). assert (∀ l acc, foldl g acc l = 0 ↔ acc = 0 ∧ ∀ i, i ∈ l → nth i a 0 = nth (i mod length b) b 0) as Hg.
  { induction l as [|i l IH]; intros acc; cbn [foldl]; [set_solver|]. rewrite IH. unfold g. rewrite Z.lor_eq_0_iff, Z.lxor_eq_0_iff. set_solver. }
  apply eq_iff_eq_true. rewrite Z.eqb_eq, bool_decide_eq_true, Hg, Z.lxor_eq_0_iff. split.
  - intros [El H]. apply (nth_ext _ _ 0 0); [lia|]. intros i Hi. rewrite H by (apply elem_of_seq; lia). f_equal. apply Nat.mod_small. lia.
  - intros ->. split; [done|]. intros i Hi%elem_of_seq. f_equal. symmetry. apply Nat.mod_small. lia.
Qed.

(** ** Decimal numbers *)

(** [%d]: the digits of a number below [10 ^ (k + 1)]. *)
Fixpoint print_dec (k : nat) (n : Z) : list Z :=
  match k with O => [48 + n] | S k => if n <? 10 then [48 + n] else print_dec k (n / 10) ++ [48 + n mod 10] end.
Definition i64tostr (n : Z) : list Z := if n <? 0 then 45 :: print_dec 20 (- n) else print_dec 20 n.
(** [%08d] of a number that is not negative. *)
Definition print_dec8 (n : Z) : list Z := replicate (8 - length (print_dec 20 n)) 48 ++ print_dec 20 n.
(** The value of a string of digits. *)
Definition dec_val (s : list Z) : Z := be_val 10 (map (λ c, c - 48) s).
Fixpoint skip_spaces (s : list Z) : list Z := match s with [] => [] | c :: s' => if isspace c then skip_spaces s' else s end.
Fixpoint span_digits (s : list Z) : list Z * list Z :=
  match s with [] => ([], []) | c :: s' => if IsDigit c then let '(ds, rest) := span_digits s' in (c :: ds, rest) else ([], s) end.
(** [strtoll] in base 10: the number, where it ends, and whether [errno] is set. *)
Definition strtoll (s : list Z) : Z * list Z * bool :=
  let '(neg, s1) := match skip_spaces s with c :: s1 => if c =? 45 then (true, s1) else if c =? 43 then (false, s1) else (false, c :: s1) | [] => (false, []) end in
  let '(ds, rest) := span_digits s1 in
  match ds with
  | [] => (0, s, false)
  | _ =>
      let v := if (neg : bool) then - dec_val ds else dec_val ds in
      if v <? - 2 ^ 63 then (- 2 ^ 63, rest, true) else if 2 ^ 63 - 1 <? v then (2 ^ 63 - 1, rest, true) else (v, rest, false)
  end.
Definition atoi64 (s : list Z) : Z := (strtoll (cstr s)).1.1.
Definition ParsePrechecks (s : list Z) : bool :=
  match s with
  | [] => false
  | c :: _ => if isspace c || isspace (List.last s 0) then false else (length s =? length (cstr s))%nat
  end.
Definition ParseInt64 (s : list Z) : option Z :=
  if negb (ParsePrechecks s) then None
  else let '(n, endp, errno) := strtoll (cstr s) in if (length endp =? 0)%nat && negb errno then Some n else None.
Definition ParseInt32 (s : list Z) : option Z :=
  if negb (ParsePrechecks s) then None
  else let '(n, endp, errno) := strtoll (cstr s) in
       if (length endp =? 0)%nat && negb errno && (- 2 ^ 31 <=? n) && (n <=? 2 ^ 31 - 1) then Some n else None.

(** ** Amounts *)

Definition CENT : Z := 1000000.
(** Erasing zeros at the end, on the reversed string. *)
Fixpoint trim (r : list Z) : list Z :=
  match r with
  | x :: ((_ :: z :: _) as r') => if (x =? 48) && IsDigit z then trim r' else r
  | _ => r
  end.
(** [FormatMoney]; the negation of the smallest number overflows. *)
Definition FormatMoney (n : Z) (fPlus : bool) : option (list Z) :=
  if n =? - 2 ^ 63 then None
  else
    let n_abs := if 0 <? n then n else - n in
    let quotient := n_abs / COIN in
    let remainder := n_abs mod COIN in
    let str := rev (trim (rev (print_dec 20 quotient ++ [46] ++ print_dec8 remainder))) in
    Some (if n <? 0 then 45 :: str else if fPlus && (0 <? n) then 43 :: str else str).
Fixpoint parse_units (s : list Z) (nMult nUnits : Z) : Z * list Z :=
  match s with
  | [] => (nUnits, [])
  | c :: s' => if IsDigit c && (0 <? nMult) then parse_units s' (nMult / 10) (nUnits + nMult * (c - 48)) else (nUnits, s)
  end.
(** The loop over the digits before the point: these, the units and the rest. *)
Fixpoint parse_whole (s : list Z) (strWhole : list Z) : option (list Z * Z * list Z) :=
  match s with
  | [] => Some (strWhole, 0, [])
  | c :: s' =>
      if c =? 46 then let '(nUnits, rest) := parse_units s' (CENT * 10) 0 in Some (strWhole, nUnits, rest)
      else if isspace c then Some (strWhole, 0, s)
      else if negb (IsDigit c) then None
      else parse_whole s' (strWhole ++ [c])
  end.
Definition ParseMoney (s : list Z) : option Z :=
  '(strWhole, nUnits, rest) ← parse_whole (skip_spaces (cstr s)) [];
  if negb (forallb isspace rest) then None
  else if (10 <? length strWhole)%nat then None
  else if (nUnits <? 0) || (COIN <? nUnits) then None
  else Some (i64 (i64 (atoi64 strWhole * COIN) + nUnits)).

(** ** Fixed point numbers *)

Definition UPPER_BOUND : Z := 1000000000000000000 - 1.
Fixpoint scale (k : nat) (mantissa : Z) : option Z :=
  match k with O => Some mantissa | S k => if UPPER_BOUND / 10 <? mantissa then None else scale k (mantissa * 10) end.
Definition ProcessMantissaDigit (ch mantissa : Z) (mantissa_tzeros : nat) : option (Z * nat) :=
  if ch =? 48 then Some (mantissa, S mantissa_tzeros)
  else m ← scale (S mantissa_tzeros) mantissa; Some (m + (ch - 48), O).
(** A run of digits of the mantissa, with the number of them. *)
Fixpoint mantissa_digits (s : list Z) (mantissa : Z) (mantissa_tzeros : nat) (count : Z) : option (Z * nat * Z * list Z) :=
  match s with
  | [] => Some (mantissa, mantissa_tzeros, count, [])
  | c :: s' =>
      if IsDigit c then '(m, tz) ← ProcessMantissaDigit c mantissa mantissa_tzeros; mantissa_digits s' m tz (count + 1)
      else Some (mantissa, mantissa_tzeros, count, s)
  end.
Fixpoint exponent_digits (s : list Z) (exponent : Z) : option (Z * list Z) :=
  match s with
  | [] => Some (exponent, [])
  | c :: s' =>
      if IsDigit c then if UPPER_BOUND / 10 <? exponent then None else exponent_digits s' (exponent * 10 + c - 48)
      else Some (exponent, s)
  end.
(** The digits before the point, the ones after it, and the exponent. *)
Definition parse_integer (s : list Z) : option (Z * nat * list Z) :=
  match s with
  | [] => None
  | c :: s' =>
      if c =? 48 then Some (0, O, s')
      else if (49 <=? c) && (c <=? 57) then '(m, tz, _, rest) ← mantissa_digits s 0 O 0; Some (m, tz, rest)
      else None
  end.
Definition parse_fraction (s : list Z) (m : Z) (tz : nat) : option (Z * nat * Z * list Z) :=
  match s with
  | c :: s' =>
      if c =? 46 then match s' with d :: _ => if IsDigit d then mantissa_digits s' m tz 0 else None | [] => None end
      else Some (m, tz, 0, s)
  | [] => Some (m, tz, 0, s)
  end.
Definition parse_exponent (s : list Z) : option (Z * list Z) :=
  match s with
  | c :: s1 =>
      if (c =? 101) || (c =? 69) then
        let '(exponent_sign, s2) := match s1 with d :: s2 => if d =? 43 then (false, s2) else if d =? 45 then (true, s2) else (false, s1) | [] => (false, s1) end in
        match s2 with
        | d :: _ => if IsDigit d then '(e, rest) ← exponent_digits s2 0; Some (if (exponent_sign : bool) then - e else e, rest) else None
        | [] => None
        end
      else Some (0, s)
  | [] => Some (0, s)
  end.
Fixpoint scale_signed (k : nat) (mantissa : Z) : option Z :=
  match k with
  | O => Some mantissa
  | S k => if (UPPER_BOUND / 10 <? mantissa) || (mantissa <? - (UPPER_BOUND / 10)) then None else scale_signed k (mantissa * 10)
  end.
Definition ParseFixedPoint (val : list Z) (decimals : Z) : option Z :=
  let '(mantissa_sign, s) := match val with c :: s => if c =? 45 then (true, s) else (false, val) | [] => (false, val) end in
  '(m, tz, s) ← parse_integer s;
  '(m, tz, point_ofs, s) ← parse_fraction s m tz;
  '(e, s) ← parse_exponent s;
  match s with
  | _ :: _ => None
  | [] =>
      let exponent := e - point_ofs + Z.of_nat tz + decimals in
      let mantissa := if (mantissa_sign : bool) then - m else m in
      if exponent <? 0 then None else if 18 <=? exponent then None
      else
        v ← scale_signed (Z.to_nat exponent) mantissa;
        if (UPPER_BOUND <? v) || (v <? - UPPER_BOUND) then None else Some v
  end.
(** [ValueFromAmount] and [AmountFromValue] of the RPC interface; the latter
    throws outside the range of money. *)
Definition ValueFromAmount (amount : Z) : list Z :=
  let sign := amount <? 0 in
  let n_abs := if sign then - amount else amount in
  (if sign then [45] else []) ++ print_dec 20 (n_abs / COIN) ++ [46] ++ print_dec8 (n_abs mod COIN).
Definition AmountFromValue (p : Params) (value : list Z) : option Z :=
  n ← ParseFixedPoint value 8; if MoneyRange p n then Some n else None.

Definition all_digits (s : list Z) : Prop := Forall (λ c, 48 <= c <= 57) s.
Lemma IsDigit_true c : 48 <= c <= 57 → IsDigit c = true.
Proof. unfold IsDigit. lia. Qed.
Lemma dec_val_snoc s c : dec_val (s ++ [c]) = dec_val s * 10 + (c - 48).
Proof. unfold dec_val. rewrite map_app. apply be_val_snoc. Qed.
Lemma dec_val_app s k : dec_val (s ++ k) = dec_val s * 10 ^ Z.of_nat (length k) + dec_val k.
Proof. unfold dec_val. rewrite map_app, be_val_app by lia. by rewrite length_map. Qed.
Lemma dec_val_nil : dec_val [] = 0.
Proof. done. Qed.
Lemma dec_val_zeroes n : dec_val (replicate n 48) = 0.
Proof. unfold dec_val. induction n as [|n IH]; [done|]. cbn [replicate map]. rewrite be_val_cons, IH by lia. lia. Qed.
Lemma dec_val_range s : all_digits s → 0 <= dec_val s < 10 ^ Z.of_nat (length s).
Proof. intros H. unfold dec_val. rewrite <- (length_map (λ c, c - 48) s). apply be_val_range; [lia|]. apply Forall_map. eapply Forall_impl; [exact H|]. cbn. lia. Qed.
(** Printed digits have the value of the number, and no leading zero. *)
Lemma print_dec_spec k n : 0 <= n < 10 ^ Z.of_nat (S k) → all_digits (print_dec k n) ∧ dec_val (print_dec k n) = n ∧ (1 <= length (print_dec k n) <= S k)%nat ∧ (∀ m, 1 <= Z.of_nat m → n < 10 ^ Z.of_nat m → (length (print_dec k n) <= m)%nat) ∧
  (n = 0 ∧ print_dec k n = [48] ∨ 0 < n ∧ ∃ c s, print_dec k n = c :: s ∧ 49 <= c <= 57).
Proof.
  revert n. induction k as [|k IH]; intros n Hn; cbn [print_dec].
  - change (10 ^ Z.of_nat 1) with 10 in Hn. split_and!; [apply Forall_singleton; lia|unfold dec_val, be_val; cbn [map foldl]; lia|cbn; lia|cbn; lia|cbn; intros; lia|]. destruct (decide (n = 0)) as [->|]; [by left|right; split; [lia|]; exists (48 + n), []; split; [done|lia]].
  - destruct (Z.ltb_spec n 10) as [H|H].
    + split_and!; [apply Forall_singleton; lia|unfold dec_val, be_val; cbn [map foldl]; lia|cbn; lia|cbn; lia|cbn; intros; lia|]. destruct (decide (n = 0)) as [->|]; [by left|right; split; [lia|]; exists (48 + n), []; split; [done|lia]].
    + pose proof (Z.div_mod n 10 ltac:(lia)). pose proof (Z.mod_pos_bound n 10 ltac:(lia)). rewrite Nat2Z.inj_succ, Z.pow_succ_r in Hn by lia.
      destruct (IH (n / 10)) as (Hd & Ev & [Hl1 Hl2] & Hm & Hc); [split; [apply Z.div_pos; lia|apply Z.div_lt_upper_bound; lia]|].
      split_and!; [apply Forall_app; split; [done|]; apply Forall_singleton; lia|rewrite dec_val_snoc, Ev; lia|rewrite length_app; cbn; lia|rewrite length_app; cbn; lia| |].
      * intros m Hm1 Hnm. rewrite length_app. cbn [length]. destruct m as [|m]; [lia|]. rewrite Nat2Z.inj_succ, Z.pow_succ_r in Hnm by lia. destruct m as [|m]; [cbn in Hnm; lia|].
        specialize (Hm (S m) ltac:(lia)). assert (n / 10 < 10 ^ Z.of_nat (S m)) by (apply Z.div_lt_upper_bound; lia). lia.
      * right. split; [lia|]. destruct Hc as [[E0 _]|(_ & c & s & -> & Hc)]; [lia|]. exists c, (s ++ [48 + n mod 10]). done.
Qed.
Lemma print_dec8_spec n : 0 <= n < COIN → all_digits (print_dec8 n) ∧ dec_val (print_dec8 n) = n ∧ length (print_dec8 n) = 8%nat.
Proof.
  unfold COIN. intros Hn. destruct (print_dec_spec 20 n) as (Hd & Ev & Hl & Hm & _); [change (10 ^ Z.of_nat 21) with 1000000000000000000000; lia|]. specialize (Hm 8%nat ltac:(lia) ltac:(change (10 ^ Z.of_nat 8) with 100000000; lia)).
  unfold print_dec8. split_and!; [apply Forall_app; split; [apply Forall_replicate; lia|done]|rewrite dec_val_app, dec_val_zeroes, Ev; lia|rewrite length_app, length_replicate; lia].
Qed.
Lemma cstr_digits s : Forall (λ c, 0 < c) s → cstr s = s.
Proof. intros H. apply cstr_id. eapply Forall_impl; [exact H|]. cbn. lia. Qed.

(** ** Printed numbers are parsed back *)

Lemma span_digits_spec s k : all_digits s → match k with [] => True | c :: _ => IsDigit c = false end → span_digits (s ++ k) = (s, k).
Proof.
  induction 1 as [|c s Hc Hs IH]; intros Hk; cbn [app span_digits]; [destruct k as [|c k]; cbn [span_digits]; [done|by rewrite Hk]|]. rewrite IsDigit_true by done. by rewrite IH.
Qed.
Lemma skip_spaces_digit c s : 33 <= c → skip_spaces (c :: s) = c :: s.
Proof. intros H. cbn [skip_spaces]. unfold isspace. assert ((9 <=? c) && (c <=? 13) || (c =? 32) = false) as -> by lia. done. Qed.
Lemma strtoll_digits s : all_digits s → s ≠ [] → dec_val s < 2 ^ 63 → strtoll s = (dec_val s, [], false).
Proof.
  intros H Hn Hv. pose proof (dec_val_range s H). unfold strtoll. destruct s as [|c s]; [done|]. pose proof (proj1 (Forall_cons _ _ _) H) as [Hc _]. rewrite skip_spaces_digit by lia.
  destruct (Z.eqb_spec c 45); [lia|]. destruct (Z.eqb_spec c 43); [lia|]. rewrite <- (app_nil_r (c :: s)) at 1. rewrite span_digits_spec by done.
  destruct (Z.ltb_spec (dec_val (c :: s)) (- 2 ^ 63)); [lia|]. destruct (Z.ltb_spec (2 ^ 63 - 1) (dec_val (c :: s))); [lia|done].
Qed.
Lemma strtoll_minus s : all_digits s → s ≠ [] → dec_val s <= 2 ^ 63 → strtoll (45 :: s) = (- dec_val s, [], false).
Proof.
  intros H Hn Hv. pose proof (dec_val_range s H). unfold strtoll. rewrite skip_spaces_digit by lia. destruct s as [|c s]; [done|]. cbn [Z.eqb Pos.eqb]. rewrite <- (app_nil_r (c :: s)) at 1. rewrite span_digits_spec by done.
  destruct (Z.ltb_spec (- dec_val (c :: s)) (- 2 ^ 63)); [lia|]. destruct (Z.ltb_spec (2 ^ 63 - 1) (- dec_val (c :: s))); [lia|done].
Qed.
Lemma precheck_digits s : Forall (λ c, 33 <= c) s → s ≠ [] → ParsePrechecks s = true.
Proof.
  intros H Hn. unfold ParsePrechecks. assert (∀ c, 33 <= c → isspace c = false) as Hs by (intros c Hc; unfold isspace; lia). destruct s as [|c s]; [done|]. rewrite (Hs c) by (by apply Forall_cons in H as [Hc _]).
  rewrite Hs by (apply (proj1 (Forall_forall _ _) H), list_elem_of_In; destruct (exists_last Hn) as (k & x & E); rewrite E, last_last; apply in_or_app; right; by left).
  cbn [orb]. rewrite cstr_digits by (eapply Forall_impl; [exact H|]; cbn; lia). apply Nat.eqb_refl.
Qed.
Lemma ParseInt64_roundtrip n : is_i64 n → ParseInt64 (i64tostr n) = Some n.
Proof.
  intros Hn. unfold is_i64 in Hn. unfold ParseInt64, i64tostr. destruct (Z.ltb_spec n 0) as [H|H].
  - destruct (print_dec_spec 20 (- n)) as (Hd & Ev & Hl & _); [change (10 ^ Z.of_nat 21) with 1000000000000000000000; lia|]. set (s := print_dec 20 (- n)) in *. assert (Forall (λ c, 33 <= c) (45 :: s)) as Hs by (constructor; [lia|eapply Forall_impl; [exact Hd|]; cbn; lia]).
    rewrite precheck_digits by done. rewrite cstr_digits by (eapply Forall_impl; [exact Hs|]; cbn; lia). cbn [negb].
    rewrite strtoll_minus; [|done|intros E; rewrite E in Hl; cbn in Hl; lia|lia]. cbn [length Nat.eqb andb negb]. f_equal. lia.
  - destruct (print_dec_spec 20 n) as (Hd & Ev & Hl & _); [change (10 ^ Z.of_nat 21) with 1000000000000000000000; lia|]. set (s := print_dec 20 n) in *. assert (Forall (λ c, 33 <= c) s) as Hs by (eapply Forall_impl; [exact Hd|]; cbn; lia). assert (s ≠ []) by (intros E; rewrite E in Hl; cbn in Hl; lia).
    rewrite precheck_digits by done. rewrite cstr_digits by (eapply Forall_impl; [exact Hs|]; cbn; lia). cbn [negb]. rewrite strtoll_digits by (done || lia). cbn [length Nat.eqb andb negb]. by rewrite Ev.
Qed.

(** ** Amounts *)

Lemma trim_spec w ds : all_digits ds → (2 <= length ds)%nat → ∃ ds' z, trim (rev (w ++ [46] ++ ds)) = rev (w ++ [46] ++ ds') ∧ ds = ds' ++ replicate z 48 ∧ (2 <= length ds')%nat.
Proof.
  induction ds as [|x ds IH] using rev_ind; intros Hd Hl; [cbn in Hl; lia|]. apply Forall_app in Hd as [Hd _]. rewrite length_app in Hl. cbn [length] in Hl.
  destruct ds as [|a ds0 _] using rev_ind; [cbn in Hl; lia|]. destruct ds0 as [|b ds1 _] using rev_ind.
  { exists ([] ++ [a] ++ [x]), O. split; [|split; [done|cbn; lia]]. cbn [app]. rewrite rev_app_distr. cbn [rev app]. unfold trim. cbn [IsDigit]. replace (IsDigit 46) with false by done. by rewrite andb_false_r. }
  assert (48 <= b <= 57) as Hb by (rewrite !Forall_app, !Forall_singleton in Hd; tauto). destruct (Z.eqb_spec x 48) as [->|Hx].
  - destruct (IH Hd ltac:(rewrite !length_app in *; cbn in *; lia)) as (ds' & z & E & Ez & Hl'). exists ds', (S z). split; [|split; [|done]].
    + rewrite <- E. rewrite !app_assoc, !rev_app_distr. cbn [rev app trim]. rewrite IsDigit_true by done. done.
    + rewrite Ez, <- app_assoc. f_equal. change [48] with (replicate 1 48). rewrite <- replicate_add. f_equal. lia.
  - exists (((ds1 ++ [b]) ++ [a]) ++ [x]), O. rewrite app_nil_r. split; [|split; [done|rewrite !length_app; cbn; lia]]. rewrite !app_assoc, !rev_app_distr. cbn [rev app trim]. destruct (Z.eqb_spec x 48); [done|]. done.
Qed.
Lemma parse_units_spec k ds u : all_digits ds → (length ds <= k)%nat → parse_units ds (10 ^ (Z.of_nat k - 1)) u = (u + dec_val ds * 10 ^ Z.of_nat (k - length ds), []).
Proof.
  intros H. revert k u. induction H as [|c ds Hc Hd IH]; intros k u Hk; cbn [parse_units length]; [rewrite dec_val_nil; f_equal; lia|]. cbn [length] in Hk. destruct k as [|k]; [lia|].
  rewrite IsDigit_true by done. replace (Z.of_nat (S k) - 1) with (Z.of_nat k) by lia. destruct (Z.ltb_spec 0 (10 ^ Z.of_nat k)); [|lia]. cbn [andb].
  assert (10 ^ Z.of_nat k / 10 = 10 ^ (Z.of_nat k - 1)) as ->.
  { destruct k as [|k]; [done|]. replace (Z.of_nat (S k) - 1) with (Z.of_nat k) by lia. rewrite Nat2Z.inj_succ, Z.pow_succ_r, Z.mul_comm by lia. apply Z.div_mul. lia. }
  rewrite IH by lia. f_equal. cbn [Nat.sub]. change (c :: ds) with ([c] ++ ds). rewrite dec_val_app. assert (dec_val [c] = c - 48) as -> by (unfold dec_val, be_val; cbn [map foldl]; lia).
  rewrite Z.mul_add_distr_r, <- Z.mul_assoc, <- Z.pow_add_r by lia. replace (Z.of_nat (length ds) + Z.of_nat (k - length ds)) with (Z.of_nat k) by lia. lia.
Qed.
Lemma parse_whole_spec w s acc : all_digits w → parse_whole (w ++ 46 :: s) acc = let '(u, rest) := parse_units s (CENT * 10) 0 in Some (acc ++ w, u, rest).
Proof.
  intros H. revert acc. induction H as [|c w Hc Hw IH]; intros acc; cbn [app parse_whole]; [by rewrite app_nil_r|]. destruct (Z.eqb_spec c 46); [lia|].
  assert (isspace c = false) as -> by (unfold isspace; lia). rewrite IsDigit_true by done. cbn [negb]. rewrite IH. by rewrite <- app_assoc.
Qed.
Lemma ParseMoney_digits w ds z : all_digits w → w ≠ [] → (length w <= 10)%nat → all_digits (ds ++ replicate z 48) → length (ds ++ replicate z 48) = 8%nat →
  ParseMoney (w ++ [46] ++ ds) = Some (dec_val w * COIN + dec_val (ds ++ replicate z 48)).
Proof.
  intros Hw Hn Hl Hd Hl8. pose proof (dec_val_range w Hw) as Rw. pose proof (dec_val_range _ Hd) as Rd. rewrite Hl8 in Rd. change (10 ^ Z.of_nat 8) with 100000000 in Rd. pose proof (proj1 (proj1 (Forall_app _ _ _) Hd)) as Hds.
  assert (10 ^ Z.of_nat (length w) <= 10 ^ 10) by (apply Z.pow_le_mono_r; lia). rewrite length_app, length_replicate in Hl8. rewrite dec_val_app, dec_val_zeroes, length_replicate in Rd |- *.
  unfold ParseMoney. rewrite cstr_digits by (rewrite !Forall_app, Forall_singleton; split_and!; [eapply Forall_impl; [exact Hw|]; cbn; lia|lia|eapply Forall_impl; [exact Hds|]; cbn; lia]).
  assert (skip_spaces (w ++ [46] ++ ds) = w ++ [46] ++ ds) as -> by (destruct w as [|c w]; [done|]; apply skip_spaces_digit; apply Forall_cons in Hw; lia).
  cbn [app]. rewrite parse_whole_spec by done. change (CENT * 10) with (10 ^ (Z.of_nat 8 - 1)). rewrite parse_units_spec by (done || lia). replace (8 - length ds)%nat with z by lia. cbn [mbind option_bind app forallb negb].
  destruct (Nat.ltb_spec 10 (length w)); [lia|]. unfold COIN. set (u := dec_val ds * 10 ^ Z.of_nat z) in *. destruct (Z.ltb_spec (0 + u) 0); [lia|]. destruct (Z.ltb_spec 100000000 (0 + u)); [lia|]. cbn [orb].
  unfold atoi64. rewrite cstr_digits by (eapply Forall_impl; [exact Hw|]; cbn; lia). rewrite strtoll_digits by (done || lia). cbn [fst]. f_equal. rewrite (i64_id (dec_val w * _)) by (unfold is_i64; lia). rewrite i64_id by (unfold is_i64; lia). lia.
Qed.

(** What is printed for an amount of up to ten digits before the point. *)
Lemma FormatMoney_shape n : 0 <= n < 10 ^ 18 → ∃ w ds z, (∀ b, FormatMoney n b = Some ((if b && (0 <? n) then [43] else []) ++ w ++ [46] ++ ds)) ∧ (0 < n → FormatMoney (- n) false = Some ([45] ++ w ++ [46] ++ ds)) ∧
  all_digits w ∧ w ≠ [] ∧ (length w <= 10)%nat ∧ all_digits (ds ++ replicate z 48) ∧ length (ds ++ replicate z 48) = 8%nat ∧ dec_val w * COIN + dec_val (ds ++ replicate z 48) = n.
Proof.
  intros Hn. pose proof (Z.div_mod n COIN ltac:(done)) as Edm. pose proof (Z.mod_pos_bound n COIN ltac:(done)) as Hr.
  assert (0 <= n / COIN < 10 ^ 10) as Hq by (unfold COIN in *; split; [apply Z.div_pos; lia|apply Z.div_lt_upper_bound; lia]).
  destruct (print_dec_spec 20 (n / COIN)) as (Hw & Ew & [Hw1 _] & Hwm & _); [change (10 ^ Z.of_nat 21) with 1000000000000000000000; lia|]. specialize (Hwm 10%nat ltac:(lia) ltac:(lia)).
  destruct (print_dec8_spec (n mod COIN) Hr) as (Hd & Ed & Hl8). destruct (trim_spec (print_dec 20 (n / COIN)) (print_dec8 (n mod COIN)) Hd ltac:(lia)) as (ds & z & E & Ez & _).
  exists (print_dec 20 (n / COIN)), ds, z. split_and!; [| |done|intros E0; rewrite E0 in Hw1; cbn in Hw1; lia|done|by rewrite <- Ez|by rewrite <- Ez|rewrite <- Ez, Ew, Ed; lia].
  - intros b. unfold FormatMoney. destruct (Z.eqb_spec n (- 2 ^ 63)); [lia|]. assert ((if 0 <? n then n else - n) = n) as -> by (destruct (Z.ltb_spec 0 n); lia). rewrite E, rev_involutive. destruct (Z.ltb_spec n 0); [lia|]. by destruct (b && _).
  - intros Hpos. unfold FormatMoney. destruct (Z.eqb_spec (- n) (- 2 ^ 63)); [lia|]. destruct (Z.ltb_spec 0 (- n)); [lia|]. rewrite Z.opp_involutive, E, rev_involutive. destruct (Z.ltb_spec (- n) 0); [done|lia].
Qed.
Lemma ParseMoney_sign c s : c = 43 ∨ c = 45 → ParseMoney (c :: s) = None.
Proof. intros Hc. unfold ParseMoney. assert (cstr (c :: s) = c :: cstr s) as -> by (by destruct Hc as [->| ->]). rewrite skip_spaces_digit by lia. by destruct Hc as [->| ->]. Qed.
Lemma money_roundtrip n : 0 <= n < 10 ^ 18 → ∃ s, FormatMoney n false = Some s ∧ ParseMoney s = Some n.
Proof. intros Hn. destruct (FormatMoney_shape n Hn) as (w & ds & z & E & _ & Hw & Hw0 & Hl & Hd & Hl8 & Ev). exists (w ++ [46] ++ ds). split; [apply (E false)|]. rewrite (ParseMoney_digits w ds z) by done. by rewrite Ev. Qed.

(** ** Fixed point numbers *)

(** The mantissa stays below [10 ^ 18], so that its arithmetic does not
    overflow. *)
Lemma scale_range k m m' : 0 <= m → scale (S k) m = Some m' → 0 <= m' <= UPPER_BOUND - 9.
Proof.
  revert m. induction k as [|k IH]; intros m Hm; cbn [scale]; (destruct (Z.ltb_spec (UPPER_BOUND / 10) m) as [|H]; [done|]); change (UPPER_BOUND / 10) with 99999999999999999 in H; unfold UPPER_BOUND in *.
  - intros [= <-]. lia.
  - intros E. apply (IH (m * 10)); [lia|exact E].
Qed.
Lemma mantissa_range s m tz c m' tz' c' rest : 0 <= m <= UPPER_BOUND → mantissa_digits s m tz c = Some (m', tz', c', rest) → 0 <= m' <= UPPER_BOUND.
Proof.
  revert m tz c. induction s as [|d s IH]; intros m tz c Hm; cbn [mantissa_digits]; [by intros [= <- _ _ _]|]. destruct (IsDigit d) eqn:Ed; [|by intros [= <- _ _ _]]. unfold ProcessMantissaDigit.
  destruct (d =? 48); [cbn [mbind option_bind]; by apply IH|]. destruct (scale (S tz) m) as [x|] eqn:Ex; [|done]. cbn [mbind option_bind]. apply IH. apply scale_range in Ex; [|lia]. unfold IsDigit in Ed. lia.
Qed.
Lemma scale_spec k m : 0 <= m → m * 10 ^ Z.of_nat k <= UPPER_BOUND → scale k m = Some (m * 10 ^ Z.of_nat k).
Proof.
  revert m. induction k as [|k IH]; intros m Hm Hb; cbn [scale]; [f_equal; lia|]. rewrite Nat2Z.inj_succ, Z.pow_succ_r in * by lia.
  assert (1 <= 10 ^ Z.of_nat k) by lia. destruct (Z.ltb_spec (UPPER_BOUND / 10) m) as [Hx|Hx]; [change (UPPER_BOUND / 10) with 99999999999999999 in Hx; unfold UPPER_BOUND in *; nia|]. rewrite IH by lia. f_equal. ring.
Qed.
Lemma scale_signed_spec k m : Z.abs m * 10 ^ Z.of_nat k <= UPPER_BOUND → scale_signed k m = Some (m * 10 ^ Z.of_nat k).
Proof.
  revert m. induction k as [|k IH]; intros m Hb; cbn [scale_signed]; [f_equal; lia|]. rewrite Nat2Z.inj_succ, Z.pow_succ_r in * by lia. assert (1 <= 10 ^ Z.of_nat k) by lia.
  assert (Z.abs m <= 99999999999999999) by (unfold UPPER_BOUND in *; nia). change (UPPER_BOUND / 10) with 99999999999999999. assert ((99999999999999999 <? m) || (m <? - (99999999999999999)) = false) as -> by lia.
  rewrite IH by (rewrite Z.abs_mul; change (Z.abs 10) with 10; lia). apply (f_equal Some). ring.
Qed.
Lemma mantissa_digits_spec ds rest m tz c : all_digits ds → match rest with [] => True | d :: _ => IsDigit d = false end → 0 <= m →
  m * 10 ^ Z.of_nat tz * 10 ^ Z.of_nat (length ds) + dec_val ds <= UPPER_BOUND →
  ∃ m' tz', mantissa_digits (ds ++ rest) m tz c = Some (m', tz', c + Z.of_nat (length ds), rest) ∧ (tz' <= tz + length ds)%nat ∧ 0 <= m' ∧ m' * 10 ^ Z.of_nat tz' = m * 10 ^ Z.of_nat tz * 10 ^ Z.of_nat (length ds) + dec_val ds.
Proof.
  intros H Hr. revert m tz c. induction H as [|d ds Hd Hds IH]; intros m tz c Hm Hb; cbn [app mantissa_digits].
  - exists m, tz. rewrite dec_val_nil. cbn [length] in *. destruct rest as [|r rest]; cbn [mantissa_digits]; [|rewrite Hr]; (split_and!; [repeat f_equal; lia|lia|done|lia]).
  - rewrite IsDigit_true by done. change (d :: ds) with ([d] ++ ds) in *. rewrite dec_val_app in *. assert (dec_val [d] = d - 48) as Ed by (unfold dec_val, be_val; cbn [map foldl]; lia). rewrite Ed in *. cbn [length app] in *. rewrite Nat2Z.inj_succ, Z.pow_succ_r in * by lia.
    pose proof (dec_val_range ds Hds) as Rds. set (L := 10 ^ Z.of_nat (length ds)) in *. set (T := 10 ^ Z.of_nat tz) in *. assert (1 <= L) by (unfold L; lia). assert (1 <= T) by (unfold T; lia).
    assert (∃ m1 tz1, ProcessMantissaDigit d m tz = Some (m1, tz1) ∧ (tz1 <= S tz)%nat ∧ 0 <= m1 ∧ m1 * 10 ^ Z.of_nat tz1 = m * T * 10 + (d - 48)) as (m1 & tz1 & -> & Htz1 & Hm1 & E1).
    { unfold ProcessMantissaDigit. destruct (Z.eqb_spec d 48) as [->|Hn].
      - exists m, (S tz). rewrite Nat2Z.inj_succ, Z.pow_succ_r by lia. fold T. split_and!; [done|lia|done|lia].
      - rewrite scale_spec; [|done|rewrite Nat2Z.inj_succ, Z.pow_succ_r by lia; fold T; nia]. rewrite Nat2Z.inj_succ, Z.pow_succ_r by lia. fold T. exists (m * (10 * T) + (d - 48)), O. split_and!; [done|lia|nia|lia]. }
    cbn [mbind option_bind]. destruct (IH m1 tz1 (c + 1) Hm1) as (m' & tz' & -> & Htz' & Hm' & E'); [rewrite E1; lia|]. exists m', tz'. rewrite ?Nat2Z.inj_succ, ?Z.pow_succ_r by lia. fold L T. split_and!; [do 2 f_equal; f_equal; lia|lia|done|rewrite E', E1; lia].
Qed.
Lemma ParseFixedPoint_roundtrip n : - 10 ^ 18 < n < 10 ^ 18 → ParseFixedPoint (ValueFromAmount n) 8 = Some n.
Proof.
  intros Hn. unfold ValueFromAmount. set (a := if n <? 0 then - n else n). assert (a = Z.abs n) as Ea by (unfold a; destruct (Z.ltb_spec n 0); lia). clearbody a.
  pose proof (Z.div_mod a COIN ltac:(done)) as Edm. pose proof (Z.mod_pos_bound a COIN ltac:(done)) as Hr. assert (0 <= a / COIN < 10 ^ 10) as Hq by (unfold COIN in *; split; [apply Z.div_pos; lia|apply Z.div_lt_upper_bound; lia]).
  destruct (print_dec_spec 20 (a / COIN)) as (Hw & Ew & _ & _ & Hc); [change (10 ^ Z.of_nat 21) with 1000000000000000000000; lia|]. destruct (print_dec8_spec (a mod COIN) Hr) as (Hd & Ed & Hl8).
  set (w := print_dec 20 (a / COIN)) in *. set (ds := print_dec8 (a mod COIN)) in *. clearbody w ds.
  assert (ParseFixedPoint ((if n <? 0 then [45] else []) ++ w ++ [46] ++ ds) 8 = '(m, tz, s) ← parse_integer (w ++ [46] ++ ds); '(m, tz, point_ofs, s) ← parse_fraction s m tz; '(e, s) ← parse_exponent s;
    match s with _ :: _ => None | [] => let exponent := e - point_ofs + Z.of_nat tz + 8 in let mantissa := if n <? 0 then - m else m in if exponent <? 0 then None else if 18 <=? exponent then None
      else v ← scale_signed (Z.to_nat exponent) mantissa; if (UPPER_BOUND <? v) || (v <? - UPPER_BOUND) then None else Some v end) as ->.
  { unfold ParseFixedPoint. destruct (n <? 0); [done|]. assert (∃ c s, w ++ [46] ++ ds = c :: s ∧ 48 <= c <= 57) as (c & s & -> & Hcr) by (destruct Hc as [[_ ->]|(_ & c & s & -> & Hc)]; [by exists 48, ([46] ++ ds)|exists c, (s ++ [46] ++ ds); split; [done|lia]]).
    cbn [app]. destruct (Z.eqb_spec c 45); [lia|done]. }
  assert (∃ m tz, parse_integer (w ++ [46] ++ ds) = Some (m, tz, [46] ++ ds) ∧ (a / COIN = 0 → tz = O) ∧ 0 <= m ∧ m * 10 ^ Z.of_nat tz = a / COIN) as (m & tz & -> & Htz & Hm & Em).
  { unfold parse_integer. destruct Hc as [[E0 ->]|(Hpos & c & s & -> & Hc)]; [exists 0, O; split_and!; [done|done|done|lia]|]. cbn [app]. destruct (Z.eqb_spec c 48); [lia|]. assert ((49 <=? c) && (c <=? 57) = true) as -> by lia.
    destruct (mantissa_digits_spec (c :: s) (46 :: ds) 0 0 0 Hw eq_refl ltac:(lia)) as (m & tz & E & _ & Hm & Em); [rewrite Ew, !Z.mul_0_l; unfold UPPER_BOUND; lia|]. cbn [app] in E. rewrite E. cbn [mbind option_bind]. exists m, tz. split_and!; [done|lia|done|lia]. }
  cbn [mbind option_bind parse_fraction app]. change (46 =? 46) with true. cbv iota.
  destruct (mantissa_digits_spec ds [] m tz 0 Hd I Hm) as (m2 & tz2 & E2 & Htz2 & Hm2 & Em2); [rewrite Em, Ed, Hl8; change (10 ^ Z.of_nat 8) with COIN; unfold UPPER_BOUND; lia|]. rewrite app_nil_r, Hl8 in E2. rewrite Em, Ed, Hl8 in Em2. change (10 ^ Z.of_nat 8) with COIN in Em2.
  assert (∃ d ds', ds = d :: ds' ∧ IsDigit d = true) as (d & ds' & -> & Hdd) by (destruct ds as [|d ds']; [done|]; exists d, ds'; split; [done|]; apply IsDigit_true; by apply Forall_cons in Hd as [? _]).
  rewrite Hdd, E2. cbn [mbind option_bind parse_exponent]. cbv zeta. replace (0 - (0 + Z.of_nat 8) + Z.of_nat tz2 + 8) with (Z.of_nat tz2) by lia.
  destruct (Z.ltb_spec (Z.of_nat tz2) 0); [lia|]. destruct (Z.leb_spec 18 (Z.of_nat tz2)) as [H18|H18].
  { exfalso. rewrite Hl8 in Htz2. destruct (decide (m2 = 0)) as [->|Hm0]; [assert (a / COIN = 0) by (unfold COIN in *; lia); specialize (Htz ltac:(done)); lia|].
    assert (10 ^ 18 <= 10 ^ Z.of_nat tz2) by (apply Z.pow_le_mono_r; lia). nia. }
  rewrite Nat2Z.id, scale_signed_spec by (destruct (n <? 0); rewrite ?Z.abs_opp, Z.abs_eq, Em2 by lia; unfold UPPER_BOUND; lia). cbn [mbind option_bind].
  assert ((if n <? 0 then - m2 else m2) * 10 ^ Z.of_nat tz2 = n) as -> by (destruct (Z.ltb_spec n 0); lia). unfold UPPER_BOUND. assert ((1000000000000000000 - 1 <? n) || (n <? - (1000000000000000000 - 1)) = false) as -> by lia. done.
Qed.

(** amounts are read back.  What the RPC interface prints for an amount is
    parsed to the same amount, for all amounts of up to ten digits before the
    point; what [FormatMoney] prints is parsed by [ParseMoney], which refuses
    negative amounts and ones with a plus sign. *)
Theorem amounts_read_back (n : Z) : - 10 ^ 18 < n < 10 ^ 18 →
  ParseFixedPoint (ValueFromAmount n) 8 = Some n ∧
  ∃ s, FormatMoney n false = Some s ∧ ParseMoney s = (if n <? 0 then None else Some n) ∧
    (0 < n → ∃ s', FormatMoney n true = Some s' ∧ ParseMoney s' = None).
Proof.
  intros Hn. split; [by apply ParseFixedPoint_roundtrip|]. destruct (Z.ltb_spec n 0) as [H|H].
  - destruct (FormatMoney_shape (- n) ltac:(lia)) as (w & ds & z & _ & E & _). rewrite Z.opp_involutive in E. eexists. split_and!; [apply E; lia|apply ParseMoney_sign; auto|lia].
  - destruct (money_roundtrip n ltac:(lia)) as (s & E & Ep). exists s. split_and!; [done|done|]. intros Hp. destruct (FormatMoney_shape n ltac:(lia)) as (w & ds & z & Eb & _). eexists. split; [apply Eb|].
    destruct (Z.ltb_spec 0 n); [|lia]. apply ParseMoney_sign. auto.
Qed.
Lemma amounts_read_back_witness : ParseFixedPoint (ValueFromAmount 123456789012) 8 = Some 123456789012 ∧
  ∃ s, FormatMoney 123456789012 false = Some s ∧ ParseMoney s = (if 123456789012 <? 0 then None else Some 123456789012) ∧
    (0 < 123456789012 → ∃ s', FormatMoney 123456789012 true = Some s' ∧ ParseMoney s' = None).
Proof. apply (amounts_read_back 123456789012). lia. Defined.
