(* ===== verification/Base58.v ===== *)
(** * Base58: addresses and keys as text ([base58.h], [base58.cpp], [chainparams.cpp])

    Base 58 with a checksum, the addresses of keys, of scripts and of stakers,
    and private keys.  The outer [None] is a failed assertion, the inner one the
    result [false]. *)

From S2P Require Import Prelude Params ArithUint256 Script Interpreter Serialize Transaction Crypto Sha2 Sha1Ripemd Hash Standard StrEncodings.
From Stdlib Require Import String.
Local Open Scope Z_scope.
Local Notation length := Datatypes.length.

Definition pszBase58 : list Z := Eval vm_compute in chars "123456789ABCDEFGHJKLMNPQRSTUVWXYZabcdefghijkmnopqrstuvwxyz".

(** The inner loop of both directions, [v = v * m + carry] in base [B], over the
    digits from the least significant one; [i] counts the digits that are in
    use.  The result has the carry that is left. *)
Fixpoint mul_add (B m : Z) (v : list Z) (i len : nat) (carry : Z) : list Z * nat * Z :=
  match v with
  | [] => ([], i, carry)
  | d :: v' =>
      if negb (carry =? 0) || (i <? len)%nat then
        let carry := carry + m * d in
        let '(v', i, carry') := mul_add B m v' (S i) len (carry / B) in (carry mod B :: v', i, carry')
      else (v, i, carry)
  end.
(** The digits of one base, from the most significant one, added to a number in
    the other; [None] is the failed assertion on the carry. *)
Fixpoint convert (B m : Z) (ds : list Z) (v : list Z) (len : nat) : option (list Z * nat) :=
  match ds with
  | [] => Some (v, len)
  | d :: ds =>
      let '(v, i, carry) := mul_add B m v 0 len d in
      if carry =? 0 then convert B m ds v i else None
  end.
(** The digits in use from the most significant one, without leading zeroes. *)
Definition significant (v : list Z) (len : nat) : list Z := FindFirstNonZero (rev (take len v)).
(** How many times [c] is at the front, and what follows. *)
Fixpoint leading (c : Z) (s : list Z) : nat * list Z :=
  match s with [] => (O, []) | x :: s' => if x =? c then let '(n, rest) := leading c s' in (S n, rest) else (O, s) end.

Definition EncodeBase58 (vch : list Z) : option (list Z) :=
  let '(zeroes, rest) := leading 0 vch in
  let size := (length rest * 138 / 100 + 1)%nat in
  '(b58, len) ← convert 58 256 rest (replicate size 0) 0;
  Some (replicate zeroes 49 ++ map (λ d, nth (Z.to_nat d) pszBase58 0) (significant b58 len)).

(** [strchr]: the index of a character. *)
Fixpoint strchr (l : list Z) (c : Z) : option Z :=
  match l with [] => None | x :: l => if x =? c then Some 0 else i ← strchr l c; Some (i + 1) end.
(** The characters up to a space or the end. *)
Fixpoint split_word (s : list Z) : list Z * list Z :=
  match s with [] => ([], []) | c :: s' => if isspace c then ([], s) else let '(w, rest) := split_word s' in (c :: w, rest) end.
(** The loop over the characters; [Some None] is a character that is no digit. *)
Fixpoint decode_loop (s : list Z) (b256 : list Z) (len : nat) : option (option (list Z * nat)) :=
  match s with
  | [] => Some (Some (b256, len))
  | c :: s =>
      match strchr pszBase58 c with
      | None => Some None
      | Some d =>
          let '(b256, i, carry) := mul_add 256 58 b256 0 len d in
          if carry =? 0 then decode_loop s b256 i else None
      end
  end.
Definition DecodeBase58 (psz : list Z) : option (option (list Z)) :=
  let '(zeroes, psz) := leading 49 (skip_spaces (cstr psz)) in
  let size := (length psz * 733 / 1000 + 1)%nat in
  let '(w, rest) := split_word psz in
  r ← decode_loop w (replicate size 0) 0;
  match r with
  | None => Some None
  | Some (b256, len) => if negb (forallb isspace rest) then Some None else Some (Some (replicate zeroes 0 ++ significant b256 len))
  end.

Section check.
Context `{ScriptCrypto}.
Definition EncodeBase58Check (vchIn : list Z) : option (list Z) := EncodeBase58 (vchIn ++ take 4 (Hash256 vchIn)).
Definition DecodeBase58Check (psz : list Z) : option (option (list Z)) :=
  r ← DecodeBase58 psz;
  match r with
  | None => Some None
  | Some vch =>
      if (length vch <? 4)%nat then Some None
      else
        let n := (length vch - 4)%nat in
        if bool_decide (take 4 (Hash256 (take n vch)) = drop n vch) then Some (Some (take n vch)) else Some None
  end.

(** ** [CBase58Data] *)

Record CBase58Data := mkBase58Data { vchVersion : list Z; vchData : list Z }.
Definition Base58_SetString (psz : list Z) (nVersionBytes : nat) : option (bool * CBase58Data) :=
  r ← DecodeBase58Check psz;
  match r with
  | None => Some (false, mkBase58Data [] [])
  | Some vchTemp =>
      if (length vchTemp <? nVersionBytes)%nat then Some (false, mkBase58Data [] [])
      else Some (true, mkBase58Data (take nVersionBytes vchTemp) (drop nVersionBytes vchTemp))
  end.
Definition Base58_ToString (d : CBase58Data) : option (list Z) := EncodeBase58Check (d.(vchVersion) ++ d.(vchData)).

(** ** Addresses *)

Inductive Base58Type := PUBKEY_ADDRESS | SCRIPT_ADDRESS | SECRET_KEY | STAKING_ADDRESS.
(** [CChainParams::Base58Prefix]. *)
Definition Base58Prefixes := Base58Type → list Z.
Definition main_prefixes : Base58Prefixes := λ ty,
  match ty with PUBKEY_ADDRESS => [58] | SCRIPT_ADDRESS => [13] | SECRET_KEY => [212] | STAKING_ADDRESS => [63] end.
Definition test_prefixes : Base58Prefixes := λ ty,
  match ty with PUBKEY_ADDRESS => [139] | SCRIPT_ADDRESS => [19] | SECRET_KEY => [239] | STAKING_ADDRESS => [73] end.

Context (params : Base58Prefixes).
Definition EncodeDestination (dest : CTxDestination) (addrType : Base58Type) : option (list Z) :=
  match dest with
  | CKeyID id => EncodeBase58Check (params addrType ++ id)
  | CScriptID id => EncodeBase58Check (params SCRIPT_ADDRESS ++ id)
  | CNoDestination => Some []
  end.
(** Whether data is a prefix followed by [n] bytes. *)
Definition has_prefix (prefix data : list Z) (n : nat) : bool :=
  (length data =? n + length prefix)%nat && bool_decide (take (length prefix) data = prefix).
(** The destination and the new value of [isStaking]. *)
Definition DecodeDestination (str : list Z) (isStaking : bool) : option (CTxDestination * bool) :=
  r ← DecodeBase58Check str;
  Some match r with
       | None => (CNoDestination, isStaking)
       | Some data =>
           if has_prefix (params PUBKEY_ADDRESS) data 20 then (CKeyID (drop (length (params PUBKEY_ADDRESS)) data), isStaking)
           else if has_prefix (params STAKING_ADDRESS) data 20 then (CKeyID (drop (length (params STAKING_ADDRESS)) data), true)
           else if has_prefix (params SCRIPT_ADDRESS) data 20 then (CScriptID (drop (length (params SCRIPT_ADDRESS)) data), isStaking)
           else (CNoDestination, isStaking)
       end.
Definition IsValidDestinationString (str : list Z) (fStaking : bool) : option bool :=
  '(dest, isStaking) ← DecodeDestination str false; Some (IsValidDestination dest && Bool.eqb isStaking fStaking).

(** ** Private keys *)

(** [CKey] with its 32 bytes; [KeyCheck] is the range check of the curve. *)
Record CKey := mkKey { keydata : list Z; fCompressed : bool; fValid : bool }.
Context (KeyCheck : list Z → bool).
Definition CKey_Set (data : list Z) (fCompressedIn : bool) (k : CKey) : CKey :=
  if negb (length data =? 32)%nat then mkKey k.(keydata) k.(fCompressed) false
  else if KeyCheck data then mkKey data fCompressedIn true
  else mkKey k.(keydata) k.(fCompressed) false.
Definition no_key : CKey := mkKey (replicate 32 0) false false.
Definition DecodeSecret (str : list Z) : option CKey :=
  r ← DecodeBase58Check str;
  Some match r with
       | None => no_key
       | Some data =>
           let p := params SECRET_KEY in
           if ((length data =? 32 + length p)%nat || ((length data =? 33 + length p)%nat && (List.last data 0 =? 1))) && bool_decide (take (length p) data = p)
           then CKey_Set (take 32 (drop (length p) data)) (length data =? 33 + length p)%nat no_key
           else no_key
       end.
(** [None] is also the failed assertion for a key that is not valid. *)
Definition EncodeSecret (key : CKey) : option (list Z) :=
  if negb key.(fValid) then None
  else EncodeBase58Check (params SECRET_KEY ++ key.(keydata) ++ (if key.(fCompressed) then [1] else [])).
End check.

(** ** Numbers in two bases *)

Section numbers.
Context (B m : Z) (HB : 1 < B) (Hm : 1 < m).
Local Notation zeroes := (Forall (λ d : Z, d = 0)).
(** The value of digits from the least significant one. *)
Definition le_val (v : list Z) : Z := be_val B (rev v).
Lemma le_val_cons d v : le_val (d :: v) = le_val v * B + d.
Proof. unfold le_val. cbn [rev]. by apply be_val_snoc. Qed.
Lemma le_val_zeroes v : zeroes v → le_val v = 0.
Proof. induction 1 as [|d v -> Hv IH]; [done|]. rewrite le_val_cons, IH. lia. Qed.
Lemma base_digits_rev b v : base_digits b v → base_digits b (rev v).
Proof. unfold base_digits. rewrite !Forall_forall. intros H d Hd. apply H. by rewrite list_elem_of_In, <- in_rev, <- list_elem_of_In in Hd. Qed.
Lemma le_val_nonneg v : base_digits B v → 0 <= le_val v.
Proof. intros Hv. by apply (be_val_range B HB (rev v) (base_digits_rev B v Hv)). Qed.

Lemma mul_add_spec v i len carry : base_digits B v → 0 <= carry → zeroes (drop (len - i) v) → ∃ v' i' carry',
  mul_add B m v i len carry = (v', i', carry') ∧ base_digits B v' ∧ length v' = length v ∧ (i <= i')%nat ∧ 0 <= carry' ∧
  le_val v' + carry' * B ^ Z.of_nat (length v) = m * le_val v + carry ∧ zeroes (drop (i' - i) v').
Proof.
  revert i carry. induction v as [|d v IH]; intros i carry Hv Hc Hz; cbn [mul_add].
  - exists [], i, carry. rewrite Nat.sub_diag. cbn [length drop]. rewrite Z.pow_0_r. unfold le_val. cbn. split_and!; [done|done|done|lia|lia|lia|done].
  - apply Forall_cons in Hv as [Hd Hv]. destruct (negb (carry =? 0) || (i <? len)%nat) eqn:E.
    + destruct (IH (S i) ((carry + m * d) / B) Hv) as (v' & i' & c' & -> & Hv' & El & Hi & Hc' & Ev & Hz').
      { apply Z.div_pos; nia. }
      { destruct (len - i)%nat as [|k] eqn:Ek; cbn [drop] in Hz; [replace (len - S i)%nat with O by lia; by apply Forall_cons in Hz as [_ Hz]|by replace (len - S i)%nat with k by lia]. }
      exists ((carry + m * d) mod B :: v'), i', c'. split; [done|]. split; [constructor; [apply Z.mod_pos_bound; lia|done]|]. cbn [length]. rewrite !le_val_cons, Nat2Z.inj_succ, Z.pow_succ_r by lia.
      split_and!; [by rewrite El|lia|done| |replace (i' - i)%nat with (S (i' - S i)) by lia; done].
      pose proof (Z.div_mod (carry + m * d) B ltac:(lia)). nia.
    + apply orb_false_iff in E as [E1 E2]. assert (carry = 0) as -> by lia. replace (len - i)%nat with O in Hz by lia. cbn [drop] in Hz. exists (d :: v), i, 0. rewrite Nat.sub_diag. cbn [drop].
      rewrite (le_val_zeroes (d :: v) Hz). split_and!; [done|by constructor|done|lia|lia|lia|done].
Qed.
(** When there is space, one step multiplies and adds. *)
Lemma mul_add_fits v len d : base_digits B v → 0 <= d → zeroes (drop len v) → m * le_val v + d < B ^ Z.of_nat (length v) → ∃ v' i,
  mul_add B m v 0 len d = (v', i, 0) ∧ base_digits B v' ∧ length v' = length v ∧ le_val v' = m * le_val v + d ∧ zeroes (drop i v').
Proof.
  intros Hv Hd Hz Hfit. destruct (mul_add_spec v 0 len d Hv Hd) as (v' & i & c & E & Hv' & El & _ & Hc & Ev & Hz'); [by rewrite Nat.sub_0_r|]. pose proof (le_val_nonneg v' Hv') as H0.
  assert (c = 0) as -> by nia. exists v', i. rewrite Nat.sub_0_r in Hz'. split_and!; [done|done|done|lia|done].
Qed.
Lemma convert_spec ds v len : base_digits m ds → base_digits B v → zeroes (drop len v) → le_val v * m ^ Z.of_nat (length ds) + be_val m ds < B ^ Z.of_nat (length v) → ∃ v' len',
  convert B m ds v len = Some (v', len') ∧ base_digits B v' ∧ length v' = length v ∧ le_val v' = le_val v * m ^ Z.of_nat (length ds) + be_val m ds ∧ zeroes (drop len' v').
Proof.
  intros Hds. revert v len. induction Hds as [|d ds Hd Hds IH]; intros v len Hv Hz Hfit; cbn [convert].
  - exists v, len. split_and!; try done. cbn. lia.
  - pose proof (be_val_range m Hm ds Hds). pose proof (le_val_nonneg v Hv). cbn [length] in *. rewrite be_val_cons, Nat2Z.inj_succ, Z.pow_succ_r in * by lia.
    assert (1 <= m ^ Z.of_nat (length ds)) by lia.
    destruct (mul_add_fits v len d Hv ltac:(lia) Hz) as (v1 & i & -> & Hv1 & El1 & Ev1 & Hz1); [nia|]. cbn [Z.eqb]. destruct (IH v1 i Hv1 Hz1) as (v' & len' & E & Hv' & El & Ev & Hz'); [rewrite El1, Ev1; nia|].
    exists v', len'. split_and!; [done|done|by rewrite El|rewrite Ev, Ev1; ring|done].
Qed.

(** Digits without a leading zero. *)
Definition canonical (l : list Z) : Prop := match l with [] => True | d :: _ => d ≠ 0 end.
Lemma FindFirstNonZero_spec l : base_digits B l → base_digits B (FindFirstNonZero l) ∧ be_val B (FindFirstNonZero l) = be_val B l ∧ canonical (FindFirstNonZero l).
Proof.
  induction 1 as [|d l Hd Hl (IH1 & IH2 & IH3)]; cbn [FindFirstNonZero]; [split_and!; [by apply Forall_nil|done|done]|]. destruct (Z.eqb_spec d 0) as [->|Hn]; [|split_and!; [by constructor|done|done]]. rewrite be_val_cons by lia. split_and!; [done|lia|done].
Qed.
Lemma significant_spec v len : base_digits B v → zeroes (drop len v) → base_digits B (significant v len) ∧ be_val B (significant v len) = le_val v ∧ canonical (significant v len).
Proof.
  intros Hv Hz. unfold significant. destruct (FindFirstNonZero_spec (rev (take len v))) as (H1 & H2 & H3); [apply base_digits_rev; by apply Forall_take|]. split_and!; [done| |done]. rewrite H2.
  unfold le_val. rewrite <- (take_drop len v) at 2. rewrite rev_app_distr, be_val_app by lia. fold (le_val (drop len v)). rewrite (le_val_zeroes _ Hz). lia.
Qed.
Lemma canonical_low l : base_digits B l → canonical l → l ≠ [] → B ^ (Z.of_nat (length l) - 1) <= be_val B l.
Proof.
  intros Hl Hc Hn. destruct l as [|d l]; [done|]. apply Forall_cons in Hl as [Hd Hl]. cbn in Hc. rewrite be_val_cons by lia. pose proof (be_val_range B HB l Hl). cbn [length]. replace (Z.of_nat (S (length l)) - 1) with (Z.of_nat (length l)) by lia. nia.
Qed.
Lemma canonical_inj l k : base_digits B l → base_digits B k → canonical l → canonical k → be_val B l = be_val B k → l = k.
Proof.
  assert (∀ l k, base_digits B l → base_digits B k → canonical l → be_val B l = be_val B k → (length l <= length k)%nat) as Hle.
  { intros l' k' Hl Hk Hc E. destruct (decide (l' = [])) as [->|Hn]; [cbn; lia|]. pose proof (canonical_low l' Hl Hc Hn). pose proof (be_val_range B HB k' Hk). destruct (Nat.le_gt_cases (length l') (length k')) as [|Hgt]; [done|]. exfalso.
    assert (B ^ Z.of_nat (length k') <= B ^ (Z.of_nat (length l') - 1)) by (apply Z.pow_le_mono_r; lia). lia. }
  intros Hl Hk Hcl Hck E. apply (be_val_inj B HB); [done|done| |done]. pose proof (Hle l k Hl Hk Hcl E). pose proof (Hle k l Hk Hl Hck (eq_sym E)). lia.
Qed.
End numbers.

(** The sizes of the buffers suffice. *)
Lemma pow_fits a b p q n : 1 < a → 1 < b → (0 < q)%nat → a ^ Z.of_nat q <= b ^ Z.of_nat p → a ^ Z.of_nat n < b ^ Z.of_nat (n * p / q + 1).
Proof.
  intros Ha Hb Hq H. pose proof (Nat.mul_succ_div_gt (n * p) q ltac:(lia)) as Hd. set (s := (n * p / q)%nat) in *. destruct (Z.lt_ge_cases (a ^ Z.of_nat n) (b ^ Z.of_nat (s + 1))) as [|Hge]; [done|]. exfalso.
  assert ((b ^ Z.of_nat (s + 1)) ^ Z.of_nat q <= (a ^ Z.of_nat n) ^ Z.of_nat q) as H1 by (apply Z.pow_le_mono_l; split; [apply Z.pow_nonneg; lia|done]).
  rewrite <- !Z.pow_mul_r in H1 by lia. assert (a ^ (Z.of_nat n * Z.of_nat q) <= b ^ (Z.of_nat p * Z.of_nat n)) as H2.
  { rewrite (Z.mul_comm (Z.of_nat n)), !Z.pow_mul_r by lia. apply Z.pow_le_mono_l. split; [apply Z.pow_nonneg; lia|done]. }
  assert (b ^ (Z.of_nat p * Z.of_nat n) < b ^ (Z.of_nat (s + 1) * Z.of_nat q)) as H3 by (apply Z.pow_lt_mono_r; lia). lia.
Qed.
Lemma fits_encode n : 256 ^ Z.of_nat n < 58 ^ Z.of_nat (n * 138 / 100 + 1).
Proof. apply pow_fits; [done|done|lia|]. apply Z.leb_le. vm_compute. done. Qed.
Lemma fits_decode n : 58 ^ Z.of_nat n < 256 ^ Z.of_nat (n * 733 / 1000 + 1).
Proof. apply pow_fits; [done|done|lia|]. apply Z.leb_le. vm_compute. done. Qed.

(** ** Base 58 *)

Definition chr58 (d : Z) : Z := nth (Z.to_nat d) pszBase58 0.
Lemma chr58_spec d : 0 <= d < 58 → strchr pszBase58 (chr58 d) = Some d ∧ isspace (chr58 d) = false ∧ 0 < chr58 d ∧ (chr58 d = 49 ↔ d = 0).
Proof.
  intros Hd. assert (bool_decide (strchr pszBase58 (chr58 d) = Some d) && negb (isspace (chr58 d)) && (0 <? chr58 d) && Bool.eqb (chr58 d =? 49) (d =? 0) = true) as H by (revert d Hd; apply (below_check _ 58); vm_compute; done).
  rewrite !andb_true_iff, negb_true_iff, bool_decide_eq_true, eqb_true_iff in H. destruct H as [[[H1 H2] H3] H4]. split_and!; [done|done|lia|]. destruct (Z.eqb_spec (chr58 d) 49), (Z.eqb_spec d 0); done || lia.
Qed.
Lemma strchr_spec l c d : strchr l c = Some d → 0 <= d < Z.of_nat (length l) ∧ nth (Z.to_nat d) l 0 = c.
Proof.
  revert d. induction l as [|x l IH]; intros d; cbn [strchr]; [done|]. destruct (Z.eqb_spec x c) as [->|Hn]; [intros [= <-]; cbn; split; [lia|done]|].
  destruct (strchr l c) as [i|]; [|done]. cbn [mbind option_bind]. intros [= <-]. destruct (IH i eq_refl) as [Hi Hn2]. cbn [length]. split; [lia|]. by replace (Z.to_nat (i + 1)) with (S (Z.to_nat i)) by lia.
Qed.
Definition starts (c : Z) (s : list Z) : Prop := match s with [] => False | x :: _ => x = c end.
Lemma leading_spec c s n rest : leading c s = (n, rest) → s = replicate n c ++ rest ∧ ¬ starts c rest.
Proof.
  revert n. induction s as [|x s IH]; intros n; cbn [leading]; [intros [= <- <-]; split; [done|intros []]|]. destruct (Z.eqb_spec x c) as [->|Hn]; [|intros [= <- <-]; split; done].
  destruct (leading c s) as [k r] eqn:E. intros [= <- <-]. destruct (IH k eq_refl) as [-> H]. done.
Qed.
Lemma leading_replicate c n rest : ¬ starts c rest → leading c (replicate n c ++ rest) = (n, rest).
Proof.
  intros H. induction n as [|n IH]; cbn [replicate app leading]; [|by rewrite Z.eqb_refl, IH]. destruct rest as [|x rest]; cbn [leading]; [done|]. cbn in H. destruct (Z.eqb_spec x c); done.
Qed.
Lemma split_word_all w : Forall (λ c, isspace c = false) w → split_word w = (w, []).
Proof. induction 1 as [|c w Hc Hw IH]; cbn [split_word]; [done|]. by rewrite Hc, IH. Qed.
Lemma zeroes_replicate n : Forall (λ d : Z, d = 0) (drop 0 (replicate n 0)).
Proof. by apply Forall_replicate. Qed.
Lemma le_val_replicate B n : 1 < B → le_val B (replicate n 0) = 0.
Proof. intros HB. apply le_val_zeroes. by apply Forall_replicate. Qed.
Lemma base_digits_replicate B n : 1 < B → base_digits B (replicate n 0).
Proof. intros HB. apply Forall_replicate. lia. Qed.

Lemma EncodeBase58_spec l : bytes l → ∃ z r D, l = replicate z 0 ++ r ∧ canonical r ∧ bytes r ∧ EncodeBase58 l = Some (replicate z 49 ++ map chr58 D) ∧ base_digits 58 D ∧ canonical D ∧ be_val 58 D = be_val 256 r.
Proof.
  intros Hl. unfold EncodeBase58. destruct (leading 0 l) as [z r] eqn:E. apply leading_spec in E as [-> Hr]. apply Forall_app in Hl as [_ Hl]. pose proof (be_val_range 256 ltac:(lia) r Hl) as Rr. pose proof (fits_encode (length r)) as Hfit.
  destruct (convert_spec 58 256 ltac:(lia) ltac:(lia) r (replicate (length r * 138 / 100 + 1) 0) 0 Hl (base_digits_replicate 58 _ ltac:(lia)) (zeroes_replicate _)) as (v & len & -> & Hv & _ & Ev & Hz); [rewrite le_val_replicate, length_replicate by lia; lia|].
  rewrite le_val_replicate, Z.mul_0_l, Z.add_0_l in Ev by lia. destruct (significant_spec 58 ltac:(lia) v len Hv Hz) as (H1 & H2 & H3). exists z, r, (significant v len). cbn [mbind option_bind].
  split_and!; [done| |done|done|done|done|by rewrite H2]. destruct r; done.
Qed.
(** The loop over the characters of a word, when they are few enough. *)
Lemma decode_loop_spec w v len : base_digits 256 v → Forall (λ d : Z, d = 0) (drop len v) → (le_val 256 v + 1) * 58 ^ Z.of_nat (length w) <= 256 ^ Z.of_nat (length v) →
  decode_loop w v len = Some None ∨ ∃ ds v' len', w = map chr58 ds ∧ base_digits 58 ds ∧ decode_loop w v len = Some (Some (v', len')) ∧ base_digits 256 v' ∧ Forall (λ d : Z, d = 0) (drop len' v') ∧
    le_val 256 v' = le_val 256 v * 58 ^ Z.of_nat (length w) + be_val 58 ds.
Proof.
  revert v len. induction w as [|c w IH]; intros v len Hv Hz Hfit; cbn [decode_loop].
  - right. exists [], v, len. split_and!; [done|by apply Forall_nil|done|done|done|cbn; lia].
  - destruct (strchr pszBase58 c) as [d|] eqn:E; [|by left]. apply strchr_spec in E as [Hd Ec]. change (Z.of_nat (length pszBase58)) with 58 in Hd. cbn [length] in Hfit. rewrite Nat2Z.inj_succ, Z.pow_succ_r in Hfit by lia.
    pose proof (le_val_nonneg 256 ltac:(lia) v Hv). assert (1 <= 58 ^ Z.of_nat (length w)) by lia.
    destruct (mul_add_fits 256 58 ltac:(lia) ltac:(lia) v len d Hv ltac:(lia) Hz) as (v1 & i & -> & Hv1 & El1 & Ev1 & Hz1); [nia|]. cbn [Z.eqb].
    destruct (IH v1 i Hv1 Hz1) as [->|(ds & v' & len' & -> & Hds & E & Hv' & Hz' & Ev')]; [rewrite El1, Ev1; nia|by left|]. right. exists (d :: ds), v', len'. split_and!; [by rewrite <- Ec|by constructor|done|done|done|].
    rewrite Ev', Ev1, be_val_cons by lia. cbn [length]. rewrite length_map, Nat2Z.inj_succ, Z.pow_succ_r by lia. ring.
Qed.
(** Decoding never fails an assertion; a text that is accepted is a number of
    ones and digits, apart from spaces around it. *)
Lemma DecodeBase58_spec s : DecodeBase58 s = Some None ∨ ∃ z D R sp1 sp2, cstr s = sp1 ++ replicate z 49 ++ map chr58 D ++ sp2 ∧ Forall (λ c, isspace c = true) (sp1 ++ sp2) ∧
  base_digits 58 D ∧ canonical D ∧ DecodeBase58 s = Some (Some (replicate z 0 ++ R)) ∧ bytes R ∧ canonical R ∧ be_val 256 R = be_val 58 D.
Proof.
  unfold DecodeBase58. assert (∃ sp1, cstr s = sp1 ++ skip_spaces (cstr s) ∧ Forall (λ c, isspace c = true) sp1) as (sp1 & E1 & Hsp1).
  { generalize (cstr s) as t. induction t as [|c t (sp & E & H)]; [by exists []|]. cbn [skip_spaces]. destruct (isspace c) eqn:Ec; [|by exists []]. exists (c :: sp). split; [by rewrite E at 1|by constructor]. }
  destruct (leading 49 (skip_spaces (cstr s))) as [z t] eqn:El. apply leading_spec in El as [Es Ht]. rewrite Es in E1. destruct (split_word t) as [w rest] eqn:Ew.
  assert (t = w ++ rest) as -> by (clear -Ew; revert w Ew; induction t as [|c t IH]; intros w; cbn [split_word]; [by intros [= <- <-]|]; destruct (isspace c); [by intros [= <- <-]|]; destruct (split_word t) as [w' r']; intros [= <- <-]; by rewrite (IH w' eq_refl)).
  destruct (decode_loop_spec w (replicate (length (w ++ rest) * 733 / 1000 + 1) 0) 0 (base_digits_replicate 256 _ ltac:(lia)) (zeroes_replicate _)) as [->|(ds & v & len & -> & Hds & -> & Hv & Hz & Ev)].
  { rewrite le_val_replicate, length_replicate by lia. pose proof (fits_decode (length (w ++ rest))). assert (58 ^ Z.of_nat (length w) <= 58 ^ Z.of_nat (length (w ++ rest))) by (apply Z.pow_le_mono_r; rewrite ?length_app; lia). lia. }
  { by left. }
  cbn [mbind option_bind]. destruct (forallb isspace rest) eqn:Er; [|by left]. cbn [negb]. right. rewrite le_val_replicate, Z.mul_0_l, Z.add_0_l in Ev by lia. destruct (significant_spec 256 ltac:(lia) v len Hv Hz) as (H1 & H2 & H3).
  exists z, ds, (significant v len), sp1, rest. split_and!; [done| |done| |done|done|done|by rewrite H2].
  - apply Forall_app. split; [done|]. rewrite forallb_forall in Er. apply Forall_forall. intros c Hc. apply Er. by apply list_elem_of_In.
  - destruct ds as [|d ds]; [done|]. cbn. intros ->. by apply Ht.
Qed.

Lemma decode_loop_digits D v len : base_digits 58 D → decode_loop (map chr58 D) v len = r ← convert 256 58 D v len; Some (Some r).
Proof.
  intros H. revert v len. induction H as [|d D Hd HD IH]; intros v len; cbn [map decode_loop convert]; [done|]. destruct (chr58_spec d Hd) as [-> _]. destruct (mul_add 256 58 v 0 len d) as [[v1 i] c]. destruct (c =? 0); [apply IH|done].
Qed.
Definition plain (s : list Z) : Prop := Forall (λ c, isspace c = false ∧ c ≠ 0) s.
Lemma plain_digits z D : base_digits 58 D → plain (replicate z 49 ++ map chr58 D).
Proof. intros H. apply Forall_app. split; [apply Forall_replicate; split; [done|lia]|]. apply Forall_map. eapply Forall_impl; [exact H|]. intros d Hd. destruct (chr58_spec d Hd) as (_ & ? & ? & _). split; [done|lia]. Qed.
Lemma plain_skip s : plain s → skip_spaces (cstr s) = s.
Proof. intros H. rewrite cstr_id by (eapply Forall_impl; [exact H|]; by intros c [_ Hc]). destruct H as [|c s [Hc _] _]; [done|]. cbn [skip_spaces]. by rewrite Hc. Qed.
Lemma DecodeBase58_digits z D : base_digits 58 D → canonical D → ∃ R, DecodeBase58 (replicate z 49 ++ map chr58 D) = Some (Some (replicate z 0 ++ R)) ∧ bytes R ∧ canonical R ∧ be_val 256 R = be_val 58 D.
Proof.
  intros HD Hc. unfold DecodeBase58. rewrite plain_skip by (by apply plain_digits). rewrite leading_replicate by (destruct D as [|d D]; [intros []|]; cbn; intros E; apply Forall_cons in HD as [Hd _]; by apply Hc, (chr58_spec d Hd)).
  rewrite split_word_all by (apply Forall_map; eapply Forall_impl; [exact HD|]; intros d Hd; apply (chr58_spec d Hd)). rewrite decode_loop_digits, length_map by done. pose proof (be_val_range 58 ltac:(lia) D HD). pose proof (fits_decode (length D)).
  destruct (convert_spec 256 58 ltac:(lia) ltac:(lia) D (replicate (length D * 733 / 1000 + 1) 0) 0 HD (base_digits_replicate 256 _ ltac:(lia)) (zeroes_replicate _)) as (v & len & -> & Hv & _ & Ev & Hz); [rewrite le_val_replicate, length_replicate by lia; lia|].
  rewrite le_val_replicate, Z.mul_0_l, Z.add_0_l in Ev by lia. destruct (significant_spec 256 ltac:(lia) v len Hv Hz) as (H1 & H2 & H3). exists (significant v len). cbn [mbind option_bind forallb negb]. split_and!; [done|done|done|by rewrite H2].
Qed.
(** Bytes are recovered from their text, and a text without spaces from its
    bytes. *)
Lemma base58_roundtrip l : bytes l → ∃ s, EncodeBase58 l = Some s ∧ plain s ∧ DecodeBase58 s = Some (Some l).
Proof.
  intros Hl. destruct (EncodeBase58_spec l Hl) as (z & r & D & -> & Hr & Hbr & E & HD & HcD & Ev). eexists. split; [exact E|]. split; [by apply plain_digits|]. destruct (DecodeBase58_digits z D HD HcD) as (R & -> & HR & HcR & EvR).
  do 3 f_equal. apply (canonical_inj 256); [lia|done|done|done|done|congruence].
Qed.
Lemma base58_unique s v : plain s → DecodeBase58 s = Some (Some v) → bytes v ∧ EncodeBase58 v = Some s.
Proof.
  intros Hs Hdec. destruct (DecodeBase58_spec s) as [E|(z & D & R & sp1 & sp2 & Es & Hsp & HD & HcD & E & HR & HcR & Ev)]; rewrite Hdec in E; [done|]. injection E as ->. rewrite cstr_id in Es by (eapply Forall_impl; [exact Hs|]; by intros c [_ Hc]).
  assert (sp1 = [] ∧ sp2 = []) as [-> ->].
  { apply Forall_app in Hsp as [Hsp1 Hsp2]. rewrite Es in Hs. unfold plain in Hs. rewrite !Forall_app in Hs. destruct Hs as (P1 & _ & _ & P2). split; [destruct sp1 as [|c t]|destruct sp2 as [|c t]]; try done; exfalso.
    - apply Forall_cons in Hsp1 as [H1 _]. apply Forall_cons in P1 as [[H2 _] _]. congruence.
    - apply Forall_cons in Hsp2 as [H1 _]. apply Forall_cons in P2 as [[H2 _] _]. congruence. }
  cbn [app] in Es. rewrite app_nil_r in Es. subst s. assert (bytes (replicate z 0 ++ R)) as Hb by (apply Forall_app; split; [by apply Forall_replicate|done]). split; [done|].
  assert (∀ l, canonical l → ¬ starts 0 l) as Hcs by (intros [|x l] Hx; [intros []|exact Hx]).
  destruct (EncodeBase58_spec _ Hb) as (z' & r & D' & Ez & Hr & Hbr & -> & HD' & HcD' & Ev'). assert (leading 0 (replicate z 0 ++ R) = leading 0 (replicate z' 0 ++ r)) as El by (by rewrite Ez). rewrite !leading_replicate in El by auto. injection El as <- <-.
  do 3 f_equal. apply (canonical_inj 58); [lia|done|done|done|done|congruence].
Qed.

(** ** With a checksum *)

Section checksum.
Context `{ScriptCryptoLaws} (SHA256_bytes : ∀ v, bytes (SHA256 v)).
Lemma bytes_take n l : bytes l → bytes (take n l).
Proof. apply Forall_take. Qed.
Lemma check_bytes l : bytes l → bytes (l ++ take 4 (Hash256 l)).
Proof. intros Hl. apply Forall_app. split; [done|]. apply bytes_take, SHA256_bytes. Qed.
Lemma length_check l : length (take 4 (Hash256 l)) = 4%nat.
Proof. rewrite length_take. unfold Hash256. rewrite SHA256_size. done. Qed.
Lemma base58check_roundtrip l : bytes l → ∃ s, EncodeBase58Check l = Some s ∧ plain s ∧ DecodeBase58Check s = Some (Some l).
Proof.
  intros Hl. destruct (base58_roundtrip _ (check_bytes l Hl)) as (s & E & Hs & Ed). exists s. split_and!; [done|done|]. unfold DecodeBase58Check. rewrite Ed. cbn [mbind option_bind]. rewrite length_app, length_check. destruct (Nat.ltb_spec (length l + 4) 4); [lia|].
  replace (length l + 4 - 4)%nat with (length l) by lia. rewrite take_app_length, drop_app_length. by rewrite bool_decide_eq_true_2.
Qed.
Lemma base58check_unique s l : plain s → DecodeBase58Check s = Some (Some l) → bytes l ∧ EncodeBase58Check l = Some s.
Proof.
  intros Hs. unfold DecodeBase58Check. destruct (DecodeBase58 s) as [[vch|]|] eqn:E; [|done|done]. cbn [mbind option_bind]. destruct (Nat.ltb_spec (length vch) 4); [done|]. case_bool_decide as Hc; [|done]. intros [= <-].
  destruct (base58_unique s vch Hs E) as [Hb Ee]. split; [by apply bytes_take|]. unfold EncodeBase58Check. by rewrite Hc, take_drop.
Qed.
Lemma DecodeBase58Check_returns s : ∃ r, DecodeBase58Check s = Some r.
Proof.
  unfold DecodeBase58Check. destruct (DecodeBase58_spec s) as [->|(z & D & R & sp1 & sp2 & _ & _ & _ & _ & -> & _)]; cbn [mbind option_bind]; [by eexists|]. repeat case_match; by eexists.
Qed.

(** ** Addresses and keys *)

Definition dest_ok (dest : CTxDestination) : Prop := match dest with CKeyID h | CScriptID h => length h = 20%nat ∧ bytes h | CNoDestination => False end.
Definition address_type (staking : bool) : Base58Type := if staking then STAKING_ADDRESS else PUBKEY_ADDRESS.
(** Only addresses of keys are staking addresses. *)
Definition is_staking (dest : CTxDestination) (staking : bool) : bool := match dest with CKeyID _ => staking | _ => false end.
Definition dest_data (params : Base58Prefixes) (dest : CTxDestination) (staking : bool) : list Z :=
  match dest with CKeyID h => params (address_type staking) ++ h | CScriptID h => params SCRIPT_ADDRESS ++ h | CNoDestination => [] end.
Definition known_network (params : Base58Prefixes) : Prop := params = main_prefixes ∨ params = test_prefixes.

Lemma prefix_app p q h n : length p = 1%nat → length q = 1%nat → length h = n → has_prefix p (q ++ h) n = bool_decide (p = q).
Proof.
  intros Hp Hq Hh. unfold has_prefix. rewrite length_app, Hq, Hp, Hh. replace (1 + n =? n + 1)%nat with true by (symmetry; apply Nat.eqb_eq; lia). cbn [andb]. rewrite <- Hq, take_app_length. by apply bool_decide_ext.
Qed.
Lemma has_prefix_inv p data n : has_prefix p data n = true → data = p ++ drop (length p) data ∧ length (drop (length p) data) = n.
Proof. intros [E1%Nat.eqb_eq E2%bool_decide_eq_true]%andb_true_iff. rewrite length_drop. split; [|lia]. rewrite <- E2 at 1. by rewrite take_drop. Qed.
Lemma network_prefixes params : known_network params → (∀ ty, length (params ty) = 1%nat ∧ bytes (params ty)) ∧
  params PUBKEY_ADDRESS ≠ params STAKING_ADDRESS ∧ params PUBKEY_ADDRESS ≠ params SCRIPT_ADDRESS ∧ params STAKING_ADDRESS ≠ params SCRIPT_ADDRESS.
Proof. intros [->| ->]; (split; [intros []; (split; [done|apply Forall_singleton; unfold is_u8; lia])|done]). Qed.
(** What the decoder makes of the data in an address. *)
Definition read_data (params : Base58Prefixes) (data : list Z) : CTxDestination * bool :=
  if has_prefix (params PUBKEY_ADDRESS) data 20 then (CKeyID (drop (length (params PUBKEY_ADDRESS)) data), false)
  else if has_prefix (params STAKING_ADDRESS) data 20 then (CKeyID (drop (length (params STAKING_ADDRESS)) data), true)
  else if has_prefix (params SCRIPT_ADDRESS) data 20 then (CScriptID (drop (length (params SCRIPT_ADDRESS)) data), false)
  else (CNoDestination, false).
Lemma read_dest_data params dest staking : known_network params → dest_ok dest → read_data params (dest_data params dest staking) = (dest, is_staking dest staking).
Proof.
  intros Hp Hd. destruct (network_prefixes params Hp) as (Hl & N1 & N2 & N3). unfold read_data. destruct dest as [|h|h]; [done| |]; destruct Hd as [Hh _]; cbn [dest_data is_staking];
    rewrite !prefix_app by (done || apply Hl); repeat case_bool_decide; destruct staking; cbn [address_type] in *; try congruence; f_equal; f_equal; by rewrite drop_app_length'.
Qed.
Lemma read_data_inv params data dest b : known_network params → dest ≠ CNoDestination → read_data params data = (dest, b) → data = dest_data params dest b ∧ is_staking dest b = b.
Proof.
  intros Hp Hd. unfold read_data. repeat case_match; intros [= <- <-]; try done; cbn [dest_data address_type is_staking]; (split; [|done]); by apply has_prefix_inv with (n := 20%nat).
Qed.
Lemma EncodeDestination_data params dest staking : dest ≠ CNoDestination → EncodeDestination params dest (address_type staking) = EncodeBase58Check (dest_data params dest staking).
Proof. by destruct dest. Qed.
Lemma DecodeDestination_data params s : DecodeDestination params s false = r ← DecodeBase58Check s; Some (from_option (read_data params) (CNoDestination, false) r).
Proof. unfold DecodeDestination, read_data. destruct (DecodeBase58Check s) as [[data|]|]; done. Qed.
Lemma address_roundtrip params dest staking : known_network params → dest_ok dest → ∃ s, EncodeDestination params dest (address_type staking) = Some s ∧ plain s ∧ DecodeDestination params s false = Some (dest, is_staking dest staking) ∧
  ∀ s', plain s' → DecodeDestination params s' false = Some (dest, is_staking dest staking) → s' = s.
Proof.
  intros Hp Hd. destruct (network_prefixes params Hp) as (Hl & _). assert (dest ≠ CNoDestination) as Hn by (by destruct dest).
  assert (dest_data params dest (is_staking dest staking) = dest_data params dest staking) as Es by (by destruct dest).
  assert (bytes (dest_data params dest staking)) as Hb by (destruct dest; destruct Hd; apply Forall_app; split; try done; apply Hl).
  destruct (base58check_roundtrip _ Hb) as (s & E & Hs & Ed). exists s. rewrite EncodeDestination_data by done. split_and!; [done|done|rewrite DecodeDestination_data, Ed; cbn [mbind option_bind from_option]; by rewrite read_dest_data|].
  intros s' Hs'. rewrite DecodeDestination_data. destruct (DecodeBase58Check s') as [[data|]|] eqn:E'; cbn [mbind option_bind from_option]; [|by intros [= E0 _]; destruct Hn|done]. intros E0. apply Some_inj in E0.
  apply read_data_inv in E0 as [-> _]; [|done|done]. destruct (base58check_unique s' _ Hs' E') as [_ E2]. rewrite Es in E2. congruence.
Qed.
Lemma secret_roundtrip params KeyCheck k : known_network params → k.(fValid) = true → length k.(keydata) = 32%nat → bytes k.(keydata) → KeyCheck k.(keydata) = true →
  ∃ s, EncodeSecret params k = Some s ∧ DecodeSecret params KeyCheck s = Some k.
Proof.
  intros Hp Hv Hk Hb Hc. destruct (network_prefixes params Hp) as (Hl & _). destruct (Hl SECRET_KEY) as [Hp1 Hp2]. destruct k as [kd comp vd]; cbn [keydata fValid fCompressed] in *. subst vd. unfold EncodeSecret. cbn [keydata fValid fCompressed negb].
  set (tail := if comp then [1] else []). destruct (base58check_roundtrip (params SECRET_KEY ++ kd ++ tail)) as (s & E & _ & Ed); [unfold bytes; rewrite !Forall_app; split_and!; [done|done|unfold tail; destruct comp; [apply Forall_singleton; unfold is_u8; lia|by apply Forall_nil]]|].
  exists s. split; [done|]. unfold DecodeSecret. rewrite Ed. cbn [mbind option_bind]. rewrite !length_app, Hp1, Hk. rewrite <- Hp1, take_app_length, drop_app_length. rewrite Hp1. rewrite bool_decide_eq_true_2 by done. rewrite andb_true_r.
  assert (((1 + (32 + length tail) =? 32 + 1)%nat || ((1 + (32 + length tail) =? 33 + 1)%nat && (List.last (params SECRET_KEY ++ kd ++ tail) 0 =? 1))) = true) as ->.
  { unfold tail. destruct comp; [|done]. rewrite !app_assoc, last_last. done. }
  rewrite take_app_length' by done. unfold CKey_Set. rewrite Hk, Hc. cbn. unfold tail. by destruct comp.
Qed.
End checksum.

(** C20: addresses are read back and are unique.  With the hash functions of the
    program, on both networks, the address of a key, of a staker or of a script
    is decoded to the same destination, with the flag for staking; no assertion
    fails, and no other text without spaces is decoded to it. *)
Theorem addresses_read_back (CheckLowS : valtype → bool) (params : Base58Prefixes) (dest : CTxDestination) (staking : bool) : known_network params → dest_ok dest →
  ∃ s, @EncodeDestination (core_crypto CheckLowS) params dest (address_type staking) = Some s ∧
    @DecodeDestination (core_crypto CheckLowS) params s false = Some (dest, is_staking dest staking) ∧
    ∀ s', plain s' → @DecodeDestination (core_crypto CheckLowS) params s' false = Some (dest, is_staking dest staking) → s' = s.
Proof.
  intros Hp Hd. assert (∀ v, bytes (@SHA256 (core_crypto CheckLowS) v)) as Hb by (intros v; cbn [SHA256 core_crypto]; rewrite core_SHA256_eq; apply fips_SHA256_bytes).
  destruct (@address_roundtrip (core_crypto CheckLowS) (core_crypto_laws CheckLowS) Hb params dest staking Hp Hd) as (s & E & _ & Ed & Hu). by exists s.
Qed.
Definition sample_key_id : CTxDestination := CKeyID (seqZ 1 20).
Lemma addresses_read_back_witness : ∃ s, @EncodeDestination (core_crypto (λ _, true)) main_prefixes sample_key_id (address_type true) = Some s ∧
    @DecodeDestination (core_crypto (λ _, true)) main_prefixes s false = Some (sample_key_id, is_staking sample_key_id true) ∧
    ∀ s', plain s' → @DecodeDestination (core_crypto (λ _, true)) main_prefixes s' false = Some (sample_key_id, is_staking sample_key_id true) → s' = s.
Proof.
  apply (addresses_read_back (λ _, true) main_prefixes sample_key_id true); [by left|]. split; [done|]. apply Forall_forall. intros x Hx. apply elem_of_seqZ in Hx. unfold is_u8. lia.
Defined.
(** The address of a zero hash on the main network, as text. *)
Example address_text : @EncodeDestination (core_crypto (λ _, true)) main_prefixes (CKeyID (replicate 20 0)) PUBKEY_ADDRESS = Some (chars "QLbz7JHiBTspS962RLKV8GndWFwiJNvEPz").
Proof. vm_compute. reflexivity. Qed.
