(* ===== verification/Bech32.v ===== *)
(** * Bech32: shielded addresses as text ([bech32.cpp], [sapling/key_io_sapling.cpp])

    A text has a part that is for people to read, a separator and characters of
    five bits each, the last six of which are a checksum. *)

From S2P Require Import Prelude ArithUint256 Script Interpreter Serialize Transaction Crypto Sha2 Sha1Ripemd Hash StrEncodings.
From Stdlib Require Import String.
Local Open Scope Z_scope.
Local Notation length := Datatypes.length.

Definition CHARSET : list Z := Eval vm_compute in chars "qpzry9x8gf2tvdw0s3jn54khce6mua7l".
Definition CHARSET_REV : list Z :=
  [-1; -1; -1; -1; -1; -1; -1; -1; -1; -1; -1; -1; -1; -1; -1; -1;
   -1; -1; -1; -1; -1; -1; -1; -1; -1; -1; -1; -1; -1; -1; -1; -1;
   -1; -1; -1; -1; -1; -1; -1; -1; -1; -1; -1; -1; -1; -1; -1; -1;
   15; -1; 10; 17; 21; 20; 26; 30; 7; 5; -1; -1; -1; -1; -1; -1;
   -1; 29; -1; 24; 13; 25; 9; 8; 23; -1; 18; 22; 31; 27; 19; -1;
   1; 0; 3; 16; 11; 28; 12; 14; 6; 4; 2; -1; -1; -1; -1; -1;
   -1; 29; -1; 24; 13; 25; 9; 8; 23; -1; 18; 22; 31; 27; 19; -1;
   1; 0; 3; 16; 11; 28; 12; 14; 6; 4; 2; -1; -1; -1; -1; -1].

(** ** The checksum *)

(** One round of [PolyMod]. *)
Definition poly_step (c v_i : Z) : Z :=
  let c0 := u8 (Z.shiftr c 25) in
  let c := Z.lxor (u32 (Z.shiftl (Z.land c 0x1ffffff) 5)) v_i in
  let c := if negb (Z.land c0 1 =? 0) then Z.lxor c 0x3b6a57b2 else c in
  let c := if negb (Z.land c0 2 =? 0) then Z.lxor c 0x26508e6d else c in
  let c := if negb (Z.land c0 4 =? 0) then Z.lxor c 0x1ea119fa else c in
  let c := if negb (Z.land c0 8 =? 0) then Z.lxor c 0x3d4233dd else c in
  if negb (Z.land c0 16 =? 0) then Z.lxor c 0x2a1462b3 else c.
Definition PolyMod (v : list Z) : Z := foldl poly_step 1 v.
Definition LowerCase (c : Z) : Z := if (65 <=? c) && (c <=? 90) then (c - 65) + 97 else c.
Definition ExpandHRP (hrp : list Z) : list Z := map (λ c, Z.shiftr c 5) hrp ++ [0] ++ map (λ c, Z.land c 0x1f) hrp.
Definition VerifyChecksum (hrp values : list Z) : bool := PolyMod (ExpandHRP hrp ++ values) =? 1.
Definition CreateChecksum (hrp values : list Z) : list Z :=
  let mod1 := Z.lxor (PolyMod ((ExpandHRP hrp ++ values) ++ replicate 6 0)) 1 in
  map (λ i, Z.land (Z.shiftr mod1 (5 * (5 - i))) 31) [0; 1; 2; 3; 4; 5].

(** ** Texts *)

Definition chr32 (v : Z) : Z := nth (Z.to_nat v) CHARSET 0.
Definition Encode (hrp values : list Z) : list Z :=
  let combined := values ++ CreateChecksum hrp values in
  if existsb (λ c, 32 <=? c) combined then [] else hrp ++ [49] ++ map chr32 combined.
(** [str.rfind('1')]: what is before the last separator and after it. *)
Fixpoint split_last (s : list Z) : option (list Z * list Z) :=
  match s with
  | [] => None
  | c :: s =>
      match split_last s with
      | Some (a, b) => Some (c :: a, b)
      | None => if c =? 49 then Some ([], s) else None
      end
  end.
Definition rev32 (c : Z) : Z := if (c <? 33) || (126 <? c) then -1 else nth (Z.to_nat c) CHARSET_REV (-1).
(** The empty pair is the result for a text that is not accepted. *)
Definition Decode (str : list Z) : list Z * list Z :=
  if existsb (λ c, (c <? 33) || (126 <? c)) str then ([], [])
  else if existsb (λ c, (97 <=? c) && (c <=? 122)) str && existsb (λ c, (65 <=? c) && (c <=? 90)) str then ([], [])
  else
    match split_last str with
    | None => ([], [])
    | Some (pre, data) =>
        if (1023 <? length str)%nat || (length pre =? 0)%nat || (length str <? length pre + 7)%nat then ([], [])
        else
          let values := map rev32 data in
          if existsb (λ v, v =? -1) values then ([], [])
          else
            let hrp := map LowerCase pre in
            if negb (VerifyChecksum hrp values) then ([], []) else (hrp, take (length values - 6) values)
    end.

(** ** Shielded addresses *)

Record SaplingPaymentAddress := mkPaymentAddress { diversifier : list Z; pk_d : base_uint }.
Definition c_payment_address : codec SaplingPaymentAddress :=
  {| enc a := (c_array 11).(enc) a.(diversifier) ++ c_uint256.(enc) a.(pk_d);
     dec s := '(d, s) ← (c_array 11).(dec) s; '(p, s) ← c_uint256.(dec) s; Some (mkPaymentAddress d p, s) |}.
Definition ConvertedSaplingPaymentAddressSize : nat := ((32 + 11) * 8 + 4) / 5.
(** [params.Bech32HRP(SAPLING_PAYMENT_ADDRESS)] of the two networks. *)
Definition main_hrp : list Z := Eval vm_compute in chars "qrax".
Definition test_hrp : list Z := Eval vm_compute in chars "qraxtestsapling".
Definition EncodePaymentAddress (hrp : list Z) (zaddr : SaplingPaymentAddress) : list Z :=
  Encode hrp (ConvertBits 8 5 true (c_payment_address.(enc) zaddr)).1.
(** [DecodePaymentAddress]; the outer [None] is an exception of the stream. *)
Definition DecodePaymentAddress (hrp : list Z) (str : list Z) : option (option SaplingPaymentAddress) :=
  let bech := Decode str in
  if bool_decide (bech.1 = hrp) && (length bech.2 =? ConvertedSaplingPaymentAddressSize)%nat then
    let '(data, ok) := ConvertBits 5 8 false bech.2 in
    if (ok : bool) then '(a, _) ← c_payment_address.(dec) data; Some (Some a) else Some None
  else Some None.

(** ** The checksum is linear *)

(** The multiple of the generator that a round adds for its leading group. *)
Definition gen_bit (i k x : Z) : Z := if Z.testbit x i then k else 0.
Definition gen (x : Z) : Z :=
  Z.lxor (gen_bit 0 0x3b6a57b2 x) (Z.lxor (gen_bit 1 0x26508e6d x) (Z.lxor (gen_bit 2 0x1ea119fa x) (Z.lxor (gen_bit 3 0x3d4233dd x) (gen_bit 4 0x2a1462b3 x)))).
(** A round without input. *)
Definition turn (c : Z) : Z := Z.lxor (Z.shiftl (Z.land c (Z.ones 25)) 5) (gen (Z.shiftr c 25)).
Local Ltac xor_solve := apply Z.bits_inj'; intros ? ?; rewrite ?Z.lxor_spec; repeat match goal with |- context [Z.testbit ?a ?b] => destruct (Z.testbit a b) end; reflexivity.

Lemma lxor_bound a b w : 0 <= w → 0 <= a < 2 ^ w → 0 <= b < 2 ^ w → 0 <= Z.lxor a b < 2 ^ w.
Proof.
  intros Hw Ha Hb. assert (0 <= Z.lxor a b) by (apply Z.lxor_nonneg; lia). split; [done|]. apply bits_bound; [done|done|]. intros i Hi. by rewrite Z.lxor_spec, (testbit_above a w i), (testbit_above b w i).
Qed.
Lemma high_bound c : 0 <= c < 2 ^ 30 → 0 <= Z.shiftr c 25 < 32.
Proof. intros H. rewrite Z.shiftr_div_pow2 by lia. split; [apply Z.div_pos; lia|apply Z.div_lt_upper_bound; lia]. Qed.
Lemma poly_step_turn c v : 0 <= c < 2 ^ 30 → poly_step c v = Z.lxor (turn c) v.
Proof.
  intros Hc. pose proof (high_bound c Hc) as Hh. unfold poly_step, turn. change 0x1ffffff with (Z.ones 25). set (h := Z.shiftr c 25) in *. assert (u8 h = h) as -> by (apply u8_id; unfold is_u8; lia).
  assert (u32 (Z.shiftl (Z.land c (Z.ones 25)) 5) = Z.shiftl (Z.land c (Z.ones 25)) 5) as ->.
  { apply u32_id. unfold is_u32. rewrite Z.land_ones, Z.shiftl_mul_pow2 by lia. pose proof (Z.mod_pos_bound c (2 ^ 25) ltac:(lia)). lia. }
  set (x := Z.shiftl _ 5). assert (∀ i, 0 <= i < 5 → (Z.land h (2 ^ i) =? 0) = negb (Z.testbit h i)) as Ht.
  { intros i Hi. clear -Hi. destruct (Z.testbit h i) eqn:E; cbn [negb]; [apply Z.eqb_neq|apply Z.eqb_eq].
    - intros E0. apply (f_equal (λ z, Z.testbit z i)) in E0. by rewrite Z.land_spec, E, Z.pow2_bits_true, Z.bits_0 in E0 by lia.
    - apply Z.bits_inj'. intros j Hj. rewrite Z.land_spec, Z.bits_0. destruct (decide (j = i)) as [->|]; [by rewrite E|]. rewrite Z.pow2_bits_false by lia. by rewrite andb_false_r. }
  pose proof (Ht 0 ltac:(lia)) as H0. pose proof (Ht 1 ltac:(lia)) as H1. pose proof (Ht 2 ltac:(lia)) as H2. pose proof (Ht 3 ltac:(lia)) as H3. pose proof (Ht 4 ltac:(lia)) as H4.
  change (2 ^ 0) with 1 in H0. change (2 ^ 1) with 2 in H1. change (2 ^ 2) with 4 in H2. change (2 ^ 3) with 8 in H3. change (2 ^ 4) with 16 in H4.
  rewrite H0, H1, H2, H3, H4, !negb_involutive. unfold gen, gen_bit. clearbody x. clear. destruct (Z.testbit h 0), (Z.testbit h 1), (Z.testbit h 2), (Z.testbit h 3), (Z.testbit h 4); rewrite ?Z.lxor_0_r, ?Z.lxor_0_l, ?Z.lxor_assoc; f_equal; rewrite ?Z.lxor_assoc, 1?(Z.lxor_comm v); rewrite ?Z.lxor_assoc; done.
Qed.
Lemma gen_bit_lxor i k a b : gen_bit i k (Z.lxor a b) = Z.lxor (gen_bit i k a) (gen_bit i k b).
Proof. unfold gen_bit. rewrite Z.lxor_spec. destruct (Z.testbit a i), (Z.testbit b i); cbn [xorb]; by rewrite ?Z.lxor_0_l, ?Z.lxor_0_r, ?Z.lxor_nilpotent. Qed.
Lemma gen_lxor a b : gen (Z.lxor a b) = Z.lxor (gen a) (gen b).
Proof. unfold gen. rewrite !gen_bit_lxor. xor_solve. Qed.
Lemma land_lxor a b m : Z.land (Z.lxor a b) m = Z.lxor (Z.land a m) (Z.land b m).
Proof. apply Z.bits_inj'. intros i _. rewrite !Z.lxor_spec, !Z.land_spec, Z.lxor_spec. destruct (Z.testbit a i), (Z.testbit b i), (Z.testbit m i); reflexivity. Qed.
Lemma turn_lxor a b : turn (Z.lxor a b) = Z.lxor (turn a) (turn b).
Proof. unfold turn. rewrite land_lxor, Z.shiftl_lxor, Z.shiftr_lxor, gen_lxor. xor_solve. Qed.
Lemma gen_spec h : 0 <= h < 32 → 0 <= gen h < 2 ^ 30 ∧ (gen h mod 32 = 0 → h = 0).
Proof.
  intros Hh. assert ((0 <=? gen h) && (gen h <? 2 ^ 30) && (negb (gen h mod 32 =? 0) || (h =? 0)) = true) as H by (revert h Hh; apply (below_check _ 32); vm_compute; done).
  rewrite !andb_true_iff, orb_true_iff, negb_true_iff in H. lia.
Qed.
Lemma low_bound c : 0 <= Z.shiftl (Z.land c (Z.ones 25)) 5 < 2 ^ 30.
Proof. rewrite Z.land_ones, Z.shiftl_mul_pow2 by lia. pose proof (Z.mod_pos_bound c (2 ^ 25) ltac:(lia)). lia. Qed.
Lemma poly_step_bound c v : 0 <= c < 2 ^ 30 → 0 <= v < 32 → 0 <= poly_step c v < 2 ^ 30.
Proof. intros Hc Hv. rewrite poly_step_turn by done. apply lxor_bound; [lia| |lia]. apply lxor_bound; [lia|apply low_bound|apply gen_spec, high_bound, Hc]. Qed.
Lemma polymod_bound l c : base_digits 32 l → 0 <= c < 2 ^ 30 → 0 <= foldl poly_step c l < 2 ^ 30.
Proof. intros H. revert c. induction H as [|v l Hv Hl IH]; intros c Hc; cbn [foldl]; [done|]. apply IH. by apply poly_step_bound. Qed.
(** A round loses nothing. *)
Lemma turn_zero e : 0 <= e < 2 ^ 30 → turn e = 0 → e = 0.
Proof.
  intros He Ht. unfold turn in Ht. apply Z.lxor_eq in Ht. pose proof (gen_spec _ (high_bound e He)) as [_ Hg]. rewrite Z.land_ones, Z.shiftl_mul_pow2 in Ht by lia.
  assert (Z.shiftr e 25 = 0) as Eh by (apply Hg; rewrite <- Ht; apply Z.mod_mul; lia). rewrite Eh in Ht. change (gen 0) with 0 in Ht. rewrite Z.shiftr_div_pow2 in Eh by lia. rewrite (Z.div_mod e (2 ^ 25)) by lia. lia.
Qed.
Lemma polymod_inj l c1 c2 : base_digits 32 l → 0 <= c1 < 2 ^ 30 → 0 <= c2 < 2 ^ 30 → foldl poly_step c1 l = foldl poly_step c2 l → c1 = c2.
Proof.
  intros H. revert c1 c2. induction H as [|v l Hv Hl IH]; intros c1 c2 H1 H2; cbn [foldl]; [done|]. intros E. apply IH in E; [|by apply poly_step_bound..]. rewrite !poly_step_turn in E by done.
  apply Z.lxor_eq. apply turn_zero; [by apply lxor_bound; [lia|..]|]. rewrite turn_lxor. apply Z.lxor_eq_0_iff. apply (f_equal (λ z, Z.lxor z v)) in E. by rewrite !Z.lxor_assoc, Z.lxor_nilpotent, !Z.lxor_0_r in E.
Qed.
Lemma digit_lxor a b : 0 <= a < 32 → 0 <= b < 32 → 0 <= Z.lxor a b < 32.
Proof. apply (lxor_bound a b 5). lia. Qed.
Lemma zip_lxor_digits x y : base_digits 32 x → base_digits 32 y → base_digits 32 (zip_with Z.lxor x y).
Proof. intros Hx. revert y. induction Hx as [|a x Ha Hx IH]; intros y Hy; [by apply Forall_nil|]. destruct Hy as [|b y Hb Hy]; [by apply Forall_nil|]. constructor; [by apply digit_lxor|by apply IH]. Qed.
(** The difference that up to six groups make. *)
Lemma polymod_diff x y c : length x = length y → (length x <= 6)%nat → base_digits 32 x → base_digits 32 y → 0 <= c < 2 ^ 30 →
  Z.lxor (foldl poly_step c x) (foldl poly_step c y) = be_val 32 (zip_with Z.lxor x y).
Proof.
  revert y. induction x as [|a x IH] using rev_ind; intros y El Hl Hx Hy Hc; [by destruct y; [apply Z.lxor_nilpotent|]|]. destruct y as [|b y _] using rev_ind; [rewrite length_app in El; cbn in El; lia|].
  rewrite !length_app in El. rewrite length_app in Hl. cbn [length] in El, Hl. apply Forall_app in Hx as [Hx Ha]. apply Forall_cons in Ha as [Ha _]. apply Forall_app in Hy as [Hy Hb]. apply Forall_cons in Hb as [Hb _].
  rewrite !foldl_app. cbn [foldl]. rewrite !poly_step_turn by (by apply polymod_bound). rewrite zip_with_app by lia. cbn [zip_with]. rewrite be_val_snoc. rewrite <- (IH y) by (done || lia).
  set (C := foldl poly_step c x). set (C' := foldl poly_step c y). transitivity (Z.lxor (turn (Z.lxor C C')) (Z.lxor a b)); [rewrite turn_lxor; xor_solve|].
  unfold C, C'. rewrite IH by (done || lia). pose proof (zip_lxor_digits x y Hx Hy) as Hz. pose proof (be_val_range 32 ltac:(lia) _ Hz) as Re. rewrite length_zip_with in Re. set (e := be_val 32 (zip_with Z.lxor x y)) in *.
  assert (32 ^ Z.of_nat (length x `min` length y) <= 2 ^ 25) by (change (2 ^ 25) with (32 ^ 5); apply Z.pow_le_mono_r; lia).
  unfold turn. rewrite Z.land_ones, Z.mod_small by lia. rewrite Z.shiftr_div_pow2, Z.div_small by lia. change (gen 0) with 0. rewrite Z.lxor_0_r.
  pose proof (digit_lxor a b Ha Hb) as Hd. rewrite <- Z.add_nocarry_lxor; [rewrite Z.shiftl_mul_pow2 by lia; lia|]. apply Z.bits_inj'. intros i Hi. rewrite Z.land_spec, Z.bits_0, Z.shiftl_spec by lia.
  destruct (decide (i < 5)); [by rewrite (Z.testbit_neg_r e) by lia|]. rewrite (testbit_above (Z.lxor a b) 5) by lia. by rewrite andb_false_r.
Qed.

(** ** Texts *)

Definition hrp_ok (hrp : list Z) : Prop := Forall (λ c, 33 <= c <= 126 ∧ (65 <=? c) && (c <=? 90) = false) hrp ∧ hrp ≠ [].
Lemma ExpandHRP_digits hrp : hrp_ok hrp → base_digits 32 (ExpandHRP hrp).
Proof.
  intros [H _]. unfold ExpandHRP, base_digits. rewrite !Forall_app, Forall_singleton, !Forall_map. split; [|split; [lia|]]; (eapply Forall_impl; [exact H|]); cbn; intros c [Hc _].
  - rewrite Z.shiftr_div_pow2 by lia. split; [apply Z.div_pos; lia|apply Z.div_lt_upper_bound; lia].
  - change 31 with (Z.ones 5). rewrite Z.land_ones by lia. apply Z.mod_pos_bound. lia.
Qed.
Lemma groups_spec m : 0 <= m < 2 ^ 30 → let w := map (λ i, Z.land (Z.shiftr m (5 * (5 - i))) 31) [0; 1; 2; 3; 4; 5] in base_digits 32 w ∧ be_val 32 w = m.
Proof.
  intros Hm w. assert (∀ i, Z.land i 31 = i mod 32) as Hl by (intros i; change 31 with (Z.ones 5); by rewrite Z.land_ones by lia). split.
  - apply Forall_map, Forall_true. intros i. rewrite Hl. apply Z.mod_pos_bound. lia.
  - unfold w, be_val. cbn [map foldl]. rewrite !Hl. repeat match goal with |- context [5 * (5 - ?k)] => let v := eval vm_compute in (5 * (5 - k)) in change (5 * (5 - k)) with v end. rewrite !Z.shiftr_div_pow2 by lia.
    change (2 ^ 25) with (32 * 32 * 32 * 32 * 32). change (2 ^ 20) with (32 * 32 * 32 * 32). change (2 ^ 15) with (32 * 32 * 32). change (2 ^ 10) with (32 * 32). change (2 ^ 5) with 32. rewrite <- !Z.div_div by lia. change (2 ^ 0) with 1. rewrite Z.div_1_r.
    set (q1 := m / 32). set (q2 := q1 / 32). set (q3 := q2 / 32). set (q4 := q3 / 32). pose proof (Z.div_mod m 32 ltac:(lia)). pose proof (Z.div_mod q1 32 ltac:(lia)). pose proof (Z.div_mod q2 32 ltac:(lia)). pose proof (Z.div_mod q3 32 ltac:(lia)). pose proof (Z.div_mod q4 32 ltac:(lia)).
    fold q1 in H. fold q2 in H0. fold q3 in H1. fold q4 in H2. assert (q4 / 32 < 32) by (unfold q4, q3, q2, q1; rewrite !Z.div_div by lia; apply Z.div_lt_upper_bound; lia). assert (0 <= q4 / 32) by (unfold q4, q3, q2, q1; rewrite !Z.div_div by lia; apply Z.div_pos; lia).
    rewrite (Z.mod_small (q4 / 32)) by lia. lia.
Qed.
Lemma zip_lxor_zeroes w : zip_with Z.lxor w (replicate (length w) 0) = w.
Proof. induction w as [|a w IH]; cbn [length replicate zip_with]; [done|]. by rewrite Z.lxor_0_r, IH. Qed.
(** The checksum that is made is accepted. *)
Lemma CreateChecksum_spec hrp values : hrp_ok hrp → base_digits 32 values → let w := CreateChecksum hrp values in base_digits 32 w ∧ length w = 6%nat ∧ VerifyChecksum hrp (values ++ w) = true.
Proof.
  intros Hh Hv w. set (l := ExpandHRP hrp ++ values). assert (base_digits 32 l) as Hl by (apply Forall_app; split; [by apply ExpandHRP_digits|done]). assert (base_digits 32 (replicate 6 0)) as Hz by (apply Forall_replicate; lia).
  set (c := foldl poly_step 1 l). assert (0 <= c < 2 ^ 30) as Hc by (apply polymod_bound; [done|lia]). pose proof (polymod_bound _ c Hz Hc) as Hp. set (P := foldl poly_step c (replicate 6 0)) in *.
  assert (PolyMod (l ++ replicate 6 0) = P) as EP by (unfold PolyMod; by rewrite foldl_app). destruct (groups_spec (Z.lxor P 1) (lxor_bound P 1 30 ltac:(lia) Hp ltac:(lia))) as [Hd Ew].
  assert (w = map (λ i, Z.land (Z.shiftr (Z.lxor P 1) (5 * (5 - i))) 31) [0; 1; 2; 3; 4; 5]) as E by (unfold w, CreateChecksum; fold l; by rewrite EP). rewrite <- E in Hd, Ew. assert (length w = 6%nat) as Hw by (by rewrite E). split_and!; [done|done|].
  unfold VerifyChecksum. apply Z.eqb_eq. rewrite app_assoc. fold l. unfold PolyMod. rewrite foldl_app. fold c. pose proof (polymod_diff w (replicate 6 0) c) as D. rewrite length_replicate in D. specialize (D Hw ltac:(lia) Hd Hz Hc).
  rewrite <- Hw, zip_lxor_zeroes, Ew in D. rewrite Hw in D. fold P in D. apply (f_equal (λ z, Z.lxor z P)) in D. rewrite Z.lxor_assoc, Z.lxor_nilpotent, Z.lxor_0_r in D. rewrite D. by rewrite (Z.lxor_comm P 1), Z.lxor_assoc, Z.lxor_nilpotent.
Qed.
(** A change of up to six characters in a row is found. *)
Lemma VerifyChecksum_burst hrp p x y q : hrp_ok hrp → base_digits 32 (p ++ x ++ q) → base_digits 32 y → length x = length y → (length x <= 6)%nat → x ≠ y → VerifyChecksum hrp (p ++ x ++ q) = true → VerifyChecksum hrp (p ++ y ++ q) = false.
Proof.
  intros Hh H Hy El Hl Hn. unfold base_digits in H. rewrite !Forall_app in H. destruct H as (Hp & Hx & Hq). unfold VerifyChecksum, PolyMod. rewrite !foldl_app, Z.eqb_eq, Z.eqb_neq. set (c0 := foldl poly_step 1 (ExpandHRP hrp)). set (c := foldl poly_step c0 p).
  assert (0 <= c < 2 ^ 30) as Hc by (apply polymod_bound; [done|]; apply polymod_bound; [by apply ExpandHRP_digits|lia]). intros E1 E2. apply Hn.
  assert (foldl poly_step c x = foldl poly_step c y) as E by (apply (polymod_inj q); [done|by apply polymod_bound..|congruence]).
  pose proof (polymod_diff x y c El Hl Hx Hy Hc) as D. rewrite E, Z.lxor_nilpotent in D. pose proof (zip_lxor_digits x y Hx Hy) as Hz. assert (zip_with Z.lxor x y = replicate (length x) 0) as Ez.
  { apply (be_val_inj 32); [lia|done|apply Forall_replicate; lia|rewrite length_zip_with, length_replicate; lia|]. rewrite <- D. symmetry. rewrite <- (app_nil_r (replicate _ _)). apply (be_val_zeroes 32). }
  clear -Ez El. revert y El Ez. induction x as [|a x IH]; intros [|b y] El Ez; try done. cbn in Ez. injection Ez as Eab Ez. f_equal; [by apply Z.lxor_eq|]. apply IH; [by injection El|done].
Qed.
Lemma chr32_spec v : 0 <= v < 32 → 33 <= chr32 v <= 126 ∧ (65 <=? chr32 v) && (chr32 v <=? 90) = false ∧ chr32 v ≠ 49 ∧ rev32 (chr32 v) = v.
Proof.
  intros Hv. assert ((33 <=? chr32 v) && (chr32 v <=? 126) && negb ((65 <=? chr32 v) && (chr32 v <=? 90)) && negb (chr32 v =? 49) && (rev32 (chr32 v) =? v) = true) as H by (revert v Hv; apply (below_check _ 32); vm_compute; done).
  rewrite !andb_true_iff, !negb_true_iff in H. destruct H as [[[[H1 H2] H3] H4] H5]. split_and!; [lia|lia|done|lia|lia].
Qed.
Lemma CHARSET_chr32 c : c ∈ CHARSET → ∃ v, 0 <= v < 32 ∧ c = chr32 v.
Proof. intros [i Hi]%list_elem_of_lookup. exists (Z.of_nat i). pose proof (lookup_lt_Some _ _ _ Hi) as Hl. change (length CHARSET) with 32%nat in Hl. split; [lia|]. unfold chr32. rewrite Nat2Z.id. symmetry. by apply nth_lookup_Some. Qed.
Lemma existsb_none {A} (f : A → bool) l : Forall (λ x, f x = false) l → existsb f l = false.
Proof. induction 1 as [|x l Hx Hl IH]; cbn [existsb]; [done|]. by rewrite Hx, IH. Qed.
Lemma split_last_spec a b : Forall (λ c, c ≠ 49) b → split_last (a ++ [49] ++ b) = Some (a, b).
Proof.
  intros Hb. assert (split_last b = None) as E by (clear -Hb; induction Hb as [|c b Hc Hb IH]; cbn [split_last]; [done|]; rewrite IH; by destruct (Z.eqb_spec c 49)).
  induction a as [|x a IH]; cbn [app split_last] in *; [by rewrite E|by rewrite IH].
Qed.
Lemma map_LowerCase hrp : hrp_ok hrp → map LowerCase hrp = hrp.
Proof. intros [H _]. induction H as [|c l [_ Hc] Hl IH]; cbn [map]; [done|]. unfold LowerCase at 1. by rewrite Hc, IH. Qed.
Lemma map_rev32 vs : base_digits 32 vs → map rev32 (map chr32 vs) = vs.
Proof. induction 1 as [|v vs Hv Hvs IH]; cbn [map]; [done|]. destruct (chr32_spec v Hv) as (_ & _ & _ & ->). by rewrite IH. Qed.
Lemma Decode_values hrp vs : hrp_ok hrp → base_digits 32 vs → (6 <= length vs)%nat → (length hrp + 1 + length vs <= 1023)%nat →
  Decode (hrp ++ [49] ++ map chr32 vs) = if VerifyChecksum hrp vs then (hrp, take (length vs - 6) vs) else ([], []).
Proof.
  intros Hh Hv Hl6 Hl. set (s := hrp ++ [49] ++ map chr32 vs). assert (Forall (λ c, 33 <= c <= 126 ∧ (65 <=? c) && (c <=? 90) = false) s) as Hs.
  { unfold s. rewrite !Forall_app, Forall_singleton, Forall_map. split_and!; [apply Hh|lia|lia|done|]. eapply Forall_impl; [exact Hv|]. intros v Hvv. destruct (chr32_spec v Hvv) as (? & ? & _). by split. }
  unfold Decode. rewrite existsb_none by (eapply Forall_impl; [exact Hs|]; cbn; intros c [Hc _]; lia). rewrite (existsb_none (λ c, (65 <=? c) && (c <=? 90))) by (eapply Forall_impl; [exact Hs|]; by intros c [_ Hc]). rewrite andb_false_r.
  unfold s at 1. rewrite split_last_spec by (apply Forall_map; eapply Forall_impl; [exact Hv|]; intros v Hvv; apply (chr32_spec v Hvv)). assert (length s = length hrp + 1 + length vs)%nat as El by (unfold s; rewrite !length_app, length_map; cbn; lia). rewrite El.
  destruct (Nat.ltb_spec 1023 (length hrp + 1 + length vs)); [lia|]. destruct Hh as [Hh1 Hh2]. destruct (Nat.eqb_spec (length hrp) 0); [by destruct hrp|]. destruct (Nat.ltb_spec (length hrp + 1 + length vs) (length hrp + 7)); [lia|]. cbn [orb].
  rewrite map_rev32, map_LowerCase by done. rewrite existsb_none by (eapply Forall_impl; [exact Hv|]; cbn; lia). by destruct (VerifyChecksum hrp vs).
Qed.
Lemma Encode_values hrp values : hrp_ok hrp → base_digits 32 values → Encode hrp values = hrp ++ [49] ++ map chr32 (values ++ CreateChecksum hrp values).
Proof.
  intros Hh Hv. destruct (CreateChecksum_spec hrp values Hh Hv) as (Hw & _ & _). unfold Encode. rewrite existsb_none; [done|]. apply Forall_app. split; (eapply Forall_impl; [eassumption|]; cbn; lia).
Qed.
Lemma bech32_roundtrip hrp values : hrp_ok hrp → base_digits 32 values → (length hrp + length values <= 1016)%nat → Decode (Encode hrp values) = (hrp, values).
Proof.
  intros Hh Hv Hl. destruct (CreateChecksum_spec hrp values Hh Hv) as (Hw & Hlw & Hok). rewrite Encode_values, Decode_values by (done || (by apply Forall_app) || (rewrite length_app; lia)). rewrite Hok. f_equal. rewrite length_app, Hlw. by rewrite take_app_length' by lia.
Qed.
(** The text with other characters of the alphabet in a window of up to six. *)
Lemma bech32_burst hrp values pre w w' post : hrp_ok hrp → base_digits 32 values → (length hrp + length values <= 1016)%nat → Encode hrp values = pre ++ w ++ post → (length hrp < length pre)%nat →
  length w = length w' → (length w <= 6)%nat → Forall (λ c, c ∈ CHARSET) w' → w ≠ w' → Decode (pre ++ w' ++ post) = ([], []).
Proof.
  intros Hh Hv Hl E Hpre Elw Hlw Hw' Hn. destruct (CreateChecksum_spec hrp values Hh Hv) as (Hck & Hlck & Hok). rewrite Encode_values in E by done. set (vs := values ++ CreateChecksum hrp values) in *. assert (base_digits 32 vs) as Hvs by (by apply Forall_app).
  assert (pre = hrp ++ [49] ++ drop (length hrp + 1) pre) as Epre.
  { rewrite <- (take_drop (length hrp + 1) pre) at 1. rewrite app_assoc. f_equal. apply (f_equal (take (length hrp + 1))) in E. rewrite (take_app_le pre) in E by lia. rewrite <- E. rewrite app_assoc. apply take_app_length'. rewrite length_app. cbn. lia. }
  set (pre' := drop _ pre) in *. rewrite Epre in E. rewrite <- !app_assoc in E. apply app_inv_head in E. injection E as E. apply fmap_app_inv in E as (p & r & Ep & Er & Ers). symmetry in Er. apply fmap_app_inv in Er as (x & q & Ex & Eq & Er'). subst r.
  assert (∃ y, base_digits 32 y ∧ w' = map chr32 y) as (y & Hy & Ey).
  { clear -Hw'. induction Hw' as [|c w Hc Hw (y & Hy & ->)]; [exists []; split; [by apply Forall_nil|done]|]. destruct (CHARSET_chr32 c Hc) as (v & Hv & ->). exists (v :: y). split; [by constructor|done]. }
  assert (length x = length y) as Exy by (rewrite Ex, Ey, length_fmap, length_map in Elw; done).
  assert (pre ++ w' ++ post = hrp ++ [49] ++ map chr32 (p ++ y ++ q)) as ->.
  { rewrite Epre, Ep, Ey, Eq, !map_app. by rewrite <- !app_assoc. }
  rewrite Ers in Hvs, Hok. assert (length (p ++ y ++ q) = length values + 6)%nat as Ely by (rewrite !length_app, <- Exy, <- !length_app, <- Ers; unfold vs; rewrite length_app; lia).
  assert (base_digits 32 (p ++ y ++ q)) as Hd by (unfold base_digits in *; rewrite !Forall_app in *; tauto).
  rewrite Decode_values by (done || lia). rewrite (VerifyChecksum_burst hrp p x y q); [done|done|done|done|done|rewrite Ex, length_fmap in Hlw; lia|intros ->; by apply Hn; rewrite Ex, Ey|done].
Qed.

(** ** Shielded addresses *)

Definition payment_address_ok (a : SaplingPaymentAddress) : Prop := length a.(diversifier) = 11%nat ∧ bytes a.(diversifier) ∧ wf 8 a.(pk_d).
#[export] Instance c_payment_address_rt : RoundTrip payment_address_ok c_payment_address.
Proof.
  intros [d p] rest (Hd & _ & Hp). cbn [diversifier pk_d c_payment_address enc dec] in *. rewrite <- app_assoc, (c_array_rt 11) by done. cbn [mbind option_bind]. unfold c_uint256. by rewrite (c_uint_rt 8).
Qed.
Lemma payment_address_bytes a : payment_address_ok a → bytes (c_payment_address.(enc) a) ∧ length (c_payment_address.(enc) a) = 43%nat.
Proof.
  intros (Hl & Hb & Hp). destruct (enc_uint256_app _ Hp) as [Hpb Hpl]. cbn [c_payment_address enc c_array]. rewrite length_app, Hl, Hpl. split; [by apply Forall_app|done].
Qed.
Definition known_hrp (hrp : list Z) : Prop := hrp = main_hrp ∨ hrp = test_hrp.
Lemma known_hrp_ok hrp : known_hrp hrp → hrp_ok hrp ∧ (length hrp <= 15)%nat.
Proof.
  intros H. assert (forallb (λ c, (33 <=? c) && (c <=? 126) && negb ((65 <=? c) && (c <=? 90))) hrp = true ∧ hrp ≠ [] ∧ (length hrp <= 15)%nat) as (H1 & H2 & H3) by (destruct H as [->| ->]; vm_compute; (split; [done|split; [done|lia]])).
  split; [|done]. split; [|done]. rewrite forallb_forall in H1. apply Forall_forall. intros c Hc. specialize (H1 c ltac:(by apply list_elem_of_In)). rewrite !andb_true_iff, negb_true_iff in H1. split; [lia|apply H1].
Qed.
Lemma payment_groups a : payment_address_ok a → let vs := (ConvertBits 8 5 true (c_payment_address.(enc) a)).1 in base_digits 32 vs ∧ length vs = 69%nat ∧ ConvertBits 5 8 false vs = (c_payment_address.(enc) a, true).
Proof.
  intros Ha. destruct (payment_address_bytes a Ha) as [Hb Hl]. pose proof (ConvertBits_roundtrip 5 _ ltac:(lia) Hb) as Hr. destruct (ConvertBits_encode 5 _ ltac:(lia) Hb) as (out & pad & E & Hd & Hp & El & _). rewrite E in *. cbn [fst] in *. rewrite Hl in El. split_and!; [done|lia|done].
Qed.

(** C21: shielded addresses are read back, and slips are found.  The text of a
    shielded address is decoded to the same address; if up to six consecutive
    characters after the separator are replaced by others of the alphabet, the
    result is refused. *)
Theorem shielded_addresses_read_back (hrp : list Z) (a : SaplingPaymentAddress) : known_hrp hrp → payment_address_ok a →
  DecodePaymentAddress hrp (EncodePaymentAddress hrp a) = Some (Some a) ∧
  ∀ pre w w' post, EncodePaymentAddress hrp a = pre ++ w ++ post → (length hrp < length pre)%nat → length w = length w' → (length w <= 6)%nat →
    Forall (λ c, c ∈ CHARSET) w' → w ≠ w' → DecodePaymentAddress hrp (pre ++ w' ++ post) = Some None.
Proof.
  intros Hh Ha. destruct (known_hrp_ok hrp Hh) as [Hok Hlh]. destruct (payment_groups a Ha) as (Hd & Hl & Hc). unfold EncodePaymentAddress. set (vs := fst _) in *. split.
  - unfold DecodePaymentAddress. rewrite bech32_roundtrip by (done || lia). cbn [fst snd]. rewrite bool_decide_eq_true_2, Hl, Hc by done. change (69 =? ConvertedSaplingPaymentAddressSize)%nat with true. cbv iota beta. cbn [andb].
    pose proof (c_payment_address_rt a [] Ha) as E. rewrite app_nil_r in E. by rewrite E.
  - intros pre w w' post E Hpre Elw Hlw Hw' Hn. unfold DecodePaymentAddress. rewrite (bech32_burst hrp vs pre w w' post) by (done || lia). cbn [fst snd]. rewrite bool_decide_eq_false_2; [done|]. intros <-. by destruct Hok as [_ []].
Qed.
Definition sample_payment_address : SaplingPaymentAddress := mkPaymentAddress (seqZ 1 11) (uint_zero 8).
Lemma shielded_addresses_read_back_witness : DecodePaymentAddress main_hrp (EncodePaymentAddress main_hrp sample_payment_address) = Some (Some sample_payment_address) ∧
  ∀ pre w w' post, EncodePaymentAddress main_hrp sample_payment_address = pre ++ w ++ post → (length main_hrp < length pre)%nat → length w = length w' → (length w <= 6)%nat →
    Forall (λ c, c ∈ CHARSET) w' → w ≠ w' → DecodePaymentAddress main_hrp (pre ++ w' ++ post) = Some None.
Proof.
  apply (shielded_addresses_read_back main_hrp sample_payment_address); [by left|]. split; [done|]. split; [|by split; [|repeat constructor]]. apply Forall_forall. intros x Hx. apply elem_of_seqZ in Hx. unfold is_u8. lia.
Defined.
Example payment_address_text : EncodePaymentAddress main_hrp sample_payment_address = chars "qrax1qypqxpq9qcrsszg2pvqqqqqqqqqqqqqqqqqqqqqqqqqqqqqqqqqqqqqqqqqqqqqqqqqqqvx3hdq".
Proof. vm_compute. reflexivity. Qed.
