(* ===== verification/Compressor.v ===== *)
(** * Compressor: the compact format of coins and undo data ([compressor.h], [compressor.cpp], [undo.h], [coins.h])

    Amounts and the common scripts have a short form in the coin database and in
    the undo files.  The public keys of a script in the uncompressed format are
    stored by their first coordinate, so the format relies on the curve library:
    the class [Secp256k1] has what the code calls of it. *)

From S2P Require Import Prelude ArithUint256 Script Interpreter Serialize Transaction Block Coins Standard.
Local Open Scope Z_scope.

(** ** Amounts *)

(** The loop that divides by ten; at most nine rounds. *)
Fixpoint strip_zeros (fuel : nat) (n e : Z) : Z * Z :=
  match fuel with
  | O => (n, e)
  | S fuel => if (n mod 10 =? 0) && (e <? 9) then strip_zeros fuel (n / 10) (e + 1) else (n, e)
  end.

(** [None]: the assertion on the digit fails. *)
Definition CompressAmount (n : Z) : option Z :=
  if n =? 0 then Some 0
  else
    let '(n, e) := strip_zeros 10 n 0 in
    if e <? 9 then
      let d := n mod 10 in
      if (1 <=? d) && (d <=? 9) then Some (u64 (1 + u64 (u64 (u64 (n / 10 * 9) + d - 1) * 10) + e)) else None
    else Some (u64 (1 + u64 (u64 (n - 1) * 10) + 9)).

Fixpoint times_ten (e : nat) (n : Z) : Z :=
  match e with O => n | S e => times_ten e (u64 (n * 10)) end.

Definition DecompressAmount (x : Z) : Z :=
  if x =? 0 then 0
  else
    let x := x - 1 in
    let e := x mod 10 in
    let x := x / 10 in
    let n := if e <? 9 then u64 (u64 (x / 9 * 10) + (x mod 9 + 1)) else u64 (x + 1) in
    times_ten (Z.to_nat e) n.

(** ** Public keys *)

(** A key of the curve: what [secp256k1_ec_pubkey_parse] reads from the bytes
    and [secp256k1_ec_pubkey_serialize] writes in the uncompressed format.  The
    laws: the uncompressed format has 65 bytes after the header 4, the parser of
    that format inverts it, and the parity of the last byte and the first
    coordinate determine the key. *)
Class Secp256k1 := {
  secp256k1_pubkey : Type;
  ec_pubkey_parse : list Z → option secp256k1_pubkey;
  ec_pubkey_serialize : secp256k1_pubkey → list Z;
  ec_serialize_parse vch p : ec_pubkey_parse vch = Some p → head vch = Some 4 → length vch = 65%nat → ec_pubkey_serialize p = vch;
  ec_serialize_format p : head (ec_pubkey_serialize p) = Some 4 ∧ length (ec_pubkey_serialize p) = 65%nat;
  ec_parse_compressed x y p : length x = 32%nat → ec_pubkey_parse (4 :: x ++ y) = Some p → length y = 32%nat →
    ec_pubkey_parse ((if Z.odd (List.last y 0) then 3 else 2) :: x) = Some p;
}.

Section compressor.
Context `{!Secp256k1}.

(** [CPubKey::IsFullyValid] and [CPubKey::Decompress], of the bytes that [CPubKey::Set] has accepted. *)
Definition IsFullyValid (vch : valtype) : bool :=
  match CPubKey_of vch with Some vch => bool_decide (is_Some (ec_pubkey_parse vch)) | None => false end.
Definition PubKey_Decompress (vch : valtype) : option valtype :=
  vch ← CPubKey_of vch; p ← ec_pubkey_parse vch; CPubKey_of (ec_pubkey_serialize p).

(** ** Scripts *)

Definition nSpecialScripts : Z := 6.

Definition IsToKeyID (script : CScript) : option valtype :=
  if (size script =? 25) && at_ script 0 OP_DUP && at_ script 1 OP_HASH160 && at_ script 2 20 && at_ script 23 OP_EQUALVERIFY
     && at_ script 24 OP_CHECKSIG
  then Some (slice 3 23 script) else None.

Definition IsToScriptID (script : CScript) : option valtype :=
  if (size script =? 23) && at_ script 0 OP_HASH160 && at_ script 1 20 && at_ script 22 OP_EQUAL
  then Some (slice 2 22 script) else None.

Definition IsToPubKey (script : CScript) : option valtype :=
  if (size script =? 35) && at_ script 0 33 && at_ script 34 OP_CHECKSIG && (at_ script 1 2 || at_ script 1 3) then
    Some (slice 1 34 script)
  else if (size script =? 67) && at_ script 0 65 && at_ script 66 OP_CHECKSIG && at_ script 1 4 then
    let pubkey := slice 1 66 script in if IsFullyValid pubkey then Some pubkey else None
  else None.

Definition Compress (script : CScript) : option (list Z) :=
  match IsToKeyID script with
  | Some keyID => Some (0 :: keyID)
  | None =>
      match IsToScriptID script with
      | Some scriptID => Some (1 :: scriptID)
      | None =>
          match IsToPubKey script with
          | Some pubkey =>
              let b := nth 0 pubkey 0 in
              if (b =? 2) || (b =? 3) then Some (b :: slice 1 33 pubkey)
              else if b =? 4 then Some (Z.lor 4 (Z.land (nth 64 pubkey 0) 1) :: slice 1 33 pubkey)
              else None
          | None => None
          end
      end
  end.

Definition GetSpecialSize (nSize : Z) : nat :=
  if (nSize =? 0) || (nSize =? 1) then 20
  else if (nSize =? 2) || (nSize =? 3) || (nSize =? 4) || (nSize =? 5) then 32
  else 0.

(** The script that [Decompress] leaves: the one before where it fails. *)
Definition Decompress (nSize : Z) (inp : list Z) (script : CScript) : CScript :=
  if nSize =? 0 then [OP_DUP; OP_HASH160; 20] ++ take 20 inp ++ [OP_EQUALVERIFY; OP_CHECKSIG]
  else if nSize =? 1 then [OP_HASH160; 20] ++ take 20 inp ++ [OP_EQUAL]
  else if (nSize =? 2) || (nSize =? 3) then [33; nSize] ++ take 32 inp ++ [OP_CHECKSIG]
  else if (nSize =? 4) || (nSize =? 5) then
    match PubKey_Decompress ((nSize - 2) :: take 32 inp) with
    | Some pubkey => [65] ++ pubkey ++ [OP_CHECKSIG]
    | None => script
    end
  else script.

Definition Script_Serialize (script : CScript) : list Z :=
  match Compress script with
  | Some compr => compr
  | None => WriteVarInt (u32 (size script + nSpecialScripts)) ++ script
  end.

(** The reader works on the script of its caller. *)
Definition Script_Unserialize (script : CScript) (s : list Z) : option (CScript * list Z) :=
  '(nSize, s) ← c_varint32.(dec) s;
  if nSize <? nSpecialScripts then
    '(vch, s) ← read_bytes (GetSpecialSize nSize) s; Some (Decompress nSize vch script, s)
  else
    let nSize := nSize - nSpecialScripts in
    if MAX_SCRIPT_SIZE <? nSize then
      '(_, s) ← read_bytes (Z.to_nat nSize) s; Some (script ++ [OP_RETURN], s)
    else read_bytes (Z.to_nat nSize) s.

(** ** Outputs and coins *)

(** [CTxOutCompressor]: the amount as an unsigned number, and the script. *)
Definition TxOut_Compress (o : CTxOut) : option (list Z) :=
  nVal ← CompressAmount (u64 o.(nValue));
  Some (c_varint64.(enc) nVal ++ Script_Serialize o.(scriptPubKey)).

Definition TxOut_Decompress (o : CTxOut) (s : list Z) : option (CTxOut * list Z) :=
  '(nVal, s) ← c_varint64.(dec) s;
  '(script, s) ← Script_Unserialize o.(scriptPubKey) s;
  Some ({| nValue := i64 (DecompressAmount nVal); scriptPubKey := script; nRounds := o.(nRounds) |}, s).

Definition coin_code (c : Coin) : Z :=
  u32 (u32 (c.(coin_nHeight) * 4) + (if c.(fCoinBase) then 2 else 0) + (if c.(fCoinStake) then 1 else 0)).

Definition coin_of_code (code : Z) (o : CTxOut) : Coin :=
  {| fCoinBase := negb (Z.land code 2 =? 0); fCoinStake := negb (Z.land code 1 =? 0); coin_out := o; coin_nHeight := Z.shiftr code 2 |}.

(** [None]: the assertion that the coin is not spent fails. *)
Definition Coin_Serialize (c : Coin) : option (list Z) :=
  if IsSpent c then None
  else out ← TxOut_Compress c.(coin_out); Some (c_varint32.(enc) (coin_code c) ++ out).

Definition Coin_Unserialize (s : list Z) : option (Coin * list Z) :=
  '(code, s) ← c_varint32.(dec) s;
  '(o, s) ← TxOut_Decompress TxOut_SetNull s;
  Some (coin_of_code code o, s).

(** ** Undo data *)

Definition TxInUndo_Serialize (c : Coin) : option (list Z) :=
  out ← TxOut_Compress c.(coin_out);
  Some (c_varint32.(enc) (coin_code c) ++ (if 0 <? c.(coin_nHeight) then [0] else []) ++ out).

(** The dummy version is a signed number. *)
Definition TxInUndo_Unserialize (s : list Z) : option (Coin * list Z) :=
  '(code, s) ← c_varint32.(dec) s;
  '(_, s) ← (if 0 <? Z.shiftr code 2 then ReadVarInt_loop i32 0 s else Some (0, s));
  '(o, s) ← TxOut_Decompress TxOut_SetNull s;
  Some (coin_of_code code o, s).

(** The serialised size of [CTxIn()]. *)
Definition MAX_INPUTS_PER_BLOCK : Z :=
  MAX_BLOCK_SIZE_CURRENT /
  size (c_txin.(enc) {| prevout := {| prevout_hash := uint_zero 8; prevout_n := 2 ^ 32 - 1 |}; scriptSig := []; nSequence := 2 ^ 32 - 1 |}).

(** A writer of each element that may fail, and its reader. *)
Fixpoint write_all {A} (w : A → option (list Z)) (l : list A) : option (list Z) :=
  match l with [] => Some [] | a :: l => s ← w a; s' ← write_all w l; Some (s ++ s') end.
Fixpoint read_all {A} (r : list Z → option (A * list Z)) (n : nat) (s : list Z) : option (list A * list Z) :=
  match n with
  | O => Some ([], s)
  | S n => '(a, s) ← r s; '(l, s) ← read_all r n s; Some (a :: l, s)
  end.

Definition TxUndo_Serialize (vprevout : list Coin) : option (list Z) :=
  s ← write_all TxInUndo_Serialize vprevout; Some (WriteCompactSize (size vprevout) ++ s).
Definition TxUndo_Unserialize (s : list Z) : option (list Coin * list Z) :=
  '(count, s) ← ReadCompactSize s;
  if MAX_INPUTS_PER_BLOCK <? count then None else read_all TxInUndo_Unserialize (Z.to_nat count) s.

Definition BlockUndo_Serialize (vtxundo : list (list Coin)) : option (list Z) :=
  s ← write_all TxUndo_Serialize vtxundo; Some (WriteCompactSize (size vtxundo) ++ s).
Definition BlockUndo_Unserialize (s : list Z) : option (list (list Coin) * list Z) :=
  '(count, s) ← ReadCompactSize s; read_all TxUndo_Unserialize (Z.to_nat count) s.

End compressor.

(** ** Amounts are read back *)

Lemma strip_zeros_spec fuel n e :
  0 < n → 0 <= e <= 9 → 9 - e < Z.of_nat fuel →
  let '(n', e') := strip_zeros fuel n e in
  e <= e' <= 9 ∧ 0 < n' ∧ n = n' * 10 ^ (e' - e) ∧ (e' < 9 → n' mod 10 ≠ 0).
Proof.
  revert n e; induction fuel as [|fuel IH]; intros n e Hn He Hf; [lia|]. cbn [strip_zeros].
  destruct ((n mod 10 =? 0) && (e <? 9)) eqn:E.
  - apply andb_true_iff in E as [E1%Z.eqb_eq E2%Z.ltb_lt]. pose proof (Z.div_mod n 10 ltac:(lia)).
    specialize (IH (n / 10) (e + 1) ltac:(lia) ltac:(lia) ltac:(lia)).
    destruct (strip_zeros fuel (n / 10) (e + 1)) as [n' e']. destruct IH as (? & ? & E3 & ?).
    split_and!; [lia|lia|lia| |done]. replace (e' - e) with (Z.succ (e' - (e + 1))) by lia. rewrite Z.pow_succ_r by lia. lia.
  - apply andb_false_iff in E as [E%Z.eqb_neq|E%Z.ltb_ge]; rewrite Z.sub_diag; repeat split; lia.
Qed.

Lemma times_ten_exact e n : 0 <= n → n * 10 ^ Z.of_nat e < 2 ^ 64 → times_ten e n = n * 10 ^ Z.of_nat e.
Proof.
  revert n; induction e as [|e IH]; intros n Hn Hb; [cbn; lia|]. cbn [times_ten].
  rewrite Nat2Z.inj_succ, Z.pow_succ_r in * by lia. pose proof (Z.pow_pos_nonneg 10 (Z.of_nat e) ltac:(lia) ltac:(lia)).
  rewrite u64_id by (unfold is_u64; nia). rewrite IH by lia. lia.
Qed.

(** The amounts for which the computation on 64 bits does not overflow. *)
Definition amount_ok (n : Z) : Prop := 0 <= n < 2 ^ 60.

Lemma amount_roundtrip n : amount_ok n → ∃ x, CompressAmount n = Some x ∧ is_u64 x ∧ DecompressAmount x = n.
Proof.
  unfold amount_ok. intros Hn. unfold CompressAmount. destruct (Z.eqb_spec n 0) as [->|Hz]; [by exists 0|].
  pose proof (strip_zeros_spec 10 n 0 ltac:(lia) ltac:(lia) ltac:(lia)) as H.
  destruct (strip_zeros 10 n 0) as [m e]. rewrite Z.sub_0_r in H. destruct H as (He & Hm & E & Hd).
  pose proof (Z.pow_pos_nonneg 10 e ltac:(lia) ltac:(lia)). assert (m <= n) by nia.
  pose proof (Z.div_mod m 10 ltac:(lia)). pose proof (Z.mod_pos_bound m 10 ltac:(lia)).
  destruct (Z.ltb_spec e 9).
  - specialize (Hd ltac:(lia)). rewrite (proj2 (andb_true_iff _ _)) by lia. eexists. split; [reflexivity|].
    set (q := m / 10) in *. set (d := m mod 10) in *.
    rewrite (u64_id (q * 9)), (u64_id (q * 9 + d - 1)), (u64_id ((q * 9 + d - 1) * 10)), u64_id by (unfold is_u64; lia).
    split; [unfold is_u64; lia|]. unfold DecompressAmount. rewrite (proj2 (Z.eqb_neq _ _)) by lia. cbn zeta.
    replace (1 + (q * 9 + d - 1) * 10 + e - 1) with (e + (q * 9 + d - 1) * 10) by lia.
    rewrite Z_mod_plus_full, Z.div_add, Z.mod_small, (Z.div_small e) by lia. rewrite (proj2 (Z.ltb_lt e 9)) by lia.
    rewrite Z.add_0_l. replace (q * 9 + d - 1) with (d - 1 + q * 9) by lia.
    rewrite Z_mod_plus_full, Z.div_add, Z.mod_small, (Z.div_small (d - 1)) by lia.
    rewrite (u64_id ((0 + q) * 10)), u64_id by (unfold is_u64; lia).
    rewrite times_ten_exact; rewrite ?Z2Nat.id by lia; [|lia|]; replace ((0 + q) * 10 + (d - 1 + 1)) with m by lia; lia.
  - assert (e = 9) as -> by lia. eexists. split; [reflexivity|].
    rewrite (u64_id (m - 1)), (u64_id ((m - 1) * 10)), u64_id by (unfold is_u64; lia).
    split; [unfold is_u64; lia|]. unfold DecompressAmount. rewrite (proj2 (Z.eqb_neq _ _)) by lia. cbn zeta.
    replace (1 + (m - 1) * 10 + 9 - 1) with (9 + (m - 1) * 10) by lia.
    rewrite Z_mod_plus_full, Z.div_add by lia. change (9 mod 10) with 9. change (9 / 10) with 0. cbn [Z.ltb Z.compare Pos.compare Pos.compare_cont].
    rewrite u64_id by (unfold is_u64; lia). rewrite times_ten_exact; rewrite ?Z2Nat.id by lia; replace (0 + (m - 1) + 1) with m by lia; lia.
Qed.

(** ** Scripts are read back *)

Section scripts.
Context `{!Secp256k1}.

Ltac of_length s n := let Hl := fresh "Hl" in
  assert (length s = n) as Hl by
    match goal with E : _ = true |- _ => repeat apply andb_true_iff in E as [E _]; apply Z.eqb_eq in E; by apply Nat2Z.inj end.

Lemma IsToKeyID_inv s h : IsToKeyID s = Some h → length h = 20%nat ∧ Decompress 0 h [] = s.
Proof.
  unfold IsToKeyID. destruct (_ && _) eqn:E; [|done]. intros [= <-]. pose proof E as E'. of_length s 25%nat. clear E'.
  explode s 25. at_bytes E. done.
Qed.

Lemma IsToScriptID_inv s h : IsToScriptID s = Some h → length h = 20%nat ∧ Decompress 1 h [] = s.
Proof.
  unfold IsToScriptID. destruct (_ && _) eqn:E; [|done]. intros [= <-]. pose proof E as E'. of_length s 23%nat. clear E'.
  explode s 23. at_bytes E. done.
Qed.

(** A first byte, [n] bytes and a last one. *)
Lemma framed (n : nat) s : length s = S (S n) →
  ∃ k, s = nth 0 s 0 :: k ++ [nth (S n) s 0] ∧ length k = n ∧ slice 1 (S n) s = k ∧ ∀ b, 0 < Z.of_nat n → at_ s 1 b = at_ k 0 b.
Proof.
  intros Hl. destruct s as [|a s]; [done|]. injection Hl as Hl. destruct s as [|c k _] using rev_ind; [done|].
  rewrite length_app in Hl. cbn in Hl. exists k. cbn [nth]. rewrite app_nth2, (proj2 (Nat.sub_0_le n (length k))) by lia.
  split; [done|]. split; [lia|]. split.
  - unfold slice. cbn [drop]. rewrite drop_0. apply take_app_length'. lia.
  - intros b Hn. unfold at_. cbn [nth]. by rewrite app_nth1 by lia.
Qed.

(** The two forms of a script that pays to a key. *)
Lemma IsToPubKey_inv s k : IsToPubKey s = Some k →
  (∃ b x, (b = 2 ∨ b = 3) ∧ length x = 32%nat ∧ k = b :: x ∧ s = 33 :: b :: x ++ [OP_CHECKSIG]) ∨
  (∃ x y p, length x = 32%nat ∧ length y = 32%nat ∧ k = 4 :: x ++ y ∧ s = 65 :: 4 :: x ++ y ++ [OP_CHECKSIG] ∧
     ec_pubkey_parse k = Some p).
Proof.
  unfold IsToPubKey. destruct (_ && _) eqn:E.
  - intros [= <-]. left. rewrite !andb_true_iff, orb_true_iff in E. destruct E as [[[El E0] E34] E1].
    apply Z.eqb_eq in El. destruct (framed 33 s) as (k & Es & Hk & -> & H1); [by apply Nat2Z.inj|]. rewrite !H1 in E1 by lia.
    apply Z.eqb_eq in E0, E34. rewrite E0, E34 in Es. destruct k as [|b x]; [done|]. exists b, x.
    split; [unfold at_ in E1; cbn in E1; lia|]. split; [by injection Hk|]. by split.
  - clear E. destruct (_ && _) eqn:E; [|done]. destruct (IsFullyValid _) eqn:Ev; [|done]. intros [= <-]. right.
    rewrite !andb_true_iff in E. destruct E as [[[El E0] E66] E1].
    apply Z.eqb_eq in El. destruct (framed 65 s) as (k & Es & Hk & Ek & H1); [by apply Nat2Z.inj|]. rewrite !H1 in E1 by lia.
    apply Z.eqb_eq in E0, E66. rewrite E0, E66 in Es. rewrite Ek in *. destruct k as [|b k]; [done|]. injection Hk as Hk.
    unfold at_ in E1. apply Z.eqb_eq in E1. cbn in E1. subst b. unfold IsFullyValid in Ev. unfold CPubKey_of in Ev.
    destruct (ValidSize _) eqn:Evs; [|done]. apply bool_decide_eq_true in Ev as [p Hp].
    exists (take 32 k), (drop 32 k), p. rewrite length_take, length_drop, take_drop. split_and!; [lia|lia|done| |done].
    rewrite Es. cbn [app]. by rewrite app_assoc, take_drop.
Qed.

Lemma parity (y : list Z) : Z.lor 4 (Z.land (List.last y 0) 1) = if Z.odd (List.last y 0) then 5 else 4.
Proof.
  change 1 with (Z.ones 1). rewrite Z.land_ones by done. change (2 ^ 1) with 2. rewrite Zmod_odd. by destruct (Z.odd _).
Qed.

Lemma nth_last (x y : list Z) n : (length x + length y = S n)%nat → y ≠ [] → nth n (x ++ y) 0 = List.last y 0.
Proof.
  intros Hn Hy. destruct y as [|b y _] using rev_ind; [done|]. rewrite last_last, length_app in *. cbn in Hn.
  rewrite app_assoc, app_nth2 by (rewrite length_app; lia). rewrite length_app. replace (n - _)%nat with 0%nat by lia. done.
Qed.

(** What [Compress] makes of a script is a form of the script that [Decompress] restores. *)
Lemma Compress_inv s out : Compress s = Some out →
  ∃ nSize r, out = nSize :: r ∧ 0 <= nSize < nSpecialScripts ∧ length r = GetSpecialSize nSize ∧ ∀ s0, Decompress nSize r s0 = s.
Proof.
  unfold Compress. destruct (IsToKeyID s) as [h|] eqn:E1.
  { intros [= <-]. apply IsToKeyID_inv in E1 as [? <-]. exists 0, h. by split_and!. }
  clear E1. destruct (IsToScriptID s) as [h|] eqn:E1.
  { intros [= <-]. apply IsToScriptID_inv in E1 as [? <-]. exists 1, h. by split_and!. }
  clear E1. destruct (IsToPubKey s) as [k|] eqn:E1; [|done].
  apply IsToPubKey_inv in E1 as [(b & x & Hb & Hx & -> & ->)|(x & y & p & Hx & Hy & -> & -> & Hp)].
  - assert (slice 1 33 (b :: x) = x) as Esl by (unfold slice; cbn [drop]; rewrite drop_0; apply take_ge; lia).
    cbn [nth]. rewrite Esl. intros Ho. exists b, x. assert (out = b :: x) as -> by (destruct Hb as [-> | ->]; cbn in Ho; congruence).
    split; [done|]. split; [unfold nSpecialScripts; lia|]. 
    destruct Hb as [-> | ->]; (split; [done|]); intros s0; unfold Decompress; cbn [Z.eqb Pos.eqb orb]; by rewrite take_ge by lia.
  - assert (slice 1 33 (4 :: x ++ y) = x) as Esl by (unfold slice; cbn [drop]; rewrite drop_0; apply take_app_length'; lia).
    cbn [nth Z.eqb Pos.eqb orb]. rewrite Esl, (nth_last x y) by (first [lia|by intros ->]). rewrite parity. intros [= <-].
    assert (ec_pubkey_serialize p = 4 :: x ++ y) as Esr by (apply (ec_serialize_parse _ p Hp); [done|cbn; rewrite length_app; lia]).
    pose proof (ec_parse_compressed x y p Hx Hp Hy) as Hc. eexists _, x. split; [reflexivity|].
    split; [unfold nSpecialScripts; destruct (Z.odd _); lia|]. split; [by destruct (Z.odd _)|]. intros s0.
    assert (∀ b, (b = 2 ∨ b = 3) → CPubKey_of (b :: x) = Some (b :: x)) as Hv.
    { intros b Hb. unfold CPubKey_of, ValidSize. cbn [length]. rewrite Hx. by destruct Hb as [-> | ->]. }
    assert (CPubKey_of (4 :: x ++ y) = Some (4 :: x ++ y)) as Hv4.
    { unfold CPubKey_of, ValidSize. cbn [length]. by rewrite length_app, Hx, Hy. }
    assert (PubKey_Decompress ((if Z.odd (List.last y 0) then 3 else 2) :: x) = Some (4 :: x ++ y)) as Hd.
    { unfold PubKey_Decompress. rewrite Hv by (destruct (Z.odd _); tauto). cbn [mbind option_bind]. rewrite Hc. cbn [mbind option_bind]. by rewrite Esr. }
    unfold Decompress. rewrite (take_ge x 32) by lia. destruct (Z.odd _); cbn [Z.eqb Pos.eqb orb];
      [change (5 - 2) with 3|change (4 - 2) with 2]; rewrite Hd; cbn [app]; by rewrite <- app_assoc.
Qed.

Lemma Compress_size s out : Compress s = Some out → size s <= 67.
Proof.
  unfold Compress. destruct (IsToKeyID s) as [h|] eqn:E1.
  { apply IsToKeyID_inv in E1 as [Hh <-]. cbn. rewrite !length_app, length_take, Hh. cbn. lia. }
  clear E1. destruct (IsToScriptID s) as [h|] eqn:E1.
  { apply IsToScriptID_inv in E1 as [Hh <-]. cbn. rewrite !length_app, length_take, Hh. cbn. lia. }
  clear E1. destruct (IsToPubKey s) as [k|] eqn:E1; [|done].
  apply IsToPubKey_inv in E1 as [(b & x & Hb & Hx & -> & ->)|(x & y & p & Hx & Hy & -> & -> & Hp)];
    cbn [length]; rewrite !length_app, Hx, ?Hy; cbn; lia.
Qed.

(** The script that is read back: a script over the size limit, which can not
    be spent, is replaced by a short one that can not be spent either. *)
Definition stored_script (script : CScript) : CScript :=
  if MAX_SCRIPT_SIZE <? size script then [OP_RETURN] else script.

Lemma Script_roundtrip s rest : size s < 2 ^ 31 →
  Script_Unserialize [] (Script_Serialize s ++ rest) = Some (stored_script s, rest).
Proof.
  intros Hs. unfold Script_Serialize, Script_Unserialize. destruct (Compress s) as [out|] eqn:E.
  - pose proof (Compress_size s _ E) as Hz. apply Compress_inv in E as (n & r & -> & Hn & Hr & Hd).
    assert (c_varint32.(dec) ((n :: r) ++ rest) = Some (n, r ++ rest)) as ->.
    { unfold nSpecialScripts in Hn. assert (n = 0 ∨ n = 1 ∨ n = 2 ∨ n = 3 ∨ n = 4 ∨ n = 5) as Hc by lia.
      destruct Hc as [ -> |[ -> |[ -> |[ -> |[ -> | -> ]]]]]; done. }
    cbn [mbind option_bind]. rewrite (proj2 (Z.ltb_lt _ _)) by lia. rewrite read_bytes_app by done. cbn [mbind option_bind].
    rewrite Hd. unfold stored_script. rewrite (proj2 (Z.ltb_ge _ _)); [done|unfold MAX_SCRIPT_SIZE; lia].
  - unfold nSpecialScripts. rewrite u32_id by mlia. rewrite <- app_assoc. change WriteVarInt with (c_varint32.(enc)).
    rewrite (round_trip (c := c_varint32)) by mlia. cbn [mbind option_bind]. rewrite (proj2 (Z.ltb_ge _ _)) by lia.
    replace (size s + 6 - 6) with (size s) by lia. unfold stored_script.
    destruct (MAX_SCRIPT_SIZE <? size s); rewrite read_bytes_app; done || lia.
Qed.
End scripts.

(** ** Coins and undo data are read back *)

Section coins.
Context `{!Secp256k1}.

Definition stored_txout (o : CTxOut) : CTxOut :=
  {| nValue := o.(nValue); scriptPubKey := stored_script o.(scriptPubKey); nRounds := -10 |}.
Definition stored_coin (c : Coin) : Coin :=
  {| fCoinBase := c.(fCoinBase); fCoinStake := c.(fCoinStake); coin_out := stored_txout c.(coin_out); coin_nHeight := c.(coin_nHeight) |}.

(** A coin of an amount and a height in their ranges. *)
Definition coin_ok (c : Coin) : Prop :=
  amount_ok c.(coin_out).(nValue) ∧ size c.(coin_out).(scriptPubKey) < 2 ^ 31 ∧ c.(coin_out).(nRounds) = -10 ∧
  0 <= c.(coin_nHeight) < 2 ^ 30.

(** Nothing is lost of a coin that can be spent. *)
Lemma stored_spendable c : coin_ok c → IsUnspendable c.(coin_out).(scriptPubKey) = false → stored_coin c = c.
Proof.
  intros (_ & _ & Hr & _) Hu. unfold stored_coin, stored_txout, stored_script.
  unfold IsUnspendable in Hu. apply orb_false_iff in Hu as [_ ->]. rewrite <- Hr. by destruct c as [b k [v sc r] h].
Qed.

Lemma TxOut_roundtrip o : amount_ok o.(nValue) → size o.(scriptPubKey) < 2 ^ 31 →
  ∃ s, TxOut_Compress o = Some s ∧ ∀ rest, TxOut_Decompress TxOut_SetNull (s ++ rest) = Some (stored_txout o, rest).
Proof.
  intros Ha Hs. unfold TxOut_Compress. rewrite u64_id by (unfold amount_ok in Ha; mlia).
  destruct (amount_roundtrip _ Ha) as (x & -> & Hx & Hd). cbn [mbind option_bind]. eexists. split; [reflexivity|]. intros rest.
  unfold TxOut_Decompress. rewrite <- app_assoc, (round_trip (c := c_varint64)) by done. cbn [mbind option_bind].
  change (scriptPubKey TxOut_SetNull) with (@nil Z). rewrite Script_roundtrip by done. cbn [mbind option_bind].
  rewrite Hd, i64_id; [done|]. unfold amount_ok in Ha. mlia.
Qed.

Lemma coin_code_spec c : 0 <= c.(coin_nHeight) < 2 ^ 30 →
  is_u32 (coin_code c) ∧ Z.shiftr (coin_code c) 2 = c.(coin_nHeight) ∧ ∀ o, coin_of_code (coin_code c) o =
    {| fCoinBase := c.(fCoinBase); fCoinStake := c.(fCoinStake); coin_out := o; coin_nHeight := c.(coin_nHeight) |}.
Proof.
  intros Hh. unfold coin_code. set (j := (if fCoinBase c then 2 else 0) + (if fCoinStake c then 1 else 0)).
  assert (0 <= j < 4) by (unfold j; destruct (fCoinBase c), (fCoinStake c); lia).
  rewrite <- Z.add_assoc. fold j. rewrite (u32_id (coin_nHeight c * 4)), u32_id by mlia. split; [mlia|].
  assert (Z.shiftr (coin_nHeight c * 4 + j) 2 = coin_nHeight c) as Eh.
  { rewrite Z.shiftr_div_pow2 by done. change (2 ^ 2) with 4. rewrite Z.div_add_l, Z.div_small by lia. lia. }
  split; [done|]. intros o. unfold coin_of_code. rewrite Eh.
  assert (∀ m, Z.land 3 m = m → Z.land (coin_nHeight c * 4 + j) m = Z.land j m) as Hl.
  { intros m <-. rewrite Z.land_assoc. change 3 with (Z.ones 2). rewrite Z.land_ones by done. change (2 ^ 2) with 4.
    rewrite Z.add_comm, Z_mod_plus_full, Z.mod_small by lia. rewrite Z.land_assoc, Z.land_ones by done. by rewrite (Z.mod_small j (2 ^ 2)) by lia. }
  rewrite !Hl by done. unfold j. by destruct (fCoinBase c), (fCoinStake c).
Qed.

(** C38: a coin of the database: what [Coin_Serialize] writes for an unspent coin
    is read back by [Coin_Unserialize], and nothing of a coin that can be spent
    is lost. *)
Theorem Coin_roundtrip (c : Coin) (rest : list Z) :
  coin_ok c →
  ∃ s, Coin_Serialize c = Some s ∧ Coin_Unserialize (s ++ rest) = Some (stored_coin c, rest) ∧
    (IsUnspendable c.(coin_out).(scriptPubKey) = false → stored_coin c = c).
Proof.
  intros Hc. pose proof Hc as (Ha & Hs & Hr & Hh). unfold Coin_Serialize, IsSpent, TxOut_IsNull.
  rewrite (proj2 (Z.eqb_neq _ _)) by (unfold amount_ok in Ha; lia). destruct (TxOut_roundtrip _ Ha Hs) as (s & -> & Hd). cbn [mbind option_bind].
  eexists. split; [reflexivity|]. split; [|by apply stored_spendable]. destruct (coin_code_spec c Hh) as (Hu & _ & Ho).
  unfold Coin_Unserialize. rewrite <- app_assoc, (round_trip (c := c_varint32)) by done. cbn [mbind option_bind].
  rewrite Hd. cbn [mbind option_bind]. by rewrite Ho.
Qed.

Lemma TxInUndo_roundtrip c : coin_ok c →
  ∃ s, TxInUndo_Serialize c = Some s ∧ ∀ rest, TxInUndo_Unserialize (s ++ rest) = Some (stored_coin c, rest).
Proof.
  intros (Ha & Hs & Hr & Hh). unfold TxInUndo_Serialize. destruct (TxOut_roundtrip _ Ha Hs) as (s & -> & Hd). cbn [mbind option_bind].
  eexists. split; [reflexivity|]. intros rest. destruct (coin_code_spec c Hh) as (Hu & Hz & Ho).
  unfold TxInUndo_Unserialize. rewrite <- app_assoc, (round_trip (c := c_varint32)) by done. cbn [mbind option_bind]. rewrite Hz.
  assert (∀ t, ReadVarInt_loop i32 0 (0 :: t) = Some (0, t)) as H0 by done.
  destruct (0 <? coin_nHeight c); cbn [app]; rewrite ?H0; cbn [mbind option_bind]; rewrite Hd; cbn [mbind option_bind]; by rewrite Ho.
Qed.

(** A list of values that are each read back. *)
Lemma write_all_roundtrip {A} (w : A → option (list Z)) (r : list Z → option (A * list Z)) (f : A → A) l :
  Forall (λ a, ∃ s, w a = Some s ∧ ∀ rest, r (s ++ rest) = Some (f a, rest)) l →
  ∃ s, write_all w l = Some s ∧ ∀ rest, read_all r (length l) (s ++ rest) = Some (f <$> l, rest).
Proof.
  induction 1 as [|a l (s & E & Hr) _ (s' & E' & Hr')]; [by exists []|]. exists (s ++ s'). cbn [write_all]. rewrite E, E'.
  split; [done|]. intros rest. cbn [length read_all]. rewrite <- app_assoc, Hr. cbn [mbind option_bind]. by rewrite Hr'.
Qed.

Definition stored_undo (u : list Coin) : list Coin := stored_coin <$> u.

Lemma TxUndo_roundtrip v : Forall coin_ok v → size v <= MAX_INPUTS_PER_BLOCK →
  ∃ s, TxUndo_Serialize v = Some s ∧ ∀ rest, TxUndo_Unserialize (s ++ rest) = Some (stored_coin <$> v, rest).
Proof.
  intros Hv Hl. destruct (write_all_roundtrip TxInUndo_Serialize TxInUndo_Unserialize stored_coin v) as (s & E & Hr).
  { eapply Forall_impl; [exact Hv|]. apply TxInUndo_roundtrip. }
  unfold TxUndo_Serialize. rewrite E. cbn [mbind option_bind]. eexists. split; [reflexivity|]. intros rest. unfold TxUndo_Unserialize.
  change MAX_INPUTS_PER_BLOCK with 48780 in *. rewrite <- app_assoc, ReadCompactSize_app by (unfold MAX_SIZE; lia). cbn [mbind option_bind].
  rewrite (proj2 (Z.ltb_ge _ _)) by lia. by rewrite Nat2Z.id.
Qed.

Lemma BlockUndo_roundtrip v : Forall (λ u, Forall coin_ok u ∧ size u <= MAX_INPUTS_PER_BLOCK) v → size v <= MAX_SIZE →
  ∃ s, BlockUndo_Serialize v = Some s ∧ ∀ rest, BlockUndo_Unserialize (s ++ rest) = Some (stored_undo <$> v, rest).
Proof.
  intros Hv Hl. destruct (write_all_roundtrip TxUndo_Serialize TxUndo_Unserialize stored_undo v) as (s & E & Hr).
  { eapply Forall_impl; [exact Hv|]. intros u [? ?]. by apply TxUndo_roundtrip. }
  unfold BlockUndo_Serialize. rewrite E. cbn [mbind option_bind]. eexists. split; [reflexivity|]. intros rest. unfold BlockUndo_Unserialize.
  rewrite <- app_assoc, ReadCompactSize_app by lia. cbn [mbind option_bind]. by rewrite Nat2Z.id.
Qed.
End coins.

(** ** A library that knows one key, the generator of the curve *)

Definition generator_x : list Z :=
  [0x79; 0xbe; 0x66; 0x7e; 0xf9; 0xdc; 0xbb; 0xac; 0x55; 0xa0; 0x62; 0x95; 0xce; 0x87; 0x0b; 0x07;
   0x02; 0x9b; 0xfc; 0xdb; 0x2d; 0xce; 0x28; 0xd9; 0x59; 0xf2; 0x81; 0x5b; 0x16; 0xf8; 0x17; 0x98].
Definition generator_y : list Z :=
  [0x48; 0x3a; 0xda; 0x77; 0x26; 0xa3; 0xc4; 0x65; 0x5d; 0xa4; 0xfb; 0xfc; 0x0e; 0x11; 0x08; 0xa8;
   0xfd; 0x17; 0xb4; 0x48; 0xa6; 0x85; 0x54; 0x19; 0x9c; 0x47; 0xd0; 0x8f; 0xfb; 0x10; 0xd4; 0xb8].

#[local] Program Instance one_key : Secp256k1 := {|
  secp256k1_pubkey := unit;
  ec_pubkey_parse vch := if bool_decide (vch = 4 :: generator_x ++ generator_y) || bool_decide (vch = 2 :: generator_x) then Some tt else None;
  ec_pubkey_serialize _ := 4 :: generator_x ++ generator_y;
|}.
Next Obligation.
  intros vch p E H4 _. cbn beta in E. case_bool_decide as E1; [done|]. case_bool_decide as E2; [by rewrite E2 in H4|done].
Qed.
Next Obligation. done. Qed.
Next Obligation.
  intros x y p Hx E Hy. cbn beta in E. case_bool_decide as E1.
  - change (4 :: ?l) with ([4] ++ l) in E1. apply (inj (app [4])) in E1. apply app_inj_1 in E1 as [-> ->]; [|by rewrite Hx]. by destruct p.
  - case_bool_decide as E2; [done|done].
Qed.

(** A coin that pays to the generator in the uncompressed format. *)
Definition generator_coin : Coin :=
  {| fCoinBase := true; fCoinStake := false; coin_nHeight := 120891;
     coin_out := {| nValue := 11 * 100000000; scriptPubKey := 65 :: 4 :: generator_x ++ generator_y ++ [OP_CHECKSIG]; nRounds := -10 |} |}.

(** It is stored in 37 bytes: the code, the amount 11 and the key. *)
Lemma Coin_roundtrip_witness :
  Coin_Serialize generator_coin = Some ([0x9c; 0xc0; 0x6e; 0x63; 0x04] ++ generator_x) ∧
  (∃ s, Coin_Serialize generator_coin = Some s ∧ Coin_Unserialize (s ++ [7]) = Some (stored_coin generator_coin, [7]) ∧
    (IsUnspendable generator_coin.(coin_out).(scriptPubKey) = false → stored_coin generator_coin = generator_coin)).
Proof.
  split; [vm_compute; reflexivity|]. apply (Coin_roundtrip generator_coin [7]).
  split; [unfold amount_ok; cbn; lia|]. split; [cbn; lia|]. split; [done|cbn; lia].
Defined.
