(* ===== verification/BlockCheck.v ===== *)
(** * BlockCheck: the checks of a block ([validation.cpp], [blocksignature.cpp],
    [checkpoints.cpp], [sapling/sapling_validation.cpp])

    The rewards of a block and the checks that need neither the coins nor the
    scripts: [CheckBlock], [CheckBlockSignature], [CheckWork], [CheckBlockTime],
    [ContextualCheckBlockHeader] and [ContextualCheckBlock].

    A check has a verdict: it accepts, it rejects with what is given to
    [state.DoS], or its behaviour is undefined (an access outside of an array, a
    null pointer, a failing assertion).  The global objects that the checks read
    are the record [Node]; they do not change during a check. *)

From stdpp Require Import strings.
From S2P Require Import Prelude ArithUint256 Params Chain Pow Script Interpreter Serialize Transaction SigHash TxVerify Block Coins CoinsUpdate Merkle Standard.
Local Open Scope Z_scope.

(** ** Verdicts *)

(** [state.DoS(level, false, code, reason, corruption)]; [state.Invalid] has
    level 0. *)
Record rejection := mkRejection { rj_level : Z; rj_reason : string; rj_corruption : bool }.
(** [None] is a [false] that leaves the state as it was. *)
Inductive verdict := Accept | Reject (r : option rejection) | Undefined.

#[export] Instance rejection_eq_dec : EqDecision rejection.
Proof. solve_decision. Defined.
#[export] Instance verdict_eq_dec : EqDecision verdict.
Proof. solve_decision. Defined.

Definition v_then (v w : verdict) : verdict := match v with Accept => w | _ => v end.
Definition v_if (c : bool) (level : Z) (reason : string) (corruption : bool) : verdict :=
  if c then Reject (Some (mkRejection level reason corruption)) else Accept.
(** A part of a condition whose evaluation may be undefined. *)
Definition v_def {A} (o : option A) (f : A → verdict) : verdict := match o with Some a => f a | None => Undefined end.
(** The verdict of a check of transactions. *)
Definition v_check (c : check) : verdict :=
  match c with None => Accept | Some (DoS level reason) => Reject (Some (mkRejection level reason false)) | Some silent => Reject None end.

Declare Scope verdict_scope.
Delimit Scope verdict_scope with verdict.
Notation "a ;; b" := (v_then a b) (at level 100, b at level 200, right associativity) : verdict_scope.
Local Open Scope verdict_scope.

(** A loop that stops at the first element that is not accepted. *)
Fixpoint v_all {A} (f : A → verdict) (l : list A) : verdict :=
  match l with [] => Accept | a :: l => f a;; v_all f l end.

(** ** The node *)

Definition MAX_BLOCK_SIZE_LEGACY : Z := 1000000.
Definition MAX_BLOCK_SHIELDED_TXES_SIZE : Z := 750000.
Definition MAX_BLOCK_SIGOPS_LEGACY : Z := Z.quot MAX_BLOCK_SIZE_LEGACY 50.
Definition DEFAULT_MAX_REORG_DEPTH : Z := 100.

Inductive network := MAIN | TESTNET | REGTEST.
#[export] Instance network_eq_dec : EqDecision network.
Proof. solve_decision. Defined.

Record Node := {
  consensus : Params;
  hashGenesisBlock : base_uint;
  networkID : network;
  mapCheckpoints : list (Z * base_uint);          (** ascending in the height *)
  checkpoints_fEnabled : bool;
  mapBlockIndex : gmap base_uint ptr;
  node_tree : BlockTree;
  chainActive : CChain;
  g_newP2CSRules : bool;
  in_IBD : bool;                                  (** [IsInitialBlockDownload()] *)
  mn_IsSynced : bool;                             (** [masternodeSync.IsSynced()] *)
  IsBudgetPaymentBlock : Z → bool;                (** of [g_budgetman] *)
  spork_superblocks : bool;                       (** [SPORK_13_ENABLE_SUPERBLOCKS] *)
  spork_coldstaking_maintenance : bool;           (** [SPORK_19_COLDSTAKING_MAINTENANCE] *)
  GetCurrentAssetHash : base_uint;                (** of [multiMiningManager] *)
  GetTransaction : base_uint → option (CTransaction * base_uint);   (** the transaction and the hash of its block *)
  adjustedTime : Z;                               (** [GetAdjustedTime()] *)
  maxreorg : option Z;                            (** the argument [-maxreorg] *)
}.

Definition IsRegTestNet (n : Node) : bool := bool_decide (n.(networkID) = REGTEST).
Definition IsTestnet (n : Node) : bool := bool_decide (n.(networkID) = TESTNET).
Definition nMaxReorgDepth (n : Node) : Z := default DEFAULT_MAX_REORG_DEPTH n.(maxreorg).
(** [mapBlockIndex.find]. *)
Definition find_index (n : Node) (hash : base_uint) : option CBlockIndex := p ← n.(mapBlockIndex) !! hash; n.(node_tree) !! p.
Definition tip_index (n : Node) : option CBlockIndex := p ← Chain_Tip n.(chainActive); n.(node_tree) !! p.

(** ** Rewards *)

Definition GetBlockValue (n : Node) (nHeight : Z) : Z :=
  if IsRegTestNet n then 3500 * COIN
  else if (nHeight =? 1) && bool_decide (n.(networkID) = MAIN) then 1200400 * COIN
  else if (nHeight =? 1) && bool_decide (n.(networkID) = TESTNET) then 12004000 * COIN
  else if (1 <? nHeight) && negb (NetworkUpgradeActive n.(consensus) nHeight ACTIVATE_POS) then
    if (30000 <=? nHeight) && (nHeight <? 35000) then 2200 * COIN else 200 * COIN
  else
    let count := Z.quot nHeight n.(consensus).(nBudgetCycleBlocks) - 1 in
    if count <=? 0 then 10 * COIN else if 10 <=? count then 1 * COIN else (10 - count) * COIN.

Definition GetMasternodePayment (n : Node) (nHeight : Z) : Z :=
  let count := Z.quot nHeight n.(consensus).(nBudgetCycleBlocks) - 1 in
  if count <=? 0 then 50 * COIN else if 10 <=? count then 5 * COIN else (50 - count * 5) * COIN.

(** ** Cold staking *)

(** The answer is [None] where an index is outside of an array. *)
Definition CheckColdStakeFreeOutput (n : Node) (tx : CTransaction) (nHeight : Z) : option bool :=
  if negb (HasP2CSOutputs n.(g_newP2CSRules) tx) then Some true
  else
    let outs := length tx.(vout) in
    lastOut ← tx.(vout) !! (outs - 1)%nat;
    other ← (if bool_decide (3 <= outs)%nat then
               prev ← tx.(vout) !! (outs - 2)%nat; Some (negb (bool_decide (lastOut.(scriptPubKey) = prev.(scriptPubKey))))
             else Some false);
    if other : bool then
      if lastOut.(nValue) =? GetMasternodePayment n nHeight then Some true
      else if IsRegTestNet n then Some false
      else if negb n.(mn_IsSynced) then
        i ← tx.(vin) !! 0%nat;
        match n.(GetTransaction) i.(prevout).(prevout_hash) with
        | None => Some false
        | Some (txPrev, _) =>
            o ← txPrev.(vout) !! Z.to_nat i.(prevout).(prevout_n);
            let amtIn := i64 (o.(nValue) + GetBlockValue n nHeight) in
            let amtOut := foldl (λ a o, i64 (a + o.(nValue))) 0 (take (outs - 2) (drop 1 tx.(vout))) in
            Some (amtOut =? amtIn)
        end
      else if n.(IsBudgetPaymentBlock) nHeight then Some n.(spork_superblocks)
      else Some false
    else Some true.

(** ** The signature of a block *)

(** [CPubKey(scriptSig.begin() + start, scriptSig.end())]: undefined behind the
    end. *)
Definition pubkey_from (script : CScript) (start : nat) : option (option valtype) :=
  if bool_decide (start <= length script)%nat then Some (CPubKey_of (drop start script)) else None.

(** The functions of [librustzcash]: a context, and the checks of the proofs
    and signatures in it. *)
Class SaplingVerifier := {
  sapling_ctx : Type;
  sapling_verification_ctx_init : sapling_ctx;
  sapling_check_spend : sapling_ctx → SpendDescription → list Z → option sapling_ctx;
  sapling_check_output : sapling_ctx → base_uint → base_uint → base_uint → list Z → option sapling_ctx;
  sapling_final_check : sapling_ctx → Z → list Z → list Z → bool;
}.

Section checks.
Context `{!SigCrypto}.

(** The public key that has to sign the block; an invalid key is [Some None]. *)
Definition block_pubkey (whichType : txnouttype) (vSolutions : list valtype) (scriptSig : CScript) : option (option valtype) :=
  match whichType with
  | TX_PUBKEY => k ← vSolutions !! 0%nat; Some (CPubKey_of k)
  | TX_PUBKEYHASH =>
      if size scriptSig =? 73 then Some None
      else b ← scriptSig !! 0%nat; pubkey_from scriptSig (Z.to_nat (1 + b + 1))
  | TX_ASSETSMINT => if size scriptSig =? 73 then Some None else pubkey_from scriptSig 3
  | TX_COLDSTAKE | TX_DPOSASSETMINT =>
      b ← scriptSig !! 0%nat;
      let start := 1 + b in
      flag ← scriptSig !! Z.to_nat start;
      pubkey_from scriptSig (Z.to_nat (start + (1 + flag) + 1))
  | _ => Some None
  end.

Definition CheckBlockSignature (n : Node) (block : CBlock) : option bool :=
  if CBlock_IsProofOfWork block then Some (bool_decide (block.(vchBlockSig) = []))
  else if bool_decide (block.(vchBlockSig) = []) then Some false
  else
    tx ← block.(vtx) !! 1%nat;
    txout ← tx.(vout) !! 1%nat;
    match Solver n.(g_newP2CSRules) txout.(scriptPubKey) with
    | None => Some false
    | Some (whichType, vSolutions) =>
        txin ← tx.(vin) !! 0%nat;
        pubkey ← block_pubkey whichType vSolutions txin.(scriptSig);
        match pubkey with
        | None => Some false
        | Some k => Some (ecdsa_verify k (c_uint256.(enc) (Block_GetHash block)) block.(vchBlockSig))
        end
    end.

(** ** [CheckBlock] *)

Definition GetTotalShieldedTxSize (block : CBlock) : Z :=
  foldl (λ s tx, if IsShieldedTx tx then u32 (s + GetTotalSize tx) else s) 0 block.(vtx).

(** The root and the report of a mutation. *)
Definition check_merkle_root (block : CBlock) : verdict :=
  v_def (BlockMerkleRoot block.(vtx)) (λ '(hashMerkleRoot2, mutated),
    v_if (negb (bool_decide (block.(header).(hdr_hashMerkleRoot) = hashMerkleRoot2))) 100 "bad-txnmrklroot" true;;
    v_if mutated 100 "bad-txns-duplicate" true).

(** The coinbase and the coinstake. *)
Definition check_positions (block : CBlock) : verdict :=
  v_if (match block.(vtx) with [] => true | tx :: _ => negb (IsCoinBase tx) end) 100 "bad-cb-missing" false;;
  v_if (existsb (λ tx, IsCoinBase tx && negb (ContainsAssets tx)) (drop 1 block.(vtx))) 100 "bad-cb-multiple" false;;
  if CBlock_IsProofOfStake block then
    v_if (match block.(vtx) with tx :: _ => match tx.(vout) with [o] => negb (TxOut_IsEmpty o) | _ => true end | [] => true end)
      100 "bad-cb-pos" false;;
    v_if (match block.(vtx) with _ :: tx :: _ => negb (IsCoinStake tx) | _ => true end) 100 "bad-cs-missing" false;;
    v_if (existsb IsCoinStake (drop 2 block.(vtx))) 100 "bad-cs-multiple" false
  else Accept.

(** The height of the block, or 0 when the node does not know its parent. *)
Definition block_height (n : Node) (block : CBlock) : Z :=
  match tip_index n with
  | None => 0
  | Some pindexPrev =>
      if bool_decide (pindexPrev.(phashBlock) = block.(header).(hashPrevBlock)) then pindexPrev.(nHeight) + 1
      else match find_index n block.(header).(hashPrevBlock) with Some b => b.(nHeight) + 1 | None => 0 end
  end.

(** Whether the rules for cold staking apply: the node has a tip, knows the
    parent and is not in the initial download. *)
Definition coldstake_enforced (n : Node) (block : CBlock) : bool := (0 <? block_height n block) && negb n.(in_IBD).
Definition check_coldstake (n : Node) (block : CBlock) : verdict :=
  if coldstake_enforced n block && CBlock_IsProofOfStake block then
    v_def (tx ← block.(vtx) !! 1%nat; CheckColdStakeFreeOutput n tx (block_height n block))
      (λ ok, v_if (negb ok) 0 "bad-p2cs-outs" false)
  else Accept.

(** [state.Invalid] after the rejection of a transaction. *)
Definition invalid_after (v : verdict) : verdict :=
  match v with
  | Reject (Some r) => Reject (Some (mkRejection r.(rj_level) r.(rj_reason) false))
  | Reject None => Reject (Some (mkRejection 0 "" false))
  | _ => v
  end.

(** The transactions.  The genesis block, the only block that is checked
    without a tip, has no cold staking output, for which alone the height of the
    tip is read. *)
Definition check_transactions (n : Node) (block : CBlock) : verdict :=
  let fColdStakingActive := if coldstake_enforced n block then negb n.(spork_coldstaking_maintenance) else true in
  let fSaplingActive := NetworkUpgradeActive n.(consensus) (Chain_Height n.(chainActive) + 1) ACTIVATE_HUSH in
  let tipHeight := match tip_index n with Some b => b.(nHeight) | None => -1 end in
  v_all (λ tx, invalid_after (v_check (CheckTransaction n.(consensus) n.(g_newP2CSRules) tipHeight tx fColdStakingActive fSaplingActive)))
    block.(vtx).

Definition block_sigops (block : CBlock) : Z := foldl (λ s tx, u32 (s + GetLegacySigOpCount tx)) 0 block.(vtx).

(** The body of [CheckBlock], for a block without the flag [fChecked]. *)
Definition check_block (n : Node) (block : CBlock) (fCheckPOW fCheckMerkleRoot fCheckSig : bool) : verdict :=
  let nBlockSize := GetBlockSize block in
  v_if (negb (CBlock_IsProofOfStake block) && fCheckPOW
        && negb (CheckProofOfWork n.(consensus) (IsRegTestNet n) (Block_GetHash block) block.(header).(hdr_nBits))) 50 "high-hash" false;;
  (if fCheckMerkleRoot then check_merkle_root block else Accept);;
  v_if (NetworkUpgradeActive n.(consensus) (Chain_Height n.(chainActive) + 1) ACTIVATE_ASSET_VALIDATION
        && negb (bool_decide (block.(header).(hdr_assetRootHash) = n.(GetCurrentAssetHash)))) 100 "bad-asset-hash-tree" true;;
  v_if (bool_decide (block.(vtx) = []) || (MAX_BLOCK_SIZE_CURRENT <? size block.(vtx)) || (MAX_BLOCK_SIZE_CURRENT <? nBlockSize))
    100 "bad-blk-length" false;;
  v_if ((MAX_BLOCK_SHIELDED_TXES_SIZE <? nBlockSize) && (MAX_BLOCK_SHIELDED_TXES_SIZE <? GetTotalShieldedTxSize block))
    100 "bad-blk-shielded-size" false;;
  check_positions block;;
  check_coldstake n block;;
  check_transactions n block;;
  v_if (MAX_BLOCK_SIGOPS_LEGACY <? block_sigops block) 100 "bad-blk-sigops" true;;
  (if fCheckSig then v_def (CheckBlockSignature n block) (λ ok, v_if (negb ok) 100 "bad-PoS-sig" true) else Accept).

Definition set_fChecked (b : CBlock) : CBlock :=
  {| header := b.(header); vtx := b.(vtx); vReg := b.(vReg); vchBlockSig := b.(vchBlockSig); fChecked := true |}.

(** The verdict and the block, whose flag [fChecked] a full check sets. *)
Definition CheckBlock (n : Node) (block : CBlock) (fCheckPOW fCheckMerkleRoot fCheckSig : bool) : verdict * CBlock :=
  if block.(fChecked) then (Accept, block)
  else match check_block n block fCheckPOW fCheckMerkleRoot fCheckSig with
       | Accept => (Accept, if fCheckPOW && fCheckMerkleRoot && fCheckSig then set_fChecked block else block)
       | v => (v, block)
       end.

(** ** The header in its context *)

(** [GetNextWorkRequired] does not look at the block. *)
Definition CheckWork (n : Node) (block : CBlock) (pindexPrev : option ptr) : option bool :=
  match pindexPrev with
  | None => Some false
  | Some p =>
      nBitsRequired ← GetNextWorkRequired n.(consensus) (IsRegTestNet n) n.(node_tree) (Some p);
      Some (block.(header).(hdr_nBits) =? nBitsRequired)
  end.

Definition CheckBlockTime (n : Node) (h : CBlockHeader) (pindexPrev : ptr) : verdict :=
  if IsRegTestNet n then Accept
  else
    v_def (n.(node_tree) !! pindexPrev) (λ prev,
      v_if (MaxFutureBlockTime n.(consensus) n.(adjustedTime) prev <? h.(hdr_nTime)) 0 "time-too-new" false;;
      v_def (MinPastBlockTime n.(consensus) n.(node_tree) pindexPrev) (λ past,
        v_if (h.(hdr_nTime) <=? past) 50 "time-too-old" false;;
        v_if (negb (IsValidBlockTimeStamp n.(consensus) h.(hdr_nTime) (prev.(nHeight) + 1))) 100 "invalid-time-mask" false)).

(** [Checkpoints::CheckBlock]. *)
Definition Checkpoints_CheckBlock (n : Node) (nHeight : Z) (hash : base_uint) (fMatchesCheckpoint : bool) : bool :=
  if negb n.(checkpoints_fEnabled) then true
  else match list_find (λ c, c.1 = nHeight) n.(mapCheckpoints) with
       | None => negb fMatchesCheckpoint
       | Some (_, c) => bool_decide (hash = c.2)
       end.

(** [Checkpoints::GetLastCheckpoint]. *)
Definition GetLastCheckpoint (n : Node) : option CBlockIndex :=
  if negb n.(checkpoints_fEnabled) then None
  else head (omap (λ c, find_index n c.2) (reverse n.(mapCheckpoints))).

(** [Checkpoints::GetTotalBlocksEstimate]; the map is not empty. *)
Definition GetTotalBlocksEstimate (n : Node) : option Z :=
  if negb n.(checkpoints_fEnabled) then Some 0 else c ← last n.(mapCheckpoints); Some c.1.

Definition outdated_version (n : Node) (h : CBlockHeader) (nHeight : Z) : bool :=
  ((h.(hdr_nVersion) <? 1) && (2 <=? nHeight))
  || (IsTestnet n && (h.(hdr_nVersion) <? 2) && NetworkUpgradeActive n.(consensus) nHeight ACTIVATE_NEW_COLDSTAKE)
  || ((h.(hdr_nVersion) <? 5) && NetworkUpgradeActive n.(consensus) nHeight ACTIVATE_NEW_FEE_RULES).

Definition ContextualCheckBlockHeader (n : Node) (h : CBlockHeader) (pindexPrev : option ptr) : verdict :=
  let hash := Header_GetHash h in
  if bool_decide (hash = n.(hashGenesisBlock)) then Accept
  else
    v_def (p ← pindexPrev; b ← n.(node_tree) !! p; Some (p, b)) (λ '(p, prev),
      let height := prev.(nHeight) + 1 in
      v_if (nMaxReorgDepth n <=? Chain_Height n.(chainActive) - height) 1 "" false;;
      CheckBlockTime n h p;;
      v_if (negb (Checkpoints_CheckBlock n height hash false)) 100 "checkpoint mismatch" false;;
      v_if (match GetLastCheckpoint n with Some c => height <? c.(nHeight) | None => false end) 0 "" false;;
      v_if (outdated_version n h height) 0 "bad-version" false).

(** ** The transactions in their context *)

Context `{!SaplingVerifier}.

(** The loops over the descriptions, from a context to the next; [None] is a
    failing check. *)
Fixpoint check_spends (ctx : sapling_ctx) (l : list SpendDescription) (dataToBeSigned : list Z) : option sapling_ctx :=
  match l with
  | [] => Some ctx
  | d :: l => ctx ← sapling_check_spend ctx d dataToBeSigned; check_spends ctx l dataToBeSigned
  end.
Fixpoint check_shielded_outputs (ctx : sapling_ctx) (l : list OutputDescription) : option sapling_ctx :=
  match l with
  | [] => Some ctx
  | d :: l =>
      ctx ← sapling_check_output ctx d.(output_cv) d.(output_cmu) d.(output_ephemeralKey) d.(output_zkproof);
      check_shielded_outputs ctx l
  end.

Definition check_sapling_proofs (tx : CTransaction) (d : SaplingTxData) (level : Z) : verdict :=
  match SignatureHash [] tx NOT_AN_INPUT SIGHASH_ALL 0 SIGVERSION_SAPLING None with
  | None => v_if true 100 "error-computing-signature-hash" false
  | Some dataToBeSigned =>
      match check_spends sapling_verification_ctx_init d.(vShieldedSpend) dataToBeSigned with
      | None => v_if true level "bad-txns-sapling-spend-description-invalid" false
      | Some ctx =>
          match check_shielded_outputs ctx d.(vShieldedOutput) with
          | None => v_if true 100 "bad-txns-sapling-output-description-invalid" false
          | Some ctx =>
              v_if (negb (sapling_final_check ctx d.(valueBalance) d.(bindingSig) dataToBeSigned))
                level "bad-txns-sapling-binding-signature-invalid" false
          end
      end
  end.

Definition ContextualCheckTransaction (consensus : Params) (tx : CTransaction) (nHeight : Z) (isMined isInitBlockDownload : bool) : verdict :=
  let dosLevelConstricting := if isMined then 100 else 10 in
  let dosLevelPotentiallyRelaxing := if isMined then 100 else if isInitBlockDownload then 0 else 10 in
  if negb (NetworkUpgradeActive consensus nHeight ACTIVATE_HUSH) then Accept
  else
    v_if (negb (isSaplingVersion tx) && hasSaplingData tx) dosLevelConstricting "bad-tx-sapling-version-too-low" false;;
    v_if ((IsCoinBase tx || IsCoinStake tx) && hasSaplingData tx) dosLevelPotentiallyRelaxing "bad-cs-has-shielded-data" false;;
    match tx.(sapData) with
    | Some d => if hasSaplingData tx then check_sapling_proofs tx d dosLevelPotentiallyRelaxing else Accept
    | None => Accept
    end.

(** The height at the start of the script of the coinbase; the access to its
    first input is undefined without one. *)
Definition coinbase_height_ok (block : CBlock) (nHeight : Z) : option bool :=
  tx ← block.(vtx) !! 0%nat;
  i ← tx.(vin) !! 0%nat;
  let expect := push_int64 nHeight in
  Some (bool_decide (take (length expect) i.(scriptSig) = expect)).

Definition ContextualCheckBlock (n : Node) (block : CBlock) (pindexPrev : option ptr) : verdict :=
  v_def (match pindexPrev with None => Some 0 | Some p => b ← n.(node_tree) !! p; Some (b.(nHeight) + 1) end) (λ nHeight,
    v_all (λ tx,
      ContextualCheckTransaction n.(consensus) tx nHeight true n.(in_IBD);;
      v_if (negb (IsFinalTx n.(adjustedTime) tx nHeight block.(header).(hdr_nTime))) 10 "bad-txns-nonfinal" false) block.(vtx);;
    match pindexPrev with
    | None => Accept
    | Some _ => v_def (coinbase_height_ok block nHeight) (λ ok, v_if (negb ok) 100 "bad-cb-height" false)
    end).
End checks.
