(* ===== verification/BlockSound.v ===== *)
(** * BlockSound: what the checks of a block guarantee

    Theorems about [BlockCheck]: what holds of a block that [CheckBlock]
    accepts, which rejections are about the header and not only about the data
    that came with it, what of a block its hash does not cover, and the rules of
    the header and of the coinbase in their context. *)

From stdpp Require Import strings.
From S2P Require Import Prelude ArithUint256 Params Chain Pow Script Interpreter Serialize Transaction SigHash TxVerify Block Coins CoinsUpdate Merkle Standard BlockCheck.
Local Open Scope Z_scope.
Local Open Scope verdict_scope.

(** ** Accepted checks *)

Lemma v_then_accept a b : (a;; b) = Accept ↔ a = Accept ∧ b = Accept.
Proof. destruct a; cbn; naive_solver. Qed.
Lemma v_if_accept c l r k : v_if c l r k = Accept ↔ c = false.
Proof. by destruct c. Qed.
Lemma v_def_accept {A} (o : option A) f : v_def o f = Accept ↔ ∃ a, o = Some a ∧ f a = Accept.
Proof. destruct o; cbn; naive_solver. Qed.
Lemma v_all_accept {A} (f : A → verdict) l : v_all f l = Accept ↔ Forall (λ a, f a = Accept) l.
Proof.
  induction l as [|a l IH]; cbn; [by split|]. rewrite v_then_accept, IH, Forall_cons. done.
Qed.
Lemma invalid_after_accept v : invalid_after v = Accept ↔ v = Accept.
Proof. destruct v as [|[]|]; cbn; naive_solver. Qed.
Lemma v_check_accept c : v_check c = Accept ↔ c = None.
Proof. destruct c as [[]|]; cbn; naive_solver. Qed.

(** Takes the first check off an accepted chain. *)
Tactic Notation "v_step" hyp(E) "as" ident(H) := apply v_then_accept in E as [H E]; rewrite ?v_if_accept in H.

(** ** Sizes *)

Lemma size_app {A} (l k : list A) : size (l ++ k) = size l + size k.
Proof. rewrite length_app. lia. Qed.
Lemma size_concat {A B} (f : A → list B) l : size (concat (f <$> l)) = sum_of (λ a, size (f a)) l.
Proof. induction l as [|a l IH]; [done|]. cbn. rewrite length_app. lia. Qed.
Lemma size_vector {A} (c : codec A) v : sum_of (λ a, size (c.(enc) a)) v <= size ((c_vector c).(enc) v).
Proof. cbn [c_vector enc]. rewrite size_app, size_concat. lia. Qed.
Lemma size_blob v : size v <= size (c_blob.(enc) v).
Proof. cbn [c_blob enc]. rewrite size_app. lia. Qed.

(** The scripts of a transaction fit into it, and the transactions into the
    block. *)
Definition script_bytes (tx : CTransaction) : Z :=
  sum_of (λ i, size i.(scriptSig)) tx.(vin) + sum_of (λ o, size o.(scriptPubKey)) tx.(vout).
Lemma script_bytes_size tx : script_bytes tx <= GetTotalSize tx.
Proof.
  unfold script_bytes, GetTotalSize, SerializeTransaction. rewrite !size_app.
  pose proof (size_vector c_txin tx.(vin)) as Hi. pose proof (size_vector c_txout tx.(vout)) as Ho.
  assert (sum_of (λ i, size i.(scriptSig)) tx.(vin) <= sum_of (λ i, size (c_txin.(enc) i)) tx.(vin)).
  { apply sum_of_le. intros i _. cbn [c_txin enc]. rewrite !size_app. pose proof (size_blob i.(scriptSig)). lia. }
  assert (sum_of (λ o, size o.(scriptPubKey)) tx.(vout) <= sum_of (λ o, size (c_txout.(enc) o)) tx.(vout)).
  { apply sum_of_le. intros o _. cbn [c_txout enc]. rewrite !size_app. pose proof (size_blob o.(scriptPubKey)). lia. }
  lia.
Qed.
Lemma block_transactions_size b : sum_of GetTotalSize b.(vtx) <= GetBlockSize b.
Proof.
  unfold GetBlockSize. cbn [c_block enc]. rewrite !size_app. pose proof (size_vector c_transaction b.(vtx)) as Hv.
  cbn [c_transaction enc] in Hv. unfold GetTotalSize. lia.
Qed.
Lemma GetTotalSize_nonneg tx : 0 <= GetTotalSize tx.
Proof. unfold GetTotalSize. lia. Qed.

(** ** Counters without wrap-around *)

(** The signature operations of a transaction, as a number. *)
Definition tx_sigops (tx : CTransaction) : Z :=
  sum_of (λ i, GetSigOpCount i.(scriptSig) false) tx.(vin) + sum_of (λ o, GetSigOpCount o.(scriptPubKey) false) tx.(vout).

Lemma sigops_range s : size s < 2 ^ 27 → 0 <= GetSigOpCount s false <= 20 * size s.
Proof. intros Hs. destruct (GetSigOpCount_counts s Hs) as (_ & ? & ?). lia. Qed.

Lemma sum_sigops {A} (f : A → CScript) l : sum_of (λ a, size (f a)) l < 2 ^ 27 →
  (∀ a, a ∈ l → 0 <= GetSigOpCount (f a) false) ∧
  0 <= sum_of (λ a, GetSigOpCount (f a) false) l <= 20 * sum_of (λ a, size (f a)) l.
Proof.
  intros Hl. assert (∀ a, a ∈ l → 0 <= GetSigOpCount (f a) false <= 20 * size (f a)) as Ha.
  { intros a Hin. apply sigops_range. pose proof (sum_of_elem (λ a, size (f a)) a l ltac:(intros ?; cbv beta; lia) Hin) as He. cbv beta in He. lia. }
  split; [intros a Hin; by apply Ha|]. split.
  - clear Hl. induction l as [|a l IH]; cbn; [done|]. pose proof (Ha a ltac:(by left)).
    assert (0 <= sum_of (λ a, GetSigOpCount (f a) false) l); [|lia]. apply IH. intros b Hb. apply Ha. by right.
  - rewrite <- sum_of_scale. apply sum_of_le. intros a Hin. by apply Ha.
Qed.

Lemma GetLegacySigOpCount_exact tx : script_bytes tx < 2 ^ 27 →
  GetLegacySigOpCount tx = tx_sigops tx ∧ 0 <= tx_sigops tx <= 20 * script_bytes tx.
Proof.
  unfold script_bytes, tx_sigops. intros Hs.
  pose proof (sum_of_nonneg (λ i : CTxIn, size i.(scriptSig)) tx.(vin) ltac:(intros ?; cbv beta; lia)).
  pose proof (sum_of_nonneg (λ o : CTxOut, size o.(scriptPubKey)) tx.(vout) ltac:(intros ?; cbv beta; lia)).
  destruct (sum_sigops scriptSig tx.(vin)) as (Hi & Hi' & Hi''); [lia|]. destruct (sum_sigops scriptPubKey tx.(vout)) as (Ho & Ho' & Ho''); [lia|].
  split; [|lia]. unfold GetLegacySigOpCount. rewrite (foldl_u32 (λ i, GetSigOpCount i.(scriptSig) false)) by (done || lia).
  rewrite (foldl_u32 (λ o, GetSigOpCount o.(scriptPubKey) false)) by (done || lia). lia.
Qed.

Lemma block_sigops_exact `{!SigCrypto} b : GetBlockSize b <= MAX_BLOCK_SIZE_CURRENT →
  block_sigops b = sum_of tx_sigops b.(vtx) ∧ ∀ tx, tx ∈ b.(vtx) → GetLegacySigOpCount tx = tx_sigops tx.
Proof.
  unfold MAX_BLOCK_SIZE_CURRENT. intros Hs. pose proof (block_transactions_size b) as Hb.
  assert (∀ tx, tx ∈ b.(vtx) → GetLegacySigOpCount tx = tx_sigops tx ∧ 0 <= tx_sigops tx <= 20 * GetTotalSize tx) as Htx.
  { intros tx Hin. pose proof (sum_of_elem GetTotalSize tx _ GetTotalSize_nonneg Hin). pose proof (script_bytes_size tx).
    destruct (GetLegacySigOpCount_exact tx) as [? ?]; [lia|]. split; [done|lia]. }
  split; [|intros tx Hin; by apply Htx]. assert (sum_of GetLegacySigOpCount b.(vtx) = sum_of tx_sigops b.(vtx)) as <-.
  { apply Z.le_antisymm; apply sum_of_le; intros tx Hin; destruct (Htx tx Hin) as [-> _]; done. }
  unfold block_sigops. rewrite foldl_u32; [lia| |done|].
  - intros tx Hin. destruct (Htx tx Hin) as [-> ?]. lia.
  - assert (sum_of GetLegacySigOpCount b.(vtx) <= sum_of (λ tx, 20 * GetTotalSize tx) b.(vtx)) as H1.
    { apply sum_of_le. intros tx Hin. destruct (Htx tx Hin) as [-> ?]. lia. }
    rewrite sum_of_scale in H1. lia.
Qed.

Lemma GetTotalShieldedTxSize_exact `{!SigCrypto} b : GetBlockSize b <= MAX_BLOCK_SIZE_CURRENT →
  GetTotalShieldedTxSize b = sum_of GetTotalSize (filter (λ tx, IsShieldedTx tx = true) b.(vtx)).
Proof.
  unfold MAX_BLOCK_SIZE_CURRENT. intros Hs. pose proof (block_transactions_size b) as Hb. unfold GetTotalShieldedTxSize.
  assert (∀ l n, 0 <= n → n + sum_of GetTotalSize l < 2 ^ 32 →
    foldl (λ s tx, if IsShieldedTx tx then u32 (s + GetTotalSize tx) else s) n l
      = n + sum_of GetTotalSize (filter (λ tx, IsShieldedTx tx = true) l)) as Hgen; [|rewrite Hgen; lia].
  induction l as [|tx l IH]; intros n Hn Hl; cbn [foldl sum_of] in *; [cbn; lia|].
  pose proof (GetTotalSize_nonneg tx). pose proof (sum_of_nonneg GetTotalSize l GetTotalSize_nonneg). rewrite filter_cons.
  destruct (IsShieldedTx tx); [rewrite decide_True by done; rewrite u32_id by mlia|rewrite decide_False by done]; rewrite IH by lia; cbn [sum_of]; lia.
Qed.

Section sound.
Context `{crypto : !SigCrypto}.

(** ** The transactions of an accepted block *)

Lemma IsCoinBase_not_coinstake tx : IsCoinBase tx = true → IsCoinStake tx = false ∧ ContainsAssets tx = false.
Proof.
  unfold IsCoinBase, IsCoinStake, ContainsAssets. destruct (vin tx) as [|i [|]] eqn:Ei; [done| |done].
  intros [[[Hn Hm]%andb_true_iff Hs]%andb_true_iff Hd]%andb_true_iff. apply negb_true_iff in Hm, Hs, Hd. rewrite Hm, Hs, Hd.
  unfold HasAssetsSpendInputs in Hs. rewrite Ei in Hs. cbn [existsb] in Hs. apply orb_false_iff in Hs as [Hs _]. by rewrite Hn, Hs.
Qed.

Lemma existsb_false {A} (f : A → bool) l i a : existsb f l = false → l !! i = Some a → f a = false.
Proof.
  intros He Hi. destruct (f a) eqn:E; [|done]. apply not_true_iff_false in He. destruct He. apply existsb_exists.
  exists a. split; [|done]. apply list_elem_of_In. by eapply list_elem_of_lookup_2.
Qed.

(** Where the coinbase and the coinstake are. *)
Definition positions_sound (b : CBlock) : Prop :=
  (∀ i tx, b.(vtx) !! i = Some tx → IsCoinBase tx = true ↔ i = 0%nat) ∧
  (CBlock_IsProofOfStake b = true → (∀ i tx, b.(vtx) !! i = Some tx → IsCoinStake tx = true ↔ i = 1%nat) ∧
    ∃ cb, b.(vtx) !! 0%nat = Some cb ∧ total_value cb.(vout) = 0).

Lemma check_positions_sound b : check_positions b = Accept → positions_sound b.
Proof.
  unfold check_positions, positions_sound, CBlock_IsProofOfStake. intros E. v_step E as H. v_step E as H0. destruct (vtx b) as [|cb l]; [done|].
  apply negb_false_iff in H. cbn [drop] in H0. rewrite drop_0 in H0. split.
  - intros [|i] tx Hi; [injection Hi as <-; by split|]. split; [|done]. intros Htx. pose proof (existsb_false _ _ i tx H0 Hi) as Hf. cbv beta in Hf.
    destruct (IsCoinBase_not_coinstake tx Htx) as [_ Ha]. rewrite Htx, Ha in Hf. done.
  - unfold vtx_IsProofOfStake in *. destruct l as [|cs l]; [done|]. intros Hcs. rewrite Hcs in E. v_step E as H1. v_step E as H2.
    rewrite v_if_accept in E. cbn [drop] in E. rewrite drop_0 in E. split.
    + intros [|[|i]] tx Hi; [injection Hi as <-; destruct (IsCoinBase_not_coinstake cb H) as [-> _]; done|injection Hi as <-; by split|].
      rewrite (existsb_false _ _ i tx E Hi). done.
    + exists cb. split; [done|]. destruct (vout cb) as [|o [|]]; [done| |done]. apply negb_false_iff in H1. unfold TxOut_IsEmpty in H1.
      apply andb_true_iff in H1 as [H1 _]. cbn. lia.
Qed.

Lemma check_merkle_root_sound b : check_merkle_root b = Accept → BlockMerkleRoot b.(vtx) = Some (b.(header).(hdr_hashMerkleRoot), false).
Proof.
  unfold check_merkle_root. intros ([root mutated] & E & Hc)%v_def_accept. v_step Hc as H. rewrite v_if_accept in Hc. subst mutated. apply negb_false_iff, bool_decide_eq_true in H.
  by rewrite E, H.
Qed.

Lemma CheckBlock_full n b b' : b.(fChecked) = false → CheckBlock n b true true true = (Accept, b') →
  b' = set_fChecked b ∧ check_block n b true true true = Accept.
Proof. unfold CheckBlock. intros ->. destruct (check_block n b true true true); [|done..]. by intros [= <-]. Qed.

(** The limits on what a block holds, over the integers. *)
Definition sizes_sound (b : CBlock) : Prop :=
  GetBlockSize b <= MAX_BLOCK_SIZE_CURRENT ∧
  sum_of GetTotalSize (filter (λ tx, IsShieldedTx tx = true) b.(vtx)) <= MAX_BLOCK_SHIELDED_TXES_SIZE.

Lemma filter_sum_le (P : CTransaction → Prop) `{∀ tx, Decision (P tx)} l : sum_of GetTotalSize (filter P l) <= sum_of GetTotalSize l.
Proof.
  induction l as [|tx l IH]; [done|]. rewrite filter_cons. pose proof (GetTotalSize_nonneg tx). case_decide; cbn [sum_of]; lia.
Qed.

Lemma shielded_sound b : GetBlockSize b <= MAX_BLOCK_SIZE_CURRENT →
  (MAX_BLOCK_SHIELDED_TXES_SIZE <? GetBlockSize b) && (MAX_BLOCK_SHIELDED_TXES_SIZE <? GetTotalShieldedTxSize b) = false ↔
  sum_of GetTotalSize (filter (λ tx, IsShieldedTx tx = true) b.(vtx)) <= MAX_BLOCK_SHIELDED_TXES_SIZE.
Proof.
  intros Hs. rewrite (GetTotalShieldedTxSize_exact b Hs). pose proof (block_transactions_size b).
  pose proof (filter_sum_le (λ tx, IsShieldedTx tx = true) b.(vtx)). lia.
Qed.

Lemma check_transactions_sound n b : 0 <= n.(consensus).(nMaxMoneyOut) < 2 ^ 62 → check_transactions n b = Accept →
  Forall (transaction_sound n.(consensus) (NetworkUpgradeActive n.(consensus) (Chain_Height n.(chainActive) + 1) ACTIVATE_HUSH)) b.(vtx).
Proof.
  intros Hm. unfold check_transactions. rewrite v_all_accept. intros Hf. eapply Forall_impl; [exact Hf|]. cbv beta. intros tx.
  rewrite invalid_after_accept, v_check_accept. by apply CheckTransaction_accepts.
Qed.

(** C13: what a full [CheckBlock] guarantees.  The header commits to the
    transactions, and the list was not extended without a change of the root.
    Over the integers, whatever the 32-bit counters of the code do: the size,
    the shielded size and the number of signature operations are within their
    limits.  The coinbase is the first transaction and no other; in a
    proof-of-stake block the coinstake is the second and no other, and the
    coinbase pays nothing.  Every transaction has the guarantees of
    [CheckTransaction].  A proof-of-work block meets its target and is not
    signed, a proof-of-stake block has a valid signature. *)
Theorem CheckBlock_sound (n : Node) (b b' : CBlock) :
  0 <= n.(consensus).(nMaxMoneyOut) < 2 ^ 62 → b.(fChecked) = false →
  CheckBlock n b true true true = (Accept, b') →
  b' = set_fChecked b ∧
  BlockMerkleRoot b.(vtx) = Some (b.(header).(hdr_hashMerkleRoot), false) ∧
  GetBlockSize b <= MAX_BLOCK_SIZE_CURRENT ∧
  sum_of GetTotalSize (filter (λ tx, IsShieldedTx tx = true) b.(vtx)) <= MAX_BLOCK_SHIELDED_TXES_SIZE ∧
  sum_of tx_sigops b.(vtx) <= MAX_BLOCK_SIGOPS_LEGACY ∧
  (∀ i tx, b.(vtx) !! i = Some tx → IsCoinBase tx = true ↔ i = 0%nat) ∧
  Forall (transaction_sound n.(consensus) (NetworkUpgradeActive n.(consensus) (Chain_Height n.(chainActive) + 1) ACTIVATE_HUSH)) b.(vtx) ∧
  (if CBlock_IsProofOfStake b then
     (∀ i tx, b.(vtx) !! i = Some tx → IsCoinStake tx = true ↔ i = 1%nat) ∧
     (∃ cb, b.(vtx) !! 0%nat = Some cb ∧ total_value cb.(vout) = 0) ∧
     ∃ k, ecdsa_verify k (c_uint256.(enc) (Block_GetHash b)) b.(vchBlockSig) = true
   else CheckProofOfWork n.(consensus) (IsRegTestNet n) (Block_GetHash b) b.(header).(hdr_nBits) = true ∧ b.(vchBlockSig) = []).
Proof.
  intros Hm Hf [-> E]%CheckBlock_full; [|done]. unfold check_block in E.
  v_step E as H. v_step E as H0. v_step E as H1. v_step E as H2. v_step E as H3. v_step E as H4. v_step E as H5. v_step E as H6. v_step E as H7.
  apply check_merkle_root_sound in H0. apply orb_false_iff in H2 as [_ Hs]. apply Z.ltb_ge in Hs.
  apply shielded_sound in H3; [|done]. apply check_positions_sound in H4 as [Hcb Hcs]. apply Z.ltb_ge in H7. rewrite (proj1 (block_sigops_exact b Hs)) in H7.
  apply v_def_accept in E as (ok & E & Hok). rewrite v_if_accept in Hok. apply negb_false_iff in Hok as ->.
  split_and!; try done; [by apply check_transactions_sound|]. unfold CheckBlockSignature, CBlock_IsProofOfWork in E.
  destruct (CBlock_IsProofOfStake b) eqn:Epos; cbn [negb andb] in *.
  - destruct (Hcs eq_refl) as [Hcs' Hout]. split_and!; [done|done|]. case_bool_decide; [done|].
    destruct (vtx b !! 1%nat) as [tx|]; [|done]. cbn in E. destruct (vout tx !! 1%nat) as [o|]; [|done]. cbn in E.
    destruct (Solver _ _) as [[ty sols]|]; [|done]. destruct (vin tx !! 0%nat) as [i|]; [|done]. cbn in E.
    destruct (block_pubkey _ _ _) as [[k|]|]; [|done..]. cbn in E. injection E as E. by exists k.
  - split; [by apply negb_false_iff in H|]. injection E as E. by apply bool_decide_eq_true in E.
Qed.

(** ** Rejections that are about the header *)

(** The pairs that are hashed for the root of a block. *)
Definition block_pairs (b : CBlock) : list (base_uint * base_uint) := tree_pairs (merkle_height (length b.(vtx))) (GetHash <$> b.(vtx)).

(** No two different strings that are hashed for the roots of two blocks, the
    transactions and the pairs of hashes, have the same hash. *)
Record no_block_collision (b1 b2 : CBlock) : Prop := {
  nb_pairs : no_collision (block_pairs b1 ++ block_pairs b2);
  nb_txs t1 t2 : t1 ∈ b1.(vtx) → t2 ∈ b2.(vtx) → GetHash t1 = GetHash t2 → SerializeTransaction t1 = SerializeTransaction t2;
  nb_mixed t a b : t ∈ b1.(vtx) ++ b2.(vtx) → (a, b) ∈ block_pairs b1 ++ block_pairs b2 → GetHash t = hash_pair a b →
    SerializeTransaction t = c_uint256.(enc) a ++ c_uint256.(enc) b;
}.

(** The transactions of a block are such as are read from the network, and none
    of them has the length of a pair of hashes. *)
Definition plain_transactions (b : CBlock) : Prop := Forall (λ tx, tx_ok tx ∧ length (SerializeTransaction tx) ≠ 64%nat) b.(vtx).

Lemma fmap_inj_on {A B} (f : A → B) (l1 l2 : list A) :
  (∀ a b, a ∈ l1 → b ∈ l2 → f a = f b → a = b) → f <$> l1 = f <$> l2 → l1 = l2.
Proof.
  revert l2. induction l1 as [|a l1 IH]; intros [|b l2] Hf E; [done..|]. cbn in E. injection E as E1 E2. f_equal.
  - apply Hf; [by left|by left|done].
  - apply IH; [|done]. intros x y Hx Hy. apply Hf; by right.
Qed.

Lemma GetHash_limbs tx : length (GetHash tx) = 8%nat.
Proof. unfold GetHash. destruct (c_uint256.(dec) _) as [[h r]|] eqn:E; [|done]. by apply (read_limbs_length 8) in E. Qed.
Lemma enc_limbs (x : base_uint) : length (c_uint256.(enc) x) = (4 * length x)%nat.
Proof.
  cbn [c_uint256 c_uint enc]. induction x as [|y x IH]; [done|]. cbn [fmap list_fmap concat]. rewrite length_app, IH. unfold ser_writedata.
  rewrite WriteLE_length. cbn. lia.
Qed.
Lemma serialization_inj t1 t2 : tx_ok t1 → tx_ok t2 → SerializeTransaction t1 = SerializeTransaction t2 → t1 = t2.
Proof.
  intros H1 H2 E. pose proof (c_transaction_rt t1 [] H1 : UnserializeTransaction (SerializeTransaction t1 ++ []) = _) as R1.
  pose proof (c_transaction_rt t2 [] H2 : UnserializeTransaction (SerializeTransaction t2 ++ []) = _) as R2. rewrite E, R2 in R1. by injection R1.
Qed.

(** The trees of two blocks have the same height if they have the same root. *)
Lemma same_root_height b1 b2 r : plain_transactions b1 → plain_transactions b2 → no_block_collision b1 b2 →
  b1.(vtx) ≠ [] → b2.(vtx) ≠ [] → size b1.(vtx) <= 2 ^ 31 → size b2.(vtx) <= 2 ^ 31 →
  BlockMerkleRoot b1.(vtx) = Some (r, false) → BlockMerkleRoot b2.(vtx) = Some (r, false) →
  merkle_height (length b1.(vtx)) = merkle_height (length b2.(vtx)).
Proof.
  intros P1 P2 [C1 _ C3] N1 N2 S1 S2 R1 R2. unfold BlockMerkleRoot in *.
  apply ComputeMerkleRoot_false in R1 as (-> & M1 & L1); [|by destruct (vtx b1)|by rewrite length_fmap].
  apply ComputeMerkleRoot_false in R2 as (E & M2 & L2); [|by destruct (vtx b2)|by rewrite length_fmap].
  rewrite !length_fmap in L1, L2. rewrite !length_fmap in E.
  assert (∀ a b, (a, b) ∈ block_pairs b1 ++ block_pairs b2 → length a = 8%nat ∧ length b = 8%nat) as H8.
  { assert (∀ l : list CTransaction, Forall (λ x : base_uint, length x = 8%nat) (GetHash <$> l)) as HF.
    { intros l. apply Forall_fmap, Forall_forall. intros t _. apply GetHash_limbs. }
    intros a b [Hab|Hab]%elem_of_app; (eapply tree_pairs_limbs; [|apply HF|exact Hab]); rewrite length_fmap; lia. }
  eapply (tree_root_height (block_pairs b1 ++ block_pairs b2) (λ x, ∃ t, t ∈ b1.(vtx) ++ b2.(vtx) ∧ x = GetHash t)); [exact C1| | | | | |exact E].
  - intros x a b (t & Ht & ->) Hab Ex. specialize (C3 t a b Ht Hab Ex). destruct (H8 a b Hab) as [La Lb].
    assert (length (SerializeTransaction t) ≠ 64%nat) as Hne.
    { unfold plain_transactions in *. rewrite Forall_forall in P1, P2. apply elem_of_app in Ht as [Ht|Ht]; [by apply P1|by apply P2]. }
    apply Hne. rewrite C3, length_app, !enc_limbs, La, Lb. done.
  - split_and!; [intros; apply elem_of_app; by left|rewrite length_fmap; lia|rewrite length_fmap; lia|done].
  - split_and!; [intros; apply elem_of_app; by right|rewrite length_fmap; lia|rewrite length_fmap; lia|done].
  - apply Forall_fmap, Forall_forall. intros t Ht. exists t. split; [apply elem_of_app; by left|done].
  - apply Forall_fmap, Forall_forall. intros t Ht. exists t. split; [apply elem_of_app; by right|done].
Qed.

(** The transactions of two blocks with one header that pass the check of the
    root are the same, up to collisions of the hash functions. *)
Lemma root_binds_transactions b1 b2 :
  b1.(header) = b2.(header) → b1.(vtx) ≠ [] → b2.(vtx) ≠ [] → size b1.(vtx) <= 2 ^ 31 → size b2.(vtx) <= 2 ^ 31 →
  plain_transactions b1 → plain_transactions b2 →
  no_block_collision b1 b2 → check_merkle_root b1 = Accept → check_merkle_root b2 = Accept → b1.(vtx) = b2.(vtx).
Proof.
  intros Eh N1 N2 S1 S2 P1 P2 Hc R1%check_merkle_root_sound R2%check_merkle_root_sound. rewrite Eh in R1.
  pose proof (same_root_height b1 b2 _ P1 P2 Hc N1 N2 S1 S2 R1 R2) as Hh. unfold BlockMerkleRoot in *.
  destruct Hc as [C1 C2 _]. unfold plain_transactions in *. rewrite Forall_forall in P1, P2.
  eapply (fmap_inj_on GetHash).
  { intros t1 t2 H1 H2 E. apply serialization_inj; [by apply P1|by apply P2|by apply C2]. }
  assert (∀ l : list CTransaction, l ≠ [] → GetHash <$> l ≠ []) as Hne by (intros [|]; done).
  unfold block_pairs in C1. rewrite <- Hh in C1. eapply unmutated_root_inj; rewrite ?length_fmap; eauto.
Qed.

(** The checks behind the size limit do not look at the registrations or the
    signature of the block, but for the signature itself. *)
Definition check_content (n : Node) (b : CBlock) : verdict :=
  check_positions b;; check_coldstake n b;; check_transactions n b.
Lemma check_content_same n b1 b2 : b1.(header) = b2.(header) → b1.(vtx) = b2.(vtx) → check_content n b1 = check_content n b2.
Proof.
  intros Eh Et. destruct b1 as [h1 t1 ? ? ?], b2 as [h2 t2 ? ? ?]. cbn in Eh, Et. subst h2 t2. reflexivity.
Qed.

Lemma v_then_reject a b r : (a;; b) = Reject r → a = Reject r ∨ a = Accept ∧ b = Reject r.
Proof. destruct a; cbn; naive_solver. Qed.
Lemma v_if_reject c l s k r : v_if c l s k = Reject r → c = true ∧ r = Some (mkRejection l s k).
Proof. destruct c; cbn; naive_solver. Qed.

(** A rejection without the flag of a corruption, of a block whose transactions
    the header commits to and whose size is within the limit, comes from the
    transactions. *)
Lemma uncorrupted_rejection n b r :
  check_block n b true true true = Reject (Some r) → r.(rj_corruption) = false → r.(rj_reason) ≠ "high-hash" → r.(rj_reason) ≠ "bad-blk-length" →
  check_merkle_root b = Accept ∧ b.(vtx) ≠ [] ∧ size b.(vtx) <= MAX_BLOCK_SIZE_CURRENT ∧ GetBlockSize b <= MAX_BLOCK_SIZE_CURRENT ∧
  (MAX_BLOCK_SHIELDED_TXES_SIZE < sum_of GetTotalSize (filter (λ tx, IsShieldedTx tx = true) b.(vtx)) ∨ check_content n b ≠ Accept).
Proof.
  unfold check_block. intros E Hk H1 H2.
  apply v_then_reject in E as [[_ [= ->]]%v_if_reject|[_ E]]; [done|].
  apply v_then_reject in E as [E|[Hroot E]].
  { unfold check_merkle_root in E. destruct (BlockMerkleRoot (vtx b)) as [[root mut]|]; [|done]. cbn in E.
    apply v_then_reject in E as [[_ [= ->]]%v_if_reject|[_ [_ [= ->]]%v_if_reject]]; done. }
  apply v_then_reject in E as [[_ [= ->]]%v_if_reject|[_ E]]; [done|].
  apply v_then_reject in E as [[_ [= ->]]%v_if_reject|[Hlen E]]; [done|]. rewrite v_if_accept in Hlen.
  apply orb_false_iff in Hlen as [[Hne Hn]%orb_false_iff Hs]. apply bool_decide_eq_false in Hne. apply Z.ltb_ge in Hn, Hs.
  split_and!; [done|done|done|done|].
  apply v_then_reject in E as [[Hsh _]%v_if_reject|[_ E]].
  { left. destruct (Z.le_gt_cases (sum_of GetTotalSize (filter (λ tx, IsShieldedTx tx = true) b.(vtx))) MAX_BLOCK_SHIELDED_TXES_SIZE) as [Hle|]; [|done].
    apply shielded_sound in Hle; [|done]. congruence. }
  right. unfold check_content. intros Hc. apply v_then_accept in Hc as [Hp Hc]. apply v_then_accept in Hc as [Hcs Ht]. rewrite Hp, Hcs, Ht in E. cbn [v_then] in E.
  apply v_then_reject in E as [[_ [= ->]]%v_if_reject|[_ E]]; [done|].
  destruct (CheckBlockSignature n b) as [ok|]; [|done]. cbn in E. apply v_if_reject in E as [_ [= ->]]. done.
Qed.

(** C32: a rejection of a block that does not tell of possible corruption is a
    verdict on the header: when [CheckBlock] rejects a block so, no other block
    with the same header is valid, provided that no two of the strings hashed
    for the roots of the blocks collide and that no transaction of the blocks
    is 64 bytes long, since such a transaction may stand for two others in the
    tree.  The exceptions are a failing proof of work, which the transactions
    decide whether it is needed, and the size limit, since neither the
    registrations nor the signature of a block are under its hash. *)
Theorem rejection_is_about_header (n : Node) (b1 b2 : CBlock) (r : rejection) :
  b1.(header) = b2.(header) → b1.(fChecked) = false → b2.(fChecked) = false →
  plain_transactions b1 → plain_transactions b2 → no_block_collision b1 b2 →
  (CheckBlock n b1 true true true).1 = Reject (Some r) → r.(rj_corruption) = false →
  r.(rj_reason) ≠ "high-hash" → r.(rj_reason) ≠ "bad-blk-length" →
  (CheckBlock n b2 true true true).1 ≠ Accept.
Proof.
  intros Eh F1 F2 Hp1 Hp2 Hnc E1 Hk R1 R2 E2. unfold CheckBlock in E1, E2. rewrite F1 in E1. rewrite F2 in E2.
  destruct (check_block n b1 true true true) as [|r'|] eqn:C1; [done| |done]. cbn in E1. injection E1 as ->.
  destruct (check_block n b2 true true true) as [| |] eqn:C2; [|done..]. clear E2.
  destruct (uncorrupted_rejection n b1 r C1 Hk R1 R2) as (M1 & N1 & S1 & G1 & Hbad).
  unfold check_block in C2. v_step C2 as H. v_step C2 as M2. v_step C2 as H1. v_step C2 as H2. v_step C2 as H3.
  apply orb_false_iff in H2 as [[N2 S2]%orb_false_iff G2]. apply bool_decide_eq_false in N2. apply Z.ltb_ge in S2, G2. unfold MAX_BLOCK_SIZE_CURRENT in S1, S2.
  assert (b1.(vtx) = b2.(vtx)) as Et by (apply root_binds_transactions; (done || lia)).
  apply shielded_sound in H3; [|done]. destruct Hbad as [Hsh|Hc]; [rewrite Et in Hsh; lia|]. apply Hc. rewrite (check_content_same n b1 b2 Eh Et).
  v_step C2 as P. v_step C2 as Q. v_step C2 as T. unfold check_content. by rewrite P, Q, T.
Qed.

(** ** What the hash of a block does not cover *)

Definition with_vReg (regs : list CAssetRegistration) (b : CBlock) : CBlock :=
  {| header := b.(header); vtx := b.(vtx); vReg := regs; vchBlockSig := b.(vchBlockSig); fChecked := b.(fChecked) |}.

(** the asset registrations of a block are covered neither by its hash nor
    by its signature: with any other registrations that keep the size within
    the limit, an accepted block stays an accepted block with the same hash. *)
Theorem registrations_not_committed (n : Node) (b : CBlock) (regs : list CAssetRegistration) :
  (CheckBlock n b true true true).1 = Accept → GetBlockSize (with_vReg regs b) <= MAX_BLOCK_SIZE_CURRENT →
  Block_GetHash (with_vReg regs b) = Block_GetHash b ∧ (CheckBlock n (with_vReg regs b) true true true).1 = Accept.
Proof.
  intros E Hs. split; [done|]. unfold CheckBlock in *. cbn [with_vReg fChecked]. destruct (fChecked b); [done|].
  destruct (check_block n b true true true) eqn:C; [clear E|done..]. 
  assert (check_block n (with_vReg regs b) true true true = Accept) as ->; [|done].
  unfold check_block in *. v_step C as H. v_step C as H0. v_step C as H1. v_step C as H2. v_step C as H3.
  apply orb_false_iff in H2 as [H2 G]. apply Z.ltb_ge in G. apply shielded_sound in H3; [|exact G].
  apply v_then_accept. split; [by apply v_if_accept|]. apply v_then_accept. split; [exact H0|]. apply v_then_accept. split; [by apply v_if_accept|].
  apply v_then_accept. split; [apply v_if_accept, orb_false_iff; split; [exact H2|by apply Z.ltb_ge]|].
  apply v_then_accept. split; [by apply v_if_accept, shielded_sound|]. exact C.
Qed.

(** ** The signature of a block *)

(** The key is read from the script of the first input of the coinstake
    without a check of its length. *)
Lemma short_scriptSig_undefined n b cs i o sols :
  CBlock_IsProofOfStake b = true → b.(vchBlockSig) ≠ [] → b.(vtx) !! 1%nat = Some cs → cs.(vout) !! 1%nat = Some o →
  Solver n.(g_newP2CSRules) o.(scriptPubKey) = Some (TX_PUBKEYHASH, sols) → cs.(vin) !! 0%nat = Some i → i.(scriptSig) = [] →
  CheckBlockSignature n b = None.
Proof.
  intros Hp Hs Ht Ho Hsol Hi Hempty. unfold CheckBlockSignature, CBlock_IsProofOfWork. rewrite Hp, bool_decide_false, Ht by done.
  cbn [negb mbind option_bind]. rewrite Ho. cbn [mbind option_bind]. rewrite Hsol, Hi. cbn [mbind option_bind]. rewrite Hempty. done.
Qed.

(** ** Times *)

(** from the second proof-of-stake block on, the times of blocks are the
    starts of time slots: outside of regression tests, a header is in time
    exactly when its time is the start of a slot after the one of its parent,
    and not later than the first start of a slot at or after the adjusted time
    of the node; so the slots of a chain are all different. *)
Theorem CheckBlockTime_accepts_slots (n : Node) (h : CBlockHeader) (p : ptr) (prev : CBlockIndex) :
  let slot := n.(consensus).(nTimeSlotLength) in
  0 < slot → n.(node_tree) !! p = Some prev → IsRegTestNet n = false →
  IsTimeProtocolV2 n.(consensus) (prev.(nHeight) + 1) = true →
  prev.(nHeight) + 1 ≠ (upgrade_at n.(consensus) ACTIVATE_POS).(nActivationHeight) →
  0 <= h.(hdr_nTime) → 0 <= n.(adjustedTime) → (slot | prev.(nTime)) →
  CheckBlockTime n h p = Accept ↔
  (slot | h.(hdr_nTime)) ∧ prev.(nTime) + slot <= h.(hdr_nTime) ∧
    h.(hdr_nTime) <= (n.(adjustedTime) + slot - 1) / slot * slot.
Proof.
  cbn zeta. intros Hslot Hp Hr Hv2 Hact Ht Hadj [k Hk]. unfold CheckBlockTime. rewrite Hr, Hp. cbn [v_def].
  rewrite v_then_accept, v_if_accept. unfold MaxFutureBlockTime, FutureBlockTimeDrift, MinPastBlockTime. rewrite Hp. cbn [mbind option_bind].
  rewrite Hv2. cbn [negb]. rewrite (proj2 (Z.eqb_neq _ _)) by done. cbn [v_def]. rewrite v_then_accept, !v_if_accept. unfold IsValidBlockTimeStamp, GetBlockTime.
  rewrite Hv2. cbn [negb]. set (slot := nTimeSlotLength (consensus n)) in *. rewrite negb_false_iff, Z.eqb_eq, Z.ltb_ge, Z.leb_gt.
  rewrite Z.rem_divide by lia. split.
  - intros (Hmax & Hmin & [m Hm]). split; [by exists m|]. rewrite Hm, Hk in *.
    apply Z.mul_lt_mono_pos_r in Hmin; [|done]. split; [pose proof (Z.mul_le_mono_nonneg_r (k + 1) m slot); lia|].
    apply Z.mul_le_mono_nonneg_r; [lia|]. apply Z.div_le_lower_bound; lia.
  - intros ([m Hm] & Hmin & Hmax). rewrite Hm, Hk in *. split; [|split; [lia|by exists m]].
    pose proof (Z.mul_div_le (n.(adjustedTime) + slot - 1) slot Hslot). lia.
Qed.

(** ** The height in the coinbase *)

(** The first instruction of a script that begins with a height. *)
Lemma push_int64_GetOp2 h rest : 1 <= h < 2 ^ 31 →
  GetOp2 (push_int64 h ++ rest) =
    Some (if h <=? 16 then (OP_1 + h - 1, [], rest) else (push_opcode (serialize h), serialize h, rest)) ∧
  (16 < h → size (serialize h) <= 5).
Proof.
  intros Hh. unfold push_int64. rewrite (proj2 (Z.eqb_neq h (-1))), (proj2 (Z.eqb_neq h 0)), (proj2 (Z.leb_le 1 h)) by lia. cbn [orb andb].
  destruct (serialize_value h 5) as (_ & Hs & _); [lia|lia|]. split; [|lia]. destruct (Z.leb_spec h 16).
  - unfold OP_1. rewrite u8_id by mlia. cbn [app GetOp2]. rewrite (proj2 (Z.leb_gt _ _)) by (unfold OP_PUSHDATA4; lia). do 3 f_equal. lia.
  - apply push_GetOp2. lia.
Qed.

Lemma push_int64_inj h1 h2 s : 1 <= h1 < 2 ^ 31 → 1 <= h2 < 2 ^ 31 →
  take (length (push_int64 h1)) s = push_int64 h1 → take (length (push_int64 h2)) s = push_int64 h2 → h1 = h2.
Proof.
  assert (∀ h, take (length (push_int64 h)) s = push_int64 h → s = push_int64 h ++ drop (length (push_int64 h)) s) as Hsplit.
  { intros h E. rewrite <- E at 1. by rewrite take_drop. }
  intros R1 R2 E1%Hsplit E2%Hsplit. destruct (push_int64_GetOp2 h1 (drop (length (push_int64 h1)) s) R1) as [G1 S1].
  destruct (push_int64_GetOp2 h2 (drop (length (push_int64 h2)) s) R2) as [G2 S2]. rewrite <- E1 in G1. rewrite <- E2 in G2. rewrite G1 in G2. clear E1 E2 G1.
  assert (∀ h, 16 < h → size (serialize h) <= 5 → push_opcode (serialize h) <= 5) as Hop.
  { intros h _ Hl. unfold push_opcode, OP_PUSHDATA1. rewrite (proj2 (Z.ltb_lt _ _)) by lia. lia. }
  unfold OP_1 in *. destruct (Z.leb_spec h1 16), (Z.leb_spec h2 16); injection G2 as G2 D2.
  - lia.
  - specialize (Hop h2 ltac:(lia) (S2 ltac:(lia))). lia.
  - specialize (Hop h1 ltac:(lia) (S1 ltac:(lia))). lia.
  - destruct (serialize_value h1 5) as (_ & _ & _ & V1); [lia|lia|]. destruct (serialize_value h2 5) as (_ & _ & _ & V2); [lia|lia|]. congruence.
Qed.

Lemma ContextualCheckBlock_height `{!SaplingVerifier} n b p prev : n.(node_tree) !! p = Some prev →
  ContextualCheckBlock n b (Some p) = Accept →
  ∃ cb i, b.(vtx) !! 0%nat = Some cb ∧ cb.(vin) !! 0%nat = Some i ∧
    take (length (push_int64 (prev.(nHeight) + 1))) i.(scriptSig) = push_int64 (prev.(nHeight) + 1).
Proof.
  intros Hp. unfold ContextualCheckBlock, coinbase_height_ok. rewrite Hp. cbn [mbind option_bind v_def]. intros [_ E]%v_then_accept.
  apply v_def_accept in E as (ok & E & Hok). rewrite v_if_accept in Hok. apply negb_false_iff in Hok as ->.
  destruct (vtx b !! 0%nat) as [cb|]; [|done]. cbn in E. destruct (vin cb !! 0%nat) as [i|] eqn:Ei; [|done]. cbn in E.
  exists cb, i. split_and!; [done|done|]. by injection E as E%bool_decide_eq_true.
Qed.

(** the coinbase transactions of blocks at different heights differ: when
    [ContextualCheckBlock] accepts two blocks whose coinbases have the same
    first input, the blocks have the same height. *)
Theorem coinbase_commits_height `{!SaplingVerifier} (n : Node) (b1 b2 : CBlock) (p1 p2 : ptr) (prev1 prev2 : CBlockIndex) (cb1 cb2 : CTransaction) :
  n.(node_tree) !! p1 = Some prev1 → n.(node_tree) !! p2 = Some prev2 →
  0 <= prev1.(nHeight) < 2 ^ 31 - 1 → 0 <= prev2.(nHeight) < 2 ^ 31 - 1 →
  ContextualCheckBlock n b1 (Some p1) = Accept → ContextualCheckBlock n b2 (Some p2) = Accept →
  b1.(vtx) !! 0%nat = Some cb1 → b2.(vtx) !! 0%nat = Some cb2 → cb1.(vin) = cb2.(vin) →
  prev1.(nHeight) = prev2.(nHeight).
Proof.
  intros P1 P2 R1 R2 E1 E2 C1 C2 Hv.
  destruct (ContextualCheckBlock_height n b1 p1 prev1 P1 E1) as (? & i1 & C1' & I1 & H1).
  destruct (ContextualCheckBlock_height n b2 p2 prev2 P2 E2) as (? & i2 & C2' & I2 & H2).
  rewrite C1 in C1'. injection C1' as <-. rewrite C2 in C2'. injection C2' as <-. rewrite Hv, I2 in I1. injection I1 as <-.
  assert (prev1.(nHeight) + 1 = prev2.(nHeight) + 1); [|lia]. apply (push_int64_inj _ _ i2.(scriptSig)); (done || lia).
Qed.
End sound.

(** ** Examples *)

#[local] Instance block_crypto : SigCrypto := sample_sig_crypto.
#[local] Instance block_sapling : SaplingVerifier :=
  {| sapling_ctx := unit; sapling_verification_ctx_init := tt; sapling_check_spend := λ c _ _, Some c;
     sapling_check_output := λ c _ _ _ _, Some c; sapling_final_check := λ _ _ _ _, true |}.

(** A regression test node with the blocks [t] and an empty active chain. *)
Definition sample_node (id : network) (now : Z) (t : BlockTree) : Node :=
  {| consensus := main_params; hashGenesisBlock := uint_zero 8; networkID := id; mapCheckpoints := []; checkpoints_fEnabled := true;
     mapBlockIndex := ∅; node_tree := t; chainActive := []; g_newP2CSRules := true; in_IBD := false; mn_IsSynced := true;
     IsBudgetPaymentBlock := λ _, false; spork_superblocks := false; spork_coldstaking_maintenance := false;
     GetCurrentAssetHash := uint_zero 8; GetTransaction := λ _, None; adjustedTime := now; maxreorg := None |}.

Definition sample_coinbase (script : CScript) : CTransaction :=
  {| nVersion := 1; nType := 0;
     vin := [{| prevout := {| prevout_hash := uint_zero 8; prevout_n := 2 ^ 32 - 1 |}; scriptSig := script; nSequence := 2 ^ 32 - 1 |}];
     vout := [{| nValue := 200 * COIN; scriptPubKey := [OP_1]; nRounds := -10 |}];
     nLockTime := 0; sapData := Some SaplingTxData_empty; extraPayload := None; walletSenderId := replicate 5 0 |}.
Definition sample_block (txs : list CTransaction) : CBlock :=
  {| header := {| hdr_nVersion := 5; hashPrevBlock := uint_zero 8;
                  hdr_hashMerkleRoot := match BlockMerkleRoot txs with Some (r, _) => r | None => [] end;
                  hdr_nTime := 1000; hdr_nBits := 0x207fffff; hdr_nNonce := 0; hdr_hashFinalSaplingRoot := uint_zero 8;
                  hdr_assetRootHash := uint_zero 8 |};
     vtx := txs; vReg := []; vchBlockSig := []; fChecked := false |}.

Lemma CheckBlock_sound_witness :
  let b := sample_block [sample_coinbase (push_int64 17 ++ [OP_0])] in
  (CheckBlock (sample_node REGTEST 0 ∅) b true true true).1 = Accept ∧ sum_of tx_sigops b.(vtx) <= 20000.
Proof.
  cbn zeta. set (b := sample_block [sample_coinbase (push_int64 17 ++ [OP_0])]).
  assert (CheckBlock (sample_node REGTEST 0 ∅) b true true true = (Accept, set_fChecked b)) as E by (vm_compute; reflexivity).
  split; [by rewrite E|]. destruct (CheckBlock_sound (sample_node REGTEST 0 ∅) b (set_fChecked b)) as (_ & _ & _ & _ & H & _);
    [vm_compute; split; [discriminate|reflexivity]|reflexivity|exact E|exact H].
Defined.

Lemma empty_coinbase_ok : tx_ok (sample_coinbase []).
Proof.
  assert (∀ n x, (0 <? n)%nat && (- 2 ^ (8 * Z.of_nat n - 1) <=? x) && (x <? 2 ^ (8 * Z.of_nat n - 1)) = true → signed_ok n x) as Hs
    by (unfold signed_ok; intros n x E; lia).
  assert (∀ W l, bool_decide (wf W l) = true → wf W l) as Hw by (intros W l E; by apply bool_decide_eq_true in E).
  assert (∀ x, bool_decide (is_u32 x) = true → is_u32 x) as Hu by (intros x E; by apply bool_decide_eq_true in E).
  unfold tx_ok.
  split; [by apply Hs|]. split; [by apply Hs|]. split; [|split; [|split; [|split; [|split]]]].
  - split; [|done]. repeat constructor; cbn; (by apply Hw) || (by apply Hu) || done.
  - split; [|done]. repeat constructor; cbn; lia || done.
  - by apply Hu.
  - done.
  - done.
  - by apply Hw.
Qed.

Lemma rejection_is_about_header_witness :
  let b := sample_block [sample_coinbase []] in
  (CheckBlock (sample_node REGTEST 0 ∅) b true true true).1 = Reject (Some (mkRejection 100 "bad-cb-length" false)) ∧
  (CheckBlock (sample_node REGTEST 0 ∅) (with_vReg [{| reg_owner := uint_zero 5; reg_key := uint_zero 5; reg_type := 1 |}] b) true true true).1 ≠ Accept.
Proof.
  cbn zeta. set (b := sample_block [sample_coinbase []]).
  assert ((CheckBlock (sample_node REGTEST 0 ∅) b true true true).1 = Reject (Some (mkRejection 100 "bad-cb-length" false))) as E
    by (vm_compute; reflexivity).
  assert (plain_transactions b) as Hp by (apply Forall_singleton; split; [exact empty_coinbase_ok|vm_compute; discriminate]).
  split; [exact E|]. eapply (rejection_is_about_header (sample_node REGTEST 0 ∅) b); [reflexivity|reflexivity|reflexivity|exact Hp|exact Hp| |exact E|reflexivity|done|done].
  split.
  - intros ? ? ? ? H. by apply elem_of_nil in H.
  - intros t1 t2 H1%list_elem_of_singleton H2%list_elem_of_singleton _. by rewrite H1, H2.
  - intros t x y _ H. by apply elem_of_nil in H.
Defined.

Lemma registrations_not_committed_witness :
  let b := sample_block [sample_coinbase (push_int64 17 ++ [OP_0])] in
  let b' := with_vReg [{| reg_owner := replicate 5 1; reg_key := replicate 5 2; reg_type := 1 |}] b in
  Block_GetHash b' = Block_GetHash b ∧ (CheckBlock (sample_node REGTEST 0 ∅) b' true true true).1 = Accept.
Proof.
  cbn zeta. apply registrations_not_committed; [vm_compute; reflexivity|vm_compute; discriminate].
Defined.

(** A parent at height 100000, in the proof-of-stake era. *)
Definition pos_parent : CBlockIndex := sample_entry 1 None 100000 (15 * 70000000).

Lemma CheckBlockTime_accepts_slots_witness :
  CheckBlockTime (sample_node MAIN (15 * 70000000 + 17) {[1%positive := pos_parent]})
    {| hdr_nVersion := 5; hashPrevBlock := uint_zero 8; hdr_hashMerkleRoot := uint_zero 8; hdr_nTime := 15 * 70000002; hdr_nBits := 0;
       hdr_nNonce := 0; hdr_hashFinalSaplingRoot := uint_zero 8; hdr_assetRootHash := uint_zero 8 |} 1%positive = Accept.
Proof.
  apply (CheckBlockTime_accepts_slots _ _ _ pos_parent); [done|reflexivity|reflexivity|reflexivity|done|done|done|by exists 70000000|].
  split; [by exists 70000002|]. split; done.
Defined.

(** Two parents at one height. *)
Definition pos_parents : BlockTree := {[1%positive := pos_parent; 2%positive := sample_entry 2 None 100000 (15 * 70000003)]}.
Lemma coinbase_commits_height_witness :
  let n := sample_node MAIN 0 pos_parents in
  let b := sample_block [sample_coinbase (push_int64 100001)] in
  ContextualCheckBlock n b (Some 1%positive) = Accept ∧ ContextualCheckBlock n b (Some 2%positive) = Accept ∧
  nHeight pos_parent = nHeight (sample_entry 2 None 100000 (15 * 70000003)).
Proof.
  cbn zeta. set (n := sample_node MAIN 0 pos_parents). set (b := sample_block [sample_coinbase (push_int64 100001)]).
  assert (ContextualCheckBlock n b (Some 1%positive) = Accept) as E1 by (vm_compute; reflexivity).
  assert (ContextualCheckBlock n b (Some 2%positive) = Accept) as E2 by (vm_compute; reflexivity). split; [exact E1|]. split; [exact E2|].
  eapply (coinbase_commits_height n b b 1%positive 2%positive pos_parent (sample_entry 2 None 100000 (15 * 70000003)));
    [vm_compute; reflexivity|vm_compute; reflexivity|vm_compute; split; [discriminate|reflexivity]|vm_compute; split; [discriminate|reflexivity]
    |exact E1|exact E2|reflexivity|reflexivity|reflexivity].
Defined.
