(* ===== verification/BlockFiles.v ===== *)
(** * BlockFiles: where blocks and undo data are kept on disk ([chain.h], [validation.cpp])

    A file is its bytes.  The system may refuse to open a file, be out of space,
    or write a part of the data only: these answers are in the record [Os].  The
    node keeps for every pair of files how many bytes of them are used; a new
    record goes behind them.  [stored_data_read_back] says that everything that
    was stored can be read, whatever was stored, and failed to be stored, later. *)

From S2P Require Import Prelude ArithUint256 Params Chain Pow Script Interpreter Serialize Transaction Block Coins Standard Compressor.
Local Open Scope Z_scope.

(** ** Positions and statistics *)

Record CDiskBlockPos := { pos_nFile : Z; pos_nPos : Z }.
#[export] Instance CDiskBlockPos_eq_dec : EqDecision CDiskBlockPos.
Proof. solve_decision. Defined.

Definition DiskPos_SetNull : CDiskBlockPos := {| pos_nFile := -1; pos_nPos := 0 |}.
Definition DiskPos_IsNull (p : CDiskBlockPos) : bool := p.(pos_nFile) =? -1.

(** [VARINT] of a non-negative [int]. *)
Definition c_varint_int : codec Z := {| enc := WriteVarInt; dec := ReadVarInt_loop i32 0 |}.
Definition c_diskpos : codec CDiskBlockPos :=
  {| enc p := c_varint_int.(enc) p.(pos_nFile) ++ c_varint32.(enc) p.(pos_nPos);
     dec s := '(f, s) ← c_varint_int.(dec) s; '(n, s) ← c_varint32.(dec) s; Some ({| pos_nFile := f; pos_nPos := n |}, s) |}.

Record CBlockFileInfo := {
  nBlocks : Z;
  info_nSize : Z;
  nUndoSize : Z;
  nHeightFirst : Z;
  nHeightLast : Z;
  nTimeFirst : Z;
  nTimeLast : Z;
}.

Definition c_fileinfo : codec CBlockFileInfo :=
  {| enc i := c_varint32.(enc) i.(nBlocks) ++ c_varint32.(enc) i.(info_nSize) ++ c_varint32.(enc) i.(nUndoSize) ++
              c_varint32.(enc) i.(nHeightFirst) ++ c_varint32.(enc) i.(nHeightLast) ++ c_varint64.(enc) i.(nTimeFirst) ++
              c_varint64.(enc) i.(nTimeLast);
     dec s := '(b, s) ← c_varint32.(dec) s; '(z, s) ← c_varint32.(dec) s; '(u, s) ← c_varint32.(dec) s;
              '(hf, s) ← c_varint32.(dec) s; '(hl, s) ← c_varint32.(dec) s; '(tf, s) ← c_varint64.(dec) s; '(tl, s) ← c_varint64.(dec) s;
              Some ({| nBlocks := b; info_nSize := z; nUndoSize := u; nHeightFirst := hf; nHeightLast := hl; nTimeFirst := tf;
                       nTimeLast := tl |}, s) |}.

Definition FileInfo_SetNull : CBlockFileInfo :=
  {| nBlocks := 0; info_nSize := 0; nUndoSize := 0; nHeightFirst := 0; nHeightLast := 0; nTimeFirst := 0; nTimeLast := 0 |}.

Definition AddBlock (nHeightIn nTimeIn : Z) (i : CBlockFileInfo) : CBlockFileInfo :=
  {| nBlocks := u32 (i.(nBlocks) + 1); info_nSize := i.(info_nSize); nUndoSize := i.(nUndoSize);
     nHeightFirst := if (i.(nBlocks) =? 0) || (nHeightIn <? i.(nHeightFirst)) then nHeightIn else i.(nHeightFirst);
     nHeightLast := if i.(nHeightLast) <? nHeightIn then nHeightIn else i.(nHeightLast);
     nTimeFirst := if (i.(nBlocks) =? 0) || (nTimeIn <? i.(nTimeFirst)) then nTimeIn else i.(nTimeFirst);
     nTimeLast := if i.(nTimeLast) <? nTimeIn then nTimeIn else i.(nTimeLast) |}.

Definition set_nSize (n : Z) (i : CBlockFileInfo) : CBlockFileInfo :=
  {| nBlocks := i.(nBlocks); info_nSize := n; nUndoSize := i.(nUndoSize); nHeightFirst := i.(nHeightFirst);
     nHeightLast := i.(nHeightLast); nTimeFirst := i.(nTimeFirst); nTimeLast := i.(nTimeLast) |}.
Definition set_nUndoSize (n : Z) (i : CBlockFileInfo) : CBlockFileInfo :=
  {| nBlocks := i.(nBlocks); info_nSize := i.(info_nSize); nUndoSize := n; nHeightFirst := i.(nHeightFirst);
     nHeightLast := i.(nHeightLast); nTimeFirst := i.(nTimeFirst); nTimeLast := i.(nTimeLast) |}.

(** [CBlockIndex::GetBlockPos] and [CBlockIndex::GetUndoPos]. *)
Definition GetBlockPos (b : CBlockIndex) : CDiskBlockPos :=
  if negb (Z.land b.(nStatus) BLOCK_HAVE_DATA =? 0) then {| pos_nFile := b.(nFile); pos_nPos := b.(nDataPos) |} else DiskPos_SetNull.
Definition GetUndoPos (b : CBlockIndex) : CDiskBlockPos :=
  if negb (Z.land b.(nStatus) BLOCK_HAVE_UNDO =? 0) then {| pos_nFile := b.(nFile); pos_nPos := b.(nUndoPos) |} else DiskPos_SetNull.

(** ** Files *)

(** The answers of the system to one operation. *)
Record Os := {
  fopen_rb : Z → bool;          (** an existing file can be opened with [rb+] *)
  fopen_wb : Z → bool;          (** a file can be opened with [wb+] *)
  ftruncate_ok : bool;
  fwrite_limit : option nat;    (** how many bytes can be written, if limited *)
  available : Z;                (** free bytes *)
}.

Notation Directory := (gmap Z (list Z)).

(** [OpenDiskFile]: the bytes of the file, and the files after the call, since
    [wb+] creates a file or empties it. *)
Definition OpenDiskFile (os : Os) (fReadOnly : bool) (pos : CDiskBlockPos) (d : Directory) : option (list Z) * Directory :=
  if DiskPos_IsNull pos then (None, d)
  else
    match (if os.(fopen_rb) pos.(pos_nFile) then d !! pos.(pos_nFile) else None) with
    | Some c => (Some c, d)
    | None => if negb fReadOnly && os.(fopen_wb) pos.(pos_nFile) then (Some [], <[pos.(pos_nFile) := []]> d) else (None, d)
    end.

(** Writing [data] at [pos] after [fseek]; a gap is filled with zeros. *)
Definition write_at (c : list Z) (pos : nat) (data : list Z) : list Z :=
  take pos c ++ replicate (pos - length c) 0 ++ data ++ drop (pos + length data) c.

(** The bytes that reach the file, and whether they are all. *)
Definition fwrite (os : Os) (data : list Z) : list Z * bool :=
  match os.(fwrite_limit) with None => (data, true) | Some k => (take k data, bool_decide (length data <= k)%nat) end.

(** [ftruncate]. *)
Definition TruncateFile (os : Os) (n : nat) (c : list Z) : list Z :=
  if os.(ftruncate_ok) then take n c ++ replicate (n - length c) 0 else c.

(** [AllocateFileRange], with [posix_fallocate] and in the general version,
    which writes zeros; whether it succeeds does not matter to the callers. *)
Definition AllocateFileRange (linux : bool) (os : Os) (offset n : nat) (c : list Z) : list Z :=
  if linux then c ++ replicate (offset + n - length c) 0
  else write_at c offset (fwrite os (replicate n 0)).1.

Definition nMinDiskSpace : Z := 52428800.
Definition CheckDiskSpace (os : Os) (nAdditionalBytes : Z) : bool := negb (os.(available) <? u64 (nMinDiskSpace + nAdditionalBytes)).

(** ** The state *)

Record Files := {
  vinfoBlockFile : list CBlockFileInfo;
  nLastBlockFile : Z;
  setDirtyFileInfo : gset Z;
  blk_files : Directory;
  rev_files : Directory;
}.

Definition with_blk (d : Directory) (s : Files) : Files :=
  {| vinfoBlockFile := s.(vinfoBlockFile); nLastBlockFile := s.(nLastBlockFile); setDirtyFileInfo := s.(setDirtyFileInfo); blk_files := d; rev_files := s.(rev_files) |}.
Definition with_rev (d : Directory) (s : Files) : Files :=
  {| vinfoBlockFile := s.(vinfoBlockFile); nLastBlockFile := s.(nLastBlockFile); setDirtyFileInfo := s.(setDirtyFileInfo); blk_files := s.(blk_files); rev_files := d |}.
Definition with_info (v : list CBlockFileInfo) (s : Files) : Files :=
  {| vinfoBlockFile := v; nLastBlockFile := s.(nLastBlockFile); setDirtyFileInfo := s.(setDirtyFileInfo); blk_files := s.(blk_files); rev_files := s.(rev_files) |}.
Definition with_last (n : Z) (s : Files) : Files :=
  {| vinfoBlockFile := s.(vinfoBlockFile); nLastBlockFile := n; setDirtyFileInfo := s.(setDirtyFileInfo); blk_files := s.(blk_files); rev_files := s.(rev_files) |}.
Definition dirty_file (n : Z) (s : Files) : Files :=
  {| vinfoBlockFile := s.(vinfoBlockFile); nLastBlockFile := s.(nLastBlockFile); setDirtyFileInfo := {[n]} ∪ s.(setDirtyFileInfo);
     blk_files := s.(blk_files); rev_files := s.(rev_files) |}.

(** Change an opened file: the bytes [f] makes of it. *)
Definition on_file (os : Os) (pos : CDiskBlockPos) (f : list Z → list Z) (d : Directory) : Directory :=
  match OpenDiskFile os false pos d with (Some c, d) => <[pos.(pos_nFile) := f c]> d | (None, d) => d end.

(** [vinfoBlockFile[nFile]]; [None] out of bounds. *)
Definition info_at (nFile : Z) (s : Files) : option CBlockFileInfo :=
  if nFile <? 0 then None else s.(vinfoBlockFile) !! Z.to_nat nFile.

(** [None]: [vinfoBlockFile] is indexed out of bounds, which happens for the truncation only. *)
Definition FlushBlockFile (os : Os) (fFinalize : bool) (s : Files) : option Files :=
  let posOld := {| pos_nFile := s.(nLastBlockFile); pos_nPos := 0 |} in
  info ← (if fFinalize then info_at s.(nLastBlockFile) s else Some FileInfo_SetNull);
  let s := with_blk (on_file os posOld (λ c, if fFinalize then TruncateFile os (Z.to_nat info.(info_nSize)) c else c) s.(blk_files)) s in
  Some (with_rev (on_file os posOld (λ c, if fFinalize then TruncateFile os (Z.to_nat info.(nUndoSize)) c else c) s.(rev_files)) s).

Definition MAX_BLOCKFILE_SIZE : Z := 0x8000000.
Definition BLOCKFILE_CHUNK_SIZE : Z := 0x1000000.
Definition UNDOFILE_CHUNK_SIZE : Z := 0x100000.

(** [vinfoBlockFile.resize(nFile + 1)] where it is shorter. *)
Definition resize_info (nFile : Z) (s : Files) : Files :=
  with_info (s.(vinfoBlockFile) ++ replicate (S (Z.to_nat nFile) - length s.(vinfoBlockFile)) FileInfo_SetNull) s.

(** The loop over the files that have no room; [None] also when the fuel is spent. *)
Fixpoint leave_full_files (os : Os) (fuel : nat) (nFile nAddSize : Z) (s : Files) : option (Z * Files) :=
  info ← info_at nFile s;
  if MAX_BLOCKFILE_SIZE <=? u32 (info.(info_nSize) + nAddSize) then
    match fuel with
    | O => None
    | S fuel =>
        s ← FlushBlockFile os true s;
        leave_full_files os fuel (nFile + 1) nAddSize (resize_info (nFile + 1) s)
    end
  else Some (nFile, s).

(** The chunks of a file that [n] bytes need. *)
Definition chunks (chunk n : Z) : Z := u32 (n + chunk - 1) / chunk.

Section disk.
Context (linux : bool).

(** Pre-allocation when the new size needs another chunk; [false] when the disk is full. *)
Definition preallocate (os : Os) (chunk : Z) (pos : CDiskBlockPos) (newSize : Z) (d : Directory) : bool * Directory :=
  let nNewChunks := chunks chunk newSize in
  if chunks chunk pos.(pos_nPos) <? nNewChunks then
    let n := u32 (u32 (nNewChunks * chunk) - pos.(pos_nPos)) in
    if CheckDiskSpace os n then
      (true, on_file os pos (AllocateFileRange linux os (Z.to_nat pos.(pos_nPos)) (Z.to_nat n)) d)
    else (false, d)
  else (true, d).

(** The result, the position and the state. *)
Definition FindBlockPos (os : Os) (pos : CDiskBlockPos) (nAddSize nHeight nTime : Z) (fKnown : bool) (s : Files) :
    option (bool * CDiskBlockPos * Files) :=
  let nFile := if fKnown then u32 pos.(pos_nFile) else u32 s.(nLastBlockFile) in
  let s := resize_info nFile s in
  '(nFile, s) ← (if fKnown then Some (nFile, s) else leave_full_files os (S (length s.(vinfoBlockFile))) nFile nAddSize s);
  info ← info_at nFile s;
  let pos := if fKnown then pos else {| pos_nFile := nFile; pos_nPos := info.(info_nSize) |} in
  let s := with_last nFile s in
  let newSize := if fKnown then Z.max (u32 (pos.(pos_nPos) + nAddSize)) info.(info_nSize) else u32 (info.(info_nSize) + nAddSize) in
  let s := with_info (<[Z.to_nat nFile := set_nSize newSize (AddBlock nHeight nTime info)]> s.(vinfoBlockFile)) s in
  let '(room, d) := if fKnown then (true, s.(blk_files)) else preallocate os BLOCKFILE_CHUNK_SIZE pos newSize s.(blk_files) in
  let s := with_blk d s in
  if room then Some (true, pos, dirty_file nFile s) else Some (false, pos, s).

Definition FindUndoPos (os : Os) (nFile nAddSize : Z) (s : Files) : option (bool * CDiskBlockPos * Files) :=
  info ← info_at nFile s;
  let pos := {| pos_nFile := nFile; pos_nPos := info.(nUndoSize) |} in
  let nNewSize := u32 (info.(nUndoSize) + nAddSize) in
  let s := dirty_file nFile (with_info (<[Z.to_nat nFile := set_nUndoSize nNewSize info]> s.(vinfoBlockFile)) s) in
  let '(room, d) := preallocate os UNDOFILE_CHUNK_SIZE pos nNewSize s.(rev_files) in
  Some (room, pos, with_rev d s).

(** ** Writing and reading *)

(** A call returns a value, or false after an error, or throws. *)
Inductive io (A : Type) := IoOk (a : A) | IoError | IoThrow.
#[global] Arguments IoOk {A} a.
#[global] Arguments IoError {A}.
#[global] Arguments IoThrow {A}.

Context (messageStart : list Z).

(** The network, the size and the data; the position returned is the one of the
    data. *)
Definition index_header (nSize : Z) : list Z := messageStart ++ ser_writedata 4 (u32 nSize).

Definition WriteBlockToDisk (os : Os) (block : CBlock) (pos : CDiskBlockPos) (s : Files) : io CDiskBlockPos * Files :=
  match OpenDiskFile os false pos s.(blk_files) with
  | (None, d) => (IoError, with_blk d s)
  | (Some c, d) =>
      let hd := index_header (GetBlockSize block) in
      let '(w, all) := fwrite os (hd ++ c_block.(enc) block) in
      (if all : bool then IoOk {| pos_nFile := pos.(pos_nFile); pos_nPos := u32 (pos.(pos_nPos) + size hd) |} else IoThrow,
       with_blk (<[pos.(pos_nFile) := write_at c (Z.to_nat pos.(pos_nPos)) w]> d) s)
  end.

Context `{ScriptCrypto} `{!Secp256k1} (prm : Params) (fRegTest : bool).

Definition ReadBlockFromDisk (os : Os) (pos : CDiskBlockPos) (s : Files) : option CBlock :=
  c ← (OpenDiskFile os true pos s.(blk_files)).1;
  '(block, _) ← c_block.(dec) (drop (Z.to_nat pos.(pos_nPos)) c);
  if CBlock_IsProofOfWork block && negb (CheckProofOfWork prm fRegTest (Block_GetHash block) block.(header).(hdr_nBits)) then None
  else Some block.

(** The block of an entry of the index. *)
Definition ReadBlockFromDisk_index (os : Os) (pindex : CBlockIndex) (s : Files) : option CBlock :=
  block ← ReadBlockFromDisk os (GetBlockPos pindex) s;
  if bool_decide (Block_GetHash block = pindex.(phashBlock)) then Some block else None.

(** The outer [None]: an assertion of the serialisation fails. *)
Definition UndoWriteToDisk (os : Os) (blockundo : list (list Coin)) (pos : CDiskBlockPos) (hashBlock : base_uint) (s : Files) :
    option (io CDiskBlockPos * Files) :=
  match OpenDiskFile os false pos s.(rev_files) with
  | (None, d) => Some (IoError, with_rev d s)
  | (Some c, d) =>
      data ← BlockUndo_Serialize blockundo;
      let hd := index_header (size data) in
      let '(w, all) := fwrite os (hd ++ data ++ Hash256 (c_uint256.(enc) hashBlock ++ data)) in
      Some (if all : bool then IoOk {| pos_nFile := pos.(pos_nFile); pos_nPos := u32 (pos.(pos_nPos) + size hd) |} else IoThrow,
            with_rev (<[pos.(pos_nFile) := write_at c (Z.to_nat pos.(pos_nPos)) w]> d) s)
  end.

(** [CHashVerifier] hashes the bytes that the reader consumes. *)
Definition UndoReadFromDisk (os : Os) (pos : CDiskBlockPos) (hashBlock : base_uint) (s : Files) : option (list (list Coin)) :=
  c ← (OpenDiskFile os true pos s.(rev_files)).1;
  let str := drop (Z.to_nat pos.(pos_nPos)) c in
  '(blockundo, rest) ← BlockUndo_Unserialize str;
  '(hashChecksum, _) ← read_bytes 32 rest;
  if bool_decide (hashChecksum = Hash256 (c_uint256.(enc) hashBlock ++ take (length str - length rest) str)) then Some blockundo else None.

(** The part of [AcceptBlock] that stores a new block. *)
Definition store_block (os : Os) (block : CBlock) (nHeight : Z) (s : Files) : option (io CDiskBlockPos * Files) :=
  '(ok, pos, s) ← FindBlockPos os DiskPos_SetNull (u32 (GetBlockSize block + 8)) nHeight block.(header).(hdr_nTime) false s;
  if ok : bool then Some (WriteBlockToDisk os block pos s) else Some (IoError, s).

(** The part of [ConnectBlock] that stores the undo data of a block of the file [nFile]. *)
Definition store_undo (os : Os) (blockundo : list (list Coin)) (nFile : Z) (hashPrev : base_uint) (s : Files) :
    option (io CDiskBlockPos * Files) :=
  data ← BlockUndo_Serialize blockundo;
  '(ok, pos, s) ← FindUndoPos os nFile (u32 (size data + 40)) s;
  if ok : bool then UndoWriteToDisk os blockundo pos hashPrev s else Some (IoError, s).
End disk.

(** ** The statistics are read back *)

#[export] Instance c_varint_int_rt : RoundTrip (λ x, 0 <= x < 2 ^ 31) c_varint_int.
Proof.
  intros n rest Hn. unfold c_varint_int, WriteVarInt. cbn [enc dec].
  rewrite (WriteVarInt_loop_spec i32 (2 ^ 31)); [done|intros; apply i32_id; mlia|mlia|].
  change (128 ^ (Z.of_nat 9 + 1)) with (2 ^ 70). mlia.
Qed.

#[export] Instance c_diskpos_rt : RoundTrip (λ p, 0 <= p.(pos_nFile) < 2 ^ 31 ∧ is_u32 p.(pos_nPos)) c_diskpos.
Proof.
  intros [f n] rest [Hf Hn]. cbn [c_diskpos enc dec pos_nFile pos_nPos] in *. rewrite <- app_assoc, round_trip by done.
  cbn [mbind option_bind]. by rewrite (round_trip (c := c_varint32)) by done.
Qed.

#[export] Instance c_fileinfo_rt : RoundTrip (λ i, Forall is_u32 [i.(nBlocks); i.(info_nSize); i.(nUndoSize); i.(nHeightFirst); i.(nHeightLast)] ∧
  is_u64 i.(nTimeFirst) ∧ is_u64 i.(nTimeLast)) c_fileinfo.
Proof.
  intros [b z u hf hl tf tl] rest (H32 & Htf & Htl). cbn [nBlocks info_nSize nUndoSize nHeightFirst nHeightLast nTimeFirst nTimeLast] in *.
  rewrite !Forall_cons in H32. destruct H32 as (? & ? & ? & ? & ? & _). cbn [c_fileinfo enc dec nBlocks info_nSize nUndoSize nHeightFirst nHeightLast nTimeFirst nTimeLast].
  rewrite <- !app_assoc. do 5 (rewrite (round_trip (c := c_varint32)) by done; cbn [mbind option_bind]).
  do 2 (rewrite (round_trip (c := c_varint64)) by done; cbn [mbind option_bind]). done.
Qed.

(** ** Bytes that stay where they are *)

(** The first [n] bytes of [c], as far as there are any, are in [c'] too. *)
Definition keeps (n : nat) (c c' : list Z) : Prop := ∀ i x, (i < n)%nat → c !! i = Some x → c' !! i = Some x.

Lemma keeps_refl n c : keeps n c c.
Proof. by intros i x. Qed.
Lemma keeps_trans n m c c' c'' : keeps n c c' → keeps m c' c'' → (n <= m)%nat → keeps n c c''.
Proof. intros H1 H2 Hm i x Hi Hx. apply H2; [lia|]. by apply H1. Qed.

Lemma keeps_write_at n c pos data : (n <= pos)%nat → keeps n c (write_at c pos data).
Proof.
  intros Hn i x Hi Hx. unfold write_at. rewrite lookup_app_l, lookup_take_lt; [done|lia|].
  rewrite length_take. apply lookup_lt_Some in Hx. lia.
Qed.
Lemma keeps_truncate os n m c : (n <= m)%nat → keeps n c (TruncateFile os m c).
Proof.
  intros Hn i x Hi Hx. unfold TruncateFile. destruct (ftruncate_ok os); [|done].
  rewrite lookup_app_l, lookup_take_lt; [done|lia|]. rewrite length_take. apply lookup_lt_Some in Hx. lia.
Qed.
Lemma keeps_allocate linux os n offset m c : (n <= offset)%nat → keeps n c (AllocateFileRange linux os offset m c).
Proof.
  intros Hn. unfold AllocateFileRange. destruct linux; [|by apply keeps_write_at].
  intros i x Hi Hx. by apply lookup_app_l_Some.
Qed.

(** The bytes [data] are at [p] in [c]. *)
Definition bytes_at (c : list Z) (p : nat) (data : list Z) : Prop := ∀ i x, data !! i = Some x → c !! (p + i)%nat = Some x.

Lemma bytes_at_keeps n c c' p data : keeps n c c' → (p + length data <= n)%nat → bytes_at c p data → bytes_at c' p data.
Proof. intros Hk Hn Hb i x Hi. apply Hk; [apply lookup_lt_Some in Hi; lia|by apply Hb]. Qed.

Lemma bytes_at_app c p l k : bytes_at c p (l ++ k) → bytes_at c (p + length l) k.
Proof.
  intros Hb i x Hi. rewrite <- Nat.add_assoc. apply Hb. by rewrite lookup_app_r, Nat.add_sub' by lia.
Qed.

Lemma bytes_at_drop c p data : bytes_at c p data → ∃ rest, drop p c = data ++ rest.
Proof.
  revert p; induction data as [|a data IH]; intros p Hb; [by exists (drop p c)|].
  pose proof (Hb 0%nat a eq_refl) as Ha. rewrite Nat.add_0_r in Ha.
  destruct (IH (S p)) as [rest E]. { intros i x Hi. rewrite Nat.add_succ_l, <- Nat.add_succ_r. by apply Hb. }
  exists rest. by rewrite (drop_S _ _ _ Ha), E.
Qed.

Lemma bytes_at_write c pos data : bytes_at (write_at c pos data) pos data.
Proof.
  intros i x Hi. unfold write_at. rewrite app_assoc.
  assert (length (take pos c ++ replicate (pos - length c) 0) = pos) as El by (rewrite length_app, length_take, length_replicate; lia).
  rewrite lookup_app_r by lia. rewrite El, Nat.add_sub'. by apply lookup_app_l_Some.
Qed.

(** [fopen] that fails with [rb+] on a file fails with [wb+] too: the file is not emptied. *)
Definition os_ok (os : Os) : Prop := ∀ f, os.(fopen_rb) f = false → os.(fopen_wb) f = false.

Definition dir_keeps (sz : Z → nat) (d d' : Directory) : Prop :=
  ∀ f c, d !! f = Some c → ∃ c', d' !! f = Some c' ∧ keeps (sz f) c c'.

Lemma dir_keeps_refl sz d : dir_keeps sz d d.
Proof. intros f c Hf. exists c. by split; [|apply keeps_refl]. Qed.
Lemma dir_keeps_trans sz sz' d d' d'' : dir_keeps sz d d' → dir_keeps sz' d' d'' → (∀ f, (sz f <= sz' f)%nat) → dir_keeps sz d d''.
Proof.
  intros H1 H2 Hs f c Hf. destruct (H1 f c Hf) as (c' & Hf' & Hk). destruct (H2 f c' Hf') as (c'' & Hf'' & Hk').
  exists c''. split; [done|]. by eapply keeps_trans.
Qed.

Lemma OpenDiskFile_spec os r pos d : os_ok os →
  let '(o, d') := OpenDiskFile os r pos d in
  (∀ f c, d !! f = Some c → d' !! f = Some c) ∧ ∀ c, o = Some c → d' !! pos.(pos_nFile) = Some c.
Proof.
  intros Hos. unfold OpenDiskFile. destruct (DiskPos_IsNull pos); [by split|].
  destruct (fopen_rb os (pos_nFile pos)) eqn:Er.
  - destruct (d !! pos_nFile pos) as [c|] eqn:E; [split; [done|congruence]|].
    destruct (negb r && fopen_wb os (pos_nFile pos)); [|by split]. split; [|intros c [= <-]; apply lookup_insert_eq].
    intros f c Hf. rewrite lookup_insert_ne; [done|]. congruence.
  - rewrite (Hos _ Er), andb_false_r. by split.
Qed.

Lemma on_file_keeps os pos g d sz : os_ok os → (∀ c, keeps (sz pos.(pos_nFile)) c (g c)) → dir_keeps sz d (on_file os pos g d).
Proof.
  intros Hos Hg f c Hf. unfold on_file. pose proof (OpenDiskFile_spec os false pos d Hos) as Ho.
  destruct (OpenDiskFile os false pos d) as [[c0|] d']; destruct Ho as [Ho1 Ho2].
  - destruct (decide (f = pos_nFile pos)) as [->|Hne].
    + exists (g c0). rewrite lookup_insert_eq. split; [done|]. specialize (Ho1 _ _ Hf). rewrite (Ho2 c0 eq_refl) in Ho1. injection Ho1 as ->. apply Hg.
    + exists c. rewrite lookup_insert_ne by done. split; [by apply Ho1|apply keeps_refl].
  - exists c. split; [by apply Ho1|apply keeps_refl].
Qed.

(** ** The used parts of the files *)

Definition blk_size (s : Files) (f : Z) : nat := match info_at f s with Some i => Z.to_nat i.(info_nSize) | None => 0 end.
Definition undo_size (s : Files) (f : Z) : nat := match info_at f s with Some i => Z.to_nat i.(nUndoSize) | None => 0 end.

Definition info_ok (i : CBlockFileInfo) : Prop := 0 <= i.(info_nSize) < 2 ^ 31 ∧ 0 <= i.(nUndoSize) < 2 ^ 32.
Definition files_ok (s : Files) : Prop := 0 <= s.(nLastBlockFile) <= size s.(vinfoBlockFile) ∧ Forall info_ok s.(vinfoBlockFile).

(** What was in the used part of a file is still there, and the used parts only grow. *)
Definition grows (s s' : Files) : Prop :=
  dir_keeps (blk_size s) s.(blk_files) s'.(blk_files) ∧ dir_keeps (undo_size s) s.(rev_files) s'.(rev_files) ∧
  ∀ f, (blk_size s f <= blk_size s' f)%nat ∧ (undo_size s f <= undo_size s' f)%nat.

Lemma grows_trans s s' s'' : grows s s' → grows s' s'' → grows s s''.
Proof.
  intros (Hb & Hr & Hs) (Hb' & Hr' & Hs'). split_and!.
  - apply (dir_keeps_trans _ _ _ _ _ Hb Hb'). apply Hs.
  - apply (dir_keeps_trans _ _ _ _ _ Hr Hr'). apply Hs.
  - intros f. specialize (Hs f). specialize (Hs' f). lia.
Qed.

Lemma info_at_ok s f i : files_ok s → info_at f s = Some i → info_ok i.
Proof.
  intros [_ H] Hi. unfold info_at in Hi. destruct (f <? 0); [done|]. by apply (Forall_lookup_1 _ _ _ _ H Hi).
Qed.

Lemma info_at_lt f s : 0 <= f → is_Some (info_at f s) ↔ (Z.to_nat f < length s.(vinfoBlockFile))%nat.
Proof. intros Hf. unfold info_at. rewrite (proj2 (Z.ltb_ge _ _)) by done. apply lookup_lt_is_Some. Qed.

Lemma resize_info_at n f s : info_at f (resize_info n s) = info_at f s ∨
  (info_at f s = None ∧ info_at f (resize_info n s) = Some FileInfo_SetNull).
Proof.
  unfold info_at, resize_info. cbn. destruct (f <? 0); [by left|].
  destruct (decide (Z.to_nat f < length (vinfoBlockFile s))%nat) as [Hl|Hl]; [left; by rewrite lookup_app_l|].
  rewrite lookup_app_r by lia. rewrite (lookup_ge_None_2 (vinfoBlockFile s)) by lia.
  destruct (decide (Z.to_nat f < S (Z.to_nat n))%nat); [right|left].
  - split; [done|]. apply lookup_replicate_2. lia.
  - apply lookup_ge_None_2. rewrite length_replicate. lia.
Qed.

Lemma resize_info_in n s : 0 <= n → is_Some (info_at n (resize_info n s)).
Proof. intros Hn. apply info_at_lt; [done|]. unfold resize_info. cbn. rewrite length_app, length_replicate. lia. Qed.

Lemma resize_info_sizes n s f : blk_size (resize_info n s) f = blk_size s f ∧ undo_size (resize_info n s) f = undo_size s f.
Proof. unfold blk_size, undo_size. destruct (resize_info_at n f s) as [->|[-> ->]]; done. Qed.

Lemma resize_info_files_ok n s : files_ok s → files_ok (resize_info n s).
Proof.
  intros [Hl Hi]. unfold resize_info. split; cbn; [rewrite length_app; lia|]. apply Forall_app. split; [done|]. apply Forall_replicate. unfold info_ok. cbn. lia.
Qed.

(** Changes of the directories only. *)
Lemma grows_dirs s d d' : dir_keeps (blk_size s) s.(blk_files) d → dir_keeps (undo_size s) s.(rev_files) d' → grows s (with_rev d' (with_blk d s)).
Proof. intros Hb Hr. split; [done|]. split; [done|]. intros f. by split. Qed.

Lemma resize_info_grows n s : grows s (resize_info n s).
Proof.
  split; [apply dir_keeps_refl|]. split; [apply dir_keeps_refl|]. intros f. destruct (resize_info_sizes n s f) as [-> ->]. by split.
Qed.

Lemma FlushBlockFile_spec os fin s : os_ok os → (fin = true → is_Some (info_at s.(nLastBlockFile) s)) →
  ∃ s', FlushBlockFile os fin s = Some s' ∧ grows s s' ∧ vinfoBlockFile s' = vinfoBlockFile s ∧ nLastBlockFile s' = nLastBlockFile s.
Proof.
  intros Hos Hi. unfold FlushBlockFile. destruct fin.
  - destruct (Hi eq_refl) as [i Ei]. rewrite Ei. cbn [mbind option_bind]. eexists. split; [reflexivity|]. split; [|done].
    apply grows_dirs; apply on_file_keeps; [done| |done|]; intros c; apply keeps_truncate; unfold blk_size, undo_size; cbn; rewrite Ei; lia.
  - eexists. split; [reflexivity|]. split; [|done]. apply grows_dirs; apply on_file_keeps; [done| |done|]; intros c; apply keeps_refl.
Qed.

(** The search for a file with room ends: at the latest with a new file. *)
Lemma leave_full_files_spec os add fuel nFile s :
  os_ok os → files_ok s → 0 <= add < MAX_BLOCKFILE_SIZE → 0 <= nFile → is_Some (info_at nFile s) → is_Some (info_at s.(nLastBlockFile) s) →
  (length s.(vinfoBlockFile) <= fuel + Z.to_nat nFile)%nat ∨ info_at nFile s = Some FileInfo_SetNull →
  ∃ nFile' s' i, leave_full_files os fuel nFile add s = Some (nFile', s') ∧ grows s s' ∧ files_ok s' ∧
    nFile <= nFile' ∧ info_at nFile' s' = Some i ∧ i.(info_nSize) + add < MAX_BLOCKFILE_SIZE.
Proof.
  intros Hos. revert nFile s; induction fuel as [|fuel IH]; intros nFile s Hs Ha Hn [i Hi] Hl Hf; cbn [leave_full_files]; rewrite Hi; cbn [mbind option_bind];
    pose proof (info_at_ok _ _ _ Hs Hi) as [Hz _]; unfold MAX_BLOCKFILE_SIZE in *; rewrite u32_id by mlia;
    (destruct (Z.leb_spec 0x8000000 (i.(info_nSize) + add)) as [Hfull|Hroom];
      [|exists nFile, s, i; split_and!; [done| |done|lia|done|lia]; split; [apply dir_keeps_refl|split; [apply dir_keeps_refl|by split]]]).
  - exfalso. destruct Hf as [Hf|Hf].
    + assert (is_Some (info_at nFile s)) as Hlt by eauto. apply info_at_lt in Hlt; [lia|done].
    + rewrite Hi in Hf. injection Hf as ->. cbn in Hfull. lia.
  - destruct (FlushBlockFile_spec os true s Hos (λ _, Hl)) as (s1 & -> & Hg & Ei & El). cbn [mbind option_bind].
    assert (files_ok s1) as Hs1 by (split; rewrite ?El, Ei; apply Hs).
    assert (is_Some (info_at nFile s)) as Hlt by eauto. apply info_at_lt in Hlt; [|done].
    destruct (IH (nFile + 1) (resize_info (nFile + 1) s1)) as (n' & s' & i' & E & Hg' & Hs' & Hn' & Hi' & Hr).
    + by apply resize_info_files_ok.
    + done.
    + lia.
    + apply resize_info_in. lia.
    + unfold resize_info. cbn. rewrite El. assert (info_at (nLastBlockFile s) s1 = info_at (nLastBlockFile s) s) as E1 by (unfold info_at; by rewrite Ei).
      destruct (resize_info_at (nFile + 1) (nLastBlockFile s) s1) as [E|[E _]]; [|by rewrite E1 in E; rewrite E in Hl; destruct Hl].
      unfold resize_info in E. by rewrite E, E1.
    + destruct (resize_info_at (nFile + 1) (nFile + 1) s1) as [E|[_ E]]; [left|by right].
      assert (is_Some (info_at (nFile + 1) s1)) as Hin by (rewrite <- E; apply resize_info_in; lia).
      apply info_at_lt in Hin; [|lia]. unfold resize_info. cbn. rewrite length_app, length_replicate, Ei in *.
      destruct Hf as [Hf|Hf]; [lia|]. rewrite Hi in Hf. injection Hf as ->. cbn in Hfull. lia.
    + exists n', s', i'. split_and!; [done| |done|lia|done|done].
      apply (grows_trans _ _ _ Hg). by apply (grows_trans _ _ _ (resize_info_grows (nFile + 1) s1)).
Qed.

Lemma preallocate_keeps linux os chunk pos newSize d sz : os_ok os → (sz pos.(pos_nFile) <= Z.to_nat pos.(pos_nPos))%nat →
  dir_keeps sz d (preallocate linux os chunk pos newSize d).2.
Proof.
  intros Hos Hsz. unfold preallocate. destruct (_ <? _); [|apply dir_keeps_refl]. destruct (CheckDiskSpace _ _); [|apply dir_keeps_refl].
  cbn [snd]. apply on_file_keeps; [done|]. intros c. by apply keeps_allocate.
Qed.

(** The statistics of one file are replaced. *)
Definition set_info (nFile : Z) (i : CBlockFileInfo) (s : Files) : Files := with_info (<[Z.to_nat nFile := i]> s.(vinfoBlockFile)) s.

Lemma set_info_at nFile i s f : is_Some (info_at nFile s) →
  info_at f (set_info nFile i s) = if decide (f = nFile) then Some i else info_at f s.
Proof.
  intros Hi. assert (0 <= nFile) by (unfold info_at in Hi; destruct (Z.ltb_spec nFile 0); [by destruct Hi|done]).
  apply info_at_lt in Hi as Hl; [|done]. unfold info_at, set_info. cbn. destruct (decide (f = nFile)) as [->|Hne].
  - rewrite (proj2 (Z.ltb_ge _ _)) by done. by apply list_lookup_insert_eq.
  - destruct (Z.ltb_spec f 0); [done|]. apply list_lookup_insert_ne. lia.
Qed.

Lemma set_info_files_ok nFile i s : files_ok s → info_ok i → files_ok (set_info nFile i s).
Proof. intros [Hl Hf] Hi. split; cbn; [by rewrite length_insert|]. by apply Forall_insert. Qed.

(** A state that differs in one statistic, the last file and the directories. *)
Lemma grows_set_info nFile i i' s d d' s' : info_at nFile s = Some i →
  i.(info_nSize) <= i'.(info_nSize) → i.(nUndoSize) <= i'.(nUndoSize) →
  s'.(vinfoBlockFile) = (set_info nFile i' s).(vinfoBlockFile) → s'.(blk_files) = d → s'.(rev_files) = d' →
  dir_keeps (blk_size s) s.(blk_files) d → dir_keeps (undo_size s) s.(rev_files) d' → grows s s'.
Proof.
  intros Hi Hz Hu Ev <- <- Hb Hr. split; [done|]. split; [done|]. intros f. unfold blk_size, undo_size.
  assert (info_at f s' = info_at f (set_info nFile i' s)) as -> by (unfold info_at; by rewrite Ev). rewrite set_info_at by eauto.
  destruct (decide (f = nFile)) as [->|]; [rewrite Hi; lia|done].
Qed.

Lemma FindBlockPos_spec linux os pos add h t s :
  os_ok os → files_ok s → size s.(vinfoBlockFile) < 2 ^ 32 → 0 <= add < MAX_BLOCKFILE_SIZE →
  ∃ ok pos' s', FindBlockPos linux os pos add h t false s = Some (ok, pos', s') ∧ grows s s' ∧ files_ok s' ∧
    0 <= pos'.(pos_nFile) ∧ 0 <= pos'.(pos_nPos) ∧ pos'.(pos_nPos) + add < MAX_BLOCKFILE_SIZE ∧
    (blk_size s pos'.(pos_nFile) <= Z.to_nat pos'.(pos_nPos))%nat ∧ blk_size s' pos'.(pos_nFile) = Z.to_nat (pos'.(pos_nPos) + add).
Proof.
  intros Hos Hs Hsz Ha. pose proof Hs as [Hl _]. unfold FindBlockPos. cbn [negb]. rewrite u32_id by mlia.
  set (n0 := nLastBlockFile s) in *. set (s0 := resize_info n0 s).
  assert (files_ok s0) as Hs0 by by apply resize_info_files_ok.
  assert (is_Some (info_at n0 s0)) as Hi0 by (apply resize_info_in; lia).
  destruct (leave_full_files_spec os add (S (length s0.(vinfoBlockFile))) n0 s0 Hos Hs0 Ha) as (n & s1 & i & -> & Hg & Hs1 & Hn & Hi & Hr);
    [lia|done|exact Hi0|left; lia|]. cbn [mbind option_bind]. rewrite Hi. cbn [mbind option_bind].
  pose proof (info_at_ok _ _ _ Hs1 Hi) as [Hz Hu]. unfold MAX_BLOCKFILE_SIZE in *. rewrite u32_id by mlia.
  set (i' := set_nSize (info_nSize i + add) (AddBlock h t i)). set (p := {| pos_nFile := n; pos_nPos := info_nSize i |}).
  pose proof (preallocate_keeps linux os BLOCKFILE_CHUNK_SIZE p (info_nSize i + add) s1.(blk_files) (blk_size s1) Hos) as Hk.
  assert (blk_size s1 n = Z.to_nat (info_nSize i)) as Hbs by (unfold blk_size; by rewrite Hi). specialize (Hk ltac:(cbn; lia)).
  cbn [with_last with_info blk_files vinfoBlockFile]. destruct (preallocate _ _ _ _ _ _) as [room d]. cbn [snd] in Hk.
  assert (∀ s', s'.(vinfoBlockFile) = (set_info n i' s1).(vinfoBlockFile) → s'.(blk_files) = d → s'.(rev_files) = s1.(rev_files) →
    s'.(nLastBlockFile) = n → grows s s' ∧ files_ok s' ∧ blk_size s' n = Z.to_nat (info_nSize i + add)) as Hfin.
  { intros s' Ev Eb Er El. split_and!.
    - apply (grows_trans _ _ _ (resize_info_grows n0 s)), (grows_trans _ _ _ Hg).
      apply (grows_set_info n i i' s1 d s1.(rev_files) s' Hi); cbn; [lia|lia|exact Ev|exact Eb|exact Er|exact Hk|apply dir_keeps_refl].
    - split; [|rewrite Ev; apply (set_info_files_ok n i' s1 Hs1); split; cbn; lia]. rewrite El, Ev. cbn. rewrite length_insert.
      assert (is_Some (info_at n s1)) as Hin by eauto. apply info_at_lt in Hin; lia.
    - unfold blk_size. assert (info_at n s' = info_at n (set_info n i' s1)) as -> by (unfold info_at; by rewrite Ev).
      rewrite set_info_at by eauto. by rewrite decide_True. }
  assert (blk_size s n <= Z.to_nat (info_nSize i))%nat as Hle.
  { destruct Hg as (_ & _ & Hg). specialize (Hg n). destruct (resize_info_sizes n0 s n) as [E _]. unfold s0 in Hg. rewrite E in Hg. lia. }
  destruct room; (eexists _, p, _; split; [reflexivity|]; unfold p; cbn [pos_nFile pos_nPos];
    edestruct Hfin as (Hg' & Hs' & Hb'); [..|split_and!; [exact Hg'|exact Hs'|lia|lia|lia|exact Hle|exact Hb']]; reflexivity).
Qed.

Lemma FindUndoPos_spec linux os nFile add s i :
  os_ok os → files_ok s → info_at nFile s = Some i → 0 <= add → i.(nUndoSize) + add < 2 ^ 32 →
  ∃ ok s', FindUndoPos linux os nFile add s = Some (ok, {| pos_nFile := nFile; pos_nPos := i.(nUndoSize) |}, s') ∧
    grows s s' ∧ files_ok s' ∧ undo_size s' nFile = Z.to_nat (i.(nUndoSize) + add).
Proof.
  intros Hos Hs Hi Ha Hadd. pose proof (info_at_ok _ _ _ Hs Hi) as [Hz Hu]. unfold FindUndoPos. rewrite Hi. cbn [mbind option_bind].
  rewrite u32_id by mlia. set (i' := set_nUndoSize (nUndoSize i + add) i). set (p := {| pos_nFile := nFile; pos_nPos := nUndoSize i |}).
  pose proof (preallocate_keeps linux os UNDOFILE_CHUNK_SIZE p (nUndoSize i + add) s.(rev_files) (undo_size s) Hos) as Hk.
  specialize (Hk ltac:(unfold undo_size; cbn; rewrite Hi; lia)). cbn [dirty_file with_info rev_files]. 
  destruct (preallocate _ _ _ _ _ _) as [room d]. cbn [snd] in Hk. eexists room, _. split; [reflexivity|]. split_and!.
  - apply (grows_set_info nFile i i' s s.(blk_files) d _ Hi); cbn; [lia|lia|done..| |done]. apply dir_keeps_refl.
  - apply (set_info_files_ok nFile i' s Hs). split; cbn; lia.
  - unfold undo_size. change (info_at nFile _) with (info_at nFile (set_info nFile i' s)). rewrite set_info_at by eauto. by rewrite decide_True.
Qed.

(** ** What is on the disk *)

Inductive stored_record :=
  | BlockAt (pos : CDiskBlockPos) (block : CBlock)
  | UndoAt (pos : CDiskBlockPos) (hashPrev : base_uint) (blockundo : list (list Coin)).

Section records.
Context (linux : bool) (messageStart : list Z) `{ScriptCrypto} `{!Secp256k1} (prm : Params) (fRegTest : bool).
Context (messageStart_size : length messageStart = 4%nat).

(** The bytes of a record, in the used part of its file. *)
Definition recorded (s : Files) (e : stored_record) : Prop :=
  match e with
  | BlockAt pos b => 0 <= pos.(pos_nFile) ∧ ∃ c, s.(blk_files) !! pos.(pos_nFile) = Some c ∧
      bytes_at c (Z.to_nat pos.(pos_nPos)) (c_block.(enc) b) ∧
      (Z.to_nat pos.(pos_nPos) + length (c_block.(enc) b) <= blk_size s pos.(pos_nFile))%nat
  | UndoAt pos h undo => 0 <= pos.(pos_nFile) ∧ ∃ c data, s.(rev_files) !! pos.(pos_nFile) = Some c ∧ BlockUndo_Serialize undo = Some data ∧
      let bytes := data ++ Hash256 (c_uint256.(enc) h ++ data) in
      bytes_at c (Z.to_nat pos.(pos_nPos)) bytes ∧ (Z.to_nat pos.(pos_nPos) + length bytes <= undo_size s pos.(pos_nFile))%nat
  end.

Lemma recorded_grows s s' e : grows s s' → recorded s e → recorded s' e.
Proof.
  intros (Hb & Hr & Hs). destruct e as [pos b|pos h undo]; cbn.
  - intros (Hf0 & c & Hc & Hat & Hle). split; [done|]. destruct (Hb _ _ Hc) as (c' & Hc' & Hk). exists c'. split; [done|].
    specialize (Hs pos.(pos_nFile)). split; [by eapply bytes_at_keeps|lia].
  - intros (Hf0 & c & data & Hc & Hd & Hat & Hle). split; [done|]. destruct (Hr _ _ Hc) as (c' & Hc' & Hk). exists c', data. split; [done|]. split; [done|].
    specialize (Hs pos.(pos_nFile)). split; [by eapply bytes_at_keeps|lia].
Qed.

(** Writing behind the used part of a file. *)
Lemma write_record os pos w d sz : os_ok os → (sz pos.(pos_nFile) <= Z.to_nat pos.(pos_nPos))%nat →
  match OpenDiskFile os false pos d with
  | (Some c, d') => dir_keeps sz d (<[pos.(pos_nFile) := write_at c (Z.to_nat pos.(pos_nPos)) w]> d')
  | (None, d') => dir_keeps sz d d'
  end.
Proof.
  intros Hos Hsz. pose proof (on_file_keeps os pos (λ c, write_at c (Z.to_nat pos.(pos_nPos)) w) d sz Hos) as Hk.
  unfold on_file in Hk. destruct (OpenDiskFile os false pos d) as [[c|] d']; apply Hk; intros c'; by apply keeps_write_at.
Qed.

Lemma fwrite_all os data w : fwrite os data = (w, true) → w = data.
Proof.
  unfold fwrite. destruct (fwrite_limit os) as [k|]; [|by intros [= <-]]. intros [= <- E]. apply bool_decide_eq_true in E. by apply take_ge.
Qed.

Lemma index_header_size n : size (index_header messageStart n) = 8.
Proof. unfold index_header, ser_writedata. rewrite length_app, messageStart_size. done. Qed.

Lemma store_block_spec os b h s : os_ok os → files_ok s → size s.(vinfoBlockFile) < 2 ^ 32 → GetBlockSize b + 8 < MAX_BLOCKFILE_SIZE →
  ∃ r s', store_block linux messageStart os b h s = Some (r, s') ∧ grows s s' ∧ files_ok s' ∧
    ∀ pos, r = IoOk pos → recorded s' (BlockAt pos b).
Proof.
  intros Hos Hs Hsz Hb. unfold store_block. unfold MAX_BLOCKFILE_SIZE in Hb. assert (0 <= GetBlockSize b) by (unfold GetBlockSize; lia).
  rewrite u32_id by mlia.
  destruct (FindBlockPos_spec linux os DiskPos_SetNull (GetBlockSize b + 8) h (hdr_nTime (header b)) s Hos Hs Hsz) as
    (ok & pos & s1 & -> & Hg & Hs1 & Hf & Hp & Hpm & Hle & Hsz1); [unfold MAX_BLOCKFILE_SIZE; lia|]. unfold MAX_BLOCKFILE_SIZE in Hpm.
  cbn [mbind option_bind]. destruct ok; [|by exists IoError, s1].
  eexists _, _. split; [apply f_equal, surjective_pairing|].
  assert (∀ w, match OpenDiskFile os false pos s1.(blk_files) with
    | (Some c, d') => dir_keeps (blk_size s) s1.(blk_files) (<[pos.(pos_nFile) := write_at c (Z.to_nat pos.(pos_nPos)) w]> d')
    | (None, d') => dir_keeps (blk_size s) s1.(blk_files) d' end) as Hw by (intros w; by apply write_record).
  pose proof (OpenDiskFile_spec os false pos s1.(blk_files) Hos) as Ho.
  assert (∀ d, dir_keeps (blk_size s) s1.(blk_files) d → grows s (with_blk d s1)) as Hgr.
  { intros d Hd. destruct Hg as (Hg1 & Hg2 & Hg3). split; [by apply (dir_keeps_trans _ _ _ _ _ Hg1 Hd)|]. split; [done|]. exact Hg3. }
  unfold WriteBlockToDisk. destruct (OpenDiskFile os false pos s1.(blk_files)) as [[c|] d'].
  - set (hd := index_header messageStart (GetBlockSize b)). destruct (fwrite os (hd ++ c_block.(enc) b)) as [w all] eqn:Ew. cbn [fst snd].
    split; [apply Hgr, Hw|]. split; [exact Hs1|]. intros pos' E. destruct all; [|done]. injection E as <-. apply fwrite_all in Ew as ->.
    unfold hd. rewrite index_header_size. rewrite u32_id by mlia. cbn [recorded pos_nFile pos_nPos]. split; [done|].
    eexists. cbn [with_blk blk_files]. split; [apply lookup_insert_eq|].
    replace (Z.to_nat (pos_nPos pos + 8)) with (Z.to_nat (pos_nPos pos) + length hd)%nat by (pose proof (index_header_size (GetBlockSize b)); unfold hd; lia).
    split; [apply bytes_at_app, bytes_at_write|]. change (blk_size (with_blk _ s1)) with (blk_size s1). rewrite Hsz1. unfold GetBlockSize in *.
    pose proof (index_header_size (size (c_block.(enc) b))). unfold hd, GetBlockSize. lia.
  - split; [apply Hgr, (Hw [])|]. by split.
Qed.

Lemma store_undo_spec os undo nFile h s i data : 
  ScriptCryptoLaws → os_ok os → files_ok s → BlockUndo_Serialize undo = Some data → info_at nFile s = Some i → i.(nUndoSize) + size data + 40 < 2 ^ 32 →
  ∃ r s', store_undo linux messageStart os undo nFile h s = Some (r, s') ∧ grows s s' ∧ files_ok s' ∧
    ∀ pos, r = IoOk pos → recorded s' (UndoAt pos h undo).
Proof.
  intros Hlaws Hos Hs Hd Hi Hadd. unfold store_undo. rewrite Hd. cbn [mbind option_bind]. pose proof (info_at_ok _ _ _ Hs Hi) as [_ Hu].
  rewrite u32_id by mlia. destruct (FindUndoPos_spec linux os nFile (size data + 40) s i Hos Hs Hi) as (ok & s1 & -> & Hg & Hs1 & Hsz1); [lia|lia|].
  cbn [mbind option_bind]. destruct ok; [|by exists IoError, s1]. unfold UndoWriteToDisk.
  set (pos := {| pos_nFile := nFile; pos_nPos := nUndoSize i |}).
  assert (0 <= nFile) as Hn by (unfold info_at in Hi; destruct (Z.ltb_spec nFile 0); done).
  assert (undo_size s nFile = Z.to_nat (nUndoSize i)) as Hus by (unfold undo_size; by rewrite Hi).
  assert (∀ w, match OpenDiskFile os false pos s1.(rev_files) with
    | (Some c, d') => dir_keeps (undo_size s) s1.(rev_files) (<[pos.(pos_nFile) := write_at c (Z.to_nat pos.(pos_nPos)) w]> d')
    | (None, d') => dir_keeps (undo_size s) s1.(rev_files) d' end) as Hw by (intros w; apply write_record; [done|cbn; lia]).
  assert (∀ d, dir_keeps (undo_size s) s1.(rev_files) d → grows s (with_rev d s1)) as Hgr.
  { intros d Hd'. destruct Hg as (Hg1 & Hg2 & Hg3). split; [done|]. split; [by apply (dir_keeps_trans _ _ _ _ _ Hg2 Hd')|]. exact Hg3. }
  destruct (OpenDiskFile os false pos s1.(rev_files)) as [[c|] d'].
  - rewrite Hd. cbn [mbind option_bind]. set (hd := index_header messageStart (size data)). set (sum := Hash256 _).
    destruct (fwrite os (hd ++ data ++ sum)) as [w all] eqn:Ew. eexists _, _. split; [reflexivity|].
    split; [apply Hgr, Hw|]. split; [exact Hs1|]. intros pos' E. destruct all; [|done]. injection E as <-. apply fwrite_all in Ew as ->.
    assert (size hd = 8) as Hhd by apply index_header_size. rewrite Hhd. cbn [pos_nFile pos_nPos pos]. rewrite u32_id by mlia.
    cbn [recorded pos_nFile pos_nPos]. split; [done|]. eexists _, data. cbn [with_rev rev_files]. split; [apply lookup_insert_eq|]. split; [done|]. fold sum.
    cbn zeta. replace (Z.to_nat (nUndoSize i + 8)) with (Z.to_nat (nUndoSize i) + length hd)%nat by lia. split; [apply bytes_at_app, bytes_at_write|].
    change (undo_size (with_rev _ s1)) with (undo_size s1). rewrite Hsz1, length_app. assert (length sum = 32%nat) by apply SHA256_size. lia.
  - eexists _, _. split; [reflexivity|]. split; [apply Hgr, (Hw [])|]. by split.
Qed.

(** ** Runs of the store *)

(** Blocks and undo data are stored one after the other, successfully or not,
    and the files flushed in between.  The list has what was stored.  The
    conditions: fewer than [2 ^ 32] files, a block smaller than a file, and an
    undo file smaller than [2 ^ 32] bytes. *)
Inductive stores : Files → list stored_record → Files → Prop :=
  | stores_nil s : stores s [] s
  | stores_block s os b h r s1 log s2 :
      os_ok os → size s.(vinfoBlockFile) < 2 ^ 32 → GetBlockSize b + 8 < MAX_BLOCKFILE_SIZE →
      store_block linux messageStart os b h s = Some (r, s1) → stores s1 log s2 →
      stores s (match r with IoOk pos => BlockAt pos b :: log | _ => log end) s2
  | stores_undo s os undo nFile h i data r s1 log s2 :
      os_ok os → BlockUndo_Serialize undo = Some data → info_at nFile s = Some i → i.(nUndoSize) + size data + 40 < 2 ^ 32 →
      store_undo linux messageStart os undo nFile h s = Some (r, s1) → stores s1 log s2 →
      stores s (match r with IoOk pos => UndoAt pos h undo :: log | _ => log end) s2
  | stores_flush s os fFinalize s1 log s2 :
      os_ok os → FlushBlockFile os fFinalize s = Some s1 → stores s1 log s2 → stores s log s2.

Lemma stores_keep `{!ScriptCryptoLaws} s log s' : stores s log s' → files_ok s → grows s s' ∧ files_ok s' ∧ Forall (recorded s') log.
Proof.
  induction 1 as [s|s os b h r s1 log s2 Hos Hsz Hb E _ IH|s os undo nFile h i data r s1 log s2 Hos Hd Hi Hu E _ IH|s os fin s1 log s2 Hos E _ IH]; intros Hs.
  - split; [apply (grows_dirs s); apply dir_keeps_refl|]. by split.
  - destruct (store_block_spec os b h s Hos Hs Hsz Hb) as (r' & s1' & E' & Hg & Hs1 & Hr). rewrite E in E'. injection E' as <- <-.
    destruct (IH Hs1) as (Hg' & Hs2 & Hf). split; [by eapply grows_trans|]. split; [done|]. destruct r as [pos| |]; [|done..].
    constructor; [|done]. apply (recorded_grows s1); [done|]. by apply Hr.
  - destruct (store_undo_spec os undo nFile h s i data _ Hos Hs Hd Hi Hu) as (r' & s1' & E' & Hg & Hs1 & Hr). rewrite E in E'. injection E' as <- <-.
    destruct (IH Hs1) as (Hg' & Hs2 & Hf). split; [by eapply grows_trans|]. split; [done|]. destruct r as [pos| |]; [|done..].
    constructor; [|done]. apply (recorded_grows s1); [done|]. by apply Hr.
  - destruct (FlushBlockFile_spec os fin s Hos) as (s1' & E' & Hg & Ei & El).
    { intros ->. unfold FlushBlockFile in E. by destruct (info_at (nLastBlockFile s) s). }
    rewrite E in E'. injection E' as <-.
    destruct IH as (Hg' & Hs2 & Hf); [split; rewrite ?El, Ei; apply Hs|]. split; [by eapply grows_trans|]. by split.
Qed.

(** Reading an opened file. *)
Lemma open_existing os pos d c : os.(fopen_rb) pos.(pos_nFile) = true → 0 <= pos.(pos_nFile) → d !! pos.(pos_nFile) = Some c →
  (OpenDiskFile os true pos d).1 = Some c.
Proof.
  intros Hr Hf Hc. unfold OpenDiskFile, DiskPos_IsNull. rewrite (proj2 (Z.eqb_neq _ _)) by lia. by rewrite Hr, Hc.
Qed.

Definition unchecked (b : CBlock) : CBlock :=
  {| header := b.(header); vtx := b.(vtx); vReg := b.(vReg); vchBlockSig := b.(vchBlockSig); fChecked := false |}.

Lemma recorded_block_reads os pos b s :
  recorded s (BlockAt pos b) → os.(fopen_rb) pos.(pos_nFile) = true → block_ok (unchecked b) →
  CBlock_IsProofOfStake b = true ∨ CheckProofOfWork prm fRegTest (Block_GetHash b) b.(header).(hdr_nBits) = true →
  ReadBlockFromDisk prm fRegTest os pos s = Some (unchecked b).
Proof.
  intros (Hf & c & Hc & Hat & _) Hos Hb Hp. unfold ReadBlockFromDisk. rewrite (open_existing _ _ _ c) by done. cbn [mbind option_bind].
  destruct (bytes_at_drop _ _ _ Hat) as [rest ->]. change (c_block.(enc) b) with (c_block.(enc) (unchecked b)).
  rewrite (round_trip (c := c_block)) by done. cbn [mbind option_bind]. unfold CBlock_IsProofOfWork.
  change (CBlock_IsProofOfStake (unchecked b)) with (CBlock_IsProofOfStake b). change (Block_GetHash (unchecked b)) with (Block_GetHash b). change (header (unchecked b)) with (header b).
  destruct Hp as [-> | ->]; [done|]. by rewrite andb_false_r.
Qed.

Lemma recorded_undo_reads `{!ScriptCryptoLaws} os pos h undo s :
  recorded s (UndoAt pos h undo) → os.(fopen_rb) pos.(pos_nFile) = true →
  Forall (λ u, Forall coin_ok u ∧ size u <= MAX_INPUTS_PER_BLOCK) undo → size undo <= MAX_SIZE →
  UndoReadFromDisk os pos h s = Some (stored_undo <$> undo).
Proof.
  intros (Hf & c & data & Hc & Hd & Hat & _) Hos Hu Hz. destruct (BlockUndo_roundtrip undo Hu Hz) as (data' & Hd' & Hr).
  rewrite Hd in Hd'. injection Hd' as <-. unfold UndoReadFromDisk. rewrite (open_existing _ _ _ c) by done. cbn [mbind option_bind].
  destruct (bytes_at_drop _ _ _ Hat) as [rest ->]. rewrite <- app_assoc, Hr. cbn [mbind option_bind].
  rewrite read_bytes_app by apply SHA256_size. cbn [mbind option_bind].
  rewrite length_app, Nat.add_sub, take_app_length. by rewrite bool_decide_true.
Qed.

(** C14: what is stored stays stored: after any run of the store, in which
    blocks and undo data are appended, writes fail half-way and files are
    finished and truncated, every block that was stored is read back, every
    undo record too and with the right checksum; and the store goes on: a block
    smaller than a file finds its place, whatever the system answers. *)
Theorem stored_data_read_back `{!ScriptCryptoLaws} (s s' : Files) (log : list stored_record) (os : Os) :
  stores s log s' → files_ok s → (∀ f, os.(fopen_rb) f = true) →
  (∀ pos b, BlockAt pos b ∈ log → block_ok (unchecked b) →
     CBlock_IsProofOfStake b = true ∨ CheckProofOfWork prm fRegTest (Block_GetHash b) b.(header).(hdr_nBits) = true →
     ReadBlockFromDisk prm fRegTest os pos s' = Some (unchecked b)) ∧
  (∀ pos h undo, UndoAt pos h undo ∈ log → Forall (λ u, Forall coin_ok u ∧ size u <= MAX_INPUTS_PER_BLOCK) undo → size undo <= MAX_SIZE →
     UndoReadFromDisk os pos h s' = Some (stored_undo <$> undo)) ∧
  (∀ b h, size s'.(vinfoBlockFile) < 2 ^ 32 → GetBlockSize b + 8 < MAX_BLOCKFILE_SIZE → os_ok os →
     is_Some (store_block linux messageStart os b h s')).
Proof.
  intros Hst Hs Hos. destruct (stores_keep s log s' Hst Hs) as (_ & Hs' & Hf). rewrite Forall_forall in Hf. split_and!.
  - intros pos b Hin Hb Hp. apply recorded_block_reads; [by apply Hf|apply Hos|done|done].
  - intros pos h undo Hin Hu Hz. apply recorded_undo_reads; [by apply Hf|apply Hos|done|done].
  - intros b h Hsz Hb Hok. destruct (store_block_spec os b h s' Hok Hs' Hsz Hb) as (r & s1 & -> & _). done.
Qed.
End records.

(** ** A run *)

(** A node that starts with empty files, and a system without limits. *)
Definition no_files : Files := {| vinfoBlockFile := []; nLastBlockFile := 0; setDirtyFileInfo := ∅; blk_files := ∅; rev_files := ∅ |}.
Definition good_os : Os := {| fopen_rb _ := true; fopen_wb _ := true; ftruncate_ok := true; fwrite_limit := None; available := 2 ^ 40 |}.
(** One that stops after 100 bytes. *)
Definition full_os : Os := {| fopen_rb _ := true; fopen_wb _ := true; ftruncate_ok := true; fwrite_limit := Some 100%nat; available := 2 ^ 40 |}.

Lemma os_ok_true os : (∀ f, os.(fopen_rb) f = true) → os_ok os.
Proof. intros H f. by rewrite H. Qed.

#[local] Existing Instance sample_crypto.
#[local] Existing Instance one_key.

(** Files with 100 bytes of blocks and 50 bytes of undo data. *)
Definition used_files : Files :=
  {| vinfoBlockFile := [set_nUndoSize 50 (set_nSize 100 FileInfo_SetNull)]; nLastBlockFile := 0; setDirtyFileInfo := ∅;
     blk_files := {[0 := replicate 100 0]}; rev_files := {[0 := replicate 50 0]} |}.

(** A block that can not be written completely, the same block again and undo data. *)
Definition after_failure : Files := match store_block true [1; 2; 3; 4] full_os two_transactions 5 used_files with Some (_, s) => s | None => no_files end.
Definition after_block : Files := match store_block true [1; 2; 3; 4] good_os two_transactions 5 after_failure with Some (_, s) => s | None => no_files end.
Definition after_undo : Files :=
  match store_undo true [1; 2; 3; 4] good_os [[generator_coin]] 0 (uint_zero 8) after_block with Some (_, s) => s | None => no_files end.

Lemma stored_data_read_back_witness :
  let pos := {| pos_nFile := 0; pos_nPos := 100 + 2 * 8 + GetBlockSize two_transactions |} in
  ReadBlockFromDisk main_params true good_os pos after_undo = Some two_transactions ∧
  UndoReadFromDisk good_os {| pos_nFile := 0; pos_nPos := 58 |} (uint_zero 8) after_undo = Some [[generator_coin]].
Proof.
  intros pos.
  assert (stores true [1; 2; 3; 4] used_files [BlockAt pos two_transactions; UndoAt {| pos_nFile := 0; pos_nPos := 58 |} (uint_zero 8) [[generator_coin]]]
    after_undo) as Hst.
  { apply (stores_block true _ used_files full_os two_transactions 5 IoThrow after_failure); [by apply os_ok_true|done|by vm_compute|by vm_compute|].
    apply (stores_block true _ after_failure good_os two_transactions 5 (IoOk pos) after_block); [by apply os_ok_true|done|by vm_compute|by vm_compute|].
    eapply (stores_undo true _ after_block good_os [[generator_coin]] 0 (uint_zero 8) _ _ (IoOk _) after_undo);
      [by apply os_ok_true|by vm_compute|by vm_compute|by vm_compute|by vm_compute|]. apply stores_nil. }
  destruct (stored_data_read_back true [1; 2; 3; 4] main_params true eq_refl used_files after_undo _ good_os Hst) as (Hb & Hu & _).
  - split; [done|]. apply Forall_singleton. unfold info_ok. cbn. lia.
  - done.
  - split.
    + rewrite (Hb pos two_transactions); [done|by left|exact two_transactions_ok|by right].
    + rewrite (Hu _ _ _ ltac:(by right; left)); [by vm_compute| |done].
      apply Forall_singleton. split; [|done]. apply Forall_singleton. unfold coin_ok, amount_ok. cbn. lia.
Defined.
