(* ===== verification/AddressIndex.v ===== *)
(** * AddressIndex: the indexes of addresses ([spentindex.h], [txdb.cpp],
    [txdb.h], and the entries that [validation.cpp] makes for a block)

    Next to the coins the node keeps databases that are keyed by addresses: the
    history of an address, its unspent outputs, the same for delegations, the
    spender of an output, the owner that is registered for an address, the
    supply after each block and the place of each transaction on disk.

    The keys are written with the codecs of this file, which are proved to be
    injective, so a database is a map from the keys.  The readers move a cursor
    over the keys in the order of their bytes. *)

From stdpp Require Import strings sorting.
From S2P Require Import Prelude ArithUint256 Script Interpreter Serialize Transaction Block Coins BlockFiles.
Local Open Scope Z_scope.

(** ** Keys and values *)

(** [CChainParams::Base58Type], an [int16_t]. *)
Definition UNKNOWN_TYPE : Z := -1.
Definition PUBKEY_ADDRESS : Z := 0.
Definition SCRIPT_ADDRESS : Z := 1.
Definition STAKING_ADDRESS : Z := 6.

Record CAddressIndexKey := mkAddressIndexKey {
  ak_type : Z;
  ak_hashBytes : base_uint;
  ak_blockHeight : Z;
  ak_txindex : Z;
  ak_txhash : base_uint;
  ak_index : Z;
  ak_spending : bool;
  ak_delegated : bool;
}.
Record CAddressUnspentKey := mkAddressUnspentKey {
  au_type : Z;
  au_hashBytes : base_uint;
  au_txhash : base_uint;
  au_index : Z;
}.
Record CAddressUnspentValue := mkAddressUnspentValue {
  uv_satoshis : Z;
  uv_script : CScript;
  uv_blockHeight : Z;
}.
Record CAddressDelegationIndexKey := mkDelegationIndexKey {
  dk_stakerHash : base_uint;
  dk_ownerHash : base_uint;
  dk_blockHeight : Z;
  dk_txindex : Z;
  dk_txhash : base_uint;
  dk_index : Z;
  dk_spending : bool;
}.
Record CAddressDelegationUnspentKey := mkDelegationUnspentKey {
  du_stakerHash : base_uint;
  du_ownerHash : base_uint;
  du_txhash : base_uint;
  du_index : Z;
}.
Record CSpentIndexKey := mkSpentIndexKey { sk_txid : base_uint; sk_outputIndex : Z }.
Record CSpentIndexValue := mkSpentIndexValue {
  sv_txid : base_uint;
  sv_inputIndex : Z;
  sv_blockHeight : Z;
  sv_satoshis : Z;
  sv_addressType : Z;
  sv_addressHash : base_uint;
}.
Record CAddressIndexIteratorKey := mkIteratorKey { ik_type : Z; ik_hashBytes : base_uint }.
Record CAddressOwnerIdentificator := mkOwnerIdentificator { oi_type : Z; oi_hashBytes : base_uint; oi_blockHeight : Z }.
Record CDiskTxPos := mkDiskTxPos { tx_pos : CDiskBlockPos; nTxOffset : Z }.

#[export] Instance CAddressIndexKey_eq_dec : EqDecision CAddressIndexKey.
Proof. solve_decision. Defined.
#[export] Instance CAddressUnspentKey_eq_dec : EqDecision CAddressUnspentKey.
Proof. solve_decision. Defined.
#[export] Instance CAddressDelegationIndexKey_eq_dec : EqDecision CAddressDelegationIndexKey.
Proof. solve_decision. Defined.
#[export] Instance CAddressDelegationUnspentKey_eq_dec : EqDecision CAddressDelegationUnspentKey.
Proof. solve_decision. Defined.
#[export] Instance CSpentIndexKey_eq_dec : EqDecision CSpentIndexKey.
Proof. solve_decision. Defined.
#[export] Instance CAddressIndexIteratorKey_eq_dec : EqDecision CAddressIndexIteratorKey.
Proof. solve_decision. Defined.

#[export] Instance CAddressIndexKey_countable : Countable CAddressIndexKey.
Proof.
  apply (inj_countable' (λ k, (k.(ak_type), k.(ak_hashBytes), k.(ak_blockHeight), k.(ak_txindex), k.(ak_txhash), k.(ak_index), k.(ak_spending), k.(ak_delegated)))
    (λ '(a, b, c, d, e, f, g, h), mkAddressIndexKey a b c d e f g h)).
  by intros [].
Defined.
#[export] Instance CAddressUnspentKey_countable : Countable CAddressUnspentKey.
Proof.
  apply (inj_countable' (λ k, (k.(au_type), k.(au_hashBytes), k.(au_txhash), k.(au_index))) (λ '(a, b, c, d), mkAddressUnspentKey a b c d)).
  by intros [].
Defined.
#[export] Instance CAddressDelegationIndexKey_countable : Countable CAddressDelegationIndexKey.
Proof.
  apply (inj_countable' (λ k, (k.(dk_stakerHash), k.(dk_ownerHash), k.(dk_blockHeight), k.(dk_txindex), k.(dk_txhash), k.(dk_index), k.(dk_spending)))
    (λ '(a, b, c, d, e, f, g), mkDelegationIndexKey a b c d e f g)).
  by intros [].
Defined.
#[export] Instance CAddressDelegationUnspentKey_countable : Countable CAddressDelegationUnspentKey.
Proof.
  apply (inj_countable' (λ k, (k.(du_stakerHash), k.(du_ownerHash), k.(du_txhash), k.(du_index))) (λ '(a, b, c, d), mkDelegationUnspentKey a b c d)).
  by intros [].
Defined.
#[export] Instance CSpentIndexKey_countable : Countable CSpentIndexKey.
Proof. apply (inj_countable' (λ k, (k.(sk_txid), k.(sk_outputIndex))) (λ '(a, b), mkSpentIndexKey a b)). by intros []. Defined.
#[export] Instance CAddressIndexIteratorKey_countable : Countable CAddressIndexIteratorKey.
Proof. apply (inj_countable' (λ k, (k.(ik_type), k.(ik_hashBytes))) (λ '(a, b), mkIteratorKey a b)). by intros []. Defined.

Definition UnspentValue_SetNull : CAddressUnspentValue := mkAddressUnspentValue (-1) [] 0.
Definition UnspentValue_IsNull (v : CAddressUnspentValue) : bool := v.(uv_satoshis) =? -1.
Definition SpentValue_SetNull : CSpentIndexValue := mkSpentIndexValue (uint_zero 8) 0 0 0 UNKNOWN_TYPE (uint_zero 5).
Definition SpentValue_IsNull (v : CSpentIndexValue) : bool := uint_IsNull v.(sv_txid).

(** ** The bytes of the keys *)

(** [ser_writedata32be]; a height is read back as an [int]. *)
Definition c_be32 : codec Z :=
  {| enc x := reverse (ser_writedata 4 (u32 x)); dec s := '(l, s) ← read_bytes 4 s; Some (ReadLE (reverse l), s) |}.
Definition c_be_height : codec Z :=
  {| enc x := c_be32.(enc) x; dec s := '(x, s) ← c_be32.(dec) s; Some (i32 x, s) |}.
(** A [size_t] that is written as 32 bits. *)
Definition c_size32 : codec Z := {| enc x := ser_writedata 4 (u32 x); dec := ser_readdata 4 |}.
Definition c_flag : codec bool :=
  {| enc (b : bool) := ser_writedata 1 (if b then 1 else 0); dec s := '(x, s) ← ser_readdata 1 s; Some (negb (x =? 0), s) |}.

Definition c_address_key : codec CAddressIndexKey :=
  {| enc k := (c_signed 2).(enc) k.(ak_type) ++ c_uint160.(enc) k.(ak_hashBytes) ++ c_be_height.(enc) k.(ak_blockHeight) ++
              c_be32.(enc) k.(ak_txindex) ++ c_uint256.(enc) k.(ak_txhash) ++ c_size32.(enc) k.(ak_index) ++
              c_flag.(enc) k.(ak_spending) ++ c_flag.(enc) k.(ak_delegated);
     dec s := '(t, s) ← (c_signed 2).(dec) s; '(a, s) ← c_uint160.(dec) s; '(h, s) ← c_be_height.(dec) s; '(i, s) ← c_be32.(dec) s;
              '(x, s) ← c_uint256.(dec) s; '(n, s) ← c_size32.(dec) s; '(f, s) ← c_flag.(dec) s; '(d, s) ← c_flag.(dec) s;
              Some (mkAddressIndexKey t a h i x n f d, s) |}.
Definition c_unspent_key : codec CAddressUnspentKey :=
  {| enc k := (c_signed 2).(enc) k.(au_type) ++ c_uint160.(enc) k.(au_hashBytes) ++ c_uint256.(enc) k.(au_txhash) ++ c_size32.(enc) k.(au_index);
     dec s := '(t, s) ← (c_signed 2).(dec) s; '(a, s) ← c_uint160.(dec) s; '(x, s) ← c_uint256.(dec) s; '(n, s) ← c_size32.(dec) s;
              Some (mkAddressUnspentKey t a x n, s) |}.
Definition c_delegation_key : codec CAddressDelegationIndexKey :=
  {| enc k := c_uint160.(enc) k.(dk_stakerHash) ++ c_uint160.(enc) k.(dk_ownerHash) ++ c_be_height.(enc) k.(dk_blockHeight) ++
              c_be32.(enc) k.(dk_txindex) ++ c_uint256.(enc) k.(dk_txhash) ++ c_size32.(enc) k.(dk_index) ++ c_flag.(enc) k.(dk_spending);
     dec s := '(a, s) ← c_uint160.(dec) s; '(b, s) ← c_uint160.(dec) s; '(h, s) ← c_be_height.(dec) s; '(i, s) ← c_be32.(dec) s;
              '(x, s) ← c_uint256.(dec) s; '(n, s) ← c_size32.(dec) s; '(f, s) ← c_flag.(dec) s;
              Some (mkDelegationIndexKey a b h i x n f, s) |}.
Definition c_delegation_unspent_key : codec CAddressDelegationUnspentKey :=
  {| enc k := c_uint160.(enc) k.(du_stakerHash) ++ c_uint160.(enc) k.(du_ownerHash) ++ c_uint256.(enc) k.(du_txhash) ++ c_size32.(enc) k.(du_index);
     dec s := '(a, s) ← c_uint160.(dec) s; '(b, s) ← c_uint160.(dec) s; '(x, s) ← c_uint256.(dec) s; '(n, s) ← c_size32.(dec) s;
              Some (mkDelegationUnspentKey a b x n, s) |}.
Definition c_spent_key : codec CSpentIndexKey :=
  {| enc k := c_uint256.(enc) k.(sk_txid) ++ (c_unsigned 4).(enc) k.(sk_outputIndex);
     dec s := '(x, s) ← c_uint256.(dec) s; '(n, s) ← (c_unsigned 4).(dec) s; Some (mkSpentIndexKey x n, s) |}.
Definition c_iterator_key : codec CAddressIndexIteratorKey :=
  {| enc k := (c_signed 2).(enc) k.(ik_type) ++ c_uint160.(enc) k.(ik_hashBytes);
     dec s := '(t, s) ← (c_signed 2).(dec) s; '(a, s) ← c_uint160.(dec) s; Some (mkIteratorKey t a, s) |}.
(** The values. *)
Definition c_unspent_value : codec CAddressUnspentValue :=
  {| enc v := (c_signed 8).(enc) v.(uv_satoshis) ++ c_blob.(enc) v.(uv_script) ++ (c_signed 4).(enc) v.(uv_blockHeight);
     dec s := '(a, s) ← (c_signed 8).(dec) s; '(c, s) ← c_blob.(dec) s; '(h, s) ← (c_signed 4).(dec) s;
              Some (mkAddressUnspentValue a c h, s) |}.
Definition c_spent_value : codec CSpentIndexValue :=
  {| enc v := c_uint256.(enc) v.(sv_txid) ++ (c_unsigned 4).(enc) v.(sv_inputIndex) ++ (c_signed 4).(enc) v.(sv_blockHeight) ++
              (c_signed 8).(enc) v.(sv_satoshis) ++ (c_signed 2).(enc) v.(sv_addressType) ++ c_uint160.(enc) v.(sv_addressHash);
     dec s := '(x, s) ← c_uint256.(dec) s; '(i, s) ← (c_unsigned 4).(dec) s; '(h, s) ← (c_signed 4).(dec) s; '(a, s) ← (c_signed 8).(dec) s;
              '(t, s) ← (c_signed 2).(dec) s; '(b, s) ← c_uint160.(dec) s; Some (mkSpentIndexValue x i h a t b, s) |}.
Definition c_owner : codec CAddressOwnerIdentificator :=
  {| enc v := (c_signed 2).(enc) v.(oi_type) ++ c_uint160.(enc) v.(oi_hashBytes) ++ c_be_height.(enc) v.(oi_blockHeight);
     dec s := '(t, s) ← (c_signed 2).(dec) s; '(a, s) ← c_uint160.(dec) s; '(h, s) ← c_be_height.(dec) s; Some (mkOwnerIdentificator t a h, s) |}.
Definition c_txpos : codec CDiskTxPos :=
  {| enc p := c_diskpos.(enc) p.(tx_pos) ++ c_varint32.(enc) p.(nTxOffset);
     dec s := '(p, s) ← c_diskpos.(dec) s; '(n, s) ← c_varint32.(dec) s; Some (mkDiskTxPos p n, s) |}.

Definition address_key_ok (k : CAddressIndexKey) : Prop :=
  signed_ok 2 k.(ak_type) ∧ wf 5 k.(ak_hashBytes) ∧ is_i32 k.(ak_blockHeight) ∧ is_u32 k.(ak_txindex) ∧ wf 8 k.(ak_txhash) ∧ is_u32 k.(ak_index).
Definition unspent_key_ok (k : CAddressUnspentKey) : Prop :=
  signed_ok 2 k.(au_type) ∧ wf 5 k.(au_hashBytes) ∧ wf 8 k.(au_txhash) ∧ is_u32 k.(au_index).
Definition delegation_key_ok (k : CAddressDelegationIndexKey) : Prop :=
  wf 5 k.(dk_stakerHash) ∧ wf 5 k.(dk_ownerHash) ∧ is_i32 k.(dk_blockHeight) ∧ is_u32 k.(dk_txindex) ∧ wf 8 k.(dk_txhash) ∧ is_u32 k.(dk_index).
Definition delegation_unspent_key_ok (k : CAddressDelegationUnspentKey) : Prop :=
  wf 5 k.(du_stakerHash) ∧ wf 5 k.(du_ownerHash) ∧ wf 8 k.(du_txhash) ∧ is_u32 k.(du_index).

#[export] Instance c_uint160_rt : RoundTrip (wf 5) c_uint160.
Proof. intros x rest. apply uint160_codec. Qed.
#[export] Instance c_be32_rt : RoundTrip is_u32 c_be32.
Proof.
  intros x rest Hx. cbn [c_be32 enc dec]. rewrite u32_id, read_bytes_app by (done || rewrite length_reverse; apply WriteLE_length).
  cbn [mbind option_bind]. rewrite reverse_involutive. unfold ser_writedata. by rewrite ReadLE_WriteLE by mlia.
Qed.
#[export] Instance c_be_height_rt : RoundTrip is_i32 c_be_height.
Proof.
  intros x rest Hx. cbn [c_be_height enc dec]. change (c_be32.(enc) x) with (reverse (ser_writedata 4 (u32 x))).
  rewrite <- (u32_id (u32 x)) by apply u32_range. change (reverse (ser_writedata 4 (u32 (u32 x)))) with (c_be32.(enc) (u32 x)).
  rewrite c_be32_rt by apply u32_range. cbn [mbind option_bind]. do 2 f_equal. mlia.
Qed.
#[export] Instance c_size32_rt : RoundTrip is_u32 c_size32.
Proof. intros x rest Hx. cbn [c_size32 enc dec]. rewrite u32_id by done. apply ser_readdata_app. mlia. Qed.
#[export] Instance c_flag_rt : RoundTrip (λ _, True) c_flag.
Proof. intros [] rest _; reflexivity. Qed.

(** Two different keys have different bytes. *)
#[export] Instance c_address_key_rt : RoundTrip address_key_ok c_address_key.
Proof.
  intros [t a h i x n f d] rest (H1 & H2 & H3 & H4 & H5 & H6).
  cbn [c_address_key enc dec ak_type ak_hashBytes ak_blockHeight ak_txindex ak_txhash ak_index ak_spending ak_delegated] in *. by do 8 read_field.
Qed.
#[export] Instance c_unspent_key_rt : RoundTrip unspent_key_ok c_unspent_key.
Proof.
  intros [t a x n] rest (H1 & H2 & H3 & H4). cbn [c_unspent_key enc dec au_type au_hashBytes au_txhash au_index] in *. by do 4 read_field.
Qed.
#[export] Instance c_delegation_key_rt : RoundTrip delegation_key_ok c_delegation_key.
Proof.
  intros [a b h i x n f] rest (H1 & H2 & H3 & H4 & H5 & H6).
  cbn [c_delegation_key enc dec dk_stakerHash dk_ownerHash dk_blockHeight dk_txindex dk_txhash dk_index dk_spending] in *. by do 7 read_field.
Qed.
#[export] Instance c_delegation_unspent_key_rt : RoundTrip delegation_unspent_key_ok c_delegation_unspent_key.
Proof.
  intros [a b x n] rest (H1 & H2 & H3 & H4). cbn [c_delegation_unspent_key enc dec du_stakerHash du_ownerHash du_txhash du_index] in *.
  by do 4 read_field.
Qed.
#[export] Instance c_spent_key_rt : RoundTrip (λ k, wf 8 k.(sk_txid) ∧ is_u32 k.(sk_outputIndex)) c_spent_key.
Proof. intros [x n] rest (H1 & H2). cbn [c_spent_key enc dec sk_txid sk_outputIndex] in *. by do 2 read_field. Qed.
#[export] Instance c_iterator_key_rt : RoundTrip (λ k, signed_ok 2 k.(ik_type) ∧ wf 5 k.(ik_hashBytes)) c_iterator_key.
Proof. intros [t a] rest (H1 & H2). cbn [c_iterator_key enc dec ik_type ik_hashBytes] in *. by do 2 read_field. Qed.

(** ** The databases *)

(** A batch of writes and of erasures, in order. *)
Definition apply_batch `{Countable K} {V} (l : list (K * option V)) (m : gmap K V) : gmap K V :=
  foldl (λ m '(k, o), match o with Some v => <[k := v]> m | None => delete k m end) m l.

Record Indexes := mkIndexes {
  ix_tx : gmap base_uint CDiskTxPos;
  ix_address : gmap CAddressIndexKey Z;
  ix_unspent : gmap CAddressUnspentKey CAddressUnspentValue;
  ix_spent : gmap CSpentIndexKey CSpentIndexValue;
  ix_delegation : gmap CAddressDelegationIndexKey Z;
  ix_delegation_unspent : gmap CAddressDelegationUnspentKey CAddressUnspentValue;
  ix_ident : gmap CAddressIndexIteratorKey CAddressOwnerIdentificator;
  ix_supply : gmap Z Z;
}.

Section operations.
(** [invalid_out::ContainsOutPoint]. *)
Context (invalid : COutPoint → bool).
Implicit Types x : Indexes.

Definition with_tx m x := mkIndexes m x.(ix_address) x.(ix_unspent) x.(ix_spent) x.(ix_delegation) x.(ix_delegation_unspent) x.(ix_ident) x.(ix_supply).
Definition with_address m x := mkIndexes x.(ix_tx) m x.(ix_unspent) x.(ix_spent) x.(ix_delegation) x.(ix_delegation_unspent) x.(ix_ident) x.(ix_supply).
Definition with_unspent m x := mkIndexes x.(ix_tx) x.(ix_address) m x.(ix_spent) x.(ix_delegation) x.(ix_delegation_unspent) x.(ix_ident) x.(ix_supply).
Definition with_spent m x := mkIndexes x.(ix_tx) x.(ix_address) x.(ix_unspent) m x.(ix_delegation) x.(ix_delegation_unspent) x.(ix_ident) x.(ix_supply).
Definition with_delegation m x := mkIndexes x.(ix_tx) x.(ix_address) x.(ix_unspent) x.(ix_spent) m x.(ix_delegation_unspent) x.(ix_ident) x.(ix_supply).
Definition with_delegation_unspent m x := mkIndexes x.(ix_tx) x.(ix_address) x.(ix_unspent) x.(ix_spent) x.(ix_delegation) m x.(ix_ident) x.(ix_supply).
Definition with_ident m x := mkIndexes x.(ix_tx) x.(ix_address) x.(ix_unspent) x.(ix_spent) x.(ix_delegation) x.(ix_delegation_unspent) m x.(ix_supply).
Definition with_supply m x := mkIndexes x.(ix_tx) x.(ix_address) x.(ix_unspent) x.(ix_spent) x.(ix_delegation) x.(ix_delegation_unspent) x.(ix_ident) m.

(** Writes only. *)
Definition write_all {K V} : list (K * V) → list (K * option V) := fmap (λ '(k, v), (k, Some v)).
Definition erase_all {K V A} : list (K * A) → list (K * option V) := fmap (λ '(k, _), (k, None)).
(** A null value erases. *)
Definition write_or_erase {K V} (IsNull : V → bool) : list (K * V) → list (K * option V) :=
  fmap (λ '(k, v), (k, if IsNull v then None else Some v)).

Definition WriteTxIndex (vect : list (base_uint * CDiskTxPos)) x : Indexes := with_tx (apply_batch (write_all vect) x.(ix_tx)) x.
Definition UpdateSpentIndex (vect : list (CSpentIndexKey * CSpentIndexValue)) x : Indexes :=
  with_spent (apply_batch (write_or_erase SpentValue_IsNull vect) x.(ix_spent)) x.
Definition UpdateAddressUnspentIndex (vect : list (CAddressUnspentKey * CAddressUnspentValue)) x : Indexes :=
  with_unspent (apply_batch (write_or_erase UnspentValue_IsNull vect) x.(ix_unspent)) x.
Definition UpdateAddressDelegationUnspentIndex (vect : list (CAddressDelegationUnspentKey * CAddressUnspentValue)) x : Indexes :=
  with_delegation_unspent (apply_batch (write_or_erase UnspentValue_IsNull vect) x.(ix_delegation_unspent)) x.
(** The entries of banned outputs are left out. *)
Definition WriteAddressIndex (vect : list (CAddressIndexKey * Z)) x : Indexes :=
  let kept := filter (λ e, invalid {| prevout_hash := e.1.(ak_txhash); prevout_n := u32 e.1.(ak_index) |} = false) vect in
  with_address (apply_batch (write_all kept) x.(ix_address)) x.
Definition WriteDelegationAddressIndex (vect : list (CAddressDelegationIndexKey * Z)) x : Indexes :=
  with_delegation (apply_batch (write_all vect) x.(ix_delegation)) x.
Definition EraseAddressIndex (vect : list (CAddressIndexKey * Z)) x : Indexes := with_address (apply_batch (erase_all vect) x.(ix_address)) x.
Definition EraseAddressDelegationIndex (vect : list (CAddressDelegationIndexKey * Z)) x : Indexes :=
  with_delegation (apply_batch (erase_all vect) x.(ix_delegation)) x.
(** [CSupplyIndexValue] is null at -1. *)
Definition UpdateSupplyIndex (height satoshis : Z) x : Indexes :=
  with_supply (if satoshis =? -1 then delete height x.(ix_supply) else <[height := satoshis]> x.(ix_supply)) x.

(** *** Cursors *)

(** The order of the keys in the database. *)
Fixpoint bytes_le (a b : list Z) : Prop :=
  match a, b with
  | [], _ => True
  | _ :: _, [] => False
  | x :: a, y :: b => x < y ∨ x = y ∧ bytes_le a b
  end.
#[global] Instance bytes_le_dec a b : Decision (bytes_le a b).
Proof. revert b. induction a as [|x a IH]; intros [|y b]; cbn; [left; done|left; done|right; tauto|specialize (IH b); apply _]. Defined.

Definition entry_le {K V} (c : codec K) (e f : K * V) : Prop := bytes_le (c.(enc) e.1) (c.(enc) f.1).
#[global] Instance entry_le_dec {K V} (c : codec K) (e f : K * V) : Decision (entry_le c e f).
Proof. unfold entry_le. apply _. Defined.

(** The entries that a cursor visits from the key [start] on. *)
Definition cursor `{Countable K} {V} (c : codec K) (start : list Z) (m : gmap K V) : list (K * V) :=
  merge_sort (entry_le c) (filter (λ e, bytes_le start (c.(enc) e.1)) (map_to_list m)).
(** The loop that stops at the first key which does not match. *)
Fixpoint take_while {A} (P : A → bool) (l : list A) : list A :=
  match l with [] => [] | a :: l => if P a then a :: take_while P l else [] end.

Definition ReadAddressUnspentIndex (addressHash : base_uint) (type : Z) x : list (CAddressUnspentKey * CAddressUnspentValue) :=
  take_while (λ e, bool_decide (e.1.(au_hashBytes) = addressHash))
    (cursor c_unspent_key (c_iterator_key.(enc) (mkIteratorKey type addressHash)) x.(ix_unspent)).
Definition ReadAddressDelegationIndex (addressStaker addressOwner : base_uint) x : list (CAddressDelegationIndexKey * Z) :=
  take_while (λ e, bool_decide (e.1.(dk_stakerHash) = addressStaker ∧ e.1.(dk_ownerHash) = addressOwner))
    (cursor c_delegation_key (c_uint160.(enc) addressStaker ++ c_uint160.(enc) addressOwner) x.(ix_delegation)).
Definition ReadAddressIndex (addressHash : base_uint) (type start end_ : Z) x : list (CAddressIndexKey * Z) :=
  let from := c_iterator_key.(enc) (mkIteratorKey type addressHash) ++
              (if (0 <? start) && (0 <? end_) then c_be_height.(enc) start else []) in
  take_while (λ e, bool_decide (e.1.(ak_hashBytes) = addressHash) && negb ((0 <? end_) && (end_ <? e.1.(ak_blockHeight))))
    (cursor c_address_key from x.(ix_address)).
Definition ReadSpentIndex (key : CSpentIndexKey) x : option CSpentIndexValue := x.(ix_spent) !! key.
Definition ReadTxIndex (txid : base_uint) x : option CDiskTxPos := x.(ix_tx) !! txid.

(** The first key from the one that is looked for on; its type is not compared. *)
Definition ReadAdressIdentification (addressHash : base_uint) (type : Z) x : option CAddressOwnerIdentificator :=
  match cursor c_iterator_key (c_iterator_key.(enc) (mkIteratorKey type addressHash)) x.(ix_ident) with
  | (k, v) :: _ => if bool_decide (k.(ik_hashBytes) = addressHash) then Some v else None
  | [] => None
  end.
(** An address that has an owner keeps it; the reads do not see the batch. *)
Definition WriteAddressIdentification (vect : list (CAddressIndexIteratorKey * CAddressOwnerIdentificator)) x : Indexes :=
  let new := filter (λ e, ReadAdressIdentification e.1.(ik_hashBytes) e.1.(ik_type) x = None) vect in
  with_ident (apply_batch (write_all new) x.(ix_ident)) x.
Definition EraseAddressIdentification (vect : list CAddressIndexIteratorKey) x : Indexes :=
  with_ident (apply_batch ((λ k, (k, None)) <$> vect) x.(ix_ident)) x.
Definition ReadAddressesByIdentificator (addressHash : base_uint) x : list CAddressIndexIteratorKey :=
  omap (λ '(k, v), if bool_decide (v.(oi_hashBytes) = addressHash) then Some k else None) (cursor c_iterator_key [] x.(ix_ident)).
(** The cursor starts at the key of the height, if there is one. *)
Definition ReadSupplyIndexByHeight (nHeight : Z) x : option Z := x.(ix_supply) !! nHeight.
End operations.

(** ** The addresses of a script *)

(** [uint160] of 20 bytes. *)
Definition uint160_of (v : valtype) : base_uint := match c_uint160.(dec) v with Some (h, _) => h | None => uint_zero 5 end.
Definition bytes_at (start : nat) (s : CScript) : valtype := take 20 (drop start s).

(** The templates that have an address: one hash with its type, or the staker
    and the owner of a delegation, or those of a reward. *)
Inductive script_address :=
  | NoAddress
  | OneHash (type : Z) (hashBytes : base_uint)
  | Delegation (staker owner : base_uint)
  | DposReward (staker owner : base_uint).

Section scripts.
Context `{ScriptCrypto} (g_newP2CSRules : bool).

Definition address_of (s : CScript) : script_address :=
  if IsPayToScriptHash s then OneHash SCRIPT_ADDRESS (uint160_of (bytes_at 2 s))
  else if IsPayToPublicKeyHash s then OneHash PUBKEY_ADDRESS (uint160_of (bytes_at 3 s))
  else if IsPayToPublicKey s then OneHash PUBKEY_ADDRESS (uint160_of (Hash160 (take (length s - 2) (drop 1 s))))
  else if IsPayAssetScriptHash s then OneHash PUBKEY_ADDRESS (uint160_of (bytes_at 4 s))
  else if IsPayToColdStaking g_newP2CSRules s then Delegation (uint160_of (bytes_at 6 s)) (uint160_of (bytes_at 28 s))
  else if IsPayAssetDposScript s then DposReward (uint160_of (bytes_at 6 s)) (uint160_of (bytes_at 28 s))
  else NoAddress.

Definition GetHashBytesFromScriptPubKey (script : CScript) : list base_uint :=
  if IsPayToScriptHash script then [uint160_of (bytes_at 2 script)]
  else if IsPayToPublicKeyHash script then [uint160_of (bytes_at 3 script)]
  else if IsPayToPublicKey script then [uint160_of (Hash160 (take (length script - 2) (drop 1 script)))]
  else if IsPayAssetScriptHash script then [uint160_of (bytes_at 4 script)]
  else if IsPayToColdStaking g_newP2CSRules script || IsPayAssetDposScript script then
    [uint160_of (bytes_at 6 script); uint160_of (bytes_at 28 script)]
  else [].

(** ** The entries of a block *)

(** The vectors that [ConnectBlock] and [DisconnectBlock] fill. *)
Record Entries := mkEntries {
  n_address : list (CAddressIndexKey * Z);
  n_unspent : list (CAddressUnspentKey * CAddressUnspentValue);
  n_spent : list (CSpentIndexKey * CSpentIndexValue);
  n_delegation : list (CAddressDelegationIndexKey * Z);
  n_delegation_unspent : list (CAddressDelegationUnspentKey * CAddressUnspentValue);
}.
Definition no_entries : Entries := mkEntries [] [] [] [] [].
Definition entries_app (a b : Entries) : Entries :=
  mkEntries (a.(n_address) ++ b.(n_address)) (a.(n_unspent) ++ b.(n_unspent)) (a.(n_spent) ++ b.(n_spent))
    (a.(n_delegation) ++ b.(n_delegation)) (a.(n_delegation_unspent) ++ b.(n_delegation_unspent)).
Definition entries_concat (l : list Entries) : Entries := foldr entries_app no_entries l.

(** The type and the hash under which a script is listed, and whether the coin is delegated. *)
Definition listed (s : CScript) : option (Z * base_uint * bool) :=
  match address_of s with
  | NoAddress => None
  | OneHash type h => Some (type, h, false)
  | Delegation _ owner => Some (PUBKEY_ADDRESS, owner, true)
  | DposReward _ owner => Some (PUBKEY_ADDRESS, owner, false)
  end.
Definition delegated_to (s : CScript) : option (base_uint * base_uint) :=
  match address_of s with Delegation staker owner => Some (staker, owner) | _ => None end.

(** [ConnectBlock]: the input [j] of the transaction [i] spends [prevout]. *)
Definition spent_entries (fSpentIndex : bool) (nHeight : Z) (txhash : base_uint) (j : Z) (input : COutPoint) (prevout : CTxOut) :
    list (CSpentIndexKey * CSpentIndexValue) :=
  let entry type h := (mkSpentIndexKey input.(prevout_hash) input.(prevout_n),
                       mkSpentIndexValue txhash j nHeight prevout.(nValue) type h) in
  if negb fSpentIndex then []
  else match address_of prevout.(scriptPubKey) with
       | NoAddress => []
       | OneHash type h => [entry type h]
       | Delegation staker owner => [entry PUBKEY_ADDRESS owner; entry STAKING_ADDRESS staker]
       | DposReward staker owner => [entry PUBKEY_ADDRESS owner; entry PUBKEY_ADDRESS staker]
       end.
Definition connect_input_entries (fAddressIndex fSpentIndex : bool) (nHeight i : Z) (txhash : base_uint) (j : Z) (input : COutPoint)
    (prevout : CTxOut) : Entries :=
  let on {A} (l : list A) := if fAddressIndex then l else [] in
  let value := i64 (- prevout.(nValue)) in
  mkEntries
    (on match listed prevout.(scriptPubKey) with
        | Some (type, h, d) => [(mkAddressIndexKey type h nHeight i txhash j true d, value)] | None => [] end)
    (on match listed prevout.(scriptPubKey) with
        | Some (type, h, _) => [(mkAddressUnspentKey type h input.(prevout_hash) input.(prevout_n), UnspentValue_SetNull)] | None => [] end)
    (spent_entries fSpentIndex nHeight txhash j input prevout)
    (on match delegated_to prevout.(scriptPubKey) with
        | Some (staker, owner) => [(mkDelegationIndexKey staker owner nHeight i txhash j true, value)] | None => [] end)
    (on match delegated_to prevout.(scriptPubKey) with
        | Some (staker, owner) => [(mkDelegationUnspentKey staker owner input.(prevout_hash) input.(prevout_n), UnspentValue_SetNull)]
        | None => [] end).

(** [ConnectBlock]: the output [k]; not reached for a banned output. *)
Definition connect_output_entries (nHeight i : Z) (txhash : base_uint) (k : Z) (out : CTxOut) : Entries :=
  let value := mkAddressUnspentValue out.(nValue) out.(scriptPubKey) nHeight in
  mkEntries
    match listed out.(scriptPubKey) with
    | Some (type, h, d) => [(mkAddressIndexKey type h nHeight i txhash k false d, out.(nValue))] | None => [] end
    match listed out.(scriptPubKey) with Some (type, h, _) => [(mkAddressUnspentKey type h txhash k, value)] | None => [] end
    []
    match delegated_to out.(scriptPubKey) with
    | Some (staker, owner) => [(mkDelegationIndexKey staker owner nHeight i txhash k false, out.(nValue))] | None => [] end
    match delegated_to out.(scriptPubKey) with
    | Some (staker, owner) => [(mkDelegationUnspentKey staker owner txhash k, value)] | None => [] end.

(** [DisconnectBlock] goes by the number of hashes. *)
Definition single_type (s : CScript) : Z := if IsPayToScriptHash s then SCRIPT_ADDRESS else PUBKEY_ADDRESS.
Definition disconnect_output_entries (nHeight i : Z) (txhash : base_uint) (k : Z) (out : CTxOut) : Entries :=
  let cold := IsPayToColdStaking g_newP2CSRules out.(scriptPubKey) in
  let value := i64 (- out.(nValue)) in
  match GetHashBytesFromScriptPubKey out.(scriptPubKey) with
  | [h] =>
      let type := single_type out.(scriptPubKey) in
      mkEntries [(mkAddressIndexKey type h nHeight i txhash k false false, value)]
        [(mkAddressUnspentKey type h txhash k, UnspentValue_SetNull)] [] [] []
  | [staker; owner] =>
      mkEntries [(mkAddressIndexKey PUBKEY_ADDRESS owner nHeight i txhash k false cold, value)]
        [(mkAddressUnspentKey PUBKEY_ADDRESS owner txhash k, UnspentValue_SetNull)] []
        (if cold then [(mkDelegationIndexKey staker owner nHeight i txhash k false, value)] else [])
        (if cold then [(mkDelegationUnspentKey staker owner txhash k, UnspentValue_SetNull)] else [])
  | _ => no_entries
  end.
(** [prevout] is the output that the view has again at [input]. *)
Definition disconnect_input_entries (fAddressIndex fSpentIndex : bool) (nHeight i : Z) (txhash : base_uint) (j : Z) (input : COutPoint)
    (undoHeight : Z) (prevout : CTxOut) : Entries :=
  let cold := IsPayToColdStaking g_newP2CSRules prevout.(scriptPubKey) in
  let back := mkAddressUnspentValue prevout.(nValue) prevout.(scriptPubKey) undoHeight in
  let '(hash, n) := (input.(prevout_hash), input.(prevout_n)) in
  let spent := if fSpentIndex then [(mkSpentIndexKey hash n, SpentValue_SetNull)] else [] in
  if negb fAddressIndex then mkEntries [] [] spent [] []
  else match GetHashBytesFromScriptPubKey prevout.(scriptPubKey) with
  | [h] =>
      let type := single_type prevout.(scriptPubKey) in
      mkEntries [(mkAddressIndexKey type h nHeight i txhash j true false, prevout.(nValue))]
        [(mkAddressUnspentKey type h hash n, back)] spent [] []
  | [staker; owner] =>
      mkEntries [(mkAddressIndexKey PUBKEY_ADDRESS owner nHeight i txhash j true cold, prevout.(nValue))]
        [(mkAddressUnspentKey PUBKEY_ADDRESS owner hash n, back)] spent
        (if cold then [(mkDelegationIndexKey staker owner nHeight i txhash j true, prevout.(nValue))] else [])
        (if cold then [(mkDelegationUnspentKey staker owner hash n, back)] else [])
  | _ => mkEntries [] [] spent [] []
  end.

(** Both sides list a script under the same address. *)
Lemma hashes_listed s : listed s = match GetHashBytesFromScriptPubKey s with
  | [h] => Some (single_type s, h, false)
  | [_; owner] => Some (PUBKEY_ADDRESS, owner, IsPayToColdStaking g_newP2CSRules s)
  | _ => None
  end.
Proof.
  unfold listed, address_of, GetHashBytesFromScriptPubKey, single_type.
  destruct (IsPayToScriptHash s); [done|]. destruct (IsPayToPublicKeyHash s); [done|]. destruct (IsPayToPublicKey s); [done|].
  destruct (IsPayAssetScriptHash s); [done|]. destruct (IsPayToColdStaking _ s); [done|]. by destruct (IsPayAssetDposScript s).
Qed.
Lemma hashes_delegated s : delegated_to s = match GetHashBytesFromScriptPubKey s with
  | [staker; owner] => if IsPayToColdStaking g_newP2CSRules s then Some (staker, owner) else None
  | _ => None
  end.
Proof.
  unfold delegated_to, address_of, GetHashBytesFromScriptPubKey.
  destruct (IsPayToScriptHash s); [done|]. destruct (IsPayToPublicKeyHash s); [done|]. destruct (IsPayToPublicKey s); [done|].
  destruct (IsPayAssetScriptHash s); [done|]. destruct (IsPayToColdStaking _ s); [done|]. by destruct (IsPayAssetDposScript s).
Qed.
End scripts.
