(* ===== verification/Kernel.v ===== *)
(** * Kernel: proofs of stake ([kernel.cpp], [stakeinput.cpp], [timedata.cpp])

    The kernel of a stake, its target and the check of the proof of a block.
    [None] is undefined behaviour (a null pointer, an index outside of an
    array) or an exception. *)

From S2P Require Import Prelude ArithUint256 Params Chain Pow Script Interpreter Serialize Transaction SigHash TxVerify Block StakeModifier BlockCheck BlockSound.
Local Open Scope Z_scope.

Definition STANDARD_SCRIPT_VERIFY_FLAGS : Z :=
  Z.lor SCRIPT_VERIFY_P2SH (Z.lor SCRIPT_VERIFY_DERSIG (Z.lor SCRIPT_VERIFY_STRICTENC (Z.lor SCRIPT_VERIFY_MINIMALDATA
    (Z.lor SCRIPT_VERIFY_NULLDUMMY (Z.lor SCRIPT_VERIFY_DISCOURAGE_UPGRADABLE_NOPS SCRIPT_VERIFY_LOW_S))))).

Definition GetTimeSlot (prm : Params) (nTime : Z) : Z := Z.quot nTime prm.(nTimeSlotLength) * prm.(nTimeSlotLength).
Definition GetCurrentTimeSlot (n : Node) : Z := GetTimeSlot n.(consensus) n.(adjustedTime).

(** ** Stake inputs *)

Record CNewStake := {
  outputFrom : CTxOut;
  outpointFrom : COutPoint;
  pindexFrom : CBlockIndex;
}.

(** The inner [None] is the null pointer that tells of a failure. *)
Definition NewStake (n : Node) (txin : CTxIn) : option (option CNewStake) :=
  match n.(GetTransaction) txin.(prevout).(prevout_hash) with
  | None => Some None
  | Some (txPrev, hashBlock) =>
      from ← match n.(mapBlockIndex) !! hashBlock with
             | None => Some None
             | Some p => b ← n.(node_tree) !! p; inside ← Chain_Contains n.(node_tree) n.(chainActive) p; Some (if inside : bool then Some b else None)
             end;
      match from with
      | None => Some None
      | Some b =>
          o ← txPrev.(vout) !! Z.to_nat txin.(prevout).(prevout_n);
          Some (Some {| outputFrom := o; outpointFrom := txin.(prevout); pindexFrom := b |})
      end
  end.

(** [GetUniqueness]: the outpoint. *)
Definition GetUniqueness (s : CNewStake) : list Z :=
  (c_unsigned 4).(enc) s.(outpointFrom).(prevout_n) ++ c_uint256.(enc) s.(outpointFrom).(prevout_hash).
(** [ContextCheck]: nothing is left of it. *)
Definition ContextCheck (s : CNewStake) (nHeight nTime : Z) : bool := true.

(** ** The kernel *)

Record CStakeKernel := {
  stakeModifier : list Z;
  nTimeBlockFrom : Z;
  stakeUniqueness : list Z;
  kernel_nTime : Z;
  kernel_nBits : Z;
  stakeValue : Z;
}.

(** The constructor; times are converted to [int]. *)
Definition CStakeKernel_new (prev : CBlockIndex) (s : CNewStake) (nBits nTimeTx : Z) : option CStakeKernel :=
  m ← GetStakeModifierV2 prev;
  Some {| stakeModifier := c_uint256.(enc) m; nTimeBlockFrom := i32 s.(pindexFrom).(nTime); stakeUniqueness := GetUniqueness s;
          kernel_nTime := i32 nTimeTx; kernel_nBits := nBits; stakeValue := s.(outputFrom).(nValue) |}.

Section kernel.
Context `{!SigCrypto}.

Definition Kernel_GetHash (k : CStakeKernel) : base_uint :=
  Hash_uint256 (k.(stakeModifier) ++ (c_signed 4).(enc) k.(nTimeBlockFrom) ++ k.(stakeUniqueness) ++ (c_signed 4).(enc) k.(kernel_nTime)).

(** The target, with the product of 256 bits; the flags of [SetCompact] are
    not looked at. *)
Definition kernel_target (k : CStakeKernel) : option base_uint :=
  weight ← uint_div (uint_of_u64 W256 (u64 k.(stakeValue))) (uint_of_u64 W256 100);
  Some (uint_mul (SetCompact k.(kernel_nBits)).(compact_value) weight).
Definition CheckKernelHash (k : CStakeKernel) : option bool :=
  bnTarget ← kernel_target k; Some (uint_ltb (Kernel_GetHash k) bnTarget).

(** ** The proof of a block *)

(** [LoadStakeInput]; the inner [None] is the answer [false]. *)
Definition LoadStakeInput (n : Node) (block : CBlock) (pindexPrev : option ptr) : option (option CNewStake) :=
  parent ← match pindexPrev with
           | None => Some (bool_decide (is_Some (find_index n block.(header).(hashPrevBlock))))
           | Some p => b ← n.(node_tree) !! p; Some (bool_decide (block.(header).(hashPrevBlock) = b.(phashBlock)))
           end;
  if negb parent then Some None
  else if negb (CBlock_IsProofOfStake block) then Some None
  else
    tx ← block.(vtx) !! 1%nat;
    txin ← tx.(vin) !! 0%nat;
    NewStake n txin.

Definition CheckProofOfStake (n : Node) (block : CBlock) (pindexPrev : option ptr) : option bool :=
  p ← pindexPrev;
  prev ← n.(node_tree) !! p;
  stakeInput ← LoadStakeInput n block pindexPrev;
  match stakeInput with
  | None => Some false
  | Some s =>
      if negb (ContextCheck s (prev.(nHeight) + 1) block.(header).(hdr_nTime)) then Some false
      else
        k ← CStakeKernel_new prev s block.(header).(hdr_nBits) block.(header).(hdr_nTime);
        ok ← CheckKernelHash k;
        if negb ok then Some false
        else
          tx ← block.(vtx) !! 1%nat;
          txin ← tx.(vin) !! 0%nat;
          r ← VerifyScript (TransactionSignatureChecker n.(g_newP2CSRules) tx 0 s.(outputFrom).(nValue) None) STANDARD_SCRIPT_VERIFY_FLAGS
                (GetRequiredSigVersion tx) txin.(scriptSig) s.(outputFrom).(scriptPubKey);
          Some r.1
  end.

(** [GetStakeKernelHash]; the inner [None] is the answer [false].  The kernel
    dereferences [pindexPrev] although it may be null. *)
Definition GetStakeKernelHash (n : Node) (block : CBlock) (pindexPrev : option ptr) : option (option base_uint) :=
  stakeInput ← LoadStakeInput n block pindexPrev;
  match stakeInput with
  | None => Some None
  | Some s =>
      p ← pindexPrev;
      prev ← n.(node_tree) !! p;
      k ← CStakeKernel_new prev s block.(header).(hdr_nBits) block.(header).(hdr_nTime);
      Some (Some (Kernel_GetHash k))
  end.

(** [Stake]: the answer and the new [nTimeTx]. *)
Definition Stake (n : Node) (pindexPrev : ptr) (stakeInput : option CNewStake) (nBits nTimeTx : Z) : option (bool * Z) :=
  prev ← n.(node_tree) !! pindexPrev;
  match stakeInput with
  | None => Some (false, nTimeTx)
  | Some s =>
      if negb (ContextCheck s (prev.(nHeight) + 1) nTimeTx) then Some (false, nTimeTx)
      else
        let fRegTest := IsRegTestNet n in
        let nTimeTx := if fRegTest then n.(adjustedTime) else GetCurrentTimeSlot n in
        if (nTimeTx <=? prev.(nTime)) && negb fRegTest then Some (false, nTimeTx)
        else
          k ← CStakeKernel_new prev s nBits nTimeTx;
          ok ← CheckKernelHash k;
          Some (ok, nTimeTx)
  end.

(** ** The weight of a stake *)

Definition with_value (v : Z) (k : CStakeKernel) : CStakeKernel :=
  {| stakeModifier := k.(stakeModifier); nTimeBlockFrom := k.(nTimeBlockFrom); stakeUniqueness := k.(stakeUniqueness);
     kernel_nTime := k.(kernel_nTime); kernel_nBits := k.(kernel_nBits); stakeValue := v |}.
(** The target before it is weighed. *)
Definition base_target (k : CStakeKernel) : Z := val (SetCompact k.(kernel_nBits)).(compact_value).

Lemma CheckKernelHash_exact k : is_u32 k.(kernel_nBits) → 0 <= k.(stakeValue) < 2 ^ 63 → wf256 (Kernel_GetHash k) →
  CheckKernelHash k = Some (val (Kernel_GetHash k) <? (base_target k * (k.(stakeValue) / 100)) mod 2 ^ 256).
Proof.
  intros Hb Hv Hh. unfold CheckKernelHash, kernel_target, base_target. destruct (SetCompact_value _ Hb) as [Hw _].
  rewrite u64_id by mlia. destruct (uint_of_u64_spec W256 k.(stakeValue)) as [W1 V1]; [unfold W256; lia|mlia|].
  destruct (uint_of_u64_spec W256 100) as [W2 V2]; [unfold W256; lia|mlia|].
  pose proof (uint_div_spec W256 _ _ W1 W2) as Hd. rewrite V1, V2 in Hd. change (100 =? 0) with false in Hd. destruct Hd as (q & -> & Wq & Vq).
  cbn [mbind option_bind]. destruct (uint_mul_spec W256 _ _ Hw Wq) as [Wm Vm].
  destruct (uint_order_spec W256 _ _ Hh Wm) as [-> _]. by rewrite Vm, Vq.
Qed.

(** the target of a stake is weighed with its value.  The kernel hash is
    compared with the product of the target and a hundredth of the value,
    modulo [2 ^ 256]; while the product fits, a larger value only helps. *)
Theorem CheckKernelHash_weighs (k : CStakeKernel) :
  is_u32 k.(kernel_nBits) → 0 <= k.(stakeValue) < 2 ^ 63 → wf256 (Kernel_GetHash k) →
  CheckKernelHash k = Some (val (Kernel_GetHash k) <? (base_target k * (k.(stakeValue) / 100)) mod 2 ^ 256) ∧
  ∀ v, k.(stakeValue) <= v < 2 ^ 63 → base_target k * (v / 100) < 2 ^ 256 →
    CheckKernelHash k = Some true → CheckKernelHash (with_value v k) = Some true.
Proof.
  intros Hb Hv Hh. split; [by apply CheckKernelHash_exact|]. intros v Hle Hfit. rewrite (CheckKernelHash_exact k) by done.
  rewrite (CheckKernelHash_exact (with_value v k)) by (done || (cbn; lia)).
  change (Kernel_GetHash (with_value v k)) with (Kernel_GetHash k). change (base_target (with_value v k)) with (base_target k). cbn [with_value stakeValue].
  assert (0 <= base_target k) by (unfold base_target; destruct (SetCompact_value _ Hb) as [[_ Hw] _]; by apply val_bounds in Hw as [? _]).
  pose proof (Z.div_le_mono k.(stakeValue) v 100 ltac:(lia) ltac:(lia)). pose proof (Z.div_pos k.(stakeValue) 100 ltac:(lia) ltac:(lia)).
  rewrite !Z.mod_small by nia. intros [= E]. f_equal. nia.
Qed.

(** ** Delegated coins *)

(** C37: a delegated output can be staked without its keys.  When the first
    input of the coinstake spends a delegation through the staker's branch, with
    a pushed signature and key of at least two bytes each, the proof of stake
    gets a verdict, and it is valid exactly when the kernel hash meets the
    target, the coinstake has this one input and its outputs after the first
    return the coins to the delegation (the last of three or more is free), the
    hash of the key is not zero as a boolean and, under the later rules for cold
    staking, signature and key are well-encoded.  No signature is verified, and
    the key does not have to match the hash of the staker or of the owner. *)
Theorem delegation_staked_without_signature `{!ScriptCryptoLaws} (n : Node) (b : CBlock) (p : ptr) (prev : CBlockIndex) (cs : CTransaction) (i : CTxIn)
    (s : CNewStake) (k : CStakeKernel) (met : bool) (sig pk staker owner : valtype) :
  n.(node_tree) !! p = Some prev → b.(header).(hashPrevBlock) = prev.(phashBlock) → CBlock_IsProofOfStake b = true →
  b.(vtx) !! 1%nat = Some cs → cs.(vin) !! 0%nat = Some i → NewStake n i = Some (Some s) →
  CStakeKernel_new prev s b.(header).(hdr_nBits) b.(header).(hdr_nTime) = Some k → CheckKernelHash k = Some met →
  Forall (λ o, 0 <= o.(nValue)) cs.(vout) → total_value cs.(vout) < 2 ^ 63 →
  small sig → 1 < size sig → small pk → 1 < size pk → length staker = 20%nat → length owner = 20%nat →
  s.(outputFrom).(scriptPubKey) = p2cs staker owner → i.(scriptSig) = push_data sig ++ [OP_1] ++ push_data pk →
  ∃ valid, CheckProofOfStake n b (Some p) = Some valid ∧
    (valid = true ↔
       met = true ∧
       (n.(g_newP2CSRules) = true → CheckSignatureEncoding sig STANDARD_SCRIPT_VERIFY_FLAGS = Ok tt ∧
                                    CheckPubKeyEncoding pk STANDARD_SCRIPT_VERIFY_FLAGS = Ok tt) ∧
       CastToBool (Hash160 pk) = true ∧ length cs.(vin) = 1%nat ∧
       outputs_return (p2cs staker owner) (size cs.(vout)) 1 (drop 1 cs.(vout)) ∧
       s.(outputFrom).(nValue) <= returned (p2cs staker owner) (drop 1 cs.(vout))).
Proof.
  intros Hp Hprev Hpos Hcs Hi Hs Hk Hmet Hv Ht Hsig Hsig2 Hpk Hpk2 Hst How Hscript Hsigs.
  assert (IsCoinStake cs = true) as Hstake.
  { unfold CBlock_IsProofOfStake, vtx_IsProofOfStake in Hpos. destruct (vtx b) as [|t0 [|t1 l]]; [done..|]. injection Hcs as ->. by destruct (IsCoinStake cs). }
  unfold CheckProofOfStake, LoadStakeInput. cbn [mbind option_bind]. rewrite Hp. cbn [mbind option_bind].
  rewrite bool_decide_true, Hpos by done. cbn [negb]. rewrite Hcs. cbn [mbind option_bind]. rewrite Hi. cbn [mbind option_bind]. rewrite Hs.
  cbn [mbind option_bind ContextCheck negb]. rewrite Hk. cbn [mbind option_bind]. rewrite Hmet. cbn [mbind option_bind].
  destruct met; cbn [negb]; [|exists false; split; [done|by split; [|intros [? _]]]]. rewrite Hscript, Hsigs.
  rewrite (proj2 (coldstake_branch_verdict _ _ _ sig pk staker owner Hsig Hsig2 Hpk Hpk2 Hst How)). cbn [mbind option_bind TransactionSignatureChecker CheckColdStake].
  pose proof (CheckColdStake_verdict n.(g_newP2CSRules) cs s.(outputFrom).(nValue) (p2cs staker owner) (Hash160 pk) pk sig
    STANDARD_SCRIPT_VERIFY_FLAGS SCRIPT_ERR_UNKNOWN_ERROR Hv Ht (RIPEMD160_size _)) as Hc.
  destruct (tx_CheckColdStake _ _ _ _ _ _ _) as [[] e]; cbn [fst] in Hc; destruct (CastToBool (Hash160 pk)); eexists; (split; [reflexivity|]); cbn [fst]; tauto || intuition done.
Qed.

(** The comments in the header say that a null [pindexPrev] is looked up. *)
Lemma null_parent_undefined n b : CheckProofOfStake n b None = None.
Proof. done. Qed.
End kernel.

(** ** Examples *)

Definition sample_kernel (v : Z) : CStakeKernel :=
  {| stakeModifier := replicate 32 0; nTimeBlockFrom := 100; stakeUniqueness := replicate 36 1; kernel_nTime := 200;
     kernel_nBits := 0x1d0fffff; stakeValue := v |}.

Lemma CheckKernelHash_weighs_witness : @CheckKernelHash sample_sig_crypto (with_value (5 * COIN) (sample_kernel COIN)) = Some true.
Proof.
  apply (@CheckKernelHash_weighs sample_sig_crypto (sample_kernel COIN)).
  - done.
  - done.
  - apply (bool_decide_unpack _). vm_compute. exact I.
  - done.
  - vm_compute. reflexivity.
  - vm_compute. reflexivity.
Defined.

(** At the limit of the targets of stakes the product exceeds 256 bits for
    values above about one coin: the weighed target of some values is zero, so
    that they meet no target at all. *)
Example target_wraps :
  let k := {| stakeModifier := replicate 32 0; nTimeBlockFrom := 0; stakeUniqueness := []; kernel_nTime := 0;
              kernel_nBits := 0x1e100000; stakeValue := 100 * 2 ^ 20 |} in
  base_target k <= val main_params.(posLimitV2) + 1 ∧ (val <$> kernel_target k) = Some 0.
Proof. split; [vm_compute; discriminate|vm_compute; reflexivity]. Qed.

Definition staking_key : valtype := replicate 33 2.
(** Not a signature of anything, but well-encoded: [r] and [s] are 1. *)
Definition encoded_sig : valtype := [0x30; 6; 2; 1; 1; 2; 1; 1; 1].
Definition delegated_output : CTxOut := {| nValue := 120 * COIN; scriptPubKey := sample_p2cs; nRounds := -10 |}.
Definition delegation_tx : CTransaction :=
  {| nVersion := 1; nType := 0; vin := []; vout := [{| nValue := 0; scriptPubKey := []; nRounds := -10 |}; delegated_output]; nLockTime := 0;
     sapData := Some SaplingTxData_empty; extraPayload := None; walletSenderId := replicate 5 0 |}.
Definition stealing_input : CTxIn :=
  {| prevout := sample_outpoint; scriptSig := push_data encoded_sig ++ [OP_1] ++ push_data staking_key; nSequence := 2 ^ 32 - 1 |}.
Definition stealing_coinstake : CTransaction :=
  {| nVersion := 1; nType := 0; vin := [stealing_input];
     vout := [{| nValue := 0; scriptPubKey := []; nRounds := -10 |}; {| nValue := 130 * COIN; scriptPubKey := sample_p2cs; nRounds := -10 |};
              {| nValue := 50 * COIN; scriptPubKey := [OP_1]; nRounds := -10 |}];
     nLockTime := 0; sapData := Some SaplingTxData_empty; extraPayload := None; walletSenderId := replicate 5 0 |}.
Definition delegation_parent : CBlockIndex := sample_entry 1 None 0 1000.
Definition delegation_node : Node :=
  {| consensus := main_params; hashGenesisBlock := uint_zero 8; networkID := MAIN; mapCheckpoints := []; checkpoints_fEnabled := true;
     mapBlockIndex := {[delegation_parent.(phashBlock) := 1%positive]}; node_tree := {[1%positive := delegation_parent]};
     chainActive := [Some 1%positive]; g_newP2CSRules := true; in_IBD := false; mn_IsSynced := true;
     IsBudgetPaymentBlock := λ _, false; spork_superblocks := false; spork_coldstaking_maintenance := false;
     GetCurrentAssetHash := uint_zero 8; GetTransaction := λ _, Some (delegation_tx, delegation_parent.(phashBlock));
     adjustedTime := 2000; maxreorg := None |}.
Definition delegation_block : CBlock :=
  {| header := {| hdr_nVersion := 5; hashPrevBlock := delegation_parent.(phashBlock); hdr_hashMerkleRoot := uint_zero 8; hdr_nTime := 1500;
                  hdr_nBits := 0x1d0fffff; hdr_nNonce := 0; hdr_hashFinalSaplingRoot := uint_zero 8; hdr_assetRootHash := uint_zero 8 |};
     vtx := [sample_coinbase [1; 2]; stealing_coinstake]; vReg := []; vchBlockSig := [1]; fChecked := false |}.

(** The interface below rejects every signature; the node applies the later
    rules for cold staking. *)
Definition no_signatures : SigCrypto :=
  {| sig_script_crypto := sample_crypto; BLAKE2b := λ p d, pad 32 (p ++ d); ecdsa_verify := λ _ _ _, false |}.
Lemma delegation_staked_without_signature_witness : @CheckProofOfStake no_signatures delegation_node delegation_block (Some 1%positive) = Some true.
Proof.
  pose (s := {| outputFrom := delegated_output; outpointFrom := sample_outpoint; pindexFrom := delegation_parent |}).
  assert (small encoded_sig ∧ 1 < size encoded_sig ∧ small staking_key ∧ 1 < size staking_key) as (H1 & H2 & H3 & H4) by (vm_compute; by split_and!).
  destruct (@delegation_staked_without_signature no_signatures sample_crypto_laws delegation_node delegation_block 1%positive delegation_parent
    stealing_coinstake stealing_input s
    (default (sample_kernel 0) (CStakeKernel_new delegation_parent s 0x1d0fffff 1500)) true encoded_sig staking_key (replicate 20 5) (replicate 20 6))
    as (valid & -> & Hv).
  all: try exact H1; try exact H2; try exact H3; try exact H4; try (vm_compute; reflexivity).
  - repeat constructor; vm_compute; discriminate.
  - f_equal. apply Hv. split_and!; try (vm_compute; reflexivity); [intros _; split; vm_compute; reflexivity| |vm_compute; discriminate].
    intros [|[|j]] o Hj; [left; cbn in Hj; by injection Hj as <-|right; reflexivity|by cbn in Hj; rewrite ?drop_0 in Hj; destruct j].
Defined.
