(* ===== verification/ConnectBlock.v ===== *)
(** * ConnectBlock: connecting and disconnecting blocks ([validation.cpp],
    [masternode-payments.cpp])

    [CheckInputs], [ConnectBlock] and [DisconnectBlock] as a whole: the coins,
    the script checks, the rewards, the undo data on disk, the indexes of
    addresses and the money supply.

    The outer [option] of an operation is a failed assertion, an access outside
    of an array or an exception that is not caught.  The reads of a view fill
    its cache; where a block is rejected the view is thrown away, so only the
    reason is returned.  The multi-mining manager, whose code is not part of
    the repository, gives one number ([GetSummaryAssetsToReward]); what it is
    told has no effect on the objects of this file.  The signature cache is left
    out, as it holds signatures that were found valid. *)

From stdpp Require Import strings.
From S2P Require Import Prelude ArithUint256 Params Chain Pow Script Interpreter Serialize Transaction SigHash TxVerify Block Coins CoinsUpdate Merkle ChainState Standard Compressor BlockCheck BlockFiles AddressIndex Kernel.
Local Open Scope Z_scope.

Definition MAX_BLOCK_SIGOPS_CURRENT : Z := Z.quot MAX_BLOCK_SIZE_CURRENT 50.
Definition MANDATORY_SCRIPT_VERIFY_FLAGS : Z := SCRIPT_VERIFY_P2SH.
Definition STANDARD_NOT_MANDATORY_VERIFY_FLAGS : Z := Z.ldiff STANDARD_SCRIPT_VERIFY_FLAGS MANDATORY_SCRIPT_VERIFY_FLAGS.
(** The flags of [ConnectBlock]. *)
Definition block_flags : Z := Z.lor SCRIPT_VERIFY_P2SH (Z.lor SCRIPT_VERIFY_DERSIG SCRIPT_VERIFY_CHECKLOCKTIMEVERIFY).

(** ** The surroundings *)

Inductive TrxValidationStatus := TxInValid | TxValid | TxDoublePayment | TxVoteThreshold.
#[export] Instance TrxValidationStatus_eq_dec : EqDecision TrxValidationStatus.
Proof. solve_decision. Defined.

(** What [ConnectBlock] asks the budget manager, the masternode payments and
    the sporks. *)
Record Payments := {
  GetTotalBudget : Z → Z;
  GetExpectedPayeeAmount : Z → option Z;
  budget_IsTransactionValid : CTransaction → base_uint → Z → TrxValidationStatus;
  masternode_IsTransactionValid : CTransaction → Z → bool;
  spork_payment_enforcement : bool;       (** [SPORK_8_MASTERNODE_PAYMENT_ENFORCEMENT] *)
  spork_budget_enforcement : bool;        (** [SPORK_9_MASTERNODE_BUDGET_ENFORCEMENT] *)
}.

Record Settings := {
  fAddressIndex : bool;
  fSpentIndex : bool;
  fTxIndex : bool;
  nScriptCheckThreads : bool;             (** is not zero *)
  spork_sapling_maintenance : Z;          (** the value of [SPORK_20_SAPLING_MAINTENANCE] *)
  GetSummaryAssetsToReward : Z;           (** of the multi-mining manager *)
}.

(** [CMoneySupply]. *)
Record CMoneySupply := { nSupply : Z; supply_nHeight : Z }.

(** [IsBlockValueValid]; [nExpectedValue] is an argument by reference that the
    caller only prints. *)
Definition IsBlockValueValid (n : Node) (p : Payments) (nHeight nExpectedValue nMinted : Z) : bool :=
  if negb n.(mn_IsSynced) then
    if Z.rem nHeight n.(consensus).(nBudgetCycleBlocks) <? 100 then
      if IsTestnet n then true else nMinted <=? i64 (nExpectedValue + p.(GetTotalBudget) nHeight)
    else nMinted <=? nExpectedValue
  else if n.(spork_superblocks) then
    match p.(GetExpectedPayeeAmount) nHeight with
    | Some amount => nMinted <=? i64 (nExpectedValue + amount)
    | None => nMinted <=? nExpectedValue
    end
  else nMinted <=? nExpectedValue.

(** Where the budget does not decide, a masternode has to be paid. *)
Definition IsBlockPayeeValid `{ScriptCrypto} (n : Node) (p : Payments) (block : CBlock) (nBlockHeight : Z) : option bool :=
  if negb n.(mn_IsSynced) then Some true
  else
    txNew ← block.(vtx) !! (if NetworkUpgradeActive n.(consensus) nBlockHeight ACTIVATE_POS then 1%nat else 0%nat);
    let masternode := p.(masternode_IsTransactionValid) txNew nBlockHeight || negb p.(spork_payment_enforcement) in
    Some (if n.(spork_superblocks) && n.(IsBudgetPaymentBlock) nBlockHeight then
            match p.(budget_IsTransactionValid) txNew (Block_GetHash block) nBlockHeight with
            | TxValid => true
            | TxInValid => if p.(spork_budget_enforcement) then false else masternode
            | _ => masternode
            end
          else masternode).

Definition SkipInvalidUTXOS (n : Node) (nHeight : Z) : bool :=
  bool_decide (n.(networkID) = MAIN) && NetworkUpgradeActive n.(consensus) nHeight ACTIVATE_POS.

(** ** Results *)

(** A step goes on or stops with what [state] was given. *)
Inductive res (A : Type) := Go (a : A) | Stop (r : option rejection).
Arguments Go {A} a. Arguments Stop {A} r.

Definition rbind {A B} (m : option (res A)) (k : A → option (res B)) : option (res B) :=
  match m with Some (Go a) => k a | Some (Stop r) => Some (Stop r) | None => None end.
Notation "x <-- m ; k" := (rbind m (λ x, k)) (at level 20, m at level 100, k at level 200, only parsing).
Notation "' p <-- m ; k" := (rbind m (λ x, match x with p => k end)) (at level 20, p pattern, m at level 100, k at level 200, only parsing).
(** [if (c) return state.DoS(...)]. *)
Definition stop_if (c : bool) (level : Z) (reason : string) : option (res unit) :=
  Some (if c then Stop (Some (mkRejection level reason false)) else Go tt).
Definition stop_check (c : check) : option (res unit) :=
  Some (match c with
        | None => Go tt
        | Some (DoS level reason) => Stop (Some (mkRejection level reason false))
        | Some silent => Stop None
        end).

(** [SaplingMerkleTree] with its [append], which throws for a full tree. *)
Class AppendTree := {
  append_tree :: MerkleTree;
  append : Tree → base_uint → option Tree;
}.

Section connect.
Context `{!SigCrypto} `{!AppendTree} `{!Secp256k1} {V : Type} `{!CCoinsView V}.
Abbreviation Cache := (CCoinsViewCache V).
Context (invalid : COutPoint → bool) (linux : bool) (messageStart : list Z).

(** ** Script checks *)

(** [CScriptCheck]. *)
Record CScriptCheck := mkScriptCheck {
  sc_scriptPubKey : CScript;
  sc_amount : Z;
  sc_ptxTo : CTransaction;
  sc_nIn : nat;
  sc_nFlags : Z;
}.

(** [CScriptCheck::operator()]. *)
Definition run_check (n : Node) (c : CScriptCheck) : option bool :=
  i ← c.(sc_ptxTo).(vin) !! c.(sc_nIn);
  r ← VerifyScript (TransactionSignatureChecker n.(g_newP2CSRules) c.(sc_ptxTo) (Z.of_nat c.(sc_nIn)) c.(sc_amount) (Some (Precompute c.(sc_ptxTo))))
        c.(sc_nFlags) (GetRequiredSigVersion c.(sc_ptxTo)) i.(scriptSig) c.(sc_scriptPubKey);
  Some r.1.

(** [GetSpendHeight]. *)
Definition GetSpendHeight (n : Node) (c : Cache) : option (Z * Cache) :=
  let '(h, c) := GetBestBlock c in
  b ← find_index n h;
  Some (b.(nHeight) + 1, c).

(** The loop over the inputs from the index [i] on; [deferred] is whether the
    checks are collected, and otherwise they are run at once. *)
Fixpoint script_loop (n : Node) (tx : CTransaction) (flags : Z) (deferred : bool) (i : nat) (l : list CTxIn) (c : Cache) :
    option (res (list CScriptCheck * Cache)) :=
  match l with
  | [] => Some (Go ([], c))
  | txin :: l =>
      let '(coin, c) := AccessCoin txin.(prevout) c in
      if IsSpent coin then None
      else
        let check f := mkScriptCheck coin.(coin_out).(scriptPubKey) coin.(coin_out).(nValue) tx i f in
        if deferred then
          '(checks, c) <-- script_loop n tx flags deferred (S i) l c;
          Some (Go (check flags :: checks, c))
        else
          ok ← run_check n (check flags);
          if ok : bool then script_loop n tx flags deferred (S i) l c
          else
            nonstandard ← (if negb (Z.land flags STANDARD_NOT_MANDATORY_VERIFY_FLAGS =? 0)
                           then run_check n (check (Z.ldiff flags STANDARD_NOT_MANDATORY_VERIFY_FLAGS)) else Some false);
            Some (Stop (Some (if nonstandard : bool then mkRejection 0 "non-mandatory-script-verify-flag" false
                              else mkRejection 100 "mandatory-script-verify-flag-failed" false)))
  end.

(** The checks of the inputs of one transaction, and the deferred script checks. *)
Definition CheckInputs (n : Node) (tx : CTransaction) (fScriptChecks : bool) (flags : Z) (deferred : bool) (c : Cache) :
    option (res (list CScriptCheck * Cache)) :=
  if negb (IsCoinBase tx) && negb (ContainsAssets tx) then
    '(h, c) ← GetSpendHeight n c;
    '(r, c) ← CheckTxInputs n.(consensus) tx h c;
    _ <-- stop_check r;
    if fScriptChecks then script_loop n tx flags deferred 0 tx.(vin) c else Some (Go ([], c))
  else Some (Go ([], c)).

(** [GetP2SHSigOpCount] on a view. *)
Fixpoint p2sh_sigops_loop (l : list CTxIn) (nSigOps : Z) (c : Cache) : Z * Cache :=
  match l with
  | [] => (nSigOps, c)
  | i :: l =>
      let '(coin, c) := AccessCoin i.(prevout) c in
      let s := coin.(coin_out).(scriptPubKey) in
      p2sh_sigops_loop l (if IsPayToScriptHash s then u32 (nSigOps + GetSigOpCount_p2sh s i.(scriptSig)) else nSigOps) c
  end.
Definition view_P2SHSigOpCount (tx : CTransaction) (c : Cache) : Z * Cache :=
  if IsCoinBase tx || ContainsAssets tx then (0, c) else p2sh_sigops_loop tx.(vin) 0 c.

(** ** [ConnectBlock]: the transactions *)

(** The local variables of the loop. *)
Record Progress := mkProgress {
  p_view : Cache;
  p_nFees : Z;
  p_nSigOps : Z;
  p_nValueIn : Z;
  p_nValueOut : Z;
  p_nAssetValue : Z;
  p_entries : Entries;
  p_vtxundo : list (list Coin);
  p_tree : Tree;
  p_nTxOffset : Z;
  p_vPos : list (base_uint * CDiskTxPos);
  p_checks : list CScriptCheck;
}.

Definition set_view (c : Cache) (p : Progress) : Progress :=
  mkProgress c p.(p_nFees) p.(p_nSigOps) p.(p_nValueIn) p.(p_nValueOut) p.(p_nAssetValue) p.(p_entries) p.(p_vtxundo) p.(p_tree)
    p.(p_nTxOffset) p.(p_vPos) p.(p_checks).

(** [GetMultiMiningSpend]: the sum of the outputs. *)
Definition GetMultiMiningSpend (tx : CTransaction) : Z := foldl (λ a o, i64 (a + o.(nValue))) 0 tx.(vout).

(** The entries of the inputs from the index [j] on. *)
Fixpoint input_entries_loop (n : Node) (st : Settings) (nHeight i : Z) (txhash : base_uint) (j : Z) (l : list CTxIn) (c : Cache) : Entries * Cache :=
  match l with
  | [] => (no_entries, c)
  | txin :: l =>
      let '(coin, c) := AccessCoin txin.(prevout) c in
      let e := connect_input_entries n.(g_newP2CSRules) st.(fAddressIndex) st.(fSpentIndex) nHeight i txhash j txin.(prevout) coin.(coin_out) in
      let '(es, c) := input_entries_loop n st nHeight i txhash (j + 1) l c in
      (entries_app e es, c)
  end.

(** The outputs from the index [k] on: the values and the entries.  Banned
    outputs are passed over. *)
Fixpoint output_loop (n : Node) (coinstake : bool) (nHeight i : Z) (txhash : base_uint) (k : Z) (l : list CTxOut) (nValueOut nFees : Z) :
    Z * Z * Entries :=
  match l with
  | [] => (nValueOut, nFees, no_entries)
  | out :: l =>
      if invalid {| prevout_hash := txhash; prevout_n := u32 k |} then output_loop n coinstake nHeight i txhash (k + 1) l nValueOut nFees
      else
        let '(v, f, es) := output_loop n coinstake nHeight i txhash (k + 1) l (i64 (nValueOut + out.(nValue)))
                             (if coinstake then nFees else i64 (nFees - out.(nValue))) in
        (v, f, entries_app (connect_output_entries n.(g_newP2CSRules) nHeight i txhash k out) es)
  end.

(** The first part of a round: the signature operations and that the inputs are there. *)
Definition tx_available (maintenance : bool) (tx : CTransaction) (nSigOps : Z) (c : Cache) : option (res (Z * Cache)) :=
  let nSigOps := u32 (nSigOps + GetLegacySigOpCount tx) in
  _ <-- stop_if (MAX_BLOCK_SIGOPS_CURRENT <? nSigOps) 100 "bad-blk-sigops";
  _ <-- stop_if (maintenance && IsShieldedTx tx) 100 "";
  if IsCoinBase tx then Some (Go (nSigOps, c))
  else
    let '(have, c) := HaveInputs tx c in
    _ <-- stop_if (negb have) 100 "bad-txns-inputs-missingorspent";
    let '(met, c) := HaveShieldedRequirements tx c in
    _ <-- stop_if (negb met) 100 "bad-txns-sapling-requirements-not-met";
    let '(k, c) := view_P2SHSigOpCount tx c in
    let nSigOps := u32 (nSigOps + k) in
    _ <-- stop_if (MAX_BLOCK_SIGOPS_CURRENT <? nSigOps) 100 "bad-blk-sigops";
    Some (Go (nSigOps, c)).

(** The second part: the values of the inputs, their checks and their entries. *)
Definition tx_inputs (n : Node) (st : Settings) (fScriptChecks : bool) (nHeight i : Z) (tx : CTransaction) (nFees nValueIn : Z) (c : Cache) :
    option (res (Z * Z * list CScriptCheck * Entries * Cache)) :=
  if negb (IsCoinBase tx) && negb (ContainsAssets tx) then
    let '(v, c) := if negb (IsCoinStake tx) then GetValueIn tx c else (0, c) in
    let nFees := i64 (nFees + v) in
    let '(v, c) := GetValueIn tx c in
    let nValueIn := i64 (nValueIn + v) in
    '(checks, c) <-- CheckInputs n tx fScriptChecks block_flags st.(nScriptCheckThreads) c;
    let '(es, c) := if st.(fAddressIndex) || st.(fSpentIndex) then input_entries_loop n st nHeight i (GetHash tx) 0 tx.(vin) c else (no_entries, c) in
    Some (Go (nFees, nValueIn, checks, es, c))
  else Some (Go (nFees, nValueIn, [], no_entries, c)).

Fixpoint append_list (tree : Tree) (l : list base_uint) : option Tree :=
  match l with [] => Some tree | cmu :: l => tree ← append tree cmu; append_list tree l end.
(** The commitments of the shielded outputs. *)
Definition tx_commitments (tx : CTransaction) : list base_uint :=
  if IsShieldedTx tx then match tx.(sapData) with Some d => output_cmu <$> d.(vShieldedOutput) | None => [] end else [].
Definition append_outputs (tx : CTransaction) (tree : Tree) : option Tree := append_list tree (tx_commitments tx).

(** One round of the loop; the transaction is the [i]-th of the block. *)
Definition connect_tx (n : Node) (st : Settings) (fScriptChecks maintenance : bool) (nHeight : Z) (blockPos : CDiskBlockPos) (i : nat)
    (tx : CTransaction) (p : Progress) : option (res Progress) :=
  let txhash := GetHash tx in
  '(nSigOps, c) <-- tx_available maintenance tx p.(p_nSigOps) p.(p_view);
  '(nFees, nValueIn, checks, es, c) <-- tx_inputs n st fScriptChecks nHeight (Z.of_nat i) tx p.(p_nFees) p.(p_nValueIn) c;
  let '(nValueOut, nFees, es') :=
    if st.(fAddressIndex) then output_loop n (IsCoinStake tx) nHeight (Z.of_nat i) txhash 0 tx.(vout) p.(p_nValueOut) nFees
    else (p.(p_nValueOut), nFees, no_entries) in
  let nAssetValue := if ContainsAssets tx then i64 (p.(p_nAssetValue) + GetMultiMiningSpend tx) else p.(p_nAssetValue) in
  '(undo, c) ← UpdateCoins invalid tx nHeight (SkipInvalidUTXOS n nHeight) c;
  tree ← append_outputs tx p.(p_tree);
  Some (Go (mkProgress c nFees nSigOps nValueIn nValueOut nAssetValue (entries_app p.(p_entries) (entries_app es es'))
              (match i with O => p.(p_vtxundo) | _ => p.(p_vtxundo) ++ [undo] end) tree
              (u32 (p.(p_nTxOffset) + size (SerializeTransaction tx)))
              (p.(p_vPos) ++ [(txhash, mkDiskTxPos blockPos p.(p_nTxOffset))]) (p.(p_checks) ++ checks))).

Fixpoint connect_txs (n : Node) (st : Settings) (fScriptChecks maintenance : bool) (nHeight : Z) (blockPos : CDiskBlockPos) (i : nat)
    (l : list CTransaction) (p : Progress) : option (res Progress) :=
  match l with
  | [] => Some (Go p)
  | tx :: l => p <-- connect_tx n st fScriptChecks maintenance nHeight blockPos i tx p;
               connect_txs n st fScriptChecks maintenance nHeight blockPos (S i) l p
  end.

(** [control.Wait()]: all collected checks hold. *)
Fixpoint run_checks (n : Node) (l : list CScriptCheck) : option bool :=
  match l with [] => Some true | c :: l => ok ← run_check n c; rest ← run_checks n l; Some (ok && rest) end.

(** ** [ConnectBlock]: the reward *)

Definition nMint (n : Node) (nHeight : Z) (p : Progress) : Z :=
  let AssetToMint := if negb (NetworkUpgradeActive n.(consensus) nHeight ACTIVATE_ASSET_VALIDATION) then i64 (- p.(p_nAssetValue)) else 0 in
  i64 (i64 (i64 (p.(p_nValueOut) - p.(p_nValueIn)) + p.(p_nFees)) + AssetToMint).
Definition nExpectedMint (n : Node) (st : Settings) (nHeight : Z) (p : Progress) : Z :=
  let v := i64 (i64 (GetBlockValue n nHeight + p.(p_nFees)) + GetMasternodePayment n nHeight) in
  if NetworkUpgradeActive n.(consensus) nHeight ACTIVATE_ASSET_VALIDATION then i64 (v + st.(GetSummaryAssetsToReward)) else v.

(** All checks of a block other than the genesis block: the loop and what
    follows it.  Nothing is written yet. *)
Definition check_connect (n : Node) (st : Settings) (pay : Payments) (block : CBlock) (b : CBlockIndex) (c : Cache) : option (res Progress) :=
  let nHeight := b.(nHeight) in
  let isPoSActive := NetworkUpgradeActive n.(consensus) nHeight ACTIVATE_POS in
  _ <-- stop_if (negb isPoSActive && CBlock_IsProofOfStake block) 100 "PoS-early";
  _ <-- stop_if (isPoSActive && CBlock_IsProofOfWork block) 100 "PoW-ended";
  _ <-- stop_if (match b.(nChainSaplingValue) with Some v => v <? 0 | None => false end) 100 "turnstile-violation-sapling-shielded-pool";
  total ← GetTotalBlocksEstimate n;
  let fScriptChecks := total <=? nHeight in
  let '(anchor, c) := GetBestAnchor c in
  let '(r, c) := GetSaplingAnchorAt anchor c in
  tree ← r;
  let maintenance := negb n.(in_IBD) && (st.(spork_sapling_maintenance) <? block.(header).(hdr_nTime)) in
  let start := mkProgress c 0 0 0 0 0 no_entries [] tree (GetSizeOfCompactSize (size block.(vtx))) [] [] in
  p <-- connect_txs n st fScriptChecks maintenance nHeight (GetBlockPos b) 0 block.(vtx) start;
  let c := PushAnchor p.(p_tree) p.(p_view) in
  _ <-- stop_if (NetworkUpgradeActive n.(consensus) nHeight ACTIVATE_HUSH
                 && negb (bool_decide (block.(header).(hdr_hashFinalSaplingRoot) = root p.(p_tree)))) 100 "bad-sapling-root-in-block";
  _ <-- stop_if (negb (IsBlockValueValid n pay nHeight (nExpectedMint n st nHeight p) (nMint n nHeight p))) 100 "bad-cb-amount";
  paid ← (if negb n.(in_IBD) then IsBlockPayeeValid n pay block nHeight else Some true);
  _ <-- stop_if (negb paid) 0 "bad-cb-payee";
  ok ← run_checks n p.(p_checks);
  _ <-- stop_if (negb ok) 100 "block-validation-failed";
  Some (Go (set_view c p)).

(** ** [ConnectBlock]: writing *)

(** The objects on disk, and the supply. *)
Record NodeDb := mkNodeDb { db_files : Files; db_index : Indexes; db_supply : CMoneySupply }.

(** The batches are written one after the other until one throws; [ok] says
    which of them are written. *)
Fixpoint run_writes (ok : nat → bool) (k : nat) (l : list (Indexes → Indexes)) (x : Indexes) : bool * Indexes :=
  match l with
  | [] => (true, x)
  | f :: l => if ok k then run_writes ok (S k) l (f x) else (false, x)
  end.

Definition registered (block : CBlock) (nHeight : Z) : list (CAddressIndexIteratorKey * CAddressOwnerIdentificator) :=
  omap (λ r, if uint_IsNull r.(reg_owner) || uint_IsNull r.(reg_key) then None
             else Some (mkIteratorKey r.(reg_type) r.(reg_key), mkOwnerIdentificator PUBKEY_ADDRESS r.(reg_owner) nHeight)) block.(vReg).

Definition connect_writes (st : Settings) (block : CBlock) (nHeight : Z) (p : Progress) : list (Indexes → Indexes) :=
  let es := p.(p_entries) in
  (if st.(fTxIndex) then [WriteTxIndex p.(p_vPos)] else []) ++
  (if st.(fAddressIndex) then
     [WriteAddressIndex invalid es.(n_address); UpdateAddressUnspentIndex es.(n_unspent); WriteAddressIdentification (registered block nHeight);
      WriteDelegationAddressIndex es.(n_delegation); UpdateAddressDelegationUnspentIndex es.(n_delegation_unspent)] else []) ++
  (if st.(fSpentIndex) then [UpdateSpentIndex es.(n_spent)] else []).

(** The block is connected, or was only checked; it is invalid; or the node
    stops, or an exception leaves the function, with what has been done so far. *)
Inductive connect_answer :=
  | BlockConnected (view : Cache) (db : NodeDb) (b : CBlockIndex)
  | BlockInvalid (r : option rejection)
  | NodeAborted (db : NodeDb) (b : CBlockIndex).

(** The undo data, unless the block has them already. *)
Definition write_undo (os : Os) (vtxundo : list (list Coin)) (hashPrev : base_uint) (b : CBlockIndex) (f : Files) :
    option (bool * CBlockIndex * Files) :=
  if have_undo b then b ← mark_connected b.(nUndoPos) b; Some (true, b, f)
  else
    '(r, f) ← store_undo linux messageStart os vtxundo b.(nFile) hashPrev f;
    match r with
    | IoOk pos => b ← mark_connected pos.(pos_nPos) b; Some (true, b, f)
    | _ => Some (false, b, f)
    end.

Definition write_connect (os : Os) (db_ok : nat → bool) (st : Settings) (block : CBlock) (hashPrev : base_uint) (p : Progress) (db : NodeDb)
    (b : CBlockIndex) : option connect_answer :=
  '(stored, b, f) ← write_undo os p.(p_vtxundo) hashPrev b db.(db_files);
  if negb stored then Some (NodeAborted (mkNodeDb f db.(db_index) db.(db_supply)) b)
  else
    let writes := connect_writes st block b.(nHeight) p in
    let '(written, x) := run_writes db_ok 0 writes db.(db_index) in
    if negb written then Some (NodeAborted (mkNodeDb f x db.(db_supply)) b)
    else
      let newTotal := i64 (db.(db_supply).(nSupply) + i64 (p.(p_nValueOut) - p.(p_nValueIn))) in
      let supply := {| nSupply := newTotal; supply_nHeight := b.(nHeight) |} in
      if negb (db_ok (length writes)) then Some (NodeAborted (mkNodeDb f x supply) b)
      else Some (BlockConnected (SetBestBlock b.(phashBlock) p.(p_view)) (mkNodeDb f (UpdateSupplyIndex b.(nHeight) newTotal x) supply) b).

(** [ConnectBlock]; [prev] is the entry of the parent. *)
Definition ConnectBlock (n : Node) (st : Settings) (pay : Payments) (os : Os) (db_ok : nat → bool) (block : CBlock) (b : CBlockIndex)
    (prev : option CBlockIndex) (fJustCheck : bool) (c : Cache) (db : NodeDb) : option connect_answer :=
  match (CheckBlock n block (negb fJustCheck) (negb fJustCheck) (negb fJustCheck)).1 with
  | Undefined => None
  | Reject (Some r) => Some (if r.(rj_corruption) then NodeAborted db b else BlockInvalid (Some r))
  | Reject None => Some (BlockInvalid None)
  | Accept =>
      let hashPrevBlock := match prev with Some q => q.(phashBlock) | None => uint_zero 8 end in
      let '(best, c) := GetBestBlock c in
      if negb (bool_decide (hashPrevBlock = best)) then None
      else if bool_decide (Block_GetHash block = n.(hashGenesisBlock)) then
        Some (BlockConnected (if fJustCheck then c else SetBestBlock b.(phashBlock) c) db b)
      else
        r ← check_connect n st pay block b c;
        match r with
        | Stop r => Some (BlockInvalid r)
        | Go p =>
            if fJustCheck then Some (BlockConnected p.(p_view) db b)
            else q ← prev; write_connect os db_ok st block q.(phashBlock) p db b
        end
  end.

(** ** [DisconnectBlock] *)

(** The local variables of the loop. *)
Record Undoing := mkUndoing {
  q_view : Cache;
  q_clean : bool;
  q_entries : Entries;
  q_nValueIn : Z;
  q_nValueOut : Z;
}.

(** The inputs from the last one to the first, each with its index and its undo
    record. *)
Fixpoint undo_inputs (n : Node) (st : Settings) (nHeight i : Z) (txhash : base_uint) (l : list (Z * CTxIn * Coin)) (q : Undoing) :
    option (option Undoing) :=
  match l with
  | [] => Some (Some q)
  | (j, txin, undo) :: l =>
      '(r, c) ← ApplyTxInUndo undo txin.(prevout) q.(q_view);
      if bool_decide (r = DISCONNECT_FAILED) then Some None
      else
        let clean := q.(q_clean) && negb (bool_decide (r = DISCONNECT_UNCLEAN)) in
        let '(coin, c) := if st.(fAddressIndex) then AccessCoin txin.(prevout) c else (coinEmpty, c) in
        let e := disconnect_input_entries n.(g_newP2CSRules) st.(fAddressIndex) st.(fSpentIndex) nHeight i txhash j txin.(prevout)
                   undo.(coin_nHeight) coin.(coin_out) in
        undo_inputs n st nHeight i txhash l
          (mkUndoing c clean (entries_app q.(q_entries) e)
             (if st.(fAddressIndex) then i64 (q.(q_nValueIn) + coin.(coin_out).(nValue)) else q.(q_nValueIn)) q.(q_nValueOut))
  end.

(** The entries of the outputs, from the last one to the first. *)
Definition undo_output_entries (n : Node) (nHeight i : Z) (txhash : base_uint) (vout : list CTxOut) : Entries :=
  entries_concat (reverse (imap (λ k out, disconnect_output_entries n.(g_newP2CSRules) nHeight i txhash (Z.of_nat k) out) vout)).

(** The inner [None] is [DISCONNECT_FAILED]. *)
Definition undo_tx (n : Node) (st : Settings) (nHeight : Z) (i : nat) (tx : CTransaction) (undo : option (list Coin)) (q : Undoing) :
    option (option Undoing) :=
  let hash := GetHash tx in
  let es := if st.(fAddressIndex) then undo_output_entries n nHeight (Z.of_nat i) hash tx.(vout) else no_entries in
  let '(clean, c) := disconnect_outputs hash 0 tx.(vout) q.(q_clean) q.(q_view) in
  out ← GetValueOut tx;
  let q := mkUndoing c clean (entries_app q.(q_entries) es) q.(q_nValueIn) (i64 (q.(q_nValueOut) + out)) in
  if IsCoinBase tx || ContainsAssets tx then Some (Some q)
  else
    vprevout ← undo;
    if negb (bool_decide (length vprevout = length tx.(vin))) then Some None
    else undo_inputs n st nHeight (Z.of_nat i) hash (reverse (zip (imap (λ j txin, (Z.of_nat j, txin)) tx.(vin)) vprevout)) q.

(** The transactions from the last one to the first, each with its index. *)
Fixpoint undo_txs (n : Node) (st : Settings) (nHeight : Z) (l : list (nat * CTransaction * option (list Coin))) (q : Undoing) :
    option (option Undoing) :=
  match l with
  | [] => Some (Some q)
  | (i, tx, undo) :: l =>
      r ← undo_tx n st nHeight i tx undo q;
      match r with None => Some None | Some q => undo_txs n st nHeight l q end
  end.

Definition disconnect_writes (st : Settings) (block : CBlock) (es : Entries) : list (Indexes → Indexes) :=
  (if st.(fSpentIndex) then [UpdateSpentIndex es.(n_spent)] else []) ++
  (if st.(fAddressIndex) then
     [EraseAddressIndex es.(n_address); EraseAddressDelegationIndex es.(n_delegation); UpdateAddressUnspentIndex es.(n_unspent);
      UpdateAddressDelegationUnspentIndex es.(n_delegation_unspent); EraseAddressIdentification (registered block 0).*1] else []).

Inductive disconnect_answer :=
  | BlockDisconnected (r : DisconnectResult) (view : Cache) (db : NodeDb)
  | DisconnectThrew (view : Cache) (db : NodeDb).

(** [DisconnectBlock]; [prev] is the entry of the parent.  The view of an answer
    [DISCONNECT_FAILED] is indeterminate, here the one that was given. *)
Definition DisconnectBlock (n : Node) (st : Settings) (os : Os) (db_ok : nat → bool) (block : CBlock) (b prev : CBlockIndex) (c : Cache)
    (db : NodeDb) : option disconnect_answer :=
  let failed := BlockDisconnected DISCONNECT_FAILED c db in
  let pos := GetUndoPos b in
  if DiskPos_IsNull pos then Some failed
  else match UndoReadFromDisk os pos prev.(phashBlock) db.(db_files) with
  | None => Some failed
  | Some vtxundo =>
      if negb (bool_decide (length vtxundo + 1 = length block.(vtx))%nat) then Some failed
      else
        let l := reverse (zip (imap (λ i tx, (i, tx)) block.(vtx)) (None :: (Some <$> vtxundo))) in
        r ← undo_txs n st b.(nHeight) l (mkUndoing c true no_entries 0 0);
        match r with
        | None => Some failed
        | Some q =>
            let writes := disconnect_writes st block q.(q_entries) in
            let '(written, x) := run_writes db_ok 0 writes db.(db_index) in
            if negb written then Some (DisconnectThrew q.(q_view) (mkNodeDb db.(db_files) x db.(db_supply)))
            else
              let newTotal := i64 (db.(db_supply).(nSupply) - i64 (q.(q_nValueOut) - q.(q_nValueIn))) in
              let supply := {| nSupply := newTotal; supply_nHeight := prev.(nHeight) |} in
              if negb (db_ok (length writes)) then Some (DisconnectThrew q.(q_view) (mkNodeDb db.(db_files) x supply))
              else
                let rt := if NetworkUpgradeActive n.(consensus) prev.(nHeight) ACTIVATE_HUSH then prev.(hashFinalSaplingRoot) else empty_root in
                c ← PopAnchor rt q.(q_view);
                Some (BlockDisconnected (if q.(q_clean) then DISCONNECT_OK else DISCONNECT_UNCLEAN) (SetBestBlock prev.(phashBlock) c)
                        (mkNodeDb db.(db_files) (UpdateSupplyIndex b.(nHeight) (-1) x) supply))
        end
  end.
End connect.
