(* ===== verification/NodeCoins.v ===== *)
(** * NodeCoins: the coins of the active chain ([validation.cpp])

    The parts of [ConnectTip] and [DisconnectTip] that act on the coins, the
    undo data and the indexes: a view over [pcoinsTip] is opened,
    [ConnectBlock] or [DisconnectBlock] is run on it, the view is flushed into
    [pcoinsTip], and the state is written to disk if necessary.  They implement
    the interface [ChainCoins] on which the choice of the active chain is built
    ([ChainState]), and satisfy its laws.

    A failing assertion or an exception that leaves these functions stops the
    node, like [AbortNode].  What the node is told from outside at each step
    (the clock, the masternodes, the block that the caller hands over, the file
    system, whether the state is to be written) is an argument that may be
    different at each step. *)

From S2P Require Import Prelude ArithUint256 Params Chain Pow Script Interpreter Serialize Transaction SigHash TxVerify Block Coins CoinsUpdate Merkle ChainState ChainActivate Standard Compressor BlockCheck BlockFiles AddressIndex Kernel ConnectBlock.
Local Open Scope Z_scope.

(** ** [ConnectBlock] does not report corrupted data *)

(** What a step of [ConnectBlock] stops with is not an answer of possible
    corruption. *)
Definition plain_stop {A} (r : option (res A)) : Prop :=
  match r with Some (Stop (Some x)) => x.(rj_corruption) = false | _ => True end.

Lemma plain_bind {A B} (m : option (res A)) (k : A → option (res B)) : plain_stop m → (∀ a, plain_stop (k a)) → plain_stop (rbind m k).
Proof. destruct m as [[]|]; cbn; auto. Qed.
Lemma plain_option {A B} (m : option A) (k : A → option (res B)) : (∀ a, plain_stop (k a)) → plain_stop (m ≫= k).
Proof. destruct m; cbn; auto. Qed.
Lemma plain_if c level reason : plain_stop (stop_if c level reason).
Proof. by destruct c. Qed.
Lemma plain_check r : plain_stop (stop_check r).
Proof. by destruct r as [[]|]. Qed.

Section node.
Context `{!SigCrypto} `{!AppendTree} `{!Secp256k1} {V : Type} `{!CCoinsView V}.
Context (invalid : COutPoint → bool) (linux : bool) (messageStart : list Z).
Abbreviation Tip := (CCoinsViewCache V).

Ltac plain_step :=
  match goal with
  | |- plain_stop (rbind _ _) => apply plain_bind; [|intros ?]
  | |- plain_stop (_ ≫= _) => apply plain_option; intros ?
  | |- plain_stop (stop_if _ _ _) => apply plain_if
  | |- plain_stop (stop_check _) => apply plain_check
  | |- plain_stop (let '_ := ?x in _) => destruct x
  | |- plain_stop (if ?c then _ else _) => destruct c
  | |- plain_stop (match ?x with _ => _ end) => destruct x
  | |- _ => progress (cbv beta zeta)
  | |- plain_stop (Some (Go _)) => exact I
  | |- plain_stop None => exact I
  end.

Lemma script_loop_plain n tx flags deferred i l (c : Tip) : plain_stop (script_loop n tx flags deferred i l c).
Proof.
  revert i c; induction l as [|txin l IH]; intros i c; cbn [script_loop]; [exact I|]. repeat plain_step; auto. all: cbn; by case_match.
Qed.
Lemma tx_inputs_plain n st fScriptChecks h i tx nFees nValueIn (c : Tip) : plain_stop (tx_inputs n st fScriptChecks h i tx nFees nValueIn c).
Proof. unfold tx_inputs, CheckInputs. repeat plain_step. apply script_loop_plain. Qed.
Lemma tx_available_plain maintenance tx nSigOps (c : Tip) : plain_stop (tx_available maintenance tx nSigOps c).
Proof. unfold tx_available. repeat plain_step. Qed.
Lemma connect_txs_plain n st fScriptChecks maintenance h pos i l (p : Progress) : plain_stop (connect_txs (V:=V) invalid n st fScriptChecks maintenance h pos i l p).
Proof.
  revert i p; induction l as [|tx l IH]; intros i p; cbn [connect_txs]; [exact I|]. apply plain_bind; [|auto].
  unfold connect_tx. apply plain_bind; [apply tx_available_plain|intros []]. apply plain_bind; [apply tx_inputs_plain|]. intros. repeat plain_step.
Qed.
Lemma check_connect_plain n st pay block b (c : Tip) : plain_stop (check_connect invalid n st pay block b c).
Proof. unfold check_connect. repeat (apply connect_txs_plain || plain_step). Qed.

(** ** The state and its operations *)

(** Whether [FlushStateToDisk] writes the coins, with the money supply that it
    reads back from the disk, unless the node shuts down or still downloads. *)
Inductive write_answer := NotNeeded | WriteFails | Writes (supply : option CMoneySupply).

(** What is told from outside at one step. *)
Record Surroundings := {
  e_node : Node;
  e_settings : Settings;
  e_payments : Payments;
  e_os : Os;
  e_db_ok : nat → bool;
  e_pblock : option CBlock;       (** the block that the caller hands over *)
  e_write : write_answer;
}.

(** [pcoinsTip], the objects on disk and the number of steps so far; a rejected
    block changes the tree and not the number. *)
Record NodeCoins := mkNodeCoins { nc_tip : Tip; nc_db : NodeDb; nc_steps : nat }.

Context (surroundings : nat → BlockTree → ptr → Surroundings).

(** [FlushStateToDisk], as far as the coins and the supply are concerned. *)
Definition FlushStateToDisk (e : Surroundings) (c : Tip) (db : NodeDb) : bool * Tip * NodeDb :=
  match e.(e_write) with
  | NotNeeded => (true, c, db)
  | WriteFails => (false, c, db)
  | Writes supply =>
      match Flush c with
      | Some (true, c) => (true, c, mkNodeDb db.(db_files) db.(db_index) (default db.(db_supply) supply))
      | Some (false, c) => (false, c, db)
      | None => (false, c, db)
      end
  end.

Definition read_block (e : Surroundings) (b : CBlockIndex) (f : Files) : option CBlock :=
  ReadBlockFromDisk_index e.(e_node).(consensus) (IsRegTestNet e.(e_node)) e.(e_os) b f.

(** The position of undo data that have been written before the node stopped. *)
Definition undo_written (b b' : CBlockIndex) : option Z :=
  if (b'.(nStatus) =? b.(nStatus)) && (b'.(nUndoPos) =? b.(nUndoPos)) then None else Some b'.(nUndoPos).

(** What [ConnectTip] does between the choice of the block and [UpdateTip]. *)
Definition connect_coins (t : BlockTree) (p : ptr) (c : NodeCoins) : connect_result NodeCoins :=
  let e := surroundings c.(nc_steps) t p in
  let stopped := SystemError c None in
  match t !! p with
  | None => stopped
  | Some b =>
      match (match e.(e_pblock) with Some block => Some block | None => read_block e b c.(nc_db).(db_files) end) with
      | None => stopped
      | Some block =>
          match ConnectBlock invalid linux messageStart e.(e_node) e.(e_settings) e.(e_payments) e.(e_os) e.(e_db_ok) block b
                  (q ← b.(pprev); t !! q) false (new_cache c.(nc_tip)) c.(nc_db) with
          | None | Some (BlockInvalid None) => stopped
          | Some (BlockInvalid (Some r)) => InvalidBlock r.(rj_corruption)
          | Some (NodeAborted db b') => SystemError (mkNodeCoins c.(nc_tip) db (S c.(nc_steps))) (undo_written b b')
          | Some (BlockConnected view db b') =>
              match Flush view with
              | Some (true, view) =>
                  let '(ok, tip, db) := FlushStateToDisk e view.(base) db in
                  let c := mkNodeCoins tip db (S c.(nc_steps)) in
                  if ok then Connected c b'.(nUndoPos) else SystemError c (undo_written b b')
              | _ => SystemError (mkNodeCoins c.(nc_tip) db (S c.(nc_steps))) (undo_written b b')
              end
          end
      end
  end.

(** What [DisconnectTip] does before [UpdateTip].  An unclean undo is a failure. *)
Definition disconnect_coins (t : BlockTree) (p : ptr) (c : NodeCoins) : disconnect_result NodeCoins :=
  let e := surroundings c.(nc_steps) t p in
  let stopped db := DisconnectFailed (mkNodeCoins c.(nc_tip) db (S c.(nc_steps))) in
  match t !! p, (b ← t !! p; q ← b.(pprev); t !! q) with
  | Some b, Some prev =>
      match read_block e b c.(nc_db).(db_files) with
      | None => stopped c.(nc_db)
      | Some block =>
          let '(best, view) := GetBestBlock (new_cache c.(nc_tip)) in
          if negb (bool_decide (best = b.(phashBlock))) then stopped c.(nc_db)
          else match DisconnectBlock e.(e_node) e.(e_settings) e.(e_os) e.(e_db_ok) block b prev view c.(nc_db) with
          | Some (BlockDisconnected DISCONNECT_OK view db) =>
              match Flush view with
              | Some (true, view) =>
                  let '(ok, tip, db) := FlushStateToDisk e view.(base) db in
                  let c := mkNodeCoins tip db (S c.(nc_steps)) in
                  if ok then Disconnected c else DisconnectFailed c
              | _ => stopped db
              end
          | Some (BlockDisconnected _ _ db) | Some (DisconnectThrew _ db) => stopped db
          | None => stopped c.(nc_db)
          end
      end
  | _, _ => stopped c.(nc_db)
  end.

#[export] Instance node_coins : ChainCoins NodeCoins := { coins_connect := connect_coins; coins_disconnect := disconnect_coins }.

(** ** The laws *)

(** The best block of [pcoinsTip] is the block of the entry. *)
Definition best_is (c : NodeCoins) (p : ptr) : Prop := ∃ (t : BlockTree) (b : CBlockIndex), t !! p = Some b ∧ c.(nc_tip).(hashBlock) = b.(phashBlock).

Lemma mark_connected_hash pos b b' : mark_connected pos b = Some b' → b'.(phashBlock) = b.(phashBlock).
Proof.
  unfold mark_connected, RaiseValidity. destruct (IsValid _ _) as [v|]; [|done]. cbn [mbind option_bind].
  destruct b. repeat case_match; cbn; by intros [= <-].
Qed.

Lemma write_undo_hash os vtxundo hashPrev b f ok b' f' : write_undo linux messageStart os vtxundo hashPrev b f = Some (ok, b', f') →
  b'.(phashBlock) = b.(phashBlock).
Proof.
  unfold write_undo. destruct (have_undo b).
  { destruct (mark_connected _ _) eqn:E; [|done]. intros [= _ <- _]. by apply mark_connected_hash in E. }
  destruct (store_undo _ _ _ _ _ _ _) as [[[pos| |] f1]|]; cbn [mbind option_bind]; [|by intros [= _ <- _]..|done].
  destruct (mark_connected _ _) eqn:E; [|done]. intros [= _ <- _]. by apply mark_connected_hash in E.
Qed.

Lemma ConnectBlock_best n st pay os db_ok block b prev (c : Tip) db view db' b' :
  ConnectBlock invalid linux messageStart n st pay os db_ok block b prev false c db = Some (BlockConnected view db' b') →
  view.(hashBlock) = b.(phashBlock).
Proof.
  unfold ConnectBlock. destruct ((CheckBlock _ _ _ _ _).1) as [|[r|]|]; [|by destruct (rj_corruption r)|done..].
  destruct (GetBestBlock c) as [best c1]. destruct (negb _); [done|]. case_bool_decide; [by intros [= <- _ _]|].
  destruct (check_connect _ _ _ _ _ _ _) as [[p|]|]; cbn [mbind option_bind]; [|done..]. destruct prev as [q|]; [|done]. cbn [mbind option_bind].
  unfold write_connect. destruct (write_undo _ _ _ _ _ _ _) as [[[ok b1] f]|] eqn:E; [|done]. cbn [mbind option_bind].
  apply write_undo_hash in E. destruct (negb ok); [done|]. destruct (run_writes _ _ _ _) as [w x]. destruct (negb w); [done|].
  destruct (negb _); [done|]. intros [= <- _ _]. done.
Qed.

Lemma ConnectBlock_plain n st pay os db_ok block b prev fJustCheck (c : Tip) db r :
  ConnectBlock invalid linux messageStart n st pay os db_ok block b prev fJustCheck c db = Some (BlockInvalid (Some r)) → r.(rj_corruption) = false.
Proof.
  unfold ConnectBlock. destruct ((CheckBlock _ _ _ _ _).1) as [|[r'|]|]; [|by destruct (rj_corruption r') eqn:?; intros [= <-]|done..].
  destruct (GetBestBlock c) as [best c1]. destruct (negb _); [done|]. case_bool_decide; [done|].
  pose proof (check_connect_plain n st pay block b c1) as Hp.
  destruct (check_connect _ _ _ _ _ _ _) as [[p|r']|]; cbn [mbind option_bind]; [|by intros [= ->]|done].
  destruct fJustCheck; [done|]. destruct prev as [q|]; [|done]. cbn [mbind option_bind]. unfold write_connect.
  destruct (write_undo _ _ _ _ _ _ _) as [[[ok b1] f]|]; [|done]. cbn [mbind option_bind]. destruct (negb ok); [done|].
  destruct (run_writes _ _ _ _) as [w x]. destruct (negb w); [done|]. by destruct (negb _).
Qed.

Lemma DisconnectBlock_best n st os db_ok block b prev (c : Tip) db r view db' : r ≠ DISCONNECT_FAILED →
  DisconnectBlock n st os db_ok block b prev c db = Some (BlockDisconnected r view db') → view.(hashBlock) = prev.(phashBlock).
Proof.
  intros Hr. unfold DisconnectBlock. destruct (DiskPos_IsNull _); [by intros [= <- _ _]|].
  destruct (UndoReadFromDisk _ _ _ _) as [undo|]; [|by intros [= <- _ _]]. destruct (negb _); [by intros [= <- _ _]|].
  destruct (undo_txs _ _ _ _ _) as [[q|]|]; cbn [mbind option_bind]; [|by intros [= <- _ _]|done].
  destruct (run_writes _ _ _ _) as [w x]. destruct (negb w); [done|]. destruct (negb _); [done|].
  destruct (PopAnchor _ _) as [c1|]; [|done]. cbn [mbind option_bind]. by intros [= _ <- _].
Qed.

Lemma Flush_best (view view' : CCoinsViewCache Tip) ok : Flush view = Some (ok, view') → view'.(base).(hashBlock) = view.(hashBlock).
Proof.
  unfold Flush. cbn [base_BatchWrite CCoinsViewCache_view]. unfold BatchWrite.
  do 3 (match goal with |- context [(batch_loop ?f ?l ?m ≫= ?k) ≫= _] => destruct (batch_loop f l m) end; cbn [mbind option_bind]; [|done]).
  by intros [= _ <-].
Qed.

Lemma FlushStateToDisk_best e (c tip : Tip) db ok db' : FlushStateToDisk e c db = (ok, tip, db') → tip.(hashBlock) = c.(hashBlock).
Proof.
  unfold FlushStateToDisk, Flush. destruct (e_write e) as [| |supply]; [by intros [= _ <- _]..|].
  destruct (base_BatchWrite _ _ _ _ _ _) as [[[] v]|]; cbn [mbind option_bind]; by intros [= _ <- _].
Qed.
End node.

(** [ConnectTip] and [DisconnectTip] keep the laws of the interface: the best
    block of the coins follows the tip, and corrupted data stop the node. *)
#[export] Instance node_coins_laws `{!SigCrypto} `{!AppendTree} `{!Secp256k1} {V : Type} `{!CCoinsView V} invalid linux messageStart
    (surroundings : nat → BlockTree → ptr → Surroundings) :
  @ChainCoinsLaws (NodeCoins (V:=V)) (node_coins invalid linux messageStart surroundings).
Proof.
  refine (Build_ChainCoinsLaws _ (node_coins invalid linux messageStart surroundings) best_is _ _ _).
  - intros t p b q c c' pos Hp _ _. cbn [coins_connect node_coins]. unfold connect_coins. rewrite Hp.
    destruct (match e_pblock _ with Some _ => _ | None => _ end) as [block|]; [|done].
    destruct (ConnectBlock _ _ _ _ _ _ _ _ _ _ _ _ _ _) as [[view db b'|[]|]|] eqn:E; [|done..].
    apply ConnectBlock_best in E. destruct (Flush view) as [[[] view']|] eqn:Ef; [|done..]. apply Flush_best in Ef.
    destruct (FlushStateToDisk _ _ _) as [[[] tip] db1] eqn:Ew; [|done]. apply FlushStateToDisk_best in Ew. intros [= <- _]. exists t, b. split; [done|]. cbn in *. congruence.
  - intros t p b q c c' Hp Hq _. cbn [coins_disconnect node_coins]. unfold disconnect_coins. rewrite Hp. cbn [mbind option_bind]. rewrite Hq.
    cbn [mbind option_bind]. destruct (t !! q) as [prev|] eqn:Ep; [|done]. destruct (read_block _ _ _) as [block|]; [|done].
    destruct (GetBestBlock _) as [best view0]. destruct (negb _); [done|].
    destruct (DisconnectBlock _ _ _ _ _ _ _ _ _) as [[[] view db|]|] eqn:E; [|done..].
    apply DisconnectBlock_best in E; [|done]. destruct (Flush view) as [[[] view']|] eqn:Ef; [|done..]. apply Flush_best in Ef.
    destruct (FlushStateToDisk _ _ _) as [[[] tip] db1] eqn:Ew; [|done]. apply FlushStateToDisk_best in Ew. intros [= <-]. exists t, prev. split; [done|]. cbn in *. congruence.
  - intros t p c. cbn [coins_connect node_coins]. unfold connect_coins. destruct (t !! p) as [b|]; [|done].
    destruct (match e_pblock _ with Some _ => _ | None => _ end) as [block|]; [|done].
    destruct (ConnectBlock _ _ _ _ _ _ _ _ _ _ _ _ _ _) as [[view db b'|[r|]|]|] eqn:E; [|intros [= Hr]|done..].
    + destruct (Flush view) as [[[] view']|]; [|done..]. by destruct (FlushStateToDisk _ _ _) as [[[] tip] db1].
    + apply ConnectBlock_plain in E. congruence.
Qed.
