(* ===== verification/ConnectSound.v ===== *)
(** * ConnectSound: what a connected block satisfies

    The effect of the checks of [ConnectBlock] on the set of coins, the
    conditions that the transactions of an accepted block satisfy, and what the
    check of the reward does and does not guarantee. *)

From stdpp Require Import strings.
From S2P Require Import Prelude ArithUint256 Params Chain Pow Script Interpreter Serialize Transaction SigHash TxVerify Block Coins CoinsDB CoinsUpdate Merkle ChainState Standard Compressor BlockCheck BlockSound BlockFiles AddressIndex Kernel ConnectBlock.
Local Open Scope Z_scope.

Local Arguments uint_IsNull : simpl never.

(** ** Results *)

Lemma rbind_go {A B} (m : option (res A)) (k : A → option (res B)) b : rbind m k = Some (Go b) → ∃ a, m = Some (Go a) ∧ k a = Some (Go b).
Proof. destruct m as [[a|r]|]; [|done|done]. cbn. eauto. Qed.
Lemma stop_if_go c level reason u : stop_if c level reason = Some (Go u) → c = false.
Proof. unfold stop_if. by destruct c. Qed.
Lemma stop_check_go c u : stop_check c = Some (Go u) → c = None.
Proof. unfold stop_check. by destruct c as [[]|]. Qed.

(** Takes a successful step apart. *)
Tactic Notation "go" hyp(H) ident(E) :=
  let a := fresh "a" in
  apply rbind_go in H as (a & E & H);
  first [apply stop_if_go in E; clear a | apply stop_check_go in E; clear a | idtac].
Tactic Notation "go" hyp(H) ident(E) "as" simple_intropattern(a) :=
  let x := fresh in apply rbind_go in H as (x & E & H); destruct x as a.

(** Removes the wrap-around of sums that fit, from the innermost one on. *)
Ltac unwrap :=
  repeat match goal with |- context [i64 ?x] =>
    lazymatch x with context [i64 _] => fail | _ => rewrite (i64_id x) by (unfold is_i64; lia) end end.

Section sound.
Context {SC : SigCrypto} {AT : AppendTree} {EC : Secp256k1} {V : Type} {CV : CCoinsView V} {VM : ViewModel V} {VC : ViewContract V}.
Context (invalid : COutPoint → bool).
Abbreviation Cache := (CCoinsViewCache V).
Abbreviation Prog := (Progress (V := V)).
Implicit Types (c : Cache) (s : UtxoSet).

(** ** Reads *)

(** The view answers as before. *)
Definition answers_as c c' : Prop := cache_inv c' ∧ cache_set c' ≡ cache_set c.

Lemma answers_refl c : cache_inv c → answers_as c c.
Proof. by split. Qed.
Lemma answers_trans c1 c2 c3 : answers_as c1 c2 → answers_as c2 c3 → answers_as c1 c3.
Proof. intros [_ E1] [H E2]. split; [done|]. by rewrite E2. Qed.
Lemma read_answers {A} (f : Cache → A * Cache) answer c a c' : reads f answer → cache_inv c → f c = (a, c') → answers_as c c' ∧ answer (cache_set c) a.
Proof. intros Hf Hc E. destruct (Hf c Hc) as (H1 & H2 & H3). rewrite E in *. done. Qed.

(** A coin that is there. *)
Lemma AccessCoin_there o c coin c' : cache_inv c → AccessCoin o c = (coin, c') → answers_as c c' ∧ unspent coin = s_coin (cache_set c) o.
Proof. intros Hc E. apply (read_answers _ _ _ _ _ (cache_AccessCoin o) Hc E). Qed.
Lemma unspent_is coin x : unspent coin = Some x → coin = x ∧ IsSpent coin = false.
Proof. unfold unspent. destruct (IsSpent coin); [done|]. by intros [= ->]. Qed.

(** ** The parts of a round *)

Lemma tx_available_go maintenance tx k c k' c' : cache_inv c → tx_available maintenance tx k c = Some (Go (k', c')) →
  answers_as c c' ∧ k' <= MAX_BLOCK_SIGOPS_CURRENT ∧ (spends_coins tx = true → inputs_unspent (cache_set c) tx.(vin) = true) ∧
  (IsCoinBase tx = false → shielded_allowed (cache_set c) tx = true).
Proof.
  intros Hc H. unfold tx_available in H. go H B1. go H B2. destruct (IsCoinBase tx) eqn:Ecb.
  { injection H as <- <-. split; [by apply answers_refl|]. split; [lia|]. unfold spends_coins. by rewrite Ecb. }
  destruct (HaveInputs tx c) as [have c1] eqn:E1. apply (read_answers _ _ _ _ _ (cache_HaveInputs tx) Hc) in E1 as [K1 A1]. go H B3.
  destruct (HaveShieldedRequirements tx c1) as [met c2] eqn:E2.
  apply (read_answers _ _ _ _ _ (cache_HaveShieldedRequirements tx) (proj1 K1)) in E2 as [K2 A2]. go H B4.
  destruct (view_P2SHSigOpCount tx c2) as [m c3] eqn:E3. go H B5. injection H as <- <-.
  rewrite Ecb in A1. cbn [orb] in A1. apply negb_false_iff in B3 as ->, B4 as ->. unfold spends_coins. rewrite Ecb. cbn [negb andb].
  assert (answers_as c2 c3) as K3.
  { unfold view_P2SHSigOpCount in E3. destruct (IsCoinBase tx || ContainsAssets tx); [injection E3 as <- <-; by apply answers_refl, K2|].
    clear - E3 K2 VC. revert E3. generalize 0. destruct K2 as [Hc2 _]. revert c2 Hc2. induction (vin tx) as [|i l IH]; intros c2 Hc2 k E3; cbn in E3.
    - injection E3 as <- <-. by apply answers_refl.
    - destruct (AccessCoin (prevout i) c2) as [coin c4] eqn:Ea. apply AccessCoin_there in Ea as [K4 _]; [|done].
      eapply answers_trans; [exact K4|]. eapply IH; [apply K4|exact E3]. }
  split; [by eapply answers_trans, answers_trans|]. split; [lia|]. destruct K1 as [_ Es1]. rewrite Es1 in A2.
  split; [|done]. intros Ha. by destruct (ContainsAssets tx).
Qed.

(** What the script of the input [i] has to do. *)
Definition check_of tx (i : nat) (coin : Coin) : CScriptCheck := mkScriptCheck coin.(coin_out).(scriptPubKey) coin.(coin_out).(nValue) tx i block_flags.
Definition script_ok (n : Node) s tx (i : nat) (txin : CTxIn) : Prop :=
  ∃ coin, s_coin s txin.(prevout) = Some coin ∧ run_check n (check_of tx i coin) = Some true.
(** A check was collected if it was not run. *)
Definition script_due (n : Node) (deferred : bool) s tx (checks : list CScriptCheck) (i : nat) (txin : CTxIn) : Prop :=
  ∃ coin, s_coin s txin.(prevout) = Some coin ∧
    if deferred then check_of tx i coin ∈ checks else run_check n (check_of tx i coin) = Some true.

Lemma script_loop_go n tx deferred i l c checks c' : cache_inv c → script_loop n tx block_flags deferred i l c = Some (Go (checks, c')) →
  answers_as c c' ∧ ∀ k txin, l !! k = Some txin → script_due n deferred (cache_set c) tx checks (i + k) txin.
Proof.
  revert i c checks. induction l as [|t l IH]; intros i c checks Hc H; cbn [script_loop] in H.
  { injection H as <- <-. split; [by apply answers_refl|done]. }
  destruct (AccessCoin (prevout t) c) as [coin c1] eqn:Ea. apply AccessCoin_there in Ea as [K1 Eu]; [|done].
  destruct (IsSpent coin) eqn:Es; [done|]. unfold unspent in Eu. rewrite Es in Eu. symmetry in Eu.
  assert (∀ checks', (∀ k txin, l !! k = Some txin → script_due n deferred (cache_set c1) tx checks' (S i + k) txin) →
    (if deferred then check_of tx i coin ∈ checks ∧ checks' ⊆ checks else run_check n (check_of tx i coin) = Some true ∧ checks' = checks) →
    ∀ k txin, (t :: l) !! k = Some txin → script_due n deferred (cache_set c) tx checks (i + k) txin) as Hcons.
  { intros checks' Hl Hhd [|k] txin Hk; cbn in Hk.
    - injection Hk as <-. exists coin. rewrite Nat.add_0_r. split; [done|]. by destruct deferred, Hhd.
    - destruct (Hl k txin Hk) as (coin' & Hc' & Hd). exists coin'. rewrite Nat.add_succ_r. destruct K1 as [_ E1]. rewrite E1 in Hc'.
      split; [done|]. destruct deferred; [set_solver|]. by destruct Hhd as [_ <-]. }
  destruct deferred.
  - go H E as [checks' c2]. injection H as <- <-. apply IH in E as [K2 Hl]; [|apply K1].
    split; [by eapply answers_trans|]. apply (Hcons checks'); [done|]. unfold check_of. set_solver.
  - fold (check_of tx i coin) in H. destruct (run_check n (check_of tx i coin)) as [[]|] eqn:Er; cbn [mbind option_bind] in H; [| |discriminate H].
    + apply IH in H as [K2 Hl]; [|apply K1]. split; [by eapply answers_trans|]. by apply (Hcons checks).
    + destruct (if negb _ then _ else _); by cbn in H.
Qed.

(** ** Money *)

(** The sums wrap around; all that matters is the exact sum modulo [2 ^ 64]. *)
Lemma i64_shift z k : i64 (z + k * 2 ^ 64) = i64 z.
Proof. unfold i64, swrap. replace (z + k * 2 ^ 64 + 2 ^ (64 - 1)) with (z + 2 ^ (64 - 1) + k * 2 ^ 64) by lia. by rewrite Z.mod_add. Qed.
Lemma i64_is z : ∃ k, i64 z = z + k * 2 ^ 64.
Proof.
  exists (- ((z + 2 ^ (64 - 1)) / 2 ^ 64)). unfold i64, swrap. pose proof (Z.div_mod (z + 2 ^ (64 - 1)) (2 ^ 64) ltac:(done)). lia.
Qed.
Lemma i64_add_l a b : i64 (i64 a + b) = i64 (a + b).
Proof. destruct (i64_is a) as [k ->]. rewrite <- (i64_shift (a + b) k). f_equal. lia. Qed.
Lemma i64_add_r a b : i64 (a + i64 b) = i64 (a + b).
Proof. rewrite Z.add_comm, i64_add_l. f_equal. lia. Qed.
Lemma i64_sub_l a b : i64 (i64 a - b) = i64 (a - b).
Proof. unfold Z.sub. apply i64_add_l. Qed.
Lemma i64_idem a : i64 (i64 a) = i64 a.
Proof. apply i64_id, i64_range. Qed.

Context (n : Node).
Hypothesis max_money : 0 <= n.(consensus).(nMaxMoneyOut) < 2 ^ 62.

(** The height of the next block, by the best block of the view. *)
Definition spend_height s : option Z := b ← find_index n s.(s_best); Some (b.(nHeight) + 1).

(** The inputs of a transaction that spends coins are unspent, mature and in
    the money range, and pay for the outputs unless it is a coinstake. *)
Definition inputs_pay s (tx : CTransaction) : Prop :=
  ∃ h, spend_height s = Some h ∧ Forall (input_ok n.(consensus) h s) tx.(vin) ∧ 0 <= sum_values s tx.(vin) <= n.(consensus).(nMaxMoneyOut) ∧
    (IsCoinStake tx = false → ∃ out, GetValueOut tx = Some out ∧ out <= sum_values s tx.(vin)).

Lemma CheckInputs_go tx fScriptChecks deferred c checks c' :
  cache_inv c → spends_coins tx = true → is_Some (GetValueOut tx) → CheckInputs n tx fScriptChecks block_flags deferred c = Some (Go (checks, c')) →
  answers_as c c' ∧ inputs_pay (cache_set c) tx ∧
  (fScriptChecks = true → ∀ k txin, tx.(vin) !! k = Some txin → script_due n deferred (cache_set c) tx checks k txin).
Proof.
  intros Hc Hsp Hout H. unfold CheckInputs in H. fold (spends_coins tx) in H. rewrite Hsp in H. unfold GetSpendHeight in H.
  destruct (GetBestBlock c) as [best c1] eqn:E1. apply (read_answers _ _ _ _ _ cache_GetBestBlock Hc) in E1 as [K1 ->].
  destruct (find_index n (s_best (cache_set c))) as [b|] eqn:Eb; [|discriminate H]. cbn [mbind option_bind] in H.
  destruct (CheckTxInputs_spec (consensus n) tx (nHeight b + 1) c1 (proj1 K1) Hsp max_money Hout) as (r & c2 & E2 & Hc2 & Es2 & Hr).
  rewrite E2 in H. cbn [mbind option_bind] in H. go H E3. apply Hr in E3 as (Hf & Hs & _ & Hcs).
  assert (answers_as c c2) as K2 by (eapply answers_trans; [exact K1|by split]). destruct K1 as [_ Es1].
  rewrite (inputs_ok_equiv _ _ _ _ _ Es1) in Hf. rewrite (sum_values_equiv _ _ _ Es1) in *.
  assert (inputs_pay (cache_set c) tx) as Hpay.
  { exists (nHeight b + 1). unfold spend_height. rewrite Eb. split_and!; [done|done|by eapply sum_values_nonneg|done|].
    intros Hn. destruct (Hcs Hn) as (out & ? & ? & _). eauto. }
  destruct fScriptChecks.
  - apply script_loop_go in H as [K3 Hd]; [|apply K2]. split; [by eapply answers_trans|]. split; [done|]. intros _ k txin Hk.
    destruct (Hd k txin Hk) as (coin & Hcoin & Hx). exists coin. destruct K2 as [_ E]. rewrite E in Hcoin. done.
  - injection H as <- <-. done.
Qed.

(** The sum that [GetValueIn] computes. *)
Lemma value_in_i64 s k l : value_in s k l = i64 (k + sum_values s l) ∨ l = [].
Proof.
  destruct l as [|i l]; [by right|left]. revert k i. induction l as [|j l IH]; intros k i; unfold value_in; cbn [fold_left sum_values].
  - by rewrite Z.add_0_r.
  - change (value_in s (i64 (k + input_value s i)) (j :: l) = i64 (k + (input_value s i + sum_values s (j :: l)))).
    rewrite IH, i64_add_l. f_equal. lia.
Qed.
Lemma value_in_add s a l : i64 (a + value_in s 0 l) = i64 (a + sum_values s l).
Proof. destruct (value_in_i64 s 0 l) as [-> | ->]; [|done]. by rewrite Z.add_0_l, i64_add_r. Qed.

Context (st : Settings).

(** The output that an input spends. *)
Definition prev_out s (txin : CTxIn) : CTxOut := match s_coin s txin.(prevout) with Some coin => coin.(coin_out) | None => TxOut_SetNull end.

(** The entries of the inputs, from the set. *)
Fixpoint input_entries s (nHeight i : Z) (txhash : base_uint) (j : Z) (l : list CTxIn) : Entries :=
  match l with
  | [] => no_entries
  | txin :: l =>
      entries_app (connect_input_entries n.(g_newP2CSRules) st.(fAddressIndex) st.(fSpentIndex) nHeight i txhash j txin.(prevout) (prev_out s txin))
        (input_entries s nHeight i txhash (j + 1) l)
  end.

Lemma input_entries_equiv s t nHeight i txhash j l : s ≡ t → input_entries s nHeight i txhash j l = input_entries t nHeight i txhash j l.
Proof. intros E. revert j. induction l as [|txin l IH]; intros j; [done|]. cbn. rewrite IH. unfold prev_out. by rewrite E. Qed.

Lemma input_entries_loop_spec nHeight i txhash j l c : cache_inv c → inputs_unspent (cache_set c) l = true →
  ∃ c', input_entries_loop n st nHeight i txhash j l c = (input_entries (cache_set c) nHeight i txhash j l, c') ∧ answers_as c c'.
Proof.
  revert j c. induction l as [|txin l IH]; intros j c Hc Hu; cbn [input_entries_loop input_entries]; [exists c; split; [done|by apply answers_refl]|].
  unfold inputs_unspent in Hu. cbn [forallb] in Hu. apply andb_true_iff in Hu as [Hi%bool_decide_eq_true Hu].
  destruct (AccessCoin (prevout txin) c) as [coin c1] eqn:Ea. apply AccessCoin_there in Ea as [K1 Eu]; [|done].
  destruct (IH (j + 1) c1 (proj1 K1)) as (c2 & -> & K2).
  { rewrite (inputs_unspent_proper _ _ (proj2 K1) _ _ eq_refl). done. }
  exists c2. split; [|by eapply answers_trans]. destruct Hi as [x Hx]. rewrite Hx in Eu. apply unspent_is in Eu as [-> _].
  do 2 f_equal; [unfold prev_out; by rewrite Hx|]. by apply input_entries_equiv, K1.
Qed.

(** What the inputs of a transaction add to the sums and to the entries. *)
Definition tx_in s (tx : CTransaction) : Z := if spends_coins tx then sum_values s tx.(vin) else 0.
Definition tx_fee_in s (tx : CTransaction) : Z := if IsCoinStake tx then 0 else tx_in s tx.
Definition tx_input_entries s (nHeight i : Z) (tx : CTransaction) : Entries :=
  if spends_coins tx && (st.(fAddressIndex) || st.(fSpentIndex)) then input_entries s nHeight i (GetHash tx) 0 tx.(vin) else no_entries.

Lemma tx_inputs_go fScriptChecks nHeight i tx nFees nValueIn c nFees' nValueIn' checks es c' :
  cache_inv c → is_i64 nFees → is_i64 nValueIn → is_Some (GetValueOut tx) → (spends_coins tx = true → inputs_unspent (cache_set c) tx.(vin) = true) →
  tx_inputs n st fScriptChecks nHeight i tx nFees nValueIn c = Some (Go (nFees', nValueIn', checks, es, c')) →
  answers_as c c' ∧ nFees' = i64 (nFees + tx_fee_in (cache_set c) tx) ∧ nValueIn' = i64 (nValueIn + tx_in (cache_set c) tx) ∧
  es = tx_input_entries (cache_set c) nHeight i tx ∧ (spends_coins tx = true → inputs_pay (cache_set c) tx) ∧
  (fScriptChecks = true → spends_coins tx = true →
     ∀ k txin, tx.(vin) !! k = Some txin → script_due n st.(nScriptCheckThreads) (cache_set c) tx checks k txin).
Proof.
  intros Hc Hf Hv Hout Hu H. unfold tx_inputs in H. fold (spends_coins tx) in H. unfold tx_fee_in, tx_in, tx_input_entries.
  destruct (spends_coins tx) eqn:Hsp; cbn [andb].
  2:{ injection H as <- <- <- <- <-. split; [by apply answers_refl|]. split_and!; [|by rewrite Z.add_0_r, i64_id|done|done|done].
      by destruct (IsCoinStake tx); rewrite Z.add_0_r, i64_id. }
  assert (IsCoinBase tx || ContainsAssets tx = false) as Ecb.
  { unfold spends_coins in Hsp. rewrite <- negb_orb in Hsp. by apply negb_true_iff. }
  destruct (if negb (IsCoinStake tx) then GetValueIn tx c else (0, c)) as [v c1] eqn:E1.
  assert (answers_as c c1 ∧ v = if IsCoinStake tx then 0 else value_in (cache_set c) 0 tx.(vin)) as [K1 ->].
  { destruct (IsCoinStake tx); cbn [negb] in E1; [injection E1 as <- <-; by split; [apply answers_refl|]|].
    apply (read_answers _ _ _ _ _ (cache_GetValueIn tx) Hc) in E1 as [K1 ->]. by rewrite Ecb. }
  destruct (GetValueIn tx c1) as [v c2] eqn:E2. apply (read_answers _ _ _ _ _ (cache_GetValueIn tx) (proj1 K1)) in E2 as [K2 ->].
  rewrite Ecb, (value_in_proper _ _ (proj2 K1) _ _ eq_refl _ _ eq_refl) in H. go H E3 as [checks' c3].
  assert (answers_as c c2) as K02 by by eapply answers_trans.
  apply CheckInputs_go in E3 as (K3 & Hpay & Hscripts); [|apply K2|done|done].
  assert (answers_as c c3) as K03 by by eapply answers_trans.
  destruct (if fAddressIndex st || fSpentIndex st then _ else _) as [es' c4] eqn:E4. injection H as <- <- <- <- <-.
  assert (answers_as c3 c4 ∧ es' = if fAddressIndex st || fSpentIndex st then input_entries (cache_set c) nHeight i (GetHash tx) 0 (vin tx) else no_entries)
    as [K4 ->].
  { destruct (fAddressIndex st || fSpentIndex st); [|injection E4 as <- <-; split; [by apply answers_refl, K3|done]].
    destruct (input_entries_loop_spec nHeight i (GetHash tx) 0 tx.(vin) c3 (proj1 K3)) as (c5 & E5 & K5).
    { rewrite (inputs_unspent_proper _ _ (proj2 K03) _ _ eq_refl). by apply Hu. }
    rewrite E4 in E5. injection E5 as -> ->. split; [done|]. by apply input_entries_equiv, K03. }
  split; [by eapply answers_trans|]. destruct K02 as [_ E02]. split_and!; [|apply value_in_add|done| |].
  - destruct (IsCoinStake tx); [by rewrite !Z.add_0_r|apply value_in_add].
  - intros _. destruct Hpay as (h & Hh & Hok & Hsum & Hcs). exists h.
    rewrite (inputs_ok_equiv _ _ _ _ _ E02), (sum_values_equiv _ _ _ E02) in *. unfold spend_height in *. by rewrite E02 in Hh.
  - intros Hs _ k txin Hk. destruct (Hscripts Hs k txin Hk) as (coin & Hcoin & ?). exists coin. by rewrite E02 in Hcoin.
Qed.

(** What the outputs add: banned ones count for nothing. *)
Fixpoint out_sum (txhash : base_uint) (k : Z) (l : list CTxOut) : Z :=
  match l with
  | [] => 0
  | out :: l => (if invalid (outpoint txhash k) then 0 else out.(nValue)) + out_sum txhash (k + 1) l
  end.
Fixpoint output_entries (nHeight i : Z) (txhash : base_uint) (k : Z) (l : list CTxOut) : Entries :=
  match l with
  | [] => no_entries
  | out :: l =>
      if invalid (outpoint txhash k) then output_entries nHeight i txhash (k + 1) l
      else entries_app (connect_output_entries n.(g_newP2CSRules) nHeight i txhash k out) (output_entries nHeight i txhash (k + 1) l)
  end.

Lemma output_loop_spec coinstake nHeight i txhash k l v f : is_i64 v → is_i64 f →
  output_loop invalid n coinstake nHeight i txhash k l v f =
    (i64 (v + out_sum txhash k l), i64 (f - (if coinstake then 0 else out_sum txhash k l)), output_entries nHeight i txhash k l).
Proof.
  revert k v f. induction l as [|out l IH]; intros k v f Hv Hf; cbn [output_loop out_sum output_entries].
  { rewrite Z.add_0_r, i64_id by done. by destruct coinstake; rewrite Z.sub_0_r, i64_id. }
  change {| prevout_hash := txhash; prevout_n := u32 k |} with (outpoint txhash k). destruct (invalid (outpoint txhash k)); [by apply IH|].
  rewrite IH; [|apply i64_range|destruct coinstake; [done|apply i64_range]]. rewrite i64_add_l, <- Z.add_assoc. f_equal. f_equal.
  destruct coinstake; [done|]. rewrite i64_sub_l. f_equal. lia.
Qed.

Definition tx_value (tx : CTransaction) : Z := out_sum (GetHash tx) 0 tx.(vout).
Definition tx_out (tx : CTransaction) : Z := if st.(fAddressIndex) then tx_value tx else 0.
Definition tx_fee_out (tx : CTransaction) : Z := if IsCoinStake tx then 0 else tx_out tx.
Definition tx_output_entries (nHeight i : Z) (tx : CTransaction) : Entries :=
  if st.(fAddressIndex) then output_entries nHeight i (GetHash tx) 0 tx.(vout) else no_entries.
Definition sum_outputs (l : list CTxOut) : Z := foldr (λ o a, o.(nValue) + a) 0 l.
Definition tx_assets (tx : CTransaction) : Z := if ContainsAssets tx then sum_outputs tx.(vout) else 0.

Lemma GetMultiMiningSpend_sum tx : GetMultiMiningSpend tx = i64 (sum_outputs tx.(vout)).
Proof.
  unfold GetMultiMiningSpend. assert (∀ a, is_i64 a → foldl (λ a o, i64 (a + o.(nValue))) a tx.(vout) = i64 (a + sum_outputs tx.(vout))) as H.
  { induction (vout tx) as [|o l IH]; intros a Ha; cbn; [by rewrite Z.add_0_r, i64_id|]. rewrite IH by apply i64_range.
    rewrite i64_add_l. f_equal. unfold sum_outputs. cbn. lia. }
  by rewrite H by done.
Qed.

(** ** One transaction *)

(** What the checks that come before [ConnectBlock] give: the outputs are new
    and well-formed and the inputs distinct. *)
Definition tx_fits (skip : bool) s (tx : CTransaction) : Prop :=
  Z.of_nat (length tx.(vout)) <= 2 ^ 32 ∧ Forall (λ o, TxOut_IsNull o = false) tx.(vout) ∧ new_outputs invalid skip (GetHash tx) (length tx.(vout)) s ∧
  (spends_coins tx = true → NoDup (prevout <$> tx.(vin))) ∧ is_Some (GetValueOut tx).
Definition heights_known s : Prop := ∀ o coin, s_coin s o = Some coin → coin.(coin_nHeight) ≠ 0.

Lemma tx_fits_connects skip s tx : tx_fits skip s tx → heights_known s → (spends_coins tx = true → inputs_unspent s tx.(vin) = true) →
  tx_connects invalid skip s tx.
Proof.
  intros (H1 & H2 & H3 & H4 & _) Hh Hu. split_and!; [done..|]. intros Hsp. split; [by apply H4|]. apply Forall_forall. intros i Hi.
  specialize (Hu Hsp). unfold inputs_unspent in Hu. rewrite forallb_forall in Hu. specialize (Hu i ltac:(by apply list_elem_of_In)).
  apply bool_decide_eq_true in Hu as [coin Hc]. exists coin. split; [done|]. by eapply Hh.
Qed.

Record counters_ok (p : Prog) : Prop := {
  co_fees : is_i64 p.(p_nFees);
  co_in : is_i64 p.(p_nValueIn);
  co_out : is_i64 p.(p_nValueOut);
  co_assets : is_i64 p.(p_nAssetValue);
}.

(** The conditions that an accepted transaction satisfies. *)
Record tx_accepted (fScriptChecks : bool) s (tx : CTransaction) (checks : list CScriptCheck) : Prop := {
  ta_inputs : spends_coins tx = true → inputs_pay s tx;
  ta_shielded : IsCoinBase tx = false → shielded_allowed s tx = true;
  ta_scripts : fScriptChecks = true → spends_coins tx = true →
    ∀ k txin, tx.(vin) !! k = Some txin → script_due n st.(nScriptCheckThreads) s tx checks k txin;
}.

(** The effect of one round, on the set and on the local variables. *)
Record tx_step (fScriptChecks : bool) (nHeight : Z) (i : nat) (tx : CTransaction) s (p p' : Prog) : Prop := {
  ts_inv : cache_inv p'.(p_view);
  ts_set : cache_set p'.(p_view) ≡ connect_set invalid nHeight (SkipInvalidUTXOS n nHeight) tx s;
  ts_connects : tx_connects invalid (SkipInvalidUTXOS n nHeight) s tx;
  ts_accepted : tx_accepted fScriptChecks s tx p'.(p_checks);
  ts_checks : p.(p_checks) ⊆ p'.(p_checks);
  ts_counters : counters_ok p';
  ts_fees : p'.(p_nFees) = i64 (p.(p_nFees) + (tx_fee_in s tx - tx_fee_out tx));
  ts_in : p'.(p_nValueIn) = i64 (p.(p_nValueIn) + tx_in s tx);
  ts_out : p'.(p_nValueOut) = i64 (p.(p_nValueOut) + tx_out tx);
  ts_assets : p'.(p_nAssetValue) = i64 (p.(p_nAssetValue) + tx_assets tx);
  ts_sigops : p'.(p_nSigOps) <= MAX_BLOCK_SIGOPS_CURRENT;
  ts_entries : p'.(p_entries) = entries_app p.(p_entries) (entries_app (tx_input_entries s nHeight (Z.of_nat i) tx) (tx_output_entries nHeight (Z.of_nat i) tx));
  ts_tree : append_outputs tx p.(p_tree) = Some p'.(p_tree);
  ts_undo : ∃ undo, p'.(p_vtxundo) = (match i with O => p.(p_vtxundo) | _ => p.(p_vtxundo) ++ [undo] end) ∧
    (spends_coins tx = true → unspent <$> undo = input_coins s tx.(vin));
}.

Lemma connect_tx_go fScriptChecks maintenance nHeight pos i tx p p' :
  cache_inv p.(p_view) → counters_ok p → tx_fits (SkipInvalidUTXOS n nHeight) (cache_set p.(p_view)) tx → heights_known (cache_set p.(p_view)) →
  connect_tx invalid n st fScriptChecks maintenance nHeight pos i tx p = Some (Go p') → tx_step fScriptChecks nHeight i tx (cache_set p.(p_view)) p p'.
Proof.
  intros Hc [Cf Ci Co Ca] Hfit Hh H. unfold connect_tx in H. go H E1 as [k c1].
  apply tx_available_go in E1 as (K1 & Hk & Hu & Hsh); [|done]. go H E2 as [[[[f v] checks] es] c2].
  apply tx_inputs_go in E2 as (K2 & -> & -> & -> & Hpay & Hscr); [|apply K1|done|done|apply Hfit|].
  2:{ intros Hsp. rewrite (inputs_unspent_proper _ _ (proj2 K1) _ _ eq_refl). by apply Hu. }
  assert (answers_as p.(p_view) c2) as K by by eapply answers_trans. destruct K1 as [_ E1]. set (s := cache_set p.(p_view)) in *.
  assert (tx_in (cache_set c1) tx = tx_in s tx) as Ein by (unfold tx_in; by rewrite (sum_values_equiv _ _ _ E1)).
  assert (tx_fee_in (cache_set c1) tx = tx_fee_in s tx) as Efee by (unfold tx_fee_in; by rewrite Ein).
  assert (tx_input_entries (cache_set c1) nHeight (Z.of_nat i) tx = tx_input_entries s nHeight (Z.of_nat i) tx) as Ees
    by (unfold tx_input_entries; by rewrite (input_entries_equiv _ _ _ _ _ _ _ E1)).
  rewrite Ein, Efee, Ees in H.
  destruct (if fAddressIndex st then _ else _) as [[o f'] es'] eqn:Eo.
  assert (o = i64 (p.(p_nValueOut) + tx_out tx) ∧ f' = i64 (p.(p_nFees) + (tx_fee_in s tx - tx_fee_out tx)) ∧
    es' = tx_output_entries nHeight (Z.of_nat i) tx) as (-> & -> & ->).
  { unfold tx_fee_out, tx_output_entries, tx_out, tx_value. destruct (fAddressIndex st).
    - rewrite output_loop_spec in Eo by (done || apply i64_range). injection Eo as <- <- <-. split_and!; [done| |done].
      rewrite i64_sub_l. f_equal. destruct (IsCoinStake tx); lia.
    - injection Eo as <- <- <-. rewrite Z.add_0_r, i64_id by done. split_and!; [done| |done]. destruct (IsCoinStake tx); f_equal; lia. }
  assert (tx_connects invalid (SkipInvalidUTXOS n nHeight) s tx) as Hcon by by apply tx_fits_connects.
  assert (tx_connects invalid (SkipInvalidUTXOS n nHeight) (cache_set c2) tx) as Hcon2.
  { destruct (block_connects_equiv invalid nHeight (SkipInvalidUTXOS n nHeight) s (cache_set c2) [tx]) as [? _]; [symmetry; apply K|by split|done]. }
  destruct (UpdateCoins_spec invalid nHeight (SkipInvalidUTXOS n nHeight) tx c2 (proj1 K) Hcon2) as (undo & c3 & Eu & Hc3 & Es3 & Hundo).
  rewrite Eu in H. cbn [mbind option_bind] in H.
  destruct (append_outputs tx (p_tree p)) as [tree|] eqn:Etree; [|discriminate H]. cbn [mbind option_bind] in H. injection H as <-.
  split; cbn [p_view p_nFees p_nSigOps p_nValueIn p_nValueOut p_nAssetValue p_entries p_vtxundo p_tree p_checks]; try done.
  - etrans; [exact Es3|]. apply connect_set_proper, K.
  - split; [| |].
    + intros Hsp. destruct (Hpay Hsp) as (h & Hhh & Hok & Hsum & Hcs). exists h.
      rewrite (inputs_ok_equiv _ _ _ _ _ E1), (sum_values_equiv _ _ _ E1) in *. unfold spend_height in *. by rewrite E1 in Hhh.
    + done.
    + intros Hs Hsp j txin Hj. destruct (Hscr Hs Hsp j txin Hj) as (coin & Hcoin & Hd). exists coin. rewrite E1 in Hcoin. split; [done|].
      destruct (nScriptCheckThreads st); [|done]. set_solver.
  - set_solver.
  - split; cbn; try apply i64_range. destruct (ContainsAssets tx); [apply i64_range|done].
  - unfold tx_assets. destruct (ContainsAssets tx); [by rewrite GetMultiMiningSpend_sum, i64_add_r|by rewrite Z.add_0_r, i64_id].
  - exists undo. split; [done|]. intros Hsp. rewrite Hundo by done. unfold input_coins. apply list_fmap_ext. intros j x _. apply s_coin_proper; [apply K|done].
Qed.

(** ** The loop *)

(** The tree after the transactions. *)
Fixpoint tree_after (tree : Tree) (vtx : list CTransaction) : option Tree :=
  match vtx with [] => Some tree | tx :: vtx => tree ← append_outputs tx tree; tree_after tree vtx end.

Section block.
Context (h : Z).
Abbreviation skip := (SkipInvalidUTXOS n h).
Abbreviation next tx s := (connect_set invalid h skip tx s).

(** A sum over the transactions, each in the set that it sees. *)
Fixpoint block_sum (f : UtxoSet → CTransaction → Z) s (vtx : list CTransaction) : Z :=
  match vtx with [] => 0 | tx :: vtx => f s tx + block_sum f (next tx s) vtx end.
Fixpoint block_fits s (vtx : list CTransaction) : Prop :=
  match vtx with [] => True | tx :: vtx => tx_fits skip s tx ∧ block_fits (next tx s) vtx end.
Fixpoint block_accepted (fScriptChecks : bool) s (vtx : list CTransaction) (checks : list CScriptCheck) : Prop :=
  match vtx with
  | [] => True
  | tx :: vtx => tx_accepted fScriptChecks s tx checks ∧ block_accepted fScriptChecks (next tx s) vtx checks
  end.
Fixpoint block_entries s (i : nat) (vtx : list CTransaction) : Entries :=
  match vtx with
  | [] => no_entries
  | tx :: vtx =>
      entries_app (entries_app (tx_input_entries s h (Z.of_nat i) tx) (tx_output_entries h (Z.of_nat i) tx)) (block_entries (next tx s) (S i) vtx)
  end.
(** The undo records hold the coins that the inputs had. *)
Fixpoint block_undo s (vtx : list CTransaction) (undo : list (list Coin)) : Prop :=
  match vtx, undo with
  | [], [] => True
  | tx :: vtx, u :: undo => (spends_coins tx = true → unspent <$> u = input_coins s tx.(vin)) ∧ block_undo (next tx s) vtx undo
  | _, _ => False
  end.

Lemma script_due_equiv s t deferred tx checks checks' k txin : s ≡ t → checks ⊆ checks' →
  script_due n deferred s tx checks k txin → script_due n deferred t tx checks' k txin.
Proof. intros E Hs (coin & Hc & Hd). exists coin. rewrite E in Hc. split; [done|]. destruct deferred; [set_solver|done]. Qed.
Lemma inputs_pay_equiv s t tx : s ≡ t → inputs_pay s tx → inputs_pay t tx.
Proof.
  intros E (x & Hx & Hok & Hsum & Hcs). exists x. unfold spend_height in *. rewrite E in Hx.
  by rewrite <- (inputs_ok_equiv _ _ _ _ _ E), <- (sum_values_equiv _ _ _ E).
Qed.
Lemma tx_accepted_equiv fS s t tx checks checks' : s ≡ t → checks ⊆ checks' → tx_accepted fS s tx checks → tx_accepted fS t tx checks'.
Proof.
  intros E Hs [H1 H2 H3]. split.
  - intros Hsp. by eapply inputs_pay_equiv, H1.
  - intros Hcb. rewrite <- (shielded_allowed_proper _ _ E _ _ eq_refl). by apply H2.
  - intros Hf Hsp k txin Hk. eapply script_due_equiv; [done|done|]. by apply H3.
Qed.
Lemma tx_fits_equiv s t tx : s ≡ t → tx_fits skip s tx → tx_fits skip t tx.
Proof.
  intros E (H1 & H2 & H3 & H4 & H5). split_and!; [done|done| |done|done]. intros k Hk. rewrite <- E. by apply H3.
Qed.

#[local] Instance next_proper tx : Proper ((≡) ==> (≡)) (connect_set invalid h skip tx).
Proof. intros s t E. by apply connect_set_proper. Qed.

Lemma block_fits_equiv s t vtx : s ≡ t → block_fits s vtx → block_fits t vtx.
Proof. revert s t. induction vtx as [|tx vtx IH]; [done|]. intros s t E [H1 H2]. split; [by eapply tx_fits_equiv|]. eapply IH; [|done]. by rewrite E. Qed.
Lemma block_accepted_equiv fS s t vtx checks : s ≡ t → block_accepted fS s vtx checks → block_accepted fS t vtx checks.
Proof.
  revert s t. induction vtx as [|tx vtx IH]; [done|]. intros s t E [H1 H2]. split; [by eapply tx_accepted_equiv|]. eapply IH; [|done]. by rewrite E.
Qed.
Lemma block_sum_equiv f s t vtx : (∀ s t tx, s ≡ t → f s tx = f t tx) → s ≡ t → block_sum f s vtx = block_sum f t vtx.
Proof. intros Hf. revert s t. induction vtx as [|tx vtx IH]; [done|]. intros s t E. cbn. rewrite (Hf s t) by done. f_equal. apply IH. by rewrite E. Qed.
Lemma tx_in_equiv s t tx : s ≡ t → tx_in s tx = tx_in t tx.
Proof. intros E. unfold tx_in. by rewrite (sum_values_equiv _ _ _ E). Qed.
Lemma tx_input_entries_equiv s t k i tx : s ≡ t → tx_input_entries s k i tx = tx_input_entries t k i tx.
Proof. intros E. unfold tx_input_entries. by rewrite (input_entries_equiv _ _ _ _ _ _ _ E). Qed.
Lemma block_entries_equiv s t i vtx : s ≡ t → block_entries s i vtx = block_entries t i vtx.
Proof.
  revert s t i. induction vtx as [|tx vtx IH]; [done|]. intros s t i E. cbn. rewrite (tx_input_entries_equiv s t) by done. f_equal. apply IH. by rewrite E.
Qed.
Lemma block_undo_equiv s t vtx undo : s ≡ t → block_undo s vtx undo → block_undo t vtx undo.
Proof.
  revert s t undo. induction vtx as [|tx vtx IH]; intros s t [|u undo] E; try done. cbn. intros [H1 H2]. split; [|eapply IH; [|done]; by rewrite E].
  intros Hsp. rewrite H1 by done. unfold input_coins. apply list_fmap_ext. intros j x _. by rewrite E.
Qed.

Lemma entries_app_assoc x y z : entries_app x (entries_app y z) = entries_app (entries_app x y) z.
Proof. unfold entries_app. by cbn; rewrite !app_assoc. Qed.
Lemma entries_app_nil_r x : entries_app x no_entries = x.
Proof. destruct x. unfold entries_app. by cbn; rewrite !app_nil_r. Qed.

Lemma heights_known_next s tx : u32 h ≠ 0 → Z.of_nat (length tx.(vout)) <= 2 ^ 32 → heights_known s → heights_known (next tx s).
Proof.
  intros Hh Hl Hs o coin. unfold connect_set. set (s0 := if spends_coins tx then _ else s).
  assert (heights_known s0) as Hs0.
  { subst s0. destruct (spends_coins tx); [|done]. intros o' c'. cbn. case_decide; [done|apply Hs]. }
  destruct (outputs_cases (GetHash tx) 0 (length tx.(vout)) o) as [(k & Hk & ->)|Ho]; [lia|lia| |].
  - destruct (lookup_lt_is_Some_2 _ k Hk) as [x Hx]. rewrite (put_outputs_at _ _ _ _ _ _ _ _ x) by (lia || done).
    case_match; [done|]. destruct (IsUnspendable (scriptPubKey x)) eqn:Hu; [by apply Hs0|]. by intros [= <-].
  - rewrite put_outputs_other by (lia || done). apply Hs0.
Qed.

(** The effect of the whole loop. *)
Record txs_run (fScriptChecks : bool) (i : nat) (vtx : list CTransaction) s (p p' : Prog) : Prop := {
  tr_inv : cache_inv p'.(p_view);
  tr_set : cache_set p'.(p_view) ≡ connect_sets invalid h skip vtx s;
  tr_connects : block_connects invalid h skip s vtx;
  tr_accepted : block_accepted fScriptChecks s vtx p'.(p_checks);
  tr_checks : p.(p_checks) ⊆ p'.(p_checks);
  tr_counters : counters_ok p';
  tr_fees : p'.(p_nFees) = i64 (p.(p_nFees) + block_sum (λ s tx, tx_fee_in s tx - tx_fee_out tx) s vtx);
  tr_in : p'.(p_nValueIn) = i64 (p.(p_nValueIn) + block_sum tx_in s vtx);
  tr_out : p'.(p_nValueOut) = i64 (p.(p_nValueOut) + block_sum (λ _, tx_out) s vtx);
  tr_assets : p'.(p_nAssetValue) = i64 (p.(p_nAssetValue) + block_sum (λ _, tx_assets) s vtx);
  tr_sigops : p.(p_nSigOps) <= MAX_BLOCK_SIGOPS_CURRENT → p'.(p_nSigOps) <= MAX_BLOCK_SIGOPS_CURRENT;
  tr_entries : p'.(p_entries) = entries_app p.(p_entries) (block_entries s i vtx);
  tr_tree : tree_after p.(p_tree) vtx = Some p'.(p_tree);
  tr_undo : ∃ undo, p'.(p_vtxundo) = p.(p_vtxundo) ++ (match i with O => drop 1 undo | _ => undo end) ∧ block_undo s vtx undo;
}.

Lemma connect_txs_go fScriptChecks maintenance pos i vtx p p' :
  u32 h ≠ 0 → cache_inv p.(p_view) → counters_ok p → block_fits (cache_set p.(p_view)) vtx → heights_known (cache_set p.(p_view)) →
  connect_txs invalid n st fScriptChecks maintenance h pos i vtx p = Some (Go p') → txs_run fScriptChecks i vtx (cache_set p.(p_view)) p p'.
Proof.
  intros Hh. revert i p. induction vtx as [|tx vtx IH]; intros i p Hc Hco Hfit Hk H; cbn [connect_txs] in H.
  { injection H as <-. split; cbn; try done; try (rewrite Z.add_0_r; symmetry; apply i64_id; apply Hco).
    - by rewrite entries_app_nil_r.
    - exists []. destruct i; by rewrite app_nil_r. }
  apply rbind_go in H as (p1 & E1 & H). destruct Hfit as [Hf1 Hf2]. pose proof (connect_tx_go _ _ _ _ _ _ _ _ Hc Hco Hf1 Hk E1) as T.
  set (s := cache_set p.(p_view)) in *. pose proof (ts_set _ _ _ _ _ _ _ T) as Es.
  apply IH in H as R; [|apply T|apply T|by eapply block_fits_equiv|].
  2:{ intros o coin Ho. rewrite Es in Ho. eapply heights_known_next; [done|apply Hf1|exact Hk|exact Ho]. }
  destruct T as [T1 T2 T3 T4 T5 T6 T7 T8 T9 T10 T11 T12 T13 (u & T14 & T15)].
  destruct R as [R1 R2 R3 R4 R5 R6 R7 R8 R9 R10 R11 R12 R13 (us & R14 & R15)].
  split; cbn [block_connects block_accepted block_sum block_entries connect_sets fold_left foldl]; try done.
  - etrans; [exact R2|]. by apply connect_sets_proper.
  - split; [done|]. by eapply block_connects_equiv.
  - split; [by eapply tx_accepted_equiv|by eapply block_accepted_equiv].
  - set_solver.
  - rewrite R7, T7, i64_add_l. f_equal. rewrite (block_sum_equiv _ _ (next tx s)); [lia| |done].
    intros x y t E. unfold tx_fee_in. by rewrite (tx_in_equiv x y).
  - rewrite R8, T8, i64_add_l. f_equal. rewrite (block_sum_equiv _ _ (next tx s)); [lia| |done]. intros x y t E. by apply tx_in_equiv.
  - rewrite R9, T9, i64_add_l. f_equal. rewrite (block_sum_equiv _ _ (next tx s)); [lia|done|done].
  - rewrite R10, T10, i64_add_l. f_equal. rewrite (block_sum_equiv _ _ (next tx s)); [lia|done|done].
  - intros _. by apply R11.
  - rewrite R12, T12, (block_entries_equiv _ (next tx s)) by done. symmetry. apply entries_app_assoc.
  - cbn [tree_after]. by rewrite T13.
  - exists (u :: us). rewrite R14, T14. split; [destruct i; [done|by rewrite <- app_assoc]|].
    split; [done|]. by eapply block_undo_equiv.
Qed.
End block.

(** ** The block *)

Lemma run_checks_all l ck : run_checks n l = Some true → ck ∈ l → run_check n ck = Some true.
Proof.
  induction l as [|x l IH]; cbn; [by intros _ ?%elem_of_nil|]. destruct (run_check n x) as [ok|] eqn:E; [|done]. cbn [mbind option_bind].
  destruct (run_checks n l) as [rest|]; [|done]. cbn [mbind option_bind]. intros [= [-> ->]%andb_true_iff] [->|H]%elem_of_cons; [done|by apply IH].
Qed.

(** A transaction of an accepted block. *)
Record tx_sound (fScriptChecks : bool) s (tx : CTransaction) : Prop := {
  so_inputs : spends_coins tx = true → inputs_pay s tx;
  so_shielded : IsCoinBase tx = false → shielded_allowed s tx = true;
  so_scripts : fScriptChecks = true → spends_coins tx = true → ∀ k txin, tx.(vin) !! k = Some txin → script_ok n s tx k txin;
}.
Fixpoint block_sound (h : Z) (fScriptChecks : bool) s (vtx : list CTransaction) : Prop :=
  match vtx with
  | [] => True
  | tx :: vtx => tx_sound fScriptChecks s tx ∧ block_sound h fScriptChecks (connect_set invalid h (SkipInvalidUTXOS n h) tx s) vtx
  end.

Lemma accepted_sound h fS s vtx checks : run_checks n checks = Some true → block_accepted h fS s vtx checks → block_sound h fS s vtx.
Proof.
  intros Hr. revert s. induction vtx as [|tx vtx IH]; intros s; [done|]. intros [[H1 H2 H3] Hb]. split; [|by apply IH].
  split; [done|done|]. intros Hf Hsp k txin Hk. destruct (H3 Hf Hsp k txin Hk) as (coin & Hc & Hd). exists coin. split; [done|].
  destruct (nScriptCheckThreads st); [|done]. by eapply run_checks_all.
Qed.

Hypothesis root_not_null : ∀ t, uint_IsNull (root t) = false.

(** What a block has to satisfy to pass the checks of [ConnectBlock]. *)
Record checked (pay : Payments) (block : CBlock) (b : CBlockIndex) s (p : Prog) (tree : Tree) (total : Z) : Prop := {
  ck_run : ∃ q0 q, txs_run b.(nHeight) (total <=? b.(nHeight)) 0 block.(vtx) s q0 q ∧
    q0.(p_nFees) = 0 ∧ q0.(p_nValueIn) = 0 ∧ q0.(p_nValueOut) = 0 ∧ q0.(p_nAssetValue) = 0 ∧ q0.(p_entries) = no_entries ∧
    q0.(p_vtxundo) = [] ∧ q0.(p_tree) = tree ∧ p = set_view (PushAnchor q.(p_tree) q.(p_view)) q;
  ck_total : GetTotalBlocksEstimate n = Some total;
  ck_tree : root tree = s_root s;
  ck_inv : cache_inv p.(p_view);
  ck_after : tree_after tree block.(vtx) = Some p.(p_tree);
  ck_set : cache_set p.(p_view) ≡ push_set p.(p_tree) (connect_sets invalid b.(nHeight) (SkipInvalidUTXOS n b.(nHeight)) block.(vtx) s);
  ck_sound : block_sound b.(nHeight) (total <=? b.(nHeight)) s block.(vtx);
  ck_root : NetworkUpgradeActive n.(consensus) b.(nHeight) ACTIVATE_HUSH = true →
    block.(header).(hdr_hashFinalSaplingRoot) = root p.(p_tree);
  ck_era : NetworkUpgradeActive n.(consensus) b.(nHeight) ACTIVATE_POS = CBlock_IsProofOfStake block;
  ck_value : IsBlockValueValid n pay b.(nHeight) (nExpectedMint n st b.(nHeight) p) (nMint n b.(nHeight) p) = true;
  ck_payee : n.(in_IBD) = false → IsBlockPayeeValid n pay block b.(nHeight) = Some true;
}.

Lemma txs_run_equiv h fS i vtx s t (q0 q : Prog) : s ≡ t → txs_run h fS i vtx s q0 q → txs_run h fS i vtx t q0 q.
Proof.
  intros Es [R1 R2 R3 R4 R5 R6 R7 R8 R9 R10 R11 R12 R13 (us & R14 & R15)]. split; try done.
  - etrans; [exact R2|]. by apply connect_sets_proper.
  - by eapply block_connects_equiv.
  - by eapply block_accepted_equiv.
  - rewrite R7. do 2 f_equal. apply block_sum_equiv; [|done]. intros x y tx E. unfold tx_fee_in. by rewrite (tx_in_equiv x y).
  - rewrite R8. do 2 f_equal. apply block_sum_equiv; [|done]. intros x y tx E. by apply tx_in_equiv.
  - rewrite R9. do 2 f_equal. by apply block_sum_equiv.
  - rewrite R10. do 2 f_equal. by apply block_sum_equiv.
  - rewrite R12. f_equal. by apply block_entries_equiv.
  - exists us. split; [done|]. by eapply block_undo_equiv.
Qed.

Lemma block_sound_equiv h fS s t vtx : s ≡ t → block_sound h fS s vtx → block_sound h fS t vtx.
Proof.
  revert s t. induction vtx as [|tx vtx IH]; [done|]. intros s t E [[H1 H2 H3] Hb]. split; [|eapply IH; [|exact Hb]; by apply connect_set_proper]. split.
  - intros Hsp. by eapply inputs_pay_equiv, H1.
  - intros Hcb. rewrite <- (shielded_allowed_proper _ _ E _ _ eq_refl). by apply H2.
  - intros Hf Hsp k txin Hk. destruct (H3 Hf Hsp k txin Hk) as (coin & Hc & Hr). exists coin. by rewrite E in Hc.
Qed.

Lemma checked_equiv pay block b s t p tree total : s ≡ t → checked pay block b s p tree total → checked pay block b t p tree total.
Proof.
  intros E [(q0 & q & R & H) H2 H3 H4 H4' H5 H6 H7 H8 H9 H10]. split; try done.
  - exists q0, q. split; [by eapply txs_run_equiv|done].
  - by rewrite <- (s_root_proper _ _ E).
  - etrans; [exact H5|]. by apply push_set_equiv, connect_sets_proper.
  - by eapply block_sound_equiv.
Qed.

Lemma check_connect_go pay block b c p : cache_inv c → u32 b.(nHeight) ≠ 0 → block_fits b.(nHeight) (cache_set c) block.(vtx) → heights_known (cache_set c) →
  check_connect invalid n st pay block b c = Some (Go p) → ∃ tree total, checked pay block b (cache_set c) p tree total.
Proof.
  intros Hc Hh Hfit Hk H. unfold check_connect in H. go H E1. go H E2. go H E3.
  destruct (GetTotalBlocksEstimate n) as [total|] eqn:Et; [|discriminate H]. cbn [mbind option_bind] in H.
  destruct (GetBestAnchor c) as [anchor c1] eqn:Ea. apply (read_answers _ _ _ _ _ cache_GetBestAnchor Hc) in Ea as [K1 ->].
  destruct (GetSaplingAnchorAt _ c1) as [r c2] eqn:Er. apply (read_answers _ _ _ _ _ (cache_GetSaplingAnchorAt _) (proj1 K1)) in Er as [K2 [_ Hr]].
  destruct r as [tree|]; [|discriminate H]. cbn [mbind option_bind] in H. specialize (Hr tree eq_refl).
  assert (answers_as c c2) as K by by eapply answers_trans.
  set (start := mkProgress c2 0 0 0 0 0 no_entries [] tree _ [] []) in H. apply rbind_go in H as (q & Eq & H).
  assert (cache_set c2 ≡ cache_set c) as Es by apply K.
  apply connect_txs_go in Eq as R; [|done|apply K|by split|by eapply block_fits_equiv|].
  2:{ intros o coin Ho. change (cache_set (p_view start)) with (cache_set c2) in Ho. rewrite Es in Ho. by eapply Hk. }
  go H E4. go H E5. destruct (if negb (in_IBD n) then _ else _) as [paid|] eqn:Ep; [|discriminate H]. cbn [mbind option_bind] in H. go H E6.
  destruct (run_checks n (p_checks q)) as [ok|] eqn:Ec; [|discriminate H]. cbn [mbind option_bind] in H. go H E7. injection H as <-.
  apply negb_false_iff in E5, E6 as ->, E7 as ->. exists tree, total.
  assert (txs_run b.(nHeight) (total <=? b.(nHeight)) 0 block.(vtx) (cache_set c) start q) as R'
    by (eapply txs_run_equiv; [exact Es|exact R]).
  pose proof (tr_tree _ _ _ _ _ _ _ R') as Etree. cbn [p_tree start] in Etree.
  destruct (PushAnchor_spec q.(p_tree) q.(p_view) (tr_inv _ _ _ _ _ _ _ R') (root_not_null _)) as [Hp Esp].
  split; try done.
  - exists start, q. by split_and!.
  - cbn [set_view p_view]. etrans; [exact Esp|]. apply push_set_equiv, R'.
  - eapply accepted_sound; [exact Ec|apply R'].
  - intros Hact. rewrite Hact in E4. cbn [andb] in E4. apply negb_false_iff, bool_decide_eq_true in E4. by rewrite E4.
  - unfold CBlock_IsProofOfWork in E2. destruct (NetworkUpgradeActive _ _ _), (CBlock_IsProofOfStake block); done.
  - intros Hibd. rewrite Hibd in Ep. cbn [negb] in Ep. done.
Qed.

Context (linux : bool) (messageStart : list Z).

Lemma SetBestBlock_set hash c : cache_inv c → uint_IsNull hash = false →
  cache_inv (SetBestBlock hash c) ∧ cache_set (SetBestBlock hash c) ≡ put_best hash (cache_set c).
Proof.
  intros (?&?&?&?) Hn. split; [by split_and!|]. split_and!; cbn; try done. by rewrite Hn.
Qed.

(** A run in which every batch is written. *)
Lemma run_writes_all ok k l x y : run_writes ok k l x = (true, y) → y = foldl (λ x f, f x) x l.
Proof. revert k x. induction l as [|f l IH]; intros k x; cbn; [by intros [= <-]|]. destruct (ok k); [apply IH|done]. Qed.

Lemma mark_connected_same pos b b' : mark_connected pos b = Some b' → b'.(phashBlock) = b.(phashBlock) ∧ b'.(nHeight) = b.(nHeight).
Proof.
  unfold mark_connected. destruct (IsValid b BLOCK_VALID_SCRIPTS) as [valid|]; [|done]. cbn [mbind option_bind].
  destruct (negb (have_undo b) || negb valid); [|by intros [= <-]]. set (b1 := if negb (have_undo b) then _ else b).
  assert (b1.(phashBlock) = b.(phashBlock) ∧ b1.(nHeight) = b.(nHeight)) as [<- <-] by (subst b1; destruct (negb (have_undo b)); [by destruct b|done]).
  destruct (RaiseValidity b1 BLOCK_VALID_SCRIPTS) as [[u b2]|] eqn:E; [|done]. cbn [mbind option_bind]. intros [= <-]. unfold RaiseValidity in E.
  clearbody b1. destruct b1. repeat case_match; by simplify_eq.
Qed.

Lemma write_undo_same os undo hash b f b' f' : write_undo linux messageStart os undo hash b f = Some (true, b', f') →
  b'.(phashBlock) = b.(phashBlock) ∧ b'.(nHeight) = b.(nHeight).
Proof.
  unfold write_undo. destruct (have_undo b).
  - destruct (mark_connected _ b) as [b1|] eqn:E; [|done]. intros [= <- <-]. by eapply mark_connected_same.
  - destruct (store_undo _ _ _ _ _ _ _) as [[[pos| |] f1]|]; try done. cbn [mbind option_bind].
    destruct (mark_connected _ b) as [b1|] eqn:E; [|done]. intros [= <- <-]. by eapply mark_connected_same.
Qed.

Lemma write_connect_connected os db_ok block hash (p : Prog) db b view' db' b' :
  write_connect invalid linux messageStart os db_ok st block hash p db b = Some (BlockConnected view' db' b') →
  b'.(phashBlock) = b.(phashBlock) ∧ b'.(nHeight) = b.(nHeight) ∧ view' = SetBestBlock b.(phashBlock) p.(p_view) ∧
  let total := i64 (db.(db_supply).(nSupply) + i64 (p.(p_nValueOut) - p.(p_nValueIn))) in
  write_undo linux messageStart os p.(p_vtxundo) hash b db.(db_files) = Some (true, b', db'.(db_files)) ∧
  db'.(db_supply) = {| nSupply := total; supply_nHeight := b.(nHeight) |} ∧
  db'.(db_index) = UpdateSupplyIndex b.(nHeight) total (foldl (λ x f, f x) db.(db_index) (connect_writes invalid st block b.(nHeight) p)).
Proof.
  unfold write_connect. destruct (write_undo _ _ _ _ _ _ _) as [[[stored b1] f]|] eqn:Ew; [|done]. cbn [mbind option_bind].
  destruct stored; [|done]. cbn [negb]. apply write_undo_same in Ew as Hs. destruct Hs as [E1 E2]. rewrite E1, E2.
  destruct (run_writes _ _ _ _) as [written x] eqn:Er. destruct written; [|done]. cbn [negb]. destruct (negb (db_ok _)); [done|].
  intros [= <- <- <-]. apply run_writes_all in Er as ->. cbn. by rewrite E1, E2.
Qed.

(** What follows from a connected block other than the genesis block. *)
Lemma ConnectBlock_connected pay os db_ok block b prev c db view' db' b' :
  cache_inv c → u32 b.(nHeight) ≠ 0 → block_fits b.(nHeight) (cache_set c) block.(vtx) → heights_known (cache_set c) →
  Block_GetHash block ≠ n.(hashGenesisBlock) →
  ConnectBlock invalid linux messageStart n st pay os db_ok block b prev false c db = Some (BlockConnected view' db' b') →
  ∃ q p tree total, prev = Some q ∧ q.(phashBlock) = s_best (cache_set c) ∧ (CheckBlock n block true true true).1 = Accept ∧
    checked pay block b (cache_set c) p tree total ∧
    write_connect invalid linux messageStart os db_ok st block q.(phashBlock) p db b = Some (BlockConnected view' db' b').
Proof.
  intros Hc Hh Hfit Hk Hg H. unfold ConnectBlock in H. cbn [negb] in H. destruct (CheckBlock n block true true true) as [v bl]. cbn [fst] in *.
  destruct v as [|[r|]|]; [|by destruct (rj_corruption r)|done|done].
  destruct (GetBestBlock c) as [best c1] eqn:E1. apply (read_answers _ _ _ _ _ cache_GetBestBlock Hc) in E1 as [K1 ->].
  rewrite (bool_decide_eq_false_2 (Block_GetHash block = _)) in H by done.
  destruct (negb _) eqn:Eb; [done|]. apply negb_false_iff, bool_decide_eq_true in Eb.
  destruct (check_connect invalid n st pay block b c1) as [[p|r]|] eqn:Ec; [|done|done]. cbn [mbind option_bind] in H.
  destruct prev as [q|]; [|done]. cbn [mbind option_bind] in H.
  assert (cache_set c1 ≡ cache_set c) as Es by apply K1.
  apply check_connect_go in Ec as (tree & total & Hck); [|apply K1|done|by eapply block_fits_equiv|].
  2:{ intros o coin Ho. rewrite Es in Ho. by eapply Hk. }
  exists q, p, tree, total. split_and!; [done|done|done| |done]. by eapply checked_equiv.
Qed.

Lemma block_sound_lookup h fS s vtx i tx : block_sound h fS s vtx → vtx !! i = Some tx →
  tx_sound fS (connect_sets invalid h (SkipInvalidUTXOS n h) (take i vtx) s) tx.
Proof.
  revert s i. induction vtx as [|t vtx IH]; intros s [|i]; [done|done| |]; intros [H1 H2]; cbn; [by intros [= <-]|]. by apply IH.
Qed.

(** C4: a block that [ConnectBlock] connects follows the best block of the
    view, and each of its transactions that is not a coinbase and does not carry
    assets ([spends_coins]) spends unspent, mature coins of the set as the
    transactions before it leave it, in the money range and, unless it is a
    coinstake, worth at least the outputs; from the last checkpoint on the
    script of every input of such a transaction accepts it, whether the scripts
    are checked at once or by other threads.  Nothing is said of the inputs of
    the transactions that carry assets, which the code does not spend.  The
    shielded spends have their anchors; the tree of note commitments grows by
    the shielded outputs in their order and the view keeps its new root, to
    which the header commits if the upgrade [ACTIVATE_HUSH] is active, which has
    no activation height on any network; and the new view has exactly the coins
    that the transactions leave and the block as its best one. *)
Theorem ConnectBlock_sound pay os db_ok block b prev c db view' db' b' :
  let s := cache_set c in let h := b.(nHeight) in let skip := SkipInvalidUTXOS n h in
  cache_inv c → u32 h ≠ 0 → block_fits h s block.(vtx) → heights_known s → uint_IsNull b.(phashBlock) = false →
  Block_GetHash block ≠ n.(hashGenesisBlock) →
  ConnectBlock invalid linux messageStart n st pay os db_ok block b prev false c db = Some (BlockConnected view' db' b') →
  (∃ q, prev = Some q ∧ q.(phashBlock) = s.(s_best)) ∧
  (∃ total, GetTotalBlocksEstimate n = Some total ∧
     ∀ i tx, block.(vtx) !! i = Some tx → tx_sound (total <=? h) (connect_sets invalid h skip (take i block.(vtx)) s) tx) ∧
  NetworkUpgradeActive n.(consensus) h ACTIVATE_POS = CBlock_IsProofOfStake block ∧
  cache_inv view' ∧ (∀ o, s_coin (cache_set view') o = s_coin (connect_sets invalid h skip block.(vtx) s) o) ∧
  s_best (cache_set view') = b.(phashBlock) ∧
  (∃ tree tree', root tree = s_root s ∧ tree_after tree block.(vtx) = Some tree' ∧ s_root (cache_set view') = root tree' ∧
     (NetworkUpgradeActive n.(consensus) h ACTIVATE_HUSH = true → block.(header).(hdr_hashFinalSaplingRoot) = root tree')).
Proof.
  cbn zeta. intros Hc Hh Hfit Hk Hn Hg H.
  destruct (ConnectBlock_connected _ _ _ _ _ _ _ _ _ _ _ Hc Hh Hfit Hk Hg H) as (q & p & tree & total & -> & Hq & _ & Hck & Hw).
  apply write_connect_connected in Hw as (_ & _ & -> & _). destruct Hck as [_ K2 K3 K4 Ka K5 K6 K7 K8 _ _].
  destruct (SetBestBlock_set b.(phashBlock) p.(p_view) K4 Hn) as [Hi Es].
  split; [by exists q|]. split; [exists total; split; [done|]; intros i tx Hi'; by apply block_sound_lookup|].
  split; [done|]. split; [done|]. split; [intros o; rewrite Es; change (s_coin (cache_set (p_view p)) o = s_coin (connect_sets invalid (nHeight b) (SkipInvalidUTXOS n (nHeight b)) (vtx block) (cache_set c)) o); rewrite K5; apply push_set_coins|].
  split; [by rewrite Es|]. exists tree, p.(p_tree). split_and!; [done|done| |done]. rewrite Es.
  change (s_root (cache_set (p_view p)) = root p.(p_tree)). by rewrite K5, push_set_root.
Qed.

(** ** The reward *)

Lemma GetBlockValue_range h : 0 <= GetBlockValue n h <= 12004000 * COIN.
Proof. unfold GetBlockValue, COIN. repeat case_match; lia. Qed.
Lemma GetMasternodePayment_range h : 0 <= GetMasternodePayment n h <= 50 * COIN.
Proof. unfold GetMasternodePayment, COIN. repeat case_match; lia. Qed.

(** What the budget may add to a block; [None] is no limit at all. *)
Definition budget_allowance (pay : Payments) (h : Z) : option Z :=
  if negb n.(mn_IsSynced) then
    if Z.rem h n.(consensus).(nBudgetCycleBlocks) <? 100 then if IsTestnet n then None else Some (pay.(GetTotalBudget) h) else Some 0
  else if n.(spork_superblocks) then Some (default 0 (pay.(GetExpectedPayeeAmount) h)) else Some 0.

Lemma IsBlockValueValid_allowance pay h expected minted : is_i64 expected →
  IsBlockValueValid n pay h expected minted = match budget_allowance pay h with None => true | Some a => minted <=? i64 (expected + a) end.
Proof.
  intros He. unfold IsBlockValueValid, budget_allowance. repeat (case_match; try done); cbn [default]; by rewrite ?Z.add_0_r, ?i64_id.
Qed.

(** The sums of a block are far from the limits of the type. *)
Record amounts_fit (pay : Payments) (h : Z) s (vtx : list CTransaction) : Prop := {
  af_in : 0 <= block_sum h tx_in s vtx < 2 ^ 60;
  af_out : 0 <= block_sum h (λ _, tx_out) s vtx < 2 ^ 60;
  af_assets : 0 <= block_sum h (λ _, tx_assets) s vtx < 2 ^ 60;
  af_fees : - 2 ^ 60 < block_sum h (λ s tx, tx_fee_in s tx - tx_fee_out tx) s vtx < 2 ^ 60;
  af_reward : 0 <= st.(GetSummaryAssetsToReward) < 2 ^ 60;
  af_budget a : budget_allowance pay h = Some a → 0 <= a < 2 ^ 60;
}.

(** The share of the assets in what is minted and in what may be minted. *)
Definition asset_outputs (h : Z) s (vtx : list CTransaction) : Z :=
  if NetworkUpgradeActive n.(consensus) h ACTIVATE_ASSET_VALIDATION then 0 else block_sum h (λ _, tx_assets) s vtx.
Definition asset_reward (h : Z) : Z := if NetworkUpgradeActive n.(consensus) h ACTIVATE_ASSET_VALIDATION then st.(GetSummaryAssetsToReward) else 0.

(** The check compares the exact amounts, from which the fees cancel. *)
Lemma value_valid_iff pay h s vtx (p : Prog) : amounts_fit pay h s vtx →
  p.(p_nFees) = i64 (block_sum h (λ s tx, tx_fee_in s tx - tx_fee_out tx) s vtx) → p.(p_nValueIn) = i64 (block_sum h tx_in s vtx) →
  p.(p_nValueOut) = i64 (block_sum h (λ _, tx_out) s vtx) → p.(p_nAssetValue) = i64 (block_sum h (λ _, tx_assets) s vtx) →
  IsBlockValueValid n pay h (nExpectedMint n st h p) (nMint n h p) = true ↔
  match budget_allowance pay h with
  | None => True
  | Some a => block_sum h (λ _, tx_out) s vtx - block_sum h tx_in s vtx - asset_outputs h s vtx <=
              GetBlockValue n h + GetMasternodePayment n h + asset_reward h + a
  end.
Proof.
  intros [A1 A2 A3 A4 A5 A6] F1 F2 F3 F4. pose proof (GetBlockValue_range h) as B1. pose proof (GetMasternodePayment_range h) as B2. unfold COIN in *.
  assert (is_i64 (nExpectedMint n st h p)) as He by (unfold nExpectedMint; case_match; apply i64_range).
  rewrite IsBlockValueValid_allowance by done. destruct (budget_allowance pay h) as [a|] eqn:Ea; [|done]. specialize (A6 a eq_refl).
  rewrite Z.leb_le. unfold nExpectedMint, nMint, asset_outputs, asset_reward. rewrite i64_id in F1, F2, F3, F4 by (unfold is_i64; lia).
  rewrite F1, F2, F3, F4.
  set (fees := block_sum h (λ s tx, tx_fee_in s tx - tx_fee_out tx) s vtx) in *. set (ins := block_sum h tx_in s vtx) in *.
  set (outs := block_sum h (λ _, tx_out) s vtx) in *. set (assets := block_sum h (λ _, tx_assets) s vtx) in *.
  clearbody fees ins outs assets. destruct (NetworkUpgradeActive (consensus n) h ACTIVATE_ASSET_VALIDATION); cbn [negb];
    unwrap; split; lia.
Qed.

Lemma counted_outputs h s vtx : st.(fAddressIndex) = true → block_sum h (λ _, tx_out) s vtx = block_sum h (λ _, tx_value) s vtx.
Proof. intros Hon. revert s. induction vtx as [|tx vtx IH]; intros s; [done|]. cbn. rewrite IH. unfold tx_out. by rewrite Hon. Qed.

Lemma no_assets h s vtx : Forall (λ tx, ContainsAssets tx = false) vtx → block_sum h (λ _, tx_assets) s vtx = 0.
Proof.
  intros HF. revert s. induction HF as [|tx vtx Htx _ IH]; intros s; [done|]. cbn. rewrite IH. unfold tx_assets. by rewrite Htx.
Qed.

(** C5: with the address index, and unless the node is an unsynchronised testnet
    node in the first blocks of a budget cycle, where nothing is checked: the
    value of the outputs of a connected block that are not banned, less what
    the inputs of its transactions were worth and less all outputs of its
    transactions with assets ([asset_outputs], deducted while
    [ACTIVATE_ASSET_VALIDATION] is not active, as on all networks), is at most
    the subsidy, the payment of the masternode, the reward of the assets and
    what the budget allows, whatever the fees are.  So a block without asset
    transactions creates no more money than that, while the outputs of asset
    transactions are not bounded; the money supply moves by exactly the value
    of the outputs less that of the inputs.  The sums of the block are below
    [2 ^ 60]. *)
Theorem ConnectBlock_limits_supply pay os db_ok block b prev c db view' db' b' :
  let s := cache_set c in let h := b.(nHeight) in
  cache_inv c → u32 h ≠ 0 → block_fits h s block.(vtx) → heights_known s → Block_GetHash block ≠ n.(hashGenesisBlock) →
  amounts_fit pay h s block.(vtx) → st.(fAddressIndex) = true →
  ConnectBlock invalid linux messageStart n st pay os db_ok block b prev false c db = Some (BlockConnected view' db' b') →
  let minted := block_sum h (λ _, tx_value) s block.(vtx) - block_sum h tx_in s block.(vtx) in
  (∀ a, budget_allowance pay h = Some a →
    minted - asset_outputs h s block.(vtx) <= GetBlockValue n h + GetMasternodePayment n h + asset_reward h + a ∧
    (Forall (λ tx, ContainsAssets tx = false) block.(vtx) →
      minted <= GetBlockValue n h + GetMasternodePayment n h + asset_reward h + a)) ∧
  db'.(db_supply).(nSupply) = i64 (db.(db_supply).(nSupply) + minted).
Proof.
  cbn zeta. intros Hc Hh Hfit Hk Hg Ha Hon H. rewrite <- counted_outputs by done.
  destruct (ConnectBlock_connected _ _ _ _ _ _ _ _ _ _ _ Hc Hh Hfit Hk Hg H) as (q & p & tree & total & _ & _ & _ & Hck & Hw).
  apply write_connect_connected in Hw as (_ & _ & _ & _ & -> & _). cbn [nSupply].
  destruct Hck as [(q0 & q1 & R & I1 & I2 & I3 & I4 & _ & _ & _ & ->) _ _ _ _ _ _ _ _ K9 _]. cbn [set_view p_nValueOut p_nValueIn].
  destruct R as [_ _ _ _ _ _ F1 F2 F3 F4 _ _ _ _]. rewrite I1, I2, I3, I4, Z.add_0_l in *.
  split.
  - apply (value_valid_iff pay (nHeight b) (cache_set c) (vtx block) (set_view (PushAnchor (p_tree q1) (p_view q1)) q1)) in K9; [|done..].
    intros a Ea. rewrite Ea in K9. split; [done|]. intros HF. unfold asset_outputs in K9. rewrite (no_assets _ _ _ HF) in K9.
    destruct (NetworkUpgradeActive _ _ _); lia.
  - rewrite i64_add_r, F2, F3. destruct Ha as [A1 A2 _ _ _ _]. 
    by rewrite (i64_id (block_sum (nHeight b) tx_in _ _)), (i64_id (block_sum (nHeight b) (λ _, tx_out) _ _)) by (unfold is_i64; lia).
Qed.

Lemma no_outputs h s vtx : st.(fAddressIndex) = false → block_sum h (λ _, tx_out) s vtx = 0.
Proof. intros Hoff. revert s. induction vtx as [|tx vtx IH]; intros s; [done|]. cbn. rewrite IH. unfold tx_out. by rewrite Hoff. Qed.

(** C39: without the address index ([-addressindex=0]) the outputs are counted
    nowhere, and the check of the reward accepts every block: whatever a
    coinbase or coinstake pays itself, the loop over the transactions leaves an
    amount that [IsBlockValueValid] accepts. *)
Theorem reward_unchecked_without_address_index pay fScriptChecks maintenance pos block h p p' :
  let s := cache_set p.(p_view) in
  st.(fAddressIndex) = false → u32 h ≠ 0 → cache_inv p.(p_view) → block_fits h s block.(vtx) → heights_known s → amounts_fit pay h s block.(vtx) →
  p.(p_nFees) = 0 → p.(p_nValueIn) = 0 → p.(p_nValueOut) = 0 → p.(p_nAssetValue) = 0 →
  connect_txs invalid n st fScriptChecks maintenance h pos 0 block.(vtx) p = Some (Go p') →
  IsBlockValueValid n pay h (nExpectedMint n st h p') (nMint n h p') = true.
Proof.
  cbn zeta. intros Hoff Hh Hc Hfit Hk Ha I1 I2 I3 I4 H.
  apply connect_txs_go in H as R; [|done|done|split; by rewrite ?I1, ?I2, ?I3, ?I4|done|done].
  destruct R as [_ _ _ _ _ _ F1 F2 F3 F4 _ _ _ _]. rewrite I1, I2, I3, I4, Z.add_0_l in *.
  apply (value_valid_iff pay h (cache_set p.(p_view)) block.(vtx)); [done..|]. destruct (budget_allowance pay h) as [a|] eqn:Ea; [|done].
  destruct Ha as [A1 _ A3 _ A5 A6]. specialize (A6 a Ea). pose proof (GetBlockValue_range h). pose proof (GetMasternodePayment_range h).
  assert (block_sum h (λ _, tx_out) (cache_set (p_view p)) (vtx block) = 0) as -> by by apply no_outputs.
  unfold asset_outputs, asset_reward. case_match; lia.
Qed.
End sound.

(** ** A concrete block *)

#[local] Existing Instance block_crypto.
#[local] Existing Instance one_key.
(** A tree is the number of its leaves. *)
Definition counting_tree : MerkleTree := {| Tree := Z; root n := 1 :: n :: replicate 6 0; empty_tree := 0 |}.
Definition counting_append : AppendTree := {| append_tree := counting_tree; append t _ := Some (t + 1) |}.
#[local] Existing Instance counting_append.
#[local] Instance counting_limit : BatchLimit := λ batch, bool_decide (2 <= length batch)%nat.

(** The parent at the height 29 with one coin, and a block that spends it. *)
Definition parent_hash : base_uint := sample_hash 9.
Definition parent_entry : CBlockIndex :=
  mkCBlockIndex parent_hash None None 29 0 0 0 (uint_of_u64 W256 1) 1 1 29 [] 0 0 None 1 (uint_zero 8) (uint_zero 8) (uint_zero 8) 900 0x207fffff 0 0.
Definition parent_db : CCoinsViewDB :=
  {| db_coin := {[ outpoint (sample_hash 5) 0 := sample_coin 50 ]}; db_best_block := Some parent_hash;
     db_head_blocks := None; db_anchor := ∅; db_nullifier := ∅; db_best_anchor := None |}.
Definition parent_view : CCoinsViewCache CCoinsViewDB := (GetBestAnchor (GetBestBlock (new_cache parent_db)).2).2.
Definition spending : CTransaction :=
  {| nVersion := 1; nType := 0; vin := [{| prevout := outpoint (sample_hash 5) 0; scriptSig := [OP_1]; nSequence := 2 ^ 32 - 1 |}];
     vout := [{| nValue := 49; scriptPubKey := [OP_1]; nRounds := -10 |}];
     nLockTime := 0; sapData := Some SaplingTxData_empty; extraPayload := None; walletSenderId := replicate 5 0 |}.
(** A coinbase with the value [v]. *)
Definition coinbase_of (v : Z) : CTransaction :=
  {| nVersion := 1; nType := 0;
     vin := [{| prevout := {| prevout_hash := uint_zero 8; prevout_n := 2 ^ 32 - 1 |}; scriptSig := push_int64 30 ++ [OP_0]; nSequence := 2 ^ 32 - 1 |}];
     vout := [{| nValue := v; scriptPubKey := [OP_1]; nRounds := -10 |}];
     nLockTime := 0; sapData := Some SaplingTxData_empty; extraPayload := None; walletSenderId := replicate 5 0 |}.
Definition block_paying (v : Z) : CBlock := sample_block [coinbase_of v; spending].
Definition block_entry (v : Z) : CBlockIndex :=
  mkCBlockIndex (Block_GetHash (block_paying v)) (Some 1%positive) None 30 0 100 0 (uint_of_u64 W256 2) 2 3 11 [] 0 0 None 1 (uint_zero 8) (uint_zero 8) (uint_zero 8) 1000
    0x207fffff 0 0.
Definition connect_node : Node :=
  {| consensus := main_params; hashGenesisBlock := uint_zero 8; networkID := REGTEST; mapCheckpoints := [(0, uint_zero 8)]; checkpoints_fEnabled := true;
     mapBlockIndex := {[parent_hash := 1%positive]}; node_tree := {[1%positive := parent_entry]}; chainActive := []; g_newP2CSRules := true;
     in_IBD := false; mn_IsSynced := true; IsBudgetPaymentBlock := λ _, false; spork_superblocks := false; spork_coldstaking_maintenance := false;
     GetCurrentAssetHash := uint_zero 8; GetTransaction := λ _, None; adjustedTime := 2000; maxreorg := None |}.
Definition settings (address_index : bool) : Settings :=
  {| fAddressIndex := address_index; fSpentIndex := true; fTxIndex := true; nScriptCheckThreads := true; spork_sapling_maintenance := 2 ^ 40;
     GetSummaryAssetsToReward := 0 |}.
Definition no_payments : Payments :=
  {| GetTotalBudget _ := 0; GetExpectedPayeeAmount _ := None; budget_IsTransactionValid _ _ _ := TxInValid; masternode_IsTransactionValid _ _ := true;
     spork_payment_enforcement := true; spork_budget_enforcement := true |}.
Definition start_db : NodeDb := mkNodeDb used_files (mkIndexes ∅ ∅ ∅ ∅ ∅ ∅ ∅ ∅) {| nSupply := 50; supply_nHeight := 29 |}.
Definition connect_paying (address_index : bool) (v : Z) : option (connect_answer (V := CCoinsViewDB)) :=
  ConnectBlock (λ _, false) true [1; 2; 3; 4] connect_node (settings address_index) no_payments good_os (λ _, true) (block_paying v) (block_entry v)
    (Some parent_entry) false parent_view start_db.
Definition verdict_of (a : option (connect_answer (V := CCoinsViewDB))) : option (option string * Z) :=
  match a with
  | Some (BlockConnected _ db _) => Some (None, db.(db_supply).(nSupply))
  | Some (BlockInvalid (Some r)) => Some (Some r.(rj_reason), 0)
  | Some (BlockInvalid None) => Some (Some "refused", 0)
  | Some (NodeAborted _ _) => Some (Some "aborted", 0)
  | None => None
  end.

(** The reward may be taken with the fee, and not more; without the index any
    amount passes. *)
Example reward_limit :
  verdict_of (connect_paying true (3550 * COIN + 1)) = Some (None, 3550 * COIN + 50) ∧
  verdict_of (connect_paying true (3550 * COIN + 2)) = Some (Some "bad-cb-amount", 0) ∧
  verdict_of (connect_paying false (10 ^ 6 * COIN)) = Some (None, 0).
Proof. vm_compute. done. Qed.

Lemma parent_view_inv : cache_inv parent_view.
Proof. split_and!; [|by intros ??..]. split_and!; [|by intros ??|done]. apply map_Forall_singleton. done. Qed.
Lemma parent_heights : heights_known (cache_set parent_view).
Proof.
  intros o c. change (({[ outpoint (sample_hash 5) 0 := sample_coin 50 ]} : gmap COutPoint Coin) !! o = Some c → coin_nHeight c ≠ 0).
  intros E. apply lookup_singleton_Some in E as [_ <-]. done.
Qed.
Lemma counting_root t : uint_IsNull (root t) = false.
Proof. done. Qed.

(** A transaction with one output and at most one input. *)
Lemma one_output_fits skip s tx i o : vin tx = [i] → vout tx = [o] → TxOut_IsNull o = false → s_coin s (outpoint (GetHash tx) 0) = None →
  is_Some (GetValueOut tx) → tx_fits (λ _, false) skip s tx.
Proof.
  intros Ei Eo Hn Hs Hv. unfold tx_fits. rewrite Ei, Eo. split_and!; [done|by constructor| |intros _; apply NoDup_singleton|done].
  intros k Hk. cbn in Hk. assert (k = 0%nat) as -> by lia. split; [exact Hs|]. by rewrite andb_false_r.
Qed.
Lemma block_paying_fits : block_fits (λ _, false) connect_node 30 (cache_set parent_view) (vtx (block_paying (3550 * COIN + 1))).
Proof.
  split; [|split; [|done]].
  - eapply one_output_fits; [reflexivity|reflexivity|done|vm_compute; reflexivity|by eexists; vm_compute].
  - eapply one_output_fits; [reflexivity|reflexivity|done|vm_compute; reflexivity|by eexists; vm_compute].
Qed.

(** The answer for the block that takes its whole reward. *)
Definition paid : option (CCoinsViewCache CCoinsViewDB * NodeDb * CBlockIndex) :=
  match connect_paying true (3550 * COIN + 1) with Some (BlockConnected v d b) => Some (v, d, b) | _ => None end.
Lemma paid_connects : ∃ r, paid = Some r ∧ connect_paying true (3550 * COIN + 1) = Some (BlockConnected r.1.1 r.1.2 r.2).
Proof.
  assert (is_Some paid) as [r Hr] by (by eexists; vm_compute). exists r. split; [done|]. revert Hr. unfold paid.
  destruct (connect_paying true (3550 * COIN + 1)) as [[]|]; try discriminate. by intros [= <-].
Qed.
Lemma paid_hash : uint_IsNull (Block_GetHash (block_paying (3550 * COIN + 1))) = false ∧ Block_GetHash (block_paying (3550 * COIN + 1)) ≠ uint_zero 8.
Proof. split; [by vm_compute|]. intros E. apply (f_equal uint_IsNull) in E. vm_compute in E. discriminate E. Qed.
Lemma main_money : 0 <= main_params.(nMaxMoneyOut) < 2 ^ 62.
Proof. by vm_compute. Qed.

Lemma ConnectBlock_sound_witness : ∃ r, paid = Some r ∧ s_best (cache_set r.1.1) = (block_entry (3550 * COIN + 1)).(phashBlock).
Proof.
  destruct paid_connects as (r & Hr & H). exists r. split; [exact Hr|].
  destruct (ConnectBlock_sound (λ _, false) connect_node main_money (settings true) counting_root true [1; 2; 3; 4] no_payments good_os (λ _, true)
    (block_paying (3550 * COIN + 1)) (block_entry (3550 * COIN + 1)) (Some parent_entry) parent_view start_db r.1.1 r.1.2 r.2
    parent_view_inv ltac:(done) block_paying_fits parent_heights (proj1 paid_hash) (proj2 paid_hash) H) as (_ & _ & _ & _ & _ & E & _).
  exact E.
Defined.

Lemma paying_amounts address_index :
  amounts_fit (λ _, false) connect_node (settings address_index) no_payments 30 (cache_set parent_view) (vtx (block_paying (3550 * COIN + 1))).
Proof. split; [by destruct address_index; vm_compute..|]. intros a E. vm_compute in E. injection E as <-. done. Qed.

Lemma paying_minted :
  block_sum (λ _, false) connect_node (nHeight (block_entry (3550 * COIN + 1))) (λ _, tx_value (λ _, false)) (cache_set parent_view)
    (vtx (block_paying (3550 * COIN + 1))) -
  block_sum (λ _, false) connect_node (nHeight (block_entry (3550 * COIN + 1))) tx_in (cache_set parent_view) (vtx (block_paying (3550 * COIN + 1))) =
  3550 * COIN.
Proof. vm_compute. done. Qed.

Lemma ConnectBlock_limits_supply_witness : ∃ r, paid = Some r ∧ nSupply (db_supply r.1.2) = i64 (50 + 3550 * COIN).
Proof.
  destruct paid_connects as (r & Hr & H). exists r. split; [exact Hr|].
  destruct (ConnectBlock_limits_supply (λ _, false) connect_node main_money (settings true) counting_root true [1; 2; 3; 4] no_payments good_os (λ _, true)
    (block_paying (3550 * COIN + 1)) (block_entry (3550 * COIN + 1)) (Some parent_entry) parent_view start_db r.1.1 r.1.2 r.2
    parent_view_inv ltac:(done) block_paying_fits parent_heights (proj2 paid_hash) (paying_amounts true) eq_refl H) as [_ E].
  rewrite E, paying_minted. reflexivity.
Defined.

(** The loop over the transactions, without the address index. *)
Definition unindexed_start : Progress (V := CCoinsViewDB) := mkProgress parent_view 0 0 0 0 0 no_entries [] 0 81 [] [].
Definition unindexed_loop : option (res (Progress (V := CCoinsViewDB))) :=
  connect_txs (λ _, false) connect_node (settings false) true false 30 DiskPos_SetNull 0 (vtx (block_paying (3550 * COIN + 1))) unindexed_start.
Lemma unindexed_loop_ends : ∃ p, unindexed_loop = Some (Go p).
Proof.
  assert (match unindexed_loop with Some (Go _) => true | _ => false end = true) as H by (vm_compute; reflexivity).
  destruct unindexed_loop as [[p|]|]; [by exists p|done|done].
Qed.

Lemma reward_unchecked_without_address_index_witness : ∃ p, unindexed_loop = Some (Go p) ∧
  IsBlockValueValid connect_node no_payments 30 (nExpectedMint connect_node (settings false) 30 p) (nMint connect_node 30 p) = true.
Proof.
  destruct unindexed_loop_ends as [p Hp]. exists p. split; [exact Hp|].
  apply (reward_unchecked_without_address_index (λ _, false) connect_node main_money (settings false) no_payments true false DiskPos_SetNull
    (block_paying (3550 * COIN + 1)) 30 unindexed_start p eq_refl ltac:(done) parent_view_inv block_paying_fits parent_heights
    (paying_amounts false) eq_refl eq_refl eq_refl eq_refl Hp).
Defined.
