(* ===== verification/NoteTree.v ===== *)
(** * NoteTree: the tree of note commitments of the chain ([sapling/incrementalmerkletree.h], [validation.cpp])

    [SaplingMerkleTree], the incremental tree of depth 32 with the Pedersen
    hash, is what [ConnectBlock] keeps the commitments of the shielded outputs
    in.  With the correctness of the incremental tree, the header of a block
    commits to the merkle root over all commitments of the chain. *)

From S2P Require Import Prelude ArithUint256 Serialize Transaction SigHash Coins IncrementalTree BlockCheck Compressor ConnectBlock ConnectSound.
Import libzcash.
Local Open Scope Z_scope.

Section notes.
Context {TH : TreeHash} (Depth : nat).

(** The tree as the views use it; its [root] does not throw, as the depth is below the
    size of the table. *)
Definition incremental_tree : MerkleTree :=
  {| Tree := IncrementalMerkleTree; Coins.root t := default (uint_zero 8) (Tree_root Depth t); empty_tree := new_tree |}.
Definition incremental_append : AppendTree := {| append_tree := incremental_tree; ConnectBlock.append := libzcash.append Depth |}.
#[local] Existing Instance incremental_append.

Hypothesis Depth_small : (0 < Depth < 64)%nat.
Hypothesis EmptyRoot_ok : ∀ d, (d <= Depth)%nat → EmptyRoot d = Some (tree_root d []).
Lemma EmptyRoot_below d : (d < Depth)%nat → EmptyRoot d = Some (tree_root d []).
Proof. intros H. apply EmptyRoot_ok. lia. Qed.

(** [empty_root()] looks the root of the empty tree up in the table. *)
Lemma empty_root_is_root : libzcash.empty_root Depth = Some (Coins.root new_tree).
Proof.
  unfold libzcash.empty_root. rewrite EmptyRoot_ok by done. f_equal. cbn [Coins.root append_tree incremental_append incremental_tree].
  unfold Tree_root. by rewrite (root_spec Depth Depth_small EmptyRoot_below Depth new_tree [] [] [] ltac:(lia)
    new_tree_represents ltac:(cbn [length]; lia) eq_refl).
Qed.

Definition block_commitments (vtx : list CTransaction) : list base_uint := vtx ≫= tx_commitments.

Lemma append_list_spec t l m : represents t l → (length l <= 2 ^ Depth)%nat →
  match append_list t m with
  | Some t' => represents t' (l ++ m) ∧ (length l + length m <= 2 ^ Depth)%nat
  | None => (2 ^ Depth < length l + length m)%nat
  end.
Proof.
  revert t l. induction m as [|x m IH]; intros t l Hr Hl; cbn [append_list]; [rewrite app_nil_r; cbn [length]; split; [done|lia]|].
  pose proof (append_spec Depth Depth_small t l x Hr Hl) as Ha. change (ConnectBlock.append (AppendTree := incremental_append) t x) with (libzcash.append Depth t x).
  destruct (libzcash.append Depth t x) as [t'|]; cbn [mbind option_bind length]; [|lia]. destruct Ha as [Hr' Hlt].
  specialize (IH t' (l ++ [x]) Hr'). rewrite length_app in IH. cbn [length] in IH. specialize (IH ltac:(lia)).
  destruct (append_list _ m); [|lia]. rewrite <- app_assoc in IH. destruct IH as [IH ?]. split; [exact IH|lia].
Qed.

(** The tree after a block has all commitments of the chain as its leaves, and
    the root that the header has to commit to is the one of the merkle tree over
    them; [ConnectBlock] throws exactly if there are more than [2 ^ 32] of them. *)
Lemma tree_after_spec t l vtx : represents t l → (length l <= 2 ^ Depth)%nat →
  match tree_after t vtx with
  | Some t' => represents t' (l ++ block_commitments vtx) ∧ (length l + length (block_commitments vtx) <= 2 ^ Depth)%nat ∧
      Coins.root t' = tree_root Depth (l ++ block_commitments vtx)
  | None => (2 ^ Depth < length l + length (block_commitments vtx))%nat
  end.
Proof.
  assert (∀ t l, represents t l → (length l <= 2 ^ Depth)%nat → Coins.root t = tree_root Depth l) as Hroot.
  { intros u k Hu Hk. cbn [Coins.root append_tree incremental_append incremental_tree]. unfold Tree_root.
    rewrite (root_spec Depth Depth_small EmptyRoot_below Depth u k [] [] ltac:(lia) Hu Hk eq_refl). by rewrite app_nil_r. }
  revert t l. induction vtx as [|tx vtx IH]; intros t l Hr Hl; cbn [tree_after].
  { cbn [block_commitments mbind list_bind length]. rewrite app_nil_r, Nat.add_0_r. split_and!; [done|done|by apply Hroot]. }
  change (block_commitments (tx :: vtx)) with (tx_commitments tx ++ block_commitments vtx). rewrite length_app.
  pose proof (append_list_spec t l (tx_commitments tx) Hr Hl) as Ha. unfold append_outputs. destruct (append_list _ (tx_commitments tx)) as [t'|].
  - destruct Ha as [Hr' Hl']. cbn [mbind option_bind]. specialize (IH t' (l ++ tx_commitments tx) Hr'). rewrite length_app in IH. specialize (IH Hl').
    destruct (tree_after _ vtx); [|lia]. rewrite <- app_assoc in IH. destruct IH as (? & ? & ?). split_and!; [done|lia|done].
  - cbn [mbind option_bind]. lia.
Qed.
End notes.

(** [SaplingMerkleTree]. *)
Definition SAPLING_INCREMENTAL_MERKLE_TREE_DEPTH : nat := 32.
Definition SaplingMerkleTree `{LibRustZcash} : AppendTree := incremental_append (TH := PedersenHash) SAPLING_INCREMENTAL_MERKLE_TREE_DEPTH.

