(* ===== verification/BlockAccept.v ===== *)
(** * BlockAccept: from a received block to the active chain ([validation.cpp])

    [AddToBlockIndex], [GetPrevIndex], [AcceptBlockHeader], [AcceptBlock] and
    [ProcessNewBlock] on top of the checks ([BlockCheck], [Kernel]), the files
    ([BlockFiles]) and the choice of the chain ([ChainState]).

    The outer [option] is undefined behaviour or a failed assertion.  The rest
    of the node (sporks, budgets, the memory pool, the clock) is a function of
    the state of the chain.  The undo data are on the side of the interface
    [ChainCoins]; the masternode and budget managers, which [ProcessNewBlock]
    informs at its end, are left out. *)

From stdpp Require Import strings.
From S2P Require Import Prelude ArithUint256 Params Chain Pow Script Interpreter Serialize Transaction SigHash TxVerify Block Coins CoinsUpdate Merkle StakeModifier ChainState Standard Compressor BlockCheck BlockSound BlockFiles Kernel.
Local Open Scope Z_scope.

(** ** The answers *)

(** A call succeeds; it returns false with the state of the validation invalid,
    or unchanged; or the system fails and the node stops. *)
Inductive outcome (A : Type) :=
  | Done (a : A)
  | Rejected (r : rejection)
  | Refused
  | SystemFailure.
Arguments Done {A} a. Arguments Rejected {A} r. Arguments Refused {A}. Arguments SystemFailure {A}.

(** ** The state *)

Record World (S : Type) := mkWorld {
  w_chain : ChainState S;
  w_index : gmap base_uint ptr;
  w_best_header : option ptr;
  w_files : Files;
}.
Arguments mkWorld {S}. Arguments w_chain {S}. Arguments w_index {S}. Arguments w_best_header {S}. Arguments w_files {S}.

(** The objects of the program outside of the block index, in a state of the chain. *)
Definition with_index (index : gmap base_uint ptr) (t : BlockTree) (active : CChain) (n : Node) : Node :=
  {| consensus := n.(consensus); hashGenesisBlock := n.(hashGenesisBlock); networkID := n.(networkID);
     mapCheckpoints := n.(mapCheckpoints); checkpoints_fEnabled := n.(checkpoints_fEnabled);
     mapBlockIndex := index; node_tree := t; chainActive := active;
     g_newP2CSRules := n.(g_newP2CSRules); in_IBD := n.(in_IBD); mn_IsSynced := n.(mn_IsSynced);
     IsBudgetPaymentBlock := n.(IsBudgetPaymentBlock); spork_superblocks := n.(spork_superblocks);
     spork_coldstaking_maintenance := n.(spork_coldstaking_maintenance); GetCurrentAssetHash := n.(GetCurrentAssetHash);
     GetTransaction := n.(GetTransaction); adjustedTime := n.(adjustedTime); maxreorg := n.(maxreorg) |}.

Section accept.
Context {S : Type} `{!ChainCoins S} `{!SigCrypto} `{!SaplingVerifier} `{!Secp256k1}.
Context (env : ChainState S → Node).
(** [new CBlockIndex]: the address depends on the addresses in use. *)
Context (alloc : BlockTree → ptr).
(** The coins of [pcoinsTip]. *)
Context (access_coin : S → COutPoint → Coin).
(** The value of the pointer that the hash of the first stake modifier reads. *)
Context (address : Z).
Context (linux : bool) (messageStart : list Z).
Abbreviation W := (World S).

Definition with_chain (c : ChainState S) (w : W) : W := mkWorld c w.(w_index) w.(w_best_header) w.(w_files).
Definition with_files (f : Files) (w : W) : W := mkWorld w.(w_chain) w.(w_index) w.(w_best_header) f.
Definition w_tree (w : W) : BlockTree := w.(w_chain).(cs_tree).

(** What the checks see of the node. *)
Definition node_of (w : W) : Node := with_index w.(w_index) (w_tree w) w.(w_chain).(cs_active) (env w.(w_chain)).

(** ** [AddToBlockIndex] *)

(** [CBlockIndex(block)] with the hash that it is stored under. *)
Definition new_entry (block : CBlock) : CBlockIndex :=
  let h := block.(header) in
  let b := mkCBlockIndex (Block_GetHash block) None None 0 0 0 0 (uint_zero 8) 0 0 0 [] 0 0 None h.(hdr_nVersion) h.(hdr_hashMerkleRoot)
             h.(hdr_hashFinalSaplingRoot) h.(hdr_assetRootHash) h.(hdr_nTime) h.(hdr_nBits) h.(hdr_nNonce) 0 in
  if CBlock_IsProofOfStake block then SetProofOfStake b else b.

(** The parent, the height, the skip pointer and the stake modifier; from the
    upgrade on the modifier takes the first input of the second transaction,
    whether the block has one or not. *)
Definition link_entry (n : Node) (index : gmap base_uint ptr) (t : BlockTree) (block : CBlock) (b : CBlockIndex) : option CBlockIndex :=
  match index !! block.(header).(hashPrevBlock) with
  | None => Some b
  | Some q =>
      bq ← t !! q;
      b ← BuildSkip t (set_links b (Some q) None (bq.(nHeight) + 1));
      if negb (NetworkUpgradeActive n.(consensus) b.(nHeight) ACTIVATE_POS) then SetNewStakeModifierV1 address index t b
      else
        tx ← block.(vtx) !! 1%nat;
        i ← tx.(vin) !! 0%nat;
        SetNewStakeModifierV2 t b i.(prevout).(prevout_hash)
  end.

Definition add_work (t : BlockTree) (b : CBlockIndex) : option CBlockIndex :=
  base ← match b.(pprev) with Some q => bq ← t !! q; Some bq.(nChainWork) | None => Some (uint_zero 8) end;
  proof ← GetBlockProof b;
  Some (set_nChainWork b (uint_add base proof)).

Definition AddToBlockIndex (block : CBlock) (w : W) : option (ptr * W) :=
  let hash := Block_GetHash block in
  match w.(w_index) !! hash with
  | Some p => Some (p, w)
  | None =>
      let p := alloc (w_tree w) in
      let index := <[hash := p]> w.(w_index) in
      let t := <[p := new_entry block]> (w_tree w) in
      b ← link_entry (node_of w) index t block (new_entry block);
      b ← add_work t b;
      '(_, b) ← RaiseValidity b BLOCK_VALID_TREE;
      let t := <[p := b]> t in
      better ← match w.(w_best_header) with
               | None => Some true
               | Some h => bh ← t !! h; Some (uint_ltb bh.(nChainWork) b.(nChainWork))
               end;
      Some (p, mkWorld (with_tree t w.(w_chain)) index (if better : bool then Some p else w.(w_best_header)) w.(w_files))
  end.

(** ** [GetPrevIndex] *)

(** The parent is null for the genesis block.  A parent that is marked failed
    is reconsidered when [Checkpoints::CheckBlock] returns true. *)
Definition GetPrevIndex (block : CBlock) (w : W) : option (outcome (option ptr) * W) :=
  if bool_decide (Block_GetHash block = (node_of w).(hashGenesisBlock)) then Some (Done None, w)
  else match w.(w_index) !! block.(header).(hashPrevBlock) with
  | None => Some (Rejected (mkRejection 0 "prevblk-not-found" false), w)
  | Some p =>
      b ← w_tree w !! p;
      if failed b then
        if Checkpoints_CheckBlock (node_of w) b.(nHeight) block.(header).(hashPrevBlock) true then
          c ← ReconsiderBlock p w.(w_chain);
          '(_, c) ← ActivateBestChain c;
          Some (Done (Some p), with_chain c w)
        else Some (Rejected (mkRejection 100 "bad-prevblk" false), w)
      else Some (Done (Some p), w)
  end.

(** ** [AcceptBlockHeader] *)

(** A verdict of the checks as an answer. *)
Definition by_verdict {A} (v : verdict) (w : W) (k : option (outcome A * W)) : option (outcome A * W) :=
  match v with
  | Accept => k
  | Reject (Some r) => Some (Rejected r, w)
  | Reject None => Some (Refused, w)
  | Undefined => None
  end.

(** Continue after a successful call. *)
Definition on_done {A B} (x : option (outcome A * W)) (k : A → W → option (outcome B * W)) : option (outcome B * W) :=
  '(o, w) ← x;
  match o with
  | Done a => k a w
  | Rejected r => Some (Rejected r, w)
  | Refused => Some (Refused, w)
  | SystemFailure => Some (SystemFailure, w)
  end.

Definition AcceptBlockHeader (block : CBlock) (pindexPrev : option ptr) (w : W) : option (outcome ptr * W) :=
  match w.(w_index) !! Block_GetHash block with
  | Some p =>
      b ← w_tree w !! p;
      if failed b then Some (Rejected (mkRejection 0 "duplicate" false), w) else Some (Done p, w)
  | None =>
      on_done (match pindexPrev with Some _ => Some (Done pindexPrev, w) | None => GetPrevIndex block w end) (λ pindexPrev w,
        by_verdict (ContextualCheckBlockHeader (node_of w) block.(header) pindexPrev) w (
          '(p, w) ← AddToBlockIndex block w;
          Some (Done p, w)))
  end.

(** ** [AcceptBlock] *)

(** An input of the block [bl] is an input of the coinstake. *)
Definition spends_stake (stake : CTransaction) (bl : CBlock) : bool :=
  existsb (λ t, existsb (λ i, existsb (λ s, bool_decide (s.(prevout) = i.(prevout))) stake.(vin)) t.(vin)) bl.(vtx).

(** The walk down a fork to the active chain, through the blocks on disk; [bl]
    is the block of [prev].  The heights decrease, so the height of the first
    block bounds the rounds. *)
Fixpoint walk_fork (os : Os) (fuel : nat) (w : W) (stake : CTransaction) (prev : ptr) (bl : CBlock) (readBlock : Z) : option (outcome unit) :=
  inside ← Chain_Contains (w_tree w) w.(w_chain).(cs_active) prev;
  if inside : bool then Some (Done tt)
  else
    let readBlock := readBlock + 1 in
    if readBlock =? nMaxReorgDepth (node_of w) then Some Refused
    else if spends_stake stake bl then Some (Rejected (mkRejection 100 "" false))
    else match fuel with
    | O => None
    | Datatypes.S fuel =>
        b ← w_tree w !! prev;
        q ← b.(pprev);
        bq ← w_tree w !! q;
        match ReadBlockFromDisk_index (node_of w).(consensus) (IsRegTestNet (node_of w)) os bq w.(w_files) with
        | None => Some Refused
        | Some bl => walk_fork os fuel w stake q bl readBlock
        end
    end.

(** The check of the stake: on a fork against the blocks of the fork, otherwise
    against the coins. *)
Definition check_stake_inputs (os : Os) (block : CBlock) (pindexPrev : option ptr) (w : W) : option (outcome unit) :=
  if negb (CBlock_IsProofOfStake block) then Some (Done tt)
  else
    stake ← block.(vtx) !! 1%nat;
    let isBlockFromFork := bool_decide (pindexPrev ≠ None) && negb (bool_decide (tip w.(w_chain) = pindexPrev)) in
    r ← (if isBlockFromFork then
           p ← pindexPrev;
           b ← w_tree w !! p;
           match ReadBlockFromDisk_index (node_of w).(consensus) (IsRegTestNet (node_of w)) os b w.(w_files) with
           | None => Some Refused
           | Some bl => walk_fork os (Z.to_nat (b.(nHeight) + 1)) w stake p bl 0
           end
         else Some (Done tt));
    match r with
    | Done _ =>
        if existsb (λ i, IsSpent (access_coin w.(w_chain).(cs_coins) i.(prevout))) stake.(vin) && negb isBlockFromFork
        then Some Refused else Some (Done tt)
    | _ => Some r
    end.

(** The part that writes the block and links it; [dbp] is the place of a block
    that is on disk already. *)
Definition write_and_link (os : Os) (block : CBlock) (p : ptr) (dbp : option CDiskBlockPos) (w : W) : option (outcome ptr * W) :=
  b ← w_tree w !! p;
  '(r, f) ← match dbp with
            | None => store_block linux messageStart os block b.(nHeight) w.(w_files)
            | Some pos =>
                '(ok, pos, f) ← FindBlockPos linux os pos (u32 (GetBlockSize block + 8)) b.(nHeight) block.(header).(hdr_nTime) true w.(w_files);
                Some (if ok : bool then IoOk pos else IoError, f)
            end;
  let w := with_files f w in
  match r with
  | IoOk pos =>
      c ← ReceivedBlockTransactions block.(vtx) p pos.(pos_nFile) pos.(pos_nPos) w.(w_chain);
      Some (Done p, with_chain c w)
  | _ => Some (SystemFailure, w)
  end.

(** The entry of a block that breaks a rule is marked unless the data may be corrupted. *)
Definition mark_failed (p : ptr) (r : rejection) (w : W) : W :=
  if r.(rj_corruption) then w else with_chain (with_tree (add_status BLOCK_FAILED_VALID p (w_tree w)) w.(w_chain)) w.

Definition AcceptBlock (os : Os) (block : CBlock) (dbp : option CDiskBlockPos) (w : W) : option (outcome ptr * W) :=
  on_done (GetPrevIndex block w) (λ pindexPrev w,
    work ← (if bool_decide (Block_GetHash block = (node_of w).(hashGenesisBlock)) then Some true else CheckWork (node_of w) block pindexPrev);
    if negb work then Some (Refused, w)
    else
      stake ← (if CBlock_IsProofOfStake block then CheckProofOfStake (node_of w) block pindexPrev else Some true);
      if negb stake then Some (Rejected (mkRejection 100 "" false), w)
      else
        on_done (AcceptBlockHeader block pindexPrev w) (λ p w,
          b ← w_tree w !! p;
          if have_data b then Some (Done p, w)
          else match v_then (CheckBlock (node_of w) block true true true).1 (ContextualCheckBlock (node_of w) block b.(pprev)) with
          | Reject (Some r) => Some (Rejected r, mark_failed p r w)
          | Reject None => Some (Refused, w)
          | Undefined => None
          | Accept =>
              inputs ← check_stake_inputs os block pindexPrev w;
              match inputs with
              | Done _ => write_and_link os block p dbp w
              | Rejected r => Some (Rejected r, w)
              | Refused => Some (Refused, w)
              | SystemFailure => Some (SystemFailure, w)
              end
          end)).

(** ** [ProcessNewBlock] *)

Definition ProcessNewBlock (os : Os) (block : CBlock) (dbp : option CDiskBlockPos) (w : W) : option (outcome unit * W) :=
  let '(v, block) := CheckBlock (node_of w) block true true true in
  by_verdict v w (
    on_done (AcceptBlock os block dbp w) (λ _ w,
      '(ok, c) ← ActivateBestChain w.(w_chain);
      Some (if ok : bool then Done tt else SystemFailure, with_chain c w))).
End accept.
