(* ===== verification/AcceptSound.v ===== *)
(** * AcceptSound: what the acceptance of blocks preserves

    The invariant of a node ([world_inv]) and that [AcceptBlock] and
    [ProcessNewBlock] preserve it on every path on which the checks of the block
    are defined ([checks_defined]) and no failed block is reconsidered for a
    checkpoint ([no_failed_checkpoint]); that a rejected block leaves at most
    its header behind, and that an entry is only marked invalid for a
    block that its header determines. *)

From stdpp Require Import strings.
From S2P Require Import Prelude ArithUint256 Params Chain Pow Script Interpreter Serialize Transaction SigHash TxVerify Block Coins CoinsUpdate Merkle StakeModifier ChainState ChainActivate ChainInvalidate ChainReceive ChainFrame Standard Compressor BlockCheck BlockSound BlockFiles Kernel BlockAccept.
Local Open Scope Z_scope.

(** ** Fields of a new entry *)

(** What the stake modifier does not change. *)
Definition not_stake (b : CBlockIndex) :=
  (links b, b.(phashBlock), b.(nTx), b.(nChainTx), b.(nStatus), b.(nBits)).

Lemma set_stake_fields b m f : not_stake (set_stake b m f) = not_stake b.
Proof. by destruct b. Qed.
Lemma SetProofOfStake_fields b : not_stake (SetProofOfStake b) = not_stake b.
Proof. apply set_stake_fields. Qed.
Lemma SetNewStakeModifierV1_fields `{ScriptCrypto} address index t b b' : SetNewStakeModifierV1 address index t b = Some b' → not_stake b' = not_stake b.
Proof.
  unfold SetNewStakeModifierV1. destruct (ComputeNextStakeModifier _ _ _ _) as [[[ok m] gen]|]; [|done]. cbn [mbind option_bind]. intros [= <-].
  unfold SetStakeModifierV1. rewrite set_stake_fields. unfold SetStakeEntropyBit. destruct (1 <? _); [done|]. apply set_stake_fields.
Qed.
Lemma SetNewStakeModifierV2_fields `{ScriptCrypto} t b h b' : SetNewStakeModifierV2 t b h = Some b' → not_stake b' = not_stake b.
Proof.
  unfold SetNewStakeModifierV2. destruct (pprev b) as [q|]; [|done]. cbn [mbind option_bind]. destruct (t !! q); [|done]. cbn [mbind option_bind].
  destruct (GetStakeModifierV2 _); [|done]. cbn [mbind option_bind]. intros [= <-]. apply set_stake_fields.
Qed.
Lemma set_nChainWork_fields b x : links (set_nChainWork b x) = (b.(pprev), b.(pskip), b.(nHeight), x) ∧ phashBlock (set_nChainWork b x) = phashBlock b ∧
  nTx (set_nChainWork b x) = nTx b ∧ nChainTx (set_nChainWork b x) = nChainTx b ∧ nStatus (set_nChainWork b x) = nStatus b.
Proof. by destruct b. Qed.

Lemma GetBlockProof_bits b b' : b.(nBits) = b'.(nBits) → GetBlockProof b = GetBlockProof b'.
Proof. unfold GetBlockProof. by intros ->. Qed.

Lemma raise_tree b : b.(nStatus) = 0 → RaiseValidity b BLOCK_VALID_TREE = Some (true, set_nStatus b BLOCK_VALID_TREE).
Proof. intros E. unfold RaiseValidity. by rewrite E. Qed.

Section accepting.
Context {S : Type} {CC : ChainCoins S} {CCL : ChainCoinsLaws S} {SC : SigCrypto} {SV : SaplingVerifier} {EC : Secp256k1}.
Context (env : ChainState S → Node) (alloc : BlockTree → ptr) (access_coin : S → COutPoint → Coin) (address : Z).
Context (linux : bool) (messageStart : list Z).
(** [new] returns an address that is not in use, and the genesis block is a constant. *)
Context (g : ptr) (gh : base_uint).
Context (alloc_fresh : ∀ t, t !! alloc t = None).
Context (env_genesis : ∀ c, (env c).(hashGenesisBlock) = gh).
Abbreviation W := (World S).
Implicit Types w : W.

(** ** The invariant *)

(** [M] bounds the number of transactions of a block and [H] the height. *)
Record world_inv (M H : Z) w (tp hw : ptr) : Prop := {
  wi_receiving : receiving g M H w.(w_chain) tp hw;
  wi_data : tx_data (w_tree w);
  wi_index h p : w.(w_index) !! h = Some p ↔ ∃ b, w_tree w !! p = Some b ∧ b.(phashBlock) = h;
  wi_genesis : ∃ b, w_tree w !! g = Some b ∧ b.(phashBlock) = gh;
  wi_header p : w.(w_best_header) = Some p → p ∈ dom (w_tree w);
}.

Lemma world_tree M H w tp hw : world_inv M H w tp hw → tree_inv g (w_tree w).
Proof. intros Hw. apply (cc_tree _ _ _ (ci_core _ _ _ _ (rc_inv _ _ _ _ _ _ (wi_receiving _ _ _ _ _ Hw)))). Qed.

(** The work that a block adds. *)
Definition block_work (block : CBlock) : Z := match GetBlockProof (new_entry block) with Some x => val x | None => 0 end.

(** The numbers of a block on top of the entry [bq]. *)
Record block_fits (M H : Z) (block : CBlock) (bq : CBlockIndex) : Prop := {
  bf_bits : is_u32 block.(header).(hdr_nBits);
  bf_work : 0 < block_work block;
  bf_total : val bq.(nChainWork) + block_work block < 2 ^ 256;
  bf_height : bq.(nHeight) + 1 <= H;
  bf_txs : 0 < Z.of_nat (length block.(vtx)) <= M;
  bf_max : M < 2 ^ 32;
}.

Lemma new_entry_fields block : let b := new_entry block in
  not_stake b = ((None, None, 0, uint_zero 8), Block_GetHash block, 0, 0, 0, block.(header).(hdr_nBits)).
Proof. cbn zeta. unfold new_entry. destruct (CBlock_IsProofOfStake block); [by rewrite SetProofOfStake_fields|done]. Qed.

(** ** [AddToBlockIndex] *)

Lemma link_entry_spec n index t p block q bq b' :
  wf_tree t → t !! p = None → t !! q = Some bq → index !! block.(header).(hashPrevBlock) = Some q →
  link_entry address n index (<[p := new_entry block]> t) block (new_entry block) = Some b' →
  entry_ok t b' ∧ b'.(pprev) = Some q ∧ b'.(nHeight) = bq.(nHeight) + 1 ∧ b'.(phashBlock) = Block_GetHash block ∧ b'.(nTx) = 0 ∧
  b'.(nChainTx) = 0 ∧ b'.(nStatus) = 0 ∧ b'.(nBits) = block.(header).(hdr_nBits).
Proof.
  intros Hwf Hp Hq Hi. pose proof (new_entry_fields block) as Hf. cbn zeta in Hf. set (b0 := new_entry block) in *. injection Hf as F1 F2 F3 F4 F5 F6 F7 F8 F9.
  assert (wf_tree (<[p := b0]> t)) as Hwf'.
  { apply wf_tree_insert; [done|done|]. unfold entry_ok. by rewrite F1. }
  assert (<[p := b0]> t !! q = Some bq) as Hq' by (rewrite lookup_insert_ne; [done|congruence]).
  unfold link_entry. rewrite Hi, Hq'. cbn [mbind option_bind].
  set (b1 := set_links b0 (Some q) None (nHeight bq + 1)).
  assert (pprev b1 = Some q ∧ nHeight b1 = nHeight bq + 1) as [E1 E2] by by destruct b0.
  destruct (BuildSkip_spec (<[p := b0]> t) b1 q bq Hwf' Hq' E1 E2) as (b2 & Es & Ep & Eh & Hok). rewrite Es. cbn [mbind option_bind].
  assert (phashBlock b2 = phashBlock b0 ∧ nTx b2 = nTx b0 ∧ nChainTx b2 = nChainTx b0 ∧ nStatus b2 = nStatus b0 ∧ nBits b2 = nBits b0) as (G1 & G2 & G3 & G4 & G5).
  { unfold BuildSkip in Es. rewrite E1 in Es. destruct (GetAncestor _ _ _); [|done]. injection Es as <-. unfold b1. by destruct b0. }
  assert (entry_ok t b2) as Hok2.
  { unfold entry_ok in *. rewrite Ep in *. destruct Hok as (bq' & Hbq' & Hx1 & Hx2 & Hx3). rewrite Hq' in Hbq'. injection Hbq' as <-. exists bq.
    split_and!; [done|done|done|]. by rewrite Hx3, (leaf_up t p b0 Hwf Hp q bq). }
  intros Hb'. assert (not_stake b' = not_stake b2) as Hns.
  { destruct (negb _); [by apply SetNewStakeModifierV1_fields in Hb'|]. destruct (vtx block !! 1%nat); [|done]. cbn [mbind option_bind] in Hb'.
    destruct (vin c !! 0%nat); [|done]. cbn [mbind option_bind] in Hb'. by apply SetNewStakeModifierV2_fields in Hb'. }
  injection Hns as N1 N2 N3 N4 N5 N6 N7 N8 N9. rewrite N1, N3, N5, N6, N7, N8, N9.
  split; [|split_and!; congruence]. unfold entry_ok in *. rewrite N1, N2, N3. exact Hok2.
Qed.

Lemma add_work_spec t b b' q bq block : b.(pprev) = Some q → t !! q = Some bq → wf 8 bq.(nChainWork) → b.(nBits) = block.(header).(hdr_nBits) →
  is_u32 block.(header).(hdr_nBits) → val bq.(nChainWork) + block_work block < 2 ^ 256 → add_work t b = Some b' →
  b' = set_nChainWork b b'.(nChainWork) ∧ wf 8 b'.(nChainWork) ∧ val b'.(nChainWork) = val bq.(nChainWork) + block_work block.
Proof.
  intros Hp Hq Hw Hbits Hu Hlt. unfold add_work. rewrite Hp, Hq. cbn [mbind option_bind].
  assert (nBits b = nBits (new_entry block)) as Eb.
  { pose proof (new_entry_fields block) as Hf. cbn zeta in Hf. injection Hf as _ _ _ _ _ _ _ _ Hf. congruence. }
  destruct (GetBlockProof_spec b) as (x & Ex & Hwx & _); [by rewrite Hbits|]. unfold block_work in *.
  rewrite <- (GetBlockProof_bits b (new_entry block) Eb), Ex in *. cbn [mbind option_bind].
  intros [= <-]. destruct (bu_add _ _ Hw Hwx) as [Hwa Hva].
  assert (nChainWork (set_nChainWork b (uint_add (nChainWork bq) x)) = uint_add (nChainWork bq) x) as -> by by destruct b.
  split; [done|]. split; [done|]. rewrite Hva. pose proof (wf_bounds W256 _ Hw) as B1. pose proof (wf_bounds W256 _ Hwx) as B2.
  change 8%nat with W256. rewrite modulus_256 in *. apply Z.mod_small. lia.
Qed.

(** The chain and the coins stay as they are. *)
Definition same_chain w w' : Prop :=
  w'.(w_chain).(cs_active) = w.(w_chain).(cs_active) ∧ w'.(w_chain).(cs_coins) = w.(w_chain).(cs_coins).

Lemma AddToBlockIndex_spec M H w tp hw block p w' q bq :
  world_inv M H w tp hw → w.(w_index) !! Block_GetHash block = None → w.(w_index) !! block.(header).(hashPrevBlock) = Some q →
  w_tree w !! q = Some bq → block_fits M H block bq → AddToBlockIndex env alloc address block w = Some (p, w') →
  world_inv M H w' tp hw ∧ same_chain w w' ∧ w'.(w_files) = w.(w_files) ∧ w_tree w !! p = None ∧
  ∃ b, w_tree w' = <[p := b]> (w_tree w) ∧ b.(phashBlock) = Block_GetHash block ∧ b.(pprev) = Some q ∧ b.(nTx) = 0 ∧ b.(nChainTx) = 0 ∧
    b.(nStatus) = BLOCK_VALID_TREE.
Proof.
  intros Hw Hnew Hprev Hq [F1 F2 F3 F4 F5 F6]. pose proof (world_tree _ _ _ _ _ Hw) as Ht. pose proof (ti_wf _ _ Ht) as Hwf.
  pose proof (alloc_fresh (w_tree w)) as Hfr. unfold AddToBlockIndex. rewrite Hnew. set (x := alloc (w_tree w)) in *.
  set (index := <[Block_GetHash block := x]> (w_index w)).
  assert (index !! hashPrevBlock (header block) = Some q) as Hi by (unfold index; rewrite lookup_insert_ne; [done|congruence]).
  destruct (link_entry _ _ _ _ _ _) as [b1|] eqn:E1; [|done]. cbn [mbind option_bind].
  apply (link_entry_spec _ _ (w_tree w) x block q bq) in E1 as (Hok & Ep & Eh & Ehash & Etx & Ectx & Est & Ebits); [|done..].
  set (t := <[x:=new_entry block]> (w_tree w)). assert (t !! q = Some bq) as Hq' by (unfold t; rewrite lookup_insert_ne; [done|congruence]).
  destruct (add_work t b1) as [b2|] eqn:E2; [|done]. cbn [mbind option_bind].
  apply (add_work_spec t b1 b2 q bq block) in E2 as (Eb2 & Hww & Hval); [|done|done|by apply (ti_works _ _ Ht q)|done|done|done].
  destruct (set_nChainWork_fields b1 (nChainWork b2)) as (G1 & G2 & G3 & G4 & G5). rewrite <- Eb2 in G1, G2, G3, G4, G5.
  rewrite raise_tree by congruence. cbn [mbind option_bind].
  set (b := set_nStatus b2 BLOCK_VALID_TREE). destruct (set_nStatus_fields b2 BLOCK_VALID_TREE) as (S1 & S2 & S3 & S4 & S5). fold b in S1, S2, S3, S4, S5.
  assert (<[x:=b]> t = <[x:=b]> (w_tree w)) as Et by (unfold t; apply insert_insert_eq). rewrite Et.
  destruct (match w_best_header w with None => _ | Some h => _ end) as [better|]; [|done]. cbn [mbind option_bind]. intros [= <- <-].
  rewrite G1 in S2. injection S2 as L1 L2 L3 L4.
  assert (receiving g M H (with_tree (<[x:=b]> (w_tree w)) (w_chain w)) tp hw) as Hrc.
  { apply (leaf_receiving g (w_chain w) tp x b q bq); [done| |congruence|done|by rewrite L4|rewrite L4, Hval; lia|apply Hw|congruence|congruence|lia|lia].
    unfold entry_ok in *. by rewrite L1, L2, L3. }
  split; [|split; [done|]; split; [done|]; split; [done|]; exists b; split_and!; [done|congruence..]].
  split; cbn [w_chain w_index w_best_header w_tree].
  - exact Hrc.
  - intros p c Hp. cbn in Hp. destruct (decide (x = p)) as [<-|Hne]; [|rewrite lookup_insert_ne in Hp by done; by apply (wi_data _ _ _ _ _ Hw p)].
    rewrite lookup_insert_eq in Hp. injection Hp as <-. rewrite S4, S5, G3, G4, Etx, Ectx. split; lia.
  - intros h p. cbn. destruct (decide (h = Block_GetHash block)) as [->|Hne].
    + unfold index. rewrite lookup_insert_eq. split; [intros [= <-]; exists b; rewrite lookup_insert_eq; split; [done|congruence]|].
      intros (c & Hc & Hh). destruct (decide (x = p)) as [<-|Hnp]; [done|]. rewrite lookup_insert_ne in Hc by done.
      assert (w_index w !! Block_GetHash block = Some p) by (apply (wi_index _ _ _ _ _ Hw); eauto). congruence.
    + unfold index. rewrite lookup_insert_ne by done. rewrite (wi_index _ _ _ _ _ Hw). split; intros (c & Hc & Hh).
      * exists c. split; [|done]. rewrite lookup_insert_ne; [done|congruence].
      * destruct (decide (x = p)) as [<-|Hnp]; [rewrite lookup_insert_eq in Hc; injection Hc as <-; congruence|].
        rewrite lookup_insert_ne in Hc by done. eauto.
  - destruct (wi_genesis _ _ _ _ _ Hw) as (c & Hc & Hh). exists c. cbn. split; [|done]. rewrite lookup_insert_ne; [done|congruence].
  - intros p. cbn. rewrite dom_insert_L. destruct better; [intros [= <-]; set_solver|]. intros Hp%(wi_header _ _ _ _ _ Hw). set_solver.
Qed.

(** ** [GetPrevIndex] and [AcceptBlockHeader] *)

(** No failed block matches a checkpoint; then [GetPrevIndex] reconsiders nothing. *)
Definition no_failed_checkpoint w : Prop :=
  ∀ p b, w_tree w !! p = Some b → failed b = true → Checkpoints_CheckBlock (node_of env w) b.(nHeight) b.(phashBlock) true = false.

(** The parent that [GetPrevIndex] found. *)
Definition found_parent (block : CBlock) w (o : option ptr) : Prop :=
  match o with
  | None => Block_GetHash block = gh
  | Some q => Block_GetHash block ≠ gh ∧ w.(w_index) !! block.(header).(hashPrevBlock) = Some q ∧ ∃ bq, w_tree w !! q = Some bq ∧ failed bq = false
  end.

Lemma GetPrevIndex_spec M H w tp hw block o w' : world_inv M H w tp hw → no_failed_checkpoint w → GetPrevIndex env block w = Some (o, w') →
  w' = w ∧ ∀ a, o = Done a → found_parent block w a.
Proof.
  intros Hw Hno. unfold GetPrevIndex. change (hashGenesisBlock (node_of env w)) with (hashGenesisBlock (env (w_chain w))). rewrite env_genesis.
  case_bool_decide as Eg; [intros [= <- <-]; split; [done|]; by intros a [= <-]|].
  destruct (w_index w !! _) as [q|] eqn:Eq; [|intros [= <- <-]; by split].
  apply (wi_index _ _ _ _ _ Hw) in Eq as Hq. destruct Hq as (bq & Hbq & Hh). rewrite Hbq. cbn [mbind option_bind]. destruct (failed bq) eqn:Ef.
  - rewrite <- Hh, (Hno q bq Hbq Ef). intros [= <- <-]. by split.
  - intros [= <- <-]. split; [done|]. intros a [= <-]. cbn. eauto 10.
Qed.

(** The entries that were there stay, and a new one is not failed. *)
Definition headers_grow w w' : Prop :=
  (∀ x c, w_tree w !! x = Some c → w_tree w' !! x = Some c) ∧ ∀ x c, w_tree w' !! x = Some c → w_tree w !! x = Some c ∨ failed c = false.

Definition same_rest w w' : Prop :=
  same_chain w w' ∧ w'.(w_files) = w.(w_files) ∧ w'.(w_chain).(cs_candidates) = w.(w_chain).(cs_candidates).

Lemma AddToBlockIndex_rest block w p w' : AddToBlockIndex env alloc address block w = Some (p, w') →
  w'.(w_chain).(cs_candidates) = w.(w_chain).(cs_candidates) ∧ w'.(w_index) !! Block_GetHash block = Some p.
Proof.
  unfold AddToBlockIndex. destruct (w_index w !! Block_GetHash block) as [q|] eqn:E; [by intros [= <- <-]|].
  destruct (link_entry _ _ _ _ _ _); [|done]. cbn [mbind option_bind]. destruct (add_work _ _); [|done]. cbn [mbind option_bind].
  destruct (RaiseValidity _ _) as [[r b]|]; [|done]. cbn [mbind option_bind]. destruct (match w_best_header w with None => _ | Some h => _ end); [|done].
  cbn [mbind option_bind]. intros [= <- <-]. split; [done|]. apply lookup_insert_eq.
Qed.

Lemma AcceptBlockHeader_spec M H w tp hw block prev o w' :
  world_inv M H w tp hw → no_failed_checkpoint w → found_parent block w prev →
  (∀ q bq, w.(w_index) !! block.(header).(hashPrevBlock) = Some q → w_tree w !! q = Some bq → block_fits M H block bq) →
  AcceptBlockHeader env alloc address block prev w = Some (o, w') →
  world_inv M H w' tp hw ∧ same_rest w w' ∧ headers_grow w w' ∧
  ∀ p, o = Done p → w'.(w_index) !! Block_GetHash block = Some p ∧ ∃ b, w_tree w' !! p = Some b ∧ failed b = false.
Proof.
  intros Hw Hno Hprev Hfits. unfold AcceptBlockHeader.
  assert (headers_grow w w) as Hg0 by (split; [done|by left]).
  destruct (w_index w !! Block_GetHash block) as [p|] eqn:Ei.
  - apply (wi_index _ _ _ _ _ Hw) in Ei as Hp. destruct Hp as (b & Hb & Hh). rewrite Hb. cbn [mbind option_bind].
    destruct (failed b) eqn:Ef; intros [= <- <-]; (split; [done|]; split; [done|]; split; [done|]); [done|]. intros p' [= <-]. eauto.
  - destruct prev as [q|].
    2:{ destruct (wi_genesis _ _ _ _ _ Hw) as (bg & Hbg & Hh). cbn in Hprev.
        assert (w_index w !! Block_GetHash block = Some g) as E by (apply (wi_index _ _ _ _ _ Hw); exists bg; split; [done|congruence]). congruence. }
    destruct Hprev as (_ & Hq & bq & Hbq & _). unfold on_done. cbn [mbind option_bind]. unfold by_verdict.
    destruct (ContextualCheckBlockHeader _ _ _) as [|[r|]|]; [|by intros [= <- <-]..|done].
    destruct (AddToBlockIndex _ _ _ _ _) as [[p w1]|] eqn:E; [|done]. cbn [mbind option_bind]. intros [= <- <-].
    destruct (AddToBlockIndex_spec M H w tp hw block p w1 q bq Hw Ei Hq Hbq (Hfits q bq Hq Hbq) E) as (Hw1 & Hsc & Hf & Hnew & b & Et & Eh & _ & _ & _ & Est).
    destruct (AddToBlockIndex_rest _ _ _ _ E) as [Hc Hi]. split; [done|]. split; [by split|].
    assert (failed b = false) as Hfb by (unfold failed; by rewrite Est).
    split.
    + split; rewrite Et; intros x c Hx; [rewrite lookup_insert_ne; [done|congruence]|].
      destruct (decide (p = x)) as [<-|Hne]; [rewrite lookup_insert_eq in Hx; right; congruence|left; by rewrite lookup_insert_ne in Hx].
    + intros p' [= <-]. split; [done|]. exists b. split; [rewrite Et; apply lookup_insert_eq|done].
Qed.

(** An entry without data is not the genesis block. *)
Lemma no_data_parent M H w tp hw p b : world_inv M H w tp hw → w_tree w !! p = Some b → have_data b = false →
  b.(nTx) <= 0 ∧ b.(nChainTx) = 0 ∧ ∃ q bq, b.(pprev) = Some q ∧ w_tree w !! q = Some bq.
Proof.
  intros Hw Hp Hd. destruct (wi_data _ _ _ _ _ Hw p b Hp) as [D1 D2]. pose proof (world_tree _ _ _ _ _ Hw) as Ht.
  assert (nTx b <= 0) as Hn by (destruct (Z_le_gt_dec b.(nTx) 0); [done|]; rewrite D2 in Hd by lia; done).
  assert (nChainTx b = 0) as Hc by (destruct (Z.eq_dec b.(nChainTx) 0); [done|]; specialize (D1 n); lia).
  split; [done|]. split; [done|]. pose proof (ti_wf _ _ Ht p b Hp) as He. unfold entry_ok in He. destruct (pprev b) as [q|] eqn:Eq.
  - destruct He as (bq & Hbq & _). eauto.
  - pose proof (genesis_height g _ p b Ht Hp He) as ->. by apply (ii_genesis _ _ (rc_index _ _ _ _ _ _ (wi_receiving _ _ _ _ _ Hw))) in Hp.
Qed.

(** Marking an entry without data. *)
Lemma mark_failed_spec M H w tp hw p b r : world_inv M H w tp hw → w_tree w !! p = Some b → have_data b = false →
  world_inv M H (mark_failed p r w) tp hw ∧ same_rest w (mark_failed p r w).
Proof.
  intros Hw Hp Hd. unfold mark_failed. destruct (rj_corruption r); [by split|]. split; [|done].
  destruct (no_data_parent M H w tp hw p b Hw Hp Hd) as (_ & Hn & q & bq & Hq & _).
  assert (tree_kept (w_tree w) (add_status BLOCK_FAILED_VALID p (w_tree w))) as Hk by (apply tree_kept_add_status; by left).
  assert (add_status BLOCK_FAILED_VALID p (w_tree w) = <[p := set_nStatus b (Z.lor b.(nStatus) BLOCK_FAILED_VALID)]> (w_tree w)) as Ea.
  { unfold add_status. apply map_eq. intros x. rewrite lookup_alter, lookup_insert. case_decide as E; [subst x; by rewrite Hp|done]. }
  destruct (set_nStatus_fields b (Z.lor b.(nStatus) BLOCK_FAILED_VALID)) as (_ & L & _ & _ & N).
  split.
  - apply (receiving_frame g M H w.(w_chain) _ tp hw tp hw); [apply Hw|by split|]. cbn. rewrite Ea.
    apply (update_inv g w.(w_chain) tp hw p b _ q); [apply Hw|done|done|done|done|congruence].
  - by apply (tx_data_kept (w_tree w)), Hw.
  - intros h x. cbn. rewrite (wi_index _ _ _ _ _ Hw). split; intros (c & Hc & Hh).
    + destruct (tree_kept_lookup_fwd _ _ x c Hk Hc) as (c' & Hc' & [_ K _ _ _ _]). exists c'. split; [done|congruence].
    + destruct (tree_kept_lookup _ _ x c Hk Hc) as (c' & Hc' & [_ K _ _ _ _]). exists c'. split; [done|congruence].
  - destruct (wi_genesis _ _ _ _ _ Hw) as (c & Hc & Hh). destruct (tree_kept_lookup_fwd _ _ g c Hk Hc) as (c' & Hc' & [_ K _ _ _ _]).
    exists c'. split; [done|congruence].
  - intros x Hx%(wi_header _ _ _ _ _ Hw). apply elem_of_dom in Hx as [c Hc]. cbn. destruct (tree_kept_lookup_fwd _ _ x c Hk Hc) as (c' & Hc' & _).
    apply elem_of_dom. eauto.
Qed.

(** ** [AcceptBlock] *)

Lemma write_and_link_spec M H w tp hw os block p b dbp o w' :
  world_inv M H w tp hw → w_tree w !! p = Some b → have_data b = false → failed b = false →
  0 < Z.of_nat (length block.(vtx)) <= M → M < 2 ^ 32 → write_and_link linux messageStart os block p dbp w = Some (o, w') →
  world_inv M H w' tp hw ∧ same_chain w w' ∧ w'.(w_index) = w.(w_index) ∧
  (∀ x c', w_tree w' !! x = Some c' → ∃ c, w_tree w !! x = Some c ∧ failed c' = failed c) ∧
  (o = SystemFailure ∧ w_chain w' = w_chain w ∨ o = Done p ∧ ∃ b', w_tree w' !! p = Some b' ∧ have_data b' = true).
Proof.
  intros Hw Hp Hd Hf Hl HM. unfold write_and_link. rewrite Hp. cbn [mbind option_bind].
  destruct (match dbp with None => _ | Some pos => _ end) as [[r f]|]; [|done]. cbn [mbind option_bind].
  assert (world_inv M H (with_files f w) tp hw) as Hwf by (destruct Hw as [W1 W2 W3 W4 W5]; by split).
  destruct r as [pos| |].
  2-3: intros [= <- <-]; split; [done|]; split; [done|]; split; [done|]; split; [intros x c Hc; by exists c|by left].
  destruct (no_data_parent M H w tp hw p b Hw Hp Hd) as (Htx & Hctx & q & bq & Hq & Hbq).
  assert (block.(vtx) ≠ []) as Hv by (intros E; rewrite E in Hl; cbn in Hl; lia).
  pose proof (rc_unlinked _ _ _ _ _ _ (wi_receiving _ _ _ _ _ Hw)) as Hu.
  assert (p ∉ (cs_unlinked (w_chain w)).*2) as Hnu.
  { intros [[a x] [-> Hax]]%list_elem_of_fmap. destruct (uo_waits _ Hu a x Hax) as [(c & Hc & _ & _ & Hpos & _) _]. cbn in Hp.
    unfold w_tree in Hp. rewrite Hc in Hp. injection Hp as ->. lia. }
  change (w_chain (with_files f w)) with (w_chain w). change (w_tree w) with (cs_tree (w_chain w)) in *.
  destruct (ReceivedBlockTransactions_spec g M H (w_chain w) tp hw block.(vtx) p b q bq pos.(pos_nFile) pos.(pos_nPos))
    as (c & E & Hrc & Ea & Ec & _); [apply Hw|done|done|done|done|done|done|lia|done|]. rewrite E. cbn [mbind option_bind]. intros [= <- <-].
  destruct (ReceivedBlockTransactions_body block.(vtx) p pos.(pos_nFile) pos.(pos_nPos) (w_chain w) c b E) as (Hrel & Htd & Hdat);
    [done|done|lia|apply Hw| |].
  { intros x [[a y] [-> Hax]]%list_elem_of_fmap. destruct (uo_waits _ Hu a y Hax) as [(d & Hd' & _ & _ & Hpos & _) _]. exists d. by split. }
  assert (∀ x d', cs_tree c !! x = Some d' → ∃ d, cs_tree (w_chain w) !! x = Some d ∧ phashBlock d' = phashBlock d ∧ failed d' = failed d) as Hback.
  { intros x d' Hd'. specialize (Hrel x). rewrite Hd' in Hrel. inversion Hrel as [d ? (R1 & _ & R3 & _) Eq|]; subst. eauto. }
  assert (∀ x d, cs_tree (w_chain w) !! x = Some d → ∃ d', cs_tree c !! x = Some d' ∧ phashBlock d' = phashBlock d) as Hfwd.
  { intros x d Hd'. specialize (Hrel x). rewrite Hd' in Hrel. inversion Hrel as [? d' (R1 & _ & R3 & _) Eq|]; subst. eauto. }
  split.
  - destruct Hw as [W1 W2 W3 W4 W5]. split; [done|done| | |].
    + intros h x. cbn. rewrite W3. split; intros (d & Hd' & Hh).
      * destruct (Hfwd x d Hd') as (d' & ? & ?). exists d'. split; [done|congruence].
      * destruct (Hback x d Hd') as (d' & ? & ? & _). exists d'. split; [done|congruence].
    + destruct W4 as (d & Hd' & Hh). destruct (Hfwd g d Hd') as (d' & ? & ?). exists d'. split; [done|congruence].
    + intros x [d Hd']%W5%elem_of_dom. destruct (Hfwd x d Hd') as (d' & ? & _). apply elem_of_dom. eauto.
  - split; [by split|]. split; [done|]. split; [|by right]. intros x d' Hd'. destruct (Hback x d' Hd') as (d & ? & _ & ?). eauto.
Qed.

(** The verdicts for which [AcceptBlock] marks an entry. *)
Definition breaks_rule (block : CBlock) (r : rejection) : Prop :=
  r.(rj_corruption) = false ∧ ∃ n prev, v_then (CheckBlock n block true true true).1 (ContextualCheckBlock n block prev) = Reject (Some r).

Record accepted (M H : Z) (block : CBlock) w tp hw (o : outcome ptr) w' : Prop := {
  ac_inv : world_inv M H w' tp hw;
  ac_chain : same_chain w w';
  ac_done p : o = Done p → w'.(w_index) !! Block_GetHash block = Some p ∧ ∃ b, w_tree w' !! p = Some b ∧ have_data b = true ∧ failed b = false;
  ac_candidates : w'.(w_chain).(cs_candidates) = w.(w_chain).(cs_candidates) ∨ ∃ p, o = Done p;
  ac_failed x c' : w_tree w' !! x = Some c' → failed c' = true →
    (∃ c, w_tree w !! x = Some c ∧ failed c = true) ∨ c'.(phashBlock) = Block_GetHash block ∧ ∃ r, o = Rejected r ∧ breaks_rule block r;
}.

(** Nothing but a header was added. *)
Lemma accepted_header M H block w tp hw (o : outcome ptr) w' : world_inv M H w' tp hw → same_rest w w' → headers_grow w w' → (∀ p, o ≠ Done p) →
  accepted M H block w tp hw o w'.
Proof.
  intros Hw (Hc & _ & Hd) [_ Hg] Ho. split; [done|done|by intros p E; destruct (Ho p)|by left|].
  intros x c' Hx Hf. left. destruct (Hg x c' Hx) as [?|E]; [eauto|congruence].
Qed.

Lemma AcceptBlock_spec M H w tp hw os block dbp o w' :
  world_inv M H w tp hw → no_failed_checkpoint w →
  (∀ q bq, w.(w_index) !! block.(header).(hashPrevBlock) = Some q → w_tree w !! q = Some bq → block_fits M H block bq) →
  0 < Z.of_nat (length block.(vtx)) <= M → M < 2 ^ 32 →
  AcceptBlock env alloc access_coin address linux messageStart os block dbp w = Some (o, w') → accepted M H block w tp hw o w'.
Proof.
  intros Hw Hno Hfits Hl HM. unfold AcceptBlock. set (F := λ (prev : option ptr) (w : W), _).
  assert (∀ (o : outcome ptr), (∀ p, o ≠ Done p) → accepted M H block w tp hw o w) as Hsame.
  { intros o' Ho. apply accepted_header; [done|done|split; [done|by left]|done]. }
  unfold on_done at 1. destruct (GetPrevIndex env block w) as [[o1 w1]|] eqn:E1; [|done]. cbn [mbind option_bind].
  destruct (GetPrevIndex_spec M H w tp hw block o1 w1 Hw Hno E1) as [-> Hprev]. destruct o1 as [prev|r| |]; [|intros [= <- <-]; by apply Hsame..].
  specialize (Hprev prev eq_refl). unfold F. clear F E1.
  destruct (if bool_decide (Block_GetHash block = _) then _ else _) as [work|]; [|done]. cbn [mbind option_bind].
  destruct work; cbn [negb]; [|intros [= <- <-]; by apply Hsame].
  destruct (if CBlock_IsProofOfStake block then _ else _) as [stake|]; [|done]. cbn [mbind option_bind].
  destruct stake; cbn [negb]; [|intros [= <- <-]; by apply Hsame].
  unfold on_done. destruct (AcceptBlockHeader _ _ _ _ _ _) as [[o1 w1]|] eqn:E1; [|done]. cbn [mbind option_bind].
  destruct (AcceptBlockHeader_spec M H w tp hw block prev o1 w1 Hw Hno Hprev Hfits E1) as (Hw1 & Hrest & Hgrow & Hdone).
  destruct o1 as [p|r| |]; [|intros [= <- <-]; by apply accepted_header..].
  destruct (Hdone p eq_refl) as (Hi & b & Hb & Hf). rewrite Hb. cbn [mbind option_bind]. destruct (have_data b) eqn:Hdata.
  { intros [= <- <-]. split; [done|apply Hrest| |by left; apply Hrest|].
    - intros p' [= <-]. eauto 10.
    - intros x c' Hx Hfc. left. destruct (proj2 Hgrow x c' Hx); [eauto|congruence]. }
  destruct (v_then _ _) as [|[r|]|] eqn:Ev; [| |intros [= <- <-]; by apply accepted_header|done].
  - destruct (check_stake_inputs _ _ _ _ _ _) as [[[]|r| |]|]; cbn [mbind option_bind]; [|intros [= <- <-]; by apply accepted_header..|done].
    intros E2. destruct (write_and_link_spec M H w1 tp hw os block p b dbp o w' Hw1 Hb Hdata Hf Hl HM E2) as (Hw2 & Hsc & Hix & Hfl & Ho).
    destruct Hrest as ((Ra & Rc) & _ & Rk). split; [done|destruct Hsc; split; congruence| | |].
    + intros p' ->. destruct Ho as [[E _]|[[= ->] (b' & Hb' & Hd')]]; [done|]. rewrite Hix. split; [done|]. exists b'. split; [done|]. split; [done|].
      destruct (Hfl p b' Hb') as (c & Hc & ->). rewrite Hb in Hc. by injection Hc as <-.
    + destruct Ho as [[-> E]|[-> _]]; [left; by rewrite E|right; eauto].
    + intros x c' Hx Hfc. destruct (Hfl x c' Hx) as (c & Hc & E). left. destruct (proj2 Hgrow x c Hc); [exists c; split; [done|]; congruence|congruence].
  - intros [= <- <-]. destruct (mark_failed_spec M H w1 tp hw p b r Hw1 Hb Hdata) as [Hw2 [[Ma Mc] [_ Mk]]].
    destruct Hrest as ((Ra & Rc) & _ & Rk). split; [done|split; congruence|done|left; congruence|].
    intros x c' Hx Hfc. unfold mark_failed in Hx. destruct (rj_corruption r) eqn:Er.
    + left. destruct (proj2 Hgrow x c' Hx); [eauto|congruence].
    + cbn in Hx. unfold add_status in Hx. rewrite lookup_alter in Hx. case_decide as Ex.
      * subst x. right. unfold w_tree in *. rewrite Hb in Hx. injection Hx as <-. split.
        -- destruct (set_nStatus_fields b (Z.lor b.(nStatus) BLOCK_FAILED_VALID)) as (_ & _ & -> & _).
           apply (wi_index _ _ _ _ _ Hw1) in Hi as (b0 & Hb0 & Hh). unfold w_tree in Hb0. rewrite Hb in Hb0. by injection Hb0 as <-.
        -- exists r. split; [done|]. split; [done|]. eauto.
      * left. destruct (proj2 Hgrow x c' Hx); [eauto|congruence].
Qed.

(** whatever block arrives, [AcceptBlock] keeps the invariant of the node:
    the index of the hashes, the tree with its growing work, the table of
    waiting blocks, the candidates and the tip, and it leaves the active chain
    and the coins alone.  An accepted block is in the index with its data.  A
    block that is not accepted leaves the candidates as they were, and an entry
    becomes failed only if it is the entry of the block and the block broke a
    rule without a suspicion of corrupted data. *)
Theorem AcceptBlock_keeps_invariant (M H : Z) w (tp hw : ptr) (os : Os) (block : CBlock) (dbp : option CDiskBlockPos) (o : outcome ptr) w' :
  world_inv M H w tp hw → no_failed_checkpoint w →
  (∀ q bq, w.(w_index) !! block.(header).(hashPrevBlock) = Some q → w_tree w !! q = Some bq → block_fits M H block bq) →
  0 < Z.of_nat (length block.(vtx)) <= M → M < 2 ^ 32 →
  AcceptBlock env alloc access_coin address linux messageStart os block dbp w = Some (o, w') → accepted M H block w tp hw o w'.
Proof. apply AcceptBlock_spec. Qed.

(** ** [ProcessNewBlock] *)

Lemma world_activate M H w tp hw c : world_inv M H w tp hw → ActivateBestChain w.(w_chain) = Some (true, c) →
  ∃ tp' hw', world_inv M H (with_chain c w) tp' hw' ∧ tip c = Some tp' ∧ tree_kept (w_tree w) (cs_tree c) ∧ best_active c tp' hw' ∧
    at_least (w_tree w) hw' hw ∧ (ready (cs_tree c) hw' → ∀ p, ready (cs_tree c) p → linked (cs_tree c) p → at_least (cs_tree c) tp' p).
Proof.
  intros Hw E. pose proof (wi_receiving _ _ _ _ _ Hw) as Hrc. destruct (ActivateBestChain_spec g w.(w_chain) tp hw (rc_inv _ _ _ _ _ _ Hrc)) as (ok & c' & E' & Hok).
  rewrite E in E'. injection E' as <- <-. destruct (Hok eq_refl) as (tp' & hw' & Hinv & Ht & Hba & Hhw & _ & _ & Hbest).
  assert (data_ok (w_tree w)) as Hd by (apply (tx_data_ok g w.(w_chain)); [done|by eapply world_tree|apply Hrc|apply Hw]).
  apply ActivateBestChain_frame in E as Hf; [|done]. pose proof (fr_tree _ _ Hf) as Hk. exists tp', hw'. split; [|by split_and!].
  destruct Hw as [W1 W2 W3 W4 W5]. split; cbn.
  - by eapply receiving_frame.
  - by eapply tx_data_kept.
  - intros h p. rewrite W3. split; intros (b & Hb & Hh).
    + destruct (tree_kept_lookup_fwd _ _ p b Hk Hb) as (b' & Hb' & [_ K _ _ _ _]). exists b'. split; [done|congruence].
    + destruct (tree_kept_lookup _ _ p b Hk Hb) as (b' & Hb' & [_ K _ _ _ _]). exists b'. split; [done|congruence].
  - destruct W4 as (b & Hb & Hh). destruct (tree_kept_lookup_fwd _ _ g b Hk Hb) as (b' & Hb' & [_ K _ _ _ _]). exists b'. split; [done|congruence].
  - intros p [b Hb]%W5%elem_of_dom. destruct (tree_kept_lookup_fwd _ _ p b Hk Hb) as (b' & Hb' & _). apply elem_of_dom. eauto.
Qed.

(** The checks of a block are defined: none of them reads a block that is not
    in memory or an element that a block does not have (compare
    [one_transaction_undefined] below). *)
Definition checks_defined (os : Os) (block : CBlock) (dbp : option CDiskBlockPos) w : Prop :=
  (CheckBlock (node_of env w) block true true true).1 ≠ Undefined ∧
  ((CheckBlock (node_of env w) block true true true).1 = Accept →
    AcceptBlock env alloc access_coin address linux messageStart os (CheckBlock (node_of env w) block true true true).2 dbp w ≠ None).


(** With the checkpoints switched off, [Checkpoints::CheckBlock] answers true
    whatever it is asked, and every failed parent is reconsidered. *)
Lemma failed_parent_reconsidered block w p b c ok c' :
  Block_GetHash block ≠ gh → w.(w_index) !! block.(header).(hashPrevBlock) = Some p → w_tree w !! p = Some b → failed b = true →
  (env w.(w_chain)).(checkpoints_fEnabled) = false → ReconsiderBlock p w.(w_chain) = Some c → ActivateBestChain c = Some (ok, c') →
  GetPrevIndex env block w = Some (Done (Some p), with_chain c' w).
Proof.
  intros Hg Hi Hb Hf He Hr Ha. unfold GetPrevIndex. change (hashGenesisBlock (node_of env w)) with (hashGenesisBlock (env (w_chain w))).
  rewrite env_genesis, bool_decide_false, Hi, Hb by done. cbn [mbind option_bind]. rewrite Hf. unfold Checkpoints_CheckBlock.
  change (checkpoints_fEnabled (node_of env w)) with (checkpoints_fEnabled (env (w_chain w))). by rewrite He, Hr; cbn [mbind option_bind negb]; rewrite Ha.
Qed.

(** A block with one transaction at a height of the proof-of-stake era: the
    entry of its index is computed from its second transaction. *)
Lemma one_transaction_undefined M H w tp hw block q bq :
  world_inv M H w tp hw → w.(w_index) !! Block_GetHash block = None → w.(w_index) !! block.(header).(hashPrevBlock) = Some q → w_tree w !! q = Some bq →
  NetworkUpgradeActive (node_of env w).(consensus) (bq.(nHeight) + 1) ACTIVATE_POS = true → length block.(vtx) = 1%nat →
  AddToBlockIndex env alloc address block w = None.
Proof.
  intros Hw Hnew Hprev Hq Hpos Hl. pose proof (alloc_fresh (w_tree w)) as Hfr. unfold AddToBlockIndex. rewrite Hnew.
  assert (link_entry address (node_of env w) (<[Block_GetHash block:=alloc (w_tree w)]> (w_index w))
    (<[alloc (w_tree w):=new_entry block]> (w_tree w)) block (new_entry block) = None) as ->; [|done].
  unfold link_entry. rewrite lookup_insert_ne, Hprev by congruence. rewrite lookup_insert_ne, Hq by congruence. cbn [mbind option_bind].
  destruct (BuildSkip _ _) as [b|] eqn:E; [|done]. cbn [mbind option_bind].
  assert (nHeight b = nHeight bq + 1) as ->.
  { unfold BuildSkip in E. destruct (pprev _); [|injection E as <-; by destruct (new_entry block)]. destruct (GetAncestor _ _ _); [|done].
    injection E as <-. by destruct (new_entry block). }
  rewrite Hpos. cbn [negb]. by rewrite (lookup_ge_None_2 (vtx block)) by lia.
Qed.
End accepting.


(** ** A node with its genesis block, and the first block *)

#[local] Existing Instance sample_coins.
#[local] Existing Instance sample_laws.
#[local] Existing Instance block_crypto.
#[local] Existing Instance block_sapling.
#[local] Existing Instance one_key.

Definition genesis_entry : CBlockIndex :=
  mkCBlockIndex (uint_zero 8) None None 0 0 0 0 (uint_of_u64 W256 1) 1 1 13 [] 0 0 None 1 (uint_zero 8) (uint_zero 8) (uint_zero 8) 900 0x207fffff 0 0.
Definition genesis_tree : BlockTree := {[1%positive := genesis_entry]}.
Definition genesis_chain : ChainState ptr :=
  mkChainState genesis_tree [Some 1%positive] {[1%positive]} [] None 1 1%positive.
Definition genesis_world : World ptr := mkWorld genesis_chain {[uint_zero 8 := 1%positive]} (Some 1%positive) used_files.
Definition first_block : CBlock := sample_block [sample_coinbase (push_int64 1 ++ [OP_0])].
Definition regtest_env (_ : ChainState ptr) : Node := sample_node REGTEST 2000 ∅.

(** An allocator: the address after the largest one in use. *)
Definition after_all (t : BlockTree) : ptr := Pos.succ (foldr Pos.max 1%positive (elements (dom t))).

Lemma max_above (l : list ptr) p : p ∈ l → (p <= foldr Pos.max 1 l)%positive.
Proof. induction l as [|x l IH]; [by intros ?%elem_of_nil|]. cbn. intros [->|H]%elem_of_cons; [lia|]. specialize (IH H). lia. Qed.
Lemma after_all_fresh t : t !! after_all t = None.
Proof.
  destruct (t !! after_all t) as [b|] eqn:E; [|done].
  assert (after_all t ∈ elements (dom t)) as H%max_above by (apply elem_of_elements, elem_of_dom; eauto). unfold after_all in H. lia.
Qed.

Lemma genesis_tree_inv : tree_inv 1 genesis_tree.
Proof. apply tree_inv_check, (bool_decide_unpack _). vm_compute. exact I. Qed.
Lemma genesis_index_inv : index_inv 1 genesis_tree.
Proof. apply index_inv_check, (bool_decide_unpack _). vm_compute. exact I. Qed.

(** A property of the genesis block is one of all blocks. *)
Lemma genesis_only p b : genesis_tree !! p = Some b → p = 1%positive ∧ b = genesis_entry.
Proof. unfold genesis_tree. by intros [<- <-]%lookup_singleton_Some. Qed.
Lemma genesis_ancestor q : is_ancestor genesis_tree 1 q → q = 1%positive.
Proof.
  intros H. refine (ancestors_check (λ q, q = 1%positive) genesis_tree 1 genesis_entry (ti_wf _ _ genesis_tree_inv) eq_refl _ q H).
  constructor; [reflexivity|constructor].
Qed.

Lemma genesis_inv : chain_inv 1 genesis_chain 1 1.
Proof.
  pose proof (ti_wf _ _ genesis_tree_inv) as Hwf.
  pose proof (linked_of_chain_tx 1 genesis_tree 1 genesis_entry Hwf genesis_index_inv eq_refl ltac:(done)) as Hl.
  assert (ready genesis_tree 1) as Hr.
  { intros q ->%genesis_ancestor. by exists genesis_entry. }
  assert (validated genesis_tree 1) as Hv.
  { intros q c ->%genesis_ancestor [_ ->]%genesis_only. by right. }
  apply chain_inv_top; [split|..]; cbn; try done.
  - apply genesis_tree_inv.
  - exists genesis_entry. split; [done|]. split; [done|]. intros i Hi. destruct i as [|i]; [done|cbn in Hi; lia].
  - intros p ->%elem_of_singleton. split; [|done]. apply elem_of_dom. by exists genesis_entry.
  - apply (bool_decide_unpack _). vm_compute. exact I.
  - intros p Hrp _ _ _. destruct (ready_lookup _ _ Hrp) as (bp & [-> _]%genesis_only & _). set_solver.
Qed.

Lemma genesis_world_inv : world_inv 1 (uint_zero 8) 100 1000 genesis_world 1 1.
Proof.
  split; cbn.
  - split; [apply genesis_inv|apply genesis_index_inv| |].
    + split; [done|]. cbn. intros p b [_ ->]%genesis_only. cbn. lia.
    + split; cbn; [by intros a x ?%elem_of_nil|apply NoDup_nil_2].
  - intros p b [_ ->]%genesis_only. done.
  - intros h p. trans (({[uint_zero 8 := 1%positive]} : gmap base_uint ptr) !! h = Some p); [done|]. rewrite lookup_singleton_Some. split.
    + intros [<- <-]. by exists genesis_entry.
    + intros (b & [-> ->]%genesis_only & <-). done.
  - by exists genesis_entry.
  - intros p [= <-]. apply elem_of_dom. by exists genesis_entry.
Qed.

Lemma first_block_fits q bq : w_index genesis_world !! hashPrevBlock (header first_block) = Some q → w_tree genesis_world !! q = Some bq →
  block_fits 100 1000 first_block bq.
Proof.
  intros _ [_ ->]%genesis_only. assert (length (vtx first_block) = 1%nat) as E by done.
  split; [by vm_compute|by vm_compute|by vm_compute|cbn; lia|rewrite E; lia|lia].
Qed.
Lemma first_block_length : 0 < Z.of_nat (length (vtx first_block)) <= 100.
Proof. assert (length (vtx first_block) = 1%nat) as -> by done. lia. Qed.
Lemma genesis_no_failed : no_failed_checkpoint regtest_env genesis_world.
Proof. by intros p b [_ ->]%genesis_only. Qed.

Definition accept_first := AcceptBlock regtest_env after_all (λ _ _, coinEmpty) 0 true [1; 2; 3; 4] good_os first_block None genesis_world.
Definition process_first := ProcessNewBlock regtest_env after_all (λ _ _, coinEmpty) 0 true [1; 2; 3; 4] good_os first_block None genesis_world.

Lemma AcceptBlock_keeps_invariant_witness :
  ∃ w', accept_first = Some (Done 2%positive, w') ∧ world_inv 1 (uint_zero 8) 100 1000 w' 1 1 ∧
    w'.(w_index) !! Block_GetHash first_block = Some 2%positive.
Proof.
  assert (∃ w', accept_first = Some (Done 2%positive, w')) as [w' E] by (eexists; vm_compute; reflexivity).
  exists w'. split; [exact E|]. unfold accept_first in E.
  destruct (AcceptBlock_keeps_invariant regtest_env after_all (λ _ _, coinEmpty) 0 true [1; 2; 3; 4] 1 (uint_zero 8) after_all_fresh (λ _, eq_refl)
    100 1000 genesis_world 1 1 good_os first_block None (Done 2%positive) w' genesis_world_inv genesis_no_failed first_block_fits first_block_length
    eq_refl E) as [A1 _ A3 _ _].
  split; [exact A1|]. apply (A3 2%positive eq_refl).
Defined.

